(* ===== verification/_CoqProject ===== *)
-Q . S2P
Prelude.v
PartitionVersion.v
Memtable.v
Coordinator.v
CoordinatorInv.v
CoordinatorBatch.v
PortSystem.v
PortSystemInv.v
PortTheorems.v
DnsWire.v
CreateQuery.v
ParseList.v
ParseHost.v
InetAddr.v
InetAddr6.v
LList.v
Channel.v
Resolver.v
ResolverInv.v
ResolverSend.v
ResolverAnswer.v
ResolverIO.v
ResolverTheorems.v
ReadLine.v
Search.v
QueryId.v
AddrSort.v
HostsFile.v
GetHost.v
NameInfo.v
Config.v
ConfigInv.v
ConfigFile.v
ConfigInit.v
ConfigTheorems.v
Servers.v
ServersTheorems.v
Dup.v
Fds.v
Mergeable.v
RangeTombstones.v
RangeTombstonesInv.v
RangeTombstonesTheorems.v
Cell.v
Counters.v
Keyed.v
Row.v
RowInv.v
RowTheorems.v
MutationPartition.v
MutationPartitionTheorems.v
MutationPartitionAssoc.v
PartitionWrite.v
Compaction.v
CompactionTheorems.v
Compactor.v
CompactorTheorems.v
PortReader.v
PortReaderTheorems.v
PortRead.v
