(* ===== verification/Prelude.v ===== *)
(** * Scylla-PORT: a verification development

    Scylla-PORT is the Scylla database extended with PORT, a protocol for
    performance-optimal read-only transactions, on the Seastar framework. This
    development models three parts of src/Scylla-moon:

    - PORT's write and read path: the coordinator that sends a write to its
      replicas and collects their answers (service/storage_proxy.cc), the
      fan-out of a batch (moon_parallel_for_each in
      seastar/core/future-util.hh), the messages between the nodes, the memtable
      (memtable.cc) and the multi-version partition entry
      (partition_version.hh and .cc), PORT's own data structure, and the reader
      of one version (partition_snapshot_reader.hh);
    - Scylla's data model, which PORT's versions hold: cells, counters,
      collections, rows and range tombstones (atomic_cell.hh, counters.cc,
      types.cc, mutation_partition.cc, range_tombstone_list.cc), their merge
      with its strong exception guarantee, and their compaction on the way to a
      client or to a new file (mutation_compactor.hh);
    - c-ares (seastar/c-ares), the DNS library Seastar resolves host names
      with: the DNS message code, which handles bytes from the network, the
      resolver engine, which drives queries over servers, sockets, retries and
      time-outs, its configuration, and what is built on the engine: queries with
      their identifiers, search lists, the hosts file and host lookups.

    The DNS library shares no state with the rest. In PORT, a batch goes through
    the fan-out to one write handler per mutation, a handler sends messages, a replica applies the
    mutation to the partition entry that its memtable holds for the key and
    answers with the version the entry gave it, and the handler reports once
    enough answers are in. The version that the entry adds is the partition that
    a builder makes of the frozen write and [mutation_partition::apply] moves into
    an empty one. A read chooses a version, a reader makes a stream of its rows
    and range tombstones, [compact_mutation] removes what is deleted or expired,
    and the querier writes the cells with their versions. Inside c-ares, a host
    lookup makes searches, a search makes queries, a query is sent by the engine, and the answers come back the
    same way through callbacks; the engine builds on the name decoder, the string
    comparison and the circular lists, the reply parsers on the name decoder and
    the typed reply nodes.

    ** Files

    - Prelude.v: the C execution monad [M] (allocation, undefined behaviour,
      fuel), its weakest-precondition calculus [wp] with [wp_step], bytes and
      buffers, and lemmas on lists.
    - PartitionVersion.v: [partition_entry::apply], [partition_entry::read],
      the constructor and [partition_snapshot::~partition_snapshot].
    - Memtable.v: [find_or_create_partition], [memtable::apply] of a versioned
      mutation and the reader of a single partition.
    - Coordinator.v: [moon_parallel_for_each], the write response handlers and
      their table, throttling, expiry, [mutate_prepare], [moon_mutate_begin],
      [moon_mutate_end], [do_moon_mutate] and [send_to_live_endpoints].
      CoordinatorInv.v and CoordinatorBatch.v: their invariant and its
      preservation, for one handler and for a batch.
    - PortSystem.v: the whole system, coordinator, messages in flight and
      replicas, as a step function on events; PortSystemInv.v: its invariant;
      PortTheorems.v: the results.
    - DnsWire.v: ares_dns.h, ares_expand_name.c, ares_expand_string.c; the
      relation [name_at] is RFC 1035's encoding of names by labels and pointers,
      without its limit of 255 octets, which the decoder does not enforce.
    - CreateQuery.v: ares_create_query.c, ares_mkquery.c.
    - ParseList.v: ares_data.c and the MX, SRV, NAPTR, TXT and SOA parsers
      (ares_parse_*_reply.c). The loop over answer records that the sources
      repeat is [rr_loop], parameterised by the body; the class [ares_data]
      gives the allocated fields of a node type.
    - ParseHost.v: the A, AAAA, NS and PTR parsers, ares_free_hostent.c,
      ares_strcasecmp.c.
    - InetAddr.v, InetAddr6.v: inet_ntop.c, inet_net_pton.c, bitncmp.c.
    - LList.v: ares_llist.c, [swap_lists] of ares_process.c and the exchange of
      heads in ares_cancel.c, on a store of nodes.
    - Channel.v: the structures of ares_private.h and the monad [E] of the
      engine with its calculus [ewp].
    - Resolver.v: ares_process.c, ares_send.c, ares_cancel.c, ares_timeout.c,
      ares__close_sockets.c, and what ares_destroy.c and ares_init.c do to
      queries and servers.
    - ResolverInv.v, ResolverSend.v, ResolverAnswer.v, ResolverIO.v: the
      invariant of the engine and that every operation keeps it: the end of a
      query; attempts, connection errors and time-outs; answers; sockets, and
      the entry points. ResolverTheorems.v states the results.
    - ReadLine.v: ares__read_line.c.
    - Search.v: ares_search.c with the host aliases.
    - QueryId.v: ares_query.c on the engine, and [init_id_key] of ares_init.c.
    - AddrSort.v: the sort list, its configuration in ares_init.c and the sorts of
      ares_gethostbyname.c.
    - HostsFile.v: ares__get_hostent.c and the two [file_lookup].
    - GetHost.v: ares_gethostbyname.c and ares_gethostbyaddr.c.
    - NameInfo.v: ares_getnameinfo.c.
    - Config.v: the configuration of a channel in ares_init.c, from options,
      environment, files and defaults. ConfigInv.v, ConfigFile.v, ConfigInit.v:
      its safety, the meaning of the files, and what each source gives;
      ConfigTheorems.v: the results.
    - Servers.v, ServersTheorems.v: ares_options.c. Dup.v: [ares_save_options]
      and [ares_dup]. Fds.v: ares_fds.c and ares_getsock.c.
    - Mergeable.v: tombstones, row tombstones and row markers, and the contract of
      reversibly_mergeable.hh as a class that the following files discharge.
    - RangeTombstones.v: range_tombstone_list.cc with its reverter, and the order
      of bounds; RangeTombstonesInv.v, RangeTombstonesTheorems.v: its proof on
      ranks and on the order of the code.
    - Cell.v, Counters.v: cells, collections and counters. Keyed.v: the scheme by
      which containers are merged key by key.
    - Row.v, RowInv.v, RowTheorems.v: rows in their two representations.
      MutationPartition.v, MutationPartitionTheorems.v: whole partitions;
      MutationPartitionAssoc.v: when their addition is associative.
    - PartitionWrite.v: partition_builder.hh and the partition that
      [partition_entry::apply] makes of a write; it relates the contents of a
      partition to the parameter of PartitionVersion.v.
    - Compaction.v, CompactionTheorems.v: [compact_and_expire] of cells,
      collections and rows. Compactor.v, CompactorTheorems.v: [compact_mutation],
      its accumulator of range tombstones and the [consume] that drives it.
    - PortReader.v, PortReaderTheorems.v: [partition_snapshot_flat_reader], the
      squashed tombstone and static row of a snapshot, and [data_query] of one
      partition. PortRead.v: a read from end to end.

    ** How the code is modelled

    Definitions keep the names of the functions; loops are fixpoints named
    after what they do. Integers are [Z]; where the C type can overflow, the
    wrap-around (unsigned) or the undefined behaviour (signed) is written out.
    Reading or writing outside a buffer, a null pointer, a freed block or a
    failed [assert] is undefined behaviour, a value of the outcome type, never
    a default. Allocation succeeds or fails as an arbitrary oracle says, and
    [live] counts the blocks in use, so that the theorems cover every pattern
    of failing allocations and state that nothing leaks. In the engine, the
    results of system calls, of socket callbacks, of [rand] and the received
    data are arbitrary streams, the clock is an argument, and what happens to
    the outside is recorded in a trace. A [struct query] is identified by its
    address in a store, and addresses are not reused, so that a stale pointer
    is always detected. A circular list of queries is the list of their
    addresses, which LList.v justifies. A file is its bytes and whether a read
    error follows them. [inet_addr], [inet_pton], [getservbyport_r],
    [if_indextoname] and [gethostname] of the system are parameters.

    A search or host lookup is a machine: a step returns what it does to the
    outside, a query that will be answered or the application's callback, and
    a run feeds it answers. That the engine answers each query once is what
    [resolver_callback_once] shows.

    In PORT, the coordinator's C++ is state passing with [option] for a failed
    assertion, a promise resolved twice or abandoned and a null dereference; a
    future is the result it will hold and who waits for it. The order of
    messages, timers, completions and replica work is an arbitrary sequence of
    events: a write of the coordinator's own node is applied by one event and
    answered by another, and a replica forwards a write before or after it applies
    it. [dropped] records the writes that a replica dropped as late. Which replicas
    are alive, the consistency level and the hints are inputs of a write; the contents of a partition are a type parameter, which
    PartitionWrite.v and PortRead.v instantiate.

    In the data model, an allocation that throws is an argument that says which
    one fails, and an operation ends with a merge, with the exception and the state
    it leaves, or stuck in a failed assertion. Iterators into lists are zippers,
    trees and intrusive sets are finite maps visited in the order of the schema's
    comparison, which is a parameter with the laws of a three-way order. What a
    reader sees of a cell under a deletion, [visible], is the specification of
    compaction. The reader may find the snapshot changed at any step.

    ** What is proved

    - PORT, one entry: a version that a transaction read and keeps pinned stays
      what that transaction reads, while all writes carry a version
      ([port_read_repeatable]); exactly which write is dropped as late and which
      number and contents any other gets ([port_write_commit]); reads return the newest version not above the
      asked one ([port_read_newest]); the list stays sorted, distinct and
      bounded ([port_run_invariant]); a write succeeds under conditions that
      [port_gc_null_dereference] shows to be needed ([port_write_total]).
    - PORT, the system: in any run no promise is resolved twice or abandoned, no
      assertion fails and the counters are exact ([port_coordinator_safe]),
      provided that a write at level ANY with live targets has enough of them
      ([port_any_broken_promise] shows what happens otherwise); a write that
      returned was handled by enough of its replicas, which show its contents
      unless they dropped it as late ([port_write_quorum]); it is visible at and above its version
      ([port_write_visible]), and so are all writes of a batch at the version the
      fan-out combines ([port_batch_visible], [moon_parallel_for_each_max]);
      every write gets its result ([port_writes_resolve]).
    - Data, with counters of shards or deleted ones and not counter updates:
      [mutation_partition::apply] is the merge of its parts or leaves
      everything as it was, whichever allocation fails ([partition_apply_strong]);
      so do rows ([row_merge_contract]), range tombstones keep their order and
      cover each key with the newest deletion ([range_tombstones_merge]), counters
      converge ([counter_merge_converges]), and mutations may be grouped in any way
      while no marker is dead ([partition_addition_associative]).
    - Reads: a version is exactly its write ([port_write_contents]); compaction
      loses nothing and brings nothing back, when later data do not disturb what
      was purged or expired ([compaction_no_resurrection]); a query for live rows
      passes on exactly what is visible, in order and up to its limits
      ([query_answers_visible]); together, a PORT read answers with the visible
      cells of the write whose version it was given ([port_read_answer]).
    - Engine, under the conditions listed below: any run is free of undefined
      behaviour and terminates ([resolver_run_safe]); every query is called back exactly once and
      nothing leaks ([resolver_callback_once]); the number of attempts is
      bounded; an answer changes only the query it answers; time-outs are
      found; a connection error stays local; the TCP queue is a byte stream;
      the time-out told to the caller is the smallest.
    - Queries and lookups: [ares_query] keeps the engine's invariant and
      accounts for its blocks ([ares_query_correct]), the identifier generator
      stays inside its state ([id_generator_well_formed]); a search asks for the
      names of its specification in order and reports its verdict
      ([ares_search_correct], [ares_search_reports], [single_domain_correct]);
      lines, aliases and host entries are those of the file
      ([ares__read_line_correct], [file_lookup_correct]); host lookups are safe,
      end and report once ([gethostbyname_safe], [gethostbyaddr_safe]) and find
      the host ([gethostbyname_finds]); the name of a socket address is what was
      asked for ([getnameinfo_correct]); the sort list sorts stably
      ([sort_addresses_stable]).
    - Configuration: [ares_init_options] is safe on options, files and host names
      within stated bounds, whichever allocation or read fails
      ([ares_init_options_safe]); each setting, the sort list, the ports and the
      sizes included, comes from the first source that has it
      ([ares_init_precedence]); and the channel satisfies the
      engine's invariant ([ares_init_runs]); servers survive the way through lists
      and texts ([servers_roundtrip], [set_servers_csv_correct],
      [servers_csv_roundtrip]); a duplicate has the settings that are saved
      ([ares_dup_correct]); the two views of the sockets agree
      ([fds_getsock_agree]).
    - Messages: every parser but that of NAPTR records and the query writer stay
      within their buffers on any input, return exactly what an independent
      description of the message says, with the right error otherwise, and
      account for every block.
    - Text: IPv4 and IPv6 addresses survive printing and parsing, encoded names
      survive decoding.
    - Lists: the pointer code implements operations on lists.
    - Further theorems show where the code goes wrong, each with an input and the
      undefined behaviour or wrong result it leads to: about PORT's collection
      ([port_gc_null_dereference], [port_collection_resurrects]), unversioned and
      partial writes ([port_unversioned_write_not_repeatable],
      [port_partial_write_hides]) and reported versions
      ([port_last_response_wins], [port_any_reports_zero],
      [port_any_broken_promise], [do_moon_mutate_dangling]), about the versions of merged cells
      ([cell_version_by_storage]), reverted counter updates and the order of
      merges ([counter_update_not_reverted], [cell_merge_ttl_order],
      [dead_marker_grouping]), and in c-ares about the NAPTR and A parsers, the
      line reader, the sort list, the IPv6 text parser, the engine, query
      identifiers, the host name of a socket address, configuration, the servers
      of a channel in use and the bit map of [ares_getsock].

    ** Bounds and fuel

    - Messages have at most 32767 bytes where names are decoded: above, an
      [int] of [name_length] can overflow on a compression loop. UDP messages
      have at most 4097 bytes; a TCP message can be longer, and [excused] in
      Channel.v is exactly that a longer one is being processed.
    - The decoder's fuel is the square of the message length plus two: it visits
      at most [alen + 1] positions between two indirections and gives up after
      as many indirections as the message has bytes. The mutual
      recursion of [ares__send_query] and [next_server] has [send_fuel], two
      steps for each of [nservers * tries] attempts. A bucket of time-outs is
      visited at most twice its length, since a query can be filed into the
      bucket once more while it is processed. The loops over lists of queries
      have the length of the list, the loop over UDP packets the number of
      packets available, the loops over a file or a line its length. That no
      fuel runs out is part of every theorem. The one loop without a bound in
      the code, the drawing of identifiers, has its number of draws as an
      argument, and [can_draw] says that they suffice.
    - Versions of PORT are 32-bit; runs of an entry have fewer than 2^31
      operations, runs of the system fewer than 2^30 events.
    - Files have fewer than 2^28 bytes, so that the size of the line buffer stays
      an [int], and no NUL byte ([ares__read_line_nul_underrun]), and a read error
      comes between lines ([text_file]). Items of a sort list in a file have at
      most fifteen characters ([config_sortlist_overflow]), time-outs in seconds
      fit an [int] in milliseconds, and [gethostname] leaves a NUL in its buffer
      ([nameinfo_hostname_overread]). Time-outs of a lookup add up to an [int].
    - Merges hold for any allocation that fails; timestamps are integers above the
      missing one and deletion times 32-bit. The limits of a query are positive
      32-bit numbers, and [port_read_answer] gives the number of steps after which
      the reader has ended.
    - The engine's theorems ask for a configuration whose longest time-out fits
      an [int] ([attempt_timeout_overflow] shows what happens otherwise), no
      EDNS ([edns_retry_stale_request]) and no [ares_cancel] with
      [ARES_FLAG_STAYOPEN] ([ares_cancel_use_after_free]). The connection
      generation is not wrapped around.

    ** What is not modelled

    The application's callback is recorded, not run: calls it makes on the
    channel are further operations of a run, between handlers and not inside
    one. Queries, searches and host lookups are joined by the answers they are
    given and not run on the trace of the engine. The branches for Windows,
    Android and other systems are left out.

    Of PORT, the Thrift front end (thrift/handler.cc) decodes requests, and the
    coordinator's reads, flushing, digests, the reversed order of a read and
    memory accounting are not modelled, nor are the difference of partitions,
    schema upgrades, serialisation and the cells of a static row in an answer.
    SSTables, the cache, CQL, gossip and repair are Scylla's and pass
    versions through or do not know them. DPDK's libraries are third-party code
    that this build of Scylla does not call on the data path. The baseline
    src/Scylla-original is the system PORT is compared with. *)

From stdpp Require Export base tactics list numbers option sorting.
From Stdlib Require Export ZArith Lia.

Open Scope Z_scope.

(** ** The C execution monad

    [heap] is what a C function can observe and change of the allocator:
    [live] counts the blocks handed out by [ares_malloc] and not yet released,
    [oracle] decides whether each coming allocation succeeds ([false] is a
    failing call; an exhausted oracle always succeeds). *)

Record heap := Heap { live : Z; oracle : list bool }.

(** The outcome of running C code: it returns a value, it performs an access
    or an arithmetic operation whose behaviour C does not define, or the fuel
    given to a loop of the model runs out. *)
Inductive outcome (A : Type) : Type :=
| Ret (a : A) (h : heap)
| UB
| OutOfFuel.
Arguments Ret {A} a h.
Arguments UB {A}.
Arguments OutOfFuel {A}.

Definition M (A : Type) : Type := heap -> outcome A.

#[export] Instance M_ret : MRet M := fun A a h => Ret a h.
#[export] Instance M_bind : MBind M := fun A B k m h =>
  match m h with
  | Ret a h' => k a h'
  | UB => UB
  | OutOfFuel => OutOfFuel
  end.

Definition undefined {A} : M A := fun _ => UB.
Definition no_fuel {A} : M A := fun _ => OutOfFuel.

(** [assert_c b]: the operation is defined only when [b] holds. *)
Definition assert_c (b : bool) : M unit := if b then mret () else undefined.

(** [ares_malloc], reduced to whether a block is obtained. *)
Definition c_malloc : M bool := fun h =>
  match oracle h with
  | [] => Ret true (Heap (live h + 1) [])
  | true :: o => Ret true (Heap (live h + 1) o)
  | false :: o => Ret false (Heap (live h) o)
  end.

(** [ares_realloc] of a live block: the block count does not change. *)
Definition c_realloc : M bool := fun h =>
  match oracle h with
  | [] => Ret true h
  | b :: o => Ret b (Heap (live h) o)
  end.

(** [ares_free] of a non-null pointer; releasing more blocks than were ever
    handed out is undefined. *)
Definition c_free : M unit := fun h =>
  if live h <=? 0 then UB else Ret () (Heap (live h - 1) (oracle h)).

(** [n] successive frees. *)
Fixpoint c_free_n (n : nat) : M unit :=
  match n with
  | O => mret ()
  | S n' => c_free ;; c_free_n n'
  end.

(** [if (p) ares_free(p)]. *)
Definition c_free_opt {A} (p : option A) : M unit :=
  match p with Some _ => c_free | None => mret () end.

(** ** Machine integers *)

Definition INT_MAX : Z := 2147483647.
Definition INT_MIN : Z := -2147483648.

(** Conversion to an unsigned type of [w] bits, and to the 32-bit signed int. *)
Definition uwrap (w : Z) (x : Z) : Z := x mod 2 ^ w.
Definition to_int32 (x : Z) : Z := (x + 2 ^ 31) mod 2 ^ 32 - 2 ^ 31.

(** Addition of two [int]s: overflow is undefined. *)
Definition int_add (a b : Z) : M Z :=
  if (INT_MIN <=? a + b) && (a + b <=? INT_MAX) then mret (a + b) else undefined.

(** ** Byte buffers

    A buffer is a list of cells; a cell is read as an [unsigned char], that
    is modulo 2^8. Reading outside the buffer is undefined. *)

Definition Zlen {A} (l : list A) : Z := Z.of_nat (length l).

Definition byte_at (buf : list Z) (i : Z) : option Z :=
  if 0 <=? i then (fun b => b mod 256) <$> buf !! Z.to_nat i else None.

Definition get_byte (buf : list Z) (i : Z) : M Z :=
  match byte_at buf i with Some b => mret b | None => undefined end.

(** [memcpy] out of a buffer. *)
Fixpoint get_bytes (buf : list Z) (i : Z) (n : nat) : M (list Z) :=
  match n with
  | O => mret []
  | S n' => b ← get_byte buf i; bs ← get_bytes buf (i + 1) n'; mret (b :: bs)
  end.

(** The cells [i .. i+n-1] of a buffer, as values. *)
Definition slice (buf : list Z) (i : Z) (n : nat) : list Z :=
  (fun b => b mod 256) <$> take n (drop (Z.to_nat i) buf).

(** A character written to an allocated block of [cap] bytes of which the
    bytes [rev q] are already written. *)
Definition put_char (cap : Z) (q : list Z) (c : Z) : M (list Z) :=
  if Zlen q <? cap then mret (c :: q) else undefined.

(** A sequence of characters written one after the other. *)
Fixpoint put_chars (cap : Z) (q : list Z) (cs : list Z) : M (list Z) :=
  match cs with
  | [] => mret q
  | c :: cs' => q' ← put_char cap q c; put_chars cap q' cs'
  end.

(** What the C string functions see of an array: the bytes before the first
    NUL. *)
Fixpoint c_str (s : list Z) : list Z :=
  match s with
  | [] => []
  | c :: s' => if c =? 0 then [] else c :: c_str s'
  end.

(** ** The program logic

    [wp m h Q]: run from heap [h], [m] returns (no undefined behaviour, no
    exhausted fuel) and its result and final heap satisfy [Q]. *)

Definition wp {A} (m : M A) (h : heap) (Q : A -> heap -> Prop) : Prop :=
  match m h with Ret a h' => Q a h' | UB => False | OutOfFuel => False end.

Create HintDb cares discriminated.
Create Rewrite HintDb cares.

Lemma wp_ret {A} (a : A) h (Q : A -> heap -> Prop) : Q a h -> wp (mret a) h Q.
Proof. done. Qed.

Lemma wp_bind {A B} (m : M A) (k : A -> M B) h (Q : B -> heap -> Prop) :
  wp m h (fun a h' => wp (k a) h' Q) -> wp (m ≫= k) h Q.
Proof. unfold wp, mbind, M_bind. by destruct (m h). Qed.

Lemma wp_bind_iff {A B} (m : M A) (k : A -> M B) h (Q : B -> heap -> Prop) :
  wp (m ≫= k) h Q <-> wp m h (fun a h' => wp (k a) h' Q).
Proof. unfold wp, mbind, M_bind. by destruct (m h). Qed.

Lemma wp_mono {A} (m : M A) h (P Q : A -> heap -> Prop) :
  wp m h P -> (forall a h', P a h' -> Q a h') -> wp m h Q.
Proof. unfold wp. destruct (m h); naive_solver. Qed.

Lemma wp_conj {A} (m : M A) h (P Q : A -> heap -> Prop) :
  wp m h P -> wp m h Q -> wp m h (fun a h' => P a h' /\ Q a h').
Proof. unfold wp. destruct (m h); naive_solver. Qed.

(** A postcondition that holds of a run can be read off its outcome. *)
Lemma wp_outcome {A} (m : M A) h (Q : A -> heap -> Prop) :
  wp m h Q -> exists a h', m h = Ret a h' /\ Q a h'.
Proof. unfold wp. destruct (m h); naive_solver. Qed.

Lemma wp_of_outcome {A} (m : M A) h a h' (Q : A -> heap -> Prop) :
  m h = Ret a h' -> Q a h' -> wp m h Q.
Proof. unfold wp. by intros ->. Qed.

Lemma wp_assert (b : bool) h (Q : unit -> heap -> Prop) :
  b = true -> Q () h -> wp (assert_c b) h Q.
Proof. by intros ->. Qed.

Lemma wp_malloc h (Q : bool -> heap -> Prop) :
  (forall o, (oracle h = [] -> o = []) -> Q true (Heap (live h + 1) o)) ->
  (forall o, oracle h <> [] -> Q false (Heap (live h) o)) ->
  wp c_malloc h Q.
Proof.
  intros Ht Hf. unfold wp, c_malloc.
  destruct (oracle h) as [|[] o]; [by apply Ht|by apply Ht|by apply Hf].
Qed.

Lemma wp_realloc h (Q : bool -> heap -> Prop) :
  (forall o, (oracle h = [] -> o = []) -> Q true (Heap (live h) o)) ->
  (forall o, oracle h <> [] -> Q false (Heap (live h) o)) ->
  wp c_realloc h Q.
Proof.
  intros Ht Hf. unfold wp, c_realloc. destruct h as [l [|[] o]]; cbn in *;
    [by apply Ht|by apply Ht|by apply Hf].
Qed.

Lemma wp_free h (Q : unit -> heap -> Prop) :
  0 < live h -> Q () (Heap (live h - 1) (oracle h)) -> wp c_free h Q.
Proof.
  intros Hl HQ. unfold wp, c_free.
  destruct (Z.leb_spec (live h) 0); [lia | done].
Qed.

Lemma wp_free_n n h (Q : unit -> heap -> Prop) :
  Z.of_nat n <= live h ->
  Q () (Heap (live h - Z.of_nat n) (oracle h)) -> wp (c_free_n n) h Q.
Proof.
  revert h; induction n as [|n IH]; intros h Hl HQ; cbn [c_free_n].
  - apply wp_ret. destruct h as [l o]; cbn in *. by rewrite Z.sub_0_r in HQ.
  - apply wp_bind, wp_free; [lia|]. apply IH; cbn; [lia|].
    by replace (live h - 1 - Z.of_nat n) with (live h - Z.of_nat (S n)) by lia.
Qed.

Definition blocks_opt {A} (p : option A) : Z :=
  match p with Some _ => 1 | None => 0 end.

Lemma blocks_opt_nonneg {A} (p : option A) : 0 <= blocks_opt p.
Proof. by destruct p. Qed.

Lemma wp_free_opt {A} (p : option A) h (Q : unit -> heap -> Prop) :
  blocks_opt p <= live h ->
  Q () (Heap (live h - blocks_opt p) (oracle h)) -> wp (c_free_opt p) h Q.
Proof.
  intros Hl HQ. destruct p; cbn in *.
  - by apply wp_free; [lia|].
  - apply wp_ret. destruct h; cbn in *. by rewrite Z.sub_0_r in HQ.
Qed.

Lemma wp_int_add a b h (Q : Z -> heap -> Prop) :
  INT_MIN <= a + b <= INT_MAX -> Q (a + b) h -> wp (int_add a b) h Q.
Proof.
  intros Hr HQ. unfold int_add.
  destruct (Z.leb_spec INT_MIN (a + b)), (Z.leb_spec (a + b) INT_MAX); try lia.
  by apply wp_ret.
Qed.

(** Reads inside the buffer return a byte. *)
Lemma byte_at_in buf i :
  0 <= i < Zlen buf -> exists b, byte_at buf i = Some b /\ 0 <= b < 256.
Proof.
  intros Hi. unfold byte_at, Zlen in *.
  destruct (Z.leb_spec 0 i); [|lia].
  destruct (lookup_lt_is_Some_2 buf (Z.to_nat i)) as [x Hx]; [lia|].
  rewrite Hx; cbn. eexists; split; [done|]. apply Z.mod_pos_bound; lia.
Qed.

Lemma byte_at_Some buf i b :
  byte_at buf i = Some b -> 0 <= i < Zlen buf /\ 0 <= b < 256.
Proof.
  unfold byte_at, Zlen. destruct (Z.leb_spec 0 i); [|done].
  destruct (buf !! Z.to_nat i) as [x|] eqn:E; [|done]; cbn.
  intros [= <-]. apply lookup_lt_Some in E.
  pose proof (Z.mod_pos_bound x 256). lia.
Qed.

Lemma byte_at_None buf i : byte_at buf i = None <-> ~ (0 <= i < Zlen buf).
Proof.
  split.
  - intros H Hi. destruct (byte_at_in buf i Hi) as (b & Hb & _). congruence.
  - intros H. destruct (byte_at buf i) as [b|] eqn:E; [|done].
    apply byte_at_Some in E. tauto.
Qed.

Lemma wp_get_byte buf i h (Q : Z -> heap -> Prop) :
  0 <= i < Zlen buf ->
  (forall b, byte_at buf i = Some b -> 0 <= b < 256 -> Q b h) ->
  wp (get_byte buf i) h Q.
Proof.
  intros Hi HQ. destruct (byte_at_in buf i Hi) as (b & Hb & Hr).
  unfold get_byte. rewrite Hb. by apply wp_ret, HQ.
Qed.

Lemma wp_get_byte_Some buf i b h (Q : Z -> heap -> Prop) :
  byte_at buf i = Some b -> Q b h -> wp (get_byte buf i) h Q.
Proof. intros Hb HQ. unfold get_byte. rewrite Hb. by apply wp_ret. Qed.

Lemma slice_cons buf i n b :
  byte_at buf i = Some b -> slice buf i (S n) = b :: slice buf (i + 1) n.
Proof.
  intros Hb. pose proof (byte_at_Some _ _ _ Hb) as [Hi _].
  unfold byte_at in Hb. destruct (Z.leb_spec 0 i); [|lia].
  unfold slice. destruct (buf !! Z.to_nat i) as [x|] eqn:E; [|done].
  cbn in Hb. injection Hb as <-.
  rewrite (drop_S _ _ _ E). cbn. f_equal. f_equal.
  by replace (Z.to_nat (i + 1)) with (S (Z.to_nat i)) by lia.
Qed.

Lemma slice_0 buf i : slice buf i 0 = [].
Proof. unfold slice. by rewrite take_0. Qed.

Lemma slice_length buf i n :
  0 <= i -> i + Z.of_nat n <= Zlen buf -> length (slice buf i n) = n.
Proof.
  intros Hi Hn. unfold slice, Zlen in *.
  rewrite length_fmap, length_take, length_drop. lia.
Qed.

Lemma wp_get_bytes buf i n h (Q : list Z -> heap -> Prop) :
  0 <= i -> i + Z.of_nat n <= Zlen buf ->
  Q (slice buf i n) h -> wp (get_bytes buf i n) h Q.
Proof.
  revert i Q; induction n as [|n IH]; intros i Q Hi Hn HQ; cbn [get_bytes].
  - by apply wp_ret.
  - apply wp_bind, wp_get_byte; [lia|]. intros b Hb _.
    apply wp_bind, IH; [lia..|]. apply wp_ret.
    by rewrite (slice_cons _ _ _ _ Hb) in HQ.
Qed.

Lemma wp_put_char cap q c h (Q : list Z -> heap -> Prop) :
  Zlen q < cap -> Q (c :: q) h -> wp (put_char cap q c) h Q.
Proof.
  intros Hq HQ. unfold put_char.
  destruct (Z.ltb_spec (Zlen q) cap); [by apply wp_ret | lia].
Qed.

(** ** Automation

    [wp_step] runs one operation of the monad; [cdec] turns the boolean
    guard of the source's [if] into an order or equality hypothesis. *)

Ltac cdec_one :=
  match goal with
  | |- context [?a <=? ?b] => destruct (Z.leb_spec a b)
  | |- context [?a <? ?b] => destruct (Z.ltb_spec a b)
  | |- context [?a =? ?b] => destruct (Z.eqb_spec a b)
  end.

Ltac wp_step :=
  cbv beta;
  match goal with
  | |- wp (mbind _ _) _ _ => apply wp_bind
  | |- wp (mret _) _ _ => apply wp_ret
  | |- wp c_malloc _ _ => apply wp_malloc; intros
  | |- wp c_realloc _ _ => apply wp_realloc; intros
  | |- wp c_free _ _ => apply wp_free; cbn [live oracle]; [try lia|]
  | |- wp (c_free_n _) _ _ => apply wp_free_n; cbn [live oracle]; [try lia|]
  | |- wp (get_byte _ _) _ _ => apply wp_get_byte; [try lia | intros]
  | |- wp (get_bytes _ _ _) _ _ => apply wp_get_bytes; [try lia | try lia |]
  | |- wp (int_add _ _) _ _ => apply wp_int_add
  end; cbn [live oracle].

#[export] Hint Resolve blocks_opt_nonneg : cares.

Lemma Zlen_app {A} (l1 l2 : list A) : Zlen (l1 ++ l2) = Zlen l1 + Zlen l2.
Proof. unfold Zlen. rewrite length_app. lia. Qed.

Lemma Zlen_cons {A} (x : A) l : Zlen (x :: l) = 1 + Zlen l.
Proof. unfold Zlen. cbn [length]. lia. Qed.

Lemma Zlen_nil {A} : Zlen (@nil A) = 0.
Proof. done. Qed.

Lemma Zlen_nonneg {A} (l : list A) : 0 <= Zlen l.
Proof. unfold Zlen. lia. Qed.

Lemma elem_of_rev {A} (x : A) l : x ∈ rev l <-> x ∈ l.
Proof. rewrite rev_alt. apply elem_of_reverse. Qed.

Lemma Zlen_rev {A} (l : list A) : Zlen (rev l) = Zlen l.
Proof. unfold Zlen. by rewrite length_rev. Qed.

#[export] Hint Rewrite @Zlen_app @Zlen_cons @Zlen_nil @Zlen_rev : cares.

Lemma wp_put_chars cap q cs h (Q : list Z -> heap -> Prop) :
  Zlen q + Zlen cs <= cap -> Q (rev cs ++ q) h -> wp (put_chars cap q cs) h Q.
Proof.
  revert q; induction cs as [|c cs IH]; intros q Hc HQ; cbn [put_chars].
  - by apply wp_ret.
  - rewrite Zlen_cons in Hc. pose proof (Zlen_nonneg cs). wp_step.
    apply wp_put_char; [lia|]. apply IH; [rewrite Zlen_cons; lia|].
    cbn in HQ. by rewrite <- app_assoc in HQ.
Qed.

(** ** Sublists *)

Lemma Forall_sublist {A} (P : A -> Prop) (l1 l2 : list A) :
  l1 `sublist_of` l2 -> Forall P l2 -> Forall P l1.
Proof. induction 1; rewrite ?Forall_cons; intuition. Qed.

Lemma elem_of_sublist_of {A} (x : A) (l1 l2 : list A) :
  l1 `sublist_of` l2 -> x ∈ l1 -> x ∈ l2.
Proof. induction 1; rewrite ?elem_of_cons; intuition. Qed.

Lemma sublist_map {A B} (f : A -> B) (l1 l2 : list A) :
  l1 `sublist_of` l2 -> f <$> l1 `sublist_of` f <$> l2.
Proof. induction 1; cbn; by constructor. Qed.

Lemma StronglySorted_sublist {A} (R : A -> A -> Prop) (l1 l2 : list A) :
  l1 `sublist_of` l2 -> StronglySorted R l2 -> StronglySorted R l1.
Proof.
  induction 1 as [|x l1 l2 Hs IH|x l1 l2 Hs IH]; intros HS; [done| |];
    apply StronglySorted_inv in HS as [HS HF].
  - constructor; [auto|by eapply Forall_sublist].
  - auto.
Qed.

Lemma StronglySorted_lookup_lt {A} (R : A -> A -> Prop) (l : list A) i j x y :
  StronglySorted R l -> (i < j)%nat -> l !! i = Some x -> l !! j = Some y -> R x y.
Proof.
  intros HS; revert i j; induction HS as [|a l HS IH HF]; intros i j Hij Hx Hy; [done|].
  destruct j as [|j]; [lia|]. cbn in Hy. destruct i as [|i]; cbn in Hx.
  - injection Hx as <-. rewrite Forall_forall in HF.
    by apply HF, (list_elem_of_lookup_2 _ j).
  - by eapply (IH i j); [lia|..].
Qed.
