(* ===== verification/PartitionVersion.v ===== *)
(** * The multi-version partition entry of Scylla-PORT

    Models [partition_entry], [partition_version] and [partition_snapshot] of
    src/Scylla-moon/partition_version.hh and .cc: the version list that makes
    one-round read-only transactions possible. A write ([apply]) prepends a
    version whose number is promoted above every number already read; a read
    ([read]) selects the newest version not above the transaction's version
    and pins it with a snapshot; [apply] also collects old versions.

    A [partition_version] object is identified by its address, [pv_id]. The
    anchorless list is the Rocq list [versions], whose head is the node the
    entry's [_version] reference points to; [prev] and [next] are positions in
    it. The contents of a [mutation_partition] are an arbitrary type [D], save
    for the [most_recent_version] stamp of the cell of column 0, which [apply]
    writes. Dereferencing a null pointer is [None]. The snapshot pointer of the
    entry itself is never set by the versioned code, so [open_version] in
    [read] does nothing. *)

From S2P Require Import Prelude.
From stdpp Require Import sorting.
Open Scope Z_scope.

Section partition.
Context {D : Type}.

(** The part of a [mutation_partition] that is read back: its contents and,
    when column 0 of the row is present, the stamp of its cell. *)
Record mutation_partition := MP { mp_data : D; mp_cell0 : option Z }.

(** A frozen write: contents, and whether it writes column 0. *)
Record mutation_partition_view := MPV { mpv_data : D; mpv_has_cell0 : bool }.

Record partition_version := PV {
  pv_id : nat;
  pv_partition : mutation_partition;
  version_number : Z;
  pv_snapshot : bool;          (* [_snapshot != nullptr] *)
}.

Record partition_entry := PE {
  versions : list partition_version;
  highest_version_read : Z;
  highest_version_written : Z;
  num_versions : Z;
  last_version : option nat;
  next_id : nat;               (* addresses not yet used by the allocator *)
}.

(** [partition_entry(mutation_partition mp)]: one version, numbered 0. *)
Definition partition_entry_new (mp : mutation_partition) : partition_entry :=
  PE [PV 0 mp 0 false] 0 0 0 None 1.

(** [mp.apply(s, mpv, mp_schema, v)] on an empty partition: every cell is
    moved in, none is merged, so no cell is stamped. *)
Definition mp_apply_to_empty (mpv : mutation_partition_view) : mutation_partition :=
  MP (mpv_data mpv) (if mpv_has_cell0 mpv then Some 0 else None).

(** [find_cell(0)->most_recent_version = v]. *)
Definition stamp_cell0 (mp : mutation_partition) (v : Z) : option mutation_partition :=
  match mp_cell0 mp with
  | Some _ => Some (MP (mp_data mp) (Some v))
  | None => None
  end.

(** The position of the node with address [p]. *)
Definition position (p : nat) (vs : list partition_version) : option nat :=
  fst <$> list_find (fun v => pv_id v = p) vs.

(** The collection of one version at the end of [apply]. *)
Definition gc_one (e : partition_entry) : option partition_entry :=
  l ← last_version e;
  i ← position l (versions e);
  pv ← versions e !! i;
  '(l', i') ← (if pv_snapshot pv then Some (l, i)
               else match i with
                    | O => None                (* last_version->prev() is null *)
                    | S j => p ← versions e !! j; Some (pv_id p, j)
                    end);
  (* last_version->next()->erase() *)
  _ ← versions e !! S i';
  Some (PE (delete (S i') (versions e)) (highest_version_read e)
           (highest_version_written e) (num_versions e) (Some l') (next_id e)).

(** The version number a write gets when it is applied. *)
Definition promoted_version_to_write (version_to_write : Z) (e : partition_entry) : Z :=
  if negb (version_to_write =? 0) && (version_to_write <=? highest_version_read e)
  then uwrap 32 (highest_version_read e + 1)
  else if version_to_write =? 0
       then uwrap 32 (highest_version_written e + 1)
       else version_to_write.

(** First writer wins: the write arrives too late and is dropped. *)
Definition write_is_late (version_to_write : Z) (e : partition_entry) : bool :=
  negb (version_to_write =? 0) && (version_to_write <=? highest_version_written e).

(** The insertion of the new version at the head of the list. *)
Definition push_version (pv : Z) (mp : mutation_partition) (e : partition_entry)
    : partition_entry :=
  let new_version := PV (next_id e) mp pv false in
  let last := if pv =? 1 then Some (next_id e) else last_version e in
  PE (new_version :: versions e) (highest_version_read e) pv
     (uwrap 32 (num_versions e + 1)) last (S (next_id e)).

(** [partition_entry::apply]. [cf_is_data] is [s.cf_name() == "data"]. The
    second component is the value stored through [commit_version_ptr]. *)
Definition apply (cf_is_data : bool) (mpv : mutation_partition_view)
    (version_to_write : Z) (e : partition_entry) : option (partition_entry * Z) :=
  if write_is_late version_to_write e
  then Some (e, highest_version_written e)
  else
    let pv := promoted_version_to_write version_to_write e in
    let mp := mp_apply_to_empty mpv in
    mp' ← (if negb (version_to_write =? 0) || cf_is_data
           then stamp_cell0 mp pv else Some mp);
    let e' := push_version pv mp' e in
    if 100 <=? num_versions e
    then e'' ← gc_one e';
         Some (PE (versions e'') (highest_version_read e'') (highest_version_written e'')
                  (uwrap 32 (num_versions e'' - 1)) (last_version e'') (next_id e''), pv)
    else Some (e', pv).

(** The version a read selects, as a position in the list. *)
Definition read_position (version_to_read : Z) (vs : list partition_version) : nat :=
  if 0 <? version_to_read
  then match list_find (fun v => version_number v <= version_to_read) vs with
       | Some (i, v) => if version_number v =? 0 then 0%nat else i
       | None => 0%nat
       end
  else 0%nat.

Definition open_snapshot (pv : partition_version) : partition_version :=
  PV (pv_id pv) (pv_partition pv) (version_number pv) true.

Definition close_snapshot (pv : partition_version) : partition_version :=
  PV (pv_id pv) (pv_partition pv) (version_number pv) false.

(** [partition_entry::read]: the version whose snapshot is returned, opened
    if it was not. *)
Definition read (version_to_read : Z) (e : partition_entry)
    : option (partition_entry * partition_version) :=
  let i := read_position version_to_read (versions e) in
  pv ← versions e !! i;
  let hr := if highest_version_read e <? version_to_read
            then version_to_read else highest_version_read e in
  Some (PE (<[i := open_snapshot pv]> (versions e)) hr (highest_version_written e)
           (num_versions e) (last_version e) (next_id e), pv).

(** [partition_snapshot::~partition_snapshot] of a per-version snapshot. *)
Definition snapshot_destroy (p : nat) (e : partition_entry) : partition_entry :=
  PE ((fun v => if decide (pv_id v = p) then close_snapshot v else v) <$> versions e)
     (highest_version_read e) (highest_version_written e) (num_versions e)
     (last_version e) (next_id e).

(** ** Runs of an entry

    The operations a shard performs on one partition, in the order it
    performs them. *)
Inductive op :=
| OWrite (cf_is_data : bool) (mpv : mutation_partition_view) (version_to_write : Z)
| ORead (version_to_read : Z)
| OClose (snapshot : nat).

Definition exec (o : op) (e : partition_entry) : option partition_entry :=
  match o with
  | OWrite d mpv v => fst <$> apply d mpv v e
  | ORead t => fst <$> read t e
  | OClose p => Some (snapshot_destroy p e)
  end.

Fixpoint run (os : list op) (e : partition_entry) : option partition_entry :=
  match os with
  | [] => Some e
  | o :: os' => e' ← exec o e; run os' e'
  end.

(** Versions reach the entry from the Thrift interface as non-negative
    32-bit integers. *)
Definition op_i32 (o : op) : Prop :=
  match o with
  | OWrite _ _ v => 0 <= v < 2 ^ 31
  | ORead t => 0 <= t < 2 ^ 31
  | OClose _ => True
  end.

(** A write issued by the PORT client carries a version. *)
Definition op_moon (o : op) : Prop :=
  match o with OWrite _ _ v => v <> 0 | _ => True end.

(** ** Well-formed entries

    What a version is up to its snapshot pointer. Reading and closing
    snapshots do not change the contents of an entry; writing prepends one
    version and possibly collects another. *)
Definition content (v : partition_version) : nat * mutation_partition * Z :=
  (pv_id v, pv_partition v, version_number v).

Definition contents (e : partition_entry) : list (nat * mutation_partition * Z) :=
  content <$> versions e.

Definition c_id (c : nat * mutation_partition * Z) : nat := c.1.1.
Definition c_num (c : nat * mutation_partition * Z) : Z := c.2.

(** The invariant of an entry: at least one version; numbers strictly
    decrease along the list and start with [highest_version_written];
    addresses are distinct and already allocated; [num_versions] counts the
    versions after the first and never exceeds 100. *)
Record wf (e : partition_entry) : Prop := {
  wf_ne : contents e <> [];
  wf_sorted : StronglySorted Z.gt (c_num <$> contents e);
  wf_nonneg : Forall (fun c => 0 <= c_num c) (contents e);
  wf_head : c_num <$> head (contents e) = Some (highest_version_written e);
  wf_ids : NoDup (c_id <$> contents e);
  wf_fresh : Forall (fun c => (c_id c < next_id e)%nat) (contents e);
  wf_count : Zlen (contents e) = num_versions e + 1;
  wf_num : 0 <= num_versions e <= 100;
  wf_hr : 0 <= highest_version_read e < 2 ^ 31;
}.

Lemma content_open v : content (open_snapshot v) = content v.
Proof. done. Qed.

Lemma content_close v : content (close_snapshot v) = content v.
Proof. done. Qed.

Lemma contents_length e : length (contents e) = length (versions e).
Proof. apply length_fmap. Qed.

Lemma wf_new mp : wf (partition_entry_new mp).
Proof.
  split; cbn; try done; try lia; repeat constructor; cbn; try lia.
  apply not_elem_of_nil.
Qed.

Lemma gc_one_spec e e' :
  gc_one e = Some e' ->
  exists j, (S j < length (versions e))%nat /\
    contents e' = delete (S j) (contents e) /\
    highest_version_read e' = highest_version_read e /\
    highest_version_written e' = highest_version_written e /\
    num_versions e' = num_versions e /\ next_id e' = next_id e.
Proof.
  unfold gc_one. intros H.
  apply bind_Some in H as (l & _ & H). apply bind_Some in H as (i & _ & H).
  apply bind_Some in H as (pv & _ & H). apply bind_Some in H as ([l' i'] & _ & H).
  apply bind_Some in H as (nx & Hnx & [= <-]).
  exists i'. split; [by eapply lookup_lt_Some|]. cbn. split; [|done].
  unfold contents; cbn. apply list_fmap_delete.
Qed.

Lemma apply_spec d mpv v e e' c :
  apply d mpv v e = Some (e', c) ->
  (write_is_late v e = true /\ e' = e /\ c = highest_version_written e) \/
  (write_is_late v e = false /\ c = promoted_version_to_write v e /\
   highest_version_written e' = c /\
   highest_version_read e' = highest_version_read e /\
   next_id e' = S (next_id e) /\
   exists mp,
    (num_versions e < 100 /\
     contents e' = (next_id e, mp, c) :: contents e /\
     num_versions e' = uwrap 32 (num_versions e + 1)) \/
    (100 <= num_versions e /\
     num_versions e' = uwrap 32 (uwrap 32 (num_versions e + 1) - 1) /\
     exists j, (j < length (contents e))%nat /\
       contents e' = (next_id e, mp, c) :: delete j (contents e))).
Proof.
  unfold apply. destruct (write_is_late v e) eqn:El.
  { intros [= <- <-]. by left. }
  intros H. right.
  apply bind_Some in H as (mp' & _ & H).
  set (c0 := promoted_version_to_write v e) in *.
  destruct (Z.leb_spec 100 (num_versions e)).
  - apply bind_Some in H as (e'' & Hgc & [= <- <-]).
    apply gc_one_spec in Hgc as (j & Hj & Hc & Hr & Hw & Hn & Hi).
    cbn in *. rewrite Hr, Hw, Hn, Hi. do 5 (split; [done|]).
    exists mp'. right. do 2 (split; [done|]). exists j.
    split; [rewrite contents_length; lia|].
    transitivity (contents e''); [done|]. by rewrite Hc.
  - injection H as <- <-. cbn. do 5 (split; [done|]).
    exists mp'. by left.
Qed.

(** What a write that is not late leaves in its version: its contents, and in
    column 0 the number it was given when it is stamped. *)
Definition written (d : bool) (mpv : mutation_partition_view) (v c : Z) : mutation_partition :=
  MP (mpv_data mpv) (if mpv_has_cell0 mpv then Some (if negb (v =? 0) || d then c else 0) else None).

Lemma write_is_late_true v e :
  write_is_late v e = true <-> v <> 0 /\ v <= highest_version_written e.
Proof.
  unfold write_is_late. rewrite andb_true_iff, negb_true_iff, Z.eqb_neq, Z.leb_le. done.
Qed.

Lemma apply_written d mpv v e e' c :
  apply d mpv v e = Some (e', c) ->
  (write_is_late v e = true /\ e' = e /\ c = highest_version_written e) \/
  (write_is_late v e = false /\ c = promoted_version_to_write v e /\
   highest_version_written e' = c /\ highest_version_read e' = highest_version_read e /\
   next_id e' = S (next_id e) /\ (v <> 0 -> mpv_has_cell0 mpv = true) /\
   exists l, contents e' = (next_id e, written d mpv v c, c) :: l /\ l `sublist_of` contents e).
Proof.
  intros Ha. pose proof Ha as [?|(El & -> & Hw & Hh & Hn & _)]%apply_spec; [by left|right].
  do 5 (split; [done|]). revert Ha. unfold apply. rewrite El.
  set (c := promoted_version_to_write v e). intros (mp & Hmp & H)%bind_Some.
  assert (Hwr : mp = written d mpv v c /\ (v <> 0 -> mpv_has_cell0 mpv = true)).
  { unfold stamp_cell0, mp_apply_to_empty in Hmp. unfold written. cbn in Hmp.
    destruct (mpv_has_cell0 mpv), (Z.eqb_spec v 0), d; cbn in *; by simplify_eq. }
  destruct Hwr as [-> Hc0]. split; [done|]. destruct (100 <=? num_versions e).
  - apply bind_Some in H as (e'' & (j & _ & Hc & _)%gc_one_spec & [= <-]).
    eexists. split; [exact Hc|]. apply sublist_delete.
  - injection H as <-. by eexists.
Qed.

Lemma read_spec t e e' pv :
  read t e = Some (e', pv) ->
  contents e' = contents e /\
  versions e !! read_position t (versions e) = Some pv /\
  highest_version_read e' = Z.max (highest_version_read e) t /\
  highest_version_written e' = highest_version_written e /\
  num_versions e' = num_versions e /\ next_id e' = next_id e.
Proof.
  unfold read. intros H. apply bind_Some in H as (pv' & Hpv & [= <- <-]).
  cbn. split; [|split; [done|split; [|done]]].
  - unfold contents; cbn. rewrite list_fmap_insert, content_open.
    apply list_insert_id. by rewrite list_lookup_fmap, Hpv.
  - destruct (Z.ltb_spec (highest_version_read e) t); lia.
Qed.

Lemma snapshot_destroy_contents p e : contents (snapshot_destroy p e) = contents e.
Proof.
  unfold contents, snapshot_destroy; cbn. rewrite <- list_fmap_compose.
  apply list_fmap_ext. intros i x _. cbn. by case_decide.
Qed.

(** ** Preservation of the invariant *)

Lemma wf_hw_nonneg e : wf e -> 0 <= highest_version_written e.
Proof.
  intros Hwf. pose proof (wf_head e Hwf) as Hh. pose proof (wf_nonneg e Hwf) as Hn.
  destruct (contents e) as [|c cs]; [done|]. cbn in Hh. injection Hh as <-.
  by apply Forall_cons in Hn as [? _].
Qed.

Lemma promoted_range v e :
  wf e -> 0 <= v < 2 ^ 31 -> highest_version_written e < 2 ^ 32 - 1 ->
  write_is_late v e = false ->
  highest_version_written e < promoted_version_to_write v e
    <= Z.max (highest_version_written e + 1) (2 ^ 31) /\
  (v <> 0 -> highest_version_read e < promoted_version_to_write v e /\
             v <= promoted_version_to_write v e).
Proof.
  intros Hwf Hv Hhw. unfold write_is_late, promoted_version_to_write, uwrap.
  pose proof (wf_hr e Hwf). pose proof (wf_hw_nonneg e Hwf).
  destruct (Z.eqb_spec v 0); cbn [negb andb].
  - intros _. rewrite Z.mod_small by lia. lia.
  - intros Hl. apply Z.leb_gt in Hl.
    destruct (Z.leb_spec v (highest_version_read e));
      [rewrite Z.mod_small by lia|]; lia.
Qed.

Lemma wf_apply d mpv v e e' c :
  wf e -> 0 <= v < 2 ^ 31 -> highest_version_written e < 2 ^ 32 - 1 ->
  apply d mpv v e = Some (e', c) -> wf e'.
Proof.
  intros Hwf Hv Hhw Ha. pose proof Hwf as [Hne Hs Hn Hh Hi Hf Hc Hnum Hhr].
  apply apply_spec in Ha as [(_ & -> & _)|(El & -> & Hw' & Hr' & Hid' & mp & Hcase)];
    [done|].
  pose proof (promoted_range v e Hwf Hv Hhw El) as [Hpr _].
  set (c := promoted_version_to_write v e) in *.
  assert (Hlt : Forall (fun x => c_num x < c) (contents e)).
  { destruct (contents e) as [|x xs]; [done|]. cbn in Hh, Hs. injection Hh as Hx.
    apply StronglySorted_inv in Hs as [_ Hx']. constructor; [lia|].
    rewrite Forall_fmap in Hx'. eapply Forall_impl; [exact Hx'|]. cbn. lia. }
  assert (Hsub : exists l, l `sublist_of` contents e /\
            contents e' = (next_id e, mp, c) :: l /\
            Zlen l = num_versions e' /\ 0 <= num_versions e' <= 100).
  { destruct Hcase as [(Hlo & Hc' & Hn')|(Hhi & Hn' & j & Hj & Hc')].
    - exists (contents e). rewrite Hn', Hc. unfold uwrap.
      rewrite Z.mod_small by lia. repeat split; try done; lia.
    - exists (delete j (contents e)). rewrite Hn'. unfold uwrap.
      rewrite (Z.mod_small (num_versions e + 1)) by lia.
      rewrite Z.mod_small by lia.
      repeat split; [apply sublist_delete|done| |lia|lia].
      unfold Zlen in *. rewrite length_delete by (by apply lookup_lt_is_Some). lia. }
  destruct Hsub as (l & Hl & Hc' & Hlen & Hn').
  assert (Hfl : forall P, Forall P (contents e) -> Forall P l)
    by (intros P; by apply Forall_sublist).
  split; rewrite ?Hc'; cbn [fmap list_fmap head c_id c_num fst snd]; try done.
  - constructor; [by eapply StronglySorted_sublist; [apply sublist_map|]|].
    apply Forall_fmap. eapply Forall_impl; [by apply Hfl|]. cbn. lia.
  - constructor; [cbn|by apply Hfl]. pose proof (wf_hw_nonneg e Hwf). lia.
  - cbn. by rewrite Hw'.
  - constructor; [|eapply sublist_NoDup; [done|by apply sublist_map]].
    intros (x & Hx & Hin)%list_elem_of_fmap. apply (Hfl _) in Hf.
    rewrite Forall_forall in Hf. specialize (Hf _ Hin). cbn in Hf, Hx. lia.
  - rewrite Hid'. constructor; [cbn; lia|].
    eapply Forall_impl; [apply Hfl, Hf|]. cbn. lia.
  - rewrite Zlen_cons. lia.
  - lia.
Qed.

(** The invariant together with the bound that keeps [uint32_t] version
    numbers from wrapping: Thrift versions are below 2^31 and each operation
    raises [highest_version_written] by at most one above that. *)
Definition wf_within (k : Z) (e : partition_entry) : Prop :=
  wf e /\ highest_version_written e <= 2 ^ 31 + k.

Lemma exec_wf o e e' k :
  wf_within k e -> 0 <= k < 2 ^ 31 - 1 -> op_i32 o -> exec o e = Some e' ->
  wf_within (k + 1) e'.
Proof.
  intros [Hwf Hk] Hkr Ho He. destruct o as [d mpv v|t|p]; cbn in Ho, He.
  - apply fmap_Some in He as ([e1 c] & Ha & ->). cbn. split.
    { eapply wf_apply; [done..| |done]. lia. }
    apply apply_spec in Ha as [(_ & -> & _)|(El & -> & -> & _)]; [lia|].
    pose proof (promoted_range v e Hwf Ho ltac:(lia) El) as [Hp _]. lia.
  - apply fmap_Some in He as ([e1 pv] & Ha & ->). cbn.
    apply read_spec in Ha as (Hc & _ & Hr & Hw & Hn & Hi).
    split; [|lia]. destruct Hwf. split; rewrite ?Hc, ?Hr, ?Hw, ?Hn, ?Hi; try done. lia.
  - injection He as <-. split; [|cbn; lia].
    destruct Hwf. split; rewrite ?snapshot_destroy_contents; done.
Qed.

Lemma run_wf_within os e e' k :
  wf_within k e -> 0 <= k -> k + Zlen os <= 2 ^ 31 - 1 ->
  Forall op_i32 os -> run os e = Some e' -> wf_within (k + Zlen os) e'.
Proof.
  revert e k; induction os as [|o os IH]; intros e k Hw Hk Hb Hos Hr.
  - cbn in Hr. injection Hr as <-. by rewrite Zlen_nil, Z.add_0_r.
  - cbn in Hr. apply bind_Some in Hr as (e1 & He & Hr).
    rewrite Zlen_cons in *. apply Forall_cons in Hos as [Ho Hos].
    pose proof (Zlen_nonneg os). rewrite Z.add_assoc.
    eapply IH; [|lia|lia|done|exact Hr].
    eapply exec_wf; [done|lia|done|done].
Qed.

(** ** Reads

    The version a transaction that reads at [t] must see. *)
Definition visible (t : Z) (cs : list (nat * mutation_partition * Z))
    (c : nat * mutation_partition * Z) : Prop :=
  c ∈ cs /\ 0 < c_num c <= t /\
  forall c', c' ∈ cs -> c_num c' <= t -> c_num c' <= c_num c.

Lemma visible_read t e c :
  wf e -> visible t (contents e) c ->
  exists e' pv, read t e = Some (e', pv) /\ content pv = c.
Proof.
  intros Hwf (Hin & Hr & Hmax).
  assert (Hfind : exists i pv,
    list_find (fun v => version_number v <= t) (versions e) = Some (i, pv)).
  { apply list_elem_of_fmap in Hin as (v & -> & Hv).
    destruct (list_find_elem_of (fun v => version_number v <= t) (versions e) v)
      as [[i pv] Hi]; [done|cbn in Hr; lia|]. eauto. }
  destruct Hfind as (i & pv & Hi).
  pose proof Hi as (Hlk & Hle & Hbefore)%list_find_Some.
  assert (Hc : contents e !! i = Some (content pv))
    by (unfold contents; by rewrite list_lookup_fmap, Hlk).
  apply list_elem_of_lookup in Hin as [j Hj].
  assert (i = j) as <-.
  { assert (Hge : c_num (content pv) <= c_num c).
    { apply Hmax; [by eapply list_elem_of_lookup_2|done]. }
    destruct (Nat.lt_trichotomy i j) as [Hlt|[->|Hlt]]; [|done|].
    - exfalso. revert Hge.
      assert (Hgt : c_num (content pv) > c_num c); [|lia].
      eapply (StronglySorted_lookup_lt _ (c_num <$> contents e) i j);
        [apply wf_sorted, Hwf| |by rewrite list_lookup_fmap, Hc
        |by rewrite list_lookup_fmap, Hj]; done.
    - exfalso. unfold contents in Hj. rewrite list_lookup_fmap in Hj.
      apply fmap_Some in Hj as (v & Hv & ->).
      apply (Hbefore j v Hv); [done|]. cbn in Hr. lia. }
  rewrite Hc in Hj. injection Hj as <-. cbn in Hr.
  unfold read, read_position. destruct (Z.ltb_spec 0 t); [|lia].
  rewrite Hi. destruct (Z.eqb_spec (version_number pv) 0); [lia|].
  rewrite Hlk. cbn. eauto.
Qed.

Lemma read_visible t e e' pv :
  wf e -> read t e = Some (e', pv) -> 0 < version_number pv <= t ->
  visible t (contents e) (content pv).
Proof.
  intros Hwf Hrd Hr.
  assert (Hhead : forall v, head (versions e) = Some v -> version_number v <= t ->
    visible t (contents e) (content v)).
  { intros v Hv Hle. pose proof (wf_sorted e Hwf) as Hs.
    unfold contents in *. destruct (versions e) as [|v0 vs] eqn:Evs; [done|].
    injection Hv as ->. cbn in Hs |- *.
    apply StronglySorted_inv in Hs as [_ Hs]. split; [left|].
    assert (Hmax : forall c', c' ∈ content v :: (content <$> vs) ->
      c_num c' <= version_number v).
    { intros c' [->|Hc']%elem_of_cons; [cbn; lia|].
      rewrite Forall_forall in Hs.
      specialize (Hs (c_num c')). cbn in Hs. apply Z.lt_le_incl, Z.gt_lt, Hs.
      by apply list_elem_of_fmap_2. }
    split; [|intros c' Hc' _; by apply Hmax]. cbn. split; [|done].
    apply read_spec in Hrd as (_ & Hlk & _). apply list_elem_of_lookup_2 in Hlk. rewrite Evs in Hlk.
    assert (version_number pv <= version_number v); [|lia].
    apply (Hmax (content pv)). by apply (list_elem_of_fmap_2 content) in Hlk. }
  pose proof Hrd as (_ & Hlk & _)%read_spec. revert Hlk. unfold read_position.
  destruct (Z.ltb_spec 0 t); [|lia].
  destruct (list_find _ _) as [[i v]|] eqn:Hi.
  - pose proof Hi as (Hlv & Hle & Hbefore)%list_find_Some.
    destruct (Z.eqb_spec (version_number v) 0) as [Hz|Hz].
    + intros Hlk. apply Hhead; [by rewrite head_lookup|lia].
    + intros Hlk. rewrite Hlv in Hlk. injection Hlk as ->.
      split; [by apply list_elem_of_fmap_2; eapply list_elem_of_lookup_2|].
      split; [done|]. intros c' (j & Hj)%list_elem_of_lookup Hle'.
      destruct (Nat.lt_trichotomy j i) as [Hlt|[->|Hlt]].
      * unfold contents in Hj. rewrite list_lookup_fmap in Hj.
        apply fmap_Some in Hj as (v' & Hv' & ->). by destruct (Hbefore j v').
      * unfold contents in Hj. rewrite list_lookup_fmap, Hlv in Hj.
        injection Hj as <-. done.
      * assert (Hgt : c_num (content pv) > c_num c'); [|lia].
        eapply (StronglySorted_lookup_lt _ (c_num <$> contents e) i j);
          [apply wf_sorted, Hwf|done| |by rewrite list_lookup_fmap, Hj].
        unfold contents. by rewrite !list_lookup_fmap, Hlv.
  - intros Hlk. apply Hhead; [by rewrite head_lookup|lia].
Qed.

(** ** Stability of what a transaction has read *)

Lemma exec_contents o e e' :
  exec o e = Some e' ->
  highest_version_read e <= highest_version_read e' /\
  (next_id e <= next_id e')%nat /\
  (contents e' = contents e \/
   exists d mpv v mp l, o = OWrite d mpv v /\ write_is_late v e = false /\
     l `sublist_of` contents e /\
     contents e' = (next_id e, mp, promoted_version_to_write v e) :: l).
Proof.
  destruct o as [d mpv v|t|p]; cbn; intros He.
  - apply fmap_Some in He as ([e1 c] & Ha & ->). cbn.
    apply apply_spec in Ha as [(_ & -> & _)|(El & -> & _ & -> & -> & mp & Hc)];
      [split; [lia|split; [lia|by left]]|].
    split; [lia|split; [lia|right]]. exists d, mpv, v, mp.
    destruct Hc as [(_ & -> & _)|(_ & _ & j & _ & ->)].
    + by exists (contents e).
    + exists (delete j (contents e)). repeat split; [done|apply sublist_delete].
  - apply fmap_Some in He as ([e1 pv] & Ha & ->). cbn.
    apply read_spec in Ha as (Hc & _ & Hr & _ & _ & Hi).
    rewrite Hr, Hi. split; [lia|split; [lia|by left]].
  - injection He as <-. cbn. split; [lia|split; [lia|left]].
    apply snapshot_destroy_contents.
Qed.

Lemma exec_visible o e e' k t c :
  wf_within k e -> 0 <= k < 2 ^ 31 - 1 -> op_i32 o -> op_moon o ->
  t <= highest_version_read e -> visible t (contents e) c ->
  exec o e = Some e' -> c ∈ contents e' -> visible t (contents e') c.
Proof.
  intros [Hwf Hk] Hkr Hi Hm Ht (Hin & Hr & Hmax) He Hin'.
  apply exec_contents in He as (_ & _ & [Hc|(d & mpv & v & mp & l & -> & El & Hl & Hc)]).
  { by rewrite Hc. }
  split; [done|]. split; [done|]. rewrite Hc. cbn in Hi, Hm.
  pose proof (promoted_range v e Hwf Hi ltac:(lia) El) as [_ Hp].
  intros c' [->|Hc']%elem_of_cons; cbn.
  - specialize (Hp Hm). lia.
  - apply Hmax. by eapply elem_of_sublist_of.
Qed.

(** A version that survives a run was there from the start: addresses are
    never reused. *)
Lemma run_present os e e' c :
  run os e = Some e' -> (c_id c < next_id e)%nat -> c ∈ contents e' -> c ∈ contents e.
Proof.
  revert e; induction os as [|o os IH]; intros e Hr Hf Hin.
  { cbn in Hr. by injection Hr as ->. }
  cbn in Hr. apply bind_Some in Hr as (e1 & He & Hr).
  pose proof He as (_ & Hid & Hc)%exec_contents.
  specialize (IH e1 Hr ltac:(lia) Hin).
  destruct Hc as [Hc|(d & mpv & v & mp & l & _ & _ & Hl & Hc)];
    rewrite Hc in IH; [done|].
  apply elem_of_cons in IH as [->|IH]; [cbn in Hf; lia|].
  by eapply elem_of_sublist_of.
Qed.

Lemma run_visible os e e' k t c :
  wf_within k e -> 0 <= k -> k + Zlen os <= 2 ^ 31 - 1 ->
  Forall op_i32 os -> Forall op_moon os ->
  t <= highest_version_read e -> visible t (contents e) c ->
  run os e = Some e' -> c ∈ contents e' -> visible t (contents e') c.
Proof.
  revert e k; induction os as [|o os IH]; intros e k Hw Hk Hb Hos Hms Ht Hv Hr Hin'.
  { cbn in Hr. by injection Hr as <-. }
  cbn in Hr. apply bind_Some in Hr as (e1 & He & Hr). rewrite Zlen_cons in Hb.
  pose proof (Zlen_nonneg os).
  apply Forall_cons in Hos as [Ho Hos]. apply Forall_cons in Hms as [Hm Hms].
  pose proof He as (Hhr & Hid & _)%exec_contents.
  eapply (IH e1 (k + 1)); [by eapply exec_wf; [done|lia|..]|lia|lia|done..|lia| |done|done].
  eapply exec_visible; [done|lia|done..|].
  destruct Hw as [Hwf _]. pose proof (wf_fresh e Hwf) as Hf.
  rewrite Forall_forall in Hf. specialize (Hf c (proj1 Hv)).
  eapply run_present; [done| |done]. cbn in Hf. lia.
Qed.

(** ** Garbage collection

    [last_version] points at the oldest numbered version: only the empty
    version of the constructor may follow it. *)
Definition gc_inv (e : partition_entry) : Prop :=
  forall l, last_version e = Some l ->
  exists c1 c c2, contents e = c1 ++ c :: c2 /\ c_id c = l /\
    Forall (fun c' => c_num c' = 0) c2.

Lemma position_split p l1 pi l2 :
  pv_id pi = p -> Forall (fun v => pv_id v <> p) l1 ->
  position p (l1 ++ pi :: l2) = Some (length l1).
Proof.
  intros Hp Hl1. unfold position.
  assert (list_find (fun v => pv_id v = p) (l1 ++ pi :: l2) = Some (length l1, pi)) as ->;
    [|done].
  apply list_find_Some. split; [by apply list_lookup_middle|]. split; [done|].
  intros j y Hj Hlt. rewrite lookup_app_l in Hj by done.
  exact (Forall_lookup_1 _ _ _ _ Hl1 Hj).
Qed.

Lemma ids_split e l1 pi l2 :
  NoDup (c_id <$> contents e) -> versions e = l1 ++ pi :: l2 ->
  Forall (fun v => pv_id v <> pv_id pi) l1.
Proof.
  unfold contents. intros Hnd Hv0. rewrite Hv0, !fmap_app in Hnd.
  apply NoDup_app in Hnd as (_ & Hd & _). apply Forall_forall. intros v Hv Heq.
  apply (Hd (pv_id v)).
  - rewrite <- list_fmap_compose. by apply (list_elem_of_fmap_2 (c_id ∘ content)).
  - cbn. rewrite Heq. left.
Qed.

(** The collection step, given where [last_version] is. *)
Lemma gc_one_open e l1 pi l2 :
  NoDup (c_id <$> contents e) -> versions e = l1 ++ pi :: l2 ->
  last_version e = Some (pv_id pi) -> pv_snapshot pi = true ->
  gc_one e = match l2 with
             | [] => None
             | _ :: l2' => Some (PE (l1 ++ pi :: l2') (highest_version_read e)
                 (highest_version_written e) (num_versions e)
                 (Some (pv_id pi)) (next_id e))
             end.
Proof.
  intros Hnd Hv Hl Hs. pose proof (ids_split _ _ _ _ Hnd Hv) as Hd.
  unfold gc_one. rewrite Hl, Hv. cbn. rewrite position_split by done. cbn.
  rewrite list_lookup_middle by done. cbn. rewrite Hs. cbn.
  rewrite cons_middle, app_assoc, lookup_app_r by (rewrite length_app; cbn; lia).
  rewrite length_app. cbn. replace (_ - _)%nat with 0%nat by lia.
  destruct l2 as [|x l2']; [done|]. cbn. do 2 f_equal.
  rewrite delete_take_drop.
  rewrite take_app_length' by (rewrite length_app; cbn; lia).
  rewrite drop_app_ge by (rewrite length_app; cbn; lia).
  rewrite length_app; cbn. replace (_ - _)%nat with 1%nat by lia.
  cbn. by rewrite <- app_assoc.
Qed.

Lemma gc_one_closed e l1 p pi l2 :
  NoDup (c_id <$> contents e) -> versions e = l1 ++ p :: pi :: l2 ->
  last_version e = Some (pv_id pi) -> pv_snapshot pi = false ->
  gc_one e = Some (PE (l1 ++ p :: l2) (highest_version_read e)
    (highest_version_written e) (num_versions e) (Some (pv_id p)) (next_id e)).
Proof.
  intros Hnd Hv Hl Hs.
  rewrite cons_middle, app_assoc in Hv.
  pose proof (ids_split _ _ _ _ Hnd Hv) as Hd.
  unfold gc_one. rewrite Hl, Hv. cbn. rewrite position_split by done. cbn.
  rewrite list_lookup_middle by done. cbn. rewrite Hs.
  rewrite length_app. cbn. rewrite Nat.add_1_r. cbn.
  rewrite <- app_assoc. cbn. rewrite list_lookup_middle by done. cbn.
  assert (Hi : (l1 ++ p :: pi :: l2) !! S (length l1) = Some pi).
  { rewrite cons_middle, app_assoc. apply list_lookup_middle. rewrite length_app; cbn; lia. }
  rewrite Hi. cbn. do 2 f_equal.
  rewrite delete_take_drop, cons_middle, app_assoc.
  rewrite take_app_length' by (rewrite length_app; cbn; lia).
  rewrite drop_app_ge by (rewrite length_app; cbn; lia).
  rewrite length_app; cbn. replace (_ - _)%nat with 1%nat by lia.
  cbn. by rewrite <- app_assoc.
Qed.

Lemma gc_one_closed_front e pi l2 :
  versions e = pi :: l2 ->
  last_version e = Some (pv_id pi) -> pv_snapshot pi = false -> gc_one e = None.
Proof.
  intros Hv Hl Hs. unfold gc_one. rewrite Hl, Hv.
  change (pi :: l2) with ([] ++ pi :: l2). cbn [mbind option_bind].
  rewrite position_split by done. cbn. by rewrite Hs.
Qed.

Lemma contents_split e c1 c c2 :
  contents e = c1 ++ c :: c2 ->
  exists l1 pi l2, versions e = l1 ++ pi :: l2 /\ content pi = c /\
    content <$> l1 = c1 /\ content <$> l2 = c2.
Proof.
  unfold contents. intros (l1 & l' & Hl & Hl' & Hv)%fmap_app_inv.
  destruct l' as [|pi l2]; [done|]. cbn in Hl'. injection Hl' as -> ->.
  by exists l1, pi, l2.
Qed.

(** What one collection removes, and that it keeps [last_version] at the
    oldest numbered version. *)
Lemma gc_one_inv e e' :
  NoDup (c_id <$> contents e) -> gc_inv e -> gc_one e = Some e' ->
  gc_inv e' /\
  forall v, v ∈ versions e -> pv_snapshot v = true -> 0 < version_number v ->
            v ∈ versions e'.
Proof.
  intros Hnd Hinv Hgc.
  assert (exists l, last_version e = Some l) as [l Hl].
  { unfold gc_one in Hgc. destruct (last_version e); [eauto|done]. }
  destruct (Hinv l Hl) as (c1 & c & c2 & Hc & Hid & Hz).
  destruct (contents_split _ _ _ _ Hc) as (l1 & pi & l2 & Hv & <- & _ & <-).
  change (pv_id pi = l) in Hid. subst l.
  rewrite Forall_fmap in Hz.
  destruct (pv_snapshot pi) eqn:Hs.
  - rewrite (gc_one_open e l1 pi l2) in Hgc by done.
    destruct l2 as [|x l2']; [done|]. injection Hgc as <-.
    apply Forall_cons in Hz as [Hx Hz]. split.
    + intros l [= <-]. unfold contents; cbn. rewrite fmap_app.
      exists (content <$> l1), (content pi), (content <$> l2').
      by rewrite Forall_fmap.
    + cbn. intros v. rewrite Hv, !elem_of_app, !elem_of_cons.
      intros [?|[?|[->|?]]] Hsv Hnv; auto. cbn in Hx. lia.
  - destruct l1 as [|p l1' _] using rev_ind.
    { by rewrite (gc_one_closed_front e pi l2) in Hgc by done. }
    rewrite <- app_assoc in Hv. cbn in Hv.
    rewrite (gc_one_closed e l1' p pi l2) in Hgc by done. injection Hgc as <-. split.
    + intros l [= <-]. unfold contents; cbn. rewrite fmap_app.
      exists (content <$> l1'), (content p), (content <$> l2).
      by rewrite Forall_fmap.
    + cbn. intros v. rewrite Hv, !elem_of_app, !elem_of_cons.
      intros [?|[?|[->|?]]] Hsv Hnv; auto. congruence.
Qed.

Lemma push_nodup c mp e : wf e -> NoDup (c_id <$> contents (push_version c mp e)).
Proof.
  intros Hwf. cbn. constructor; [|apply wf_ids, Hwf].
  intros (x & Hx & Hin)%list_elem_of_fmap. pose proof (wf_fresh e Hwf) as Hf.
  rewrite Forall_forall in Hf. specialize (Hf _ Hin). cbn in Hf, Hx. lia.
Qed.

Lemma push_gc_inv c0 mp' e :
  wf e -> highest_version_written e < c0 -> gc_inv e -> gc_inv (push_version c0 mp' e).
Proof.
  intros Hwf Hp Hinv.
  intros l. unfold push_version at 1; cbn.
  destruct (Z.eqb_spec c0 1) as [Hc1|_].
  - intros [= <-]. exists [], (next_id e, mp', c0), (contents e).
    split; [done|]. split; [done|].
    pose proof (wf_nonneg e Hwf) as Hn. pose proof (wf_sorted e Hwf) as Hs.
    pose proof (wf_head e Hwf) as Hh.
    destruct (contents e) as [|x xs]; [done|]. cbn in Hh, Hs. injection Hh as Hh.
    apply StronglySorted_inv in Hs as [_ Hs]. rewrite Forall_fmap in Hs.
    apply Forall_cons in Hn as [Hn0 Hn]. constructor; [lia|].
    apply Forall_forall. intros y Hy. rewrite Forall_forall in Hs, Hn.
    specialize (Hs y Hy). specialize (Hn y Hy). cbn in Hs. lia.
  - intros Hl. destruct (Hinv l Hl) as (c1 & c' & c2 & Hc & Hid & Hz).
    exists ((next_id e, mp', c0) :: c1), c', c2. split; [|done].
    transitivity ((next_id e, mp', c0) :: contents e); [done|]. by rewrite Hc.
Qed.

Lemma apply_gc_inv d mpv v e e' c :
  wf e -> 0 <= v < 2 ^ 31 -> highest_version_written e < 2 ^ 32 - 1 ->
  gc_inv e -> apply d mpv v e = Some (e', c) ->
  gc_inv e' /\
  forall x, x ∈ versions e -> pv_snapshot x = true -> 0 < version_number x ->
            x ∈ versions e'.
Proof.
  intros Hwf Hv Hhw Hinv. unfold apply. destruct (write_is_late v e) eqn:El.
  { intros [= <- <-]. by split. }
  pose proof (promoted_range v e Hwf Hv Hhw El) as [Hp _].
  set (c0 := promoted_version_to_write v e) in *.
  intros (mp' & _ & H)%bind_Some.
  assert (Hpush : gc_inv (push_version c0 mp' e)) by (apply push_gc_inv; [done|lia|done]).
  pose proof (push_nodup c0 mp' e Hwf) as Hnd.
  destruct (100 <=? num_versions e).
  - apply bind_Some in H as (e'' & Hgc & [= <- <-]).
    destruct (gc_one_inv _ _ Hnd Hpush Hgc) as [H1 H2]. split.
    + intros l Hl. exact (H1 l Hl).
    + intros x Hx. cbn. apply H2. cbn. by right.
  - injection H as <- <-. split; [done|]. intros x Hx _ _. cbn. by right.
Qed.

(** A run that never closes the snapshot of version [p]. *)
Definition op_keeps (p : nat) (o : op) : Prop :=
  match o with OClose q => q <> p | _ => True end.

Definition pinned (c : nat * mutation_partition * Z) (e : partition_entry) : Prop :=
  exists v, v ∈ versions e /\ pv_snapshot v = true /\ content v = c.

Lemma exec_gc_inv o e e' k :
  wf_within k e -> 0 <= k < 2 ^ 31 - 1 -> op_i32 o -> gc_inv e ->
  exec o e = Some e' -> gc_inv e'.
Proof.
  intros [Hwf Hk] Hkr Hi Hinv He. destruct o as [d mpv w|t|p]; cbn in Hi, He.
  - apply fmap_Some in He as ([e1 c1] & Ha & ->).
    by apply apply_gc_inv in Ha as [Hg _]; [|done|done|lia|].
  - apply fmap_Some in He as ([e1 pv] & Ha & ->). cbn.
    pose proof Ha as (Hcs & _)%read_spec.
    unfold read in Ha. apply bind_Some in Ha as (pv' & _ & [= <- _]).
    intros l Hl. rewrite Hcs. by apply Hinv.
  - injection He as <-. intros l Hl. rewrite snapshot_destroy_contents. by apply Hinv.
Qed.

Lemma exec_pinned o e e' k c :
  wf_within k e -> 0 <= k < 2 ^ 31 - 1 -> op_i32 o -> op_keeps (c_id c) o ->
  gc_inv e -> 0 < c_num c -> exec o e = Some e' -> pinned c e -> pinned c e'.
Proof.
  intros [Hwf Hk] Hkr Hi Hkp Hinv Hc He (v & Hv & Hs & <-).
  destruct o as [d mpv w|t|p]; cbn in Hi, Hkp, He.
  - apply fmap_Some in He as ([e1 c1] & Ha & ->).
    apply apply_gc_inv in Ha as [_ Hkeep]; [|done|done|lia|done].
    exists v. split; [by apply Hkeep|done].
  - apply fmap_Some in He as ([e1 pv] & Ha & ->). cbn.
    pose proof Ha as (_ & Hlk & _)%read_spec. unfold read in Ha.
    rewrite Hlk in Ha. cbn in Ha. injection Ha as <-.
    apply list_elem_of_lookup in Hv as [j Hj].
    destruct (decide (j = read_position t (versions e))) as [->|Hne].
    + rewrite Hlk in Hj. injection Hj as ->. exists (open_snapshot v).
      split; [|done]. cbn. eapply list_elem_of_lookup_2.
      apply list_lookup_insert_eq. by eapply lookup_lt_Some.
    + exists v. split; [|done]. eapply (list_elem_of_lookup_2 _ j). cbn.
      by rewrite list_lookup_insert_ne.
  - injection He as <-.
    exists v. split; [|done]. cbn. apply list_elem_of_fmap. exists v.
    split; [|done]. by case_decide.
Qed.

Lemma run_gc_inv os e e' k :
  wf_within k e -> 0 <= k -> k + Zlen os <= 2 ^ 31 - 1 ->
  Forall op_i32 os -> gc_inv e -> run os e = Some e' -> gc_inv e'.
Proof.
  revert e k; induction os as [|o os IH]; intros e k Hw Hk Hb Hos Hg Hr.
  { cbn in Hr. by injection Hr as <-. }
  cbn in Hr. apply bind_Some in Hr as (e1 & He & Hr). rewrite Zlen_cons in Hb.
  pose proof (Zlen_nonneg os). apply Forall_cons in Hos as [Ho Hos].
  eapply (IH e1 (k + 1)); [eapply exec_wf; [done|lia|done..]|lia|lia|done| |done].
  eapply exec_gc_inv; [done|lia|done..].
Qed.

Lemma run_pinned os e e' k c :
  wf_within k e -> 0 <= k -> k + Zlen os <= 2 ^ 31 - 1 ->
  Forall op_i32 os -> Forall (op_keeps (c_id c)) os ->
  gc_inv e -> 0 < c_num c -> run os e = Some e' -> pinned c e -> pinned c e'.
Proof.
  revert e k; induction os as [|o os IH]; intros e k Hw Hk Hb Hos Hks Hg Hc Hr Hp.
  { cbn in Hr. by injection Hr as <-. }
  cbn in Hr. apply bind_Some in Hr as (e1 & He & Hr). rewrite Zlen_cons in Hb.
  pose proof (Zlen_nonneg os).
  apply Forall_cons in Hos as [Ho Hos]. apply Forall_cons in Hks as [Hk1 Hks].
  eapply (IH e1 (k + 1)); [eapply exec_wf; [done|lia|done..]|lia|lia|done|done| |done|done|].
  - eapply exec_gc_inv; [done|lia|done..].
  - eapply exec_pinned; [done|lia|done..].
Qed.

Lemma wf_within_new mp : wf_within 0 (partition_entry_new mp).
Proof. split; [apply wf_new|cbn; lia]. Qed.

Lemma gc_inv_new mp : gc_inv (partition_entry_new mp).
Proof. by intros l. Qed.

Lemma read_total t e : wf e -> exists e' pv, read t e = Some (e', pv).
Proof.
  intros Hwf. unfold read.
  destruct (versions e !! read_position t (versions e)) as [pv|] eqn:E; [cbn; eauto|].
  exfalso. apply lookup_ge_None_1 in E. pose proof (wf_ne e Hwf) as Hne.
  unfold contents in Hne. unfold read_position in E.
  destruct (versions e) as [|v vs] eqn:Ev; [done|]. rewrite <- Ev in E.
  destruct (0 <? t); [|rewrite Ev in E; cbn in E; lia].
  destruct (list_find _ _) as [[i x]|] eqn:Hf; [|rewrite Ev in E; cbn in E; lia].
  apply list_find_Some in Hf as (Hi & _). apply lookup_lt_Some in Hi.
  destruct (version_number x =? 0); [rewrite Ev in E; cbn in E|]; lia.
Qed.

Lemma visible_exists t e :
  wf e -> (exists c, c ∈ contents e /\ 0 < c_num c <= t) ->
  exists c, visible t (contents e) c.
Proof.
  intros Hwf (c & (v & -> & Hv)%list_elem_of_fmap & Hr).
  destruct (list_find_elem_of (fun v => version_number v <= t) (versions e) v)
    as [[i pv] Hi]; [done|cbn in Hr; lia|].
  pose proof Hi as (Hlk & Hle & Hbefore)%list_find_Some.
  assert (Hmax : forall c', c' ∈ contents e -> c_num c' <= t ->
                 c_num c' <= version_number pv).
  { intros c' (j & Hj)%list_elem_of_lookup Hle'.
    unfold contents in Hj. rewrite list_lookup_fmap in Hj.
    apply fmap_Some in Hj as (v' & Hv' & ->).
    destruct (Nat.lt_trichotomy j i) as [Hlt|[->|Hlt]].
    - by destruct (Hbefore j v').
    - rewrite Hlk in Hv'. by injection Hv' as <-.
    - apply Z.lt_le_incl, Z.gt_lt.
      eapply (StronglySorted_lookup_lt Z.gt (c_num <$> contents e) i j);
        [apply wf_sorted, Hwf|done|..]; unfold contents;
        by rewrite !list_lookup_fmap, ?Hlk, ?Hv'. }
  exists (content pv). split; [by apply list_elem_of_fmap_2; eapply list_elem_of_lookup_2|].
  split; [|done]. cbn. split; [|done].
  cbn in Hr. specialize (Hmax (content v)). cbn in Hmax.
  apply (Z.lt_le_trans _ (version_number v)); [lia|].
  apply Hmax; [by apply list_elem_of_fmap_2|lia].
Qed.

(** ** The properties of the version list *)

(** C3. In every state a partition entry reaches from its constructor by
    writes, reads and snapshot releases whose versions come from the Thrift
    interface (fewer than 2^31 operations), the entry is well-formed: version
    numbers strictly decrease from [highest_version_written], addresses are
    distinct, and at most 101 versions are kept. *)
Theorem port_run_invariant mp os e :
  Forall op_i32 os -> Zlen os < 2 ^ 31 ->
  run os (partition_entry_new mp) = Some e -> wf e.
Proof.
  intros Hos Hl Hr. pose proof (wf_within_new mp).
  by destruct (run_wf_within os _ e 0 H ltac:(lia) ltac:(lia) Hos Hr).
Qed.

(** C4. A read at version [t] of a reachable entry always returns, and
    returns the newest version numbered at most [t]; when every numbered
    version is above [t] it returns the head of the list. *)
Theorem port_read_newest mp os e t :
  Forall op_i32 os -> Zlen os < 2 ^ 31 ->
  run os (partition_entry_new mp) = Some e -> 0 < t ->
  exists e' pv, read t e = Some (e', pv) /\ contents e' = contents e /\
    ((exists c, c ∈ contents e /\ 0 < c_num c <= t) ->
       visible t (contents e) (content pv)) /\
    ((forall c, c ∈ contents e -> ~ 0 < c_num c <= t) ->
       head (versions e) = Some pv).
Proof.
  intros Hos Hl Hr Ht. pose proof (wf_within_new mp) as Hw.
  destruct (run_wf_within os _ e 0 Hw ltac:(lia) ltac:(lia) Hos Hr) as [Hwf _].
  destruct (read_total t e Hwf) as (e' & pv & Hrd). exists e', pv.
  pose proof Hrd as (Hc & Hlk & _)%read_spec.
  split; [done|]. split; [done|]. split.
  - intros Hex. destruct (visible_exists t e Hwf Hex) as [c Hv].
    destruct (visible_read t e c Hwf Hv) as (e1 & pv1 & Hrd1 & <-).
    rewrite Hrd in Hrd1. by injection Hrd1 as _ <-.
  - intros Hno. rewrite head_lookup, <- Hlk. f_equal. unfold read_position.
    destruct (Z.ltb_spec 0 t); [|done].
    destruct (list_find _ _) as [[i v]|] eqn:Hf; [|done].
    apply list_find_Some in Hf as (Hi & Hle & _).
    destruct (Z.eqb_spec (version_number v) 0); [done|].
    apply list_elem_of_lookup_2 in Hi. apply (list_elem_of_fmap_2 content) in Hi.
    exfalso. apply (Hno _ Hi). pose proof (wf_nonneg e Hwf) as Hn.
    rewrite Forall_forall in Hn. specialize (Hn _ Hi). cbn in *. lia.
Qed.


(** C2. What a write commits, decided by its number [v] and the highest version
    written. A late write ([v] is not 0 and at most that version) is dropped: it
    changes nothing and reports the version that beat it. Any other write becomes
    the head of the list with its contents, and nothing else is added: an
    unversioned one ([v = 0]) right above the highest version written, whatever
    has been read; a versioned one at its number or, when that has been read
    already, right above the highest version read, and its column 0 carries the
    number it got. *)
Theorem port_write_commit mp os e d mpv v e' c :
  Forall op_i32 os -> Zlen os < 2 ^ 31 - 1 ->
  run os (partition_entry_new mp) = Some e -> 0 <= v < 2 ^ 31 ->
  apply d mpv v e = Some (e', c) ->
  (v <> 0 /\ v <= highest_version_written e -> e' = e /\ c = highest_version_written e) /\
  (v = 0 \/ highest_version_written e < v ->
     c = (if v =? 0 then highest_version_written e + 1 else Z.max v (highest_version_read e + 1)) /\
     highest_version_written e < c /\ highest_version_written e' = c /\
     (v <> 0 -> mpv_has_cell0 mpv = true) /\
     exists p l, versions e' = p :: l /\ version_number p = c /\ pv_partition p = written d mpv v c /\
       content <$> l `sublist_of` contents e).
Proof.
  intros Hos Hl Hr Hv Ha. pose proof (Zlen_nonneg os).
  pose proof (run_wf_within os _ e 0 (wf_within_new mp) ltac:(lia) ltac:(lia) Hos Hr) as [Hwf Hb].
  pose proof Ha as [(El & -> & ->)|(El & -> & Hw & _ & _ & Hmp & Hc)]%apply_written.
  - apply write_is_late_true in El. split; [done|lia].
  - pose proof (promoted_range v e Hwf Hv ltac:(lia) El) as [Hp _].
    split; [intros Hlate%write_is_late_true; congruence|]. intros _.
    split_and!; [|lia|done|done|].
    + unfold promoted_version_to_write, uwrap in *. pose proof (wf_hr e Hwf).
      pose proof (wf_hw_nonneg e Hwf). destruct (Z.eqb_spec v 0); cbn [negb andb] in *.
      * apply Z.mod_small. lia.
      * destruct (Z.leb_spec v (highest_version_read e)); [rewrite Z.mod_small by lia|]; lia.
    + destruct Hc as (l & Hc & Hsub). unfold contents in Hc.
      destruct (versions e') as [|p l']; [done|]. rewrite fmap_cons in Hc. injection Hc as Hid Hpp Hn <-.
      by exists p, l'.
Qed.

(** A strictly decreasing list of naturals starts at least at its length. *)
Lemma sorted_head_ge (l : list Z) x :
  StronglySorted Z.gt (x :: l) -> Forall (fun y => 0 <= y) (x :: l) -> Zlen l <= x.
Proof.
  revert x; induction l as [|y l IH]; intros x Hs Hn.
  { apply Forall_cons in Hn as [? _]. by rewrite Zlen_nil. }
  apply StronglySorted_inv in Hs as [Hs Hx]. apply Forall_cons in Hx as [Hx _].
  apply Forall_cons in Hn as [_ Hn]. specialize (IH y Hs Hn). rewrite Zlen_cons. lia.
Qed.

Lemma wf_written_ge_count e : wf e -> num_versions e <= highest_version_written e.
Proof.
  intros [_ Hs Hn Hh _ _ Hcnt _ _].
  destruct (contents e) as [|x xs]; [done|]. cbn in Hh, Hs. injection Hh as Hh.
  assert (Zlen (c_num <$> xs) <= c_num x).
  { apply sorted_head_ge; [done|]. by apply (Forall_fmap c_num _ (x :: xs)). }
  unfold Zlen in *. rewrite length_fmap in *. cbn in Hcnt. lia.
Qed.

(** C37. Writes never block or fail: a write that carries column 0 succeeds on
    every reachable entry whose oldest numbered version is recorded in
    [last_version] and is not pinned by a snapshot. *)
Theorem port_write_total mp os e d mpv v :
  Forall op_i32 os -> Zlen os < 2 ^ 31 - 1 ->
  run os (partition_entry_new mp) = Some e -> 0 <= v < 2 ^ 31 ->
  mpv_has_cell0 mpv = true ->
  (exists l, last_version e = Some l /\
     forall p, p ∈ versions e -> pv_id p = l -> pv_snapshot p = false) ->
  exists e' c, apply d mpv v e = Some (e', c).
Proof.
  intros Hos Hl Hr Hv Hc0 (l & Hlast & Hopen). pose proof (Zlen_nonneg os).
  pose proof (run_wf_within os _ e 0 (wf_within_new mp) ltac:(lia) ltac:(lia) Hos Hr) as [Hwf Hb].
  pose proof (run_gc_inv os _ e 0 (wf_within_new mp) ltac:(lia) ltac:(lia) Hos
                (gc_inv_new mp) Hr) as Hg.
  unfold apply. destruct (write_is_late v e) eqn:El; [eauto|].
  pose proof (promoted_range v e Hwf Hv ltac:(lia) El) as [Hp _].
  set (c0 := promoted_version_to_write v e) in *.
  assert (exists mp', (if negb (v =? 0) || d then stamp_cell0 (mp_apply_to_empty mpv) c0
                       else Some (mp_apply_to_empty mpv)) = Some mp') as [mp' ->].
  { unfold stamp_cell0, mp_apply_to_empty. rewrite Hc0. cbn.
    destruct (_ || _); eauto. }
  cbn [mbind option_bind]. destruct (Z.leb_spec 100 (num_versions e)); [|eauto].
  destruct (Hg l Hlast) as (c1 & c & c2 & Hc & Hid & _).
  destruct (contents_split _ _ _ _ Hc) as (l1 & pi & l2 & Hvs & <- & _ & _).
  change (pv_id pi = l) in Hid. subst l.
  pose proof (wf_written_ge_count e Hwf).
  set (e1 := push_version c0 mp' e).
  pose proof (push_nodup c0 mp' e Hwf) as Hnd.
  assert (Hsn : pv_snapshot pi = false).
  { apply Hopen; [|done]. rewrite Hvs. apply elem_of_app. right. left. }
  assert (Hl1 : last_version e1 = Some (pv_id pi)).
  { unfold e1, push_version; cbn. destruct (Z.eqb_spec c0 1); [lia|done]. }
  set (nv := PV (next_id e) mp' c0 false).
  assert (Hve1 : versions e1 = nv :: l1 ++ pi :: l2)
    by (unfold e1, push_version; cbn; by rewrite Hvs).
  destruct l1 as [|p l1 _] using rev_ind.
  - rewrite (gc_one_closed e1 [] nv pi l2) by done. cbn. eauto.
  - rewrite (gc_one_closed e1 (nv :: l1) p pi l2); [cbn; eauto|done| |done|done].
    rewrite Hve1. cbn. by rewrite <- app_assoc.
Qed.

End partition.

(** ** Concrete runs

    A table named ["data"] with one integer column, loaded with an unversioned
    write. *)
Definition ex_new : @partition_entry Z := partition_entry_new (MP 0 None).
Definition ex_load : @op Z := OWrite true (MPV 10 true) 0.
Definition ex_write (i : Z) : @op Z := OWrite true (MPV (10 + i) true) i.
Definition ex_run : list (@op Z) := [ex_load; ORead 3; ex_write 2; ORead 7; ex_write 9].

Lemma port_run_invariant_witness :
  exists e, run ex_run ex_new = Some e /\ wf e.
Proof.
  eexists. split; [vm_compute; reflexivity|].
  eapply (port_run_invariant (MP 0 None) ex_run);
    [repeat constructor; cbn; lia|vm_compute; reflexivity|vm_compute; reflexivity].
Defined.

Lemma port_read_newest_witness :
  exists e e' pv, run ex_run ex_new = Some e /\ read 5 e = Some (e', pv) /\
    visible 5 (contents e) (content pv).
Proof.
  eexists. destruct (port_read_newest (MP 0 None) ex_run _ 5
    ltac:(repeat constructor; cbn; lia) eq_refl eq_refl eq_refl) as (e' & pv & H & _ & Hv & _).
  exists e', pv. split; [reflexivity|]. split; [exact H|]. apply Hv.
  exists (2%nat, MP 12 (Some 4), 4). split; [|cbn; lia].
  apply list_elem_of_In. vm_compute. tauto.
Defined.


(** A late write, a promoted one and an unversioned one on the same entry, whose
    versions are 9, 4 and 1 and which has been read at 30. *)
Definition ex_commit_run : list (@op Z) := ex_run ++ [ORead 30].

Definition ex_commit_entry : @partition_entry Z :=
  Eval vm_compute in default ex_new (run ex_commit_run ex_new).

Lemma port_write_commit_witness :
  run ex_commit_run ex_new = Some ex_commit_entry /\
  (exists e c, apply true (MPV 3 true) 5 ex_commit_entry = Some (e, c) /\
     e = ex_commit_entry /\ c = 9) /\
  (exists e c p l, apply true (MPV 3 true) 20 ex_commit_entry = Some (e, c) /\ c = 31 /\
     versions e = p :: l /\ pv_partition p = written true (MPV 3 true) 20 c) /\
  (exists e c p l, apply false (MPV 3 false) 0 ex_commit_entry = Some (e, c) /\ c = 10 /\
     versions e = p :: l /\ pv_partition p = written false (MPV 3 false) 0 c).
Proof.
  assert (Hos : Forall op_i32 ex_commit_run) by (repeat constructor; cbn; lia).
  assert (Hr : run ex_commit_run ex_new = Some ex_commit_entry) by (vm_compute; reflexivity).
  split; [exact Hr|]. split; [|split].
  - destruct (apply true (MPV 3 true) 5 ex_commit_entry) as [[e c]|] eqn:Ha; [|vm_compute in Ha; discriminate].
    destruct (port_write_commit _ ex_commit_run _ true (MPV 3 true) 5 e c Hos eq_refl Hr ltac:(lia) Ha) as [H _].
    destruct H as [He Hc]; [vm_compute; split; discriminate|].
    exists e, c. split; [reflexivity|]. split; [exact He|exact Hc].
  - destruct (apply true (MPV 3 true) 20 ex_commit_entry) as [[e c]|] eqn:Ha; [|vm_compute in Ha; discriminate].
    destruct (port_write_commit _ ex_commit_run _ true (MPV 3 true) 20 e c Hos eq_refl Hr ltac:(lia) Ha) as [_ H].
    destruct H as (Hc & _ & _ & _ & p & l & H1 & _ & H3 & _); [right; reflexivity|].
    exists e, c, p, l. split; [reflexivity|]. split; [exact Hc|]. split; [exact H1|exact H3].
  - destruct (apply false (MPV 3 false) 0 ex_commit_entry) as [[e c]|] eqn:Ha; [|vm_compute in Ha; discriminate].
    destruct (port_write_commit _ ex_commit_run _ false (MPV 3 false) 0 e c Hos eq_refl Hr ltac:(lia) Ha) as [_ H].
    destruct H as (Hc & _ & _ & _ & p & l & H1 & _ & H3 & _); [left; reflexivity|].
    exists e, c, p, l. split; [reflexivity|]. split; [exact Hc|]. split; [exact H1|exact H3].
Defined.

Lemma port_write_total_witness :
  exists e e' c, run (ex_load :: drop 2 ex_run) ex_new = Some e /\ apply true (MPV 3 true) 20 e = Some (e', c).
Proof.
  eexists.
  destruct (port_write_total (MP 0 None) (ex_load :: drop 2 ex_run) _ true (MPV 3 true) 20
    ltac:(repeat constructor; cbn; lia) eq_refl eq_refl ltac:(lia) eq_refl) as (e' & c & H).
  { exists 1%nat. split; [reflexivity|]. intros p Hp%list_elem_of_In Hid. vm_compute in Hp.
    repeat destruct Hp as [<-|Hp]; vm_compute in Hid |- *; try discriminate; try reflexivity;
      contradiction. }
  exists e', c. split; [reflexivity|exact H].
Defined.

(** C39. The collector dereferences a null pointer when the oldest version
    stays pinned: after loading a row and opening a snapshot of version 1, the
    102nd write crashes the shard, while without the snapshot the same writes
    all succeed. A row whose first write proposes a version above 1 crashes at
    its 101st write, because [last_version] is never recorded. *)
Theorem port_gc_null_dereference :
  is_Some (run (ex_load :: ORead 1 :: replicate 100 ex_load) ex_new) /\
  run (ex_load :: ORead 1 :: replicate 101 ex_load) ex_new = None /\
  is_Some (run (ex_load :: replicate 101 ex_load) ex_new) /\
  run ((fun i => ex_write (Z.of_nat i)) <$> seq 2 101) ex_new = None.
Proof.
  repeat split; try (by vm_compute); apply is_Some_alt; by vm_compute.
Qed.

(** Unversioned writes are not promoted above reads: after a read at 5
    that returned version 1, an unversioned write commits at version 2, and
    the same read at 5 returns it, although the first snapshot is still open. *)
Theorem port_unversioned_write_not_repeatable :
  exists e e1 pv e2 e3 pv',
    run [ex_load] ex_new = Some e /\ read 5 e = Some (e1, pv) /\
    exec (OWrite true (MPV 11 true) 0) e1 = Some e2 /\
    read 5 e2 = Some (e3, pv') /\
    version_number pv = 1 /\ version_number pv' = 2 /\
    mp_data (pv_partition pv) <> mp_data (pv_partition pv').
Proof.
  eexists _, _, _, _, _, _. repeat split; try reflexivity. vm_compute. discriminate.
Qed.
