(* ===== verification/Memtable.v ===== *)
(** * The memtable of a replica

    Models the part of [memtable] (src/Scylla-moon/memtable.cc) a PORT
    transaction goes through on a replica: [find_or_create_partition] and
    [apply] for writes, [make_flat_reader] of a single partition for reads. The
    partitions are a map from keys, and each value is the [partition_entry] of
    PartitionVersion.v. The schema does not change, so [upgrade_entry] does
    nothing.

    The lemmas of this file say that a committed write stays visible: whoever
    reads at or above the version a write reported gets that version or a newer
    one, and the version reported by a write that was not dropped as late keeps
    the contents of that write, whatever else happens to the memtable. *)

From stdpp Require Import sorting gmap.
From S2P Require Import Prelude PartitionVersion.
Open Scope Z_scope.

(** ** Visibility in one entry *)

Section covers.
Context {D : Type}.
Implicit Types (e : @partition_entry D).

(** A read at or above [v] does not get less than [v]. *)
Definition covers (v : Z) e : Prop :=
  (exists c, c ∈ contents e /\ c_num c = v) \/
  (forall c, c ∈ contents e -> 0 < c_num c -> v < c_num c).

(** A committed version of an entry. *)
Definition committed (v : Z) e : Prop :=
  0 < v <= highest_version_written e /\ covers v e.

(** The version [v] of an entry, if it is still kept, has the contents [mp]. *)
Definition holds (v : Z) (mp : mutation_partition) e : Prop :=
  v <= highest_version_written e /\ forall c, c ∈ contents e -> c_num c = v -> c.1.2 = mp.

(** The collector removes nothing but the oldest version. *)
Lemma gc_one_oldest e e' :
  NoDup (c_id <$> contents e) -> gc_inv e -> StronglySorted Z.gt (c_num <$> contents e) ->
  gc_one e = Some e' ->
  forall c, c ∈ contents e -> c ∈ contents e' \/
    forall c', c' ∈ contents e' -> 0 < c_num c' -> c_num c < c_num c'.
Proof.
  intros Hnd Hinv Hs Hgc.
  assert (exists l, last_version e = Some l) as [l Hl].
  { unfold gc_one in Hgc. destruct (last_version e); [eauto|done]. }
  destruct (Hinv l Hl) as (c1 & c & c2 & Hc & Hid & Hz).
  destruct (contents_split _ _ _ _ Hc) as (l1 & pi & l2 & Hv & <- & <- & <-).
  change (pv_id pi = l) in Hid. subst l. rewrite Forall_forall in Hz.
  destruct (pv_snapshot pi) eqn:Hsn.
  - rewrite (gc_one_open e l1 pi l2) in Hgc by done.
    destruct l2 as [|x l2']; [done|]. injection Hgc as <-. unfold contents at 2 3; cbn [versions].
    rewrite (fmap_app content l1 (pi :: l2')), !fmap_cons in *.
    intros y. rewrite Hc, !elem_of_app, !elem_of_cons.
    intros [?|[?|[->|?]]]; auto. right. intros c' _ Hp. rewrite (Hz (content x)); [done|left].
  - destruct l1 as [|p l1' _] using rev_ind.
    { by rewrite (gc_one_closed_front e pi l2) in Hgc by done. }
    rewrite <- app_assoc in Hv. cbn in Hv.
    rewrite (gc_one_closed e l1' p pi l2) in Hgc by done. injection Hgc as <-.
    unfold contents at 2 3; cbn [versions]. rewrite (fmap_app content l1' (p :: l2)), fmap_cons.
    rewrite fmap_app in Hc. rewrite Hc, fmap_app in Hs. apply StronglySorted_app in Hs as (Hgt & _).
    intros y. rewrite Hc, !elem_of_app, !elem_of_cons.
    intros [[?| ->%list_elem_of_singleton]|[->|?]]; auto. right. intros c' Hc' Hp.
    apply Z.gt_lt. apply Hgt; [|left].
    apply elem_of_app in Hc' as [Hc'|[->|Hc']%elem_of_cons].
    + by apply list_elem_of_fmap_2, elem_of_app; left.
    + apply list_elem_of_fmap_2, elem_of_app. right. left.
    + rewrite (Hz c' Hc') in Hp. done.
Qed.

Lemma wf_le_hw e c : wf e -> c ∈ contents e -> c_num c <= highest_version_written e.
Proof.
  intros Hwf. pose proof (wf_head e Hwf) as Hh. pose proof (wf_sorted e Hwf) as Hs.
  destruct (contents e) as [|x xs]; [done|]. cbn in Hh, Hs. injection Hh as <-.
  apply StronglySorted_inv in Hs as [_ Hs]. rewrite Forall_forall in Hs.
  intros [->|Hc]%elem_of_cons; [done|]. apply (list_elem_of_fmap_2 c_num) in Hc.
  apply Hs in Hc. lia.
Qed.

(** What a write keeps. *)
Lemma apply_keeps_newer d mpv v e e' c :
  wf e -> 0 <= v < 2 ^ 31 -> highest_version_written e < 2 ^ 32 - 1 -> gc_inv e ->
  apply d mpv v e = Some (e', c) ->
  forall x, x ∈ contents e -> x ∈ contents e' \/
    forall y, y ∈ contents e' -> 0 < c_num y -> c_num x < c_num y.
Proof.
  intros Hwf Hv Hhw Hinv Ha. revert Ha. unfold apply. destruct (write_is_late v e) eqn:El; [intros [= <- <-]; by left|].
  pose proof (promoted_range v e Hwf Hv Hhw El) as [Hp _].
  set (c0 := promoted_version_to_write v e) in *. intros (mp' & _ & H)%bind_Some.
  destruct (100 <=? num_versions e); [|injection H as <- <-; intros x Hx; left; by right].
  apply bind_Some in H as (e'' & Hgc & [= <- <-]). intros x Hx. unfold contents at 1 2; cbn.
  apply (gc_one_oldest (push_version c0 mp' e)); [by apply push_nodup| | |done|by right].
  - apply push_gc_inv; [done|lia|done].
  - cbn. constructor; [apply wf_sorted, Hwf|]. apply Forall_fmap, Forall_forall. intros y Hy.
    apply (wf_le_hw e y Hwf) in Hy. cbn. lia.
Qed.

Lemma apply_committed d mpv v e e' c x :
  wf e -> 0 <= v < 2 ^ 31 -> highest_version_written e < 2 ^ 32 - 1 -> gc_inv e ->
  apply d mpv v e = Some (e', c) -> committed x e -> committed x e'.
Proof.
  intros Hwf Hv Hhw Hinv Ha [Hx Hcov].
  pose proof (apply_keeps_newer _ _ _ _ _ _ Hwf Hv Hhw Hinv Ha) as Hkeep.
  pose proof Ha as Hsp. apply apply_spec in Hsp as [(_ & -> & _)|(El & -> & Hw & _ & _ & mp & Hc)]; [done|].
  pose proof (promoted_range v e Hwf Hv Hhw El) as [Hp _].
  assert (Hin : forall y, y ∈ contents e' ->
    y ∈ contents e \/ c_num y = promoted_version_to_write v e).
  { intros y. destruct Hc as [(_ & -> & _)|(_ & _ & j & _ & ->)];
      intros [->|Hy]%elem_of_cons; auto. left. by eapply elem_of_sublist_of; [apply sublist_delete|]. }
  split; [lia|]. destruct Hcov as [(y & Hy & <-)|Hcov].
  - destruct (Hkeep y Hy); [left; eauto|by right].
  - right. intros y Hy Hpos. destruct (Hin y Hy) as [?| ->]; [auto|lia].
Qed.

(** The version a write reports is committed. *)
Lemma apply_commits d mpv v e e' c :
  wf e -> 0 <= v < 2 ^ 31 -> highest_version_written e < 2 ^ 32 - 1 ->
  apply d mpv v e = Some (e', c) -> committed c e'.
Proof.
  intros Hwf Hv Hhw Ha. pose proof (wf_hw_nonneg e Hwf) as Hn.
  apply apply_spec in Ha as [(El & -> & ->)|(El & -> & Hw & _ & _ & mp & Hc)].
  - unfold write_is_late in El. apply andb_true_iff in El as [E1 E2].
    apply negb_true_iff, Z.eqb_neq in E1. apply Z.leb_le in E2. split; [lia|]. left.
    pose proof (wf_head e Hwf) as Hh. destruct (contents e) as [|x xs]; [done|].
    cbn in Hh. injection Hh as Hh. exists x. split; [left|done].
  - pose proof (promoted_range v e Hwf Hv Hhw El) as [Hp _]. split; [lia|]. left.
    destruct Hc as [(_ & -> & _)|(_ & _ & j & _ & ->)]; (eexists; split; [left|done]).
Qed.

Lemma apply_holds d mpv v e e' c x mp :
  wf e -> 0 <= v < 2 ^ 31 -> highest_version_written e < 2 ^ 32 - 1 ->
  apply d mpv v e = Some (e', c) -> holds x mp e -> holds x mp e'.
Proof.
  intros Hwf Hv Hhw Ha [Hx Hh].
  apply apply_written in Ha as [(_ & -> & _)|(El & -> & Hw & _ & _ & _ & l & Hc & Hsub)]; [done|].
  pose proof (promoted_range v e Hwf Hv Hhw El) as [Hp _]. split; [lia|]. rewrite Hc.
  intros y [->|Hy]%elem_of_cons Hn; [cbn in Hn; lia|]. apply Hh; [|done]. by eapply elem_of_sublist_of.
Qed.

(** A write that is not late leaves its contents at the version it reports, which
    is at least the one it proposed. *)
Lemma apply_wrote d mpv v e e' c :
  wf e -> 0 <= v < 2 ^ 31 -> highest_version_written e < 2 ^ 32 - 1 ->
  apply d mpv v e = Some (e', c) ->
  v <= c /\ (write_is_late v e = false -> holds c (written d mpv v c) e').
Proof.
  intros Hwf Hv Hhw Ha. pose proof (wf_hw_nonneg e Hwf).
  apply apply_written in Ha as [(El & _ & ->)|(El & -> & Hw & _ & _ & _ & l & Hc & Hsub)].
  - split; [|congruence]. apply write_is_late_true in El. lia.
  - pose proof (promoted_range v e Hwf Hv Hhw El) as [Hp Hp']. split.
    { destruct (decide (v = 0)) as [->|Hne]; [lia|]. by apply Hp'. }
    intros _. split; [lia|]. rewrite Hc. intros y [->|Hy]%elem_of_cons Hn; [done|].
    assert (Hin : y ∈ contents e) by (by eapply elem_of_sublist_of). apply (wf_le_hw e y Hwf) in Hin. lia.
Qed.

Lemma exec_holds o e e' k x mp :
  wf_within k e -> 0 <= k < 2 ^ 31 - 1 -> op_i32 o ->
  exec o e = Some e' -> holds x mp e -> holds x mp e'.
Proof.
  intros [Hwf Hk] Hkr Hi He Hx. destruct o as [d mpv v|t|p]; cbn in Hi, He.
  - apply fmap_Some in He as ([e1 c] & Ha & ->). eapply apply_holds; [done|done| |done..]. lia.
  - apply fmap_Some in He as ([e1 pv] & (Hc & _ & _ & Hw & _)%read_spec & ->).
    unfold holds. cbn. by rewrite Hc, Hw.
  - injection He as <-. unfold holds. by rewrite snapshot_destroy_contents.
Qed.

Lemma exec_committed o e e' k x :
  wf_within k e -> 0 <= k < 2 ^ 31 - 1 -> op_i32 o -> gc_inv e ->
  exec o e = Some e' -> committed x e -> committed x e'.
Proof.
  intros [Hwf Hk] Hkr Hi Hinv He Hx. destruct o as [d mpv v|t|p]; cbn in Hi, He.
  - apply fmap_Some in He as ([e1 c] & Ha & ->).
    eapply apply_committed; [done|done| |done..]. lia.
  - apply fmap_Some in He as ([e1 pv] & (Hc & _ & _ & Hw & _)%read_spec & ->).
    unfold committed, covers. cbn. by rewrite Hc, Hw.
  - injection He as <-. unfold committed, covers. by rewrite snapshot_destroy_contents.
Qed.

(** A committed version is seen. *)
Lemma read_committed t x e :
  wf e -> committed x e -> x <= t ->
  exists e' pv, read t e = Some (e', pv) /\ x <= version_number pv.
Proof.
  intros Hwf [Hx Hcov] Ht.
  destruct (read_total t e Hwf) as (e' & pv & Hrd). exists e', pv. split; [done|].
  pose proof Hrd as (_ & Hlk & _)%read_spec.
  assert (Hpv : content pv ∈ contents e).
  { apply list_elem_of_lookup_2 in Hlk. by apply list_elem_of_fmap_2. }
  assert (Hhd : read_position t (versions e) = 0%nat -> version_number pv = highest_version_written e).
  { intros E. rewrite E in Hlk. pose proof (wf_head e Hwf) as Hh. unfold contents in Hh.
    destruct (versions e); [done|]. cbn in Hlk, Hh. injection Hlk as ->. by injection Hh. }
  unfold read_position in *. destruct (Z.ltb_spec 0 t); [|lia].
  destruct (list_find _ _) as [[i v]|] eqn:Hf; [|lia].
  destruct (Z.eqb_spec (version_number v) 0); [lia|].
  pose proof Hf as (Hi & Hle & _)%list_find_Some. rewrite Hlk in Hi. injection Hi as ->.
  assert (Hpos : 0 < version_number v).
  { pose proof (wf_nonneg e Hwf) as Hn. rewrite Forall_forall in Hn.
    specialize (Hn _ Hpv). cbn in Hn. lia. }
  destruct Hcov as [(y & Hy & <-)|Hcov].
  - assert (Hvis : visible t (contents e) (content v)) by (eapply read_visible; [done|exact Hrd|lia]).
    destruct Hvis as (_ & _ & Hmax). by apply Hmax.
  - specialize (Hcov _ Hpv Hpos). cbn in Hcov. lia.
Qed.

End covers.

(** ** The memtable *)

Section memtable.
(** The contents of an empty [mutation_partition], and whether the table is
    called ["data"]. *)
Context {D : Type} (empty_data : D) (cf_is_data : bool).

(** [frozen_mutation]: its key, contents and [get_version_to_write]. *)
Record frozen_mutation := FM {
  fm_key : Z; fm_partition : @mutation_partition_view D; get_version_to_write : Z }.

Abbreviation memtable := (gmap Z (@partition_entry D)).

Definition find_or_create_partition (key : Z) (mt : memtable) : @partition_entry D :=
  match mt !! key with
  | Some e => e
  | None => partition_entry_new (MP empty_data None)
  end.

(** [memtable::apply]; the version comes back through [commit_version_ptr]. *)
Definition memtable_apply (m : frozen_mutation) (mt : memtable) : option (memtable * Z) :=
  let p := find_or_create_partition (fm_key m) mt in
  '(p, c) ← apply cf_is_data (fm_partition m) (get_version_to_write m) p;
  Some (<[fm_key m := p]> mt, c).

(** [make_flat_reader] of one partition: the snapshot it reads from, or an
    empty reader. *)
Definition make_flat_reader (key version_to_read : Z) (mt : memtable)
    : option (memtable * option (@partition_version D)) :=
  match mt !! key with
  | Some e => '(e, pv) ← read version_to_read e; Some (<[key := e]> mt, Some pv)
  | None => Some (mt, None)
  end.

(** The reader is destroyed, and its snapshot with it. *)
Definition reader_destroy (key : Z) (p : nat) (mt : memtable) : memtable :=
  match mt !! key with
  | Some e => <[key := snapshot_destroy p e]> mt
  | None => mt
  end.

Definition mutation_ok (m : frozen_mutation) : Prop := 0 <= get_version_to_write m < 2 ^ 31.

(** [k] bounds the number of operations so far. *)
Definition memtable_ok (k : Z) (mt : memtable) : Prop :=
  map_Forall (fun _ e => wf_within k e /\ gc_inv e) mt.

(** The write reported version [v] of the partition [key]. *)
Definition mt_committed (key v : Z) (mt : memtable) : Prop :=
  exists e, mt !! key = Some e /\ committed v e.

(** The version [v] of the partition [key] was written with the contents [mp]. *)
Definition mt_holds (key v : Z) (mp : mutation_partition) (mt : memtable) : Prop :=
  exists e, mt !! key = Some e /\ holds v mp e.

(** What a memtable does not lose. *)
Record mt_later (mt mt' : memtable) : Prop := {
  ml_committed : forall key v, mt_committed key v mt -> mt_committed key v mt';
  ml_holds : forall key v mp, mt_holds key v mp mt -> mt_holds key v mp mt' }.

Lemma mt_later_refl mt : mt_later mt mt.
Proof. by split. Qed.

Lemma wf_within_mono k k' (e : @partition_entry D) : k <= k' -> wf_within k e -> wf_within k' e.
Proof. intros Hk []. split; [done|lia]. Qed.

Lemma memtable_ok_mono k k' mt : k <= k' -> memtable_ok k mt -> memtable_ok k' mt.
Proof.
  intros Hk H key e He. destruct (H key e He). split; [by eapply wf_within_mono|done].
Qed.

(** An operation on one entry, seen from the memtable. *)
Lemma exec_memtable o key e e' mt k :
  memtable_ok k mt -> 0 <= k < 2 ^ 31 - 1 -> op_i32 o ->
  mt !! key = Some e \/ (e = partition_entry_new (MP empty_data None) /\ mt !! key = None) ->
  exec o e = Some e' ->
  memtable_ok (k + 1) (<[key := e']> mt) /\ mt_later mt (<[key := e']> mt).
Proof.
  intros Hok Hk Ho He Hex.
  assert (Hw : wf_within k e /\ gc_inv e).
  { destruct He as [He|[-> _]]; [by eapply Hok|]. split; [|apply gc_inv_new].
    eapply wf_within_mono, wf_within_new. lia. }
  destruct Hw as [Hw Hg]. split.
  - apply map_Forall_insert_2; [|by eapply memtable_ok_mono; [|exact Hok]; lia].
    split; [by eapply exec_wf|by eapply exec_gc_inv].
  - assert (Hup : forall key' e0 (P : partition_entry -> Prop), mt !! key' = Some e0 -> P e0 -> (P e -> P e') ->
      exists e1, <[key := e']> mt !! key' = Some e1 /\ P e1).
    { intros key' e0 P He0 HP HPe. destruct (decide (key' = key)) as [->|];
        [rewrite lookup_insert_eq|rewrite lookup_insert_ne by done; eauto].
      exists e'. split; [done|]. destruct He as [He|[_ He]]; [|congruence].
      rewrite He in He0. injection He0 as <-. auto. }
    split; [intros key' v (e0 & He0 & Hc)|intros key' v mp (e0 & He0 & Hc)].
    + eapply (Hup key' e0 (committed v)); [done|done|]. by eapply exec_committed.
    + eapply (Hup key' e0 (holds v mp)); [done|done|]. by eapply exec_holds.
Qed.

Lemma find_or_create_cases key mt :
  let e := find_or_create_partition key mt in
  mt !! key = Some e \/ (e = partition_entry_new (MP empty_data None) /\ mt !! key = None).
Proof. unfold find_or_create_partition. destruct (mt !! key); auto. Qed.

Lemma memtable_apply_ok m mt mt' c k :
  memtable_ok k mt -> 0 <= k < 2 ^ 31 - 1 -> mutation_ok m ->
  memtable_apply m mt = Some (mt', c) ->
  memtable_ok (k + 1) mt' /\ mt_committed (fm_key m) c mt' /\ get_version_to_write m <= c /\
  (write_is_late (get_version_to_write m) (find_or_create_partition (fm_key m) mt) = false ->
   mt_holds (fm_key m) c (written cf_is_data (fm_partition m) (get_version_to_write m) c) mt') /\
  mt_later mt mt'.
Proof.
  intros Hok Hk Hm. unfold memtable_apply.
  set (e := find_or_create_partition (fm_key m) mt).
  intros ([e' c'] & Ha & [= <- <-])%bind_Some.
  pose proof (find_or_create_cases (fm_key m) mt) as He. fold e in He.
  destruct (exec_memtable (OWrite cf_is_data (fm_partition m) (get_version_to_write m))
    (fm_key m) e e' mt k) as [H1 H2]; [done..|cbn; by rewrite Ha|].
  assert (Hw : wf_within k e).
  { destruct He as [He|[-> _]]; [by destruct (Hok _ _ He)|].
    eapply wf_within_mono, wf_within_new. lia. }
  destruct Hw as [Hwf Hb].
  destruct (apply_wrote _ _ _ _ _ _ Hwf Hm ltac:(lia) Ha) as [H3 H4].
  split_and!; [done| |done| |done].
  - exists e'. split; [apply lookup_insert_eq|]. eapply apply_commits; [exact Hwf|exact Hm| |exact Ha]. lia.
  - intros El. exists e'. split; [apply lookup_insert_eq|]. by apply H4.
Qed.

Lemma make_flat_reader_ok key t mt k :
  memtable_ok k mt -> 0 <= k < 2 ^ 31 - 1 -> 0 <= t < 2 ^ 31 ->
  exists mt' r, make_flat_reader key t mt = Some (mt', r) /\ memtable_ok (k + 1) mt' /\ mt_later mt mt'.
Proof.
  intros Hok Hk Ht. unfold make_flat_reader. destruct (mt !! key) as [e|] eqn:He.
  - destruct (Hok _ _ He) as [[Hwf _] _]. destruct (read_total t e Hwf) as (e' & pv & Hr).
    rewrite Hr. cbn. eexists _, _. split; [done|].
    apply (exec_memtable (ORead t) key e e' mt k); auto. cbn. by rewrite Hr.
  - eexists _, _. split; [done|]. split; [|apply mt_later_refl]. by eapply memtable_ok_mono; [|exact Hok]; lia.
Qed.

Lemma reader_destroy_ok key p mt k :
  memtable_ok k mt -> 0 <= k < 2 ^ 31 - 1 -> 
  memtable_ok (k + 1) (reader_destroy key p mt) /\ mt_later mt (reader_destroy key p mt).
Proof.
  intros Hok Hk. unfold reader_destroy. destruct (mt !! key) as [e|] eqn:He.
  - apply (exec_memtable (OClose p) key e _ mt k); auto. done.
  - split; [|apply mt_later_refl]. by eapply memtable_ok_mono; [|exact Hok]; lia.
Qed.

(** Whoever reads at or above a committed version gets it, with its contents, or a
    newer one. *)
Lemma mt_read_committed key t v mt k :
  memtable_ok k mt -> mt_committed key v mt -> v <= t ->
  exists mt' pv, make_flat_reader key t mt = Some (mt', Some pv) /\ v <= version_number pv /\
    forall mp, mt_holds key v mp mt -> version_number pv = v -> pv_partition pv = mp.
Proof.
  intros Hok (e & He & Hc) Ht. destruct (Hok _ _ He) as [[Hwf _] _].
  destruct (read_committed t v e Hwf Hc Ht) as (e' & pv & Hr & Hle).
  unfold make_flat_reader. rewrite He, Hr. cbn. eexists _, pv. split_and!; [done|done|].
  intros mp (e0 & He0 & _ & Hh) Hn. rewrite He in He0. injection He0 as <-.
  apply read_spec in Hr as (_ & Hlk & _). apply list_elem_of_lookup_2, (list_elem_of_fmap_2 content) in Hlk.
  exact (Hh _ Hlk Hn).
Qed.

End memtable.
