(* ===== verification/Coordinator.v ===== *)
(** * The PORT write coordinator

    Models the part of src/Scylla-moon/service/storage_proxy.cc a PORT write
    goes through on its coordinator: the write response handlers and their
    table, throttling, [got_response], expiry, [mutate_prepare],
    [moon_mutate_begin], [moon_mutate_end], [do_moon_mutate], and
    [moon_parallel_for_each] of src/Scylla-moon/seastar/core/future-util.hh.

    A shard runs one task at a time, so an operation is a function on the state
    of the proxy; operations interleave. [None] is a failed [assert], a promise
    resolved twice or abandoned with a waiter, or a missing object. A handler is
    identified by its response id; it lives until its entry in the table is
    erased and the continuations that share it ([h_refs]) are gone, when its
    destructor runs. *)

From S2P Require Import Prelude.
From stdpp Require Import gmap.
Open Scope Z_scope.

(** ** [moon_parallel_for_each] *)

(** Why a write fails: [mutation_write_timeout_exception], or an exception of
    [mutate_prepare]. *)
Inductive exn :=
| mutation_write_timeout_exception (received block_for : Z)
| unavailable_exception.

(** The value of a resolved [future<uint32_t>]. *)
Abbreviation result := (exn + Z)%type.

Record moon_parallel_for_each_state := Pfe {
  ex : option exn;
  waiting : Z;
  max_commit_version : Z;
  pr : option result }.

(** [complete]; [pr] can be set once. *)
Definition complete (value : Z) (s : moon_parallel_for_each_state)
    : option moon_parallel_for_each_state :=
  let max := if max_commit_version s <? value then value else max_commit_version s in
  let w := uwrap 64 (waiting s - 1) in
  if w =? 0 then
    match pr s with
    | Some _ => None
    | None => Some (Pfe (ex s) w max (Some match ex s with Some e => inl e | None => inr max end))
    end
  else Some (Pfe (ex s) w max (pr s)).

(** What happens to the state: [func] is called on the next element, one of the
    futures it returned resolves (or the call throws), and the loop ends. *)
Inductive pfe_event :=
| PLaunch
| PDone (r : result)
| PFinish.

Definition pfe_step (e : pfe_event) (s : moon_parallel_for_each_state)
    : option moon_parallel_for_each_state :=
  match e with
  | PLaunch => Some (Pfe (ex s) (uwrap 64 (waiting s + 1)) (max_commit_version s) (pr s))
  | PDone (inl x) =>
      complete 0 (Pfe (Some (default x (ex s))) (waiting s) (max_commit_version s) (pr s))
  | PDone (inr v) => complete v s
  | PFinish => complete 0 s
  end.

Fixpoint pfe_run (l : list pfe_event) (s : moon_parallel_for_each_state)
    : option moon_parallel_for_each_state :=
  match l with
  | [] => Some s
  | e :: l' => s' ← pfe_step e s; pfe_run l' s'
  end.

(** The state after the increment at the top. *)
Definition pfe_start : moon_parallel_for_each_state := Pfe None 1 0 None.

(** ** Write response handlers *)

(** The classes of handlers; [dc_responses] counts the answers still wanted from
    each datacenter. *)
Inductive handler_class :=
| write_response_handler
| datacenter_write_response_handler
| datacenter_sync_write_response_handler (dc_responses : gmap Z Z).

Record abstract_write_response_handler := Handler {
  h_class : handler_class;
  cl_any : bool;               (* [_cl == db::consistency_level::ANY] *)
  total_block_for : Z;
  mutation_size : Z;           (* [_mutation_holder->size()] *)
  targets : gset Z;
  cl_acks : Z;
  cl_achieved : bool;
  timedout : bool;
  throttled : bool;
  commit_version : Z;
  waited : bool;               (* a continuation waits for [_ready] *)
  h_refs : nat }.

Definition set_class v h :=
  Handler v (cl_any h) (total_block_for h) (mutation_size h) (targets h) (cl_acks h)
    (cl_achieved h) (timedout h) (throttled h) (commit_version h) (waited h) (h_refs h).
Definition set_targets v h :=
  Handler (h_class h) (cl_any h) (total_block_for h) (mutation_size h) v (cl_acks h)
    (cl_achieved h) (timedout h) (throttled h) (commit_version h) (waited h) (h_refs h).
Definition set_acks v h :=
  Handler (h_class h) (cl_any h) (total_block_for h) (mutation_size h) (targets h) v
    (cl_achieved h) (timedout h) (throttled h) (commit_version h) (waited h) (h_refs h).
Definition set_achieved v h :=
  Handler (h_class h) (cl_any h) (total_block_for h) (mutation_size h) (targets h) (cl_acks h)
    v (timedout h) (throttled h) (commit_version h) (waited h) (h_refs h).
Definition set_timedout v h :=
  Handler (h_class h) (cl_any h) (total_block_for h) (mutation_size h) (targets h) (cl_acks h)
    (cl_achieved h) v (throttled h) (commit_version h) (waited h) (h_refs h).
Definition set_throttled v h :=
  Handler (h_class h) (cl_any h) (total_block_for h) (mutation_size h) (targets h) (cl_acks h)
    (cl_achieved h) (timedout h) v (commit_version h) (waited h) (h_refs h).
Definition set_commit_version v h :=
  Handler (h_class h) (cl_any h) (total_block_for h) (mutation_size h) (targets h) (cl_acks h)
    (cl_achieved h) (timedout h) (throttled h) v (waited h) (h_refs h).
Definition set_waited v h :=
  Handler (h_class h) (cl_any h) (total_block_for h) (mutation_size h) (targets h) (cl_acks h)
    (cl_achieved h) (timedout h) (throttled h) (commit_version h) v (h_refs h).
Definition set_refs v h :=
  Handler (h_class h) (cl_any h) (total_block_for h) (mutation_size h) (targets h) (cl_acks h)
    (cl_achieved h) (timedout h) (throttled h) (commit_version h) (waited h) v.

(** The state of [storage_proxy]. [live] are the handler objects, [table] the
    keys of [_response_handlers], [ready] the resolved [_ready] futures. *)
Record storage_proxy := Proxy {
  live : gmap Z abstract_write_response_handler;
  table : gset Z;
  ready : gmap Z result;
  throttled_writes : list Z;
  background_writes : Z;
  background_write_bytes : Z;
  queued_write_bytes : Z;
  writes : Z;
  next_response_id : Z }.

Definition set_live v p :=
  Proxy v (table p) (ready p) (throttled_writes p) (background_writes p)
    (background_write_bytes p) (queued_write_bytes p) (writes p) (next_response_id p).
Definition set_table v p :=
  Proxy (live p) v (ready p) (throttled_writes p) (background_writes p)
    (background_write_bytes p) (queued_write_bytes p) (writes p) (next_response_id p).
Definition set_ready v p :=
  Proxy (live p) (table p) v (throttled_writes p) (background_writes p)
    (background_write_bytes p) (queued_write_bytes p) (writes p) (next_response_id p).
Definition set_throttled_writes v p :=
  Proxy (live p) (table p) (ready p) v (background_writes p)
    (background_write_bytes p) (queued_write_bytes p) (writes p) (next_response_id p).
Definition add_background (n bytes : Z) p :=
  Proxy (live p) (table p) (ready p) (throttled_writes p) (background_writes p + n)
    (background_write_bytes p + bytes) (queued_write_bytes p) (writes p) (next_response_id p).
Definition add_queued (bytes : Z) p :=
  Proxy (live p) (table p) (ready p) (throttled_writes p) (background_writes p)
    (background_write_bytes p) (queued_write_bytes p + bytes) (writes p) (next_response_id p).
Definition add_writes (n : Z) p :=
  Proxy (live p) (table p) (ready p) (throttled_writes p) (background_writes p)
    (background_write_bytes p) (queued_write_bytes p) (writes p + n) (next_response_id p).
Definition set_next_response_id v p :=
  Proxy (live p) (table p) (ready p) (throttled_writes p) (background_writes p)
    (background_write_bytes p) (queued_write_bytes p) (writes p) v.

Definition upd (id : Z) (f : abstract_write_response_handler -> abstract_write_response_handler)
    (p : storage_proxy) : option storage_proxy :=
  h ← live p !! id; Some (set_live (<[id := f h]> (live p)) p).

(** [_ready.set_value] and [_ready.set_exception]. *)
Definition resolve (id : Z) (r : result) (p : storage_proxy) : option storage_proxy :=
  match ready p !! id with
  | Some _ => None
  | None => Some (set_ready (<[id := r]> (ready p)) p)
  end.

Section proxy.
(** What the snitch says of an endpoint, and the size of the shard's memory. *)
Context (is_local : Z -> bool) (get_datacenter : Z -> Z) (total_memory : Z).

Definition need_throttle_writes (p : storage_proxy) : bool :=
  (total_memory / 10 <? background_write_bytes p) || (6 * 1024 * 1024 <? queued_write_bytes p).

(** [abstract_write_response_handler::unthrottle] *)
Definition unthrottle (id : Z) (p : storage_proxy) : option storage_proxy :=
  h ← live p !! id;
  p ← upd id (set_throttled false) (add_background 1 (mutation_size h) p);
  resolve id (inr (commit_version h)) p.

(** [signal(size_t nr)] *)
Definition signal (id : Z) (nr : Z) (p : storage_proxy) : option storage_proxy :=
  h ← live p !! id;
  let acks := cl_acks h + nr in
  p ← upd id (set_acks acks) p;
  if negb (cl_achieved h) && (total_block_for h <=? acks) then
    p ← upd id (set_achieved true) p;
    if need_throttle_writes p then
      p ← upd id (set_throttled true) p;
      Some (set_throttled_writes (throttled_writes p ++ [id]) p)
    else unthrottle id p
  else Some p.

(** [signal(gms::inet_address from)] of the three classes. *)
Definition signal_from (id from : Z) (p : storage_proxy) : option storage_proxy :=
  h ← live p !! id;
  match h_class h with
  | write_response_handler => signal id 1 p
  | datacenter_write_response_handler => if is_local from then signal id 1 p else Some p
  | datacenter_sync_write_response_handler resp =>
      let dc := get_datacenter from in
      n ← resp !! dc;
      if 0 <? n then
        p ← upd id (set_class (datacenter_sync_write_response_handler (<[dc := n - 1]> resp))) p;
        signal id 1 p
      else Some p
  end.

(** [response]: whether this was the last target. *)
Definition response (id from : Z) (p : storage_proxy) : option (bool * storage_proxy) :=
  p ← signal_from id from p;
  h ← live p !! id;
  if decide (from ∈ targets h) then
    let t := targets h ∖ {[from]} in
    p ← upd id (set_targets t) p;
    Some (bool_decide (t = ∅), p)
  else None.

(** [storage_proxy::unthrottle] *)
Fixpoint unthrottle_loop (l : list Z) (p : storage_proxy) : option storage_proxy :=
  match l with
  | [] => Some (set_throttled_writes [] p)
  | id :: l' =>
      if need_throttle_writes p then Some (set_throttled_writes l p)
      else
        p ← (if decide (id ∈ table p) then unthrottle id p else Some p);
        unthrottle_loop l' p
  end.

Definition unthrottle_writes (p : storage_proxy) : option storage_proxy :=
  unthrottle_loop (throttled_writes p) p.

(** The destructor of a handler, then of its promise. *)
Definition destroy_handler (id : Z) (p : storage_proxy) : option storage_proxy :=
  h ← live p !! id;
  let p := add_writes (-1) p in
  p ← (if cl_achieved h then
         if throttled h then resolve id (inr (commit_version h)) p
         else unthrottle_writes (add_background (-1) (- mutation_size h) p)
       else if timedout h then
         resolve id (inl (mutation_write_timeout_exception (cl_acks h) (total_block_for h))) p
       else Some p);
  if bool_decide (ready p !! id = None) && waited h then None
  else Some (set_live (delete id (live p)) p).

(** [_response_handlers.erase(id)] *)
Definition remove_response_handler (id : Z) (p : storage_proxy) : option storage_proxy :=
  if decide (id ∈ table p) then
    h ← live p !! id;
    let p := set_table (table p ∖ {[id]}) p in
    if (h_refs h =? 0)%nat then destroy_handler id p else Some p
  else Some p.

(** A continuation that shares the handler is gone. *)
Definition release_handler (id : Z) (p : storage_proxy) : option storage_proxy :=
  h ← live p !! id;
  match h_refs h with
  | O => None
  | S n =>
      p ← upd id (set_refs n) p;
      if (n =? 0)%nat && bool_decide (id ∉ table p) then destroy_handler id p else Some p
  end.

Definition got_response (id from v : Z) (p : storage_proxy) : option storage_proxy :=
  if decide (id ∈ table p) then
    p ← upd id (set_commit_version v) p;
    '(last, p) ← response id from p;
    if last : bool then remove_response_handler id p else Some p
  else Some p.

(** The callback of [expire_timer]; [hints] is the number of hints it writes. *)
Definition expire (id hints : Z) (p : storage_proxy) : option storage_proxy :=
  if decide (id ∈ table p) then
    h ← live p !! id;
    p ← (if cl_achieved h || cl_any h then signal id hints p else Some p);
    p ← upd id (set_timedout true) p;
    remove_response_handler id p
  else None.

(** ** A batch of writes *)

(** What [create_write_response_handler] needs of one mutation; [None] when it
    throws because too few replicas are alive. *)
Record write_spec := WriteSpec {
  ws_class : handler_class; ws_any : bool; ws_block_for : Z; ws_size : Z;
  ws_targets : gset Z; ws_hints : Z }.

Definition create_write_response_handler (w : write_spec) (p : storage_proxy)
    : option (Z * storage_proxy) :=
  let id := next_response_id p in
  let h := Handler (ws_class w) (ws_any w) (ws_block_for w) (ws_size w) (ws_targets w)
             0 false false false 0 false 0 in
  let p := add_writes 1 (set_next_response_id (id + 1) p) in
  if decide (id ∈ table p) then None           (* assert(e.second) *)
  else Some (id, set_table ({[id]} ∪ table p) (set_live (<[id := h]> (live p)) p)).

(** The destructor of a vector of [unique_response_handler]s. *)
Fixpoint remove_all (ids : list Z) (p : storage_proxy) : option storage_proxy :=
  match ids with
  | [] => Some p
  | id :: ids' => p ← remove_response_handler id p; remove_all ids' p
  end.

(** [mutate_prepare]; when a handler cannot be created, the ones before it are
    removed with the vector that holds them. *)
Fixpoint mutate_prepare (ws : list (option write_spec)) (ids : list Z) (p : storage_proxy)
    : option ((exn + list Z) * storage_proxy) :=
  match ws with
  | [] => Some (inr ids, p)
  | None :: _ =>
      p ← remove_all ids p;
      Some (inl unavailable_exception, p)
  | Some w :: ws' =>
      '(id, p) ← create_write_response_handler w p;
      mutate_prepare ws' (ids ++ [id]) p
  end.

(** The mutations sent for a handler: to whom, and which endpoints the receiver
    forwards it to. *)
Record send := Send { s_id : Z; s_to : Z; s_forward : list Z }.

(** The groups of [send_to_live_endpoints]: an endpoint of the local datacenter
    alone, the others by datacenter with the last as their coordinator. *)
Definition add_to_group (dc dest : Z) (g : list (Z * list Z)) : list (Z * list Z) :=
  match list_find (fun x => x.1 = dc) g with
  | Some (i, (_, l)) => <[i := (dc, l ++ [dest])]> g
  | None => g ++ [(dc, [dest])]
  end.

Definition groups (my_dc : Z) (l : list Z) : list (list Z) :=
  let '(loc, g) := foldl (fun '(loc, g) dest =>
      if get_datacenter dest =? my_dc then (loc ++ [[dest]], g)
      else (loc, add_to_group (get_datacenter dest) dest g)) ([], []) l in
  loc ++ (snd <$> g).

Definition send_of (id : Z) (group : list Z) : option send :=
  c ← last group; Some (Send id c (take (length group - 1) group)).

(** [send_to_live_endpoints], for a mutation that is the same for all targets and
    not a counter. The order in which the targets are visited is that of a hash
    table; one order is taken here. Each contact shares the handler; a remote one
    also counts as queued until its message is sent. *)
Definition send_to_live_endpoints (me my_dc id : Z) (p : storage_proxy)
    : option (list send * storage_proxy) :=
  h ← live p !! id;
  let sends := omap (send_of id) (groups my_dc (elements (targets h))) in
  let remote := Zlen (filter (fun s => s_to s <> me) sends) in
  p ← upd id (set_refs (h_refs h + length sends)%nat) p;
  Some (sends, add_queued (remote * mutation_size h) p).

(** A contact is over: the local mutation was applied, or the message was sent
    ([rmutate]'s [finally]). *)
Definition contact_done (me id to : Z) (p : storage_proxy) : option storage_proxy :=
  h ← live p !! id;
  p ← (if to =? me then Some p else unthrottle_writes (add_queued (- mutation_size h) p));
  release_handler id p.

(** The body of the loop of [moon_mutate_begin]. *)
Definition begin_one (me my_dc id hints : Z) (p : storage_proxy)
    : option (list send * storage_proxy) :=
  h ← live p !! id;
  p ← (if cl_any h then signal id hints p else Some p);
  (* moon_response_wait *)
  if decide (id ∈ table p) then
    p ← upd id (set_waited true) p;
    send_to_live_endpoints me my_dc id p
  else None.

Fixpoint begin_all (me my_dc : Z) (l : list (Z * Z)) (p : storage_proxy)
    : option (list send * storage_proxy) :=
  match l with
  | [] => Some ([], p)
  | (id, hints) :: l' =>
      '(s, p) ← begin_one me my_dc id hints p;
      '(ss, p) ← begin_all me my_dc l' p;
      Some (s ++ ss, p)
  end.

End proxy.

(** ** The caller's frame

    [commit_version] is a local variable of [do_moon_mutate]. *)
Inductive frame :=
| Indeterminate
| Holds (v : Z)
| Gone.

(** [commit_version = v] through the reference; the frame may be gone. *)
Definition write_frame (v : Z) (f : frame) : option frame :=
  match f with Gone => None | _ => Some (Holds v) end.

(** [moon_mutate_end]: the result of the batch goes to the caller's variable,
    and 1 for any exception. *)
Definition moon_mutate_end (mutate_result : result) (f : frame) : option (option exn * frame) :=
  match mutate_result with
  | inr v => f' ← write_frame v f; Some (None, f')
  | inl e => f' ← write_frame 1 f; Some (Some e, f')
  end.

(** [do_moon_mutate] on a batch without counters. [now] is the result of the
    batch if it is there before the call returns; otherwise [later] is what
    arrives after the return, when the frame is gone. The value is what the
    last continuation reads from the variable, [None] for an indeterminate
    one. *)
Definition do_moon_mutate (empty : bool) (now : option result) (later : result)
    : option (exn + option Z) :=
  let read f := match f with
                | Indeterminate => Some (inr None)
                | Holds v => Some (inr (Some v))
                | Gone => None
                end in
  if empty then read Indeterminate
  else
    let '(r, f) := match now with
                   | Some r => (r, Indeterminate)
                   | None => (later, Gone)
                   end in
    '(e, f) ← moon_mutate_end r f;
    match e with Some x => Some (inl x) | None => read f end.

(** ** [moon_parallel_for_each] returns the maximum *)

(** The orders in which the events can happen: [pending] calls are in flight and
    the loop is still open. *)
Fixpoint schedule (pending : nat) (opened : bool) (l : list pfe_event) : Prop :=
  match l with
  | [] => pending = 0%nat /\ opened = false
  | PLaunch :: l' => opened = true /\ schedule (S pending) true l'
  | PDone _ :: l' => exists n, pending = S n /\ schedule n opened l'
  | PFinish :: l' => opened = true /\ schedule pending false l'
  end.

Definition results (l : list pfe_event) : list result :=
  omap (fun e => match e with PDone r => Some r | _ => None end) l.

(** The first failure to arrive, or the largest of the values. *)
Fixpoint overall (x : option exn) (m : Z) (rs : list result) : result :=
  match rs with
  | [] => match x with Some e => inl e | None => inr m end
  | inl e :: rs' => overall (Some (default e x)) m rs'
  | inr v :: rs' => overall x (Z.max m v) rs'
  end.

Definition small (l : list pfe_event) : Prop := Zlen l < 2 ^ 62.

Definition pending_state (s : moon_parallel_for_each_state) (pending : nat) (opened : bool) : Prop :=
  pr s = None /\ 0 <= max_commit_version s /\
  waiting s = Z.of_nat pending + (if opened then 1 else 0).

Lemma complete_pending v s n :
  pr s = None -> 0 <= max_commit_version s -> waiting s = Z.of_nat n + 1 -> Z.of_nat n < 2 ^ 63 ->
  complete v s = Some (Pfe (ex s) (Z.of_nat n) (Z.max (max_commit_version s) v)
    (match n with O => Some (overall (ex s) (Z.max (max_commit_version s) v) []) | _ => None end)).
Proof.
  intros Hp Hm Hw Hn. unfold complete. rewrite Hw, Hp.
  replace (uwrap 64 (Z.of_nat n + 1 - 1)) with (Z.of_nat n)
    by (unfold uwrap; rewrite Z.mod_small; lia).
  replace (if max_commit_version s <? v then v else max_commit_version s)
    with (Z.max (max_commit_version s) v) by (destruct (Z.ltb_spec (max_commit_version s) v); lia).
  destruct n; cbn; [|done]. by destruct (ex s).
Qed.

Definition event_value (e : pfe_event) : Z := match e with PDone (inr v) => v | _ => 0 end.

(** Before the last event the result is open; the last one sets it. *)
Lemma pfe_run_schedule l s pending opened :
  schedule pending opened l -> pending_state s pending opened ->
  Forall (fun e => 0 <= event_value e) l -> Z.of_nat pending + Zlen l < 2 ^ 62 ->
  (0 < pending)%nat \/ opened = true ->
  (exists s', pfe_run l s = Some s' /\ pr s' = Some (overall (ex s) (max_commit_version s) (results l))) /\
  forall l1 e l2, l = l1 ++ e :: l2 -> exists s1, pfe_run l1 s = Some s1 /\ pr s1 = None.
Proof.
  revert s pending opened; induction l as [|e l IH]; intros s pending opened Hs (Hp & Hm & Hw) Hv Hb Hne.
  { cbn in Hs. destruct Hs as [-> ->]. destruct Hne; [lia|done]. }
  apply Forall_cons in Hv as [He Hv]. rewrite Zlen_cons in Hb. pose proof (Zlen_nonneg l).
  (* a step that leaves the state pending *)
  assert (Hgo : forall s' pending' opened', pfe_step e s = Some s' ->
    pending_state s' pending' opened' -> schedule pending' opened' l ->
    Z.of_nat pending' <= Z.of_nat pending + 1 -> (0 < pending')%nat \/ opened' = true ->
    overall (ex s') (max_commit_version s') (results l)
      = overall (ex s) (max_commit_version s) (results (e :: l)) ->
    (exists s'', pfe_run (e :: l) s = Some s'' /\
       pr s'' = Some (overall (ex s) (max_commit_version s) (results (e :: l)))) /\
    forall l1 e1 l2, e :: l = l1 ++ e1 :: l2 -> exists s1, pfe_run l1 s = Some s1 /\ pr s1 = None).
  { intros s' pending' opened' Hst Hps Hsc Hle Hne' Ho.
    destruct (IH s' pending' opened' Hsc Hps Hv ltac:(lia) Hne') as [(s'' & Hr & Hres) Hpre].
    split.
    - exists s''. cbn [pfe_run]. rewrite Hst. cbn. by rewrite Hr, Hres, Ho.
    - intros [|x l1] e1 l2 [= <- Heq]; [by exists s|].
      destruct (Hpre _ _ _ Heq) as (s1 & H1 & H2). exists s1. cbn [pfe_run]. by rewrite Hst. }
  (* a call of [complete] *)
  assert (Hcomp : forall s0 v n opened', pfe_step e s = complete v s0 ->
    pr s0 = None -> max_commit_version s0 = max_commit_version s -> waiting s0 = waiting s ->
    0 <= v -> schedule n opened' l -> Z.of_nat pending + (if opened then 1 else 0)
      = Z.of_nat n + (if opened' : bool then 1 else 0) + 1 ->
    overall (ex s0) (Z.max (max_commit_version s) v) (results l)
      = overall (ex s) (max_commit_version s) (results (e :: l)) ->
    (exists s'', pfe_run (e :: l) s = Some s'' /\
       pr s'' = Some (overall (ex s) (max_commit_version s) (results (e :: l)))) /\
    forall l1 e1 l2, e :: l = l1 ++ e1 :: l2 -> exists s1, pfe_run l1 s = Some s1 /\ pr s1 = None).
  { intros s0 v n opened' Hst Hp0 Hm0 Hw0 Hv0 Hsc Hcnt Ho.
    set (k := (n + if opened' then 1 else 0)%nat).
    assert (Hk : Z.of_nat k = Z.of_nat n + (if opened' then 1 else 0)) by (subst k; destruct opened'; lia).
    rewrite (complete_pending v s0 k) in Hst;
      [|done|lia|rewrite Hw0, Hw; lia|destruct opened; lia].
    destruct k as [|k'] eqn:Ek.
    - destruct l as [|x l].
      + cbn in Ho. split; [|intros [|? l1] e1 l2 [= <- Heq]; [by exists s|by destruct l1]].
        eexists. cbn [pfe_run]. rewrite Hst. cbn. split; [done|]. f_equal. rewrite Hm0.
        by rewrite <- Ho.
      + exfalso. destruct n; [|lia]. destruct opened'; [lia|].
        destruct x; cbn in Hsc; [by destruct Hsc|by destruct Hsc as (? & ? & _)|by destruct Hsc].
    - eapply Hgo; [exact Hst| |exact Hsc| |destruct opened'; lia|cbn [ex max_commit_version]; by rewrite Hm0].
      + split; [done|]. cbn. split; [lia|]. lia.
      + destruct opened, opened'; lia. }
  destruct e as [|[x|v]|]; cbn [schedule] in Hs.
  - destruct Hs as [-> Hs]. eapply Hgo; [reflexivity| |exact Hs|lia|by right|done].
    split; [done|]. cbn. split; [done|]. rewrite Hw. unfold uwrap. rewrite Z.mod_small; lia.
  - destruct Hs as (n & -> & Hs).
    eapply (Hcomp (Pfe (Some (default x (ex s))) (waiting s) (max_commit_version s) (pr s)) 0 n opened);
      try done; [destruct opened; lia|]. cbn. by rewrite Z.max_l by lia.
  - destruct Hs as (n & -> & Hs). eapply (Hcomp s v n opened); try done. destruct opened; lia.
  - destruct Hs as [-> Hs]. eapply (Hcomp s 0 pending false); try done; [lia|].
    cbn. by rewrite Z.max_l by lia.
Qed.
