(* ===== verification/CoordinatorInv.v ===== *)
(** * The invariant of the PORT write coordinator

    That every operation of Coordinator.v succeeds on the states that can arise
    and keeps the invariant [proxy_ok]: promises are resolved once and never
    abandoned while somebody waits, the counters that decide on throttling are
    exact, and throttled writes are queued once. *)

From S2P Require Import Prelude Coordinator.
From stdpp Require Import gmap.
Open Scope Z_scope.

(** ** Sums over a map *)

Definition msum {A} (f : A -> Z) (m : gmap Z A) : Z := map_fold (fun _ x n => f x + n) 0 m.

Lemma msum_empty {A} (f : A -> Z) : msum f ∅ = 0.
Proof. apply map_fold_empty. Qed.

Lemma msum_new {A} (f : A -> Z) (m : gmap Z A) i x :
  m !! i = None -> msum f (<[i := x]> m) = f x + msum f m.
Proof. intros H. unfold msum. rewrite map_fold_insert_L; [done|intros; lia|done]. Qed.

Lemma msum_delete {A} (f : A -> Z) (m : gmap Z A) i x :
  m !! i = Some x -> msum f (delete i m) = msum f m - f x.
Proof.
  intros H. rewrite <- (insert_delete_id m i x H) at 2.
  rewrite msum_new by apply lookup_delete_eq. lia.
Qed.

Lemma msum_insert {A} (f : A -> Z) (m : gmap Z A) i x y :
  m !! i = Some x -> msum f (<[i := y]> m) = msum f m - f x + f y.
Proof.
  intros H. rewrite <- insert_delete_eq, msum_new by apply lookup_delete_eq.
  rewrite (msum_delete _ _ _ _ H). lia.
Qed.

(** ** The invariant *)

Section inv.
Context (is_local : Z -> bool) (get_datacenter : Z -> Z) (total_memory : Z).

(** The versions a write may report; the clients of this file say which. *)
Context (good : Z -> Z -> Prop).

Abbreviation signal := (signal total_memory).
Abbreviation unthrottle_writes := (unthrottle_writes total_memory).

(** Resolved, and counted as a write in the background. *)
Definition background (h : abstract_write_response_handler) : bool :=
  cl_achieved h && negb (throttled h).

(** How many acknowledgements the remaining targets are worth. *)
Definition in_dc (dc : Z) (t : gset Z) : gset Z := filter (fun x => get_datacenter x = dc) t.

Definition credit (c : handler_class) (t : gset Z) : Z :=
  match c with
  | write_response_handler => Z.of_nat (size t)
  | datacenter_write_response_handler => Z.of_nat (size (filter (fun x => is_local x = true) t))
  | datacenter_sync_write_response_handler resp =>
      map_fold (fun dc n acc => Z.min n (Z.of_nat (size (in_dc dc t))) + acc) 0 resp
  end.

(** Every target's datacenter has a counter. *)
Definition class_ok (c : handler_class) (t : gset Z) : Prop :=
  match c with
  | datacenter_sync_write_response_handler resp =>
      map_Forall (fun _ n => 0 <= n) resp /\
      forall x, x ∈ t -> is_Some (resp !! get_datacenter x)
  | _ => True
  end.

(** [d] is the slack while an acknowledgement is being processed. *)
Record handler_ok (d : Z) (p : storage_proxy) (id : Z) (h : abstract_write_response_handler)
    : Prop := {
  ho_class : class_ok (h_class h) (targets h);
  ho_block : 1 <= total_block_for h;
  ho_throttled : throttled h = true -> cl_achieved h = true;
  ho_ready : is_Some (ready p !! id) <-> background h = true;
  ho_good : cl_achieved h = true -> good id (commit_version h);
  ho_any : cl_any h = true -> good id (commit_version h);
  ho_acks : cl_achieved h = false -> cl_acks h < total_block_for h;
  ho_enough : id ∈ table p -> cl_achieved h = false -> targets h <> ∅ ->
    total_block_for h <= cl_acks h + credit (h_class h) (targets h) + d;
  ho_gone : id ∉ table p -> h_refs h <> 0%nat /\
    (waited h = true -> cl_achieved h = true \/ timedout h = true) }.

(** A resolved future holds a version of its write, or the write timed out with
    too few acknowledgements. *)
Definition result_ok (id : Z) (r : result) : Prop :=
  match r with
  | inr v => good id v
  | inl (mutation_write_timeout_exception received block_for) => received < block_for
  | inl unavailable_exception => False
  end.

(** The handlers, without the one whose destructor is running. *)
Definition rest (g : option Z) (p : storage_proxy) : gmap Z abstract_write_response_handler :=
  match g with Some id => delete id (live p) | None => live p end.

(** [g] is being destroyed and [x] has slack [d]. *)
Record proxy_ok (g : option Z) (x d : Z) (p : storage_proxy) : Prop := {
  po_table : forall id, id ∈ table p -> is_Some (rest g p !! id);
  po_handler : forall id h, rest g p !! id = Some h ->
    handler_ok (if decide (id = x) then d else 0) p id h;
  po_live : forall id, is_Some (rest g p !! id) -> 0 < id < next_response_id p;
  po_issued : forall id, is_Some (ready p !! id) \/ id ∈ throttled_writes p ->
    0 < id < next_response_id p;
  po_ready : forall id r, ready p !! id = Some r -> result_ok id r;
  po_nodup : NoDup (throttled_writes p);
  po_queue : forall id h, id ∈ throttled_writes p -> rest g p !! id = Some h -> throttled h = true;
  po_background : background_writes p = msum (fun h => Z.b2z (background h)) (rest g p);
  po_bytes : background_write_bytes p
    = msum (fun h => if background h then mutation_size h else 0) (rest g p);
  po_writes : writes p = msum (fun _ => 1) (rest g p) }.

(** Futures stay resolved and ids are not reused. *)
Record later (p p' : storage_proxy) : Prop := {
  la_ready : forall id r, ready p !! id = Some r -> ready p' !! id = Some r;
  la_next : next_response_id p <= next_response_id p' }.

#[local] Instance later_preorder : PreOrder later.
Proof.
  split.
  - intros p. by split.
  - intros p q r [H1 H2] [H3 H4]. split; [auto|lia].
Qed.

Lemma ok_zero g x y p : proxy_ok g x 0 p -> proxy_ok g y 0 p.
Proof.
  intros []; constructor; try done. intros id h Hh. specialize (po_handler0 _ _ Hh).
  repeat case_decide; done.
Qed.

Lemma rest_live g p id : g <> Some id -> rest g p !! id = live p !! id.
Proof. destruct g as [y|]; cbn; [|done]. intros H. rewrite lookup_delete_ne; congruence. Qed.

Lemma rest_insert g p id h L :
  g <> Some id -> rest g (set_live (<[id := h]> L) p) = <[id := h]> (rest g (set_live L p)).
Proof. destruct g as [y|]; cbn; [|done]. intros H. rewrite delete_insert_ne; congruence. Qed.

Lemma slack_other (x y id d : Z) :
  y <> id -> x = id \/ d = 0 -> (if decide (y = x) then d else 0) = 0.
Proof. intros Hne Hx. destruct (decide (y = x)); [|done]. destruct Hx; congruence. Qed.

Definition size_of (h : abstract_write_response_handler) : Z :=
  if background h then mutation_size h else 0.

(** [p'] is [p] with another state [h'] of one handler. *)
Record changed (id : Z) (h h' : abstract_write_response_handler) (p p' : storage_proxy) : Prop := {
  ch_live : live p' = <[id := h']> (live p);
  ch_table : table p' = table p;
  ch_next : next_response_id p' = next_response_id p;
  ch_ready : forall y, y <> id -> ready p' !! y = ready p !! y;
  ch_queue : forall y, y ∈ throttled_writes p' -> y <> id -> y ∈ throttled_writes p;
  ch_nodup : NoDup (throttled_writes p');
  ch_throttled : id ∈ throttled_writes p' -> throttled h' = true;
  ch_background : background_writes p' - background_writes p
    = Z.b2z (background h') - Z.b2z (background h);
  ch_bytes : background_write_bytes p' - background_write_bytes p = size_of h' - size_of h;
  ch_writes : writes p' = writes p }.

Lemma ok_changed g x d d' p p' id h h' :
  proxy_ok g x d p -> g <> Some id -> live p !! id = Some h -> (x = id \/ d = 0) ->
  changed id h h' p p' -> handler_ok d' p' id h' ->
  (forall r, ready p' !! id = Some r -> result_ok id r) -> proxy_ok g id d' p'.
Proof.
  intros [] Hg Hh Hx [Hl Htb Hnx Hrd Hq Hnd Hqt Hbg Hby Hw] Hok Hres.
  assert (Hr : rest g p !! id = Some h) by by rewrite rest_live.
  assert (Hre : rest g p' = <[id := h']> (rest g p)).
  { unfold rest. rewrite Hl. destruct g as [y|]; [|done]. rewrite delete_insert_ne; congruence. }
  assert (Hid : 0 < id < next_response_id p) by (apply po_live0; by eexists).
  constructor; rewrite ?Hre, ?Htb, ?Hnx; try done.
  - intros y Hy. destruct (decide (y = id)) as [->|]; [rewrite lookup_insert_eq; by eexists|].
    rewrite lookup_insert_ne by done. auto.
  - intros y hy. destruct (decide (y = id)) as [->|Hne]; [rewrite lookup_insert_eq; by intros [= <-]|].
    rewrite lookup_insert_ne by done. intros Hy. specialize (po_handler0 _ _ Hy).
    rewrite (slack_other _ _ _ _ Hne Hx) in po_handler0.
    destruct po_handler0; constructor; rewrite ?Htb, ?Hrd by done; done.
  - intros y Hy. destruct (decide (y = id)) as [->|]; [done|].
    rewrite lookup_insert_ne in Hy by done. auto.
  - intros y Hy. destruct (decide (y = id)) as [->|]; [done|]. apply po_issued0.
    rewrite Hrd in Hy by done. destruct Hy; [by left|right; auto].
  - intros y z Hy. destruct (decide (y = id)) as [->|]; [auto|]. rewrite Hrd in Hy by done. auto.
  - intros y hy Hy. destruct (decide (y = id)) as [->|]; [rewrite lookup_insert_eq; intros [= <-]; auto|].
    rewrite lookup_insert_ne by done. apply po_queue0. auto.
  - rewrite (msum_insert _ _ _ _ _ Hr). lia.
  - rewrite (msum_insert _ _ _ _ _ Hr). unfold size_of in Hby. lia.
  - rewrite (msum_insert _ _ _ _ _ Hr), Hw, po_writes0. lia.
Qed.

(** A handler that counts the same as before. *)
Lemma changed_set id h h' p :
  background h' = background h -> mutation_size h' = mutation_size h -> throttled h' = throttled h ->
  NoDup (throttled_writes p) -> (id ∈ throttled_writes p -> throttled h = true) ->
  changed id h h' p (set_live (<[id := h']> (live p)) p).
Proof.
  intros Hb Hsz Ht Hnd Hq. unfold size_of. constructor; cbn; try done; rewrite ?Hb, ?Hsz, ?Ht;
    try lia; auto. unfold size_of. rewrite Hb, Hsz. lia.
Qed.

(** A handler becomes a background write and its future is resolved. *)
Definition resolved_state (id : Z) (h : abstract_write_response_handler) (v : Z) (p : storage_proxy)
    : storage_proxy :=
  set_ready (<[id := inr v]> (ready p))
    (add_background 1 (mutation_size h) (set_live (<[id := h]> (live p)) p)).

Lemma changed_resolved id h h' v p :
  background h = false -> background h' = true -> id ∉ throttled_writes p ->
  NoDup (throttled_writes p) -> changed id h h' p (resolved_state id h' v p).
Proof.
  intros Hb Hb' Hq Hnd. unfold size_of. constructor; cbn; try done; rewrite ?Hb, ?Hb'; cbn; try lia.
  - intros y Hy. by rewrite lookup_insert_ne.
  - unfold size_of. rewrite Hb, Hb'. lia.
Qed.

(** A handler is put into the queue of throttled writes. *)
Definition throttled_state (id : Z) (h : abstract_write_response_handler) (p : storage_proxy)
    : storage_proxy :=
  set_throttled_writes (throttled_writes p ++ [id]) (set_live (<[id := h]> (live p)) p).

Lemma changed_throttled id h h' p :
  background h = false -> background h' = false -> throttled h' = true ->
  id ∉ throttled_writes p -> NoDup (throttled_writes p) ->
  changed id h h' p (throttled_state id h' p).
Proof.
  intros Hb Hb' Ht Hq Hnd. unfold size_of. constructor; cbn; try done; rewrite ?Hb, ?Hb'; try lia.
  - intros y [?|?%list_elem_of_singleton]%elem_of_app ?; done.
  - apply NoDup_app. split_and!; [done| |apply NoDup_singleton]. by intros y Hy ->%list_elem_of_singleton.
  - unfold size_of. rewrite Hb, Hb'. lia.
Qed.

(** ** Acknowledgements *)

(** What [signal] does to the handler. *)
Definition signalled (nr : Z) (thr : bool) (h : abstract_write_response_handler)
    : abstract_write_response_handler :=
  if negb (cl_achieved h) && (total_block_for h <=? cl_acks h + nr)
  then set_throttled thr (set_achieved true (set_acks (cl_acks h + nr) h))
  else set_acks (cl_acks h + nr) h.

Definition signal_state (id nr : Z) (thr : bool) (h : abstract_write_response_handler)
    (p : storage_proxy) : storage_proxy :=
  let h' := signalled nr thr h in
  if negb (cl_achieved h) && (total_block_for h <=? cl_acks h + nr)
  then if thr then throttled_state id h' p else resolved_state id h' (commit_version h) p
  else set_live (<[id := h']> (live p)) p.

Lemma signal_eq id nr p h :
  live p !! id = Some h -> (cl_achieved h = false -> ready p !! id = None) ->
  signal id nr p = Some (signal_state id nr (need_throttle_writes total_memory p) h p).
Proof.
  intros Hh Hr. unfold Coordinator.signal, signal_state, signalled, upd. rewrite Hh. cbn.
  destruct (cl_achieved h); cbn; [by rewrite ?insert_insert_eq|].
  destruct (total_block_for h <=? cl_acks h + nr); cbn; [|done].
  rewrite lookup_insert_eq. cbn. unfold need_throttle_writes at 1. cbn.
  fold (need_throttle_writes total_memory p).
  destruct (need_throttle_writes total_memory p).
  - cbn. rewrite lookup_insert_eq. cbn. unfold throttled_state. cbn. by rewrite !insert_insert_eq.
  - unfold unthrottle, upd, resolve. cbn. rewrite lookup_insert_eq. cbn.
    rewrite Hr by done. unfold resolved_state. cbn. by rewrite !insert_insert_eq.
Qed.

(** Operations on one write leave the others alone, except that a throttled one
    may be let go. *)
Record frame (x : Z) (p p' : storage_proxy) : Prop := {
  fr_table : forall y, y <> x -> (y ∈ table p' <-> y ∈ table p);
  fr_other : forall y, y <> x ->
    live p' !! y = live p !! y /\ ready p' !! y = ready p !! y \/
    exists h, live p !! y = Some h /\ live p' !! y = Some (set_throttled false h) /\
      ready p !! y = None /\ ready p' !! y = Some (inr (commit_version h));
  fr_next : next_response_id p' = next_response_id p }.

#[local] Instance frame_preorder x : PreOrder (frame x).
Proof.
  split.
  - intros p. split; [done|intros; by left|done].
  - intros p q r [T1 O1 N1] [T2 O2 N2]. split; [|intros y Hy|congruence].
    + intros y Hy. by rewrite T2, T1.
    + specialize (O2 y Hy). destruct (O1 y Hy) as [[E1 E2]|(h & Hl & Hl' & Hr & Hr')].
      { by rewrite E1, E2 in O2. }
      right. exists h. destruct O2 as [[-> ->]|(h' & _ & _ & Hr2 & _)]; [done|congruence].
Qed.

Lemma changed_frame id h h' p p' : changed id h h' p p' -> frame id p p'.
Proof.
  intros []. split; [by rewrite ch_table0| |done]. intros y Hy. left.
  rewrite ch_live0, lookup_insert_ne by done. auto.
Qed.

Lemma changed_signal id d nr thr p h :
  proxy_ok None id d p -> live p !! id = Some h ->
  changed id h (signalled nr thr h) p (signal_state id nr thr h p).
Proof.
  intros Hp Hh. pose proof (po_handler _ _ _ _ Hp id h Hh) as [].
  assert (Hq : id ∈ throttled_writes p -> throttled h = true) by (intros; by eapply po_queue).
  pose proof (po_nodup _ _ _ _ Hp) as Hnd. unfold signal_state, signalled. destruct (negb _ && _) eqn:E.
  - apply andb_true_iff in E as [E%negb_true_iff _].
    assert (Hth : throttled h = false) by (destruct (throttled h); [rewrite ho_throttled0 in E|]; done).
    assert (Hnq : id ∉ throttled_writes p) by (intros Hin; rewrite Hq in Hth; done).
    destruct thr; [apply changed_throttled|apply changed_resolved]; try done;
      unfold background; cbn; by rewrite ?E.
  - by apply changed_set.
Qed.

Lemma signal_ok id d nr p h :
  proxy_ok None id d p -> live p !! id = Some h -> 0 <= nr ->
  (cl_achieved h = false -> total_block_for h <= cl_acks h + nr -> good id (commit_version h)) ->
  exists p' thr, signal id nr p = Some p' /\ proxy_ok None id (d - nr) p' /\ frame id p p' /\
    table p' = table p /\ live p' !! id = Some (signalled nr thr h) /\
    (forall r, ready p !! id = Some r -> ready p' !! id = Some r).
Proof.
  intros Hp Hh Hnr Hgood. pose proof (po_handler _ _ _ _ Hp id h Hh) as Hok.
  rewrite decide_True in Hok by done. pose proof Hok as [].
  assert (Hnone : cl_achieved h = false -> ready p !! id = None).
  { intros Ha. apply eq_None_not_Some. rewrite ho_ready0. unfold background. by rewrite Ha. }
  set (thr := need_throttle_writes total_memory p).
  pose proof (changed_signal id d nr thr p h Hp Hh) as Hch.
  exists (signal_state id nr thr h p), thr. split; [by apply signal_eq|].
  assert (Hrd : forall r, ready p !! id = Some r -> ready (signal_state id nr thr h p) !! id = Some r).
  { intros r Hr. unfold signal_state. destruct (negb _ && _) eqn:E; [|done].
    apply andb_true_iff in E as [E%negb_true_iff _]. rewrite Hnone in Hr; done. }
  split_and!; [|by eapply changed_frame|by apply Hch|rewrite (ch_live _ _ _ _ _ Hch); apply lookup_insert_eq|done].
  eapply ok_changed; [exact Hp|done|exact Hh|by left|exact Hch| |].
  - unfold signalled, signal_state in *. destruct (negb _ && _) eqn:E.
    + apply andb_true_iff in E as [E%negb_true_iff Eb%Z.leb_le].
      constructor; try done; try (destruct thr; done).
      * destruct thr; cbn.
        -- rewrite Hnone by done. unfold background. cbn. split; [by intros [? ?]|done].
        -- rewrite lookup_insert_eq. unfold background. cbn. split; [done|intros _; by eexists].
      * cbn. auto.
      * intros Hn. split; [apply ho_gone0; by destruct thr|by left].
    + constructor; try done.
      * cbn. intros Ha. rewrite Ha in E. cbn in E. apply Z.leb_gt in E. done.
      * cbn. intros Ht Ha Hne. specialize (ho_enough0 Ht Ha Hne). lia.
  - intros r Hr. unfold signal_state in Hr.
    destruct (negb _ && _) eqn:E; [|by eapply po_ready].
    apply andb_true_iff in E as [E%negb_true_iff Eb%Z.leb_le]. destruct thr; [by eapply po_ready|].
    cbn in Hr. rewrite lookup_insert_eq in Hr. injection Hr as <-. cbn. auto.
Qed.

(** ** Credit *)

Lemma size_drop (t : gset Z) x : x ∈ t -> Z.of_nat (size (t ∖ {[x]})) = Z.of_nat (size t) - 1.
Proof.
  intros Hx. rewrite size_difference by set_solver. rewrite size_singleton.
  assert (size t <> 0%nat); [|lia]. intros H%size_empty_inv. set_solver.
Qed.

Lemma filter_drop (P : Z -> Prop) `{forall x, Decision (P x)} (t : gset Z) x :
  x ∈ t -> Z.of_nat (size (filter P (t ∖ {[x]})))
    = Z.of_nat (size (filter P t)) - (if decide (P x) then 1 else 0).
Proof.
  intros Hx. case_decide as HP.
  - rewrite <- (size_drop (filter P t) x) by set_solver. do 2 f_equal. apply set_eq. set_solver.
  - rewrite Z.sub_0_r. do 2 f_equal. apply set_eq. intros y. set_solver.
Qed.

Lemma filter_none (P : Z -> Prop) `{forall x, Decision (P x)} : size (filter P (∅ : gset Z)) = 0%nat.
Proof. apply size_empty_iff. set_solver. Qed.

(** The sum over the datacenters, in terms of the number of targets of each. *)
Definition dc_sum (k : Z -> Z) (resp : gmap Z Z) : Z :=
  map_fold (fun dc n acc => Z.min n (k dc) + acc) 0 resp.

Lemma dc_sum_insert k resp dc n :
  resp !! dc = None -> dc_sum k (<[dc := n]> resp) = Z.min n (k dc) + dc_sum k resp.
Proof. intros H. unfold dc_sum. rewrite map_fold_insert_L; [done|intros; lia|done]. Qed.

Lemma dc_sum_ext k k' resp :
  (forall dc, is_Some (resp !! dc) -> k dc = k' dc) -> dc_sum k resp = dc_sum k' resp.
Proof.
  induction resp as [|dc n resp Hdc IH] using map_ind; intros Hk; [done|].
  rewrite !dc_sum_insert, Hk, IH; [done| |by rewrite lookup_insert_eq; eexists|done|done].
  intros y Hy. apply Hk. rewrite lookup_insert_is_Some'. by right.
Qed.

Lemma dc_sum_at k resp dc n :
  resp !! dc = Some n -> dc_sum k resp = Z.min n (k dc) + dc_sum k (delete dc resp).
Proof.
  intros H. rewrite <- (insert_delete_id resp dc n H) at 1. apply dc_sum_insert, lookup_delete_eq.
Qed.

Lemma dc_sum_zero resp : map_Forall (fun _ n => 0 <= n) resp -> dc_sum (fun _ => 0) resp = 0.
Proof.
  induction resp as [|dc n resp Hdc IH] using map_ind; intros Hn; [done|].
  apply map_Forall_insert in Hn as [Hn Hr]; [|done]. rewrite dc_sum_insert, IH by done. lia.
Qed.

Lemma credit_empty c : class_ok c ∅ -> credit c ∅ = 0.
Proof.
  destruct c as [| |resp]; cbn.
  - done.
  - intros _. by rewrite filter_none.
  - intros [Hn _]. transitivity (dc_sum (fun _ => 0) resp); [|by apply dc_sum_zero].
    apply (dc_sum_ext (fun dc => Z.of_nat (size (in_dc dc ∅)))). intros dc _.
    unfold in_dc. by rewrite filter_none.
Qed.

(** The acknowledgement of a target uses up its credit. *)
Definition acked_class (c : handler_class) (x : Z) : handler_class :=
  match c with
  | datacenter_sync_write_response_handler resp =>
      match resp !! get_datacenter x with
      | Some n => if 0 <? n
                  then datacenter_sync_write_response_handler (<[get_datacenter x := n - 1]> resp)
                  else c
      | None => c
      end
  | _ => c
  end.

Definition counts (c : handler_class) (x : Z) : Z :=
  match c with
  | write_response_handler => 1
  | datacenter_write_response_handler => if is_local x then 1 else 0
  | datacenter_sync_write_response_handler resp =>
      match resp !! get_datacenter x with Some n => if 0 <? n then 1 else 0 | None => 0 end
  end.

Lemma credit_drop c t x :
  class_ok c t -> x ∈ t ->
  credit (acked_class c x) (t ∖ {[x]}) = credit c t - counts c x /\
  class_ok (acked_class c x) (t ∖ {[x]}).
Proof.
  intros Hok Hx. destruct c as [| |resp]; cbn.
  - by rewrite size_drop.
  - rewrite filter_drop by done. split; [|done]. destruct (is_local x) eqn:E; case_decide; congruence || lia.
  - destruct Hok as [Hn Ht]. destruct (Ht x Hx) as [n En]. rewrite En.
    set (k := fun dc => Z.of_nat (size (in_dc dc t))).
    set (k' := fun dc => Z.of_nat (size (in_dc dc (t ∖ {[x]})))).
    assert (Hk : forall dc, k' dc = k dc - (if decide (get_datacenter x = dc) then 1 else 0)).
    { intros dc. subst k k'. unfold in_dc. by rewrite filter_drop. }
    assert (Hpos : 1 <= k (get_datacenter x)).
    { subst k. cbn. assert (size (in_dc (get_datacenter x) t) <> 0%nat); [|lia].
      intros E%size_empty_inv. unfold in_dc in E. set_solver. }
    assert (Hrest : dc_sum k' (delete (get_datacenter x) resp) = dc_sum k (delete (get_datacenter x) resp)).
    { apply dc_sum_ext. intros dc Hdc. rewrite Hk, decide_False; [lia|]. intros <-.
      rewrite lookup_delete_eq in Hdc. by destruct Hdc. }
    assert (Hn0 : 0 <= n) by (eapply Hn; done).
    assert (Hsum : dc_sum k resp = Z.min n (k (get_datacenter x)) + dc_sum k (delete (get_datacenter x) resp))
      by by apply dc_sum_at.
    change (map_fold _ 0 resp) with (dc_sum k resp).
    destruct (Z.ltb_spec 0 n).
    + split; [|split].
      * change (credit _ (t ∖ {[x]})) with (dc_sum k' (<[get_datacenter x := n - 1]> resp)).
        rewrite (dc_sum_at _ _ (get_datacenter x) (n - 1)) by apply lookup_insert_eq.
        rewrite delete_insert_eq, Hrest, Hk, decide_True by done. lia.
      * apply map_Forall_insert_2; [lia|done].
      * intros y Hy. rewrite lookup_insert_is_Some'. right. apply Ht. set_solver.
    + split; [|split; [done|intros; apply Ht; set_solver]].
      change (credit _ (t ∖ {[x]})) with (dc_sum k' resp).
      rewrite (dc_sum_at _ _ _ _ En), Hrest, Hk, decide_True by done. lia.
Qed.

(** ** Updates of one handler *)

Lemma upd_eq id f p h :
  live p !! id = Some h -> upd id f p = Some (set_live (<[id := f h]> (live p)) p).
Proof. intros H. unfold upd. by rewrite H. Qed.

Lemma upd_ok id d d' f p h :
  proxy_ok None id d p -> live p !! id = Some h ->
  background (f h) = background h -> mutation_size (f h) = mutation_size h ->
  throttled (f h) = throttled h -> handler_ok d' p id (f h) ->
  exists p', upd id f p = Some p' /\ proxy_ok None id d' p' /\ frame id p p' /\
    table p' = table p /\ live p' !! id = Some (f h) /\ ready p' = ready p.
Proof.
  intros Hp Hh Hb Hsz Ht Hok. rewrite (upd_eq _ _ _ _ Hh). eexists. split; [done|].
  assert (Hch : changed id h (f h) p (set_live (<[id := f h]> (live p)) p)).
  { apply changed_set; try done; [apply Hp|]. intros. by eapply po_queue. }
  split_and!; [|by eapply changed_frame|done|apply lookup_insert_eq|done].
  eapply ok_changed; [exact Hp|done|exact Hh|by left|exact Hch| |].
  - destruct Hok. by constructor.
  - intros r Hr. by eapply po_ready.
Qed.

Lemma po_at id d p h : proxy_ok None id d p -> live p !! id = Some h -> handler_ok d p id h.
Proof. intros Hp Hh. pose proof (po_handler _ _ _ _ Hp id h Hh) as H. by rewrite decide_True in H. Qed.

(** Which fields an acknowledgement does not touch. *)
Definition same_owner (h h' : abstract_write_response_handler) : Prop :=
  h_refs h' = h_refs h /\ commit_version h' = commit_version h /\ waited h' = waited h /\
  timedout h' = timedout h.

Lemma signalled_owner nr thr h : same_owner h (signalled nr thr h) /\
  targets (signalled nr thr h) = targets h /\ h_class (signalled nr thr h) = h_class h.
Proof. unfold signalled. by destruct (negb _ && _). Qed.

(** While the consistency level is not reached, at most [c] acknowledgements were
    added; hints do not count. *)
Definition advanced (c : Z) (h h' : abstract_write_response_handler) : Prop :=
  total_block_for h' = total_block_for h /\ cl_any h' = cl_any h /\
  (cl_any h = false -> cl_achieved h' = false -> cl_achieved h = false /\ cl_acks h' <= cl_acks h + c).

Lemma advanced_refl c h : 0 <= c -> advanced c h h.
Proof. intros Hc. split_and!; try done. intros _ Ha. split; [done|lia]. Qed.

Lemma signalled_advanced nr thr h : 0 <= nr -> advanced nr h (signalled nr thr h).
Proof.
  intros Hn. unfold signalled. destruct (negb _ && _); split_and!; done.
Qed.

(** [signal(from)]: the acknowledgement is counted if the class counts it. *)
Lemma signal_from_ok id p h from :
  proxy_ok None id 0 p -> live p !! id = Some h -> from ∈ targets h ->
  (cl_achieved h = false -> total_block_for h <= cl_acks h + 1 -> good id (commit_version h)) ->
  exists p' h', signal_from is_local get_datacenter total_memory id from p = Some p' /\
    proxy_ok None id (- counts (h_class h) from
      + (credit (h_class h) (targets h) - credit (acked_class (h_class h) from) (targets h))) p' /\
    frame id p p' /\ table p' = table p /\ live p' !! id = Some h' /\ same_owner h h' /\
    targets h' = targets h /\ h_class h' = acked_class (h_class h) from /\ advanced 1 h h' /\
    (forall r, ready p !! id = Some r -> ready p' !! id = Some r).
Proof.
  intros Hp Hh Hin Hg. pose proof (po_at _ _ _ _ Hp Hh) as Hok. unfold signal_from. rewrite Hh. cbn.
  destruct (h_class h) as [| |resp] eqn:Ec; cbn.
  - destruct (signal_ok id 0 1 p h) as (p' & thr & Hs & Hp' & Hf & Ht & Hl & Hr); try done.
    destruct (signalled_owner 1 thr h) as (Ho & Htg & Hcl).
    exists p', (signalled 1 thr h).
    split_and!; try done; [|congruence|by apply signalled_advanced].
    by replace (_ + _) with (0 - 1) by lia.
  - destruct (is_local from).
    + destruct (signal_ok id 0 1 p h) as (p' & thr & Hs & Hp' & Hf & Ht & Hl & Hr); try done.
      destruct (signalled_owner 1 thr h) as (Ho & Htg & Hcl).
      exists p', (signalled 1 thr h).
      split_and!; try done; [|congruence|by apply signalled_advanced].
      by replace (_ + _) with (0 - 1) by lia.
    + exists p, h. split_and!; try done; [|by apply advanced_refl]. by replace (_ + _) with 0 by lia.
  - pose proof (ho_class _ _ _ _ Hok) as Hc. rewrite Ec in Hc. destruct Hc as [Hn Hd].
    destruct (Hd _ Hin) as [n En]. rewrite En. cbn. destruct (Z.ltb_spec 0 n).
    + set (c' := datacenter_sync_write_response_handler (<[get_datacenter from := n - 1]> resp)).
      destruct (upd_ok id 0 (credit (h_class h) (targets h) - credit c' (targets h)) (set_class c') p h)
        as (p1 & -> & Hp1 & Hf1 & Ht1 & Hl1 & Hr1); try done.
      { destruct Hok. constructor; try done; cbn.
        - split; [apply map_Forall_insert_2; [lia|done]|]. intros y Hy.
          rewrite lookup_insert_is_Some'. right. by apply Hd.
        - intros Ht Ha Hne. specialize (ho_enough0 Ht Ha Hne). lia. }
      cbn. destruct (signal_ok id _ 1 p1 _ Hp1 Hl1) as (p' & thr & Hs & Hp' & Hf & Ht & Hl & Hr);
        [lia|done|].
      destruct (signalled_owner 1 thr (set_class c' h)) as (Ho & Htg & Hcl).
      exists p', (signalled 1 thr (set_class c' h)). split_and!; try done.
      * replace (-1 + _) with (credit (h_class h) (targets h) - credit c' (targets h) - 1); [done|].
        rewrite Ec. cbn. lia.
      * by transitivity p1.
      * congruence.
      * exact (signalled_advanced 1 thr (set_class c' h) ltac:(lia)).
      * intros r Hr0. apply Hr. by rewrite Hr1.
    + exists p, h. split_and!; try done; [|by apply advanced_refl]. cbn [credit]. by rewrite Z.sub_diag.
Qed.

Lemma response_ok id p h from :
  proxy_ok None id 0 p -> live p !! id = Some h -> from ∈ targets h -> id ∈ table p ->
  (cl_achieved h = false -> total_block_for h <= cl_acks h + 1 -> good id (commit_version h)) ->
  exists last p' h', response is_local get_datacenter total_memory id from p = Some (last, p') /\
    proxy_ok None id 0 p' /\ frame id p p' /\ table p' = table p /\ live p' !! id = Some h' /\
    same_owner h h' /\ targets h' = targets h ∖ {[from]} /\ advanced 1 h h' /\
    (last = true -> cl_achieved h' = true) /\ (last = false -> targets h' <> ∅) /\
    (forall r, ready p !! id = Some r -> ready p' !! id = Some r).
Proof.
  intros Hp Hh Hin Htab Hg. unfold response.
  destruct (signal_from_ok id p h from) as (p1 & h1 & -> & Hp1 & Hf1 & Ht1 & Hl1 & Ho1 & Htg & Hcl & Had & Hr1);
    try done. cbn. rewrite Hl1. cbn. rewrite Htg, decide_True by done.
  pose proof (ho_class _ _ _ _ (po_at _ _ _ _ Hp Hh)) as Hcls.
  destruct (credit_drop _ _ _ Hcls Hin) as [Hcr Hcls'].
  pose proof (po_at _ _ _ _ Hp1 Hl1) as Hok1.
  assert (Hne : targets h <> ∅) by set_solver.
  destruct (upd_ok id _ 0 (set_targets (targets h ∖ {[from]})) p1 h1 Hp1 Hl1)
    as (p2 & -> & Hp2 & Hf2 & Ht2 & Hl2 & Hr2); try done.
  { destruct Hok1. constructor; try done; cbn; rewrite ?Hcl; [done|].
    intros Ht Ha _. rewrite Hcl, Htg in ho_enough0. specialize (ho_enough0 Ht Ha Hne). lia. }
  cbn. eexists _, p2, _. split_and!; try done.
  - by transitivity p1.
  - congruence.
  - cbn. intros E%bool_decide_eq_true. destruct (cl_achieved h1) eqn:Ea; [done|].
    pose proof (ho_acks _ _ _ _ Hok1 Ea) as H1.
    assert (H2 := ho_enough _ _ _ _ Hok1 ltac:(rewrite Ht1; done) Ea ltac:(by rewrite Htg)).
    rewrite Hcl, Htg in H2. rewrite E in Hcr, Hcls'. rewrite credit_empty in Hcr by done. lia.
  - cbn. by intros ?%bool_decide_eq_false.
  - intros r Hr. rewrite Hr2. auto.
Qed.

(** ** Letting throttled writes go *)

(** Only registered writes are let go. *)
Record released (p p' : storage_proxy) : Prop := {
  rl_frame : forall x, frame x p p';
  rl_table : table p' = table p;
  rl_other : forall y, y ∉ table p -> live p' !! y = live p !! y /\ ready p' !! y = ready p !! y }.

#[local] Instance released_preorder : PreOrder released.
Proof.
  split.
  - intros p. by split.
  - intros p q r [F1 T1 O1] [F2 T2 O2]. split; [|congruence|].
    + intros x. transitivity q; auto.
    + intros y Hy. rewrite <- T1 in Hy. destruct (O2 y Hy) as [-> ->]. apply O1. by rewrite <- T1.
Qed.

Lemma unthrottle_eq id p h :
  live p !! id = Some h -> ready p !! id = None ->
  unthrottle id p = Some (resolved_state id (set_throttled false h) (commit_version h) p).
Proof. intros Hh Hr. unfold unthrottle, upd, resolve. rewrite Hh. cbn. rewrite Hh. cbn. by rewrite Hr. Qed.

Lemma unthrottle_ok g x id p h :
  proxy_ok g x 0 p -> g <> Some id -> live p !! id = Some h -> throttled h = true ->
  id ∉ throttled_writes p -> id ∈ table p ->
  exists p', unthrottle id p = Some p' /\ proxy_ok g x 0 p' /\ released p p' /\
    throttled_writes p' = throttled_writes p.
Proof.
  intros Hp Hg Hh Ht Hq Htab.
  assert (Hok : handler_ok 0 p id h).
  { pose proof (po_handler _ _ _ _ Hp id h ltac:(by rewrite rest_live)) as H. by destruct (decide _). }
  assert (Hb : background h = false) by (unfold background; rewrite Ht; apply andb_false_r).
  assert (Hnone : ready p !! id = None).
  { apply eq_None_not_Some. rewrite (ho_ready _ _ _ _ Hok), Hb. done. }
  rewrite (unthrottle_eq _ _ _ Hh Hnone). eexists. split; [done|].
  pose proof (ho_throttled _ _ _ _ Hok Ht) as Ha.
  assert (Hch : changed id h (set_throttled false h) p
    (resolved_state id (set_throttled false h) (commit_version h) p)).
  { apply changed_resolved; try done; [unfold background; cbn; by rewrite Ha|apply Hp]. }
  split; [|split; [split|done]].
  - apply (ok_zero _ id). eapply ok_changed; [exact Hp|done|exact Hh|by right|exact Hch| |].
    + destruct Hok. constructor; try done; cbn.
      rewrite lookup_insert_eq. unfold background. cbn. rewrite Ha. split; [done|intros _; by eexists].
    + cbn. intros r. rewrite lookup_insert_eq. intros [= <-]. cbn. by apply Hok.
  - intros y. split; [done| |done]. intros z _. cbn. destruct (decide (z = id)) as [->|].
    + right. exists h. by rewrite !lookup_insert_eq.
    + left. by rewrite !lookup_insert_ne.
  - done.
  - cbn. intros y Hy. rewrite !lookup_insert_ne by congruence. done.
Qed.

(** The queue of throttled writes is only read by the loop. *)
Lemma unthrottle_queue id l p :
  unthrottle id (set_throttled_writes l p) = set_throttled_writes l <$> unthrottle id p.
Proof.
  unfold unthrottle, upd, resolve. cbn. destruct (live p !! id); cbn; [|done].
  by destruct (ready p !! id).
Qed.

Lemma loop_queue l l0 p :
  unthrottle_loop total_memory l (set_throttled_writes l0 p) = unthrottle_loop total_memory l p.
Proof.
  revert p; induction l as [|id l IH]; intros p; cbn; [done|].
  change (need_throttle_writes total_memory (set_throttled_writes l0 p))
    with (need_throttle_writes total_memory p).
  destruct (need_throttle_writes total_memory p); [done|].
  change (table (set_throttled_writes l0 p)) with (table p).
  destruct (decide (id ∈ table p)); cbn; [|apply IH].
  rewrite unthrottle_queue. destruct (unthrottle id p); cbn; [apply IH|done].
Qed.

Lemma pop_ok g x l id p :
  proxy_ok g x 0 (set_throttled_writes (id :: l) p) -> proxy_ok g x 0 (set_throttled_writes l p).
Proof.
  intros [? Hh ? Hi ? Hnd Hq ? ? ?]. constructor; try done.
  - intros y h Hy. destruct (Hh y h Hy). by constructor.
  - intros y [Hy|Hy]; apply Hi; [by left|right; by right].
  - by apply NoDup_cons in Hnd as [_ ?].
  - intros y h Hy. apply Hq. by right.
Qed.

Lemma unthrottle_loop_ok g x l p :
  proxy_ok g x 0 p -> throttled_writes p = l -> (forall y, g = Some y -> y ∉ table p) ->
  exists p', unthrottle_loop total_memory l p = Some p' /\ proxy_ok g x 0 p' /\ released p p'.
Proof.
  revert p; induction l as [|id l IH]; intros p Hp Hl Hg; cbn.
  { exists (set_throttled_writes [] p). split_and!; [done| |].
    - replace (set_throttled_writes [] p) with p; [done|]. rewrite <- Hl. by destruct p.
    - split; [|done|done]. intros y. split; [done|intros; by left|done]. }
  assert (Hp0 : proxy_ok g x 0 (set_throttled_writes (id :: l) p)).
  { rewrite <- Hl. by destruct p. }
  assert (Hsame : forall l', released p (set_throttled_writes l' p)).
  { intros l'. split; [|done|done]. intros y. split; [done|intros; by left|done]. }
  destruct (need_throttle_writes total_memory p).
  { eexists. by split_and!. }
  pose proof (pop_ok _ _ _ _ _ Hp0) as Hp1.
  assert (Hnext : forall q, proxy_ok g x 0 q -> throttled_writes q = l -> released p q ->
    exists p', unthrottle_loop total_memory l q = Some p' /\ proxy_ok g x 0 p' /\ released p p').
  { intros q Hq Hlq Hr. destruct (IH q Hq Hlq) as (p' & H1 & H2 & H3).
    { intros y Hy. rewrite (rl_table _ _ Hr). by apply Hg. }
    exists p'. split_and!; [done..|]. by transitivity q. }
  destruct (decide (id ∈ table p)) as [Htab|]; cbn.
  2: { rewrite <- (loop_queue l l). by apply Hnext. }
  assert (Hgid : g <> Some id) by (intros ->; by eapply Hg).
  destruct (po_table _ _ _ _ Hp id Htab) as [h Hh]. rewrite rest_live in Hh by done.
  destruct (unthrottle_ok g x id (set_throttled_writes l p) h) as (p2 & Hu & Hp2 & Hr2 & Hq2); try done.
  { eapply (po_queue _ _ _ _ Hp0 id); [left|by rewrite rest_live]. }
  { pose proof (po_nodup _ _ _ _ Hp0) as Hnd. by apply NoDup_cons in Hnd as [? _]. }
  rewrite unthrottle_queue in Hu. destruct (unthrottle id p) as [p3|]; [|done]. cbn in *.
  injection Hu as <-. rewrite <- (loop_queue l l). apply Hnext; [done|done|].
  transitivity (set_throttled_writes l p); [apply Hsame|done].
Qed.

(** ** The end of a handler *)

(** The counters without a handler. *)
Definition minus (h : abstract_write_response_handler) (p : storage_proxy) : storage_proxy :=
  if background h then add_background (-1) (- mutation_size h) (add_writes (-1) p)
  else add_writes (-1) p.

Lemma ok_drop x id h L p :
  proxy_ok None x 0 p -> live p !! id = Some h -> delete id L = delete id (live p) ->
  proxy_ok (Some id) x 0 (minus h (set_table (table p ∖ {[id]}) (set_live L p))).
Proof.
  intros [] Hh HL. cbn [rest] in *. set (q := set_table _ _).
  assert (Hre : rest (Some id) (minus h q) = delete id (live p)).
  { unfold minus. by destruct (background h). }
  assert (Htab : table (minus h q) = table p ∖ {[id]}) by (unfold minus; by destruct (background h)).
  assert (Hrd : ready (minus h q) = ready p) by (unfold minus; by destruct (background h)).
  assert (Hnx : next_response_id (minus h q) = next_response_id p)
    by (unfold minus; by destruct (background h)).
  assert (Htw : throttled_writes (minus h q) = throttled_writes p)
    by (unfold minus; by destruct (background h)).
  assert (Hlook : forall y hy, delete id (live p) !! y = Some hy -> y <> id /\ live p !! y = Some hy).
  { intros y hy H. destruct (decide (y = id)) as [->|]; [by rewrite lookup_delete_eq in H|].
    by rewrite lookup_delete_ne in H. }
  constructor; rewrite ?Hre, ?Htab, ?Hnx, ?Hrd, ?Htw; try done.
  - intros y Hy. rewrite lookup_delete_ne by set_solver. apply po_table0. set_solver.
  - intros y hy [Hne Hy]%Hlook. destruct (po_handler0 _ _ Hy).
    constructor; rewrite ?Hrd, ?Htab; try done.
    + intros Ht. apply ho_enough0. set_solver.
    + intros Ht. apply ho_gone0. set_solver.
  - intros y [hy [Hne Hy]%Hlook]. apply po_live0. by eexists.
  - intros y hy Hy [Hne Hl]%Hlook. by eapply po_queue0.
  - rewrite (msum_delete _ _ _ _ Hh). unfold minus. subst q. destruct (background h); cbn; lia.
  - rewrite (msum_delete _ _ _ _ Hh). unfold minus. subst q. destruct (background h); cbn; lia.
  - rewrite (msum_delete _ _ _ _ Hh). unfold minus. subst q. destruct (background h); cbn; lia.
Qed.

Lemma ok_deleted x id p :
  proxy_ok (Some id) x 0 p -> proxy_ok None x 0 (set_live (delete id (live p)) p).
Proof. intros []. constructor; try done. intros y h Hy. destruct (po_handler0 _ _ Hy). by constructor. Qed.

Lemma ok_resolve_gone x id r p :
  proxy_ok (Some id) x 0 p -> result_ok id r -> 0 < id < next_response_id p ->
  proxy_ok (Some id) x 0 (set_ready (<[id := r]> (ready p)) p).
Proof.
  intros [] Hr Hid. constructor; try done; cbn in *.
  - intros y h Hy. assert (y <> id) by (intros ->; by rewrite lookup_delete_eq in Hy).
    destruct (po_handler0 _ _ Hy). constructor; try done. cbn. by rewrite lookup_insert_ne.
  - intros y [Hy|Hy]; [|auto]. destruct (decide (y = id)) as [->|]; [done|].
    rewrite lookup_insert_ne in Hy by done. auto.
  - intros y r' Hy. destruct (decide (y = id)) as [->|]; [rewrite lookup_insert_eq in Hy; by injection Hy as <-|].
    rewrite lookup_insert_ne in Hy by done. auto.
Qed.

(** What the destructor relies on. *)
Record dying (id : Z) (h : abstract_write_response_handler) (p : storage_proxy) : Prop := {
  dy_live : live p !! id = Some h;
  dy_table : id ∉ table p;
  dy_throttled : throttled h = true -> cl_achieved h = true;
  dy_ready : is_Some (ready p !! id) <-> background h = true;
  dy_good : cl_achieved h = true -> good id (commit_version h);
  dy_acks : cl_achieved h = false -> cl_acks h < total_block_for h;
  dy_waited : waited h = true -> cl_achieved h = true \/ timedout h = true;
  dy_id : 0 < id < next_response_id p }.

(** A handler is gone; somebody who waited for it has an answer. *)
Record ended (id : Z) (h : abstract_write_response_handler) (p p' : storage_proxy) : Prop := {
  en_live : live p' !! id = None;
  en_table : table p' = table p;
  en_ready : forall r, ready p !! id = Some r -> ready p' !! id = Some r;
  en_waited : waited h = true -> is_Some (ready p' !! id) }.

Lemma frame_deleted id p q : frame id p q -> frame id p (set_live (delete id (live q)) q).
Proof.
  intros [T O N]. split; [done| |done]. intros y Hy. cbn. rewrite lookup_delete_ne by done. by apply O.
Qed.

Lemma destroy_ok x id h p :
  dying id h p -> proxy_ok (Some id) x 0 (minus h p) ->
  exists p', destroy_handler total_memory id p = Some p' /\ proxy_ok None x 0 p' /\ frame id p p' /\
    ended id h p p'.
Proof.
  intros [] Hp. unfold destroy_handler. rewrite dy_live0. cbn [mbind option_bind].
  (* the state before the promise goes away *)
  assert (Hend : forall q, proxy_ok (Some id) x 0 q -> frame id p q -> table q = table p ->
    (forall r, ready p !! id = Some r -> ready q !! id = Some r) ->
    (waited h = true -> is_Some (ready q !! id)) ->
    exists p', (if bool_decide (ready q !! id = None) && waited h then None
                else Some (set_live (delete id (live q)) q)) = Some p' /\
      proxy_ok None x 0 p' /\ frame id p p' /\ ended id h p p').
  { intros q Hq Hf Ht Hr Hw. exists (set_live (delete id (live q)) q). split_and!.
    - destruct (waited h); [|by rewrite andb_false_r]. destruct (Hw eq_refl) as [r Er].
      by rewrite Er, bool_decide_eq_false_2.
    - by apply ok_deleted.
    - by apply frame_deleted.
    - split; try done. cbn. apply lookup_delete_eq. }
  unfold minus, background in *. destruct (cl_achieved h) eqn:Ea; cbn [andb negb] in *.
  - destruct (throttled h) eqn:Et; cbn [negb] in *.
    + assert (Hn : ready p !! id = None) by (apply eq_None_not_Some; by rewrite dy_ready0).
      unfold resolve. cbn [ready add_writes]. rewrite Hn. cbn [mbind option_bind]. apply Hend; try done.
      * apply (ok_resolve_gone x id _ (add_writes (-1) p)); [done|cbn; auto|done].
      * split; [done| |done]. intros y Hy. left. cbn. by rewrite lookup_insert_ne.
      * intros r. rewrite Hn. done.
      * cbn. rewrite lookup_insert_eq. by eexists.
    + set (q := add_background _ _ _) in *.
      destruct (unthrottle_loop_ok (Some id) x (throttled_writes q) q Hp eq_refl) as (q' & Hl & Hq' & Hr).
      { by intros ? [= <-]. }
      unfold Coordinator.unthrottle_writes. rewrite Hl. cbn [mbind option_bind].
      destruct (rl_other _ _ Hr id dy_table0) as [El Er].
      apply Hend; [done| |apply Hr|intros r; by rewrite Er|].
      * transitivity q; [|apply Hr]. split; [done|intros; by left|done].
      * intros _. rewrite Er. cbn. apply dy_ready0. done.
  - assert (Hn : ready p !! id = None) by (apply eq_None_not_Some; by rewrite dy_ready0).
    destruct (timedout h) eqn:Et.
    + unfold resolve. cbn [ready add_writes]. rewrite Hn. cbn [mbind option_bind]. apply Hend; try done.
      * apply (ok_resolve_gone x id _ (add_writes (-1) p)); [done|cbn; auto|done].
      * split; [done| |done]. intros y Hy. left. cbn. by rewrite lookup_insert_ne.
      * intros r. rewrite Hn. done.
      * cbn. rewrite lookup_insert_eq. by eexists.
    + cbn [mbind option_bind]. apply Hend; try done.
      * split; [done|intros; by left|done].
      * intros Hw. by destruct (dy_waited0 Hw).
Qed.

(** ** The operations *)

(** After an operation on the write [id], shared by [k] continuations: the
    handler is there and, while registered, waits for the targets [t], or it is
    gone and whoever waited for it has an answer. *)
Record after (id : Z) (t : gset Z) (k : nat) (w : bool) (c : Z) (h : abstract_write_response_handler)
    (p p' : storage_proxy) : Prop := {
  af_frame : frame id p p';
  af_table : id ∈ table p' -> id ∈ table p;
  af_ready : forall r, ready p !! id = Some r -> ready p' !! id = Some r;
  af_handler :
    (exists h', live p' !! id = Some h' /\ h_refs h' = k /\ waited h' = w /\
       (id ∈ table p' -> targets h' = t /\ advanced c h h')) \/
    (live p' !! id = None /\ k = 0%nat /\ (id ∉ table p') /\ (w = true -> is_Some (ready p' !! id))) }.

Lemma after_frame id t k w c h p p1 p' :
  frame id p p1 -> table p1 = table p -> (forall r, ready p !! id = Some r -> ready p1 !! id = Some r) ->
  after id t k w c h p1 p' -> after id t k w c h p p'.
Proof.
  intros Hf Ht Hr []. split; [by transitivity p1|by rewrite <- Ht|auto|done].
Qed.

Lemma after_advanced id t k w c c' h h' p p' :
  (forall x, advanced c h x -> advanced c' h' x) -> after id t k w c h p p' -> after id t k w c' h' p p'.
Proof.
  intros Ha []. split; try done. destruct af_handler0 as [(x & ? & ? & ? & Hx)|?]; [left|by right].
  exists x. split_and!; try done. intros [??]%Hx. auto.
Qed.

(** Once the write is out of the table its targets do not matter. *)
Lemma after_out id t t' k w c c' h h' p p' :
  id ∉ table p' -> after id t k w c h p p' -> after id t' k w c' h' p p'.
Proof.
  intros Hn []. split; try done. destruct af_handler0 as [(x & ? & ? & ? & _)|?]; [left|by right].
  exists x. by split_and!.
Qed.

Lemma remove_ok id p h :
  proxy_ok None id 0 p -> live p !! id = Some h -> id ∈ table p ->
  (waited h = true -> cl_achieved h = true \/ timedout h = true) ->
  exists p', remove_response_handler total_memory id p = Some p' /\ proxy_ok None id 0 p' /\
    after id ∅ (h_refs h) (waited h) 0 h p p' /\ id ∉ table p'.
Proof.
  intros Hp Hh Htab Hw. pose proof (po_at _ _ _ _ Hp Hh) as Hok.
  unfold remove_response_handler. rewrite decide_True, Hh by done. cbn [mbind option_bind].
  set (q := set_table _ p).
  assert (Hq : proxy_ok (Some id) id 0 (minus h q)).
  { apply (ok_drop id id h (live p) p Hp Hh eq_refl). }
  assert (Hnt : id ∉ table q) by (cbn; set_solver).
  assert (Hfr : frame id p q).
  { split; [|intros; by left|done]. intros y Hy. cbn. set_solver. }
  destruct (Nat.eqb_spec (h_refs h) 0) as [E|E].
  - destruct (destroy_ok id id h q) as (p' & Hd & Hp' & Hf & []); [|done|].
    { destruct Hok. constructor; try done. apply (po_live _ _ _ _ Hp). by eexists. }
    exists p'. split_and!; [done|done| |by rewrite en_table0].
    split; [by transitivity q|rewrite en_table0; done|exact en_ready0|].
    right. by rewrite en_table0.
  - exists q. split_and!; [done| |split|done].
    + destruct Hp. constructor; try done; cbn in *.
      * intros y Hy. apply po_table0. set_solver.
      * intros y hy Hy. destruct (po_handler0 _ _ Hy). constructor; try done; cbn.
        -- intros Ht. apply ho_enough0. set_solver.
        -- intros Ht. destruct (decide (y = id)) as [->|]; [|apply ho_gone0; set_solver].
           rewrite Hh in Hy. injection Hy as <-. done.
    + done.
    + by intros ?%Hnt.
    + done.
    + left. exists h. by split_and!.
Qed.

Lemma release_ok id p h n :
  proxy_ok None id 0 p -> live p !! id = Some h -> h_refs h = S n ->
  exists p', release_handler total_memory id p = Some p' /\ proxy_ok None id 0 p' /\
    after id (targets h) n (waited h) 0 h p p'.
Proof.
  intros Hp Hh Hn. pose proof (po_at _ _ _ _ Hp Hh) as Hok.
  unfold release_handler. rewrite Hh. cbn [mbind option_bind]. rewrite Hn, (upd_eq _ _ _ _ Hh).
  cbn [mbind option_bind]. change (table (set_live _ p)) with (table p).
  destruct ((n =? 0)%nat && bool_decide (id ∉ table p)) eqn:E.
  - apply andb_true_iff in E as [->%Nat.eqb_eq Hnt%bool_decide_eq_true].
    set (q := set_live _ p). set (h' := set_refs 0 h).
    assert (Htq : q = set_table (table p ∖ {[id]}) (set_live (<[id := h']> (live p)) p)).
    { subst q. replace (table p ∖ {[id]}) with (table p) by set_solver. by destruct p. }
    destruct (destroy_ok id id h' q) as (p' & Hd & Hp' & Hf & []).
    + destruct Hok. constructor; try done; cbn.
      * apply lookup_insert_eq.
      * by apply ho_gone0.
      * apply (po_live _ _ _ _ Hp). by eexists.
    + rewrite Htq. change (minus h') with (minus h). apply ok_drop; try done. apply delete_insert_eq.
    + exists p'. split_and!; [done|done|]. split.
      * transitivity q; [|done]. split; [done| |done]. intros y Hy. left. cbn. by rewrite lookup_insert_ne.
      * rewrite en_table0. done.
      * exact en_ready0.
      * right. rewrite en_table0. done.
  - destruct (upd_ok id 0 0 (set_refs n) p h Hp Hh) as (p' & Hu & Hp' & Hf & Ht & Hl & Hr); try done.
    { destruct Hok. constructor; try done. intros Hnt. cbn. split; [|by apply ho_gone0].
      intros ->. rewrite bool_decide_eq_true_2 in E by done. done. }
    rewrite (upd_eq _ _ _ _ Hh) in Hu. injection Hu as <-. eexists. split_and!; [done|done|].
    split; [done|done|done|]. left. eexists. split_and!; [done..|]. intros _. split; [done|].
    exact (advanced_refl 0 h ltac:(lia)).
Qed.

Lemma got_response_ok id from v p h :
  proxy_ok None id 0 p -> live p !! id = Some h -> id ∈ table p -> from ∈ targets h ->
  (cl_achieved h = true \/ total_block_for h <= cl_acks h + 1 \/ cl_any h = true -> good id v) ->
  exists p', got_response is_local get_datacenter total_memory id from v p = Some p' /\
    proxy_ok None id 0 p' /\ after id (targets h ∖ {[from]}) (h_refs h) (waited h) 1 h p p'.
Proof.
  intros Hp Hh Htab Hin Hg. unfold got_response. rewrite decide_True by done.
  destruct (upd_ok id 0 0 (set_commit_version v) p h Hp Hh)
    as (p1 & -> & Hp1 & Hf1 & Ht1 & Hl1 & Hr1); try done.
  { destruct (po_at _ _ _ _ Hp Hh). constructor; try done; cbn; auto. }
  cbn [mbind option_bind].
  destruct (response_ok id p1 _ from Hp1 Hl1) as
    (last & p2 & h2 & -> & Hp2 & Hf2 & Ht2 & Hl2 & (Ho1 & _ & Ho3 & _) & Htg & Had & Hlast & _ & Hr2);
    [done|by rewrite Ht1|cbn; auto|]. cbn [mbind option_bind] in *. cbn in Ho1, Ho3, Htg.
  assert (Hready : forall r, ready p !! id = Some r -> ready p2 !! id = Some r).
  { intros r Hr. apply Hr2. by rewrite Hr1. }
  destruct last.
  - destruct (remove_ok id p2 h2) as (p' & Hrm & Hp' & Ha & Hnt); try done.
    { by rewrite Ht2, Ht1. } { intros _. left. by apply Hlast. }
    exists p'. split_and!; [done|done|]. rewrite <- Ho1, <- Ho3.
    apply (after_frame _ _ _ _ _ _ p p2); [by transitivity p1|congruence|done|].
    by eapply after_out.
  - exists p2. split_and!; [done|done|]. split.
    + by transitivity p1.
    + by rewrite Ht2, Ht1.
    + done.
    + left. exists h2. by split_and!.
Qed.

Lemma expire_ok id hints p h :
  proxy_ok None id 0 p -> live p !! id = Some h -> id ∈ table p -> 0 <= hints ->
  exists p', expire total_memory id hints p = Some p' /\ proxy_ok None id 0 p' /\
    after id ∅ (h_refs h) (waited h) 0 h p p' /\ id ∉ table p'.
Proof.
  intros Hp Hh Htab Hn. pose proof (po_at _ _ _ _ Hp Hh) as Hok. pose proof (ho_any _ _ _ _ Hok) as Hg.
  unfold expire. rewrite decide_True, Hh by done. cbn [mbind option_bind].
  assert (Hsig : exists p1 h1, (if cl_achieved h || cl_any h then signal id hints p else Some p) = Some p1 /\
    proxy_ok None id 0 p1 /\ frame id p p1 /\ table p1 = table p /\ live p1 !! id = Some h1 /\
    same_owner h h1 /\ (forall r, ready p !! id = Some r -> ready p1 !! id = Some r)).
  { destruct (cl_achieved h || cl_any h) eqn:E; [|exists p, h; by split_and!].
    destruct (signal_ok id 0 hints p h) as (p1 & thr & Hs & Hp1 & Hf & Ht & Hl & Hr); try done.
    { intros Ha _. rewrite Ha in E. by apply Hg. }
    exists p1, (signalled hints thr h). destruct (signalled_owner hints thr h) as (Ho & _).
    split_and!; try done. destruct Hp1. constructor; try done.
    intros y hy Hy. specialize (po_handler0 _ _ Hy). destruct (decide (y = id)); [|done].
    destruct po_handler0. constructor; try done. intros H1 H2 H3. specialize (ho_enough0 H1 H2 H3). lia. }
  destruct Hsig as (p1 & h1 & -> & Hp1 & Hf1 & Ht1 & Hl1 & (Ho1 & _ & Ho3 & _) & Hr1).
  cbn [mbind option_bind].
  destruct (upd_ok id 0 0 (set_timedout true) p1 h1 Hp1 Hl1)
    as (p2 & -> & Hp2 & Hf2 & Ht2 & Hl2 & Hr2); try done.
  { destruct (po_at _ _ _ _ Hp1 Hl1). constructor; try done. intros Hnt. rewrite Ht1 in Hnt. done. }
  cbn [mbind option_bind].
  destruct (remove_ok id p2 _ Hp2 Hl2) as (p' & Hrm & Hp' & Ha & Hnt);
    [by rewrite Ht2, Ht1|by right|].
  exists p'. split_and!; [done|done| |done]. cbn in Ha. rewrite <- Ho1, <- Ho3.
  apply (after_frame _ _ _ _ _ _ p p2); [by transitivity p1|congruence| |by eapply after_out].
  intros r Hr. rewrite Hr2. auto.
Qed.

Lemma ok_queued g x d n p : proxy_ok g x d p -> proxy_ok g x d (add_queued n p).
Proof. intros []. constructor; try done. intros y h Hy. destruct (po_handler0 _ _ Hy). by constructor. Qed.

(** What [create_write_response_handler] establishes of a write: the class fits
    its targets, at least one acknowledgement is wanted and, as
    [assure_sufficient_live_nodes] checks at every consistency level but ANY, the
    live targets are worth that many. *)
Record spec_ok (w : write_spec) : Prop := {
  so_class : class_ok (ws_class w) (ws_targets w);
  so_block : 1 <= ws_block_for w;
  so_live : ws_any w = false -> ws_block_for w <= credit (ws_class w) (ws_targets w) }.

(** At consistency level ANY nothing is checked. This says that the targets, if
    there are any, are worth the acknowledgements wanted; pending endpoints raise
    that number, so it may fail. *)
Definition any_live (w : write_spec) : Prop :=
  ws_any w = true -> ws_targets w <> ∅ -> ws_block_for w <= credit (ws_class w) (ws_targets w).

Definition new_handler (w : write_spec) : abstract_write_response_handler :=
  Handler (ws_class w) (ws_any w) (ws_block_for w) (ws_size w) (ws_targets w)
    0 false false false 0 false 0.

Lemma create_ok x w p :
  proxy_ok None x 0 p -> 0 < next_response_id p -> spec_ok w -> any_live w ->
  (ws_any w = true -> good (next_response_id p) 0) ->
  exists p', create_write_response_handler w p = Some (next_response_id p, p') /\
    proxy_ok None x 0 p' /\ live p' = <[next_response_id p := new_handler w]> (live p) /\
    table p' = {[next_response_id p]} ∪ table p /\ ready p' = ready p /\
    next_response_id p' = next_response_id p + 1.
Proof.
  intros [] Hpos [Hc Hb Hlv] Hal Hany. cbn [rest] in *. set (id := next_response_id p) in *.
  assert (Hl : live p !! id = None).
  { apply eq_None_not_Some. intros H. apply po_live0 in H. lia. }
  assert (Hr : ready p !! id = None).
  { apply eq_None_not_Some. intros H. assert (0 < id < id) by auto. lia. }
  unfold create_write_response_handler. fold id. rewrite decide_False.
  2: { cbn. intros H. apply po_table0 in H. rewrite Hl in H. by destruct H. }
  eexists. split; [done|]. split; [|done]. fold (new_handler w). constructor; cbn.
  - intros y [->%elem_of_singleton|Hy]%elem_of_union; [rewrite lookup_insert_eq; by eexists|].
    destruct (decide (y = id)) as [->|]; [rewrite lookup_insert_eq; by eexists|].
    rewrite lookup_insert_ne by done. auto.
  - intros y h. destruct (decide (y = id)) as [->|Hne].
    + rewrite lookup_insert_eq. intros [= <-]. constructor; cbn; try done; try lia.
      * rewrite Hr. split; [by intros [? ?]|done].
      * intros _ _ Hne. destruct (ws_any w) eqn:Ea; [specialize (Hal Ea Hne)|specialize (Hlv eq_refl)]; case_decide; lia.
      * set_solver.
    + rewrite lookup_insert_ne by done. intros Hy. destruct (po_handler0 _ _ Hy).
      constructor; try done; cbn.
      * intros Ht. apply ho_enough0. set_solver.
      * intros Ht. apply ho_gone0. set_solver.
  - intros y. destruct (decide (y = id)) as [->|]; [lia|]. rewrite lookup_insert_ne by done.
    intros H%po_live0. lia.
  - intros y H%po_issued0. lia.
  - done.
  - done.
  - intros y h Hy. rewrite lookup_insert_ne; [by apply po_queue0|]. intros <-.
    assert (0 < id < id) by auto. lia.
  - rewrite msum_new by done. cbn. lia.
  - rewrite msum_new by done. cbn. lia.
  - rewrite msum_new by done. lia.
Qed.

Lemma begin_one_ok me my_dc id hints p h :
  proxy_ok None id 0 p -> live p !! id = Some h -> id ∈ table p -> 0 <= hints ->
  let sends := omap (send_of id) (groups get_datacenter my_dc (elements (targets h))) in
  exists p', begin_one get_datacenter total_memory me my_dc id hints p = Some (sends, p') /\
    proxy_ok None id 0 p' /\ after id (targets h) (h_refs h + length sends) true 0 h p p' /\
    table p' = table p.
Proof.
  intros Hp Hh Htab Hn sends. pose proof (ho_any _ _ _ _ (po_at _ _ _ _ Hp Hh)) as Hg. unfold begin_one. rewrite Hh. cbn [mbind option_bind].
  assert (Hsig : exists p1 h1, (if cl_any h then signal id hints p else Some p) = Some p1 /\
    proxy_ok None id 0 p1 /\ frame id p p1 /\ table p1 = table p /\ live p1 !! id = Some h1 /\
    same_owner h h1 /\ targets h1 = targets h /\ advanced 0 h h1 /\
    (forall r, ready p !! id = Some r -> ready p1 !! id = Some r)).
  { destruct (cl_any h) eqn:E; [|exists p, h; split_and!; try done; by apply advanced_refl].
    destruct (signal_ok id 0 hints p h) as (p1 & thr & Hs & Hp1 & Hf & Ht & Hl & Hr); try done.
    { intros _ _. by apply Hg. }
    exists p1, (signalled hints thr h). destruct (signalled_owner hints thr h) as (Ho & Htg & _).
    destruct (signalled_advanced hints thr h Hn) as (Ha1 & Ha2 & _).
    split_and!; try done; [|split_and!; [done|done|congruence]]. destruct Hp1. constructor; try done.
    intros y hy Hy. specialize (po_handler0 _ _ Hy). destruct (decide (y = id)); [|done].
    destruct po_handler0. constructor; try done. intros H1 H2 H3. specialize (ho_enough0 H1 H2 H3). lia. }
  destruct Hsig as (p1 & h1 & -> & Hp1 & Hf1 & Ht1 & Hl1 & (Ho1 & _ & Ho3 & _) & Htg & Had & Hr1).
  cbn [mbind option_bind]. rewrite decide_True by (by rewrite Ht1).
  destruct (upd_ok id 0 0 (set_waited true) p1 h1 Hp1 Hl1)
    as (p2 & -> & Hp2 & Hf2 & Ht2 & Hl2 & Hr2); try done.
  { destruct (po_at _ _ _ _ Hp1 Hl1). constructor; try done. intros Hnt. rewrite Ht1 in Hnt. done. }
  cbn [mbind option_bind]. unfold send_to_live_endpoints. rewrite Hl2. cbn [mbind option_bind].
  change (targets (set_waited true h1)) with (targets h1). rewrite Htg. fold sends.
  change (h_refs (set_waited true h1)) with (h_refs h1). rewrite Ho1.
  destruct (upd_ok id 0 0 (set_refs (h_refs h + length sends)) p2 _ Hp2 Hl2)
    as (p3 & -> & Hp3 & Hf3 & Ht3 & Hl3 & Hr3); try done.
  { destruct (po_at _ _ _ _ Hp2 Hl2). constructor; try done. intros Hnt. rewrite Ht2, Ht1 in Hnt. done. }
  cbn [mbind option_bind]. eexists. split; [done|]. split; [by apply ok_queued|].
  assert (Htt : table p3 = table p) by congruence. split; [|done]. split; cbn.
  - transitivity p3; [by transitivity p2; [transitivity p1|]|]. split; [done|intros; by left|done].
  - by rewrite Htt.
  - intros r Hr. rewrite Hr3, Hr2. auto.
  - left. eexists. split_and!; [exact Hl3|done|done|]. by intros _.
Qed.

Lemma contact_done_ok me id to p h n :
  proxy_ok None id 0 p -> live p !! id = Some h -> h_refs h = S n ->
  exists p', contact_done total_memory me id to p = Some p' /\ proxy_ok None id 0 p' /\
    after id (targets h) n (waited h) 0 h p p'.
Proof.
  intros Hp Hh Hn. unfold contact_done. rewrite Hh. cbn [mbind option_bind].
  destruct (to =? me); cbn [mbind option_bind]; [by apply release_ok|].
  set (q := add_queued _ p). pose proof (ok_queued None id 0 (- mutation_size h) p Hp) as Hq. fold q in Hq.
  destruct (unthrottle_loop_ok None id (throttled_writes q) q Hq eq_refl) as (p1 & Hl & Hp1 & Hr); [done|].
  unfold Coordinator.unthrottle_writes. rewrite Hl. cbn [mbind option_bind].
  assert (Hpq : frame id p q) by (split; [done|intros; by left|done]).
  assert (H1 : exists h1, live p1 !! id = Some h1 /\ h_refs h1 = h_refs h /\ waited h1 = waited h /\
    targets h1 = targets h /\ (forall x, advanced 0 h1 x -> advanced 0 h x) /\ (forall r, ready p !! id = Some r -> ready p1 !! id = Some r)).
  { destruct (fr_other _ _ _ (rl_frame _ _ Hr 0) id) as [[E1 E2]|(h0 & E0 & E1 & E2 & E3)].
    - assert (0 < id < next_response_id p); [apply (po_live _ _ _ _ Hp); by eexists|lia].
    - exists h. rewrite E1, E2. by split_and!.
    - cbn in E0, E2. rewrite Hh in E0. injection E0 as <-. eexists. split_and!; [exact E1|done..|].
      rewrite E2. done. }
  destruct H1 as (h1 & Hl1 & Hrf & Hw & Htg & Had & Hrd).
  destruct (release_ok id p1 h1 n Hp1 Hl1) as (p' & Hrel & Hp' & Ha); [congruence|].
  exists p'. split_and!; [done|done|]. rewrite <- Hw, <- Htg.
  apply (after_frame _ _ _ _ _ _ p p1); [|apply Hr|done|by eapply after_advanced]. transitivity q; [done|apply Hr].
Qed.

End inv.
