(* ===== verification/CoordinatorBatch.v ===== *)
(** * Batches of PORT writes

    What the clients of a coordinator rely on: how many continuations share a
    handler, which targets it waits for and whether somebody waits for it, for
    each write, across the operations of CoordinatorInv.v and across
    [mutate_prepare] and the loop of [moon_mutate_begin]. *)

From S2P Require Import Prelude Coordinator CoordinatorInv.
From stdpp Require Import gmap.
Open Scope Z_scope.

(** The writes of a batch that get a handler. *)
Fixpoint created (ws : list (option write_spec)) : list write_spec :=
  match ws with Some w :: ws' => w :: created ws' | _ => [] end.

(** ** What is seen of a write *)

Definition refs (p : storage_proxy) (id : Z) : nat :=
  match live p !! id with Some h => h_refs h | None => 0%nat end.

Definition pending (p : storage_proxy) (id : Z) : gset Z :=
  match live p !! id with Some h => targets h | None => ∅ end.

Definition waiting (p : storage_proxy) (id : Z) : bool :=
  match live p !! id with Some h => waited h | None => false end.

(** The write has a result, or a handler with somebody waiting. *)
Definition attended (p : storage_proxy) (id : Z) : Prop :=
  waiting p id = true \/ is_Some (ready p !! id).

(** The handler counts the responses to the write [w]: hints apart, there is one
    acknowledgement at most for each target that is no longer awaited. *)
Definition counted (w : write_spec) (p : storage_proxy) (id : Z) : Prop :=
  forall h, live p !! id = Some h ->
    total_block_for h = ws_block_for w /\ cl_any h = ws_any w /\ targets h ⊆ ws_targets w /\
    (ws_any w = false -> cl_achieved h = false ->
     cl_acks h + Z.of_nat (size (targets h)) <= Z.of_nat (size (ws_targets w))).

(** [p'] differs from [p] at the writes in [W] only. *)
Record unseen (W : Z -> Prop) (p p' : storage_proxy) : Prop := {
  un_table : forall y, ~ W y -> (y ∈ table p' <-> y ∈ table p);
  un_refs : forall y, ~ W y -> refs p' y = refs p y;
  un_pending : forall y, ~ W y -> pending p' y = pending p y;
  un_waiting : forall y, ~ W y -> waiting p' y = waiting p y;
  un_counted : forall y w, ~ W y -> counted w p y -> counted w p' y;
  un_ready : forall y r, ready p !! y = Some r -> ready p' !! y = Some r }.

Lemma unseen_refl W p : unseen W p p.
Proof. by split. Qed.

Lemma unseen_trans W p q r : unseen W p q -> unseen W q r -> unseen W p r.
Proof.
  intros [] []. split; auto; intros y Hy.
  - rewrite un_table1, un_table0 by done. done.
  - rewrite un_refs1, un_refs0 by done. done.
  - rewrite un_pending1, un_pending0 by done. done.
  - rewrite un_waiting1, un_waiting0 by done. done.
Qed.

Lemma unseen_attended W p q y : unseen W p q -> ~ W y -> attended p y -> attended q y.
Proof.
  intros H Hy [Hw|[r Hr]]; [left; by rewrite (un_waiting _ _ _ H)|right].
  exists r. by apply (un_ready _ _ _ H).
Qed.

Lemma unseen_weaken (W W' : Z -> Prop) p q : (forall y, W y -> W' y) -> unseen W p q -> unseen W' p q.
Proof. intros H []. split; auto. Qed.

Lemma frame_unseen x p p' :
  frame x p p' -> (forall r, ready p !! x = Some r -> ready p' !! x = Some r) -> unseen (eq x) p p'.
Proof.
  intros [Ht Ho _] Hx. split.
  - intros y Hy. apply Ht. congruence.
  - intros y Hy. unfold refs. destruct (Ho y) as [[-> _]|(h & -> & -> & _)]; [congruence|done..].
  - intros y Hy. unfold pending. destruct (Ho y) as [[-> _]|(h & -> & -> & _)]; [congruence|done..].
  - intros y Hy. unfold waiting. destruct (Ho y) as [[-> _]|(h & -> & -> & _)]; [congruence|done..].
  - intros y w Hy. unfold counted. destruct (Ho y) as [[-> _]|(h & -> & -> & _)]; [congruence|done|].
    intros Hc h' [= <-]. exact (Hc h eq_refl).
  - intros y r Hr. destruct (decide (y = x)) as [->|Hy]; [auto|].
    destruct (Ho y Hy) as [[_ ->]|(h & _ & _ & Hn & _)]; [done|congruence].
Qed.

(** What an operation on one write does to it. *)
Record seen (id : Z) (t : gset Z) (k : nat) (p p' : storage_proxy) : Prop := {
  se_refs : refs p' id = k;
  se_pending : id ∈ table p' -> pending p' id = t;
  se_table : id ∈ table p' -> id ∈ table p }.

Lemma after_counted id t k w c h p p' ws :
  after id t k w c h p p' -> live p !! id = Some h -> id ∈ table p' -> t ⊆ targets h ->
  c + Z.of_nat (size t) <= Z.of_nat (size (targets h)) -> counted ws p id -> counted ws p' id.
Proof.
  intros [_ _ _ Hh] Hl Ht Hsub Hc Hcnt x Hx.
  destruct (Hcnt h Hl) as (H1 & H2 & H3 & H4).
  destruct Hh as [(h' & E & _ & _ & Htg)|(E & _)]; [|congruence].
  rewrite E in Hx. injection Hx as ->. destruct (Htg Ht) as (-> & A1 & A2 & A3).
  split_and!; [congruence|congruence|set_solver|]. intros Hany Hach.
  destruct (A3 ltac:(congruence) Hach) as [Hach' Hle]. specialize (H4 Hany Hach'). lia.
Qed.

Lemma after_seen id t k w c h p p' :
  after id t k w c h p p' ->
  unseen (eq id) p p' /\ seen id t k p p' /\ (w = true -> attended p' id).
Proof.
  intros [Hf Ht Hr Hh]. split; [by apply frame_unseen|]. unfold attended, waiting.
  destruct Hh as [(h' & E & <- & <- & Htg)|(E & -> & Hnt & Hw)].
  - rewrite E. split; [|auto]. split; unfold refs, pending; rewrite ?E; try done. by intros [? _]%Htg.
  - rewrite E. split; [|auto]. split; unfold refs, pending; rewrite ?E; done.
Qed.

(** ** Groups and tokens *)

Definition group_tokens (g : list (Z * list Z)) : list Z := concat (snd <$> g).

Lemma add_to_group_tokens dc d g :
  group_tokens (add_to_group dc d g) ≡ₚ d :: group_tokens g /\
  (Forall (fun l => l <> []) (snd <$> g) -> Forall (fun l => l <> []) (snd <$> add_to_group dc d g)).
Proof.
  unfold add_to_group, group_tokens. destruct (list_find _ _) as [[i [dc' l]]|] eqn:E.
  - apply list_find_Some in E as (Hi & Hdc & _). pose proof Hi as Hlt%lookup_lt_Some. split.
    + assert (Hl : (snd <$> g) !! i = Some l) by (by rewrite list_lookup_fmap, Hi).
      rewrite list_fmap_insert, insert_take_drop by (by rewrite length_fmap).
      transitivity (d :: concat (take i (snd <$> g) ++ l :: drop (S i) (snd <$> g)));
        [|by rewrite take_drop_middle].
      rewrite !concat_app. cbn. rewrite <- app_assoc. cbn. by rewrite <- !Permutation_middle.
    + intros H. rewrite list_fmap_insert. apply Forall_insert; [done|]. cbn. by destruct l.
  - split.
    + rewrite fmap_app, concat_app. cbn. rewrite Permutation_app_comm. done.
    + intros H. rewrite fmap_app. apply Forall_app. split; [done|]. by repeat constructor.
Qed.

Section batch.
Context (is_local : Z -> bool) (get_datacenter : Z -> Z) (total_memory : Z).

Lemma groups_tokens my_dc l :
  concat (groups get_datacenter my_dc l) ≡ₚ l /\
  Forall (fun g => g <> []) (groups get_datacenter my_dc l).
Proof.
  unfold groups.
  assert (H : forall loc g l0, concat loc ++ group_tokens g ≡ₚ l0 ->
    Forall (fun x => x <> []) loc -> Forall (fun x => x <> []) (snd <$> g) ->
    let '(loc', g') := foldl (fun '(loc, g) dest =>
      if get_datacenter dest =? my_dc then (loc ++ [[dest]], g)
      else (loc, add_to_group (get_datacenter dest) dest g)) (loc, g) l in
    concat loc' ++ group_tokens g' ≡ₚ l0 ++ l /\
    Forall (fun x => x <> []) loc' /\ Forall (fun x => x <> []) (snd <$> g')).
  { induction l as [|d l IH]; intros loc g l0 Hp Hl Hg; cbn [foldl].
    { by rewrite app_nil_r. }
    destruct (get_datacenter d =? my_dc).
    - specialize (IH (loc ++ [[d]]) g (l0 ++ [d])). rewrite <- app_assoc in IH.
      apply IH; [|by apply Forall_app; split; [|repeat constructor]|done].
      rewrite concat_app. cbn. rewrite <- app_assoc, <- Hp. cbn. rewrite <- Permutation_middle.
      apply Permutation_cons_append.
    - destruct (add_to_group_tokens (get_datacenter d) d g) as [E1 E2].
      specialize (IH loc (add_to_group (get_datacenter d) d g) (l0 ++ [d])).
      rewrite <- app_assoc in IH. apply IH; [|done|auto].
      rewrite E1, <- Permutation_middle, Hp. apply Permutation_cons_append. }
  specialize (H [] [] []). destruct (foldl _ _ _) as [loc g]. destruct H as (H1 & H2 & H3); [done..|].
  split; [by rewrite concat_app|]. by apply Forall_app.
Qed.

(** The endpoints a message stands for. *)
Definition send_tokens (s : send) : list (Z * Z) := (fun x => (s_id s, x)) <$> (s_to s :: s_forward s).

Lemma send_of_tokens id g : g <> [] -> exists s, send_of id g = Some s /\ s_id s = id /\
  send_tokens s ≡ₚ (fun x => (id, x)) <$> g.
Proof.
  intros Hg. destruct g as [|x g _] using rev_ind; [done|]. unfold send_of. rewrite last_snoc. cbn.
  eexists. split; [done|]. split; [done|]. unfold send_tokens. cbn [s_id s_to s_forward].
  rewrite length_app. cbn. rewrite Nat.add_sub, take_app_length.
  rewrite fmap_app. cbn. apply Permutation_cons_append.
Qed.

Definition sends_for (my_dc id : Z) (t : gset Z) : list send :=
  omap (send_of id) (groups get_datacenter my_dc (elements t)).

Lemma sends_for_tokens my_dc id t :
  (sends_for my_dc id t ≫= send_tokens) ≡ₚ (fun x => (id, x)) <$> elements t /\
  Forall (fun s => s_id s = id) (sends_for my_dc id t).
Proof.
  unfold sends_for. destruct (groups_tokens my_dc (elements t)) as [Hp Hn].
  set (gs := groups _ _ _) in *. enough ((omap (send_of id) gs ≫= send_tokens) ≡ₚ
    (fun x => (id, x)) <$> concat gs /\ Forall (fun s => s_id s = id) (omap (send_of id) gs)) as [E ?].
  { split; [|done]. rewrite E. by apply fmap_Permutation. }
  clear Hp. induction gs as [|g gs IH]; [done|].
  apply Forall_cons in Hn as [Hg Hn]. destruct (IH Hn) as [IH1 IH2].
  destruct (send_of_tokens id g Hg) as (s & Hs & Hid & Hst). cbn. rewrite Hs. cbn. split.
  - rewrite fmap_app. exact (Permutation_app Hst IH1).
  - by constructor.
Qed.

(** ** [mutate_prepare] *)

Context (good : Z -> Z -> Prop).
Abbreviation proxy_ok := (proxy_ok is_local get_datacenter good None 0 0).

Lemma ok_at id p : proxy_ok p -> CoordinatorInv.proxy_ok is_local get_datacenter good None id 0 p.
Proof. apply ok_zero. Qed.

Lemma ok_from id p : CoordinatorInv.proxy_ok is_local get_datacenter good None id 0 p -> proxy_ok p.
Proof. apply ok_zero. Qed.

Lemma ok_live p id : proxy_ok p -> id ∈ table p -> exists h, live p !! id = Some h.
Proof. intros H Hid. by apply (po_table _ _ _ _ _ _ _ H). Qed.

(** A handler nobody waits for is removed. *)
Lemma remove_unused id p :
  proxy_ok p -> id ∈ table p -> refs p id = 0%nat -> waiting p id = false ->
  exists p', remove_response_handler total_memory id p = Some p' /\ proxy_ok p' /\
    unseen (eq id) p p' /\ refs p' id = 0%nat /\ (id ∉ table p') /\
    next_response_id p' = next_response_id p.
Proof.
  intros Hp Hid Hr Hw. destruct (ok_live p id Hp Hid) as [h Hh].
  unfold refs in Hr. unfold waiting in Hw. rewrite Hh in Hr, Hw.
  destruct (remove_ok is_local get_datacenter total_memory good id p h (ok_at id p Hp) Hh Hid)
    as (p' & Hrm & Hp' & Ha & Hnt); [congruence|].
  pose proof (fr_next _ _ _ (af_frame _ _ _ _ _ _ _ _ Ha)) as Hn.
  apply after_seen in Ha as (Hu & [Hr' _ _] & _).
  exists p'. split_and!; try done; [by apply (ok_from id)|congruence].
Qed.

Lemma remove_all_ok l p :
  proxy_ok p -> NoDup l ->
  (forall id, id ∈ l -> id ∈ table p /\ refs p id = 0%nat /\ waiting p id = false) ->
  exists p', remove_all total_memory l p = Some p' /\
    proxy_ok p' /\ unseen (fun y => y ∈ l) p p' /\ next_response_id p' = next_response_id p /\
    forall id, id ∈ l -> refs p' id = 0%nat /\ id ∉ table p'.
Proof.
  revert p. induction l as [|id l IH]; intros p Hp Hnd Hl.
  { exists p. split_and!; [done|done|apply unseen_refl|done|]. by intros id ?%elem_of_nil. }
  apply NoDup_cons in Hnd as [Hni Hnd]. destruct (Hl id) as (Ht & Hr & Hw); [left|].
  destruct (remove_unused id p Hp Ht Hr Hw) as (p1 & Hrm & Hp1 & Hu1 & Hr1 & Ht1 & Hn1).
  destruct (IH p1 Hp1 Hnd) as (p2 & Hf & Hp2 & Hu2 & Hn2 & Hg2).
  { intros y Hy. assert (id <> y) by (intros ->; done). destruct (Hl y) as (? & ? & ?); [by right|].
    by rewrite (un_refs _ _ _ Hu1), (un_table _ _ _ Hu1), (un_waiting _ _ _ Hu1). }
  cbn [remove_all]. rewrite Hrm. cbn [mbind option_bind]. exists p2. split_and!; [done|done| |congruence|].
  - apply (unseen_trans _ _ p1).
    + eapply unseen_weaken, Hu1. intros y <-. left.
    + eapply unseen_weaken, Hu2. intros y Hy. by right.
  - intros y [->|Hy]%elem_of_cons; [|auto].
    rewrite (un_refs _ _ _ Hu2), (un_table _ _ _ Hu2) by done. done.
Qed.

(** The handlers of a batch have been created, and nothing else happened. *)
Record prepared (p0 : storage_proxy) (cs : list write_spec) (p : storage_proxy) : Prop := {
  pr_ok : proxy_ok p;
  pr_next : next_response_id p = next_response_id p0 + Zlen cs;
  pr_unseen : unseen (fun y => next_response_id p0 <= y) p0 p;
  pr_new : forall i w, cs !! i = Some w ->
    let id := next_response_id p0 + Z.of_nat i in
    id ∈ table p /\ refs p id = 0%nat /\ pending p id = ws_targets w /\ waiting p id = false /\
    counted w p id }.

Lemma create_prepared p0 cs p w :
  0 < next_response_id p0 -> prepared p0 cs p ->
  spec_ok is_local get_datacenter w -> any_live is_local get_datacenter w ->
  (ws_any w = true -> good (next_response_id p) 0) ->
  exists p', create_write_response_handler w p = Some (next_response_id p, p') /\
    prepared p0 (cs ++ [w]) p'.
Proof.
  intros Hpos [Hok Hn Hu Hnew] Hw Hal Hg. pose proof (Zlen_nonneg cs).
  destruct (create_ok is_local get_datacenter good 0 w p Hok) as (p' & Hc & Hok' & Hl & Ht & Hr & Hn');
    [lia|done..|].
  set (id := next_response_id p) in *.
  assert (Hoth : unseen (eq id) p p').
  { split; unfold refs, pending, waiting; try (intros y Hy; rewrite Hl, lookup_insert_ne by done; done).
    - intros y Hy. rewrite Ht. set_solver.
    - intros y w' Hy. unfold counted. rewrite Hl, lookup_insert_ne by done. done.
    - intros y r. by rewrite Hr. }
  exists p'. split; [done|]. split; [done| | |].
  - unfold Zlen in *. rewrite length_app. cbn. lia.
  - apply (unseen_trans _ _ p); [done|]. eapply unseen_weaken, Hoth. intros y <-. lia.
  - intros i w' Hi. destruct (decide (i = length cs)) as [->|Hne].
    + rewrite list_lookup_middle in Hi by done. injection Hi as <-.
      replace (next_response_id p0 + Z.of_nat (length cs)) with id by (unfold Zlen in *; lia).
      unfold refs, pending, waiting, counted. rewrite Hl, lookup_insert_eq, Ht.
      split_and!; [set_solver|done..|]. intros h [= <-]. by split_and!.
    + assert (Hi' : cs !! i = Some w').
      { rewrite lookup_app_l in Hi; [done|]. apply lookup_lt_Some in Hi. rewrite length_app in Hi. cbn in Hi. lia. }
      pose proof Hi' as Hlt%lookup_lt_Some. destruct (Hnew i w' Hi') as (H1 & H2 & H3 & H4 & H5).
      assert (id <> next_response_id p0 + Z.of_nat i) by (unfold Zlen in *; lia).
      cbn. rewrite (un_refs _ _ _ Hoth), (un_pending _ _ _ Hoth), (un_waiting _ _ _ Hoth),
        (un_table _ _ _ Hoth) by done. split_and!; try done. by apply (un_counted _ _ _ Hoth).
Qed.

Lemma ok_fresh p y : proxy_ok p -> next_response_id p <= y -> refs p y = 0%nat /\ y ∉ table p.
Proof.
  intros Hp Hy. assert (Hn : live p !! y = None).
  { apply eq_None_not_Some. intros H. apply (po_live _ _ _ _ _ _ _ Hp) in H. lia. }
  unfold refs. rewrite Hn. split; [done|]. intros Ht. destruct (ok_live p y Hp Ht). congruence.
Qed.

Lemma prepared_removed p0 cs p :
  0 < next_response_id p0 -> prepared p0 cs p ->
  let ids := seqZ (next_response_id p0) (Zlen cs) in
  exists p', remove_all total_memory ids p = Some p' /\
    proxy_ok p' /\ unseen (fun y => next_response_id p0 <= y) p0 p' /\
    next_response_id p' = next_response_id p0 + Zlen cs /\
    forall y, next_response_id p0 <= y -> refs p' y = 0%nat /\ y ∉ table p'.
Proof.
  intros Hpos [Hok Hn Hu Hnew] ids. pose proof (Zlen_nonneg cs).
  destruct (remove_all_ok ids p Hok (NoDup_seqZ _ _)) as (p' & Hf & Hp' & Hu' & Hn' & Hg).
  { intros id Hid%elem_of_seqZ. destruct (lookup_lt_is_Some_2 cs (Z.to_nat (id - next_response_id p0))) as [w Hw].
    { unfold Zlen in *. lia. }
    destruct (Hnew _ _ Hw) as (H1 & H2 & _ & H4 & _).
    by replace (next_response_id p0 + Z.of_nat (Z.to_nat (id - next_response_id p0))) with id in * by lia. }
  exists p'. split_and!; [done|done| |congruence|].
  - apply (unseen_trans _ _ p); [done|]. eapply unseen_weaken, Hu'. intros y Hy%elem_of_seqZ. lia.
  - intros y Hy. destruct (decide (y ∈ ids)) as [|Hni]; [auto|]. apply ok_fresh; [done|].
    unfold ids in Hni. rewrite elem_of_seqZ in Hni. lia.
Qed.

Lemma prepare_ok ws p0 cs p :
  0 < next_response_id p0 -> prepared p0 cs p ->
  Forall (fun w => spec_ok is_local get_datacenter w /\ any_live is_local get_datacenter w) (created ws) ->
  (forall i w, created ws !! i = Some w -> ws_any w = true -> good (next_response_id p + Z.of_nat i) 0) ->
  exists r p', mutate_prepare total_memory ws (seqZ (next_response_id p0) (Zlen cs)) p = Some (r, p') /\
  ((r = inr (seqZ (next_response_id p0) (Zlen (cs ++ created ws))) /\
    prepared p0 (cs ++ created ws) p' /\ length (created ws) = length ws) \/
   (r = inl unavailable_exception /\ proxy_ok p' /\ unseen (fun y => next_response_id p0 <= y) p0 p' /\
    next_response_id p' = next_response_id p0 + Zlen (cs ++ created ws) /\
    forall y, next_response_id p0 <= y -> refs p' y = 0%nat /\ y ∉ table p')).
Proof.
  intros Hpos. revert cs p. induction ws as [|[w|] ws IH]; intros cs p Hp Hs Hg; cbn [mutate_prepare created].
  - rewrite app_nil_r. eexists _, _. split; [done|]. by left.
  - cbn in Hs. apply Forall_cons in Hs as [[Hw Hal] Hs].
    destruct (create_prepared p0 cs p w Hpos Hp Hw Hal) as (p1 & Hc & Hp1).
    { intros Ha. specialize (Hg 0%nat w eq_refl Ha). by rewrite Z.add_0_r in Hg. }
    rewrite Hc. cbn [mbind option_bind].
    assert (Hnx : next_response_id p = next_response_id p0 + Zlen cs) by apply Hp.
    pose proof (Zlen_nonneg cs).
    assert (E : seqZ (next_response_id p0) (Zlen cs) ++ [next_response_id p]
      = seqZ (next_response_id p0) (Zlen (cs ++ [w]))).
    { rewrite Hnx. unfold Zlen in *. rewrite length_app. cbn. rewrite Nat2Z.inj_add.
      rewrite seqZ_app by lia. done. }
    rewrite E. destruct (IH (cs ++ [w]) p1 Hp1 Hs) as (r & p' & Hr & Hcase).
    { intros i w' Hi Ha. specialize (Hg (S i) w' Hi Ha).
      rewrite (pr_next _ _ _ Hp1). replace (next_response_id p0 + Zlen (cs ++ [w]) + Z.of_nat i)
        with (next_response_id p + Z.of_nat (S i)); [done|].
      unfold Zlen in *. rewrite length_app. cbn. lia. }
    rewrite <- app_assoc in Hcase. exists r, p'. split; [done|].
    destruct Hcase as [(-> & Hpr & Hl)|?]; [left|by right]. split_and!; [done|done|]. cbn. by rewrite Hl.
  - destruct (prepared_removed p0 cs p Hpos Hp) as (p' & Hf & H1 & H2 & H3 & H4).
    rewrite Hf, app_nil_r. cbn. eexists _, _. split; [done|]. by right.
Qed.

(** ** The loop of [moon_mutate_begin] *)

Definition sends_of (id : Z) (ss : list send) : nat := length (filter (fun s => s_id s = id) ss).

Lemma sends_of_same id ss : Forall (fun s => s_id s = id) ss -> sends_of id ss = length ss.
Proof. intros H. unfold sends_of. induction H; [done|]. rewrite filter_cons_True by done. cbn. by f_equal. Qed.

Lemma sends_of_other id id' ss : id <> id' -> Forall (fun s => s_id s = id) ss -> sends_of id' ss = 0%nat.
Proof. intros Hne H. unfold sends_of. induction H; [done|]. rewrite filter_cons_False by congruence. done. Qed.

Lemma begin_all_ok me my_dc l p :
  proxy_ok p -> NoDup l.*1 -> Forall (fun x => x.1 ∈ table p /\ 0 <= x.2) l ->
  exists ss p', begin_all get_datacenter total_memory me my_dc l p = Some (ss, p') /\ proxy_ok p' /\
    table p' = table p /\ next_response_id p' = next_response_id p /\ unseen (fun y => y ∈ l.*1) p p' /\
    (forall id, refs p' id = (refs p id + sends_of id ss)%nat) /\
    (forall id, id ∈ table p -> pending p' id = pending p id) /\
    (forall id, id ∈ l.*1 -> attended p' id) /\
    (forall id w, id ∈ table p -> counted w p id -> counted w p' id) /\
    (ss ≫= send_tokens) ≡ₚ l.*1 ≫= (fun id => (fun x => (id, x)) <$> elements (pending p id)).
Proof.
  revert p. induction l as [|[id hints] l IH]; intros p Hp Hnd Hl.
  { exists [], p. cbn. split_and!; try done. by intros ? ?%elem_of_nil. }
  apply Forall_cons in Hl as [[Hid Hh] Hl]. cbn in Hid, Hh, Hnd. apply NoDup_cons in Hnd as [Hni Hnd].
  destruct (ok_live p id Hp Hid) as [h Hlh].
  destruct (begin_one_ok is_local get_datacenter total_memory good me my_dc id hints p h
    (ok_at id p Hp) Hlh Hid Hh) as (p1 & Hb & Hp1 & Ha & Ht1).
  fold (sends_for my_dc id (targets h)) in Hb, Ha.
  pose proof (fr_next _ _ _ (af_frame _ _ _ _ _ _ _ _ Ha)) as Hn1.
  destruct (sends_for_tokens my_dc id (targets h)) as [Htok Hsid].
  assert (Hct : forall w, counted w p id -> counted w p1 id).
  { intros w. eapply after_counted; [exact Ha|done|by rewrite Ht1|done|lia]. }
  apply after_seen in Ha as (Hu & [Hr1 Hpd1 _] & Hat). specialize (Hat eq_refl).
  destruct (IH p1 (ok_from id p1 Hp1) Hnd) as (ss & p' & Hba & Hp' & Ht' & Hn' & Hu' & Hr' & Hpd' & Hat' & Hct' & Htok').
  { by rewrite Ht1. }
  cbn [begin_all]. rewrite Hb. cbn [mbind option_bind]. rewrite Hba. cbn [mbind option_bind].
  assert (Hpe : pending p id = targets h) by (unfold pending; by rewrite Hlh).
  assert (Hre : refs p id = h_refs h) by (unfold refs; by rewrite Hlh).
  assert (Hpp : forall y, y ∈ table p -> pending p1 y = pending p y).
  { intros y Hy. destruct (decide (y = id)) as [->|]; [rewrite Hpe, Hpd1; [done|by rewrite Ht1]|].
    apply (un_pending _ _ _ Hu). congruence. }
  eexists _, p'. split_and!; [done|done|congruence|congruence| | | | | |].
  - apply (unseen_trans _ _ p1).
    + eapply unseen_weaken, Hu. intros y <-. left.
    + eapply unseen_weaken, Hu'. intros y Hy. by right.
  - intros y. rewrite Hr'. unfold sends_of. rewrite filter_app, length_app.
    destruct (decide (y = id)) as [->|Hne].
    + rewrite Hr1, Hre. fold (sends_of id (sends_for my_dc id (targets h))).
      rewrite (sends_of_same id) by done. lia.
    + rewrite (un_refs _ _ _ Hu) by congruence. fold (sends_of y (sends_for my_dc id (targets h))).
      rewrite (sends_of_other id y) by done. lia.
  - intros y Hy. rewrite Hpd'; [auto|]. by rewrite Ht1.
  - intros y [->|Hy]%elem_of_cons; [|auto]. destruct (decide (id ∈ l.*1)); [done|].
    by apply (unseen_attended _ _ _ _ Hu').
  - intros y w Hy Hc. apply Hct'; [by rewrite Ht1|]. destruct (decide (y = id)) as [->|]; [auto|].
    apply (un_counted _ _ _ Hu); [congruence|done].
  - cbn. rewrite bind_app, Hpe. apply Permutation_app; [done|]. rewrite Htok'.
    enough ((l.*1 ≫= fun id0 => (fun x => (id0, x)) <$> elements (pending p1 id0))
      = (l.*1 ≫= fun id0 => (fun x => (id0, x)) <$> elements (pending p id0))) as -> by done.
    clear -Hl Hpp. induction l as [|[y ?] l IH]; [done|]. apply Forall_cons in Hl as [[Hy _] Hl].
    cbn. rewrite IH by done. by rewrite Hpp.
Qed.

End batch.

(** The versions a write may report can grow. *)
Lemma handler_ok_mono is_local dc (good good' : Z -> Z -> Prop) d p id h :
  (forall v, good id v -> good' id v) ->
  handler_ok is_local dc good d p id h -> handler_ok is_local dc good' d p id h.
Proof. intros H []. constructor; auto. Qed.

Lemma proxy_ok_mono is_local dc (good good' : Z -> Z -> Prop) g x d p :
  (forall id v, good id v -> good' id v) ->
  proxy_ok is_local dc good g x d p -> proxy_ok is_local dc good' g x d p.
Proof.
  intros H []. constructor; auto.
  - intros id h Hh. eapply handler_ok_mono; [|by apply po_handler]. auto.
  - intros id r Hr. specialize (po_ready id r Hr). destruct r as [[]|]; cbn in *; auto.
Qed.
