(* ===== verification/PortSystem.v ===== *)
(** * A PORT cluster

    A coordinator shard (Coordinator.v), the memtables of the replicas
    (Memtable.v) and the messages between them: the verbs MUTATION and
    MUTATION_DONE that src/Scylla-moon/service/storage_proxy.cc registers.
    Events happen in any order; messages may be delayed, reordered or lost,
    replicas may fail to apply a mutation, timers may expire at any time, and
    other coordinators may write to the replicas. Each continuation is an event
    of its own: a mutation of the coordinator's own replica is applied by one
    event and its response processed by a later one, and a replica forwards a
    mutation before or after it has applied it.

    [acked] and [dropped] remember what was applied where, and no operation reads
    them; [holders] is the [_mutation_holder] of the handlers and [local_versions]
    the [commit_version_ptr] of [lmutate]. *)

From stdpp Require Import gmap.
From S2P Require Import Prelude PartitionVersion Memtable.
From S2P Require Import Coordinator CoordinatorInv CoordinatorBatch.
Open Scope Z_scope.

Section system.
Context {D : Type} (empty_data : D) (cf_is_data : bool).
Context (is_local : Z -> bool) (get_datacenter : Z -> Z) (total_memory me : Z).

Abbreviation memtable := (gmap Z (@partition_entry D)).
Abbreviation mutation := (@frozen_mutation D).

Inductive message :=
| Mutation (response_id to : Z) (forward : list Z) (m : mutation)
| MutationDone (response_id from commit_version : Z).

Record system := Sys {
  proxy : storage_proxy;
  memtables : gmap Z memtable;
  net : list message;
  contacts : list (Z * Z);         (* calls of [lmutate] and [rmutate] not over yet *)
  holders : gmap Z (write_spec * mutation);
  batches : list (list Z);         (* the response ids of each batch begun *)
  local_versions : gmap Z Z;       (* writes applied by [lmutate], and at which version *)
  acked : list (Z * Z * Z);        (* write, replica, version it was given there *)
  dropped : list (Z * Z) }.        (* write, replica that dropped it as late *)

Definition set_proxy p s :=
  Sys p (memtables s) (net s) (contacts s) (holders s)
    (batches s) (local_versions s) (acked s) (dropped s).
Definition set_net n s :=
  Sys (proxy s) (memtables s) n (contacts s) (holders s)
    (batches s) (local_versions s) (acked s) (dropped s).
Definition set_contacts c s :=
  Sys (proxy s) (memtables s) (net s) c (holders s)
    (batches s) (local_versions s) (acked s) (dropped s).
Definition set_memtable r mt s :=
  Sys (proxy s) (<[r := mt]> (memtables s)) (net s) (contacts s) (holders s)
    (batches s) (local_versions s) (acked s) (dropped s).
Definition set_local id c s :=
  Sys (proxy s) (memtables s) (net s) (contacts s) (holders s)
    (batches s) (<[id := c]> (local_versions s)) (acked s) (dropped s).
Definition add_acked a late s :=
  Sys (proxy s) (memtables s) (net s) (contacts s) (holders s)
    (batches s) (local_versions s) (a :: acked s) (if late : bool then a.1 :: dropped s else dropped s).

Definition memtable_of (r : Z) (s : system) : memtable := default ∅ (memtables s !! r).

(** What can happen. An event that is not possible is [Blocked]; a crash of the
    coordinator's own bookkeeping is told apart from one of a memtable. *)
Inductive event :=
| EvWrite (ws : list (option write_spec * mutation))
| EvLocal (i : nat)                (* [lmutate]: the mutation is applied *)
| EvContactOver (i : nat)          (* the continuation of [lmutate] or [rmutate], or its failure *)
| EvDeliver (i : nat)
| EvForward (i : nat)              (* the replica forwards a mutation it has not applied yet *)
| EvDeliverFail (i : nat)          (* [mutate_locally] fails on the replica *)
| EvLose (i : nat)
| EvExpire (id hints : Z)
| EvOther (r : Z) (m : mutation)   (* a write of another coordinator *)
| EvRead (r key version_to_read : Z)
| EvClose (r key : Z) (p : nat).

Inductive outcome :=
| Ok (s : system)
| Blocked
| ReplicaCrash
| ProxyCrash.

Definition on_proxy (o : option storage_proxy) (f : storage_proxy -> outcome) : outcome :=
  match o with Some p => f p | None => ProxyCrash end.

(** The replica will drop the mutation as late (recorded in [dropped]). *)
Definition late_at (r : Z) (m : mutation) (s : system) : bool :=
  write_is_late (get_version_to_write m)
    (find_or_create_partition empty_data (fm_key m) (memtable_of r s)).

(** The replica's side of a mutation: [memtable_apply] through
    [mutate_locally]. *)
Definition on_replica (id r : Z) (m : mutation) (s : system) (f : Z -> system -> outcome) : outcome :=
  match memtable_apply empty_data cf_is_data m (memtable_of r s) with
  | None => ReplicaCrash
  | Some (mt, c) => f c (add_acked (id, r, c) (late_at r m s) (set_memtable r mt s))
  end.

Definition forwards (id : Z) (l : list Z) (m : mutation) : list message :=
  (fun r => Mutation id r [] m) <$> l.

Fixpoint add_holders (id : Z) (ws : list (option write_spec * mutation))
    (hs : gmap Z (write_spec * mutation)) : gmap Z (write_spec * mutation) :=
  match ws with
  | (Some w, m) :: ws' => <[id := (w, m)]> (add_holders (id + 1) ws' hs)
  | _ => hs
  end.

(** The messages of [send_to_live_endpoints]; a local mutation is not one. *)
Definition message_of (hs : gmap Z (write_spec * mutation)) (s : send) : option message :=
  if s_to s =? me then None
  else '(_, m) ← hs !! s_id s; Some (Mutation (s_id s) (s_to s) (s_forward s) m).

(** [moon_mutate_internal]: [mutate_prepare], then [moon_mutate_begin]. *)
Definition write_batch (ws : list (option write_spec * mutation)) (s : system) : outcome :=
  let hs := add_holders (next_response_id (proxy s)) ws (holders s) in
  match mutate_prepare total_memory ws.*1 [] (proxy s) with
  | None => ProxyCrash
  | Some (inl _, p) => Ok (Sys p (memtables s) (net s) (contacts s) hs (batches s)
                            (local_versions s) (acked s) (dropped s))
  | Some (inr ids, p) =>
      let hints := ws_hints <$> created ws.*1 in
      match begin_all get_datacenter total_memory me (get_datacenter me) (zip ids hints) p with
      | None => ProxyCrash
      | Some (ss, p) =>
          Ok (Sys p (memtables s) (net s ++ omap (message_of hs) ss)
                (contacts s ++ ((fun x => (s_id x, s_to x)) <$> ss)) hs (batches s ++ [ids])
                (local_versions s) (acked s) (dropped s))
      end
  end.

Definition step (ev : event) (s : system) : outcome :=
  match ev with
  | EvWrite ws => write_batch ws s
  | EvLocal i =>
      match contacts s !! i with
      | Some (id, to) =>
          match holders s !! id, local_versions s !! id with
          | Some (_, m), None =>
              if to =? me then on_replica id me m s (fun c s => Ok (set_local id c s)) else Blocked
          | _, _ => Blocked
          end
      | None => Blocked
      end
  | EvContactOver i =>
      match contacts s !! i with
      | Some (id, to) =>
          let p0 := match local_versions s !! id with
                    | Some c => if to =? me
                                then got_response is_local get_datacenter total_memory id me c (proxy s)
                                else Some (proxy s)
                    | None => Some (proxy s)
                    end in
          on_proxy (p ← p0; contact_done total_memory me id to p)
            (fun p => Ok (set_proxy p (set_contacts (delete i (contacts s)) s)))
      | None => Blocked
      end
  | EvDeliver i =>
      match net s !! i with
      | Some (Mutation id to forward m) =>
          on_replica id to m (set_net (delete i (net s)) s) (fun c s =>
            Ok (set_net (net s ++ MutationDone id to c :: forwards id forward m) s))
      | Some (MutationDone id from v) =>
          on_proxy (got_response is_local get_datacenter total_memory id from v (proxy s))
            (fun p => Ok (set_proxy p (set_net (delete i (net s)) s)))
      | None => Blocked
      end
  | EvForward i =>
      match net s !! i with
      | Some (Mutation id to forward m) =>
          Ok (set_net (delete i (net s) ++ Mutation id to [] m :: forwards id forward m) s)
      | _ => Blocked
      end
  | EvDeliverFail i =>
      match net s !! i with
      | Some (Mutation id to forward m) =>
          Ok (set_net (delete i (net s) ++ forwards id forward m) s)
      | _ => Blocked
      end
  | EvLose i =>
      match net s !! i with Some _ => Ok (set_net (delete i (net s)) s) | None => Blocked end
  | EvExpire id hints =>
      if decide (id ∈ table (proxy s) /\ waiting (proxy s) id = true) then
        on_proxy (expire total_memory id hints (proxy s)) (fun p => Ok (set_proxy p s))
      else Blocked
  | EvOther r m =>
      match memtable_apply empty_data cf_is_data m (memtable_of r s) with
      | None => ReplicaCrash
      | Some (mt, _) => Ok (set_memtable r mt s)
      end
  | EvRead r key t =>
      match make_flat_reader key t (memtable_of r s) with
      | None => ReplicaCrash
      | Some (mt, _) => Ok (set_memtable r mt s)
      end
  | EvClose r key p => Ok (set_memtable r (reader_destroy key p (memtable_of r s)) s)
  end.

(** A run; an event that is blocked is skipped. *)
Fixpoint sys_run (l : list event) (s : system) : outcome :=
  match l with
  | [] => Ok s
  | ev :: l' =>
      match step ev s with
      | Ok s' => sys_run l' s'
      | Blocked => sys_run l' s
      | o => o
      end
  end.

(** A node that has just started. *)
Definition proxy_new : storage_proxy := Proxy ∅ ∅ ∅ [] 0 0 0 0 1.
Definition system_new : system := Sys proxy_new ∅ [] [] ∅ [] ∅ [] [].

(** What the environment promises: versions are Thrift integers, replicas are
    alive as [create_write_response_handler] checks, and hints are counted. *)
Definition event_ok (ev : event) : Prop :=
  match ev with
  | EvWrite ws => Forall (fun w => mutation_ok w.2 /\
      from_option (fun w => spec_ok is_local get_datacenter w /\ 0 <= ws_hints w) True w.1) ws
  | EvOther _ m => mutation_ok m
  | EvRead _ _ t => 0 <= t < 2 ^ 31
  | EvExpire _ hints => 0 <= hints
  | _ => True
  end.

(** What nothing checks: a write at consistency level ANY that has live targets
    at all has as many as the acknowledgements it waits for. *)
Definition event_any_live (ev : event) : Prop :=
  match ev with
  | EvWrite ws => Forall (fun w => from_option (any_live is_local get_datacenter) True w.1) ws
  | _ => True
  end.

(** ** The invariant *)

Definition message_tokens (m : message) : list (Z * Z) :=
  match m with
  | Mutation id to forward _ => (fun x => (id, x)) <$> (to :: forward)
  | MutationDone id from _ => [(id, from)]
  end.

(** The responses still possible: write and endpoint. *)
Definition tokens (s : system) : list (Z * Z) :=
  filter (fun c => c.2 = me) (contacts s) ++ (net s ≫= message_tokens).

(** The versions a write may report: one it was given by a replica; 0 for a
    write at consistency level ANY that was only hinted. *)
Definition reported (s : system) (id v : Z) : Prop :=
  (exists r, (id, r, v) ∈ acked s) \/
  (v = 0 /\ exists w m, holders s !! id = Some (w, m) /\ ws_any w = true).

(** The replicas that applied a write. *)
Definition ack_set (s : system) (id : Z) : gset Z :=
  list_to_set (omap (fun a => if decide (a.1.1 = id) then Some a.1.2 else None) (acked s)).

(** As many replicas as the consistency level asks for applied the write. *)
Definition quorum (s : system) (id : Z) : Prop :=
  exists w m, holders s !! id = Some (w, m) /\
    (ws_any w = true \/ ws_block_for w <= Z.of_nat (size (ack_set s id))).

Definition granted (s : system) (id v : Z) : Prop := reported s id v /\ quorum s id.

(** A message carries the mutation of its write, or a version the replica gave
    it. *)
Definition message_ok (s : system) (msg : message) : Prop :=
  match msg with
  | Mutation id _ _ m => snd <$> holders s !! id = Some m
  | MutationDone id from v => (id, from, v) ∈ acked s
  end.

Definition contacts_of (id : Z) (l : list (Z * Z)) : nat := length (filter (fun c => c.1 = id) l).

Record sys_ok (k : Z) (s : system) : Prop := {
  sy_proxy : proxy_ok is_local get_datacenter (granted s) None 0 0 (proxy s);
  sy_next : 0 < next_response_id (proxy s);
  sy_holders : forall id x, holders s !! id = Some x ->
    0 < id < next_response_id (proxy s) /\ mutation_ok x.2;
  sy_refs : forall id, refs (proxy s) id = contacts_of id (contacts s);
  sy_contacts : forall c, c ∈ contacts s -> is_Some (holders s !! c.1);
  sy_nodup : NoDup (tokens s);
  sy_tokens : forall id x, (id, x) ∈ tokens s ->
    (exists w m, holders s !! id = Some (w, m) /\ x ∈ ws_targets w) /\
    (id ∈ table (proxy s) -> x ∈ pending (proxy s) id);
  sy_counted : forall id, id ∈ table (proxy s) -> exists w m, holders s !! id = Some (w, m) /\
    counted w (proxy s) id /\ ws_targets w ⊆ pending (proxy s) id ∪ ack_set s id;
  sy_net : forall m, m ∈ net s -> message_ok s m;
  sy_acked : forall id r v, (id, r, v) ∈ acked s -> exists w m, holders s !! id = Some (w, m) /\
    r ∈ ws_targets w /\ get_version_to_write m <= v /\
    mt_committed (fm_key m) v (memtable_of r s) /\
    ((id, r) ∉ dropped s ->
     mt_holds (fm_key m) v (written cf_is_data (fm_partition m) (get_version_to_write m) v) (memtable_of r s));
  sy_local : forall id v, local_versions s !! id = Some v -> (id, me, v) ∈ acked s;
  sy_memtables : forall r, memtable_ok k (memtable_of r s);
  sy_batches : forall b id, b ∈ batches s -> id ∈ b ->
    is_Some (holders s !! id) /\ attended (proxy s) id }.

End system.
