(* ===== verification/PortSystemInv.v ===== *)
(** * The invariant of a PORT cluster

    Every event keeps [sys_ok] of PortSystem.v, and the coordinator never
    fails. *)

From stdpp Require Import gmap.
From S2P Require Import Prelude PartitionVersion Memtable.
From S2P Require Import Coordinator CoordinatorInv CoordinatorBatch PortSystem.
Open Scope Z_scope.

(** ** The operations of the proxy, as the cluster sees them *)

Section proxy.
Context (is_local : Z -> bool) (get_datacenter : Z -> Z) (total_memory me : Z).
Context (good : Z -> Z -> Prop).
Abbreviation proxy_ok := (proxy_ok is_local get_datacenter good None 0 0).

(** An operation on the write [id] that leaves it waiting for [t], shared by
    [k] continuations. *)
Record moved (id : Z) (t : gset Z) (k : nat) (p p' : storage_proxy) : Prop := {
  mv_ok : proxy_ok p';
  mv_next : next_response_id p' = next_response_id p;
  mv_unseen : unseen (eq id) p p';
  mv_refs : refs p' id = k;
  mv_table : id ∈ table p' -> id ∈ table p /\ pending p' id = t;
  mv_counted : forall w, id ∈ table p' -> counted w p id -> counted w p' id;
  mv_attended : attended p id -> attended p' id }.

Lemma after_moved id h t k c p p' :
  CoordinatorInv.proxy_ok is_local get_datacenter good None id 0 p' ->
  live p !! id = Some h -> after id t k (waited h) c h p p' ->
  (id ∈ table p' -> t ⊆ targets h /\ c + Z.of_nat (size t) <= Z.of_nat (size (targets h))) ->
  moved id t k p p'.
Proof.
  intros Hp Hh Ha Hc. pose proof (fr_next _ _ _ (af_frame _ _ _ _ _ _ _ _ Ha)) as Hn.
  assert (Hct : forall w, id ∈ table p' -> counted w p id -> counted w p' id).
  { intros w Ht. destruct (Hc Ht). by eapply after_counted. }
  apply after_seen in Ha as (Hu & [H1 H2 H3] & Hat). split; try done.
  - by apply (ok_from is_local get_datacenter good id).
  - auto.
  - intros [Hw|[r Hr]]; [apply Hat|right; exists r; by apply (un_ready _ _ _ Hu)].
    unfold waiting in Hw. by rewrite Hh in Hw.
Qed.

Lemma moved_refl id p : proxy_ok p -> moved id (pending p id) (refs p id) p p.
Proof. intros H. by split. Qed.

Lemma moved_trans id t t' k k' p q r : moved id t k p q -> moved id t' k' q r -> moved id t' k' p r.
Proof.
  intros [] []. split; try done; [congruence|by eapply unseen_trans| | |auto].
  - intros Ht. destruct (mv_table1 Ht) as [Hq <-]. by destruct (mv_table0 Hq).
  - intros w Ht Hc. destruct (mv_table1 Ht) as [Hq _]. auto.
Qed.

Lemma got_response_moved id from v p :
  proxy_ok p -> (id ∈ table p -> from ∈ pending p id) ->
  (forall h, id ∈ table p -> live p !! id = Some h ->
     cl_achieved h = true \/ total_block_for h <= cl_acks h + 1 \/ cl_any h = true -> good id v) ->
  exists p', got_response is_local get_datacenter total_memory id from v p = Some p' /\
    moved id (pending p id ∖ {[from]}) (refs p id) p p'.
Proof.
  intros Hp Hin Hg. destruct (decide (id ∈ table p)) as [Ht|Ht].
  - destruct (ok_live is_local get_datacenter good p id Hp Ht) as [h Hh]. specialize (Hin Ht).
    unfold pending, refs in *. rewrite Hh in *.
    destruct (got_response_ok is_local get_datacenter total_memory good id from v p h)
      as (p' & Hr & Hp' & Ha); [by apply ok_zero with (x := 0)|done|done|done|by apply Hg|].
    exists p'. split; [done|]. eapply after_moved; [done..|]. intros _.
    split; [set_solver|]. rewrite size_drop by done. lia.
  - exists p. unfold got_response. rewrite decide_False by done. split; [done|].
    destruct (moved_refl id p Hp). by split.
Qed.

Lemma contact_done_moved id to p n :
  proxy_ok p -> refs p id = S n ->
  exists p', contact_done total_memory me id to p = Some p' /\ moved id (pending p id) n p p'.
Proof.
  intros Hp Hr. unfold refs, pending in *. destruct (live p !! id) as [h|] eqn:Hh; [|done].
  destruct (contact_done_ok is_local get_datacenter total_memory good me id to p h n)
    as (p' & Hc & Hp' & Ha); [by apply ok_zero with (x := 0)|done..|].
  exists p'. split; [done|]. eapply after_moved; [done..|]. intros _. split; [done|lia].
Qed.

Lemma expire_moved id hints p :
  proxy_ok p -> id ∈ table p -> 0 <= hints ->
  exists p', expire total_memory id hints p = Some p' /\ moved id ∅ (refs p id) p p' /\ id ∉ table p'.
Proof.
  intros Hp Ht Hn. destruct (ok_live is_local get_datacenter good p id Hp Ht) as [h Hh].
  unfold refs. rewrite Hh.
  destruct (expire_ok is_local get_datacenter total_memory good id hints p h)
    as (p' & He & Hp' & Ha & Hnt); [by apply ok_zero with (x := 0)|done..|].
  exists p'. split; [done|]. split; [|done]. by eapply after_moved.
Qed.

End proxy.

(** ** Changes of the cluster *)

Section system.
Context {D : Type} (empty_data : D) (cf_is_data : bool).
Context (is_local : Z -> bool) (get_datacenter : Z -> Z) (total_memory me : Z).

Abbreviation sys_ok := (@sys_ok D cf_is_data is_local get_datacenter me).
Abbreviation event_fine ev := (event_ok is_local get_datacenter ev /\ event_any_live is_local get_datacenter ev).
Abbreviation step := (step empty_data cf_is_data is_local get_datacenter total_memory me).

Lemma submseteq_NoDup {A} (l l' : list A) : l ⊆+ l' -> NoDup l' -> NoDup l.
Proof. intros [l0 ->]%submseteq_Permutation H. by apply NoDup_app in H as [? _]. Qed.

Lemma memtable_of_set (s : @system D) r mt r' :
  memtable_of r' (set_memtable r mt s) = if decide (r' = r) then mt else memtable_of r' s.
Proof.
  unfold memtable_of. cbn. case_decide as E; [subst; by rewrite lookup_insert_eq|].
  by rewrite lookup_insert_ne.
Qed.

(** Some node's memtable moves on. *)
Lemma memtable_change k (s : @system D) r mt :
  sys_ok k s -> memtable_ok (k + 1) mt -> mt_later (memtable_of r s) mt ->
  sys_ok (k + 1) (set_memtable r mt s).
Proof.
  intros [] Hmt [Hc Hh]. constructor; try done.
  - intros id x v Ha. destruct (sy_acked id x v Ha) as (w & m & H1 & H2 & H3 & H4 & H5).
    exists w, m. rewrite memtable_of_set. case_decide; subst; auto 10.
  - intros x. rewrite memtable_of_set. case_decide; [done|].
    eapply memtable_ok_mono, sy_memtables. lia.
Qed.

Lemma ack_set_iff (s : @system D) id r : r ∈ ack_set s id <-> exists v, (id, r, v) ∈ acked s.
Proof.
  unfold ack_set. rewrite elem_of_list_to_set, list_elem_of_omap. split.
  - intros ([[y x] v] & Ha & H). cbn in H. case_decide as E; [|done]. injection H as <-.
    exists v. by subst y.
  - intros [v Ha]. exists (id, r, v). cbn. by rewrite decide_True.
Qed.

(** What a write has been granted stays granted. *)
Lemma granted_mono (s s' : @system D) id v :
  (forall a, a ∈ acked s -> a ∈ acked s') ->
  (forall x, holders s !! id = Some x -> holders s' !! id = Some x) -> granted s id v -> granted s' id v.
Proof.
  intros Ha Hh [Hr (w & m & Hw & Hq)]. split.
  - destruct Hr as [[r Hr]|(-> & w' & m' & Hw' & Hany)]; [left|right; by eauto 10]. exists r. auto.
  - exists w, m. split; [auto|]. destruct Hq as [?|Hq]; [by left|right]. etransitivity; [exact Hq|].
    apply Nat2Z.inj_le, subseteq_size. intros r. rewrite !ack_set_iff. intros [u Hu]. eauto.
Qed.

(** A replica has applied a write, or dropped it as late. *)
Lemma acked_change k (s : @system D) id r v w m (late : bool) :
  sys_ok k s -> holders s !! id = Some (w, m) -> r ∈ ws_targets w -> get_version_to_write m <= v ->
  mt_committed (fm_key m) v (memtable_of r s) ->
  (late = false ->
   mt_holds (fm_key m) v (written cf_is_data (fm_partition m) (get_version_to_write m) v) (memtable_of r s)) ->
  sys_ok k (add_acked (id, r, v) late s).
Proof.
  intros [] Hh Hr Hv Hc Hw. constructor; try done.
  - eapply proxy_ok_mono, sy_proxy. intros y u. apply granted_mono; [|done]. intros a Ha. by right.
  - intros y Hy. destruct (sy_counted y Hy) as (w' & m' & H1 & H2 & H3). exists w', m'.
    split_and!; [done|done|]. intros x Hx. apply H3 in Hx. rewrite elem_of_union, ack_set_iff in *.
    destruct Hx as [?|[u ?]]; [by left|right]. exists u. by right.
  - intros msg Hm. specialize (sy_net msg Hm). destruct msg; [done|]. by right.
  - intros id' x u [[= -> -> ->]|Ha]%elem_of_cons.
    + exists w, m. split_and!; try done. cbn. destruct late; [|auto]. intros []. left.
    + destruct (sy_acked id' x u Ha) as (w' & m' & H1 & H2 & H3 & H4 & H5). exists w', m'.
      split_and!; try done. cbn. intros Hn. apply H5. destruct late; [|done].
      intros Hd. apply Hn. by right.
  - intros y u Hy. right. by apply sy_local.
Qed.

(** The mutation of [lmutate] is applied; its continuation has not run. *)
Lemma local_change k (s : @system D) id v :
  sys_ok k s -> (id, me, v) ∈ acked s -> sys_ok k (set_local id v s).
Proof.
  intros [] Ha. constructor; try done. intros y u. cbn.
  destruct (decide (y = id)) as [->|]; [rewrite lookup_insert_eq; by intros [= <-]|].
  rewrite lookup_insert_ne by done. apply sy_local.
Qed.

(** The proxy and the messages move on; responses only disappear. *)
Lemma proxy_change k (s : @system D) p' n' c' :
  let s' := Sys p' (memtables s) n' c' (holders s) (batches s) (local_versions s) (acked s) (dropped s) in
  sys_ok k s -> proxy_ok is_local get_datacenter (granted s) None 0 0 p' ->
  next_response_id p' = next_response_id (proxy s) ->
  (forall y, refs p' y = contacts_of y c') -> (forall c, c ∈ c' -> c ∈ contacts s) ->
  (forall m, m ∈ n' -> message_ok s m) ->
  (forall id, id ∈ table p' -> id ∈ table (proxy s) /\
     (forall w, counted w (proxy s) id -> counted w p' id) /\
     pending (proxy s) id ⊆ pending p' id ∪ ack_set s id) ->
  tokens me s' ⊆+ tokens me s ->
  (forall id x, (id, x) ∈ tokens me s' -> id ∈ table p' -> x ∈ pending p' id) ->
  (forall y, attended (proxy s) y -> attended p' y) -> sys_ok k s'.
Proof.
  intros s' [] Hp Hn Hr Hc Hm Htb Ht Hpd Ha. constructor; try done; cbn.
  - by rewrite Hn.
  - intros id x Hx. rewrite Hn. by apply sy_holders.
  - auto.
  - by eapply submseteq_NoDup.
  - intros id x Hx. split; [|by apply Hpd]. apply sy_tokens.
    by eapply elem_of_submseteq.
  - intros id Hid. destruct (Htb id Hid) as (Hid' & Hcn & Hsub).
    destruct (sy_counted id Hid') as (w & m & H1 & H2 & H3). exists w, m. split_and!; [done|auto|].
    etransitivity; [exact H3|]. change (ack_set s' id) with (ack_set s id). set_solver.
  - intros b id Hb Hid. destruct (sy_batches b id Hb Hid). auto.
Qed.

(** The same for an operation on one write. *)
Lemma moved_change k (s : @system D) id t n p' n' c' :
  let s' := Sys p' (memtables s) n' c' (holders s) (batches s) (local_versions s) (acked s) (dropped s) in
  sys_ok k s -> moved is_local get_datacenter (granted s) id t n (proxy s) p' ->
  contacts_of id c' = n -> (forall y, y <> id -> contacts_of y c' = contacts_of y (contacts s)) ->
  (forall c, c ∈ c' -> c ∈ contacts s) -> (forall m, m ∈ n' -> message_ok s m) ->
  tokens me s' ⊆+ tokens me s ->
  (forall x, (id, x) ∈ tokens me s' -> id ∈ table p' -> x ∈ pending (proxy s) id -> x ∈ t) ->
  (id ∈ table p' -> pending (proxy s) id ⊆ t ∪ ack_set s id) ->
  sys_ok k s'.
Proof.
  intros s' Hs [] Hid Hoth Hc Hm Ht Htok Hack. apply proxy_change; try done.
  - intros y. destruct (decide (y = id)) as [->|Hne]; [congruence|].
    rewrite (un_refs _ _ _ mv_unseen0), Hoth by congruence. by apply (sy_refs _ _ _ _ _ _ Hs).
  - intros y Hy. destruct (decide (y = id)) as [->|Hne].
    + destruct (mv_table0 Hy) as [Hy' E]. rewrite E. auto.
    + rewrite (un_table _ _ _ mv_unseen0) in Hy by congruence.
      rewrite (un_pending _ _ _ mv_unseen0) by congruence. split_and!; [done| |set_solver].
      intros w. apply (un_counted _ _ _ mv_unseen0). congruence.
  - intros y x Hx. assert (Hx' : (y, x) ∈ tokens me s) by (by eapply elem_of_submseteq).
    destruct (sy_tokens _ _ _ _ _ _ Hs y x Hx') as [_ Hp].
    destruct (decide (y = id)) as [->|Hne].
    + intros Hy. destruct (mv_table0 Hy) as [Hy' ->]. auto.
    + rewrite (un_table _ _ _ mv_unseen0), (un_pending _ _ _ mv_unseen0) by congruence. done.
  - intros y Hy. destruct (decide (y = id)) as [->|Hne]; [auto|].
    eapply unseen_attended; [done|congruence|done].
Qed.

Lemma tokens_net (s : @system D) i msg :
  net s !! i = Some msg -> tokens me s ≡ₚ message_tokens msg ++ tokens me (set_net (delete i (net s)) s).
Proof.
  intros Hi. unfold tokens. cbn [contacts net set_net].
  rewrite (Permutation_app_comm (message_tokens msg)), <- app_assoc. apply Permutation_app_head.
  rewrite (delete_Permutation _ _ _ Hi) at 1. cbn. apply Permutation_app_comm.
Qed.

Lemma tokens_contact (s : @system D) i c :
  contacts s !! i = Some c ->
  tokens me s ≡ₚ (if decide (c.2 = me) then [c] else []) ++ tokens me (set_contacts (delete i (contacts s)) s).
Proof.
  intros Hi. unfold tokens. cbn [contacts net set_contacts]. rewrite app_assoc.
  apply Permutation_app_tail. rewrite (delete_Permutation _ _ _ Hi) at 1. rewrite filter_cons.
  by case_decide.
Qed.

Lemma contacts_of_delete id (l : list (Z * Z)) i c :
  l !! i = Some c -> contacts_of id l = ((if decide (c.1 = id) then 1 else 0) + contacts_of id (delete i l))%nat.
Proof.
  intros Hi. unfold contacts_of. rewrite (delete_Permutation _ _ _ Hi) at 1. rewrite filter_cons.
  by case_decide.
Qed.

Lemma delete_elem {A} (l : list A) i x : x ∈ delete i l -> x ∈ l.
Proof. apply elem_of_sublist_of, sublist_delete. Qed.

(** A message makes way for others that promise no more responses. *)
Lemma net_replace k (s : @system D) i msg l :
  sys_ok k s -> net s !! i = Some msg -> (forall m, m ∈ l -> message_ok s m) ->
  (l ≫= message_tokens) ⊆+ message_tokens msg -> sys_ok k (set_net (delete i (net s) ++ l) s).
Proof.
  intros Hs Hi Hl Hsub. pose proof Hs as [].
  assert (Ht : tokens me (set_net (delete i (net s) ++ l) s) ⊆+ tokens me s).
  { rewrite (tokens_net _ _ _ Hi). unfold tokens. cbn [contacts net set_net].
    rewrite bind_app, app_assoc, Permutation_app_comm. by apply submseteq_skips_r. }
  apply proxy_change; try done.
  - intros m [Hm%delete_elem|?]%elem_of_app; auto.
  - intros id Hid. split_and!; [done|done|set_solver].
  - intros id x Hx. apply sy_tokens. by eapply elem_of_submseteq.
Qed.

Lemma forwards_tokens id l (m : @frozen_mutation D) :
  (forwards id l m ≫= message_tokens) = (fun x => (id, x)) <$> l.
Proof. unfold forwards. induction l as [|x l IH]; [done|]. cbn. by rewrite IH. Qed.

(** The response that reaches the consistency level. *)
Lemma response_granted k (s : @system D) id from v h :
  sys_ok k s -> (id, from, v) ∈ acked s -> id ∈ table (proxy s) -> live (proxy s) !! id = Some h ->
  from ∈ targets h -> cl_achieved h = true \/ total_block_for h <= cl_acks h + 1 \/ cl_any h = true ->
  granted s id v.
Proof.
  intros Hs Ha Ht Hl Hin Hc. split; [left; by exists from|].
  destruct (sy_counted _ _ _ _ _ _ Hs id Ht) as (w & m & Hh & Hcnt & Hsub).
  destruct (Hcnt h Hl) as (H1 & H2 & H3 & H4). unfold pending in Hsub. rewrite Hl in Hsub.
  destruct (cl_achieved h) eqn:Hach.
  { pose proof (po_handler _ _ _ _ _ _ _ (sy_proxy _ _ _ _ _ _ Hs) id h Hl) as Hok.
    by destruct (ho_good _ _ _ _ _ _ _ Hok Hach). }
  exists w, m. split; [done|]. destruct (ws_any w) eqn:Hany; [by left|right].
  specialize (H4 eq_refl eq_refl). destruct Hc as [?|[Hc|?]]; [done| |congruence].
  assert (Hsz : Z.of_nat (size (ws_targets w ∖ (targets h ∖ {[from]})))
    = Z.of_nat (size (ws_targets w)) - (Z.of_nat (size (targets h)) - 1)).
  { rewrite size_difference by set_solver. rewrite <- (size_drop (targets h) from Hin).
    assert (size (targets h ∖ {[from]}) <= size (ws_targets w))%nat by (apply subseteq_size; set_solver). lia. }
  assert (size (ws_targets w ∖ (targets h ∖ {[from]})) <= size (ack_set s id))%nat; [|lia].
  apply subseteq_size. intros x Hx. assert (from ∈ ack_set s id) by (apply ack_set_iff; eauto). set_solver.
Qed.

(** A response is processed: [from] is no longer awaited. *)
Lemma response_over k (s : @system D) i id from v :
  sys_ok k s -> net s !! i = Some (MutationDone id from v) ->
  exists p', got_response is_local get_datacenter total_memory id from v (proxy s) = Some p' /\
    sys_ok k (set_proxy p' (set_net (delete i (net s)) s)).
Proof.
  intros Hs Hi. pose proof (tokens_net _ _ _ Hi) as Htok. cbn in Htok.
  assert (Hin : (id, from) ∈ tokens me s) by (rewrite Htok; left).
  assert (Hv : (id, from, v) ∈ acked s)
    by (apply (sy_net _ _ _ _ _ _ Hs (MutationDone id from v)); by eapply list_elem_of_lookup_2).
  destruct (got_response_moved is_local get_datacenter total_memory (granted s) id from v (proxy s))
    as (p' & Hg & Hm); [apply Hs|by apply Hs| |].
  { intros h Ht Hl. destruct (sy_tokens _ _ _ _ _ _ Hs id from Hin) as [_ Hp]. specialize (Hp Ht).
    unfold pending in Hp. rewrite Hl in Hp. by eapply response_granted. }
  exists p'. split; [done|].
  apply (moved_change k s id (pending (proxy s) id ∖ {[from]}) (refs (proxy s) id)); try done.
  - symmetry. apply Hs.
  - intros m Hm'%delete_elem. by apply Hs.
  - rewrite Htok. by apply submseteq_cons.
  - intros x Hx _ Hpx. apply elem_of_difference. split; [done|]. intros ->%elem_of_singleton.
    pose proof (sy_nodup _ _ _ _ _ _ Hs) as Hnd. rewrite Htok in Hnd. by apply NoDup_cons in Hnd as [? _].
  - intros _. assert (from ∈ ack_set s id) by (apply ack_set_iff; eauto). intros x Hx.
    destruct (decide (x = from)); set_solver.
Qed.

(** A replica applies the mutation of a write. *)
Lemma applied k (s : @system D) id r w m mt c :
  sys_ok k s -> 0 <= k < 2 ^ 31 - 1 -> holders s !! id = Some (w, m) -> r ∈ ws_targets w ->
  memtable_apply empty_data cf_is_data m (memtable_of r s) = Some (mt, c) ->
  sys_ok (k + 1) (add_acked (id, r, c) (late_at empty_data r m s) (set_memtable r mt s)).
Proof.
  intros Hs Hk Hh Hr Ha. destruct (sy_holders _ _ _ _ _ _ Hs id _ Hh) as [_ Hm].
  destruct (memtable_apply_ok _ _ m _ mt c k (sy_memtables _ _ _ _ _ _ Hs r) Hk Hm Ha)
    as (H1 & H2 & H3 & H4 & H5).
  apply (acked_change _ _ _ _ _ w m); [by apply memtable_change|done..| |];
    rewrite memtable_of_set, decide_True by done; [done|exact H4].
Qed.

Lemma sys_ok_mono k k' (s : @system D) : k <= k' -> sys_ok k s -> sys_ok k' s.
Proof. intros Hk []. constructor; try done. intros r. by eapply memtable_ok_mono. Qed.

(** The holder of the write a response is expected for. *)
Lemma token_holder k (s : @system D) id x :
  sys_ok k s -> (id, x) ∈ tokens me s -> exists w m, holders s !! id = Some (w, m) /\ x ∈ ws_targets w.
Proof. intros Hs Hx. by destruct (sy_tokens _ _ _ _ _ _ Hs id x Hx) as [? _]. Qed.

(** The call at [i] failed, or it was one of [rmutate]. *)
Lemma contact_over_quiet k (s : @system D) i id to :
  sys_ok k s -> contacts s !! i = Some (id, to) ->
  exists p', contact_done total_memory me id to (proxy s) = Some p' /\
    moved is_local get_datacenter (granted s) id (pending (proxy s) id)
      (contacts_of id (delete i (contacts s))) (proxy s) p'.
Proof.
  intros Hs Hi. pose proof (sy_refs _ _ _ _ _ _ Hs id) as Hr.
  rewrite (contacts_of_delete id _ _ _ Hi) in Hr. rewrite decide_True in Hr by done.
  exact (contact_done_moved is_local get_datacenter total_memory me (granted s) id to
    (proxy s) _ (sy_proxy _ _ _ _ _ _ Hs) Hr).
Qed.

(** The coordinator's own mutation has been applied and its response is
    processed. *)
Lemma contact_over_local k (s : @system D) i id v :
  sys_ok k s -> contacts s !! i = Some (id, me) -> (id, me, v) ∈ acked s ->
  exists p', (p ← got_response is_local get_datacenter total_memory id me v (proxy s);
              contact_done total_memory me id me p) = Some p' /\
    moved is_local get_datacenter (granted s) id (pending (proxy s) id ∖ {[me]})
      (contacts_of id (delete i (contacts s))) (proxy s) p'.
Proof.
  intros Hs Hi Hv. pose proof (tokens_contact _ _ _ Hi) as Htok. cbn [snd] in Htok.
  rewrite decide_True in Htok by done. cbn [app] in Htok.
  assert (Hin : (id, me) ∈ tokens me s) by (rewrite Htok; left).
  destruct (got_response_moved is_local get_datacenter total_memory (granted s) id me v (proxy s))
    as (p1 & Hg & Hm1); [apply Hs|by apply Hs| |].
  { intros h Ht Hl. destruct (sy_tokens _ _ _ _ _ _ Hs id me Hin) as [_ Hp]. specialize (Hp Ht).
    unfold pending in Hp. rewrite Hl in Hp. by eapply response_granted. }
  pose proof (sy_refs _ _ _ _ _ _ Hs id) as Hr.
  rewrite (contacts_of_delete id _ _ _ Hi), decide_True in Hr by done.
  destruct (contact_done_moved is_local get_datacenter total_memory me (granted s) id me p1
    (contacts_of id (delete i (contacts s)))) as (p' & Hc & Hm2); [apply Hm1|by rewrite (mv_refs _ _ _ _ _ _ _ _ Hm1)|].
  exists p'. rewrite Hg. split; [done|]. destruct (moved_trans _ _ _ _ _ _ _ _ _ _ _ Hm1 Hm2). split; try done.
  intros Ht. split; [by apply mv_table0|]. destruct (mv_table _ _ _ _ _ _ _ _ Hm2 Ht) as [H1 ->].
  by destruct (mv_table _ _ _ _ _ _ _ _ Hm1 H1) as [_ ->].
Qed.

(** The contact at [i] is over. *)
Lemma contact_over k (s : @system D) i :
  sys_ok k s -> is_Some (contacts s !! i) ->
  exists id t n p', step (EvContactOver i) s = Ok (set_proxy p' (set_contacts (delete i (contacts s)) s)) /\
    moved is_local get_datacenter (granted s) id t n (proxy s) p' /\
    sys_ok k (set_proxy p' (set_contacts (delete i (contacts s)) s)).
Proof.
  intros Hs [[id to] Hi]. cbn [PortSystem.step]. rewrite Hi.
  pose proof (tokens_contact _ _ _ Hi) as Htok. cbn [snd] in Htok.
  assert (Hch : forall t p', moved is_local get_datacenter (granted s) id t
      (contacts_of id (delete i (contacts s))) (proxy s) p' ->
    (t = pending (proxy s) id \/
     t = pending (proxy s) id ∖ {[me]} /\ to = me /\ me ∈ ack_set s id) ->
    sys_ok k (set_proxy p' (set_contacts (delete i (contacts s)) s))).
  { intros t p' Hm Ht. eapply (moved_change k s id t); [done|done|done| | | | | |].
    - intros y Hy. rewrite (contacts_of_delete y _ _ _ Hi). by rewrite decide_False.
    - intros c. apply delete_elem.
    - apply Hs.
    - rewrite Htok. by apply submseteq_inserts_l.
    - intros x Hx _ Hpx. destruct Ht as [->|(-> & -> & _)]; [done|]. apply elem_of_difference.
      split; [done|]. intros ->%elem_of_singleton. pose proof (sy_nodup _ _ _ _ _ _ Hs) as Hnd.
      rewrite Htok, decide_True in Hnd by done. by apply NoDup_cons in Hnd as [? _].
    - intros _ x Hx. destruct Ht as [->|(-> & _ & Hack)]; [set_solver|]. destruct (decide (x = me)); set_solver. }
  destruct (contact_over_quiet k s i id to Hs Hi) as (pq & Hq & Hmq).
  destruct (local_versions s !! id) as [c|] eqn:Hl.
  - destruct (Z.eqb_spec to me) as [->|Hne].
    + pose proof (sy_local _ _ _ _ _ _ Hs id c Hl) as Hack.
      destruct (contact_over_local k s i id c Hs Hi Hack) as (p' & Hp' & Hm).
      exists id, (pending (proxy s) id ∖ {[me]}), (contacts_of id (delete i (contacts s))), p'.
      rewrite Hp'. split_and!; [done|done|]. eapply Hch; [done|]. right. split_and!; try done.
      apply ack_set_iff. by exists c.
    + cbn. rewrite Hq. eexists id, _, _, pq. split_and!; [done|done|]. eapply Hch; [done|]. by left.
  - cbn. rewrite Hq. eexists id, _, _, pq. split_and!; [done|done|]. eapply Hch; [done|]. by left.
Qed.

(** ** A new batch *)

Fixpoint created_pairs (ws : list (option write_spec * @frozen_mutation D)) :=
  match ws with (Some w, m) :: ws' => (w, m) :: created_pairs ws' | _ => [] end.

Lemma created_pairs_fst ws : created ws.*1 = (created_pairs ws).*1.
Proof. induction ws as [|[[w|] m] ws IH]; [done| |done]. cbn. by rewrite IH. Qed.

Lemma add_holders_lookup id ws (hs : gmap Z (write_spec * @frozen_mutation D)) y :
  add_holders id ws hs !! y =
    if decide (id <= y < id + Zlen (created_pairs ws)) then created_pairs ws !! Z.to_nat (y - id)
    else hs !! y.
Proof.
  revert id. induction ws as [|[[w|] m] ws IH]; intros id; cbn [add_holders created_pairs].
  - rewrite decide_False; [done|]. rewrite Zlen_nil. lia.
  - rewrite Zlen_cons. pose proof (Zlen_nonneg (created_pairs ws)).
    destruct (decide (y = id)) as [->|Hne].
    + rewrite lookup_insert_eq, decide_True by lia. by rewrite Z.sub_diag.
    + rewrite lookup_insert_ne, IH by congruence.
      destruct (decide (id + 1 <= y < id + 1 + Zlen (created_pairs ws))) as [Hy|Hy].
      * rewrite decide_True by lia. replace (Z.to_nat (y - id)) with (S (Z.to_nat (y - (id + 1)))) by lia. done.
      * rewrite decide_False by lia. done.
  - rewrite decide_False; [done|]. rewrite Zlen_nil. lia.
Qed.

(** What the new writes bring with them. *)
Record fresh (s : @system D) (p' : storage_proxy) (hs : gmap Z (write_spec * @frozen_mutation D))
    (n' : list message) (c' : list (Z * Z)) (bs : list (list Z)) : Prop := {
  fh_next : next_response_id (proxy s) <= next_response_id p';
  fh_unseen : unseen (fun y => next_response_id (proxy s) <= y) (proxy s) p';
  fh_old : forall id, id < next_response_id (proxy s) -> hs !! id = holders s !! id;
  fh_holders : forall id x, hs !! id = Some x -> next_response_id (proxy s) <= id ->
    id < next_response_id p' /\ mutation_ok x.2;
  fh_refs : forall id, next_response_id (proxy s) <= id -> refs p' id = contacts_of id c';
  fh_contacts : forall c, c ∈ c' -> next_response_id (proxy s) <= c.1 /\ is_Some (hs !! c.1);
  fh_net : forall msg, msg ∈ n' -> exists id to f m, msg = Mutation id to f m /\ snd <$> hs !! id = Some m;
  fh_nodup : NoDup (filter (fun c => c.2 = me) c' ++ (n' ≫= message_tokens));
  fh_tokens : forall id x, (id, x) ∈ filter (fun c => c.2 = me) c' ++ (n' ≫= message_tokens) ->
    next_response_id (proxy s) <= id /\ (exists w m, hs !! id = Some (w, m) /\ x ∈ ws_targets w) /\
    (id ∈ table p' -> x ∈ pending p' id);
  fh_table : forall id, id ∈ table p' -> next_response_id (proxy s) <= id ->
    exists w m, hs !! id = Some (w, m) /\ counted w p' id /\ ws_targets w ⊆ pending p' id;
  fh_batches : forall b id, b ∈ bs -> id ∈ b -> is_Some (hs !! id) /\ attended p' id }.

Lemma contacts_of_app id (l l' : list (Z * Z)) :
  contacts_of id (l ++ l') = (contacts_of id l + contacts_of id l')%nat.
Proof. unfold contacts_of. by rewrite filter_app, length_app. Qed.

Lemma contacts_of_none id (l : list (Z * Z)) : (forall c, c ∈ l -> c.1 <> id) -> contacts_of id l = 0%nat.
Proof.
  intros H. unfold contacts_of. induction l as [|c l IH]; [done|]. rewrite filter_cons_False.
  - apply IH. intros x Hx. apply H. by right.
  - apply H. left.
Qed.

Lemma contact_old k (s : @system D) c : sys_ok k s -> c ∈ contacts s -> c.1 < next_response_id (proxy s).
Proof.
  intros Hs Hc. destruct (sy_contacts _ _ _ _ _ _ Hs c Hc) as [x Hx].
  destruct (sy_holders _ _ _ _ _ _ Hs _ _ Hx). lia.
Qed.

Lemma batch_change k (s : @system D) p' hs n' c' bs :
  let s' := Sys p' (memtables s) (net s ++ n') (contacts s ++ c') hs (batches s ++ bs)
    (local_versions s) (acked s) (dropped s) in
  sys_ok k s -> fresh s p' hs n' c' bs ->
  proxy_ok is_local get_datacenter (granted s') None 0 0 p' -> sys_ok k s'.
Proof.
  intros s' Hs Hf Hp. pose proof Hs as []. pose proof Hf as [].
  set (n0 := next_response_id (proxy s)) in *.
  assert (Hhold : forall id x, holders s !! id = Some x -> hs !! id = Some x /\ id < n0).
  { intros id x Hx. destruct (sy_holders id x Hx) as [Hlt _]. split; [|lia]. rewrite <- Hx. apply fh_old0. lia. }
  assert (Htok : tokens me s' ≡ₚ tokens me s ++ filter (fun c => c.2 = me) c' ++ (n' ≫= message_tokens)).
  { unfold tokens. cbn. rewrite filter_app, bind_app. solve_Permutation. }
  constructor; try done; try rewrite Htok; unfold s';
    cbn [proxy memtables net contacts holders batches local_versions acked dropped].
  - lia.
  - intros id x Hx. destruct (decide (n0 <= id)) as [Hge|Hlt].
    + destruct (fh_holders0 id x Hx Hge). split; [lia|done].
    + rewrite fh_old0 in Hx by lia. destruct (sy_holders id x Hx). split; [lia|done].
  - intros id. rewrite contacts_of_app. destruct (decide (n0 <= id)) as [Hge|Hlt].
    + rewrite fh_refs0 by done. rewrite (contacts_of_none id (contacts s)); [lia|].
      intros c Hc. apply (contact_old k s c Hs) in Hc. fold n0 in Hc. lia.
    + rewrite (un_refs _ _ _ fh_unseen0), sy_refs by done. rewrite (contacts_of_none id c'); [lia|].
      intros c Hc. destruct (fh_contacts0 c Hc). lia.
  - intros c [Hc|Hc]%elem_of_app; [|by apply fh_contacts0].
    destruct (sy_contacts c Hc) as [x Hx]. exists x. by apply Hhold.
  - apply NoDup_app. split_and!; [done| |done]. intros [id x] Hx Hx'.
    destruct (fh_tokens0 id x Hx') as [Hge _]. destruct (sy_tokens id x Hx) as [(w & m & Hh & _) _].
    apply Hhold in Hh as [_ Hlt]. lia.
  - intros id x. fold s'. rewrite Htok. intros [Hx|Hx]%elem_of_app; [|by apply fh_tokens0].
    destruct (sy_tokens id x Hx) as [(w & m & Hh & Hw) Hpd]. apply Hhold in Hh as [Hh Hlt].
    split; [by exists w, m|]. rewrite (un_table _ _ _ fh_unseen0), (un_pending _ _ _ fh_unseen0) by lia. done.
  - intros id Hid. change (ack_set _ id) with (ack_set s id). destruct (decide (n0 <= id)) as [Hge|Hlt].
    + destruct (fh_table0 id Hid Hge) as (w & m & H1 & H2 & H3). exists w, m. split_and!; [done|done|set_solver].
    + rewrite (un_table _ _ _ fh_unseen0) in Hid by done.
      destruct (sy_counted id Hid) as (w & m & H1 & H2 & H3). exists w, m.
      rewrite (un_pending _ _ _ fh_unseen0) by done.
      split_and!; [by apply Hhold|by apply (un_counted _ _ _ fh_unseen0)|done].
  - intros msg [Hm|Hm]%elem_of_app.
    + specialize (sy_net msg Hm). destruct msg; [|done]. cbn in *.
      apply fmap_Some in sy_net as (x & Hx & ->). apply Hhold in Hx as [-> _]. done.
    + destruct (fh_net0 msg Hm) as (id & to & f & m & -> & ?). done.
  - intros id r v Ha. destruct (sy_acked id r v Ha) as (w & m & Hh & ?). exists w, m.
    apply Hhold in Hh as [Hh _]. done.
  - intros b id [Hb|Hb]%elem_of_app Hid; [|by eapply fh_batches0].
    destruct (sy_batches b id Hb Hid) as [[x Hx] Ha]. apply Hhold in Hx as [Hx Hlt].
    split; [by exists x|]. eapply unseen_attended; [done| |done]. cbn. lia.
Qed.

(** The responses a batch may get. *)
Lemma sends_tokens (hs : gmap Z (write_spec * @frozen_mutation D)) ss :
  filter (fun c => c.2 = me) ((fun x => (s_id x, s_to x)) <$> ss) ++ (omap (message_of me hs) ss ≫= message_tokens)
    ⊆+ (ss ≫= send_tokens).
Proof.
  induction ss as [|x ss IH]; [done|]. rewrite fmap_cons, filter_cons. cbn [omap list_omap snd].
  unfold message_of at 1. destruct (Z.eqb_spec (s_to x) me) as [E|E].
  - rewrite decide_True by done. cbn. apply submseteq_skip. rewrite IH. by apply submseteq_inserts_l.
  - rewrite decide_False by done. destruct (hs !! s_id x) as [[w m]|]; cbn.
    + rewrite <- Permutation_middle. apply submseteq_skip. rewrite Permutation_app_comm, <- app_assoc.
      apply submseteq_skips_l. rewrite Permutation_app_comm. done.
    + rewrite IH. apply submseteq_cons. by apply submseteq_inserts_l.
Qed.

Lemma granted_old k (s : @system D) hs p' n' c' bs lv d :
  sys_ok k s -> (forall id, id < next_response_id (proxy s) -> hs !! id = holders s !! id) ->
  forall id v, granted s id v ->
    granted (Sys p' (memtables s) n' c' hs bs lv (acked s) d) id v.
Proof.
  intros Hs Ho id v. apply granted_mono; [done|]. intros x Hx. cbn. rewrite Ho; [done|].
  destruct (sy_holders _ _ _ _ _ _ Hs _ _ Hx). lia.
Qed.

(** What [mutate_prepare] and [moon_mutate_begin] are given. *)
Lemma event_created ws :
  event_fine (EvWrite ws) ->
  Forall (fun x => (spec_ok is_local get_datacenter x.1 /\ any_live is_local get_datacenter x.1) /\
                   0 <= ws_hints x.1 /\ mutation_ok x.2)
    (created_pairs ws).
Proof.
  cbn. intros [He Ha]. revert Ha. induction He as [|[[w|] m] ws [Hm Hw] _ IH]; [constructor| |constructor].
  intros [Hal Ha]%Forall_cons. cbn. constructor; [|auto]. cbn in *. destruct Hw. done.
Qed.

(** What the loop of [moon_mutate_begin] leaves is fresh. *)
Lemma begun_fresh k (s : @system D) ws p ss p' (good : Z -> Z -> Prop) :
  let p0 := proxy s in let n0 := next_response_id p0 in
  let hs := add_holders n0 ws (holders s) in let cs := created ws.*1 in
  let ids := seqZ n0 (Zlen cs) in
  sys_ok k s -> event_fine (EvWrite ws) ->
  prepared is_local get_datacenter good p0 cs p ->
  table p' = table p -> next_response_id p' = next_response_id p ->
  unseen (fun y => y ∈ ids) p p' -> (forall id, refs p' id = (refs p id + sends_of id ss)%nat) ->
  (forall id, id ∈ table p -> pending p' id = pending p id) -> (forall id, id ∈ ids -> attended p' id) ->
  (forall id w, id ∈ table p -> counted w p id -> counted w p' id) ->
  (ss ≫= send_tokens) ≡ₚ (ids ≫= fun id => (fun x => (id, x)) <$> elements (pending p id)) ->
  fresh s p' hs (omap (message_of me hs) ss) ((fun x => (s_id x, s_to x)) <$> ss) [ids].
Proof.
  intros p0 n0 hs cs ids Hs He [Hok Hn Hu Hnew] Ht' Hn' Hu' Hr' Hpd' Hat' Hct' Htok.
  apply event_created in He. rewrite Forall_forall in He.
  assert (Hlen : Zlen cs = Zlen (created_pairs ws)).
  { unfold cs. rewrite created_pairs_fst. unfold Zlen. by rewrite length_fmap. }
  pose proof (Zlen_nonneg cs).
  (* the write of an id of the batch *)
  assert (Hid : forall id, id ∈ ids -> exists w m, hs !! id = Some (w, m) /\
    n0 <= id < n0 + Zlen cs /\ id ∈ table p /\ refs p id = 0%nat /\ pending p id = ws_targets w /\
    counted w p id).
  { intros id Hi%elem_of_seqZ. unfold hs. rewrite add_holders_lookup, decide_True by lia.
    destruct (lookup_lt_is_Some_2 (created_pairs ws) (Z.to_nat (id - n0))) as [[w m] Hw].
    { unfold Zlen in *. lia. }
    exists w, m. split; [done|]. split; [done|].
    destruct (Hnew (Z.to_nat (id - n0)) w) as (H1 & H2 & H3 & _ & H5).
    { unfold cs. by rewrite created_pairs_fst, list_lookup_fmap, Hw. }
    replace (next_response_id p0 + Z.of_nat (Z.to_nat (id - n0))) with id in * by lia. done. }
  assert (Hin : forall id x, (id, x) ∈ (ss ≫= send_tokens) -> id ∈ ids /\ x ∈ pending p id).
  { intros id x. rewrite Htok. intros (y & Hy & Hiy)%list_elem_of_bind.
    apply list_elem_of_fmap in Hy as (z & [= -> ->] & Hz%elem_of_elements). done. }
  assert (Hsend : forall x, x ∈ ss -> s_id x ∈ ids).
  { intros x Hx. apply (Hin _ (s_to x)). apply list_elem_of_bind. exists x. split; [left|done]. }
  pose proof (sends_tokens hs ss) as Hsub.
  split.
  - fold p0 n0. lia.
  - apply (unseen_trans _ _ p); [done|]. eapply unseen_weaken, Hu'. intros y Hy%elem_of_seqZ. fold p0 n0. lia.
  - intros id Hlt. unfold hs. rewrite add_holders_lookup, decide_False; [done|]. fold p0 n0 in Hlt. lia.
  - intros id x Hx Hge. fold p0 n0 in Hge. unfold hs in Hx. rewrite add_holders_lookup in Hx.
    case_decide as Hd; [split; [lia|]; apply list_elem_of_lookup_2 in Hx; by apply He|].
    destruct (sy_holders _ _ _ _ _ _ Hs _ _ Hx) as [Hr _]. change (0 < id < n0) in Hr. lia.
  - intros id Hge. fold p0 n0 in Hge. rewrite Hr'.
    assert (refs p id = 0%nat) as ->.
    { destruct (decide (id ∈ ids)) as [Hi|Hi]; [by destruct (Hid id Hi) as (?&?&?&?&?&?&?&?)|].
      apply (ok_fresh is_local get_datacenter good); [done|]. unfold ids in Hi. rewrite elem_of_seqZ in Hi.
      fold p0 n0 in Hn. lia. }
    unfold contacts_of, sends_of. clear. induction ss as [|x ss IH]; [done|].
    rewrite fmap_cons, !filter_cons. cbn [fst]. case_decide; cbn in *; lia.
  - intros c (x & -> & Hx)%list_elem_of_fmap. apply Hsend in Hx. cbn [fst].
    destruct (Hid _ Hx) as (w & m & Hh & ? & _). fold p0 n0. split; [lia|by eexists].
  - intros msg (x & Hx & Hm)%list_elem_of_omap. unfold message_of in Hm.
    destruct (s_to x =? me); [done|]. apply bind_Some in Hm as ([w m] & Hh & [= <-]).
    eexists _, _, _, _. split; [done|]. by rewrite Hh.
  - eapply submseteq_NoDup; [exact Hsub|]. rewrite Htok. apply NoDup_bind; [..|apply NoDup_seqZ].
    + intros x1 x2 y _ _ (? & -> & _)%list_elem_of_fmap (? & [= <- _] & _)%list_elem_of_fmap. done.
    + intros x _. apply NoDup_fmap_2; [by intros ? ? [= ->]|apply NoDup_elements].
  - intros id x Hx. eapply elem_of_submseteq in Hx; [|exact Hsub]. apply Hin in Hx as [Hi Hx].
    destruct (Hid id Hi) as (w & m & Hh & Hge & Hti & _ & Hpe & _). fold p0 n0. split; [lia|].
    split; [exists w, m; split; [done|by rewrite <- Hpe]|]. intros _. by rewrite Hpd'.
  - intros id Hi Hge. rewrite Ht' in Hi. fold p0 n0 in Hge.
    assert (Hi' : id ∈ ids).
    { apply elem_of_seqZ. split; [done|]. apply Z.nle_gt. intros Hgt.
      destruct (ok_fresh is_local get_datacenter good p id Hok) as [_ Hnt]; [fold p0 n0 in Hn; lia|done]. }
    destruct (Hid id Hi') as (w & m & Hh & _ & _ & _ & Hpe & Hc). exists w, m.
    split_and!; [done|by apply Hct'|]. by rewrite Hpd', Hpe.
  - intros b id ->%list_elem_of_singleton Hi. split; [|auto].
    destruct (Hid id Hi) as (w & m & Hh & _). by eexists.
Qed.

Lemma add_holders_old id ws (hs : gmap Z (write_spec * @frozen_mutation D)) y :
  y < id -> add_holders id ws hs !! y = hs !! y.
Proof. intros H. rewrite add_holders_lookup, decide_False; [done|lia]. Qed.

Lemma write_batch_ok k (s : @system D) ws :
  sys_ok k s -> event_fine (EvWrite ws) ->
  exists s', write_batch get_datacenter total_memory me ws s = Ok s' /\ sys_ok k s'.
Proof.
  intros Hs He. unfold write_batch. set (n0 := next_response_id (proxy s)).
  set (hs := add_holders n0 ws (holders s)).
  assert (Hold : forall id, id < n0 -> hs !! id = holders s !! id) by (intros; by apply add_holders_old).
  set (good := granted (Sys (proxy s) (memtables s) [] [] hs [] ∅ (acked s) [])).
  pose proof (event_created ws He) as Hcp. rewrite Forall_forall in Hcp.
  assert (Hp0 : prepared is_local get_datacenter good (proxy s) [] (proxy s)).
  { split; [|rewrite Zlen_nil; lia|apply unseen_refl|by intros [] w].
    eapply proxy_ok_mono, Hs. intros id v. by apply granted_old with (k := k). }
  destruct (prepare_ok is_local get_datacenter total_memory good ws.*1 (proxy s) [] (proxy s))
    as (r & p & Hpr & Hcase); [exact (sy_next _ _ _ _ _ _ Hs)|done| | |].
  { rewrite created_pairs_fst. apply Forall_fmap, Forall_forall. intros x Hx. by apply Hcp. }
  { intros i w Hi Hany. rewrite created_pairs_fst, list_lookup_fmap in Hi.
    apply fmap_Some in Hi as ([w' m] & Hi & ->).
    assert (Hhs : hs !! (n0 + Z.of_nat i) = Some (w', m)).
    { pose proof Hi as Hlt%lookup_lt_Some. unfold hs.
      rewrite add_holders_lookup, decide_True by (unfold Zlen; lia).
      by replace (Z.to_nat (n0 + Z.of_nat i - n0)) with i by lia. }
    split; [right; split; [done|]|]; exists w', m; split; try done. by left. }
  cbn [app] in *. change (seqZ (next_response_id (proxy s)) (Zlen [])) with (@nil Z) in Hpr. rewrite Hpr.
  destruct Hcase as [(-> & Hpp & Hlen)|(-> & Hok & Hu & Hn & Hfr)].
  - set (ids := seqZ _ _).
    assert (Hz : (zip ids (ws_hints <$> created ws.*1)).*1 = ids).
    { apply fst_zip. unfold ids, Zlen. rewrite length_seqZ, length_fmap. lia. }
    destruct (begin_all_ok is_local get_datacenter total_memory good me (get_datacenter me)
      (zip ids (ws_hints <$> created ws.*1)) p) as (ss & p' & Hb & Hp' & Ht & Hn & Hu & Hr & Hpd & Hat & Hct & Htok);
      [apply Hpp|rewrite Hz; apply NoDup_seqZ| |].
    { apply Forall_forall. intros [id h] Hx. cbn. split.
      - apply (list_elem_of_fmap_2 fst) in Hx. rewrite Hz in Hx. apply elem_of_seqZ in Hx. cbn [fst] in Hx.
        destruct (lookup_lt_is_Some_2 (created ws.*1) (Z.to_nat (id - n0))) as [w Hw];
          [unfold Zlen, n0 in *; lia|]. destruct (pr_new _ _ _ _ _ _ Hpp _ _ Hw) as [H1 _].
        by replace (next_response_id (proxy s) + Z.of_nat (Z.to_nat (id - n0))) with id in H1
          by (unfold n0; lia).
      - apply elem_of_zip_r, list_elem_of_fmap in Hx as (w & -> & Hw).
        rewrite created_pairs_fst in Hw. apply list_elem_of_fmap in Hw as (x & -> & Hw). by apply Hcp. }
    rewrite Hz in Hu, Hat, Htok. rewrite Hb. eexists. split; [done|].
    apply batch_change; [done| |exact Hp']. by eapply begun_fresh.
  - eexists. split; [done|]. rewrite <- (app_nil_r (net s)), <- (app_nil_r (contacts s)), <- (app_nil_r (batches s)).
    apply batch_change; [done| |exact Hok]. pose proof (Zlen_nonneg (created ws.*1)).
    split; try done; try (by intros ? ?%elem_of_nil); try (by intros ? ? ?%elem_of_nil); [lia| | |constructor|].
    + intros id x Hx Hge. unfold hs in Hx. rewrite add_holders_lookup in Hx.
      case_decide as Hd; [|destruct (sy_holders _ _ _ _ _ _ Hs _ _ Hx) as [? _]; lia].
      split; [|apply list_elem_of_lookup_2 in Hx; by apply Hcp].
      rewrite Hn. unfold n0, Zlen in *. rewrite created_pairs_fst, length_fmap. lia.
    + intros id Hge. destruct (Hfr id Hge) as [-> _]. done.
    + intros id Hi Hge. by destruct (Hfr id Hge) as [_ ?].
Qed.

(** ** Every event *)

(** What an event may come to. *)
Definition outcome_ok (k : Z) (s : @system D) (o : outcome) : Prop :=
  match o with
  | Ok s' => sys_ok k s'
  | Blocked => True
  | ReplicaCrash => exists r m, memtable_apply empty_data cf_is_data m (memtable_of r s) = None
  | ProxyCrash => False
  end.

Lemma local_step k (s : @system D) i :
  sys_ok k s -> 0 <= k < 2 ^ 31 - 1 -> outcome_ok (k + 1) s (step (EvLocal i) s).
Proof.
  intros Hs Hk. cbn [PortSystem.step].
  destruct (contacts s !! i) as [[id to]|] eqn:Hi; [|done].
  destruct (holders s !! id) as [[w m]|] eqn:Hh; [|done].
  destruct (local_versions s !! id) eqn:Hl; [done|].
  destruct (Z.eqb_spec to me) as [->|]; [|done]. unfold on_replica.
  destruct (memtable_apply _ _ m _) as [[mt c]|] eqn:Ha; [|cbn; eauto].
  assert (Hin : (id, me) ∈ tokens me s).
  { rewrite (tokens_contact s i _ Hi). cbn. rewrite decide_True by done. left. }
  destruct (token_holder k s id me Hs Hin) as (w' & m' & Hh' & Hw). rewrite Hh in Hh'.
  injection Hh' as <- <-. apply local_change; [by eapply applied|left].
Qed.

Lemma deliver_step k (s : @system D) i :
  sys_ok k s -> 0 <= k < 2 ^ 31 - 1 -> outcome_ok (k + 1) s (step (EvDeliver i) s).
Proof.
  intros Hs Hk. cbn [PortSystem.step].
  destruct (net s !! i) as [[id to f m|id from v]|] eqn:Hi; [| |done].
  - unfold on_replica. change (memtable_of to (set_net (delete i (net s)) s)) with (memtable_of to s).
    destruct (memtable_apply _ _ m _) as [[mt c]|] eqn:Ha; [|cbn; eauto].
    destruct (token_holder k s id to Hs) as (w & m' & Hh & Hw).
    { rewrite (tokens_net s i _ Hi). left. }
    pose proof (sy_net _ _ _ _ _ _ Hs _ (list_elem_of_lookup_2 _ _ _ Hi)) as Hm. cbn in Hm.
    rewrite Hh in Hm. injection Hm as ->.
    apply (net_replace (k + 1) (add_acked (id, to, c) (late_at empty_data to m s) (set_memtable to mt s))
      i (Mutation id to f m));
      [by eapply applied|done| |].
    + intros msg [->|(x & -> & _)%list_elem_of_fmap]%elem_of_cons; [left|]. cbn. by rewrite Hh.
    + rewrite bind_cons, forwards_tokens. done.
  - destruct (response_over k s i id from v Hs Hi) as (p' & -> & Hs'). eapply sys_ok_mono, Hs'. lia.
Qed.

Lemma step_ok k (s : @system D) ev :
  sys_ok k s -> 0 <= k < 2 ^ 31 - 1 -> event_fine ev -> outcome_ok (k + 1) s (step ev s).
Proof.
  intros Hs Hk Hf. pose proof Hf as [He _]. assert (Hup : forall s', sys_ok k s' -> sys_ok (k + 1) s').
  { intros s'. apply sys_ok_mono. lia. }
  destruct ev as [ws|i|i|i|i|i|i|id hints|r m|r key t|r key p]; cbn [outcome_ok].
  - cbn [PortSystem.step]. destruct (write_batch_ok k s ws Hs Hf) as (s' & -> & H). by apply Hup.
  - exact (local_step k s i Hs Hk).
  - destruct (contacts s !! i) as [c|] eqn:Hi; [|cbn; by rewrite Hi].
    destruct (contact_over k s i Hs) as (id & t & n & p' & -> & _ & Hs'); [by rewrite Hi|]. by apply Hup.
  - exact (deliver_step k s i Hs Hk).
  - cbn [PortSystem.step]. destruct (net s !! i) as [[id to f m|id from v]|] eqn:Hi; [|done..].
    apply Hup, (net_replace k s i (Mutation id to f m)); [done|done| |].
    + intros msg Hmsg. pose proof (sy_net _ _ _ _ _ _ Hs _ (list_elem_of_lookup_2 _ _ _ Hi)) as Hok.
      by apply elem_of_cons in Hmsg as [->|(x & -> & _)%list_elem_of_fmap].
    + rewrite bind_cons, forwards_tokens. done.
  - cbn [PortSystem.step]. destruct (net s !! i) as [[id to f m|id from v]|] eqn:Hi; [|done..].
    apply Hup, (net_replace k s i (Mutation id to f m)); [done|done| |].
    + intros msg (x & -> & _)%list_elem_of_fmap.
      exact (sy_net _ _ _ _ _ _ Hs _ (list_elem_of_lookup_2 _ _ _ Hi)).
    + rewrite forwards_tokens. by apply submseteq_cons.
  - cbn [PortSystem.step]. destruct (net s !! i) as [msg|] eqn:Hi; [|done].
    apply Hup. rewrite <- (app_nil_r (delete i (net s))). apply (net_replace k s i msg); try done.
    by intros m ?%elem_of_nil. apply submseteq_nil_l.
  - cbn [PortSystem.step]. case_decide as Hd; [|done]. destruct Hd as [Ht Hw].
    destruct (expire_moved is_local get_datacenter total_memory (granted s) id hints (proxy s))
      as (p' & -> & Hm & Hnt); [apply Hs|done|done|].
    cbn. apply Hup, (moved_change k s id ∅ (refs (proxy s) id)); try done; try apply Hs.
    symmetry. apply Hs.
  - cbn [PortSystem.step]. destruct (memtable_apply _ _ m _) as [[mt c]|] eqn:Ha; [|cbn; eauto].
    destruct (memtable_apply_ok _ _ m _ mt c k (sy_memtables _ _ _ _ _ _ Hs r) Hk He Ha) as (H1 & _ & _ & _ & H3).
    by apply memtable_change.
  - cbn [PortSystem.step]. destruct (make_flat_reader_ok empty_data key t _ k (sy_memtables _ _ _ _ _ _ Hs r) Hk He) as (mt & o & -> & H1 & H2).
    by apply memtable_change.
  - cbn [PortSystem.step]. destruct (reader_destroy_ok empty_data key p _ k (sy_memtables _ _ _ _ _ _ Hs r) Hk). by apply memtable_change.
Qed.

End system.
