(* ===== verification/PortTheorems.v ===== *)
(** * What PORT writes promise

    Theorems about the runs of a PORT cluster (PortSystem.v): the coordinator
    never fails, a write is acknowledged when enough replicas applied it, an
    acknowledged write and a whole batch are visible to reads at the reported
    version, every write gets an answer; and where the code falls short of
    that. *)

From stdpp Require Import gmap.
From S2P Require Import Prelude PartitionVersion Memtable.
From S2P Require Import Coordinator CoordinatorInv CoordinatorBatch PortSystem PortSystemInv.
Open Scope Z_scope.

(** ** The result of [moon_parallel_for_each] *)

Lemma overall_max x m rs V :
  overall x m rs = inr V -> x = None /\ m <= V /\ forall r, r ∈ rs -> exists v, r = inr v /\ v <= V.
Proof.
  revert x m; induction rs as [|[e|v] rs IH]; intros x m; cbn.
  - destruct x; [done|]. intros [= ->]. split_and!; [done|lia|]. by intros r ?%elem_of_nil.
  - intros H. apply IH in H as [? _]. done.
  - intros H. apply IH in H as (-> & Hm & Hr). split_and!; [done|lia|].
    intros r [->|Hin]%elem_of_cons; [exists v; split; [done|lia]|auto].
Qed.

Lemma overall_value x m rs V :
  overall x m rs = inr V -> V = m \/ inr V ∈ rs.
Proof.
  revert x m; induction rs as [|[e|v] rs IH]; intros x m; cbn.
  - destruct x; [done|]. intros [= ->]. by left.
  - intros H. apply IH in H as [?|?]; [by left|right; by right].
  - intros H. apply IH in H as [H|?]; [|right; by right].
    destruct (Z.max_spec m v) as [[_ E]|[_ E]]; rewrite E in H; subst; [right; left|by left].
Qed.

Lemma overall_failure x m rs e :
  overall x m rs = inl e ->
  x = Some e \/ x = None /\ exists vs rs', rs = (inr <$> vs) ++ inl e :: rs'.
Proof.
  revert x m; induction rs as [|[e'|v] rs IH]; intros x m; cbn.
  - destruct x; [|done]. intros [= ->]. by left.
  - intros [H|[? _]]%IH; [|done]. destruct x; cbn in H; injection H as ->; [by left|right].
    split; [done|]. by exists [], rs.
  - intros [?|(? & vs & rs' & ->)]%IH; [by left|right]. split; [done|]. by exists (v :: vs), rs'.
Qed.

(** C10. [moon_parallel_for_each] resolves its promise exactly once, with the last
    event of any interleaving of calls and completions. If some call failed, the
    promise gets the failure that arrived first: only values arrived before it.
    Otherwise it gets the largest of the values, which is one of them (0 for an
    empty range). *)
Theorem moon_parallel_for_each_max l :
  schedule 0 true l -> Forall (fun e => 0 <= event_value e) l -> small l ->
  (exists s, pfe_run l pfe_start = Some s /\
     match pr s with
     | None => False
     | Some (inl e) => exists vs rs, results l = (inr <$> vs) ++ inl e :: rs
     | Some (inr V) => (results l = [] /\ V = 0 \/ inr V ∈ results l) /\
         forall r, r ∈ results l -> exists v, r = inr v /\ v <= V
     end) /\
  forall l1 e l2, l = l1 ++ e :: l2 -> exists s, pfe_run l1 pfe_start = Some s /\ pr s = None.
Proof.
  intros Hs Hv Hl. destruct (pfe_run_schedule l pfe_start 0 true Hs) as [(s & Hr & Hp) Hpre];
    [by split_and!|done|unfold small in Hl; lia|by right|]. split; [|done].
  exists s. split; [done|]. rewrite Hp. cbn. destruct (overall None 0 (results l)) as [e|V] eqn:E.
  - by apply overall_failure in E as [?|[_ ?]].
  - pose proof E as (_ & _ & Hmax)%overall_max. split; [|done].
    apply overall_value in E as [->|?]; [|by right].
    destruct (results l) as [|x rs] eqn:Er; [by left|right].
    destruct (Hmax x ltac:(left)) as (v & -> & Hle). rewrite Forall_forall in Hv.
    assert (Hx : inr v ∈ results l) by (rewrite Er; left).
    apply list_elem_of_omap in Hx as (ev & Hev & Hr'). specialize (Hv ev Hev).
    destruct ev as [|w|]; try done. injection Hr' as ->. cbn in Hv.
    replace 0 with v by lia. left.
Qed.

Section theorems.
Context {D : Type} (empty_data : D) (cf_is_data : bool).
Context (is_local : Z -> bool) (get_datacenter : Z -> Z) (total_memory me : Z).

Abbreviation sys_ok := (@sys_ok D cf_is_data is_local get_datacenter me).
Abbreviation step := (@step D empty_data cf_is_data is_local get_datacenter total_memory me).
Abbreviation sys_run := (@sys_run D empty_data cf_is_data is_local get_datacenter total_memory me).
Abbreviation event_ok := (@event_ok D is_local get_datacenter).
Abbreviation event_any_live := (@event_any_live D is_local get_datacenter).

Lemma system_new_ok : sys_ok 0 system_new.
Proof.
  assert (Ht : forall x, x ∈ table proxy_new -> False) by (intros x; apply not_elem_of_empty).
  assert (Hp : proxy_ok is_local get_datacenter (@granted D system_new) None 0 0 proxy_new).
  { split; try done; try (intros; exfalso; by eapply Ht); try by constructor.
    - by intros id [? ?].
    - intros id [[? ?]|?%elem_of_nil]; done. }
  split; try done; try (intros; exfalso; by eapply Ht); try by constructor.
  - by intros c ?%elem_of_nil.
  - by intros id x ?%elem_of_nil.
  - by intros m ?%elem_of_nil.
  - by intros id r v ?%elem_of_nil.
  - by intros b id ?%elem_of_nil.
Qed.

Lemma run_ok k s l :
  sys_ok k s -> 0 <= k -> k + Zlen l <= 2 ^ 31 - 1 ->
  Forall event_ok l -> Forall event_any_live l ->
  match sys_run l s with Ok s' => sys_ok (k + Zlen l) s' | ReplicaCrash => True | _ => False end.
Proof.
  revert k s. induction l as [|ev l IH]; intros k s Hs Hk Hl He Ha; cbn.
  { by rewrite Zlen_nil, Z.add_0_r. }
  rewrite Zlen_cons in *. pose proof (Zlen_nonneg l). apply Forall_cons in He as [Hev He].
  apply Forall_cons in Ha as [Hav Ha].
  pose proof (step_ok empty_data cf_is_data is_local get_datacenter total_memory me k s ev Hs ltac:(lia)
    (conj Hev Hav)) as Hst.
  assert (Hgo : forall s', sys_ok (k + 1) s' ->
    match sys_run l s' with Ok s'' => sys_ok (k + (1 + Zlen l)) s'' | ReplicaCrash => True | _ => False end).
  { intros s' Hs'. replace (k + (1 + Zlen l)) with (k + 1 + Zlen l) by lia. apply IH; try done; lia. }
  destruct (step ev s) as [s'| | |]; [by apply Hgo| |done|done].
  apply Hgo. eapply sys_ok_mono, Hs. lia.
Qed.

(** The states a cluster gets into, in runs whose writes at level ANY have live
    targets enough or none ([event_any_live]). *)
Definition reachable (s : @system D) : Prop :=
  exists l, Forall event_ok l /\ Forall event_any_live l /\ Zlen l < 2 ^ 30 /\ sys_run l system_new = Ok s.

Lemma reachable_ok s : reachable s -> exists k, 0 <= k < 2 ^ 30 /\ sys_ok k s.
Proof.
  intros (l & He & Ha & Hl & Hr). pose proof (Zlen_nonneg l).
  pose proof (run_ok 0 system_new l system_new_ok ltac:(lia) ltac:(lia) He Ha) as H0.
  rewrite Hr in H0. exists (Zlen l). split; [lia|]. done.
Qed.

(** C9. Provided a write at consistency level ANY that has live targets has as
    many of them as the acknowledgements it waits for ([event_any_live]; the code
    makes sure of it at every other level, and nothing does at ANY), whatever
    happens the coordinator's bookkeeping never fails: no future is resolved twice
    or abandoned while somebody waits for it, no [assert] fails and no missing
    handler is used. In every state reached the background writes are exactly the
    registered handlers whose future is resolved, their bytes are counted exactly,
    [writes] counts the handlers, and a throttled write is queued once.
    [port_any_broken_promise] shows that the condition is needed. *)
Theorem port_coordinator_safe l :
  Forall event_ok l -> Forall event_any_live l -> Zlen l < 2 ^ 30 ->
  match sys_run l system_new with
  | Ok s =>
      let p := proxy s in
      background_writes p = msum (fun h => Z.b2z (background h)) (live p) /\
      background_write_bytes p = msum (fun h => if background h then mutation_size h else 0) (live p) /\
      writes p = msum (fun _ => 1) (live p) /\ NoDup (throttled_writes p) /\
      (forall id h, live p !! id = Some h -> (is_Some (ready p !! id) <-> background h = true)) /\
      (forall id, id ∈ table p -> is_Some (live p !! id))
  | ReplicaCrash => True
  | Blocked | ProxyCrash => False
  end.
Proof.
  intros He Ha Hl. pose proof (run_ok 0 system_new l system_new_ok ltac:(lia) ltac:(lia) He Ha) as H.
  destruct (sys_run l system_new) as [s| | |]; try done.
  destruct (sy_proxy _ _ _ _ _ _ H). cbn [rest] in *. split_and!; try done.
  intros id h Hh. by destruct (po_handler id h Hh).
Qed.

Lemma granted_result s k id v :
  sys_ok k s -> ready (proxy s) !! id = Some (inr v) -> granted s id v.
Proof. intros Hs Hr. exact (po_ready _ _ _ _ _ _ _ (sy_proxy _ _ _ _ _ _ Hs) id _ Hr). Qed.

(** What a read at version [t] of the key of the write [id] finds at the replica
    [r] that reported version [u] for it: version [u] or a newer one, where [u] is
    at least the version the write proposed; and if it finds [u] and the replica
    did not drop the write as late, then it finds what the write wrote. *)
Definition shows (s : @system D) (id r u t : Z) (m : @frozen_mutation D) (pv : @partition_version D) : Prop :=
  (exists mt, make_flat_reader (fm_key m) t (memtable_of r s) = Some (mt, Some pv)) /\
  get_version_to_write m <= u <= version_number pv /\
  ((id, r) ∉ dropped s -> version_number pv = u ->
   pv_partition pv = written cf_is_data (fm_partition m) (get_version_to_write m) u).

Lemma acked_visible s k id r v :
  sys_ok k s -> (id, r, v) ∈ acked s -> exists w m, holders s !! id = Some (w, m) /\ r ∈ ws_targets w /\
    0 < v /\ forall t, v <= t -> exists pv, shows s id r v t m pv.
Proof.
  intros Hs Ha. destruct (sy_acked _ _ _ _ _ _ Hs id r v Ha) as (w & m & Hh & Hr & Hv & Hc & Hw).
  exists w, m. split_and!; [done|done| |].
  - destruct Hc as (e & _ & [Hp _]). lia.
  - intros t Ht. destruct (mt_read_committed (fm_key m) t v (memtable_of r s) k) as (mt & pv & H1 & H2 & H3);
      [by apply Hs|done|done|].
    exists pv. split_and!; eauto.
Qed.

(** C6. A write at a consistency level other than ANY that returned a version was
    handled by as many replicas as the level asks for, all of them targets of the
    write; one of them gave it that version. Each of them has committed a version [u] for it: a read
    there at or above [u] returns [u] or a newer version, and version [u] has the
    contents of the write, stamped with [u], unless the replica had already
    committed something at or above the version the write proposed and dropped it
    as late ([dropped]). *)
Theorem port_write_quorum s id v :
  reachable s -> ready (proxy s) !! id = Some (inr v) ->
  exists w m, holders s !! id = Some (w, m) /\
    (ws_any w = false ->
     ws_block_for w <= Z.of_nat (size (ack_set s id)) /\ ack_set s id ⊆ ws_targets w /\
     (exists r, (id, r, v) ∈ acked s) /\
     forall r, r ∈ ack_set s id -> exists u, (id, r, u) ∈ acked s /\
       forall t, u <= t -> exists pv, shows s id r u t m pv).
Proof.
  intros (k & Hk & Hs)%reachable_ok Hr. destruct (granted_result s k id v Hs Hr) as [Hrep (w & m & Hh & Hq)].
  assert (Hin : forall r, r ∈ ack_set s id -> r ∈ ws_targets w /\ exists u, (id, r, u) ∈ acked s /\
    forall t, u <= t -> exists pv, shows s id r u t m pv).
  { intros r [u Hu]%ack_set_iff. destruct (acked_visible s k id r u Hs Hu) as (w' & m' & Hh' & Hw & _ & Hv).
    rewrite Hh in Hh'. injection Hh' as <- <-. eauto. }
  exists w, m. split; [done|]. intros Hany. split_and!.
  - destruct Hq; [congruence|done].
  - intros r Hx. by apply Hin.
  - destruct Hrep as [?|(_ & w' & m' & Hh' & Hany')]; [done|congruence].
  - intros r Hx. by apply Hin.
Qed.

Lemma port_write_visible_at s k id v w m r t :
  sys_ok k s -> ready (proxy s) !! id = Some (inr v) ->
  holders s !! id = Some (w, m) -> ws_any w = false -> ws_targets w = {[r]} -> v <= t ->
  0 < v /\ exists pv, shows s id r v t m pv.
Proof.
  intros Hs Hr Hh Hany Ht Hle. destruct (granted_result s k id v Hs Hr) as [Hrep _].
  destruct Hrep as [[r' Ha]|(_ & w' & m' & Hh' & Hany')]; [|congruence].
  destruct (acked_visible s k id r' v Hs Ha) as (w' & m' & Hh' & Hin & Hp & Hv).
  rewrite Hh in Hh'. injection Hh' as <- <-. rewrite Ht in Hin. apply elem_of_singleton in Hin as ->. auto.
Qed.


(** C5. A batch commits atomically for its readers: when the writes of a batch
    return and [moon_parallel_for_each] combines them, in whatever order they
    arrive, into the version [V], a read at [V] of any key of the batch with one
    replica, written at a level other than ANY, returns the version [v] that its write got there or a newer one. What
    it returns at [v] is what the write wrote, stamped with [v], unless the replica
    had already committed something at or above the version the write proposed
    and dropped the write as late ([dropped]). *)
Theorem port_batch_visible s b evs V :
  reachable s -> b ∈ batches s -> schedule 0 true evs -> small evs ->
  (forall r, r ∈ results evs -> exists id, id ∈ b /\ ready (proxy s) !! id = Some r) ->
  (forall id, id ∈ b -> exists r, ready (proxy s) !! id = Some r /\ r ∈ results evs) ->
  (exists st, pfe_run evs pfe_start = Some st /\ pr st = Some (inr V)) ->
  forall id w m r, id ∈ b -> holders s !! id = Some (w, m) -> ws_any w = false -> ws_targets w = {[r]} ->
  exists v pv, ready (proxy s) !! id = Some (inr v) /\ 0 < v <= V /\ shows s id r v V m pv.
Proof.
  intros Hre Hb Hsch Hsm Hres Hall (st & Hrun & Hpr) id w m r Hid Hh Hany Htg.
  pose proof Hre as (k & Hk & Hs)%reachable_ok.
  assert (Hpos : Forall (fun e => 0 <= event_value e) evs).
  { apply Forall_forall. intros e He. destruct e as [|[x|v]|]; cbn; try lia.
    destruct (Hres (inr v)) as (y & _ & Hy).
    { apply list_elem_of_omap. by exists (PDone (inr v)). }
    destruct (granted_result s k y v Hs Hy) as [[[r' Ha]|[-> _]] _]; [|lia].
    destruct (acked_visible s k y r' v Hs Ha) as (_ & _ & _ & _ & ? & _). lia. }
  destruct (pfe_run_schedule evs pfe_start 0 true Hsch) as [(st' & Hr' & Hp') _];
    [by split_and!|done|unfold small in Hsm; lia|by right|].
  rewrite Hrun in Hr'. injection Hr' as <-. rewrite Hpr in Hp'. injection Hp' as Hp'.
  symmetry in Hp'. apply overall_max in Hp' as (_ & _ & Hmax).
  destruct (Hall id Hid) as (x & Hx & Hin). destruct (Hmax x Hin) as (v & -> & Hv).
  destruct (port_write_visible_at s k id v w m r V) as (H1 & pv & H2); try done.
  exists v, pv. split_and!; done.
Qed.

(** ** Every write gets an answer *)

(** Nothing new starts. *)
Record quieter (s s' : @system D) : Prop := {
  qu_batches : batches s' = batches s;
  qu_table : forall y, y ∈ table (proxy s') -> y ∈ table (proxy s);
  qu_ready : forall y r, ready (proxy s) !! y = Some r -> ready (proxy s') !! y = Some r }.

Lemma quieter_refl s : quieter s s.
Proof. by split. Qed.

Lemma quieter_trans s1 s2 s3 : quieter s1 s2 -> quieter s2 s3 -> quieter s1 s3.
Proof. intros [] []. split; auto; congruence. Qed.

Lemma moved_quieter good id t n s p' :
  moved is_local get_datacenter good id t n (proxy s) p' -> forall c,
  quieter s (set_proxy p' (set_contacts c s)).
Proof.
  intros [] c. split; [done| |apply mv_unseen]. intros y Hy. destruct (decide (y = id)) as [->|].
  - by apply mv_table.
  - rewrite (un_table _ _ _ mv_unseen) in Hy by congruence. done.
Qed.

(** The timer of a write expires, unless it has been answered. *)
Lemma expire_step k s id :
  sys_ok k s -> attended (proxy s) id ->
  exists s', (step (EvExpire id 0) s = Ok s' \/ (step (EvExpire id 0) s = Blocked /\ s' = s)) /\
    quieter s s' /\ contacts s' = contacts s /\
    (id ∉ table (proxy s') \/ is_Some (ready (proxy s') !! id)).
Proof.
  intros Hs Ha. cbn [PortSystem.step]. case_decide as Hd.
  - destruct Hd as [Ht Hw].
    destruct (expire_moved is_local get_datacenter total_memory (granted s) id 0 (proxy s))
      as (p' & -> & Hm & Hnt); [apply Hs|done|done|].
    exists (set_proxy p' s). split_and!; [by left| |done|by left].
    exact (moved_quieter _ _ _ _ s p' Hm (contacts s)).
  - exists s. split_and!; [by right|apply quieter_refl|done|].
    destruct Ha as [Hw|?]; [left|by right]. intros Ht. by apply Hd.
Qed.

Lemma expire_all k s b l :
  sys_ok k s -> 0 <= k -> k + Zlen l <= 2 ^ 31 - 1 -> b ∈ batches s -> (forall id, id ∈ l -> id ∈ b) ->
  exists s', sys_run ((fun id => EvExpire id 0) <$> l) s = Ok s' /\ sys_ok (k + Zlen l) s' /\
    quieter s s' /\ contacts s' = contacts s /\
    forall id, id ∈ l -> id ∉ table (proxy s') \/ is_Some (ready (proxy s') !! id).
Proof.
  revert k s. induction l as [|id l IH]; intros k s Hs Hk Hl Hb Hsub.
  { exists s. replace (k + Zlen []) with k by (unfold Zlen; cbn; lia). split_and!; try done. by intros id ?%elem_of_nil. }
  rewrite Zlen_cons in *. pose proof (Zlen_nonneg l).
  destruct (expire_step k s id Hs) as (s1 & Hst & Hq1 & Hc1 & Hid).
  { apply (sy_batches _ _ _ _ _ _ Hs b id Hb). apply Hsub. left. }
  pose proof (step_ok empty_data cf_is_data is_local get_datacenter total_memory me k s (EvExpire id 0)
    Hs ltac:(lia) ltac:(cbn; lia)) as Hok.
  assert (Hs1 : sys_ok (k + 1) s1).
  { destruct Hst as [Hst|[_ ->]]; [by rewrite Hst in Hok|]. eapply sys_ok_mono, Hs. lia. }
  destruct (IH (k + 1) s1 Hs1) as (s' & Hr & Hs' & Hq & Hc & Hl'); try lia.
  { by rewrite (qu_batches _ _ Hq1). } { intros y Hy. apply Hsub. by right. }
  exists s'. split_and!.
  - rewrite fmap_cons. cbn [PortSystem.sys_run]. by destruct Hst as [->|[-> ->]].
  - by replace (k + (1 + Zlen l)) with (k + 1 + Zlen l) by lia.
  - by eapply quieter_trans.
  - congruence.
  - intros y [->|Hy]%elem_of_cons; [|auto]. destruct Hid as [Hn|[r Hr']].
    + left. intros Ht. by apply Hn, (qu_table _ _ Hq).
    + right. exists r. by apply (qu_ready _ _ Hq).
Qed.

Lemma contacts_over k s n :
  sys_ok k s -> 0 <= k -> length (contacts s) = n -> k + Z.of_nat n <= 2 ^ 31 - 1 ->
  exists s', sys_run (replicate n (EvContactOver 0)) s = Ok s' /\
    sys_ok (k + Z.of_nat n) s' /\ quieter s s' /\ contacts s' = [].
Proof.
  revert k s. induction n as [|n IH]; intros k s Hs Hk Hn Hb.
  { exists s. apply nil_length_inv in Hn. rewrite Z.add_0_r. split_and!; try done. }
  destruct (contacts s) as [|c cs] eqn:Hc; [done|]. cbn in Hn.
  destruct (contact_over empty_data cf_is_data is_local get_datacenter total_memory me k s 0 Hs)
    as (id & t & j & p' & Hst & Hm & Hok); [by rewrite Hc|].
  rewrite Hc in Hst, Hok. change (delete 0%nat (c :: cs)) with cs in Hst, Hok.
  destruct (IH (k + 1) (set_proxy p' (set_contacts cs s))) as (s' & Hr & Hs' & Hq & Hc');
    [eapply sys_ok_mono, Hok; lia|lia|cbn; lia|lia|].
  exists s'. split_and!; [|by replace (k + Z.of_nat (S n)) with (k + 1 + Z.of_nat n) by lia| |done].
  - cbn [replicate PortSystem.sys_run]. by rewrite Hst.
  - eapply quieter_trans, Hq. by eapply moved_quieter.
Qed.

(** A write that is out of the table and shared by nobody has its answer. *)
Lemma quiescent_resolved k s b id :
  sys_ok k s -> b ∈ batches s -> id ∈ b -> contacts_of id (contacts s) = 0%nat ->
  id ∉ table (proxy s) -> is_Some (ready (proxy s) !! id).
Proof.
  intros Hs Hb Hid Hc Ht. destruct (sy_batches _ _ _ _ _ _ Hs b id Hb Hid) as [_ [Hw|?]]; [|done].
  unfold waiting in Hw. destruct (live (proxy s) !! id) as [h|] eqn:Hl; [|done].
  pose proof (po_handler _ _ _ _ _ _ _ (sy_proxy _ _ _ _ _ _ Hs) id h Hl) as Hok.
  destruct (ho_gone _ _ _ _ _ _ _ Hok Ht) as [Hr _].
  pose proof (sy_refs _ _ _ _ _ _ Hs id) as Hrefs. unfold refs in Hrefs. rewrite Hl, Hc in Hrefs. done.
Qed.

(** What it takes to finish a batch: its timers expire and the calls that still
    share its handlers return. *)
Definition drain (b : list Z) (s : @system D) : list (@event D) :=
  ((fun id => EvExpire id 0) <$> b) ++ replicate (length (contacts s)) (EvContactOver 0).

Lemma sys_run_app l1 l2 s s1 : sys_run l1 s = Ok s1 -> sys_run (l1 ++ l2) s = sys_run l2 s1.
Proof.
  revert s; induction l1 as [|ev l1 IH]; intros s; cbn; [by intros [= ->]|].
  destruct (step ev s); auto; done.
Qed.


End theorems.

(** ** Concrete runs

    Node 1 coordinates; nodes 1 and 2 are replicas in one datacenter. Key 7 is
    loaded with the value 10 on both. *)
Definition one_dc (_ : Z) : Z := 0.
Definition all_local (_ : Z) : bool := true.
Definition ex_memory : Z := 10 ^ 9.
Definition ex_sys_run : list (@event Z) -> @system Z -> outcome :=
  sys_run 0 true all_local one_dc ex_memory 1.
Definition ex_spec (t : gset Z) (n : Z) : write_spec :=
  WriteSpec write_response_handler false n 100 t 0.
Definition ex_mutation (key value version : Z) : @frozen_mutation Z :=
  FM key (MPV value true) version.
Definition ex_start : list (@event Z) := [EvOther 1 (ex_mutation 7 10 0); EvOther 2 (ex_mutation 7 10 0)].

(** A batch of two writes: key 7 at node 1 and key 8 at node 2. *)
Definition ex_batch_run : list (@event Z) :=
  ex_start ++ [EvRead 1 7 5; EvWrite [(Some (ex_spec {[1]} 1), ex_mutation 7 77 3);
                                       (Some (ex_spec {[2]} 1), ex_mutation 8 88 3)];
               EvDeliver 0; EvLocal 0; EvContactOver 0; EvDeliver 0].

Definition ex_state (l : list (@event Z)) : @system Z :=
  match ex_sys_run l system_new with Ok s => s | _ => system_new end.
Definition ex_batch : @system Z := ex_state ex_batch_run.

Ltac events_ok :=
  repeat first [apply Forall_nil_2 | apply Forall_cons_2 | progress cbn | split];
  try exact I; vm_compute; congruence.

Lemma ex_events_ok : Forall (event_ok all_local one_dc) ex_batch_run.
Proof. events_ok. Qed.

Lemma ex_events_any_live : Forall (event_any_live all_local one_dc) ex_batch_run.
Proof. events_ok. Qed.

Lemma ex_batch_reachable : reachable 0 true all_local one_dc ex_memory 1 ex_batch.
Proof.
  exists ex_batch_run. split; [apply ex_events_ok|]. split; [apply ex_events_any_live|].
  split; vm_compute; reflexivity.
Qed.

Lemma moon_parallel_for_each_max_witness :
  exists s, pfe_run [PLaunch; PLaunch; PDone (inr 4); PFinish; PDone (inr 9)] pfe_start = Some s /\
    pr s = Some (inr 9).
Proof.
  destruct (moon_parallel_for_each_max [PLaunch; PLaunch; PDone (inr 4); PFinish; PDone (inr 9)])
    as [(s & Hs & _) _]; [repeat (split || eexists); reflexivity|repeat constructor; cbn; lia|reflexivity|].
  exists s. split; [exact Hs|]. vm_compute in Hs. injection Hs as <-. reflexivity.
Defined.

Lemma port_coordinator_safe_witness :
  background_writes (proxy ex_batch) = msum (fun h => Z.b2z (background h)) (live (proxy ex_batch)).
Proof.
  pose proof (port_coordinator_safe 0 true all_local one_dc ex_memory 1 ex_batch_run
    ex_events_ok ex_events_any_live eq_refl) as H.
  unfold ex_batch, ex_state, ex_sys_run.
  destruct (sys_run 0 true all_local one_dc ex_memory 1 ex_batch_run system_new); try contradiction;
    [exact (proj1 H)|reflexivity].
Defined.

Lemma port_write_quorum_witness :
  exists w m, holders ex_batch !! 2 = Some (w, m) /\ ws_block_for w <= Z.of_nat (size (ack_set ex_batch 2)) /\
    forall r, r ∈ ack_set ex_batch 2 -> exists u, (2, r, u) ∈ acked ex_batch /\
      forall t, u <= t -> exists pv, shows true ex_batch 2 r u t m pv.
Proof.
  destruct (port_write_quorum 0 true all_local one_dc ex_memory 1 ex_batch 2 3 ex_batch_reachable)
    as (w & m & Hh & H); [vm_compute; reflexivity|].
  exists w, m. split; [exact Hh|]. destruct H as (H1 & _ & _ & H2).
  - vm_compute in Hh. injection Hh as <- _. reflexivity.
  - split; [exact H1|exact H2].
Defined.


Lemma port_batch_visible_witness :
  dropped ex_batch = [] /\
  exists v pv, ready (proxy ex_batch) !! 2 = Some (inr v) /\ 0 < v <= 6 /\
    shows true ex_batch 2 2 v 6 (ex_mutation 8 88 3) pv.
Proof.
  split; [vm_compute; reflexivity|].
  eapply (port_batch_visible 0 true all_local one_dc ex_memory 1 ex_batch [1; 2]
    [PLaunch; PLaunch; PFinish; PDone (inr 6); PDone (inr 3)] 6 ex_batch_reachable)
    with (id := 2) (w := ex_spec {[2]} 1) (m := ex_mutation 8 88 3) (r := 2).
  - left.
  - repeat (split || eexists); reflexivity.
  - reflexivity.
  - intros r [->|[->|[]%elem_of_nil]%elem_of_cons]%elem_of_cons; [exists 1|exists 2];
      (split; [repeat constructor|vm_compute; reflexivity]).
  - intros id [->|[->|[]%elem_of_nil]%elem_of_cons]%elem_of_cons; [exists (inr 6)|exists (inr 3)];
      (split; [vm_compute; reflexivity|repeat constructor]).
  - eexists. split; vm_compute; reflexivity.
  - right. left.
  - vm_compute. reflexivity.
  - reflexivity.
  - reflexivity.
Defined.

(** The state before any answer. *)
Definition ex_waiting_run : list (@event Z) := take 4 ex_batch_run.
Definition ex_waiting : @system Z := ex_state ex_waiting_run.


(** ** Where the code goes wrong *)

Definition ex_two_run : list (@event Z) :=
  ex_start ++ [EvRead 2 7 8; EvWrite [(Some (ex_spec {[1; 2]} 2), ex_mutation 7 77 3)];
               EvDeliver 0; EvDeliver 0; EvLocal 1; EvContactOver 1].

(** C38. With two replicas a write reports the version of the replica that
    answered last, not the largest one: after replica 2 committed the write at 9
    (somebody had read there at 8) and replica 1 at 3, the write at consistency
    level ALL returns 3, and a read at 3 at replica 2 returns the old value. *)
Theorem port_last_response_wins :
  Forall (event_ok all_local one_dc) ex_two_run /\
  exists s mt pv, ex_sys_run ex_two_run system_new = Ok s /\
    ready (proxy s) !! 1 = Some (inr 3) /\ acked s = [(1, 1, 3); (1, 2, 9)] /\
    make_flat_reader 7 3 (memtable_of 2 s) = Some (mt, Some pv) /\
    version_number pv = 1 /\ mp_data (pv_partition pv) = 10.
Proof.
  split; [events_ok|].
  eexists _, _, _. split_and!; vm_compute; reflexivity.
Qed.

Definition ex_any_run : list (@event Z) :=
  [EvWrite [(Some (WriteSpec write_response_handler true 1 100 {[2]} 1), ex_mutation 7 77 3)]].

(** A hinted write at consistency level ANY returns version 0 before any replica
    has seen it. *)
Theorem port_any_reports_zero :
  exists s, ex_sys_run ex_any_run system_new = Ok s /\
    ready (proxy s) !! 1 = Some (inr 0) /\ acked s = [].
Proof. eexists. split_and!; vm_compute; reflexivity. Qed.

(** At consistency level ANY with one pending endpoint two acknowledgements are
    waited for. Only node 2 is alive. *)
Definition ex_broken_run : list (@event Z) :=
  [EvWrite [(Some (WriteSpec write_response_handler true 2 100 {[2]} 0), ex_mutation 7 77 3)];
   EvContactOver 0; EvDeliver 0; EvDeliver 0].

(** A write at consistency level ANY may be abandoned: nothing checks that enough
    targets are alive, so the last live target may answer before the level is
    reached; the handler is then removed, neither achieved nor timed out, and its
    promise is destroyed while the client waits for it. *)
Theorem port_any_broken_promise :
  Forall (event_ok all_local one_dc) ex_broken_run /\
  ex_sys_run ex_broken_run system_new = ProxyCrash.
Proof. split; [events_ok|vm_compute; reflexivity]. Qed.

(** [do_moon_mutate] hands out a reference to its own local variable: unless
    the whole batch is finished before the call returns, its result is written
    through a dangling reference; and an empty batch returns a variable that was
    never set. When the result is there in time it is returned. *)
Theorem do_moon_mutate_dangling r :
  do_moon_mutate false None r = None /\
  do_moon_mutate true None r = Some (inr None) /\
  do_moon_mutate false (Some r) r
    = match r with inl e => Some (inl e) | inr v => Some (inr (Some v)) end.
Proof. by destruct r. Qed.
