(* ===== verification/DnsWire.v ===== *)
(** * The DNS wire format (c-ares)

    Models src/Scylla-moon/seastar/c-ares: the accessor macros of ares_dns.h,
    [name_length], [ares_expand_name] and [ares__expand_name_for_response] of
    ares_expand_name.c and [ares_expand_string] of ares_expand_string.c.

    A pointer into the message [abuf] is its offset; [alen] is the length of
    [abuf]. Reads outside the message, writes outside an allocated block and
    overflow of an [int] are undefined behaviour of the model. *)

From S2P Require Import Prelude.
Open Scope Z_scope.

(** ** Status codes of ares.h *)

Inductive status :=
| ARES_SUCCESS | ARES_ENODATA | ARES_EFORMERR | ARES_ESERVFAIL | ARES_ENOTFOUND
| ARES_ENOTIMP | ARES_EREFUSED | ARES_EBADQUERY | ARES_EBADNAME | ARES_EBADFAMILY
| ARES_EBADRESP | ARES_ECONNREFUSED | ARES_ETIMEOUT | ARES_EOF | ARES_EFILE
| ARES_ENOMEM | ARES_EDESTRUCTION | ARES_EBADSTR | ARES_EBADFLAGS | ARES_ENONAME
| ARES_EBADHINTS | ARES_ENOTINITIALIZED | ARES_ELOADIPHLPAPI
| ARES_EADDRGETNETWORKPARAMS | ARES_ECANCELLED.

#[export] Instance status_eq_dec : EqDecision status.
Proof. solve_decision. Defined.

(** ** Constants of nameser.h and ares_private.h *)

Definition HFIXEDSZ : Z := 12.
Definition QFIXEDSZ : Z := 4.
Definition RRFIXEDSZ : Z := 10.
Definition EDNSFIXEDSZ : Z := 11.
Definition MAXLABEL : Z := 63.
Definition MAXCDNAME : Z := 255.
Definition INDIR_MASK : Z := 192.
Definition C_IN : Z := 1.
Definition T_A : Z := 1.
Definition T_NS : Z := 2.
Definition T_CNAME : Z := 5.
Definition T_PTR : Z := 12.
Definition T_MX : Z := 15.
Definition T_TXT : Z := 16.
Definition T_AAAA : Z := 28.
Definition T_SRV : Z := 33.
Definition T_NAPTR : Z := 35.
Definition T_OPT : Z := 41.

(** The characters the name code treats specially. *)
Definition ch_dot : Z := 46.
Definition ch_bslash : Z := 92.

(** ** Macros of ares_dns.h *)

Definition DNS__16BIT (buf : list Z) (p : Z) : M Z :=
  b0 ← get_byte buf p; b1 ← get_byte buf (p + 1);
  mret (Z.land 65535 (Z.lor (Z.shiftl b0 8) b1)).

Definition DNS__32BIT (buf : list Z) (p : Z) : M Z :=
  b0 ← get_byte buf p; b1 ← get_byte buf (p + 1);
  b2 ← get_byte buf (p + 2); b3 ← get_byte buf (p + 3);
  mret (Z.lor (Z.lor (Z.lor (Z.shiftl b0 24) (Z.shiftl b1 16)) (Z.shiftl b2 8)) b3).

Definition DNS_HEADER_QID (buf : list Z) : M Z := DNS__16BIT buf 0.
Definition DNS_HEADER_QDCOUNT (buf : list Z) : M Z := DNS__16BIT buf 4.
Definition DNS_HEADER_ANCOUNT (buf : list Z) : M Z := DNS__16BIT buf 6.
Definition DNS_RR_TYPE (buf : list Z) (r : Z) : M Z := DNS__16BIT buf r.
Definition DNS_RR_CLASS (buf : list Z) (r : Z) : M Z := DNS__16BIT buf (r + 2).
Definition DNS_RR_TTL (buf : list Z) (r : Z) : M Z := DNS__32BIT buf (r + 4).
Definition DNS_RR_LEN (buf : list Z) (r : Z) : M Z := DNS__16BIT buf (r + 8).

(** ** Domain names: ares_expand_name.c *)

Definition is_special (c : Z) : bool := (c =? ch_dot) || (c =? ch_bslash).

(** [( *p & ~INDIR_MASK) << 8 | *(p + 1)]. *)
Definition indir_offset (b b1 : Z) : Z :=
  Z.lor (Z.shiftl (Z.land b (Z.lnot INDIR_MASK)) 8) b1.

Section name.
Variable abuf : list Z.
Local Abbreviation alen := (Zlen abuf).

(** [while (offset--)] of [name_length]. *)
Fixpoint count_label (encoded : Z) (offset : nat) (n : Z) : M (Z * Z) :=
  match offset with
  | O => mret (encoded, n)
  | S o =>
      c ← get_byte abuf encoded;
      n' ← int_add n (if is_special c then 2 else 1);
      count_label (encoded + 1) o n'
  end.

(** [while ( *encoded)] of [name_length]. *)
Fixpoint name_length_loop (fuel : nat) (encoded n indir : Z) : M Z :=
  match fuel with
  | O => no_fuel
  | S fuel' =>
      b ← get_byte abuf encoded;
      if b =? 0 then mret (if n =? 0 then n else n - 1)
      else
        let top := Z.land b INDIR_MASK in
        if top =? INDIR_MASK then
          if alen <=? encoded + 1 then mret (-1)
          else
            b1 ← get_byte abuf (encoded + 1);
            let offset := indir_offset b b1 in
            if alen <=? offset then mret (-1)
            else
              indir' ← int_add indir 1;
              if alen <? indir' then mret (-1)
              else name_length_loop fuel' offset n indir'
        else if top =? 0 then
          let offset := b in
          if alen <=? encoded + offset + 1 then mret (-1)
          else
            '(encoded', n') ← count_label (encoded + 1) (Z.to_nat offset) n;
            n'' ← int_add n' 1;
            name_length_loop fuel' encoded' n'' indir
        else mret (-1)
  end.

(** The loop visits at most [alen + 1] positions between two indirections and
    follows at most [alen + 1] indirections. *)
Definition name_fuel : nat := ((length abuf + 2) * (length abuf + 2))%nat.

Definition name_length (encoded : Z) : M Z :=
  if alen <=? encoded then mret (-1) else name_length_loop name_fuel encoded 0 0.

(** [while (len--)] of [ares_expand_name]: copy a label, escaped. *)
Fixpoint copy_label (cap : Z) (p : Z) (len : nat) (q : list Z) : M (Z * list Z) :=
  match len with
  | O => mret (p, q)
  | S l =>
      c ← get_byte abuf p;
      q' ← (if is_special c then put_char cap q ch_bslash else mret q);
      q'' ← put_char cap q' c;
      copy_label cap (p + 1) l q''
  end.

(** [while ( *p)] of [ares_expand_name]. [indir] holds [*enclen] once the
    first indirection has set it. The written characters are in reverse. *)
Fixpoint expand_loop (fuel : nat) (cap encoded p : Z) (indir : option Z) (q : list Z)
    : M (list Z * Z) :=
  match fuel with
  | O => no_fuel
  | S fuel' =>
      b ← get_byte abuf p;
      if b =? 0 then
        mret (q, match indir with Some e => e | None => p + 1 - encoded end)
      else if Z.land b INDIR_MASK =? INDIR_MASK then
        b1 ← get_byte abuf (p + 1);
        let indir' := match indir with Some e => e | None => p + 2 - encoded end in
        expand_loop fuel' cap encoded (indir_offset b b1) (Some indir') q
      else
        '(p', q') ← copy_label cap (p + 1) (Z.to_nat b) q;
        q'' ← put_char cap q' ch_dot;
        expand_loop fuel' cap encoded p' indir q''
  end.

(** [ares_expand_name]: the expanded string and [*enclen], or a status. *)
Definition ares_expand_name (encoded : Z) : M (status + list Z * Z) :=
  nlen ← name_length encoded;
  if nlen <? 0 then mret (inl ARES_EBADNAME)
  else
    s ← c_malloc;
    if negb s then mret (inl ARES_ENOMEM)
    else if nlen =? 0 then
      b ← get_byte abuf encoded;
      mret (inr ([], if Z.land b INDIR_MASK =? INDIR_MASK then 2 else 1))
    else
      '(q, enclen) ← expand_loop name_fuel (nlen + 1) encoded encoded None [];
      match q with
      | _ :: q' => mret (inr (rev q', enclen))     (* nuke the trailing period *)
      | [] => _ ← put_char (nlen + 1) [] 0; mret (inr ([], enclen))
      end.

Definition ares__expand_name_for_response (encoded : Z) : M (status + list Z * Z) :=
  r ← ares_expand_name encoded;
  mret (match r with
        | inl st => inl (if decide (st = ARES_EBADNAME) then ARES_EBADRESP else st)
        | inr x => inr x
        end).

(** ** Character strings: ares_expand_string.c *)

(** [strncpy] stops copying at the first NUL and fills the rest with NULs. *)
Definition strncpy (src : list Z) (n : nat) : list Z :=
  take n (c_str src ++ replicate n 0).

Definition ares_expand_string (encoded : Z) : M (status + list Z * Z) :=
  if encoded =? alen then mret (inl ARES_EBADSTR)
  else
    elen ← get_byte abuf encoded;
    if alen <? encoded + elen + 1 then mret (inl ARES_EBADSTR)
    else
      s ← c_malloc;
      if negb s then mret (inl ARES_ENOMEM)
      else
        src ← get_bytes abuf (encoded + 1) (Z.to_nat elen);
        mret (inr (strncpy src (Z.to_nat elen), elen + 1)).

End name.

(** ** Bit fields of the wire format *)

(** A property of bytes is decided by checking the 256 values. *)
Lemma byte_forall (P : Z -> bool) :
  forallb (fun n => P (Z.of_nat n)) (seq 0 256) = true ->
  forall b, 0 <= b < 256 -> P b = true.
Proof.
  intros H b Hb. rewrite forallb_forall in H.
  rewrite <- (Z2Nat.id b) by lia. apply H. apply in_seq. lia.
Qed.

Lemma top_bits b :
  0 <= b < 256 ->
  Z.land b INDIR_MASK =
    if b <? 64 then 0 else if b <? 128 then 64 else if b <? 192 then 128 else 192.
Proof.
  intros Hb. apply Z.eqb_eq.
  apply (byte_forall (fun b => Z.land b INDIR_MASK =?
    (if b <? 64 then 0 else if b <? 128 then 64 else if b <? 192 then 128 else 192)));
    [by vm_compute|done].
Qed.

Lemma is_pointer_iff b : 0 <= b < 256 -> Z.land b INDIR_MASK = INDIR_MASK <-> 192 <= b.
Proof. intros Hb. rewrite top_bits by done. unfold INDIR_MASK. repeat cdec_one; lia. Qed.

Lemma is_label_iff b : 0 <= b < 256 -> Z.land b INDIR_MASK = 0 <-> b < 64.
Proof. intros Hb. rewrite top_bits by done. repeat cdec_one; lia. Qed.

Lemma indir_offset_nonneg b b1 : 0 <= b -> 0 <= b1 -> 0 <= indir_offset b b1.
Proof.
  intros Hb Hb1. unfold indir_offset. apply Z.lor_nonneg. split; [|done].
  apply Z.shiftl_nonneg, Z.land_nonneg. by left.
Qed.

(** Or-ing disjoint bit fields is addition. *)
Lemma lor_shift_add a b k :
  0 <= k -> 0 <= b < 2 ^ k -> Z.lor (Z.shiftl a k) b = a * 2 ^ k + b.
Proof.
  intros Hk Hb. rewrite <- Z.shiftl_mul_pow2 by done.
  symmetry. rewrite <- Z.add_lor_land.
  assert (Z.land (Z.shiftl a k) b = 0) as ->; [|lia].
  destruct (Z.eq_dec b 0) as [->|]; [apply Z.land_0_r|].
  apply Z.bits_inj'. intros i Hi. rewrite Z.land_spec, Z.bits_0.
  destruct (Z.lt_ge_cases i k).
  - by rewrite Z.shiftl_spec_low.
  - rewrite (Z.bits_above_log2 b), andb_false_r; [done|lia|].
    apply Z.log2_lt_pow2; [lia|]. eapply Z.lt_le_trans; [apply Hb|].
    apply Z.pow_le_mono_r; lia.
Qed.

Lemma wp_DNS__16BIT buf p h (Q : Z -> heap -> Prop) :
  0 <= p -> p + 2 <= Zlen buf ->
  (forall b0 b1, byte_at buf p = Some b0 -> byte_at buf (p + 1) = Some b1 ->
     0 <= b0 * 256 + b1 < 65536 -> Q (b0 * 256 + b1) h) ->
  wp (DNS__16BIT buf p) h Q.
Proof.
  intros Hp Hl HQ. unfold DNS__16BIT.
  do 4 wp_step. wp_step. rewrite lor_shift_add by (cbn; lia).
  change 65535 with (Z.ones 16). rewrite Z.land_comm, Z.land_ones by lia.
  rewrite Z.mod_small by (cbn; lia). apply HQ; [done|done|cbn; lia].
Qed.

Lemma wp_DNS__32BIT buf p h (Q : Z -> heap -> Prop) :
  0 <= p -> p + 4 <= Zlen buf ->
  (forall b0 b1 b2 b3, byte_at buf p = Some b0 -> byte_at buf (p + 1) = Some b1 ->
     byte_at buf (p + 2) = Some b2 -> byte_at buf (p + 3) = Some b3 ->
     0 <= ((b0 * 256 + b1) * 256 + b2) * 256 + b3 < 2 ^ 32 ->
     Q (((b0 * 256 + b1) * 256 + b2) * 256 + b3) h) ->
  wp (DNS__32BIT buf p) h Q.
Proof.
  intros Hp Hl HQ. unfold DNS__32BIT.
  do 8 wp_step. wp_step.
  replace (Z.lor (Z.lor (Z.lor (Z.shiftl b 24) (Z.shiftl b0 16)) (Z.shiftl b1 8)) b2)
    with (((b * 256 + b0) * 256 + b1) * 256 + b2).
  { apply HQ; [done..|cbn; lia]. }
  change 24 with (8 + (8 + 8)). change 16 with (8 + 8).
  rewrite <- !Z.shiftl_shiftl by lia. rewrite <- !Z.shiftl_lor.
  rewrite !lor_shift_add by lia. lia.
Qed.

(** ** What an encoded name denotes

    The labels and compression pointers of RFC 1035: [name_at abuf p ls k tr]:
    at offset [p] the message holds a name whose labels are [ls], which occupies
    [k] bytes there; [tr] lists the positions at which the decoder stops. The
    limit of 255 octets of RFC 1035, 3.1, is no part of it: the decoder follows
    names of any length (ares_create_query.c enforces the limit when it encodes). *)
Section name_spec.
Variable abuf : list Z.
Local Abbreviation alen := (Zlen abuf).

Inductive name_at : Z -> list (list Z) -> Z -> list Z -> Prop :=
| name_root p :
    byte_at abuf p = Some 0 -> name_at p [] 1 [p]
| name_label p len ls k tr :
    byte_at abuf p = Some len -> 0 < len < 64 -> p + len + 1 < alen ->
    name_at (p + len + 1) ls k tr ->
    name_at p (slice abuf (p + 1) (Z.to_nat len) :: ls) (len + 1 + k) (p :: tr)
| name_pointer p b b1 ls k tr :
    byte_at abuf p = Some b -> 192 <= b -> byte_at abuf (p + 1) = Some b1 ->
    indir_offset b b1 < alen ->
    name_at (indir_offset b b1) ls k tr ->
    name_at p ls 2 (p :: tr).

Lemma name_at_range p ls k tr :
  name_at p ls k tr -> 0 <= p < alen /\ 0 < k /\ p + k <= alen.
Proof.
  induction 1 as [p Hb|p len ls k tr Hb Hl Hp _ IH|p b b1 ls k tr Hb Hge Hb1 Ho _ IH];
    apply byte_at_Some in Hb; try apply byte_at_Some in Hb1; lia.
Qed.

(** The message determines the decoding. *)
Lemma name_at_det p ls k tr ls' k' tr' :
  name_at p ls k tr -> name_at p ls' k' tr' -> ls = ls' /\ k = k' /\ tr = tr'.
Proof.
  intros H; revert ls' k' tr'.
  induction H as [p Hb|p len ls k tr Hb Hl Hp _ IH|p b b1 ls k tr Hb Hge Hb1 Ho _ IH];
    intros ls' k' tr' H'; inversion H'; subst; simplify_eq; try lia; try done;
    match goal with H : name_at _ _ _ _ |- _ => apply IH in H as (-> & -> & ->) end; done.
Qed.

Lemma name_at_suffix p ls k tr x :
  name_at p ls k tr -> x ∈ tr ->
  exists ls' k' tr', name_at x ls' k' tr' /\ (length tr' <= length tr)%nat.
Proof.
  induction 1 as [p Hb|p len ls k tr Hb Hl Hp Hn IH|p b b1 ls k tr Hb Hge Hb1 Ho Hn IH];
    intros Hx; apply elem_of_cons in Hx as [->|Hx].
  - exists [], 1, [p]. split; [by constructor|done].
  - by apply not_elem_of_nil in Hx.
  - eexists _, _, _. split; [by eapply name_label|done].
  - destruct (IH Hx) as (ls' & k' & tr' & H & Hle).
    eexists _, _, _. split; [exact H|cbn; lia].
  - eexists _, _, _. split; [by eapply name_pointer|done].
  - destruct (IH Hx) as (ls' & k' & tr' & H & Hle).
    eexists _, _, _. split; [exact H|cbn; lia].
Qed.

(** A name that ends never visits a position twice... *)
Lemma name_at_nodup p ls k tr : name_at p ls k tr -> NoDup tr.
Proof.
  induction 1 as [p Hb|p len ls k tr Hb Hl Hp Hn IH|p b b1 ls k tr Hb Hge Hb1 Ho Hn IH].
  - apply NoDup_singleton.
  - constructor; [|done]. intros Hin.
    destruct (name_at_suffix _ _ _ _ _ Hn Hin) as (ls' & k' & tr' & H & Hle).
    assert (Hp' : name_at p (slice abuf (p + 1) (Z.to_nat len) :: ls) (len + 1 + k) (p :: tr))
      by by eapply name_label.
    destruct (name_at_det _ _ _ _ _ _ _ H Hp') as (_ & _ & ->). cbn in Hle. lia.
  - constructor; [|done]. intros Hin.
    destruct (name_at_suffix _ _ _ _ _ Hn Hin) as (ls' & k' & tr' & H & Hle).
    assert (Hp' : name_at p ls 2 (p :: tr)) by by eapply name_pointer.
    destruct (name_at_det _ _ _ _ _ _ _ H Hp') as (_ & _ & ->). cbn in Hle. lia.
Qed.

(** ... so it visits at most [alen] positions. *)
Lemma name_at_trace_length p ls k tr : name_at p ls k tr -> (length tr <= length abuf)%nat.
Proof.
  intros H. pose proof (name_at_nodup _ _ _ _ H) as Hnd.
  assert (Hin : forall x, x ∈ tr -> 0 <= x < alen).
  { intros x Hx. destruct (name_at_suffix _ _ _ _ _ H Hx) as (? & ? & ? & H' & _).
    by apply name_at_range in H' as [? _]. }
  assert (Hsub : (Z.to_nat <$> tr) ⊆ seq 0 (length abuf)).
  { intros y (x & -> & Hx)%list_elem_of_fmap. apply elem_of_seq.
    specialize (Hin x Hx). unfold Zlen in Hin. lia. }
  rewrite <- (length_seq (length abuf) 0), <- (length_fmap Z.to_nat tr).
  apply submseteq_length, NoDup_submseteq; [|exact Hsub].
  apply NoDup_fmap_2_strong; [|done]. intros x y Hx%Hin Hy%Hin. lia.
Qed.

(** The text of a name: labels separated by dots, with dots and backslashes
    of a label escaped. *)
Definition escape (c : Z) : list Z := if is_special c then [ch_bslash; c] else [c].

Definition label_text (l : list Z) : list Z := (l ≫= escape) ++ [ch_dot].

Definition name_text (ls : list (list Z)) : list Z := ls ≫= label_text.

(** [name_text] without the final dot. *)
Definition expanded (ls : list (list Z)) : list Z := rev (tail (rev (name_text ls))).

Lemma escape_len l : Zlen l <= Zlen (l ≫= escape) <= 2 * Zlen l.
Proof.
  induction l as [|c l IH]; [done|]. rewrite bind_cons, Zlen_app, Zlen_cons.
  assert (1 <= Zlen (escape c) <= 2); [|lia].
  unfold escape. destruct (is_special c); rewrite ?Zlen_cons, ?Zlen_nil; lia.
Qed.

Lemma name_text_cons l ls : name_text (l :: ls) = (l ≫= escape) ++ ch_dot :: name_text ls.
Proof. unfold name_text. rewrite bind_cons. unfold label_text. by rewrite <- app_assoc. Qed.

Lemma name_text_len_cons l ls :
  Zlen (name_text (l :: ls)) = Zlen (l ≫= escape) + 1 + Zlen (name_text ls).
Proof. rewrite name_text_cons, Zlen_app, Zlen_cons. lia. Qed.

(** What [name_length] returns for a name of [n] characters. *)
Definition length_result (n : Z) : Z := if n =? 0 then n else n - 1.

(** ** [name_length] *)

Lemma wp_count_label p len n h (Q : Z * Z -> heap -> Prop) :
  0 <= p -> p + Z.of_nat len <= alen -> 0 <= n -> n + 2 * Z.of_nat len <= INT_MAX ->
  Q (p + Z.of_nat len, n + Zlen (slice abuf p len ≫= escape)) h ->
  wp (count_label abuf p len n) h Q.
Proof.
  revert p n; induction len as [|len IH]; intros p n Hp Hl Hn Hm HQ; cbn [count_label].
  { wp_step. rewrite slice_0 in HQ. cbn in HQ. by rewrite !Z.add_0_r in HQ. }
  wp_step. wp_step. rewrite (slice_cons _ _ _ _ H), bind_cons, Zlen_app in HQ.
  wp_step. wp_step.
  { unfold INT_MIN, INT_MAX in *. destruct (is_special b); lia. }
  apply IH; [lia|lia|destruct (is_special b); lia|destruct (is_special b); lia|].
  unfold escape at 1 in HQ.
  replace (p + 1 + Z.of_nat len) with (p + Z.of_nat (S len)) by lia.
  destruct (is_special b); rewrite ?Zlen_cons, Zlen_nil in HQ;
    by rewrite <- Z.add_assoc.
Qed.

Lemma slice_escape_len p len :
  0 <= p -> p + Z.of_nat len <= alen ->
  Zlen (slice abuf p len ≫= escape) <= 2 * Z.of_nat len.
Proof.
  intros Hp Hl. pose proof (escape_len (slice abuf p len)) as H.
  unfold Zlen in *. rewrite slice_length in H by done. lia.
Qed.

(** A well-formed name is accepted and measured exactly. *)
Lemma name_length_loop_complete p ls k tr :
  name_at p ls k tr -> forall fuel n indir h (Q : Z -> heap -> Prop),
  (length tr <= fuel)%nat -> 0 <= indir -> indir + Zlen tr <= alen + 1 ->
  alen < INT_MAX -> 0 <= n -> n + 128 * Zlen tr <= INT_MAX ->
  Q (length_result (n + Zlen (name_text ls))) h ->
  wp (name_length_loop abuf fuel p n indir) h Q.
Proof.
  induction 1 as [p Hb|p len ls k tr Hb Hl Hp Hn IH|p b b1 ls k tr Hb Hge Hb1 Ho Hn IH];
    intros [|fuel] n indir h Q Hf Hi Hit Ha Hn0 Hnm HQ; cbn in Hf; try lia;
    cbn [name_length_loop]; apply wp_bind; (eapply wp_get_byte_Some; [exact Hb|]);
    rewrite ?Zlen_cons in *; pose proof (byte_at_Some _ _ _ Hb) as [Hr Hbr].
  - cbn in HQ. rewrite Z.add_0_r in HQ. cbn. by apply wp_ret.
  - pose proof (Zlen_nonneg tr). destruct (Z.eqb_spec len 0); [lia|].
    destruct (Z.eqb_spec (Z.land len INDIR_MASK) INDIR_MASK) as [E|_];
      [apply is_pointer_iff in E; lia|].
    destruct (Z.eqb_spec (Z.land len INDIR_MASK) 0) as [_|E];
      [|exfalso; apply E, is_label_iff; lia].
    destruct (Z.leb_spec alen (p + len + 1)); [lia|].
    pose proof (slice_escape_len (p + 1) (Z.to_nat len) ltac:(lia) ltac:(lia)).
    wp_step. apply wp_count_label; [lia|lia|lia|lia|].
    wp_step. wp_step.
    { pose proof (Zlen_nonneg (slice abuf (p + 1) (Z.to_nat len) ≫= escape)).
      unfold INT_MIN, INT_MAX in *. lia. }
    replace (p + 1 + Z.of_nat (Z.to_nat len)) with (p + len + 1) by lia.
    apply IH; try lia.
    + pose proof (Zlen_nonneg (slice abuf (p + 1) (Z.to_nat len) ≫= escape)). lia.
    + rewrite name_text_len_cons in HQ. by rewrite <- !Z.add_assoc in *.
  - pose proof (Zlen_nonneg tr). destruct (Z.eqb_spec b 0); [lia|].
    destruct (Z.eqb_spec (Z.land b INDIR_MASK) INDIR_MASK) as [_|E];
      [|exfalso; apply E, is_pointer_iff; lia].
    pose proof (byte_at_Some _ _ _ Hb1) as [Hr1 _].
    destruct (Z.leb_spec alen (p + 1)); [lia|].
    apply wp_bind. eapply wp_get_byte_Some; [exact Hb1|].
    destruct (Z.leb_spec alen (indir_offset b b1)); [lia|].
    assert (1 <= Zlen tr) by (inversion Hn; subst; rewrite Zlen_cons;
      match goal with |- context [Zlen ?l] => pose proof (Zlen_nonneg l) end; lia).
    wp_step. wp_step; [unfold INT_MIN, INT_MAX in *; lia|].
    destruct (Z.ltb_spec alen (indir + 1)); [lia|].
    apply IH; lia || done.
Qed.

(** On any message [name_length] stays in bounds, does not overflow, ends,
    and what it accepts is a well-formed name. *)
Lemma name_length_loop_sound fuel p n indir h :
  alen <= 32767 -> 0 <= p < alen -> 0 <= indir <= alen ->
  0 <= n <= 2 * (indir * alen + p) ->
  (alen - indir) * (alen + 1) + (alen - p) < Z.of_nat fuel ->
  wp (name_length_loop abuf fuel p n indir) h (fun r h' => h' = h /\
    (r = -1 \/ exists ls k tr, name_at p ls k tr /\
                 r = length_result (n + Zlen (name_text ls)))).
Proof.
  intros Ha; revert p n indir; induction fuel as [|fuel IH]; intros p n indir Hp Hi Hn Hf;
    [nia|]. cbn [name_length_loop]. wp_step. wp_step.
  destruct (Z.eqb_spec b 0) as [->|Hb0].
  { wp_step. split; [done|]. right. exists [], 1, [p]. split; [by constructor|].
    cbn. by rewrite Z.add_0_r. }
  destruct (Z.eqb_spec (Z.land b INDIR_MASK) INDIR_MASK) as [E|E].
  { apply is_pointer_iff in E; [|done].
    destruct (Z.leb_spec alen (p + 1)); [wp_step; auto|]. wp_step. wp_step.
    pose proof (indir_offset_nonneg b b0 ltac:(lia) ltac:(lia)).
    destruct (Z.leb_spec alen (indir_offset b b0)); [wp_step; auto|].
    wp_step. wp_step; [unfold INT_MIN, INT_MAX; lia|].
    destruct (Z.ltb_spec alen (indir + 1)); [wp_step; auto|].
    eapply wp_mono; [apply IH; [lia|lia|nia|nia]|].
    intros r h' [-> [->|(ls & k & tr & Hna & ->)]]; [auto|]. split; [done|]. right.
    exists ls, 2, (p :: tr). split; [|done]. by eapply name_pointer. }
  destruct (Z.eqb_spec (Z.land b INDIR_MASK) 0) as [E0|E0]; [|wp_step; auto].
  apply is_label_iff in E0; [|done].
  destruct (Z.leb_spec alen (p + b + 1)); [wp_step; auto|].
  pose proof (slice_escape_len (p + 1) (Z.to_nat b) ltac:(lia) ltac:(lia)).
  pose proof (Zlen_nonneg (slice abuf (p + 1) (Z.to_nat b) ≫= escape)).
  assert (n + 2 * b + 1 <= 2 * (indir * alen + (p + b + 1))) by lia.
  assert (2 * (indir * alen + (p + b + 1)) <= INT_MAX) by (unfold INT_MAX; nia).
  wp_step. apply wp_count_label; [lia|lia|lia|lia|].
  wp_step. wp_step; [unfold INT_MIN, INT_MAX in *; lia|].
  replace (p + 1 + Z.of_nat (Z.to_nat b)) with (p + b + 1) by lia.
  eapply wp_mono; [apply IH; [lia|lia|lia|nia]|].
  intros r h' [-> [->|(ls & k & tr & Hna & ->)]]; [auto|]. split; [done|]. right.
  eexists _, _, _. split; [eapply name_label; [eassumption|lia|lia|exact Hna]|].
  rewrite name_text_len_cons. f_equal. lia.
Qed.

(** ** [ares_expand_name] *)

Lemma wp_copy_label cap p len q h (Q : Z * list Z -> heap -> Prop) :
  0 <= p -> p + Z.of_nat len <= alen ->
  Zlen q + Zlen (slice abuf p len ≫= escape) <= cap ->
  Q (p + Z.of_nat len, rev (slice abuf p len ≫= escape) ++ q) h ->
  wp (copy_label abuf cap p len q) h Q.
Proof.
  revert p q; induction len as [|len IH]; intros p q Hp Hl Hc HQ; cbn [copy_label].
  { wp_step. rewrite slice_0 in HQ. cbn in HQ. by rewrite Z.add_0_r in HQ. }
  wp_step. wp_step. rewrite (slice_cons _ _ _ _ H), bind_cons in HQ, Hc.
  rewrite Zlen_app in Hc. rewrite rev_app_distr in HQ. unfold escape at 1 in Hc.
  unfold escape at 2 in HQ. replace (p + Z.of_nat (S len)) with (p + 1 + Z.of_nat len) in HQ by lia.
  pose proof (Zlen_nonneg (slice abuf (p + 1) len ≫= escape)).
  wp_step. destruct (is_special b).
  - rewrite !Zlen_cons, Zlen_nil in Hc. apply wp_put_char; [lia|]. wp_step.
    apply wp_put_char; [rewrite Zlen_cons; lia|].
    apply IH; [lia|lia|rewrite !Zlen_cons; lia|]. cbn in HQ. by rewrite <- app_assoc in HQ.
  - rewrite !Zlen_cons, Zlen_nil in Hc. wp_step. wp_step.
    apply wp_put_char; [lia|].
    apply IH; [lia|lia|rewrite !Zlen_cons; lia|]. cbn in HQ. by rewrite <- app_assoc in HQ.
Qed.

Lemma wp_expand_loop p ls k tr :
  name_at p ls k tr -> forall fuel cap enc ind q h (Q : list Z * Z -> heap -> Prop),
  (length tr <= fuel)%nat -> Zlen q + Zlen (name_text ls) <= cap ->
  Q (rev (name_text ls) ++ q, match ind with Some e => e | None => p + k - enc end) h ->
  wp (expand_loop abuf fuel cap enc p ind q) h Q.
Proof.
  induction 1 as [p Hb|p len ls k tr Hb Hl Hp Hn IH|p b b1 ls k tr Hb Hge Hb1 Ho Hn IH];
    intros [|fuel] cap enc ind q h Q Hf Hc HQ; cbn in Hf; try lia;
    cbn [expand_loop]; apply wp_bind; (eapply wp_get_byte_Some; [exact Hb|]);
    pose proof (byte_at_Some _ _ _ Hb) as [Hr Hbr].
  - cbn. by apply wp_ret.
  - destruct (Z.eqb_spec len 0); [lia|].
    destruct (Z.eqb_spec (Z.land len INDIR_MASK) INDIR_MASK) as [E|_];
      [apply is_pointer_iff in E; lia|].
    rewrite name_text_len_cons in Hc. rewrite name_text_cons in HQ.
    pose proof (Zlen_nonneg (name_text ls)).
    wp_step. apply wp_copy_label; [lia|lia|lia|]. wp_step.
    apply wp_put_char; [rewrite Zlen_app, Zlen_rev; lia|].
    replace (p + 1 + Z.of_nat (Z.to_nat len)) with (p + len + 1) by lia.
    apply IH; [lia|rewrite Zlen_cons, Zlen_app, Zlen_rev; lia|].
    rewrite rev_app_distr in HQ. cbn in HQ. rewrite <- !app_assoc in HQ. cbn in HQ.
    by replace (p + len + 1 + k - enc) with (p + (len + 1 + k) - enc) by lia.
  - destruct (Z.eqb_spec b 0); [lia|].
    destruct (Z.eqb_spec (Z.land b INDIR_MASK) INDIR_MASK) as [_|E];
      [|exfalso; apply E, is_pointer_iff; lia].
    apply wp_bind. eapply wp_get_byte_Some; [exact Hb1|].
    apply IH; [lia|done|done].
Qed.

Lemma name_text_nil_inv ls : Zlen (name_text ls) = 0 -> ls = [].
Proof.
  destruct ls as [|l ls]; [done|]. rewrite name_text_len_cons.
  pose proof (Zlen_nonneg (l ≫= escape)). pose proof (Zlen_nonneg (name_text ls)). lia.
Qed.

(** The wire length of the root name depends on its first byte only. *)
Lemma name_at_root_length p k tr :
  name_at p [] k tr ->
  exists b, byte_at abuf p = Some b /\
    k = if Z.land b INDIR_MASK =? INDIR_MASK then 2 else 1.
Proof.
  inversion 1; subst; eexists; (split; [eassumption|]).
  - done.
  - match goal with H : byte_at abuf p = Some ?b |- _ =>
      pose proof (byte_at_Some _ _ _ H) as [_ ?] end.
    destruct (Z.eqb_spec (Z.land b INDIR_MASK) INDIR_MASK) as [|E]; [done|].
    exfalso; apply E, is_pointer_iff; lia.
Qed.

(** Only the root label is empty. *)
Lemma name_at_labels p ls k tr : name_at p ls k tr -> Forall (fun l => 0 < Zlen l) ls.
Proof.
  induction 1 as [|p len ls k tr Hb Hl Hp Hn IH|]; [done| |done].
  pose proof (byte_at_Some _ _ _ Hb). constructor; [|done].
  unfold Zlen. rewrite slice_length by lia. lia.
Qed.

(** What [name_length] computes. *)
Lemma name_length_spec p h :
  alen <= 32767 -> 0 <= p ->
  wp (name_length abuf p) h (fun r h' => h' = h /\
    (r = -1 /\ (forall ls k tr, ~ name_at p ls k tr) \/
     exists ls k tr, name_at p ls k tr /\ r = length_result (Zlen (name_text ls)))).
Proof.
  intros Ha Hp. unfold name_length.
  destruct (Z.leb_spec alen p) as [Hge|Hlt].
  { wp_step. split; [done|]. left. split; [done|]. intros ls k tr Hn.
    apply name_at_range in Hn. lia. }
  assert (Hs : wp (name_length_loop abuf (name_fuel abuf) p 0 0) h (fun r h' => h' = h /\
    (r = -1 \/ exists ls k tr, name_at p ls k tr /\
                 r = length_result (0 + Zlen (name_text ls))))).
  { apply name_length_loop_sound; [lia|lia|lia|lia|].
    unfold name_fuel. unfold Zlen in *. nia. }
  apply wp_outcome in Hs as (r & h' & Hr & -> & Hres).
  eapply wp_of_outcome; [exact Hr|]. split; [done|].
  destruct Hres as [->|(ls & k & tr & Hn & ->)]; [left|right].
  - split; [done|]. intros ls k tr Hn.
    pose proof (name_at_trace_length _ _ _ _ Hn) as Htl.
    assert (Hc : wp (name_length_loop abuf (name_fuel abuf) p 0 0) h
                    (fun r _ => r = length_result (0 + Zlen (name_text ls)))).
    { eapply name_length_loop_complete; [exact Hn|..]; unfold name_fuel, INT_MAX, Zlen in *;
        try nia; try done. }
    unfold wp in Hc. rewrite Hr in Hc. unfold length_result in Hc.
    pose proof (Zlen_nonneg (name_text ls)).
    destruct (Z.eqb_spec (0 + Zlen (name_text ls)) 0); lia.
  - exists ls, k, tr. split; [done|]. by rewrite Z.add_0_l.
Qed.

(** [ares_expand_name] decodes exactly the well-formed names: its result is
    the text of the name and the number of bytes to skip; the one block it
    allocates is the returned string. *)
Definition expand_post (p : Z) (h : heap) (r : status + list Z * Z) (h' : heap) : Prop :=
  match r with
  | inr (s, k) => live h' = live h + 1 /\ (oracle h = [] -> oracle h' = []) /\
      exists ls tr, name_at p ls k tr /\ s = expanded ls
  | inl ARES_EBADNAME => h' = h /\ forall ls k tr, ~ name_at p ls k tr
  | inl ARES_ENOMEM => live h' = live h /\ oracle h <> [] /\ exists ls k tr, name_at p ls k tr
  | inl _ => False
  end.

Lemma wp_ares_expand_name p h :
  alen <= 32767 -> 0 <= p -> wp (ares_expand_name abuf p) h (expand_post p h).
Proof.
  intros Ha Hp. unfold ares_expand_name. wp_step.
  eapply wp_mono; [by apply name_length_spec|].
  intros nlen h' [-> [[-> Hno]|(ls & k & tr & Hn & ->)]].
  { cbv beta. change (-1 <? 0) with true. cbv iota. by wp_step. }
  pose proof (Zlen_nonneg (name_text ls)) as Hnn. unfold length_result.
  destruct (Z.eqb_spec (Zlen (name_text ls)) 0) as [E|E].
  - rewrite E. change (0 <? 0) with false. change (0 =? 0) with true. cbv iota.
    wp_step. wp_step; cbn [negb]; [|wp_step; cbn; eauto 8]. apply name_text_nil_inv in E as ->.
    destruct (name_at_root_length _ _ _ Hn) as (b & Hb & ->).
    wp_step. eapply wp_get_byte_Some; [exact Hb|]. wp_step. cbn. eauto 8.
  - destruct (Z.ltb_spec (Zlen (name_text ls) - 1) 0); [lia|].
    wp_step. wp_step; cbn [negb]; [|wp_step; cbn; eauto 8].
    assert (Hq : forall (Q : status + list Z * Z -> heap -> Prop) h1,
      Q (inr (expanded ls, k)) h1 ->
      wp ('(q, enclen) ← expand_loop abuf (name_fuel abuf) (Zlen (name_text ls) - 1 + 1) p p None [];
          match q with
          | _ :: q' => mret (inr (rev q', enclen))
          | [] => _ ← put_char (Zlen (name_text ls) - 1 + 1) [] 0; mret (inr ([], enclen))
          end) h1 Q).
    { intros Q h1 HQ. wp_step.
      pose proof (name_at_trace_length _ _ _ _ Hn).
      eapply wp_expand_loop; [exact Hn|unfold name_fuel; nia|rewrite Zlen_nil; lia|].
      rewrite app_nil_r. unfold expanded in HQ.
      destruct (rev (name_text ls)) as [|c q'] eqn:Er.
      { apply (f_equal length) in Er. rewrite length_rev in Er. unfold Zlen in E. cbn in Er. lia. }
      wp_step. by replace (p + k - p) with k by lia. }
    destruct (Z.eqb_spec (Zlen (name_text ls) - 1) 0) as [E1|E1].
    + (* a one-character text would be the dot of an empty label *)
      exfalso. pose proof (name_at_labels _ _ _ _ Hn) as Hls.
      destruct ls as [|l ls]; [cbn in E; done|]. apply Forall_cons in Hls as [Hl _].
      rewrite name_text_len_cons in E1. pose proof (Zlen_nonneg (name_text ls)).
      pose proof (escape_len l). lia.
    + apply Hq. cbn. eauto 8.
Qed.

(** The interface the reply parsers rely on. *)
Definition expand_safe (p : Z) (h : heap) (bad : status)
    (r : status + list Z * Z) (h' : heap) : Prop :=
  match r with
  | inr (s, k) => live h' = live h + 1 /\ (oracle h = [] -> oracle h' = []) /\
      0 < k /\ p + k <= alen
  | inl st => live h' = live h /\ (st = bad \/ st = ARES_ENOMEM /\ oracle h <> [])
  end.

Lemma wp_expand_name_safe p h :
  alen <= 32767 -> 0 <= p ->
  wp (ares_expand_name abuf p) h (expand_safe p h ARES_EBADNAME).
Proof.
  intros Ha Hp. eapply wp_mono; [by apply wp_ares_expand_name|].
  intros [st|[s k]] h'; cbn; [destruct st; try tauto; intros [-> _]; by auto|].
  intros (Hl & Ho & ls & tr & Hn & _). apply name_at_range in Hn. tauto.
Qed.

Lemma wp_expand_for_response_safe p h :
  alen <= 32767 -> 0 <= p ->
  wp (ares__expand_name_for_response abuf p) h (expand_safe p h ARES_EBADRESP).
Proof.
  intros Ha Hp. unfold ares__expand_name_for_response. wp_step.
  eapply wp_mono; [by apply wp_expand_name_safe|].
  intros [st|[s k]] h' H; wp_step; cbn in *; [|done].
  destruct H as [Hl [-> | [-> Ho]]]; (split; [done|]); by case_decide; auto.
Qed.

(** [ares_expand_string] is safe for a pointer into the message or just past
    its end; it has no check for a pointer beyond that. *)
Lemma wp_expand_string_safe p h :
  0 <= p <= alen ->
  wp (ares_expand_string abuf p) h (expand_safe p h ARES_EBADSTR).
Proof.
  intros Hp. unfold ares_expand_string.
  destruct (Z.eqb_spec p alen); [wp_step; cbn; auto|]. wp_step. wp_step.
  destruct (Z.ltb_spec alen (p + b + 1)); [wp_step; cbn; auto|].
  wp_step. wp_step; cbn [negb]; [|wp_step; cbn; auto]. wp_step. wp_step. wp_step. cbn.
  repeat split; [done|lia..].
Qed.

End name_spec.

(** ** Properties *)

(** C34. [ares_expand_name] on any message of at most 32767 bytes and any
    starting offset reads and writes in bounds, does not overflow, terminates
    on compression loops, and decodes exactly the names of [name_at], the
    labels and compression pointers of RFC 1035 without its limit of 255 octets,
    which the decoder does not enforce: it succeeds with the escaped text and the
    wire length of the name, or reports [ARES_EBADNAME] exactly when there is no
    name there, or [ARES_ENOMEM] when there is one and an allocation fails; only a
    successful call leaves a block allocated. *)
Theorem ares_expand_name_correct abuf p h :
  Zlen abuf <= 32767 -> 0 <= p ->
  wp (ares_expand_name abuf p) h (expand_post abuf p h).
Proof. apply wp_ares_expand_name. Qed.

(** A message whose name [a.b\.c] is spelled with a compression pointer. *)
Definition ex_names : list Z := [3; 98; 46; 99; 0; 1; 97; 192; 0].

Lemma ares_expand_name_correct_witness :
  exists r h', ares_expand_name ex_names 5 (Heap 0 []) = Ret r h' /\
    r = inr ([97; 46; 98; 92; 46; 99], 4) /\ expand_post ex_names 5 (Heap 0 []) r h'.
Proof.
  pose proof (ares_expand_name_correct ex_names 5 (Heap 0 [])
    ltac:(vm_compute; discriminate) ltac:(lia)) as H.
  eexists _, _. split; [vm_compute; reflexivity|]. split; [reflexivity|exact H].
Defined.

(** A compression loop is rejected: a name whose decoding revisits a
    position is no name, and [ares_expand_name] reports [ARES_EBADNAME]
    without allocating. *)
Theorem ares_expand_name_loop abuf p b b1 h :
  Zlen abuf <= 32767 ->
  byte_at abuf p = Some b -> 192 <= b -> byte_at abuf (p + 1) = Some b1 ->
  indir_offset b b1 = p ->
  exists h', ares_expand_name abuf p h = Ret (inl ARES_EBADNAME) h' /\ live h' = live h.
Proof.
  intros Ha Hb Hge Hb1 Ho. pose proof (byte_at_Some _ _ _ Hb) as [Hp _].
  destruct (wp_outcome _ _ _ (wp_ares_expand_name abuf p h Ha ltac:(lia)))
    as (r & h' & Hr & Hpost).
  assert (Hno : forall ls k tr, ~ name_at abuf p ls k tr).
  { intros ls k tr Hn. pose proof (name_at_nodup _ _ _ _ _ Hn) as Hnd.
    inversion Hn as [? Hb0|? len ? ? tr' Hb0|? c c1 ? ? tr' Hb0 _ Hc1 _ Hn']; subst;
      simplify_eq; try lia.
    apply NoDup_cons in Hnd as [Hnin _]. apply Hnin.
    inversion Hn'; left. }
  destruct r as [st|[s k]]; cbn in Hpost.
  - destruct st; try done; [by exists h'; destruct Hpost as [-> _]|].
    destruct Hpost as (_ & _ & ls & k & tr & Hn). by apply Hno in Hn.
  - destruct Hpost as (_ & _ & ls & tr & Hn & _). by apply Hno in Hn.
Qed.

Lemma ares_expand_name_loop_witness :
  exists h', ares_expand_name [0; 192; 1] 1 (Heap 4 []) = Ret (inl ARES_EBADNAME) h' /\
    live h' = 4.
Proof.
  apply (ares_expand_name_loop [0; 192; 1] 1 192 1 (Heap 4 []));
    [vm_compute; discriminate|reflexivity|lia|reflexivity|reflexivity].
Defined.
