(* ===== verification/CreateQuery.v ===== *)
(** * Building a DNS query (c-ares)

    Models [ares_create_query] of
    src/Scylla-moon/seastar/c-ares/ares_create_query.c and the setter macros of
    ares_dns.h it uses. The name is the list of its characters, without the
    terminating NUL. The query buffer is the block of [cap] bytes that
    [ares_malloc] returned, written from its start: the bytes written so far
    are kept in reverse, and a write beyond [cap] is undefined. *)

From S2P Require Import Prelude DnsWire.
Open Scope Z_scope.

(** [DNS__SET16BIT]: the two bytes stored. *)
Definition DNS__SET16BIT (v : Z) : list Z :=
  [Z.land (Z.shiftr v 8) 255; Z.land v 255].

(** The header: [memset] to zero, id, opcode QUERY, RD, QDCOUNT and, with
    EDNS, ARCOUNT. *)
Definition query_header (id : Z) (rd edns : bool) : list Z :=
  DNS__SET16BIT id ++
  [Z.lor (Z.lor 0 (Z.shiftl (Z.land 0 15) 3)) (Z.land (if rd then 1 else 0) 1); 0] ++
  DNS__SET16BIT 1 ++ [0; 0] ++ [0; 0] ++
  (if edns then DNS__SET16BIT 1 else [0; 0]).

(** The counting loop over one label. *)
Fixpoint query_label_len (p : list Z) : Z :=
  match p with
  | [] => 0
  | c :: p' =>
      if c =? ch_dot then 0
      else if c =? ch_bslash
           then match p' with
                | [] => 1
                | _ :: p'' => 1 + query_label_len p''
                end
           else 1 + query_label_len p'
  end.

(** The copying loop over one label; returns [p] where it stops. *)
Fixpoint query_label_copy (cap : Z) (p q : list Z) : M (list Z * list Z) :=
  match p with
  | [] => mret ([], q)
  | c :: p' =>
      if c =? ch_dot then mret (p, q)
      else if c =? ch_bslash
           then match p' with
                | [] => q' ← put_char cap q c; mret ([], q')
                | c1 :: p'' => q' ← put_char cap q c1; query_label_copy cap p'' q'
                end
           else q' ← put_char cap q c; query_label_copy cap p' q'
  end.

(** [while ( *name)]: [None] is the exit with [ARES_EBADNAME]. *)
Fixpoint query_name_loop (fuel : nat) (cap : Z) (name q : list Z) : M (option (list Z)) :=
  match fuel with
  | O => no_fuel
  | S fuel' =>
      match name with
      | [] => mret (Some q)
      | c :: _ =>
          if c =? ch_dot then mret None
          else
            let len := query_label_len name in
            if MAXLABEL <? len then mret None
            else
              q1 ← put_char cap q (uwrap 8 len);
              '(p, q2) ← query_label_copy cap name q1;
              match p with
              | [] => mret (Some q2)
              | _ :: name' => query_name_loop fuel' cap name' q2
              end
      end
  end.

(** The EDNS pseudo-record: eleven zero bytes, with type and class set. *)
Definition edns_record (max_udp_size : Z) : list Z :=
  [0] ++ DNS__SET16BIT T_OPT ++ DNS__SET16BIT max_udp_size ++ replicate 6 0.

Definition ares_create_query (name : list Z) (dnsclass type id : Z) (rd : bool)
    (max_udp_size : Z) : M (status + list Z) :=
  let edns := negb (max_udp_size =? 0) in
  let cap := Zlen name + 2 + HFIXEDSZ + QFIXEDSZ + (if edns then EDNSFIXEDSZ else 0) in
  ok ← c_malloc;
  if negb ok then mret (inl ARES_ENOMEM)
  else
    q0 ← put_chars cap [] (query_header id rd edns);
    let name' := if decide (name = [ch_dot]) then [] else name in
    r ← query_name_loop (S (length name')) cap name' q0;
    match r with
    | None => c_free ;; mret (inl ARES_EBADNAME)
    | Some q1 =>
        q2 ← put_char cap q1 0;
        q3 ← put_chars cap q2 (DNS__SET16BIT type);
        q4 ← put_chars cap q3 (DNS__SET16BIT dnsclass);
        q5 ← (if edns then put_chars cap q4 (edns_record max_udp_size) else mret q4);
        let buflen := Zlen q5 in
        if MAXCDNAME + HFIXEDSZ + QFIXEDSZ + (if edns then EDNSFIXEDSZ else 0) <? buflen
        then c_free ;; mret (inl ARES_EBADNAME)
        else mret (inr (rev q5))
    end.

(** [ares_mkquery] of ares_mkquery.c. *)
Definition ares_mkquery (name : list Z) (dnsclass type id : Z) (rd : bool)
    : M (status + list Z) :=
  ares_create_query name dnsclass type id rd 0.

(** ** Labels and their encoding *)

(** One label of the text form and where it stops. *)
Fixpoint parse_label (p : list Z) : list Z * list Z :=
  match p with
  | [] => ([], [])
  | c :: p' =>
      if c =? ch_dot then ([], p)
      else if c =? ch_bslash
           then match p' with
                | [] => ([c], [])
                | c1 :: p'' => let '(l, r) := parse_label p'' in (c1 :: l, r)
                end
           else let '(l, r) := parse_label p' in (c :: l, r)
  end.

(** RFC 1035 encoding of a list of labels, without the root label. *)
Definition wire (ls : list (list Z)) : list Z := ls ≫= (fun l => Zlen l :: l).

Definition label_ok (l : list Z) : Prop := 0 < Zlen l <= MAXLABEL.

Lemma wire_cons l ls : wire (l :: ls) = Zlen l :: l ++ wire ls.
Proof. unfold wire. by rewrite bind_cons. Qed.

(** Induction over a text two characters at a time. *)
Lemma text_ind (P : list Z -> Prop) :
  P [] -> (forall c, P [c]) -> (forall c c1 p, P p -> P (c1 :: p) -> P (c :: c1 :: p)) ->
  forall p, P p.
Proof.
  intros H0 H1 H2 p.
  enough (P p /\ forall c, P (c :: p)) as [? _] by done.
  induction p as [|c p [IH1 IH2]]; split; auto.
Qed.

Lemma parse_label_cons c p :
  parse_label (c :: p) =
    if c =? ch_dot then ([], c :: p)
    else if c =? ch_bslash
         then match p with
              | [] => ([c], [])
              | c1 :: p' => (c1 :: (parse_label p').1, (parse_label p').2)
              end
         else (c :: (parse_label p).1, (parse_label p).2).
Proof.
  cbn [parse_label]. destruct (c =? ch_dot), (c =? ch_bslash); try done.
  - destruct p as [|c1 p']; [done|]. by destruct (parse_label p').
  - by destruct (parse_label p).
Qed.

Lemma query_label_len_spec p : query_label_len p = Zlen (parse_label p).1.
Proof.
  induction p as [|c|c c1 p IH IH1] using text_ind.
  - done.
  - rewrite parse_label_cons. cbn [query_label_len].
    by destruct (c =? ch_dot), (c =? ch_bslash).
  - rewrite parse_label_cons.
    change (query_label_len (c :: c1 :: p)) with
      (if c =? ch_dot then 0 else if c =? ch_bslash then 1 + query_label_len p
       else 1 + query_label_len (c1 :: p)).
    destruct (c =? ch_dot); [done|].
    destruct (c =? ch_bslash); cbn [fst]; rewrite Zlen_cons; lia.
Qed.

Lemma parse_label_length p :
  Zlen (parse_label p).1 + Zlen (parse_label p).2 <= Zlen p.
Proof.
  induction p as [|c|c c1 p IH IH1] using text_ind; rewrite ?(parse_label_cons c).
  - done.
  - by destruct (c =? ch_dot), (c =? ch_bslash).
  - destruct (c =? ch_dot); [cbn [fst snd]; rewrite Zlen_nil; lia|].
    destruct (c =? ch_bslash); cbn [fst snd]; rewrite !Zlen_cons in *; lia.
Qed.

Lemma wp_query_label_copy cap p q h (Q : list Z * list Z -> heap -> Prop) :
  Zlen q + Zlen (parse_label p).1 <= cap ->
  Q ((parse_label p).2, rev (parse_label p).1 ++ q) h ->
  wp (query_label_copy cap p q) h Q.
Proof.
  revert q; induction p as [|c|c c1 p IH IH1] using text_ind; intros q Hc HQ;
    rewrite ?(parse_label_cons c) in Hc, HQ.
  - by apply wp_ret.
  - cbn [query_label_copy]. destruct (c =? ch_dot), (c =? ch_bslash); try (by apply wp_ret);
      cbn in Hc, HQ; wp_step; (apply wp_put_char; [rewrite Zlen_cons, Zlen_nil in Hc; lia|]);
      by apply wp_ret.
  - change (query_label_copy cap (c :: c1 :: p) q) with
      (if c =? ch_dot then mret (c :: c1 :: p, q) else
       if c =? ch_bslash then q' ← put_char cap q c1; query_label_copy cap p q'
       else q' ← put_char cap q c; query_label_copy cap (c1 :: p) q').
    destruct (c =? ch_dot); [by apply wp_ret|].
    destruct (c =? ch_bslash); cbn [fst snd] in *; rewrite Zlen_cons in Hc; cbn [rev] in HQ;
      rewrite <- app_assoc in HQ;
      match type of Hc with context [1 + Zlen ?l] => pose proof (Zlen_nonneg l) end;
      wp_step; (apply wp_put_char; [lia|]).
    + apply IH; [rewrite Zlen_cons; lia|done].
    + apply IH1; [rewrite Zlen_cons; lia|done].
Qed.

(** The labels the name loop encodes; [None] when it rejects the name. *)
Fixpoint parse_name (fuel : nat) (name : list Z) : option (list (list Z)) :=
  match fuel with
  | O => None
  | S fuel' =>
      match name with
      | [] => Some []
      | c :: _ =>
          if c =? ch_dot then None
          else let '(l, r) := parse_label name in
               if MAXLABEL <? Zlen l then None
               else match r with
                    | [] => Some [l]
                    | _ :: name' => cons l <$> parse_name fuel' name'
                    end
      end
  end.

Lemma parse_label_nonempty c p :
  c <> ch_dot -> 0 < Zlen (parse_label (c :: p)).1.
Proof.
  intros Hc. rewrite parse_label_cons. destruct (Z.eqb_spec c ch_dot); [done|].
  assert (H : forall (x : Z) l, 0 < Zlen (x :: l))
    by (intros x l; rewrite Zlen_cons; pose proof (Zlen_nonneg l); lia).
  destruct (c =? ch_bslash); [destruct p|]; apply H.
Qed.

Lemma parse_name_ok fuel name ls :
  parse_name fuel name = Some ls ->
  Forall label_ok ls /\ Zlen (wire ls) <= Zlen name + 1.
Proof.
  revert name ls; induction fuel as [|fuel IH]; intros name ls; [done|]; cbn [parse_name].
  destruct name as [|c name]; [intros [= <-]; by split|].
  destruct (Z.eqb_spec c ch_dot); [done|].
  pose proof (parse_label_nonempty c name n) as Hne.
  pose proof (parse_label_length (c :: name)) as Hlen.
  destruct (parse_label (c :: name)) as [l r]; cbn [fst snd] in *.
  destruct (Z.ltb_spec MAXLABEL (Zlen l)); [done|]. destruct r as [|d name'].
  - intros [= <-]. split; [by constructor|].
    rewrite wire_cons, Zlen_cons, Zlen_app. cbn in *. rewrite Zlen_nil in *. lia.
  - intros (ls' & Hp & ->)%fmap_Some. apply IH in Hp as [Hok Hl].
    split; [by constructor|]. rewrite wire_cons, Zlen_cons, Zlen_app, !Zlen_cons in *. lia.
Qed.

Lemma wp_query_name_loop fuel cap name q h (Q : option (list Z) -> heap -> Prop) :
  (length name < fuel)%nat -> Zlen q + Zlen name + 1 <= cap ->
  Q ((fun ls => rev (wire ls) ++ q) <$> parse_name fuel name) h ->
  wp (query_name_loop fuel cap name q) h Q.
Proof.
  revert name q Q; induction fuel as [|fuel IH]; intros name q Q Hf Hc HQ; [lia|].
  cbn [query_name_loop parse_name] in *.
  destruct name as [|c name]; [by apply wp_ret|].
  destruct (Z.eqb_spec c ch_dot); [by apply wp_ret|].
  rewrite query_label_len_spec.
  pose proof (parse_label_length (c :: name)) as Hlen.
  pose proof (parse_label_nonempty c name n) as Hne.
  destruct (parse_label (c :: name)) as [l r] eqn:E; cbn [fst snd] in *.
  destruct (Z.ltb_spec MAXLABEL (Zlen l)) as [|Hl]; [by apply wp_ret|].
  unfold MAXLABEL in Hl. pose proof (Zlen_nonneg r).
  wp_step. apply wp_put_char; [lia|]. wp_step.
  apply wp_query_label_copy; rewrite E; cbn [fst snd]; [rewrite Zlen_cons; lia|].
  unfold uwrap. rewrite Z.mod_small by lia.
  destruct r as [|d name'].
  - apply wp_ret. change (Q (Some (rev (wire [l]) ++ q)) h) in HQ.
    rewrite wire_cons in HQ. change (wire []) with (@nil Z) in HQ.
    rewrite app_nil_r in HQ. cbn [rev] in HQ. by rewrite <- app_assoc in HQ.
  - apply IH; [unfold Zlen in Hlen; cbn in *; lia|
      rewrite Zlen_app, Zlen_rev, !Zlen_cons in *; lia|].
    destruct (parse_name fuel name') as [ls|]; [|done].
    change (Q (Some (rev (wire (l :: ls)) ++ q)) h) in HQ. rewrite wire_cons in HQ.
    cbn [rev] in HQ. by rewrite rev_app_distr, <- !app_assoc in HQ.
Qed.

(** ** The query that is built *)

(** The bytes of the query for labels [ls]. *)
Definition query_bytes (ls : list (list Z)) (dnsclass type id : Z) (rd : bool)
    (max_udp_size : Z) : list Z :=
  query_header id rd (negb (max_udp_size =? 0)) ++ wire ls ++ [0] ++
  DNS__SET16BIT type ++ DNS__SET16BIT dnsclass ++
  (if max_udp_size =? 0 then [] else edns_record max_udp_size).

Lemma query_header_length id rd edns : Zlen (query_header id rd edns) = HFIXEDSZ.
Proof. by destruct rd, edns. Qed.

Lemma edns_record_length sz : Zlen (edns_record sz) = EDNSFIXEDSZ.
Proof. done. Qed.

Definition query_name (name : list Z) : list Z :=
  if decide (name = [ch_dot]) then [] else name.

(** The first allocation fails. *)
Definition alloc_fails (h : heap) : Prop := head (oracle h) = Some false.

Lemma wp_malloc_exact h (Q : bool -> heap -> Prop) :
  (~ alloc_fails h -> Q true (Heap (live h + 1) (tail (oracle h)))) ->
  (alloc_fails h -> Q false (Heap (live h) (tail (oracle h)))) ->
  wp c_malloc h Q.
Proof.
  unfold wp, c_malloc, alloc_fails. intros Ht Hf.
  destruct (oracle h) as [|[] o]; [by apply Ht|by apply Ht|by apply Hf].
Qed.

(** The three outcomes of [ares_create_query]: its one allocation fails; the name
    has a label that is empty or too long, or is too long itself; or the query is
    built. *)
Definition create_query_post (name : list Z) (dnsclass type id : Z) (rd : bool) (sz : Z)
    (h : heap) (r : status + list Z) (h' : heap) : Prop :=
  let parsed := parse_name (S (length (query_name name))) (query_name name) in
  match r with
  | inl ARES_ENOMEM => live h' = live h /\ alloc_fails h
  | inl ARES_EBADNAME => live h' = live h /\ ~ alloc_fails h /\
      forall ls, parsed = Some ls -> MAXCDNAME < Zlen (wire ls) + 1
  | inl _ => False
  | inr buf => live h' = live h + 1 /\ ~ alloc_fails h /\
      exists ls, parsed = Some ls /\ Zlen (wire ls) + 1 <= MAXCDNAME /\
        buf = query_bytes ls dnsclass type id rd sz
  end.

(** The final length check. *)
Lemma create_query_tail name dnsclass type id rd sz h o ls q5 e :
  0 <= live h -> ~ alloc_fails h ->
  parse_name (S (length (query_name name))) (query_name name) = Some ls ->
  Zlen q5 = HFIXEDSZ + Zlen (wire ls) + 1 + QFIXEDSZ + e ->
  rev q5 = query_bytes ls dnsclass type id rd sz ->
  wp (if MAXCDNAME + HFIXEDSZ + QFIXEDSZ + e <? Zlen q5
      then c_free;; mret (inl ARES_EBADNAME) else mret (inr (rev q5)))
     (Heap (live h + 1) o) (create_query_post name dnsclass type id rd sz h).
Proof.
  intros Hlive Hal Hp Hl Hr. rewrite Hl.
  destruct (Z.ltb_spec (MAXCDNAME + HFIXEDSZ + QFIXEDSZ + e)
              (HFIXEDSZ + Zlen (wire ls) + 1 + QFIXEDSZ + e)).
  - do 3 wp_step. split; cbn [live]; [lia|]. split; [done|]. rewrite Hp. intros ls' [= <-]. lia.
  - wp_step. split; [done|]. split; [done|]. exists ls. split; [done|]. split; [lia|done].
Qed.

Lemma wp_ares_create_query name dnsclass type id rd sz h :
  0 <= live h ->
  wp (ares_create_query name dnsclass type id rd sz) h
     (create_query_post name dnsclass type id rd sz h).
Proof.
  intros Hlive. unfold ares_create_query. fold (query_name name).
  pose proof (Zlen_nonneg name) as Hnn.
  assert (Hqn : Zlen (query_name name) <= Zlen name)
    by (unfold query_name; case_decide; [rewrite Zlen_nil|]; lia).
  set (edns := negb (sz =? 0)). set (e := if edns then EDNSFIXEDSZ else 0).
  assert (He : 0 <= e) by (unfold e; by destruct edns).
  set (cap := Zlen name + 2 + HFIXEDSZ + QFIXEDSZ + e).
  wp_step. apply wp_malloc_exact; intros Hal; cbn [negb]; [|by wp_step].
  wp_step. apply wp_put_chars;
    [rewrite query_header_length, Zlen_nil; unfold cap, HFIXEDSZ, QFIXEDSZ; lia|].
  rewrite app_nil_r. wp_step. apply wp_query_name_loop;
    [lia|rewrite Zlen_rev, query_header_length; unfold cap, HFIXEDSZ, QFIXEDSZ; lia|].
  destruct (parse_name _ _) as [ls|] eqn:Hp; cbn [fmap option_fmap option_map].
  2: { do 3 wp_step. split; cbn [live]; [lia|]. split; [done|]. rewrite Hp. by intros ls. }
  pose proof (parse_name_ok _ _ _ Hp) as [_ Hw]. pose proof (Zlen_nonneg (wire ls)).
  set (q1 := rev (wire ls) ++ rev (query_header id rd edns)).
  assert (Hq1 : Zlen q1 = HFIXEDSZ + Zlen (wire ls))
    by (unfold q1; rewrite Zlen_app, !Zlen_rev, query_header_length; lia).
  assert (Hcap : Zlen q1 + 5 + e <= cap)
    by (rewrite Hq1; unfold cap, HFIXEDSZ, QFIXEDSZ; lia).
  wp_step. apply wp_put_char; [lia|]. wp_step.
  apply wp_put_chars; [rewrite Zlen_cons; change (Zlen (DNS__SET16BIT type)) with 2; lia|].
  set (q3 := rev (DNS__SET16BIT type) ++ 0 :: q1).
  assert (Hq3 : Zlen q3 = Zlen q1 + 3) by (unfold q3; rewrite Zlen_app, Zlen_cons, Zlen_rev;
    change (Zlen (DNS__SET16BIT type)) with 2; lia).
  wp_step. apply wp_put_chars; [change (Zlen (DNS__SET16BIT dnsclass)) with 2; lia|].
  set (q4 := rev (DNS__SET16BIT dnsclass) ++ q3).
  assert (Hq4 : Zlen q4 = Zlen q1 + 5) by (unfold q4; rewrite Zlen_app, Zlen_rev;
    change (Zlen (DNS__SET16BIT dnsclass)) with 2; lia).
  assert (Hrev : rev q4 = query_header id rd edns ++ wire ls ++ [0] ++
                  DNS__SET16BIT type ++ DNS__SET16BIT dnsclass).
  { unfold q4, q3, q1. rewrite !rev_app_distr, !rev_involutive. cbn [rev].
    rewrite rev_app_distr, !rev_involutive. by rewrite <- !app_assoc. }
  wp_step. unfold e, edns in *. destruct (sz =? 0) eqn:Esz; cbn [negb] in *.
  - apply wp_ret. apply create_query_tail with ls; [done|done|done|unfold QFIXEDSZ; lia|].
    rewrite Hrev. unfold query_bytes. by rewrite Esz, !app_nil_r.
  - apply wp_put_chars; [rewrite edns_record_length; lia|].
    apply create_query_tail with ls; [done|done|done|
      rewrite Zlen_app, Zlen_rev, edns_record_length; unfold QFIXEDSZ; lia|].
    rewrite rev_app_distr, rev_involutive, Hrev. unfold query_bytes.
    rewrite Esz. by rewrite <- !app_assoc.
Qed.

(** ** Round trip: a name written by [ares_create_query] is read back by
    [ares_expand_name] *)

Definition byte_ok (b : Z) : Prop := 0 <= b < 256.

Lemma expanded_cons l ls :
  expanded (l :: ls) =
    (l ≫= escape) ++ match ls with [] => [] | _ => ch_dot :: expanded ls end.
Proof.
  unfold expanded. rewrite name_text_cons, rev_app_distr. cbn [rev].
  destruct ls as [|l' ls].
  - cbn. by rewrite rev_involutive, app_nil_r.
  - destruct (rev (name_text (l' :: ls))) as [|x t] eqn:E.
    { apply (f_equal length) in E. rewrite length_rev, name_text_cons, length_app in E.
      cbn in E. lia. }
    cbn. rewrite !rev_app_distr, rev_involutive. cbn. by rewrite <- ?app_assoc.
Qed.

Lemma parse_label_escape l rest :
  (rest = [] \/ exists t, rest = ch_dot :: t) ->
  parse_label ((l ≫= escape) ++ rest) = (l, rest).
Proof.
  intros Hr. induction l as [|c l IH].
  { by destruct Hr as [->|[t ->]]. }
  rewrite bind_cons, <- app_assoc. unfold escape at 1, is_special.
  destruct (Z.eqb_spec c ch_dot) as [->|]; [cbn [orb]|].
  { change (([ch_bslash; ch_dot]) ++ ?x) with (ch_bslash :: ch_dot :: x).
    rewrite parse_label_cons. cbn [Z.eqb ch_bslash ch_dot Pos.eqb]. by rewrite IH. }
  destruct (Z.eqb_spec c ch_bslash) as [->|]; cbn [orb].
  { change (([ch_bslash; ch_bslash]) ++ ?x) with (ch_bslash :: ch_bslash :: x).
    rewrite parse_label_cons. cbn [Z.eqb ch_bslash ch_dot Pos.eqb]. by rewrite IH. }
  change ([c] ++ ?x) with (c :: x). rewrite parse_label_cons.
  destruct (Z.eqb_spec c ch_dot); [done|]. destruct (Z.eqb_spec c ch_bslash); [done|].
  by rewrite IH.
Qed.

Lemma escape_head l : 0 < Zlen l -> exists c t, (l ≫= escape) = c :: t /\ c <> ch_dot.
Proof.
  destruct l as [|c l]; [done|]. intros _. rewrite bind_cons. unfold escape, is_special at 1.
  destruct (Z.eqb_spec c ch_dot) as [->|]; cbn [orb]; [by eexists _, _|].
  destruct (Z.eqb_spec c ch_bslash) as [->|]; cbn [orb]; by eexists _, _.
Qed.

Lemma parse_name_expanded ls fuel :
  Forall label_ok ls -> (length (expanded ls) < fuel)%nat ->
  parse_name fuel (expanded ls) = Some ls.
Proof.
  intros Hok; revert fuel; induction Hok as [|l ls Hl Hok IH]; intros [|fuel] Hf; try lia;
    [done|]. cbn [parse_name]. rewrite expanded_cons in *.
  set (rest := match ls with [] => [] | _ => ch_dot :: expanded ls end) in *.
  assert (Hrest : rest = [] \/ exists t, rest = ch_dot :: t)
    by (unfold rest; destruct ls; eauto).
  destruct (escape_head l) as (c & t & Hc & Hcd); [apply Hl|].
  pose proof (parse_label_escape l rest Hrest) as Hp. rewrite Hc in *. cbn [app] in *.
  destruct (Z.eqb_spec c ch_dot); [done|]. rewrite Hp.
  destruct (Z.ltb_spec MAXLABEL (Zlen l)); [destruct Hl; lia|].
  destruct ls as [|l' ls]; [done|]. unfold rest. rewrite IH; [done|].
  unfold rest in Hf. cbn [length] in Hf. rewrite length_app in Hf. cbn [length] in Hf. lia.
Qed.

Lemma query_name_expanded ls : Forall label_ok ls -> query_name (expanded ls) = expanded ls.
Proof.
  intros Hok. unfold query_name. case_decide as H; [exfalso|done].
  destruct Hok as [|l ls Hl Hok]; [done|]. rewrite expanded_cons in H.
  destruct (escape_head l) as (c & t & Hc & Hcd); [apply Hl|].
  rewrite Hc in H. cbn in H. congruence.
Qed.

Lemma byte_at_app pre x post :
  byte_ok x -> byte_at (pre ++ x :: post) (Zlen pre) = Some x.
Proof.
  intros Hx. unfold byte_at, Zlen. destruct (Z.leb_spec 0 (Z.of_nat (length pre))); [|lia].
  rewrite Nat2Z.id, list_lookup_middle by done. cbn. by rewrite Z.mod_small.
Qed.

Lemma slice_app pre l post :
  Forall byte_ok l -> slice (pre ++ l ++ post) (Zlen pre) (length l) = l.
Proof.
  intros Hl. unfold slice, Zlen. rewrite Nat2Z.id, drop_app_length, take_app_length.
  induction Hl as [|x l Hx Hl IH]; [done|]. cbn. by rewrite IH, Z.mod_small.
Qed.

Lemma name_at_wire ls pre post :
  Forall label_ok ls -> Forall (Forall byte_ok) ls ->
  exists tr, name_at (pre ++ wire ls ++ 0 :: post) (Zlen pre) ls (Zlen (wire ls) + 1) tr.
Proof.
  intros Hok; revert pre; induction Hok as [|l ls Hl Hok IH]; intros pre Hb.
  { exists [Zlen pre]. constructor. by apply byte_at_app. }
  apply Forall_cons in Hb as [Hbl Hb].
  destruct (IH (pre ++ Zlen l :: l) Hb) as [tr Htr].
  set (buf := pre ++ wire (l :: ls) ++ 0 :: post).
  assert (Hbuf : (pre ++ Zlen l :: l) ++ wire ls ++ 0 :: post = buf)
    by (unfold buf; rewrite wire_cons; cbn; by rewrite <- !app_assoc).
  rewrite Hbuf in Htr. unfold label_ok, MAXLABEL in Hl.
  assert (Hs : slice buf (Zlen pre + 1) (Z.to_nat (Zlen l)) = l).
  { unfold buf. rewrite wire_cons. cbn [app]. rewrite <- app_assoc, cons_middle, app_assoc.
    replace (Zlen pre + 1) with (Zlen (pre ++ [Zlen l])) by (rewrite Zlen_app; done).
    replace (Z.to_nat (Zlen l)) with (length l) by (unfold Zlen; lia).
    by apply slice_app. }
  exists (Zlen pre :: tr).
  replace (Zlen (wire (l :: ls)) + 1) with (Zlen l + 1 + (Zlen (wire ls) + 1))
    by (rewrite wire_cons, Zlen_cons, Zlen_app; lia).
  rewrite <- Hs at 1. apply name_label.
  - unfold buf. rewrite wire_cons. cbn [app]. apply byte_at_app. unfold byte_ok. lia.
  - lia.
  - unfold buf. rewrite wire_cons, !Zlen_app. cbn [app]. rewrite !Zlen_cons, Zlen_app.
    pose proof (Zlen_nonneg (wire ls)). pose proof (Zlen_nonneg post). lia.
  - replace (Zlen pre + Zlen l + 1) with (Zlen (pre ++ Zlen l :: l))
      by (rewrite Zlen_app, Zlen_cons; lia). done.
Qed.

(** ** Properties *)

(** C36. [ares_create_query] never writes outside the block it allocates,
    whatever the name, and on success returns exactly the RFC 1035 query for
    the labels of the name, in the block it allocated. It fails with
    [ARES_ENOMEM] exactly when that allocation fails, and otherwise with
    [ARES_EBADNAME], the block freed, exactly when the name has an empty label, a
    label of more than 63 bytes or an encoding of more than 255 bytes. *)
Theorem ares_create_query_correct name dnsclass type id rd sz h :
  0 <= live h ->
  wp (ares_create_query name dnsclass type id rd sz) h
     (create_query_post name dnsclass type id rd sz h).
Proof. apply wp_ares_create_query. Qed.

(** ["a.b"], and a name that ends in a backslash, which the historic
    off-by-one of this function wrote past its buffer for. *)
Definition ex_name : list Z := [97; 46; 98; 92].

Lemma ares_create_query_correct_witness :
  exists r h', ares_create_query ex_name 1 1 7 true 0 (Heap 0 []) = Ret r h' /\
    r = inr [0; 7; 1; 0; 0; 1; 0; 0; 0; 0; 0; 0; 1; 97; 2; 98; 92; 0; 0; 1; 0; 1] /\
    create_query_post ex_name 1 1 7 true 0 (Heap 0 []) r h'.
Proof.
  pose proof (ares_create_query_correct ex_name 1 1 7 true 0 (Heap 0 []) ltac:(cbn; lia)) as H.
  eexists _, _. split; [vm_compute; reflexivity|]. split; [reflexivity|exact H].
Defined.

(** Round trip: for any list of labels of 1 to 63 bytes whose encoding
    fits in 255 bytes, building a query for the text of the name and expanding
    the name found after the header gives the text back, and tells the caller
    to skip exactly the encoded name. *)
Theorem create_query_expand_roundtrip ls dnsclass type id rd sz h :
  Forall label_ok ls -> Forall (Forall byte_ok) ls -> Zlen (wire ls) + 1 <= MAXCDNAME ->
  0 <= live h ->
  wp (ares_create_query (expanded ls) dnsclass type id rd sz) h (fun r _ =>
    r = inl ARES_ENOMEM \/
    exists buf, r = inr buf /\ forall h2,
      wp (ares_expand_name buf HFIXEDSZ) h2 (fun r2 _ =>
        r2 = inl ARES_ENOMEM \/ r2 = inr (expanded ls, Zlen (wire ls) + 1))).
Proof.
  intros Hok Hb Hlen Hlive.
  eapply wp_mono; [by apply wp_ares_create_query|].
  intros [st|buf] h' Hpost; unfold create_query_post in Hpost;
    rewrite query_name_expanded, parse_name_expanded in Hpost by (done || lia).
  - destruct st; try done; [|by left]. destruct Hpost as [_ Hpost].
    destruct Hpost as [_ Hpost]. specialize (Hpost ls eq_refl). lia.
  - destruct Hpost as (_ & _ & ls' & [= <-] & _ & ->). right. eexists. split; [done|]. intros h2.
    set (buf := query_bytes ls dnsclass type id rd sz).
    assert (Hbl : Zlen buf <= 32767).
    { unfold buf, query_bytes. rewrite !Zlen_app, query_header_length.
      change (Zlen (DNS__SET16BIT type)) with 2. change (Zlen (DNS__SET16BIT dnsclass)) with 2.
      destruct (sz =? 0); rewrite ?edns_record_length, ?Zlen_nil;
        rewrite Zlen_cons, Zlen_nil; unfold HFIXEDSZ, EDNSFIXEDSZ, MAXCDNAME in *; lia. }
    destruct (name_at_wire ls (query_header id rd (negb (sz =? 0)))
      (DNS__SET16BIT type ++ DNS__SET16BIT dnsclass ++
       (if sz =? 0 then [] else edns_record sz)) Hok Hb) as [tr Htr].
    rewrite query_header_length in Htr. change (name_at buf HFIXEDSZ ls (Zlen (wire ls) + 1) tr) in Htr.
    eapply wp_mono; [apply wp_ares_expand_name; [done|unfold HFIXEDSZ; lia]|].
    intros [st|[s k]] h3; cbn.
    + destruct st; try done; [|by left]. intros [_ Hno]. by apply Hno in Htr.
    + intros (_ & _ & ls' & tr' & Hn & ->). right.
      by destruct (name_at_det _ _ _ _ _ _ _ _ Hn Htr) as (-> & -> & _).
Qed.

Lemma create_query_expand_roundtrip_witness :
  wp (ares_create_query (expanded [[97; 46]; [98]]) 1 28 3 false 1280) (Heap 2 [true])
    (fun r _ => r = inl ARES_ENOMEM \/
      exists buf, r = inr buf /\ forall h2,
        wp (ares_expand_name buf HFIXEDSZ) h2 (fun r2 _ =>
          r2 = inl ARES_ENOMEM \/ r2 = inr ([97; 92; 46; 46; 98], 6))).
Proof.
  apply (create_query_expand_roundtrip [[97; 46]; [98]] 1 28 3 false 1280 (Heap 2 [true])).
  - repeat constructor; vm_compute; discriminate.
  - repeat constructor; unfold byte_ok; lia.
  - vm_compute. discriminate.
  - cbn. lia.
Defined.
