(* ===== verification/ParseList.v ===== *)
(** * Replies returned as lists of records (c-ares)

    Models, in src/Scylla-moon/seastar/c-ares, [ares_malloc_data] and
    [ares_free_data] of ares_data.c for the record types below and the parsers
    [ares_parse_mx_reply], [ares_parse_srv_reply], [ares_parse_naptr_reply],
    [ares__parse_txt_reply] with its two wrappers, and [ares_parse_soa_reply].

    A linked list of [ares_data] nodes is a Rocq list; a [char *] field is
    [None] for NULL. Every node and every non-null field is one heap block. *)

From S2P Require Import Prelude DnsWire.
Open Scope Z_scope.

(** ** The record types of ares.h *)

Record ares_mx_reply := Mx { mx_host : option (list Z); mx_priority : Z }.

Record ares_srv_reply := Srv {
  srv_host : option (list Z); srv_priority : Z; srv_weight : Z; srv_port : Z }.

Record ares_txt_ext := Txt {
  txt_txt : option (list Z); txt_length : Z; txt_record_start : bool }.

Record ares_naptr_reply := Naptr {
  naptr_flags : option (list Z); naptr_service : option (list Z);
  naptr_regexp : option (list Z); naptr_replacement : option (list Z);
  naptr_order : Z; naptr_preference : Z }.

Record ares_soa_reply := Soa {
  soa_nsname : option (list Z); soa_hostmaster : option (list Z);
  soa_serial : Z; soa_refresh : Z; soa_retry : Z; soa_expire : Z; soa_minttl : Z }.

(** The server addresses of [ares_get_servers] ([family] is 0 when unset). *)
Record ares_addr_node := AddrNode { an_family : Z; an_addr : list Z }.

Record ares_addr_port_node := AddrPortNode {
  apn_family : Z; apn_addr : list Z; apn_udp_port : Z; apn_tcp_port : Z }.

(** ** ares_data.c

    A data type of the [switch (ptr->type)] in [ares_malloc_data] and
    [ares_free_data]: the zero-initialised node, and its pointer fields in the
    order they are released. *)
Class ares_data (A : Type) := AresData {
  data_zero : A; data_fields : A -> list (option (list Z)) }.

#[export] Instance mx_data : ares_data ares_mx_reply :=
  AresData _ (Mx None 0) (fun r => [mx_host r]).
#[export] Instance srv_data : ares_data ares_srv_reply :=
  AresData _ (Srv None 0 0 0) (fun r => [srv_host r]).
#[export] Instance txt_data : ares_data ares_txt_ext :=
  AresData _ (Txt None 0 false) (fun r => [txt_txt r]).
#[export] Instance addr_node_data : ares_data ares_addr_node :=
  AresData _ (AddrNode 0 (repeat 0 16)) (fun _ => []).
#[export] Instance addr_port_node_data : ares_data ares_addr_port_node :=
  AresData _ (AddrPortNode 0 (repeat 0 16) 0 0) (fun _ => []).
#[export] Instance naptr_data : ares_data ares_naptr_reply :=
  AresData _ (Naptr None None None None 0 0) (fun r =>
    [naptr_flags r; naptr_service r; naptr_regexp r; naptr_replacement r]).
#[export] Instance soa_data : ares_data ares_soa_reply :=
  AresData _ (Soa None None 0 0 0 0 0) (fun r => [soa_nsname r; soa_hostmaster r]).

Fixpoint free_fields (fs : list (option (list Z))) : M unit :=
  match fs with [] => mret () | f :: fs' => c_free_opt f ;; free_fields fs' end.

(** [ares_free_data]: the rest of the list first, then the fields, then the
    node. *)
Fixpoint ares_free_data {A : Type} `{Hd : ares_data A} (l : list A) : M unit :=
  match l with
  | [] => mret ()
  | x :: next => ares_free_data next ;; free_fields (data_fields x) ;; c_free
  end.

(** [ares_malloc_data]: NULL, or a zero-initialised node. *)
Definition ares_malloc_data {A : Type} `{Hd : ares_data A} : M (option A) :=
  ok ← c_malloc; mret (if ok : bool then Some data_zero else None).

(** The blocks a list owns. *)
Definition node_blocks {A : Type} `{Hd : ares_data A} (x : A) : Z :=
  1 + foldr (fun f n => blocks_opt f + n) 0 (data_fields x).

Definition list_blocks {A : Type} `{Hd : ares_data A} (l : list A) : Z :=
  foldr (fun x n => node_blocks x + n) 0 l.
Arguments list_blocks : simpl never.

Section parse.
Variable abuf : list Z.
Local Abbreviation alen := (Zlen abuf).

(** ** The loop over the answer records

    The four list parsers share this text: decode one RR up to its data
    field, run the body that inspects the record, release [rr_name], go to the
    next record. [body] gets the type, class, data length and data pointer and
    the list built so far; a status other than success is a [break]. The third
    component of the result tells whether [rr_name] is still allocated. *)
Section rr_loop.
Context {A : Type}.
Variable body : Z -> Z -> Z -> Z -> list A -> M (status * list A).

Fixpoint rr_loop (i : nat) (aptr : Z) (acc : list A) : M (status * list A * bool) :=
  match i with
  | O => mret (ARES_SUCCESS, acc, false)
  | S i' =>
      r ← ares_expand_name abuf aptr;
      match r with
      | inl st => mret (st, acc, false)
      | inr (rr_name, len) =>
          let aptr := aptr + len in
          if alen <? aptr + RRFIXEDSZ then mret (ARES_EBADRESP, acc, true)
          else
            rr_type ← DNS_RR_TYPE abuf aptr;
            rr_class ← DNS_RR_CLASS abuf aptr;
            rr_len ← DNS_RR_LEN abuf aptr;
            let aptr := aptr + RRFIXEDSZ in
            if alen <? aptr + rr_len then mret (ARES_EBADRESP, acc, true)
            else
              '(st, acc') ← body rr_type rr_class rr_len aptr acc;
              if decide (st = ARES_SUCCESS)
              then c_free ;; rr_loop i' (aptr + rr_len) acc'
              else mret (st, acc', true)
      end
  end.

(** The text around the loop: header, question, clean-up. *)
Definition parse_list_reply `{Hd : ares_data A} : M (status + list A) :=
  if alen <? HFIXEDSZ then mret (inl ARES_EBADRESP)
  else
    qdcount ← DNS_HEADER_QDCOUNT abuf;
    ancount ← DNS_HEADER_ANCOUNT abuf;
    if negb (qdcount =? 1) then mret (inl ARES_EBADRESP)
    else if ancount =? 0 then mret (inl ARES_ENODATA)
    else
      let aptr := HFIXEDSZ in
      r ← ares_expand_name abuf aptr;
      match r with
      | inl st => mret (inl st)
      | inr (hostname, len) =>
          if alen <? aptr + len + QFIXEDSZ
          then c_free ;; mret (inl ARES_EBADRESP)
          else
            let aptr := aptr + (len + QFIXEDSZ) in
            '(st, l, rr_name) ← rr_loop (Z.to_nat ancount) aptr [];
            c_free ;;                                       (* hostname *)
            (if rr_name : bool then c_free else mret ()) ;;
            if decide (st = ARES_SUCCESS) then mret (inr l)
            else ares_free_data l ;; mret (inl st)
      end.
End rr_loop.

(** ** MX *)
Definition mx_body (rr_type rr_class rr_len aptr : Z) (acc : list ares_mx_reply)
    : M (status * list ares_mx_reply) :=
  if (rr_class =? C_IN) && (rr_type =? T_MX) then
    if rr_len <? 2 then mret (ARES_EBADRESP, acc)
    else
      mx_curr ← ares_malloc_data (A := ares_mx_reply);
      match mx_curr with
      | None => mret (ARES_ENOMEM, acc)
      | Some _ =>
          priority ← DNS__16BIT abuf aptr;
          let vptr := aptr + 2 in
          r ← ares_expand_name abuf vptr;
          match r with
          | inl st => mret (st, acc ++ [Mx None priority])
          | inr (host, _) => mret (ARES_SUCCESS, acc ++ [Mx (Some host) priority])
          end
      end
  else mret (ARES_SUCCESS, acc).

Definition ares_parse_mx_reply : M (status + list ares_mx_reply) :=
  parse_list_reply mx_body.

(** ** SRV *)
Definition srv_body (rr_type rr_class rr_len aptr : Z) (acc : list ares_srv_reply)
    : M (status * list ares_srv_reply) :=
  if (rr_class =? C_IN) && (rr_type =? T_SRV) then
    if rr_len <? 6 then mret (ARES_EBADRESP, acc)
    else
      srv_curr ← ares_malloc_data (A := ares_srv_reply);
      match srv_curr with
      | None => mret (ARES_ENOMEM, acc)
      | Some _ =>
          priority ← DNS__16BIT abuf aptr;
          weight ← DNS__16BIT abuf (aptr + 2);
          port ← DNS__16BIT abuf (aptr + 2 + 2);
          let vptr := aptr + 2 + 2 + 2 in
          r ← ares_expand_name abuf vptr;
          match r with
          | inl st => mret (st, acc ++ [Srv None priority weight port])
          | inr (host, _) =>
              mret (ARES_SUCCESS, acc ++ [Srv (Some host) priority weight port])
          end
      end
  else mret (ARES_SUCCESS, acc).

Definition ares_parse_srv_reply : M (status + list ares_srv_reply) :=
  parse_list_reply srv_body.

(** ** NAPTR: the record length is not checked before the fields are read. *)
Definition naptr_body (rr_type rr_class rr_len aptr : Z) (acc : list ares_naptr_reply)
    : M (status * list ares_naptr_reply) :=
  if (rr_class =? C_IN) && (rr_type =? T_NAPTR) then
    naptr_curr ← ares_malloc_data (A := ares_naptr_reply);
    match naptr_curr with
    | None => mret (ARES_ENOMEM, acc)
    | Some _ =>
        order ← DNS__16BIT abuf aptr;
        preference ← DNS__16BIT abuf (aptr + 2);
        let vptr := aptr + 2 + 2 in
        r ← ares_expand_string abuf vptr;
        match r with
        | inl st => mret (st, acc ++ [Naptr None None None None order preference])
        | inr (flags, len) =>
            let vptr := vptr + len in
            r ← ares_expand_string abuf vptr;
            match r with
            | inl st => mret (st, acc ++ [Naptr (Some flags) None None None order preference])
            | inr (service, len) =>
                let vptr := vptr + len in
                r ← ares_expand_string abuf vptr;
                match r with
                | inl st => mret (st, acc ++
                    [Naptr (Some flags) (Some service) None None order preference])
                | inr (regexp, len) =>
                    let vptr := vptr + len in
                    r ← ares_expand_name abuf vptr;
                    match r with
                    | inl st => mret (st, acc ++
                        [Naptr (Some flags) (Some service) (Some regexp) None order preference])
                    | inr (replacement, _) => mret (ARES_SUCCESS, acc ++
                        [Naptr (Some flags) (Some service) (Some regexp) (Some replacement)
                               order preference])
                    end
                end
            end
        end
    end
  else mret (ARES_SUCCESS, acc).

Definition ares_parse_naptr_reply : M (status + list ares_naptr_reply) :=
  parse_list_reply naptr_body.

(** ** TXT *)

(** [while (strptr < (aptr + rr_len))]. *)
Fixpoint txt_substrings (fuel : nat) (ex : bool) (aptr rr_len strptr : Z)
    (acc : list ares_txt_ext) : M (status * list ares_txt_ext) :=
  match fuel with
  | O => no_fuel
  | S fuel' =>
      if strptr <? aptr + rr_len then
        substr_len ← get_byte abuf strptr;
        if aptr + rr_len <? strptr + substr_len + 1 then mret (ARES_EBADRESP, acc)
        else
          txt_curr ← ares_malloc_data (A := ares_txt_ext);
          match txt_curr with
          | None => mret (ARES_ENOMEM, acc)
          | Some _ =>
              let start := if ex then strptr =? aptr else false in
              ok ← c_malloc;
              if negb ok then mret (ARES_ENOMEM, acc ++ [Txt None substr_len start])
              else
                let strptr := strptr + 1 in
                txt ← get_bytes abuf strptr (Z.to_nat substr_len);
                txt_substrings fuel' ex aptr rr_len (strptr + substr_len)
                  (acc ++ [Txt (Some txt) substr_len start])
          end
      else mret (ARES_SUCCESS, acc)
  end.

Definition txt_body (ex : bool) (rr_type rr_class rr_len aptr : Z) (acc : list ares_txt_ext)
    : M (status * list ares_txt_ext) :=
  if (rr_class =? C_IN) && (rr_type =? T_TXT)
  then txt_substrings (S (Z.to_nat rr_len)) ex aptr rr_len aptr acc
  else mret (ARES_SUCCESS, acc).

Definition ares__parse_txt_reply (ex : bool) : M (status + list ares_txt_ext) :=
  parse_list_reply (txt_body ex).

Definition ares_parse_txt_reply : M (status + list ares_txt_ext) :=
  ares__parse_txt_reply false.

Definition ares_parse_txt_reply_ext : M (status + list ares_txt_ext) :=
  ares__parse_txt_reply true.

(** ** SOA: [failed_stat] releases what has been allocated so far. *)
Definition soa_failed (soa : list ares_soa_reply) (qname rr_name : option (list Z))
    (st : status) : M (status + ares_soa_reply) :=
  ares_free_data soa ;; c_free_opt qname ;; c_free_opt rr_name ;; mret (inl st).

(** From the allocation of the result on: [aptr] is the answer's data. *)
Definition soa_rdata (qname rr_name : list Z) (aptr : Z) : M (status + ares_soa_reply) :=
  let failed soa st := soa_failed soa (Some qname) (Some rr_name) st in
  soa ← ares_malloc_data (A := ares_soa_reply);
  match soa with
  | None => failed [] ARES_ENOMEM
  | Some soa0 =>
      r ← ares__expand_name_for_response abuf aptr;
      match r with
      | inl st => failed [soa0] st
      | inr (nsname, len) =>
          let aptr := aptr + len in
          r ← ares__expand_name_for_response abuf aptr;
          match r with
          | inl st => failed [Soa (Some nsname) None 0 0 0 0 0] st
          | inr (hostmaster, len) =>
              let aptr := aptr + len in
              if alen <? aptr + 5 * 4
              then failed [Soa (Some nsname) (Some hostmaster) 0 0 0 0 0] ARES_EBADRESP
              else
                serial ← DNS__32BIT abuf (aptr + 0 * 4);
                refresh ← DNS__32BIT abuf (aptr + 1 * 4);
                retry ← DNS__32BIT abuf (aptr + 2 * 4);
                expire ← DNS__32BIT abuf (aptr + 3 * 4);
                minttl ← DNS__32BIT abuf (aptr + 4 * 4);
                c_free ;; c_free ;;
                mret (inr (Soa (Some nsname) (Some hostmaster)
                            serial refresh retry expire minttl))
          end
      end
  end.

Definition ares_parse_soa_reply : M (status + ares_soa_reply) :=
  if alen <? HFIXEDSZ then mret (inl ARES_EBADRESP)
  else
    qdcount ← DNS_HEADER_QDCOUNT abuf;
    ancount ← DNS_HEADER_ANCOUNT abuf;
    if negb (qdcount =? 1) || negb (ancount =? 1) then mret (inl ARES_EBADRESP)
    else
      let aptr := HFIXEDSZ in
      r ← ares__expand_name_for_response abuf aptr;
      match r with
      | inl st => soa_failed [] None None st
      | inr (qname, len) =>
          let aptr := aptr + len in
          if alen <? aptr + QFIXEDSZ then soa_failed [] (Some qname) None ARES_EBADRESP
          else
            let aptr := aptr + QFIXEDSZ in
            r ← ares__expand_name_for_response abuf aptr;
            match r with
            | inl st => soa_failed [] (Some qname) None st
            | inr (rr_name, len) =>
                let aptr := aptr + len in
                if alen <? aptr + RRFIXEDSZ
                then soa_failed [] (Some qname) (Some rr_name) ARES_EBADRESP
                else soa_rdata qname rr_name (aptr + RRFIXEDSZ)
            end
      end.

End parse.

(** ** What the answer section of a message holds *)

Definition u16_at (buf : list Z) (p v : Z) : Prop :=
  exists b0 b1, byte_at buf p = Some b0 /\ byte_at buf (p + 1) = Some b1 /\ v = b0 * 256 + b1.

Definition u32_at (buf : list Z) (p v : Z) : Prop :=
  exists b0 b1 b2 b3, byte_at buf p = Some b0 /\ byte_at buf (p + 1) = Some b1 /\
    byte_at buf (p + 2) = Some b2 /\ byte_at buf (p + 3) = Some b3 /\
    v = ((b0 * 256 + b1) * 256 + b2) * 256 + b3.

Record rr := RR {
  rr_name : list Z; rr_type : Z; rr_class : Z; rr_ttl : Z; rr_len : Z; rr_data : Z }.

(** [rrs_at abuf n p l]: from offset [p] the message holds the [n] resource
    records [l]: owner name, type, class, TTL, and where the data is. *)
Inductive rrs_at (abuf : list Z) : nat -> Z -> list rr -> Prop :=
| rrs_nil p : rrs_at abuf 0 p []
| rrs_cons n p ls k tr t c ttl l rest :
    name_at abuf p ls k tr -> u16_at abuf (p + k) t -> u16_at abuf (p + k + 2) c ->
    u32_at abuf (p + k + 4) ttl -> u16_at abuf (p + k + 8) l ->
    p + k + RRFIXEDSZ + l <= Zlen abuf ->
    rrs_at abuf n (p + k + RRFIXEDSZ + l) rest ->
    rrs_at abuf (S n) p (RR (expanded ls) t c ttl l (p + k + RRFIXEDSZ) :: rest).

(** A reply: one question, then the answer records [l], at least one. *)
Definition reply_rrs (abuf : list Z) (l : list rr) : Prop :=
  exists ls k tr ancount, u16_at abuf 4 1 /\ u16_at abuf 6 ancount /\ 0 < ancount /\
    name_at abuf HFIXEDSZ ls k tr /\
    rrs_at abuf (Z.to_nat ancount) (HFIXEDSZ + (k + QFIXEDSZ)) l.

(** ** Allocation of lists *)

Section blocks.
Context {A : Type} `{Hd : ares_data A}.

Lemma fields_blocks_nonneg (fs : list (option (list Z))) :
  0 <= foldr (fun f n => blocks_opt f + n) 0 fs.
Proof.
  induction fs as [|f fs IH]; cbn; [done|]. pose proof (blocks_opt_nonneg f). lia.
Qed.

Lemma node_blocks_pos (x : A) : 0 < node_blocks x.
Proof. unfold node_blocks. pose proof (fields_blocks_nonneg (data_fields x)). lia. Qed.

Lemma list_blocks_nonneg (l : list A) : 0 <= list_blocks l.
Proof.
  induction l as [|x l IH]; [done|]. change (0 <= node_blocks x + list_blocks l).
  pose proof (node_blocks_pos x). lia.
Qed.

Lemma list_blocks_app (l1 l2 : list A) :
  list_blocks (l1 ++ l2) = list_blocks l1 + list_blocks l2.
Proof.
  induction l1 as [|x l1 IH]; [done|].
  change (node_blocks x + list_blocks (l1 ++ l2) =
          node_blocks x + list_blocks l1 + list_blocks l2). lia.
Qed.

Lemma list_blocks_snoc (l : list A) x :
  list_blocks (l ++ [x]) = list_blocks l + node_blocks x.
Proof. rewrite list_blocks_app. unfold list_blocks at 2. cbn [foldr]. lia. Qed.

Lemma wp_free_fields fs h (Q : unit -> heap -> Prop) :
  foldr (fun f n => blocks_opt f + n) 0 fs <= live h ->
  Q () (Heap (live h - foldr (fun f n => blocks_opt f + n) 0 fs) (oracle h)) ->
  wp (free_fields fs) h Q.
Proof.
  revert h; induction fs as [|f fs IH]; intros h Hl HQ; cbn [free_fields foldr] in *.
  - apply wp_ret. rewrite Z.sub_0_r in HQ. by destruct h.
  - pose proof (blocks_opt_nonneg f). pose proof (fields_blocks_nonneg fs).
    wp_step. apply wp_free_opt; [lia|]. apply IH; cbn [live oracle]; [lia|].
    by rewrite Z.sub_add_distr in HQ.
Qed.

Lemma wp_free_data (l : list A) h (Q : unit -> heap -> Prop) :
  list_blocks l <= live h ->
  Q () (Heap (live h - list_blocks l) (oracle h)) -> wp (ares_free_data l) h Q.
Proof.
  revert h Q; induction l as [|x l IH]; intros h Q Hl HQ; cbn [ares_free_data].
  - apply wp_ret. change (list_blocks []) with 0 in HQ. rewrite Z.sub_0_r in HQ. by destruct h.
  - change (list_blocks (x :: l)) with (node_blocks x + list_blocks l) in *.
    unfold node_blocks in *. pose proof (fields_blocks_nonneg (data_fields x)).
    wp_step. apply IH; [lia|]. wp_step. apply wp_free_fields; cbn [live oracle]; [lia|].
    wp_step. eapply eq_ind; [exact HQ|]. f_equal. lia.
Qed.

Lemma wp_malloc_data h (Q : option A -> heap -> Prop) :
  (forall o, (oracle h = [] -> o = []) -> Q (Some data_zero) (Heap (live h + 1) o)) ->
  (forall o, oracle h <> [] -> Q None (Heap (live h) o)) ->
  wp ares_malloc_data h Q.
Proof. intros H1 H2. unfold ares_malloc_data. wp_step. wp_step; wp_step; auto. Qed.

End blocks.

Lemma u16_at_det buf p v v' : u16_at buf p v -> u16_at buf p v' -> v = v'.
Proof. intros (?&?&?&?&->) (?&?&?&?&->). by simplify_eq. Qed.

Lemma wp_u16 buf p h (Q : Z -> heap -> Prop) :
  0 <= p -> p + 2 <= Zlen buf ->
  (forall v, u16_at buf p v -> 0 <= v < 65536 -> Q v h) -> wp (DNS__16BIT buf p) h Q.
Proof.
  intros Hp Hl HQ. apply wp_DNS__16BIT; [done..|]. intros b0 b1 H0 H1 Hr.
  apply HQ; [by exists b0, b1|done].
Qed.

Lemma wp_u32 buf p h (Q : Z -> heap -> Prop) :
  0 <= p -> p + 4 <= Zlen buf ->
  (forall v, u32_at buf p v -> 0 <= v < 2 ^ 32 -> Q v h) -> wp (DNS__32BIT buf p) h Q.
Proof.
  intros Hp Hl HQ. apply wp_DNS__32BIT; [done..|]. intros b0 b1 b2 b3 H0 H1 H2 H3 Hr.
  apply HQ; [by exists b0, b1, b2, b3|done].
Qed.

Lemma u32_at_ex buf p : 0 <= p -> p + 4 <= Zlen buf -> exists v, u32_at buf p v.
Proof.
  intros Hp Hl.
  destruct (byte_at_in buf p) as (b0 & H0 & _); [lia|].
  destruct (byte_at_in buf (p + 1)) as (b1 & H1 & _); [lia|].
  destruct (byte_at_in buf (p + 2)) as (b2 & H2 & _); [lia|].
  destruct (byte_at_in buf (p + 3)) as (b3 & H3 & _); [lia|].
  by eexists; exists b0, b1, b2, b3.
Qed.

Lemma u32_at_det buf p v v' : u32_at buf p v -> u32_at buf p v' -> v = v'.
Proof. intros (?&?&?&?&?&?&?&?&->) (?&?&?&?&?&?&?&?&->). by simplify_eq. Qed.

(** ** Reading back a sequence of records *)

Lemma rrs_at_truncated abuf n p rrs ls k tr :
  name_at abuf p ls k tr -> Zlen abuf < p + k + RRFIXEDSZ -> ~ rrs_at abuf (S n) p rrs.
Proof.
  intros Hn Hlt Hr. inversion Hr as [|? ? ? ? ? ? ? ? ? ? Hn' _ _ _ (?&?&_&Hb&_)]; subst.
  destruct (name_at_det _ _ _ _ _ _ _ _ Hn Hn') as (_ & <- & _).
  apply byte_at_Some in Hb. change RRFIXEDSZ with 10 in *. lia.
Qed.

Lemma rrs_at_inv abuf n p rrs ls k tr t c ttl l :
  name_at abuf p ls k tr -> u16_at abuf (p + k) t -> u16_at abuf (p + k + 2) c ->
  u32_at abuf (p + k + 4) ttl -> u16_at abuf (p + k + 8) l ->
  rrs_at abuf (S n) p rrs ->
  exists rest, p + k + RRFIXEDSZ + l <= Zlen abuf /\
    rrs_at abuf n (p + k + RRFIXEDSZ + l) rest /\
    rrs = RR (expanded ls) t c ttl l (p + k + RRFIXEDSZ) :: rest.
Proof.
  intros Hn Ht Hc Hx Hl Hr.
  inversion Hr as [|? ? ? ? ? ? ? ? ? ? Hn' Ht' Hc' Hx' Hl']; subst.
  destruct (name_at_det _ _ _ _ _ _ _ _ Hn Hn') as (-> & <- & _).
  rewrite (u16_at_det _ _ _ _ Ht Ht'), (u16_at_det _ _ _ _ Hc Hc') in *.
  rewrite (u16_at_det _ _ _ _ Hl Hl'), (u32_at_det _ _ _ _ Hx Hx') in *. eauto.
Qed.

(** ** The shared loop *)

Section rr_loop_spec.
Context {A : Type} `{Hd : ares_data A}.
Variable abuf : list Z.
Local Abbreviation alen := (Zlen abuf).
Variable body : Z -> Z -> Z -> Z -> list A -> M (status * list A).

(** [img r x]: the record [r] of the message contributes the nodes [x]. *)
Variable img : rr -> list A -> Prop.

Inductive images : list rr -> list A -> Prop :=
| images_nil : images [] []
| images_cons r x rrs l : img r x -> images rrs l -> images (r :: rrs) (x ++ l).

(** What the loop expects of a record body: it stays inside the message,
    accounts for every block, appends the image of the record, and fails only
    when the record has no image or an allocation fails. *)
Definition body_ok : Prop := forall name t c ttl l aptr acc h,
  0 <= aptr -> 0 <= l < 65536 -> aptr + l <= alen -> 0 <= live h ->
  wp (body t c l aptr acc) h (fun x h' =>
    live h' = live h + list_blocks x.2 - list_blocks acc /\
    match x.1 with
    | ARES_SUCCESS => (oracle h = [] -> oracle h' = []) /\
        exists new, x.2 = acc ++ new /\ img (RR name t c ttl l aptr) new
    | ARES_ENOMEM => oracle h <> []
    | _ => forall new, ~ img (RR name t c ttl l aptr) new
    end).

Hypothesis Hlen : alen <= 32767.
Hypothesis Hbody : body_ok.

Definition loop_post (i : nat) (p : Z) (acc : list A) (h : heap)
    (x : status * list A * bool) (h' : heap) : Prop :=
  live h' = live h + list_blocks x.1.2 - list_blocks acc + (if x.2 then 1 else 0) /\
  match x.1.1 with
  | ARES_SUCCESS => x.2 = false /\
      exists rrs new, rrs_at abuf i p rrs /\ x.1.2 = acc ++ new /\ images rrs new
  | ARES_ENOMEM => oracle h <> []
  | _ => forall rrs new, rrs_at abuf i p rrs -> ~ images rrs new
  end.

Lemma wp_rr_loop i p acc h :
  0 <= p -> list_blocks acc <= live h ->
  wp (rr_loop abuf body i p acc) h (loop_post i p acc h).
Proof.
  revert p acc h; induction i as [|i IH]; intros p acc h Hp Hb; cbn [rr_loop].
  { wp_step. split; cbn; [lia|]. split; [done|]. exists [], []. rewrite app_nil_r.
    repeat constructor. }
  pose proof (list_blocks_nonneg acc).
  wp_step. eapply wp_mono; [by apply wp_ares_expand_name|].
  intros [st|[s k]] h1 Hx; cbn in Hx.
  { wp_step. split; cbn; destruct st; try done; try (destruct Hx as [Hx _]; subst; lia).
    - intros rrs new Hr. inversion Hr; subst. by edestruct (proj2 Hx).
    - by destruct Hx as (_ & Ho & _). }
  destruct Hx as (Hl1 & Ho1 & ls & tr & Hn & _).
  pose proof (name_at_range _ _ _ _ _ Hn) as Hnr.
  destruct (Z.ltb_spec alen (p + k + RRFIXEDSZ)) as [Ht|Hk].
  { wp_step. split; cbn; [lia|]. intros rrs new Hr. by eapply (rrs_at_truncated abuf) in Hr. }
  unfold DNS_RR_TYPE, DNS_RR_CLASS, DNS_RR_LEN. change RRFIXEDSZ with 10 in Hk.
  wp_step. apply wp_u16; [lia|lia|]. intros t Ht Htr.
  wp_step. apply wp_u16; [lia|lia|]. intros c Hc Hcr.
  wp_step. apply wp_u16; [lia|lia|]. intros l Hl Hlr.
  destruct (u32_at_ex abuf (p + k + 4)) as [ttl Httl]; [lia|lia|].
  pose proof (fun rrs => rrs_at_inv abuf i p rrs _ _ _ _ _ _ _ Hn Ht Hc Httl Hl) as Hinv.
  change RRFIXEDSZ with 10 in *.
  destruct (Z.ltb_spec alen (p + k + 10 + l)).
  { wp_step. split; cbn; [lia|]. intros rrs new (?&?&_)%Hinv. lia. }
  wp_step. eapply wp_mono; [apply (Hbody (expanded ls) _ _ ttl _ _ acc h1); [lia|lia|lia|lia]|].
  intros [st acc'] h2 [Hl2 HI2]; cbn [fst snd] in *. pose proof (list_blocks_nonneg acc').
  case_decide as Hst.
  2: { wp_step. split; cbn; [lia|]. destruct st; try done; try tauto;
       intros rrs new (?&_&_&->)%Hinv Him; inversion Him; subst; by eapply HI2. }
  subst st. destruct HI2 as (Ho2 & new & -> & Himg).
  do 2 wp_step. eapply wp_mono; [apply IH; [lia|cbn; lia]|].
  intros [[st' acc''] rn] h3; unfold loop_post; cbn [fst snd live oracle]. intros [Hl3 Hs].
  split; [lia|].
  destruct st'; try (intros rrs new' (?&_&?&->)%Hinv Him; inversion Him; subst; by eapply Hs);
    [|tauto].
  destruct Hs as (-> & rrs & new' & Hr & -> & Him). split; [done|].
  eexists _, _. split; [by eapply rrs_cons|]. rewrite <- app_assoc.
  split; [done|by constructor].
Qed.

(** The contract of a list parser: no undefined behaviour on any message, no
    block leaked on any failure; on success the list owns all it allocated
    and is the image of the answer records; any other failure than
    [ARES_ENOMEM] means that the message has no such image. *)
Definition list_reply_post (h : heap) (r : status + list A) (h' : heap) : Prop :=
  match r with
  | inr l => live h' = live h + list_blocks l /\
      exists rrs, reply_rrs abuf rrs /\ images rrs l
  | inl ARES_SUCCESS => False
  | inl ARES_ENOMEM => live h' = live h /\ oracle h <> []
  | inl _ => live h' = live h /\ forall rrs l, reply_rrs abuf rrs -> ~ images rrs l
  end.

Lemma reply_rrs_intro q a ls k tr rrs :
  u16_at abuf 4 q -> u16_at abuf 6 a -> name_at abuf HFIXEDSZ ls k tr -> q = 1 -> 0 < a ->
  rrs_at abuf (Z.to_nat a) (HFIXEDSZ + (k + QFIXEDSZ)) rrs -> reply_rrs abuf rrs.
Proof. intros Hq Ha Hn -> H0 Hr. by exists ls, k, tr, a. Qed.

Lemma reply_rrs_inv q a rrs :
  u16_at abuf 4 q -> u16_at abuf 6 a -> reply_rrs abuf rrs ->
  q = 1 /\ 0 < a /\ exists ls k tr, name_at abuf HFIXEDSZ ls k tr /\
    HFIXEDSZ + k + QFIXEDSZ < alen /\ rrs_at abuf (Z.to_nat a) (HFIXEDSZ + (k + QFIXEDSZ)) rrs.
Proof.
  intros Hq Ha (ls & k & tr & a' & Hq' & Ha' & H0 & Hn & Hr).
  rewrite (u16_at_det _ _ _ _ Ha Ha'), (u16_at_det _ _ _ _ Hq Hq') in *.
  split; [done|]. split; [done|]. exists ls, k, tr. split; [done|]. split; [|done].
  destruct (Z.to_nat a') eqn:E; [lia|]. inversion Hr as [|? ? ? ? ? ? ? ? ? ? Hn']; subst.
  apply name_at_range in Hn'. lia.
Qed.

Lemma wp_parse_list_reply h :
  0 <= live h -> wp (parse_list_reply abuf body) h (list_reply_post h).
Proof.
  intros Hlive. unfold parse_list_reply.
  destruct (Z.ltb_spec alen HFIXEDSZ) as [Hs|Hs]; change HFIXEDSZ with 12 in Hs.
  { wp_step. split; [done|]. intros rrs l (?&?&?&?&_&_&_&Hn&_) _.
    apply name_at_range in Hn. change HFIXEDSZ with 12 in Hn. lia. }
  unfold DNS_HEADER_QDCOUNT, DNS_HEADER_ANCOUNT.
  wp_step. apply wp_u16; [lia|lia|]. intros q Hq Hqr.
  wp_step. apply wp_u16; [lia|lia|]. intros a Ha Har.
  destruct (Z.eqb_spec q 1) as [Hq1|Hq1]; cbn [negb].
  2: { wp_step. split; [done|]. intros rrs l (?&_)%(reply_rrs_inv q a); done. }
  destruct (Z.eqb_spec a 0).
  { wp_step. split; [done|]. intros rrs l (_&?&_)%(reply_rrs_inv q a); [lia|done..]. }
  wp_step. eapply wp_mono; [apply wp_ares_expand_name; [done|by unfold HFIXEDSZ]|].
  intros [st|[s k]] h1 Hx; cbn in Hx.
  { wp_step. destruct st; try done; [|by destruct Hx as (?&?&_)].
    destruct Hx as [-> Hno]. split; [done|].
    intros rrs l (_&_&?&?&?&Hn&_)%(reply_rrs_inv q a); [|done..]. by apply Hno in Hn. }
  destruct Hx as (Hl1 & Ho1 & ls & tr & Hn & _). pose proof (name_at_range _ _ _ _ _ Hn) as Hnr.
  assert (Hinv : forall rrs, reply_rrs abuf rrs -> HFIXEDSZ + k + QFIXEDSZ < alen /\
            rrs_at abuf (Z.to_nat a) (HFIXEDSZ + (k + QFIXEDSZ)) rrs).
  { intros rrs (_&_&?&?&?&Hn'&?&?)%(reply_rrs_inv q a); [|done..].
    by destruct (name_at_det _ _ _ _ _ _ _ _ Hn Hn') as (_ & <- & _). }
  destruct (Z.ltb_spec alen (HFIXEDSZ + k + QFIXEDSZ)).
  { do 3 wp_step. split; [cbn; lia|]. intros rrs l [? _]%Hinv. lia. }
  wp_step. eapply wp_mono;
    [apply (wp_rr_loop _ _ [] h1); [unfold HFIXEDSZ, QFIXEDSZ; lia|change (list_blocks []) with 0; lia]|].
  intros [[st l] rn] h2 [Hl2 Hst]; cbn [fst snd app] in *.
  change (list_blocks []) with 0 in Hl2. pose proof (list_blocks_nonneg l).
  do 2 wp_step; [destruct rn; lia|]. wp_step.
  eapply wp_mono with (P := fun _ h3 => live h3 = live h + list_blocks l);
    [destruct rn; wp_step; cbn; lia|]. clear Hl2.
  intros _ h3 Hl3. case_decide as Hd'.
  - subst. wp_step. split; [done|]. destruct Hst as (_ & rrs & new & Hr & -> & Him).
    exists rrs. split; [|done]. eapply reply_rrs_intro; eauto; lia.
  - wp_step. apply wp_free_data; [lia|]. wp_step.
    destruct st; try done; (split; [cbn; lia|]); try (intros rrs new [_ ?]%Hinv; by apply Hst).
    intros E. by apply Hst, Ho1.
Qed.
End rr_loop_spec.

(** ** The records the list parsers select *)

Definition selects (t : Z) (r : rr) : bool := (rr_class r =? C_IN) && (rr_type r =? t).

Definition mx_image (abuf : list Z) (r : rr) (l : list ares_mx_reply) : Prop :=
  if selects T_MX r then
    2 <= rr_len r /\ exists prio ls k tr,
      u16_at abuf (rr_data r) prio /\ name_at abuf (rr_data r + 2) ls k tr /\
      l = [Mx (Some (expanded ls)) prio]
  else l = [].

Definition srv_image (abuf : list Z) (r : rr) (l : list ares_srv_reply) : Prop :=
  if selects T_SRV r then
    6 <= rr_len r /\ exists prio weight port ls k tr,
      u16_at abuf (rr_data r) prio /\ u16_at abuf (rr_data r + 2) weight /\
      u16_at abuf (rr_data r + 4) port /\ name_at abuf (rr_data r + 6) ls k tr /\
      l = [Srv (Some (expanded ls)) prio weight port]
  else l = [].

(** The character strings that fill a TXT record from [p] to its end [e]. *)
Inductive substrings (abuf : list Z) (ex : bool) (start e : Z)
    : Z -> list ares_txt_ext -> Prop :=
| substrings_end : substrings abuf ex start e e []
| substrings_cons p n l :
    byte_at abuf p = Some n -> p + n + 1 <= e ->
    substrings abuf ex start e (p + n + 1) l ->
    substrings abuf ex start e p
      (Txt (Some (slice abuf (p + 1) (Z.to_nat n))) n (if ex then p =? start else false) :: l).

Definition txt_image (abuf : list Z) (ex : bool) (r : rr) (l : list ares_txt_ext) : Prop :=
  if selects T_TXT r
  then substrings abuf ex (rr_data r) (rr_data r + rr_len r) (rr_data r) l
  else l = [].

(** Accounts for the node a body has just appended. *)
Ltac snoc_blocks :=
  cbn [fst snd]; rewrite ?list_blocks_snoc;
  unfold node_blocks;
  cbn [data_fields mx_data srv_data txt_data naptr_data mx_host srv_host txt_txt naptr_flags naptr_service naptr_regexp naptr_replacement
       foldr blocks_opt live oracle].

Lemma mx_body_ok abuf : Zlen abuf <= 32767 -> body_ok abuf (mx_body abuf) (mx_image abuf).
Proof.
  intros Hlen name t c ttl l p acc h Hp Hl Hpl Hlive. unfold mx_body, mx_image, selects; cbn.
  destruct ((c =? C_IN) && (t =? T_MX)).
  2: { wp_step. cbn. split; [lia|]. split; [done|]. exists []. by rewrite app_nil_r. }
  destruct (Z.ltb_spec l 2); [wp_step; cbn; split; [lia|]; intros new [? _]; lia|].
  wp_step. apply wp_malloc_data; intros o Ho; [|wp_step; cbn; split; [lia|done]].
  wp_step. apply wp_u16; [lia|lia|]. intros v Hv _.
  wp_step. eapply wp_mono; [apply wp_ares_expand_name; [done|lia]|].
  intros [st|[s k]] h1 Hx; cbn in Hx.
  - wp_step. snoc_blocks. destruct st; try done.
    + destruct Hx as [-> Hno]. split; [cbn; lia|].
      intros new (_&?&?&?&?&_&Hn&_). by apply Hno in Hn.
    + destruct Hx as (? & ? & _). split; [lia|tauto].
  - destruct Hx as (Hl1 & Ho1 & ls & tr & Hn & ->). wp_step. snoc_blocks.
    split; [lia|]. split; [tauto|].
    eexists. split; [done|]. split; [done|]. by exists v, ls, k, tr.
Qed.

Lemma srv_body_ok abuf : Zlen abuf <= 32767 -> body_ok abuf (srv_body abuf) (srv_image abuf).
Proof.
  intros Hlen name t c ttl l p acc h Hp Hl Hpl Hlive. unfold srv_body, srv_image, selects; cbn.
  destruct ((c =? C_IN) && (t =? T_SRV)).
  2: { wp_step. cbn. split; [lia|]. split; [done|]. exists []. by rewrite app_nil_r. }
  destruct (Z.ltb_spec l 6); [wp_step; cbn; split; [lia|]; intros new [? _]; lia|].
  wp_step. apply wp_malloc_data; intros o Ho; [|wp_step; cbn; split; [lia|done]].
  wp_step. apply wp_u16; [lia|lia|]. intros v Hv _.
  wp_step. apply wp_u16; [lia|lia|]. intros w Hw _.
  wp_step. apply wp_u16; [lia|lia|]. intros y Hy _.
  replace (p + 2 + 2) with (p + 4) in * by lia.
  replace (p + 4 + 2) with (p + 6) in * by lia.
  wp_step. eapply wp_mono; [apply wp_ares_expand_name; [done|lia]|].
  intros [st|[s k]] h1 Hx; cbn in Hx.
  - wp_step. snoc_blocks. destruct st; try done.
    + destruct Hx as [-> Hno]. split; [cbn; lia|].
      intros new (_&?&?&?&?&?&?&_&_&_&Hn&_). by apply Hno in Hn.
    + destruct Hx as (? & ? & _). split; [lia|tauto].
  - destruct Hx as (Hl1 & Ho1 & ls & tr & Hn & ->). wp_step. snoc_blocks.
    split; [lia|]. split; [tauto|].
    eexists. split; [done|]. split; [done|]. by exists v, w, y, ls, k, tr.
Qed.

Lemma substrings_range abuf ex start e p l : substrings abuf ex start e p l -> p <= e.
Proof.
  induction 1 as [|p n l Hb Hle _ IH]; [done|]. apply byte_at_Some in Hb. lia.
Qed.

Lemma wp_txt_substrings abuf ex fuel p l sp acc h :
  0 <= p <= sp -> sp <= p + l -> p + l <= Zlen abuf -> p + l - sp < Z.of_nat fuel ->
  wp (txt_substrings abuf fuel ex p l sp acc) h (fun x h' =>
    live h' = live h + list_blocks x.2 - list_blocks acc /\
    match x.1 with
    | ARES_SUCCESS => (oracle h = [] -> oracle h' = []) /\
        exists new, x.2 = acc ++ new /\ substrings abuf ex p (p + l) sp new
    | ARES_ENOMEM => oracle h <> []
    | _ => forall new, ~ substrings abuf ex p (p + l) sp new
    end).
Proof.
  revert sp acc h; induction fuel as [|fuel IH]; intros sp acc h Hp Hsp Hl Hf; [lia|].
  cbn [txt_substrings]. destruct (Z.ltb_spec sp (p + l)) as [Hlt|Hge].
  2: { wp_step. cbn. split; [lia|]. split; [done|]. exists []. rewrite app_nil_r.
       split; [done|]. replace sp with (p + l) by lia. constructor. }
  wp_step. wp_step.
  assert (Hinv : forall new, substrings abuf ex p (p + l) sp new -> exists new',
            sp + b + 1 <= p + l /\ substrings abuf ex p (p + l) (sp + b + 1) new').
  { intros new Hs. inversion Hs; subst; [lia|]. simplify_eq. eauto. }
  destruct (Z.ltb_spec (p + l) (sp + b + 1)).
  { wp_step. cbn. split; [lia|]. intros new (?&?&_)%Hinv. lia. }
  wp_step. apply wp_malloc_data; intros o Ho; [|wp_step; cbn; split; [lia|done]].
  wp_step. wp_step; cbn [negb]; [|wp_step; snoc_blocks; split; [lia|tauto]].
  wp_step. wp_step.
  eapply wp_mono; [apply IH; lia|]. intros [st acc'] h' [Hl' Hst]. cbn [fst snd live oracle] in *.
  rewrite list_blocks_snoc in Hl'. split; [revert Hl'; snoc_blocks; lia|].
  replace (sp + 1 + b) with (sp + b + 1) in * by lia.
  destruct st; try (intros new (new'&_&?)%Hinv; by eapply Hst); [|tauto].
  destruct Hst as (Ho' & new & -> & Hs). split; [tauto|].
  eexists. rewrite <- app_assoc. split; [done|]. by constructor.
Qed.

Lemma txt_body_ok abuf ex :
  Zlen abuf <= 32767 -> body_ok abuf (txt_body abuf ex) (txt_image abuf ex).
Proof.
  intros Hlen name t c ttl l p acc h Hp Hl Hpl Hlive. unfold txt_body, txt_image, selects.
  cbn [rr_type rr_class rr_len rr_data].
  destruct ((c =? C_IN) && (t =? T_TXT)).
  2: { wp_step. cbn. split; [lia|]. split; [done|]. exists []. by rewrite app_nil_r. }
  apply wp_txt_substrings; lia.
Qed.

(** ** SOA *)

Definition ns_name (abuf : list Z) (p : Z) (s : list Z) (k : Z) : Prop :=
  exists ls tr, name_at abuf p ls k tr /\ s = expanded ls.

Lemma ns_name_range abuf p s k : ns_name abuf p s k -> 0 <= p < Zlen abuf /\ 0 < k /\ p + k <= Zlen abuf.
Proof. intros (ls & tr & Hn & _). by apply name_at_range in Hn. Qed.

Lemma ns_name_det abuf p s k s' k' :
  ns_name abuf p s k -> ns_name abuf p s' k' -> s = s' /\ k = k'.
Proof.
  intros (ls & tr & Hn & ->) (ls' & tr' & Hn' & ->).
  by destruct (name_at_det _ _ _ _ _ _ _ _ Hn Hn') as (-> & -> & _).
Qed.

(** The data of an SOA record: two names, then five 32-bit integers. *)
Definition soa_data_at (abuf : list Z) (p : Z) (r : ares_soa_reply) : Prop :=
  exists s1 k1 s2 k2, ns_name abuf p s1 k1 /\ ns_name abuf (p + k1) s2 k2 /\
    let d := p + k1 + k2 in
    soa_nsname r = Some s1 /\ soa_hostmaster r = Some s2 /\
    u32_at abuf (d + 0 * 4) (soa_serial r) /\ u32_at abuf (d + 1 * 4) (soa_refresh r) /\
    u32_at abuf (d + 2 * 4) (soa_retry r) /\ u32_at abuf (d + 3 * 4) (soa_expire r) /\
    u32_at abuf (d + 4 * 4) (soa_minttl r).

(** [soa_at abuf r]: one question and one answer whose data is [r]; the
    type, the class and the length of the answer are not looked at. *)
Definition soa_at (abuf : list Z) (r : ares_soa_reply) : Prop :=
  u16_at abuf 4 1 /\ u16_at abuf 6 1 /\
  exists q kq n kn, ns_name abuf HFIXEDSZ q kq /\
    ns_name abuf (HFIXEDSZ + kq + QFIXEDSZ) n kn /\
    soa_data_at abuf (HFIXEDSZ + kq + QFIXEDSZ + kn + RRFIXEDSZ) r.

(** What [ares__expand_name_for_response] promises. *)
Lemma wp_expand_for_response abuf p h (Q : status + list Z * Z -> heap -> Prop) :
  Zlen abuf <= 32767 -> 0 <= p ->
  (forall s k h', live h' = live h + 1 -> (oracle h = [] -> oracle h' = []) ->
     ns_name abuf p s k -> Q (inr (s, k)) h') ->
  ((forall s k, ~ ns_name abuf p s k) -> Q (inl ARES_EBADRESP) h) ->
  (forall h', live h' = live h -> oracle h <> [] -> Q (inl ARES_ENOMEM) h') ->
  wp (ares__expand_name_for_response abuf p) h Q.
Proof.
  intros Hlen Hp H1 H2 H3. unfold ares__expand_name_for_response. wp_step.
  eapply wp_mono; [by apply wp_ares_expand_name|].
  intros [st|[s k]] h' Hx; cbn in Hx; wp_step.
  - destruct st; try done; cbn.
    + destruct Hx as [-> Hno]. apply H2. intros s k (ls & tr & Hn & _). by apply Hno in Hn.
    + destruct Hx as (? & ? & _). by apply H3.
  - destruct Hx as (? & ? & ls & tr & Hn & ->). apply H1; [done..|by exists ls, tr].
Qed.

Lemma wp_soa_failed l q n st h (Q : status + ares_soa_reply -> heap -> Prop) :
  list_blocks l + blocks_opt q + blocks_opt n <= live h ->
  Q (inl st) (Heap (live h - list_blocks l - blocks_opt q - blocks_opt n) (oracle h)) ->
  wp (soa_failed l q n st) h Q.
Proof.
  intros Hl HQ. pose proof (blocks_opt_nonneg q). pose proof (blocks_opt_nonneg n).
  unfold soa_failed. wp_step. apply wp_free_data; [lia|].
  wp_step. apply wp_free_opt; [cbn; lia|]. wp_step. apply wp_free_opt; [cbn; lia|].
  by wp_step.
Qed.

Definition soa_post (spec : ares_soa_reply -> Prop) (h : heap)
    (r : status + ares_soa_reply) (h' : heap) : Prop :=
  match r with
  | inr soa => live h' = live h + node_blocks soa /\ spec soa
  | inl ARES_EBADRESP => live h' = live h /\ forall soa, ~ spec soa
  | inl ARES_ENOMEM => live h' = live h /\ oracle h <> []
  | inl _ => False
  end.

Ltac soa_blocks :=
  unfold list_blocks, node_blocks in *;
  cbn [data_fields data_zero soa_data soa_nsname soa_hostmaster foldr blocks_opt live oracle] in *; try lia.

(** The two ways [ares_parse_soa_reply] fails after an allocation. *)
Lemma soa_fail_bad spec h l q n h1 :
  live h1 = live h + list_blocks l + blocks_opt q + blocks_opt n -> 0 <= live h ->
  (forall soa, ~ spec soa) -> wp (soa_failed l q n ARES_EBADRESP) h1 (soa_post spec h).
Proof. intros Hl Hh Hno. apply wp_soa_failed; [lia|]. split; [cbn; lia|done]. Qed.

Lemma soa_fail_oom spec h l q n h1 :
  live h1 = live h + list_blocks l + blocks_opt q + blocks_opt n -> 0 <= live h ->
  oracle h <> [] -> wp (soa_failed l q n ARES_ENOMEM) h1 (soa_post spec h).
Proof. intros Hl Hh Hno. apply wp_soa_failed; [lia|]. split; [cbn; lia|done]. Qed.

Lemma soa_data_range abuf p soa s1 k1 s2 k2 :
  ns_name abuf p s1 k1 -> ns_name abuf (p + k1) s2 k2 -> soa_data_at abuf p soa ->
  p + k1 + k2 + 20 <= Zlen abuf.
Proof.
  intros H1 H2 (s1' & k1' & s2' & k2' & H1' & H2' & _ & _ & _ & _ & _ & _ & (?&?&?&?&_&_&_&Hb&_)).
  destruct (ns_name_det _ _ _ _ _ _ H1 H1') as [_ <-].
  destruct (ns_name_det _ _ _ _ _ _ H2 H2') as [_ <-]. apply byte_at_Some in Hb. lia.
Qed.

Lemma wp_soa_rdata abuf q n p h h0 :
  Zlen abuf <= 32767 -> 0 <= p -> 0 <= live h0 -> live h = live h0 + 2 ->
  (oracle h0 = [] -> oracle h = []) ->
  wp (soa_rdata abuf q n p) h (soa_post (soa_data_at abuf p) h0).
Proof.
  intros Hlen Hp Hh0 Hh Ho. unfold soa_rdata.
  wp_step. apply wp_malloc_data; intros o Ho1; [|apply soa_fail_oom; [soa_blocks|done|tauto]].
  wp_step. apply wp_expand_for_response; [done|done|..].
  2: { intros Hno. apply soa_fail_bad; [soa_blocks|done|].
       intros soa (?&?&?&?&Hn&_). by apply Hno in Hn. }
  2: { intros h2 Hl2 Ho2. apply soa_fail_oom; [soa_blocks|done|cbn in Ho2; tauto]. }
  intros s1 k1 h2 Hl2 Ho2 Hs1. pose proof (ns_name_range _ _ _ _ Hs1).
  wp_step. apply wp_expand_for_response; [done|lia|..].
  2: { intros Hno. apply soa_fail_bad; [soa_blocks|done|].
       intros soa (?&?&?&?&Hn&Hn2&_). destruct (ns_name_det _ _ _ _ _ _ Hs1 Hn) as [_ <-].
       by apply Hno in Hn2. }
  2: { intros h3 Hl3 Ho3. apply soa_fail_oom; [soa_blocks|done|cbn in Ho2; tauto]. }
  intros s2 k2 h3 Hl3 Ho3 Hs2. pose proof (ns_name_range _ _ _ _ Hs2).
  destruct (Z.ltb_spec (Zlen abuf) (p + k1 + k2 + 5 * 4)).
  { apply soa_fail_bad; [soa_blocks|done|]. intros soa Hs.
    pose proof (soa_data_range _ _ _ _ _ _ _ Hs1 Hs2 Hs). lia. }
  do 5 (wp_step; apply wp_u32; [lia|lia|]; intros ? ? _).
  cbn in Hl2. do 2 (wp_step; wp_step). wp_step. split; [soa_blocks|].
  exists s1, k1, s2, k2. by repeat split.
Qed.

Lemma wp_parse_soa abuf h :
  Zlen abuf <= 32767 -> 0 <= live h ->
  wp (ares_parse_soa_reply abuf) h (soa_post (soa_at abuf) h).
Proof.
  intros Hlen Hh. unfold ares_parse_soa_reply, DNS_HEADER_QDCOUNT, DNS_HEADER_ANCOUNT.
  destruct (Z.ltb_spec (Zlen abuf) HFIXEDSZ) as [Hs|Hs]; change HFIXEDSZ with 12 in Hs.
  { wp_step. split; [done|]. intros soa (_&_&?&?&?&?&Hn&_).
    apply ns_name_range in Hn. change HFIXEDSZ with 12 in Hn. lia. }
  wp_step. apply wp_u16; [lia|lia|]. intros qd Hqd _.
  wp_step. apply wp_u16; [lia|lia|]. intros an Han _.
  destruct (Z.eqb_spec qd 1) as [->|Hq1]; cbn [negb orb].
  2: { wp_step. split; [done|]. intros soa (Hq&_). by rewrite (u16_at_det _ _ _ _ Hqd Hq) in Hq1. }
  destruct (Z.eqb_spec an 1) as [->|Ha1]; cbn [negb].
  2: { wp_step. split; [done|]. intros soa (_&Ha&_). by rewrite (u16_at_det _ _ _ _ Han Ha) in Ha1. }
  wp_step. apply wp_expand_for_response; [done|by unfold HFIXEDSZ|..].
  2: { intros Hno. apply soa_fail_bad; [soa_blocks|done|].
       intros soa (_&_&?&?&?&?&Hn&_). by apply Hno in Hn. }
  2: { intros h1 Hl1 Ho1. apply soa_fail_oom; [soa_blocks|done|done]. }
  intros q kq h1 Hl1 Ho1 Hq. pose proof (ns_name_range _ _ _ _ Hq).
  assert (Hinv : forall soa, soa_at abuf soa -> exists n kn,
            ns_name abuf (HFIXEDSZ + kq + QFIXEDSZ) n kn /\
            soa_data_at abuf (HFIXEDSZ + kq + QFIXEDSZ + kn + RRFIXEDSZ) soa).
  { intros soa (_&_&?&?&n&kn&Hq'&Hn&Hd).
    destruct (ns_name_det _ _ _ _ _ _ Hq Hq') as [_ <-]. by exists n, kn. }
  destruct (Z.ltb_spec (Zlen abuf) (HFIXEDSZ + kq + QFIXEDSZ)) as [Hk|Hk].
  { apply soa_fail_bad; [soa_blocks|done|]. intros soa (?&?&Hn&_)%Hinv.
    apply ns_name_range in Hn. lia. }
  wp_step. apply wp_expand_for_response; [done|unfold HFIXEDSZ, QFIXEDSZ; lia|..].
  2: { intros Hno. apply soa_fail_bad; [soa_blocks|done|].
       intros soa (?&?&Hn&_)%Hinv. by apply Hno in Hn. }
  2: { intros h2 Hl2 Ho2. apply soa_fail_oom; [soa_blocks|done|tauto]. }
  intros n kn h2 Hl2 Ho2 Hn. pose proof (ns_name_range _ _ _ _ Hn).
  assert (Hinv' : forall soa, soa_at abuf soa ->
            soa_data_at abuf (HFIXEDSZ + kq + QFIXEDSZ + kn + RRFIXEDSZ) soa).
  { intros soa (?&?&Hn'&?)%Hinv. by destruct (ns_name_det _ _ _ _ _ _ Hn Hn') as [_ <-]. }
  destruct (Z.ltb_spec (Zlen abuf) (HFIXEDSZ + kq + QFIXEDSZ + kn + RRFIXEDSZ)).
  { apply soa_fail_bad; [soa_blocks|done|]. intros soa (?&?&?&?&Hd&_)%Hinv'.
    apply ns_name_range in Hd. lia. }
  eapply wp_mono; [apply (wp_soa_rdata _ _ _ _ h2 h); [done|unfold RRFIXEDSZ; lia|lia|lia|tauto]|].
  intros [st|soa] h3; cbn.
  { destruct st; try done. intros [? Hno]. split; [done|]. by intros soa Hsoa%Hinv'%Hno. }
  intros [Hl Hd]. split; [done|]. split; [done|]. split; [done|]. by exists q, kq, n, kn.
Qed.

(** ** Properties *)

(** [ares_parse_mx_reply] on any message of at most 32767 bytes has no
    undefined behaviour and returns the list of the MX records of class IN of
    the answer section, in order, with priority and expanded exchange name; a
    failure other than [ARES_ENOMEM] happens only for a message that has no
    such reading, [ARES_ENOMEM] only when an allocation fails; a failure
    releases every block and a success owns exactly the blocks of its list. *)
Theorem ares_parse_mx_reply_correct abuf h :
  Zlen abuf <= 32767 -> 0 <= live h ->
  wp (ares_parse_mx_reply abuf) h (list_reply_post abuf (mx_image abuf) h).
Proof. intros Hl Hh. apply wp_parse_list_reply; [done|by apply mx_body_ok|done]. Qed.

(** The same contract for [ares_parse_srv_reply]: priority, weight, port
    and target of every SRV record of class IN. *)
Theorem ares_parse_srv_reply_correct abuf h :
  Zlen abuf <= 32767 -> 0 <= live h ->
  wp (ares_parse_srv_reply abuf) h (list_reply_post abuf (srv_image abuf) h).
Proof. intros Hl Hh. apply wp_parse_list_reply; [done|by apply srv_body_ok|done]. Qed.

(** The same contract for [ares__parse_txt_reply]: one node for every
    character string of every TXT record, in order, holding its bytes and its
    length, the first string of a record marked when [ex] is set; the strings
    fill the record exactly. *)
Theorem ares_parse_txt_reply_correct abuf ex h :
  Zlen abuf <= 32767 -> 0 <= live h ->
  wp (ares__parse_txt_reply abuf ex) h (list_reply_post abuf (txt_image abuf ex) h).
Proof. intros Hl Hh. apply wp_parse_list_reply; [done|by apply txt_body_ok|done]. Qed.

(** [ares_parse_soa_reply] on any message of at most 32767 bytes has no
    undefined behaviour, returns the two names and five integers of the single
    answer exactly when the message holds them, and releases every block it
    does not return. *)
Theorem ares_parse_soa_reply_correct abuf h :
  Zlen abuf <= 32767 -> 0 <= live h ->
  wp (ares_parse_soa_reply abuf) h (soa_post (soa_at abuf) h).
Proof. apply wp_parse_soa. Qed.

(** The header and question [a IN type] of the examples, with [n] answers. *)
Definition ex_question (n type : Z) : list Z :=
  [0; 0; 129; 128; 0; 1; 0; n; 0; 0; 0; 0; 1; 97; 0; 0; type; 0; 1].

(** Fixed part of an answer owned by the question's name. *)
Definition ex_rr (type len : Z) : list Z := [192; 12; 0; type; 0; 1; 0; 0; 0; 9; 0; len].

Definition ex_mx : list Z := ex_question 2 15 ++ ex_rr 15 4 ++ [0; 10; 192; 12]
                                           ++ ex_rr 1 4 ++ [10; 0; 0; 1].
Definition ex_srv : list Z := ex_question 1 33 ++ ex_rr 33 8 ++ [0; 1; 0; 2; 0; 80; 192; 12].
Definition ex_txt : list Z := ex_question 1 16 ++ ex_rr 16 5 ++ [2; 104; 105; 1; 33].
Definition ex_soa : list Z := ex_question 1 6 ++ ex_rr 6 24 ++ [192; 12; 192; 12]
  ++ [0; 0; 0; 1] ++ [0; 0; 0; 2] ++ [0; 0; 0; 3] ++ [0; 0; 0; 4] ++ [255; 0; 0; 5].

Lemma ares_parse_mx_reply_correct_witness :
  exists r h', ares_parse_mx_reply ex_mx (Heap 3 []) = Ret r h' /\
    r = inr [Mx (Some [97]) 10] /\ list_reply_post ex_mx (mx_image ex_mx) (Heap 3 []) r h'.
Proof.
  pose proof (ares_parse_mx_reply_correct ex_mx (Heap 3 [])
    ltac:(vm_compute; discriminate) ltac:(cbn; lia)) as H.
  eexists _, _. split; [vm_compute; reflexivity|]. split; [reflexivity|exact H].
Defined.

Lemma ares_parse_srv_reply_correct_witness :
  exists r h', ares_parse_srv_reply ex_srv (Heap 0 []) = Ret r h' /\
    r = inr [Srv (Some [97]) 1 2 80] /\
    list_reply_post ex_srv (srv_image ex_srv) (Heap 0 []) r h'.
Proof.
  pose proof (ares_parse_srv_reply_correct ex_srv (Heap 0 [])
    ltac:(vm_compute; discriminate) ltac:(cbn; lia)) as H.
  eexists _, _. split; [vm_compute; reflexivity|]. split; [reflexivity|exact H].
Defined.

Lemma ares_parse_txt_reply_correct_witness :
  exists r h', ares__parse_txt_reply ex_txt true (Heap 0 []) = Ret r h' /\
    r = inr [Txt (Some [104; 105]) 2 true; Txt (Some [33]) 1 false] /\
    list_reply_post ex_txt (txt_image ex_txt true) (Heap 0 []) r h'.
Proof.
  pose proof (ares_parse_txt_reply_correct ex_txt true (Heap 0 [])
    ltac:(vm_compute; discriminate) ltac:(cbn; lia)) as H.
  eexists _, _. split; [vm_compute; reflexivity|]. split; [reflexivity|exact H].
Defined.

Lemma ares_parse_soa_reply_correct_witness :
  exists r h', ares_parse_soa_reply ex_soa (Heap 0 []) = Ret r h' /\
    r = inr (Soa (Some [97]) (Some [97]) 1 2 3 4 4278190085) /\
    soa_post (soa_at ex_soa) (Heap 0 []) r h'.
Proof.
  pose proof (ares_parse_soa_reply_correct ex_soa (Heap 0 [])
    ltac:(vm_compute; discriminate) ltac:(cbn; lia)) as H.
  eexists _, _. split; [vm_compute; reflexivity|]. split; [reflexivity|exact H].
Defined.

(** A reply whose NAPTR record is empty and ends the message. *)
Definition ex_naptr_empty : list Z := ex_question 1 35 ++ ex_rr 35 0.

(** [ares_parse_naptr_reply] does not check the length of a NAPTR
    record: it reads beyond the end of a well-formed message whose last
    record is an empty NAPTR record. *)
Theorem ares_parse_naptr_reply_overread h :
  oracle h = [] ->
  (exists rrs, reply_rrs ex_naptr_empty rrs) /\
  ares_parse_naptr_reply ex_naptr_empty h = UB.
Proof.
  intros Ho. split; [|destruct h as [l o]; cbn in Ho; subst o; by vm_compute].
  exists [RR [97] 35 1 9 0 31], [[97]], 3, [12; 14], 1.
  assert (Hn : name_at ex_naptr_empty 12 [[97]] 3 [12; 14]).
  { apply (name_label ex_naptr_empty 12 1 [] 1 [14]); [reflexivity|lia|reflexivity|].
    by apply name_root. }
  split; [by exists 0, 1|]. split; [by exists 0, 1|]. split; [lia|]. split; [exact Hn|].
  eapply (rrs_cons _ 0 19 [[97]] 2 _ 35 1 9 0 []).
  - eapply (name_pointer _ 19 192 12); [reflexivity|lia|reflexivity|reflexivity|exact Hn].
  - by exists 0, 35.
  - by exists 0, 1.
  - by exists 0, 0, 0, 9.
  - by exists 0, 0.
  - vm_compute. discriminate.
  - constructor.
Qed.

Lemma ares_parse_naptr_reply_overread_witness :
  ares_parse_naptr_reply ex_naptr_empty (Heap 0 []) = UB.
Proof. apply (ares_parse_naptr_reply_overread (Heap 0 []) eq_refl). Defined.
