(* ===== verification/ParseHost.v ===== *)
(** * Replies returned as host entries (c-ares)

    Models, in src/Scylla-moon/seastar/c-ares, [ares_strcasecmp] and
    [ares_strncasecmp] of ares_strcasecmp.c, [ares_free_hostent] and the
    parsers [ares_parse_a_reply], [ares_parse_aaaa_reply],
    [ares_parse_ns_reply] and [ares_parse_ptr_reply].

    A C string is the list of its characters up to its terminator, which is
    not in the list; a name with a NUL inside a label is a list with a zero,
    and what the string functions see of it is [c_str]. *)

From S2P Require Import Prelude DnsWire ParseList.
Open Scope Z_scope.

(** ** ares_strcasecmp.c

    [ISUPPER(c) ? tolower(c) : c], with [char] signed. *)
Definition lower (c : Z) : Z :=
  if (65 <=? c) && (c <=? 90) then c + 32 else if c <? 128 then c else c - 256.

Fixpoint ares_strcasecmp (a b : list Z) : Z :=
  match a with
  | [] => let c2 := lower (hd 0 b) in if 0 =? c2 then 0 else 0 - c2
  | c :: a' =>
      let c1 := lower c in let c2 := lower (hd 0 b) in
      if negb (c1 =? c2) then c1 - c2
      else if c1 =? 0 then 0 else ares_strcasecmp a' (tl b)
  end.

Fixpoint ares_strncasecmp (n : nat) (a b : list Z) : Z :=
  match n with
  | O => 0
  | S n' =>
      let c1 := lower (hd 0 a) in let c2 := lower (hd 0 b) in
      if negb (c1 =? c2) then c1 - c2
      else if c1 =? 0 then 0 else ares_strncasecmp n' (tl a) (tl b)
  end.

(** ** struct hostent *)

Inductive family := AF_INET | AF_INET6.

#[export] Instance family_eq_dec : EqDecision family.
Proof. solve_decision. Defined.

Record hostent := Hostent {
  h_name : list Z; h_aliases : list (list Z); h_addrtype : family; h_length : Z;
  h_addr_list : list (list Z) }.

(** [ares_free_hostent]: one block holds all the addresses. *)
Definition ares_free_hostent (host : hostent) : M unit :=
  c_free ;; c_free_n (length (h_aliases host)) ;; c_free ;;
  (match h_addr_list host with [] => mret () | _ => c_free end) ;; c_free ;; c_free.

Definition hostent_blocks (host : hostent) : Z :=
  4 + Zlen (h_aliases host) + match h_addr_list host with [] => 0 | _ => 1 end.

Section parse.
Variable abuf : list Z.
Local Abbreviation alen := (Zlen abuf).

(** ** The loop over the answers

    Shared by the four parsers; [ttl] tells whether the TTL is read. [body]
    gets [rr_name], which it releases or keeps, and the fields of the record. *)
Section answers.
Context {S : Type}.
Variable ttl : bool.
Variable body : list Z -> Z -> Z -> Z -> Z -> Z -> S -> M (status * S).

Fixpoint answers_loop (i : nat) (aptr : Z) (s : S) : M (status * S) :=
  match i with
  | O => mret (ARES_SUCCESS, s)
  | Datatypes.S i' =>
      r ← ares__expand_name_for_response abuf aptr;
      match r with
      | inl st => mret (st, s)
      | inr (rr_name, len) =>
          let aptr := aptr + len in
          if alen <? aptr + RRFIXEDSZ then c_free ;; mret (ARES_EBADRESP, s)
          else
            rr_type ← DNS_RR_TYPE abuf aptr;
            rr_class ← DNS_RR_CLASS abuf aptr;
            rr_len ← DNS_RR_LEN abuf aptr;
            rr_ttl ← (if ttl then DNS_RR_TTL abuf aptr else mret 0);
            let aptr := aptr + RRFIXEDSZ in
            if alen <? aptr + rr_len then c_free ;; mret (ARES_EBADRESP, s)
            else
              '(st, s) ← body rr_name rr_type rr_class (to_int32 rr_ttl) rr_len aptr s;
              if decide (st = ARES_SUCCESS) then
                let aptr := aptr + rr_len in
                if alen <? aptr then mret (ARES_EBADRESP, s) else answers_loop i' aptr s
              else mret (st, s)
      end
  end.
End answers.

(** The text before the loop: [k] gets the answer count, the expanded name of
    the question and the first answer's offset. *)
Definition with_question {R} (bad : status -> R) (k : Z -> list Z -> Z -> M R) : M R :=
  if alen <? HFIXEDSZ then mret (bad ARES_EBADRESP)
  else
    qdcount ← DNS_HEADER_QDCOUNT abuf;
    ancount ← DNS_HEADER_ANCOUNT abuf;
    if negb (qdcount =? 1) then mret (bad ARES_EBADRESP)
    else
      let aptr := HFIXEDSZ in
      r ← ares__expand_name_for_response abuf aptr;
      match r with
      | inl st => mret (bad st)
      | inr (hostname, len) =>
          if alen <? aptr + len + QFIXEDSZ then c_free ;; mret (bad ARES_EBADRESP)
          else k ancount hostname (aptr + (len + QFIXEDSZ))
      end.

(** ** A and AAAA

    The two parsers are the same text up to the record type [atype], the size
    of an address [asize] and the family. *)
Record addr_state := AddrState {
  as_hostname : list Z;
  as_aliases : list (list Z);                (* what the array [aliases] holds *)
  as_naliases : Z;
  as_addrs : list (list Z);                  (* what the array [addrs] holds *)
  as_naddrs : Z;
  as_ttls : list (list Z * Z);               (* what was written to [addrttls] *)
  as_cname_ttl : Z }.

Record addr_reply := AddrReply {
  ar_status : status; ar_host : option hostent;
  ar_ttls : list (list Z * Z); ar_naddrttls : option Z }.

Section addr.
Variables (atype asize : Z) (fam : family).
(** Whether [host] is non-null, [addrttls] is non-null, and [*naddrttls]. *)
Variables (host addrttls : bool) (naddrttls : option Z).

Definition max_addr_ttls : Z :=
  match naddrttls with Some n => if addrttls then n else 0 | None => 0 end.

(** The block for a record of the wanted type. *)
Definition addr_record (ancount : Z) (rr_name : list Z) (rr_type rr_class rr_ttl rr_len aptr : Z)
    (s : addr_state) : M (status * addr_state) :=
  let '(AddrState hostname aliases naliases addrs naddrs ttls cname_ttl) := s in
  if (rr_class =? C_IN) && (rr_type =? atype) && (rr_len =? asize)
     && (ares_strcasecmp rr_name hostname =? 0)
  then
    if host && (alen <? aptr + asize) then c_free ;; mret (ARES_EBADRESP, s)
    else
      addrs ← (if host then
                 assert_c (naddrs <? ancount) ;;
                 a ← get_bytes abuf aptr (Z.to_nat asize); mret (addrs ++ [a])
               else mret addrs);
      if (naddrs <? max_addr_ttls) && (alen <? aptr + asize)
      then c_free ;;
           mret (ARES_EBADRESP, AddrState hostname aliases naliases addrs naddrs ttls cname_ttl)
      else
        ttls ← (if naddrs <? max_addr_ttls then
                  a ← get_bytes abuf aptr (Z.to_nat asize); mret (ttls ++ [(a, rr_ttl)])
                else mret ttls);
        mret (ARES_SUCCESS,
              AddrState hostname aliases naliases addrs (naddrs + 1) ttls cname_ttl)
  else mret (ARES_SUCCESS, s).

(** The block for a CNAME record, or the release of [rr_name]. *)
Definition addr_cname (ancount : Z) (rr_name : list Z) (rr_type rr_class rr_ttl aptr : Z)
    (s : addr_state) : M (status * addr_state) :=
  let '(AddrState hostname aliases naliases addrs naddrs ttls cname_ttl) := s in
  if (rr_class =? C_IN) && (rr_type =? T_CNAME) then
    aliases ← (if host then assert_c (naliases <? ancount + 1) ;; mret (aliases ++ [rr_name])
               else c_free ;; mret aliases);
    let naliases := naliases + 1 in
    r ← ares__expand_name_for_response abuf aptr;
    match r with
    | inl st => mret (st, AddrState hostname aliases naliases addrs naddrs ttls cname_ttl)
    | inr (rr_data, _) =>
        c_free ;;                                           (* hostname *)
        mret (ARES_SUCCESS, AddrState rr_data aliases naliases addrs naddrs ttls
                              (if rr_ttl <? cname_ttl then rr_ttl else cname_ttl))
    end
  else c_free ;; mret (ARES_SUCCESS, s).

Definition addr_body (ancount : Z) (rr_name : list Z) (rr_type rr_class rr_ttl rr_len aptr : Z)
    (s : addr_state) : M (status * addr_state) :=
  '(st, s) ← addr_record ancount rr_name rr_type rr_class rr_ttl rr_len aptr s;
  if decide (st = ARES_SUCCESS)
  then addr_cname ancount rr_name rr_type rr_class rr_ttl aptr s
  else mret (st, s).

(** The clean-up at the end of the function. *)
Definition addr_cleanup (s : addr_state) (st : status) (ttls : list (list Z * Z))
    (n : option Z) : M addr_reply :=
  (if host then c_free_n (length (as_aliases s)) ;; c_free ;; c_free else mret ()) ;;
  c_free ;; mret (AddrReply st None ttls n).

(** The number of TTL entries returned, and the loop that limits them. *)
Definition addr_count (s : addr_state) : Z :=
  if as_naddrs s <? max_addr_ttls then as_naddrs s else max_addr_ttls.

Definition addr_clamp (s : addr_state) (n : Z) : list (list Z * Z) :=
  let clamp := fun at_ : list Z * Z =>
    (at_.1, if as_cname_ttl s <? at_.2 then as_cname_ttl s else at_.2) in
  (clamp <$> take (Z.to_nat n) (as_ttls s)) ++ drop (Z.to_nat n) (as_ttls s).

(** From the end of the loop on. *)
Definition addr_finish (st : status) (s : addr_state) : M addr_reply :=
  let none := if naddrttls is Some _ then Some 0 else None in
  let st := if decide (st = ARES_SUCCESS /\ as_naddrs s = 0 /\ as_naliases s = 0)
            then ARES_ENODATA else st in
  if decide (st = ARES_SUCCESS) then
    let ttls := if naddrttls is Some _ then addr_clamp s (addr_count s) else as_ttls s in
    let nres := if naddrttls is Some _ then Some (addr_count s) else None in
    if host then
      ok ← c_malloc;
      if ok : bool then
        ok2 ← c_malloc;
        if ok2 : bool then
          (if as_naddrs s =? 0 then c_free else mret ()) ;;
          mret (AddrReply ARES_SUCCESS
                  (Some (Hostent (as_hostname s) (as_aliases s) fam asize (as_addrs s)))
                  ttls nres)
        else c_free ;; addr_cleanup s ARES_ENOMEM ttls nres
      else addr_cleanup s ARES_ENOMEM ttls nres
    else addr_cleanup s ARES_SUCCESS ttls nres
  else addr_cleanup s st (as_ttls s) none.

Definition parse_addr_reply : M addr_reply :=
  let none := if naddrttls is Some _ then Some 0 else None in
  let bad st := AddrReply st None [] none in
  with_question bad (fun ancount hostname aptr =>
    let start := AddrState hostname [] 0 [] 0 [] INT_MAX in
    let run :=
      '(st, s) ← answers_loop true (addr_body ancount) (Z.to_nat ancount) aptr start;
      addr_finish st s in
    if host then
      ok ← c_malloc;
      if negb ok then c_free ;; mret (bad ARES_ENOMEM)
      else
        ok2 ← c_malloc;
        if negb ok2 then c_free ;; c_free ;; mret (bad ARES_ENOMEM)
        else run
    else run).
End addr.

Definition ares_parse_a_reply : bool -> bool -> option Z -> M addr_reply :=
  parse_addr_reply T_A 4 AF_INET.

Definition ares_parse_aaaa_reply : bool -> bool -> option Z -> M addr_reply :=
  parse_addr_reply T_AAAA 16 AF_INET6.

(** ** NS *)
Definition ns_body (ancount : Z) (rr_name : list Z) (rr_type rr_class _ttl rr_len aptr : Z)
    (nameservers : list (list Z)) : M (status * list (list Z)) :=
  if (rr_class =? C_IN) && (rr_type =? T_NS) then
    r ← ares__expand_name_for_response abuf aptr;
    match r with
    | inl st => c_free ;; mret (st, nameservers)
    | inr (rr_data, _) =>
        assert_c (Zlen nameservers <? ancount + 1) ;;
        ok ← c_malloc;
        if negb ok then c_free ;; c_free ;; mret (ARES_ENOMEM, nameservers)
        else c_free ;; c_free ;; mret (ARES_SUCCESS, nameservers ++ [c_str rr_data])
    end
  else c_free ;; mret (ARES_SUCCESS, nameservers).

Definition ares_parse_ns_reply : M (status + hostent) :=
  with_question inl (fun ancount hostname aptr =>
    ok ← c_malloc;
    if negb ok then c_free ;; mret (inl ARES_ENOMEM)
    else
      '(st, nameservers) ← answers_loop false (ns_body ancount) (Z.to_nat ancount) aptr [];
      let cleanup st :=
        c_free_n (length nameservers) ;; c_free ;; c_free ;; mret (inl st) in
      let st := if decide (st = ARES_SUCCESS /\ nameservers = []) then ARES_ENODATA else st in
      if decide (st = ARES_SUCCESS) then
        ok ← c_malloc;
        if ok : bool then
          ok2 ← c_malloc;
          if ok2 : bool then mret (inr (Hostent hostname nameservers AF_INET 4 []))
          else c_free ;; cleanup ARES_ENOMEM
        else cleanup ARES_ENOMEM
      else cleanup st).

(** ** PTR *)

(** [aresx_sitoss] of ares_nowarn.c. *)
Definition aresx_sitoss (sinum : Z) : Z := Z.land sinum 32767.

Record ptr_state := PtrState {
  ps_ptrname : list Z; ps_hostname : option (list Z);
  ps_aliases : list (list Z); ps_alias_alloc : Z }.

(** The block for a PTR record. *)
Definition ptr_record (rr_name : list Z) (rr_type rr_class aptr : Z) (s : ptr_state)
    : M (status * ptr_state) :=
  let '(PtrState ptrname hostname aliases alias_alloc) := s in
  if (rr_class =? C_IN) && (rr_type =? T_PTR) && (ares_strcasecmp rr_name ptrname =? 0) then
    r ← ares__expand_name_for_response abuf aptr;
    match r with
    | inl st => c_free ;; mret (st, s)
    | inr (rr_data, _) =>
        c_free_opt hostname ;;
        let hostname := Some rr_data in
        assert_c (Zlen aliases <? alias_alloc) ;;
        ok ← c_malloc;
        if negb ok then c_free ;; mret (ARES_ENOMEM, PtrState ptrname hostname aliases alias_alloc)
        else
          let aliases := aliases ++ [c_str rr_data] in
          if alias_alloc <=? Zlen aliases then
            let alias_alloc := alias_alloc * 2 in
            ok ← c_realloc;
            if negb ok then c_free ;; mret (ARES_ENOMEM, PtrState ptrname hostname aliases alias_alloc)
            else mret (ARES_SUCCESS, PtrState ptrname hostname aliases alias_alloc)
          else mret (ARES_SUCCESS, PtrState ptrname hostname aliases alias_alloc)
    end
  else mret (ARES_SUCCESS, s).

(** The block for a CNAME record, then the release of [rr_name]. *)
Definition ptr_cname (rr_type rr_class aptr : Z) (s : ptr_state) : M (status * ptr_state) :=
  let '(PtrState ptrname hostname aliases alias_alloc) := s in
  if (rr_class =? C_IN) && (rr_type =? T_CNAME) then
    r ← ares__expand_name_for_response abuf aptr;
    match r with
    | inl st => c_free ;; mret (st, s)
    | inr (rr_data, _) =>
        c_free ;; c_free ;;                                 (* ptrname, rr_name *)
        mret (ARES_SUCCESS, PtrState rr_data hostname aliases alias_alloc)
    end
  else c_free ;; mret (ARES_SUCCESS, s).

Definition ptr_body (rr_name : list Z) (rr_type rr_class _ttl rr_len aptr : Z) (s : ptr_state)
    : M (status * ptr_state) :=
  '(st, s) ← ptr_record rr_name rr_type rr_class aptr s;
  if decide (st = ARES_SUCCESS) then ptr_cname rr_type rr_class aptr s else mret (st, s).

(** The clean-up at the end of the function. *)
Definition ptr_cleanup (s : ptr_state) (st : status) : M (status + hostent) :=
  c_free_n (length (ps_aliases s)) ;; c_free ;; c_free_opt (ps_hostname s) ;; c_free ;;
  mret (inl st).

Definition ptr_finish (addr : list Z) (fam : family) (st : status) (s : ptr_state)
    : M (status + hostent) :=
  if decide (st = ARES_SUCCESS) then
    match ps_hostname s with
    | None => ptr_cleanup s ARES_ENODATA
    | Some hostname =>
        ok ← c_malloc;                                      (* hostent *)
        if negb ok then ptr_cleanup s ARES_ENOMEM
        else
          ok ← c_malloc;                                    (* h_addr_list *)
          if negb ok then c_free ;; ptr_cleanup s ARES_ENOMEM
          else
            ok ← c_malloc;                                  (* h_addr_list[0] *)
            if negb ok then c_free ;; c_free ;; ptr_cleanup s ARES_ENOMEM
            else
              ok ← c_malloc;                                (* h_aliases *)
              if negb ok then c_free ;; c_free ;; c_free ;; ptr_cleanup s ARES_ENOMEM
              else
                c_free ;; c_free ;;                         (* aliases, ptrname *)
                mret (inr (Hostent hostname (ps_aliases s) fam (aresx_sitoss (Zlen addr)) [addr]))
    end
  else ptr_cleanup s st.

Definition ares_parse_ptr_reply (addr : list Z) (fam : family) : M (status + hostent) :=
  with_question inl (fun ancount ptrname aptr =>
    ok ← c_malloc;
    if negb ok then c_free ;; mret (inl ARES_ENOMEM)
    else
      '(st, s) ← answers_loop false ptr_body (Z.to_nat ancount) aptr (PtrState ptrname None [] 8);
      ptr_finish addr fam st s).

End parse.

(** ** What a reply says *)

(** One question, for the name [q]; the [a] answers start at [p]. *)
Definition question_at (abuf : list Z) (a : Z) (q : list Z) (p : Z) : Prop :=
  u16_at abuf 4 1 /\ u16_at abuf 6 a /\
  exists k, ns_name abuf HFIXEDSZ q k /\ p = HFIXEDSZ + (k + QFIXEDSZ) /\ p <= Zlen abuf.

Definition answers_at (abuf : list Z) (q : list Z) (rrs : list rr) : Prop :=
  exists a p, question_at abuf a q p /\ rrs_at abuf (Z.to_nat a) p rrs.

Lemma question_at_det abuf a q p a' q' p' :
  question_at abuf a q p -> question_at abuf a' q' p' -> a = a' /\ q = q' /\ p = p'.
Proof.
  intros (_ & Ha & k & Hn & -> & _) (_ & Ha' & k' & Hn' & -> & _).
  destruct (ns_name_det _ _ _ _ _ _ Hn Hn') as [-> ->].
  by rewrite (u16_at_det _ _ _ _ Ha Ha').
Qed.

Lemma wp_with_question abuf {R} (bad : status -> R) k h (Q : R -> heap -> Prop) :
  Zlen abuf <= 32767 -> 0 <= live h ->
  ((forall a q p, ~ question_at abuf a q p) -> forall h', live h' = live h ->
     Q (bad ARES_EBADRESP) h') ->
  (oracle h <> [] -> forall h', live h' = live h -> Q (bad ARES_ENOMEM) h') ->
  (forall a q p h', 0 <= a < 65536 -> 0 <= p -> question_at abuf a q p ->
     live h' = live h + 1 -> (oracle h = [] -> oracle h' = []) -> wp (k a q p) h' Q) ->
  wp (with_question abuf bad k) h Q.
Proof.
  intros Hlen Hh Hbad Hoom Hk. unfold with_question, DNS_HEADER_QDCOUNT, DNS_HEADER_ANCOUNT.
  destruct (Z.ltb_spec (Zlen abuf) HFIXEDSZ) as [Hs|Hs]; change HFIXEDSZ with 12 in Hs.
  { wp_step. apply Hbad; [|done]. intros a q p (_ & _ & ? & Hn & _).
    apply ns_name_range in Hn. change HFIXEDSZ with 12 in Hn. lia. }
  wp_step. apply wp_u16; [lia|lia|]. intros qd Hqd _.
  wp_step. apply wp_u16; [lia|lia|]. intros an Han Hr.
  destruct (Z.eqb_spec qd 1) as [->|Hq1]; cbn [negb].
  2: { wp_step. apply Hbad; [|done]. intros a q p (Hq & _).
       by rewrite (u16_at_det _ _ _ _ Hqd Hq) in Hq1. }
  wp_step. apply wp_expand_for_response; [done|by unfold HFIXEDSZ|..].
  2: { intros Hno. wp_step. apply Hbad; [|done]. intros a q p (_ & _ & ? & Hn & _).
       by apply Hno in Hn. }
  2: { intros h1 Hl1 Ho1. wp_step. by apply Hoom. }
  intros q kq h1 Hl1 Ho1 Hq. pose proof (ns_name_range _ _ _ _ Hq).
  destruct (Z.ltb_spec (Zlen abuf) (HFIXEDSZ + kq + QFIXEDSZ)).
  { do 3 wp_step. apply Hbad; [|cbn; lia]. intros a q' p (_ & _ & ? & Hn & -> & ?).
    destruct (ns_name_det _ _ _ _ _ _ Hq Hn) as [_ <-]. lia. }
  apply Hk; [done|unfold HFIXEDSZ, QFIXEDSZ; lia| |done|done].
  split; [done|]. split; [done|]. exists kq. repeat split; [done|lia].
Qed.

(** ** The loop over the answers, against an abstract state

    [conc a] is the state of the code that stands for [a]; [step r a a'] says
    what the record [r] means; [mem] counts the blocks a state owns; [inv i]
    holds with [i] records left. *)
Section answers_spec.
Context {S A : Type}.
Variables (abuf : list Z) (ttl : bool).
Variable body : list Z -> Z -> Z -> Z -> Z -> Z -> S -> M (status * S).
Variables (mem : S -> Z) (conc : A -> S) (inv : nat -> A -> Prop) (step : rr -> A -> A -> Prop).
Local Abbreviation alen := (Zlen abuf).

Inductive steps : list rr -> A -> A -> Prop :=
| steps_nil a : steps [] a a
| steps_cons r rrs a a' a'' : step r a a' -> steps rrs a' a'' -> steps (r :: rrs) a a''.

Definition answer_ok : Prop := forall i name t c x l aptr a h,
  0 <= aptr -> 0 <= l < 65536 -> aptr + l <= alen -> inv (Datatypes.S i) a ->
  0 < live h -> mem (conc a) + 1 <= live h ->
  wp (body name t c (to_int32 (if ttl then x else 0)) l aptr (conc a)) h (fun r h' =>
    live h' = live h - 1 + mem r.2 - mem (conc a) /\
    match r.1 with
    | ARES_SUCCESS => (oracle h = [] -> oracle h' = []) /\
        exists a', r.2 = conc a' /\ step (RR name t c x l aptr) a a' /\ inv i a'
    | ARES_ENOMEM => oracle h <> []
    | ARES_EBADRESP => forall a', ~ step (RR name t c x l aptr) a a'
    | _ => False
    end).

Hypothesis Hlen : alen <= 32767.
Hypothesis Hmem : forall s, 0 <= mem s.
Hypothesis Hdet : forall r a a1 a2, step r a a1 -> step r a a2 -> a1 = a2.
Hypothesis Hbody : answer_ok.

Definition answers_post (i : nat) (p : Z) (a : A) (h : heap) (r : status * S) (h' : heap) : Prop :=
  live h' = live h + mem r.2 - mem (conc a) /\
  match r.1 with
  | ARES_SUCCESS => (oracle h = [] -> oracle h' = []) /\
      exists rrs a', r.2 = conc a' /\ rrs_at abuf i p rrs /\ steps rrs a a' /\ inv 0 a'
  | ARES_ENOMEM => oracle h <> []
  | ARES_EBADRESP => forall rrs a', rrs_at abuf i p rrs -> ~ steps rrs a a'
  | _ => False
  end.

Lemma wp_answers_loop i p a h :
  0 <= p -> inv i a -> mem (conc a) <= live h ->
  wp (answers_loop abuf ttl body i p (conc a)) h (answers_post i p a h).
Proof.
  revert p a h; induction i as [|i IH]; intros p a h Hp Hi Hm; cbn [answers_loop].
  { wp_step. split; cbn; [lia|]. split; [done|]. exists [], a. split; [done|]. split; [apply rrs_nil|].
    split; [apply steps_nil|done]. }
  pose proof (Hmem (conc a)).
  wp_step. apply wp_expand_for_response; [done|done|..].
  2: { intros Hno. wp_step. split; cbn; [lia|]. intros rrs a' Hr _. inversion Hr; subst.
       eapply Hno. by eexists _, _. }
  2: { intros h1 Hl1 Ho1. wp_step. split; cbn; [lia|done]. }
  intros s k h1 Hl1 Ho1 (ls & tr & Hn & ->). pose proof (name_at_range _ _ _ _ _ Hn) as Hnr.
  destruct (Z.ltb_spec alen (p + k + RRFIXEDSZ)) as [Ht|Hk].
  { do 3 wp_step. split; cbn; [lia|]. intros rrs a' Hr. by eapply (rrs_at_truncated abuf) in Hr. }
  unfold DNS_RR_TYPE, DNS_RR_CLASS, DNS_RR_LEN, DNS_RR_TTL. change RRFIXEDSZ with 10 in Hk.
  wp_step. apply wp_u16; [lia|lia|]. intros t Ht Htr.
  wp_step. apply wp_u16; [lia|lia|]. intros c Hc Hcr.
  wp_step. apply wp_u16; [lia|lia|]. intros l Hl Hlr.
  destruct (u32_at_ex abuf (p + k + 4)) as [x Hx]; [lia|lia|].
  wp_step. eapply wp_mono with (P := fun v h' => v = (if ttl then x else 0) /\ h' = h1).
  { destruct ttl; [|by wp_step]. apply wp_u32; [lia|lia|]. intros v Hv _.
    by rewrite (u32_at_det _ _ _ _ Hv Hx). }
  intros v h1' [-> ->].
  pose proof (fun rrs => rrs_at_inv abuf i p rrs _ _ _ _ _ _ _ Hn Ht Hc Hx Hl) as Hinv.
  change RRFIXEDSZ with 10 in *.
  destruct (Z.ltb_spec alen (p + k + 10 + l)).
  { do 3 wp_step. split; cbn; [lia|]. intros rrs a' (?&?&_)%Hinv. lia. }
  wp_step. eapply wp_mono; [apply (Hbody i (expanded ls) _ _ x _ _ a h1); [lia|lia|lia|done|lia|lia]|].
  intros [st s'] h2 [Hl2 HI2]; cbn [fst snd] in *. case_decide as Hst.
  2: { wp_step. split; cbn; [lia|]. destruct st; try done; try tauto.
       intros rrs a' (?&_&_&->)%Hinv Hs. inversion Hs; subst. by eapply HI2. }
  subst st. destruct HI2 as (Ho2 & a1 & -> & Hstep & Hi1).
  destruct (Z.ltb_spec alen (p + k + 10 + l)); [lia|].
  eapply wp_mono; [apply IH; [lia|done|lia]|].
  intros [st' s''] h3 [Hl3 Hs]; cbn [fst snd] in *. split; cbn; [lia|].
  destruct st'; try done; [| |tauto].
  - destruct Hs as (Ho3 & rrs & a' & -> & Hr & Hs & Hi0). split; [tauto|]. eexists _, a'.
    split; [done|]. split; [by eapply rrs_cons|]. split; [by econstructor|done].
  - intros rrs a' (?&_&?&->)%Hinv Hs'. inversion Hs' as [|? ? ? a2 ? Hst2]; subst.
    rewrite (Hdet _ _ _ _ Hst2 Hstep) in *. by eapply Hs.
Qed.
End answers_spec.

(** ** A and AAAA *)

(** What has been learnt from the answers read so far: the canonical name, the
    names it was reached through, the addresses with their TTLs and the TTL the
    CNAME chain imposes. *)
Record answer := Answer {
  an_name : list Z; an_aliases : list (list Z); an_addrs : list (list Z * Z); an_ttl : Z }.

Definition addr_step (abuf : list Z) (atype asize : Z) (r : rr) (a a' : answer) : Prop :=
  if selects T_CNAME r then
    exists d k, ns_name abuf (rr_data r) d k /\
      a' = Answer d (an_aliases a ++ [rr_name r]) (an_addrs a)
                  (Z.min (an_ttl a) (to_int32 (rr_ttl r)))
  else if selects atype r && (rr_len r =? asize)
          && (ares_strcasecmp (rr_name r) (an_name a) =? 0) then
    a' = Answer (an_name a) (an_aliases a)
           (an_addrs a ++ [(slice abuf (rr_data r) (Z.to_nat asize), to_int32 (rr_ttl r))])
           (an_ttl a)
  else a' = a.

Section addr_spec.
Variables (abuf : list Z) (atype asize : Z) (fam : family).
Variables (host addrttls : bool) (naddrttls : option Z).
Hypothesis Hlen : Zlen abuf <= 32767.
Hypothesis Hsize : 0 <= asize.
Hypothesis Htype : atype <> T_CNAME.
Local Abbreviation max := (max_addr_ttls addrttls naddrttls).

Definition addr_conc (a : answer) : addr_state :=
  AddrState (an_name a) (if host then an_aliases a else []) (Zlen (an_aliases a))
    (if host then fst <$> an_addrs a else []) (Zlen (an_addrs a))
    (take (Z.to_nat max) (an_addrs a)) (an_ttl a).

Definition addr_mem (s : addr_state) : Z :=
  1 + if host then 2 + Zlen (as_aliases s) else 0.

Definition addr_inv (ancount : Z) (i : nat) (a : answer) : Prop :=
  Zlen (an_aliases a) + Zlen (an_addrs a) + Z.of_nat i <= ancount.

Lemma addr_step_det r a a1 a2 :
  addr_step abuf atype asize r a a1 -> addr_step abuf atype asize r a a2 -> a1 = a2.
Proof.
  unfold addr_step. destruct (selects T_CNAME r).
  - intros (d & k & Hn & ->) (d' & k' & Hn' & ->).
    by destruct (ns_name_det _ _ _ _ _ _ Hn Hn') as [-> _].
  - case_match; congruence.
Qed.

Lemma take_snoc_Z {B} (l : list B) x m :
  take (Z.to_nat m) (l ++ [x]) =
  if Zlen l <? m then take (Z.to_nat m) l ++ [x] else take (Z.to_nat m) l.
Proof.
  unfold Zlen. destruct (Z.ltb_spec (Z.of_nat (length l)) m).
  - rewrite take_app_ge by lia. rewrite (take_ge l) by lia.
    by rewrite take_ge by (cbn; lia).
  - by rewrite take_app_le by lia.
Qed.

Lemma wp_addr_record ancount i name t c x l p a h (Q : status * addr_state -> heap -> Prop) :
  0 <= p -> p + l <= Zlen abuf -> addr_inv ancount (S i) a ->
  let hit := (c =? C_IN) && (t =? atype) && (l =? asize)
             && (ares_strcasecmp name (an_name a) =? 0) in
  Q (ARES_SUCCESS, addr_conc (if hit then
       Answer (an_name a) (an_aliases a)
         (an_addrs a ++ [(slice abuf p (Z.to_nat asize), x)]) (an_ttl a) else a)) h ->
  wp (addr_record abuf atype asize host addrttls naddrttls ancount name t c x l p (addr_conc a)) h Q.
Proof.
  intros Hp Hl Hi hit HQ. unfold addr_record, addr_conc in *. fold hit.
  unfold addr_inv in Hi. destruct hit eqn:E; [|by wp_step]. cbn [an_name an_aliases an_addrs an_ttl] in HQ.
  apply andb_true_iff in E as [E _]. apply andb_true_iff in E as [_ E%Z.eqb_eq]. subst l.
  destruct (Z.ltb_spec (Zlen abuf) (p + asize)); [lia|]. rewrite !andb_false_r.
  pose proof (Zlen_nonneg (an_aliases a)).
  assert (Hget : forall h1 (Q1 : list Z -> heap -> Prop),
    Q1 (slice abuf p (Z.to_nat asize)) h1 -> wp (get_bytes abuf p (Z.to_nat asize)) h1 Q1).
  { intros h1 Q1 HQ1. by apply wp_get_bytes; [lia|lia|]. }
  wp_step. eapply wp_mono with (P := fun ad h' => h' = h /\
    ad = if host then fst <$> an_addrs a ++ [(slice abuf p (Z.to_nat asize), x)] else []).
  { destruct host; [|by wp_step]. wp_step. apply wp_assert; [lia|]. wp_step. apply Hget.
    wp_step. by rewrite fmap_app. }
  intros ad h' [-> ->]. wp_step. eapply wp_mono with (P := fun ts h' => h' = h /\
    ts = take (Z.to_nat max) (an_addrs a ++ [(slice abuf p (Z.to_nat asize), x)])).
  { rewrite take_snoc_Z. destruct (Zlen (an_addrs a) <? max); [|by wp_step].
    wp_step. apply Hget. by wp_step. }
  intros ts h' [-> ->]. wp_step. rewrite Zlen_app, Zlen_cons, Zlen_nil in HQ. by rewrite Z.add_0_r in HQ.
Qed.

Lemma addr_mem_nonneg s : 0 <= addr_mem s.
Proof. unfold addr_mem. pose proof (Zlen_nonneg (as_aliases s)). destruct host; lia. Qed.

Lemma addr_body_ok ancount :
  answer_ok abuf true (addr_body abuf atype asize host addrttls naddrttls ancount)
    addr_mem addr_conc (addr_inv ancount) (addr_step abuf atype asize).
Proof.
  intros i name t c x l p a h Hp Hl Hpl Hi Hh Hm. unfold addr_body.
  wp_step. apply wp_addr_record with (i := i); [done..|]. cbv zeta.
  rewrite decide_True by done. unfold addr_inv in Hi.
  unfold addr_step, selects. cbn [rr_name rr_type rr_class rr_ttl rr_len rr_data].
  destruct ((c =? C_IN) && (t =? T_CNAME)) eqn:E.
  - assert ((t =? atype) = false) as ->.
    { apply andb_true_iff in E as [_ E%Z.eqb_eq]. apply Z.eqb_neq. congruence. }
    rewrite andb_false_r. cbn [andb]. unfold addr_cname, addr_conc at 1. rewrite E.
    pose proof (Zlen_nonneg (an_addrs a)). pose proof (addr_mem_nonneg (addr_conc a)).
    wp_step. eapply wp_mono with (P := fun al h' =>
      al = (if host then an_aliases a ++ [name] else []) /\ oracle h' = oracle h /\
      live h' = live h + if host then 0 else -1).
    { destruct host; [|do 3 wp_step; cbn; auto]. wp_step. apply wp_assert; [lia|].
      wp_step. split; [done|]. split; [done|lia]. }
    intros al h1 (-> & Ho1 & Hl1). unfold addr_mem, addr_conc in *; cbn [as_aliases] in *.
    wp_step. apply wp_expand_for_response; [done|done|..].
    + intros d k h2 Hl2 Ho2 Hd. assert (0 < live h2) by (destruct host; lia). do 3 wp_step. cbn [fst snd].
      split; [destruct host; cbn [as_aliases] in *; autorewrite with cares; lia|].
      split; [intros Ho; apply Ho2; congruence|]. exists (Answer d (an_aliases a ++ [name]) (an_addrs a)
        (Z.min (an_ttl a) (to_int32 x))). split.
      * unfold addr_conc; cbn. rewrite Zlen_app, Zlen_cons, Zlen_nil. f_equal.
        destruct (Z.ltb_spec (to_int32 x) (an_ttl a)); lia.
      * split; [by exists d, k|]. unfold addr_inv. cbn. autorewrite with cares. lia.
    + intros Hno. wp_step. cbn [fst snd as_aliases].
      split; [destruct host; autorewrite with cares; lia|].
      intros a' (d & k & Hd & _). by apply Hno in Hd.
    + intros h2 Hl2 Ho2. wp_step. cbn [fst snd as_aliases].
      split; [destruct host; autorewrite with cares; lia|congruence].
  - set (hit := _ && (ares_strcasecmp _ _ =? 0)). unfold addr_cname, addr_conc at 1. rewrite E.
    do 3 wp_step. cbn [fst snd live oracle]. split.
    { unfold addr_mem, addr_conc. cbn [as_aliases]. by destruct hit; cbn; lia. }
    split; [done|]. eexists. split; [done|].
    split; [by destruct hit|]. unfold addr_inv.
    destruct hit; cbn [an_aliases an_addrs]; autorewrite with cares; lia.
Qed.

(** The outcome of the parsers: the reply has a reading, it has one without
    any address or alias, it has none, or an allocation failed. *)
Definition clamp_ttl (m : Z) (x : list Z * Z) : list Z * Z := (x.1, Z.min m x.2).

Definition addr_reading (a : answer) : Prop :=
  exists q rrs, answers_at abuf q rrs /\
    steps (addr_step abuf atype asize) rrs (Answer q [] [] INT_MAX) a.

Definition addr_hostent (a : answer) : hostent :=
  Hostent (an_name a) (an_aliases a) fam asize (fst <$> an_addrs a).

Definition addr_post (h : heap) (r : addr_reply) (h' : heap) : Prop :=
  match ar_status r with
  | ARES_SUCCESS => exists a, addr_reading a /\ (an_aliases a <> [] \/ an_addrs a <> []) /\
      ar_host r = (if host then Some (addr_hostent a) else None) /\
      live h' = live h + (if host then hostent_blocks (addr_hostent a) else 0) /\
      (is_Some naddrttls ->
         ar_ttls r = clamp_ttl (an_ttl a) <$> take (Z.to_nat max) (an_addrs a) /\
         ar_naddrttls r = Some (Z.min max (Zlen (an_addrs a))))
  | ARES_ENODATA => ar_host r = None /\ live h' = live h /\
      exists a, addr_reading a /\ an_aliases a = [] /\ an_addrs a = []
  | ARES_EBADRESP => ar_host r = None /\ live h' = live h /\ forall a, ~ addr_reading a
  | ARES_ENOMEM => ar_host r = None /\ live h' = live h /\ oracle h <> []
  | _ => False
  end.

Lemma wp_addr_cleanup s st ttls n h h0 (Q : addr_reply -> heap -> Prop) :
  0 <= live h0 -> live h = live h0 + addr_mem s ->
  (forall h', live h' = live h0 -> Q (AddrReply st None ttls n) h') ->
  wp (addr_cleanup host s st ttls n) h Q.
Proof.
  intros Hh0 Hh HQ. unfold addr_cleanup, addr_mem, Zlen in *.
  wp_step. eapply wp_mono with (P := fun _ h' => live h' = live h0 + 1).
  { destruct host; cbv iota in *; [|wp_step; lia]. do 5 wp_step. cbn [live]. lia. }
  intros _ h1 Hl1. do 3 wp_step. apply HQ. cbn [live]. lia.
Qed.

Lemma Zlen_zero_nil {B} (l : list B) : Zlen l = 0 -> l = [].
Proof. destruct l; [done|]. rewrite Zlen_cons. pose proof (Zlen_nonneg l). lia. Qed.

Lemma addr_count_conc a : 0 <= max ->
  addr_count addrttls naddrttls (addr_conc a) = Z.min max (Zlen (an_addrs a)).
Proof.
  intros Hmax. unfold addr_count. cbn [as_naddrs addr_conc].
  destruct (Z.ltb_spec (Zlen (an_addrs a)) max); lia.
Qed.

Lemma addr_clamp_conc a : 0 <= max ->
  addr_clamp (addr_conc a) (addr_count addrttls naddrttls (addr_conc a)) =
  clamp_ttl (an_ttl a) <$> take (Z.to_nat max) (an_addrs a).
Proof.
  intros Hmax. rewrite addr_count_conc by done. unfold addr_clamp.
  cbn [as_ttls as_cname_ttl addr_conc].
  assert (Htk : (length (take (Z.to_nat max) (an_addrs a)) <=
                 Z.to_nat (Z.min max (Zlen (an_addrs a))))%nat).
  { rewrite length_take. unfold Zlen. lia. }
  rewrite drop_ge, app_nil_r by exact Htk. rewrite (take_ge _ _ Htk).
  apply list_fmap_ext. intros _ [x t] _. unfold clamp_ttl. cbn. f_equal.
  destruct (Z.ltb_spec (an_ttl a) t); lia.
Qed.

Lemma wp_addr_finish a h h0 :
  0 <= live h0 -> live h = live h0 + addr_mem (addr_conc a) ->
  (oracle h0 = [] -> oracle h = []) -> 0 <= max -> addr_reading a ->
  wp (addr_finish asize fam host addrttls naddrttls ARES_SUCCESS (addr_conc a)) h (addr_post h0).
Proof.
  intros Hh0 Hh Ho Hmax Hread. unfold addr_finish. cbv zeta.
  destruct (decide (ARES_SUCCESS = ARES_SUCCESS /\ _)) as [Hz|Hz].
  { rewrite decide_False by done. destruct Hz as (_ & Ha & Hn).
    eapply wp_addr_cleanup; [done|exact Hh|]. intros h' Hl'. split; [done|]. split; [done|].
    exists a. split; [done|]. split; by apply Zlen_zero_nil. }
  rewrite decide_True by done.
  assert (Hne : an_aliases a <> [] \/ an_addrs a <> []).
  { cbn [as_naddrs as_naliases addr_conc] in Hz.
    destruct (an_aliases a), (an_addrs a); auto. by destruct Hz. }
  set (ttls := match naddrttls with Some _ => _ | None => _ end).
  set (nres := match naddrttls with Some _ => _ | None => _ end).
  assert (Httl : is_Some naddrttls ->
    ttls = clamp_ttl (an_ttl a) <$> take (Z.to_nat max) (an_addrs a) /\
    nres = Some (Z.min max (Zlen (an_addrs a)))).
  { intros [m Em]. rewrite <- addr_clamp_conc, <- addr_count_conc by done.
    unfold ttls, nres. by rewrite Em. }
  clearbody ttls nres.
  assert (Hoom : forall h1, oracle h0 <> [] -> live h1 = live h0 + addr_mem (addr_conc a) ->
    wp (addr_cleanup host (addr_conc a) ARES_ENOMEM ttls nres) h1 (addr_post h0)).
  { intros h1 Ho1 Hl1. eapply wp_addr_cleanup; [done|exact Hl1|]. by intros h' Hl'. }
  destruct (bool_decide_reflect (host = true)) as [Ehost|Ehost%not_true_is_false].
  2: { replace (if host then _ else _) with (addr_cleanup host (addr_conc a) ARES_SUCCESS ttls nres)
         by by rewrite Ehost.
       eapply wp_addr_cleanup; [done|exact Hh|]. intros h' Hl'. exists a.
       split; [done|]. split; [done|]. rewrite Ehost. by rewrite Z.add_0_r. }
  unfold addr_mem in *. rewrite Ehost in *. cbn [addr_conc as_aliases as_addrs as_naddrs as_hostname] in *.
  rewrite Ehost in *. pose proof (Zlen_nonneg (an_aliases a)) as Hna.
  wp_step. wp_step; [|apply Hoom; [tauto|cbn; lia]].
  wp_step. wp_step; [|do 2 wp_step; apply Hoom; [cbn in *; tauto|cbn; lia]].
  wp_step. eapply wp_mono with (P := fun _ h' =>
    live h' = live h + 2 - if Zlen (an_addrs a) =? 0 then 1 else 0).
  { destruct (Zlen (an_addrs a) =? 0); wp_step; cbn; lia. }
  intros _ h1 Hl1. wp_step. exists a. split; [done|]. split; [done|]. cbn [ar_host]. rewrite Ehost.
  split; [done|]. split; [|done]. unfold addr_hostent, hostent_blocks; cbn [h_aliases h_addr_list].
  destruct (an_addrs a) as [|x ads] eqn:Ea; cbn [fmap list_fmap].
  { change (Zlen [] =? 0) with true in Hl1. cbv iota in Hl1. lia. }
  rewrite Zlen_cons in Hl1. pose proof (Zlen_nonneg ads).
  destruct (Z.eqb_spec (1 + Zlen ads) 0); lia.
Qed.

Lemma wp_parse_addr h :
  0 <= live h -> 0 <= max ->
  wp (parse_addr_reply abuf atype asize fam host addrttls naddrttls) h (addr_post h).
Proof.
  intros Hh Hmax. unfold parse_addr_reply. apply wp_with_question; [done|done|..].
  { intros Hno h' Hl'. split; [done|]. split; [done|]. intros a (q & rrs & (n & p & Hq & _) & _).
    by apply Hno in Hq. }
  { by intros Ho h' Hl'. }
  intros n q p h1 Hn Hp Hq Hl1 Ho1.
  assert (Hrun : forall h2, live h2 = live h + addr_mem (addr_conc (Answer q [] [] INT_MAX)) ->
    (oracle h = [] -> oracle h2 = []) ->
    wp ('(st, s) ← answers_loop abuf true (addr_body abuf atype asize host addrttls naddrttls n)
                    (Z.to_nat n) p (AddrState q [] 0 [] 0 [] INT_MAX);
        addr_finish asize fam host addrttls naddrttls st s) h2 (addr_post h)).
  { intros h2 Hl2 Ho2.
    replace (AddrState q [] 0 [] 0 [] INT_MAX) with (addr_conc (Answer q [] [] INT_MAX))
      by (unfold addr_conc; cbn; rewrite take_nil; by destruct host).
    wp_step. eapply wp_mono.
    { eapply wp_answers_loop; [done|apply addr_mem_nonneg|apply addr_step_det|apply addr_body_ok|done| |lia].
      unfold addr_inv. cbn [an_aliases an_addrs]. unfold Zlen. cbn [length]. lia. }
    intros [st s] h3 [Hl3 Hst]; cbn [fst snd] in *. destruct st; try done.
    - destruct Hst as (Ho3 & rrs & a & -> & Hr & Hs & _).
      apply wp_addr_finish; [done|lia|tauto|done|]. exists q, rrs. split; [|done]. by exists n, p.
    - unfold addr_finish. cbv zeta. rewrite !decide_False by intuition discriminate.
      eapply wp_addr_cleanup; [exact Hh|lia|]. intros h' Hl'. split; [done|]. split; [done|].
      intros a (q' & rrs & (n' & p' & Hq' & Hr) & Hs).
      destruct (question_at_det _ _ _ _ _ _ _ Hq Hq') as (<- & <- & <-). by eapply Hst.
    - unfold addr_finish. cbv zeta. rewrite !decide_False by intuition discriminate.
      eapply wp_addr_cleanup; [exact Hh|lia|]. intros h' Hl'. split; [done|]. split; [done|tauto]. }
  unfold addr_mem, addr_conc in Hrun. cbn [as_aliases an_aliases] in Hrun.
  destruct host; [|apply Hrun; [lia|done]]. change (Zlen []) with 0 in Hrun.
  wp_step. wp_step; cbn [negb].
  2: { do 3 wp_step. split; [done|]. split; [cbn; lia|tauto]. }
  wp_step. wp_step; cbn [negb]; [apply Hrun; [cbn; lia|cbn in *; tauto]|].
  do 5 wp_step. split; [done|]. split; [cbn; lia|cbn in *; tauto].
Qed.
End addr_spec.

(** ** NS *)

Definition ns_step (abuf : list Z) (r : rr) (a a' : list (list Z)) : Prop :=
  if selects T_NS r
  then exists d k, ns_name abuf (rr_data r) d k /\ a' = a ++ [c_str d]
  else a' = a.

(** The outcome of a parser that builds a host entry from what [reading]
    says of the message. *)
Definition host_post {A} (reading : A -> Prop) (found : A -> bool) (build : A -> hostent)
    (h : heap) (r : status + hostent) (h' : heap) : Prop :=
  match r with
  | inr host => live h' = live h + hostent_blocks host /\
      exists a, reading a /\ found a = true /\ host = build a
  | inl ARES_ENODATA => live h' = live h /\ exists a, reading a /\ found a = false
  | inl ARES_EBADRESP => live h' = live h /\ forall a, ~ reading a
  | inl ARES_ENOMEM => live h' = live h /\ oracle h <> []
  | inl _ => False
  end.

Definition nonempty {B} (l : list B) : bool := match l with [] => false | _ => true end.

Section ns_spec.
Variable abuf : list Z.
Hypothesis Hlen : Zlen abuf <= 32767.

(** The question's name and the name servers. *)
Definition ns_reading (a : list Z * list (list Z)) : Prop :=
  exists rrs, answers_at abuf a.1 rrs /\ steps (ns_step abuf) rrs [] a.2.

Definition ns_hostent (a : list Z * list (list Z)) : hostent := Hostent a.1 a.2 AF_INET 4 [].

Lemma ns_step_det r a a1 a2 : ns_step abuf r a a1 -> ns_step abuf r a a2 -> a1 = a2.
Proof.
  unfold ns_step. destruct (selects T_NS r); [|congruence].
  intros (d & k & Hn & ->) (d' & k' & Hn' & ->).
  by destruct (ns_name_det _ _ _ _ _ _ Hn Hn') as [-> _].
Qed.

Lemma ns_body_ok ancount :
  answer_ok abuf false (ns_body abuf ancount) (fun l => 2 + Zlen l) id
    (fun i a => Zlen a + Z.of_nat i <= ancount) (ns_step abuf).
Proof.
  intros i name t c x l p a h Hp Hl Hpl Hi Hh Hm. unfold ns_body, id in *.
  pose proof (Zlen_nonneg a). unfold ns_step, selects. cbn [rr_type rr_class rr_data].
  destruct ((c =? C_IN) && (t =? T_NS)).
  2: { do 3 wp_step. cbn [fst snd live oracle]. split; [lia|]. split; [done|]. exists a.
       split; [done|]. split; [done|lia]. }
  wp_step. apply wp_expand_for_response; [done|done|..].
  - intros d k h1 Hl1 Ho1 Hd. wp_step. apply wp_assert; [lia|]. wp_step. wp_step; cbn [negb];
      do 5 wp_step; cbn [fst snd live oracle]; autorewrite with cares; (split; [lia|]); [|tauto].
    split; [tauto|]. eexists. split; [done|]. split; [by exists d, k|].
    autorewrite with cares. lia.
  - intros Hno. do 3 wp_step. cbn [fst snd live]. split; [lia|].
    intros a' (d & k & Hd & _). by apply Hno in Hd.
  - intros h1 Hl1 Ho1. do 3 wp_step. cbn [fst snd live]. split; [lia|done].
Qed.

Lemma wp_parse_ns h :
  0 <= live h ->
  wp (ares_parse_ns_reply abuf) h (host_post ns_reading (fun a => nonempty a.2) ns_hostent h).
Proof.
  intros Hh. unfold ares_parse_ns_reply. apply wp_with_question; [done|done|..].
  { intros Hno h' Hl'. split; [done|]. intros a (rrs & (n & p & Hq & _) & _). by apply Hno in Hq. }
  { by intros Ho h' Hl'. }
  intros n q p h1 Hn Hp Hq Hl1 Ho1.
  wp_step. wp_step; cbn [negb]; [|do 3 wp_step; split; [cbn; lia|tauto]].
  wp_step. eapply wp_mono.
  { apply (wp_answers_loop abuf false _ (fun l => 2 + Zlen l) id _ _ Hlen
      ltac:(intros l; pose proof (Zlen_nonneg l); lia) ns_step_det (ns_body_ok n)
      _ _ [] (Heap (live h1 + 1) o));
      [done|unfold Zlen; cbn [length]; lia|unfold id, Zlen; cbn [length live]; lia]. }
  intros [st ns] h2 [Hl2 Hst]; cbn [fst snd live oracle] in *.
  unfold id in Hl2. change (Zlen []) with 0 in Hl2. pose proof (Zlen_nonneg ns) as Hnn.
  assert (Hclean : forall st h3, live h3 = live h + 2 + Zlen ns ->
    host_post ns_reading (fun a => nonempty a.2) ns_hostent h (inl st) (Heap (live h) (oracle h3)) ->
    wp (c_free_n (length ns) ;; c_free ;; c_free ;; mret (inl st)) h3
       (host_post ns_reading (fun a => nonempty a.2) ns_hostent h)).
  { intros st' h3 Hl3 HP. unfold Zlen in Hl3. do 7 wp_step.
    by replace (live h3 - Z.of_nat (length ns) - 1 - 1) with (live h) by lia. }
  destruct st; try done.
  - destruct Hst as (Ho2 & rrs & a & -> & Hr & Hs & _). unfold id in *.
    assert (Hread : ns_reading (q, a)) by (exists rrs; split; [by exists n, p|done]).
    destruct (decide (ARES_SUCCESS = ARES_SUCCESS /\ a = [])) as [[_ ->]|Hne].
    { rewrite decide_False by done. apply Hclean; [lia|]. split; [done|]. by exists (q, []). }
    rewrite decide_True by done.
    wp_step. wp_step; [|apply Hclean; [cbn; lia|split; [done|tauto]]].
    wp_step. wp_step; [|do 2 wp_step; apply Hclean; [cbn; lia|split; [done|cbn in *; tauto]]].
    wp_step. split; [unfold hostent_blocks; cbn; lia|]. exists (q, a). split; [done|].
    split; [|done]. destruct a; [by destruct Hne|done].
  - rewrite !decide_False by intuition discriminate. apply Hclean; [lia|]. split; [done|].
    intros [q' a] (rrs & (n' & p' & Hq' & Hr) & Hs). cbn in *.
    destruct (question_at_det _ _ _ _ _ _ _ Hq Hq') as (<- & <- & <-). by eapply Hst.
  - rewrite !decide_False by intuition discriminate. apply Hclean; [lia|]. split; [done|tauto].
Qed.
End ns_spec.

(** ** PTR *)

(** The name looked for, and the host names found. *)
Record ptr_answer := PtrAnswer { pa_target : list Z; pa_hosts : list (list Z) }.

Definition ptr_step (abuf : list Z) (r : rr) (a a' : ptr_answer) : Prop :=
  if selects T_CNAME r then
    exists d k, ns_name abuf (rr_data r) d k /\ a' = PtrAnswer d (pa_hosts a)
  else if selects T_PTR r && (ares_strcasecmp (rr_name r) (pa_target a) =? 0) then
    exists d k, ns_name abuf (rr_data r) d k /\ a' = PtrAnswer (pa_target a) (pa_hosts a ++ [d])
  else a' = a.

(** The capacity of [aliases] after [n] names. *)
Fixpoint ptr_alloc (n : nat) : Z :=
  match n with
  | O => 8
  | S n' => if ptr_alloc n' <=? Z.of_nat n then ptr_alloc n' * 2 else ptr_alloc n'
  end.

Lemma ptr_alloc_room n : Z.of_nat n < ptr_alloc n.
Proof.
  induction n as [|n IH]; cbn [ptr_alloc]; [lia|].
  destruct (Z.leb_spec (ptr_alloc n) (Z.of_nat (S n))); lia.
Qed.

Definition ptr_conc (a : ptr_answer) : ptr_state :=
  PtrState (pa_target a) (last (pa_hosts a)) (c_str <$> pa_hosts a)
    (ptr_alloc (length (pa_hosts a))).

Definition ptr_mem (s : ptr_state) : Z :=
  2 + Zlen (ps_aliases s) + blocks_opt (ps_hostname s).

Section ptr_spec.
Variables (abuf addr : list Z) (fam : family).
Hypothesis Hlen : Zlen abuf <= 32767.

Definition ptr_reading (a : ptr_answer) : Prop :=
  exists q rrs, answers_at abuf q rrs /\ steps (ptr_step abuf) rrs (PtrAnswer q []) a.

Definition ptr_hostent (a : ptr_answer) : hostent :=
  Hostent (default [] (last (pa_hosts a))) (c_str <$> pa_hosts a) fam
    (aresx_sitoss (Zlen addr)) [addr].

Lemma ptr_mem_nonneg s : 0 <= ptr_mem s.
Proof.
  unfold ptr_mem. pose proof (Zlen_nonneg (ps_aliases s)).
  pose proof (blocks_opt_nonneg (ps_hostname s)). lia.
Qed.

Lemma ptr_step_det r a a1 a2 : ptr_step abuf r a a1 -> ptr_step abuf r a a2 -> a1 = a2.
Proof.
  unfold ptr_step. destruct (selects T_CNAME r); [|case_match; [|congruence]];
    intros (d & k & Hn & ->) (d' & k' & Hn' & ->);
    by destruct (ns_name_det _ _ _ _ _ _ Hn Hn') as [-> _].
Qed.

Lemma ptr_conc_snoc a d :
  ptr_conc (PtrAnswer (pa_target a) (pa_hosts a ++ [d])) =
  let aliases := (c_str <$> pa_hosts a) ++ [c_str d] in
  PtrState (pa_target a) (Some d) aliases
    (if ptr_alloc (length (pa_hosts a)) <=? Zlen aliases
     then ptr_alloc (length (pa_hosts a)) * 2 else ptr_alloc (length (pa_hosts a))).
Proof.
  unfold ptr_conc. cbn [pa_target pa_hosts]. cbv zeta.
  rewrite last_snoc, fmap_app, length_app, Nat.add_comm.
  cbn [length Nat.add ptr_alloc]. unfold Zlen. rewrite length_app, length_fmap. cbn [length].
  by rewrite Nat.add_comm.
Qed.

Lemma ptr_mem_conc a :
  ptr_mem (ptr_conc a) = 2 + Zlen (pa_hosts a) + blocks_opt (last (pa_hosts a)).
Proof. unfold ptr_mem, ptr_conc, Zlen. cbn [ps_aliases ps_hostname]. by rewrite length_fmap. Qed.

(** The block for a PTR record, on a record for the wanted name. *)
Definition ptr_record_post (p : Z) (a : ptr_answer) (h : heap) (r : status * ptr_state)
    (h' : heap) : Prop :=
  match r.1 with
  | ARES_SUCCESS => live h' = live h + ptr_mem r.2 - ptr_mem (ptr_conc a) /\
      (oracle h = [] -> oracle h' = []) /\
      exists d k, ns_name abuf p d k /\ r.2 = ptr_conc (PtrAnswer (pa_target a) (pa_hosts a ++ [d]))
  | ARES_ENOMEM => live h' = live h - 1 + ptr_mem r.2 - ptr_mem (ptr_conc a) /\ oracle h <> []
  | ARES_EBADRESP => live h' = live h - 1 + ptr_mem r.2 - ptr_mem (ptr_conc a) /\
      forall d k, ~ ns_name abuf p d k
  | _ => False
  end.

Lemma wp_ptr_record name t c p a h :
  0 <= p -> ptr_mem (ptr_conc a) + 1 <= live h ->
  (c =? C_IN) && (t =? T_PTR) && (ares_strcasecmp name (pa_target a) =? 0) = true ->
  wp (ptr_record abuf name t c p (ptr_conc a)) h (ptr_record_post p a h).
Proof.
  intros Hp Hm Hit. pose proof (ptr_mem_conc a) as Hc. rewrite Hc in Hm.
  pose proof (blocks_opt_nonneg (last (pa_hosts a))). pose proof (Zlen_nonneg (pa_hosts a)).
  unfold ptr_record, ptr_conc at 1. rewrite Hit.
  wp_step. apply wp_expand_for_response; [done|done|..].
  2: { intros Hno. do 3 wp_step. split; cbn [fst snd live]; [unfold ptr_conc; lia|done]. }
  2: { intros h1 Hl1 Ho1. do 3 wp_step. split; cbn [fst snd live]; [unfold ptr_conc; lia|done]. }
  intros d k h1 Hl1 Ho1 Hd. pose proof (ptr_alloc_room (length (pa_hosts a))) as Hroom.
  pose proof (ptr_conc_snoc a d) as Hs. cbv zeta in Hs.
  assert (Hlenf : Zlen (c_str <$> pa_hosts a) = Zlen (pa_hosts a))
    by (unfold Zlen; by rewrite length_fmap).
  wp_step. apply wp_free_opt; [lia|]. wp_step. apply wp_assert.
  { rewrite Hlenf. unfold Zlen. lia. }
  wp_step. wp_step; cbn [negb].
  2: { do 3 wp_step. unfold ptr_record_post. cbn [fst snd live]. rewrite Hc.
       unfold ptr_mem. cbn [fst snd live ps_aliases ps_hostname blocks_opt]. split; [lia|cbn in *; tauto]. }
  assert (Hm' : forall aloc, ptr_mem (PtrState (pa_target a) (Some d)
                  ((c_str <$> pa_hosts a) ++ [c_str d]) aloc) = 4 + Zlen (pa_hosts a)).
  { intros aloc. unfold ptr_mem. cbn [ps_aliases ps_hostname blocks_opt].
    autorewrite with cares. rewrite Hlenf. lia. }
  destruct (_ <=? Zlen (_ ++ [c_str d])).
  - wp_step. wp_step; cbn [negb]; [wp_step|do 3 wp_step];
      unfold ptr_record_post; cbn [fst snd live oracle]; rewrite Hm', Hc;
      (split; [lia|]); [|cbn in *; tauto].
    split; [cbn in *; tauto|]. exists d, k. by split.
  - wp_step. unfold ptr_record_post; cbn [fst snd live oracle]. rewrite Hm', Hc.
    split; [lia|]. split; [cbn in *; tauto|]. exists d, k. by split.
Qed.

Lemma ptr_record_skip name t c p s :
  (c =? C_IN) && (t =? T_PTR) && (ares_strcasecmp name (ps_ptrname s) =? 0) = false ->
  ptr_record abuf name t c p s = mret (ARES_SUCCESS, s).
Proof. intros E. destruct s. unfold ptr_record. cbn [ps_ptrname] in E. by rewrite E. Qed.

Lemma ptr_cname_skip t c p s :
  (c =? C_IN) && (t =? T_CNAME) = false ->
  ptr_cname abuf t c p s = (c_free ;; mret (ARES_SUCCESS, s)).
Proof. intros E. destruct s. unfold ptr_cname. by rewrite E. Qed.

Lemma ptr_body_ok :
  answer_ok abuf false (ptr_body abuf) ptr_mem ptr_conc (fun _ _ => True) (ptr_step abuf).
Proof.
  intros i name t c x l p a h Hp Hl Hpl _ Hh Hm. unfold ptr_body.
  pose proof (ptr_mem_nonneg (ptr_conc a)) as Hmm.
  unfold ptr_step, selects. cbn [rr_name rr_type rr_class rr_data].
  destruct ((c =? C_IN) && (t =? T_CNAME)) eqn:E.
  - rewrite ptr_record_skip.
    2: { apply andb_true_iff in E as [_ E%Z.eqb_eq]. subst t. by rewrite andb_false_r. }
    do 2 wp_step. rewrite decide_True by done. unfold ptr_cname.
    destruct (ptr_conc a) as [tn hn al aloc] eqn:Ec. rewrite E.
    wp_step. apply wp_expand_for_response; [done|done|..].
    + intros d k h1 Hl1 Ho1 Hd. do 5 wp_step. cbn [fst snd live oracle].
      split; [unfold ptr_mem; cbn; lia|]. split; [done|].
      exists (PtrAnswer d (pa_hosts a)). unfold ptr_conc in *. cbn. simplify_eq.
      split; [done|]. split; [by exists d, k|done].
    + intros Hno. do 3 wp_step. split; [cbn [fst snd live]; lia|].
      intros a' (d & k & Hd & _). by apply Hno in Hd.
    + intros h1 Hl1 Ho1. do 3 wp_step. split; [cbn [fst snd live]; lia|done].
  - destruct ((c =? C_IN) && (t =? T_PTR) && (ares_strcasecmp name (pa_target a) =? 0)) eqn:Hit.
    + wp_step. eapply wp_mono; [by apply wp_ptr_record|].
      intros [st s] h1 Hr; unfold ptr_record_post in Hr; cbn [fst snd] in Hr.
      destruct st; try done.
      * destruct Hr as (Hl1 & Ho1 & d & k & Hd & ->). rewrite decide_True by done.
        pose proof (ptr_mem_nonneg (ptr_conc (PtrAnswer (pa_target a) (pa_hosts a ++ [d])))).
        rewrite ptr_cname_skip by done. do 3 wp_step. cbn [fst snd live oracle].
        split; [lia|]. split; [done|]. eexists. split; [done|]. split; [by exists d, k|done].
      * rewrite decide_False by done. wp_step. destruct Hr as [? Hno]. split; [done|].
        intros a' (d & k & Hd & _). by apply Hno in Hd.
    + rewrite ptr_record_skip by done.
      do 2 wp_step. rewrite decide_True by done. rewrite ptr_cname_skip by done.
      do 3 wp_step. cbn [fst snd live oracle]. split; [lia|]. split; [done|]. by exists a.
Qed.

Local Abbreviation ptr_post := (host_post ptr_reading (fun a => nonempty (pa_hosts a)) ptr_hostent).

Lemma wp_ptr_cleanup s st h h0 :
  0 <= live h0 -> live h = live h0 + ptr_mem s ->
  (forall o, ptr_post h0 (inl st) (Heap (live h0) o)) -> wp (ptr_cleanup s st) h (ptr_post h0).
Proof.
  intros Hh0 Hh HP. unfold ptr_cleanup, ptr_mem, Zlen in *.
  pose proof (blocks_opt_nonneg (ps_hostname s)).
  do 4 wp_step. wp_step. apply wp_free_opt; [cbn; lia|]. do 3 wp_step.
  replace (_ - 1) with (live h0) by lia. apply HP.
Qed.

Lemma wp_ptr_finish a h h0 :
  0 <= live h0 -> live h = live h0 + ptr_mem (ptr_conc a) ->
  (oracle h0 = [] -> oracle h = []) -> ptr_reading a ->
  wp (ptr_finish addr fam ARES_SUCCESS (ptr_conc a)) h (ptr_post h0).
Proof.
  intros Hh0 Hh Ho Hread. unfold ptr_finish. rewrite decide_True by done.
  cbn [ps_hostname ptr_conc]. destruct (last (pa_hosts a)) as [hn|] eqn:El.
  2: { eapply wp_ptr_cleanup; [done|exact Hh|]. intros o. split; [done|]. exists a.
       split; [done|]. by apply last_None in El as ->. }
  assert (Hoom : forall h1, oracle h0 <> [] -> live h1 = live h0 + ptr_mem (ptr_conc a) ->
    wp (ptr_cleanup (ptr_conc a) ARES_ENOMEM) h1 (ptr_post h0)).
  { intros h1 Ho1 Hl1. eapply wp_ptr_cleanup; [done|exact Hl1|]. by intros o. }
  pose proof (ptr_mem_nonneg (ptr_conc a)) as Hmm.
  wp_step. wp_step; cbn [negb]; [|apply Hoom; [tauto|cbn; lia]].
  wp_step. wp_step; cbn [negb]; [|do 2 wp_step; apply Hoom; [cbn in *; tauto|cbn; lia]].
  wp_step. wp_step; cbn [negb]; [|do 4 wp_step; apply Hoom; [cbn in *; tauto|cbn; lia]].
  wp_step. wp_step; cbn [negb]; [|do 6 wp_step; apply Hoom; [cbn in *; tauto|cbn; lia]].
  do 5 wp_step. rewrite ptr_mem_conc, El in Hh. cbn [blocks_opt] in Hh. split.
  { unfold hostent_blocks; cbn [h_aliases h_addr_list ptr_conc ps_aliases live].
    unfold Zlen in *. rewrite length_fmap. lia. }
  exists a. split; [done|]. unfold ptr_hostent. rewrite El. split; [|done].
  by destruct (pa_hosts a).
Qed.

Lemma wp_parse_ptr h :
  0 <= live h -> wp (ares_parse_ptr_reply abuf addr fam) h (ptr_post h).
Proof.
  intros Hh. unfold ares_parse_ptr_reply. apply wp_with_question; [done|done|..].
  { intros Hno h' Hl'. split; [done|]. intros a (q & rrs & (n & p & Hq & _) & _). by apply Hno in Hq. }
  { by intros Ho h' Hl'. }
  intros n q p h1 Hn Hp Hq Hl1 Ho1.
  wp_step. wp_step; cbn [negb]; [|do 3 wp_step; split; [cbn; lia|tauto]].
  wp_step. change (PtrState q None [] 8) with (ptr_conc (PtrAnswer q [])).
  eapply wp_mono.
  { eapply wp_answers_loop; [done|apply ptr_mem_nonneg|apply ptr_step_det|apply ptr_body_ok|done|done|].
    change (ptr_mem (ptr_conc (PtrAnswer q []))) with 2. cbn [live]. lia. }
  intros [st s] h2 [Hl2 Hst]; cbn [fst snd live oracle] in *.
  change (ptr_mem (ptr_conc (PtrAnswer q []))) with 2 in Hl2. destruct st; try done.
  - destruct Hst as (Ho2 & rrs & a & -> & Hr & Hs & _).
    apply wp_ptr_finish; [done|lia|tauto|]. exists q, rrs. split; [by exists n, p|done].
  - unfold ptr_finish. rewrite decide_False by done.
    eapply wp_ptr_cleanup; [exact Hh|lia|]. intros o'. split; [done|].
    intros a (q' & rrs & (n' & p' & Hq' & Hr) & Hs).
    destruct (question_at_det _ _ _ _ _ _ _ Hq Hq') as (<- & <- & <-). by eapply Hst.
  - unfold ptr_finish. rewrite decide_False by done.
    eapply wp_ptr_cleanup; [exact Hh|lia|]. intros o'. split; [done|tauto].
Qed.
End ptr_spec.

(** ** [ares_strcasecmp] *)

Definition is_byte (c : Z) : Prop := 0 <= c < 256.

Lemma lower_zero c : is_byte c -> lower c = 0 <-> c = 0.
Proof. unfold is_byte, lower. intros Hc. repeat cdec_one; cbn; lia. Qed.

Lemma strcasecmp_zero a b :
  Forall is_byte a -> Forall is_byte b ->
  ares_strcasecmp a b = 0 <-> lower <$> c_str a = lower <$> c_str b.
Proof.
  intros Ha; revert b; induction Ha as [|x a Hx Ha IH]; intros b Hb; cbn [ares_strcasecmp c_str].
  - destruct Hb as [|y b Hy Hb]; cbn; [done|]. pose proof (lower_zero y Hy).
    destruct (Z.eqb_spec y 0) as [->|]; [done|].
    destruct (lower y) eqn:El; cbn; split; intros H0; try lia; try done; tauto.
  - pose proof (lower_zero x Hx) as Hlx.
    assert (Hhd : is_byte (hd 0 b)) by (destruct Hb; [unfold is_byte; cbn; lia|done]).
    pose proof (lower_zero _ Hhd) as Hly.
    destruct (Z.eqb_spec x 0) as [->|Hx0].
    + change (lower 0) with 0 in *. destruct Hb as [|y b Hy Hb]; cbn; [done|].
      destruct (Z.eqb_spec y 0) as [->|Hy0]; [done|]. cbn in Hly.
      destruct (lower y) eqn:El; cbn; split; intros H0; try lia; try done; tauto.
    + destruct (Z.eqb_spec (lower x) (lower (hd 0 b))) as [El|El]; cbn [negb].
      * destruct (Z.eqb_spec (lower x) 0); [tauto|].
        destruct Hb as [|y b Hy Hb]; cbn [hd tl c_str] in *; [by rewrite El in *|].
        destruct (Z.eqb_spec y 0); [subst; tauto|]. rewrite IH by done. cbn. rewrite El.
        split; [by intros ->|by intros [= ->]].
      * split; [lia|]. destruct Hb as [|y b Hy Hb]; cbn [hd tl c_str] in *; [done|].
        destruct (Z.eqb_spec y 0); cbn; intros [=]; done.
Qed.

(** ** Properties *)

(** C35. [ares_parse_a_reply] and [ares_parse_aaaa_reply], on any message of
    at most 32767 bytes and for any combination of requested outputs, have no
    undefined behaviour (the [addrs] and [aliases] arrays are never
    overrun) and return what the answers say: following the CNAME chain from
    the question's name, the canonical name, the aliases and the addresses of
    the wanted type owned by the current name, with the TTLs limited by the
    chain's. They report [ARES_ENODATA] exactly when there is neither an
    address nor an alias, [ARES_EBADRESP] only when the message has no such
    reading and [ARES_ENOMEM] only when an allocation fails; the blocks left
    allocated are those of the returned host entry. *)
Theorem ares_parse_addr_reply_correct abuf host addrttls naddrttls h :
  Zlen abuf <= 32767 -> 0 <= live h -> 0 <= max_addr_ttls addrttls naddrttls ->
  wp (ares_parse_a_reply abuf host addrttls naddrttls) h
     (addr_post abuf T_A 4 AF_INET host addrttls naddrttls h) /\
  wp (ares_parse_aaaa_reply abuf host addrttls naddrttls) h
     (addr_post abuf T_AAAA 16 AF_INET6 host addrttls naddrttls h).
Proof. intros Hl Hh Hm. split; by apply wp_parse_addr. Qed.

(** [ares_parse_ns_reply] on any message of at most 32767 bytes: no
    undefined behaviour, the host entry holds the question's name and the
    name servers of the NS records in order, and every block is accounted
    for. *)
Theorem ares_parse_ns_reply_correct abuf h :
  Zlen abuf <= 32767 -> 0 <= live h ->
  wp (ares_parse_ns_reply abuf) h
     (host_post (ns_reading abuf) (fun a => nonempty a.2) ns_hostent h).
Proof. intros Hl Hh. by apply wp_parse_ns. Qed.

(** [ares_parse_ptr_reply] on any message of at most 32767 bytes: no
    undefined behaviour (the growing [aliases] array is never overrun), the
    host entry holds every host name found for the reverse name or its
    canonical name, the last one as the official name, and every block is
    accounted for. *)
Theorem ares_parse_ptr_reply_correct abuf addr fam h :
  Zlen abuf <= 32767 -> 0 <= live h ->
  wp (ares_parse_ptr_reply abuf addr fam) h
     (host_post (ptr_reading abuf) (fun a => nonempty (pa_hosts a)) (ptr_hostent addr fam) h).
Proof. intros Hl Hh. by apply wp_parse_ptr. Qed.

(** [ares_strcasecmp] returns zero exactly for strings that are equal up
    to the case of ASCII letters. *)
Theorem ares_strcasecmp_equal a b :
  Forall is_byte a -> Forall is_byte b ->
  ares_strcasecmp a b = 0 <-> lower <$> c_str a = lower <$> c_str b.
Proof. apply strcasecmp_zero. Qed.

(** A reply with the chain [a] to [b] and an address of [B]. *)
Definition ex_a : list Z :=
  ex_question 2 1 ++ [192; 12; 0; 5; 0; 1; 0; 0; 0; 7; 0; 3; 1; 98; 0]
                  ++ [1; 66; 0; 0; 1; 0; 1; 0; 0; 0; 60; 0; 4; 10; 0; 0; 1].

Lemma ares_parse_addr_reply_correct_witness :
  exists r h', ares_parse_a_reply ex_a true true (Some 5) (Heap 0 []) = Ret r h' /\
    r = AddrReply ARES_SUCCESS (Some (Hostent [98] [[97]] AF_INET 4 [[10; 0; 0; 1]]))
          [([10; 0; 0; 1], 7)] (Some 1) /\
    addr_post ex_a T_A 4 AF_INET true true (Some 5) (Heap 0 []) r h'.
Proof.
  pose proof (ares_parse_addr_reply_correct ex_a true true (Some 5) (Heap 0 [])
    ltac:(vm_compute; discriminate) ltac:(cbn; lia) ltac:(cbn; lia)) as [H _].
  eexists _, _. split; [vm_compute; reflexivity|]. split; [reflexivity|exact H].
Defined.

Definition ex_ns : list Z := ex_question 1 2 ++ ex_rr 2 2 ++ [192; 12].

Lemma ares_parse_ns_reply_correct_witness :
  exists r h', ares_parse_ns_reply ex_ns (Heap 0 []) = Ret r h' /\
    r = inr (Hostent [97] [[97]] AF_INET 4 []) /\
    host_post (ns_reading ex_ns) (fun a => nonempty a.2) ns_hostent (Heap 0 []) r h'.
Proof.
  pose proof (ares_parse_ns_reply_correct ex_ns (Heap 0 [])
    ltac:(vm_compute; discriminate) ltac:(cbn; lia)) as H.
  eexists _, _. split; [vm_compute; reflexivity|]. split; [reflexivity|exact H].
Defined.

Definition ex_ptr : list Z := ex_question 1 12 ++ ex_rr 12 3 ++ [1; 104; 0].

Lemma ares_parse_ptr_reply_correct_witness :
  exists r h', ares_parse_ptr_reply ex_ptr [10; 0; 0; 1] AF_INET (Heap 0 []) = Ret r h' /\
    r = inr (Hostent [104] [[104]] AF_INET 4 [[10; 0; 0; 1]]) /\
    host_post (ptr_reading ex_ptr) (fun a => nonempty (pa_hosts a))
      (ptr_hostent [10; 0; 0; 1] AF_INET) (Heap 0 []) r h'.
Proof.
  pose proof (ares_parse_ptr_reply_correct ex_ptr [10; 0; 0; 1] AF_INET (Heap 0 [])
    ltac:(vm_compute; discriminate) ltac:(cbn; lia)) as H.
  eexists _, _. split; [vm_compute; reflexivity|]. split; [reflexivity|exact H].
Defined.

Lemma ares_strcasecmp_equal_witness :
  ares_strcasecmp [65; 98] [97; 66] = 0 <->
  lower <$> c_str [65; 98] = lower <$> c_str [97; 66].
Proof.
  apply (ares_strcasecmp_equal [65; 98] [97; 66]); repeat constructor; unfold is_byte; lia.
Defined.

(** The count [*naddrttls] is not reset on every failure: when the last
    allocation fails the status is [ARES_ENOMEM] and the count is not 0. *)
Theorem ares_parse_a_reply_count_on_failure :
  exists h', ares_parse_a_reply ex_a true true (Some 5)
    (Heap 0 (repeat true 7 ++ [false])) =
    Ret (AddrReply ARES_ENOMEM None [([10; 0; 0; 1], 7)] (Some 1)) h'.
Proof. eexists. by vm_compute. Qed.
