(* ===== verification/InetAddr.v ===== *)
(** * Address text: inet_ntop.c, inet_net_pton.c and bitncmp.c (c-ares)

    Models, in src/Scylla-moon/seastar/c-ares, [ares_inet_ntop] with its two
    helpers, [ares_inet_net_pton] with [inet_net_pton_ipv4],
    [inet_net_pton_ipv6], [getbits] and [getv4], [ares_inet_pton], and
    [ares__bitncmp].

    A C string is the list of its characters before the terminator. A [const
    char *] that walks over it is a [cursor]: the characters that are left, or
    [None] once the terminator has been consumed, after which reading is
    undefined. Arrays are lists with their capacity checked at each write. *)

From S2P Require Import Prelude DnsWire ParseHost.
Open Scope Z_scope.

Inductive errno := ENOENT | EMSGSIZE | ENOSPC | EAFNOSUPPORT.

#[export] Instance errno_eq_dec : EqDecision errno.
Proof. solve_decision. Defined.

(** ** Characters *)

Definition ch_colon : Z := 58.
Definition ch_slash : Z := 47.

Definition ISASCII (c : Z) : bool := (0 <=? c) && (c <? 128).
Definition ISDIGIT (c : Z) : bool := (48 <=? c) && (c <=? 57).
Definition ISUPPER (c : Z) : bool := (65 <=? c) && (c <=? 90).
Definition ISXDIGIT (c : Z) : bool :=
  ISDIGIT c || ((97 <=? c) && (c <=? 102)) || ((65 <=? c) && (c <=? 70)).

(** [strchr(digits, c) - digits] and the same for the hexadecimal tables, for
    a character that is not the terminator. *)
Definition digit_val (c : Z) : option Z := if ISDIGIT c then Some (c - 48) else None.
Definition xdigit_l (c : Z) : option Z :=
  if ISDIGIT c then Some (c - 48)
  else if (97 <=? c) && (c <=? 102) then Some (c - 87) else None.
Definition xdigit_u (c : Z) : option Z :=
  if ISDIGIT c then Some (c - 48)
  else if (65 <=? c) && (c <=? 70) then Some (c - 55) else None.

(** ** Cursors *)

Definition cursor : Type := option (list Z).

(** [*src++]. *)
Definition next_char (src : cursor) : M (Z * cursor) :=
  match src with
  | Some (c :: s) => mret (c, Some s)
  | Some [] => mret (0, None)
  | None => undefined
  end.

(** [src[i]]. *)
Definition peek (src : cursor) (i : nat) : M Z :=
  match src with
  | Some s => match s !! i with
              | Some c => mret c
              | None => if decide (i = length s) then mret 0 else undefined
              end
  | None => undefined
  end.

(** ** Printing: inet_ntop.c *)

(** The digits of a number, most significant first: what [sprintf] prints
    for the conversions u and x. *)
Definition digit_char (d : Z) : Z := if d <? 10 then 48 + d else 87 + d.

Fixpoint print_base (base : Z) (fuel : nat) (n : Z) : list Z :=
  match fuel with
  | O => []
  | S fuel' => (if n <? base then [] else print_base base fuel' (n / base))
               ++ [digit_char (n mod base)]
  end.

Definition sprintf_u (n : Z) : list Z := print_base 10 10 n.
Definition sprintf_x (n : Z) : list Z := print_base 16 8 n.

(** [inet_ntop4]: [tmp] has room for 16 characters with the terminator. *)
Definition inet_ntop4 (src : list Z) (size : Z) : M (errno + list Z) :=
  b0 ← get_byte src 0; b1 ← get_byte src 1; b2 ← get_byte src 2; b3 ← get_byte src 3;
  tmp ← put_chars 16 [] (sprintf_u b0 ++ [ch_dot] ++ sprintf_u b1 ++ [ch_dot] ++
                         sprintf_u b2 ++ [ch_dot] ++ sprintf_u b3);
  _ ← put_char 16 tmp 0;
  if size <=? Zlen tmp then mret (inl ENOSPC) else mret (inr (rev tmp)).

(** [words[i / 2] |= src[i] << ((1 - (i % 2)) << 3)]. *)
Fixpoint ntop6_words (src : list Z) (i : Z) (n : nat) : M (list Z) :=
  match n with
  | O => mret []
  | S n' =>
      b0 ← get_byte src i; b1 ← get_byte src (i + 1);
      ws ← ntop6_words src (i + 2) n';
      mret (Z.lor (Z.lor 0 (Z.shiftl b0 8)) b1 :: ws)
  end.

(** [struct { int base, len; }]. *)
Definition run : Type := Z * Z.

(** [if (best.base == -1 || cur.len > best.len) best = cur]. *)
Definition better (best cur : run) : run :=
  if (best.1 =? -1) || (best.2 <? cur.2) then cur else best.

(** The search for the longest run of zero words. *)
Fixpoint ntop6_scan (words : list Z) (i : Z) (best cur : run) : run :=
  match words with
  | [] => if negb (cur.1 =? -1) then better best cur else best
  | w :: words' =>
      if w =? 0 then
        ntop6_scan words' (i + 1) best (if cur.1 =? -1 then (i, 1) else (cur.1, cur.2 + 1))
      else if negb (cur.1 =? -1) then ntop6_scan words' (i + 1) (better best cur) (-1, cur.2)
      else ntop6_scan words' (i + 1) best cur
  end.

Definition ntop6_best (words : list Z) : run :=
  let best := ntop6_scan words 0 (-1, 0) (-1, 0) in
  if negb (best.1 =? -1) && (best.2 <? 2) then (-1, best.2) else best.

Definition TMP6 : Z := 46.

Definition word_at (words : list Z) (i : nat) : Z := nth i words 0.

(** The formatting loop from word [i] on, [rest] being the words left. *)
Fixpoint ntop6_format (src words : list Z) (best : run) (i : Z) (rest : list Z) (tp : list Z)
    : M (errno + list Z) :=
  match rest with
  | [] => mret (inr tp)
  | w :: rest' =>
      if negb (best.1 =? -1) && (best.1 <=? i) && (i <? best.1 + best.2) then
        tp ← (if i =? best.1 then put_char TMP6 tp ch_colon else mret tp);
        ntop6_format src words best (i + 1) rest' tp
      else
        tp ← (if negb (i =? 0) then put_char TMP6 tp ch_colon else mret tp);
        if (i =? 6) && (best.1 =? 0) &&
           ((best.2 =? 6) || ((best.2 =? 7) && negb (word_at words 7 =? 1))
            || ((best.2 =? 5) && (word_at words 5 =? 65535)))
        then
          r ← inet_ntop4 (drop 12 src) (TMP6 - Zlen tp);
          match r with
          | inl e => mret (inl e)
          | inr s => tp ← put_chars TMP6 tp s; mret (inr tp)
          end
        else
          tp ← put_chars TMP6 tp (sprintf_x w);
          ntop6_format src words best (i + 1) rest' tp
  end.

Definition inet_ntop6 (src : list Z) (size : Z) : M (errno + list Z) :=
  words ← ntop6_words src 0 8;
  let best := ntop6_best words in
  r ← ntop6_format src words best 0 words [];
  match r with
  | inl e => mret (inl e)
  | inr tp =>
      tp ← (if negb (best.1 =? -1) && (best.1 + best.2 =? 8)
            then put_char TMP6 tp ch_colon else mret tp);
      tp0 ← put_char TMP6 tp 0;
      if size <? Zlen tp0 then mret (inl ENOSPC) else mret (inr (rev tp))
  end.

Definition ares_inet_ntop (af : option family) (src : list Z) (size : Z) : M (errno + list Z) :=
  match af with
  | Some AF_INET => inet_ntop4 src size
  | Some AF_INET6 => inet_ntop6 src size
  | None => mret (inl EAFNOSUPPORT)
  end.

(** ** Parsing: inet_net_pton.c *)

(** [while ((ch = *src++) != '\0' && ISASCII(ch) && ISXDIGIT(ch))]: the nybble
    string. [dst] holds what is written, in reverse, in an array of [cap]
    bytes; [size] is what the code believes is left. *)
Fixpoint v4_hex (cap : Z) (src : list Z) (size dirty tmp : Z) (dst : list Z)
    : M (errno + Z * cursor * (Z * Z * Z * list Z)) :=
  match src with
  | [] => mret (inr (0, None, (size, dirty, tmp, dst)))
  | ch :: src' =>
      if (ch =? 0) || negb (ISASCII ch) || negb (ISXDIGIT ch)
      then mret (inr (ch, Some src', (size, dirty, tmp, dst)))
      else
        let ch := if ISUPPER ch then lower ch else ch in
        let n := default 0 (xdigit_l ch) in
        let tmp := if dirty =? 0 then n else Z.lor (Z.shiftl tmp 4) n in
        let dirty := dirty + 1 in
        if dirty =? 2 then
          if size =? 0 then mret (inl EMSGSIZE)
          else
            dst ← put_char cap dst (tmp mod 256);
            v4_hex cap src' (size - 1) 0 tmp dst
        else v4_hex cap src' size dirty tmp dst
  end.

(** The two digit loops: [ch] is a digit; the value is limited by [limit]. *)
Fixpoint v4_digits (limit : Z) (src : list Z) (ch tmp : Z) : errno + Z * Z * cursor :=
  let tmp := tmp * 10 + default 0 (digit_val ch) in
  if limit <? tmp then inl ENOENT
  else
    match src with
    | [] => inr (tmp, 0, None)
    | c :: src' =>
        if negb (c =? 0) && ISASCII c && ISDIGIT c then v4_digits limit src' c tmp
        else inr (tmp, c, Some src')
    end.

(** The loop over the dotted decimal octets. *)
Fixpoint v4_octets (fuel : nat) (cap : Z) (src : cursor) (ch size : Z) (dst : list Z)
    : M (errno + Z * cursor * Z * list Z) :=
  match fuel with
  | O => no_fuel
  | S fuel' =>
      s ← (match src with Some s => mret s | None => undefined end);
      match v4_digits 255 s ch 0 with
      | inl e => mret (inl e)
      | inr (tmp, ch, src) =>
          if size =? 0 then mret (inl EMSGSIZE)
          else
            dst ← put_char cap dst (tmp mod 256);
            let size := size - 1 in
            if (ch =? 0) || (ch =? ch_slash) then mret (inr (ch, src, size, dst))
            else if negb (ch =? ch_dot) then mret (inl ENOENT)
            else
              '(ch, src) ← next_char src;
              if negb (ISASCII ch) || negb (ISDIGIT ch) then mret (inl ENOENT)
              else v4_octets fuel' cap src ch size dst
      end
  end.

(** [while (bits > ((dst - odst) * 8))]: zero bytes up to the mask. *)
Fixpoint v4_extend (fuel : nat) (cap bits size : Z) (dst : list Z) : M (errno + Z * list Z) :=
  match fuel with
  | O => no_fuel
  | S fuel' =>
      if Zlen dst * 8 <? bits then
        if size =? 0 then mret (inl EMSGSIZE)
        else dst ← put_char cap dst 0; v4_extend fuel' cap bits (size - 1) dst
      else mret (inr (bits, rev dst))
  end.

(** The width of a network number without a CIDR part. *)
Definition v4_class (first : Z) (octets : Z) : Z :=
  let bits := if 240 <=? first then 32 else if 224 <=? first then 8
              else if 192 <=? first then 24 else if 128 <=? first then 16 else 8 in
  let bits := if bits <? octets * 8 then octets * 8 else bits in
  if (bits =? 8) && (first =? 224) then 4 else bits.

(** From [bits = -1] on. *)
Definition v4_mask (cap ch : Z) (src : cursor) (size : Z) (dst : list Z)
    : M (errno + Z * list Z) :=
  cidr ← (if ch =? ch_slash then
            c ← peek src 0; mret (ISASCII c && ISDIGIT c && (0 <? Zlen dst))
          else mret false);
  r ← (if cidr : bool then
         '(ch, src) ← next_char src;
         s ← (match src with Some s => mret s | None => undefined end);
         match v4_digits 32 s ch 0 with
         | inl e => mret (inl e)
         | inr (bits, ch, src) => mret (if negb (ch =? 0) then inl ENOENT else inr (bits, ch))
         end
       else mret (inr (-1, ch)));
  match r with
  | inl e => mret (inl e)
  | inr (bits, ch) =>
      if negb (ch =? 0) then mret (inl ENOENT)
      else
        match rev dst with
        | [] => mret (inl ENOENT)
        | first :: _ =>
            let bits := if bits =? -1 then v4_class first (Zlen dst) else bits in
            v4_extend (S (Z.to_nat bits)) cap bits size dst
        end
  end.

Definition inet_net_pton_ipv4 (src : list Z) (cap : Z) : M (errno + Z * list Z) :=
  '(ch, p) ← next_char (Some src);
  hex ← (if ch =? 48 then
           c0 ← peek p 0;
           if (c0 =? 120) || (c0 =? 88)
           then c1 ← peek p 1; mret (ISASCII c1 && ISXDIGIT c1)
           else mret false
         else mret false);
  if hex : bool then
    if cap =? 0 then mret (inl EMSGSIZE)
    else
      '(_, p) ← next_char p;
      s ← (match p with Some s => mret s | None => undefined end);
      r ← v4_hex cap s cap 0 0 [];
      match r with
      | inl e => mret (inl e)
      | inr (ch, p, (size, dirty, tmp, dst)) =>
          if negb (dirty =? 0) then
            if size =? 0 then mret (inl EMSGSIZE)
            else dst ← put_char cap dst (Z.shiftl tmp 4 mod 256); v4_mask cap ch p (size - 1) dst
          else v4_mask cap ch p size dst
      end
  else if ISASCII ch && ISDIGIT ch then
    r ← v4_octets (S (length src)) cap p ch cap [];
    match r with
    | inl e => mret (inl e)
    | inr (ch, p, size, dst) => v4_mask cap ch p size dst
    end
  else mret (inl ENOENT).

(** [getbits]: [None] for the return value 0. *)
Fixpoint getbits_loop (src : list Z) (n val : Z) : option Z :=
  match src with
  | [] => if n =? 0 then None else Some val
  | ch :: src' =>
      if ch =? 0 then (if n =? 0 then None else Some val)
      else
        match digit_val ch with
        | Some d =>
            if negb (n =? 0) && (val =? 0) then None
            else
              let val := val * 10 + d in
              if 128 <? val then None else getbits_loop src' (n + 1) val
        | None => None
        end
  end.

Definition getbits (src : list Z) : option Z := getbits_loop src 0 0.

(** [getv4]: the octets written, in reverse, and what is stored in [*bitsp]. *)
Fixpoint getv4_loop (src : list Z) (dst : list Z) (n val : Z) : M (option (list Z * option Z)) :=
  let done_ :=
    if n =? 0 then mret None
    else if 3 <? Zlen dst then mret None
    else dst ← put_char 4 dst (val mod 256); mret (Some (dst, None)) in
  match src with
  | [] => done_
  | ch :: src' =>
      if ch =? 0 then done_
      else
        match digit_val ch with
        | Some d =>
            if negb (n =? 0) && (val =? 0) then mret None
            else
              let val := val * 10 + d in
              if 255 <? val then mret None else getv4_loop src' dst (n + 1) val
        | None =>
            if (ch =? ch_dot) || (ch =? ch_slash) then
              if 3 <? Zlen dst then mret None
              else
                dst ← put_char 4 dst (val mod 256);
                if ch =? ch_slash
                then mret (match getbits src' with Some b => Some (dst, Some b) | None => None end)
                else getv4_loop src' dst 0 0
            else mret None
        end
  end.

Definition getv4 (src : list Z) : M (option (list Z * option Z)) := getv4_loop src [] 0 0.

(** The state of [inet_net_pton_ipv6]; pointers into [tmp] are offsets. *)
Record v6_state := V6 {
  v6_tmp : list Z; v6_tp : Z; v6_colonp : option Z; v6_saw : bool; v6_val : Z;
  v6_digits : Z; v6_bits : Z; v6_ipv4 : bool; v6_curtok : list Z }.

Inductive v6_exit := V6Break (s : v6_state) | V6Enoent | V6Return0.

(** [tmp[i] = b] and [tmp[i]]. *)
Definition write_tmp (tmp : list Z) (i b : Z) : M (list Z) :=
  if (0 <=? i) && (i <? Zlen tmp) then mret (<[Z.to_nat i := b]> tmp) else undefined.

Definition read_tmp (tmp : list Z) (i : Z) : M Z :=
  if 0 <=? i then match tmp !! Z.to_nat i with Some b => mret b | None => undefined end
  else undefined.

Fixpoint write_all (tmp : list Z) (i : Z) (bs : list Z) : M (list Z) :=
  match bs with
  | [] => mret tmp
  | b :: bs' => tmp ← write_tmp tmp i b; write_all tmp (i + 1) bs'
  end.

(** [*tp++ = (val >> 8) & 0xff; *tp++ = val & 0xff]. *)
Definition v6_flush (s : v6_state) : M v6_state :=
  tmp ← write_all (v6_tmp s) (v6_tp s)
          [Z.land (Z.shiftr (v6_val s) 8) 255; Z.land (v6_val s) 255];
  mret (V6 tmp (v6_tp s + 2) (v6_colonp s) (v6_saw s) (v6_val s) (v6_digits s) (v6_bits s)
           (v6_ipv4 s) (v6_curtok s)).

(** [while ((ch = *src++) != '\0')]. *)
Fixpoint v6_loop (src : list Z) (s : v6_state) : M v6_exit :=
  match src with
  | [] => mret (V6Break s)
  | ch :: src' =>
      if ch =? 0 then mret (V6Break s)
      else
        let '(V6 tmp tp colonp saw val digits bits ipv4 curtok) := s in
        match (match xdigit_l ch with Some d => Some d | None => xdigit_u ch end) with
        | Some d =>
            let val := uwrap 32 (Z.lor (Z.shiftl val 4) d) in
            let digits := digits + 1 in
            if 4 <? digits then mret V6Enoent
            else v6_loop src' (V6 tmp tp colonp true val digits bits ipv4 curtok)
        | None =>
            if ch =? ch_colon then
              let curtok := src' in
              if negb saw then
                match colonp with
                | Some _ => mret V6Enoent
                | None => v6_loop src' (V6 tmp tp (Some tp) saw val digits bits ipv4 curtok)
                end
              else if hd 0 src' =? 0 then mret V6Enoent
              else if 16 <? tp + 2 then mret V6Return0
              else
                s ← v6_flush (V6 tmp tp colonp saw val digits bits ipv4 curtok);
                v6_loop src' (V6 (v6_tmp s) (v6_tp s) colonp false 0 0 bits ipv4 curtok)
            else
              v4 ← (if (ch =? ch_dot) && (tp + 4 <=? 16) then getv4 curtok else mret None);
              match v4 with
              | Some (octets, b) =>
                  tmp ← write_all tmp tp (rev octets);
                  mret (V6Break (V6 tmp (tp + 4) colonp false val digits
                                    (default bits b) true curtok))
              | None =>
                  if ch =? ch_slash then
                    match getbits src' with
                    | Some b => mret (V6Break (V6 tmp tp colonp saw val digits b ipv4 curtok))
                    | None => mret V6Enoent
                    end
                  else mret V6Enoent
              end
        end
  end.

(** [for (i = 1; i <= n; i++)]: the shift of the part after the [::]. *)
Fixpoint v6_shift (k : nat) (i n endp colonp : Z) (tmp : list Z) : M (list Z) :=
  match k with
  | O => mret tmp
  | S k' =>
      b ← read_tmp tmp (colonp + n - i);
      tmp ← write_tmp tmp (endp - i) b;
      tmp ← write_tmp tmp (colonp + n - i) 0;
      v6_shift k' (i + 1) n endp colonp tmp
  end.

(** What follows the loop: [words], the shift, the copy to [dst]. *)
Definition v6_finish (s : v6_state) (size : Z) : M (errno + Z * list Z) :=
  let bits := if v6_bits s =? -1 then 128 else v6_bits s in
  let words := (bits + 15) / 16 in
  let words := if words <? 2 then 2 else words in
  let words := if v6_ipv4 s then 8 else words in
  let endp := 2 * words in
  r ← (match v6_colonp s with
       | Some colonp =>
           let n := v6_tp s - colonp in
           if v6_tp s =? endp then mret None
           else tmp ← v6_shift (Z.to_nat n) 1 n endp colonp (v6_tmp s); mret (Some (tmp, endp))
       | None => mret (Some (v6_tmp s, v6_tp s))
       end);
  match r with
  | None => mret (inl ENOENT)
  | Some (tmp, tp) =>
      if negb (tp =? endp) then mret (inl ENOENT)
      else
        let bytes := (bits + 7) / 8 in
        if size <? bytes then mret (inl EMSGSIZE)
        else mret (inr (bits, take (Z.to_nat bytes) tmp))
  end.

(** [if ( *src == ':') if ( *++src != ':') goto enoent]. *)
Definition v6_start (src : list Z) : option (list Z) :=
  match src with
  | c :: src' => if c =? ch_colon
                 then if hd 0 src' =? ch_colon then Some src' else None
                 else Some src
  | [] => Some src
  end.

Definition inet_net_pton_ipv6 (src : list Z) (size : Z) : M (errno + Z * list Z) :=
  match v6_start src with
  | None => mret (inl ENOENT)
  | Some src =>
      r ← v6_loop src (V6 (replicate 16 0) 0 None false 0 0 (-1) false src);
      match r with
      | V6Enoent => mret (inl ENOENT)
      | V6Return0 => mret (inr (0, []))
      | V6Break s =>
          if v6_saw s then
            if 16 <? v6_tp s + 2 then mret (inl ENOENT)
            else s ← v6_flush s; v6_finish s size
          else v6_finish s size
      end
  end.

Definition ares_inet_net_pton (af : option family) (src : list Z) (size : Z)
    : M (errno + Z * list Z) :=
  match af with
  | Some AF_INET => inet_net_pton_ipv4 src size
  | Some AF_INET6 => inet_net_pton_ipv6 src size
  | None => mret (inl EAFNOSUPPORT)
  end.

(** [ares_inet_pton]: the return value and the bytes written. *)
Definition ares_inet_pton (af : option family) (src : list Z) : M (Z * list Z) :=
  match af with
  | None => mret (-1, [])
  | Some f =>
      let size := match f with AF_INET => 4 | AF_INET6 => 16 end in
      r ← ares_inet_net_pton af src size;
      mret (match r with
            | inl ENOENT => (0, [])
            | inl _ => (-1, [])
            | inr (bits, bytes) => (if -1 <? bits then 1 else -1, bytes)
            end)
  end.

(** ** bitncmp.c *)

(** [memcmp], by the sign of the first difference. *)
Fixpoint memcmp (l r : list Z) (i : Z) (n : nat) : M Z :=
  match n with
  | O => mret 0
  | S n' =>
      a ← get_byte l i; b ← get_byte r i;
      if a =? b then memcmp l r (i + 1) n' else mret (a - b)
  end.

(** [for (b = n % 8; b > 0; b--)]. *)
Fixpoint bitncmp_bits (b : nat) (lb rb : Z) : Z :=
  match b with
  | O => 0
  | S b' =>
      if negb (Z.land lb 128 =? Z.land rb 128)
      then (if negb (Z.land lb 128 =? 0) then 1 else -1)
      else bitncmp_bits b' (uwrap 32 (Z.shiftl lb 1)) (uwrap 32 (Z.shiftl rb 1))
  end.

Definition ares__bitncmp (l r : list Z) (n : Z) : M Z :=
  let b := n / 8 in
  x ← memcmp l r 0 (Z.to_nat b);
  if negb (x =? 0) || (n mod 8 =? 0) then mret x
  else
    lb ← get_byte l b; rb ← get_byte r b;
    mret (bitncmp_bits (Z.to_nat (n mod 8)) lb rb).

(** ** Digits *)

(** The value of a digit string, continuing from [v]. *)
Definition digits_val (base : Z) (ds : list Z) (v : Z) : Z :=
  fold_left (fun v d => v * base + d) ds v.

Lemma digits_val_app base ds1 ds2 v :
  digits_val base (ds1 ++ ds2) v = digits_val base ds2 (digits_val base ds1 v).
Proof. apply fold_left_app. Qed.

Lemma digits_val_ge base ds v :
  1 <= base -> 0 <= v -> Forall (fun d => 0 <= d < base) ds -> v <= digits_val base ds v.
Proof.
  intros Hb Hv Hds; revert v Hv; induction Hds as [|d ds Hd Hds IH]; intros v Hv; cbn; [lia|].
  change (v <= digits_val base ds (v * base + d)).
  etransitivity; [|apply IH; nia]. nia.
Qed.

(** What [sprintf] prints is the digits of the number, without a leading
    zero, and as many as the number needs. *)
Lemma print_base_digits base fuel n :
  2 <= base -> 0 <= n < base ^ Z.of_nat fuel -> (0 < fuel)%nat ->
  exists d ds, print_base base fuel n = digit_char <$> d :: ds /\
    Forall (fun d => 0 <= d < base) (d :: ds) /\ digits_val base (d :: ds) 0 = n /\
    (ds <> [] -> d <> 0) /\ (forall k, 0 < k -> n < base ^ k -> 1 + Zlen ds <= k).
Proof.
  intros Hb; revert n; induction fuel as [|fuel IH]; intros n Hn Hf; [lia|]. cbn [print_base].
  pose proof (Z.mod_pos_bound n base ltac:(lia)).
  destruct (Z.ltb_spec n base) as [Hlt|Hge].
  - exists n, []. rewrite Z.mod_small by lia. repeat split; try done.
    + repeat constructor; lia.
    + intros k Hk _. change (Zlen []) with 0. lia.
  - assert (Hf' : (0 < fuel)%nat).
    { destruct fuel; [|lia]. rewrite Z.pow_1_r in Hn. lia. }
    assert (Hdiv : 0 < n / base) by (apply Z.div_str_pos; lia).
    destruct (IH (n / base)) as (d & ds & -> & Hr & Hv & Hz & Hk); [|done|].
    { split; [lia|]. apply Z.div_lt_upper_bound; [lia|].
      rewrite Nat2Z.inj_succ, Z.pow_succ_r in Hn by lia. lia. }
    exists d, (ds ++ [n mod base]). repeat split.
    + by rewrite app_comm_cons, fmap_app.
    + rewrite app_comm_cons. apply Forall_app. split; [done|]. apply Forall_singleton. lia.
    + rewrite app_comm_cons, digits_val_app, Hv. cbn. pose proof (Z.div_mod n base). lia.
    + intros _ ->. destruct ds as [|d' ds]; [cbn in Hv; lia|]. by destruct Hz.
    + intros k Hk0 Hnk. rewrite Zlen_app, Zlen_cons, Zlen_nil.
      assert (k <> 1) by (intros ->; rewrite Z.pow_1_r in Hnk; lia).
      specialize (Hk (k - 1)). assert (n / base < base ^ (k - 1)).
      { apply Z.div_lt_upper_bound; [lia|]. rewrite <- Z.pow_succ_r by lia.
        by replace (Z.succ (k - 1)) with k by lia. }
      lia.
Qed.

Lemma digit_char_dec d : 0 <= d < 10 ->
  digit_char d = 48 + d /\ digit_val (digit_char d) = Some d /\
  ISASCII (digit_char d) = true /\ ISDIGIT (digit_char d) = true.
Proof.
  intros Hd. unfold digit_char, digit_val, ISASCII, ISDIGIT.
  destruct (Z.ltb_spec d 10); [|lia].
  repeat split; repeat cdec_one; cbn; try lia; f_equal; lia.
Qed.

Lemma digit_char_hex d : 0 <= d < 16 ->
  xdigit_l (digit_char d) = Some d /\ digit_char d <> 0 /\ 48 <= digit_char d <= 102.
Proof.
  intros Hd. unfold digit_char, xdigit_l, ISDIGIT.
  destruct (Z.ltb_spec d 10); repeat cdec_one; cbn; repeat split; try lia; f_equal; lia.
Qed.

(** The rest of the text after a number: it does not start with a digit. *)
Definition after (rest : list Z) : Z * cursor :=
  match rest with [] => (0, None) | c :: s => (c, Some s) end.

Definition stops (rest : list Z) : Prop :=
  match rest with [] => True | c :: _ => c <> 0 /\ ISDIGIT c = false end.

Lemma v4_digits_text limit d ds rest v :
  0 <= v -> Forall (fun d => 0 <= d < 10) (d :: ds) -> stops rest ->
  digits_val 10 (d :: ds) v <= limit ->
  v4_digits limit ((digit_char <$> ds) ++ rest) (digit_char d) v =
  inr (digits_val 10 (d :: ds) v, (after rest).1, (after rest).2).
Proof.
  revert d v; induction ds as [|d' ds IH]; intros d v Hv Hds Hrest Hlim;
    apply Forall_cons in Hds as [Hd Hds]; destruct (digit_char_dec d Hd) as (_ & Hdv & _).
  - cbn in Hlim. cbn [fmap list_fmap app]. destruct rest as [|c rest]; cbn [v4_digits]; rewrite Hdv; cbn [from_option id].
    + destruct (Z.ltb_spec limit (v * 10 + d)); [lia|done].
    + destruct (Z.ltb_spec limit (v * 10 + d)); [lia|].
      destruct Hrest as [_ ->]. by rewrite andb_false_r.
  - cbn [fmap list_fmap app v4_digits]. rewrite Hdv. cbn [from_option id].
    apply Forall_cons in Hds as [Hd' Hds'].
    destruct (digit_char_dec d' Hd') as (_ & _ & Ha & Hi).
    pose proof (digits_val_ge 10 (d' :: ds) (v * 10 + d) ltac:(lia) ltac:(lia)
                  ltac:(by constructor)) as Hge.
    change (digits_val 10 (d :: d' :: ds) v) with (digits_val 10 (d' :: ds) (v * 10 + d)) in *.
    destruct (Z.ltb_spec limit (v * 10 + d)); [lia|].
    assert (negb (digit_char d' =? 0) = true) as ->.
    { destruct (digit_char_hex d') as (_ & ? & _); [lia|]. by apply negb_true_iff, Z.eqb_neq. }
    rewrite Ha, Hi. cbn [andb]. apply IH; [lia|by constructor|done|done].
Qed.

(** ** IPv4: what is printed is parsed back *)

Lemma sprintf_u_byte b : 0 <= b < 256 ->
  exists d ds, sprintf_u b = digit_char <$> d :: ds /\ Forall (fun d => 0 <= d < 10) (d :: ds) /\
    digits_val 10 (d :: ds) 0 = b /\ (ds <> [] -> d <> 0) /\ Zlen ds <= 2.
Proof.
  intros Hb. destruct (print_base_digits 10 10 b) as (d & ds & Hp & Hr & Hv & Hz & Hk);
    [lia|cbn; lia|lia|]. exists d, ds. repeat split; try done.
  specialize (Hk 3). cbn in Hk. lia.
Qed.

Lemma Zlen_fmap {A B} (f : A -> B) l : Zlen (f <$> l) = Zlen l.
Proof. unfold Zlen. by rewrite length_fmap. Qed.

Lemma sprintf_u_len b : 0 <= b < 256 -> 1 <= Zlen (sprintf_u b) <= 3.
Proof.
  intros Hb. destruct (sprintf_u_byte b Hb) as (d & ds & -> & _ & _ & _ & Hl).
  rewrite Zlen_fmap, Zlen_cons. pose proof (Zlen_nonneg ds). lia.
Qed.

Definition dotted (b0 b1 b2 b3 : Z) : list Z :=
  sprintf_u b0 ++ [ch_dot] ++ sprintf_u b1 ++ [ch_dot] ++ sprintf_u b2 ++ [ch_dot] ++ sprintf_u b3.

Lemma dotted_len b0 b1 b2 b3 :
  0 <= b0 < 256 -> 0 <= b1 < 256 -> 0 <= b2 < 256 -> 0 <= b3 < 256 ->
  7 <= Zlen (dotted b0 b1 b2 b3) <= 15.
Proof.
  intros H0%sprintf_u_len H1%sprintf_u_len H2%sprintf_u_len H3%sprintf_u_len.
  unfold dotted. autorewrite with cares. lia.
Qed.

Lemma wp_inet_ntop4 src size h (Q : errno + list Z -> heap -> Prop) :
  4 <= Zlen src ->
  (forall b0 b1 b2 b3, slice src 0 4 = [b0; b1; b2; b3] ->
     0 <= b0 < 256 -> 0 <= b1 < 256 -> 0 <= b2 < 256 -> 0 <= b3 < 256 ->
     Q (if size <=? Zlen (dotted b0 b1 b2 b3) then inl ENOSPC else inr (dotted b0 b1 b2 b3)) h) ->
  wp (inet_ntop4 src size) h Q.
Proof.
  intros Hl HQ. unfold inet_ntop4.
  wp_step. apply wp_get_byte; [lia|]. intros b0 E0 R0.
  wp_step. apply wp_get_byte; [lia|]. intros b1 E1 R1.
  wp_step. apply wp_get_byte; [lia|]. intros b2 E2 R2.
  wp_step. apply wp_get_byte; [lia|]. intros b3 E3 R3.
  specialize (HQ b0 b1 b2 b3). rewrite (slice_cons _ _ _ _ E0) in HQ. change (0 + 1) with 1 in HQ.
  rewrite (slice_cons _ _ _ _ E1) in HQ. change (1 + 1) with 2 in HQ.
  rewrite (slice_cons _ _ _ _ E2) in HQ. change (2 + 1) with 3 in HQ.
  rewrite (slice_cons _ _ _ _ E3), slice_0 in HQ.
  specialize (HQ eq_refl R0 R1 R2 R3). fold (dotted b0 b1 b2 b3).
  pose proof (dotted_len b0 b1 b2 b3 R0 R1 R2 R3).
  wp_step. apply wp_put_chars; [rewrite Zlen_nil; lia|].
  rewrite app_nil_r. wp_step. apply wp_put_char; [rewrite Zlen_rev; lia|].
  rewrite Zlen_rev. revert HQ.
  destruct (size <=? Zlen (dotted b0 b1 b2 b3)); intros HQ; wp_step; [done|].
  by rewrite rev_involutive.
Qed.

(** One octet of the dotted notation, followed by [rest]. *)
Lemma wp_v4_octet fuel cap b c s rest size dst h (Q : errno + Z * cursor * Z * list Z -> heap -> Prop) :
  0 <= b < 256 -> stops rest -> 0 < size -> Zlen dst < cap -> sprintf_u b ++ rest = c :: s ->
  match rest with
  | [] => Q (inr (0, None, size - 1, b :: dst)) h
  | x :: c' :: s' => x = ch_dot /\ ISASCII c' = true /\ ISDIGIT c' = true /\
      wp (v4_octets fuel cap (Some s') c' (size - 1) (b :: dst)) h Q
  | _ => False
  end ->
  wp (v4_octets (S fuel) cap (Some s) c size dst) h Q.
Proof.
  intros Hb Hrest Hsize Hcap Hs HQ. destruct (sprintf_u_byte b Hb) as (d & ds & Hp & Hr & Hv & _ & _).
  rewrite Hp in Hs. cbn in Hs. injection Hs as <- <-. cbn [v4_octets].
  do 2 wp_step. rewrite v4_digits_text by (done || lia). rewrite Hv.
  destruct (Z.eqb_spec size 0); [lia|]. wp_step. apply wp_put_char; [done|].
  rewrite Z.mod_small by lia. destruct rest as [|x [|c' s']]; cbn [after fst snd].
  - change (0 =? 0) with true. cbn [orb]. by wp_step.
  - done.
  - destruct HQ as (-> & Ha & Hi & HQ). change (ch_dot =? 0) with false.
    change (ch_dot =? ch_slash) with false. change (ch_dot =? ch_dot) with true. cbn [orb negb].
    wp_step. cbn [next_char]. wp_step. by rewrite Ha, Hi.
Qed.

Lemma sprintf_u_cons b rest : 0 <= b < 256 ->
  exists c s, sprintf_u b ++ rest = c :: s /\ ISASCII c = true /\ ISDIGIT c = true /\
    (s = rest \/ exists c' s', s = c' :: s' /\ ISDIGIT c' = true).
Proof.
  intros Hb. destruct (sprintf_u_byte b Hb) as (d & ds & -> & Hr & _).
  apply Forall_cons in Hr as [Hd Hr]. destruct (digit_char_dec d Hd) as (_ & _ & Ha & Hi).
  eexists _, _. repeat split; [done..|]. destruct Hr as [|d' ds Hd']; [by left|right].
  destruct (digit_char_dec d' Hd') as (_ & _ & _ & Hi'). by eexists _, _.
Qed.

Lemma stops_dot rest : stops (ch_dot :: rest).
Proof. done. Qed.

(** [inet_net_pton_ipv4] reads dotted notation back, for any destination with
    room for the four octets. *)
Lemma wp_pton4_dotted b0 b1 b2 b3 cap h :
  0 <= b0 < 256 -> 0 <= b1 < 256 -> 0 <= b2 < 256 -> 0 <= b3 < 256 -> 4 <= cap ->
  wp (inet_net_pton_ipv4 (dotted b0 b1 b2 b3) cap) h
    (fun r h' => h' = h /\ r = inr (32, [b0; b1; b2; b3])).
Proof.
  intros R0 R1 R2 R3 Hcap. unfold inet_net_pton_ipv4, dotted. cbn [app].
  destruct (sprintf_u_cons b3 [] R3) as (c3 & s3 & E3 & A3 & I3 & _).
  destruct (sprintf_u_cons b2 (ch_dot :: c3 :: s3) R2) as (c2 & s2 & E2 & A2 & I2 & _).
  destruct (sprintf_u_cons b1 (ch_dot :: c2 :: s2) R1) as (c1 & s1 & E1 & A1 & I1 & _).
  destruct (sprintf_u_cons b0 (ch_dot :: c1 :: s1) R0) as (c0 & s0 & E0 & A0 & I0 & S0).
  rewrite app_nil_r in E3. rewrite E3, E2, E1, E0. wp_step. cbn [next_char]. wp_step.
  wp_step. eapply wp_mono with (P := fun b h' => b = false /\ h' = h).
  { destruct (c0 =? 48); [|by wp_step]. wp_step.
    assert (exists x s', s0 = x :: s' /\ ((x =? 120) || (x =? 88)) = false) as (x & s' & -> & Hx).
    { destruct S0 as [->|(x & s' & -> & Hx)]; [by eexists _, _|]. eexists _, _. split; [done|].
      unfold ISDIGIT in Hx. destruct (Z.eqb_spec x 120) as [->|]; [done|].
      by destruct (Z.eqb_spec x 88) as [->|]. }
    cbn [peek lookup list_lookup]. wp_step. rewrite Hx. by wp_step. }
  intros hex h' [-> ->]. rewrite A0, I0. cbn [andb].
  assert (exists f, S (length (c0 :: s0)) = S (S (S (S f)))) as [f ->].
  { pose proof (dotted_len b0 b1 b2 b3 R0 R1 R2 R3) as Hdl. unfold dotted in Hdl. cbn [app] in Hdl.
    rewrite E3, E2, E1, E0 in Hdl. unfold Zlen in Hdl. cbn [length] in *.
    exists (length s0 - 2)%nat. lia. }
  wp_step. eapply wp_v4_octet; [exact R0|apply stops_dot|lia|rewrite Zlen_nil; lia|exact E0|].
  split; [done|]. split; [done|]. split; [done|].
  eapply wp_v4_octet; [exact R1|apply stops_dot|lia|autorewrite with cares; lia|exact E1|].
  split; [done|]. split; [done|]. split; [done|].
  eapply wp_v4_octet; [exact R2|apply stops_dot|lia|autorewrite with cares; lia|exact E2|].
  split; [done|]. split; [done|]. split; [done|].
  eapply wp_v4_octet with (rest := []);
    [exact R3|done|lia|autorewrite with cares; lia|by rewrite app_nil_r|].
  unfold v4_mask. change (0 =? ch_slash) with false. wp_step. wp_step. wp_step. wp_step.
  change (0 =? 0) with true. cbn [negb rev app]. change (-1 =? -1) with true. cbv iota.
  change (Zlen [b3; b2; b1; b0]) with 4.
  assert (v4_class b0 4 = 32) as ->.
  { unfold v4_class. change (4 * 8) with 32. repeat cdec_one; try done; lia. }
  change (S (Z.to_nat 32)) with 33%nat. cbn [v4_extend].
  change (Zlen [b3; b2; b1; b0] * 8 <? 32) with false. cbv iota. by wp_step.
Qed.

(** ** IPv4: any input *)

(** The bytes written and the room left make up the destination. *)
Definition room (cap size : Z) (dst : list Z) : Prop := 0 <= size /\ Zlen dst + size = cap.

Lemma wp_v4_hex cap src size dirty tmp dst h :
  room cap size dst -> 0 <= dirty <= 1 ->
  wp (v4_hex cap src size dirty tmp dst) h (fun r h' => h' = h /\
    match r with
    | inl e => e = EMSGSIZE
    | inr (ch, p, (size', dirty', _, dst')) =>
        room cap size' dst' /\ 0 <= dirty' <= 1 /\ (ch <> 0 -> is_Some p)
    end).
Proof.
  revert size dirty tmp dst; induction src as [|ch src IH]; intros size dirty tmp dst [Hs Hc] Hd;
    cbn [v4_hex].
  { wp_step. split; [done|]. split; [done|]. split; [done|lia]. }
  destruct (_ || negb (ISXDIGIT ch)).
  { wp_step. split; [done|]. split; [done|]. split; [done|]. by intros _. }
  set (t := if dirty =? 0 then _ else _).
  destruct (Z.eqb_spec (dirty + 1) 2).
  - destruct (Z.eqb_spec size 0); [by wp_step|]. wp_step. apply wp_put_char; [lia|].
    apply IH; [|lia]. split; [lia|]. rewrite Zlen_cons. lia.
  - apply IH; [done|lia].
Qed.

Lemma v4_digits_range limit src ch tmp :
  0 <= tmp ->
  match v4_digits limit src ch tmp with
  | inl e => e = ENOENT
  | inr (v, c, p) => 0 <= v <= limit /\
      match p with Some s' => (length s' < length src)%nat | None => c = 0 end
  end.
Proof.
  assert (Hdv : forall c, 0 <= default 0 (digit_val c)).
  { intros c. unfold digit_val, ISDIGIT.
    destruct (Z.leb_spec 48 c); cbn; [destruct (Z.leb_spec c 57); cbn; lia|lia]. }
  revert ch tmp; induction src as [|c src IH]; intros ch tmp Ht; cbn [v4_digits];
    (destruct (Z.ltb_spec limit (tmp * 10 + default 0 (digit_val ch))); [done|]);
    specialize (Hdv ch).
  { split; [lia|done]. }
  destruct (_ && ISDIGIT c); [|split; [lia|cbn; lia]].
  specialize (IH c (tmp * 10 + default 0 (digit_val ch)) ltac:(lia)).
  destruct (v4_digits _ _ _ _) as [e|[[v c'] p]]; [done|]. destruct IH as [? IH]. split; [done|].
  destruct p; [cbn; lia|done].
Qed.

Lemma wp_v4_octets fuel cap s ch size dst h :
  (length s < fuel)%nat -> room cap size dst ->
  wp (v4_octets fuel cap (Some s) ch size dst) h (fun r h' => h' = h /\
    match r with
    | inl e => e = ENOENT \/ e = EMSGSIZE
    | inr (ch, p, size', dst') => room cap size' dst' /\ (ch <> 0 -> is_Some p)
    end).
Proof.
  revert s ch size dst; induction fuel as [|fuel IH]; intros s ch size dst Hf [Hs Hc]; [lia|].
  cbn [v4_octets]. do 2 wp_step. pose proof (v4_digits_range 255 s ch 0 ltac:(lia)) as Hv.
  destruct (v4_digits 255 s ch 0) as [e|[[v c] p]]; [wp_step; subst; auto|].
  destruct (Z.eqb_spec size 0); [wp_step; auto|].
  wp_step. apply wp_put_char; [lia|].
  assert (Hroom : room cap (size - 1) (v mod 256 :: dst)) by (split; [|rewrite Zlen_cons]; lia).
  destruct ((c =? 0) || (c =? ch_slash)).
  { wp_step. split; [done|]. split; [done|]. intros Hc0. destruct p; [done|tauto]. }
  destruct (Z.eqb_spec c ch_dot) as [->|]; cbn [negb]; [|wp_step; auto].
  destruct p as [s'|]; [|by destruct Hv as [_ Hv]].
  wp_step. destruct s' as [|c' s'].
  - cbn [next_char]. wp_step. cbn. auto.
  - cbn [next_char]. wp_step. destruct (negb (ISASCII c') || negb (ISDIGIT c')); [wp_step; auto|].
    apply IH; [destruct Hv as [_ Hv]; cbn in Hv; lia|done].
Qed.

Lemma wp_v4_extend fuel cap bits size dst h :
  room cap size dst -> bits - Zlen dst * 8 < Z.of_nat fuel -> (0 < fuel)%nat ->
  wp (v4_extend fuel cap bits size dst) h (fun r h' => h' = h /\
    match r with
    | inl e => e = EMSGSIZE
    | inr (bits', bytes) => bits' = bits /\ bits <= 8 * Zlen bytes /\ Zlen bytes <= cap
    end).
Proof.
  revert size dst; induction fuel as [|fuel IH]; intros size dst [Hs Hc] Hf Hf0; [lia|].
  cbn [v4_extend]. destruct (Z.ltb_spec (Zlen dst * 8) bits).
  - destruct (Z.eqb_spec size 0); [by wp_step|]. wp_step. apply wp_put_char; [lia|].
    apply IH; [split; [|rewrite Zlen_cons]; lia|rewrite Zlen_cons; lia|lia].
  - wp_step. split; [done|]. rewrite Zlen_rev. split; [done|]. lia.
Qed.

(** What [inet_net_pton_ipv4] promises: the width is covered by the bytes
    written, which fit. *)
Definition pton4_post (cap : Z) (h : heap) (r : errno + Z * list Z) (h' : heap) : Prop :=
  h' = h /\ match r with
            | inl e => e = ENOENT \/ e = EMSGSIZE
            | inr (bits, bytes) => 0 <= bits <= 8 * Zlen bytes /\ Zlen bytes <= cap
            end.

Lemma v4_class_nonneg first n : 0 <= n -> 0 <= v4_class first n.
Proof. intros Hn. unfold v4_class. repeat cdec_one; cbn; lia. Qed.

Lemma wp_v4_mask cap ch p size dst h :
  room cap size dst -> (ch <> 0 -> is_Some p) ->
  wp (v4_mask cap ch p size dst) h (pton4_post cap h).
Proof.
  intros Hroom Hp. unfold v4_mask, pton4_post.
  wp_step. eapply wp_mono with (P := fun b h' => h' = h /\
    (b = true -> exists c s, p = Some (c :: s) /\ 0 < Zlen dst)).
  { destruct (Z.eqb_spec ch ch_slash) as [->|]; [|by wp_step].
    destruct Hp as [s ->]; [done|]. wp_step. destruct s as [|c s]; cbn [peek lookup list_lookup].
    - rewrite decide_True by done. wp_step. wp_step. split; [done|]. done.
    - wp_step. wp_step. split; [done|]. intros Hb. exists c, s. split; [done|].
      apply andb_true_iff in Hb as [_ Hb%Z.ltb_lt]. done. }
  intros cidr h' [-> Hcidr]. wp_step.
  eapply wp_mono with (P := fun r h' => h' = h /\
    match r with inl e => e = ENOENT | inr (bits, _) => bits = -1 \/ 0 <= bits end).
  { destruct cidr; [|wp_step; auto]. destruct Hcidr as (c & s & -> & _); [done|].
    wp_step. cbn [next_char]. wp_step. do 2 wp_step.
    pose proof (v4_digits_range 32 s c 0 ltac:(lia)) as Hv.
    destruct (v4_digits 32 s c 0) as [e|[[v c'] p]]; [by wp_step|].
    wp_step. destruct (negb (c' =? 0)); [done|]. split; [done|]. lia. }
  intros r h' [-> Hr]. destruct r as [e|[bits c']]; [wp_step; subst; auto|].
  destruct (negb (c' =? 0)); [wp_step; auto|].
  destruct (rev dst) as [|first dst'] eqn:Ed; [wp_step; auto|].
  set (bits' := if bits =? -1 then _ else _).
  assert (0 <= bits').
  { unfold bits'. destruct (Z.eqb_spec bits (-1)); [|lia]. apply v4_class_nonneg, Zlen_nonneg. }
  pose proof (Zlen_nonneg dst). pose proof Hroom as [? ?].
  eapply wp_mono; [apply wp_v4_extend; [done|lia|lia]|].
  intros [e|[b bytes]] h' [-> Hx]; (split; [done|]); [by right|]. lia.
Qed.

Lemma wp_pton4 src cap h :
  0 <= cap -> wp (inet_net_pton_ipv4 src cap) h (pton4_post cap h).
Proof.
  intros Hcap. unfold inet_net_pton_ipv4.
  assert (Hfail : forall e, e = ENOENT \/ e = EMSGSIZE -> pton4_post cap h (inl e) h) by done.
  destruct src as [|ch src]; cbn [next_char].
  { by apply Hfail; left. }
  do 2 wp_step. wp_step. eapply wp_mono with (P := fun b h' => h' = h /\
    (b = true -> exists c s, src = c :: s)).
  { destruct (ch =? 48); [|by wp_step]. wp_step.
    destruct src as [|c0 s0]; cbn [peek lookup list_lookup].
    - by rewrite decide_True by done.
    - wp_step. destruct ((c0 =? 120) || (c0 =? 88)); [|by wp_step].
      wp_step. destruct s0 as [|c1 s1]; cbn [lookup list_lookup length].
      + rewrite decide_True by done. do 2 wp_step. split; [done|]. intros _. by eexists _, _.
      + do 2 wp_step. split; [done|]. intros _. by eexists _, _. }
  intros hex h' [-> Hhex]. destruct hex.
  - destruct (Z.eqb_spec cap 0); [wp_step; auto|]. destruct Hhex as (c & s & ->); [done|].
    wp_step. cbn [next_char]. wp_step. do 2 wp_step. wp_step.
    eapply wp_mono; [apply wp_v4_hex; [|lia]; split; [lia|rewrite Zlen_nil; lia]|].
    intros [e|[[c' p] [[[size dirty] tmp] dst]]] h' [-> Hr]; [wp_step; subst; auto|].
    destruct Hr as (Hroom & Hd & Hp). destruct (negb (dirty =? 0)); [|by apply wp_v4_mask].
    destruct Hroom as [Hs Hc]. destruct (Z.eqb_spec size 0); [wp_step; auto|].
    wp_step. apply wp_put_char; [lia|]. apply wp_v4_mask; [|done].
    split; [|rewrite Zlen_cons]; lia.
  - destruct (ISASCII ch && ISDIGIT ch); [|wp_step; auto].
    wp_step. eapply wp_mono; [apply wp_v4_octets; [cbn; lia|split; [lia|rewrite Zlen_nil; lia]]|].
    intros [e|[[[c' p] size] dst]] h' [-> Hr]; [wp_step; auto|].
    apply wp_v4_mask; tauto.
Qed.
