(* ===== verification/InetAddr6.v ===== *)
(** * IPv6 text: printing and parsing (c-ares)

    Proofs about [inet_ntop6] and [inet_net_pton_ipv6] of InetAddr.v: the text
    printed for an address, that parsing it gives the address back, and what
    the parser does on other input. *)

From S2P Require Import Prelude DnsWire ParseHost InetAddr.
Open Scope Z_scope.

(** ** The longest run of zero words *)

(** [r] is no run, or a run of zero words of [ws]. *)
Definition zero_run (ws : list Z) (r : run) : Prop :=
  r.1 = -1 \/ 0 <= r.1 /\ 1 <= r.2 /\
    exists pre post, ws = pre ++ replicate (Z.to_nat r.2) 0 ++ post /\ Zlen pre = r.1.

Lemma zero_run_app ws r l : zero_run ws r -> zero_run (ws ++ l) r.
Proof.
  intros [?|(? & ? & pre & post & -> & ?)]; [by left|right]. split; [done|]. split; [done|].
  exists pre, (post ++ l). split; [|done]. by rewrite <- !app_assoc.
Qed.

Lemma better_run ws best cur :
  zero_run ws best -> zero_run ws cur -> zero_run ws (better best cur).
Proof. intros Hb Hc. unfold better. by case_match. Qed.

Lemma ntop6_scan_sound rest done_ best cur :
  zero_run done_ best ->
  (cur.1 = -1 \/ 0 <= cur.1 /\ 1 <= cur.2 /\
     exists pre, done_ = pre ++ replicate (Z.to_nat cur.2) 0 /\ Zlen pre = cur.1) ->
  zero_run (done_ ++ rest) (ntop6_scan rest (Zlen done_) best cur).
Proof.
  assert (Hcur_run : forall d c, (c.1 = -1 \/ 0 <= c.1 /\ 1 <= c.2 /\
     exists pre, d = pre ++ replicate (Z.to_nat c.2) 0 /\ Zlen pre = c.1) -> zero_run d c).
  { intros d c [?|(? & ? & pre & -> & ?)]; [by left|right]. split; [done|]. split; [done|].
    exists pre, []. by rewrite app_nil_r. }
  revert done_ best cur; induction rest as [|w rest IH]; intros done_ best cur Hb Hc;
    cbn [ntop6_scan].
  - rewrite app_nil_r. case_match; [|done]. apply better_run; auto.
  - assert (Hlen : Zlen (done_ ++ [w]) = Zlen done_ + 1).
    { by rewrite Zlen_app, Zlen_cons, Zlen_nil. }
    rewrite cons_middle, app_assoc, <- Hlen. destruct (Z.eqb_spec w 0) as [->|].
    + apply IH; [by apply zero_run_app|]. right. pose proof (Zlen_nonneg done_).
      destruct (Z.eqb_spec cur.1 (-1)) as [E|E]; cbn [fst snd].
      * split; [done|]. split; [done|]. by exists done_.
      * destruct Hc as [?|(? & ? & pre & -> & ?)]; [done|]. split; [done|]. split; [lia|].
        exists pre. split; [|done]. rewrite <- app_assoc. f_equal.
        replace (Z.to_nat (cur.2 + 1)) with (Z.to_nat cur.2 + 1)%nat by lia.
        by rewrite replicate_add.
    + destruct (Z.eqb_spec cur.1 (-1)); cbn [negb]; (apply IH; [|by left]).
      * by apply zero_run_app.
      * apply zero_run_app, better_run; auto.
Qed.

(** The run that is abbreviated: there is none, or the words are
    [pre ++ zeros ++ post] with at least two zeros. *)
Lemma ntop6_best_sound ws :
  (ntop6_best ws).1 = -1 \/
  exists pre n post, ws = pre ++ replicate n 0 ++ post /\ (2 <= n)%nat /\
    ntop6_best ws = (Zlen pre, Z.of_nat n).
Proof.
  pose proof (ntop6_scan_sound ws [] (-1, 0) (-1, 0) ltac:(by left) ltac:(by left)) as H.
  unfold ntop6_best. change (Zlen []) with 0 in H. cbn [app] in H.
  destruct (ntop6_scan ws 0 (-1, 0) (-1, 0)) as [b l]. cbn [fst snd].
  destruct (Z.eqb_spec b (-1)) as [->|Hb]; cbn [negb andb]; [by left|].
  destruct (Z.ltb_spec l 2); [by left|right].
  destruct H as [?|(? & ? & pre & post & Hws & Hpre)]; [done|]. cbn [fst snd] in *.
  exists pre, (Z.to_nat l), post. split; [done|]. split; [lia|]. f_equal; lia.
Qed.

(** ** The text of an IPv6 address *)

Definition is_word (w : Z) : Prop := 0 <= w < 65536.

Lemma sprintf_x_word w : is_word w ->
  exists d ds, sprintf_x w = digit_char <$> d :: ds /\ Forall (fun d => 0 <= d < 16) (d :: ds) /\
    digits_val 16 (d :: ds) 0 = w /\ Zlen ds <= 3.
Proof.
  intros Hw. unfold is_word in Hw.
  destruct (print_base_digits 16 8 w) as (d & ds & Hp & Hr & Hv & _ & Hk); [lia|cbn; lia|lia|].
  exists d, ds. repeat split; try done. specialize (Hk 4). cbn in Hk. lia.
Qed.

Lemma sprintf_x_len w : is_word w -> 1 <= Zlen (sprintf_x w) <= 4.
Proof.
  intros Hw. destruct (sprintf_x_word w Hw) as (d & ds & -> & _ & _ & Hl).
  rewrite Zlen_fmap, Zlen_cons. pose proof (Zlen_nonneg ds). lia.
Qed.

(** Words separated by colons: each but the first preceded, or each but the
    last followed, by one. *)
Definition colon_then (w : Z) : list Z := ch_colon :: sprintf_x w.

Definition join_words (ws : list Z) : list Z :=
  match ws with [] => [] | w :: ws' => sprintf_x w ++ (ws' ≫= colon_then) end.

Lemma colon_then_len ws : Forall is_word ws -> 0 <= Zlen (ws ≫= colon_then) <= 5 * Zlen ws.
Proof.
  induction 1 as [|w ws Hw Hws IH]; [done|]. rewrite bind_cons, Zlen_app, Zlen_cons.
  unfold colon_then at 1 3. rewrite Zlen_cons. pose proof (sprintf_x_len w Hw). lia.
Qed.

(** Whether the text ends in a dotted address. *)
Definition v4_tail (words : list Z) (best : run) : bool :=
  (best.1 =? 0) && ((best.2 =? 6) || ((best.2 =? 7) && negb (word_at words 7 =? 1))
                    || ((best.2 =? 5) && (word_at words 5 =? 65535))).

Definition outside (best : run) (i : Z) : Prop :=
  best.1 = -1 \/ i < best.1 \/ best.1 + best.2 <= i.

(** Words outside the run, up to the point where a dotted tail starts. *)
Lemma wp_format_words src words best seg rest i tp h (Q : errno + list Z -> heap -> Prop) :
  Forall is_word seg -> 0 < i -> Zlen tp + 5 * Zlen seg <= TMP6 ->
  (forall j, i <= j < i + Zlen seg -> outside best j /\ (j = 6 -> v4_tail words best = false)) ->
  wp (ntop6_format src words best (i + Zlen seg) rest (rev (seg ≫= colon_then) ++ tp)) h Q ->
  wp (ntop6_format src words best i (seg ++ rest) tp) h Q.
Proof.
  revert i tp; induction seg as [|w seg IH]; intros i tp Hseg Hi Hcap Hout HQ.
  { change (Zlen []) with 0 in HQ. by rewrite Z.add_0_r in HQ. }
  apply Forall_cons in Hseg as [Hw Hseg]. rewrite Zlen_cons in *. pose proof (Zlen_nonneg seg).
  destruct (Hout i ltac:(lia)) as [Ho Hv]. cbn [app ntop6_format].
  assert (negb (best.1 =? -1) && (best.1 <=? i) && (i <? best.1 + best.2) = false) as ->.
  { destruct Ho as [->|Ho]; [done|]. destruct (negb (best.1 =? -1)); [|done]. cbn [andb].
    destruct (Z.leb_spec best.1 i), (Z.ltb_spec i (best.1 + best.2)); try done; lia. }
  assert (negb (i =? 0) = true) as -> by (by apply negb_true_iff, Z.eqb_neq; lia).
  pose proof (sprintf_x_len w Hw).
  wp_step. apply wp_put_char; [lia|].
  rewrite <- andb_assoc. fold (v4_tail words best).
  assert ((i =? 6) && v4_tail words best = false) as ->.
  { destruct (Z.eqb_spec i 6); [|done]. by rewrite Hv. }
  wp_step. apply wp_put_chars; [rewrite Zlen_cons; lia|].
  apply IH; [done|lia|rewrite Zlen_app, Zlen_rev, Zlen_cons; lia| |].
  - intros j Hj. apply Hout. lia.
  - rewrite bind_cons, rev_app_distr in HQ. unfold colon_then at 2 in HQ. cbn [rev] in HQ.
    rewrite <- !app_assoc in HQ. cbn [app] in HQ.
    by replace (i + 1 + Zlen seg) with (i + (1 + Zlen seg)) by lia.
Qed.

(** Words from the start of the address. *)
Lemma wp_format_start src words best pre rest h (Q : errno + list Z -> heap -> Prop) :
  Forall is_word pre -> Zlen pre <= 8 ->
  (forall j, 0 <= j < Zlen pre -> outside best j /\ (j = 6 -> v4_tail words best = false)) ->
  wp (ntop6_format src words best (Zlen pre) rest (rev (join_words pre))) h Q ->
  wp (ntop6_format src words best 0 (pre ++ rest) []) h Q.
Proof.
  destruct pre as [|w pre]; [done|]. intros Hpre Hlen Hout HQ.
  apply Forall_cons in Hpre as [Hw Hpre]. rewrite Zlen_cons in *. pose proof (Zlen_nonneg pre).
  destruct (Hout 0 ltac:(lia)) as [Ho _]. cbn [app ntop6_format].
  assert (negb (best.1 =? -1) && (best.1 <=? 0) && (0 <? best.1 + best.2) = false) as ->.
  { destruct Ho as [->|Ho]; [done|]. destruct (negb (best.1 =? -1)); [|done]. cbn [andb].
    destruct (Z.leb_spec best.1 0), (Z.ltb_spec 0 (best.1 + best.2)); try done; lia. }
  change (negb (0 =? 0)) with false. change (0 =? 6) with false. cbn [andb].
  pose proof (sprintf_x_len w Hw). unfold TMP6.
  wp_step. wp_step. wp_step. apply wp_put_chars; [rewrite Zlen_nil; lia|].
  change (0 + 1) with 1. rewrite app_nil_r. cbn [join_words] in HQ. rewrite rev_app_distr in HQ.
  apply wp_format_words; [done|lia|rewrite Zlen_rev; unfold TMP6; lia| |done].
  intros j Hj. apply Hout. lia.
Qed.

(** The abbreviated run. *)
Lemma wp_format_run src words b l k rest i tp h (Q : errno + list Z -> heap -> Prop) :
  b <> -1 -> b <= i -> i + Z.of_nat k <= b + l -> Zlen tp < TMP6 ->
  wp (ntop6_format src words (b, l) (i + Z.of_nat k) rest
        (if (i =? b) && (0 <? Z.of_nat k) then ch_colon :: tp else tp)) h Q ->
  wp (ntop6_format src words (b, l) i (replicate k 0 ++ rest) tp) h Q.
Proof.
  intros Hb; revert i tp; induction k as [|k IH]; intros i tp Hi Hk Hcap HQ.
  { change (Z.of_nat 0) with 0 in HQ. rewrite Z.add_0_r, andb_false_r in HQ. done. }
  cbn [replicate app ntop6_format fst snd].
  assert (negb (b =? -1) && (b <=? i) && (i <? b + l) = true) as ->.
  { destruct (Z.eqb_spec b (-1)), (Z.leb_spec b i), (Z.ltb_spec i (b + l)); try done; lia. }
  assert ((0 <? Z.of_nat (S k)) = true) as E by (apply Z.ltb_lt; lia).
  rewrite E, andb_true_r in HQ.
  replace (i + Z.of_nat (S k)) with (i + 1 + Z.of_nat k) in HQ by lia.
  wp_step. destruct (Z.eqb_spec i b) as [->|Hne].
  - apply wp_put_char; [done|].
    (* the rest of the run prints nothing *)
    clear IH E. assert (Hgen : forall k i tp, b < i -> i + Z.of_nat k <= b + l ->
      wp (ntop6_format src words (b, l) (i + Z.of_nat k) rest tp) h Q ->
      wp (ntop6_format src words (b, l) i (replicate k 0 ++ rest) tp) h Q).
    { clear -Hb. induction k as [|k IH]; intros i tp Hi Hk HQ.
      { change (Z.of_nat 0) with 0 in HQ. by rewrite Z.add_0_r in HQ. }
      cbn [replicate app ntop6_format fst snd].
      assert (negb (b =? -1) && (b <=? i) && (i <? b + l) = true) as ->.
      { destruct (Z.eqb_spec b (-1)), (Z.leb_spec b i), (Z.ltb_spec i (b + l)); try done; lia. }
      destruct (Z.eqb_spec i b); [lia|]. wp_step. wp_step. apply IH; [lia|lia|].
      by replace (i + 1 + Z.of_nat k) with (i + Z.of_nat (S k)) by lia. }
    apply Hgen; [lia|lia|done].
  - wp_step. apply IH; [lia|lia|done|].
    destruct (Z.eqb_spec (i + 1) b); [lia|done].
Qed.

(** ** Words and bytes *)

Definition word_bytes (w : Z) : list Z := [Z.land (Z.shiftr w 8) 255; Z.land w 255].

Lemma word_of_bytes b0 b1 : 0 <= b0 < 256 -> 0 <= b1 < 256 ->
  let w := Z.lor (Z.lor 0 (Z.shiftl b0 8)) b1 in is_word w /\ word_bytes w = [b0; b1].
Proof.
  intros H0 H1. cbv zeta. rewrite Z.lor_0_l, lor_shift_add by (cbn; lia).
  change (2 ^ 8) with 256. unfold is_word, word_bytes. split; [lia|].
  change 255 with (Z.ones 8). rewrite !Z.land_ones, Z.shiftr_div_pow2 by lia.
  change (2 ^ 8) with 256. rewrite Z.div_add_l, (Z.div_small b1 256) by lia.
  rewrite (Z.add_comm (b0 * 256) b1), Z.mod_add by lia. by rewrite Z.add_0_r, !Z.mod_small by lia.
Qed.

Lemma wp_ntop6_words src i n h (Q : list Z -> heap -> Prop) :
  0 <= i -> i + 2 * Z.of_nat n <= Zlen src ->
  (forall ws, length ws = n -> Forall is_word ws -> ws ≫= word_bytes = slice src i (2 * n) -> Q ws h) ->
  wp (ntop6_words src i n) h Q.
Proof.
  revert i Q; induction n as [|n IH]; intros i Q Hi Hl HQ; cbn [ntop6_words].
  { wp_step. apply HQ; [done|done|]. by rewrite slice_0. }
  wp_step. apply wp_get_byte; [lia|]. intros b0 E0 R0.
  wp_step. apply wp_get_byte; [lia|]. intros b1 E1 R1.
  wp_step. apply IH; [lia|lia|]. intros ws Hlen Hws Hb. wp_step.
  destruct (word_of_bytes b0 b1 R0 R1) as [Hw Hwb]. apply HQ; [cbn; lia|by constructor|].
  rewrite bind_cons, Hwb, Hb. replace (2 * S n)%nat with (S (S (2 * n))) by lia.
  rewrite (slice_cons _ _ _ _ E0), (slice_cons _ _ _ _ E1). cbn [app].
  by replace (i + 1 + 1) with (i + 2) by lia.
Qed.

(** The texts [inet_ntop6] produces for the words [ws]. *)
Inductive text6 (ws : list Z) : list Z -> Prop :=
| text6_full : text6 ws (join_words ws)
| text6_run pre n post :
    ws = pre ++ replicate n 0 ++ post -> (2 <= n)%nat ->
    text6 ws (join_words pre ++ ch_colon ::
                match post with [] => [ch_colon] | _ => post ≫= colon_then end)
| text6_v4 n mid w6 w7 b0 b1 b2 b3 :
    ws = replicate n 0 ++ mid ++ [w6; w7] -> (2 <= n)%nat -> (n + length mid = 6)%nat ->
    word_bytes w6 ++ word_bytes w7 = [b0; b1; b2; b3] ->
    text6 ws (ch_colon :: (mid ≫= colon_then) ++ ch_colon :: dotted b0 b1 b2 b3).

Lemma join_words_len ws : Forall is_word ws -> 0 <= Zlen (join_words ws) <= 5 * Zlen ws.
Proof.
  destruct 1 as [|w ws Hw Hws]; [done|]. cbn [join_words]. rewrite Zlen_app, Zlen_cons.
  pose proof (sprintf_x_len w Hw). pose proof (colon_then_len ws Hws). lia.
Qed.

(** The dotted tail, printed when word 6 is reached. *)
Lemma wp_format_v4 src words best w rest tp h (Q : errno + list Z -> heap -> Prop) :
  Zlen src = 16 -> outside best 6 -> v4_tail words best = true -> Zlen tp <= 24 ->
  (forall b0 b1 b2 b3, slice src 12 4 = [b0; b1; b2; b3] ->
     0 <= b0 < 256 -> 0 <= b1 < 256 -> 0 <= b2 < 256 -> 0 <= b3 < 256 ->
     Q (inr (rev (ch_colon :: dotted b0 b1 b2 b3) ++ tp)) h) ->
  wp (ntop6_format src words best 6 (w :: rest) tp) h Q.
Proof.
  intros Hsrc Ho Hv Hcap HQ. cbn [ntop6_format].
  assert (negb (best.1 =? -1) && (best.1 <=? 6) && (6 <? best.1 + best.2) = false) as ->.
  { destruct Ho as [->|Ho]; [done|]. destruct (negb (best.1 =? -1)); [|done]. cbn [andb].
    destruct (Z.leb_spec best.1 6), (Z.ltb_spec 6 (best.1 + best.2)); try done; lia. }
  change (negb (6 =? 0)) with true. cbv iota. unfold TMP6.
  wp_step. apply wp_put_char; [lia|].
  change (6 =? 6) with true. rewrite andb_true_l. fold (v4_tail words best). rewrite Hv.
  wp_step. apply wp_inet_ntop4.
  { unfold Zlen in *. rewrite length_drop. lia. }
  intros b0 b1 b2 b3 Hsl R0 R1 R2 R3. pose proof (dotted_len b0 b1 b2 b3 R0 R1 R2 R3).
  rewrite Zlen_cons. destruct (Z.leb_spec (46 - (1 + Zlen tp)) (Zlen (dotted b0 b1 b2 b3))); [lia|].
  wp_step. apply wp_put_chars; [rewrite Zlen_cons; lia|]. wp_step.
  specialize (HQ b0 b1 b2 b3). cbn [rev] in HQ. rewrite <- app_assoc in HQ. by apply HQ.
Qed.

Definition ntop6_post (src : list Z) (size : Z) (h : heap) (r : errno + list Z) (h' : heap) : Prop :=
  h' = h /\ exists ws t, length ws = 8%nat /\ Forall is_word ws /\
    ws ≫= word_bytes = slice src 0 16 /\ text6 ws t /\ Zlen t <= 45 /\
    r = if size <? Zlen t + 1 then inl ENOSPC else inr t.

(** The end of [inet_ntop6] after the loop has written [rev t]. *)
Lemma wp_ntop6_end src size ws best t h :
  length ws = 8%nat -> Forall is_word ws -> ws ≫= word_bytes = slice src 0 16 ->
  let t' := t ++ if negb (best.1 =? -1) && (best.1 + best.2 =? 8) then [ch_colon] else [] in
  text6 ws t' -> Zlen t <= 44 ->
  wp (tp ← (if negb (best.1 =? -1) && (best.1 + best.2 =? 8)
            then put_char TMP6 (rev t) ch_colon else mret (rev t));
      tp0 ← put_char TMP6 tp 0;
      if size <? Zlen tp0 then mret (inl ENOSPC) else mret (inr (rev tp)))
    h (ntop6_post src size h).
Proof.
  intros Hl Hw Hb t' Ht Hlen. unfold t' in Ht; clear t'.
  wp_step. eapply wp_mono with (P := fun tp h' => h' = h /\ text6 ws (rev tp) /\ Zlen tp <= 45).
  { destruct (_ && _).
    - apply wp_put_char; [rewrite Zlen_rev; unfold TMP6; lia|]. split; [done|].
      cbn [rev]. rewrite rev_involutive, Zlen_cons, Zlen_rev. split; [done|lia].
    - wp_step. rewrite rev_involutive, Zlen_rev. rewrite app_nil_r in Ht.
      split; [done|]. split; [done|lia]. }
  intros tp h' (-> & Htp & Hcap). wp_step. apply wp_put_char; [unfold TMP6; lia|].
  rewrite Zlen_cons. destruct (Z.ltb_spec size (1 + Zlen tp)); wp_step;
    (split; [done|]); exists ws, (rev tp); rewrite Zlen_rev;
    (repeat split; [done..|]); destruct (Z.ltb_spec size (Zlen tp + 1)); done || lia.
Qed.

(** The loop's result handed to the end of the function. *)
Definition ntop6_tail (size : Z) (best : run) (r : errno + list Z) : M (errno + list Z) :=
  match r with
  | inl e => mret (inl e)
  | inr tp =>
      tp ← (if negb (best.1 =? -1) && (best.1 + best.2 =? 8)
            then put_char TMP6 tp ch_colon else mret tp);
      tp0 ← put_char TMP6 tp 0;
      if size <? Zlen tp0 then mret (inl ENOSPC) else mret (inr (rev tp))
  end.

(** The loop after the run of [n] zeros that starts the address: a dotted
    tail. *)
Lemma wp_ntop6_v4 src size ws n post h :
  Zlen src = 16 -> length ws = 8%nat -> Forall is_word ws -> ws ≫= word_bytes = slice src 0 16 ->
  ws = replicate n 0 ++ post -> (2 <= n < 7)%nat -> v4_tail ws (0, Z.of_nat n) = true ->
  wp (ntop6_format src ws (0, Z.of_nat n) (Z.of_nat n) post [ch_colon]) h (fun r h' =>
    wp (ntop6_tail size (0, Z.of_nat n) r) h' (ntop6_post src size h)).
Proof.
  intros Hsrc Hlen Hws Hbytes Hws' Hn Hv.
  assert (exists mid w6 w7, post = mid ++ [w6; w7] /\ (n + length mid = 6)%nat)
    as (mid & w6 & w7 & -> & Hmid).
  { exists (take (6 - n) post). assert (Hpl : length post = (8 - n)%nat).
    { rewrite Hws', length_app, length_replicate in Hlen. lia. }
    destruct (drop (6 - n) post) as [|w6 [|w7 [|w8 l]]] eqn:Ed;
      apply (f_equal length) in Ed as El; rewrite length_drop in El; cbn in El; try lia.
    exists w6, w7. rewrite length_take. split; [|lia]. by rewrite <- Ed, take_drop. }
  assert (Hmid' : Forall is_word mid).
  { rewrite Hws' in Hws. by apply Forall_app in Hws as [_ [Hm _]%Forall_app]. }
  apply wp_format_words; [done|lia|unfold Zlen, TMP6; cbn [length]; lia|..].
  { intros j Hj. unfold Zlen in Hj. split; [right; right; cbn; lia|lia]. }
  replace (Z.of_nat n + Zlen mid) with 6 by (unfold Zlen; lia).
  pose proof (colon_then_len mid Hmid') as Hcl. unfold Zlen at 3 in Hcl.
  apply wp_format_v4; [done|right; right; cbn; lia|done|rewrite Zlen_app, Zlen_rev, Zlen_cons, Zlen_nil; lia|].
  intros b0 b1 b2 b3 Hsl R0 R1 R2 R3. unfold ntop6_tail.
  replace (rev (ch_colon :: dotted b0 b1 b2 b3) ++ rev (mid ≫= colon_then) ++ [ch_colon])
    with (rev (ch_colon :: (mid ≫= colon_then) ++ ch_colon :: dotted b0 b1 b2 b3)).
  2: { cbn [rev]. rewrite rev_app_distr. cbn [rev]. by rewrite <- !app_assoc. }
  pose proof (dotted_len b0 b1 b2 b3 R0 R1 R2 R3).
  apply (wp_ntop6_end _ _ ws); [done|done|done| |rewrite Zlen_cons, Zlen_app, Zlen_cons; lia].
  cbn [fst snd]. destruct (Z.eqb_spec (0 + Z.of_nat n) 8); [lia|]. rewrite andb_false_r, app_nil_r.
  eapply (text6_v4 ws n mid w6 w7); [done|lia|done|].
  assert (Hd : drop 12 (ws ≫= word_bytes) = word_bytes w6 ++ word_bytes w7).
  { rewrite Hws', !bind_app. rewrite app_assoc, drop_app_length'; [done|].
    assert (Hwb : forall l, length (l ≫= word_bytes) = (2 * length l)%nat).
    { induction l as [|x l IH]; [done|]. rewrite bind_cons, length_app, IH. cbn. lia. }
    rewrite length_app, !Hwb, length_replicate. lia. }
  rewrite <- Hd, Hbytes, <- Hsl. unfold slice. rewrite <- fmap_drop. f_equal.
  change 16%nat with (12 + 4)%nat. by rewrite <- take_drop_commute.
Qed.

Lemma wp_inet_ntop6 src size h :
  Zlen src = 16 -> wp (inet_ntop6 src size) h (ntop6_post src size h).
Proof.
  intros Hsrc. unfold inet_ntop6. wp_step. apply wp_ntop6_words; [lia|lia|].
  intros ws Hlen Hws Hbytes. change (2 * 8)%nat with 16%nat in Hbytes.
  wp_step. change (wp (ntop6_format src ws (ntop6_best ws) 0 ws []) h (fun r h' =>
    wp (ntop6_tail size (ntop6_best ws) r) h' (ntop6_post src size h))).
  assert (Hzl : Zlen ws = 8) by (unfold Zlen; lia).
  destruct (ntop6_best_sound ws) as [Hb|(pre & n & post & Hws' & Hn & Hb)].
  - remember (ntop6_best ws) as best eqn:Ebest. clear Ebest.
    replace (ntop6_format src ws best 0 ws [])
      with (ntop6_format src ws best 0 (ws ++ []) []) by (by rewrite app_nil_r).
    apply wp_format_start; [done|lia| |].
    { intros j Hj. split; [by left|]. intros _. unfold v4_tail. by rewrite Hb. }
    cbn [ntop6_format]. wp_step. pose proof (join_words_len ws Hws).
    apply (wp_ntop6_end _ _ ws); [done|done|done| |lia]. rewrite Hb.
    change (-1 =? -1) with true. cbn [negb andb]. rewrite app_nil_r. constructor.
  - rewrite Hb. pose proof Hws as Hws2. rewrite Hws' in Hws2.
    apply Forall_app in Hws2 as [Hpre Hws2]. apply Forall_app in Hws2 as [_ Hpost].
    assert (Htot : Zlen pre + Z.of_nat n + Zlen post = 8).
    { rewrite <- Hzl, Hws'. rewrite !Zlen_app. unfold Zlen. rewrite length_replicate. lia. }
    pose proof (Zlen_nonneg pre). pose proof (Zlen_nonneg post).
    pose proof (join_words_len pre Hpre). pose proof (colon_then_len post Hpost).
    replace (ntop6_format src ws (Zlen pre, Z.of_nat n) 0 ws [])
      with (ntop6_format src ws (Zlen pre, Z.of_nat n) 0 (pre ++ replicate n 0 ++ post) [])
      by (by rewrite <- Hws').
    apply wp_format_start; [done|lia| |].
    { intros j Hj. split; [right; left; cbn; lia|]. intros ->. unfold v4_tail. cbn [fst].
      by destruct (Z.eqb_spec (Zlen pre) 0); [lia|]. }
    apply wp_format_run; [lia|lia|lia|rewrite Zlen_rev; unfold TMP6; lia|].
    rewrite Z.eqb_refl, (proj2 (Z.ltb_lt 0 (Z.of_nat n))) by lia. cbn [andb].
    destruct (v4_tail ws (Zlen pre, Z.of_nat n) && (Z.of_nat n <? 7)) eqn:Hv.
    + apply andb_true_iff in Hv as [Hv Hn7%Z.ltb_lt].
      assert (pre = []) as ->.
      { apply Zlen_zero_nil. unfold v4_tail in Hv. cbn [fst] in Hv.
        by apply andb_true_iff in Hv as [?%Z.eqb_eq _]. }
      apply wp_ntop6_v4; [done|done|done|done|done|lia|done].
    + rewrite <- (app_nil_r post) at 1.
      apply wp_format_words; [done|lia|rewrite Zlen_cons, Zlen_rev; unfold TMP6; lia| |].
      { intros j Hj. split; [right; right; cbn; lia|]. intros ->.
        apply andb_false_iff in Hv as [?|?%Z.ltb_ge]; [done|lia]. }
      cbn [ntop6_format]. wp_step. unfold ntop6_tail.
      replace (rev (post ≫= colon_then) ++ ch_colon :: rev (join_words pre))
        with (rev (join_words pre ++ ch_colon :: (post ≫= colon_then))).
      2: { rewrite rev_app_distr. cbn [rev]. by rewrite <- app_assoc. }
      apply (wp_ntop6_end _ _ ws); [done|done|done| |rewrite Zlen_app, Zlen_cons; lia].
      cbn [fst snd]. replace (Zlen pre =? -1) with false by (symmetry; apply Z.eqb_neq; lia).
      cbn [negb andb]. pose proof (text6_run ws pre n post Hws' Hn) as Ht.
      destruct post as [|w post].
      * change (Zlen []) with 0 in Htot. rewrite Z.add_0_r in Htot. rewrite Htot.
        change (8 =? 8) with true. by rewrite <- app_assoc.
      * rewrite Zlen_cons in Htot. pose proof (Zlen_nonneg post).
        destruct (Z.eqb_spec (Zlen pre + Z.of_nat n) 8); [lia|]. by rewrite app_nil_r.
Qed.

(** ** Parsing the text back *)

(** The parser's state when the bytes [done_] have been written. *)
Definition v6_at (done_ : list Z) (colonp : option Z) (saw : bool) (val digits : Z)
    (curtok : list Z) : v6_state :=
  V6 (done_ ++ replicate (16 - length done_) 0) (Zlen done_) colonp saw val digits (-1) false curtok.

Lemma v6_loop_digit d rest tmp tp c saw val dg bits ip cur :
  0 <= d < 16 -> 0 <= val < 65536 -> dg < 4 ->
  v6_loop (digit_char d :: rest) (V6 tmp tp c saw val dg bits ip cur) =
  v6_loop rest (V6 tmp tp c true (val * 16 + d) (dg + 1) bits ip cur).
Proof.
  intros Hd Hv Hdg. destruct (digit_char_hex d Hd) as (Hx & Hnz & _).
  cbn [v6_loop]. destruct (Z.eqb_spec (digit_char d) 0); [done|]. rewrite Hx.
  destruct (Z.ltb_spec 4 (dg + 1)); [lia|]. rewrite lor_shift_add by (cbn; lia).
  change (2 ^ 4) with 16. unfold uwrap. by rewrite Z.mod_small by lia.
Qed.

Lemma v6_loop_digits ds rest tmp tp c saw val dg bits ip cur :
  Forall (fun d => 0 <= d < 16) ds -> 0 <= val < 16 ^ dg -> 0 <= dg -> dg + Zlen ds <= 4 ->
  v6_loop ((digit_char <$> ds) ++ rest) (V6 tmp tp c saw val dg bits ip cur) =
  v6_loop rest (V6 tmp tp c (match ds with [] => saw | _ => true end)
                   (digits_val 16 ds val) (dg + Zlen ds) bits ip cur).
Proof.
  intros Hds; revert saw val dg; induction Hds as [|d ds Hd Hds IH]; intros saw val dg Hv Hdg Hl.
  { change (Zlen []) with 0. by rewrite Z.add_0_r. }
  rewrite Zlen_cons in *. pose proof (Zlen_nonneg ds).
  assert (16 ^ dg <= 16 ^ 3) by (apply Z.pow_le_mono_r; lia). change (16 ^ 3) with 4096 in *.
  change ((digit_char <$> d :: ds) ++ rest) with (digit_char d :: ((digit_char <$> ds) ++ rest)).
  rewrite v6_loop_digit by lia. rewrite IH; [|rewrite Z.pow_add_r by lia; lia|lia|lia].
  replace (dg + 1 + Zlen ds) with (dg + (1 + Zlen ds)) by lia. by destruct ds.
Qed.

Lemma v6_loop_word w rest done_ c cur : is_word w ->
  exists k, v6_loop (sprintf_x w ++ rest) (v6_at done_ c false 0 0 cur) =
            v6_loop rest (v6_at done_ c true w k cur).
Proof.
  intros Hw. destruct (sprintf_x_word w Hw) as (d & ds & -> & Hr & Hv & Hl).
  exists (0 + Zlen (d :: ds)). unfold v6_at.
  rewrite v6_loop_digits; [by rewrite Hv|done|done|done|rewrite Zlen_cons; lia].
Qed.

(** Writing where the zeros start. *)
Lemma write_all_zeros bs done_ m h (Q : list Z -> heap -> Prop) :
  (length bs <= m)%nat ->
  Q ((done_ ++ bs) ++ replicate (m - length bs) 0) h ->
  wp (write_all (done_ ++ replicate m 0) (Zlen done_) bs) h Q.
Proof.
  revert done_ m; induction bs as [|b bs IH]; intros done_ m Hm HQ; cbn [write_all].
  { wp_step. rewrite app_nil_r, Nat.sub_0_r in HQ. done. }
  destruct m as [|m]; [cbn in Hm; lia|]. wp_step. unfold write_tmp.
  pose proof (Zlen_nonneg done_). rewrite Zlen_app.
  replace (Zlen (replicate (S m) 0)) with (Z.of_nat (S m)) by (unfold Zlen; by rewrite length_replicate).
  destruct (Z.leb_spec 0 (Zlen done_)), (Z.ltb_spec (Zlen done_) (Zlen done_ + Z.of_nat (S m)));
    try lia. cbn [andb]. wp_step.
  replace (Z.to_nat (Zlen done_)) with (length done_ + 0)%nat by (unfold Zlen; lia).
  rewrite insert_app_r. cbn [replicate]. change (<[0%nat:=b]> (0 :: replicate m 0)) with (b :: replicate m 0).
  rewrite cons_middle, app_assoc.
  replace (Zlen done_ + 1) with (Zlen (done_ ++ [b])) by (rewrite Zlen_app, Zlen_cons, Zlen_nil; lia).
  apply IH; [cbn in Hm; lia|]. by rewrite <- (app_assoc done_ [b] bs).
Qed.

Lemma wp_v6_flush done_ c saw w k cur h (Q : v6_state -> heap -> Prop) :
  (length done_ <= 14)%nat ->
  Q (v6_at (done_ ++ word_bytes w) c saw w k cur) h -> wp (v6_flush (v6_at done_ c saw w k cur)) h Q.
Proof.
  intros Hl HQ. unfold v6_flush. cbn [v6_at v6_tmp v6_tp v6_val v6_colonp v6_saw v6_digits v6_bits v6_ipv4 v6_curtok].
  change [Z.land (Z.shiftr w 8) 255; Z.land w 255] with (word_bytes w).
  wp_step. apply write_all_zeros; [cbn; lia|]. wp_step.
  unfold v6_at in HQ. rewrite Zlen_app, length_app in HQ. change (Zlen (word_bytes w)) with 2 in HQ.
  by replace (16 - length done_ - length (word_bytes w))%nat
    with (16 - (length done_ + length (word_bytes w)))%nat by lia.
Qed.

(** A colon after a word. *)
Lemma wp_v6_colon rest done_ c w k cur h (Q : v6_exit -> heap -> Prop) :
  hd 0 rest <> 0 -> (length done_ <= 14)%nat ->
  wp (v6_loop rest (v6_at (done_ ++ word_bytes w) c false 0 0 rest)) h Q ->
  wp (v6_loop (ch_colon :: rest) (v6_at done_ c true w k cur)) h Q.
Proof.
  intros Hnz Hl HQ. unfold v6_at at 1. cbn [v6_loop].
  change (ch_colon =? 0) with false. change (xdigit_l ch_colon) with (@None Z).
  change (xdigit_u ch_colon) with (@None Z). change (ch_colon =? ch_colon) with true.
  cbv iota. cbn [negb]. cbv iota zeta. destruct (Z.eqb_spec (hd 0 rest) 0); [done|].
  destruct (Z.ltb_spec 16 (Zlen done_ + 2)); [unfold Zlen in *; lia|].
  wp_step. by apply (wp_v6_flush done_ c true w k rest).
Qed.

(** The first [::]. *)
Lemma v6_loop_gap rest done_ cur :
  v6_loop (ch_colon :: rest) (v6_at done_ None false 0 0 cur) =
  v6_loop rest (v6_at done_ (Some (Zlen done_)) false 0 0 rest).
Proof. done. Qed.

Lemma sprintf_x_hd w rest : is_word w -> hd 0 (sprintf_x w ++ rest) <> 0 /\
  hd 0 (sprintf_x w ++ rest) <> ch_colon.
Proof.
  intros Hw. destruct (sprintf_x_word w Hw) as (d & ds & -> & Hr & _).
  apply Forall_cons in Hr as [Hd _]. cbn. pose proof (digit_char_hex d Hd) as (_ & ? & ?).
  split; [done|]. unfold digit_char, ch_colon in *. destruct (Z.ltb_spec d 10); lia.
Qed.

(** Words after a word. *)
Lemma wp_v6_words ws rest done_ c w k cur h (Q : v6_exit -> heap -> Prop) :
  Forall is_word ws -> (length done_ + 2 * length ws <= 14)%nat ->
  (forall front lst k' cur', w :: ws = front ++ [lst] ->
     wp (v6_loop rest (v6_at (done_ ++ (front ≫= word_bytes)) c true lst k' cur')) h Q) ->
  wp (v6_loop ((ws ≫= colon_then) ++ rest) (v6_at done_ c true w k cur)) h Q.
Proof.
  intros Hws; revert done_ w k cur; induction Hws as [|w' ws Hw' Hws IH];
    intros done_ w k cur Hl HQ.
  { specialize (HQ [] w k cur eq_refl). cbn in HQ |- *. by rewrite app_nil_r in HQ. }
  rewrite bind_cons, <- app_assoc. unfold colon_then at 1. cbn [app].
  apply wp_v6_colon; [by apply sprintf_x_hd|cbn in Hl; lia|].
  destruct (v6_loop_word w' ((ws ≫= colon_then) ++ rest) (done_ ++ word_bytes w) c
              (sprintf_x w' ++ (ws ≫= colon_then) ++ rest) Hw') as [k' ->].
  apply IH; [rewrite length_app; cbn in *; lia|]. intros front lst k2 cur' E.
  rewrite <- app_assoc. apply (HQ (w :: front) lst k2 cur'). by rewrite E.
Qed.

Lemma wp_read_at p y s i h (Q : Z -> heap -> Prop) :
  i = Zlen p -> Q y h -> wp (read_tmp (p ++ y :: s) i) h Q.
Proof.
  intros -> HQ. unfold read_tmp. pose proof (Zlen_nonneg p).
  destruct (Z.leb_spec 0 (Zlen p)); [|lia]. unfold Zlen. rewrite Nat2Z.id.
  rewrite list_lookup_middle by done. by wp_step.
Qed.

Lemma wp_write_at p y s v i h (Q : list Z -> heap -> Prop) :
  i = Zlen p -> Q (p ++ v :: s) h -> wp (write_tmp (p ++ y :: s) i v) h Q.
Proof.
  intros -> HQ. unfold write_tmp. pose proof (Zlen_nonneg p). pose proof (Zlen_nonneg s).
  rewrite Zlen_app, Zlen_cons. destruct (Z.leb_spec 0 (Zlen p)), (Z.ltb_spec (Zlen p) (Zlen p + (1 + Zlen s)));
    try lia. cbn [andb]. wp_step. unfold Zlen. rewrite Nat2Z.id.
  rewrite <- (Nat.add_0_r (length p)), insert_app_r. done.
Qed.

(** The shift by hand moves [b] over the zeros that follow it. *)
Lemma wp_v6_shift a b m c k h (Q : list Z -> heap -> Prop) :
  k = length b ->
  Q (a ++ replicate (S m) 0 ++ b ++ c) h ->
  wp (v6_shift k (1 + Zlen c) (Zlen (b ++ c)) (Zlen (a ++ b ++ c) + Z.of_nat (S m)) (Zlen a)
        (a ++ b ++ replicate (S m) 0 ++ c)) h Q.
Proof.
  revert k c Q; induction b as [|x b IH] using rev_ind; intros k c Q Hk HQ.
  { subst k. cbn [v6_shift length]. by wp_step. }
  rewrite length_app, Nat.add_comm in Hk. cbn in Hk. subst k. cbn [v6_shift].
  assert (Hrep : forall n, Zlen (replicate n 0) = Z.of_nat n)
    by (intros n; unfold Zlen; by rewrite length_replicate).
  replace (a ++ (b ++ [x]) ++ replicate (S m) 0 ++ c) with ((a ++ b) ++ x :: (replicate (S m) 0 ++ c))
    by (by rewrite <- !app_assoc).
  wp_step. apply wp_read_at; [autorewrite with cares; lia|].
  replace ((a ++ b) ++ x :: replicate (S m) 0 ++ c)
    with (((a ++ b) ++ x :: replicate m 0) ++ 0 :: c).
  2: { rewrite <- app_assoc. cbn [app]. do 2 f_equal.
       by rewrite <- Nat.add_1_r, replicate_add, <- app_assoc. }
  wp_step. apply wp_write_at; [rewrite !Zlen_app, !Zlen_cons, Hrep, Zlen_nil; lia|].
  replace (((a ++ b) ++ x :: replicate m 0) ++ x :: c)
    with ((a ++ b) ++ x :: (replicate m 0 ++ x :: c)) by (by rewrite <- (app_assoc (a ++ b))).
  wp_step. apply wp_write_at; [autorewrite with cares; lia|].
  replace ((a ++ b) ++ 0 :: replicate m 0 ++ x :: c) with (a ++ b ++ replicate (S m) 0 ++ [x] ++ c)
    by (by rewrite <- !app_assoc).
  replace (1 + Zlen c + 1) with (1 + Zlen ([x] ++ c)) by (autorewrite with cares; lia).
  rewrite <- (app_assoc b [x] c). apply IH; [done|]. by rewrite <- (app_assoc b [x] c) in HQ.
Qed.

(** The end of the parser: with a gap, the bytes after it move to the end. *)
Lemma wp_v6_finish_gap a b saw val dg ip cur size h (Q : errno + Z * list Z -> heap -> Prop) :
  (length a + length b < 16)%nat -> 16 <= size ->
  Q (inr (128, a ++ replicate (16 - length (a ++ b)) 0 ++ b)) h ->
  wp (v6_finish (V6 ((a ++ b) ++ replicate (16 - length (a ++ b)) 0) (Zlen (a ++ b)) (Some (Zlen a))
                    saw val dg (-1) ip cur) size) h Q.
Proof.
  intros Hl Hs HQ. unfold v6_finish.
  cbn [v6_bits v6_colonp v6_tp v6_tmp v6_ipv4]. change (-1 =? -1) with true. cbv iota zeta.
  change ((128 + 15) / 16) with 8. change (8 <? 2) with false. cbv iota.
  replace (if ip then 8 else 8) with 8 by (by destruct ip). change (2 * 8) with 16.
  assert (Hm : exists m, (16 - length (a ++ b))%nat = S m /\ Zlen (a ++ b) + Z.of_nat (S m) = 16).
  { exists (15 - length (a ++ b))%nat. unfold Zlen. rewrite !length_app. lia. }
  destruct Hm as (m & Em & Etot). rewrite Em in *.
  wp_step. destruct (Z.eqb_spec (Zlen (a ++ b)) 16); [lia|].
  wp_step. rewrite <- (app_nil_r b) in Etot at 1. rewrite <- Etot.
  replace (Zlen (a ++ b) - Zlen a) with (Zlen (b ++ [])) by (autorewrite with cares; lia).
  replace ((a ++ b) ++ replicate (S m) 0) with (a ++ b ++ replicate (S m) 0 ++ [])
    by (by rewrite app_nil_r, <- app_assoc).
  change 1 with (1 + Zlen (@nil Z)) at 1.
  apply wp_v6_shift; [rewrite app_nil_r; unfold Zlen; lia|].
  wp_step. rewrite Z.eqb_refl. cbn [negb]. change ((128 + 7) / 8) with 16.
  destruct (Z.ltb_spec size 16); [lia|]. wp_step. rewrite app_nil_r in *.
  rewrite take_ge; [done|]. rewrite !length_app, length_replicate.
  rewrite length_app in Em. change (Z.to_nat 16) with 16%nat. lia.
Qed.

(** Without a gap the sixteen bytes must be there. *)
Lemma wp_v6_finish_full tmp saw val dg cur size h (Q : errno + Z * list Z -> heap -> Prop) :
  length tmp = 16%nat -> 16 <= size -> Q (inr (128, tmp)) h ->
  wp (v6_finish (V6 tmp 16 None saw val dg (-1) false cur) size) h Q.
Proof.
  intros Hl Hs HQ. unfold v6_finish. cbn [v6_bits v6_colonp v6_tp v6_tmp v6_ipv4].
  change (-1 =? -1) with true. cbv iota zeta.
  change ((128 + 15) / 16) with 8. change (8 <? 2) with false. cbv iota. change (2 * 8) with 16.
  do 2 wp_step. change (16 =? 16) with true. cbn [negb]. change ((128 + 7) / 8) with 16.
  destruct (Z.ltb_spec size 16); [lia|]. wp_step. rewrite take_ge; [done|].
  change (Z.to_nat 16) with 16%nat. lia.
Qed.

(** ** [getv4] reads dotted notation *)

Lemma getv4_digits d ds rest dst h (Q : option (list Z * option Z) -> heap -> Prop) :
  Forall (fun d => 0 <= d < 10) (d :: ds) -> (ds <> [] -> d <> 0) ->
  digits_val 10 (d :: ds) 0 <= 255 ->
  (forall n, 0 < n -> wp (getv4_loop rest dst n (digits_val 10 (d :: ds) 0)) h Q) ->
  wp (getv4_loop ((digit_char <$> d :: ds) ++ rest) dst 0 0) h Q.
Proof.
  intros Hds Hz Hv HQ.
  assert (Hgen : forall ds n v, Forall (fun d => 0 <= d < 10) ds -> 0 < n -> 0 <= v ->
    (ds <> [] -> v <> 0) -> digits_val 10 ds v <= 255 ->
    (forall n, 0 < n -> wp (getv4_loop rest dst n (digits_val 10 ds v)) h Q) ->
    wp (getv4_loop ((digit_char <$> ds) ++ rest) dst n v) h Q).
  { clear. induction ds as [|d ds IH]; intros n v Hds Hn Hv0 Hz Hv HQ; [by apply HQ|].
    apply Forall_cons in Hds as [Hd Hds]. destruct (digit_char_dec d Hd) as (E & Hdv & _).
    cbn [fmap list_fmap app getv4_loop]. destruct (Z.eqb_spec (digit_char d) 0); [lia|].
    rewrite Hdv. destruct (Z.eqb_spec v 0); [by destruct Hz|]. rewrite andb_false_r.
    pose proof (digits_val_ge 10 ds (v * 10 + d) ltac:(lia) ltac:(lia) Hds) as Hge.
    change (digits_val 10 (d :: ds) v) with (digits_val 10 ds (v * 10 + d)) in *.
    destruct (Z.ltb_spec 255 (v * 10 + d)); [lia|]. apply IH; auto; lia. }
  apply Forall_cons in Hds as [Hd Hds]. destruct (digit_char_dec d Hd) as (E & Hdv & _).
  cbn [fmap list_fmap app getv4_loop]. destruct (Z.eqb_spec (digit_char d) 0); [lia|].
  rewrite Hdv. change (0 =? 0) with true. cbn [negb andb].
  destruct (Z.ltb_spec 255 (0 * 10 + d)); [lia|]. apply Hgen; auto; lia.
Qed.

Lemma wp_getv4_octet b rest dst h (Q : option (list Z * option Z) -> heap -> Prop) :
  0 <= b < 256 -> Zlen dst <= 3 ->
  wp (getv4_loop rest (b :: dst) 0 0) h Q ->
  wp (getv4_loop (sprintf_u b ++ ch_dot :: rest) dst 0 0) h Q.
Proof.
  intros Hb Hdst HQ. destruct (sprintf_u_byte b Hb) as (d & ds & -> & Hr & Hv & Hz & _).
  apply getv4_digits; [done|done|lia|]. rewrite Hv. intros n Hn. cbn [getv4_loop].
  change (ch_dot =? 0) with false. change (digit_val ch_dot) with (@None Z).
  change (ch_dot =? ch_dot) with true. change (ch_dot =? ch_slash) with false. cbn [orb].
  destruct (Z.ltb_spec 3 (Zlen dst)); [lia|]. wp_step. apply wp_put_char; [lia|].
  by rewrite Z.mod_small by lia.
Qed.

Lemma wp_getv4_dotted b0 b1 b2 b3 h (Q : option (list Z * option Z) -> heap -> Prop) :
  0 <= b0 < 256 -> 0 <= b1 < 256 -> 0 <= b2 < 256 -> 0 <= b3 < 256 ->
  Q (Some ([b3; b2; b1; b0], None)) h -> wp (getv4 (dotted b0 b1 b2 b3)) h Q.
Proof.
  intros R0 R1 R2 R3 HQ. unfold getv4, dotted. cbn [app].
  do 3 (apply wp_getv4_octet; [done|unfold Zlen; cbn; lia|]).
  destruct (sprintf_u_byte b3 R3) as (d & ds & E & Hr & Hv & Hz & _).
  rewrite <- (app_nil_r (sprintf_u b3)), E. apply getv4_digits; [done|done|lia|].
  rewrite Hv. intros n Hn. cbn [getv4_loop]. destruct (Z.eqb_spec n 0); [lia|].
  change (3 <? Zlen [b2; b1; b0]) with false. cbv iota. wp_step. apply wp_put_char; [done|].
  wp_step. by rewrite Z.mod_small by lia.
Qed.

(** ** The parser on the printed text *)

Lemma word_bytes_len ws : length (ws ≫= word_bytes) = (2 * length ws)%nat.
Proof. induction ws as [|w ws IH]; [done|]. rewrite bind_cons, length_app, IH. cbn. lia. Qed.

Lemma zero_word_bytes n : replicate n 0 ≫= word_bytes = replicate (2 * n) 0.
Proof.
  induction n as [|n IH]; [done|]. cbn [replicate]. rewrite bind_cons, IH.
  by replace (2 * S n)%nat with (S (S (2 * n))) by lia.
Qed.

(** What follows the loop. *)
Definition v6_end (size : Z) (r : v6_exit) : M (errno + Z * list Z) :=
  match r with
  | V6Enoent => mret (inl ENOENT)
  | V6Return0 => mret (inr (0, []))
  | V6Break s =>
      if v6_saw s then
        if 16 <? v6_tp s + 2 then mret (inl ENOENT)
        else s ← v6_flush s; v6_finish s size
      else v6_finish s size
  end.

Section roundtrip6.
Variables (size : Z) (h : heap).
Hypothesis Hsize : 16 <= size.
Local Abbreviation parses text s bytes :=
  (wp (v6_loop text s) h (fun r h' => wp (v6_end size r) h'
    (fun x h'' => h'' = h /\ x = inr (128, bytes)))).

(** The words after the gap. *)
Lemma parse_after_gap a post cur :
  Forall is_word post -> (length a + 2 * length post < 16)%nat ->
  parses (ch_colon :: join_words post) (v6_at a None false 0 0 cur)
    (a ++ replicate (16 - length a - 2 * length post) 0 ++ (post ≫= word_bytes)).
Proof.
  intros Hpost Hl. rewrite v6_loop_gap. destruct Hpost as [|w post Hw Hpost].
  - cbn [join_words v6_loop]. wp_step. unfold v6_end, v6_at. cbn [v6_saw].
    pose proof (fun sw v d ip c => wp_v6_finish_gap a [] sw v d ip c size h) as Hfin.
    setoid_rewrite (app_nil_r a) in Hfin. apply Hfin; [cbn in *; lia|done|].
    split; [done|]. cbn [length Nat.mul]. by rewrite Nat.sub_0_r.
  - cbn [join_words].
    destruct (v6_loop_word w (post ≫= colon_then) a (Some (Zlen a))
      (sprintf_x w ++ (post ≫= colon_then)) Hw) as [k ->].
    rewrite <- (app_nil_r (post ≫= colon_then)). apply wp_v6_words; [done|cbn in Hl; lia|].
    intros front lst k' cur' E. cbn [v6_loop]. wp_step. unfold v6_end.
    assert (Hlen : length (w :: post) = S (length front)).
    { rewrite E, length_app. cbn. lia. }
    cbn [v6_saw v6_tp v6_at]. destruct (Z.ltb_spec 16 (Zlen (a ++ (front ≫= word_bytes)) + 2)).
    { unfold Zlen in *. rewrite length_app, word_bytes_len in *. cbn in *. lia. }
    wp_step. apply (wp_v6_flush (a ++ (front ≫= word_bytes)) (Some (Zlen a)) true lst k' cur').
    { rewrite length_app, word_bytes_len. cbn in *. lia. }
    unfold v6_at. rewrite <- (app_assoc a (front ≫= word_bytes)).
    replace ((front ≫= word_bytes) ++ word_bytes lst) with ((w :: post) ≫= word_bytes)
      by (rewrite E, bind_app; by cbn).
    apply wp_v6_finish_gap; [rewrite word_bytes_len; cbn in *; lia|done|]. split; [done|].
    rewrite length_app, word_bytes_len. by rewrite Nat.sub_add_distr.
Qed.

(** A dotted tail. *)
Lemma parse_dotted c b0 b1 b2 b3 done_ h' (Q : v6_exit -> heap -> Prop) :
  0 <= b0 < 256 -> 0 <= b1 < 256 -> 0 <= b2 < 256 -> 0 <= b3 < 256 -> (length done_ <= 12)%nat ->
  (forall val dg, let d' := done_ ++ [b0; b1; b2; b3] in
     Q (V6Break (V6 (d' ++ replicate (16 - length d') 0) (Zlen d') c false val dg (-1) true
                    (dotted b0 b1 b2 b3))) h') ->
  wp (v6_loop (dotted b0 b1 b2 b3) (v6_at done_ c false 0 0 (dotted b0 b1 b2 b3))) h' Q.
Proof.
  intros R0 R1 R2 R3 Hl HQ. set (cur := dotted b0 b1 b2 b3) at 2.
  unfold dotted, v6_at. destruct (sprintf_u_byte b0 R0) as (d & ds & -> & Hr & Hv & _ & Hlen).
  rewrite v6_loop_digits; [|eapply Forall_impl; [exact Hr|cbv beta; intros; lia]|done|done|rewrite Zlen_cons; lia].
  cbn [app v6_loop]. change (ch_dot =? 0) with false. change (xdigit_l ch_dot) with (@None Z).
  change (xdigit_u ch_dot) with (@None Z). change (ch_dot =? ch_colon) with false.
  change (ch_dot =? ch_dot) with true. cbv iota. cbn [andb].
  destruct (Z.leb_spec (Zlen done_ + 4) 16); [|unfold Zlen in *; lia].
  wp_step. apply wp_getv4_dotted; [done..|]. cbn [rev app].
  wp_step. apply write_all_zeros; [cbn; lia|]. wp_step. cbn [from_option].
  specialize (HQ (digits_val 16 (d :: ds) 0) (0 + Zlen (d :: ds))). cbv zeta in HQ.
  rewrite length_app, Zlen_app, Nat.sub_add_distr in HQ. exact HQ.
Qed.

(** The address starts with the gap and ends in a dotted tail. *)
Lemma parse_v4_text mid w6 w7 b0 b1 b2 b3 cur :
  Forall is_word mid -> (length mid <= 4)%nat ->
  word_bytes w6 ++ word_bytes w7 = [b0; b1; b2; b3] ->
  0 <= b0 < 256 -> 0 <= b1 < 256 -> 0 <= b2 < 256 -> 0 <= b3 < 256 ->
  parses ((mid ≫= colon_then) ++ ch_colon :: dotted b0 b1 b2 b3) (v6_at [] None false 0 0 cur)
    (replicate (12 - 2 * length mid) 0 ++ (mid ++ [w6; w7]) ≫= word_bytes).
Proof.
  intros Hmid Hl Hb R0 R1 R2 R3.
  assert (Hdot : hd 0 (dotted b0 b1 b2 b3) <> 0).
  { unfold dotted. destruct (sprintf_u_byte b0 R0) as (d & ds & -> & Hr & _).
    apply Forall_cons in Hr as [Hd _]. cbn. destruct (digit_char_dec d Hd) as (-> & _). lia. }
  assert (Hend : forall done_, (length done_ <= 8)%nat ->
    parses (dotted b0 b1 b2 b3) (v6_at done_ (Some 0) false 0 0 (dotted b0 b1 b2 b3))
      (replicate (12 - length done_) 0 ++ done_ ++ [b0; b1; b2; b3])).
  { intros done_ Hd. apply parse_dotted; [done..|lia|]. intros val dg d'. unfold v6_end.
    cbn [v6_saw]. pose proof (wp_v6_finish_gap [] d' false val dg true (dotted b0 b1 b2 b3) size h) as Hfin.
    assert (Hd' : length d' = (length done_ + 4)%nat) by (unfold d'; rewrite length_app; done).
    apply Hfin; [cbn [length]; lia|done|]. split; [done|]. cbn [app]. rewrite Hd'.
    by replace (16 - (length done_ + 4))%nat with (12 - length done_)%nat by lia. }
  assert (Hb' : [w6; w7] ≫= word_bytes = [b0; b1; b2; b3]) by exact Hb.
  destruct Hmid as [|w mid Hw Hmid].
  - change (([] ≫= colon_then) ++ ch_colon :: dotted b0 b1 b2 b3)
      with (ch_colon :: dotted b0 b1 b2 b3).
    rewrite v6_loop_gap. change (Zlen []) with 0. rewrite bind_app, Hb'.
    apply (Hend []). cbn; lia.
  - rewrite bind_cons. unfold colon_then at 1. cbn [app]. rewrite v6_loop_gap, <- app_assoc.
    change (Zlen []) with 0.
    destruct (v6_loop_word w ((mid ≫= colon_then) ++ ch_colon :: dotted b0 b1 b2 b3) [] (Some 0)
      (sprintf_x w ++ (mid ≫= colon_then) ++ ch_colon :: dotted b0 b1 b2 b3) Hw) as [k ->].
    apply wp_v6_words; [done|cbn in *; lia|]. intros front lst k' cur' E.
    assert (Hlen : length (w :: mid) = S (length front)) by (rewrite E, length_app; cbn; lia).
    apply wp_v6_colon; [done|rewrite app_nil_l, word_bytes_len; cbn in *; lia|].
    cbn [app]. replace ((front ≫= word_bytes) ++ word_bytes lst) with ((w :: mid) ≫= word_bytes)
      by (rewrite E, bind_app; by cbn).
    eapply wp_mono; [apply Hend; rewrite word_bytes_len; cbn in *; lia|].
    intros r h' Hr. eapply wp_mono; [exact Hr|]. intros x h'' [-> ->]. split; [done|].
    by rewrite word_bytes_len, app_comm_cons, bind_app, Hb'.
Qed.

Lemma dotted_bytes w6 w7 b0 b1 b2 b3 :
  word_bytes w6 ++ word_bytes w7 = [b0; b1; b2; b3] ->
  0 <= b0 < 256 /\ 0 <= b1 < 256 /\ 0 <= b2 < 256 /\ 0 <= b3 < 256.
Proof.
  unfold word_bytes. change 255 with (Z.ones 8). rewrite !Z.land_ones by lia.
  intros [= <- <- <- <-]. repeat split; apply Z.mod_pos_bound; lia.
Qed.
End roundtrip6.

Lemma v6_start_word w rest : is_word w -> v6_start (sprintf_x w ++ rest) = Some (sprintf_x w ++ rest).
Proof.
  intros Hw. destruct (sprintf_x_hd w rest Hw) as [_ Hc]. unfold v6_start.
  destruct (sprintf_x w ++ rest) as [|c s]; [done|]. cbn in Hc.
  by destruct (Z.eqb_spec c ch_colon).
Qed.

Lemma wp_pton6_start t src size h bytes :
  v6_start t = Some src ->
  wp (v6_loop src (v6_at [] None false 0 0 src)) h (fun r h' => wp (v6_end size r) h'
    (fun x h'' => h'' = h /\ x = inr (128, bytes))) ->
  wp (inet_net_pton_ipv6 t size) h (fun r h' => h' = h /\ r = inr (128, bytes)).
Proof. intros Hs Hwp. unfold inet_net_pton_ipv6. rewrite Hs. by wp_step. Qed.

Lemma gap_text post :
  match post with [] => [ch_colon] | _ => post ≫= colon_then end = ch_colon :: join_words post.
Proof. by destruct post. Qed.

(** Eight words without a gap. *)
Lemma wp_pton6_full ws size h :
  length ws = 8%nat -> Forall is_word ws -> 16 <= size ->
  wp (inet_net_pton_ipv6 (join_words ws) size) h
    (fun r h' => h' = h /\ r = inr (128, ws ≫= word_bytes)).
Proof.
  intros Hlen Hws Hsize. destruct Hws as [|w ws Hw Hws]; [done|]. cbn [join_words].
  eapply wp_pton6_start; [by apply v6_start_word|].
  destruct (v6_loop_word w (ws ≫= colon_then) [] None
    (sprintf_x w ++ (ws ≫= colon_then)) Hw) as [k ->].
  rewrite <- (app_nil_r (ws ≫= colon_then)). apply wp_v6_words; [done|cbn in *; lia|].
  intros front lst k' cur' E. cbn [v6_loop app]. wp_step. unfold v6_end.
  assert (Hlf : length (front ≫= word_bytes) = 14%nat).
  { rewrite word_bytes_len. rewrite E, length_app in Hlen. cbn in Hlen. lia. }
  cbn [v6_saw v6_tp v6_at]. unfold Zlen at 1. rewrite Hlf. change (16 <? Z.of_nat 14 + 2) with false.
  cbv iota. wp_step. apply (wp_v6_flush (front ≫= word_bytes) None true lst k' cur'); [lia|].
  replace ((front ≫= word_bytes) ++ word_bytes lst) with ((w :: ws) ≫= word_bytes)
    by (rewrite E, bind_app; by cbn).
  unfold v6_at. rewrite word_bytes_len, Hlen. cbn [Nat.mul Nat.add Nat.sub replicate].
  rewrite app_nil_r. unfold Zlen. rewrite word_bytes_len, Hlen.
  apply wp_v6_finish_full; [by rewrite word_bytes_len, Hlen|done|done].
Qed.

(** Words on both sides of a gap. *)
Lemma wp_pton6_gap pre n post size h :
  length (pre ++ replicate n 0 ++ post) = 8%nat -> Forall is_word pre -> Forall is_word post ->
  (2 <= n)%nat -> 16 <= size ->
  wp (inet_net_pton_ipv6 (join_words pre ++ ch_colon :: ch_colon :: join_words post) size) h
    (fun r h' => h' = h /\ r = inr (128, (pre ++ replicate n 0 ++ post) ≫= word_bytes)).
Proof.
  intros Hlen Hpre Hpost Hn Hsize. rewrite !bind_app, zero_word_bytes.
  rewrite !length_app, length_replicate in Hlen.
  replace (2 * n)%nat with (16 - 2 * length pre - 2 * length post)%nat by lia.
  rewrite <- (word_bytes_len pre).
  assert (Hl : (length (pre ≫= word_bytes) + 2 * length post < 16)%nat)
    by (rewrite word_bytes_len; lia).
  destruct Hpre as [|w pre Hw Hpre].
  { cbn [join_words app]. eapply wp_pton6_start; [done|]. by apply parse_after_gap. }
  cbn [join_words]. rewrite <- app_assoc. eapply wp_pton6_start; [by apply v6_start_word|].
  destruct (v6_loop_word w ((pre ≫= colon_then) ++ ch_colon :: ch_colon :: join_words post) [] None
    (sprintf_x w ++ (pre ≫= colon_then) ++ ch_colon :: ch_colon :: join_words post) Hw) as [k ->].
  apply wp_v6_words; [done|cbn in *; lia|]. intros front lst k' cur' E.
  assert (Hlf : length (w :: pre) = S (length front)) by (rewrite E, length_app; cbn; lia).
  apply wp_v6_colon; [done|rewrite app_nil_l, word_bytes_len; cbn in *; lia|].
  cbn [app]. replace ((front ≫= word_bytes) ++ word_bytes lst) with ((w :: pre) ≫= word_bytes)
    by (rewrite E, bind_app; by cbn).
  by apply parse_after_gap.
Qed.

Lemma wp_pton6_text ws t size h :
  length ws = 8%nat -> Forall is_word ws -> text6 ws t -> 16 <= size ->
  wp (inet_net_pton_ipv6 t size) h (fun r h' => h' = h /\ r = inr (128, ws ≫= word_bytes)).
Proof.
  intros Hlen Hws Ht Hsize.
  destruct Ht as [|pre n post -> Hn|n mid w6 w7 b0 b1 b2 b3 -> Hn Hnm Hb].
  - by apply wp_pton6_full.
  - rewrite gap_text. apply Forall_app in Hws as [Hpre Hws]. apply Forall_app in Hws as [_ Hpost].
    by apply wp_pton6_gap.
  - apply Forall_app in Hws as [_ Hws]. apply Forall_app in Hws as [Hmid _].
    destruct (dotted_bytes _ _ _ _ _ _ Hb) as (R0 & R1 & R2 & R3).
    eapply (wp_pton6_start _ ((mid ≫= colon_then) ++ ch_colon :: dotted b0 b1 b2 b3)).
    { by destruct mid. }
    rewrite bind_app, zero_word_bytes.
    replace (2 * n)%nat with (12 - 2 * length mid)%nat by lia.
    apply parse_v4_text; auto. lia.
Qed.

(** ** Any text without a prefix length *)

Definition no_slash (s : list Z) : Prop := Forall (fun c => c <> ch_slash) s.

Definition v6_ok (s : v6_state) : Prop :=
  length (v6_tmp s) = 16%nat /\ 0 <= v6_tp s <= 16 /\ v6_bits s = -1 /\ no_slash (v6_curtok s) /\
  match v6_colonp s with Some c => 0 <= c <= v6_tp s | None => True end.

Lemma wp_write_all tmp i bs h (Q : list Z -> heap -> Prop) :
  0 <= i -> i + Zlen bs <= Zlen tmp ->
  (forall tmp', length tmp' = length tmp -> Q tmp' h) -> wp (write_all tmp i bs) h Q.
Proof.
  revert tmp i; induction bs as [|b bs IH]; intros tmp i Hi Hl HQ; cbn [write_all].
  { wp_step. by apply HQ. }
  rewrite Zlen_cons in Hl. pose proof (Zlen_nonneg bs). wp_step. unfold write_tmp.
  destruct (Z.leb_spec 0 i), (Z.ltb_spec i (Zlen tmp)); try lia. cbn [andb]. wp_step.
  apply IH; [lia|unfold Zlen in *; rewrite length_insert; lia|].
  intros tmp' Ht. apply HQ. by rewrite Ht, length_insert.
Qed.

Lemma wp_getv4_safe src dst n val h :
  no_slash src -> Zlen dst <= 4 ->
  wp (getv4_loop src dst n val) h (fun r h' => h' = h /\
    match r with Some (d, b) => Zlen d <= 4 /\ b = None | None => True end).
Proof.
  intros Hs; revert dst n val; induction Hs as [|c src Hc Hs IH]; intros dst n val Hd;
    cbn [getv4_loop].
  { destruct (n =? 0); [by wp_step|]. destruct (Z.ltb_spec 3 (Zlen dst)); [by wp_step|].
    wp_step. apply wp_put_char; [lia|]. wp_step. split; [done|]. rewrite Zlen_cons. split; [lia|done]. }
  destruct (c =? 0).
  { destruct (n =? 0); [by wp_step|]. destruct (Z.ltb_spec 3 (Zlen dst)); [by wp_step|].
    wp_step. apply wp_put_char; [lia|]. wp_step. split; [done|]. rewrite Zlen_cons. split; [lia|done]. }
  destruct (digit_val c) as [d|].
  - destruct (negb (n =? 0) && (val =? 0)); [by wp_step|].
    destruct (255 <? val * 10 + d); [by wp_step|]. by apply IH.
  - destruct (Z.eqb_spec c ch_slash); [done|]. destruct (c =? ch_dot); cbn [orb]; [|by wp_step].
    destruct (Z.ltb_spec 3 (Zlen dst)); [by wp_step|]. wp_step. apply wp_put_char; [lia|].
    apply IH. rewrite Zlen_cons. lia.
Qed.

Lemma wp_v6_flush_ok s h (Q : v6_state -> heap -> Prop) :
  v6_ok s -> v6_tp s + 2 <= 16 ->
  (forall s', v6_ok s' -> v6_tp s' = v6_tp s + 2 -> Q s' h) -> wp (v6_flush s) h Q.
Proof.
  intros (Hl & Htp & Hb & Hc & Hcol) Hroom HQ. unfold v6_flush. wp_step. apply wp_write_all.
  - lia.
  - unfold Zlen. cbn [length]. lia.
  - intros tmp' Ht. wp_step. apply HQ; [|done]. repeat split; cbn; try done; try lia.
    destruct (v6_colonp s); [lia|done].
Qed.

Lemma wp_v6_loop_ok src s h :
  no_slash src -> v6_ok s ->
  wp (v6_loop src s) h (fun r h' => h' = h /\
    match r with V6Break s' => v6_ok s' | _ => True end).
Proof.
  intros Hs; revert s; induction Hs as [|ch src Hch Hs IH]; intros s Hok; cbn [v6_loop].
  { by wp_step. }
  destruct (ch =? 0); [by wp_step|]. destruct s as [tmp tp c saw val dg bits ip cur].
  pose proof Hok as (Hl & Htp & Hb & Hc & Hcol). cbn in Hl, Htp, Hb, Hc, Hcol.
  destruct (match xdigit_l ch with Some d => Some d | None => xdigit_u ch end) as [d|].
  { destruct (4 <? dg + 1); [by wp_step|]. by apply IH. }
  destruct (ch =? ch_colon).
  - destruct saw; cbn [negb].
    + destruct (hd 0 src =? 0); [by wp_step|]. destruct (Z.ltb_spec 16 (tp + 2)); [by wp_step|].
      wp_step. apply wp_v6_flush_ok; [repeat split; cbn; try done; lia|cbn; lia|].
      intros s' (Hl' & Htp' & _ & _ & Hcol') Etp. cbn in Etp. apply IH.
      repeat split; cbn; try done; try lia. destruct c; [lia|done].
    + destruct c; [by wp_step|]. apply IH. repeat split; cbn; try done; lia.
  - wp_step. eapply wp_mono with (P := fun r h' => h' = h /\
      match r with Some (d, b) => tp + 4 <= 16 /\ Zlen d <= 4 /\ b = None | None => True end).
    { destruct (Z.leb_spec (tp + 4) 16); [|rewrite andb_false_r; by wp_step].
      destruct (ch =? ch_dot); cbn [andb]; [|by wp_step].
      eapply wp_mono; [apply wp_getv4_safe; [done|rewrite Zlen_nil; lia]|].
      intros [[d b]|] h' [-> Hr]; (split; [done|]); [|done]. tauto. }
    intros [[d b]|] h' [-> Hr].
    + destruct Hr as (Hr & Hd & ->). wp_step. apply wp_write_all; [lia|rewrite Zlen_rev; unfold Zlen in *; lia|].
      intros tmp' Ht. wp_step. split; [done|]. repeat split; cbn; try done; try lia.
      destruct c; [lia|done].
    + destruct (Z.eqb_spec ch ch_slash); [done|]. by wp_step.
Qed.

Lemma wp_v6_shift_ok k i n endp colonp tmp h (Q : list Z -> heap -> Prop) :
  endp = Zlen tmp -> 0 <= colonp -> colonp + n <= Zlen tmp -> 1 <= i -> i + Z.of_nat k = n + 1 ->
  (forall tmp', length tmp' = length tmp -> Q tmp' h) ->
  wp (v6_shift k i n endp colonp tmp) h Q.
Proof.
  revert i tmp; induction k as [|k IH]; intros i tmp He Hc Hn Hi Hk HQ; cbn [v6_shift].
  { wp_step. by apply HQ. }
  wp_step. unfold read_tmp. destruct (Z.leb_spec 0 (colonp + n - i)); [|lia].
  destruct (lookup_lt_is_Some_2 tmp (Z.to_nat (colonp + n - i))) as [b ->]; [unfold Zlen in *; lia|].
  wp_step. wp_step. unfold write_tmp at 1.
  destruct (Z.leb_spec 0 (endp - i)), (Z.ltb_spec (endp - i) (Zlen tmp)); try lia.
  cbn [andb]. wp_step. wp_step. unfold write_tmp.
  assert (Hil : forall j (x : Z), Zlen (<[j:=x]> tmp) = Zlen tmp)
    by (intros; unfold Zlen; by rewrite length_insert).
  rewrite Hil. destruct (Z.leb_spec 0 (colonp + n - i)), (Z.ltb_spec (colonp + n - i) (Zlen tmp)); try lia.
  cbn [andb]. wp_step.
  apply IH; try lia; [unfold Zlen in *; rewrite !length_insert; lia|unfold Zlen in *; rewrite !length_insert; lia|].
  intros tmp' Ht. apply HQ. by rewrite Ht, !length_insert.
Qed.

Definition pton6_post (size : Z) (h : heap) (r : errno + Z * list Z) (h' : heap) : Prop :=
  h' = h /\ match r with
            | inl e => e = ENOENT \/ e = EMSGSIZE
            | inr (bits, bytes) =>
                bits = 128 /\ length bytes = 16%nat /\ 16 <= size \/ bits = 0 /\ bytes = []
            end.

Lemma wp_v6_finish_ok s size h : v6_ok s -> wp (v6_finish s size) h (pton6_post size h).
Proof.
  intros (Hl & Htp & Hb & _ & Hcol). unfold v6_finish. rewrite Hb.
  change (-1 =? -1) with true. cbv iota zeta. change ((128 + 15) / 16) with 8.
  change (8 <? 2) with false. cbv iota. replace (if v6_ipv4 s then 8 else 8) with 8 by (by destruct (v6_ipv4 s)).
  change (2 * 8) with 16. change ((128 + 7) / 8) with 16.
  wp_step. eapply wp_mono with (P := fun r h' => h' = h /\
    match r with Some (tmp, _) => length tmp = 16%nat | None => True end).
  { destruct (v6_colonp s) as [c|]; [|by wp_step]. destruct (v6_tp s =? 16); [by wp_step|].
    wp_step. apply wp_v6_shift_ok; [unfold Zlen; lia|lia|unfold Zlen; lia|lia|lia|].
    intros tmp' Ht. wp_step. split; [done|]. lia. }
  intros [[tmp tp]|] h' [-> Hr]; [|wp_step; split; auto].
  destruct (negb (tp =? 16)); [wp_step; split; auto|].
  destruct (Z.ltb_spec size 16); wp_step; (split; [done|]); [auto|left].
  split; [done|]. split; [|done]. rewrite length_take. change (Z.to_nat 16) with 16%nat. lia.
Qed.

Lemma wp_pton6_safe src size h :
  no_slash src -> wp (inet_net_pton_ipv6 src size) h (pton6_post size h).
Proof.
  intros Hs. unfold inet_net_pton_ipv6.
  assert (Hst : match v6_start src with Some s => no_slash s | None => True end).
  { unfold v6_start. destruct Hs as [|c s Hc Hs]; [constructor|].
    destruct (c =? ch_colon); [destruct (hd 0 s =? ch_colon); [done|done]|by constructor]. }
  destruct (v6_start src) as [s|]; [|wp_step; split; auto].
  wp_step. eapply wp_mono; [apply wp_v6_loop_ok; [done|repeat split; cbn; try done; lia]|].
  intros [st| |] h' [-> Hr]; [|wp_step; split; auto|wp_step; split; auto].
  destruct (v6_saw st); [|by apply wp_v6_finish_ok].
  destruct (Z.ltb_spec 16 (v6_tp st + 2)); [wp_step; split; auto|].
  wp_step. apply wp_v6_flush_ok; [done|done|]. intros s' Hok _. by apply wp_v6_finish_ok.
Qed.

(** ** [ares__bitncmp] compares the leading bits as a number *)

Definition be_val (l : list Z) : Z := digits_val 256 l 0.

(** The number made of the first [n] bits of [l]. *)
Definition prefix (l : list Z) (n : Z) : Z :=
  be_val (slice l 0 (Z.to_nat (n / 8))) * 2 ^ (n mod 8) +
  (default 0 (byte_at l (n / 8))) / 2 ^ (8 - n mod 8).

Lemma top_bit x : 0 <= x -> Z.land x 128 = 128 * (x mod 256 / 128).
Proof.
  intros Hx. replace (Z.land x 128) with (Z.land (Z.land x 255) 128)
    by (rewrite <- Z.land_assoc; done).
  change 255 with (Z.ones 8). rewrite Z.land_ones by lia. change (2 ^ 8) with 256.
  pose proof (Z.mod_pos_bound x 256). set (y := x mod 256) in *.
  apply Z.eqb_eq. apply (byte_forall (fun y => Z.land y 128 =? 128 * (y / 128))); [by vm_compute|lia].
Qed.

(** The next bit, and what remains after the shift. *)
Lemma next_bit x b : (b <= 7)%nat ->
  x mod 256 / 2 ^ (7 - Z.of_nat b) =
  x mod 256 / 128 * 2 ^ Z.of_nat b + (2 * x) mod 256 / 2 ^ (8 - Z.of_nat b) /\
  0 <= (2 * x) mod 256 / 2 ^ (8 - Z.of_nat b) < 2 ^ Z.of_nat b.
Proof.
  intros Hb. assert (Hy : 0 <= x mod 256 < 256) by (apply Z.mod_pos_bound; lia).
  replace ((2 * x) mod 256) with (2 * (x mod 256) mod 256)
    by (rewrite Z.mul_mod_idemp_r; [done|lia]).
  set (y := x mod 256) in *. clearbody y.
  set (P := fun y => forallb (fun b =>
    (y / 2 ^ (7 - Z.of_nat b) =? y / 128 * 2 ^ Z.of_nat b + (2 * y) mod 256 / 2 ^ (8 - Z.of_nat b))
    && (0 <=? (2 * y) mod 256 / 2 ^ (8 - Z.of_nat b))
    && ((2 * y) mod 256 / 2 ^ (8 - Z.of_nat b) <? 2 ^ Z.of_nat b)) (seq 0 8)).
  assert (HP : P y = true) by (apply byte_forall; [by vm_compute|done]).
  unfold P in HP. rewrite forallb_forall in HP. specialize (HP b).
  rewrite !andb_true_iff, Z.eqb_eq, Z.leb_le, Z.ltb_lt in HP.
  destruct HP as [[? ?] ?]; [apply in_seq; lia|]. done.
Qed.

Lemma bitncmp_bits_sgn b x y :
  (b <= 8)%nat -> 0 <= x < 2 ^ (31 - Z.of_nat b) -> 0 <= y < 2 ^ (31 - Z.of_nat b) ->
  Z.sgn (bitncmp_bits b x y) =
  Z.sgn (x mod 256 / 2 ^ (8 - Z.of_nat b) - y mod 256 / 2 ^ (8 - Z.of_nat b)).
Proof.
  revert x y; induction b as [|b IH]; intros x y Hb Hx Hy; cbn [bitncmp_bits].
  { change (2 ^ (8 - Z.of_nat 0)) with 256. rewrite !Z.div_small by (apply Z.mod_pos_bound; lia). done. }
  replace (8 - Z.of_nat (S b)) with (7 - Z.of_nat b) in * by lia.
  replace (31 - Z.of_nat (S b)) with (30 - Z.of_nat b) in * by lia.
  destruct (next_bit x b) as [-> Hrx]; [lia|]. destruct (next_bit y b) as [-> Hry]; [lia|].
  assert (Htx : 0 <= x mod 256 / 128 <= 1).
  { pose proof (Z.mod_pos_bound x 256). split; [apply Z.div_pos; lia|].
    apply Z.lt_succ_r, Z.div_lt_upper_bound; lia. }
  assert (Hty : 0 <= y mod 256 / 128 <= 1).
  { pose proof (Z.mod_pos_bound y 256). split; [apply Z.div_pos; lia|].
    apply Z.lt_succ_r, Z.div_lt_upper_bound; lia. }
  rewrite !top_bit by lia. set (tx := x mod 256 / 128) in *. set (ty := y mod 256 / 128) in *.
  assert (Hp : 2 ^ (31 - Z.of_nat b) = 2 * 2 ^ (30 - Z.of_nat b)).
  { rewrite <- Z.pow_succ_r by lia. f_equal. lia. }
  destruct (Z.eqb_spec (128 * tx) (128 * ty)) as [E|E]; cbn [negb].
  - replace ty with tx by lia. unfold uwrap. rewrite !Z.shiftl_mul_pow2 by lia.
    change (2 ^ 1) with 2. assert (2 ^ (31 - Z.of_nat b) <= 2 ^ 31) by (apply Z.pow_le_mono_r; lia).
    assert (2 ^ 31 < 2 ^ 32) by done. rewrite !Z.mod_small by lia.
    rewrite !(Z.mul_comm _ 2) by lia. rewrite IH by lia. f_equal. lia.
  - destruct (Z.eqb_spec (128 * tx) 0); cbn [negb].
    + replace tx with 0 in * by lia. replace ty with 1 in * by lia. cbn. symmetry.
      apply Z.sgn_neg_iff. lia.
    + replace tx with 1 in * by lia. replace ty with 0 in * by lia. cbn. symmetry.
      apply Z.sgn_pos_iff. lia.
Qed.

Lemma be_val_range l v : Forall is_byte l -> 0 <= v ->
  v * 256 ^ Zlen l <= digits_val 256 l v < (v + 1) * 256 ^ Zlen l.
Proof.
  intros Hl; revert v; induction Hl as [|b l Hb Hl IH]; intros v Hv.
  { unfold digits_val. cbn [fold_left]. change (Zlen []) with 0. rewrite Z.pow_0_r. lia. }
  rewrite Zlen_cons, Z.pow_add_r by (pose proof (Zlen_nonneg l); lia). change (256 ^ 1) with 256.
  change (digits_val 256 (b :: l) v) with (digits_val 256 l (v * 256 + b)).
  unfold is_byte in Hb. specialize (IH (v * 256 + b) ltac:(lia)).
  assert (0 < 256 ^ Zlen l) by (apply Z.pow_pos_nonneg; [lia|apply Zlen_nonneg]). nia.
Qed.

Lemma slice_bytes l i n : Forall is_byte (slice l i n).
Proof.
  unfold slice. apply Forall_fmap, Forall_forall. intros x _. cbn. apply Z.mod_pos_bound. lia.
Qed.

Lemma wp_memcmp l r i n v h :
  0 <= i -> i + Z.of_nat n <= Zlen l -> i + Z.of_nat n <= Zlen r -> 0 <= v ->
  wp (memcmp l r i n) h (fun x h' => h' = h /\
    Z.sgn x = Z.sgn (digits_val 256 (slice l i n) v - digits_val 256 (slice r i n) v)).
Proof.
  revert i v; induction n as [|n IH]; intros i v Hi Hl Hr Hv; cbn [memcmp].
  { wp_step. rewrite !slice_0. split; [done|]. cbn. by rewrite Z.sub_diag. }
  wp_step. apply wp_get_byte; [lia|]. intros a Ea Ra. wp_step. apply wp_get_byte; [lia|].
  intros b Eb Rb. rewrite (slice_cons _ _ _ _ Ea), (slice_cons _ _ _ _ Eb).
  change (digits_val 256 (a :: ?s) v) with (digits_val 256 s (v * 256 + a)).
  change (digits_val 256 (b :: ?s) v) with (digits_val 256 s (v * 256 + b)).
  destruct (Z.eqb_spec a b) as [->|E]; [apply IH; lia|]. wp_step. split; [done|].
  pose proof (be_val_range (slice l (i + 1) n) (v * 256 + a) (slice_bytes _ _ _) ltac:(lia)) as Hla.
  pose proof (be_val_range (slice r (i + 1) n) (v * 256 + b) (slice_bytes _ _ _) ltac:(lia)) as Hrb.
  unfold Zlen in Hla, Hrb. rewrite slice_length in Hla, Hrb by lia.
  assert (0 < 256 ^ Z.of_nat n) by (apply Z.pow_pos_nonneg; lia).
  destruct (Z.lt_trichotomy a b) as [?|[?|?]]; [|done|].
  - rewrite !(proj2 (Z.sgn_neg_iff _)); [done|nia|lia].
  - rewrite !(proj2 (Z.sgn_pos_iff _)); [done|nia|lia].
Qed.

Lemma wp_bitncmp l r n h :
  0 <= n <= 8 * Zlen l -> n <= 8 * Zlen r ->
  wp (ares__bitncmp l r n) h (fun x h' => h' = h /\ Z.sgn x = Z.sgn (prefix l n - prefix r n)).
Proof.
  intros Hl Hr. unfold ares__bitncmp, prefix, be_val. pose proof (Z.div_mod n 8 ltac:(lia)) as Hdm.
  pose proof (Z.mod_pos_bound n 8 ltac:(lia)) as Hm. assert (0 <= n / 8) by (apply Z.div_pos; lia).
  wp_step. eapply wp_mono; [apply (wp_memcmp _ _ 0 _ 0); lia|]. intros x h' [-> Hx].
  set (dl := digits_val 256 (slice l 0 (Z.to_nat (n / 8))) 0) in *.
  set (dr := digits_val 256 (slice r 0 (Z.to_nat (n / 8))) 0) in *.
  assert (Hpos : 0 < 2 ^ (n mod 8)) by (apply Z.pow_pos_nonneg; lia).
  assert (Hdiv : forall s, 0 <= default 0 (byte_at s (n / 8)) / 2 ^ (8 - n mod 8) < 2 ^ (n mod 8)).
  { intros s. assert (Hb : 0 <= default 0 (byte_at s (n / 8)) < 256).
    { destruct (byte_at s (n / 8)) as [b|] eqn:E; cbn; [|lia]. apply byte_at_Some in E. unfold id. lia. }
    split; [apply Z.div_pos; lia|]. apply Z.div_lt_upper_bound; [lia|].
    rewrite <- Z.pow_add_r by lia. replace (8 - n mod 8 + n mod 8) with 8 by lia.
    change (2 ^ 8) with 256. lia. }
  destruct (Z.eqb_spec x 0) as [->|Hx0]; cbn [negb orb].
  - replace dr with dl in * by (symmetry in Hx; apply Z.sgn_null_iff in Hx; lia).
    destruct (Z.eqb_spec (n mod 8) 0) as [E|E].
    + wp_step. split; [done|]. rewrite E. change (2 ^ (8 - 0)) with 256. change (2 ^ 0) with 1.
      assert (Hsm : forall s, default 0 (byte_at s (n / 8)) / 256 = 0).
      { intros s. apply Z.div_small. destruct (byte_at s (n / 8)) as [b|] eqn:Eb; cbn; [|lia].
        apply byte_at_Some in Eb. unfold id. lia. }
      rewrite !Hsm. by rewrite Z.sub_diag.
    + wp_step. apply wp_get_byte; [lia|]. intros lb El Rl. wp_step. apply wp_get_byte; [lia|].
      intros rb Er Rr. wp_step. split; [done|]. rewrite El, Er. cbn [from_option id].
      assert (256 <= 2 ^ (31 - Z.of_nat (Z.to_nat (n mod 8)))).
      { change 256 with (2 ^ 8). apply Z.pow_le_mono_r; lia. }
      rewrite bitncmp_bits_sgn by lia. rewrite Z2Nat.id by lia.
      rewrite !(Z.mod_small _ 256) by lia. f_equal. lia.
  - wp_step. split; [done|]. rewrite Hx. pose proof (Hdiv l). pose proof (Hdiv r).
    destruct (Z.lt_trichotomy dl dr) as [?|[E|?]].
    + rewrite !(proj2 (Z.sgn_neg_iff _)); [done|nia|lia].
    + rewrite E, Z.sub_diag in Hx. apply Z.sgn_null_iff in Hx. lia.
    + rewrite !(proj2 (Z.sgn_pos_iff _)); [done|nia|lia].
Qed.

(** ** Properties *)

(** An IPv4 address survives printing and parsing: on four bytes and a
    large enough buffer [inet_ntop4] succeeds, and [inet_net_pton_ipv4] reads
    its text back as a 32-bit network with the same four bytes, for any
    destination with room for them. *)
Theorem inet4_roundtrip src size cap h :
  4 <= Zlen src -> 16 <= size -> 4 <= cap ->
  wp (inet_ntop4 src size) h (fun r h1 => exists t, r = inr t /\ h1 = h /\
    wp (inet_net_pton_ipv4 t cap) h (fun x h2 => h2 = h /\ x = inr (32, slice src 0 4))).
Proof.
  intros Hs Hz Hc. apply wp_inet_ntop4; [done|]. intros b0 b1 b2 b3 -> R0 R1 R2 R3.
  pose proof (dotted_len b0 b1 b2 b3 R0 R1 R2 R3).
  destruct (Z.leb_spec size (Zlen (dotted b0 b1 b2 b3))); [lia|].
  eexists. split; [done|]. split; [done|]. by apply wp_pton4_dotted.
Qed.

Lemma inet4_roundtrip_witness :
  wp (inet_ntop4 [192; 168; 0; 7] 16) (Heap 0 []) (fun r h1 => exists t, r = inr t /\ h1 = Heap 0 [] /\
    wp (inet_net_pton_ipv4 t 4) (Heap 0 []) (fun x h2 => h2 = Heap 0 [] /\
      x = inr (32, slice [192; 168; 0; 7] 0 4))).
Proof.
  apply (inet4_roundtrip [192; 168; 0; 7] 16 4 (Heap 0 [])); [vm_compute; discriminate|lia|lia].
Defined.

(** C33. An IPv6 address survives printing and parsing: for every sixteen
    bytes [inet_ntop6] stays inside its 46-character buffer and succeeds when
    the destination has 46 characters, whatever abbreviation (longest run of
    zero words, dotted tail) it chooses, and [inet_net_pton_ipv6] reads the
    text back as a 128-bit network with the same bytes. *)
Theorem inet6_roundtrip src size cap h :
  Zlen src = 16 -> 46 <= size -> 16 <= cap ->
  wp (inet_ntop6 src size) h (fun r h1 => exists t, r = inr t /\ h1 = h /\
    wp (inet_net_pton_ipv6 t cap) h (fun x h2 => h2 = h /\ x = inr (128, slice src 0 16))).
Proof.
  intros Hs Hz Hc. eapply wp_mono; [by apply wp_inet_ntop6|].
  intros r h1 (-> & ws & t & Hlen & Hws & Hb & Ht & Htl & ->).
  destruct (Z.ltb_spec size (Zlen t + 1)); [lia|].
  exists t. split; [done|]. split; [done|]. rewrite <- Hb. by apply wp_pton6_text.
Qed.

Lemma inet6_roundtrip_witness :
  wp (inet_ntop6 (repeat 0 15 ++ [1]) 46) (Heap 0 []) (fun r h1 => exists t, r = inr t /\
    h1 = Heap 0 [] /\
    wp (inet_net_pton_ipv6 t 16) (Heap 0 []) (fun x h2 => h2 = Heap 0 [] /\
      x = inr (128, slice (repeat 0 15 ++ [1]) 0 16))).
Proof.
  apply (inet6_roundtrip (repeat 0 15 ++ [1]) 46 16 (Heap 0 [])); [reflexivity|lia|lia].
Defined.

(** [inet_net_pton_ipv4] on any text and any destination size stays
    inside the text and the destination; a success returns a width covered by
    the bytes written. [inet_net_pton_ipv6] has the same safety on any text
    without a slash: it fails, or writes the sixteen bytes of a 128-bit
    network, or returns 0 without writing. *)
Theorem inet_net_pton_safe src cap h :
  0 <= cap ->
  wp (inet_net_pton_ipv4 src cap) h (pton4_post cap h) /\
  (Forall (fun c => c <> ch_slash) src ->
   wp (inet_net_pton_ipv6 src cap) h (pton6_post cap h)).
Proof. intros Hc. split; [by apply wp_pton4|]. intros Hs. by apply wp_pton6_safe. Qed.

(** "0x7f1" *)
Lemma inet_net_pton_safe_witness :
  wp (inet_net_pton_ipv4 [48; 120; 55; 102; 49] 4) (Heap 0 []) (pton4_post 4 (Heap 0 [])) /\
  (Forall (fun c => c <> ch_slash) [48; 120; 55; 102; 49] ->
   wp (inet_net_pton_ipv6 [48; 120; 55; 102; 49] 4) (Heap 0 []) (pton6_post 4 (Heap 0 []))).
Proof. apply (inet_net_pton_safe [48; 120; 55; 102; 49] 4 (Heap 0 [])). lia. Defined.

(** A prefix length breaks it: on the text [::1:2:3:4:5:6/16] the shift
    of [inet_net_pton_ipv6] writes before the start of [tmp]. *)
Theorem inet_net_pton_ipv6_underwrite h :
  inet_net_pton_ipv6 [58; 58; 49; 58; 50; 58; 51; 58; 52; 58; 53; 58; 54; 47; 49; 54] 16 h = UB.
Proof. by vm_compute. Qed.

(** [ares_inet_pton] reports success without storing an address: the text
    [1:1:1:1:1:1:1:1:1:1] makes [inet_net_pton_ipv6] return 0. *)
Theorem ares_inet_pton_success_without_address h :
  ares_inet_pton (Some AF_INET6) (49 :: concat (replicate 9 [58; 49])) h = Ret (1, []) h.
Proof. by vm_compute. Qed.

(** [ares__bitncmp] compares the first [n] bits of two buffers as
    unsigned numbers: the sign of its result is the sign of their
    difference. *)
Theorem ares__bitncmp_correct l r n h :
  0 <= n <= 8 * Zlen l -> n <= 8 * Zlen r ->
  wp (ares__bitncmp l r n) h (fun x h' => h' = h /\ Z.sgn x = Z.sgn (prefix l n - prefix r n)).
Proof. apply wp_bitncmp. Qed.

Lemma ares__bitncmp_correct_witness :
  wp (ares__bitncmp [10; 128] [10; 255] 9) (Heap 0 []) (fun x h' => h' = Heap 0 [] /\
    Z.sgn x = Z.sgn (prefix [10; 128] 9 - prefix [10; 255] 9)).
Proof.
  apply (ares__bitncmp_correct [10; 128] [10; 255] 9 (Heap 0 []));
    [split; vm_compute; discriminate|vm_compute; discriminate].
Defined.
