(* ===== verification/LList.v ===== *)
(** * Circular doubly-linked lists (c-ares)

    Models, in src/Scylla-moon/seastar/c-ares, the routines of ares_llist.c,
    [swap_lists] of ares_process.c and the exchange of list heads at the start
    of [ares_cancel], on a store of nodes, and proves that they implement
    operations on lists of addresses. Resolver.v uses the latter. A NULL
    pointer is [None]; following it, or a pointer to no node, is [None] of the
    outer option. *)

From S2P Require Import Prelude.
From stdpp Require Import gmap.
Open Scope Z_scope.

Record list_node := Node { prev : option Z; next : option Z; data : Z }.

Local Abbreviation store := (gmap Z list_node).

(** [p->prev] and [p->next] as values. *)
Definition get_prev (s : store) (p : Z) : option Z := s !! p ≫= prev.
Definition get_next (s : store) (p : Z) : option Z := s !! p ≫= next.

(** [p->prev = v] and [p->next = v]. *)
Definition set_prev (p : Z) (v : option Z) (s : store) : option store :=
  n ← s !! p; Some (<[p := Node v (next n) (data n)]> s).
Definition set_next (p : Z) (v : option Z) (s : store) : option store :=
  n ← s !! p; Some (<[p := Node (prev n) v (data n)]> s).

Definition ares__init_list_head (head : Z) (s : store) : option store :=
  _ ← s !! head; Some (<[head := Node (Some head) (Some head) 0]> s).

Definition ares__init_list_node (node d : Z) (s : store) : option store :=
  _ ← s !! node; Some (<[node := Node None None d]> s).

Definition ares__is_list_empty (head : Z) (s : store) : option bool :=
  n ← s !! head; Some (bool_decide (next n = Some head) && bool_decide (prev n = Some head)).

Definition ares__insert_in_list (new_node old_node : Z) (s : store) : option store :=
  s ← set_next new_node (Some old_node) s;
  n ← s !! old_node;
  s ← set_prev new_node (prev n) s;
  n ← s !! old_node;
  p ← prev n;
  s ← set_next p (Some new_node) s;
  set_prev old_node (Some new_node) s.

Definition ares__remove_from_list (node : Z) (s : store) : option store :=
  n ← s !! node;
  match next n with
  | None => Some s
  | Some nx =>
      p ← prev n;
      s ← set_next p (Some nx) s;
      n ← s !! node;
      nx ← next n;
      s ← set_prev nx (prev n) s;
      s ← set_prev node None s;
      set_next node None s
  end.

(** One half of [swap_lists]: [*head_b = old_a] and the links of its ends, or
    an empty list. *)
Definition take_over (head : Z) (old : list_node) (empty : bool) (s : store) : option store :=
  if empty then ares__init_list_head head s
  else
    _ ← s !! head;
    let s := <[head := old]> s in
    nx ← next old;
    s ← set_prev nx (Some head) s;
    p ← prev old;
    set_next p (Some head) s.

Definition swap_lists (head_a head_b : Z) (s : store) : option store :=
  is_a_empty ← ares__is_list_empty head_a s;
  is_b_empty ← ares__is_list_empty head_b s;
  old_a ← s !! head_a;
  old_b ← s !! head_b;
  s ← take_over head_b old_a is_a_empty s;
  take_over head_a old_b is_b_empty s.

(** The exchange of heads at the start of [ares_cancel]: the queries move to a
    head on the stack, and the channel's list becomes empty. *)
Definition detach_list (list_head list_head_copy : Z) (s : store) : option store :=
  n ← s !! list_head;
  s ← set_prev list_head_copy (prev n) s;
  s ← set_next list_head_copy (next n) s;
  p ← get_prev s list_head_copy;
  s ← set_next p (Some list_head_copy) s;
  nx ← get_next s list_head_copy;
  s ← set_prev nx (Some list_head_copy) s;
  s ← set_prev list_head (Some list_head) s;
  set_next list_head (Some list_head) s.

(** ** The list a head represents *)

Definition linked (s : store) (a b : Z) : Prop :=
  get_next s a = Some b /\ get_prev s b = Some a.

(** From [a] through [l] to [z]. *)
Fixpoint chain (s : store) (a : Z) (l : list Z) (z : Z) : Prop :=
  match l with
  | [] => linked s a z
  | x :: l' => linked s a x /\ chain s x l' z
  end.

Definition is_list (s : store) (h : Z) (l : list Z) : Prop := NoDup (h :: l) /\ chain s h l h.

(** The last node of the list that starts at [a]. *)
Fixpoint last_from (a : Z) (l : list Z) : Z :=
  match l with [] => a | x :: l' => last_from x l' end.

Lemma last_from_in a l : last_from a l ∈ a :: l.
Proof. revert a; induction l as [|x l IH]; intros a; cbn; [left|]. right. apply IH. Qed.

Lemma chain_last s a l z : chain s a l z -> linked s (last_from a l) z.
Proof. revert a; induction l as [|x l IH]; intros a H; cbn in *; [done|]. apply IH, H. Qed.

Lemma chain_first s a l z : chain s a l z -> linked s a (hd z l).
Proof. destruct l; cbn; tauto. Qed.

Lemma chain_frame s s' a l z :
  chain s a l z -> (forall x, x ∈ a :: l -> get_next s' x = get_next s x) ->
  (forall x, x ∈ l ++ [z] -> get_prev s' x = get_prev s x) -> chain s' a l z.
Proof.
  revert a; induction l as [|x l IH]; intros a H Hn Hp; cbn in *.
  - destruct H. split; [rewrite Hn; [done|left]|rewrite Hp; [done|left]].
  - destruct H as [[H1 H2] H]. split.
    + split; [rewrite Hn; [done|left]|rewrite Hp; [done|left]].
    + apply IH; [done|intros; apply Hn; by right|intros; apply Hp; by right].
Qed.

Lemma chain_live s a l z x : chain s a l z -> x ∈ a :: l -> is_Some (s !! x).
Proof.
  revert a; induction l as [|y l IH]; intros a H Hx; cbn in *.
  - apply list_elem_of_singleton in Hx as ->. destruct H as [H _]. unfold get_next in H.
    destruct (s !! a); [by eexists|done].
  - destruct H as [[H _] Hc]. apply elem_of_cons in Hx as [->|Hx]; [|by eapply IH].
    unfold get_next in H. destruct (s !! a); [by eexists|done].
Qed.

(** What the assignments do. *)
Lemma set_next_spec p v s : is_Some (s !! p) -> exists s', set_next p v s = Some s' /\
  (forall x, get_next s' x = if decide (x = p) then v else get_next s x) /\
  (forall x, get_prev s' x = get_prev s x) /\ (forall x, is_Some (s' !! x) <-> is_Some (s !! x)).
Proof.
  intros [n Hn]. unfold set_next. rewrite Hn. eexists. split; [done|].
  unfold get_next, get_prev. split_and!; intros x.
  - destruct (decide (x = p)) as [->|]; [by rewrite lookup_insert_eq|by rewrite lookup_insert_ne].
  - destruct (decide (x = p)) as [->|]; [by rewrite lookup_insert_eq, Hn|by rewrite lookup_insert_ne].
  - destruct (decide (x = p)) as [->|]; [|by rewrite lookup_insert_ne].
    rewrite lookup_insert_eq, Hn. split; by eexists.
Qed.

Lemma set_prev_spec p v s : is_Some (s !! p) -> exists s', set_prev p v s = Some s' /\
  (forall x, get_next s' x = get_next s x) /\
  (forall x, get_prev s' x = if decide (x = p) then v else get_prev s x) /\
  (forall x, is_Some (s' !! x) <-> is_Some (s !! x)).
Proof.
  intros [n Hn]. unfold set_prev. rewrite Hn. eexists. split; [done|].
  unfold get_next, get_prev. split_and!; intros x.
  - destruct (decide (x = p)) as [->|]; [by rewrite lookup_insert_eq, Hn|by rewrite lookup_insert_ne].
  - destruct (decide (x = p)) as [->|]; [by rewrite lookup_insert_eq|by rewrite lookup_insert_ne].
  - destruct (decide (x = p)) as [->|]; [|by rewrite lookup_insert_ne].
    rewrite lookup_insert_eq, Hn. split; by eexists.
Qed.

(** ** Insertion and removal *)

(** The links of [s'] are those of [s] changed at the given nodes. *)
Definition relinked (s s' : store) (fn fp : Z -> option Z -> option Z) : Prop :=
  (forall x, get_next s' x = fn x (get_next s x)) /\
  (forall x, get_prev s' x = fp x (get_prev s x)).

Lemma chain_insert s s' new a l z :
  chain s a l z -> new ∉ a :: l -> new <> z -> NoDup (a :: l) -> z ∉ l ->
  relinked s s'
    (fun x o => if decide (x = last_from a l) then Some new
                else if decide (x = new) then Some z else o)
    (fun x o => if decide (x = z) then Some new
                else if decide (x = new) then Some (last_from a l) else o) ->
  chain s' a (l ++ [new]) z.
Proof.
  revert a; induction l as [|x l IH]; intros a H Hnew Hz Hnd Hzl [Hn Hp]; cbn in *.
  - apply not_elem_of_cons in Hnew as [Hna _]. unfold linked.
    rewrite !Hn, !Hp. repeat case_decide; try congruence; done.
  - destruct H as [[H1 H2] H]. apply not_elem_of_cons in Hnew as [Hna Hnew].
    apply NoDup_cons in Hnd as [Ha Hnd]. apply not_elem_of_cons in Hzl as [Hzx Hzl].
    split; [|apply IH; try done; by split].
    pose proof (last_from_in x l) as Hlast. split.
    + rewrite Hn. rewrite !decide_False; [done|congruence|].
      intros ->. done.
    + rewrite Hp. rewrite !decide_False; [done| |congruence].
      intros ->. apply Hnew. left.
Qed.

Lemma chain_remove s s' n0 a l1 l2 z :
  chain s a (l1 ++ n0 :: l2) z -> NoDup (a :: l1 ++ n0 :: l2) -> z ∉ l1 ++ n0 :: l2 ->
  relinked s s'
    (fun x o => if decide (x = n0) then None
                else if decide (x = last_from a l1) then Some (hd z l2) else o)
    (fun x o => if decide (x = n0) then None
                else if decide (x = hd z l2) then Some (last_from a l1) else o) ->
  chain s' a (l1 ++ l2) z.
Proof.
  revert a; induction l1 as [|x l1 IH]; intros a H Hnd Hz [Hn Hp]; cbn in *.
  - destruct H as [[H1 H2] H]. apply NoDup_cons in Hnd as [Ha Hnd].
    apply NoDup_cons in Hnd as [Hn0 Hnd]. apply not_elem_of_cons in Ha as [Han Hal].
    apply not_elem_of_cons in Hz as [Hzn Hzl].
    destruct l2 as [|y l2]; cbn in *.
    + unfold linked. rewrite Hn, Hp. repeat case_decide; try congruence; done.
    + destruct H as [_ H]. apply not_elem_of_cons in Hal as [Hay Hal].
      apply not_elem_of_cons in Hn0 as [Hny Hn0]. apply not_elem_of_cons in Hzl as [Hzy Hzl].
      apply NoDup_cons in Hnd as [Hy Hnd]. split.
      * unfold linked. rewrite Hn, Hp. repeat case_decide; try congruence; done.
      * eapply chain_frame; [exact H| |].
        -- intros w Hw. rewrite Hn. rewrite !decide_False; [done| |].
           ++ intros ->. apply elem_of_cons in Hw as [?|?]; done.
           ++ intros ->. apply elem_of_cons in Hw as [?|?]; done.
        -- intros w [Hw|Hw%list_elem_of_singleton]%elem_of_app; rewrite Hp.
           ++ rewrite !decide_False; [done|congruence|congruence].
           ++ rewrite !decide_False; [done|congruence|congruence].
  - destruct H as [[H1 H2] H]. apply NoDup_cons in Hnd as [Ha Hnd].
    apply not_elem_of_cons in Hz as [Hzx Hzl]. split; [|apply IH; try done; by split].
    pose proof (last_from_in x l1) as Hlast. apply NoDup_cons in Hnd as [Hx Hnd].
    apply not_elem_of_cons in Ha as [Hax Ha]. split.
    + rewrite Hn. rewrite !decide_False; [done| |].
      * intros ->. apply elem_of_cons in Hlast as [?|Hl]; [done|]. apply Ha, elem_of_app. by left.
      * intros ->. apply Ha, elem_of_app. right. left.
    + rewrite Hp. rewrite !decide_False; [done| |].
      * destruct l2; cbn; [congruence|]. intros ->. apply Hx, elem_of_app. right. right. left.
      * intros ->. apply Hx, elem_of_app. right. left.
Qed.

Lemma get_prev_lookup (s : store) x n : s !! x = Some n -> prev n = get_prev s x.
Proof. intros H. unfold get_prev. by rewrite H. Qed.

Lemma get_next_lookup (s : store) x n : s !! x = Some n -> next n = get_next s x.
Proof. intros H. unfold get_next. by rewrite H. Qed.

(** Nodes outside a list keep their links. *)
Definition outside (l : list Z) (s s' : store) : Prop :=
  forall x, x ∉ l -> get_next s' x = get_next s x /\ get_prev s' x = get_prev s x.

Lemma insert_in_list_ok s h l new :
  is_list s h l -> is_Some (s !! new) -> new ∉ h :: l ->
  exists s', ares__insert_in_list new h s = Some s' /\ is_list s' h (l ++ [new]) /\
    outside (h :: l ++ [new]) s s'.
Proof.
  intros [Hnd Hc] Hnew Hni. pose proof (chain_last _ _ _ _ Hc) as [Hl1 Hl2].
  set (p := last_from h l) in *. pose proof (last_from_in h l) as Hpin. fold p in Hpin.
  assert (Hh : is_Some (s !! h)) by (eapply chain_live; [exact Hc|left]).
  assert (Hp : is_Some (s !! p)) by (by eapply chain_live).
  unfold ares__insert_in_list.
  destruct (set_next_spec new (Some h) s Hnew) as (s1 & -> & N1 & P1 & L1). cbn [mbind option_bind].
  destruct (proj2 (L1 h) Hh) as [n Hn]. rewrite Hn. cbn [mbind option_bind].
  rewrite (get_prev_lookup _ _ _ Hn), P1, Hl2.
  destruct (set_prev_spec new (Some p) s1 (proj2 (L1 _) Hnew)) as (s2 & -> & N2 & P2 & L2).
  cbn [mbind option_bind]. destruct (proj2 (L2 h) (proj2 (L1 h) Hh)) as [n2 Hn2].
  rewrite Hn2. cbn [mbind option_bind]. rewrite (get_prev_lookup _ _ _ Hn2), P2.
  rewrite decide_False by (intros ->; apply Hni; left). rewrite P1, Hl2. cbn [mbind option_bind].
  destruct (set_next_spec p (Some new) s2) as (s3 & -> & N3 & P3 & L3); [by apply L2, L1|].
  cbn [mbind option_bind].
  destruct (set_prev_spec h (Some new) s3) as (s4 & -> & N4 & P4 & L4); [by apply L3, L2, L1|].
  exists s4. split; [done|]. apply NoDup_cons in Hnd as [Hhl Hnd].
  assert (Hre : forall x, get_next s4 x = (if decide (x = p) then Some new
      else if decide (x = new) then Some h else get_next s x) /\
    get_prev s4 x = (if decide (x = h) then Some new
      else if decide (x = new) then Some p else get_prev s x)).
  { intros x. by rewrite N4, N3, N2, N1, P4, P3, P2, P1. }
  split; [split|].
  - apply NoDup_cons. split.
    + rewrite elem_of_app, list_elem_of_singleton. intros [?|<-]; [done|]. apply Hni. left.
    + apply NoDup_app. split_and!; [done| |apply NoDup_singleton].
      intros x Hx ->%list_elem_of_singleton. apply Hni. by right.
  - eapply chain_insert; [exact Hc|done| |by apply NoDup_cons|done|].
    + intros ->. apply Hni. left.
    + split; intros x; apply Hre.
  - intros x Hx. destruct (Hre x) as [-> ->]. rewrite !decide_False; [done|..].
    + intros ->. apply Hx. right. apply elem_of_app. right. left.
    + intros ->. apply Hx. left.
    + intros ->. apply Hx. right. apply elem_of_app. right. left.
    + intros ->. apply Hx. apply elem_of_cons in Hpin as [->|?]; [left|].
      right. apply elem_of_app. by left.
Qed.

Lemma remove_from_list_ok s h l1 x l2 :
  is_list s h (l1 ++ x :: l2) ->
  exists s', ares__remove_from_list x s = Some s' /\ is_list s' h (l1 ++ l2) /\
    get_next s' x = None /\ outside (h :: l1 ++ x :: l2) s s'.
Proof.
  intros [Hnd Hc].
  assert (Hin : forall y, y ∈ h :: l1 ++ x :: l2 -> is_Some (s !! y)) by (intros; by eapply chain_live).
  assert (Hx : x ∈ h :: l1 ++ x :: l2) by (right; apply elem_of_app; right; left).
  set (p := last_from h l1). set (nx := hd h l2).
  assert (Hpx : linked s p x /\ linked s x nx).
  { clear -Hc. subst p nx. revert Hc. generalize h at 1 3 as a.
    induction l1 as [|y l1 IH]; intros a Hc; cbn in Hc.
    - destruct Hc as [H1 H2]. split; [done|by apply chain_first].
    - apply (IH y), Hc. }
  destruct Hpx as [[Hp1 Hp2] [Hn1 Hn2]].
  assert (Hpin : p ∈ h :: l1 ++ x :: l2).
  { pose proof (last_from_in h l1) as H. fold p in H.
    apply elem_of_cons in H as [E|H]; [rewrite E; left|].
    right. apply elem_of_app. by left. }
  assert (Hnin : nx ∈ h :: l1 ++ x :: l2).
  { subst nx. destruct l2; [left|]. cbn. right. apply elem_of_app. right. right. left. }
  pose proof Hnd as Hnd'. apply NoDup_cons in Hnd' as [Hhl Hnd'].
  apply NoDup_app in Hnd' as (Hnd1 & Hdis & Hnd2). apply NoDup_cons in Hnd2 as [Hx2 Hnd2].
  assert (Hxh : x <> h). { intros ->. apply Hhl, elem_of_app. right. left. }
  assert (Hxp : p <> x).
  { pose proof (last_from_in h l1) as H. fold p in H.
    apply elem_of_cons in H as [E|H]; [congruence|].
    intros ->. apply (Hdis _ H). left. }
  assert (Hxn : nx <> x). { subst nx. destruct l2; cbn; [congruence|]. intros ->. apply Hx2. left. }
  unfold ares__remove_from_list. destruct (Hin _ Hx) as [n Hn]. rewrite Hn. cbn [mbind option_bind].
  rewrite (get_next_lookup _ _ _ Hn), Hn1, (get_prev_lookup _ _ _ Hn), Hp2. cbn [mbind option_bind].
  destruct (set_next_spec p (Some nx) s (Hin _ Hpin)) as (s1 & -> & N1 & P1 & L1).
  cbn [mbind option_bind]. destruct (proj2 (L1 x) (Hin _ Hx)) as [m Hm]. rewrite Hm.
  cbn [mbind option_bind]. rewrite (get_next_lookup _ _ _ Hm), N1, decide_False, Hn1 by congruence.
  cbn [mbind option_bind]. rewrite (get_prev_lookup _ _ _ Hm), P1, Hp2.
  destruct (set_prev_spec nx (Some p) s1) as (s2 & -> & N2 & P2 & L2); [by apply L1, Hin|].
  cbn [mbind option_bind].
  destruct (set_prev_spec x None s2) as (s3 & -> & N3 & P3 & L3); [by apply L2, L1, Hin|].
  cbn [mbind option_bind].
  destruct (set_next_spec x None s3) as (s4 & -> & N4 & P4 & L4); [by apply L3, L2, L1, Hin|].
  exists s4. split; [done|].
  assert (Hre : forall y, get_next s4 y = (if decide (y = x) then None
      else if decide (y = p) then Some nx else get_next s y) /\
    get_prev s4 y = (if decide (y = x) then None
      else if decide (y = nx) then Some p else get_prev s y)).
  { intros y. by rewrite N4, N3, N2, N1, P4, P3, P2, P1. }
  split; [split|split].
  - apply NoDup_cons. split.
    + intros [?|?]%elem_of_app; apply Hhl, elem_of_app; [by left|right; by right].
    + apply NoDup_app. split_and!; [done| |done]. intros y Hy Hy2. apply (Hdis _ Hy). by right.
  - eapply chain_remove; [exact Hc|done|done|]. split; intros y; apply Hre.
  - destruct (Hre x) as [-> _]. by rewrite decide_True.
  - intros y Hy. destruct (Hre y) as [-> ->]. rewrite !decide_False; [done|congruence..].
Qed.

(** ** Exchanging two lists *)

Lemma is_list_empty_ok s h l :
  is_list s h l -> ares__is_list_empty h s = Some (match l with [] => true | _ => false end).
Proof.
  intros [Hnd Hc]. destruct (chain_live _ _ _ _ h Hc) as [n Hn]; [left|].
  unfold ares__is_list_empty. rewrite Hn. cbn [mbind option_bind].
  rewrite (get_next_lookup _ _ _ Hn), (get_prev_lookup _ _ _ Hn).
  pose proof (chain_first _ _ _ _ Hc) as [H1 _]. rewrite H1.
  destruct l as [|x l]; cbn in *.
  - destruct Hc as [_ ->]. by rewrite !bool_decide_eq_true_2.
  - apply NoDup_cons in Hnd as [Hx _]. rewrite bool_decide_eq_false_2; [done|].
    intros [= ->]. apply Hx. left.
Qed.

Lemma chain_retarget s s' f l a b :
  chain s f l a -> NoDup (f :: l) ->
  get_next s' (last_from f l) = Some b -> get_prev s' b = Some (last_from f l) ->
  (forall x, x ∈ f :: l -> x <> last_from f l -> get_next s' x = get_next s x) ->
  (forall x, x ∈ l -> get_prev s' x = get_prev s x) -> chain s' f l b.
Proof.
  revert f; induction l as [|x l IH]; intros f H Hnd H1 H2 Hn Hp; cbn in *; [done|].
  destruct H as [[Ha Hb] H]. apply NoDup_cons in Hnd as [Hf Hnd]. split.
  - split; [rewrite Hn; [done|left|]|rewrite Hp; [done|left]].
    intros ->. apply Hf, last_from_in.
  - apply IH; try done; intros y Hy; [intros; apply Hn; [by right|done]|apply Hp; by right].
Qed.

(** The nodes of [l] hang on the head [b] instead of [a]. *)
Lemma chain_rehead s s' a b l :
  chain s a l a -> NoDup (a :: l) ->
  get_next s' b = Some (hd b l) -> get_prev s' b = Some (last_from b l) ->
  get_next s' (last_from b l) = Some b -> get_prev s' (hd b l) = Some b ->
  (forall x, x ∈ l -> x <> last_from b l -> get_next s' x = get_next s x) ->
  (forall x, x ∈ l -> x <> hd b l -> get_prev s' x = get_prev s x) -> chain s' b l b.
Proof.
  intros H Hnd H1 H2 H3 H4 Hn Hp. destruct l as [|f l]; cbn in *; [done|].
  destruct H as [_ H]. apply NoDup_cons in Hnd as [_ Hnd]. split; [done|].
  eapply chain_retarget; try done. intros x Hx. apply Hp; [by right|].
  intros ->. by apply NoDup_cons in Hnd as [? _].
Qed.

Lemma take_over_ok s head old empty f p :
  is_Some (s !! head) ->
  (if empty : bool then f = head /\ p = head
   else next old = Some f /\ prev old = Some p /\ is_Some (s !! f) /\ is_Some (s !! p)) ->
  exists s', take_over head old empty s = Some s' /\
    relinked s s'
      (fun x o => if decide (x = p) then Some head else if decide (x = head) then Some f else o)
      (fun x o => if decide (x = f) then Some head else if decide (x = head) then Some p else o) /\
    forall x, is_Some (s' !! x) <-> is_Some (s !! x).
Proof.
  intros [n Hn] Hends. unfold take_over.
  assert (Hlive : forall m x, is_Some (<[head := m]> s !! x) <-> is_Some (s !! x)).
  { intros m x. destruct (decide (x = head)) as [->|Hne]; [|by rewrite lookup_insert_ne].
    rewrite lookup_insert_eq, Hn. split; by eexists. }
  destruct empty.
  - destruct Hends as [-> ->]. unfold ares__init_list_head. rewrite Hn. eexists.
    split; [done|]. split; [|apply Hlive]. unfold relinked, get_next, get_prev.
    split; intros x; destruct (decide (x = head)) as [->|Hx];
      rewrite ?lookup_insert_eq; [done| |done|]; by rewrite lookup_insert_ne.
  - destruct Hends as (Hf & Hp & Hlf & Hlp). rewrite Hn, Hf, Hp. cbn [mbind option_bind].
    destruct (set_prev_spec f (Some head) (<[head := old]> s)) as (s1 & -> & N1 & P1 & L1);
      [by apply Hlive|]. cbn [mbind option_bind].
    destruct (set_next_spec p (Some head) s1) as (s2 & -> & N2 & P2 & L2);
      [by apply L1, Hlive|].
    exists s2. split; [done|]. split; [|intros x; by rewrite L2, L1, Hlive].
    split; intros x.
    + rewrite N2, N1. case_decide; [done|]. unfold get_next.
      destruct (decide (x = head)) as [->|]; [by rewrite lookup_insert_eq|by rewrite lookup_insert_ne].
    + rewrite P2, P1. case_decide; [done|]. unfold get_prev.
      destruct (decide (x = head)) as [->|]; [by rewrite lookup_insert_eq|by rewrite lookup_insert_ne].
Qed.

(** The links after a take-over of the list [l] of another head. *)
Lemma take_over_list s head old a l :
  is_list s a l -> s !! a = Some old -> is_Some (s !! head) -> head ∉ a :: l ->
  forall s0, (forall x, is_Some (s0 !! x) <-> is_Some (s !! x)) ->
  exists s', take_over head old (match l with [] => true | _ => false end) s0 = Some s' /\
    relinked s0 s'
      (fun x o => if decide (x = last_from head l) then Some head
                  else if decide (x = head) then Some (hd head l) else o)
      (fun x o => if decide (x = hd head l) then Some head
                  else if decide (x = head) then Some (last_from head l) else o) /\
    forall x, is_Some (s' !! x) <-> is_Some (s !! x).
Proof.
  intros [Hnd Hc] Ha Hh Hni s0 Hlive.
  destruct (take_over_ok s0 head old (match l with [] => true | _ => false end)
    (hd head l) (last_from head l)) as (s' & H1 & H2 & H3).
  - by apply Hlive.
  - destruct l as [|f l]; [done|].
    pose proof (chain_first _ _ _ _ Hc) as [Hf _]. pose proof (chain_last _ _ _ _ Hc) as [_ Hl].
    rewrite (get_next_lookup _ _ _ Ha), (get_prev_lookup _ _ _ Ha), Hf, Hl. cbn.
    split_and!; [done..| |]; apply Hlive; eapply chain_live; try exact Hc; right;
      [left|apply last_from_in].
  - exists s'. split_and!; [done..|]. intros x. by rewrite H3.
Qed.

Lemma ends_in (h : Z) (l : list Z) x : x <> h -> x = hd h l \/ x = last_from h l -> x ∈ l.
Proof.
  intros Hx [->| ->].
  - destruct l; [done|left].
  - pose proof (last_from_in h l) as H. by apply elem_of_cons in H as [?|?].
Qed.

(** The four links at the ends, for a head outside the list. *)
Lemma rehead_ends s s' head l :
  relinked s s'
    (fun x o => if decide (x = last_from head l) then Some head
                else if decide (x = head) then Some (hd head l) else o)
    (fun x o => if decide (x = hd head l) then Some head
                else if decide (x = head) then Some (last_from head l) else o) ->
  head ∉ l ->
  get_next s' head = Some (hd head l) /\ get_prev s' head = Some (last_from head l) /\
  get_next s' (last_from head l) = Some head /\ get_prev s' (hd head l) = Some head /\
  forall x, x <> head ->
    (x <> last_from head l -> get_next s' x = get_next s x) /\
    (x <> hd head l -> get_prev s' x = get_prev s x).
Proof.
  intros [N P] Hni. rewrite !N, !P, !(decide_True (P := _ = _) _ _ eq_refl). split_and!; try done.
  - destruct l as [|f l]; cbn in *; [by case_decide|]. rewrite decide_False; [done|].
    intros E. apply Hni. rewrite E. apply last_from_in.
  - destruct l as [|f l]; cbn in *; [by case_decide|]. rewrite decide_False; [done|].
    intros ->. apply Hni. left.
  - intros x Hx. split; intros He; rewrite ?N, ?P, !decide_False; done.
Qed.

Lemma rehead_outside s s' head l :
  relinked s s'
    (fun x o => if decide (x = last_from head l) then Some head
                else if decide (x = head) then Some (hd head l) else o)
    (fun x o => if decide (x = hd head l) then Some head
                else if decide (x = head) then Some (last_from head l) else o) ->
  outside (head :: l) s s'.
Proof.
  intros [N P] x [Hx Hl]%not_elem_of_cons.
  rewrite N, P, !decide_False; try done; intros ->; apply Hl; eapply ends_in; eauto.
Qed.

Lemma NoDup_two_lists (a b : Z) la lb :
  NoDup (a :: la ++ b :: lb) ->
  (a <> b) /\ (a ∉ la) /\ (a ∉ lb) /\ (b ∉ la) /\ (forall x, x ∈ la -> x ∉ lb) /\
  NoDup (a :: lb) /\ NoDup (b :: la).
Proof.
  intros [Hna Hd]%NoDup_cons. apply NoDup_app in Hd as (Hnda & Hdis & Hndb).
  apply NoDup_cons in Hndb as [Hnb Hndb]. rewrite elem_of_app, elem_of_cons in Hna.
  assert (b ∉ la) by (intros Hb; apply (Hdis _ Hb); left).
  rewrite !NoDup_cons. split_and!; try done; [naive_solver..| |naive_solver].
  intros x Hx Hl. apply (Hdis _ Hx). by right.
Qed.

Lemma swap_lists_ok s a b la lb :
  is_list s a la -> is_list s b lb -> NoDup (a :: la ++ b :: lb) ->
  exists s', swap_lists a b s = Some s' /\ is_list s' a lb /\ is_list s' b la /\
    outside (a :: la ++ b :: lb) s s'.
Proof.
  intros Ha Hb Hnd. destruct (NoDup_two_lists _ _ _ _ Hnd) as (Hab & Hala & Halb & Hbla & Hdj & Hnl & Hnr).
  destruct (chain_live _ _ _ _ a (proj2 Ha)) as [na Hsa]; [left|].
  destruct (chain_live _ _ _ _ b (proj2 Hb)) as [nb Hsb]; [left|].
  unfold swap_lists. rewrite (is_list_empty_ok _ _ _ Ha), (is_list_empty_ok _ _ _ Hb).
  cbn [mbind option_bind]. rewrite Hsa, Hsb. cbn [mbind option_bind].
  destruct (take_over_list s b na a la Ha Hsa) with (s0 := s) as (s1 & -> & R1 & L1);
    [by rewrite Hsb; eexists|by apply not_elem_of_cons|done|]. cbn [mbind option_bind].
  destruct (take_over_list s a nb b lb Hb Hsb) with (s0 := s1) as (s2 & -> & R2 & L2);
    [by rewrite Hsa; eexists|by apply not_elem_of_cons|done|].
  exists s2. split; [done|].
  pose proof (rehead_outside _ _ _ _ R1) as O1. pose proof (rehead_outside _ _ _ _ R2) as O2.
  destruct (rehead_ends _ _ _ _ R1 Hbla) as (A1 & A2 & A3 & A4 & A5).
  destruct (rehead_ends _ _ _ _ R2 Halb) as (B1 & B2 & B3 & B4 & B5).
  assert (Hla : forall x, x = b \/ x ∈ la -> get_next s2 x = get_next s1 x /\ get_prev s2 x = get_prev s1 x).
  { intros x Hx. apply O2, not_elem_of_cons. destruct Hx as [->|Hx]; [|split; [congruence|by apply Hdj]].
    split; [done|]. by apply NoDup_cons in Hnd as [_ (_ & _ & [? _]%NoDup_cons)%NoDup_app]. }
  assert (Hends : forall x, x = hd b la \/ x = last_from b la -> x = b \/ x ∈ la).
  { intros x Hx. destruct (decide (x = b)) as [->|Hxb]; [by left|right; by eapply ends_in]. }
  split_and!.
  - split; [done|]. apply (chain_rehead s s2 b a lb); try done; [apply Hb|apply Hb|..];
      intros x Hx He; assert (x <> a) by congruence;
      assert (Hs : get_next s1 x = get_next s x /\ get_prev s1 x = get_prev s x)
        by (apply O1, not_elem_of_cons; split; [|intros Hl; by apply (Hdj x)];
            intros ->; by apply (proj1 (NoDup_cons _ _) (proj1 Hb))).
    + rewrite (proj1 (B5 x ltac:(done)) He). apply Hs.
    + rewrite (proj2 (B5 x ltac:(done)) He). apply Hs.
  - destruct (Hla (hd b la)) as [_ F2]; [apply Hends; by left|].
    destruct (Hla (last_from b la)) as [F3 _]; [apply Hends; by right|].
    destruct (Hla b) as [F5 F6]; [by left|]. split; [done|].
    apply (chain_rehead s s2 a b la); [apply Ha|apply Ha|congruence..| |];
      intros x Hx He; destruct (Hla x (or_intror Hx)) as [G1 G2]; rewrite ?G1, ?G2; apply A5; congruence.
  - intros x Hx. apply not_elem_of_cons in Hx as [Hxa Hx].
    apply not_elem_of_app in Hx as [Hxla Hx]. apply not_elem_of_cons in Hx as [Hxb Hxlb].
    destruct (O2 x) as [-> ->]; [by apply not_elem_of_cons|]. apply O1. by apply not_elem_of_cons.
Qed.

Lemma detach_list_ok s a b l :
  is_list s a l -> l <> [] -> is_Some (s !! b) -> b ∉ a :: l ->
  exists s', detach_list a b s = Some s' /\ is_list s' a [] /\ is_list s' b l /\
    outside (a :: l ++ [b]) s s'.
Proof.
  intros [Hnd Hc] Hne Hb Hni. destruct l as [|f l]; [done|].
  pose proof (chain_first _ _ _ _ Hc) as [Hf _]. pose proof (chain_last _ _ _ _ Hc) as [_ Hp].
  cbn [hd last_from] in *. set (p := last_from f l) in *.
  assert (Hpl : p ∈ f :: l) by apply last_from_in.
  destruct (chain_live _ _ _ _ a Hc) as [n Hn]; [left|].
  assert (Hlf : is_Some (s !! f)) by (eapply chain_live; [exact Hc|right; left]).
  assert (Hlp : is_Some (s !! p)) by (eapply chain_live; [exact Hc|by right]).
  apply not_elem_of_cons in Hni as [Hba Hbl]. pose proof Hnd as [Hal Hndl]%NoDup_cons.
  assert (Hpb : p <> b) by congruence. assert (Hpa : p <> a) by congruence.
  assert (Hfb : f <> b) by (intros ->; apply Hbl; left).
  assert (Hfa : f <> a) by (intros ->; apply Hal; left).
  unfold detach_list. rewrite Hn. cbn [mbind option_bind].
  rewrite (get_prev_lookup _ _ _ Hn), (get_next_lookup _ _ _ Hn), Hf, Hp.
  destruct (set_prev_spec b (Some p) s Hb) as (s1 & -> & N1 & P1 & L1). cbn [mbind option_bind].
  destruct (set_next_spec b (Some f) s1) as (s2 & -> & N2 & P2 & L2); [by apply L1|].
  cbn [mbind option_bind]. rewrite P2, P1, decide_True by done. cbn [mbind option_bind].
  destruct (set_next_spec p (Some b) s2) as (s3 & -> & N3 & P3 & L3); [by apply L2, L1|].
  cbn [mbind option_bind]. rewrite N3, N2, decide_False, decide_True by congruence.
  cbn [mbind option_bind].
  destruct (set_prev_spec f (Some b) s3) as (s4 & -> & N4 & P4 & L4); [by apply L3, L2, L1|].
  cbn [mbind option_bind].
  destruct (set_prev_spec a (Some a) s4) as (s5 & -> & N5 & P5 & L5);
    [apply L4, L3, L2, L1; by eexists|]. cbn [mbind option_bind].
  destruct (set_next_spec a (Some a) s5) as (s6 & -> & N6 & P6 & L6);
    [apply L5, L4, L3, L2, L1; by eexists|].
  assert (HN : forall x, get_next s6 x = if decide (x = a) then Some a else if decide (x = p) then Some b
      else if decide (x = b) then Some f else get_next s x)
    by (intros x; by rewrite N6, N5, N4, N3, N2, N1).
  assert (HP : forall x, get_prev s6 x = if decide (x = a) then Some a else if decide (x = f) then Some b
      else if decide (x = b) then Some p else get_prev s x)
    by (intros x; by rewrite P6, P5, P4, P3, P2, P1).
  exists s6. split_and!; [done|split; [apply NoDup_singleton|]|split; [by apply NoDup_cons|]|].
  - cbn. unfold linked. rewrite HN, HP. by rewrite !decide_True.
  - apply (chain_rehead s s6 a b (f :: l)); [done|done|..]; cbn [hd last_from]; fold p;
      rewrite ?HN, ?HP; try (by repeat case_decide; congruence).
    all: intros x Hx He; rewrite ?HN, ?HP, !decide_False; congruence.
  - intros x [Hxa [Hxl Hxb%not_elem_of_cons]%not_elem_of_app]%not_elem_of_cons.
    destruct Hxb as [Hxb _]. rewrite HN, HP, !decide_False; try done; intros ->; [apply Hxl; left|done].
Qed.

Lemma init_list_head_ok s h :
  is_Some (s !! h) ->
  exists s', ares__init_list_head h s = Some s' /\ is_list s' h [] /\ outside [h] s s'.
Proof.
  intros [n Hn]. unfold ares__init_list_head. rewrite Hn. eexists. split; [done|].
  unfold is_list, outside, linked, get_next, get_prev. split; [split; [apply NoDup_singleton|]|].
  - cbn. unfold linked, get_next, get_prev. by rewrite lookup_insert_eq.
  - intros x [Hx _]%not_elem_of_cons. by rewrite lookup_insert_ne.
Qed.

Lemma init_list_node_ok s h d :
  is_Some (s !! h) ->
  exists s', ares__init_list_node h d s = Some s' /\ ares__remove_from_list h s' = Some s' /\
    outside [h] s s'.
Proof.
  intros [n Hn]. unfold ares__init_list_node. rewrite Hn. eexists. split; [done|].
  unfold ares__remove_from_list, outside, get_next, get_prev. rewrite lookup_insert_eq.
  split; [done|]. intros x [Hx _]%not_elem_of_cons. by rewrite lookup_insert_ne.
Qed.

(** The circular lists of [ares_llist.c] implement lists of addresses: on a
    list with a head [a], [ares__insert_in_list] before the head appends a node
    that is in no list, [ares__remove_from_list] takes any node out,
    [ares__is_list_empty] tells the empty list, [ares__init_list_head] makes
    one, removing a node fresh from [ares__init_list_node] does nothing, and [swap_lists] and the
    exchange of heads of [ares_cancel] give the nodes, in their order, to
    another head. No operation follows a null or dangling pointer, and no node
    outside the lists involved changes its links. *)
Theorem llist_refines s a b la lb :
  is_list s a la -> is_list s b lb -> NoDup (a :: la ++ b :: lb) ->
  ares__is_list_empty a s = Some (bool_decide (la = [])) /\
  (forall x, is_Some (s !! x) ->
    exists s', ares__init_list_head x s = Some s' /\ is_list s' x [] /\ outside [x] s s') /\
  (forall x d, is_Some (s !! x) ->
    exists s', ares__init_list_node x d s = Some s' /\ ares__remove_from_list x s' = Some s' /\
      outside [x] s s') /\
  (forall x, is_Some (s !! x) -> x ∉ a :: la ->
    exists s', ares__insert_in_list x a s = Some s' /\ is_list s' a (la ++ [x]) /\
      outside (a :: la ++ [x]) s s') /\
  (forall l1 x l2, la = l1 ++ x :: l2 ->
    exists s', ares__remove_from_list x s = Some s' /\ is_list s' a (l1 ++ l2) /\
      get_next s' x = None /\ outside (a :: la) s s') /\
  (exists s', swap_lists a b s = Some s' /\ is_list s' a lb /\ is_list s' b la /\
    outside (a :: la ++ b :: lb) s s') /\
  (la <> [] -> lb = [] -> exists s', detach_list a b s = Some s' /\ is_list s' a [] /\
    is_list s' b la /\ outside (a :: la ++ [b]) s s').
Proof.
  intros Ha Hb Hnd. destruct (NoDup_two_lists _ _ _ _ Hnd) as (Hab & _ & _ & Hbla & _).
  split_and!.
  - rewrite (is_list_empty_ok _ _ _ Ha). by destruct la.
  - intros x. apply init_list_head_ok.
  - intros x d. apply init_list_node_ok.
  - intros x. by apply insert_in_list_ok.
  - intros l1 x l2 ->. by apply remove_from_list_ok.
  - by apply swap_lists_ok.
  - intros Hne ->. apply detach_list_ok; [done|done| |].
    + apply (chain_live _ _ _ _ b (proj2 Hb)). left.
    + by apply not_elem_of_cons.
Qed.

(** A list of two nodes, 1 and 2, with the head 10, and an empty list 20. *)
Definition ex_store : store :=
  {[ 10 := Node (Some 2) (Some 1) 0; 1 := Node (Some 10) (Some 2) 101;
     2 := Node (Some 1) (Some 10) 102; 20 := Node (Some 20) (Some 20) 0 ]}.

Lemma llist_refines_witness :
  exists s', swap_lists 10 20 ex_store = Some s' /\ is_list s' 10 [] /\ is_list s' 20 [1; 2].
Proof.
  destruct (llist_refines ex_store 10 20 [1; 2] []) as (_ & _ & _ & _ & _ & (s' & H1 & H2 & H3 & _) & _).
  - split; [apply (bool_decide_unpack _); vm_compute; exact I|repeat split].
  - split; [apply (bool_decide_unpack _); vm_compute; exact I|repeat split].
  - apply (bool_decide_unpack _); vm_compute; exact I.
  - exists s'. auto.
Defined.
