(* ===== verification/Channel.v ===== *)
(** * The resolver channel: data and execution monad (c-ares)

    The structures of src/Scylla-moon/seastar/c-ares/ares_private.h that the
    resolver engine works on, and the monad in which ares_process.c and its
    neighbours are written in Resolver.v.

    A [struct query] is identified by its address, a key of the store
    [queries]; a key that is not there is a freed query, and using it is
    undefined. A circular list of queries (see LList.v) is the list of their
    addresses. What the code obtains from outside (results of system calls and
    of the application's socket callbacks, [errno], [rand], received data) is
    read from the streams [ints] and [pkts]; what it does there is recorded in
    [trace], newest event first. *)

From S2P Require Import Prelude DnsWire ParseHost.
From stdpp Require Export gmap.
Open Scope Z_scope.

Record timeval := TV { tv_sec : Z; tv_usec : Z }.

(** [struct ares_addr]; [None] is a family that is neither AF_INET nor
    AF_INET6. *)
Record ares_addr := AresAddr {
  a_family : option family; a_bytes : list Z; a_udp_port : Z; a_tcp_port : Z }.

(** Where [sendreq->data] points: into the buffer of a query (its address, the
    identity of the block and an offset) or into the request's own storage. *)
Inductive data_ptr :=
| PNull
| PQuery (q : Z) (block : Z) (off : Z)
| POwn (off : Z).

Record send_request := SendRequest {
  sr_data : data_ptr; sr_len : Z; owner_query : option Z;
  data_storage : option (list Z) }.

(** [struct query_server_info] *)
Record query_server_info := QSI {
  qsi_skip_server : bool; qsi_generation : Z }.

(** [struct query]. [tcpbuf] is the contents of the block [tcpblk] ([None] is
    NULL); [qbuf] is always [tcpbuf + 2]. *)
Record query := Query {
  qid : Z;
  q_timeout : timeval;
  tcpbuf : option (list Z);
  tcpblk : Z;
  tcplen : Z;
  qlen : Z;
  q_arg : Z;
  try_count : Z;
  q_server : nat;
  server_info : list query_server_info;
  using_tcp : bool;
  error_status : status;
  timeouts : Z }.

Definition set_q_timeout (v : timeval) (r : query) : query :=
    Query (qid r) v (tcpbuf r) (tcpblk r) (tcplen r) (qlen r) (q_arg r) (try_count r)
    (q_server r) (server_info r) (using_tcp r) (error_status r) (timeouts r).
Definition set_tcpbuf (v : option (list Z)) (r : query) : query :=
    Query (qid r) (q_timeout r) v (tcpblk r) (tcplen r) (qlen r) (q_arg r) (try_count r)
    (q_server r) (server_info r) (using_tcp r) (error_status r) (timeouts r).
Definition set_tcpblk (v : Z) (r : query) : query :=
    Query (qid r) (q_timeout r) (tcpbuf r) v (tcplen r) (qlen r) (q_arg r) (try_count r)
    (q_server r) (server_info r) (using_tcp r) (error_status r) (timeouts r).
Definition set_tcplen (v : Z) (r : query) : query :=
    Query (qid r) (q_timeout r) (tcpbuf r) (tcpblk r) v (qlen r) (q_arg r) (try_count r)
    (q_server r) (server_info r) (using_tcp r) (error_status r) (timeouts r).
Definition set_qlen (v : Z) (r : query) : query :=
    Query (qid r) (q_timeout r) (tcpbuf r) (tcpblk r) (tcplen r) v (q_arg r) (try_count r)
    (q_server r) (server_info r) (using_tcp r) (error_status r) (timeouts r).
Definition set_try_count (v : Z) (r : query) : query :=
    Query (qid r) (q_timeout r) (tcpbuf r) (tcpblk r) (tcplen r) (qlen r) (q_arg r) v
    (q_server r) (server_info r) (using_tcp r) (error_status r) (timeouts r).
Definition set_q_server (v : nat) (r : query) : query :=
    Query (qid r) (q_timeout r) (tcpbuf r) (tcpblk r) (tcplen r) (qlen r) (q_arg r)
    (try_count r) v (server_info r) (using_tcp r) (error_status r) (timeouts r).
Definition set_server_info (v : list query_server_info) (r : query) : query :=
    Query (qid r) (q_timeout r) (tcpbuf r) (tcpblk r) (tcplen r) (qlen r) (q_arg r)
    (try_count r) (q_server r) v (using_tcp r) (error_status r) (timeouts r).
Definition set_using_tcp (v : bool) (r : query) : query :=
    Query (qid r) (q_timeout r) (tcpbuf r) (tcpblk r) (tcplen r) (qlen r) (q_arg r)
    (try_count r) (q_server r) (server_info r) v (error_status r) (timeouts r).
Definition set_error_status (v : status) (r : query) : query :=
    Query (qid r) (q_timeout r) (tcpbuf r) (tcpblk r) (tcplen r) (qlen r) (q_arg r)
    (try_count r) (q_server r) (server_info r) (using_tcp r) v (timeouts r).
Definition set_timeouts (v : Z) (r : query) : query :=
    Query (qid r) (q_timeout r) (tcpbuf r) (tcpblk r) (tcplen r) (qlen r) (q_arg r)
    (try_count r) (q_server r) (server_info r) (using_tcp r) (error_status r) v.

(** [struct server_state]. [sendq] is the queue from [qhead] to [qtail]. *)
Record server_state := ServerState {
  s_addr : ares_addr;
  udp_socket : Z;
  tcp_socket : Z;
  tcp_lenbuf : list Z;
  tcp_lenbuf_pos : Z;
  tcp_length : Z;
  tcp_buffer : option (list Z);
  tcp_buffer_pos : Z;
  sendq : list send_request;
  s_generation : Z;
  queries_to_server : list Z;
  is_broken : bool }.

Definition set_udp_socket (v : Z) (r : server_state) : server_state :=
    ServerState (s_addr r) v (tcp_socket r) (tcp_lenbuf r) (tcp_lenbuf_pos r) (tcp_length
    r) (tcp_buffer r) (tcp_buffer_pos r) (sendq r) (s_generation r) (queries_to_server r)
    (is_broken r).
Definition set_tcp_socket (v : Z) (r : server_state) : server_state :=
    ServerState (s_addr r) (udp_socket r) v (tcp_lenbuf r) (tcp_lenbuf_pos r) (tcp_length
    r) (tcp_buffer r) (tcp_buffer_pos r) (sendq r) (s_generation r) (queries_to_server r)
    (is_broken r).
Definition set_tcp_lenbuf (v : list Z) (r : server_state) : server_state :=
    ServerState (s_addr r) (udp_socket r) (tcp_socket r) v (tcp_lenbuf_pos r) (tcp_length
    r) (tcp_buffer r) (tcp_buffer_pos r) (sendq r) (s_generation r) (queries_to_server r)
    (is_broken r).
Definition set_tcp_lenbuf_pos (v : Z) (r : server_state) : server_state :=
    ServerState (s_addr r) (udp_socket r) (tcp_socket r) (tcp_lenbuf r) v (tcp_length r)
    (tcp_buffer r) (tcp_buffer_pos r) (sendq r) (s_generation r) (queries_to_server r)
    (is_broken r).
Definition set_tcp_length (v : Z) (r : server_state) : server_state :=
    ServerState (s_addr r) (udp_socket r) (tcp_socket r) (tcp_lenbuf r) (tcp_lenbuf_pos r)
    v (tcp_buffer r) (tcp_buffer_pos r) (sendq r) (s_generation r) (queries_to_server r)
    (is_broken r).
Definition set_tcp_buffer (v : option (list Z)) (r : server_state) : server_state :=
    ServerState (s_addr r) (udp_socket r) (tcp_socket r) (tcp_lenbuf r) (tcp_lenbuf_pos r)
    (tcp_length r) v (tcp_buffer_pos r) (sendq r) (s_generation r) (queries_to_server r)
    (is_broken r).
Definition set_tcp_buffer_pos (v : Z) (r : server_state) : server_state :=
    ServerState (s_addr r) (udp_socket r) (tcp_socket r) (tcp_lenbuf r) (tcp_lenbuf_pos r)
    (tcp_length r) (tcp_buffer r) v (sendq r) (s_generation r) (queries_to_server r)
    (is_broken r).
Definition set_sendq (v : list send_request) (r : server_state) : server_state :=
    ServerState (s_addr r) (udp_socket r) (tcp_socket r) (tcp_lenbuf r) (tcp_lenbuf_pos r)
    (tcp_length r) (tcp_buffer r) (tcp_buffer_pos r) v (s_generation r) (queries_to_server
    r) (is_broken r).
Definition set_s_generation (v : Z) (r : server_state) : server_state :=
    ServerState (s_addr r) (udp_socket r) (tcp_socket r) (tcp_lenbuf r) (tcp_lenbuf_pos r)
    (tcp_length r) (tcp_buffer r) (tcp_buffer_pos r) (sendq r) v (queries_to_server r)
    (is_broken r).
Definition set_queries_to_server (v : list Z) (r : server_state) : server_state :=
    ServerState (s_addr r) (udp_socket r) (tcp_socket r) (tcp_lenbuf r) (tcp_lenbuf_pos r)
    (tcp_length r) (tcp_buffer r) (tcp_buffer_pos r) (sendq r) (s_generation r) v
    (is_broken r).
Definition set_is_broken (v : bool) (r : server_state) : server_state :=
    ServerState (s_addr r) (udp_socket r) (tcp_socket r) (tcp_lenbuf r) (tcp_lenbuf_pos r)
    (tcp_length r) (tcp_buffer r) (tcp_buffer_pos r) (sendq r) (s_generation r)
    (queries_to_server r) v.

(** The configuration of the channel that the engine only reads. [sock_config_cb],
    [sock_create_cb] and [sock_funcs] say whether the callback is set. *)
Record config := Config {
  cfg_timeout : Z;
  tries : Z;
  rotate : bool;
  udp_port : Z;
  tcp_port : Z;
  socket_send_buffer_size : Z;
  socket_receive_buffer_size : Z;
  ednspsz : Z;
  local_dev_name : list Z;
  local_ip4 : Z;
  local_ip6 : list Z;
  sock_config_cb : bool;
  sock_create_cb : bool;
  sock_funcs : bool }.

(** What a receive call returns: [-1] with an [errno], or data and the address
    it came from; no data is the result 0. *)
Inductive pkt :=
| PErr (errno : Z)
| PData (from : option family * list Z) (bytes : list Z).

Inductive event :=
| EvCallback (q : option Z) (arg : Z) (st : status) (timeouts : Z) (abuf : list Z)
| EvSent (q : Z) (server : nat) (tcp : bool) (bytes : list Z)
| EvWrite (fd : Z) (bytes : list Z)
| EvSockState (fd r w : Z)
| EvConnect (fd : Z) (fam : family) (addr : list Z) (port : Z)
| EvClose (fd : Z).

(** [struct ares_channeldata]. [stolen] and [cancelled] are the lists whose
    heads live on the stack of [handle_error] and [ares_cancel]. A bucket that
    has no entry in its table is the empty list. *)
Record chan := Chan {
  cfg : config;
  flags : Z;
  servers : list server_state;
  tcp_connection_generation : Z;
  last_timeout_processed : Z;
  last_server : nat;
  all_queries : list Z;
  cancelled : list Z;
  queries_by_qid : gmap Z (list Z);
  queries_by_timeout : gmap Z (list Z);
  stolen : list Z;
  queries : gmap Z query;
  next_addr : Z;
  mem : heap;
  ints : list Z;
  pkts : list pkt;
  trace : list event }.

Definition set_flags (v : Z) (r : chan) : chan :=
    Chan (cfg r) v (servers r) (tcp_connection_generation r) (last_timeout_processed r)
    (last_server r) (all_queries r) (cancelled r) (queries_by_qid r) (queries_by_timeout
    r) (stolen r) (queries r) (next_addr r) (mem r) (ints r) (pkts r) (trace r).
Definition set_servers (v : list server_state) (r : chan) : chan :=
    Chan (cfg r) (flags r) v (tcp_connection_generation r) (last_timeout_processed r)
    (last_server r) (all_queries r) (cancelled r) (queries_by_qid r) (queries_by_timeout
    r) (stolen r) (queries r) (next_addr r) (mem r) (ints r) (pkts r) (trace r).
Definition set_tcp_connection_generation (v : Z) (r : chan) : chan :=
    Chan (cfg r) (flags r) (servers r) v (last_timeout_processed r) (last_server r)
    (all_queries r) (cancelled r) (queries_by_qid r) (queries_by_timeout r) (stolen r)
    (queries r) (next_addr r) (mem r) (ints r) (pkts r) (trace r).
Definition set_last_timeout_processed (v : Z) (r : chan) : chan :=
    Chan (cfg r) (flags r) (servers r) (tcp_connection_generation r) v (last_server r)
    (all_queries r) (cancelled r) (queries_by_qid r) (queries_by_timeout r) (stolen r)
    (queries r) (next_addr r) (mem r) (ints r) (pkts r) (trace r).
Definition set_last_server (v : nat) (r : chan) : chan :=
    Chan (cfg r) (flags r) (servers r) (tcp_connection_generation r)
    (last_timeout_processed r) v (all_queries r) (cancelled r) (queries_by_qid r)
    (queries_by_timeout r) (stolen r) (queries r) (next_addr r) (mem r) (ints r) (pkts r)
    (trace r).
Definition set_all_queries (v : list Z) (r : chan) : chan :=
    Chan (cfg r) (flags r) (servers r) (tcp_connection_generation r)
    (last_timeout_processed r) (last_server r) v (cancelled r) (queries_by_qid r)
    (queries_by_timeout r) (stolen r) (queries r) (next_addr r) (mem r) (ints r) (pkts r)
    (trace r).
Definition set_cancelled (v : list Z) (r : chan) : chan :=
    Chan (cfg r) (flags r) (servers r) (tcp_connection_generation r)
    (last_timeout_processed r) (last_server r) (all_queries r) v (queries_by_qid r)
    (queries_by_timeout r) (stolen r) (queries r) (next_addr r) (mem r) (ints r) (pkts r)
    (trace r).
Definition set_queries_by_qid (v : gmap Z (list Z)) (r : chan) : chan :=
    Chan (cfg r) (flags r) (servers r) (tcp_connection_generation r)
    (last_timeout_processed r) (last_server r) (all_queries r) (cancelled r) v
    (queries_by_timeout r) (stolen r) (queries r) (next_addr r) (mem r) (ints r) (pkts r)
    (trace r).
Definition set_queries_by_timeout (v : gmap Z (list Z)) (r : chan) : chan :=
    Chan (cfg r) (flags r) (servers r) (tcp_connection_generation r)
    (last_timeout_processed r) (last_server r) (all_queries r) (cancelled r)
    (queries_by_qid r) v (stolen r) (queries r) (next_addr r) (mem r) (ints r) (pkts r)
    (trace r).
Definition set_stolen (v : list Z) (r : chan) : chan :=
    Chan (cfg r) (flags r) (servers r) (tcp_connection_generation r)
    (last_timeout_processed r) (last_server r) (all_queries r) (cancelled r)
    (queries_by_qid r) (queries_by_timeout r) v (queries r) (next_addr r) (mem r) (ints r)
    (pkts r) (trace r).
Definition set_queries (v : gmap Z query) (r : chan) : chan :=
    Chan (cfg r) (flags r) (servers r) (tcp_connection_generation r)
    (last_timeout_processed r) (last_server r) (all_queries r) (cancelled r)
    (queries_by_qid r) (queries_by_timeout r) (stolen r) v (next_addr r) (mem r) (ints r)
    (pkts r) (trace r).
Definition set_next_addr (v : Z) (r : chan) : chan :=
    Chan (cfg r) (flags r) (servers r) (tcp_connection_generation r)
    (last_timeout_processed r) (last_server r) (all_queries r) (cancelled r)
    (queries_by_qid r) (queries_by_timeout r) (stolen r) (queries r) v (mem r) (ints r)
    (pkts r) (trace r).
Definition set_mem (v : heap) (r : chan) : chan :=
    Chan (cfg r) (flags r) (servers r) (tcp_connection_generation r)
    (last_timeout_processed r) (last_server r) (all_queries r) (cancelled r)
    (queries_by_qid r) (queries_by_timeout r) (stolen r) (queries r) (next_addr r) v (ints
    r) (pkts r) (trace r).
Definition set_ints (v : list Z) (r : chan) : chan :=
    Chan (cfg r) (flags r) (servers r) (tcp_connection_generation r)
    (last_timeout_processed r) (last_server r) (all_queries r) (cancelled r)
    (queries_by_qid r) (queries_by_timeout r) (stolen r) (queries r) (next_addr r) (mem r)
    v (pkts r) (trace r).
Definition set_pkts (v : list pkt) (r : chan) : chan :=
    Chan (cfg r) (flags r) (servers r) (tcp_connection_generation r)
    (last_timeout_processed r) (last_server r) (all_queries r) (cancelled r)
    (queries_by_qid r) (queries_by_timeout r) (stolen r) (queries r) (next_addr r) (mem r)
    (ints r) v (trace r).
Definition set_trace (v : list event) (r : chan) : chan :=
    Chan (cfg r) (flags r) (servers r) (tcp_connection_generation r)
    (last_timeout_processed r) (last_server r) (all_queries r) (cancelled r)
    (queries_by_qid r) (queries_by_timeout r) (stolen r) (queries r) (next_addr r) (mem r)
    (ints r) (pkts r) v.

Definition nservers (c : chan) : nat := length (servers c).

Definition bucket (m : gmap Z (list Z)) (b : Z) : list Z := default [] (m !! b).

(** ** The monad

    [EUB] is undefined behaviour or a failed [assert], [EFuel] an exhausted
    loop bound of the model; both keep the state they happened in. *)

Inductive eres (A : Type) : Type :=
| EOk (a : A) (c : chan)
| EUB (c : chan)
| EFuel (c : chan).
Arguments EOk {A} a c.
Arguments EUB {A} c.
Arguments EFuel {A} c.

Definition E (A : Type) : Type := chan -> eres A.

#[export] Instance E_ret : MRet E := fun A a c => EOk a c.
#[export] Instance E_bind : MBind E := fun A B k m c =>
  match m c with
  | EOk a c' => k a c'
  | EUB c' => EUB c'
  | EFuel c' => EFuel c'
  end.

Definition eub {A} : E A := fun c => EUB c.
Definition efuel {A} : E A := fun c => EFuel c.
Definition gets {A} (f : chan -> A) : E A := fun c => EOk (f c) c.
Definition modify (f : chan -> chan) : E unit := fun c => EOk () (f c).
Definition eassert (b : bool) : E unit := if b then mret () else eub.

(** Code that only uses the allocator. *)
Definition lift {A} (m : M A) : E A := fun c =>
  match m (mem c) with
  | Ret a h => EOk a (set_mem h c)
  | UB => EUB c
  | OutOfFuel => EFuel c
  end.

Definition emit (e : event) : E unit := modify (fun c => set_trace (e :: trace c) c).

(** The next result of a call outside the library; -1, the failure of most of
    them, when the stream is used up. *)
Definition sys_int : E Z := fun c =>
  match ints c with
  | [] => EOk (-1) c
  | z :: l => EOk z (set_ints l c)
  end.

Definition EAGAIN : Z := 11.
Definition EINPROGRESS : Z := 115.

(** A receive call with room for [len] bytes. *)
Definition sys_recv (len : Z) : E pkt := fun c =>
  match pkts c with
  | [] => EOk (PErr EAGAIN) c
  | PErr e :: l => EOk (PErr e) (set_pkts l c)
  | PData from bs :: l => EOk (PData from (take (Z.to_nat len) bs)) (set_pkts l c)
  end.

(** Dereferencing a [struct query *] and an element of [channel->servers]. *)
Definition get_query (q : Z) : E query := fun c =>
  match queries c !! q with Some r => EOk r c | None => EUB c end.

Definition upd_query (q : Z) (f : query -> query) : E unit := fun c =>
  match queries c !! q with
  | Some r => EOk () (set_queries (<[q := f r]> (queries c)) c)
  | None => EUB c
  end.

Definition get_server (i : nat) : E server_state := fun c =>
  match servers c !! i with Some s => EOk s c | None => EUB c end.

Definition upd_server (i : nat) (f : server_state -> server_state) : E unit := fun c =>
  match servers c !! i with
  | Some s => EOk () (set_servers (<[i := f s]> (servers c)) c)
  | None => EUB c
  end.

(** An element of [query->server_info]. *)
Definition get_info (r : query) (i : nat) : E query_server_info :=
  match server_info r !! i with Some x => mret x | None => eub end.

Definition upd_info (q : Z) (i : nat) (f : query_server_info -> query_server_info) : E unit :=
  r ← get_query q;
  x ← get_info r i;
  upd_query q (set_server_info (<[i := f x]> (server_info r))).

(** The [len] bytes a request's [data] points to. *)
Definition deref (p : data_ptr) (storage : option (list Z)) (len : Z) : E (list Z) :=
  match p with
  | PNull => if len =? 0 then mret [] else eub
  | POwn off =>
      match storage with
      | Some bs => if (0 <=? off) && (off + len <=? Zlen bs)
                   then mret (slice bs off (Z.to_nat len)) else eub
      | None => eub
      end
  | PQuery q blk off =>
      r ← get_query q;
      match tcpbuf r with
      | Some bs => if (tcpblk r =? blk) && (0 <=? off) && (off + len <=? Zlen bs)
                   then mret (slice bs off (Z.to_nat len)) else eub
      | None => eub
      end
  end.

(** [for (i = 0; i < channel->nservers; i++)]: [body] returns whether to go on
    and the local state of the loop. *)
Fixpoint loop_servers {L} (body : nat -> L -> E (bool * L)) (n i : nat) (l : L) : E unit :=
  match n with
  | O => mret ()
  | S n' =>
      '(go, l') ← body i l;
      if go : bool then loop_servers body n' (S i) l' else mret ()
  end.

Definition for_servers {L} (body : nat -> L -> E (bool * L)) (l : L) : E unit :=
  n ← gets nservers; loop_servers body n 0 l.

(** ** The program logic of the engine

    [ewp m c Q]: run from [c], [m] returns with a result and a state that
    satisfy [Q]. The one excuse for not returning is [excused]. *)

(** A TCP message longer than 32767 bytes is being processed: the name decoder
    is only proved not to overflow below that length (see DnsWire.v). *)
Definition excused (c : chan) : Prop :=
  Exists (fun s => tcp_lenbuf_pos s = 2 /\ tcp_buffer_pos s = tcp_length s /\
                   32767 < tcp_length s) (servers c).

Definition ewp {A} (m : E A) (c : chan) (Q : A -> chan -> Prop) : Prop :=
  match m c with
  | EOk a c' => Q a c'
  | EUB c' => excused c'
  | EFuel c' => excused c'
  end.

Create HintDb engine discriminated.

Lemma ewp_ret {A} (a : A) c (Q : A -> chan -> Prop) : Q a c -> ewp (mret a) c Q.
Proof. done. Qed.

Lemma ewp_bind {A B} (m : E A) (k : A -> E B) c (Q : B -> chan -> Prop) :
  ewp m c (fun a c' => ewp (k a) c' Q) -> ewp (m ≫= k) c Q.
Proof. unfold ewp, mbind, E_bind. by destruct (m c). Qed.

Lemma ewp_mono {A} (m : E A) c (P Q : A -> chan -> Prop) :
  ewp m c P -> (forall a c', P a c' -> Q a c') -> ewp m c Q.
Proof. unfold ewp. destruct (m c); naive_solver. Qed.

Lemma ewp_gets {A} (f : chan -> A) c (Q : A -> chan -> Prop) : Q (f c) c -> ewp (gets f) c Q.
Proof. done. Qed.

Lemma ewp_modify f c (Q : unit -> chan -> Prop) : Q () (f c) -> ewp (modify f) c Q.
Proof. done. Qed.

Lemma ewp_emit e c (Q : unit -> chan -> Prop) :
  Q () (set_trace (e :: trace c) c) -> ewp (emit e) c Q.
Proof. done. Qed.

Lemma ewp_assert b c (Q : unit -> chan -> Prop) : b = true -> Q () c -> ewp (eassert b) c Q.
Proof. by intros ->. Qed.

Lemma ewp_lift {A} (m : M A) c (Q : A -> chan -> Prop) :
  wp m (mem c) (fun a h => Q a (set_mem h c)) -> ewp (lift m) c Q.
Proof. unfold ewp, wp, lift. by destruct (m (mem c)). Qed.

Lemma ewp_sys_int c (Q : Z -> chan -> Prop) :
  (forall z zs, Q z (set_ints zs c)) -> ewp sys_int c Q.
Proof.
  intros HQ. unfold ewp, sys_int. destruct (ints c) as [|z zs] eqn:E; [|apply HQ].
  specialize (HQ (-1) []). by destruct c; cbn in *; subst.
Qed.

(** Received data fits the buffer, and taking a packet shortens the stream. *)
Lemma ewp_sys_recv len c (Q : pkt -> chan -> Prop) :
  (forall p ps, match p with PErr _ => True | PData _ bs => Zlen bs <= Z.max 0 len end ->
     (length ps <= length (pkts c))%nat ->
     (forall e, p = PErr e -> e <> EAGAIN -> (length ps < length (pkts c))%nat) ->
     (forall f bs, p = PData f bs -> (length ps < length (pkts c))%nat) ->
     Q p (set_pkts ps c)) ->
  ewp (sys_recv len) c Q.
Proof.
  intros HQ. unfold ewp, sys_recv. destruct (pkts c) as [|p ps] eqn:E.
  - specialize (HQ (PErr EAGAIN) []). destruct c; cbn in *; subst.
    apply HQ; [done|lia|by intros e [= <-]|done].
  - destruct p as [e|f bs].
    + apply HQ; [done|cbn; lia..|done].
    + apply HQ; [|cbn; lia|done|cbn; lia].
      unfold Zlen. rewrite length_take. lia.
Qed.

Lemma ewp_get_query q r c (Q : query -> chan -> Prop) :
  queries c !! q = Some r -> Q r c -> ewp (get_query q) c Q.
Proof. intros H HQ. unfold ewp, get_query. by rewrite H. Qed.

Lemma ewp_upd_query q f r c (Q : unit -> chan -> Prop) :
  queries c !! q = Some r -> Q () (set_queries (<[q := f r]> (queries c)) c) ->
  ewp (upd_query q f) c Q.
Proof. intros H HQ. unfold ewp, upd_query. by rewrite H. Qed.

Lemma ewp_get_server i s c (Q : server_state -> chan -> Prop) :
  servers c !! i = Some s -> Q s c -> ewp (get_server i) c Q.
Proof. intros H HQ. unfold ewp, get_server. by rewrite H. Qed.

Lemma ewp_upd_server i f s c (Q : unit -> chan -> Prop) :
  servers c !! i = Some s -> Q () (set_servers (<[i := f s]> (servers c)) c) ->
  ewp (upd_server i f) c Q.
Proof. intros H HQ. unfold ewp, upd_server. by rewrite H. Qed.

Lemma ewp_get_info r i x c (Q : query_server_info -> chan -> Prop) :
  server_info r !! i = Some x -> Q x c -> ewp (get_info r i) c Q.
Proof. intros H HQ. unfold get_info. rewrite H. by apply ewp_ret. Qed.

(** A loop over the servers keeps an invariant, indexed by the servers done. *)
Lemma ewp_for_servers {L} (body : nat -> L -> E (bool * L)) (l : L) c (I : nat -> chan -> Prop) :
  I 0%nat c ->
  (forall i l c', (i < nservers c)%nat -> I i c' ->
     ewp (body i l) c' (fun r c'' => I (if r.1 then S i else nservers c) c'')) ->
  ewp (for_servers body l) c (fun _ c' => I (nservers c) c').
Proof.
  intros Hc Hb. unfold for_servers. apply ewp_bind, ewp_gets.
  assert (Hle : (0 + nservers c = nservers c)%nat) by lia.
  revert Hle Hc. generalize (nservers c) at 1 3 as n, 0%nat as i. generalize c at 2 3 as d.
  intros d n; revert d l. induction n as [|n IH]; intros d l i Hi Hd; cbn [loop_servers].
  - apply ewp_ret. by rewrite <- Hi, Nat.add_0_r.
  - apply ewp_bind. eapply ewp_mono; [apply Hb; [lia|done]|].
    intros [[] l'] c' Hc'; cbn in *; [apply IH; [lia|done]|by apply ewp_ret].
Qed.

Ltac ewp_step :=
  cbv beta;
  lazymatch goal with
  | |- ewp (mbind _ _) _ _ => apply ewp_bind
  | |- ewp (mret _) _ _ => apply ewp_ret
  | |- ewp (gets _) _ _ => apply ewp_gets
  | |- ewp (modify _) _ _ => apply ewp_modify
  | |- ewp (emit _) _ _ => apply ewp_emit
  | |- ewp (lift _) _ _ => apply ewp_lift
  | |- ewp sys_int _ _ => apply ewp_sys_int; intros ? ?
  | |- ewp (get_query _) _ _ => eapply ewp_get_query; [eassumption|]
  | |- ewp (upd_query _ _) _ _ => eapply ewp_upd_query; [eassumption|]
  | |- ewp (get_server _) _ _ => eapply ewp_get_server; [eassumption|]
  | |- ewp (upd_server _ _) _ _ => eapply ewp_upd_server; [eassumption|]
  | |- ewp (get_info _ _) _ _ => eapply ewp_get_info; [eassumption|]
  end.

(** Destruct the boolean the next step depends on. *)
Ltac ewp_if :=
  lazymatch goal with
  | |- ewp (if ?b then _ else _) _ _ => let E := fresh "E" in destruct b eqn:E
  | |- ewp (match (if ?b then _ else _) with _ => _ end) _ _ =>
      let E := fresh "E" in destruct b eqn:E
  end.
