(* ===== verification/Resolver.v ===== *)
(** * The resolver engine (c-ares)

    Models src/Scylla-moon/seastar/c-ares/ares_process.c (time, sockets, the
    TCP send and receive queues, answers, timeouts, broken connections, the
    retry policy and the end of a query), ares__close_sockets.c, ares_send.c,
    ares_cancel.c, ares_timeout.c, ares_destroy.c and the part of ares_init.c
    that sets up the state of the servers, on the channel of Channel.v.

    The clock reading [now] of [ares__tvnow] is an argument. The application's
    callback is recorded in the trace; the calls it makes on the channel are
    further operations of a run. *)

From S2P Require Import Prelude DnsWire ParseHost CreateQuery Channel.
Open Scope Z_scope.

(** ** Constants *)

Definition ARES_SOCKET_BAD : Z := -1.
Definition ARES_QID_TABLE_SIZE : Z := 2048.
Definition ARES_TIMEOUT_TABLE_SIZE : Z := 1024.
Definition PACKETSZ : Z := 512.
Definition MAXENDSSZ : Z := 4096.
Definition FORMERR : Z := 1.
Definition SERVFAIL : Z := 2.
Definition NOTIMP : Z := 4.
Definition REFUSED : Z := 5.

(** The bits of [channel->flags]. *)
Definition ARES_FLAG_USEVC : Z := 0.
Definition ARES_FLAG_IGNTC : Z := 2.
Definition ARES_FLAG_STAYOPEN : Z := 4.
Definition ARES_FLAG_NOCHECKRESP : Z := 7.
Definition ARES_FLAG_EDNS : Z := 8.

Definition flag (bit : Z) : E bool := c ← gets flags; mret (Z.testbit c bit).

(** ** Time *)

Definition ares__timedout (now check : timeval) : bool :=
  let secs := tv_sec now - tv_sec check in
  if 0 <? secs then true
  else if secs <? 0 then false
  else 0 <=? tv_usec now - tv_usec check.

Definition timeadd (now : timeval) (millisecs : Z) : timeval :=
  let sec := tv_sec now + Z.quot millisecs 1000 in
  let usec := tv_usec now + Z.rem millisecs 1000 * 1000 in
  if 1000000 <=? usec then TV (sec + 1) (usec - 1000000) else TV sec usec.

Definition try_again (errnum : Z) : bool := errnum =? EAGAIN.

(** [int] shift and multiplication; overflow is undefined. *)
Definition int_shl (a k : Z) : M Z :=
  if (0 <=? a) && (k <? 32) && (a * 2 ^ k <=? INT_MAX) then mret (a * 2 ^ k) else undefined.

Definition int_mul (a b : Z) : M Z :=
  if (INT_MIN <=? a * b) && (a * b <=? INT_MAX) then mret (a * b) else undefined.

(** ** Lists of queries *)

(** [ares__remove_from_list]: the node leaves the list it is in, if any. *)
Definition without (q : Z) (l : list Z) : list Z := filter (fun x => x <> q) l.

Definition remove_by_qid (q : Z) : E unit :=
  modify (fun c => set_queries_by_qid (without q <$> queries_by_qid c) c).

Definition remove_by_timeout (q : Z) : E unit :=
  modify (fun c => set_queries_by_timeout (without q <$> queries_by_timeout c) c).

Definition remove_to_server (q : Z) : E unit :=
  modify (fun c =>
    set_stolen (without q (stolen c))
      (set_servers ((fun s => set_queries_to_server (without q (queries_to_server s)) s)
                      <$> servers c) c)).

Definition remove_all (q : Z) : E unit :=
  modify (fun c =>
    set_cancelled (without q (cancelled c)) (set_all_queries (without q (all_queries c)) c)).

(** [ares__insert_in_list] before the head of a bucket, that is at the end. The
    index is computed with [%]; a negative one is out of the table. *)
Definition insert_bucket (m : gmap Z (list Z)) (b q : Z) : gmap Z (list Z) :=
  <[b := bucket m b ++ [q]]> m.

Definition insert_by_qid (i q : Z) : E unit :=
  modify (fun c =>
    set_queries_by_qid (insert_bucket (queries_by_qid c) (Z.rem i ARES_QID_TABLE_SIZE) q) c).

Definition insert_by_timeout (sec q : Z) : E unit :=
  let b := Z.rem sec ARES_TIMEOUT_TABLE_SIZE in
  eassert (0 <=? b) ;;
  modify (fun c => set_queries_by_timeout (insert_bucket (queries_by_timeout c) b q) c).

Definition insert_to_server (i : nat) (q : Z) : E unit :=
  upd_server i (fun s => set_queries_to_server (queries_to_server s ++ [q]) s).

Definition insert_all (q : Z) : E unit :=
  modify (fun c => set_all_queries (all_queries c ++ [q]) c).

(** [list_node->next] of a node of the list: [Some None] is the head; a node
    that is not in the list is not to be followed. *)
Fixpoint node_next (l : list Z) (q : Z) : option (option Z) :=
  match l with
  | [] => None
  | x :: l' => if decide (x = q) then Some (head l') else node_next l' q
  end.

(** ** Closing sockets: ares__close_sockets.c *)

Definition ares__socket_close (s : Z) : E unit := emit (EvClose s).

(** [while (server->qhead)]: each request and its own copy of the data. *)
Fixpoint free_sendq (l : list send_request) : M unit :=
  match l with
  | [] => mret ()
  | sr :: l' => c_free_opt (data_storage sr) ;; c_free ;; free_sendq l'
  end.

Definition next_generation : E Z :=
  g ← gets tcp_connection_generation;
  modify (set_tcp_connection_generation (g + 1)) ;;
  mret (g + 1).

Definition ares__close_sockets (i : nat) : E unit :=
  s ← get_server i;
  lift (free_sendq (sendq s)) ;;
  upd_server i (set_sendq []) ;;
  lift (c_free_opt (tcp_buffer s)) ;;
  upd_server i (fun s => set_is_broken false (set_tcp_lenbuf_pos 0 (set_tcp_buffer None s))) ;;
  (if tcp_socket s =? ARES_SOCKET_BAD then mret ()
   else
     emit (EvSockState (tcp_socket s) 0 0) ;;
     ares__socket_close (tcp_socket s) ;;
     g ← next_generation;
     upd_server i (fun s => set_s_generation g (set_tcp_socket ARES_SOCKET_BAD s))) ;;
  if udp_socket s =? ARES_SOCKET_BAD then mret ()
  else
    emit (EvSockState (udp_socket s) 0 0) ;;
    ares__socket_close (udp_socket s) ;;
    upd_server i (set_udp_socket ARES_SOCKET_BAD).

(** [for (i...) ares__close_sockets(channel, &channel->servers[i])] *)
Definition close_all : E unit :=
  for_servers (fun i (_ : unit) => ares__close_sockets i ;; mret (true, ())) ().

(** The cleanup policy shared by [end_query] and [ares_cancel]. *)
Definition close_if_idle : E unit :=
  stay ← flag ARES_FLAG_STAYOPEN;
  l ← gets all_queries;
  if negb stay && (match l with [] => true | _ => false end) then close_all else mret ().

(** ** The end of a query *)

Definition ares__free_query (q : Z) : E unit :=
  remove_by_qid q ;; remove_by_timeout q ;; remove_to_server q ;; remove_all q ;;
  r ← get_query q;
  lift (c_free_opt (tcpbuf r)) ;;
  lift c_free ;;
  lift c_free ;;
  modify (fun c => set_queries (delete q (queries c)) c).

(** The body of the inner loop of [end_query]: the request afterwards and
    whether the connection is marked broken. *)
Definition end_sendreq (q : Z) (st : status) (sr : send_request) : E (send_request * bool) :=
  if decide (owner_query sr = Some q) then
    eassert (bool_decide (data_storage sr = None)) ;;
    if decide (st = ARES_SUCCESS) then
      ok ← lift c_malloc;
      if ok : bool then
        d ← deref (sr_data sr) (data_storage sr) (sr_len sr);
        mret (SendRequest (POwn 0) (sr_len sr) None (Some d), false)
      else mret (SendRequest PNull 0 None None, true)
    else mret (SendRequest PNull 0 None None, true)
  else mret (sr, false).

Fixpoint end_sendq (q : Z) (st : status) (l : list send_request)
    : E (list send_request * bool) :=
  match l with
  | [] => mret ([], false)
  | sr :: l' =>
      '(sr', b) ← end_sendreq q st sr;
      '(l'', b') ← end_sendq q st l';
      mret (sr' :: l'', b || b')
  end.

Definition end_server (q : Z) (st : status) (i : nat) : E unit :=
  s ← get_server i;
  '(l, broken) ← end_sendq q st (sendq s);
  upd_server i (fun s => set_is_broken (is_broken s || broken) (set_sendq l s)).

Definition end_query (q : Z) (st : status) (abuf : list Z) : E unit :=
  for_servers (fun i (_ : unit) => end_server q st i ;; mret (true, ())) () ;;
  r ← get_query q;
  emit (EvCallback (Some q) (q_arg r) st (timeouts r) abuf) ;;
  ares__free_query q ;;
  close_if_idle.

(** ** Opening sockets *)

(** [configure_socket]: the system calls it makes, in order. *)
Definition configure_socket (fam : family) : E bool :=
  k ← gets cfg;
  if sock_funcs k then mret true
  else
    _ ← sys_int; _ ← sys_int;                  (* setsocknonblock: two fcntl *)
    cloexec ← sys_int;
    if cloexec =? -1 then mret false
    else
      snd ← (if 0 <? socket_send_buffer_size k then sys_int else mret 0);
      if snd =? -1 then mret false
      else
        rcv ← (if 0 <? socket_receive_buffer_size k then sys_int else mret 0);
        if rcv =? -1 then mret false
        else
          _ ← (if hd 0 (local_dev_name k) =? 0 then mret 0 else sys_int);
          bnd ← (match fam with
                 | AF_INET => if local_ip4 k =? 0 then mret 0 else sys_int
                 | AF_INET6 => if decide (local_ip6 k = replicate 16 0) then mret 0 else sys_int
                 end);
          mret (0 <=? bnd).

(** [channel->sock_config_cb] and [channel->sock_create_cb]. *)
Definition call_cb (isset : bool) : E Z := if isset then sys_int else mret 0.

(** [aresx_sitous] of the port, network order as stored. *)
Definition aresx_sitous (v : Z) : Z := Z.land v 65535.

(** The part shared by [open_tcp_socket] and [open_udp_socket] from the family
    switch to the creation callback: the socket, or an error. *)
Definition open_conn (tcp : bool) (s : server_state) : E (Z + Z) :=
  k ← gets cfg;
  match a_family (s_addr s) with
  | None => mret (inl (-1))
  | Some fam =>
      let own := if tcp then a_tcp_port (s_addr s) else a_udp_port (s_addr s) in
      let default_port := if tcp then tcp_port k else udp_port k in
      let port := aresx_sitous (if own =? 0 then default_port else own) in
      fd ← sys_int;                            (* open_socket *)
      if fd =? ARES_SOCKET_BAD then mret (inl (-1))
      else
        ok ← configure_socket fam;
        if negb ok then ares__socket_close fd ;; mret (inl (-1))
        else
          nodelay ← (if tcp && negb (sock_funcs k) then sys_int else mret 0);
          if nodelay =? -1 then ares__socket_close fd ;; mret (inl (-1))
          else
            err ← call_cb (sock_config_cb k);
            if err <? 0 then ares__socket_close fd ;; mret (inl err)
            else
              emit (EvConnect fd fam (a_bytes (s_addr s)) port) ;;
              conn ← sys_int;                  (* connect_socket *)
              errno ← (if conn =? -1 then sys_int else mret EINPROGRESS);
              if negb (errno =? EINPROGRESS) && negb (errno =? EAGAIN)
              then ares__socket_close fd ;; mret (inl (-1))
              else
                err2 ← call_cb (sock_create_cb k);
                if err2 <? 0 then ares__socket_close fd ;; mret (inl err2)
                else
                  emit (EvSockState fd 1 0) ;;
                  mret (inr fd)
  end.

Definition open_tcp_socket (i : nat) : E Z :=
  s ← get_server i;
  r ← open_conn true s;
  match r with
  | inl e => mret e
  | inr fd =>
      upd_server i (fun s => set_tcp_socket fd (set_tcp_buffer_pos 0 s)) ;;
      g ← next_generation;
      upd_server i (set_s_generation g) ;;
      mret 0
  end.

Definition open_udp_socket (i : nat) : E Z :=
  s ← get_server i;
  r ← open_conn false s;
  match r with
  | inl e => mret e
  | inr fd => upd_server i (set_udp_socket fd) ;; mret 0
  end.

(** ** Sending a query and choosing the next server *)

Definition skip_server (q : Z) (whichserver : nat) : E unit :=
  n ← gets nservers;
  if (1 <? n)%nat
  then upd_info q whichserver (fun x => QSI true (qsi_generation x))
  else mret ().

(** The time-out of an attempt: exponential in the number of rounds over the
    servers, times a random factor between 9/16 and 1. *)
Definition attempt_timeout (timeout try_count : Z) (n : nat) (rand : Z) : M Z :=
  t ← int_shl timeout (Z.quot try_count (Z.of_nat n));
  t' ← int_mul t (9 + Z.land rand 7);
  mret (Z.quot t' 16).

(** The end of [ares__send_query]: set the time-out and file the query. *)
Definition arm_timeout (q : Z) (server : nat) (now : timeval) : E unit :=
  k ← gets cfg;
  n ← gets nservers;
  r ← get_query q;
  rnd ← sys_int;
  timeplus ← lift (attempt_timeout (cfg_timeout k) (try_count r) n rnd);
  let t := timeadd now timeplus in
  upd_query q (set_q_timeout t) ;;
  remove_by_timeout q ;;
  insert_by_timeout (tv_sec t) q ;;
  remove_to_server q ;;
  insert_to_server server q.

(** Queue the query on the TCP connection of its server. *)
Definition queue_tcp (q : Z) (r : query) : E unit :=
  s ← get_server (q_server r);
  (match sendq s with [] => emit (EvSockState (tcp_socket s) 1 1) | _ => mret () end) ;;
  upd_server (q_server r) (fun s => set_sendq
    (sendq s ++ [SendRequest (PQuery q (tcpblk r) 0) (tcplen r) (Some q) None]) s) ;;
  upd_info q (q_server r) (fun x => QSI (qsi_skip_server x) (s_generation s)) ;;
  emit (EvSent q (q_server r) true (default [] (tcpbuf r))).

(** [qbuf], the query without its TCP length. *)
Definition qbuf_bytes (r : query) : E (list Z) :=
  match tcpbuf r with
  | Some bs => if (0 <=? qlen r) && (2 + qlen r <=? Zlen bs)
               then mret (slice bs 2 (Z.to_nat (qlen r))) else eub
  | None => eub
  end.

(** What [ares__send_query] does before it files the query; [None] is success,
    [Some true] asks for the next server, [Some false] for the end of the query
    with [ARES_ENOMEM]. *)
Definition transmit (q : Z) : E (option bool) :=
  r ← get_query q;
  s ← get_server (q_server r);
  if using_tcp r then
    ok ← (if tcp_socket s =? ARES_SOCKET_BAD then open_tcp_socket (q_server r) else mret 0);
    if ok =? -1 then mret (Some true)
    else
      m ← lift c_malloc;
      if negb m then mret (Some false)
      else queue_tcp q r ;; mret None
  else
    ok ← (if udp_socket s =? ARES_SOCKET_BAD then open_udp_socket (q_server r) else mret 0);
    if ok =? -1 then mret (Some true)
    else
      bs ← qbuf_bytes r;
      w ← sys_int;                             (* socket_write *)
      if w =? -1 then mret (Some true)
      else emit (EvSent q (q_server r) false bs) ;; mret None.

Fixpoint ares__send_query (fuel : nat) (q : Z) (now : timeval) : E unit :=
  match fuel with
  | O => efuel
  | S fuel' =>
      r ← get_query q;
      t ← transmit q;
      match t with
      | None => arm_timeout q (q_server r) now
      | Some false => end_query q ARES_ENOMEM []
      | Some true => skip_server q (q_server r) ;; next_server fuel' q now
      end
  end
with next_server (fuel : nat) (q : Z) (now : timeval) : E unit :=
  match fuel with
  | O => efuel
  | S fuel' =>
      k ← gets cfg;
      n ← gets nservers;
      upd_query q (fun r => set_try_count (try_count r + 1) r) ;;
      r ← get_query q;
      if try_count r <? Z.of_nat n * tries k then
        let i := (S (q_server r) mod n)%nat in
        upd_query q (set_q_server i) ;;
        s ← get_server i;
        x ← get_info r i;
        if negb (is_broken s) && negb (qsi_skip_server x) &&
           negb (using_tcp r && (qsi_generation x =? s_generation s))
        then ares__send_query fuel' q now
        else next_server fuel' q now
      else end_query q (error_status r) []
  end.

(** Every attempt takes one step of each function and there are fewer than
    [nservers * tries] of them after the first. *)
Definition send_fuel (c : chan) : nat :=
  (2 * Z.to_nat (Z.of_nat (nservers c) * tries (cfg c)) + 4)%nat.

Definition send_query (q : Z) (now : timeval) : E unit :=
  f ← gets send_fuel; ares__send_query f q now.

Definition try_next_server (q : Z) (now : timeval) : E unit :=
  f ← gets send_fuel; next_server f q now.

(** ** Errors on a connection *)

(** The loop of [handle_error] over the stolen list; the successor is read
    before the query is moved on. *)
Fixpoint move_on (fuel : nat) (node : option Z) (whichserver : nat) (now : timeval) : E unit :=
  match node with
  | None => mret ()
  | Some q =>
      match fuel with
      | O => efuel
      | S fuel' =>
          l ← gets stolen;
          match node_next l q with
          | None => eub
          | Some next =>
              r ← get_query q;
              eassert (bool_decide (q_server r = whichserver)) ;;
              skip_server q whichserver ;;
              try_next_server q now ;;
              move_on fuel' next whichserver now
          end
      end
  end.

Definition handle_error (whichserver : nat) (now : timeval) : E unit :=
  ares__close_sockets whichserver ;;
  s ← get_server whichserver;
  modify (set_stolen (queries_to_server s)) ;;
  upd_server whichserver (set_queries_to_server []) ;;
  l ← gets stolen;
  move_on (length l) (head l) whichserver now ;;
  l' ← gets stolen;
  eassert (bool_decide (l' = [])).

Definition process_broken_connections (now : timeval) : E unit :=
  for_servers (fun i (_ : unit) =>
    s ← get_server i;
    (if is_broken s then handle_error i now else mret ()) ;;
    mret (true, ())) ().

(** ** Time-outs *)

(** The inner loop of [process_timeouts] over one bucket. *)
Fixpoint timeout_bucket (fuel : nat) (b : Z) (node : option Z) (now : timeval) : E unit :=
  match node with
  | None => mret ()
  | Some q =>
      match fuel with
      | O => efuel
      | S fuel' =>
          m ← gets queries_by_timeout;
          match node_next (bucket m b) q with
          | None => eub
          | Some next =>
              r ← get_query q;
              (if negb (tv_sec (q_timeout r) =? 0) && ares__timedout now (q_timeout r) then
                 upd_query q (fun r => set_timeouts (timeouts r + 1)
                                         (set_error_status ARES_ETIMEOUT r)) ;;
                 try_next_server q now
               else mret ()) ;;
              timeout_bucket fuel' b next now
          end
      end
  end.

(** [for (t = last_timeout_processed; t <= now->tv_sec; t++)], [n] times. *)
Fixpoint timeout_seconds (n : nat) (t : Z) (now : timeval) : E unit :=
  match n with
  | O => mret ()
  | S n' =>
      let b := Z.rem t ARES_TIMEOUT_TABLE_SIZE in
      eassert (0 <=? b) ;;
      m ← gets queries_by_timeout;
      timeout_bucket (2 * length (bucket m b)) b (head (bucket m b)) now ;;
      timeout_seconds n' (t + 1) now
  end.

Definition process_timeouts (now : timeval) : E unit :=
  t ← gets last_timeout_processed;
  timeout_seconds (Z.to_nat (tv_sec now - t + 1)) t now ;;
  modify (set_last_timeout_processed (tv_sec now)).

(** ** Matching an answer with its query *)

Definition DNS_QUESTION_TYPE (buf : list Z) (p : Z) : M Z := DNS__16BIT buf p.
Definition DNS_QUESTION_CLASS (buf : list Z) (p : Z) : M Z := DNS__16BIT buf (p + 2).

(** The inner loop of [same_questions]: look for a question among the [n]
    questions of the answer from offset [p]. [None] is [return 0], which
    releases the name of the query's question. *)
Fixpoint find_question (abuf : list Z) (n : nat) (p : Z) (qname : list Z) (qtype qclass : Z)
    : M (option bool) :=
  match n with
  | O => mret (Some false)
  | S n' =>
      r ← ares_expand_name abuf p;
      match r with
      | inl _ => c_free ;; mret None
      | inr (aname, k) =>
          let p' := p + k in
          if Zlen abuf <? p' + QFIXEDSZ then c_free ;; c_free ;; mret None
          else
            atype ← DNS_QUESTION_TYPE abuf p';
            aclass ← DNS_QUESTION_CLASS abuf p';
            c_free ;;
            if (ares_strcasecmp qname aname =? 0) && (qtype =? atype) && (qclass =? aclass)
            then mret (Some true)
            else find_question abuf n' (p' + QFIXEDSZ) qname qtype qclass
      end
  end.

(** The outer loop, over the questions of the query from offset [p]. *)
Fixpoint match_questions (qbuf abuf : list Z) (qdcount : nat) (n : nat) (p : Z) : M bool :=
  match n with
  | O => mret true
  | S n' =>
      r ← ares_expand_name qbuf p;
      match r with
      | inl _ => mret false
      | inr (qname, k) =>
          let p' := p + k in
          if Zlen qbuf <? p' + QFIXEDSZ then c_free ;; mret false
          else
            qtype ← DNS_QUESTION_TYPE qbuf p';
            qclass ← DNS_QUESTION_CLASS qbuf p';
            f ← find_question abuf qdcount HFIXEDSZ qname qtype qclass;
            match f with
            | None => mret false
            | Some found =>
                c_free ;;
                if found : bool then match_questions qbuf abuf qdcount n' (p' + QFIXEDSZ)
                else mret false
            end
      end
  end.

Definition same_questions (qbuf abuf : list Z) : M bool :=
  if (Zlen qbuf <? HFIXEDSZ) || (Zlen abuf <? HFIXEDSZ) then mret false
  else
    qn ← DNS_HEADER_QDCOUNT qbuf;
    an ← DNS_HEADER_QDCOUNT abuf;
    if negb (qn =? an) then mret false
    else match_questions qbuf abuf (Z.to_nat an) (Z.to_nat qn) HFIXEDSZ.

(** [memcmp] of the address bytes of the family. *)
Definition same_address (sa : option family * list Z) (aa : ares_addr) : bool :=
  if decide (sa.1 = a_family aa) then
    match a_family aa with
    | Some AF_INET => bool_decide (take 4 (a_bytes aa) = take 4 sa.2)
    | Some AF_INET6 => bool_decide (take 16 (a_bytes aa) = take 16 sa.2)
    | None => false
    end
  else false.

(** The search of [process_answer] through a bucket of queries. A query
    shorter than a header never matches, whatever its buffer. *)
Fixpoint find_query (id : Z) (abuf : list Z) (l : list Z) : E (option Z) :=
  match l with
  | [] => mret None
  | q :: l' =>
      r ← get_query q;
      same ← (if negb (qid r =? id) || (qlen r <? HFIXEDSZ) then mret false
              else qb ← qbuf_bytes r; lift (same_questions qb abuf));
      if same : bool then mret (Some q) else find_query id abuf l'
  end.

Definition DNS_HEADER_TC (buf : list Z) : M bool := b ← get_byte buf 2; mret (Z.testbit b 1).
Definition DNS_HEADER_RCODE (buf : list Z) : M Z := b ← get_byte buf 3; mret (Z.land b 15).

(** The retry without EDNS: shorten the query by the OPT record, fix the TCP
    length and the additional count, and reallocate the buffer, which gives
    it a new identity. *)
Definition drop_edns (q : Z) : E unit :=
  r ← get_query q;
  let l := (tcplen r - 2) - EDNSFIXEDSZ in
  modify (fun c => set_flags (Z.lxor (flags c) (2 ^ ARES_FLAG_EDNS)) c) ;;
  match tcpbuf r with
  | None => eub
  | Some bs =>
      eassert (14 <=? Zlen bs) ;;
      let bs' := <[0%nat := Z.land (Z.shiftr l 8) 255]> (<[1%nat := Z.land l 255]>
                   (<[12%nat := 0]> (<[13%nat := 0]> bs))) in
      let len' := tcplen r - EDNSFIXEDSZ in
      ok ← lift c_realloc;
      upd_query q (fun r =>
        set_tcpbuf (if ok : bool then Some (take (Z.to_nat len') bs') else None)
          (set_tcpblk (tcpblk r + 1) (set_tcplen len' (set_qlen (qlen r - EDNSFIXEDSZ) r))))
  end.

Definition process_answer (abuf : list Z) (whichserver : nat) (tcp : bool) (now : timeval)
    : E unit :=
  if Zlen abuf <? HFIXEDSZ then mret ()
  else
    id ← lift (DNS_HEADER_QID abuf);
    tc ← lift (DNS_HEADER_TC abuf);
    rcode ← lift (DNS_HEADER_RCODE abuf);
    m ← gets queries_by_qid;
    found ← find_query id abuf (bucket m (Z.rem id ARES_QID_TABLE_SIZE));
    match found with
    | None => mret ()
    | Some q =>
        k ← gets cfg;
        edns ← flag ARES_FLAG_EDNS;
        let packetsz := if edns : bool then ednspsz k else PACKETSZ in
        if edns && ((rcode =? NOTIMP) || (rcode =? FORMERR) || (rcode =? SERVFAIL)) then
          drop_edns q ;;
          send_query q now
        else
          igntc ← flag ARES_FLAG_IGNTC;
          if (tc || (packetsz <? Zlen abuf)) && negb tcp && negb igntc then
            r ← get_query q;
            if using_tcp r then mret ()
            else upd_query q (set_using_tcp true) ;; send_query q now
          else
            let abuf' := if (packetsz <? Zlen abuf) && negb tcp
                         then take (Z.to_nat packetsz) abuf else abuf in
            nocheck ← flag ARES_FLAG_NOCHECKRESP;
            if negb nocheck &&
               ((rcode =? SERVFAIL) || (rcode =? NOTIMP) || (rcode =? REFUSED)) then
              skip_server q whichserver ;;
              r ← get_query q;
              if decide (q_server r = whichserver) then try_next_server q now else mret ()
            else end_query q ARES_SUCCESS abuf'
    end.

(** ** The TCP send queue *)

(** Consume [num_bytes] from the head of the queue of server [i]. *)
Fixpoint advance_queue (l : list send_request) (num_bytes : Z) : M (list send_request) :=
  match l with
  | [] => undefined
  | sr :: l' =>
      if sr_len sr <=? num_bytes then
        c_free_opt (data_storage sr) ;; c_free ;;
        match l' with
        | [] => mret []
        | _ => if 0 <? num_bytes - sr_len sr then advance_queue l' (num_bytes - sr_len sr)
               else mret l'
        end
      else
        let move p := match p with
                      | PNull => PNull
                      | PQuery q b off => PQuery q b (off + num_bytes)
                      | POwn off => POwn (off + num_bytes)
                      end in
        mret (SendRequest (move (sr_data sr)) (sr_len sr - num_bytes) (owner_query sr)
                          (data_storage sr) :: l')
  end.

Definition advance_tcp_send_queue (whichserver : nat) (num_bytes : Z) : E unit :=
  if num_bytes <=? 0 then mret ()
  else
    s ← get_server whichserver;
    l ← lift (advance_queue (sendq s) num_bytes);
    (match l with [] => emit (EvSockState (tcp_socket s) 1 0) | _ => mret () end) ;;
    upd_server whichserver (set_sendq l).

(** The bytes the io vectors point to. *)
Fixpoint gather (l : list send_request) : E (list Z) :=
  match l with
  | [] => mret []
  | sr :: l' =>
      d ← deref (sr_data sr) (data_storage sr) (sr_len sr);
      ds ← gather l';
      mret (d ++ ds)
  end.

(** ** Descriptors

    [fd_set *] and a single descriptor: the set, [None] for NULL, and the
    descriptor. *)

Definition selected (fds : option (list Z)) (fd : Z) (sock : Z) : bool :=
  match fds with
  | Some l => bool_decide (sock ∈ l)
  | None => sock =? fd
  end.

(** [if (fds) FD_CLR(sock, fds)] *)
Definition fd_clr (fds : option (list Z)) (sock : Z) : option (list Z) :=
  without sock <$> fds.

Definition no_action (fds : option (list Z)) (fd : Z) : bool :=
  bool_decide (fds = None) && (fd =? ARES_SOCKET_BAD).

(** The outcome of a send of [bs]: errors go to [handle_error]. *)
Definition sent (i : nat) (sock : Z) (bs : list Z) (now : timeval) : E unit :=
  count ← sys_int;
  if count <? 0 then
    errno ← sys_int;
    if try_again errno then mret () else handle_error i now
  else
    emit (EvWrite sock (take (Z.to_nat count) bs)) ;;
    advance_tcp_send_queue i count.

Definition write_server (fd : Z) (now : timeval) (i : nat) (fds : option (list Z))
    : E (bool * option (list Z)) :=
  s ← get_server i;
  match sendq s with
  | [] => mret (true, fds)
  | sr :: _ =>
      if (tcp_socket s =? ARES_SOCKET_BAD) || is_broken s ||
         negb (selected fds fd (tcp_socket s))
      then mret (true, fds)
      else
        vec ← lift c_malloc;
        (if vec : bool then
           bs ← gather (sendq s);
           lift c_free ;;
           sent i (tcp_socket s) bs now
         else
           bs ← deref (sr_data sr) (data_storage sr) (sr_len sr);
           sent i (tcp_socket s) bs now) ;;
        mret (true, fd_clr fds (tcp_socket s))
  end.

Definition write_tcp_data (write_fds : option (list Z)) (write_fd : Z) (now : timeval) : E unit :=
  if no_action write_fds write_fd then mret ()
  else for_servers (write_server write_fd now) write_fds.

(** ** Receiving *)

(** A read of [bs] to offset [pos] of a buffer. *)
Definition store_at (buf : list Z) (pos : Z) (bs : list Z) : list Z :=
  take (Z.to_nat pos) buf ++ bs ++ drop (Z.to_nat pos + length bs) buf.

(** [if (count <= 0)]: whether the read gave data; errors other than a
    would-block close the connection. *)
Definition tcp_recv (i : nat) (len : Z) (now : timeval) : E (option (list Z)) :=
  p ← sys_recv len;
  match p with
  | PErr e => (if try_again e then mret () else handle_error i now) ;; mret None
  | PData _ [] => handle_error i now ;; mret None
  | PData _ bs => mret (Some bs)
  end.

(** Reading the two bytes of the length word; [false] is the early return
    when the buffer cannot be allocated. *)
Definition read_length (i : nat) (s : server_state) (now : timeval) : E bool :=
  d ← tcp_recv i (2 - tcp_lenbuf_pos s) now;
  match d with
  | None => mret true
  | Some bs =>
      let lenbuf := store_at (tcp_lenbuf s) (tcp_lenbuf_pos s) bs in
      let pos := tcp_lenbuf_pos s + Zlen bs in
      upd_server i (fun s => set_tcp_lenbuf_pos pos (set_tcp_lenbuf lenbuf s)) ;;
      if pos =? 2 then
        b0 ← lift (get_byte lenbuf 0);
        b1 ← lift (get_byte lenbuf 1);
        let len := Z.lor (Z.shiftl b0 8) b1 in
        upd_server i (set_tcp_length len) ;;
        m ← lift c_malloc;
        if m : bool then
          upd_server i (fun s => set_tcp_buffer_pos 0
            (set_tcp_buffer (Some (replicate (Z.to_nat len) 0)) s)) ;;
          mret true
        else
          upd_server i (set_tcp_buffer None) ;;
          handle_error i now ;;
          mret false
      else mret true
  end.

(** Reading the message. *)
Definition read_body (i : nat) (s : server_state) (now : timeval) : E unit :=
  d ← tcp_recv i (tcp_length s - tcp_buffer_pos s) now;
  match d with
  | None => mret ()
  | Some bs =>
      match tcp_buffer s with
      | None => eub
      | Some buf =>
          eassert ((0 <=? tcp_buffer_pos s) && (tcp_buffer_pos s + Zlen bs <=? Zlen buf)) ;;
          let buf' := store_at buf (tcp_buffer_pos s) bs in
          let pos := tcp_buffer_pos s + Zlen bs in
          upd_server i (fun s => set_tcp_buffer_pos pos (set_tcp_buffer (Some buf') s)) ;;
          if pos =? tcp_length s then
            process_answer buf' i true now ;;
            s' ← get_server i;
            lift (c_free_opt (tcp_buffer s')) ;;
            upd_server i (fun s => set_tcp_buffer_pos 0 (set_tcp_lenbuf_pos 0
                                     (set_tcp_buffer None s)))
          else mret ()
      end
  end.

Definition read_server (fd : Z) (now : timeval) (i : nat) (fds : option (list Z))
    : E (bool * option (list Z)) :=
  s ← get_server i;
  if (tcp_socket s =? ARES_SOCKET_BAD) || is_broken s || negb (selected fds fd (tcp_socket s))
  then mret (true, fds)
  else
    go ← (if negb (tcp_lenbuf_pos s =? 2) then read_length i s now
          else read_body i s now ;; mret true);
    mret (go, fd_clr fds (tcp_socket s)).

Definition read_tcp_data (read_fds : option (list Z)) (read_fd : Z) (now : timeval) : E unit :=
  if no_action read_fds read_fd then mret ()
  else for_servers (read_server read_fd now) read_fds.

(** The [do ... while (count > 0)] of [read_udp_packets]. *)
Fixpoint udp_packets (fuel : nat) (i : nat) (now : timeval) : E unit :=
  match fuel with
  | O => efuel
  | S fuel' =>
      s ← get_server i;
      p ← (if udp_socket s =? ARES_SOCKET_BAD then mret (PData (None, []) [])
           else sys_recv (MAXENDSSZ + 1));
      match p with
      | PErr e => if try_again e then mret () else handle_error i now
      | PData _ [] => handle_error i now
      | PData from bs =>
          if negb (same_address from (s_addr s)) then mret ()
          else process_answer bs i false now ;; udp_packets fuel' i now
      end
  end.

Definition udp_server (fd : Z) (now : timeval) (i : nat) (fds : option (list Z))
    : E (bool * option (list Z)) :=
  s ← get_server i;
  if (udp_socket s =? ARES_SOCKET_BAD) || is_broken s || negb (selected fds fd (udp_socket s))
  then mret (true, fds)
  else
    l ← gets pkts;
    udp_packets (S (S (length l))) i now ;;
    mret (true, fd_clr fds (udp_socket s)).

Definition read_udp_packets (read_fds : option (list Z)) (read_fd : Z) (now : timeval) : E unit :=
  if no_action read_fds read_fd then mret ()
  else for_servers (udp_server read_fd now) read_fds.

(** ** The entry points *)

Definition processfds (read_fds : option (list Z)) (read_fd : Z)
    (write_fds : option (list Z)) (write_fd : Z) (now : timeval) : E unit :=
  write_tcp_data write_fds write_fd now ;;
  read_tcp_data read_fds read_fd now ;;
  read_udp_packets read_fds read_fd now ;;
  process_timeouts now ;;
  process_broken_connections now.

Definition ares_process (read_fds write_fds : option (list Z)) (now : timeval) : E unit :=
  processfds read_fds ARES_SOCKET_BAD write_fds ARES_SOCKET_BAD now.

Definition ares_process_fd (read_fd write_fd : Z) (now : timeval) : E unit :=
  processfds None read_fd None write_fd now.

(** [callback(arg, status, 0, NULL, 0)] for a query that was not created. *)
Definition fail_send (arg : Z) (st : status) : E unit := emit (EvCallback None arg st 0 []).

(** The query [ares_send] fills in. *)
Definition new_query (qb : list Z) (qid arg : Z) (server n : nat) (tcp : bool) : query :=
  Query qid (TV 0 0)
    (Some (Z.land (Z.shiftr (Zlen qb) 8) 255 :: Z.land (Zlen qb) 255 :: qb)) 0
    (Zlen qb + 2) (Zlen qb) arg 0 server (replicate n (QSI false 0)) tcp ARES_ECONNREFUSED 0.

Definition ares_send (qb : list Z) (arg : Z) (now : timeval) : E unit :=
  if (Zlen qb <? HFIXEDSZ) || (65536 <=? Zlen qb) then fail_send arg ARES_EBADQUERY
  else
    ok1 ← lift c_malloc;
    if negb ok1 then fail_send arg ARES_ENOMEM
    else
      ok2 ← lift c_malloc;
      if negb ok2 then lift c_free ;; fail_send arg ARES_ENOMEM
      else
        ok3 ← lift c_malloc;
        if negb ok3 then lift c_free ;; lift c_free ;; fail_send arg ARES_ENOMEM
        else
          id ← lift (DNS_HEADER_QID qb);
          k ← gets cfg;
          n ← gets nservers;
          last ← gets last_server;
          (if rotate k then
             eassert (negb (n =? 0)%nat) ;; modify (set_last_server (S last mod n)%nat)
           else mret ()) ;;
          edns ← flag ARES_FLAG_EDNS;
          usevc ← flag ARES_FLAG_USEVC;
          let packetsz := if edns : bool then ednspsz k else PACKETSZ in
          q ← gets next_addr;
          modify (set_next_addr (q + 1)) ;;
          modify (fun c => set_queries
            (<[q := new_query qb id arg last n (usevc || (packetsz <? Zlen qb))]> (queries c)) c) ;;
          insert_all q ;;
          insert_by_qid id q ;;
          send_query q now.

(** The loop of [ares_cancel] over the queries present on entry. *)
Fixpoint cancel_loop (fuel : nat) (node : option Z) : E unit :=
  match node with
  | None => mret ()
  | Some q =>
      match fuel with
      | O => efuel
      | S fuel' =>
          l ← gets cancelled;
          match node_next l q with
          | None => eub
          | Some next =>
              r ← get_query q;
              emit (EvCallback (Some q) (q_arg r) ARES_ECANCELLED 0 []) ;;
              ares__free_query q ;;
              cancel_loop fuel' next
          end
      end
  end.

Definition ares_cancel : E unit :=
  l ← gets all_queries;
  (match l with
   | [] => mret ()
   | _ =>
       modify (fun c => set_cancelled l (set_all_queries [] c)) ;;
       cancel_loop (length l) (head l)
   end) ;;
  close_if_idle.

(** ** The next time-out: ares_timeout.c *)

Definition timeoffset (now check : timeval) : Z :=
  (tv_sec check - tv_sec now) * 1000 + Z.quot (tv_usec check - tv_usec now) 1000.

(** The loop over [all_queries]; [-1] is no time-out yet. *)
Fixpoint min_timeout (now : timeval) (l : list Z) (min_offset : Z) : E Z :=
  match l with
  | [] => mret min_offset
  | q :: l' =>
      r ← get_query q;
      if tv_sec (q_timeout r) =? 0 then min_timeout now l' min_offset
      else
        let offset := timeoffset now (q_timeout r) in
        let offset := if offset <? 0 then 0 else offset in
        min_timeout now l'
          (if (min_offset =? -1) || (offset <? min_offset) then offset else min_offset)
  end.

Definition ares_timeout (maxtv : option timeval) (now : timeval) : E (option timeval) :=
  l ← gets all_queries;
  match l with
  | [] => mret maxtv
  | _ =>
      min_offset ← min_timeout now l (-1);
      if min_offset =? -1 then mret maxtv
      else
        let ioffset := if INT_MAX <? min_offset then INT_MAX else min_offset in
        let nextstop := TV (Z.quot ioffset 1000) (Z.rem ioffset 1000 * 1000) in
        match maxtv with
        | None => mret (Some nextstop)
        | Some m => if ares__timedout m nextstop then mret (Some nextstop) else mret maxtv
        end
  end.

(** ** Creating and destroying a channel *)

(** [ares__init_servers_state]: the servers from the generation [g] on. *)
Fixpoint ares__init_servers_state (g : Z) (addrs : list ares_addr) : list server_state :=
  match addrs with
  | [] => []
  | a :: addrs' =>
      ServerState a ARES_SOCKET_BAD ARES_SOCKET_BAD [0; 0] 0 0 None 0 [] (g + 1) [] false
        :: ares__init_servers_state (g + 1) addrs'
  end.

(** The engine's part of [ares_init_options], at clock reading [now]: the
    configuration, the server addresses and the flags are those the option and
    configuration sources gave. *)
Definition init_channel (k : config) (fl : Z) (addrs : list ares_addr) (now : timeval)
    (h : heap) (zs : list Z) (ps : list pkt) : chan :=
  Chan k fl (ares__init_servers_state 0 addrs) (Zlen addrs) (tv_sec now) 0
    [] [] ∅ ∅ [] ∅ 1 h zs ps [].

(** The loop of [ares_destroy] over the queries. *)
Fixpoint destroy_loop (fuel : nat) (node : option Z) : E unit :=
  match node with
  | None => mret ()
  | Some q =>
      match fuel with
      | O => efuel
      | S fuel' =>
          l ← gets all_queries;
          match node_next l q with
          | None => eub
          | Some next =>
              r ← get_query q;
              emit (EvCallback (Some q) (q_arg r) ARES_EDESTRUCTION 0 []) ;;
              ares__free_query q ;;
              destroy_loop fuel' next
          end
      end
  end.

(** [assert(ares__is_list_empty(...))] for every bucket of a table. *)
Definition table_empty (m : gmap Z (list Z)) : bool :=
  forallb (fun x => match x.2 with [] => true | _ => false end) (map_to_list m).

(** The channel stays in the model with its servers; the block of the servers
    belongs to the configuration. *)
Definition ares__destroy_servers_state : E unit :=
  for_servers (fun i (_ : unit) =>
    ares__close_sockets i ;;
    s ← get_server i;
    eassert (bool_decide (queries_to_server s = [])) ;;
    mret (true, ())) ().

(** [ares_destroy] up to [ares__destroy_servers_state]; the blocks of the
    configuration are released after it. *)
Definition ares_destroy : E unit :=
  l ← gets all_queries;
  destroy_loop (length l) (head l) ;;
  l' ← gets all_queries;
  eassert (bool_decide (l' = [])) ;;
  m ← gets queries_by_qid;
  eassert (table_empty m) ;;
  m' ← gets queries_by_timeout;
  eassert (table_empty m') ;;
  ares__destroy_servers_state.
