(* ===== verification/ResolverInv.v ===== *)
(** * The invariant of the resolver engine (c-ares)

    What every operation of Resolver.v keeps: the four kinds of query lists
    agree with the store of live queries, the send queues and receive buffers
    own what they point to, every allocated block is accounted for, and every
    query issued is either live or has been called back once. *)

From S2P Require Import Prelude DnsWire ParseHost CreateQuery Channel Resolver.
Open Scope Z_scope.

(** ** What the trace says *)

Definition ended_of (e : event) : option Z :=
  match e with EvCallback q _ _ _ _ => q | _ => None end.

(** The queries whose callback was invoked, newest first. *)
Definition ended (t : list event) : list Z := omap ended_of t.

Definition sent_of (q : Z) (e : event) : Z :=
  match e with EvSent q' _ _ _ => if decide (q' = q) then 1 else 0 | _ => 0 end.

(** How often a query was handed to a socket or queued on a connection. *)
Fixpoint sends (t : list event) (q : Z) : Z :=
  match t with [] => 0 | e :: t' => sent_of q e + sends t' q end.

(** ** Blocks owned by the servers *)

Definition sr_blocks (sr : send_request) : Z := 1 + blocks_opt (data_storage sr).

Fixpoint sendq_blocks (l : list send_request) : Z :=
  match l with [] => 0 | sr :: l' => sr_blocks sr + sendq_blocks l' end.

Definition server_blocks (s : server_state) : Z :=
  sendq_blocks (sendq s) + blocks_opt (tcp_buffer s).

Fixpoint blocks (l : list server_state) : Z :=
  match l with [] => 0 | s :: l' => server_blocks s + blocks l' end.

(** ** The parts of the invariant *)

(** The configuration: at least one server and one try, and time-outs that do
    not overflow an [int] and are never 0. *)
Record config_ok (k : config) (n : nat) : Prop := {
  co_servers : (1 <= n)%nat;
  co_tries : 1 <= tries k <= 31;
  co_timeout : 2 <= cfg_timeout k;
  co_overflow : cfg_timeout k * 2 ^ (tries k - 1) * 16 <= INT_MAX }.

Record query_ok (n : nat) (r : query) : Prop := {
  qo_buf : exists bs, tcpbuf r = Some bs /\ Zlen bs = tcplen r;
  qo_tcplen : tcplen r = qlen r + 2;
  qo_qlen : HFIXEDSZ <= qlen r <= 32767;
  qo_server : (q_server r < n)%nat;
  qo_info : length (server_info r) = n;
  qo_try : 0 <= try_count r }.

(** A queued request points into its live query's buffer or into its own copy,
    or its connection is marked broken. *)
Definition req_ok (qs : gmap Z query) (broken : bool) (sr : send_request) : Prop :=
  0 <= sr_len sr /\
  match owner_query sr with
  | Some q => data_storage sr = None /\ exists r off, qs !! q = Some r /\
      sr_data sr = PQuery q (tcpblk r) off /\ 0 <= off /\ off + sr_len sr = tcplen r
  | None =>
      match data_storage sr with
      | Some bs => exists off, sr_data sr = POwn off /\ 0 <= off /\ off + sr_len sr = Zlen bs
      | None => broken = true /\ sr_data sr = PNull /\ sr_len sr = 0
      end
  end.

Record recv_ok (s : server_state) : Prop := {
  ro_lenbuf : length (tcp_lenbuf s) = 2%nat;
  ro_pos : 0 <= tcp_lenbuf_pos s <= 2;
  ro_buffer : if tcp_lenbuf_pos s =? 2
              then exists buf, tcp_buffer s = Some buf /\ Zlen buf = tcp_length s /\
                     0 <= tcp_buffer_pos s <= tcp_length s
              else tcp_buffer s = None }.

Definition sendqs_ok (c : chan) : Prop :=
  forall i s, servers c !! i = Some s -> Forall (req_ok (queries c) (is_broken s)) (sendq s).

Definition recvs_ok (c : chan) : Prop :=
  forall i s, servers c !! i = Some s -> recv_ok s.

(** A table of lists indexes the live queries by [key]; the query [X] in hand
    is exempt. *)
Definition table_ok (qs : gmap Z query) (X : option Z) (key : query -> Z)
    (m : gmap Z (list Z)) : Prop :=
  forall b, NoDup (bucket m b) /\ (forall q, q ∈ bucket m b -> is_Some (qs !! q)) /\
    forall q r, qs !! q = Some r -> Some q <> X -> q ∈ bucket m b <-> key r = b.

Definition qid_key (r : query) : Z := Z.rem (qid r) ARES_QID_TABLE_SIZE.
Definition timeout_key (r : query) : Z := Z.rem (tv_sec (q_timeout r)) ARES_TIMEOUT_TABLE_SIZE.

(** The lists of queries by server, with the list stolen from server [W]. *)
Record by_server_ok (qs : gmap Z query) (W : nat) (X : option Z) (l : list (list Z))
    (st : list Z) : Prop := {
  bs_nodup : forall i ql, l !! i = Some ql -> NoDup ql;
  bs_live : forall i ql q, l !! i = Some ql -> q ∈ ql -> is_Some (qs !! q);
  bs_iff : forall i ql q r, l !! i = Some ql -> qs !! q = Some r -> Some q <> X ->
    q ∈ ql <-> q_server r = i /\ q ∉ st;
  bs_stolen : NoDup st;
  bs_stolen_live : forall q, q ∈ st -> exists r, qs !! q = Some r /\
    (Some q <> X -> q_server r = W) }.

Record sends_ok (qs : gmap Z query) (X : option Z) (n : nat) (k : config) (next : Z)
    (t : list event) : Prop := {
  so_fresh : forall q, next <= q -> sends t q = 0;
  so_all : forall q, sends t q <= Z.of_nat n * tries k + 1;
  so_live : forall q r, qs !! q = Some r ->
    sends t q <= try_count r + (if using_tcp r then 1 else 0) + (if decide (Some q = X) then 0 else 1) }.

(** The invariant, apart from the contents of send queues and receive buffers.
    [X] is the query in hand: it is not filed under its time-out and server. The
    clock has passed its first second: a time-out at second 0 means none. *)
Record core (base : Z) (W : nat) (X : option Z) (c : chan) : Prop := {
  c_config : config_ok (cfg c) (nservers c);
  c_last : (last_server c < nservers c)%nat /\ 1 <= last_timeout_processed c;
  c_edns : Z.testbit (flags c) ARES_FLAG_EDNS = false;
  c_nodup : NoDup (all_queries c ++ cancelled c);
  c_live : forall q, q ∈ all_queries c ++ cancelled c <-> is_Some (queries c !! q);
  c_query : map_Forall (fun _ r => query_ok (nservers c) r) (queries c);
  c_filed : forall q r, queries c !! q = Some r -> Some q <> X ->
    try_count r < Z.of_nat (nservers c) * tries (cfg c) /\
    last_timeout_processed c <= tv_sec (q_timeout r);
  c_qid : table_ok (queries c) None qid_key (queries_by_qid c);
  c_timeout : table_ok (queries c) X timeout_key (queries_by_timeout c);
  c_server : by_server_ok (queries c) W X (queries_to_server <$> servers c) (stolen c);
  c_mem : 0 <= base /\
    live (mem c) = base + 3 * Zlen (all_queries c ++ cancelled c) + blocks (servers c);
  c_issued : 1 <= next_addr c /\
    ended (trace c) ++ all_queries c ++ cancelled c ≡ₚ seqZ 1 (next_addr c - 1);
  c_sends : sends_ok (queries c) X (nservers c) (cfg c) (next_addr c) (trace c) }.

Definition inv (base : Z) (W : nat) (X : option Z) (c : chan) : Prop :=
  core base W X c /\ sendqs_ok c /\ recvs_ok c.

(** ** Steps that only concern a server

    [sframe d c c']: nothing the invariant's core looks at has changed, except
    for blocks that moved between the allocator and the servers; [d] blocks
    were allocated and belong to no server. *)
Record sframe (d : Z) (c c' : chan) : Prop := {
  f_cfg : cfg c' = cfg c;
  f_flags : flags c' = flags c;
  f_last_timeout : last_timeout_processed c' = last_timeout_processed c;
  f_last_server : last_server c' = last_server c;
  f_all : all_queries c' = all_queries c;
  f_cancelled : cancelled c' = cancelled c;
  f_qid : queries_by_qid c' = queries_by_qid c;
  f_timeout : queries_by_timeout c' = queries_by_timeout c;
  f_stolen : stolen c' = stolen c;
  f_queries : queries c' = queries c;
  f_next : next_addr c' = next_addr c;
  f_pkts : pkts c' = pkts c;
  f_ended : ended (trace c') = ended (trace c);
  f_sends : forall q, sends (trace c') q = sends (trace c) q;
  f_servers : queries_to_server <$> servers c' = queries_to_server <$> servers c;
  f_mem : live (mem c') - blocks (servers c') = live (mem c) - blocks (servers c) + d }.

Lemma sframe_refl c : sframe 0 c c.
Proof. constructor; try done. lia. Qed.

Lemma sframe_trans d d' c c' c'' : sframe d c c' -> sframe d' c' c'' -> sframe (d + d') c c''.
Proof.
  intros [] []. constructor; try (etransitivity; eauto; fail). lia.
Qed.

Lemma sframe_nservers d c c' : sframe d c c' -> nservers c' = nservers c.
Proof.
  intros H. unfold nservers. rewrite <- (length_fmap queries_to_server), (f_servers _ _ _ H).
  by rewrite length_fmap.
Qed.

Lemma core_sframe base W X c c' : core base W X c -> sframe 0 c c' -> core base W X c'.
Proof.
  intros [] F. pose proof (sframe_nservers _ _ _ F) as Hn. destruct F.
  constructor; rewrite ?Hn;
    rewrite ?f_cfg0, ?f_flags0, ?f_last_timeout0, ?f_last_server0, ?f_all0, ?f_cancelled0,
      ?f_qid0, ?f_timeout0, ?f_stolen0, ?f_queries0, ?f_next0, ?f_ended0, ?f_servers0; try done.
  - split; [tauto|]. lia.
  - destruct c_sends0. constructor; [intros q; rewrite f_sends0; eauto..|].
    intros q r. rewrite f_sends0. eauto.
Qed.

Lemma blocks_insert l i s s' :
  l !! i = Some s -> blocks (<[i := s']> l) = blocks l - server_blocks s + server_blocks s'.
Proof.
  revert i; induction l as [|x l IH]; intros [|i] H; cbn in H; [done|done| |].
  - injection H as ->. cbn. lia.
  - change (<[S i := s']> (x :: l)) with (x :: <[i := s']> l). cbn [blocks].
    rewrite (IH _ H). lia.
Qed.

Lemma sr_blocks_pos sr : 0 < sr_blocks sr.
Proof. unfold sr_blocks. pose proof (blocks_opt_nonneg (data_storage sr)). lia. Qed.

Lemma sendq_blocks_nonneg l : 0 <= sendq_blocks l.
Proof. induction l as [|sr l IH]; cbn; [lia|]. pose proof (sr_blocks_pos sr). lia. Qed.

Lemma server_blocks_nonneg s : 0 <= server_blocks s.
Proof.
  unfold server_blocks. pose proof (sendq_blocks_nonneg (sendq s)).
  pose proof (blocks_opt_nonneg (tcp_buffer s)). lia.
Qed.

Lemma blocks_lookup l i s : l !! i = Some s -> server_blocks s <= blocks l.
Proof.
  revert i; induction l as [|x l IH]; intros [|i] H; cbn in *; [done|done| |].
  - injection H as ->. assert (0 <= blocks l); [|lia].
    clear. induction l as [|y l IH]; cbn; [done|]. pose proof (server_blocks_nonneg y). lia.
  - pose proof (IH _ H). pose proof (server_blocks_nonneg x). lia.
Qed.

Lemma blocks_nonneg l : 0 <= blocks l.
Proof. induction l as [|y l IH]; cbn; [done|]. pose proof (server_blocks_nonneg y). lia. Qed.

Lemma sendq_blocks_app l1 l2 : sendq_blocks (l1 ++ l2) = sendq_blocks l1 + sendq_blocks l2.
Proof. induction l1 as [|sr l1 IH]; cbn; lia. Qed.

(** [at_server i s d c0 c]: the steps from [c0] to [c] concerned server [i]
    only, which is now [s]. *)
Record at_server (i : nat) (s : server_state) (d : Z) (c0 c : chan) : Prop := {
  as_frame : sframe d c0 c;
  as_index : (i < nservers c0)%nat;
  as_servers : servers c = <[i := s]> (servers c0) }.

Lemma at_server_here i s c : servers c !! i = Some s -> at_server i s 0 c c.
Proof.
  intros H. split; [apply sframe_refl|by eapply lookup_lt_Some|].
  symmetry. by apply list_insert_id.
Qed.

Lemma at_server_lookup i s d c0 c : at_server i s d c0 c -> servers c !! i = Some s.
Proof. intros [_ Hi ->]. by apply list_lookup_insert_eq. Qed.

Lemma at_server_env i s d d' c0 c c' :
  at_server i s d c0 c -> sframe d' c c' -> servers c' = servers c ->
  at_server i s (d + d') c0 c'.
Proof. intros [F Hi Hs] F' E. split; [by eapply sframe_trans|done|congruence]. Qed.

Section at_server_rules.
Context (i : nat) (s : server_state) (d : Z) (c0 c : chan).
Hypothesis HA : at_server i s d c0 c.

Lemma as_get_server (Q : server_state -> chan -> Prop) : Q s c -> ewp (get_server i) c Q.
Proof. apply ewp_get_server. by eapply at_server_lookup. Qed.

Lemma as_upd_server f (Q : unit -> chan -> Prop) :
  queries_to_server (f s) = queries_to_server s ->
  (forall c', at_server i (f s) (d + server_blocks s - server_blocks (f s)) c0 c' -> Q () c') ->
  ewp (upd_server i f) c Q.
Proof.
  intros Hq HQ. pose proof (at_server_lookup _ _ _ _ _ HA) as Hl.
  eapply ewp_upd_server; [exact Hl|]. apply HQ. destruct HA as [F Hi Hs]. split; [|done|].
  - replace (d + server_blocks s - server_blocks (f s))
      with (d + (server_blocks s - server_blocks (f s))) by lia.
    eapply sframe_trans; [exact F|]. constructor; cbn; try done.
    + rewrite list_fmap_insert, Hq. apply list_insert_id. by rewrite list_lookup_fmap, Hl.
    + rewrite (blocks_insert _ _ _ _ Hl). lia.
  - cbn. rewrite Hs. apply list_insert_insert_eq.
Qed.

Lemma as_mem {A} (m : M A) dm (Q : A -> chan -> Prop) :
  wp m (mem c) (fun a h => live h = live (mem c) + dm a /\
    forall c', at_server i s (d + dm a) c0 c' -> Q a c') ->
  ewp (lift m) c Q.
Proof.
  intros H. apply ewp_lift. eapply wp_mono; [exact H|]. intros a h [Hl HQ]. apply HQ.
  eapply at_server_env; [exact HA| |done]. constructor; cbn; try done. lia.
Qed.

Lemma as_emit e (Q : unit -> chan -> Prop) :
  ended_of e = None -> (forall q, sent_of q e = 0) ->
  (forall c', at_server i s d c0 c' -> Q () c') -> ewp (emit e) c Q.
Proof.
  intros He Hs HQ. apply ewp_emit, HQ. rewrite <- (Z.add_0_r d).
  eapply at_server_env; [exact HA| |done]. constructor; cbn; try done; [by rewrite He|intros q; rewrite Hs; lia|lia].
Qed.

Lemma as_sys_int (Q : Z -> chan -> Prop) :
  (forall z c', at_server i s d c0 c' -> Q z c') -> ewp sys_int c Q.
Proof.
  intros HQ. apply ewp_sys_int. intros z zs. apply HQ. rewrite <- (Z.add_0_r d).
  eapply at_server_env; [exact HA| |done]. constructor; cbn; try done. lia.
Qed.

Lemma as_next_generation (Q : Z -> chan -> Prop) :
  (forall g c', at_server i s d c0 c' -> Q g c') -> ewp next_generation c Q.
Proof.
  intros HQ. unfold next_generation. do 2 ewp_step. do 3 ewp_step. apply HQ.
  rewrite <- (Z.add_0_r d).
  eapply at_server_env; [exact HA| |done]. constructor; cbn; try done. lia.
Qed.

End at_server_rules.

(** The tactic runs code that works on one server. *)
Ltac as_step :=
  cbv beta;
  lazymatch goal with
  | |- ewp (mbind _ _) _ _ => apply ewp_bind
  | |- ewp (mret _) _ _ => apply ewp_ret
  | |- ewp (gets _) _ _ => apply ewp_gets
  | HA : at_server ?i _ _ _ ?c |- ewp (get_server ?i) ?c _ => eapply (as_get_server _ _ _ _ _ HA)
  | HA : at_server ?i _ _ _ ?c |- ewp (upd_server ?i _) ?c _ =>
      eapply (as_upd_server _ _ _ _ _ HA); [reflexivity|]; clear HA; try clear c;
      let c' := fresh "c" in intros c' HA
  | HA : at_server _ _ _ _ ?c |- ewp (emit _) ?c _ =>
      eapply (as_emit _ _ _ _ _ HA); [reflexivity|reflexivity|]; clear HA; try clear c;
      let c' := fresh "c" in intros c' HA
  | HA : at_server _ _ _ _ ?c |- ewp sys_int ?c _ =>
      eapply (as_sys_int _ _ _ _ _ HA); clear HA; try clear c;
      let c' := fresh "c" in intros ? c' HA
  | HA : at_server _ _ _ _ ?c |- ewp next_generation ?c _ =>
      eapply (as_next_generation _ _ _ _ _ HA); clear HA; try clear c;
      let c' := fresh "c" in intros ? c' HA
  end.

Lemma wp_free_sendq l h (Q : unit -> heap -> Prop) :
  sendq_blocks l <= live h -> Q () (Heap (live h - sendq_blocks l) (oracle h)) ->
  wp (free_sendq l) h Q.
Proof.
  revert h; induction l as [|sr l IH]; intros h Hl HQ; cbn [free_sendq sendq_blocks] in *.
  - apply wp_ret. by destruct h; cbn in *; rewrite Z.sub_0_r in HQ.
  - unfold sr_blocks in *. pose proof (sendq_blocks_nonneg l).
    pose proof (blocks_opt_nonneg (data_storage sr)).
    wp_step. apply wp_free_opt; [lia|]. wp_step. wp_step. apply IH; cbn; [lia|].
    by replace (live h - blocks_opt (data_storage sr) - 1 - sendq_blocks l)
      with (live h - (1 + blocks_opt (data_storage sr) + sendq_blocks l)) by lia.
Qed.

(** ** [ares__close_sockets] *)

Record closed (s s' : server_state) : Prop := {
  cl_queue : sendq s' = [];
  cl_buffer : tcp_buffer s' = None;
  cl_lenbuf : tcp_lenbuf s' = tcp_lenbuf s;
  cl_pos : tcp_lenbuf_pos s' = 0;
  cl_broken : is_broken s' = false;
  cl_tcp : tcp_socket s' = ARES_SOCKET_BAD;
  cl_udp : udp_socket s' = ARES_SOCKET_BAD;
  cl_queries : queries_to_server s' = queries_to_server s;
  cl_addr : s_addr s' = s_addr s }.

Lemma at_server_eq i s s' d d' c0 c :
  at_server i s d c0 c -> s = s' -> d = d' -> at_server i s' d' c0 c.
Proof. by intros ? -> ->. Qed.

(** Settle the number of blocks in hand. *)
Ltac as_count_with n tac :=
  match goal with
  | HA : at_server ?i ?s ?d ?c0 ?c |- _ =>
      apply (at_server_eq i s s d n c0 c) in HA;
      [|reflexivity
       |unfold server_blocks; cbn; rewrite ?sendq_blocks_app; cbn; unfold sr_blocks; cbn;
        tac; cbn; lia]
  end.

Ltac as_count n := as_count_with n idtac.

(** The allocator has at least the blocks of the servers. *)
Definition funded (c : chan) : Prop := blocks (servers c) <= live (mem c).

Lemma at_server_live i s d c0 c :
  at_server i s d c0 c -> funded c0 -> server_blocks s + d <= live (mem c).
Proof.
  intros HA Hf. pose proof (blocks_lookup _ _ _ (at_server_lookup _ _ _ _ _ HA)).
  pose proof (f_mem _ _ _ (as_frame _ _ _ _ _ HA)). unfold funded in Hf. lia.
Qed.

Lemma as_close i s c0 c :
  at_server i s 0 c0 c -> funded c0 ->
  ewp (ares__close_sockets i) c
    (fun _ c' => exists s', closed s s' /\ at_server i s' 0 c0 c').
Proof.
  intros HA Hf. unfold ares__close_sockets. do 3 as_step.
  pose proof (sendq_blocks_nonneg (sendq s)). pose proof (blocks_opt_nonneg (tcp_buffer s)).
  pose proof (at_server_live _ _ _ _ _ HA Hf) as Hl. unfold server_blocks in Hl.
  eapply (as_mem _ _ _ _ _ HA _ (fun _ => - sendq_blocks (sendq s))).
  apply wp_free_sendq; [lia|]. split; [cbn; lia|]. clear HA Hl c. intros c HA.
  as_step. as_step. as_step.
  pose proof (at_server_live _ _ _ _ _ HA Hf) as Hl. unfold server_blocks in Hl; cbn in Hl.
  eapply (as_mem _ _ _ _ _ HA _ (fun _ => - blocks_opt (tcp_buffer s))).
  apply wp_free_opt; [lia|]. split; [cbn; lia|]. clear HA Hl c. intros c HA.
  as_step. as_step.
  as_count 0. as_step.
  assert (Hfin : forall s' c', at_server i s' 0 c0 c' -> closed s s' ->
    exists s', closed s s' /\ at_server i s' 0 c0 c') by eauto.
  destruct (Z.eqb_spec (tcp_socket s) ARES_SOCKET_BAD) as [Et|Et];
    destruct (Z.eqb_spec (udp_socket s) ARES_SOCKET_BAD) as [Eu|Eu];
    unfold ares__socket_close; repeat as_step; as_count 0; eapply Hfin; eauto;
    constructor; cbn; auto.
Qed.

Lemma ewp_close i s c :
  servers c !! i = Some s -> funded c ->
  ewp (ares__close_sockets i) c (fun _ c' => exists s', closed s s' /\ at_server i s' 0 c c').
Proof. intros Hs Hf. apply as_close; [by apply at_server_here|done]. Qed.

(** ** The invariant under steps on one server *)

Lemma core_funded base W X c : core base W X c -> funded c.
Proof. intros H. destruct (c_mem _ _ _ _ H) as [Hb Hm]. unfold funded, Zlen in *. lia. Qed.

Lemma servers_at_server i s d c0 c (P : server_state -> Prop) :
  (forall j x, servers c0 !! j = Some x -> P x) -> at_server i s d c0 c -> P s ->
  forall j x, servers c !! j = Some x -> P x.
Proof.
  intros H [_ _ Hs] HP j x Hj. rewrite Hs in Hj.
  apply list_lookup_insert_Some in Hj as [(_ & -> & _)|(_ & Hj)]; eauto.
Qed.

Lemma recvs_ok_at i s d c0 c :
  recvs_ok c0 -> at_server i s d c0 c -> recv_ok s -> recvs_ok c.
Proof. intros H HA Hr j x. by apply (servers_at_server _ _ _ _ _ _ H HA). Qed.

Lemma sendqs_ok_at i s d c0 c :
  sendqs_ok c0 -> at_server i s d c0 c ->
  Forall (req_ok (queries c0) (is_broken s)) (sendq s) -> sendqs_ok c.
Proof.
  intros H HA HF j x. rewrite (f_queries _ _ _ (as_frame _ _ _ _ _ HA)).
  apply (servers_at_server _ _ _ _ _
    (fun s => Forall (req_ok (queries c0) (is_broken s)) (sendq s)) H HA HF).
Qed.

Lemma core_at base W X i s c0 c :
  core base W X c0 -> at_server i s 0 c0 c -> core base W X c.
Proof. intros Hc HA. eapply core_sframe; [exact Hc|apply HA]. Qed.

Lemma closed_recv_ok s s' : closed s s' -> length (tcp_lenbuf s) = 2%nat -> recv_ok s'.
Proof.
  intros [] Hl. constructor; rewrite ?cl_lenbuf0, ?cl_pos0; [done|lia|].
  by rewrite cl_buffer0.
Qed.

Lemma server_exists c i : (i < nservers c)%nat -> exists s, servers c !! i = Some s.
Proof. apply lookup_lt_is_Some_2. Qed.

(** Closing every connection empties the send queues, whatever they held. *)
Lemma ewp_close_all base W X c :
  core base W X c -> recvs_ok c ->
  ewp close_all c (fun _ c' => inv base W X c' /\ sframe 0 c c').
Proof.
  intros Hc Hr. unfold close_all.
  eapply ewp_mono; [apply (ewp_for_servers _ () c (fun k c' =>
    core base W X c' /\ recvs_ok c' /\ sframe 0 c c' /\
    forall j s, (j < k)%nat -> servers c' !! j = Some s -> sendq s = []))|].
  - split_and!; [done|done|apply sframe_refl|lia].
  - intros i [] c' Hi (Hc' & Hr' & F & He). rewrite <- (sframe_nservers _ _ _ F) in Hi.
    destruct (server_exists _ _ Hi) as [s Hs]. apply ewp_bind.
    eapply ewp_mono; [apply (ewp_close _ _ _ Hs), (core_funded _ _ _ _ Hc')|].
    intros _ c1 (s1 & Hcl & HA). apply ewp_ret. cbn. split_and!.
    + by eapply core_at.
    + eapply recvs_ok_at; [done..|]. eapply closed_recv_ok; [done|]. apply (Hr' _ _ Hs).
    + apply (sframe_trans 0 0 _ c'); [done|apply HA].
    + intros j x Hj Hx. rewrite (as_servers _ _ _ _ _ HA) in Hx.
      apply list_lookup_insert_Some in Hx as [(_ & -> & _)|(Hne & Hx)]; [apply Hcl|].
      eapply He; [|done]. lia.
  - intros _ c' (Hc' & Hr' & F & He). split; [|done]. split_and!; [done| |done].
    intros j s Hs. rewrite (He j s); [constructor| |done].
    rewrite <- (sframe_nservers _ _ _ F). by eapply lookup_lt_Some.
Qed.

(** [ares_cancel] and [end_query]: the queues only matter if they stay open. *)
Lemma ewp_close_if_idle base W X c :
  core base W X c -> recvs_ok c ->
  (sendqs_ok c \/ all_queries c = [] /\ Z.testbit (flags c) ARES_FLAG_STAYOPEN = false) ->
  ewp close_if_idle c (fun _ c' => inv base W X c' /\ sframe 0 c c').
Proof.
  intros Hc Hr Hs. unfold close_if_idle, flag. do 6 ewp_step. cbv beta.
  destruct (Z.testbit (flags c) ARES_FLAG_STAYOPEN); cbn [negb andb].
  - apply ewp_ret. destruct Hs as [?|[_ ?]]; [|done].
    split; [by split_and!|apply sframe_refl].
  - destruct (all_queries c) as [|q l]; [by apply ewp_close_all|].
    apply ewp_ret. destruct Hs as [?|[? _]]; [|done].
    split; [by split_and!|apply sframe_refl].
Qed.

(** ** Requests and the end of a query *)

(** The bytes a request still has to send. *)
Definition req_bytes (qs : gmap Z query) (sr : send_request) : list Z :=
  match sr_data sr with
  | PNull => []
  | POwn off => slice (default [] (data_storage sr)) off (Z.to_nat (sr_len sr))
  | PQuery q _ off =>
      slice (default [] (qs !! q ≫= tcpbuf)) off (Z.to_nat (sr_len sr))
  end.

Definition queries_ok (c : chan) : Prop :=
  map_Forall (fun _ r => query_ok (nservers c) r) (queries c).

(** A request that satisfies the invariant can be read. *)
Lemma ewp_deref c b sr (Q : list Z -> chan -> Prop) :
  req_ok (queries c) b sr -> queries_ok c ->
  (Zlen (req_bytes (queries c) sr) = sr_len sr -> Q (req_bytes (queries c) sr) c) ->
  ewp (deref (sr_data sr) (data_storage sr) (sr_len sr)) c Q.
Proof.
  intros [Hl Hr] Hq HQ. unfold deref, req_bytes in *.
  destruct (owner_query sr) as [q|].
  - destruct Hr as (Hst & r & off & Hr & Hd & Ho & He). rewrite Hd in *.
    destruct (qo_buf _ _ (Hq _ _ Hr)) as (bs & Hb & Hlen).
    apply ewp_bind. eapply ewp_get_query; [exact Hr|]. rewrite Hr in HQ; cbn in HQ.
    rewrite Hb in *. cbn in HQ. rewrite Z.eqb_refl.
    rewrite (proj2 (Z.leb_le 0 off)), (proj2 (Z.leb_le (off + sr_len sr) (Zlen bs))) by lia.
    apply ewp_ret, HQ. unfold Zlen. rewrite slice_length; unfold Zlen in *; lia.
  - destruct (data_storage sr) as [bs|] eqn:Es.
    + destruct Hr as (off & Hd & Ho & He). rewrite Hd in *. cbn in HQ.
      rewrite (proj2 (Z.leb_le 0 off)), (proj2 (Z.leb_le (off + sr_len sr) (Zlen bs))) by lia.
      apply ewp_ret, HQ. unfold Zlen. rewrite slice_length; unfold Zlen in *; lia.
    + destruct Hr as (_ & Hd & E0). rewrite Hd, E0 in *. by apply ewp_ret, HQ.
Qed.

Lemma req_ok_broken qs b b' sr : req_ok qs b sr -> req_ok qs (b || b') sr.
Proof.
  intros [Hl Hr]. split; [done|]. destruct (owner_query sr); [done|].
  destruct (data_storage sr); [done|]. by destruct Hr as (-> & ? & ?).
Qed.

(** What [end_query] leaves of a request: it no longer refers to [q]. *)
Definition req_ended (qs : gmap Z query) (q : Z) (b : bool) (sr : send_request) : Prop :=
  req_ok qs b sr /\ owner_query sr <> Some q.

Lemma as_malloc i s d c0 c (Q : bool -> chan -> Prop) :
  at_server i s d c0 c ->
  (forall b c', at_server i s (if b : bool then d + 1 else d) c0 c' -> Q b c') ->
  ewp (lift c_malloc) c Q.
Proof.
  intros HA HQ. eapply (as_mem _ _ _ _ _ HA _ (fun b : bool => if b then 1 else 0)).
  apply wp_malloc; intros o _; (split; [cbn; lia|]); intros c' HA'; apply HQ; [done|].
  by rewrite Z.add_0_r in HA'.
Qed.

Lemma ewp_end_sendreq q st sr b i s d c0 c :
  at_server i s d c0 c -> queries_ok c0 -> req_ok (queries c0) b sr ->
  ewp (end_sendreq q st sr) c (fun r c' =>
    req_ended (queries c0) q (b || r.2) r.1 /\
    at_server i s (d + sr_blocks r.1 - sr_blocks sr) c0 c').
Proof.
  intros HA Hq Hr. unfold end_sendreq.
  case_decide as Ho; [|apply ewp_ret; cbn; split; [split; [by apply req_ok_broken|done]|]].
  2: { eapply at_server_eq; [exact HA|done|lia]. }
  assert (data_storage sr = None /\ 0 <= sr_len sr) as [Hst Hlen].
  { destruct Hr as [? Hr]. rewrite Ho in Hr. by destruct Hr as [-> _]. }
  apply ewp_bind, ewp_assert; [by rewrite Hst|].
  assert (Hbroken : forall c, at_server i s d c0 c -> ewp (mret (SendRequest PNull 0 None None, true)) c
    (fun r c' => req_ended (queries c0) q (b || r.2) r.1 /\
                 at_server i s (d + sr_blocks r.1 - sr_blocks sr) c0 c')).
  { intros c1 HA1. apply ewp_ret. cbn. rewrite orb_true_r. split.
    - split; [|done]. by split.
    - eapply at_server_eq; [exact HA1|done|]. unfold sr_blocks. rewrite Hst. cbn. lia. }
  case_decide as Hs; [|by apply Hbroken].
  apply ewp_bind. eapply as_malloc; [exact HA|]. clear HA c. intros [] c HA; [|by apply Hbroken].
  pose proof (as_frame _ _ _ _ _ HA) as F. apply ewp_bind. eapply ewp_deref.
  - rewrite (f_queries _ _ _ F). exact Hr.
  - unfold queries_ok. rewrite (sframe_nservers _ _ _ F), (f_queries _ _ _ F). exact Hq.
  - intros Hz. apply ewp_ret. cbn. split.
    + split; [|done]. split; [done|]. cbn. exists 0. split_and!; [done|lia|]. by rewrite Hz.
    + eapply at_server_eq; [exact HA|done|]. unfold sr_blocks. rewrite Hst. cbn. lia.
Qed.

Lemma req_ended_broken qs q b b' sr : req_ended qs q b sr -> req_ended qs q (b || b') sr.
Proof. intros [? ?]. split; [by apply req_ok_broken|done]. Qed.

Lemma ewp_end_sendq q st l b i s d c0 c :
  at_server i s d c0 c -> queries_ok c0 -> Forall (req_ok (queries c0) b) l ->
  ewp (end_sendq q st l) c (fun r c' =>
    Forall (req_ended (queries c0) q (b || r.2)) r.1 /\
    at_server i s (d + sendq_blocks r.1 - sendq_blocks l) c0 c').
Proof.
  intros HA Hq HF; revert d c HA; induction HF as [|sr l Hr _ IH]; intros d c HA; cbn [end_sendq].
  - apply ewp_ret. cbn. split; [constructor|]. eapply at_server_eq; [exact HA|done|lia].
  - apply ewp_bind. eapply ewp_mono; [by eapply ewp_end_sendreq|].
    intros [sr' b1] c1 [Hr1 HA1]; cbn [fst snd] in *. apply ewp_bind.
    eapply ewp_mono; [apply (IH _ _ HA1)|]. intros [l' b2] c2 [HF2 HA2]; cbn [fst snd] in *.
    apply ewp_ret. cbn [fst snd sendq_blocks]. split.
    + constructor.
      * rewrite orb_assoc. by apply req_ended_broken.
      * eapply Forall_impl; [exact HF2|]. intros x Hx.
        rewrite (orb_comm b1), orb_assoc. by apply req_ended_broken.
    + eapply at_server_eq; [exact HA2|done|lia].
Qed.

(** ** Removing a query from its lists *)

Lemma elem_of_without q p l : p ∈ without q l <-> p ∈ l /\ p <> q.
Proof. unfold without. rewrite list_elem_of_filter. tauto. Qed.

Lemma without_app q l1 l2 : without q (l1 ++ l2) = without q l1 ++ without q l2.
Proof. apply filter_app. Qed.

Lemma NoDup_without q l : NoDup l -> NoDup (without q l).
Proof. apply NoDup_filter. Qed.

Lemma without_not_elem q l : q ∉ l -> without q l = l.
Proof.
  induction l as [|x l IH]; intros Hq; [done|]. apply not_elem_of_cons in Hq as [Hx Hl].
  unfold without in *. rewrite filter_cons_True by congruence. by rewrite IH.
Qed.

Lemma without_perm q l : NoDup l -> q ∈ l -> l ≡ₚ q :: without q l.
Proof.
  intros Hn Hq. apply NoDup_Permutation; [done| |].
  - constructor; [|by apply NoDup_without]. rewrite elem_of_without. tauto.
  - intros x. rewrite elem_of_cons, elem_of_without.
    destruct (decide (x = q)) as [->|]; tauto.
Qed.

Lemma Zlen_without q l : NoDup l -> q ∈ l -> Zlen (without q l) = Zlen l - 1.
Proof. intros Hn Hq. unfold Zlen. rewrite (without_perm q l Hn Hq) at 2. cbn [length]. lia. Qed.

Lemma bucket_without q m b : bucket (without q <$> m) b = without q (bucket m b).
Proof. unfold bucket. rewrite lookup_fmap. by destruct (m !! b). Qed.

Lemma delete_ne (qs : gmap Z query) q p : p <> q -> delete q qs !! p = qs !! p.
Proof. intros. by rewrite lookup_delete_ne. Qed.

Lemma delete_Some (qs : gmap Z query) q p r :
  delete q qs !! p = Some r <-> p <> q /\ qs !! p = Some r.
Proof. rewrite lookup_delete_Some. split; intros []; auto. Qed.

Lemma table_ok_delete qs q X key m :
  table_ok qs X key m -> (X = None \/ X = Some q) ->
  table_ok (delete q qs) None key (without q <$> m).
Proof.
  intros H HX b. rewrite bucket_without. destruct (H b) as (Hn & Hl & Hi). split_and!.
  - by apply NoDup_without.
  - intros p [Hp Hne]%elem_of_without. rewrite delete_ne by done. by apply Hl.
  - intros p r [Hne Hp]%delete_Some _. rewrite elem_of_without.
    rewrite (Hi _ _ Hp); [tauto|]. destruct HX as [-> | ->]; congruence.
Qed.

Lemma by_server_delete qs q W X l st :
  by_server_ok qs W X l st -> (X = None \/ X = Some q) ->
  by_server_ok (delete q qs) W None (without q <$> l) (without q st).
Proof.
  intros H HX. assert (Hlk : forall i ql, (without q <$> l) !! i = Some ql ->
    exists ql', l !! i = Some ql' /\ ql = without q ql').
  { intros i ql. rewrite list_lookup_fmap. destruct (l !! i); [|done]. intros [= <-]. eauto. }
  constructor.
  - intros i ql (ql' & Hq & ->)%Hlk. by eapply NoDup_without, bs_nodup.
  - intros i ql p (ql' & Hq & ->)%Hlk [Hp Hne]%elem_of_without. rewrite delete_ne by done.
    by eapply bs_live.
  - intros i ql p r (ql' & Hq & ->)%Hlk [Hne Hp]%delete_Some _. rewrite !elem_of_without.
    rewrite (bs_iff _ _ _ _ _ H _ _ _ _ Hq Hp); [tauto|]. destruct HX as [-> | ->]; congruence.
  - by eapply NoDup_without, bs_stolen.
  - intros p [Hp Hne]%elem_of_without. destruct (bs_stolen_live _ _ _ _ _ H _ Hp) as (r & Hr & Hw).
    exists r. rewrite delete_ne by done. split; [done|]. intros _. apply Hw.
    destruct HX as [-> | ->]; congruence.
Qed.

(** The state [ares__free_query] leaves. *)
Definition free_state (q : Z) (h : heap) (c : chan) : chan :=
  Chan (cfg c) (flags c)
    ((fun s => set_queries_to_server (without q (queries_to_server s)) s) <$> servers c)
    (tcp_connection_generation c) (last_timeout_processed c) (last_server c)
    (without q (all_queries c)) (without q (cancelled c)) (without q <$> queries_by_qid c)
    (without q <$> queries_by_timeout c) (without q (stolen c)) (delete q (queries c))
    (next_addr c) h (ints c) (pkts c) (trace c).

Lemma ewp_free_query q r c (Q : unit -> chan -> Prop) :
  queries c !! q = Some r -> tcpbuf r <> None -> 3 <= live (mem c) ->
  Q () (free_state q (Heap (live (mem c) - 3) (oracle (mem c))) c) ->
  ewp (ares__free_query q) c Q.
Proof.
  intros Hr Hb Hl HQ. unfold ares__free_query, remove_by_qid, remove_by_timeout,
    remove_to_server, remove_all. do 9 ewp_step. ewp_step.
  destruct (tcpbuf r) as [bs|]; [|done]. cbn [c_free_opt].
  repeat ewp_step. apply wp_free; [cbn; lia|]. repeat ewp_step. apply wp_free; [cbn; lia|].
  repeat ewp_step. apply wp_free; [cbn; lia|]. repeat ewp_step.
  unfold free_state in HQ. cbn.
  by replace (live (mem c) - 1 - 1 - 1) with (live (mem c) - 3) by lia.
Qed.

Lemma blocks_requeue f l :
  blocks ((fun s => set_queries_to_server (f (queries_to_server s)) s) <$> l) = blocks l.
Proof. induction l as [|s l IH]; [done|]. cbn [fmap list_fmap blocks]. by rewrite <- IH. Qed.

Lemma queries_requeue f (l : list server_state) :
  queries_to_server <$> ((fun s => set_queries_to_server (f (queries_to_server s)) s) <$> l)
  = f <$> (queries_to_server <$> l).
Proof. induction l as [|s l IH]; [done|]. cbn. by f_equal. Qed.

(** Ending a live query: the callback and the release of the query. *)
Lemma core_end base W X c q r e o :
  core base W X c -> queries c !! q = Some r -> (X = None \/ X = Some q) ->
  ended_of e = Some q -> (forall p, sent_of p e = 0) ->
  core base W None
    (free_state q (Heap (live (mem c) - 3) o) (set_trace (e :: trace c) c)).
Proof.
  intros [] Hr HX He Hse.
  assert (Hin : q ∈ all_queries c ++ cancelled c) by (apply c_live0; by eexists).
  assert (Hn : nservers (free_state q (Heap (live (mem c) - 3) o)
    (set_trace (e :: trace c) c)) = nservers c) by (unfold nservers; cbn; by rewrite length_fmap).
  constructor; rewrite ?Hn; cbn [cfg flags servers last_server last_timeout_processed
    all_queries cancelled queries_by_qid queries_by_timeout stolen queries next_addr mem trace
    free_state set_trace live]; rewrite <- ?without_app; try done.
  - by apply NoDup_without.
  - intros p. rewrite elem_of_without, c_live0. split.
    + intros [[x Hx] Hne]. exists x. by apply delete_Some.
    + intros [x [Hne Hx]%delete_Some]. split; [by eexists|done].
  - intros p x [Hne Hx]%delete_Some. by eapply c_query0.
  - intros p x [Hne Hx]%delete_Some _. apply (c_filed0 _ _ Hx).
    destruct HX as [-> | ->]; congruence.
  - apply (table_ok_delete _ _ None); [done|by left].
  - by eapply table_ok_delete.
  - rewrite queries_requeue. by eapply by_server_delete.
  - split; [tauto|]. rewrite blocks_requeue, Zlen_without by done. lia.
  - split; [tauto|]. destruct c_issued0 as [_ Hp]. rewrite <- Hp. unfold ended; cbn. rewrite He.
    cbn. rewrite Permutation_middle. f_equiv. symmetry. by apply without_perm.
  - destruct c_sends0 as [Hf Ha Hl]. constructor.
    + intros p Hp. cbn. rewrite Hse. apply (Hf _ Hp).
    + intros p. cbn. rewrite Hse. apply Ha.
    + intros p x [Hne Hx]%delete_Some. cbn [sends]. rewrite Hse. pose proof (Hl _ _ Hx) as Hs.
      rewrite decide_False by done. rewrite decide_False in Hs; [lia|].
      destruct HX as [-> | ->]; congruence.
Qed.

(** No queue refers to [q]. *)
Definition no_owner (q : Z) (c : chan) : Prop :=
  forall i s, servers c !! i = Some s -> Forall (fun sr => owner_query sr <> Some q) (sendq s).

Lemma free_sendqs_ok q h c :
  sendqs_ok c -> no_owner q c -> sendqs_ok (free_state q h c).
Proof.
  intros Hs Hno i s. cbn. rewrite list_lookup_fmap.
  destruct (servers c !! i) as [s0|] eqn:E; [|done]. intros [= <-]. cbn.
  pose proof (Hs _ _ E) as HF. pose proof (Hno _ _ E) as HN.
  rewrite Forall_forall in HF, HN. apply Forall_forall. intros sr Hin.
  destruct (HF _ Hin) as [Hl Hr]. split; [done|]. pose proof (HN _ Hin) as Hq.
  destruct (owner_query sr) as [p|]; [|done].
  destruct Hr as (Hst & x & off & Hx & Hd). split; [done|]. exists x, off.
  split; [|done]. rewrite delete_ne by congruence. done.
Qed.

Lemma free_recvs_ok q h c : recvs_ok c -> recvs_ok (free_state q h c).
Proof.
  intros Hr i s. cbn. rewrite list_lookup_fmap.
  destruct (servers c !! i) as [s0|] eqn:E; [|done]. intros [= <-].
  destruct (Hr _ _ E). by constructor.
Qed.

Lemma ewp_end_servers base W X c q st :
  inv base W X c ->
  ewp (for_servers (fun i (_ : unit) => end_server q st i ;; mret (true, ())) ()) c
    (fun _ c' => inv base W X c' /\ sframe 0 c c' /\ no_owner q c').
Proof.
  intros HI. eapply ewp_mono; [apply (ewp_for_servers _ () c (fun k c' =>
    inv base W X c' /\ sframe 0 c c' /\
    forall j s, (j < k)%nat -> servers c' !! j = Some s ->
      Forall (fun sr => owner_query sr <> Some q) (sendq s)))|].
  - split_and!; [apply HI..|apply sframe_refl|lia].
  - intros i [] c' Hi ((Hc & Hs & Hr) & F & Hno). rewrite <- (sframe_nservers _ _ _ F) in Hi.
    destruct (server_exists _ _ Hi) as [s Hl]. apply ewp_bind. unfold end_server.
    pose proof (at_server_here _ _ _ Hl) as HA. apply ewp_bind.
    eapply as_get_server; [exact HA|]. apply ewp_bind.
    eapply ewp_mono; [eapply ewp_end_sendq; [exact HA|apply Hc|apply (Hs _ _ Hl)]|].
    intros [l b] c1 [HF HA1]. cbn [fst snd] in *.
    eapply as_upd_server; [exact HA1|done|]. intros c2 HA2. apply ewp_ret. cbn [fst].
    clear HA HA1. as_count 0. split; [split_and!|split_and!].
    + by eapply core_at.
    + eapply sendqs_ok_at; [done..|]. cbn. eapply Forall_impl; [exact HF|]. by intros x [].
    + eapply recvs_ok_at; [done..|]. destruct (Hr _ _ Hl). by constructor.
    + apply (sframe_trans 0 0 _ c'); [done|apply HA2].
    + intros j x Hj Hx. rewrite (as_servers _ _ _ _ _ HA2) in Hx.
      apply list_lookup_insert_Some in Hx as [(_ & <- & _)|(Hne & Hx)].
      * cbn. eapply Forall_impl; [exact HF|]. by intros y [].
      * eapply Hno; [|done]. lia.
  - intros _ c' (HI' & F & Hno). split_and!; [done..|]. intros j s Hj. eapply Hno; [|done].
    rewrite <- (sframe_nservers _ _ _ F). by eapply lookup_lt_Some.
Qed.

(** ** Moving a query on

    [moved q now c c']: what sending [q] again or ending it changes: [q] leaves
    the lists it was in and is either gone or filed at the end of a bucket
    with a time-out in the future; the other queries are untouched. *)
Record moved (q : Z) (now : timeval) (c c' : chan) : Prop := {
  mv_cfg : cfg c' = cfg c;
  mv_flags : flags c' = flags c;
  mv_n : nservers c' = nservers c;
  mv_last : last_timeout_processed c' = last_timeout_processed c;
  mv_pkts : pkts c' = pkts c;
  mv_stolen : stolen c' = without q (stolen c);
  mv_cancelled : cancelled c = [] -> cancelled c' = [];
  mv_others : forall p, p <> q -> queries c' !! p = queries c !! p;
  mv_bucket : forall b, exists tl, (tl = [] \/ tl = [q]) /\
    bucket (queries_by_timeout c') b = without q (bucket (queries_by_timeout c) b) ++ tl;
  mv_future : forall r, queries c' !! q = Some r -> ares__timedout now (q_timeout r) = false }.

Lemma moved_frame_l q now c c1 c' : sframe 0 c c1 -> moved q now c1 c' -> moved q now c c'.
Proof.
  intros F [Hc Hf Hn Hl Hp Hs Hca Ho Hb Hfu]. rewrite (sframe_nservers _ _ _ F) in Hn.
  destruct F as [Fc Ff Fl _ _ Fca _ Ft Fs Fq _ Fp _ _ _ _].
  constructor; try (etransitivity; eauto; fail).
  - by rewrite Hs, Fs.
  - intros E. apply Hca. by rewrite Fca.
  - intros p Hne. by rewrite (Ho _ Hne), Fq.
  - intros b. rewrite <- Ft. apply Hb.
Qed.

Lemma moved_frame_r q now c c1 c' : moved q now c c1 -> sframe 0 c1 c' -> moved q now c c'.
Proof.
  intros [Hc Hf Hn Hl Hp Hs Hca Ho Hb Hfu] F. pose proof (sframe_nservers _ _ _ F) as Fn.
  destruct F as [Fc Ff Fl _ _ Fca _ Ft Fs Fq _ Fp _ _ _ _].
  constructor; try congruence.
  - intros E. rewrite Fca. by apply Hca.
  - intros p Hne. rewrite Fq. by apply Ho.
  - intros b. rewrite Ft. apply Hb.
  - intros r. rewrite Fq. apply Hfu.
Qed.

Lemma moved_free q now h t c : moved q now c (free_state q h (set_trace t c)).
Proof.
  constructor; cbn; try done.
  - unfold nservers; cbn. by rewrite length_fmap.
  - by intros ->.
  - intros p Hne. by apply delete_ne.
  - intros b. exists []. split; [by left|]. by rewrite bucket_without, app_nil_r.
  - intros r [? _]%delete_Some. done.
Qed.

Lemma live_room base W X c q r :
  core base W X c -> queries c !! q = Some r -> 3 <= live (mem c).
Proof.
  intros Hc Hr. destruct (c_mem _ _ _ _ Hc) as [Hb ->].
  assert (Hin : q ∈ all_queries c ++ cancelled c) by (apply (c_live _ _ _ _ Hc); by eexists).
  pose proof (blocks_nonneg (servers c)).
  destruct (all_queries c ++ cancelled c); [by apply not_elem_of_nil in Hin|].
  unfold Zlen. cbn [length]. lia.
Qed.

(** Everything [end_query] promises. *)
Lemma ewp_end_query base W X c q r st abuf now :
  inv base W X c -> queries c !! q = Some r -> (X = None \/ X = Some q) ->
  ewp (end_query q st abuf) c (fun _ c' =>
    inv base W None c' /\ moved q now c c' /\ queries c' !! q = None).
Proof.
  intros HI Hr HX. unfold end_query. apply ewp_bind.
  eapply ewp_mono; [by apply ewp_end_servers|]. clear HI.
  intros _ c1 ((Hc & Hs & Hrv) & F & Hno). rewrite <- (f_queries _ _ _ F) in Hr.
  do 4 ewp_step. ewp_step.
  set (e := EvCallback _ _ _ _ _).
  destruct (qo_buf _ _ (c_query _ _ _ _ Hc _ _ Hr)) as (bs & Hb & _).
  eapply ewp_free_query; [exact Hr|by rewrite Hb|exact (live_room _ _ _ _ _ _ Hc Hr)|].
  pose proof (core_end _ _ _ _ _ _ e (oracle (mem c1)) Hc Hr HX eq_refl (fun _ => eq_refl)) as Hc2.
  eapply ewp_mono; [eapply ewp_close_if_idle; [exact Hc2| |]|].
  - by apply free_recvs_ok.
  - left. by apply free_sendqs_ok.
  - intros _ c3 [HI3 F3]. split_and!; [done| |].
    + eapply moved_frame_l; [exact F|]. eapply moved_frame_r; [|exact F3].
      apply moved_free.
    + rewrite (f_queries _ _ _ F3). cbn. apply lookup_delete_eq.
Qed.

(** ** Changing the record of one query *)

Section set_query.
Context (qs : gmap Z query) (q : Z) (r r' : query) (X X' : option Z).
Hypothesis Hr : qs !! q = Some r.

(** [q] is taken in hand, or what it is filed under does not change. *)
Definition refiled (same : Prop) : Prop :=
  X' = Some q /\ (X = None \/ X = Some q) \/ X' = X /\ same.

Lemma refiled_ne same p : refiled same -> Some p <> X' -> p <> q -> Some p <> X.
Proof. intros [[-> [-> | ->]]|[-> _]]; congruence. Qed.

Lemma insert_is_Some p : is_Some (<[q := r']> qs !! p) <-> is_Some (qs !! p).
Proof.
  destruct (decide (p = q)) as [->|Hne].
  - rewrite lookup_insert_eq, Hr. split; intros _; by eexists.
  - by rewrite lookup_insert_ne by done.
Qed.

Lemma table_ok_insert key m :
  table_ok qs X key m -> refiled (key r' = key r) -> table_ok (<[q := r']> qs) X' key m.
Proof.
  intros H HX b. destruct (H b) as (Hn & Hl & Hi). split_and!; [done| |].
  - intros p Hp. apply insert_is_Some. by apply Hl.
  - intros p x [[<- <-]|[Hne Hp]]%lookup_insert_Some Hx.
    + destruct HX as [[-> _]|[-> ->]]; [done|]. by apply Hi.
    + apply Hi; [done|]. eapply refiled_ne; [exact HX|done|congruence].
Qed.

Lemma by_server_insert W l st :
  by_server_ok qs W X l st -> refiled (q_server r' = q_server r) ->
  by_server_ok (<[q := r']> qs) W X' l st.
Proof.
  intros H HX. constructor.
  - by eapply bs_nodup.
  - intros i ql p Hi Hp. apply insert_is_Some. by eapply bs_live.
  - intros i ql p x Hi [[<- <-]|[Hne Hp]]%lookup_insert_Some Hx.
    + destruct HX as [[-> _]|[-> ->]]; [done|]. by eapply bs_iff.
    + eapply bs_iff; [done..|]. eapply refiled_ne; [exact HX|done|congruence].
  - by eapply bs_stolen.
  - intros p Hp. destruct (bs_stolen_live _ _ _ _ _ H _ Hp) as (x & Hx & Hw).
    destruct (decide (p = q)) as [->|Hne].
    + rewrite lookup_insert_eq. exists r'. split; [done|]. intros HN.
      destruct HX as [[-> _]|[-> ->]]; [done|]. rewrite Hr in Hx. injection Hx as ->. auto.
    + rewrite lookup_insert_ne by done. exists x. split; [done|]. intros HN. apply Hw.
      eapply refiled_ne; [exact HX|done|done].
Qed.

End set_query.

Lemma core_set_query base W X X' c q r r' :
  core base W X c -> queries c !! q = Some r -> query_ok (nservers c) r' -> qid r' = qid r ->
  refiled q X X' (q_timeout r' = q_timeout r /\ q_server r' = q_server r /\
    try_count r' = try_count r /\ using_tcp r' = using_tcp r) ->
  (X' = Some q -> X <> X' ->
     sends (trace c) q <= try_count r' + (if using_tcp r' then 1 else 0)) ->
  (X' = Some q -> X = X' -> try_count r + (if using_tcp r then 1 else 0)
                            <= try_count r' + (if using_tcp r' then 1 else 0)) ->
  core base W X' (set_queries (<[q := r']> (queries c)) c).
Proof.
  intros [] Hr Hok Hid HX Hs1 Hs2. constructor; try done; cbn [queries set_queries trace].
  - intros p. rewrite c_live0. by rewrite (insert_is_Some _ _ r).
  - intros p x [[_ <-]|[_ Hp]]%lookup_insert_Some; [done|]. by apply (c_query0 p).
  - intros p x [[<- <-]|[Hne Hp]]%lookup_insert_Some Hx.
    + destruct HX as [[-> _]|[-> (-> & _ & -> & _)]]; [done|]. by apply (c_filed0 _ _ Hr).
    + apply (c_filed0 _ _ Hp). eapply refiled_ne; [exact HX|done|congruence].
  - eapply table_ok_insert; [exact Hr|exact c_qid0|]. right. split; [done|].
    unfold qid_key. by rewrite Hid.
  - eapply table_ok_insert; [exact Hr|exact c_timeout0|].
    destruct HX as [?|[? (E & _)]]; [by left|right]. split; [done|]. unfold timeout_key. by rewrite E.
  - eapply by_server_insert; [exact Hr|exact c_server0|].
    destruct HX as [?|[? (_ & E & _)]]; [by left|by right].
  - destruct c_sends0 as [Hf Ha Hl]. constructor; [done..|].
    intros p x [[<- <-]|[Hne Hp]]%lookup_insert_Some.
    + pose proof (Hl _ _ Hr) as Hb. destruct (decide (Some q = X')) as [E1|E1].
      * destruct (decide (X = X')) as [E2|E2].
        -- pose proof (Hs2 ltac:(congruence) E2). rewrite decide_True in Hb by congruence. cbn. lia.
        -- pose proof (Hs1 ltac:(congruence) E2). cbn. lia.
      * destruct HX as [[-> _]|[-> (_ & _ & -> & ->)]]; [done|]. rewrite decide_False in Hb; done.
    + pose proof (Hl _ _ Hp) as Hb. destruct (decide (Some p = X')) as [E1|E1].
      * destruct HX as [[-> _]|[-> _]]; [congruence|]. by rewrite decide_True in Hb.
      * rewrite decide_False in Hb; [done|]. eapply refiled_ne; [exact HX|done|congruence].
Qed.

Lemma sendqs_set_query c q r r' :
  sendqs_ok c -> queries c !! q = Some r -> tcpblk r' = tcpblk r -> tcplen r' = tcplen r ->
  sendqs_ok (set_queries (<[q := r']> (queries c)) c).
Proof.
  intros Hs Hr Hb Hl i s Hi. eapply Forall_impl; [exact (Hs _ _ Hi)|].
  intros sr [H0 H]. split; [done|]. destruct (owner_query sr) as [p|]; [|done].
  destruct H as (Hst & x & off & Hx & Hd & Ho & He). split; [done|]. cbn.
  destruct (decide (p = q)) as [->|Hne].
  - rewrite lookup_insert_eq. rewrite Hr in Hx. injection Hx as <-.
    exists r', off. by rewrite Hb, Hl.
  - rewrite lookup_insert_ne by done. by exists x, off.
Qed.

(** The steps taken on the query in hand before it is filed again. *)
Record held (q : Z) (c c' : chan) : Prop := {
  hd_cfg : cfg c' = cfg c;
  hd_flags : flags c' = flags c;
  hd_n : nservers c' = nservers c;
  hd_last : last_timeout_processed c' = last_timeout_processed c;
  hd_pkts : pkts c' = pkts c;
  hd_stolen : stolen c' = stolen c;
  hd_cancelled : cancelled c' = cancelled c;
  hd_timeout : queries_by_timeout c' = queries_by_timeout c;
  hd_others : forall p, p <> q -> queries c' !! p = queries c !! p }.

Lemma held_refl q c : held q c c.
Proof. by constructor. Qed.

Lemma held_trans q c c1 c2 : held q c c1 -> held q c1 c2 -> held q c c2.
Proof.
  intros [] []. constructor; try congruence. intros p Hne. by rewrite hd_others1, hd_others0.
Qed.

Lemma held_sframe q c c' : sframe 0 c c' -> held q c c'.
Proof.
  intros F. pose proof (sframe_nservers _ _ _ F). destruct F. constructor; try done.
  intros p _. by rewrite f_queries0.
Qed.

Lemma held_set_query q r c : held q c (set_queries (<[q := r]> (queries c)) c).
Proof. constructor; try done. intros p Hne. cbn. by rewrite lookup_insert_ne. Qed.

Lemma moved_held q now c c1 c' : held q c c1 -> moved q now c1 c' -> moved q now c c'.
Proof.
  intros H M. destruct H, M. constructor; try congruence.
  - intros E. apply mv_cancelled0. by rewrite hd_cancelled0.
  - intros p Hne. by rewrite mv_others0, hd_others0.
  - intros b. rewrite <- hd_timeout0. apply mv_bucket0.
  - done.
Qed.

(** ** Filing a query under its time-out and server *)

Lemma bucket_insert m b q b' :
  bucket (insert_bucket m b q) b' = if decide (b = b') then bucket m b ++ [q] else bucket m b'.
Proof.
  unfold insert_bucket, bucket at 1. case_decide as E.
  - subst. by rewrite lookup_insert_eq.
  - by rewrite lookup_insert_ne.
Qed.

Lemma NoDup_without_snoc q l : NoDup l -> NoDup (without q l ++ [q]).
Proof.
  intros Hn. apply NoDup_app. split_and!; [by apply NoDup_without| |apply NoDup_singleton].
  intros x [_ Hx]%elem_of_without. by rewrite list_elem_of_singleton.
Qed.

Lemma elem_of_without_snoc q p l : p ∈ without q l ++ [q] <-> p ∈ l \/ p = q.
Proof.
  rewrite elem_of_app, elem_of_without, list_elem_of_singleton.
  destruct (decide (p = q)); tauto.
Qed.

Lemma table_ok_file qs q r r' key m b :
  table_ok qs (Some q) key m -> qs !! q = Some r -> key r' = b ->
  table_ok (<[q := r']> qs) None key (insert_bucket (without q <$> m) b q).
Proof.
  intros H Hr Hk b'. rewrite bucket_insert. destruct (H b') as (Hn & Hl & Hi).
  assert (Hlive : forall p, p ∈ bucket m b' \/ p = q -> is_Some (<[q := r']> qs !! p)).
  { intros p Hp. destruct (decide (p = q)) as [->|Hne]; [rewrite lookup_insert_eq; by eexists|].
    rewrite lookup_insert_ne by done. apply Hl. by destruct Hp. }
  case_decide as E; [subst b'|]; rewrite bucket_without.
  - split_and!; [by apply NoDup_without_snoc| |].
    + intros p Hp%elem_of_without_snoc. by apply Hlive.
    + intros p x [[<- <-]|[Hne Hp]]%lookup_insert_Some _; rewrite elem_of_without_snoc; [tauto|].
      rewrite (Hi _ _ Hp) by congruence. intuition congruence.
  - split_and!; [by apply NoDup_without| |].
    + intros p [Hp _]%elem_of_without. apply Hlive. by left.
    + intros p x [[<- <-]|[Hne Hp]]%lookup_insert_Some _; rewrite elem_of_without; [intuition congruence|].
      rewrite (Hi _ _ Hp) by congruence. intuition congruence.
Qed.

Lemma by_server_file qs q r r' W l st i ql :
  by_server_ok qs W (Some q) l st -> qs !! q = Some r -> l !! i = Some ql -> q_server r' = i ->
  by_server_ok (<[q := r']> qs) W None (<[i := without q ql ++ [q]]> (without q <$> l))
    (without q st).
Proof.
  intros H Hr Hi Hk.
  assert (Hlk : forall j x, <[i := without q ql ++ [q]]> (without q <$> l) !! j = Some x ->
    exists y, l !! j = Some y /\ x = if decide (j = i) then without q y ++ [q] else without q y).
  { intros j x [(-> & <- & _)|(Hne & Hx)]%list_lookup_insert_Some.
    - exists ql. by rewrite decide_True.
    - rewrite list_lookup_fmap in Hx. destruct (l !! j) as [y|] eqn:Hj; [|done].
      injection Hx as <-. exists y. by rewrite decide_False. }
  constructor.
  - intros j x (y & Hy & ->)%Hlk. pose proof (bs_nodup _ _ _ _ _ H _ _ Hy).
    case_decide; [by apply NoDup_without_snoc|by apply NoDup_without].
  - intros j x p (y & Hy & ->)%Hlk Hp. destruct (decide (p = q)) as [->|Hne].
    { rewrite lookup_insert_eq. by eexists. }
    rewrite lookup_insert_ne by done. apply (bs_live _ _ _ _ _ H _ _ _ Hy).
    case_decide; [|by apply elem_of_without in Hp as [? _]].
    by apply elem_of_without_snoc in Hp as [?|?].
  - intros j x p z (y & Hy & ->)%Hlk [[<- <-]|[Hne Hp]]%lookup_insert_Some _.
    + rewrite (elem_of_without q q st). case_decide as E.
      * rewrite elem_of_without_snoc. intuition congruence.
      * rewrite elem_of_without. intuition congruence.
    + pose proof (bs_iff _ _ _ _ _ H _ _ _ _ Hy Hp ltac:(congruence)) as Hiff.
      rewrite (elem_of_without q p st). case_decide as E.
      * rewrite elem_of_without_snoc. intuition congruence.
      * rewrite elem_of_without. intuition congruence.
  - by eapply NoDup_without, bs_stolen.
  - intros p [Hp Hne]%elem_of_without. rewrite lookup_insert_ne by done.
    destruct (bs_stolen_live _ _ _ _ _ H _ Hp) as (x & Hx & Hw). exists x.
    split; [done|]. intros _. apply Hw. congruence.
Qed.

(** The state [arm_timeout] leaves. *)
Definition file_state (q : Z) (r : query) (t : timeval) (i : nat) (s : server_state) (zs : list Z)
    (h : heap) (c : chan) : chan :=
  Chan (cfg c) (flags c)
    (<[i := set_queries_to_server (without q (queries_to_server s) ++ [q]) s]>
      ((fun s => set_queries_to_server (without q (queries_to_server s)) s) <$> servers c))
    (tcp_connection_generation c) (last_timeout_processed c) (last_server c)
    (all_queries c) (cancelled c) (queries_by_qid c)
    (insert_bucket (without q <$> queries_by_timeout c)
       (Z.rem (tv_sec t) ARES_TIMEOUT_TABLE_SIZE) q)
    (without q (stolen c)) (<[q := set_q_timeout t r]> (queries c))
    (next_addr c) h zs (pkts c) (trace c).

Lemma core_file base W q r t i s zs h c e tr :
  core base W (Some q) (set_trace tr c) -> trace c = e :: tr ->
  ended_of e = None -> (forall p, sent_of p e = if decide (q = p) then 1 else 0) ->
  queries c !! q = Some r -> servers c !! i = Some s -> q_server r = i ->
  try_count r < Z.of_nat (nservers c) * tries (cfg c) ->
  last_timeout_processed c <= tv_sec t -> live h = live (mem c) ->
  core base W None (file_state q r t i s zs h c).
Proof.
  intros [] Ht He Hse Hr Hs Hsi Htry Hlast Hh.
  assert (Hn : nservers (file_state q r t i s zs h c) = nservers c).
  { unfold nservers; cbn. by rewrite length_insert, length_fmap. }
  change (nservers (set_trace tr c)) with (nservers c) in *.
  cbn [cfg flags servers last_server last_timeout_processed all_queries cancelled queries_by_qid
    queries_by_timeout stolen queries next_addr mem trace set_trace] in *.
  assert (Hok : query_ok (nservers c) (set_q_timeout t r)) by (by destruct (c_query0 _ _ Hr)).
  constructor; rewrite ?Hn; cbn [cfg flags servers last_server last_timeout_processed
    all_queries cancelled queries_by_qid queries_by_timeout stolen queries next_addr mem trace
    file_state]; try done.
  - intros p. rewrite c_live0. by rewrite (insert_is_Some _ _ r).
  - intros p x [[_ <-]|[_ Hp]]%lookup_insert_Some; [done|by apply (c_query0 p)].
  - intros p x [[<- <-]|[Hne Hp]]%lookup_insert_Some _; [done|]. apply (c_filed0 _ _ Hp). congruence.
  - eapply table_ok_insert; [exact Hr|exact c_qid0|by right].
  - by eapply table_ok_file.
  - rewrite list_fmap_insert, queries_requeue. cbn [queries_to_server set_queries_to_server].
    eapply by_server_file; [done..| |done]. by rewrite list_lookup_fmap, Hs.
  - split; [tauto|]. erewrite blocks_insert; [|by rewrite list_lookup_fmap, Hs].
    rewrite blocks_requeue. unfold server_blocks; cbn. lia.
  - split; [tauto|]. rewrite Ht. unfold ended; cbn. rewrite He. apply c_issued0.
  - rewrite Ht. destruct c_sends0 as [Hf Ha Hl]. pose proof (Hl _ _ Hr) as Hq.
    rewrite decide_True in Hq by done. constructor.
    + intros p Hp. cbn [sends]. rewrite Hse, (Hf _ Hp). case_decide; [subst p|done].
      exfalso. assert (Hin : q ∈ ended tr ++ all_queries c ++ cancelled c).
      { apply elem_of_app. right. apply c_live0. by eexists. }
      destruct c_issued0 as [_ Hi]. rewrite Hi in Hin. apply elem_of_seqZ in Hin. lia.
    + intros p. cbn [sends]. rewrite Hse. pose proof (Ha p). case_decide; [subst p|lia].
      destruct (using_tcp r); lia.
    + intros p x [[<- <-]|[Hne Hp]]%lookup_insert_Some; cbn [sends]; rewrite Hse.
      * rewrite decide_True, decide_False by done. cbn. lia.
      * pose proof (Hl _ _ Hp) as Hb. rewrite !decide_False in * by congruence. lia.
Qed.
