(* ===== verification/ResolverSend.v ===== *)
(** * Sending queries and moving them on (c-ares)

    Proofs about [ares__send_query], [next_server], [handle_error],
    [process_timeouts] and [process_broken_connections] of Resolver.v: they
    terminate, keep the invariant of ResolverInv.v and leave no expired
    query behind. *)

From S2P Require Import Prelude DnsWire ParseHost CreateQuery Channel Resolver ResolverInv.
Open Scope Z_scope.

(** ** Time *)

(** The clock reading of an operation: not before the last one processed. *)
Record now_ok (now : timeval) (c : chan) : Prop := {
  no_sec : last_timeout_processed c <= tv_sec now;
  no_usec : 0 <= tv_usec now < 1000000 }.

Lemma timeadd_future now ms :
  0 <= tv_usec now < 1000000 -> 1 <= ms ->
  tv_sec now <= tv_sec (timeadd now ms) /\ ares__timedout now (timeadd now ms) = false.
Proof.
  intros Hu Hm. unfold timeadd, ares__timedout.
  rewrite Z.quot_div_nonneg, Z.rem_mod_nonneg by lia.
  pose proof (Z.div_mod ms 1000 ltac:(lia)). pose proof (Z.mod_pos_bound ms 1000 ltac:(lia)).
  pose proof (Z.div_pos ms 1000 ltac:(lia) ltac:(lia)).
  destruct (Z.leb_spec 1000000 (tv_usec now + ms mod 1000 * 1000)); cbn;
    repeat cdec_one; split; try lia; try done.
Qed.

Lemma wp_attempt_timeout k n tc rnd h (Q : Z -> heap -> Prop) :
  config_ok k n -> 0 <= tc < Z.of_nat n * tries k ->
  (forall t, 1 <= t -> Q t h) ->
  wp (attempt_timeout (cfg_timeout k) tc n rnd) h Q.
Proof.
  intros [Hn Ht Hto Hov] Htc HQ. unfold attempt_timeout.
  rewrite Z.quot_div_nonneg by lia.
  set (e := tc / Z.of_nat n).
  assert (He : 0 <= e <= tries k - 1).
  { subst e. split; [apply Z.div_pos; lia|].
    assert (tc / Z.of_nat n < tries k); [|lia]. apply Z.div_lt_upper_bound; lia. }
  assert (Hp : 1 <= 2 ^ e <= 2 ^ (tries k - 1)).
  { split; [|apply Z.pow_le_mono_r; lia]. pose proof (Z.pow_pos_nonneg 2 e). lia. }
  assert (Hr : 0 <= Z.land rnd 7 <= 7).
  { change (Z.land rnd 7) with (Z.land rnd (Z.ones 3)). rewrite Z.land_ones by lia.
    pose proof (Z.mod_pos_bound rnd 8 ltac:(lia)). change (2 ^ 3) with 8. lia. }
  assert (Hm : cfg_timeout k * 2 ^ e * 16 <= INT_MAX) by nia.
  wp_step. unfold int_shl.
  rewrite (proj2 (Z.leb_le 0 _)), (proj2 (Z.ltb_lt e 32)), (proj2 (Z.leb_le (_ * _) _)) by lia.
  cbn [andb]. wp_step. wp_step. unfold int_mul.
  rewrite (proj2 (Z.leb_le INT_MIN _)), (proj2 (Z.leb_le (_ * _) INT_MAX)) by
    (unfold INT_MIN, INT_MAX in *; nia).
  cbn [andb]. wp_step. wp_step. apply HQ. rewrite Z.quot_div_nonneg by nia.
  apply Z.div_le_lower_bound; [lia|]. nia.
Qed.

Lemma rem_nonneg a : 0 <= a -> (0 <=? Z.rem a ARES_TIMEOUT_TABLE_SIZE) = true.
Proof. intros Ha. apply Z.leb_le, Z.rem_nonneg; [done|lia]. Qed.

(** ** Filing a query that was transmitted *)

Lemma file_moved q now r t i s zs h c :
  ares__timedout now t = false -> moved q now c (file_state q r t i s zs h c).
Proof.
  intros Ht. constructor; cbn; try done.
  - unfold nservers; cbn. by rewrite length_insert, length_fmap.
  - intros p Hne. by rewrite lookup_insert_ne.
  - intros b. rewrite bucket_insert. case_decide as E.
    + subst b. exists [q]. split; [by right|]. by rewrite bucket_without.
    + exists []. split; [by left|]. by rewrite bucket_without, app_nil_r.
  - intros x. rewrite lookup_insert_eq. by intros [= <-].
Qed.

Lemma file_sendqs_ok q r t i s zs h c :
  sendqs_ok c -> queries c !! q = Some r -> servers c !! i = Some s ->
  sendqs_ok (file_state q r t i s zs h c).
Proof.
  intros Hs Hr Hi.
  pose proof (sendqs_set_query _ _ _ (set_q_timeout t r) Hs Hr eq_refl eq_refl) as Hs'.
  intros j x. cbn. intros [(-> & <- & _)|(Hne & Hx)]%list_lookup_insert_Some.
  - apply (Hs' _ _ Hi).
  - rewrite list_lookup_fmap in Hx. destruct (servers c !! j) as [y|] eqn:E; [|done].
    injection Hx as <-. apply (Hs' _ _ E).
Qed.

Lemma file_recvs_ok q r t i s zs h c :
  recvs_ok c -> servers c !! i = Some s -> recvs_ok (file_state q r t i s zs h c).
Proof.
  intros Hs Hi j x. cbn. intros [(-> & <- & _)|(Hne & Hx)]%list_lookup_insert_Some.
  - by destruct (Hs _ _ Hi).
  - rewrite list_lookup_fmap in Hx. destruct (servers c !! j) as [y|] eqn:E; [|done].
    injection Hx as <-. by destruct (Hs _ _ E).
Qed.

(** The state after a transmission: the event is the newest one. *)
Definition transmitted (base : Z) (W : nat) (q : Z) (c : chan) : Prop :=
  exists i b bs tr, trace c = EvSent q i b bs :: tr /\ inv base W (Some q) (set_trace tr c).

Lemma ewp_arm base W q r c now :
  transmitted base W q c -> queries c !! q = Some r ->
  try_count r < Z.of_nat (nservers c) * tries (cfg c) -> now_ok now c ->
  ewp (arm_timeout q (q_server r) now) c (fun _ c' => inv base W None c' /\ moved q now c c').
Proof.
  intros (i & b & bs & tr & Htr & Hc & Hs & Hrv) Hr Htry Hnow.
  pose proof (c_query _ _ _ _ Hc _ _ Hr) as Hq. cbn in Hq.
  destruct (server_exists c (q_server r)) as [s Hi]; [apply (qo_server _ _ Hq)|].
  pose proof (qo_try _ _ Hq). unfold arm_timeout. do 7 ewp_step. ewp_step.
  do 2 ewp_step.
  apply (wp_attempt_timeout _ (nservers c)); [apply Hc|done|]. intros ms Hms.
  destruct (timeadd_future now ms) as [Hge Hfut]; [apply Hnow|done|].
  set (t := timeadd now ms) in *.
  assert (1 <= last_timeout_processed c) by apply Hc. pose proof (no_sec _ _ Hnow).
  unfold remove_by_timeout, insert_by_timeout, remove_to_server, insert_to_server.
  repeat ewp_step. apply ewp_assert; [apply rem_nonneg; lia|]. repeat ewp_step.
  eapply ewp_upd_server.
  { cbn. rewrite list_lookup_fmap, Hi. reflexivity. }
  match goal with |- inv _ _ _ ?c' /\ _ =>
    change c' with (file_state q r t (q_server r) s (ints c') (mem c) c) end.
  split; [split_and!|by apply file_moved].
  - eapply core_file; eauto; lia.
  - by apply file_sendqs_ok.
  - by apply file_recvs_ok.
Qed.

(** ** Opening a connection *)

Ltac as_auto :=
  repeat first
    [ progress as_step
    | match goal with
      | |- ewp (if ?b then _ else _) _ _ => destruct b
      | |- ewp (match ?x with _ => _ end) _ _ => destruct x
      end ].

Lemma as_configure fam i s d c0 c :
  at_server i s d c0 c ->
  ewp (configure_socket fam) c (fun _ c' => at_server i s d c0 c').
Proof. intros HA. unfold configure_socket. by as_auto. Qed.

Lemma as_open_conn tcp x i s d c0 c :
  at_server i s d c0 c -> ewp (open_conn tcp x) c (fun _ c' => at_server i s d c0 c').
Proof.
  intros HA. unfold open_conn, call_cb, ares__socket_close. do 2 as_step.
  destruct (a_family (s_addr x)) as [fam|]; [|by as_auto]. do 2 as_step.
  destruct (_ =? ARES_SOCKET_BAD); [by as_auto|]. as_step.
  eapply ewp_mono; [by apply as_configure|]. clear HA. intros ok ? HA. cbv beta in HA. by as_auto.
Qed.

(** Opening leaves the queues of the server alone. *)
Record reopened (s s' : server_state) : Prop := {
  re_sendq : sendq s' = sendq s;
  re_broken : is_broken s' = is_broken s;
  re_recv : recv_ok s -> recv_ok s' }.

Lemma ewp_open_tcp i s c :
  servers c !! i = Some s ->
  ewp (open_tcp_socket i) c (fun _ c' => exists s', at_server i s' 0 c c' /\ reopened s s').
Proof.
  intros Hs. pose proof (at_server_here _ _ _ Hs) as HA. unfold open_tcp_socket.
  apply ewp_bind. eapply as_get_server; [exact HA|]. as_step.
  eapply ewp_mono; [by apply as_open_conn|]. clear HA. intros [e|fd] c1 HA.
  - as_step. by exists s.
  - repeat as_step. as_count 0. eexists. split; [exact HA|]. constructor; [done..|].
    intros [H1 H2 H3]. constructor; [done..|]. cbn. destruct (tcp_lenbuf_pos s =? 2); [|done].
    destruct H3 as (buf & ? & ? & ?). exists buf. split_and!; [done..|lia].
Qed.

Lemma ewp_open_udp i s c :
  servers c !! i = Some s ->
  ewp (open_udp_socket i) c (fun _ c' => exists s', at_server i s' 0 c c' /\ reopened s s').
Proof.
  intros Hs. pose proof (at_server_here _ _ _ Hs) as HA. unfold open_udp_socket.
  apply ewp_bind. eapply as_get_server; [exact HA|]. as_step.
  eapply ewp_mono; [by apply as_open_conn|]. clear HA. intros [e|fd] c1 HA.
  - as_step. by exists s.
  - repeat as_step. as_count 0. eexists. split; [exact HA|]. constructor; [done..|].
    intros []. by constructor.
Qed.

Lemma inv_reopened base W X i s s' c c' :
  inv base W X c -> servers c !! i = Some s -> at_server i s' 0 c c' -> reopened s s' ->
  inv base W X c'.
Proof.
  intros (Hc & Hs & Hr) Hi HA []. split_and!; [by eapply core_at| |].
  - eapply sendqs_ok_at; [done..|]. rewrite re_sendq0, re_broken0. by apply Hs in Hi.
  - eapply recvs_ok_at; [done..|]. by apply Hr in Hi; auto.
Qed.

(** What [transmit] does, in its three outcomes. *)
Definition transmit_post (base : Z) (W : nat) (q : Z) (r : query) (c : chan) (t : option bool)
    (c' : chan) : Prop :=
  held q c c' /\
  (exists r', queries c' !! q = Some r' /\ q_server r' = q_server r /\
     try_count r' = try_count r) /\
  match t with
  | None => transmitted base W q c'
  | Some _ => inv base W (Some q) c'
  end.

Lemma set_trace_same c : set_trace (trace c) c = c.
Proof. by destruct c. Qed.

Lemma held_at q i s c c' : at_server i s 0 c c' -> held q c c'.
Proof. intros HA. apply held_sframe, HA. Qed.

Lemma query_at i s d c c' q r :
  at_server i s d c c' -> queries c !! q = Some r -> queries c' !! q = Some r.
Proof. intros HA. by rewrite (f_queries _ _ _ (as_frame _ _ _ _ _ HA)). Qed.

Lemma held_trace q t c : held q c (set_trace t c).
Proof. by constructor. Qed.

(** An update of the per-server information of the query in hand. *)
Lemma info_update base W X c q r i f :
  inv base W X c -> queries c !! q = Some r -> (i < nservers c)%nat ->
  ewp (upd_info q i f) c (fun _ c' => inv base W X c' /\ held q c c' /\
    exists l, length l = nservers c /\
      c' = set_queries (<[q := set_server_info l r]> (queries c)) c).
Proof.
  intros (Hc & Hs & Hrv) Hr Hi. pose proof (c_query _ _ _ _ Hc _ _ Hr) as Hq.
  destruct (lookup_lt_is_Some_2 (server_info r) i) as [x Hx]; [by rewrite (qo_info _ _ Hq)|].
  unfold upd_info. do 4 ewp_step. ewp_step.
  set (l := <[i := f x]> (server_info r)).
  assert (Hl : length l = nservers c) by (unfold l; rewrite length_insert; apply Hq).
  split_and!; [split_and!|apply held_set_query|by exists l].
  - eapply core_set_query; [exact Hc|exact Hr| |done|by right|done..].
    by destruct Hq; constructor.
  - by eapply sendqs_set_query.
  - done.
Qed.

Lemma queue_tcp_ok base W q r s c0 c :
  inv base W (Some q) c0 -> queries c0 !! q = Some r -> using_tcp r = true ->
  at_server (q_server r) s 1 c0 c ->
  Forall (req_ok (queries c0) (is_broken s)) (sendq s) -> recv_ok s ->
  ewp (queue_tcp q r) c (fun _ c' => held q c0 c' /\ transmitted base W q c' /\
    exists l, queries c' !! q = Some (set_server_info l r)).
Proof.
  intros (Hc & Hs & Hrv) Hr Ht HA HF Hro. pose proof (c_query _ _ _ _ Hc _ _ Hr) as Hq.
  unfold queue_tcp. as_step. as_step. apply ewp_bind.
  eapply (ewp_mono _ _ (fun _ c1 => at_server (q_server r) s 1 c0 c1)).
  { destruct (sendq s); by as_auto. }
  clear HA c. intros _ c HA. as_step. as_step.
  as_count 0. as_step.
  assert (HI : inv base W (Some q) c0) by done.
  assert (HI1 : inv base W (Some q) c).
  { split_and!; [by eapply core_at| |].
    - eapply sendqs_ok_at; [exact Hs|exact HA|]. cbn. apply Forall_app. split; [done|].
      apply Forall_singleton. pose proof (qo_tcplen _ _ Hq). pose proof (qo_qlen _ _ Hq).
      unfold HFIXEDSZ in *. split; [cbn; lia|]. split; [done|]. by exists r, 0.
    - eapply recvs_ok_at; [exact Hrv|exact HA|]. by destruct Hro. }
  pose proof (query_at _ _ _ _ _ _ _ HA Hr) as Hr1.
  eapply ewp_mono; [eapply info_update; [exact HI1|exact Hr1|]|].
  { rewrite (sframe_nservers _ _ _ (as_frame _ _ _ _ _ HA)). apply Hq. }
  intros _ c1 (HI2 & Hh & l & _ & ->). ewp_step. split_and!.
  - eapply held_trans; [by apply (held_at _ _ _ _ _ HA)|]. eapply held_trans; [exact Hh|].
    apply held_trace.
  - eexists _, _, _, _. split; [reflexivity|].
    by match goal with |- inv _ _ _ (set_trace ?t (set_trace _ ?d)) =>
      change (set_trace t (set_trace _ d)) with (set_trace (trace d) d) end;
    rewrite set_trace_same.
  - exists l. cbn. apply lookup_insert_eq.
Qed.

Lemma ewp_qbuf r c (Q : list Z -> chan -> Prop) :
  query_ok (nservers c) r -> (forall bs, Zlen bs = qlen r -> Q bs c) -> ewp (qbuf_bytes r) c Q.
Proof.
  intros Hq HQ. unfold qbuf_bytes. destruct (qo_buf _ _ Hq) as (bs & -> & Hl).
  pose proof (qo_tcplen _ _ Hq). pose proof (qo_qlen _ _ Hq). unfold HFIXEDSZ in *.
  rewrite (proj2 (Z.leb_le 0 _)), (proj2 (Z.leb_le (2 + _) _)) by lia.
  apply ewp_ret, HQ. unfold Zlen. rewrite slice_length; lia.
Qed.

Lemma inv_env base W X c c' :
  inv base W X c -> sframe 0 c c' -> servers c' = servers c -> inv base W X c'.
Proof.
  intros (Hc & Hs & Hr) F E. split_and!; [by eapply core_sframe| |].
  - intros i s. rewrite E, (f_queries _ _ _ F). apply Hs.
  - intros i s. rewrite E. apply Hr.
Qed.

Lemma ewp_transmit base W q r c :
  inv base W (Some q) c -> queries c !! q = Some r ->
  ewp (transmit q) c (transmit_post base W q r c).
Proof.
  intros HI Hr. pose proof HI as (Hc & Hs & Hrv). pose proof (c_query _ _ _ _ Hc _ _ Hr) as Hq.
  destruct (server_exists c (q_server r)) as [s Hi]; [apply Hq|].
  unfold transmit. do 3 ewp_step. ewp_step.
  assert (Hstay : forall b c1 s1, at_server (q_server r) s1 0 c c1 -> reopened s s1 ->
    transmit_post base W q r c (Some b) c1).
  { intros b c1 s1 HA Hre. split_and!; [by eapply held_at| |by eapply inv_reopened].
    exists r. split; [by eapply query_at|done]. }
  destruct (using_tcp r) eqn:Et; apply ewp_bind.
  - eapply (ewp_mono _ _ (fun _ c1 => exists s1, at_server (q_server r) s1 0 c c1 /\ reopened s s1)).
    { destruct (_ =? _); [by apply ewp_open_tcp|]. as_step. exists s.
      split; [by apply at_server_here|done]. }
    intros ok c1 (s1 & HA & Hre). destruct (ok =? -1); [as_step; by eapply Hstay|].
    as_step. eapply as_malloc; [exact HA|]. intros [] c2 HA2; cbn [negb]; [|as_step; by eapply Hstay].
    as_step. eapply ewp_mono; [eapply queue_tcp_ok; try done|].
    + destruct Hre as [-> -> _]. by apply Hs in Hi.
    + apply Hre. by apply Hrv in Hi.
    + intros _ c3 (Hh & Htr & l & Hl). as_step. split_and!; [done| |done].
      by eexists.
  - eapply (ewp_mono _ _ (fun _ c1 => exists s1, at_server (q_server r) s1 0 c c1 /\ reopened s s1)).
    { destruct (_ =? _); [by apply ewp_open_udp|]. as_step. exists s.
      split; [by apply at_server_here|done]. }
    intros ok c1 (s1 & HA & Hre). destruct (ok =? -1); [as_step; by eapply Hstay|].
    as_step. eapply ewp_qbuf.
    { rewrite (sframe_nservers _ _ _ (as_frame _ _ _ _ _ HA)). exact Hq. }
    intros bs Hb. as_step. as_step. destruct (_ =? -1); [as_step; by eapply Hstay|].
    as_step. ewp_step. as_step.
    destruct (Hstay true _ _ HA Hre) as (Hh & Hr1 & HI1).
    split_and!; [eapply held_trans; [exact Hh|apply held_trace]|done|].
    eexists _, _, _, _. split; [reflexivity|].
    match goal with |- inv _ _ _ (set_trace ?t (set_trace _ ?d)) =>
      change (set_trace t (set_trace _ d)) with (set_trace (trace d) d) end.
    by rewrite set_trace_same.
Qed.

(** ** The retry policy *)

Lemma ewp_skip_server base W X c q r i :
  inv base W X c -> queries c !! q = Some r -> (i < nservers c)%nat ->
  ewp (skip_server q i) c (fun _ c' => inv base W X c' /\ held q c c' /\
    exists l, queries c' !! q = Some (set_server_info l r)).
Proof.
  intros HI Hr Hi. unfold skip_server. do 2 ewp_step. destruct (_ <? _)%nat.
  - eapply ewp_mono; [by eapply info_update|]. intros _ c' (HI' & Hh & l & _ & ->).
    split_and!; [done..|]. exists l. cbn. apply lookup_insert_eq.
  - ewp_step. split_and!; [done|apply held_refl|]. exists (server_info r). by destruct r.
Qed.

(** Taking a query in hand for its next attempt. *)
Lemma inv_take base W X c q r r' :
  inv base W X c -> queries c !! q = Some r -> (X = None \/ X = Some q) ->
  query_ok (nservers c) r' -> qid r' = qid r -> tcpblk r' = tcpblk r -> tcplen r' = tcplen r ->
  try_count r + (if using_tcp r then 1 else 0) + (if decide (X = Some q) then 0 else 1)
    <= try_count r' + (if using_tcp r' then 1 else 0) ->
  inv base W (Some q) (set_queries (<[q := r']> (queries c)) c).
Proof.
  intros (Hc & Hs & Hrv) Hr HX Hok Hid Hb Hl Hle. split_and!; [|by eapply sendqs_set_query|done].
  pose proof (so_live _ _ _ _ _ _ (c_sends _ _ _ _ Hc) _ _ Hr) as Hso.
  eapply core_set_query; [exact Hc|exact Hr|done|done|by left| |].
  - intros _ Hne. rewrite decide_False in Hle by congruence. case_decide; lia.
  - intros _ ->. rewrite decide_True in Hle by done. lia.
Qed.

Section attempts.
Context (base : Z) (W : nat) (q : Z) (now : timeval).

(** The budget of attempts left decreases. *)
Definition attempts_left (c : chan) (r : query) : Z :=
  Z.of_nat (nservers c) * tries (cfg c) - try_count r.

Definition send_ok (fuel : nat) : Prop := forall c r,
  inv base W (Some q) c -> queries c !! q = Some r -> 0 < attempts_left c r ->
  now_ok now c -> 2 * attempts_left c r <= Z.of_nat fuel ->
  ewp (ares__send_query fuel q now) c (fun _ c' => inv base W None c' /\ moved q now c c').

Definition next_ok (fuel : nat) : Prop := forall c r X,
  inv base W X c -> (X = None \/ X = Some q) -> queries c !! q = Some r ->
  0 < attempts_left c r -> now_ok now c -> 2 * attempts_left c r - 1 <= Z.of_nat fuel ->
  ewp (next_server fuel q now) c (fun _ c' => inv base W None c' /\ moved q now c c').

Lemma now_held c c' : held q c c' -> now_ok now c -> now_ok now c'.
Proof. intros H [? ?]. split; [by rewrite (hd_last _ _ _ H)|done]. Qed.

Lemma left_held c c' r r' :
  held q c c' -> try_count r' = try_count r -> attempts_left c' r' = attempts_left c r.
Proof. intros H E. unfold attempts_left. by rewrite (hd_n _ _ _ H), (hd_cfg _ _ _ H), E. Qed.

Lemma send_step fuel : next_ok fuel -> send_ok (S fuel).
Proof.
  intros IH c r HI Hr Hleft Hnow Hf. cbn [ares__send_query]. do 2 ewp_step. ewp_step.
  eapply ewp_mono; [by eapply ewp_transmit|].
  intros t c1 (Hh & (r1 & Hr1 & Hsv & Htc) & Ht).
  assert (Hleft1 : attempts_left c1 r1 = attempts_left c r) by by apply left_held.
  destruct t as [[]|].
  - ewp_step. eapply ewp_mono; [eapply ewp_skip_server; [exact Ht|exact Hr1|]|].
    { rewrite <- Hsv. apply (c_query _ _ _ _ (proj1 Ht) _ _ Hr1). }
    intros _ c2 (HI2 & Hh2 & l & Hr2). eapply ewp_mono; [eapply (IH _ _ (Some q)); eauto|].
    + rewrite (left_held c1 _ r1) by done. lia.
    + eapply now_held; [|exact Hnow]. by eapply held_trans.
    + rewrite (left_held c1 _ r1) by done. lia.
    + intros _ c3 [HI3 Hm]. split; [done|]. eapply moved_held; [|exact Hm].
      by eapply held_trans.
  - eapply ewp_mono; [eapply (ewp_end_query _ _ _ _ _ _ _ _ now); eauto|].
    intros _ c2 (HI2 & Hm & _). split; [done|]. by eapply moved_held.
  - rewrite <- Hsv. eapply ewp_mono; [eapply ewp_arm; eauto|].
    + unfold attempts_left in *. lia.
    + by eapply now_held.
    + intros _ c2 [HI2 Hm]. split; [done|]. by eapply moved_held.
Qed.

Lemma next_step fuel : send_ok fuel -> next_ok fuel -> next_ok (S fuel).
Proof.
  intros IHs IHn c r X HI HX Hr Hleft Hnow Hf. cbn [next_server].
  pose proof (c_query _ _ _ _ (proj1 HI) _ _ Hr) as Hq. do 5 ewp_step. ewp_step.
  set (r1 := set_try_count _ _). set (c1 := set_queries _ _).
  assert (Hr1 : queries c1 !! q = Some r1) by apply lookup_insert_eq.
  assert (HI1 : inv base W (Some q) c1).
  { eapply inv_take; [exact HI|exact Hr|done| |done..|].
    - destruct Hq. constructor; try done. cbn. lia.
    - cbn. case_decide; lia. }
  assert (Hh1 : held q c c1) by apply held_set_query.
  do 2 ewp_step. cbv beta. change (try_count r1) with (try_count r + 1).
  destruct (Z.ltb_spec (try_count r + 1) (Z.of_nat (nservers c) * tries (cfg c))) as [Hlt|Hge].
  - set (i := (S (q_server r1) mod nservers c)%nat).
    assert (Hi : (i < nservers c)%nat).
    { apply Nat.mod_upper_bound. pose proof (qo_server _ _ Hq). lia. }
    do 2 ewp_step. set (r2 := set_q_server i r1). set (c2 := set_queries _ c1).
    assert (Hr2 : queries c2 !! q = Some r2) by apply lookup_insert_eq.
    assert (HI2 : inv base W (Some q) c2).
    { eapply inv_take; [exact HI1|exact Hr1|by right| |done..|].
      - destruct Hq. constructor; try done. cbn. lia.
      - cbn. case_decide; [lia|done]. }
    assert (Hh2 : held q c c2) by (eapply held_trans; [exact Hh1|apply held_set_query]).
    assert (Hleft2 : attempts_left c2 r2 = attempts_left c r - 1).
    { unfold attempts_left. rewrite (hd_n _ _ _ Hh2), (hd_cfg _ _ _ Hh2). cbn. lia. }
    assert (Hnow2 : now_ok now c2) by by eapply now_held.
    unfold attempts_left in Hleft, Hf, Hleft2.
    destruct (server_exists c2 i) as [s Hs]; [by rewrite (hd_n _ _ _ Hh2)|].
    destruct (lookup_lt_is_Some_2 (server_info r) i) as [x Hx]; [by rewrite (qo_info _ _ Hq)|].
    change (server_info r) with (server_info r1) in Hx.
    ewp_step. ewp_step. ewp_step. ewp_step.
    destruct (_ && _ && _).
    + eapply ewp_mono; [eapply (IHs _ _ HI2 Hr2); unfold attempts_left; auto; lia|].
      intros _ c3 [HI3 Hm]. split; [done|]. by eapply moved_held.
    + eapply ewp_mono; [eapply (IHn _ _ _ HI2 (or_intror eq_refl) Hr2);
        unfold attempts_left; auto; lia|].
      intros _ c3 [HI3 Hm]. split; [done|]. by eapply moved_held.
  - eapply ewp_mono; [eapply (ewp_end_query _ _ _ _ _ _ _ _ now); eauto|].
    intros _ c2 (HI2 & Hm & _). split; [done|]. by eapply moved_held.
Qed.

Lemma attempts_ok fuel : send_ok fuel /\ next_ok fuel.
Proof.
  induction fuel as [|fuel [IHs IHn]].
  - split; intros c r *; lia.
  - split; [by apply send_step|by apply next_step].
Qed.

End attempts.

Lemma fuel_enough base W X c q r :
  inv base W X c -> queries c !! q = Some r ->
  2 * attempts_left c r <= Z.of_nat (send_fuel c).
Proof.
  intros HI Hr. pose proof (qo_try _ _ (c_query _ _ _ _ (proj1 HI) _ _ Hr)).
  destruct (c_config _ _ _ _ (proj1 HI)). unfold attempts_left, send_fuel. lia.
Qed.

(** A query in hand is sent, or handed on, or ended. *)
Lemma ewp_send_query base W q r c now :
  inv base W (Some q) c -> queries c !! q = Some r -> 0 < attempts_left c r -> now_ok now c ->
  ewp (send_query q now) c (fun _ c' => inv base W None c' /\ moved q now c c').
Proof.
  intros HI Hr Hl Hn. unfold send_query. do 2 ewp_step.
  eapply (proj1 (attempts_ok _ _ _ _ _)); eauto. by eapply fuel_enough.
Qed.

Lemma ewp_try_next base W q r c now :
  inv base W None c -> queries c !! q = Some r -> now_ok now c ->
  ewp (try_next_server q now) c (fun _ c' => inv base W None c' /\ moved q now c c').
Proof.
  intros HI Hr Hn. unfold try_next_server. do 2 ewp_step.
  destruct (c_filed _ _ _ _ (proj1 HI) _ _ Hr ltac:(done)) as [Htry _].
  pose proof (fuel_enough _ _ _ _ _ _ HI Hr).
  eapply (proj2 (attempts_ok _ _ _ _ _)); eauto; unfold attempts_left in *; lia.
Qed.

(** ** Errors on a connection *)

(** What an operation on the whole channel leaves alone. *)
Record stable (c c' : chan) : Prop := {
  st_cfg : cfg c' = cfg c;
  st_flags : flags c' = flags c;
  st_n : nservers c' = nservers c;
  st_last : last_timeout_processed c' = last_timeout_processed c;
  st_pkts : (length (pkts c') <= length (pkts c))%nat;
  st_cancelled : cancelled c = [] -> cancelled c' = [] }.

#[export] Instance stable_preorder : PreOrder stable.
Proof.
  split; [by constructor|]. intros c1 c2 c3 [] []. constructor; try congruence; [lia|auto].
Qed.

Lemma stable_moved q now c c' : moved q now c c' -> stable c c'.
Proof. intros H. constructor; try apply H. by rewrite (mv_pkts _ _ _ _ H). Qed.

Lemma stable_held q c c' : held q c c' -> stable c c'.
Proof.
  intros H. constructor; try apply H; [by rewrite (hd_pkts _ _ _ H)|].
  by rewrite (hd_cancelled _ _ _ H).
Qed.

Lemma stable_sframe c c' : sframe 0 c c' -> stable c c'.
Proof. intros F. apply (stable_held 0), held_sframe, F. Qed.

Lemma now_stable now c c' : stable c c' -> now_ok now c -> now_ok now c'.
Proof. intros H [? ?]. split; [by rewrite (st_last _ _ H)|done]. Qed.

Lemma without_head q l : NoDup (q :: l) -> without q (q :: l) = l.
Proof.
  intros [Hq _]%NoDup_cons. unfold without. rewrite filter_cons_False by tauto.
  by apply without_not_elem.
Qed.

Lemma ewp_move_on base w now l fuel c :
  inv base w None c -> stolen c = l -> (length l <= fuel)%nat -> now_ok now c ->
  ewp (move_on fuel (head l) w now) c (fun _ c' => inv base w None c' /\ stolen c' = [] /\
    stable c c' /\ forall p, p ∉ l -> queries c' !! p = queries c !! p).
Proof.
  revert fuel c; induction l as [|q l IH]; intros fuel c HI Hst Hf Hnow; cbn [head].
  { destruct fuel; cbn [move_on]; ewp_step; by split_and!. }
  destruct fuel as [|fuel]; [cbn in Hf; lia|]. cbn [move_on]. do 2 ewp_step. cbv beta.
  rewrite Hst. cbn [node_next]. rewrite decide_True by done.
  pose proof (c_server _ _ _ _ (proj1 HI)) as Hbs. rewrite Hst in Hbs.
  destruct (bs_stolen_live _ _ _ _ _ Hbs q) as (r & Hr & Hw); [left|].
  specialize (Hw ltac:(done)). pose proof (bs_stolen _ _ _ _ _ Hbs) as Hnd.
  do 2 ewp_step. ewp_step. apply ewp_assert; [by apply bool_decide_eq_true|].
  ewp_step. eapply ewp_mono; [eapply ewp_skip_server; [exact HI|exact Hr|]|].
  { rewrite <- Hw. apply (c_query _ _ _ _ (proj1 HI) _ _ Hr). }
  intros _ c1 (HI1 & Hh & x & Hr1). ewp_step.
  eapply ewp_mono; [eapply ewp_try_next; [done..|by eapply now_held]|].
  intros _ c2 [HI2 Hm]. assert (Hst2 : stolen c2 = l).
  { rewrite (mv_stolen _ _ _ _ Hm), (hd_stolen _ _ _ Hh), Hst. by apply without_head. }
  assert (Hsb : stable c c2).
  { transitivity c1; [by eapply stable_held|by eapply stable_moved]. }
  eapply ewp_mono; [apply (IH _ _ HI2 Hst2); [cbn in Hf; lia|by eapply now_stable]|].
  intros _ c3 (HI3 & Hst3 & Hsb3 & Ho). split_and!; [done|done|by transitivity c2|].
  intros p [Hpq Hpl]%not_elem_of_cons. rewrite (Ho _ Hpl).
  rewrite (mv_others _ _ _ _ Hm), (hd_others _ _ _ Hh) by done. done.
Qed.

Lemma by_server_any_W qs W W' X l : by_server_ok qs W X l [] -> by_server_ok qs W' X l [].
Proof. intros []. constructor; try done. intros q []%not_elem_of_nil. Qed.

Lemma by_server_steal qs W w l ql :
  by_server_ok qs W None l [] -> l !! w = Some ql ->
  by_server_ok qs w None (<[w := []]> l) ql.
Proof.
  intros H Hw. constructor.
  - intros i x [(_ & <- & _)|(_ & Hx)]%list_lookup_insert_Some; [constructor|by eapply bs_nodup].
  - intros i x p [(_ & <- & _)|(_ & Hx)]%list_lookup_insert_Some Hp.
    + by apply not_elem_of_nil in Hp.
    + by eapply bs_live.
  - intros i x p r [(-> & <- & _)|(Hne & Hx)]%list_lookup_insert_Some Hp _.
    + rewrite (bs_iff _ _ _ _ _ H _ _ _ _ Hw Hp) by done.
      rewrite elem_of_nil. intuition.
    + rewrite (bs_iff _ _ _ _ _ H _ _ _ _ Hx Hp), (bs_iff _ _ _ _ _ H _ _ _ _ Hw Hp) by done.
      rewrite elem_of_nil. intuition congruence.
  - by eapply bs_nodup.
  - intros p Hp. destruct (bs_live _ _ _ _ _ H _ _ _ Hw Hp) as [r Hr]. exists r.
    split; [done|]. intros _. by apply (bs_iff _ _ _ _ _ H _ _ _ _ Hw Hr).
Qed.

(** The state in which a handler starts: the lists are complete. *)
Definition ready (base : Z) (c : chan) : Prop :=
  (forall W, inv base W None c) /\ stolen c = [] /\ cancelled c = [].

Lemma ready_intro base W c : inv base W None c -> stolen c = [] -> cancelled c = [] -> ready base c.
Proof.
  intros ([] & Hs & Hr) Hst Hca. split_and!; [|done..]. intros W'. split_and!; [|done..].
  constructor; try done. rewrite Hst in *. by eapply by_server_any_W.
Qed.

Lemma core_steal base W w s c :
  core base W None c -> stolen c = [] -> servers c !! w = Some s ->
  core base w None (set_servers (<[w := set_queries_to_server [] s]> (servers c))
                      (set_stolen (queries_to_server s) c)).
Proof.
  intros [] Hst Hs.
  assert (Hn : nservers (set_servers (<[w := set_queries_to_server [] s]> (servers c))
                           (set_stolen (queries_to_server s) c)) = nservers c).
  { unfold nservers; cbn. by rewrite length_insert. }
  constructor; rewrite ?Hn; try done; cbn [servers set_servers stolen set_stolen queries mem
    all_queries cancelled].
  - rewrite list_fmap_insert. cbn [queries_to_server set_queries_to_server]. rewrite Hst in *.
    eapply by_server_steal; [done|]. by rewrite list_lookup_fmap, Hs.
  - split; [tauto|]. rewrite (blocks_insert _ _ _ _ Hs). unfold server_blocks; cbn.
    lia.
Qed.

(** Ready, except that the receive buffer of server [w] is being set up. *)
Definition ready_but (base : Z) (w : nat) (c : chan) : Prop :=
  (forall W, core base W None c) /\ sendqs_ok c /\ stolen c = [] /\ cancelled c = [] /\
  forall j s, servers c !! j = Some s ->
    length (tcp_lenbuf s) = 2%nat /\ (j <> w -> recv_ok s).

Lemma ready_ready_but base w c : ready base c -> ready_but base w c.
Proof.
  intros (HI & Hst & Hca). split_and!; [intros W; apply HI|apply (HI 0%nat)|done..|].
  intros j s Hs. pose proof (proj2 (proj2 (HI 0%nat)) _ _ Hs) as Hr. split; [apply Hr|done].
Qed.

(** [handle_error]: the queries in flight to the server are retried or ended,
    the others are untouched; both assertions hold. *)
Lemma ewp_handle_error base w now c :
  ready_but base w c -> (w < nservers c)%nat -> now_ok now c ->
  ewp (handle_error w now) c (fun _ c' => ready base c' /\ stable c c' /\
    forall p r, queries c !! p = Some r -> q_server r <> w -> queries c' !! p = Some r).
Proof.
  intros (Hc & Hs & Hst & Hca & Hrv) Hw Hnow. unfold handle_error.
  destruct (server_exists _ _ Hw) as [s Hl]. ewp_step.
  eapply ewp_mono; [apply (ewp_close _ _ _ Hl), (core_funded _ _ _ _ (Hc w))|].
  intros _ c1 (s1 & Hcl & HA). pose proof (as_frame _ _ _ _ _ HA) as F.
  pose proof (at_server_lookup _ _ _ _ _ HA) as Hl1.
  assert (Hc1 : core base w None c1) by (eapply core_sframe; [apply Hc|done]).
  assert (Hs1 : sendqs_ok c1).
  { eapply sendqs_ok_at; [done..|]. by rewrite (cl_queue _ _ Hcl). }
  assert (Hr1 : recvs_ok c1).
  { intros j x Hj. rewrite (as_servers _ _ _ _ _ HA) in Hj.
    apply list_lookup_insert_Some in Hj as [(_ & <- & _)|(Hne & Hj)].
    - eapply closed_recv_ok; [exact Hcl|apply (proj1 (Hrv _ _ Hl))].
    - by apply (proj2 (Hrv _ _ Hj)). }
  do 4 ewp_step. ewp_step. eapply ewp_upd_server; [exact Hl1|]. do 2 ewp_step. ewp_step.
  set (c2 := set_servers _ _).
  assert (Hst1 : stolen c1 = []) by (by rewrite (f_stolen _ _ _ F)).
  assert (HI2 : inv base w None c2).
  { split_and!; [exact (core_steal _ _ _ _ _ Hc1 Hst1 Hl1)| |].
    - intros j x [(_ & <- & _)|(_ & Hx)]%list_lookup_insert_Some; [|by eapply Hs1].
      apply (Hs1 _ _ Hl1).
    - intros j x [(_ & <- & _)|(_ & Hx)]%list_lookup_insert_Some; [|by eapply Hr1].
      by destruct (Hr1 _ _ Hl1). }
  assert (Hsb : stable c c2).
  { destruct F. constructor; cbn; try done; [|by rewrite f_pkts|congruence].
    unfold nservers, c2; cbn. rewrite length_insert.
    apply (sframe_nservers _ _ _ (as_frame _ _ _ _ _ HA)). }
  eapply ewp_mono; [apply (ewp_move_on base w now (stolen c2)); [done..|by eapply now_stable]|].
  intros _ c3 (HI3 & Hst3 & Hsb3 & Ho). ewp_step. ewp_step.
  apply ewp_assert; [by rewrite Hst3|]. split_and!.
  - eapply ready_intro; [done..|]. apply (st_cancelled _ _ Hsb3), (st_cancelled _ _ Hsb), Hca.
  - by transitivity c2.
  - intros p r Hp Hne. rewrite Ho.
    + cbn. by rewrite (f_queries _ _ _ F).
    + cbn. rewrite (cl_queries _ _ Hcl). intros Hin.
      apply (bs_iff _ _ _ _ _ (c_server _ _ _ _ (Hc 0%nat)) w _ p r) in Hin as [? _];
        [done|by rewrite list_lookup_fmap, Hl|done|done].
Qed.

Lemma ewp_process_broken base now c :
  ready base c -> now_ok now c ->
  ewp (process_broken_connections now) c (fun _ c' => ready base c' /\ stable c c').
Proof.
  intros HR Hnow. unfold process_broken_connections.
  apply (ewp_for_servers _ () c (fun _ c' => ready base c' /\ stable c c')); [done|].
  intros i [] c1 Hi (HR1 & Hsb). rewrite <- (st_n _ _ Hsb) in Hi.
  destruct (server_exists _ _ Hi) as [s Hs]. ewp_step. ewp_step. ewp_step.
  eapply (ewp_mono _ _ (fun _ c' => ready base c' /\ stable c c')).
  - destruct (is_broken s); [|by ewp_step].
    eapply ewp_mono; [apply ewp_handle_error; [by apply ready_ready_but|done|by eapply now_stable]|].
    intros _ c2 (HR2 & Hsb2 & _). split; [done|by transitivity c1].
  - intros _ c2 H. by ewp_step.
Qed.

(** ** Time-outs *)

(** The test of [process_timeouts]. *)
Definition expired (now : timeval) (r : query) : bool :=
  negb (tv_sec (q_timeout r) =? 0) && ares__timedout now (q_timeout r).

(** Queries that are expired afterwards were there, unchanged, before. *)
Definition aged (now : timeval) (c c' : chan) : Prop :=
  forall p r, queries c' !! p = Some r -> expired now r = true -> queries c !! p = Some r.

#[export] Instance aged_preorder now : PreOrder (aged now).
Proof. split; [by intros c p r|]. intros c1 c2 c3 H1 H2 p r Hp He. eauto. Qed.

Lemma aged_moved q now c c' : moved q now c c' -> aged now c c'.
Proof.
  intros Hm p r Hp He. destruct (decide (p = q)) as [->|Hne].
  - apply (mv_future _ _ _ _ Hm) in Hp. unfold expired in He. rewrite Hp, andb_false_r in He. done.
  - by rewrite <- (mv_others _ _ _ _ Hm).
Qed.

(** Queries that are not expired are left alone. *)
Definition kept (now : timeval) (c c' : chan) : Prop :=
  forall p r, queries c !! p = Some r -> expired now r = false -> queries c' !! p = Some r.

#[export] Instance kept_preorder now : PreOrder (kept now).
Proof. split; [by intros c p r|]. intros c1 c2 c3 H1 H2 p r Hp He. eauto. Qed.

Lemma kept_moved q r now c c' :
  moved q now c c' -> queries c !! q = Some r -> expired now r = true -> kept now c c'.
Proof.
  intros Hm Hr He p x Hp Hx. rewrite (mv_others _ _ _ _ Hm); [done|].
  intros ->. rewrite Hr in Hp. congruence.
Qed.

(** The steps the loop over a bucket can still take: two for an expired query,
    which is filed again at the end, one for another. *)
Fixpoint visits (now : timeval) (qs : gmap Z query) (l : list Z) : nat :=
  match l with
  | [] => 0
  | q :: l' =>
      (if default false (expired now <$> qs !! q) then 2 else 1) + visits now qs l'
  end.

Lemma visits_le now qs l : (visits now qs l <= 2 * length l)%nat.
Proof. induction l; cbn; [lia|]. destruct (default _ _); lia. Qed.

Lemma visits_app now qs l1 l2 : visits now qs (l1 ++ l2) = (visits now qs l1 + visits now qs l2)%nat.
Proof. induction l1; cbn; lia. Qed.

Lemma visits_ext now qs qs' l :
  (forall p, p ∈ l -> qs' !! p = qs !! p) -> visits now qs' l = visits now qs l.
Proof.
  induction l as [|q l IH]; intros H; cbn; [done|]. rewrite (H q) by left.
  f_equal. apply IH. intros p Hp. apply H. by right.
Qed.

Lemma node_next_middle pre q suf :
  q ∉ pre -> node_next (pre ++ q :: suf) q = Some (head suf).
Proof.
  induction pre as [|x pre IH]; intros Hq; cbn [app node_next].
  - by rewrite decide_True.
  - apply not_elem_of_cons in Hq as [Hx Hq]. rewrite decide_False by congruence. auto.
Qed.

(** No expired query in the list. *)
Definition all_fresh (now : timeval) (c : chan) (l : list Z) : Prop :=
  forall p r, p ∈ l -> queries c !! p = Some r -> expired now r = false.

Lemma all_fresh_app now c l1 l2 :
  all_fresh now c (l1 ++ l2) <-> all_fresh now c l1 /\ all_fresh now c l2.
Proof.
  unfold all_fresh. setoid_rewrite elem_of_app. split; [intros H; split; eauto|].
  intros [H1 H2] p r [?|?]; eauto.
Qed.

Lemma all_fresh_aged now c c' l : aged now c c' -> all_fresh now c l -> all_fresh now c' l.
Proof.
  intros Ha H p r Hp Hr. destruct (expired now r) eqn:E; [|done].
  rewrite <- E. eapply H; [done|by apply Ha].
Qed.

Lemma ready_moved base W q now c c' :
  ready base c -> inv base W None c' -> moved q now c c' -> ready base c'.
Proof.
  intros (_ & Hst & Hca) HI Hm. eapply ready_intro; [exact HI| |by apply (mv_cancelled _ _ _ _ Hm)].
  by rewrite (mv_stolen _ _ _ _ Hm), Hst.
Qed.

(** The record of a query changed but not what it is filed under. *)
Lemma inv_note base W c q r r' :
  inv base W None c -> queries c !! q = Some r -> query_ok (nservers c) r' ->
  qid r' = qid r -> tcpblk r' = tcpblk r -> tcplen r' = tcplen r ->
  q_timeout r' = q_timeout r -> q_server r' = q_server r -> try_count r' = try_count r ->
  using_tcp r' = using_tcp r ->
  inv base W None (set_queries (<[q := r']> (queries c)) c).
Proof.
  intros (Hc & Hs & Hrv) Hr **. split_and!; [|by eapply sendqs_set_query|done].
  eapply core_set_query; [exact Hc|exact Hr|done|done|by right|done..].
Qed.

Definition timeouts_post (base : Z) (now : timeval) (c c' : chan) : Prop :=
  ready base c' /\ stable c c' /\ aged now c c' /\ kept now c c'.

Lemma timeouts_post_trans base now c1 c2 c3 :
  stable c1 c2 -> aged now c1 c2 -> kept now c1 c2 -> timeouts_post base now c2 c3 -> timeouts_post base now c1 c3.
Proof.
  intros Hs Ha Hk (HR & Hs' & Ha' & Hk'). split_and!; [done|by transitivity c2..].
Qed.

(** Moving an expired query on, as the loop does. *)
Lemma ewp_expire base now c q r :
  ready base c -> now_ok now c -> queries c !! q = Some r ->
  ewp (upd_query q (fun r => set_timeouts (timeouts r + 1) (set_error_status ARES_ETIMEOUT r)) ;;
       try_next_server q now) c
    (fun _ c' => ready base c' /\ moved q now c c').
Proof.
  intros HR Hnow Hr. pose proof (proj1 HR 0%nat) as HI.
  pose proof (c_query _ _ _ _ (proj1 HI) _ _ Hr) as Hq. do 2 ewp_step.
  set (r1 := set_timeouts _ _). set (c1 := set_queries _ _).
  assert (HI1 : inv base 0 None c1).
  { eapply inv_note; try done. by destruct Hq. }
  assert (Hh : held q c c1) by apply held_set_query.
  eapply ewp_mono; [eapply ewp_try_next; [exact HI1|apply lookup_insert_eq|]|].
  { eapply now_held; [exact Hh|done]. }
  intros _ c2 [HI2 Hm]. pose proof (moved_held _ _ _ _ _ Hh Hm) as Hm'. split; [|done].
  by eapply ready_moved.
Qed.

Lemma ewp_timeout_bucket base now b pre suf fuel c :
  ready base c -> now_ok now c -> bucket (queries_by_timeout c) b = pre ++ suf ->
  all_fresh now c pre -> (visits now (queries c) suf <= fuel)%nat ->
  ewp (timeout_bucket fuel b (head suf) now) c (fun _ c' => timeouts_post base now c c' /\
    all_fresh now c' (bucket (queries_by_timeout c') b)).
Proof.
  revert pre suf c; induction fuel as [|fuel IH]; intros pre [|q suf] c HR Hnow Hb Hpre Hf;
    cbn [timeout_bucket head].
  1, 3: ewp_step; split; [by split_and!|]; by rewrite Hb, app_nil_r.
  { cbn in Hf. destruct (default _ _); lia. }
  pose proof (proj1 HR 0%nat) as HI.
  destruct (c_timeout _ _ _ _ (proj1 HI) b) as (Hnd & Hlive & _). rewrite Hb in Hnd, Hlive.
  pose proof Hnd as (Hnd1 & Hdis & Hnd2)%NoDup_app. apply NoDup_cons in Hnd2 as [Hqs Hnd2].
  assert (Hqp : q ∉ pre). { intros Hp. apply (Hdis _ Hp). left. }
  destruct (Hlive q) as [r Hr]; [apply elem_of_app; right; left|].
  do 2 ewp_step. cbv beta. rewrite Hb, node_next_middle by done. do 2 ewp_step. ewp_step.
  fold (expired now r). cbn [visits] in Hf. rewrite Hr in Hf. cbn in Hf.
  destruct (expired now r) eqn:Ee.
  - eapply ewp_mono; [by eapply ewp_expire|]. intros _ c1 [HR1 Hm].
    pose proof (kept_moved _ _ _ _ _ Hm Hr Ee) as Hk.
    pose proof (aged_moved _ _ _ _ Hm) as Ha. pose proof (stable_moved _ _ _ _ Hm) as Hsb.
    destruct (mv_bucket _ _ _ _ Hm b) as (tl & Htl & Hb1). rewrite Hb in Hb1.
    rewrite without_app, (without_not_elem _ pre), without_head, <- app_assoc in Hb1;
      [|by apply NoDup_cons|done].
    assert (Hfresh : forall l, all_fresh now c1 (q :: l) <-> all_fresh now c1 l).
    { intros l. change (q :: l) with ([q] ++ l). rewrite all_fresh_app. split; [tauto|].
      intros H. split; [|done]. intros p x ->%list_elem_of_singleton Hx.
      unfold expired. by rewrite (mv_future _ _ _ _ Hm _ Hx), andb_false_r. }
    assert (Htail : all_fresh now c1 tl).
    { destruct Htl as [-> | ->]; [|apply Hfresh]; intros p x []%not_elem_of_nil. }
    pose proof (all_fresh_aged _ _ _ _ Ha Hpre) as Hpre1.
    assert (Hnext : exists pre' suf', head suf = head suf' /\ pre ++ suf ++ tl = pre' ++ suf' /\
      all_fresh now c1 pre' /\ (visits now (queries c1) suf' <= fuel)%nat).
    { destruct suf as [|y suf].
      - exists (pre ++ tl), []. split_and!; [done|by rewrite app_nil_r|by apply all_fresh_app|cbn; lia].
      - exists pre, ((y :: suf) ++ tl). split_and!; [done|done|done|].
        rewrite visits_app, (visits_ext _ (queries c)).
        + assert (visits now (queries c1) tl <= 1)%nat; [|lia].
          destruct Htl as [-> | ->]; cbn [visits]; [lia|].
          destruct (queries c1 !! q) as [x|] eqn:Ex; cbn; [|lia].
          unfold expired. rewrite (mv_future _ _ _ _ Hm _ Ex), andb_false_r. lia.
        + intros p Hp. apply (mv_others _ _ _ _ Hm). congruence. }
    destruct Hnext as (pre' & suf' & -> & Hsplit & Hpre' & Hf'). rewrite Hsplit in Hb1.
    eapply ewp_mono; [apply (IH _ _ _ HR1 (now_stable _ _ _ Hsb Hnow) Hb1 Hpre' Hf')|].
    intros _ c2 [HP Hfr]. split; [by eapply timeouts_post_trans|done].
  - ewp_step. apply (IH (pre ++ [q]) suf); [done|done|by rewrite <- app_assoc| |lia].
    apply all_fresh_app. split; [done|]. intros p x ->%list_elem_of_singleton Hx. congruence.
Qed.

Lemma ewp_timeout_seconds base now n t c :
  ready base c -> now_ok now c -> 0 <= t ->
  ewp (timeout_seconds n t now) c (fun _ c' => timeouts_post base now c c' /\
    forall p r, queries c' !! p = Some r -> t <= tv_sec (q_timeout r) < t + Z.of_nat n ->
      expired now r = false).
Proof.
  revert t c; induction n as [|n IH]; intros t c HR Hnow Ht; cbn [timeout_seconds].
  - ewp_step. split; [by split_and!|]. intros; lia.
  - ewp_step. apply ewp_assert; [by apply rem_nonneg|]. do 2 ewp_step. ewp_step.
    set (b := Z.rem t ARES_TIMEOUT_TABLE_SIZE).
    eapply ewp_mono; [apply (ewp_timeout_bucket base now b [] (bucket (queries_by_timeout c) b))|].
    + done.
    + done.
    + done.
    + intros p r []%not_elem_of_nil.
    + apply visits_le.
    + intros _ c1 [(HR1 & Hsb & Ha & Hk) Hfr].
      eapply ewp_mono; [apply (IH (t + 1) _ HR1 (now_stable _ _ _ Hsb Hnow)); lia|].
      intros _ c2 [HP2 Hrest]. pose proof HP2 as (_ & _ & Ha2 & _).
      split; [by eapply timeouts_post_trans|].
      intros p r Hp Hrange. destruct (decide (tv_sec (q_timeout r) = t)) as [Et|Hne].
      * destruct (expired now r) eqn:Ee; [|done]. rewrite <- Ee. pose proof (Ha2 _ _ Hp Ee) as Hp1.
        apply (Hfr p); [|done].
        apply (c_timeout _ _ _ _ (proj1 (proj1 HR1 0%nat)) b) with (r := r); [done|done|].
        unfold timeout_key. by rewrite Et.
      * apply (Hrest _ _ Hp). lia.
Qed.

(** After [process_timeouts] no live query is expired, and the next scan may
    start at the present second. *)
Lemma ewp_process_timeouts base now c :
  ready base c -> now_ok now c ->
  ewp (process_timeouts now) c (fun _ c' => ready base c' /\ cfg c' = cfg c /\
    flags c' = flags c /\ nservers c' = nservers c /\ (length (pkts c') <= length (pkts c))%nat /\
    last_timeout_processed c' = tv_sec now /\ kept now c c' /\
    map_Forall (fun _ r => expired now r = false) (queries c')).
Proof.
  intros HR Hnow. unfold process_timeouts. do 3 ewp_step.
  pose proof (proj2 (c_last _ _ _ _ (proj1 (proj1 HR 0%nat)))) as Hlast.
  pose proof (no_sec _ _ Hnow).
  eapply ewp_mono; [apply (ewp_timeout_seconds base); [done|done|lia]|].
  intros _ c1 [(HR1 & Hsb & Ha & Hk) Hfr]. ewp_step. destruct HR1 as (HI1 & Hst1 & Hca1).
  assert (Hall : map_Forall (fun _ r => expired now r = false) (queries c1)).
  { intros p r Hp.
    destruct (c_filed _ _ _ _ (proj1 (HI1 0%nat)) _ _ Hp ltac:(done)) as [_ Hge].
    rewrite (st_last _ _ Hsb) in Hge.
    destruct (Z.le_gt_cases (tv_sec (q_timeout r)) (tv_sec now)) as [Hle|Hgt].
    - apply (Hfr p); [done|lia].
    - unfold expired, ares__timedout. destruct (Z.ltb_spec 0 (tv_sec now - tv_sec (q_timeout r)));
        [lia|]. destruct (Z.ltb_spec (tv_sec now - tv_sec (q_timeout r)) 0); [|lia].
      by rewrite andb_false_r. }
  split_and!; try apply Hsb; try done.
  split_and!; [|done..]. intros W. destruct (HI1 W) as (Hc & Hs & Hr). split_and!; [|done..].
  destruct Hc. constructor; try done.
  - cbn. split; [apply c_last|lia].
  - intros q r Hq Hne. destruct (c_filed _ _ Hq Hne) as [Htry Hge]. split; [done|].
    cbn. rewrite (st_last _ _ Hsb) in Hge. specialize (Hall _ _ Hq). cbn in Hall.
    unfold expired, ares__timedout in Hall.
    destruct (Z.eqb_spec (tv_sec (q_timeout r)) 0); [lia|]. cbn in Hall.
    destruct (Z.ltb_spec 0 (tv_sec now - tv_sec (q_timeout r))); [done|lia].
Qed.
