(* ===== verification/ResolverAnswer.v ===== *)
(** * Answers: matching them with queries (c-ares)

    Proofs about [same_questions], [find_query] and [process_answer] of
    Resolver.v: which answers are accepted for a query, and that handling an
    answer keeps the invariant. *)

From S2P Require Import Prelude DnsWire ParseList ParseHost CreateQuery Channel.
From S2P Require Import Resolver ResolverInv ResolverSend.
Open Scope Z_scope.

(** ** The questions of a message *)

(** [questions buf n p l]: from offset [p] the message holds [n] well-formed
    questions, whose names, types and classes are [l]. *)
Inductive questions (buf : list Z) : nat -> Z -> list (list Z * Z * Z) -> Prop :=
| questions_nil p : questions buf 0 p []
| questions_cons n p ls k tr t c l :
    name_at buf p ls k tr -> u16_at buf (p + k) t -> u16_at buf (p + k + 2) c ->
    questions buf n (p + k + 4) l ->
    questions buf (S n) p ((expanded ls, t, c) :: l).

(** Two questions are the same: the names up to case, type and class. *)
Definition same_question (x y : list Z * Z * Z) : Prop :=
  ares_strcasecmp x.1.1 y.1.1 = 0 /\ x.1.2 = y.1.2 /\ x.2 = y.2.

(** One of the first questions of the answer is [x]. *)
Definition answered (abuf : list Z) (n : nat) (p : Z) (x : list Z * Z * Z) : Prop :=
  exists m l y, (m <= n)%nat /\ questions abuf m p l /\ y ∈ l /\ same_question x y.

(** The contract of [find_question] and [match_questions] about the result. *)
Definition decides (h : heap) (b : bool) (P : Prop) : Prop :=
  (b = true -> P) /\ (oracle h = [] -> P -> b = true).

(** No question can be read at [p]. *)
Lemma not_answered abuf n p x :
  (forall ls k tr, name_at abuf p ls k tr -> Zlen abuf < p + k + 4) -> ~ answered abuf n p x.
Proof.
  intros Hno (m & l & y & _ & Hq & Hy & _). destruct Hq as [p|m p ls k tr t c l Hn Ht Hc];
    [by apply not_elem_of_nil in Hy|].
  apply Hno in Hn. destruct Hc as (b0 & b1 & _ & Hb%byte_at_Some & _). lia.
Qed.

Section find.
Context (abuf : list Z) (x : list Z * Z * Z).
Hypothesis Hlen : Zlen abuf <= 32767.

Lemma wp_find_question n p h :
  0 <= p -> 1 <= live h ->
  wp (find_question abuf n p x.1.1 x.1.2 x.2) h (fun r h' =>
    live h' = live h - (if r is Some _ then 0 else 1) /\ (oracle h = [] -> oracle h' = []) /\
    decides h (default false r) (answered abuf n p x)).
Proof.
  revert p h; induction n as [|n IH]; intros p h Hp Hl; cbn [find_question].
  - wp_step. cbn. split_and!; [lia|done|]. split; [done|].
    intros _ (m & l & y & Hm & Hq & Hy & _). destruct m; [|lia].
    inversion Hq; subst. by apply not_elem_of_nil in Hy.
  - wp_step. eapply wp_mono; [by apply wp_ares_expand_name|].
    intros [st|[aname k]] h1 Hpost; cbn in Hpost.
    + (* no name *)
      assert (Hl1 : live h1 = live h /\ (oracle h = [] -> oracle h1 = [] /\
        forall ls k tr, ~ name_at abuf p ls k tr)).
      { destruct st; try done; [by destruct Hpost as [-> Hno]|].
        by destruct Hpost as (? & ? & _). }
      destruct Hl1 as [Hl1 Ho]. do 2 wp_step. wp_step. cbn. split_and!; [lia|by intros [? _]%Ho|].
      split; [done|]. intros [_ Hno]%Ho Hans. exfalso. eapply not_answered; [|exact Hans].
      intros ls k tr Hn. by apply Hno in Hn.
    + destruct Hpost as (Hl1 & Ho & ls & tr & Hn & ->).
      pose proof (name_at_range _ _ _ _ _ Hn) as (_ & Hk & _). unfold QFIXEDSZ.
      destruct (Z.ltb_spec (Zlen abuf) (p + k + 4)) as [Hshort|Hfits].
      * do 4 wp_step. wp_step. cbn. split_and!; [lia|done|]. split; [done|].
        intros _ Hans. exfalso. eapply not_answered; [|exact Hans].
        intros ls' k' tr' Hn'. by destruct (name_at_det _ _ _ _ _ _ _ _ Hn Hn') as (_ & -> & _).
      * unfold DNS_QUESTION_TYPE, DNS_QUESTION_CLASS. wp_step.
        apply wp_u16; [lia..|]. intros t Ht _. wp_step.
        apply wp_u16; [lia..|]. intros c Hc _. do 2 wp_step.
        set (y := (expanded ls, t, c)).
        assert (Hcons : forall m l, questions abuf m (p + k + 4) l ->
          questions abuf (S m) p (y :: l)) by (intros; by econstructor).
        assert (Hdec : (ares_strcasecmp x.1.1 (expanded ls) =? 0) && (x.1.2 =? t) &&
          (x.2 =? c) = true <-> same_question x y).
        { unfold same_question; cbn. rewrite !andb_true_iff, !Z.eqb_eq. tauto. }
        destruct (_ && _ && _).
        -- wp_step. cbn. split_and!; [lia|done|]. split; [|done]. intros _.
           exists 1%nat, [y], y. split_and!; [lia|by apply Hcons; constructor|left|by apply Hdec].
        -- eapply wp_mono; [apply IH; cbn; lia|]. cbn. intros r h2 (Hl2 & Ho2 & Hs & Hcm).
           split_and!; [lia|auto|]. split.
           ++ intros Hr. destruct (Hs Hr) as (m & l & z & Hm & Hq & Hz & Hsame).
              exists (S m), (y :: l), z. split_and!; [lia|by apply Hcons|by right|done].
           ++ intros Ho0 (m & l & z & Hm & Hq & Hz & Hsame). apply Hcm; [by apply Ho|].
              destruct Hq as [|m p ls' k' tr' t' c' l Hn' Ht' Hc' Hq];
                [by apply not_elem_of_nil in Hz|].
              destruct (name_at_det _ _ _ _ _ _ _ _ Hn Hn') as (<- & <- & _).
              rewrite <- (u16_at_det _ _ _ _ Ht Ht'), <- (u16_at_det _ _ _ _ Hc Hc') in *.
              apply elem_of_cons in Hz as [-> | Hz]; [by apply Hdec in Hsame|].
              exists m, l, z. split_and!; [lia|done..].
Qed.
End find.

(** The [n] questions of the query from [p] on are all answered. *)
Definition all_answered (qbuf abuf : list Z) (qdcount n : nat) (p : Z) : Prop :=
  exists l, questions qbuf n p l /\ Forall (answered abuf qdcount HFIXEDSZ) l.

Lemma all_answered_no_name qbuf abuf qd n p :
  (forall ls k tr, name_at qbuf p ls k tr -> Zlen qbuf < p + k + 4) ->
  ~ all_answered qbuf abuf qd (S n) p.
Proof.
  intros Hno (l & Hq & _). inversion Hq as [|? ? ? ? ? ? ? ? Hn Ht Hc]; subst.
  apply Hno in Hn. destruct Hc as (b0 & b1 & _ & Hb%byte_at_Some & _). lia.
Qed.

Lemma wp_match_questions qbuf abuf qd n p h :
  Zlen qbuf <= 32767 -> Zlen abuf <= 32767 -> 0 <= p -> 0 <= live h ->
  wp (match_questions qbuf abuf qd n p) h (fun b h' =>
    live h' = live h /\ (oracle h = [] -> oracle h' = []) /\
    decides h b (all_answered qbuf abuf qd n p)).
Proof.
  intros Hql Hal; revert p h; induction n as [|n IH]; intros p h Hp Hl; cbn [match_questions].
  - wp_step. split_and!; [done..|]. split; [|done]. intros _. exists []. by split; constructor.
  - wp_step. eapply wp_mono; [by apply wp_ares_expand_name|].
    intros [st|[qname k]] h1 Hpost; cbn in Hpost.
    + assert (Hl1 : live h1 = live h /\ (oracle h = [] -> oracle h1 = [] /\
        forall ls k tr, ~ name_at qbuf p ls k tr)).
      { destruct st; try done; [by destruct Hpost as [-> Hno]|].
        by destruct Hpost as (? & ? & _). }
      destruct Hl1 as [Hl1 Ho]. wp_step. split_and!; [lia|by intros [? _]%Ho|].
      split; [done|]. intros [_ Hno]%Ho Hans. exfalso. eapply all_answered_no_name; [|exact Hans].
      intros ls k tr Hn. by apply Hno in Hn.
    + destruct Hpost as (Hl1 & Ho & ls & tr & Hn & ->).
      pose proof (name_at_range _ _ _ _ _ Hn) as (_ & Hk & _). unfold QFIXEDSZ.
      destruct (Z.ltb_spec (Zlen qbuf) (p + k + 4)) as [Hshort|Hfits].
      * do 2 wp_step. wp_step. cbn. split_and!; [lia|done|]. split; [done|].
        intros _ Hans. exfalso. eapply all_answered_no_name; [|exact Hans].
        intros ls' k' tr' Hn'. by destruct (name_at_det _ _ _ _ _ _ _ _ Hn Hn') as (_ & -> & _).
      * unfold DNS_QUESTION_TYPE, DNS_QUESTION_CLASS. wp_step.
        apply wp_u16; [lia..|]. intros t Ht _. wp_step.
        apply wp_u16; [lia..|]. intros c Hc _. wp_step.
        eapply wp_mono; [apply (wp_find_question abuf (expanded ls, t, c)); unfold HFIXEDSZ; lia|].
        intros f h2 (Hl2 & Ho2 & Hs & Hcm).
        assert (Hinv : all_answered qbuf abuf qd (S n) p <->
          answered abuf qd HFIXEDSZ (expanded ls, t, c) /\ all_answered qbuf abuf qd n (p + k + 4)).
        { split.
          - intros (l & Hq & HF). inversion Hq as [|? ? ? ? ? ? ? l' Hn' Ht' Hc']; subst.
            destruct (name_at_det _ _ _ _ _ _ _ _ Hn Hn') as (<- & <- & _).
            rewrite <- (u16_at_det _ _ _ _ Ht Ht'), <- (u16_at_det _ _ _ _ Hc Hc') in *.
            apply Forall_cons in HF as [? ?]. split; [done|]. by exists l'.
          - intros [Ha (l & Hq & HF)]. exists ((expanded ls, t, c) :: l).
            split; [by econstructor|by constructor]. }
        destruct f as [[]|]; cbn [default] in *.
        -- do 2 wp_step. eapply wp_mono; [apply IH; cbn; lia|]. cbn.
           intros b h3 (Hl3 & Ho3 & Hs3 & Hc3). split_and!; [lia|auto|]. split.
           ++ intros Hb. apply Hinv. split; [by apply Hs|by apply Hs3].
           ++ intros Ho0 [_ Hrest]%Hinv. apply Hc3; [auto|done].
        -- do 2 wp_step. wp_step. cbn. split_and!; [lia|auto|]. split; [done|].
           intros Ho0 [Ha _]%Hinv. apply Hcm; [by apply Ho|done].
        -- wp_step. split_and!; [lia|auto|]. split; [done|].
           intros Ho0 [Ha _]%Hinv. apply Hcm; [by apply Ho|done].
Qed.

(** [same_questions]: the two messages have the same number of questions and
    every question of the query is answered. *)
Definition questions_match (qbuf abuf : list Z) : Prop :=
  HFIXEDSZ <= Zlen qbuf /\ HFIXEDSZ <= Zlen abuf /\
  exists n, u16_at qbuf 4 n /\ u16_at abuf 4 n /\
    all_answered qbuf abuf (Z.to_nat n) (Z.to_nat n) HFIXEDSZ.

Lemma wp_same_questions qbuf abuf h :
  Zlen qbuf <= 32767 -> Zlen abuf <= 32767 -> 0 <= live h ->
  wp (same_questions qbuf abuf) h (fun b h' =>
    live h' = live h /\ decides h b (questions_match qbuf abuf)).
Proof.
  intros Hql Hal Hl. unfold same_questions.
  destruct (Z.ltb_spec (Zlen qbuf) HFIXEDSZ); [|destruct (Z.ltb_spec (Zlen abuf) HFIXEDSZ)];
    cbn [orb].
  1, 2: wp_step; split; [done|]; split; [done|]; intros _ (? & ? & _); lia.
  unfold HFIXEDSZ in *. unfold DNS_HEADER_QDCOUNT. wp_step.
  apply wp_u16; [lia..|]. intros qn Hqn Hqr. wp_step.
  apply wp_u16; [lia..|]. intros an Han Har.
  destruct (Z.eqb_spec qn an) as [->|Hne]; cbn [negb].
  - eapply wp_mono; [apply wp_match_questions; lia|]. intros b h' (Hl' & _ & Hs & Hc).
    split; [done|]. split.
    + intros Hb. split_and!; [done..|]. exists an. split_and!; [done..|]. by apply Hs.
    + intros Ho (_ & _ & n & Hq & Ha & Hall). apply Hc; [done|].
      by rewrite (u16_at_det _ _ _ _ Hqn Hq).
  - wp_step. split; [done|]. split; [done|]. intros _ (_ & _ & n & Hq & Ha & _).
    rewrite (u16_at_det _ _ _ _ Hqn Hq), (u16_at_det _ _ _ _ Han Ha) in Hne. done.
Qed.

(** ** Messages of any length: what is allocated when the code returns *)

Definition allocates {A} (m : M A) (d : A -> Z) : Prop :=
  forall h a h', m h = Ret a h' -> live h' = live h + d a.

Lemma allocates_ret {A} (a : A) d : d a = 0 -> allocates (mret a) d.
Proof. intros Hd h x h' [= <- <-]. lia. Qed.

Lemma allocates_bind {A B} (m : M A) (k : A -> M B) d d' :
  allocates m d -> (forall a, allocates (k a) (fun b => d' b - d a)) -> allocates (m ≫= k) d'.
Proof.
  intros Hm Hk h b h'. unfold mbind, M_bind. destruct (m h) as [a h1| |] eqn:E; [|done..].
  intros Hr. apply Hm in E. apply Hk in Hr. lia.
Qed.

Lemma allocates_stuck {A} (d : A -> Z) : allocates undefined d /\ allocates no_fuel d.
Proof. by split; intros h a h'. Qed.

Lemma allocates_ext {A} (m : M A) d d' : allocates m d -> (forall a, d a = d' a) -> allocates m d'.
Proof. intros H E h a h' Hm. rewrite <- E. by apply H. Qed.

Lemma allocates_malloc : allocates c_malloc (fun b => if b : bool then 1 else 0).
Proof. intros [l [|[] o]] b h' [= <- <-]; cbn; lia. Qed.

Lemma allocates_free : allocates c_free (fun _ => -1).
Proof.
  intros h [] h'. unfold c_free. destruct (_ <=? 0); [done|]. intros [= <-]. cbn. lia.
Qed.

(** Code that does not use the allocator. *)
Definition neutral {A} (m : M A) : Prop := forall h a h', m h = Ret a h' -> h' = h.

Lemma neutral_allocates {A} (m : M A) : neutral m -> allocates m (fun _ => 0).
Proof. intros H h a h' ->%H. lia. Qed.

Lemma neutral_bind {A B} (m : M A) (k : A -> M B) :
  neutral m -> (forall a, neutral (k a)) -> neutral (m ≫= k).
Proof.
  intros Hm Hk h b h'. unfold mbind, M_bind. destruct (m h) as [a h1| |] eqn:E; [|done..].
  intros Hr. apply Hm in E as ->. by apply Hk in Hr.
Qed.

Lemma neutral_ret {A} (a : A) : neutral (mret a).
Proof. by intros h x h' [= _ <-]. Qed.

Lemma neutral_get_byte buf i : neutral (get_byte buf i).
Proof. unfold get_byte. destruct (byte_at buf i); [apply neutral_ret|done]. Qed.

Lemma neutral_int_add a b : neutral (int_add a b).
Proof. unfold int_add. destruct (_ && _); [apply neutral_ret|done]. Qed.

Lemma neutral_put_char cap q x : neutral (put_char cap q x).
Proof. unfold put_char. destruct (_ <? _); [apply neutral_ret|done]. Qed.

Ltac neutral_step :=
  lazymatch goal with
  | |- neutral (mbind _ _) => apply neutral_bind; [|intros ?]
  | |- neutral (mret _) => apply neutral_ret
  | |- neutral (get_byte _ _) => apply neutral_get_byte
  | |- neutral (int_add _ _) => apply neutral_int_add
  | |- neutral (put_char _ _ _) => apply neutral_put_char
  | |- neutral (if ?b then _ else _) => destruct b
  | |- neutral (match ?x with _ => _ end) => destruct x
  end.

Lemma neutral_DNS16 buf p : neutral (DNS__16BIT buf p).
Proof. unfold DNS__16BIT. by repeat neutral_step. Qed.

Lemma neutral_name_length buf p : neutral (name_length buf p).
Proof.
  assert (Hc : forall o p n, neutral (count_label buf p o n)).
  { induction o as [|o IH]; intros p' n; cbn [count_label];
      repeat (neutral_step || apply IH). }
  assert (Hl : forall f p n i, neutral (name_length_loop buf f p n i)).
  { induction f as [|f IH]; intros p' n i; cbn [name_length_loop]; [done|].
    repeat (neutral_step || apply IH || apply Hc). }
  unfold name_length. neutral_step; [neutral_step|apply Hl].
Qed.

Lemma neutral_expand_loop buf f cap e p i q : neutral (expand_loop buf f cap e p i q).
Proof.
  assert (Hc : forall l p q, neutral (copy_label buf cap p l q)).
  { induction l as [|l IH]; intros p' q'; cbn [copy_label]; repeat (neutral_step || apply IH). }
  revert p i q; induction f as [|f IH]; intros p i q; cbn [expand_loop]; [done|].
  repeat (neutral_step || apply IH || apply Hc).
Qed.

Lemma allocates_expand_name buf p :
  allocates (ares_expand_name buf p) (fun r => if r is inr _ then 1 else 0).
Proof.
  unfold ares_expand_name.
  apply (allocates_bind _ _ (fun _ => 0)); [apply neutral_allocates, neutral_name_length|].
  intros nlen. destruct (nlen <? 0); [by apply allocates_ret|].
  eapply allocates_bind; [apply allocates_malloc|]. intros []; cbn [negb]; [|by apply allocates_ret].
  destruct (nlen =? 0).
  - apply (allocates_bind _ _ (fun _ => 0)); [apply neutral_allocates, neutral_get_byte|].
    intros b. by apply allocates_ret.
  - apply (allocates_bind _ _ (fun _ => 0)); [apply neutral_allocates, neutral_expand_loop|].
    intros [q e]. destruct q; [|by apply allocates_ret].
    apply (allocates_bind _ _ (fun _ => 0)); [apply neutral_allocates, neutral_put_char|].
    intros _. by apply allocates_ret.
Qed.

Lemma allocates_find_question abuf n p qn qt qc :
  allocates (find_question abuf n p qn qt qc) (fun r => if r is Some _ then 0 else -1).
Proof.
  revert p; induction n as [|n IH]; intros p; cbn [find_question]; [by apply allocates_ret|].
  eapply allocates_bind; [apply allocates_expand_name|]. intros [st|[an k]].
  - eapply allocates_bind; [apply allocates_free|]. intros ?. by apply allocates_ret.
  - destruct (_ <? _).
    + eapply allocates_bind; [apply allocates_free|]. intros ?.
      eapply allocates_bind; [apply allocates_free|]. intros ?. by apply allocates_ret.
    + apply (allocates_bind _ _ (fun _ => 0)); [apply neutral_allocates, neutral_DNS16|]. intros t.
      apply (allocates_bind _ _ (fun _ => 0)); [apply neutral_allocates, neutral_DNS16|]. intros c.
      eapply allocates_bind; [apply allocates_free|]. intros ?.
      destruct (_ && _ && _); [by apply allocates_ret|].
      eapply allocates_ext; [apply IH|]. intros r; cbn. lia.
Qed.

Lemma allocates_same_questions qbuf abuf : allocates (same_questions qbuf abuf) (fun _ => 0).
Proof.
  assert (Hm : forall qd n p, allocates (match_questions qbuf abuf qd n p) (fun _ => 0)).
  { intros qd n; induction n as [|n IH]; intros p; cbn [match_questions]; [by apply allocates_ret|].
    eapply allocates_bind; [apply allocates_expand_name|]. intros [st|[qn k]].
    - by apply allocates_ret.
    - destruct (_ <? _).
      + eapply allocates_bind; [apply allocates_free|]. intros ?. by apply allocates_ret.
      + apply (allocates_bind _ _ (fun _ => 0)); [apply neutral_allocates, neutral_DNS16|]. intros t.
        apply (allocates_bind _ _ (fun _ => 0)); [apply neutral_allocates, neutral_DNS16|]. intros c.
        eapply allocates_bind; [apply allocates_find_question|]. intros [f|].
        * eapply allocates_bind; [apply allocates_free|]. intros ?.
          destruct f; [|by apply allocates_ret]. eapply allocates_ext; [apply IH|]. intros; cbn. lia.
        * by apply allocates_ret. }
  unfold same_questions. destruct (_ || _); [by apply allocates_ret|].
  apply (allocates_bind _ _ (fun _ => 0)); [apply neutral_allocates, neutral_DNS16|]. intros qn.
  apply (allocates_bind _ _ (fun _ => 0)); [apply neutral_allocates, neutral_DNS16|]. intros an.
  destruct (negb _); [by apply allocates_ret|]. eapply allocates_ext; [apply Hm|]. intros; cbn. lia.
Qed.

(** ** Finding the query of an answer *)

(** The message can be decoded safely, or the invariant makes an exception. *)
Definition decodable (abuf : list Z) (c : chan) : Prop := Zlen abuf <= 32767 \/ excused c.

Lemma ewp_same_questions qb abuf c (Q : bool -> chan -> Prop) :
  Zlen qb <= 32767 -> decodable abuf c -> 0 <= live (mem c) ->
  (forall b h, live h = live (mem c) -> (Zlen abuf <= 32767 ->
     decides (mem c) b (questions_match qb abuf)) -> Q b (set_mem h c)) ->
  ewp (lift (same_questions qb abuf)) c Q.
Proof.
  intros Hq [Ha|He] Hl HQ.
  - apply ewp_lift. eapply wp_mono; [by apply wp_same_questions|].
    intros b h [Hh Hd]. by apply HQ.
  - destruct (Z.le_gt_cases (Zlen abuf) 32767) as [Ha|Ha].
    + apply ewp_lift. eapply wp_mono; [by apply wp_same_questions|].
      intros b h [Hh Hd]. by apply HQ.
    + unfold ewp, lift. destruct (same_questions qb abuf (mem c)) as [b h| |] eqn:E; [|done..].
      apply HQ; [|lia]. apply allocates_same_questions in E. lia.
Qed.

(** The query [find_query] accepts: right identifier and matching questions. *)
Definition accepts (c : chan) (id : Z) (abuf : list Z) (q : Z) : Prop :=
  exists r bs, queries c !! q = Some r /\ qid r = id /\ tcpbuf r = Some bs /\
    (Zlen abuf <= 32767 -> questions_match (slice bs 2 (Z.to_nat (qlen r))) abuf).

Lemma ewp_qbuf_bytes r c (Q : list Z -> chan -> Prop) :
  query_ok (nservers c) r ->
  (forall bs, tcpbuf r = Some bs -> Zlen (slice bs 2 (Z.to_nat (qlen r))) = qlen r ->
     Q (slice bs 2 (Z.to_nat (qlen r))) c) ->
  ewp (qbuf_bytes r) c Q.
Proof.
  intros Hq HQ. unfold qbuf_bytes. destruct (qo_buf _ _ Hq) as (bs & Hb & Hl). rewrite Hb in *.
  pose proof (qo_tcplen _ _ Hq). pose proof (qo_qlen _ _ Hq). unfold HFIXEDSZ in *.
  rewrite (proj2 (Z.leb_le 0 _)), (proj2 (Z.leb_le (2 + _) _)) by lia.
  apply ewp_ret, HQ; [done|]. unfold Zlen. rewrite slice_length; lia.
Qed.

Lemma ewp_find_query base W X c d id abuf l :
  inv base W X d -> decodable abuf d -> sframe 0 c d -> servers d = servers c ->
  (forall q, q ∈ l -> is_Some (queries c !! q)) ->
  ewp (find_query id abuf l) d (fun r c' => inv base W X c' /\ sframe 0 c c' /\
    servers c' = servers c /\ match r with Some q => q ∈ l /\ accepts c id abuf q | None => True end).
Proof.
  revert d; induction l as [|q l IH]; intros d HI Ha F E Hl; cbn [find_query].
  - by ewp_step.
  - destruct (Hl q) as [r Hr]; [left|]. rewrite <- (f_queries _ _ _ F) in Hr.
    pose proof (c_query _ _ _ _ (proj1 HI) _ _ Hr) as Hq. do 2 ewp_step. ewp_step.
    assert (Hskip : ewp (find_query id abuf l) d (fun r c' => inv base W X c' /\ sframe 0 c c' /\
      servers c' = servers c /\
      match r with Some q' => q' ∈ q :: l /\ accepts c id abuf q' | None => True end)).
    { eapply ewp_mono; [apply IH; try done; intros p Hp; apply Hl; by right|].
      intros [p|] c' (? & ? & ? & H); [destruct H|]; split_and!; try done. by right. }
    destruct (Z.eqb_spec (qid r) id) as [Hid|Hid]; cbn [negb orb].
    2: { ewp_step. exact Hskip. }
    destruct (Z.ltb_spec (qlen r) HFIXEDSZ); [by ewp_step|].
    ewp_step. eapply ewp_qbuf_bytes; [exact Hq|]. intros bs Hbs Hbl.
    destruct (c_mem _ _ _ _ (proj1 HI)) as [Hb0 Hm0]. pose proof (blocks_nonneg (servers d)).
    apply ewp_same_questions; [rewrite Hbl; apply Hq|done|unfold Zlen in *; lia|].
    intros b h Hh Hdec.
    assert (F' : sframe 0 d (set_mem h d)) by (constructor; cbn; try done; lia).
    destruct b.
    + ewp_step. split_and!.
      * by eapply inv_env.
      * by apply (sframe_trans 0 0 _ d).
      * done.
      * left.
      * exists r, bs. split_and!; [by rewrite <- (f_queries _ _ _ F)|done|done|].
        intros Hle. by apply Hdec.
    + eapply ewp_mono; [apply IH|].
      * by eapply inv_env.
      * destruct Ha as [?|He]; [by left|by right].
      * by apply (sframe_trans 0 0 _ d).
      * done.
      * intros p Hp. apply Hl. by right.
      * intros [p|] c' (? & ? & ? & H'); [destruct H'|]; split_and!; try done. by right.
Qed.

(** ** Handling an answer *)

(** An answer changes at most one query, one that it answers. *)
Definition only_accepted (abuf : list Z) (c c' : chan) : Prop :=
  queries c' = queries c \/
  exists q id, u16_at abuf 0 id /\ accepts c id abuf q /\
    forall p, p <> q -> queries c' !! p = queries c !! p.

Lemma ready_sframe base c c' :
  ready base c -> inv base 0 None c' -> sframe 0 c c' -> ready base c'.
Proof.
  intros (_ & Hst & Hca) HI F. eapply ready_intro; [exact HI|..].
  - by rewrite (f_stolen _ _ _ F).
  - by rewrite (f_cancelled _ _ _ F).
Qed.

Lemma accepts_sframe c c' id abuf q : sframe 0 c c' -> accepts c id abuf q -> accepts c' id abuf q.
Proof. intros F (r & bs & H). exists r, bs. by rewrite (f_queries _ _ _ F). Qed.

(** What becomes of the query [q] an answer was accepted for. *)
Definition answer_post (base : Z) (q : Z) (c c' : chan) : Prop :=
  ready base c' /\ stable c c' /\ forall p, p <> q -> queries c' !! p = queries c !! p.

Lemma answer_moved base W q now c c1 c' :
  ready base c -> held q c c1 -> inv base W None c' -> moved q now c1 c' -> answer_post base q c c'.
Proof.
  intros HR Hh HI Hm. pose proof (moved_held _ _ _ _ _ Hh Hm) as Hm'.
  split_and!; [by eapply ready_moved|by eapply stable_moved|apply Hm'].
Qed.

Lemma answer_held base q c c' :
  ready base c -> inv base 0 None c' -> held q c c' -> answer_post base q c c'.
Proof.
  intros (_ & Hst & Hca) HI Hh. split_and!; [|by eapply stable_held|apply Hh].
  eapply ready_intro; [done|..]; [by rewrite (hd_stolen _ _ _ Hh)|by rewrite (hd_cancelled _ _ _ Hh)].
Qed.

(** Switching a truncated answer to TCP. *)
Lemma ewp_switch_tcp base now c q r :
  ready base c -> now_ok now c -> queries c !! q = Some r ->
  ewp (r ← get_query q;
       if using_tcp r then mret () else upd_query q (set_using_tcp true) ;; send_query q now) c
    (fun _ c' => answer_post base q c c').
Proof.
  intros HR Hnow Hr. pose proof (proj1 HR 0%nat) as HI.
  pose proof (c_query _ _ _ _ (proj1 HI) _ _ Hr) as Hq.
  destruct (c_filed _ _ _ _ (proj1 HI) _ _ Hr ltac:(done)) as [Htry _].
  do 2 ewp_step. destruct (using_tcp r) eqn:Et; [ewp_step; by apply answer_held, held_refl|].
  do 2 ewp_step. set (c1 := set_queries _ _).
  assert (Hh : held q c c1) by apply held_set_query.
  assert (HI1 : inv base 0 (Some q) c1).
  { eapply inv_take; [exact HI|exact Hr|by left|by destruct Hq|done..|].
    rewrite Et, decide_False by done. cbn. lia. }
  eapply ewp_mono; [eapply ewp_send_query; [exact HI1|apply lookup_insert_eq| |]|].
  - unfold attempts_left. rewrite (hd_n _ _ _ Hh), (hd_cfg _ _ _ Hh). cbn. lia.
  - by eapply now_held.
  - intros _ c2 [HI2 Hm]. by eapply answer_moved.
Qed.

(** An error code from the server. *)
Lemma ewp_refused base now c q r w :
  ready base c -> now_ok now c -> (w < nservers c)%nat -> queries c !! q = Some r ->
  ewp (skip_server q w ;;
       r ← get_query q;
       if decide (q_server r = w) then try_next_server q now else mret ()) c
    (fun _ c' => answer_post base q c c').
Proof.
  intros HR Hnow Hw Hr. pose proof (proj1 HR 0%nat) as HI. ewp_step.
  eapply ewp_mono; [by eapply ewp_skip_server|]. intros _ c1 (HI1 & Hh & l & Hr1).
  do 2 ewp_step. case_decide; [|ewp_step; by apply answer_held].
  eapply ewp_mono; [eapply ewp_try_next; [done..|by eapply now_held]|].
  intros _ c2 [HI2 Hm]. by eapply answer_moved.
Qed.

Lemma ewp_process_answer base abuf w tcp now c :
  ready base c -> now_ok now c -> (w < nservers c)%nat -> decodable abuf c ->
  ewp (process_answer abuf w tcp now) c (fun _ c' =>
    ready base c' /\ stable c c' /\ only_accepted abuf c c').
Proof.
  intros HR Hnow Hw Hd. pose proof (proj1 HR 0%nat) as HI. unfold process_answer.
  destruct (Z.ltb_spec (Zlen abuf) HFIXEDSZ); [ewp_step; split_and!; [done..|by left]|].
  unfold HFIXEDSZ, DNS_HEADER_QID, DNS_HEADER_TC, DNS_HEADER_RCODE in *.
  assert (Hsm : forall h, h = mem c -> set_mem h c = c) by (intros ? ->; by destruct c).
  ewp_step. ewp_step. apply wp_u16; [lia..|]. intros id Hid _. rewrite Hsm by done.
  ewp_step. ewp_step. do 2 wp_step. wp_step. rewrite Hsm by done.
  ewp_step. ewp_step. do 2 wp_step. wp_step. rewrite Hsm by done.
  ewp_step. ewp_step. ewp_step.
  eapply ewp_mono; [apply (ewp_find_query base 0 None c c); try done|].
  - apply sframe_refl.
  - apply (c_qid _ _ _ _ (proj1 HI)).
  - intros [q|] c1 (HI1 & F & _ & Hacc).
    2: { ewp_step. split_and!; [by eapply ready_sframe|by apply stable_sframe|].
         left. apply F. }
    destruct Hacc as [_ Hacc]. pose proof (ready_sframe _ _ _ HR HI1 F) as HR1.
    pose proof (stable_sframe _ _ F) as Hsb1. pose proof (now_stable _ _ _ Hsb1 Hnow) as Hnow1.
    assert (Hr : exists r, queries c1 !! q = Some r).
    { destruct Hacc as (r & _ & Hr & _). exists r. by rewrite (f_queries _ _ _ F). }
    destruct Hr as [r Hr]. rewrite <- (st_n _ _ Hsb1) in Hw.
    assert (Hpost : forall m : E unit, ewp m c1 (fun _ c' => answer_post base q c1 c') ->
      ewp m c1 (fun _ c' => ready base c' /\ stable c c' /\ only_accepted abuf c c')).
    { intros m Hm. eapply ewp_mono; [exact Hm|]. intros _ c' (HR' & Hsb' & Ho).
      split_and!; [done|by transitivity c1|]. right. exists q, id. split_and!; [done..|].
      intros p Hne. by rewrite (Ho _ Hne), (f_queries _ _ _ F). }
    apply Hpost. clear Hpost. unfold flag. do 6 ewp_step. cbv beta.
    rewrite (c_edns _ _ _ _ (proj1 HI1)). cbn [andb].
    do 4 ewp_step. cbv beta. destruct (_ && _ && _); [by eapply ewp_switch_tcp|].
    do 4 ewp_step. cbv beta. destruct (_ && _); [by eapply ewp_refused|].
    eapply ewp_mono; [eapply (ewp_end_query _ 0 None _ _ _ _ _ now); [done..|by left]|].
    intros _ c2 (HI2 & Hm & _). eapply answer_moved; [done|apply held_refl|done|done].
Qed.
