(* ===== verification/ResolverIO.v ===== *)
(** * Sockets, entry points and runs of the resolver engine (c-ares)

    Proofs about the TCP send queue, the receive paths, [ares_process],
    [ares_send], [ares_cancel], [ares_timeout] and [ares_destroy] of
    Resolver.v, and the theorems about whole runs. *)

From S2P Require Import Prelude DnsWire ParseList ParseHost CreateQuery Channel.
From S2P Require Import Resolver ResolverInv ResolverSend ResolverAnswer.
Open Scope Z_scope.

(** ** The TCP send queue *)

(** The bytes a queue still has to send, in order. *)
Definition queue_bytes (qs : gmap Z query) (l : list send_request) : list Z :=
  l ≫= req_bytes qs.

Definition bufs_ok (qs : gmap Z query) : Prop :=
  map_Forall (fun _ r => exists bs, tcpbuf r = Some bs /\ Zlen bs = tcplen r) qs.

Lemma queries_bufs_ok c : queries_ok c -> bufs_ok (queries c).
Proof. intros H q r Hr. apply (H _ _ Hr). Qed.

Lemma req_bytes_len qs b sr : bufs_ok qs -> req_ok qs b sr -> Zlen (req_bytes qs sr) = sr_len sr.
Proof.
  intros Hq [Hl Hr]. unfold req_bytes. destruct (owner_query sr) as [q|].
  - destruct Hr as (_ & r & off & Hr & -> & Ho & He). destruct (Hq _ _ Hr) as (bs & Hb & Hlen).
    rewrite Hr; cbn. rewrite Hb; cbn. unfold Zlen. rewrite slice_length; unfold Zlen in *; lia.
  - destruct (data_storage sr) as [bs|].
    + destruct Hr as (off & -> & Ho & He). cbn. unfold Zlen. rewrite slice_length; unfold Zlen in *; lia.
    + destruct Hr as (_ & -> & ->). done.
Qed.

Lemma slice_drop bs off len n :
  0 <= off -> 0 <= n -> slice bs (off + n) (len - Z.to_nat n) = drop (Z.to_nat n) (slice bs off len).
Proof.
  intros Ho Hn. unfold slice. rewrite <- fmap_drop, skipn_firstn_comm, drop_drop.
  by replace (Z.to_nat (off + n)) with (Z.to_nat off + Z.to_nat n)%nat by lia.
Qed.

Lemma wp_advance_queue qs b l n h :
  bufs_ok qs -> Forall (req_ok qs b) l -> l <> [] -> 0 < n -> sendq_blocks l <= live h ->
  wp (advance_queue l n) h (fun l' h' =>
    live h' = live h + sendq_blocks l' - sendq_blocks l /\ Forall (req_ok qs b) l' /\
    queue_bytes qs l' = drop (Z.to_nat n) (queue_bytes qs l)).
Proof.
  intros Hq HF; revert n h; induction HF as [|sr l Hr HF IH]; intros n h Hne Hn Hl; [done|].
  cbn [advance_queue sendq_blocks] in *. unfold queue_bytes in *. cbn [mbind list_bind].
  pose proof (req_bytes_len _ _ _ Hq Hr) as Hlen. pose proof (sendq_blocks_nonneg l).
  unfold sr_blocks in *. pose proof (blocks_opt_nonneg (data_storage sr)).
  destruct (Z.leb_spec (sr_len sr) n) as [Hle|Hgt].
  - assert (Hdrop : forall m, m = n - sr_len sr ->
      drop (Z.to_nat n) (req_bytes qs sr ++ (l ≫= req_bytes qs)) =
      drop (Z.to_nat m) (l ≫= req_bytes qs)).
    { intros m ->. rewrite drop_app_ge by (unfold Zlen in *; lia). f_equal. unfold Zlen in *. lia. }
    wp_step. apply wp_free_opt; [lia|]. do 2 wp_step.
    destruct l as [|sr' l]; [wp_step; cbn in *; split_and!; [lia|done|by rewrite (Hdrop _ eq_refl), drop_nil]|].
    destruct (Z.ltb_spec 0 (n - sr_len sr)).
    + eapply wp_mono; [apply IH; [done|lia|cbn [live]; lia]|]. intros l' h' (Hl' & HF' & Hb').
      cbn [live] in Hl'. split_and!; [lia|done|]. by rewrite Hb', (Hdrop _ eq_refl).
    + wp_step. split_and!; [lia|done|]. rewrite (Hdrop 0) by lia. done.
  - wp_step. split_and!.
    + cbn [sendq_blocks sr_blocks]. unfold sr_blocks. cbn. lia.
    + constructor; [|done]. destruct Hr as [Hl0 Hr]. split; [cbn; lia|]. cbn.
      destruct (owner_query sr) as [q|].
      * destruct Hr as (Hst & r & off & Hr & -> & Ho & He). split; [done|].
        exists r, (off + n). split_and!; [done|done|lia|lia].
      * destruct (data_storage sr); [|lia]. destruct Hr as (off & -> & Ho & He).
        exists (off + n). split_and!; [done|lia|lia].
    + cbn [mbind list_bind]. rewrite drop_app_le by (unfold Zlen in *; lia). f_equal.
      destruct Hr as [Hl0 Hr]. unfold req_bytes. cbn.
      replace (Z.to_nat (sr_len sr - n)) with (Z.to_nat (sr_len sr) - Z.to_nat n)%nat by lia.
      destruct (owner_query sr) as [q|].
      * destruct Hr as (Hst & r & off & Hr & -> & Ho & He). apply slice_drop; lia.
      * destruct (data_storage sr); [|lia]. destruct Hr as (off & -> & Ho & He).
        apply slice_drop; lia.
Qed.

Lemma ewp_gather c b l (Q : list Z -> chan -> Prop) :
  Forall (req_ok (queries c) b) l -> queries_ok c -> Q (queue_bytes (queries c) l) c ->
  ewp (gather l) c Q.
Proof.
  intros HF Hq; revert Q; induction HF as [|sr l Hr HF IH]; intros Q HQ; cbn [gather].
  - by ewp_step.
  - ewp_step. eapply ewp_deref; [done..|]. intros _. ewp_step. apply IH. by ewp_step.
Qed.

Lemma ewp_advance base i s n c :
  ready base c -> servers c !! i = Some s -> sendq s <> [] ->
  ewp (advance_tcp_send_queue i n) c (fun _ c' => ready base c' /\ sframe 0 c c' /\
    exists s', servers c' !! i = Some s' /\
      queue_bytes (queries c) (sendq s') = drop (Z.to_nat n) (queue_bytes (queries c) (sendq s))).
Proof.
  intros HR Hs Hne. pose proof (proj1 HR 0%nat) as (Hc & Hsq & Hrv).
  unfold advance_tcp_send_queue. destruct (Z.leb_spec n 0).
  { ewp_step. split_and!; [done|apply sframe_refl|]. exists s.
    replace (Z.to_nat n) with 0%nat by lia. done. }
  pose proof (at_server_here _ _ _ Hs) as HA. as_step. as_step. as_step.
  pose proof (at_server_live _ _ _ _ _ HA (core_funded _ _ _ _ Hc)) as Hl.
  unfold server_blocks in Hl. pose proof (blocks_opt_nonneg (tcp_buffer s)).
  eapply (as_mem _ _ _ _ _ HA _ (fun l => sendq_blocks l - sendq_blocks (sendq s))).
  eapply wp_mono.
  { apply (wp_advance_queue (queries c) (is_broken s)); [by apply queries_bufs_ok, Hc| |done..|].
    - by apply Hsq in Hs.
    - lia. }
  intros l h (Hlive & HF & Hb). split; [lia|]. clear HA. intros c1 HA. as_step.
  eapply (ewp_mono _ _ (fun _ c2 => at_server i s (0 + (sendq_blocks l - sendq_blocks (sendq s))) c c2)).
  { destruct l; by as_auto. }
  clear HA c1. intros _ c1 HA. as_step. as_count 0.
  assert (HI : inv base 0 None c0).
  { split_and!; [by eapply core_at| |].
    - by eapply sendqs_ok_at.
    - eapply recvs_ok_at; [done..|]. by destruct (Hrv _ _ Hs). }
  split_and!; [eapply ready_sframe; [done..|apply HA]|apply HA|].
  eexists. split; [by eapply at_server_lookup|done].
Qed.

(** ** Steps that do not touch the queries *)

Lemma ready_env base c c' :
  ready base c -> sframe 0 c c' -> servers c' = servers c -> ready base c'.
Proof. intros HR F E. eapply ready_sframe; [exact HR|by eapply inv_env; [apply HR|..]|done]. Qed.

(** A reading of the streams or a harmless event. *)
Definition quiet (c c' : chan) : Prop := sframe 0 c c' /\ servers c' = servers c.

Lemma quiet_ints zs c : quiet c (set_ints zs c).
Proof. split; [|done]. constructor; cbn; try done. lia. Qed.

Lemma quiet_emit e c :
  ended_of e = None -> (forall q, sent_of q e = 0) -> quiet c (set_trace (e :: trace c) c).
Proof.
  intros He Hs. split; [|done].
  constructor; cbn; try done; [by rewrite He|intros q; rewrite Hs; lia|lia].
Qed.

Lemma quiet_mem h c : live h = live (mem c) -> quiet c (set_mem h c).
Proof. intros Hl. split; [|done]. constructor; cbn; try done. lia. Qed.

Lemma quiet_trans c1 c2 c3 : quiet c1 c2 -> quiet c2 c3 -> quiet c1 c3.
Proof. intros [F1 E1] [F2 E2]. split; [by apply (sframe_trans 0 0 _ c2)|congruence]. Qed.

(** The state of a handler inside a loop over the servers. *)
Definition progress (base : Z) (c0 c : chan) : Prop := ready base c /\ stable c0 c.

Lemma progress_quiet base c0 c c' : progress base c0 c -> quiet c c' -> progress base c0 c'.
Proof.
  intros [HR Hs] [F E]. split; [by eapply ready_env|]. transitivity c; [done|by apply stable_sframe].
Qed.

Lemma progress_refl base c : ready base c -> progress base c c.
Proof. by split. Qed.

Lemma progress_error base c0 c i now :
  progress base c0 c -> now_ok now c0 -> (i < nservers c0)%nat ->
  ewp (handle_error i now) c (fun _ c' => progress base c0 c').
Proof.
  intros [HR Hs] Hnow Hi. eapply ewp_mono.
  - apply ewp_handle_error; [by apply ready_ready_but|by rewrite (st_n _ _ Hs)|by eapply now_stable].
  - intros _ c' (HR' & Hs' & _). split; [done|by transitivity c].
Qed.

(** ** Writing *)

Lemma ewp_sent base c0 c i s sock bs now :
  progress base c0 c -> now_ok now c0 -> servers c !! i = Some s -> sendq s <> [] ->
  ewp (sent i sock bs now) c (fun _ c' => progress base c0 c').
Proof.
  intros HP Hnow Hs Hne. unfold sent. ewp_step. ewp_step.
  pose proof (progress_quiet _ _ _ _ HP (quiet_ints zs c)) as HP1.
  assert (Hi : (i < nservers c0)%nat).
  { rewrite <- (st_n _ _ (proj2 HP)). by eapply lookup_lt_Some. }
  destruct (_ <? 0).
  - ewp_step. ewp_step. destruct (try_again _).
    + ewp_step. eapply progress_quiet; [exact HP1|apply quiet_ints].
    + apply progress_error; [|done|done]. eapply progress_quiet; [exact HP1|apply quiet_ints].
  - ewp_step. ewp_step. set (c1 := set_trace _ _).
    assert (HP2 : progress base c0 c1) by (eapply progress_quiet; [exact HP1|by apply quiet_emit]).
    eapply ewp_mono; [apply (ewp_advance base i s); [apply HP2|done|done]|].
    intros _ c2 (HR & F & _). split; [done|]. transitivity c1; [apply HP2|by apply stable_sframe].
Qed.

Lemma ewp_write_server base c0 fd now i fds c :
  progress base c0 c -> now_ok now c0 -> (i < nservers c0)%nat ->
  ewp (write_server fd now i fds) c (fun _ c' => progress base c0 c').
Proof.
  intros HP Hnow Hi. rewrite <- (st_n _ _ (proj2 HP)) in Hi.
  destruct (server_exists _ _ Hi) as [s Hs]. pose proof (proj1 (proj1 HP) 0%nat) as (Hc & Hsq & _).
  unfold write_server. ewp_step. ewp_step. pose proof (Hsq _ _ Hs) as HF.
  destruct (sendq s) as [|sr l] eqn:Eq; [by ewp_step|]. destruct (_ || _); [by ewp_step|].
  assert (Hne : sendq s <> []) by by rewrite Eq.
  ewp_step. ewp_step. apply wp_malloc; intros o _; ewp_step.
  - set (c1 := set_mem _ c). ewp_step.
    eapply (ewp_gather c1 (is_broken s)); [exact HF|apply Hc|]. ewp_step. ewp_step.
    apply wp_free.
    { cbn. destruct (c_mem _ _ _ _ Hc). pose proof (blocks_nonneg (servers c)).
      unfold Zlen in *. lia. }
    eapply ewp_mono; [eapply (ewp_sent base c0); [|done|exact Hs|done]|].
    + eapply progress_quiet; [exact HP|]. apply (quiet_mem _ c). cbn. lia.
    + intros ? c2 HP2. by ewp_step.
  - set (c1 := set_mem _ c). ewp_step. apply Forall_cons in HF as [Hr _].
    eapply (ewp_deref c1); [exact Hr|apply Hc|]. intros _.
    eapply ewp_mono; [eapply (ewp_sent base c0); [|done|exact Hs|done]|].
    + eapply progress_quiet; [exact HP|]. by apply quiet_mem.
    + intros ? c2 HP2. by ewp_step.
Qed.

Lemma ewp_write_tcp_data base fds fd now c :
  ready base c -> now_ok now c ->
  ewp (write_tcp_data fds fd now) c (fun _ c' => progress base c c').
Proof.
  intros HR Hnow. unfold write_tcp_data. destruct (no_action _ _); [ewp_step; by apply progress_refl|].
  apply (ewp_for_servers _ _ c (fun _ c' => progress base c c')); [by apply progress_refl|].
  intros i l c' Hi HP. by apply ewp_write_server.
Qed.

(** ** Reading *)

Lemma progress_pkts base c0 c ps :
  progress base c0 c -> (length ps <= length (pkts c))%nat -> progress base c0 (set_pkts ps c).
Proof.
  intros [(HI & Hst & Hca) Hs] Hl. split.
  - split_and!; [|done..]. intros W. destruct (HI W) as ([] & Hq & Hr). by split_and!.
  - destruct Hs. constructor; try done. cbn. lia.
Qed.

Lemma store_at_length buf pos bs :
  0 <= pos -> pos + Zlen bs <= Zlen buf -> length (store_at buf pos bs) = length buf.
Proof.
  intros Hp Hl. unfold store_at, Zlen in *.
  rewrite !length_app, length_take, length_drop. lia.
Qed.

Definition received (i : nat) (len : Z) (c : chan) (d : option (list Z)) (c' : chan) : Prop :=
  match d with
  | None => True
  | Some bs => servers c' = servers c /\ 1 <= Zlen bs <= len
  end.

Lemma ewp_tcp_recv base c0 c i len now :
  progress base c0 c -> now_ok now c0 -> (i < nservers c0)%nat -> 0 <= len ->
  ewp (tcp_recv i len now) c (fun d c' => progress base c0 c' /\ received i len c d c').
Proof.
  intros HP Hnow Hi Hlen. unfold tcp_recv. ewp_step. apply ewp_sys_recv.
  intros p ps Hp Hle _ _. pose proof (progress_pkts _ _ _ ps HP Hle) as HP1.
  assert (Herr : ewp (handle_error i now ;; mret (None : option (list Z))) (set_pkts ps c)
    (fun d c' => progress base c0 c' /\ received i len c d c')).
  { ewp_step. eapply ewp_mono; [by apply progress_error|]. intros ? c1 HP'. by ewp_step. }
  destruct p as [e|from [|b bs]].
  - destruct (try_again e); [|done]. do 3 ewp_step. by split.
  - exact Herr.
  - ewp_step. split; [done|]. cbn in *. split; [done|]. rewrite Zlen_cons in *.
    pose proof (Zlen_nonneg bs). lia.
Qed.

(** A step on one server inside a handler. *)
Lemma progress_at base c0 c i s c' :
  progress base c0 c -> at_server i s 0 c c' ->
  Forall (req_ok (queries c) (is_broken s)) (sendq s) -> recv_ok s -> progress base c0 c'.
Proof.
  intros [HR Hs] HA HF Hr. pose proof (proj1 HR 0%nat) as (Hc & Hsq & Hrv). split.
  - eapply ready_sframe; [exact HR| |apply HA].
    split_and!; [by eapply core_at|by eapply sendqs_ok_at|by eapply recvs_ok_at].
  - transitivity c; [done|apply stable_sframe, HA].
Qed.

Lemma ready_but_at base i s s' c c' :
  ready base c -> servers c !! i = Some s -> at_server i s' 0 c c' -> sendq s' = sendq s ->
  is_broken s' = is_broken s -> length (tcp_lenbuf s') = 2%nat -> ready_but base i c'.
Proof.
  intros (HI & Hst & Hca) Hs HA Eq Eb El. pose proof (as_frame _ _ _ _ _ HA) as F.
  pose proof (HI 0%nat) as (_ & Hsq & Hrv). split_and!.
  - intros W. eapply core_at; [apply HI|exact HA].
  - eapply sendqs_ok_at; [done..|]. rewrite Eq, Eb. by apply Hsq in Hs.
  - by rewrite (f_stolen _ _ _ F).
  - by rewrite (f_cancelled _ _ _ F).
  - intros j x Hj. rewrite (as_servers _ _ _ _ _ HA) in Hj.
    apply list_lookup_insert_Some in Hj as [(-> & <- & _)|(Hne & Hj)]; [done|].
    split; [apply (Hrv _ _ Hj)|intros _; apply (Hrv _ _ Hj)].
Qed.

Lemma ewp_read_length base c0 c i s now :
  progress base c0 c -> now_ok now c0 -> servers c !! i = Some s -> tcp_lenbuf_pos s <> 2 ->
  ewp (read_length i s now) c (fun _ c' => progress base c0 c').
Proof.
  intros HP Hnow Hs Hpos. assert (Hi : (i < nservers c0)%nat).
  { rewrite <- (st_n _ _ (proj2 HP)). by eapply lookup_lt_Some. }
  pose proof (proj1 (proj1 HP) 0%nat) as (_ & _ & Hrv). destruct (Hrv _ _ Hs) as [Hlb Hp Hbuf].
  rewrite (proj2 (Z.eqb_neq _ _) Hpos) in Hbuf.
  unfold read_length. ewp_step. eapply ewp_mono; [apply (ewp_tcp_recv base c0); [done..|lia]|].
  intros [bs|] c1 [HP1 Hrec]; [|by ewp_step]. destruct Hrec as [Hse Hbl].
  clear Hrv. pose proof (proj1 (proj1 HP1) 0%nat) as (Hc1 & Hsq & Hrv).
  rewrite <- Hse in Hs. pose proof (Hsq _ _ Hs) as HF.
  pose proof (store_at_length (tcp_lenbuf s) (tcp_lenbuf_pos s) bs ltac:(lia)
    ltac:(unfold Zlen in *; lia)) as Hsl. rewrite Hlb in Hsl.
  pose proof (at_server_here _ _ _ Hs) as HA. as_step. as_step. as_count 0.
  set (lb := store_at _ _ _) in *. destruct (Z.eqb_spec (tcp_lenbuf_pos s + Zlen bs) 2) as [E2|E2].
  - as_step. eapply (as_mem _ _ _ _ _ HA _ (fun _ => 0)).
    apply wp_get_byte; [unfold Zlen; lia|]. intros b0 _ Hb0. split; [lia|]. clear HA. intros ? HA.
    as_step. eapply (as_mem _ _ _ _ _ HA _ (fun _ => 0)).
    apply wp_get_byte; [unfold Zlen; lia|]. intros b1 _ Hb1. split; [lia|]. clear HA. intros ? HA.
    as_step. as_step. as_count 0. as_step. set (len := Z.lor _ _) in *.
    assert (Hlen : 0 <= len).
    { apply Z.lor_nonneg. split; [|lia]. apply Z.shiftl_nonneg. lia. }
    eapply as_malloc; [exact HA|]. clear HA. intros [] ? HA.
    + as_step. as_step. as_step. as_count_with 0 ltac:(rewrite Hbuf).
      eapply progress_at; [exact HP1|exact HA|exact HF|]. constructor; [done|cbn; lia|].
      cbn. rewrite E2. cbn. eexists. split_and!; [done| |lia|done].
      unfold Zlen. rewrite length_replicate. lia.
    + as_step. as_step. as_count_with 0 ltac:(rewrite Hbuf). as_step.
      eapply ewp_mono; [apply (ewp_handle_error base i now)|].
      * by eapply (ready_but_at base i s); [apply HP1|..].
      * rewrite (sframe_nservers _ _ _ (as_frame _ _ _ _ _ HA)), (st_n _ _ (proj2 HP1)). done.
      * eapply now_stable; [|exact Hnow]. transitivity c1; [apply HP1|apply stable_sframe, HA].
      * intros _ c7 (HR7 & Hs7 & _). ewp_step. split; [done|].
        etransitivity; [|exact Hs7]. transitivity c1; [apply HP1|apply stable_sframe, HA].
  - as_step. eapply progress_at; [exact HP1|exact HA|exact HF|]. constructor; [done|cbn; lia|].
    cbn. rewrite (proj2 (Z.eqb_neq _ _) E2). done.
Qed.

Lemma ewp_read_body base c0 c i s now :
  progress base c0 c -> now_ok now c0 -> servers c !! i = Some s -> tcp_lenbuf_pos s = 2 ->
  ewp (read_body i s now) c (fun _ c' => progress base c0 c').
Proof.
  intros HP Hnow Hs Hpos. assert (Hi : (i < nservers c0)%nat).
  { rewrite <- (st_n _ _ (proj2 HP)). by eapply lookup_lt_Some. }
  pose proof (proj1 (proj1 HP) 0%nat) as (_ & _ & Hrv). destruct (Hrv _ _ Hs) as [Hlb _ Hbuf].
  rewrite (proj2 (Z.eqb_eq _ _) Hpos) in Hbuf. destruct Hbuf as (buf & Hb & Hbl & Hbp).
  unfold read_body. ewp_step. eapply ewp_mono; [apply (ewp_tcp_recv base c0); [done..|lia]|].
  intros [bs|] c1 [HP1 Hrec]; [|by ewp_step]. destruct Hrec as [Hse Hl].
  rewrite Hb. clear Hrv. pose proof (proj1 (proj1 HP1) 0%nat) as (Hc1 & Hsq & Hrv).
  rewrite <- Hse in Hs. pose proof (Hsq _ _ Hs) as HF. ewp_step. apply ewp_assert.
  { apply andb_true_intro. split; apply Z.leb_le; lia. }
  pose proof (store_at_length buf (tcp_buffer_pos s) bs ltac:(lia) ltac:(lia)) as Hsl.
  set (buf' := store_at _ _ _) in *. set (pos := tcp_buffer_pos s + Zlen bs) in *.
  pose proof (at_server_here _ _ _ Hs) as HA. as_step. as_step.
  as_count_with 0 ltac:(rewrite Hb).
  set (s1 := set_tcp_buffer_pos _ _) in *.
  assert (Hro : recv_ok s1).
  { constructor; [done|cbn; lia|]. cbn. rewrite (proj2 (Z.eqb_eq _ _) Hpos).
    exists buf'. split_and!; [done|unfold Zlen in *; lia|unfold pos, Zlen in *; lia|lia]. }
  pose proof (progress_at base c0 c1 i s1 _ HP1 HA HF Hro) as HP2.
  destruct (Z.eqb_spec pos (tcp_length s)) as [Ep|Ep]; [|by as_step]. ewp_step.
  pose proof (st_n _ _ (proj2 HP2)) as Hn2.
  eapply ewp_mono; [apply (ewp_process_answer base); [apply HP2| |by rewrite Hn2|]|].
  - eapply now_stable; [apply HP2|done].
  - destruct (Z.le_gt_cases (Zlen buf') 32767); [by left|right].
    apply Exists_exists. exists s1. split.
    + eapply list_elem_of_lookup_2. by eapply at_server_lookup.
    + cbn. split_and!; [done|done|]. unfold Zlen in *. lia.
  - intros _ c3 (HR3 & Hs3 & _).
    assert (HP3 : progress base c0 c3) by (split; [done|etransitivity; [apply HP2|done]]).
    clear HA. destruct (server_exists c3 i) as [s3 Hl3].
    { rewrite (st_n _ _ (proj2 HP3)). done. }
    pose proof (proj1 HR3 0%nat) as (Hc3 & Hsq3 & Hrv3).
    pose proof (at_server_here _ _ _ Hl3) as HA. as_step. as_step. as_step.
    pose proof (at_server_live _ _ _ _ _ HA (core_funded _ _ _ _ Hc3)) as Hlive.
    unfold server_blocks in Hlive. pose proof (sendq_blocks_nonneg (sendq s3)).
    eapply (as_mem _ _ _ _ _ HA _ (fun _ => - blocks_opt (tcp_buffer s3))).
    apply wp_free_opt; [lia|]. split; [cbn; lia|]. clear HA. intros ? HA. as_step. as_count 0.
    eapply progress_at; [exact HP3|exact HA|by apply Hsq3 in Hl3|].
    constructor; cbn; [apply (Hrv3 _ _ Hl3)|lia|done].
Qed.

Lemma ewp_read_tcp_data base fds fd now c :
  ready base c -> now_ok now c ->
  ewp (read_tcp_data fds fd now) c (fun _ c' => progress base c c').
Proof.
  intros HR Hnow. unfold read_tcp_data. destruct (no_action _ _); [ewp_step; by apply progress_refl|].
  apply (ewp_for_servers _ _ c (fun _ c' => progress base c c')); [by apply progress_refl|].
  intros i l c' Hi HP. destruct (server_exists c' i) as [s Hs].
  { by rewrite (st_n _ _ (proj2 HP)). }
  unfold read_server. ewp_step. ewp_step. destruct (_ || _); [by ewp_step|]. ewp_step.
  eapply (ewp_mono _ _ (fun _ c2 => progress base c c2)).
  - destruct (Z.eqb_spec (tcp_lenbuf_pos s) 2) as [E|E]; cbn [negb].
    + ewp_step. eapply ewp_mono; [by eapply (ewp_read_body base c)|]. intros ? c2 HP2. by ewp_step.
    + by eapply ewp_read_length.
  - intros go c2 HP2. by ewp_step.
Qed.

Lemma ewp_udp_packets base c0 fuel i now c :
  progress base c0 c -> now_ok now c0 -> (i < nservers c0)%nat ->
  (S (length (pkts c)) < fuel)%nat ->
  ewp (udp_packets fuel i now) c (fun _ c' => progress base c0 c').
Proof.
  intros HP Hnow Hi; revert c HP; induction fuel as [|fuel IH]; intros c HP Hf; [lia|].
  cbn [udp_packets]. destruct (server_exists c i) as [s Hs]; [by rewrite (st_n _ _ (proj2 HP))|].
  do 2 ewp_step. ewp_step. destruct (_ =? ARES_SOCKET_BAD).
  { ewp_step. by apply progress_error. }
  apply ewp_sys_recv. intros p ps Hp Hle _ Hlt. pose proof (progress_pkts _ _ _ ps HP Hle) as HP1.
  destruct p as [e|from bs].
  - destruct (try_again e); [by ewp_step|by apply progress_error].
  - destruct bs as [|b bs]; [by apply progress_error|].
    specialize (Hlt _ _ eq_refl). destruct (negb _); [by ewp_step|]. ewp_step.
    eapply ewp_mono; [apply (ewp_process_answer base); [apply HP1| | |]|].
    + eapply now_stable; [apply HP1|done].
    + by rewrite (st_n _ _ (proj2 HP1)).
    + left. unfold MAXENDSSZ in *. lia.
    + intros ? c2 (HR2 & Hs2 & _). apply IH.
      * split; [done|etransitivity; [apply HP1|done]].
      * pose proof (st_pkts _ _ Hs2) as Hk. cbn in Hk. lia.
Qed.

Lemma ewp_read_udp base fds fd now c :
  ready base c -> now_ok now c ->
  ewp (read_udp_packets fds fd now) c (fun _ c' => progress base c c').
Proof.
  intros HR Hnow. unfold read_udp_packets. destruct (no_action _ _); [ewp_step; by apply progress_refl|].
  apply (ewp_for_servers _ _ c (fun _ c' => progress base c c')); [by apply progress_refl|].
  intros i l c' Hi HP. destruct (server_exists c' i) as [s Hs].
  { by rewrite (st_n _ _ (proj2 HP)). }
  unfold udp_server. ewp_step. ewp_step. destruct (_ || _); [by ewp_step|]. do 3 ewp_step.
  eapply ewp_mono; [apply (ewp_udp_packets base c); [done..|lia]|]. intros ? c2 HP2. by ewp_step.
Qed.

(** ** [ares_process] *)

(** What is left of a channel by an operation at time [now]. *)
Record operated (base : Z) (c c' : chan) : Prop := {
  op_ready : ready base c';
  op_cfg : cfg c' = cfg c;
  op_flags : flags c' = flags c;
  op_n : nservers c' = nservers c }.

Lemma operated_progress base c c' : progress base c c' -> operated base c c'.
Proof. intros [HR []]. by constructor. Qed.

Lemma ewp_processfds base rfds rfd wfds wfd now c :
  ready base c -> now_ok now c ->
  ewp (processfds rfds rfd wfds wfd now) c (fun _ c' =>
    operated base c c' /\ last_timeout_processed c' = tv_sec now).
Proof.
  intros HR Hnow. unfold processfds. ewp_step.
  eapply ewp_mono; [by apply ewp_write_tcp_data|]. intros ? c1 [HR1 Hs1].
  pose proof (now_stable _ _ _ Hs1 Hnow) as Hn1. ewp_step.
  eapply ewp_mono; [by apply ewp_read_tcp_data|]. intros ? c2 [HR2 Hs2].
  pose proof (now_stable _ _ _ Hs2 Hn1) as Hn2. ewp_step.
  eapply ewp_mono; [by apply ewp_read_udp|]. intros ? c3 [HR3 Hs3].
  pose proof (now_stable _ _ _ Hs3 Hn2) as Hn3. ewp_step.
  eapply ewp_mono; [by apply ewp_process_timeouts|].
  intros ? c4 (HR4 & Hcfg & Hfl & Hn & _ & Hlast & _).
  eapply ewp_mono; [apply (ewp_process_broken base); [done|]|].
  { split; [lia|apply Hnow]. }
  intros ? c5 [HR5 Hs5]. destruct Hs1, Hs2, Hs3, Hs5. split; [|congruence].
  constructor; [done|congruence..].
Qed.

(** ** [ares_send] *)

Definition new_state (q : Z) (r : query) (last : nat) (h : heap) (c : chan) : chan :=
  Chan (cfg c) (flags c) (servers c) (tcp_connection_generation c) (last_timeout_processed c)
    last (all_queries c ++ [q]) (cancelled c)
    (insert_bucket (queries_by_qid c) (Z.rem (qid r) ARES_QID_TABLE_SIZE) q)
    (queries_by_timeout c) (stolen c) (<[q := r]> (queries c)) (q + 1) h (ints c) (pkts c) (trace c).

Lemma issued_bound base W X c q r :
  core base W X c -> queries c !! q = Some r -> 1 <= q < next_addr c.
Proof.
  intros Hc Hr. destruct (c_issued _ _ _ _ Hc) as [Hn Hp].
  assert (Hin : q ∈ ended (trace c) ++ all_queries c ++ cancelled c).
  { apply elem_of_app. right. apply (c_live _ _ _ _ Hc). by eexists. }
  rewrite Hp in Hin. apply elem_of_seqZ in Hin. lia.
Qed.

Lemma table_ok_new qs q r key m :
  table_ok qs None key m -> qs !! q = None ->
  table_ok (<[q := r]> qs) None key (insert_bucket m (key r) q).
Proof.
  intros H Hq b. rewrite bucket_insert. destruct (H b) as (Hn & Hl & Hi).
  assert (Hqb : q ∉ bucket m b). { intros Hin. apply Hl in Hin as [x Hx]. congruence. }
  assert (Hlive : forall p, p ∈ bucket m b \/ p = q -> is_Some (<[q := r]> qs !! p)).
  { intros p Hp. destruct (decide (p = q)) as [->|Hne]; [rewrite lookup_insert_eq; by eexists|].
    rewrite lookup_insert_ne by done. apply Hl. by destruct Hp. }
  case_decide as E; [subst b|].
  - split_and!.
    + apply NoDup_app. split_and!; [done| |apply NoDup_singleton].
      intros x Hx. rewrite list_elem_of_singleton. congruence.
    + intros p. rewrite elem_of_app, list_elem_of_singleton. apply Hlive.
    + intros p x [[<- <-]|[Hne Hp]]%lookup_insert_Some _;
        rewrite elem_of_app, list_elem_of_singleton; [tauto|].
      rewrite (Hi _ _ Hp) by done. intuition congruence.
  - split_and!; [done|intros p Hp; apply Hlive; by left|].
    intros p x [[<- <-]|[Hne Hp]]%lookup_insert_Some _; [intuition congruence|].
    by apply Hi.
Qed.

Lemma core_new base W q r last h c :
  core base W None c -> q = next_addr c -> query_ok (nservers c) r -> try_count r = 0 ->
  (last < nservers c)%nat -> live h = live (mem c) + 3 ->
  core base W (Some q) (new_state q r last h c).
Proof.
  intros Hc -> Hok Htry Hlast Hh. set (q := next_addr c).
  assert (Hfresh : queries c !! q = None).
  { destruct (queries c !! q) as [x|] eqn:E; [|done].
    apply (issued_bound _ _ _ _ _ _ Hc) in E. unfold q in E. lia. }
  assert (Hne : forall p x, queries c !! p = Some x -> p <> q) by congruence.
  destruct Hc. constructor; cbn [cfg flags servers last_server last_timeout_processed
    all_queries cancelled queries_by_qid queries_by_timeout stolen queries next_addr mem trace
    new_state]; try done.
  - split; [done|apply c_last].
  - apply (NoDup_Permutation_proper _ (q :: all_queries c ++ cancelled c)).
    { rewrite <- app_assoc. symmetry. apply Permutation_middle. }
    constructor; [|done]. intros Hin%c_live. rewrite Hfresh in Hin. by destruct Hin.
  - intros p. rewrite !elem_of_app, list_elem_of_singleton.
    pose proof (c_live p) as Hl. rewrite elem_of_app in Hl.
    destruct (decide (p = q)) as [->|Hpq].
    + rewrite lookup_insert_eq. split; [intros _; by eexists|tauto].
    + rewrite lookup_insert_ne by done. rewrite <- Hl. tauto.
  - intros p x [[_ <-]|[_ Hp]]%lookup_insert_Some; [done|by apply (c_query p)].
  - intros p x [[<- <-]|[Hpq Hp]]%lookup_insert_Some Hx; [done|]. by apply (c_filed p).
  - by apply table_ok_new.
  - intros b. destruct (c_timeout b) as (Hn & Hl & Hi). split_and!; [done| |].
    + intros p Hp. apply Hl in Hp as [x Hx]. rewrite lookup_insert_ne by (apply not_eq_sym; eauto).
      by eexists.
    + intros p x [[<- <-]|[Hpq Hp]]%lookup_insert_Some Hx; [done|]. by apply Hi.
  - destruct c_server as [H1 H2 H3 H4 H5]. constructor; [done| | |done|].
    + intros i ql p Hi Hp. destruct (H2 _ _ _ Hi Hp) as [x Hx].
      rewrite lookup_insert_ne by (apply not_eq_sym; eauto). by eexists.
    + intros i ql p x Hi [[<- <-]|[Hpq Hp]]%lookup_insert_Some Hx; [done|]. by apply (H3 i).
    + intros p Hp. destruct (H5 _ Hp) as (x & Hx & Hw).
      exists x. rewrite lookup_insert_ne by (apply not_eq_sym; eauto). split; [done|auto].
  - split; [tauto|]. rewrite <- app_assoc. autorewrite with cares.
    destruct c_mem as [_ Hm]. rewrite Zlen_app in Hm. lia.
  - destruct c_issued as [Hn Hp]. split; [unfold q; lia|].
    replace (q + 1 - 1) with ((next_addr c - 1) + 1) by (unfold q; lia).
    rewrite seqZ_app by lia. replace (1 + (next_addr c - 1)) with q by (unfold q; lia).
    rewrite <- Hp. change (seqZ q 1) with [q]. rewrite <- !app_assoc.
    do 2 f_equiv. apply Permutation_app_comm.
  - destruct c_sends as [Hf Ha Hl]. constructor; [intros p Hp; apply Hf; unfold q in Hp; lia|done|].
    intros p x [[<- <-]|[Hpq Hp]]%lookup_insert_Some.
    + rewrite decide_True by done. rewrite (Hf q), Htry by done. destruct (using_tcp r); lia.
    + rewrite decide_False by congruence. pose proof (Hl _ _ Hp) as Hb. by rewrite decide_False in Hb.
Qed.

Lemma new_sendqs_ok q r last h c :
  sendqs_ok c -> queries c !! q = None -> sendqs_ok (new_state q r last h c).
Proof.
  intros Hs Hq i s Hi. eapply Forall_impl; [exact (Hs _ _ Hi)|]. intros sr [H0 H].
  split; [done|]. destruct (owner_query sr) as [p|]; [|done].
  destruct H as (Hst & x & off & Hx & Hd). split; [done|]. exists x, off.
  split; [|done]. cbn. rewrite lookup_insert_ne; [done|congruence].
Qed.

Lemma new_query_ok qb id arg (server n : nat) tcp :
  HFIXEDSZ <= Zlen qb <= 32767 -> (server < n)%nat -> query_ok n (new_query qb id arg server n tcp).
Proof.
  intros Hl Hs. constructor; cbn; [|done|done|done|by rewrite length_replicate|done].
  eexists. split; [done|]. rewrite !Zlen_cons. lia.
Qed.

(** A failing [ares_send] only reports the error. *)
Lemma ewp_fail_send base c c1 arg st :
  ready base c -> quiet c c1 -> ewp (fail_send arg st) c1 (fun _ c' => progress base c c').
Proof.
  intros HR Hq. unfold fail_send. ewp_step. eapply progress_quiet; [by apply progress_refl|].
  eapply quiet_trans; [exact Hq|by apply quiet_emit].
Qed.

Lemma ewp_ares_send base qb arg now c :
  ready base c -> now_ok now c -> Zlen qb <= 32767 ->
  ewp (ares_send qb arg now) c (fun _ c' => progress base c c').
Proof.
  intros HR Hnow Hlen. pose proof (proj1 HR 0%nat) as (Hc & Hsq & Hrv). unfold ares_send.
  destruct (Z.ltb_spec (Zlen qb) HFIXEDSZ); [|destruct (Z.leb_spec 65536 (Zlen qb)); [lia|]];
    cbn [orb].
  { apply ewp_fail_send; [done|]. split; [apply sframe_refl|done]. }
  assert (Hlive : 0 <= live (mem c)).
  { destruct (c_mem _ _ _ _ Hc). pose proof (blocks_nonneg (servers c)). unfold Zlen in *. lia. }
  do 2 ewp_step. apply wp_malloc; intros o1 _; cbn [negb];
    [|apply ewp_fail_send; [done|by apply quiet_mem]].
  do 2 ewp_step. apply wp_malloc; intros o2 _; cbn [negb].
  2: { do 2 ewp_step. apply wp_free; [cbn; lia|].
       apply ewp_fail_send; [done|]. apply (quiet_mem _ c). cbn. lia. }
  do 2 ewp_step. apply wp_malloc; intros o3 _; cbn [negb].
  2: { do 2 ewp_step. apply wp_free; [cbn; lia|]. do 2 ewp_step. apply wp_free; [cbn; lia|].
       apply ewp_fail_send; [done|]. apply (quiet_mem _ c). cbn. lia. }
  unfold HFIXEDSZ, DNS_HEADER_QID in *. do 2 ewp_step. apply wp_u16; [lia..|]. intros id _ _.
  do 6 ewp_step. ewp_step.
  destruct (c_last _ _ _ _ Hc) as [Hls _]. change (nservers (set_mem _ _)) with (nservers c).
  change (last_server (set_mem _ _)) with (last_server c).
  set (h3 := Heap _ _). set (c3 := set_mem _ _).
  eapply (ewp_mono _ _ (fun _ c4 => exists last, (last < nservers c)%nat /\
    c4 = set_last_server last c3)).
  { destruct (rotate (cfg c3)).
    - ewp_step. apply ewp_assert.
      + destruct (Nat.eqb_spec (nservers c) 0); [lia|done].
      + ewp_step. eexists. split; [|done]. apply Nat.mod_upper_bound. lia.
    - ewp_step. exists (last_server c). split; [done|]. by subst c3; destruct c. }
  intros _ c4 (last & Hlast & ->). unfold flag, insert_all, insert_by_qid.
  repeat ewp_step. cbv beta.
  set (r := new_query _ _ _ _ _ _).
  assert (Hok : query_ok (nservers c) r) by (apply new_query_ok; unfold HFIXEDSZ; [lia|done]).
  match goal with |- ewp _ ?c5 _ => change c5 with (new_state (next_addr c) r last h3 c) end.
  set (q := next_addr c).
  assert (HI5 : inv base 0 (Some q) (new_state q r last h3 c)).
  { split_and!; [apply core_new; try done; cbn; lia| |done]. apply new_sendqs_ok; [done|].
    destruct (queries c !! q) as [x|] eqn:E; [|done].
    apply (issued_bound _ _ _ _ _ _ Hc) in E. unfold q in E. lia. }
  eapply ewp_mono; [eapply (ewp_send_query base 0); [exact HI5|apply lookup_insert_eq| |]|].
  - destruct (c_config _ _ _ _ Hc). unfold attempts_left. cbn. unfold nservers in *. cbn. nia.
  - by destruct Hnow.
  - intros _ c6 [HI6 Hm]. destruct HR as (_ & Hst & Hca). split.
    + eapply ready_intro; [exact HI6| |].
      * rewrite (mv_stolen _ _ _ _ Hm). cbn. by rewrite Hst.
      * by apply (mv_cancelled _ _ _ _ Hm).
    + destruct Hm. constructor; try done. by rewrite mv_pkts.
Qed.

(** ** [ares_cancel] and [ares_destroy] *)

(** What the loops of [ares_cancel] and [ares_destroy] do not change. *)
Record drained (c c' : chan) : Prop := {
  dr_cfg : cfg c' = cfg c;
  dr_flags : flags c' = flags c;
  dr_n : nservers c' = nservers c;
  dr_last : last_timeout_processed c' = last_timeout_processed c;
  dr_pkts : pkts c' = pkts c;
  dr_next : next_addr c' = next_addr c }.

#[export] Instance drained_preorder : PreOrder drained.
Proof. split; [by constructor|]. intros c1 c2 c3 [] []. constructor; congruence. Qed.

Lemma free_query_step base c q r e :
  core base 0 None c -> recvs_ok c -> queries c !! q = Some r ->
  ended_of e = Some q -> (forall p, sent_of p e = 0) ->
  ewp (ares__free_query q) (set_trace (e :: trace c) c) (fun _ c' =>
    core base 0 None c' /\ recvs_ok c' /\ all_queries c' = without q (all_queries c) /\
    cancelled c' = without q (cancelled c) /\ stolen c' = without q (stolen c) /\ drained c c').
Proof.
  intros Hc Hrv Hr He Hse. destruct (qo_buf _ _ (c_query _ _ _ _ Hc _ _ Hr)) as (bs & Hb & _).
  eapply ewp_free_query; [exact Hr|by rewrite Hb|exact (live_room _ _ _ _ _ _ Hc Hr)|].
  split_and!; try done.
  - exact (core_end _ _ _ _ _ _ e (oracle (mem c)) Hc Hr (or_introl eq_refl) He Hse).
  - by apply free_recvs_ok.
  - constructor; try done. unfold nservers; cbn. by rewrite length_fmap.
Qed.

(** The state inside those loops: the send queues are not looked at. *)
Definition draining (base : Z) (all canc : list Z) (c : chan) : Prop :=
  core base 0 None c /\ recvs_ok c /\ stolen c = [] /\ all_queries c = all /\ cancelled c = canc.

Lemma ewp_cancel_loop base l fuel c :
  draining base [] l c -> (length l <= fuel)%nat ->
  ewp (cancel_loop fuel (head l)) c (fun _ c' => draining base [] [] c' /\ drained c c').
Proof.
  revert fuel c; induction l as [|q l IH]; intros fuel c (Hc & Hr & Hst & Ha & Hca) Hf; cbn [head].
  { destruct fuel; cbn [cancel_loop]; ewp_step; by split_and!. }
  destruct fuel as [|fuel]; [cbn in Hf; lia|]. cbn [cancel_loop]. do 2 ewp_step. cbv beta.
  rewrite Hca. cbn [node_next]. rewrite decide_True by done.
  assert (Hin : is_Some (queries c !! q)).
  { apply (c_live _ _ _ _ Hc). rewrite Ha, Hca. left. }
  destruct Hin as [r Hq]. do 5 ewp_step.
  eapply ewp_mono; [by eapply free_query_step|].
  intros _ c1 (Hc1 & Hr1 & Ha1 & Hca1 & Hst1 & Hd1).
  pose proof (c_nodup _ _ _ _ Hc) as Hnd. rewrite Ha, Hca in Hnd.
  eapply ewp_mono; [apply (IH fuel c1)|].
  - split_and!; [done|done|by rewrite Hst1, Hst|by rewrite Ha1, Ha|].
    rewrite Hca1, Hca. by apply without_head.
  - cbn in Hf. lia.
  - intros _ c2 [HD Hd2]. split; [done|by transitivity c1].
Qed.

Lemma ewp_destroy_loop base l fuel c :
  draining base l [] c -> (length l <= fuel)%nat ->
  ewp (destroy_loop fuel (head l)) c (fun _ c' => draining base [] [] c' /\ drained c c').
Proof.
  revert fuel c; induction l as [|q l IH]; intros fuel c (Hc & Hr & Hst & Ha & Hca) Hf; cbn [head].
  { destruct fuel; cbn [destroy_loop]; ewp_step; by split_and!. }
  destruct fuel as [|fuel]; [cbn in Hf; lia|]. cbn [destroy_loop]. do 2 ewp_step. cbv beta.
  rewrite Ha. cbn [node_next]. rewrite decide_True by done.
  assert (Hin : is_Some (queries c !! q)).
  { apply (c_live _ _ _ _ Hc). rewrite Ha. left. }
  destruct Hin as [r Hq]. do 5 ewp_step.
  eapply ewp_mono; [by eapply free_query_step|].
  intros _ c1 (Hc1 & Hr1 & Ha1 & Hca1 & Hst1 & Hd1).
  pose proof (c_nodup _ _ _ _ Hc) as Hnd. rewrite Ha, Hca, app_nil_r in Hnd.
  eapply ewp_mono; [apply (IH fuel c1)|].
  - split_and!; [done|done|by rewrite Hst1, Hst| |by rewrite Hca1, Hca].
    rewrite Ha1, Ha. by apply without_head.
  - cbn in Hf. lia.
  - intros _ c2 [HD Hd2]. split; [done|by transitivity c1].
Qed.

Lemma core_cancel base c :
  core base 0 None c -> cancelled c = [] ->
  core base 0 None (set_cancelled (all_queries c) (set_all_queries [] c)).
Proof.
  intros [] Hca. rewrite Hca, app_nil_r in *.
  constructor; cbn [cfg flags servers last_server last_timeout_processed all_queries cancelled
    queries_by_qid queries_by_timeout stolen queries next_addr mem trace set_cancelled
    set_all_queries app]; try done.
Qed.

(** Without [ARES_FLAG_STAYOPEN] the connections are closed, which is what
    makes the cancelled queries' requests harmless. *)
Lemma ewp_ares_cancel base c :
  ready base c -> Z.testbit (flags c) ARES_FLAG_STAYOPEN = false ->
  ewp ares_cancel c (fun _ c' => ready base c' /\ all_queries c' = [] /\ drained c c').
Proof.
  intros (HI & Hst & Hca) Hstay. destruct (HI 0%nat) as (Hc & Hs & Hr).
  unfold ares_cancel. do 3 ewp_step.
  eapply (ewp_mono _ _ (fun _ c1 => draining base [] [] c1 /\ drained c c1)).
  - destruct (all_queries c) as [|q l] eqn:Ea; [by ewp_step; split_and!|].
    do 2 ewp_step. rewrite <- Ea.
    eapply ewp_mono; [apply (ewp_cancel_loop base (all_queries c)); [|done]|].
    + split_and!; try done. by apply core_cancel.
    + intros _ c1 [HD Hd]. split; [done|]. by transitivity (set_cancelled (all_queries c)
        (set_all_queries [] c)).
  - intros _ c1 [(Hc1 & Hr1 & Hst1 & Ha1 & Hca1) Hd].
    eapply ewp_mono; [apply (ewp_close_if_idle base 0 None c1); [done..|right]|].
    + by rewrite (dr_flags _ _ Hd).
    + intros _ c2 [HI2 F]. split_and!.
      * eapply ready_intro; [exact HI2|by rewrite (f_stolen _ _ _ F)|by rewrite (f_cancelled _ _ _ F)].
      * by rewrite (f_all _ _ _ F).
      * transitivity c1; [done|]. pose proof (sframe_nservers _ _ _ F). destruct F. by constructor.
Qed.

Lemma table_empty_ok qs X key m :
  table_ok qs X key m -> (forall q, qs !! q = None) -> table_empty m = true.
Proof.
  intros H He. apply forallb_forall. intros [b l] Hin%list_elem_of_In%elem_of_map_to_list.
  destruct (H b) as (_ & Hl & _). unfold bucket in Hl. rewrite Hin in Hl. cbn in *.
  destruct l as [|q l]; [done|]. destruct (Hl q) as [r Hr]; [left|]. by rewrite He in Hr.
Qed.

Lemma blocks_closed l :
  (forall i s, l !! i = Some s -> sendq s = [] /\ tcp_buffer s = None) -> blocks l = 0.
Proof.
  induction l as [|s l IH]; intros H; [done|]. cbn. destruct (H 0%nat s eq_refl) as [E1 E2].
  unfold server_blocks. rewrite E1, E2, IH; [done|]. intros i x Hx. by apply (H (S i)).
Qed.

(** Without queries, destroying the servers passes the assertions and releases
    all that belongs to them. *)
Lemma ewp_destroy_servers base c1 :
  core base 0 None c1 -> (forall q, queries c1 !! q = None) ->
  ewp ares__destroy_servers_state c1 (fun _ c' => core base 0 None c' /\ sframe 0 c1 c' /\
    forall i s, servers c' !! i = Some s -> sendq s = [] /\ tcp_buffer s = None).
Proof.
  intros Hc1 Hnone. unfold ares__destroy_servers_state.
  eapply ewp_mono; [apply (ewp_for_servers _ () c1 (fun k c' => core base 0 None c' /\
    sframe 0 c1 c' /\ forall j s, (j < k)%nat -> servers c' !! j = Some s ->
      sendq s = [] /\ tcp_buffer s = None))|].
  - split_and!; [done|apply sframe_refl|lia].
  - intros i [] c2 Hi (Hc2 & F & Hj). rewrite <- (sframe_nservers _ _ _ F) in Hi.
    destruct (server_exists _ _ Hi) as [s Hs]. ewp_step.
    eapply ewp_mono; [apply (ewp_close _ _ _ Hs), (core_funded _ _ _ _ Hc2)|].
    intros _ c3 (s3 & Hcl & HA). as_step. as_step. as_step. apply ewp_assert.
    { rewrite (cl_queries _ _ Hcl). apply bool_decide_eq_true.
      destruct (queries_to_server s) as [|q l] eqn:Eq; [done|].
      destruct (bs_live _ _ _ _ _ (c_server _ _ _ _ Hc2) i (queries_to_server s) q) as [x Hx].
      - by rewrite list_lookup_fmap, Hs.
      - rewrite Eq. left.
      - rewrite (f_queries _ _ _ F), Hnone in Hx. done. }
    as_step. cbn [fst]. split_and!.
    + by eapply core_at.
    + apply (sframe_trans 0 0 _ c2); [done|apply HA].
    + intros j x Hjk Hx. rewrite (as_servers _ _ _ _ _ HA) in Hx.
      apply list_lookup_insert_Some in Hx as [(_ & <- & _)|(Hne & Hx)].
      * split; apply Hcl.
      * eapply Hj; [|done]. lia.
  - intros _ c4 (Hc4 & F & Hcl). rewrite <- (sframe_nservers _ _ _ F) in Hcl. split_and!; [done..|].
    intros i s Hi. eapply Hcl; [by eapply lookup_lt_Some|done].
Qed.

(** Without a query in the lists there is none. *)
Lemma core_idle base W X c :
  core base W X c -> all_queries c = [] -> cancelled c = [] -> forall q, queries c !! q = None.
Proof.
  intros Hc Ha Hca q. destruct (queries c !! q) as [x|] eqn:E; [|done].
  assert (Hin : q ∈ all_queries c ++ cancelled c) by (apply (c_live _ _ _ _ Hc); by eexists).
  rewrite Ha, Hca in Hin. by apply not_elem_of_nil in Hin.
Qed.

(** Destroying a channel calls every query back, passes the assertions and
    releases every block of the engine. *)
Lemma ewp_ares_destroy base c :
  ready base c ->
  ewp ares_destroy c (fun _ c' => live (mem c') = base /\ next_addr c' = next_addr c /\
    ended (trace c') ≡ₚ seqZ 1 (next_addr c - 1)).
Proof.
  intros (HI & Hst & Hca). destruct (HI 0%nat) as (Hc & _ & Hr). unfold ares_destroy.
  do 3 ewp_step. eapply ewp_mono; [apply (ewp_destroy_loop base (all_queries c)); [|done]|].
  { by split_and!. }
  intros _ c1 [(Hc1 & Hr1 & Hst1 & Ha1 & Hca1) Hd].
  pose proof (core_idle _ _ _ _ Hc1 Ha1 Hca1) as Hnone.
  do 3 ewp_step. apply ewp_assert; [by rewrite Ha1|].
  do 3 ewp_step. apply ewp_assert; [by eapply table_empty_ok; [apply Hc1|]|].
  do 3 ewp_step. apply ewp_assert; [by eapply table_empty_ok; [apply Hc1|]|].
  eapply ewp_mono; [by apply ewp_destroy_servers|]. intros _ c4 (Hc4 & F & Hcl).
  destruct (c_mem _ _ _ _ Hc4) as [_ Hm]. destruct (c_issued _ _ _ _ Hc4) as [_ Hp].
  rewrite (f_all _ _ _ F), (f_cancelled _ _ _ F), Ha1, Hca1 in Hm, Hp.
  rewrite (f_next _ _ _ F), (dr_next _ _ Hd) in *. rewrite app_nil_r in Hp.
  rewrite blocks_closed in Hm; [|done].
  split_and!; [cbn in Hm; unfold Zlen in Hm; cbn in Hm; lia|done|done].
Qed.

(** ** [ares_timeout] *)

(** The milliseconds from [now] to a time-out that is set, 0 when it passed. *)
Definition remaining (now : timeval) (r : query) : option Z :=
  if tv_sec (q_timeout r) =? 0 then None else Some (Z.max 0 (timeoffset now (q_timeout r))).

Definition remaining_list (now : timeval) (c : chan) (l : list Z) : list Z :=
  omap (fun q => queries c !! q ≫= remaining now) l.

(** The smallest element, [-1] for none. *)
Definition is_min (m0 m : Z) (l : list Z) : Prop :=
  if decide (m = -1) then m0 = -1 /\ l = []
  else (m = m0 \/ m ∈ l) /\ (m0 <> -1 -> m <= m0) /\ Forall (fun x => m <= x) l.

Lemma ewp_min_timeout now c l m0 :
  (forall q, q ∈ l -> is_Some (queries c !! q)) -> -1 <= m0 ->
  ewp (min_timeout now l m0) c (fun m c' => c' = c /\ -1 <= m /\
    is_min m0 m (remaining_list now c l)).
Proof.
  revert m0; induction l as [|q l IH]; intros m0 Hl Hm; cbn [min_timeout].
  - ewp_step. split_and!; [done|done|]. unfold is_min. case_decide; [done|].
    split_and!; [by left|done|constructor].
  - destruct (Hl q) as [r Hr]; [left|]. do 2 ewp_step.
    assert (Hl' : forall q, q ∈ l -> is_Some (queries c !! q)) by (intros p Hp; apply Hl; by right).
    unfold remaining_list. cbn [omap list_omap]. rewrite Hr. cbn [mbind option_bind].
    unfold remaining at 1. destruct (Z.eqb_spec (tv_sec (q_timeout r)) 0); [by apply IH|].
    set (o := timeoffset now (q_timeout r)).
    replace (if o <? 0 then 0 else o) with (Z.max 0 o) by (destruct (Z.ltb_spec o 0); lia).
    set (x := Z.max 0 o). assert (0 <= x) by lia.
    set (m1 := if (m0 =? -1) || (x <? m0) then x else m0).
    assert (Hm1 : 0 <= m1 /\ m1 <= x /\ (m0 <> -1 -> m1 <= m0) /\ (m1 = x \/ m1 = m0)).
    { subst m1. destruct (Z.eqb_spec m0 (-1)); cbn [orb]; [lia|].
      destruct (Z.ltb_spec x m0); lia. }
    destruct Hm1 as (H1 & H2 & H3 & H4).
    eapply ewp_mono; [apply (IH m1 Hl'); lia|]. intros m c' (-> & Hm' & Hmin).
    split_and!; [done|done|]. unfold is_min in *. case_decide; [lia|].
    destruct Hmin as (Hin & Hle & HF). specialize (Hle ltac:(lia)). split_and!.
    + destruct Hin as [-> | Hin]; [|right; by right]. destruct H4 as [-> | ->]; [right; left|by left].
    + intros Hne. specialize (H3 Hne). lia.
    + constructor; [lia|done].
Qed.

(** ** Runs of a channel *)

Inductive op :=
| OpSend (qb : list Z) (arg : Z) (now : timeval)
| OpProcess (read_fds write_fds : option (list Z)) (now : timeval)
| OpProcessFd (read_fd write_fd : Z) (now : timeval)
| OpCancel.

Definition run_op (o : op) : E unit :=
  match o with
  | OpSend qb arg now => ares_send qb arg now
  | OpProcess rfds wfds now => ares_process rfds wfds now
  | OpProcessFd rfd wfd now => ares_process_fd rfd wfd now
  | OpCancel => ares_cancel
  end.

Fixpoint run (ops : list op) : E unit :=
  match ops with
  | [] => mret ()
  | o :: ops' => run_op o ;; run ops'
  end.

(** The clock does not go back behind second [t]; queries have at most 32767
    bytes; [ares_cancel] is only called without [ARES_FLAG_STAYOPEN]. *)
Fixpoint ops_ok (fl t : Z) (ops : list op) : Prop :=
  match ops with
  | [] => True
  | OpSend qb _ now :: ops' =>
      t <= tv_sec now /\ 0 <= tv_usec now < 1000000 /\ Zlen qb <= 32767 /\ ops_ok fl (tv_sec now) ops'
  | OpProcess _ _ now :: ops' | OpProcessFd _ _ now :: ops' =>
      t <= tv_sec now /\ 0 <= tv_usec now < 1000000 /\ ops_ok fl (tv_sec now) ops'
  | OpCancel :: ops' => Z.testbit fl ARES_FLAG_STAYOPEN = false /\ ops_ok fl t ops'
  end.

Lemma ewp_run base ops t c :
  ready base c -> last_timeout_processed c <= t -> ops_ok (flags c) t ops ->
  ewp (run ops) c (fun _ c' => operated base c c').
Proof.
  revert t c; induction ops as [|o ops IH]; intros t c HR Ht Hok; cbn [run].
  { ewp_step. by constructor. }
  assert (Hnext : forall t' c1, operated base c c1 -> last_timeout_processed c1 <= t' ->
    ops_ok (flags c) t' ops -> ewp (run ops) c1 (fun _ c' => operated base c c')).
  { intros t' c1 [] Ht' Hops. rewrite <- op_flags0 in Hops.
    eapply ewp_mono; [by eapply IH|]. intros _ c2 []. constructor; [done|congruence..]. }
  ewp_step. destruct o as [qb arg now|rfds wfds now|rfd wfd now|]; cbn in Hok.
  - destruct Hok as (Hs & Hu & Hl & Hok).
    eapply ewp_mono; [apply (ewp_ares_send base); [done|split; [lia|done]|done]|].
    intros _ c1 [HR1 Hs1]. apply (Hnext (tv_sec now)); [by apply operated_progress| |done].
    rewrite (st_last _ _ Hs1). lia.
  - destruct Hok as (Hs & Hu & Hok).
    eapply ewp_mono; [apply (ewp_processfds base); [done|split; [lia|done]]|].
    intros _ c1 [Ho Hlast]. apply (Hnext (tv_sec now)); [done|lia|done].
  - destruct Hok as (Hs & Hu & Hok).
    eapply ewp_mono; [apply (ewp_processfds base); [done|split; [lia|done]]|].
    intros _ c1 [Ho Hlast]. apply (Hnext (tv_sec now)); [done|lia|done].
  - destruct Hok as [Hst Hok].
    eapply ewp_mono; [by apply (ewp_ares_cancel base)|]. intros _ c1 (HR1 & _ & []).
    apply (Hnext t); [by constructor|lia|done].
Qed.

Lemma init_servers_spec g addrs i s :
  ares__init_servers_state g addrs !! i = Some s ->
  queries_to_server s = [] /\ sendq s = [] /\ tcp_buffer s = None /\ recv_ok s.
Proof.
  revert g i; induction addrs as [|a addrs IH]; intros g [|i] H; cbn in H; [done|done| |eauto].
  injection H as <-. split_and!; [done..|]. by constructor.
Qed.

Lemma init_servers_length g addrs : length (ares__init_servers_state g addrs) = length addrs.
Proof. revert g; induction addrs as [|a addrs IH]; intros g; cbn; [done|by rewrite IH]. Qed.

Lemma init_ready k fl addrs now h zs ps :
  config_ok k (length addrs) -> Z.testbit fl ARES_FLAG_EDNS = false -> 1 <= tv_sec now ->
  0 <= live h -> ready (live h) (init_channel k fl addrs now h zs ps).
Proof.
  intros Hk Hf Hn Hl. set (c := init_channel _ _ _ _ _ _ _).
  assert (Hns : nservers c = length addrs) by apply init_servers_length.
  assert (Hno : forall q, queries c !! q = None) by (intros q; apply lookup_empty).
  apply (ready_intro _ 0%nat); [|done..]. split_and!.
  - constructor; rewrite ?Hns; try done.
    + split; [cbn; destruct Hk; lia|done].
    + constructor.
    + intros q. cbn. rewrite lookup_empty. split; [by intros ?%not_elem_of_nil|by intros []].
    + intros b. unfold bucket; cbn. rewrite lookup_empty. split_and!; [constructor|..].
      * by intros q ?%not_elem_of_nil.
      * intros q r. by rewrite Hno.
    + intros b. unfold bucket; cbn. rewrite lookup_empty. split_and!; [constructor|..].
      * by intros q ?%not_elem_of_nil.
      * intros q r. by rewrite Hno.
    + assert (Hnil : forall i ql, (queries_to_server <$> servers c) !! i = Some ql -> ql = []).
      { intros i ql. rewrite list_lookup_fmap. cbn. destruct (_ !! i) as [s|] eqn:E; [|done].
        intros [= <-]. by apply init_servers_spec in E as (? & _). }
      constructor.
      * intros i ql ->%Hnil. constructor.
      * by intros i ql q ->%Hnil ?%not_elem_of_nil.
      * intros i ql q r _. by rewrite Hno.
      * constructor.
      * by intros q ?%not_elem_of_nil.
    + split; [done|]. cbn. rewrite blocks_closed; [unfold Zlen; cbn; lia|].
      intros i s E. apply init_servers_spec in E. tauto.
    + constructor; cbn.
      * done.
      * intros q. destruct Hk. lia.
      * intros q r. by rewrite Hno.
  - intros i s E. apply init_servers_spec in E as (_ & -> & _). constructor.
  - intros i s E. by apply init_servers_spec in E as (_ & _ & _ & ?).
Qed.
