(* ===== verification/ResolverTheorems.v ===== *)
(** * What is proved of the resolver engine (c-ares)

    The theorems about Resolver.v, with concrete channels that show their
    hypotheses can hold, and four behaviours that are wrong. *)

From S2P Require Import Prelude DnsWire ParseList ParseHost CreateQuery Channel.
From S2P Require Import Resolver ResolverInv ResolverSend ResolverAnswer ResolverIO.
Open Scope Z_scope.

(** ** Runs *)

Section runs.
Context (k : config) (fl : Z) (addrs : list ares_addr) (now : timeval) (h : heap)
  (zs : list Z) (ps : list pkt) (ops : list op).
Let c0 := init_channel k fl addrs now h zs ps.

(** C20. A run of the engine is safe and terminates, under these conditions: a
    fresh channel without [ARES_FLAG_EDNS], with at least one server, 1 to 31
    tries and a time-out of at least 2 ms that, doubled for each try and times 16,
    fits an [int]; queries of at most 32767 bytes; [ares_cancel] only without
    [ARES_FLAG_STAYOPEN]; a clock that does not go back. Then every sequence of
    [ares_send], [ares_process], [ares_process_fd] and [ares_cancel], whatever the
    network, the system calls, the socket callbacks and the allocator do, returns
    in a state that satisfies the invariant [ready]: no freed query is used, no
    request in a send queue dangles, every list and table lists exactly the live
    queries that belong there, and every allocated block is owned once, and no
    loop runs out of its bound; unless the run reaches the processing of a TCP
    message of more than 32767 bytes, at which [ewp] excuses it. The conditions on
    EDNS, [ares_cancel] and the time-outs are needed: the examples below break
    each of them. *)
Theorem resolver_run_safe :
  config_ok k (length addrs) -> Z.testbit fl ARES_FLAG_EDNS = false -> 1 <= tv_sec now ->
  0 <= live h -> ops_ok fl (tv_sec now) ops ->
  ewp (run ops) c0 (fun _ c => ready (live h) c).
Proof.
  intros Hk Hf Hn Hl Ho. eapply ewp_mono; [eapply (ewp_run (live h)); [by apply init_ready|done|done]|].
  intros ? c H. apply H.
Qed.

(** C21. Every query is called back exactly once and nothing leaks. After a run
    under the conditions of the previous property (no EDNS, no [ares_cancel] with
    [ARES_FLAG_STAYOPEN], tries and time-outs that fit an [int], queries and TCP
    messages of at most 32767 bytes) followed by [ares_destroy], the queries whose
    callback was invoked are exactly the queries [ares_send] created, each
    once, and the number of blocks in use is that of the start. *)
Theorem resolver_callback_once :
  config_ok k (length addrs) -> Z.testbit fl ARES_FLAG_EDNS = false -> 1 <= tv_sec now ->
  0 <= live h -> ops_ok fl (tv_sec now) ops ->
  ewp (run ops ;; ares_destroy) c0 (fun _ c => live (mem c) = live h /\
    NoDup (ended (trace c)) /\ forall q, q ∈ ended (trace c) <-> 1 <= q < next_addr c).
Proof.
  intros Hk Hf Hn Hl Ho. apply ewp_bind.
  eapply ewp_mono; [eapply (ewp_run (live h)); [by apply init_ready|done|done]|].
  intros ? c1 H. eapply ewp_mono; [apply ewp_ares_destroy, H|]. intros _ c2 (Hm & Hx & Hp).
  split_and!; [done| |].
  - rewrite Hp. apply NoDup_seqZ.
  - intros q. rewrite Hp, elem_of_seqZ, Hx. lia.
Qed.

(** C24. No query is handed to the network more often than once for each server
    and try and once more when it switches from UDP to TCP, in any run under the
    conditions of the first property. Without EDNS is one of them: the retry
    without EDNS (ares_process.c:623) is not counted against the tries. *)
Theorem resolver_attempts_bounded :
  config_ok k (length addrs) -> Z.testbit fl ARES_FLAG_EDNS = false -> 1 <= tv_sec now ->
  0 <= live h -> ops_ok fl (tv_sec now) ops ->
  ewp (run ops) c0 (fun _ c => forall q, sends (trace c) q <= Z.of_nat (length addrs) * tries k + 1).
Proof.
  intros Hk Hf Hn Hl Ho. eapply ewp_mono; [eapply (ewp_run (live h)); [by apply init_ready|done|done]|].
  intros _ c [HR Hc _ Hns] q.
  pose proof (so_all _ _ _ _ _ _ (c_sends _ _ _ _ (proj1 (proj1 HR 0%nat))) q) as Hs.
  rewrite Hns, Hc in Hs. unfold nservers in Hs. cbn in Hs. by rewrite init_servers_length in Hs.
Qed.

End runs.

(** ** Handlers *)

(** C23. [process_timeouts] finds every time-out although it only looks at the
    buckets of the seconds since its last call: afterwards no live query is
    past its time-out, and every query that was not past it is unchanged. *)
Theorem process_timeouts_complete base now c :
  ready base c -> now_ok now c ->
  ewp (process_timeouts now) c (fun _ c' => ready base c' /\
    last_timeout_processed c' = tv_sec now /\
    (forall q r, queries c' !! q = Some r -> ares__timedout now (q_timeout r) = false) /\
    forall q r, queries c !! q = Some r -> ares__timedout now (q_timeout r) = false ->
      queries c' !! q = Some r).
Proof.
  intros HR Hnow. eapply ewp_mono; [by apply ewp_process_timeouts|].
  intros _ c' (HR' & _ & _ & _ & _ & Hlast & Hk & Hall). split_and!; [done|done| |].
  - intros q r Hr. specialize (Hall _ _ Hr). cbn in Hall. unfold expired in Hall.
    destruct (c_filed _ _ _ _ (proj1 (proj1 HR' 0%nat)) _ _ Hr ltac:(done)) as [_ Hge].
    pose proof (proj2 (c_last _ _ _ _ (proj1 (proj1 HR' 0%nat)))).
    destruct (Z.eqb_spec (tv_sec (q_timeout r)) 0); [lia|done].
  - intros q r Hr Ht. apply Hk; [done|]. unfold expired. by rewrite Ht, andb_false_r.
Qed.

(** An error on the connection to one server does not touch the queries in
    flight to the others: [handle_error] returns, with the assertions it makes,
    in a state that satisfies the invariant, and leaves those queries as they
    were. *)
Theorem handle_error_isolates base w now c :
  ready base c -> (w < nservers c)%nat -> now_ok now c ->
  ewp (handle_error w now) c (fun _ c' => ready base c' /\
    forall p r, queries c !! p = Some r -> q_server r <> w -> queries c' !! p = Some r).
Proof.
  intros HR Hw Hnow. eapply ewp_mono; [by apply (ewp_handle_error base); [apply ready_ready_but|..]|].
  intros _ c' (HR' & _ & Ho). by split.
Qed.

(** C22. An answer only changes the query it belongs to. [process_answer] leaves
    every query alone, except at most one, whose identifier is that of the
    answer and whose questions the answer repeats; a message that answers
    nothing in flight, forged or late, changes no query. *)
Theorem process_answer_only_accepted base abuf w tcp now c :
  ready base c -> now_ok now c -> (w < nservers c)%nat -> Zlen abuf <= 32767 ->
  ewp (process_answer abuf w tcp now) c (fun _ c' => ready base c' /\ only_accepted abuf c c').
Proof.
  intros HR Hnow Hw Hl. eapply ewp_mono; [apply (ewp_process_answer base); try done; by left|].
  intros _ c' (HR' & _ & Ho). by split.
Qed.

(** [same_questions] decides that the two messages ask the same: if it
    returns 1, they have the same number of questions and each question of the
    query is, up to case, among those of the answer; if that is so and no
    allocation fails, it returns 1. It never reads outside the messages and
    releases all it allocates. *)
Theorem same_questions_correct qbuf abuf h :
  Zlen qbuf <= 32767 -> Zlen abuf <= 32767 -> 0 <= live h ->
  wp (same_questions qbuf abuf) h (fun b h' => live h' = live h /\
    (b = true -> questions_match qbuf abuf) /\
    (oracle h = [] -> questions_match qbuf abuf -> b = true)).
Proof. apply wp_same_questions. Qed.

(** The send queue of a TCP connection is a byte stream:
    [advance_tcp_send_queue] by [n] bytes leaves exactly the bytes after the
    first [n], across requests and within one, and keeps the invariant, in
    particular releases the requests it drops. *)
Theorem tcp_send_queue_stream base i s n c :
  ready base c -> servers c !! i = Some s -> sendq s <> [] ->
  ewp (advance_tcp_send_queue i n) c (fun _ c' => ready base c' /\
    exists s', servers c' !! i = Some s' /\
      queue_bytes (queries c') (sendq s') = drop (Z.to_nat n) (queue_bytes (queries c) (sendq s))).
Proof.
  intros HR Hs Hne. eapply ewp_mono; [by eapply ewp_advance|].
  intros _ c' (HR' & F & s' & Hs' & Hb). split; [done|]. exists s'.
  by rewrite (f_queries _ _ _ F).
Qed.

(** The time-out [ares_timeout] computes from the smallest remaining time. *)
Definition next_stop (m : Z) : timeval :=
  TV (Z.quot (Z.min m INT_MAX) 1000) (Z.rem (Z.min m INT_MAX) 1000 * 1000).

(** [ares_timeout] returns the smallest remaining time of all queries in
    flight, 0 for one that is overdue, or the caller's limit if that is sooner
    or nothing is in flight; it changes nothing. *)
Theorem ares_timeout_min base maxtv now c :
  ready base c ->
  ewp (ares_timeout maxtv now) c (fun r c' => c' = c /\
    (remaining_list now c (all_queries c) = [] /\ r = maxtv \/
     exists m, m ∈ remaining_list now c (all_queries c) /\
       Forall (fun x => m <= x) (remaining_list now c (all_queries c)) /\
       r = match maxtv with
           | None => Some (next_stop m)
           | Some t => if ares__timedout t (next_stop m) then Some (next_stop m) else maxtv
           end)).
Proof.
  intros HR. pose proof (proj1 (proj1 HR 0%nat)) as Hc. unfold ares_timeout. do 2 ewp_step. cbv beta.
  destruct (all_queries c) as [|q l] eqn:Ea; [ewp_step; split; [done|by left]|].
  rewrite <- Ea. ewp_step. eapply ewp_mono; [apply ewp_min_timeout; [|lia]|].
  { intros p Hp. apply (c_live _ _ _ _ Hc). apply elem_of_app. by left. }
  intros m ? (-> & Hm & Hmin). unfold is_min in Hmin.
  destruct (Z.eqb_spec m (-1)) as [->|Hne].
  - ewp_step. rewrite decide_True in Hmin by done. split; [done|]. left. by destruct Hmin.
  - rewrite decide_False in Hmin by done. destruct Hmin as (Hin & _ & HF).
    destruct Hin as [->|Hin]; [done|].
    replace (if INT_MAX <? m then INT_MAX else m) with (Z.min m INT_MAX)
      by (destruct (Z.ltb_spec INT_MAX m); lia).
    fold (next_stop m).
    destruct maxtv as [t|]; cbv beta iota zeta;
      [destruct (ares__timedout t _) eqn:Et|]; ewp_step;
      (split; [done|]); right; exists m; by rewrite ?Et.
Qed.

(** ** A concrete channel

    Two servers, five seconds, four tries; the query asks for the address of
    [a] and the answer spells it [A]. *)

Definition ex_config : config :=
  Config 5000 4 false 53 53 0 0 1280 [] 0 (replicate 16 0) false false false.

Definition ex_addr (b : Z) : ares_addr := AresAddr (Some AF_INET) [10; 0; 0; b] 0 0.

Definition ex_query : list Z := [0; 7; 1; 0; 0; 1; 0; 0; 0; 0; 0; 0; 1; 97; 0; 0; 1; 0; 1].
Definition ex_answer : list Z := [0; 7; 129; 0; 0; 1; 0; 0; 0; 0; 0; 0; 1; 65; 0; 0; 1; 0; 1].

(** The calls that open a UDP or a TCP socket [fd], and the result of [rand]. *)
Definition ex_udp (fd : Z) : list Z := [fd; 0; 0; 0; 0].
Definition ex_tcp (fd : Z) : list Z := [fd; 0; 0; 0; 0; 0].

Definition ex_chan (fl : Z) (zs : list Z) (ps : list pkt) : chan :=
  init_channel ex_config fl [ex_addr 1; ex_addr 2] (TV 100 0) (Heap 0 []) zs ps.

Lemma ex_config_ok : config_ok ex_config 2.
Proof. constructor; cbn; [lia|lia|lia|vm_compute; discriminate]. Qed.

Definition ex_ops : list op :=
  [OpSend ex_query 1 (TV 100 5); OpSend ex_query 2 (TV 100 6);
   OpProcessFd 5 (-1) (TV 101 0); OpProcessFd (-1) (-1) (TV 150 0); OpCancel].

Definition ex_ints : list Z := ex_udp 5 ++ [19; 3; 19; 0].
Definition ex_pkts : list pkt := [PData (Some AF_INET, [10; 0; 0; 1]) ex_answer].

Lemma ex_ops_ok : ops_ok 0 100 ex_ops.
Proof. cbn. unfold Zlen. cbn. repeat split; lia. Qed.

Lemma resolver_run_safe_witness :
  ewp (run ex_ops) (ex_chan 0 ex_ints ex_pkts) (fun _ c => ready 0 c).
Proof.
  apply resolver_run_safe; [exact ex_config_ok|reflexivity|cbn; lia|cbn; lia|exact ex_ops_ok].
Defined.

(** Reading facts off a run that returns. *)
Definition returns {A} (r : eres A) : bool :=
  match r with EOk _ _ => true | _ => false end.

Lemma ewp_returns {A} (m : E A) c (Q : A -> chan -> Prop) :
  ewp m c Q -> returns (m c) = true -> exists a c', m c = EOk a c' /\ Q a c'.
Proof. unfold ewp. destruct (m c); [eauto|done..]. Qed.

Lemma result_fact {A B} (m : E A) c a c' (f : chan -> B) (d v : B) :
  m c = EOk a c' -> match m c with EOk _ x => f x | _ => d end = v -> f c' = v.
Proof. by intros ->. Qed.

Ltac by_computation := vm_compute; reflexivity.

Lemma resolver_callback_once_witness :
  exists a c, (run ex_ops ;; ares_destroy) (ex_chan 0 ex_ints ex_pkts) = EOk a c /\
    ended (trace c) = [2; 1] /\ live (mem c) = 0.
Proof.
  destruct (ewp_returns _ _ _ (resolver_callback_once ex_config 0
    [ex_addr 1; ex_addr 2] (TV 100 0) (Heap 0 []) ex_ints ex_pkts ex_ops ex_config_ok eq_refl
    ltac:(cbn; lia) ltac:(cbn; lia) ex_ops_ok)) as (a & c & E & H); [by_computation|].
  exists a, c. split; [exact E|]. split; [|exact (proj1 H)].
  apply (result_fact _ _ _ _ (fun c => ended (trace c)) [] _ E). by_computation.
Defined.

Lemma resolver_attempts_bounded_witness :
  exists a c, run ex_ops (ex_chan 0 ex_ints ex_pkts) = EOk a c /\
    sends (trace c) 2 = 1 /\ sends (trace c) 2 <= 9.
Proof.
  destruct (ewp_returns _ _ _ (resolver_attempts_bounded ex_config 0
    [ex_addr 1; ex_addr 2] (TV 100 0) (Heap 0 []) ex_ints ex_pkts ex_ops ex_config_ok eq_refl
    ltac:(cbn; lia) ltac:(cbn; lia) ex_ops_ok)) as (a & c & E & H); [by_computation|].
  exists a, c. split; [exact E|]. split; [|exact (H 2)].
  apply (result_fact _ _ _ _ (fun c => sends (trace c) 2) 0 _ E). by_computation.
Defined.

(** The channel after some operations. *)
Definition ex_state (fl : Z) (zs : list Z) (ps : list pkt) (ops : list op) : chan :=
  match run ops (ex_chan fl zs ps) with EOk _ c => c | EUB c => c | EFuel c => c end.

Lemma ex_ready fl zs ps ops :
  Z.testbit fl ARES_FLAG_EDNS = false -> ops_ok fl 100 ops ->
  returns (run ops (ex_chan fl zs ps)) = true -> ready 0 (ex_state fl zs ps ops).
Proof.
  intros Hf Ho Hr.
  destruct (ewp_returns _ _ _ (ewp_run 0 ops 100 (ex_chan fl zs ps)
    (init_ready ex_config fl [ex_addr 1; ex_addr 2] (TV 100 0) (Heap 0 []) zs ps ex_config_ok Hf
      ltac:(cbn; lia) ltac:(cbn; lia)) ltac:(cbn; lia) Ho) Hr)
    as (a & c & E & H).
  unfold ex_state. rewrite E. apply H.
Qed.

(** Two queries in flight to the first server over UDP. *)
Definition ex_two : list op := [OpSend ex_query 1 (TV 100 5); OpSend ex_query 2 (TV 104 6)].

Lemma ex_two_ok fl : ops_ok fl 100 ex_two.
Proof. cbn. unfold Zlen. cbn. repeat split; lia. Qed.

Definition ex_flight : chan := ex_state 0 ex_ints [] ex_two.

Lemma ex_flight_ready : ready 0 ex_flight.
Proof. apply ex_ready; [reflexivity|apply ex_two_ok|by_computation]. Qed.

Lemma ex_flight_now : now_ok (TV 104 7) ex_flight.
Proof. split; vm_compute; intuition discriminate. Qed.

(** At second 104 the first query has timed out, the second has not; the second
    server cannot be reached, so the first query is given up. *)
Lemma process_timeouts_complete_witness :
  exists a c, process_timeouts (TV 104 7) ex_flight = EOk a c /\
    ended (trace c) = [1] /\ last_timeout_processed c = 104.
Proof.
  destruct (ewp_returns _ _ _ (process_timeouts_complete 0 (TV 104 7)
    ex_flight ex_flight_ready ex_flight_now)) as (a & c & E & H); [by_computation|].
  exists a, c. split; [exact E|]. split; [|exact (proj1 (proj2 H))].
  apply (result_fact _ _ _ _ (fun c => ended (trace c)) [] _ E). by_computation.
Defined.

(** An error on the second server leaves the queries to the first one alone. *)
Lemma handle_error_isolates_witness :
  exists a c, handle_error 1 (TV 104 7) ex_flight = EOk a c /\ ready 0 c /\
    queries c !! 1 = queries ex_flight !! 1.
Proof.
  destruct (ewp_returns _ _ _ (handle_error_isolates 0 1 (TV 104 7)
    ex_flight ex_flight_ready ltac:(vm_compute; lia) ex_flight_now))
    as (a & c & E & HR & H); [by_computation|].
  exists a, c. split; [exact E|]. split; [exact HR|].
  destruct (queries ex_flight !! 1) as [r|] eqn:Er.
  - apply (H 1 r Er). assert (F : q_server <$> queries ex_flight !! 1 = Some 0%nat) by by_computation.
    rewrite Er in F. injection F as ->. discriminate.
  - assert (F : q_server <$> queries ex_flight !! 1 = Some 0%nat) by by_computation.
    rewrite Er in F. discriminate F.
Defined.

(** The answer ends the first query; the second one stays. *)
Lemma process_answer_only_accepted_witness :
  exists a c, process_answer ex_answer 0 false (TV 104 7) ex_flight = EOk a c /\
    (ended (trace c), all_queries c) = ([1], [2]) /\ ready 0 c.
Proof.
  destruct (ewp_returns _ _ _ (process_answer_only_accepted 0 ex_answer 0
    false (TV 104 7) ex_flight ex_flight_ready ex_flight_now ltac:(vm_compute; lia)
    ltac:(vm_compute; discriminate))) as (a & c & E & HR & _); [by_computation|].
  exists a, c. split; [exact E|]. split; [|exact HR].
  apply (result_fact _ _ _ _ (fun c => (ended (trace c), all_queries c)) ([], []) _ E).
  by_computation.
Defined.

Lemma same_questions_correct_witness : questions_match ex_query ex_answer.
Proof.
  destruct (wp_outcome _ _ _ (same_questions_correct ex_query ex_answer (Heap 0 [])
    ltac:(vm_compute; discriminate) ltac:(vm_compute; discriminate) ltac:(cbn; lia)))
    as (b & h & E & _ & Hb & _).
  apply Hb. assert (F : match same_questions ex_query ex_answer (Heap 0 []) with
    Ret x _ => x | _ => false end = true) by by_computation.
  rewrite E in F. exact F.
Defined.

(** A query of 21 bytes queued on a TCP connection, of which 5 are sent. *)
Definition ex_queued : chan :=
  ex_state (2 ^ ARES_FLAG_USEVC) (ex_tcp 5 ++ [3]) [] [OpSend ex_query 1 (TV 100 5)].

Lemma ex_queued_ready : ready 0 ex_queued.
Proof.
  apply ex_ready; [reflexivity| |by_computation]. cbn. unfold Zlen. cbn. repeat split; lia.
Qed.

Definition first_queue (c : chan) : list Z :=
  match servers c with s :: _ => queue_bytes (queries c) (sendq s) | [] => [] end.

Lemma tcp_send_queue_stream_witness :
  exists a c, advance_tcp_send_queue 0 5 ex_queued = EOk a c /\ ready 0 c /\
    first_queue c = drop 5 ([0; 19] ++ ex_query).
Proof.
  destruct (servers ex_queued !! 0%nat) as [s|] eqn:Es.
  2: { assert (F : is_broken <$> servers ex_queued !! 0%nat = Some false) by by_computation.
       rewrite Es in F. discriminate F. }
  assert (Hne : sendq s <> []).
  { intros Hnil. assert (F : length <$> (sendq <$> servers ex_queued !! 0%nat) = Some 1%nat)
      by by_computation. rewrite Es in F. cbn in F. rewrite Hnil in F. discriminate F. }
  destruct (ewp_returns _ _ _ (tcp_send_queue_stream 0 0 s 5 ex_queued ex_queued_ready Es Hne))
    as (a & c & E & HR & _); [by_computation|].
  exists a, c. split; [exact E|]. split; [exact HR|].
  apply (result_fact _ _ _ _ first_queue [] _ E). by_computation.
Defined.

(** The first of the two queries decides the next time-out. *)
Lemma ares_timeout_min_witness :
  exists r, ares_timeout (Some (TV 60 0)) (TV 102 5) ex_flight = EOk r ex_flight /\
    r = Some (TV 1 750000).
Proof.
  destruct (ewp_returns _ _ _ (ares_timeout_min 0 (Some (TV 60 0)) (TV 102 5)
    ex_flight ex_flight_ready)) as (r & c & E & -> & _); [by_computation|].
  assert (F : match ares_timeout (Some (TV 60 0)) (TV 102 5) ex_flight with
    EOk x _ => x | _ => None end = Some (TV 1 750000)) by by_computation.
  rewrite E in F. exists r. split; [exact E|exact F].
Defined.

(** ** What goes wrong *)

Definition undefined_behaviour {A} (r : eres A) : bool :=
  match r with EUB _ => true | _ => false end.

(** With [ARES_FLAG_STAYOPEN], [ares_cancel] frees a query whose request is
    still queued on a TCP connection: it does not go through [end_query],
    which would detach the request. The next write on the connection reads the
    freed buffer. *)
Theorem ares_cancel_use_after_free :
  let fl := 2 ^ ARES_FLAG_USEVC + 2 ^ ARES_FLAG_STAYOPEN in
  let c := ex_chan fl (ex_tcp 5 ++ [3]) [] in
  returns (run [OpSend ex_query 1 (TV 100 5); OpCancel] c) = true /\
  undefined_behaviour
    (run [OpSend ex_query 1 (TV 100 5); OpCancel; OpProcessFd (-1) 5 (TV 101 0)] c) = true.
Proof. split; vm_compute; reflexivity. Qed.

(** The answer with the code FORMERR, and its two parts on a TCP connection. *)
Definition ex_formerr : list Z := [0; 7; 129; 1; 0; 1; 0; 0; 0; 0; 0; 0; 1; 97; 0; 0; 1; 0; 1].
Definition ex_tcp_answer : list pkt :=
  [PData (None, []) [0; 19]; PData (None, []) ex_formerr].

(** A query sent over TCP to the first server, timed out and queued on the
    second, when the first server's answer arrives after all. *)
Definition ex_edns_ops : list op :=
  [OpSend ex_query 1 (TV 100 5); OpProcessFd (-1) 5 (TV 100 6); OpProcessFd (-1) (-1) (TV 110 0);
   OpProcessFd 5 (-1) (TV 110 1); OpProcessFd 5 (-1) (TV 110 2)].

(** With EDNS enabled, the retry without EDNS of [process_answer]
    reallocates the buffer of the query while a request queued for another
    server still points into it, with the old length; the next write on that
    connection reads through the stale pointer. *)
Theorem edns_retry_stale_request :
  let fl := 2 ^ ARES_FLAG_USEVC + 2 ^ ARES_FLAG_EDNS in
  let c := ex_chan fl (ex_tcp 5 ++ [0; 21] ++ ex_tcp 6 ++ [0; 0; 50]) ex_tcp_answer in
  returns (run ex_edns_ops c) = true /\
  undefined_behaviour (run (ex_edns_ops ++ [OpProcessFd (-1) 6 (TV 110 3)]) c) = true.
Proof. split; vm_compute; reflexivity. Qed.

(** The exponential time-out overflows an [int] for numbers of tries the
    options accept: with the default of five seconds, in the twentieth round
    over the servers. *)
Theorem attempt_timeout_overflow n rand h :
  attempt_timeout 5000 (Z.of_nat (S n) * 19) (S n) rand h = UB.
Proof.
  unfold attempt_timeout, int_shl, mbind, M_bind.
  rewrite Z.mul_comm, Z.quot_mul by lia. reflexivity.
Qed.

(** A socket callback that fails with a code other than -1 is taken for
    success by [ares__send_query]: the query is queued on a connection that
    does not exist. *)
Theorem open_socket_error_ignored :
  let k := Config 5000 4 false 53 53 0 0 1280 [] 0 (replicate 16 0) true false false in
  let c := init_channel k (2 ^ ARES_FLAG_USEVC) [ex_addr 1] (TV 100 0) (Heap 0 [])
             ([5; 0; 0; 0; 0; -2; 3]) [] in
  match ares_send ex_query 1 (TV 100 5) c with
  | EOk _ c' => (fun s => (tcp_socket s, Zlen (sendq s))) <$> servers c' = [(ARES_SOCKET_BAD, 1)]
  | _ => False
  end.
Proof. vm_compute. reflexivity. Qed.
