(* ===== verification/ReadLine.v ===== *)
(** * Reading lines (c-ares)

    Models [ares__read_line] of
    src/Scylla-moon/seastar/c-ares/ares__read_line.c and what it uses of
    [fgets]. A stream is the bytes that are left and whether reading beyond
    them is an error or the end of the file. The buffer [*buf] is its size
    [*bufsize], or [None] for a null pointer; each call writes the contents
    anew. *)

From S2P Require Import Prelude DnsWire.
Open Scope Z_scope.

Record stream := Stream { st_data : list Z; st_fails : bool }.

Definition ch_newline : Z := 10.

(** At most [n] characters, up to and including a newline. *)
Fixpoint fgets_take (n : nat) (l : list Z) : list Z * list Z :=
  match n, l with
  | S n', c :: l' =>
      if c =? ch_newline then ([c], l')
      else let '(a, b) := fgets_take n' l' in (c :: a, b)
  | _, _ => ([], l)
  end.

(** [fgets]: the characters it stores before the NUL; at the end of the file,
    with nothing stored; on a read error, after which the contents of the array
    are indeterminate. *)
Inductive fgets_result :=
| Got (chunk : list Z) (fp : stream)
| AtEnd
| ReadError.

Definition ends_line (chunk : list Z) : bool :=
  match last chunk with Some c => c =? ch_newline | None => false end.

Definition fgets (size : Z) (fp : stream) : fgets_result :=
  if size <=? 0 then AtEnd
  else if size =? 1 then Got [] fp
  else
    let '(chunk, rest) := fgets_take (Z.to_nat (size - 1)) (st_data fp) in
    let hits_end := (Zlen chunk <? size - 1) && negb (ends_line chunk) in
    if hits_end && st_fails fp then ReadError
    else match chunk with [] => AtEnd | _ => Got chunk (Stream rest (st_fails fp)) end.

(** The result of [ares__read_line]: the status, the string in the buffer
    (unless it is indeterminate), the buffer and the stream. *)
Record read_result := ReadResult {
  rr_status : status; rr_line : option (list Z); rr_buf : option Z; rr_fp : stream }.

(** [aresx_uztosi] *)
Definition aresx_uztosi (n : Z) : Z := Z.land n INT_MAX.

(** The loop; [pre] are the first [offset] characters of the buffer. *)
Fixpoint read_loop (fuel : nat) (pre : list Z) (bufsize : Z) (fp : stream) : M read_result :=
  match fuel with
  | O => no_fuel
  | S fuel' =>
      let offset := Zlen pre in
      let bytestoread := aresx_uztosi (bufsize - offset) in
      match fgets bytestoread fp with
      | AtEnd =>
          mret (ReadResult (if negb (offset =? 0) then ARES_SUCCESS else ARES_EOF)
                  (Some pre) (Some bufsize) fp)
      | ReadError =>
          mret (ReadResult (if negb (offset =? 0) then ARES_SUCCESS else ARES_EFILE)
                  None (Some bufsize) (Stream [] true))
      | Got chunk fp =>
          let line := pre ++ c_str chunk in
          let len := Zlen line in
          c ← get_byte line (len - 1);
          if c =? ch_newline then
            mret (ReadResult ARES_SUCCESS (Some (removelast line)) (Some bufsize) fp)
          else if len <? bufsize - 1 then read_loop fuel' line bufsize fp
          else
            ok ← c_realloc;
            if negb ok then c_free ;; mret (ReadResult ARES_ENOMEM None None fp)
            else read_loop fuel' line (bufsize * 2) fp
      end
  end.

(** Each round but the last consumes a byte of the stream. *)
Definition ares__read_line (buf : option Z) (fp : stream) : M read_result :=
  let go bufsize := read_loop (S (length (st_data fp))) [] bufsize fp in
  match buf with
  | Some bufsize => go bufsize
  | None =>
      ok ← c_malloc;
      if negb ok then mret (ReadResult ARES_ENOMEM None None fp) else go 128
  end.

(** ** Specification: the lines of a file *)

(** The first line, without its newline, and the rest. *)
Fixpoint split_line (l : list Z) : list Z * list Z :=
  match l with
  | [] => ([], [])
  | c :: l' => if c =? ch_newline then ([], l') else let '(a, b) := split_line l' in (c :: a, b)
  end.

(** A file of text: it holds no NUL, it is not so long that the size of the
    buffer leaves the range of [int], and a read error comes between lines. *)
Definition text (d : list Z) : Prop := Forall (fun c => 0 < c < 256) d.

Record text_file (fp : stream) : Prop := {
  tf_text : text (st_data fp);
  tf_size : Zlen (st_data fp) < 2 ^ 28;
  tf_error : st_fails fp = true -> st_data fp = [] \/ ends_line (st_data fp) = true }.

Definition buf_ok (n : Z) : Prop := 128 <= n <= 2 ^ 29.

Definition buf_opt_ok (buf : option Z) : Prop := match buf with Some n => buf_ok n | None => True end.

(** What a call returns when no allocation fails. *)
Definition line_read (fp : stream) (r : read_result) : Prop :=
  rr_status r =
    (if decide (st_data fp = []) then if st_fails fp then ARES_EFILE else ARES_EOF else ARES_SUCCESS) /\
  (st_data fp <> [] -> rr_line r = Some (split_line (st_data fp)).1 /\
     rr_fp r = Stream (split_line (st_data fp)).2 (st_fails fp)) /\
  exists n, rr_buf r = Some n /\ buf_ok n.

Definition read_oom (r : read_result) : Prop := rr_status r = ARES_ENOMEM /\ rr_buf r = None.

(** ** Proofs *)

Lemma ends_line_snoc l c : ends_line (l ++ [c]) = (c =? ch_newline).
Proof. unfold ends_line. by rewrite last_snoc. Qed.

Lemma ends_line_cons c d l : ends_line (c :: d :: l) = ends_line (d :: l).
Proof. done. Qed.

(** How a chunk continues the line: it ends it, or fills the buffer, or is the
    rest of the file. *)
Lemma fgets_take_cases n l :
  let '(a, b) := fgets_take n l in
  l = a ++ b /\ (length a <= n)%nat /\
  ((exists a', a = a' ++ [ch_newline] /\ split_line l = (a', b)) \/
   ((ch_newline ∉ a) /\ ends_line a = false /\ split_line l = (a ++ (split_line b).1, (split_line b).2) /\
    ((length a = n) \/ b = []))).
Proof.
  revert l. induction n as [|n IH]; intros [|c l]; cbn [fgets_take].
  - split_and!; [done|done|]. right. split_and!; [apply not_elem_of_nil|done|done|by left].
  - split_and!; [done|done|]. right. split_and!; [apply not_elem_of_nil|done| |by left].
    cbn [app]. by destruct (split_line (c :: l)).
  - split_and!; [done|cbn; lia|]. right. split_and!; [apply not_elem_of_nil|done|done|by right].
  - destruct (Z.eqb_spec c ch_newline) as [->|Hc].
    { split_and!; [done|cbn; lia|]. left. exists []. split; [done|]. cbn [split_line].
      by rewrite Z.eqb_refl. }
    specialize (IH l). destruct (fgets_take n l) as [a b]. destruct IH as (-> & Hl & IH).
    split_and!; [done|cbn; lia|]. cbn [split_line]. rewrite (proj2 (Z.eqb_neq c ch_newline) Hc).
    destruct IH as [(a' & -> & ->)|(Ha & He & -> & Hb)].
    + left. exists (c :: a'). by split.
    + right. split_and!; [by intros [|]%elem_of_cons| |done|].
      * destruct a; [cbn; by apply Z.eqb_neq|by rewrite ends_line_cons].
      * destruct Hb as [Hb| ->]; [left; cbn; lia|by right].
Qed.

Lemma c_str_text l : text l -> c_str l = l.
Proof.
  induction 1 as [|c l Hc Hl IH]; [done|]. cbn [c_str].
  destruct (Z.eqb_spec c 0); [lia|]. by rewrite IH.
Qed.

Lemma byte_at_last l c : 0 <= c < 256 -> byte_at (l ++ [c]) (Zlen (l ++ [c]) - 1) = Some c.
Proof.
  intros Hc. unfold byte_at, Zlen. rewrite length_app. cbn [length].
  destruct (Z.leb_spec 0 (Z.of_nat (length l + 1) - 1)); [|lia].
  replace (Z.to_nat _) with (length l) by lia. rewrite lookup_app_r, Nat.sub_diag by lia.
  cbn. by rewrite Z.mod_small.
Qed.

Lemma aresx_uztosi_small n : 0 <= n <= INT_MAX -> aresx_uztosi n = n.
Proof.
  intros H. unfold aresx_uztosi, INT_MAX in *. change 2147483647 with (Z.ones 31).
  rewrite Z.land_ones by lia. apply Z.mod_small. lia.
Qed.

Lemma text_app a b : text (a ++ b) <-> text a /\ text b.
Proof. apply Forall_app. Qed.

Lemma removelast_snoc {A} (l : list A) x : removelast (l ++ [x]) = l.
Proof. rewrite removelast_app by done. cbn. apply app_nil_r. Qed.

Lemma ends_line_app a b : b <> [] -> ends_line (a ++ b) = ends_line b.
Proof. intros Hb. destruct (exists_last Hb) as (l & c & ->). by rewrite app_assoc, !ends_line_snoc. Qed.

(** The stream after a chunk, and that [fgets] sees no error before it. *)
Lemma fgets_text n d f :
  2 <= n -> d <> [] -> (f = true -> ends_line d = true) ->
  let '(a, b) := fgets_take (Z.to_nat (n - 1)) d in
  a <> [] /\ fgets n (Stream d f) = Got a (Stream b f) /\ (f = true -> b = [] \/ ends_line b = true).
Proof.
  intros Hn Hd Hf. unfold fgets. destruct (Z.leb_spec n 0), (Z.eqb_spec n 1); try lia. cbn [st_data st_fails].
  pose proof (fgets_take_cases (Z.to_nat (n - 1)) d) as H2.
  destruct (fgets_take (Z.to_nat (n - 1)) d) as [a b] eqn:E. destruct H2 as (-> & Hl & H2).
  assert (Ha : a <> []).
  { intros ->. destruct (Z.to_nat (n - 1)) as [|k] eqn:Ek; [lia|]. destruct b as [|c b]; [done|].
    cbn in E. destruct (c =? ch_newline); [done|]. by destruct (fgets_take k b). }
  assert (Hb : f = true -> b = [] \/ ends_line b = true).
  { intros ->. destruct b as [|c b]; [by left|right]. specialize (Hf eq_refl). by rewrite ends_line_app in Hf. }
  split_and!; [done| |done]. destruct a as [|c a]; [done|].
  replace ((Zlen (c :: a) <? n - 1) && negb (ends_line (c :: a)) && f) with false; [done|].
  symmetry. destruct f; [|apply andb_false_r]. rewrite andb_true_r. apply andb_false_iff.
  destruct H2 as [(a' & -> & _)|(_ & He & _ & [Hfull|Hnil])].
  - right. by rewrite ends_line_snoc.
  - left. apply Z.ltb_ge. unfold Zlen. lia.
  - subst b. rewrite app_nil_r in Hf. specialize (Hf eq_refl). congruence.
Qed.

(** The outcome of the loop, [pre] being read and [d] being left. *)
Definition loop_post (pre d : list Z) (f : bool) (h : heap) (r : read_result) (h' : heap) : Prop :=
  (live h' = live h /\ (oracle h = [] -> oracle h' = []) /\ (exists n, rr_buf r = Some n /\ buf_ok n) /\
   rr_status r = (if decide (pre ++ d = []) then if f then ARES_EFILE else ARES_EOF else ARES_SUCCESS) /\
   (pre ++ d <> [] -> rr_line r = Some (pre ++ (split_line d).1) /\ rr_fp r = Stream (split_line d).2 f)) \/
  (live h' = live h - 1 /\ oracle h <> [] /\ read_oom r).

(** The loop goes on with a longer prefix. *)
Lemma loop_post_shift pre a b f h h1 r h' :
  split_line (a ++ b) = (a ++ (split_line b).1, (split_line b).2) ->
  live h1 = live h -> (oracle h = [] -> oracle h1 = []) ->
  loop_post (pre ++ a) b f h1 r h' -> loop_post pre (a ++ b) f h r h'.
Proof.
  unfold loop_post. intros -> -> Ho. rewrite app_assoc. cbn [fst snd].
  intros [(H1 & H2 & H3 & H4 & H5)|(H1 & H2 & H3)]; [left|right; split_and!; [done|by auto|done]].
  rewrite app_assoc. by auto 10.
Qed.

(** The loop completes the line of which [pre] was read. *)
Lemma wp_read_loop fuel pre bufsize d f h :
  (length d < fuel)%nat -> text d -> text pre -> ch_newline ∉ pre -> Zlen pre + Zlen d < 2 ^ 28 ->
  buf_ok bufsize -> Zlen pre + 2 <= bufsize -> 1 <= live h ->
  (f = true -> d = [] \/ ends_line d = true) -> (f = true -> d = [] -> pre = []) ->
  wp (read_loop fuel pre bufsize (Stream d f)) h (loop_post pre d f h).
Proof.
  revert pre bufsize d h. induction fuel as [|fuel IH];
    intros pre bufsize d h Hfuel Hd Hpre Hnl Hsz Hb Hoff Hh Hf Hfp; [lia|]. cbn [read_loop].
  unfold buf_ok in Hb. rewrite aresx_uztosi_small by (unfold INT_MAX; pose proof (Zlen_nonneg pre); lia).
  destruct d as [|c0 d0].
  { (* the end of the file *)
    unfold fgets. destruct (Z.leb_spec (bufsize - Zlen pre) 0), (Z.eqb_spec (bufsize - Zlen pre) 1); try lia.
    cbn [st_data st_fails]. replace (fgets_take _ []) with (@nil Z, @nil Z) by (by destruct (Z.to_nat _)).
    rewrite Zlen_nil. destruct (Z.ltb_spec 0 (bufsize - Zlen pre - 1)); [|lia]. cbn [andb negb ends_line last].
    unfold loop_post. cbn [split_line fst snd]. rewrite app_nil_r. destruct f; wp_step; left;
      (split_and!; [done|done|by exists bufsize| |]; cbn).
    - by rewrite (Hfp eq_refl eq_refl).
    - intros []. by apply Hfp.
    - by destruct pre.
    - done. }
  set (d := c0 :: d0) in *. set (n := bufsize - Zlen pre).
  assert (Hdn : d <> []) by done.
  pose proof (fgets_text n d f ltac:(lia) Hdn ltac:(intros Ht; by destruct (Hf Ht))) as Hg.
  pose proof (fgets_take_cases (Z.to_nat (n - 1)) d) as Hc.
  destruct (fgets_take (Z.to_nat (n - 1)) d) as [a b]. destruct Hg as (Ha & -> & Hfb).
  destruct Hc as (Hab & Hlen & Hc). clearbody d. subst d.
  apply text_app in Hd as [Hta Htb]. rewrite (c_str_text a Hta).
  destruct (exists_last Ha) as (a' & c & ->). rewrite app_assoc.
  assert (Hcb : 0 <= c < 256) by (apply text_app in Hta as [_ [??]%Forall_cons]; lia).
  wp_step. eapply wp_get_byte_Some; [by apply byte_at_last|].
  rewrite 2!length_app in Hfuel. cbn [length] in Hfuel. rewrite (Zlen_app (a' ++ [c])) in Hsz.
  destruct Hc as [(a1 & E1 & Hs)|(Hna & He & Hs & Hend)].
  { (* the end of the line *)
    apply app_inj_tail in E1 as [-> ->]. rewrite Z.eqb_refl. wp_step. left.
    rewrite Hs, removelast_snoc. split_and!; try done; [by exists bufsize|].
    rewrite decide_False by (by destruct pre, a1). done. }
  rewrite ends_line_snoc in He. rewrite He, <- app_assoc. set (line := pre ++ a' ++ [c]).
  assert (Hline : Zlen line = Zlen pre + Zlen (a' ++ [c])) by apply Zlen_app.
  assert (Hfit : Zlen (a' ++ [c]) <= n - 1) by (unfold Zlen at 1; lia).
  assert (Hnext : forall size h1, buf_ok size -> Zlen line + 2 <= size -> live h1 = live h ->
    (oracle h = [] -> oracle h1 = []) ->
    wp (read_loop fuel line size (Stream b f)) h1 (loop_post pre ((a' ++ [c]) ++ b) f h)).
  { intros size h1 Hb1 Hs1 Hl1 Ho1. eapply wp_mono; [apply IH|]; try done; try lia.
    - by apply text_app.
    - by intros [|]%elem_of_app.
    - intros Ht ->. rewrite app_nil_r in Hf. destruct (Hf Ht) as [|E]; [done|].
      rewrite ends_line_snoc in E. congruence.
    - intros r h' HP. by eapply loop_post_shift. }
  destruct (Z.ltb_spec (Zlen line) (bufsize - 1)); [by apply Hnext; try lia|].
  wp_step. apply wp_realloc; intros o Ho; cbn [negb].
  - apply Hnext; [|lia|done|done]. unfold buf_ok. pose proof (Zlen_nonneg b). lia.
  - wp_step. apply wp_free; [cbn; lia|]. wp_step. right. cbn. by split_and!; [lia|..].
Qed.

Lemma wp_ares__read_line buf fp h :
  text_file fp -> buf_opt_ok buf -> blocks_opt buf <= live h -> 0 <= live h ->
  wp (ares__read_line buf fp) h (fun r h' =>
    live h' = live h - blocks_opt buf + blocks_opt (rr_buf r) /\
    ((line_read fp r /\ (oracle h = [] -> oracle h' = [])) \/ (read_oom r /\ oracle h <> []))).
Proof.
  destruct fp as [d f]. intros [Ht Hs He] Hb Hl Hl0. cbn [st_data st_fails] in *.
  assert (Hgo : forall n h1, buf_ok n -> live h1 = live h - blocks_opt buf + 1 ->
    (oracle h = [] -> oracle h1 = []) ->
    wp (read_loop (S (length d)) [] n (Stream d f)) h1 (fun r h' =>
      live h' = live h - blocks_opt buf + blocks_opt (rr_buf r) /\
      ((line_read (Stream d f) r /\ (oracle h = [] -> oracle h' = [])) \/ (read_oom r /\ oracle h <> [])))).
  { intros n h1 Hn Hl1 Ho. pose proof (blocks_opt_nonneg buf). eapply wp_mono; [apply wp_read_loop|]; try done; try lia.
    - apply Forall_nil_2.
    - apply not_elem_of_nil.
    - unfold buf_ok in Hn. rewrite Zlen_nil. lia.
    - intros r h' [(Hl' & Ho' & (m & Hm & Hmb) & Hst & Hline)|(Hl' & Ho' & Hoom)]; cbn [app] in *.
      + rewrite Hm. cbn. split; [lia|]. left. split; [|by auto]. split_and!; [done|done|by exists m].
      + rewrite (proj2 Hoom). cbn. split; [lia|]. right. auto. }
  unfold ares__read_line. cbn [st_data]. destruct buf as [n|]; cbn [blocks_opt] in *.
  - apply Hgo; [done|lia|done].
  - wp_step. apply wp_malloc; intros o Ho; cbn [negb].
    + apply Hgo; [unfold buf_ok; lia|cbn; lia|done].
    + wp_step. cbn. split; [lia|]. by right.
Qed.

(** The lines of a file; each takes a byte at least. *)
Fixpoint lines_fuel (fuel : nat) (d : list Z) : list (list Z) :=
  match fuel, d with
  | S fuel', _ :: _ => (split_line d).1 :: lines_fuel fuel' (split_line d).2
  | _, _ => []
  end.

Definition lines (d : list Z) : list (list Z) := lines_fuel (length d) d.

Lemma split_line_length d : d <> [] -> (length (split_line d).2 < length d)%nat.
Proof.
  induction d as [|c d IH]; [done|]. intros _. cbn [split_line].
  destruct (c =? ch_newline); [cbn; lia|]. destruct d as [|c' d]; [cbn; lia|].
  specialize (IH ltac:(done)). destruct (split_line (c' :: d)) as [a b]. cbn [snd length] in *. lia.
Qed.

Lemma lines_fuel_irrel f1 f2 d :
  (length d <= f1)%nat -> (length d <= f2)%nat -> lines_fuel f1 d = lines_fuel f2 d.
Proof.
  revert f2 d. induction f1 as [|f1 IH]; intros [|f2] [|c d] H1 H2; cbn [length] in *; try done; try lia.
  cbn [lines_fuel]. pose proof (split_line_length (c :: d) ltac:(done)). cbn [length] in *.
  f_equal. apply IH; lia.
Qed.

Lemma lines_cons d : d <> [] -> lines d = (split_line d).1 :: lines (split_line d).2.
Proof.
  intros Hd. unfold lines at 1. destruct d as [|c d]; [done|]. cbn [length lines_fuel]. f_equal.
  pose proof (split_line_length (c :: d) Hd). cbn [length] in *. apply lines_fuel_irrel; lia.
Qed.

Lemma split_line_app d : split_line d = (d, []) \/ d = (split_line d).1 ++ ch_newline :: (split_line d).2.
Proof.
  induction d as [|c d IH]; [by left|]. cbn [split_line].
  destruct (Z.eqb_spec c ch_newline) as [->|]; [by right|]. destruct (split_line d) as [a b]. cbn [fst snd] in *.
  destruct IH as [[= -> ->]|IH]; [by left|right]. cbn. by rewrite <- IH.
Qed.

(** What is left after a line is a text file again. *)
Lemma text_file_rest fp :
  text_file fp -> st_data fp <> [] -> text_file (Stream (split_line (st_data fp)).2 (st_fails fp)).
Proof.
  destruct fp as [d f]. intros [Ht Hs He] Hd. cbn [st_data st_fails] in *.
  pose proof (split_line_length d Hd) as Hlt. destruct (split_line_app d) as [E|E].
  { rewrite E. cbn. constructor; cbn; [apply Forall_nil_2|unfold Zlen; cbn; lia|by left]. }
  destruct (split_line d) as [a b]. cbn [fst snd] in *. constructor; cbn [st_data st_fails].
  - rewrite E in Ht. apply text_app in Ht as [_ Ht]. by apply Forall_cons in Ht as [_ ?].
  - unfold Zlen in *. lia.
  - intros Hf. destruct (He Hf) as [|He']; [done|]. destruct b as [|c b]; [by left|right].
    rewrite E, cons_middle, app_assoc in He'. by rewrite ends_line_app in He'.
Qed.

Lemma text_line fp : text_file fp -> text (split_line (st_data fp)).1.
Proof.
  intros [Ht _ _]. destruct (split_line_app (st_data fp)) as [E|E]; [by rewrite E|].
  rewrite E in Ht. by apply text_app in Ht as [? _].
Qed.

(** ** What is proved *)

(** [ares__read_line] reads lines. On a text file it returns the characters
    before the next newline, or before the end of the file, however often the
    buffer must grow, and leaves the rest; [ARES_EOF] only at the end of the
    file, [ARES_EFILE] only on a read error. It writes inside the buffer, keeps
    exactly one block, and if memory runs out it releases it and says so. *)
Theorem ares__read_line_correct buf fp h :
  text_file fp -> buf_opt_ok buf -> blocks_opt buf <= live h -> 0 <= live h ->
  wp (ares__read_line buf fp) h (fun r h' =>
    live h' = live h - blocks_opt buf + blocks_opt (rr_buf r) /\
    ((line_read fp r /\ (oracle h = [] -> oracle h' = [])) \/ (read_oom r /\ oracle h <> []))).
Proof. apply wp_ares__read_line. Qed.

(** ["ab"], a newline and an unfinished line ["c"]. *)
Lemma ares__read_line_correct_witness :
  exists r h, ares__read_line None (Stream [97; 98; 10; 99] false) (Heap 0 []) = Ret r h /\
    rr_line r = Some [97; 98] /\ st_data (rr_fp r) = [99] /\ live h = 1.
Proof.
  destruct (wp_outcome _ _ _ (ares__read_line_correct None (Stream [97; 98; 10; 99] false) (Heap 0 [])
    ltac:(constructor; [repeat constructor; lia|reflexivity|done]) I ltac:(cbn; lia) ltac:(cbn; lia)))
    as (r & h & E & Hl & [[(_ & H & n & Hn & _) _]|[_ []]]); [|done].
  exists r, h. split; [exact E|]. rewrite Hn in Hl. cbn in Hl.
  destruct (H ltac:(done)) as [H1 H2]. split_and!; [exact H1|by rewrite H2|exact Hl].
Defined.

Lemma fgets_nul n rest :
  2 <= n -> fgets n (Stream (0 :: rest) false) =
    Got (0 :: (fgets_take (Z.to_nat (n - 2)) rest).1) (Stream (fgets_take (Z.to_nat (n - 2)) rest).2 false).
Proof.
  intros Hn. unfold fgets. destruct (Z.leb_spec n 0), (Z.eqb_spec n 1); try lia. cbn [st_data st_fails].
  replace (Z.to_nat (n - 1)) with (S (Z.to_nat (n - 2))) by lia. cbn [fgets_take].
  change (0 =? ch_newline) with false. cbv iota.
  destruct (fgets_take (Z.to_nat (n - 2)) rest) as [a b]. by rewrite andb_false_r.
Qed.

(** A line that starts with a NUL makes [ares__read_line] look at the byte
    before its buffer: the length of what [fgets] stored is 0 and
    [( *buf)[len - 1]] is read, whatever follows. *)
Theorem ares__read_line_nul_underrun rest h :
  ares__read_line (Some 128) (Stream (0 :: rest) false) h = UB.
Proof.
  unfold ares__read_line. cbn [st_data length read_loop].
  change (aresx_uztosi (128 - Zlen [])) with 128. by rewrite fgets_nul.
Qed.
