(* ===== verification/Search.v ===== *)
(** * Search lists (c-ares)

    Models src/Scylla-moon/seastar/c-ares/ares_search.c: [single_domain] with
    the host aliases, [cat_domain], [ares_search], [search_callback] and
    [end_squery].

    A search is a machine that calls [ares_query] and is called back by it. A
    step returns what it does to the outside, an [effect]: a query whose answer
    goes to [search_callback], a query whose answer goes to the application, or
    the application's callback itself. [ares_query] copies the name, so that the
    buffer built for it can be released around the call. [search] runs a search
    to its end, given the answers to its queries; that [ares_query] answers each
    query once is its contract (QueryId.v, ResolverTheorems.v). *)

From S2P Require Import Prelude DnsWire ParseHost ReadLine.
Open Scope Z_scope.

Definition ARES_FLAG_NOSEARCH : Z := 5.
Definition ARES_FLAG_NOALIASES : Z := 6.
Definition ENOENT : Z := 2.
Definition ESRCH : Z := 3.

(** What a search uses of the channel. *)
Record search_conf := SearchConf { sc_flags : Z; sc_ndots : Z; sc_domains : list (list Z) }.

(** [getenv] and [fopen] on the file of aliases. *)
Inductive hostaliases := NotSet | FopenFailed (errno : Z) | Opened (fp : stream).

(** [isspace] in the C locale *)
Definition ISSPACE (c : Z) : bool := (c =? 32) || ((9 <=? c) && (c <=? 13)).

(** ** Aliases *)

(** [while (ISSPACE( *p)) p++] *)
Fixpoint skip_spaces (p : list Z) : list Z :=
  match p with c :: p' => if ISSPACE c then skip_spaces p' else p | [] => [] end.

(** The characters from [p] to [q]: [while ( *q && !ISSPACE( *q)) q++] *)
Fixpoint up_to_space (q : list Z) : list Z :=
  match q with c :: q' => if ISSPACE c then [] else c :: up_to_space q' | [] => [] end.

(** The body of the loop on a line: the alias it gives, if any. *)
Definition alias_on_line (line name : list Z) : M (option (list Z)) :=
  let len := length name in
  if negb (ares_strncasecmp len line name =? 0) then mret None
  else
    c ← get_byte (line ++ [0]) (Z.of_nat len);
    if negb (ISSPACE c) then mret None
    else
      match skip_spaces (drop len line) with
      | [] => mret None
      | p :: q => mret (Some (p :: up_to_space q))
      end.

(** The loop over the lines of the file: the alias in an allocated buffer, or
    the status it ends with. *)
Fixpoint alias_loop (fuel : nat) (name : list Z) (buf : option Z) (fp : stream)
    : M (status + list Z) :=
  match fuel with
  | O => no_fuel
  | S fuel' =>
      r ← ares__read_line buf fp;
      if negb (bool_decide (rr_status r = ARES_SUCCESS)) then
        c_free_opt (rr_buf r) ;; mret (inl (rr_status r))
      else
        match rr_line r with
        | None => undefined
        | Some line =>
            a ← alias_on_line line name;
            match a with
            | None => alias_loop fuel' name (rr_buf r) (rr_fp r)
            | Some s =>
                ok ← c_malloc;
                c_free_opt (rr_buf r) ;;
                if (ok : bool) then mret (inr s) else mret (inl ARES_ENOMEM)
            end
        end
  end.

(** [ares_strdup] into [*s] *)
Definition dup (name : list Z) : M (status + option (list Z)) :=
  ok ← c_malloc; if (ok : bool) then mret (inr (Some name)) else mret (inl ARES_ENOMEM).

Definition no_aliases (cf : search_conf) (name : list Z) : M (status + option (list Z)) :=
  if Z.testbit (sc_flags cf) ARES_FLAG_NOSEARCH || (Zlen (sc_domains cf) =? 0) then dup name
  else mret (inr None).

(** [single_domain]: a status, or [*s]. *)
Definition single_domain (cf : search_conf) (env : hostaliases) (name : list Z)
    : M (status + option (list Z)) :=
  if decide (last name = Some ch_dot) then dup name
  else if negb (Z.testbit (sc_flags cf) ARES_FLAG_NOALIASES)
          && negb (bool_decide (ch_dot ∈ name)) then
    match env with
    | NotSet => no_aliases cf name
    | Opened fp =>
        r ← alias_loop (S (length (st_data fp))) name None fp;
        match r with
        | inr s => mret (inr (Some s))
        | inl ARES_EOF => no_aliases cf name
        | inl st => mret (inl st)
        end
    | FopenFailed errno =>
        if (errno =? ENOENT) || (errno =? ESRCH) then no_aliases cf name
        else mret (inl ARES_EFILE)
    end
  else no_aliases cf name.

(** ** Searches *)

(** [struct search_query]: [status_as_is] is [None] for -1. *)
Record search_query := SearchQuery {
  sq_name : list Z;
  sq_status_as_is : option status;
  sq_next_domain : nat;
  sq_trying_as_is : bool;
  sq_timeouts : Z;
  sq_ever_got_nodata : bool }.

(** An answer to a query. *)
Record answer := Answer { an_status : status; an_timeouts : Z; an_abuf : list Z }.

Inductive effect :=
| Ask (s : list Z) (squery : search_query)   (* ares_query(.., s, .., search_callback, squery) *)
| Direct (s : list Z)                        (* ares_query(.., s, .., callback, arg) *)
| Report (a : answer).                       (* callback(arg, ..) *)

(** [cat_domain] *)
Definition cat (name domain : list Z) : list Z := name ++ ch_dot :: domain.

Definition cat_domain (name domain : list Z) : M (status + list Z) :=
  s ← c_malloc;
  if negb s then mret (inl ARES_ENOMEM)
  else
    let cap := Zlen name + 1 + Zlen domain + 1 in
    q ← put_chars cap [] name;
    q ← put_char cap q ch_dot;
    q ← put_chars cap q domain;
    _ ← put_char cap q 0;
    mret (inr (rev q)).

Definition end_squery (squery : search_query) (st : status) (abuf : list Z) : M effect :=
  c_free ;; c_free ;; mret (Report (Answer st (sq_timeouts squery) abuf)).

(** The number of dots in the name. *)
Definition dots (name : list Z) : nat := length (filter (fun c => c = ch_dot) name).

Section conf.
Variable cf : search_conf.

Definition ares_search (env : hostaliases) (name : list Z) : M effect :=
  r ← single_domain cf env name;
  match r with
  | inl st => mret (Report (Answer st 0 []))
  | inr (Some s) => c_free ;; mret (Direct s)
  | inr None =>
      ok ← c_malloc;
      if negb ok then mret (Report (Answer ARES_ENOMEM 0 []))
      else
        ok ← c_malloc;
        if negb ok then c_free ;; mret (Report (Answer ARES_ENOMEM 0 []))
        else if sc_ndots cf <=? Z.of_nat (dots name) then
          mret (Ask name (SearchQuery name None 0 true 0 false))
        else
          match sc_domains cf with
          | [] => undefined
          | domain :: _ =>
              s ← cat_domain name domain;
              match s with
              | inr s => c_free ;; mret (Ask s (SearchQuery name None 1 false 0 false))
              | inl st => c_free ;; c_free ;; mret (Report (Answer st 0 []))
              end
          end
  end.

(** A status that lets the search go on. *)
Definition nonfatal (st : status) : bool :=
  bool_decide (st = ARES_ENODATA) || bool_decide (st = ARES_ESERVFAIL) || bool_decide (st = ARES_ENOTFOUND).

Definition search_callback (squery : search_query) (a : answer) : M effect :=
  timeouts ← int_add (sq_timeouts squery) (an_timeouts a);
  let st := an_status a in
  let '(SearchQuery name as_is next trying _ nodata) := squery in
  if negb (nonfatal st) then
    end_squery (SearchQuery name as_is next trying timeouts nodata) st (an_abuf a)
  else
    let as_is := if trying then Some st else as_is in
    let nodata := nodata || bool_decide (st = ARES_ENODATA) in
    if (next <? length (sc_domains cf))%nat then
      match sc_domains cf !! next with
      | None => undefined
      | Some domain =>
          s ← cat_domain name domain;
          match s with
          | inl st => end_squery (SearchQuery name as_is next trying timeouts nodata) st []
          | inr s => c_free ;; mret (Ask s (SearchQuery name as_is (S next) false timeouts nodata))
          end
      end
    else
      match as_is with
      | None => mret (Ask name (SearchQuery name as_is next true timeouts nodata))
      | Some st =>
          end_squery (SearchQuery name as_is next trying timeouts nodata)
            (if bool_decide (st = ARES_ENOTFOUND) && nodata then ARES_ENODATA else st) []
      end.

(** A search, given the answers to its queries in turn: the names it asked
    for, and what it reported, unless it still waits for an answer. *)
Fixpoint search_run (answers : list answer) (e : effect) : M (list (list Z) * option answer) :=
  match e with
  | Report a => mret ([], Some a)
  | Direct s => mret ([s], head answers)
  | Ask s squery =>
      match answers with
      | [] => mret ([s], None)
      | a :: answers' =>
          e ← search_callback squery a;
          '(names, r) ← search_run answers' e;
          mret (s :: names, r)
      end
  end.

Definition search (env : hostaliases) (name : list Z) (answers : list answer)
    : M (list (list Z) * option answer) :=
  e ← ares_search env name; search_run answers e.

End conf.

(** ** Specification of the aliases *)

(** The line names [tok] as an alias of [name]: the name in any case, spaces, and
    the token that follows. *)
Definition alias_line (name line tok : list Z) : Prop :=
  exists key sp rest, line = key ++ sp ++ tok ++ rest /\
    lower <$> key = lower <$> name /\
    sp <> [] /\ Forall (fun c => ISSPACE c = true) sp /\
    tok <> [] /\ Forall (fun c => ISSPACE c = false) tok /\
    match rest with c :: _ => ISSPACE c = true | [] => True end.

(** The first line of the file that names one. *)
Definition first_alias (name : list Z) (ls : list (list Z)) (r : option (list Z)) : Prop :=
  match r with
  | None => forall line tok, line ∈ ls -> ~ alias_line name line tok
  | Some tok => exists l1 line l2, ls = l1 ++ line :: l2 /\ alias_line name line tok /\
      forall line' tok', line' ∈ l1 -> ~ alias_line name line' tok'
  end.

(** ** Proofs about the aliases *)

Lemma skip_spaces_spec p :
  exists sp, p = sp ++ skip_spaces p /\ Forall (fun c => ISSPACE c = true) sp /\
    match skip_spaces p with c :: _ => ISSPACE c = false | [] => True end.
Proof.
  induction p as [|c p (sp & E & Hs & Hh)]; [by exists []|]. cbn [skip_spaces].
  destruct (ISSPACE c) eqn:Ec; [|by exists []].
  exists (c :: sp). split_and!; [cbn; by rewrite <- E|by constructor|done].
Qed.

Lemma up_to_space_spec q :
  exists rest, q = up_to_space q ++ rest /\ Forall (fun c => ISSPACE c = false) (up_to_space q) /\
    match rest with c :: _ => ISSPACE c = true | [] => True end.
Proof.
  induction q as [|c q (rest & E & Hs & Hh)]; [by exists []|]. cbn [up_to_space].
  destruct (ISSPACE c) eqn:Ec; [by exists (c :: q)|].
  exists rest. split_and!; [cbn; by rewrite <- E|by constructor|done].
Qed.

(** A word and the spaces before it are determined by the text. *)
Lemma skip_spaces_app sp c l :
  Forall (fun c => ISSPACE c = true) sp -> ISSPACE c = false -> skip_spaces (sp ++ c :: l) = c :: l.
Proof. intros Hs Hc. induction Hs as [|x sp Hx Hs IH]; cbn; [by rewrite Hc|by rewrite Hx]. Qed.

Lemma up_to_space_app tok rest :
  Forall (fun c => ISSPACE c = false) tok -> match rest with c :: _ => ISSPACE c = true | [] => True end ->
  up_to_space (tok ++ rest) = tok.
Proof.
  intros Hs Hr. induction Hs as [|x tok Hx Hs IH]; cbn; [|by rewrite Hx, IH].
  destruct rest; cbn; [done|by rewrite Hr].
Qed.

Lemma lower_text c : 0 < c < 256 -> lower c <> 0.
Proof. intros Hc H. apply (lower_zero c) in H; unfold is_byte; lia. Qed.

(** [strncasecmp] over the length of the name compares a prefix of the line. *)
Lemma strncasecmp_prefix name line :
  text name -> text line ->
  ares_strncasecmp (length name) line name = 0 <->
    (length name <= length line)%nat /\ lower <$> take (length name) line = lower <$> name.
Proof.
  intros Hn; revert line; induction Hn as [|c name Hc Hn IH]; intros line Hl; cbn [length ares_strncasecmp].
  { split; [intros _|done]. split; [lia|]. by rewrite take_0. }
  pose proof (lower_text c Hc). destruct Hl as [|x line Hx Hl]; cbn [hd tl take length].
  - change (lower 0) with 0. destruct (Z.eqb_spec 0 (lower c)); [lia|]. cbn. split; [lia|].
    intros [? _]. lia.
  - pose proof (lower_text x Hx). destruct (Z.eqb_spec (lower x) (lower c)) as [E|E]; cbn [negb].
    + destruct (Z.eqb_spec (lower x) 0); [done|]. rewrite IH by done. cbn. rewrite E.
      split; intros [? E']; (split; [lia|]); [by rewrite E'|by injection E'].
    + split; [lia|]. intros [_ E']. by injection E'.
Qed.

Definition alias_found (name line : list Z) (r : option (list Z)) : Prop :=
  match r with Some tok => alias_line name line tok | None => forall tok, ~ alias_line name line tok end.

(** An alias line starts with the name and a space. *)
Lemma alias_line_prefix name line tok :
  alias_line name line tok -> (length name <= length line)%nat /\
    lower <$> take (length name) line = lower <$> name /\
    exists sp rest, drop (length name) line = sp ++ tok ++ rest /\
      sp <> [] /\ Forall (fun c => ISSPACE c = true) sp /\
      tok <> [] /\ Forall (fun c => ISSPACE c = false) tok /\
      match rest with c :: _ => ISSPACE c = true | [] => True end.
Proof.
  intros (key & sp & rest & -> & Hk & H). assert (Hl : length key = length name).
  { by rewrite <- (length_fmap lower key), Hk, length_fmap. }
  rewrite <- Hl. rewrite take_app_length, drop_app_length, length_app. split_and!; [lia|done|]. by exists sp, rest.
Qed.

Lemma wp_alias_on_line line name h (Q : option (list Z) -> heap -> Prop) :
  text name -> text line -> (forall r, alias_found name line r -> Q r h) ->
  wp (alias_on_line line name) h Q.
Proof.
  intros Hn Hl HQ. unfold alias_on_line. pose proof (strncasecmp_prefix name line Hn Hl) as Hcmp.
  destruct (Z.eqb_spec (ares_strncasecmp (length name) line name) 0) as [E|E]; cbn [negb].
  2: { wp_step. apply HQ. intros tok (H1 & H2 & _)%alias_line_prefix. tauto. }
  apply Hcmp in E as [Hlen Hpre]. clear Hcmp. destruct (drop (length name) line) as [|c rest] eqn:Ed.
  { (* the line is the name *)
    assert (Hall : length line = length name) by (apply (f_equal length) in Ed; rewrite length_drop in Ed; cbn in Ed; lia).
    wp_step. eapply wp_get_byte_Some.
    { rewrite <- Hall. replace (Z.of_nat (length line)) with (Zlen (line ++ [0]) - 1)
        by (rewrite Zlen_app; unfold Zlen; cbn; lia). by apply byte_at_last. }
    change (negb (ISSPACE 0)) with true. cbv iota. wp_step.
    apply HQ. intros tok (_ & _ & sp & rest & E & Hsp & _)%alias_line_prefix.
    rewrite Ed in E. by destruct sp. }
  assert (Hc : line !! length name = Some c) by (by rewrite <- (Nat.add_0_r (length name)), <- lookup_drop, Ed).
  assert (Hb : 0 < c < 256) by exact (Forall_lookup_1 _ _ _ _ Hl Hc).
  wp_step. eapply (wp_get_byte_Some _ _ c).
  { unfold byte_at. destruct (Z.leb_spec 0 (Z.of_nat (length name))); [|lia]. rewrite Nat2Z.id.
    rewrite lookup_app_l by (by apply lookup_lt_Some in Hc). rewrite Hc. cbn. by rewrite Z.mod_small by lia. }
  destruct (ISSPACE c) eqn:Ec; cbn [negb].
  2: { wp_step. apply HQ. intros tok (_ & _ & sp & r' & E & Hsp & HF & _)%alias_line_prefix.
       rewrite Ed in E. destruct HF as [|x sp Hx HF]; [done|]. injection E as -> _. congruence. }
  assert (Hdrop : forall sp tok rest', c :: rest = sp ++ tok ++ rest' ->
    Forall (fun c => ISSPACE c = true) sp -> tok <> [] -> Forall (fun c => ISSPACE c = false) tok ->
    skip_spaces (c :: rest) = tok ++ rest').
  { intros sp tok rest' -> Hs Ht HF. destruct HF as [|x tok Hx HF]; [done|]. by apply skip_spaces_app. }
  destruct (skip_spaces_spec (c :: rest)) as (sp & Esp & Hsp & Hhd).
  destruct (skip_spaces (c :: rest)) as [|p q] eqn:Es.
  - wp_step. apply HQ. intros tok (_ & _ & sp' & r' & E & _ & HF & Ht & HFt & _)%alias_line_prefix.
    rewrite Ed in E. specialize (Hdrop sp' tok r' E HF Ht HFt). by destruct tok.
  - wp_step. apply HQ. destruct (up_to_space_spec q) as (r' & Eq & Hq & Hr').
    exists (take (length name) line), sp, r'. split_and!; try done.
    + rewrite <- (take_drop (length name) line) at 1. rewrite Ed, Esp. cbn. by rewrite <- Eq.
    + intros ->. cbn in Esp. injection Esp as -> _. congruence.
    + by constructor.
Qed.

Lemma first_alias_cons_None name line ls r :
  (forall tok, ~ alias_line name line tok) -> first_alias name ls r -> first_alias name (line :: ls) r.
Proof.
  intros Hn. destruct r as [tok|]; cbn.
  - intros (l1 & l & l2 & -> & Ha & H). exists (line :: l1), l, l2. split_and!; [done|done|].
    intros l' t' [->|Hl']%elem_of_cons; eauto.
  - intros H l tok [->|Hl]%elem_of_cons; eauto.
Qed.

Lemma first_alias_here name line ls tok : alias_line name line tok -> first_alias name (line :: ls) (Some tok).
Proof. intros H. exists [], line, ls. split_and!; [done|done|]. by intros ? ? ?%elem_of_nil. Qed.

(** The outcome of the loop over the file of aliases, [k] blocks being left. *)
Definition aliases_post (name : list Z) (fp : stream) (k : Z) (h : heap) (r : status + list Z) (h' : heap) : Prop :=
  (r = inl ARES_ENOMEM /\ oracle h <> [] /\ live h' = k) \/
  ((oracle h = [] -> oracle h' = []) /\ exists a, first_alias name (lines (st_data fp)) a /\
    match a with
    | Some tok => r = inr tok /\ live h' = k + 1
    | None => r = inl (if st_fails fp then ARES_EFILE else ARES_EOF) /\ live h' = k
    end).

Lemma wp_alias_loop fuel name buf fp h :
  (length (st_data fp) < fuel)%nat -> text_file fp -> text name -> buf_opt_ok buf ->
  blocks_opt buf <= live h -> 0 <= live h ->
  wp (alias_loop fuel name buf fp) h (aliases_post name fp (live h - blocks_opt buf) h).
Proof.
  revert buf fp h. induction fuel as [|fuel IH]; intros buf fp h Hfuel Hfp Hname Hbuf Hl Hl0; [lia|].
  cbn [alias_loop]. wp_step. eapply wp_mono; [by apply wp_ares__read_line|].
  intros [st line buf' fp'] h1 (Hl1 & HP). cbn [rr_status rr_line rr_buf rr_fp] in *.
  pose proof (blocks_opt_nonneg buf').
  destruct HP as [[(Hst & Hline & n & Hn & Hnb) Ho]|[[Hst Hn] Ho]]; cbn [rr_status rr_line rr_buf rr_fp] in *.
  2: { subst. rewrite bool_decide_false by done. cbn [negb c_free_opt]. do 3 wp_step.
       left. cbn in Hl1. by split_and!; [..|lia]. }
  subst st buf'. cbn [blocks_opt] in Hl1. destruct (decide (st_data fp = [])) as [Hnil|Hdata].
  { set (st := if st_fails fp then ARES_EFILE else ARES_EOF).
    replace (negb (bool_decide (st = ARES_SUCCESS))) with true by (subst st; by destruct (st_fails fp)).
    wp_step. apply wp_free; [lia|]. wp_step. right. split; [done|]. exists None.
    split; [|split; [done|cbn; lia]]. rewrite Hnil. by intros ? ? ?%elem_of_nil. }
  rewrite bool_decide_true by done. cbn [negb]. destruct (Hline Hdata) as [-> ->].
  wp_step. apply wp_alias_on_line; [done|by apply text_line|]. intros [tok|] Ha; cbn in Ha.
  - wp_step. apply wp_malloc; intros o Ho1; wp_step; (apply wp_free; [cbn; lia|]); wp_step.
    + right. split; [by auto|]. exists (Some tok). split; [|split; [done|cbn; lia]].
      rewrite lines_cons by done. by apply first_alias_here.
    + left. split_and!; [done|by auto|cbn; lia].
  - pose proof (split_line_length _ Hdata) as Hlt.
    eapply wp_mono; [apply IH|]; cbn [st_data blocks_opt buf_opt_ok]; try done; try lia; [by apply text_file_rest|].
    unfold aliases_post. cbn [st_data st_fails]. intros r h' [(H1 & H2 & H3)|(H1 & a & H2 & H3)].
    + left. split_and!; [done|by auto|lia].
    + right. split; [by auto|]. exists a. split; [rewrite lines_cons by done; by apply first_alias_cons_None|].
      destruct a; (split; [apply H3|lia]).
Qed.

(** ** [single_domain] *)

Definition env_ok (env : hostaliases) : Prop :=
  match env with Opened fp => text_file fp | _ => True end.

(** The outcome without aliases: the name, if there is nothing to search. *)
Definition plain (cf : search_conf) (name : list Z) : option (list Z) :=
  if Z.testbit (sc_flags cf) ARES_FLAG_NOSEARCH || (Zlen (sc_domains cf) =? 0) then Some name else None.

(** What [single_domain] decides: the single name to ask for, or [None] for a
    search. *)
Definition single_spec (cf : search_conf) (env : hostaliases) (name : list Z)
    (r : status + option (list Z)) : Prop :=
  if decide (last name = Some ch_dot) then r = inr (Some name)
  else if negb (Z.testbit (sc_flags cf) ARES_FLAG_NOALIASES) && negb (bool_decide (ch_dot ∈ name)) then
    match env with
    | NotSet => r = inr (plain cf name)
    | FopenFailed errno =>
        r = (if (errno =? ENOENT) || (errno =? ESRCH) then inr (plain cf name) else inl ARES_EFILE)
    | Opened fp => exists a, first_alias name (lines (st_data fp)) a /\
        r = match a with
            | Some tok => inr (Some tok)
            | None => if st_fails fp then inl ARES_EFILE else inr (plain cf name)
            end
    end
  else r = inr (plain cf name).

Definition single_blocks (r : status + option (list Z)) : Z :=
  match r with inr s => blocks_opt s | inl _ => 0 end.

(** An outcome, or out of memory. *)
Definition unless_oom {A} (P : A -> Prop) (oom : A -> Prop) (h : heap) (a : A) (h' : heap) : Prop :=
  (P a /\ (oracle h = [] -> oracle h' = [])) \/ (oom a /\ oracle h <> []).

Definition single_post cf env name h (r : status + option (list Z)) (h' : heap) : Prop :=
  live h' = live h + single_blocks r /\
  unless_oom (single_spec cf env name) (fun r => r = inl ARES_ENOMEM) h r h'.

Lemma wp_dup name h : wp (dup name) h (fun r h' => live h' = live h + single_blocks r /\
  unless_oom (fun r => r = inr (Some name)) (fun r => r = inl ARES_ENOMEM) h r h').
Proof.
  unfold dup, unless_oom. wp_step. wp_step; wp_step; (split; [cbn; lia|]); [by left|by right].
Qed.

Lemma wp_no_aliases cf name h : wp (no_aliases cf name) h (fun r h' => live h' = live h + single_blocks r /\
  unless_oom (fun r => r = inr (plain cf name)) (fun r => r = inl ARES_ENOMEM) h r h').
Proof.
  unfold no_aliases, plain. destruct (_ || _); [apply wp_dup|]. wp_step. split; [cbn; lia|]. by left.
Qed.

Lemma wp_single_domain cf env name h :
  env_ok env -> text name -> 0 <= live h ->
  wp (single_domain cf env name) h (single_post cf env name h).
Proof.
  intros Henv Hname Hl. unfold single_domain, single_post, single_spec.
  case_decide; [apply wp_dup|]. destruct (_ && _); [|apply wp_no_aliases].
  destruct env as [|errno|fp]; [apply wp_no_aliases| |].
  { destruct (_ || _); [apply wp_no_aliases|]. wp_step. split; [cbn; lia|]. by left. }
  wp_step. eapply wp_mono; [by apply wp_alias_loop; try lia|].
  unfold aliases_post, unless_oom. cbn [blocks_opt]. rewrite Z.sub_0_r.
  intros r h1 [(-> & Ho & Hl1)|(Ho & [tok|] & Ha & -> & Hl1)].
  - wp_step. split; [cbn; lia|]. by right.
  - wp_step. split; [cbn; lia|]. left. split; [|done]. by exists (Some tok).
  - destruct (st_fails fp) eqn:Ef; [wp_step; split; [cbn; lia|]; left; split; [by exists None|done]|].
    eapply wp_mono; [apply wp_no_aliases|]. intros r h2 (Hl2 & HP). split; [lia|].
    destruct HP as [[-> Ho2]|[-> Ho2]]; [left|right; by auto]. split; [by exists None|by auto].
Qed.

(** ** Specification of a search *)

(** The names to try: the name as it is first if it has enough dots, otherwise
    last. *)
Definition candidates (cf : search_conf) (name : list Z) : list (list Z) :=
  let found := cat name <$> sc_domains cf in
  if sc_ndots cf <=? Z.of_nat (dots name) then name :: found else found ++ [name].

(** The place of the name as it is. *)
Definition as_is_place (cf : search_conf) (name : list Z) : nat :=
  if sc_ndots cf <=? Z.of_nat (dots name) then 0 else length (sc_domains cf).

Definition total (answers : list answer) : Z := foldr (fun a t => an_timeouts a + t) 0 answers.

Definition got_nodata (answers : list answer) : bool :=
  existsb (fun a => bool_decide (an_status a = ARES_ENODATA)) answers.

(** The number of answers at the front that let the search go on. *)
Fixpoint patience (answers : list answer) : nat :=
  match answers with a :: l => if nonfatal (an_status a) then S (patience l) else 0 | [] => 0 end.

(** The verdict when every name failed: the answer for the name as it is, but
    no data if some name had none and this one does not exist. *)
Definition verdict (answers : list answer) (place : nat) : option answer :=
  a ← answers !! place;
  let st := an_status a in
  Some (Answer (if bool_decide (st = ARES_ENOTFOUND) && got_nodata answers then ARES_ENODATA else st)
          (total answers) []).

(** The result of a search through [names], the one at [place] being the name
    as it is. *)
Definition search_spec (names : list (list Z)) (place : nat) (answers : list answer)
    : list (list Z) * option answer :=
  let p := patience answers in
  (take (S p) names,
   if (length names <=? p)%nat then verdict (take (length names) answers) place
   else a ← answers !! p; Some (Answer (an_status a) (total (take (S p) answers)) (an_abuf a))).

(** ** Proofs about a search *)

Definition all_nonfatal (l : list answer) : Prop := Forall (fun a => nonfatal (an_status a) = true) l.

Lemma total_app l1 l2 : total (l1 ++ l2) = total l1 + total l2.
Proof.
  unfold total. rewrite foldr_app. generalize (foldr (fun a t => an_timeouts a + t) 0 l2). intros t.
  induction l1 as [|a l1 IH]; cbn; [done|]. rewrite IH. lia.
Qed.

Lemma total_snoc l a : total (l ++ [a]) = total l + an_timeouts a.
Proof. rewrite total_app. cbn. lia. Qed.

Lemma got_nodata_snoc l a :
  got_nodata (l ++ [a]) = got_nodata l || bool_decide (an_status a = ARES_ENODATA).
Proof. unfold got_nodata. rewrite existsb_app. cbn. by rewrite orb_false_r. Qed.

Lemma patience_app l1 l2 : all_nonfatal l1 -> patience (l1 ++ l2) = (length l1 + patience l2)%nat.
Proof. induction 1 as [|a l1 Ha H IH]; cbn; [done|]. by rewrite Ha, IH. Qed.

(** [cat_domain] builds the name with the domain in a block that fits. *)
Lemma wp_cat_domain n d h (Q : status + list Z -> heap -> Prop) :
  (forall o, (oracle h = [] -> o = []) -> Q (inr (cat n d)) (Heap (live h + 1) o)) ->
  (forall o, oracle h <> [] -> Q (inl ARES_ENOMEM) (Heap (live h) o)) ->
  wp (cat_domain n d) h Q.
Proof.
  intros Ht Hf. unfold cat_domain. wp_step. wp_step; cbn [negb]; [|wp_step; by auto].
  pose proof (Zlen_nonneg d). wp_step. apply wp_put_chars; [rewrite Zlen_nil; lia|]. rewrite app_nil_r.
  wp_step. apply wp_put_char; [unfold Zlen in *; rewrite length_rev; lia|].
  assert (Hq : Zlen (ch_dot :: rev n) = Zlen n + 1) by (unfold Zlen; cbn; rewrite length_rev; lia).
  wp_step. apply wp_put_chars; [lia|].
  wp_step. apply wp_put_char; [rewrite Zlen_app; unfold Zlen at 1; rewrite length_rev; fold (Zlen d); lia|].
  wp_step. rewrite rev_app_distr, rev_involutive. cbn [rev]. rewrite rev_involutive, <- app_assoc. by apply Ht.
Qed.

Lemma wp_end_squery sq st abuf h (Q : effect -> heap -> Prop) :
  2 <= live h -> Q (Report (Answer st (sq_timeouts sq) abuf)) (Heap (live h - 2) (oracle h)) ->
  wp (end_squery sq st abuf) h Q.
Proof.
  intros Hl HQ. unfold end_squery. do 4 wp_step. wp_step. by replace (live h - 1 - 1) with (live h - 2) by lia.
Qed.

Lemma take_lookup_snoc {A} (l : list A) k x : l !! k = Some x -> take k l ++ [x] = take (S k) l.
Proof. intros H. by rewrite (take_S_r _ _ _ H). Qed.

Lemma total_bounds l1 l2 : Forall (fun a => 0 <= an_timeouts a) (l1 ++ l2) -> 0 <= total l1 <= total (l1 ++ l2).
Proof.
  assert (Hnn : forall l, Forall (fun a => 0 <= an_timeouts a) l -> 0 <= total l)
    by (induction 1 as [|a l Ha H IH]; cbn in *; [lia|unfold total in IH; lia]).
  rewrite Forall_app, total_app. intros [H1%Hnn H2%Hnn]. lia.
Qed.

Section proofs.
Context (cf : search_conf) (name : list Z).
Let first : bool := sc_ndots cf <=? Z.of_nat (dots name).
Let nd := length (sc_domains cf).
Let cands := candidates cf name.
Let place := as_is_place cf name.

(** The search waits for the answer for [s], after the answers [got]. *)
Record waiting_at (got : list answer) (s : list Z) (sq : search_query) : Prop := {
  w_got : all_nonfatal got;
  w_name : sq_name sq = name;
  w_asked : cands !! length got = Some s;
  w_as_is : sq_status_as_is sq = an_status <$> got !! place;
  w_next : sq_next_domain sq = if first then length got else Nat.min (S (length got)) nd;
  w_trying : sq_trying_as_is sq = bool_decide (length got = place);
  w_timeouts : sq_timeouts sq = total got;
  w_nodata : sq_ever_got_nodata sq = got_nodata got }.

Lemma cands_length : length cands = S nd.
Proof.
  subst cands nd. unfold candidates. destruct (_ <=? _); cbn; rewrite ?length_app, length_fmap; cbn; lia.
Qed.

Lemma cands_domain i d :
  sc_domains cf !! i = Some d -> cands !! (if first then S i else i) = Some (cat name d).
Proof.
  intros Hd. subst cands first. unfold candidates. destruct (_ <=? _); cbv zeta iota.
  - change ((cat name <$> sc_domains cf) !! i = Some (cat name d)). by rewrite list_lookup_fmap, Hd.
  - rewrite lookup_app_l by (rewrite length_fmap; by apply lookup_lt_Some in Hd). by rewrite list_lookup_fmap, Hd.
Qed.

Lemma cands_as_is : cands !! place = Some name.
Proof.
  subst cands place. unfold candidates, as_is_place. destruct (_ <=? _); cbn; [done|].
  rewrite lookup_app_r by (by rewrite length_fmap). by rewrite length_fmap, Nat.sub_diag.
Qed.

Lemma place_eq : place = if first then 0%nat else nd.
Proof. done. Qed.

Lemma status_as_is_snoc got a :
  (length got <= nd)%nat ->
  (if bool_decide (length got = place) then Some (an_status a) else an_status <$> got !! place)
    = an_status <$> (got ++ [a]) !! place.
Proof.
  intros Hk. case_bool_decide as E.
  - rewrite <- E, lookup_app_r, Nat.sub_diag by lia. done.
  - destruct (decide (place < length got)%nat); [by rewrite lookup_app_l|].
    rewrite (lookup_ge_None_2 got) by lia. rewrite lookup_ge_None_2; [done|]. rewrite length_app. cbn. lia.
Qed.

(** What [search_callback] does with the answer [a], after [got]. *)
Definition callback_post (got : list answer) (a : answer) (h : heap) (e : effect) (h' : heap) : Prop :=
  let got' := got ++ [a] in
  if negb (nonfatal (an_status a)) then
    e = Report (Answer (an_status a) (total got') (an_abuf a)) /\ live h' = live h - 2 /\ oracle h' = oracle h
  else if (S (length got) <? length cands)%nat then
    (exists s sq, e = Ask s sq /\ waiting_at got' s sq /\ live h' = live h /\ (oracle h = [] -> oracle h' = [])) \/
    (e = Report (Answer ARES_ENOMEM (total got') []) /\ live h' = live h - 2 /\ oracle h <> [])
  else
    exists r, verdict got' place = Some r /\ e = Report r /\ live h' = live h - 2 /\ oracle h' = oracle h.

Lemma waiting_next got s sq a :
  waiting_at got s sq -> nonfatal (an_status a) = true -> (S (length got) < length cands)%nat ->
  forall s', cands !! S (length got) = Some s' ->
  waiting_at (got ++ [a]) s' (SearchQuery name
    (if sq_trying_as_is sq then Some (an_status a) else sq_status_as_is sq)
    (if (sq_next_domain sq <? nd)%nat then S (sq_next_domain sq) else sq_next_domain sq)
    (negb (sq_next_domain sq <? nd)%nat) (total (got ++ [a]))
    (sq_ever_got_nodata sq || bool_decide (an_status a = ARES_ENODATA))).
Proof.
  intros [Hg Hn Ha Has Hnx Ht Hto Hnd] Hf Hlt s' Hs'. rewrite cands_length in Hlt.
  assert (Hlen : length (got ++ [a]) = S (length got)) by (rewrite length_app; cbn; lia).
  constructor; cbn [sq_name sq_status_as_is sq_next_domain sq_trying_as_is sq_timeouts sq_ever_got_nodata];
    rewrite ?Hlen; try done.
  - apply Forall_app. by split; [|repeat constructor].
  - rewrite Ht, Has. apply status_as_is_snoc. lia.
  - rewrite Hnx. destruct first; [destruct (Nat.ltb_spec (length got) nd); lia|].
    destruct (Nat.ltb_spec (Nat.min (S (length got)) nd) nd); lia.
  - rewrite Hnx, place_eq. destruct first.
    + destruct (Nat.ltb_spec (length got) nd); [|lia]. by rewrite bool_decide_false.
    + destruct (Nat.ltb_spec (Nat.min (S (length got)) nd) nd); cbn; symmetry;
        [apply bool_decide_false; lia|apply bool_decide_true; lia].
  - by rewrite Hnd, got_nodata_snoc.
Qed.

Lemma wp_search_callback got s sq a h :
  waiting_at got s sq -> 2 <= live h -> INT_MIN <= total (got ++ [a]) <= INT_MAX ->
  wp (search_callback cf sq a) h (callback_post got a h).
Proof.
  intros HW Hl Hto. pose proof HW as [Hg Hn Ha Has Hnx Ht Hts Hnd]. rewrite total_snoc in Hto.
  pose proof (lookup_lt_Some _ _ _ Ha) as Hk. rewrite cands_length in Hk.
  unfold search_callback, callback_post. wp_step. rewrite Hts. apply wp_int_add; [done|]. rewrite <- total_snoc.
  pose proof (waiting_next got s sq a HW) as Hnext. rewrite cands_length in *.
  destruct sq as [n as_is next trying tos nodata]. cbn [sq_name sq_status_as_is sq_next_domain sq_trying_as_is
    sq_timeouts sq_ever_got_nodata] in *.
  destruct (nonfatal (an_status a)) eqn:Ef; cbn [negb]; [|by apply wp_end_squery].
  specialize (Hnext eq_refl). subst n. rewrite Ht, Has in *. rewrite status_as_is_snoc in * by lia.
  rewrite Hnd, <- got_nodata_snoc in *. fold nd.
  destruct (Nat.ltb_spec next nd) as [Hlt|Hge].
  { (* the next domain *)
    destruct (lookup_lt_is_Some_2 (sc_domains cf) next Hlt) as [d Hd]. rewrite Hd.
    assert (Hslt : (S (length got) < S nd)%nat) by (destruct first; lia).
    destruct (Nat.ltb_spec (S (length got)) (S nd)); [|lia].
    assert (Hc : cands !! S (length got) = Some (cat name d)).
    { rewrite <- (cands_domain next d Hd). subst next. destruct first; [done|]. f_equal. lia. }
    wp_step. apply wp_cat_domain; intros o Ho.
    - wp_step. apply wp_free; [cbn; lia|]. wp_step. left. do 2 eexists. split; [done|].
      split; [by apply Hnext|]. cbn. split; [lia|done].
    - apply wp_end_squery; [cbn; lia|]. cbn. right. done. }
  destruct ((got ++ [a]) !! place) as [x|] eqn:Ex; cbn [fmap option_fmap option_map].
  - (* every name failed *)
    pose proof (lookup_lt_Some _ _ _ Ex) as Hp. rewrite length_app in Hp. cbn [length] in Hp.
    rewrite place_eq in Hp. assert (Hall : length got = nd) by (destruct first; lia).
    destruct (Nat.ltb_spec (S (length got)) (S nd)); [lia|].
    apply wp_end_squery; [done|]. eexists. unfold verdict. rewrite Ex. cbn. done.
  - (* the name as it is, at last *)
    apply lookup_ge_None_1 in Ex. rewrite length_app in Ex. cbn [length] in Ex.
    rewrite place_eq in Ex. assert (Hp : S (length got) = place) by (rewrite place_eq; destruct first; lia).
    destruct (Nat.ltb_spec (S (length got)) (S nd)) as [Hslt|]; [|rewrite place_eq in Hp; destruct first; lia].
    wp_step. left. do 2 eexists. split; [done|]. split; [|done].
    apply (Hnext Hslt). rewrite Hp. apply cands_as_is.
Qed.

(** The outcome of the rest of a search, the answers [got] being in. *)
Definition rest_post (got answers : list answer) (h : heap) (r : list (list Z) * option answer) (h' : heap) : Prop :=
  live h' = live h - (match r.2 with Some _ => 2 | None => 0 end) /\
  unless_oom (fun r => (take (length got) cands ++ r.1, r.2) = search_spec cands place (got ++ answers))
    (fun r => (exists t, r.2 = Some (Answer ARES_ENOMEM t [])) /\ take (length got) cands ++ r.1 `prefix_of` cands)
    h r h'.

(** The specification at the three ways a search can stand. *)
Lemma spec_waiting got s :
  all_nonfatal got -> cands !! length got = Some s ->
  search_spec cands place got = (take (length got) cands ++ [s], None).
Proof.
  intros Hg Hs. pose proof (lookup_lt_Some _ _ _ Hs) as Hk. unfold search_spec.
  rewrite <- (app_nil_r got), (patience_app _ _ Hg), app_nil_r. cbn [patience]. rewrite Nat.add_0_r.
  rewrite (take_lookup_snoc _ _ _ Hs). destruct (Nat.leb_spec (length cands) (length got)); [lia|].
  by rewrite lookup_ge_None_2.
Qed.

Lemma spec_stop got s a rest :
  all_nonfatal got -> cands !! length got = Some s -> nonfatal (an_status a) = false ->
  search_spec cands place (got ++ a :: rest) =
    (take (length got) cands ++ [s], Some (Answer (an_status a) (total (got ++ [a])) (an_abuf a))).
Proof.
  intros Hg Hs Ha. pose proof (lookup_lt_Some _ _ _ Hs) as Hk. unfold search_spec.
  rewrite (patience_app _ _ Hg). cbn [patience]. rewrite Ha, Nat.add_0_r, (take_lookup_snoc _ _ _ Hs).
  destruct (Nat.leb_spec (length cands) (length got)); [lia|].
  assert (Hl : (got ++ a :: rest) !! length got = Some a) by (by rewrite lookup_app_r, Nat.sub_diag).
  rewrite Hl, <- (take_lookup_snoc _ _ _ Hl), take_app_length. done.
Qed.

Lemma spec_exhausted got rest r :
  all_nonfatal got -> length got = length cands -> verdict got place = Some r ->
  search_spec cands place (got ++ rest) = (cands, Some r).
Proof.
  intros Hg Hl Hv. unfold search_spec. rewrite (patience_app _ _ Hg), take_ge by lia.
  destruct (Nat.leb_spec (length cands) (length got + patience rest)); [|lia].
  by rewrite <- Hl, take_app_length, Hv.
Qed.

Lemma search_run_report answers a : search_run cf answers (Report a) = mret ([], Some a).
Proof. by destruct answers. Qed.

Lemma wp_search_run answers got s sq h :
  waiting_at got s sq -> 2 <= live h -> Forall (fun a => 0 <= an_timeouts a) (got ++ answers) ->
  total (got ++ answers) <= INT_MAX ->
  wp (search_run cf answers (Ask s sq)) h (rest_post got answers h).
Proof.
  revert got s sq h. induction answers as [|a answers IH]; intros got s sq h HW Hl Hnn Hto;
    pose proof (w_got _ _ _ HW) as Hg; pose proof (w_asked _ _ _ HW) as Hs; cbn [search_run].
  { wp_step. split; [cbn; lia|]. left. split; [|done]. by rewrite app_nil_r, (spec_waiting got s). }
  rewrite cons_middle, app_assoc in Hnn, Hto. pose proof (total_bounds _ _ Hnn) as Hb.
  wp_step. eapply wp_mono; [apply (wp_search_callback got s sq a h HW Hl); unfold INT_MIN; lia|].
  unfold callback_post, rest_post. intros e h1. destruct (nonfatal (an_status a)) eqn:Ef; cbn [negb].
  2: { intros (-> & Hl1 & Ho1). rewrite search_run_report. do 3 wp_step. cbn [fst snd]. split; [lia|]. left.
       split; [by rewrite (spec_stop got s)|by rewrite Ho1]. }
  assert (Hg' : all_nonfatal (got ++ [a])) by (apply Forall_app; by split; [|repeat constructor]).
  assert (Hlen : length (got ++ [a]) = S (length got)) by (rewrite length_app; cbn; lia).
  destruct (Nat.ltb_spec (S (length got)) (length cands)) as [Hlt|Hge].
  - intros [(s' & sq' & -> & HW' & Hl1 & Ho1)|(-> & Hl1 & Ho1)].
    + wp_step. eapply wp_mono; [apply (IH (got ++ [a])); [done|lia|done|done]|].
      unfold rest_post. intros [names r] h2 (Hl2 & HP). wp_step. cbn [fst snd] in *. split; [lia|].
      rewrite Hlen, <- (take_lookup_snoc _ _ _ Hs), <- !app_assoc in HP. cbn [app] in HP. cbn [fst snd].
      unfold unless_oom in *. destruct HP as [[HP Ho2]|[HP Ho2]]; [left|right]; cbn [fst snd] in *; rewrite <- app_assoc in HP; by auto.
    + rewrite search_run_report. do 3 wp_step. cbn [fst snd]. split; [lia|]. right. split; [|done]. cbn [fst snd].
      split; [by eexists|]. rewrite (take_lookup_snoc _ _ _ Hs). apply prefix_take.
  - intros (r & Hv & -> & Hl1 & Ho1). rewrite search_run_report. do 3 wp_step. cbn [fst snd]. split; [lia|]. left.
    split; [|by rewrite Ho1]. cbn [fst snd].
    replace (got ++ a :: answers) with ((got ++ [a]) ++ answers) by (by rewrite <- app_assoc).
    pose proof (lookup_lt_Some _ _ _ Hs). rewrite (spec_exhausted _ _ r); [|done|lia|done].
    by rewrite (take_lookup_snoc _ _ _ Hs), take_ge.
Qed.

End proofs.

(** ** What is proved *)

(** The outcome of a search: it asks for the single name, or through the
    candidates; memory may run out, and then the search says so. *)
Definition search_oom (cf : search_conf) (name : list Z) (r : list (list Z) * option answer) : Prop :=
  (exists t, r.2 = Some (Answer ARES_ENOMEM t [])) /\ r.1 `prefix_of` candidates cf name.

Definition search_post (cf : search_conf) (env : hostaliases) (name : list Z) (answers : list answer)
    (h : heap) (r : list (list Z) * option answer) (h' : heap) : Prop :=
  (exists s, single_spec cf env name s /\
    match s with
    | inl st => r = ([], Some (Answer st 0 [])) /\ live h' = live h
    | inr (Some s) => r = ([s], head answers) /\ live h' = live h
    | inr None => r = search_spec (candidates cf name) (as_is_place cf name) answers /\
        live h' = live h + match r.2 with Some _ => 0 | None => 2 end
    end) \/
  (search_oom cf name r /\ oracle h <> [] /\ live h' = live h).

Lemma plain_None cf env name : single_spec cf env name (inr None) -> sc_domains cf <> [].
Proof.
  assert (Hp : plain cf name = None -> sc_domains cf <> []).
  { unfold plain. intros H Hn. rewrite Hn, orb_true_r in H. done. }
  unfold single_spec. case_decide; [done|]. destruct (_ && _); [|by intros [= E]; apply Hp].
  destruct env as [|errno|fp]; [by intros [= E]; apply Hp| |].
  - destruct (_ || _); [by intros [= E]; apply Hp|done].
  - intros ([tok|] & _ & E); [done|]. destruct (st_fails fp); [done|]. injection E as E. by apply Hp.
Qed.

Lemma waiting_start cf name s sq :
  (if sc_ndots cf <=? Z.of_nat (dots name) then s = name /\ sq = SearchQuery name None 0 true 0 false
   else exists d l, sc_domains cf = d :: l /\ s = cat name d /\ sq = SearchQuery name None 1 false 0 false) ->
  waiting_at cf name [] s sq.
Proof.
  destruct (sc_ndots cf <=? Z.of_nat (dots name)) eqn:E.
  - intros [-> ->]. constructor; cbn; rewrite ?E; try done.
    + apply Forall_nil_2.
    + unfold candidates. by rewrite E.
    + unfold as_is_place. rewrite E. done.
  - intros (d & l & Hd & -> & ->). constructor; cbn; rewrite ?E; try done.
    + apply Forall_nil_2.
    + unfold candidates. by rewrite E, Hd.
    + by rewrite Hd.
    + unfold as_is_place. by rewrite E, Hd.
Qed.

Lemma search_run_direct cf answers s : search_run cf answers (Direct s) = mret ([s], head answers).
Proof. by destruct answers. Qed.

Definition search_bound (cf : search_conf) env name answers h (r : list (list Z) * option answer) (h' : heap) : Prop :=
  search_post cf env name answers h r h' /\ (length r.1 <= S (length (sc_domains cf)))%nat.

Lemma search_bound_oom cf env name answers h h' :
  live h' = live h -> oracle h <> [] ->
  search_bound cf env name answers h ([], Some (Answer ARES_ENOMEM 0 [])) h'.
Proof.
  intros Hl' Ho. split; [|cbn; lia]. right. split_and!; [|done|done]. split; [by exists 0|apply prefix_nil].
Qed.

(** From the first query on. *)
Lemma wp_search_from cf env name answers h s sq h1 :
  single_spec cf env name (inr None) -> waiting_at cf name [] s sq -> 0 <= live h -> live h1 = live h + 2 ->
  (oracle h = [] -> oracle h1 = []) -> Forall (fun a => 0 <= an_timeouts a) answers -> total answers <= INT_MAX ->
  wp (search_run cf answers (Ask s sq)) h1 (search_bound cf env name answers h).
Proof.
  intros HS HW Hl Hl1 Ho1 Hnn Hto. eapply wp_mono; [apply (wp_search_run cf name answers [] s sq h1 HW); [lia|done|done]|].
  intros [names r] h2 (Hl2 & HP). cbn [fst snd length app] in *. rewrite take_0 in HP.
  unfold search_bound. rewrite <- (cands_length cf name). destruct HP as [[HP Ho2]|[HP Ho2]]; cbn [fst snd app] in *.
  - split; [left; exists (inr None); split_and!; [done|done|destruct r; cbn; lia]|].
    unfold search_spec in HP. injection HP as -> _. rewrite length_take. lia.
  - destruct HP as [[t ->] Hpre]. split; [right|by apply prefix_length]. split_and!; [|by auto|lia].
    split; [by exists t|done].
Qed.

Lemma wp_search cf env name answers h :
  env_ok env -> text name -> 0 <= live h ->
  Forall (fun a => 0 <= an_timeouts a) answers -> total answers <= INT_MAX ->
  wp (search cf env name answers) h (search_bound cf env name answers h).
Proof.
  intros Henv Hname Hl Hnn Hto.
  unfold search, ares_search. do 2 wp_step.
  eapply wp_mono; [by apply wp_single_domain|]. intros r h1 (Hl1 & HP).
  destruct HP as [[HS Ho1]|[-> Ho1]].
  2: { wp_step. rewrite search_run_report. wp_step. apply search_bound_oom; [cbn in Hl1; lia|done]. }
  destruct r as [st|[s|]]; cbn [single_blocks blocks_opt] in Hl1.
  { wp_step. rewrite search_run_report. wp_step. split; [|cbn; lia]. left. exists (inl st). by split_and!; [..|lia]. }
  { do 3 wp_step. rewrite search_run_direct. wp_step. split; [|cbn; lia]. left. exists (inr (Some s)).
    by split_and!; [..|cbn; lia]. }
  pose proof (plain_None _ _ _ HS) as Hdom. pose proof (waiting_start cf name) as Hstart.
  wp_step. apply wp_malloc; intros o1 Hm1; cbn [negb].
  2: { wp_step. rewrite search_run_report. wp_step. apply search_bound_oom; [cbn; lia|by auto]. }
  wp_step. apply wp_malloc; intros o2 Hm2; cbn [negb oracle] in *.
  2: { do 3 wp_step. rewrite search_run_report. wp_step. apply search_bound_oom; [cbn; lia|by auto]. }
  destruct (sc_ndots cf <=? Z.of_nat (dots name)) eqn:E.
  { wp_step. apply wp_search_from; try done; [by apply Hstart|cbn; lia|by auto]. }
  destruct (sc_domains cf) as [|d l] eqn:Ed; [done|]. wp_step.
  apply wp_cat_domain; cbn [live oracle]; intros o3 Hm3.
  - do 3 wp_step. apply wp_search_from; try done; [apply Hstart; eauto|cbn; lia|by auto].
  - do 5 wp_step. rewrite search_run_report. wp_step. apply search_bound_oom; [cbn; lia|by auto 10].
Qed.

(** C25. [ares_search] asks for the right names in the right order and reports
    once. Given the answers, it asks for the name itself if that ends in a dot
    or there is nothing to search, for the alias of the first line of the alias
    file that gives one, and otherwise for the name with each search domain, the
    name as it is first or last by its number of dots, until an answer stops
    the search; it reports that answer, or the one for the name as it is, with
    the time-outs of all. It asks at most once more than there are domains,
    releases every block when it reports, and reports [ARES_ENOMEM] if memory
    runs out. *)
Theorem ares_search_correct cf env name answers h :
  env_ok env -> text name -> 0 <= live h ->
  Forall (fun a => 0 <= an_timeouts a) answers -> total answers <= INT_MAX ->
  wp (search cf env name answers) h (fun r h' => search_post cf env name answers h r h' /\
    (length r.1 <= S (length (sc_domains cf)))%nat).
Proof. apply wp_search. Qed.

(** A file with an alias for another host. *)
Definition ex_aliases : hostaliases := Opened (Stream [103; 32; 122; 10] false).
Definition ex_conf : search_conf := SearchConf 0 1 [[120]; [121]].
Definition ex_answers : list answer :=
  [Answer ARES_ENOTFOUND 1 []; Answer ARES_ENODATA 0 []; Answer ARES_ENOTFOUND 2 []].

Lemma ex_aliases_ok : env_ok ex_aliases.
Proof. constructor; [repeat constructor; lia|reflexivity|done]. Qed.

(** The name [h] is tried as [h.x], [h.y] and [h]; the search reports that there
    is no data. *)
Lemma ares_search_correct_witness :
  exists r h, search ex_conf ex_aliases [104] ex_answers (Heap 0 []) = Ret r h /\
    r = ([[104; 46; 120]; [104; 46; 121]; [104]], Some (Answer ARES_ENODATA 3 [])) /\ live h = 0.
Proof.
  destruct (wp_outcome _ _ _ (ares_search_correct ex_conf ex_aliases [104] ex_answers (Heap 0 [])
    ex_aliases_ok ltac:(repeat constructor; lia) ltac:(cbn; lia) ltac:(repeat constructor; cbn; lia)
    ltac:(vm_compute; discriminate))) as (r & h & E & H & _).
  exists r, h. split; [exact E|]. vm_compute in E. injection E as <- <-. by split.
Defined.

Lemma search_post_reports cf env name answers h r h' :
  search_post cf env name answers h r h' -> (length (sc_domains cf) < length answers)%nat -> is_Some r.2.
Proof.
  intros [(s & _ & H)|([[t Ht] _] & _)] Hlen; [|by eexists].
  destruct s as [st|[s|]]; destruct H as [-> _]; [by eexists|by destruct answers; [cbn in Hlen; lia|eexists]|].
  unfold search_spec. cbn [snd]. rewrite cands_length.
  destruct (Nat.leb_spec (S (length (sc_domains cf))) (patience answers)) as [Hp|Hp].
  - unfold verdict. destruct (lookup_lt_is_Some_2 (take (S (length (sc_domains cf))) answers) (as_is_place cf name))
      as [a ->]; [|by eexists]. rewrite length_take. unfold as_is_place. destruct (_ <=? _); lia.
  - destruct (lookup_lt_is_Some_2 answers (patience answers)) as [a ->]; [lia|by eexists].
Qed.

(** A search ends: given an answer for each search domain and one more, it
    reports to the application, and then it holds no memory. *)
Theorem ares_search_reports cf env name answers h :
  env_ok env -> text name -> 0 <= live h ->
  Forall (fun a => 0 <= an_timeouts a) answers -> total answers <= INT_MAX ->
  (length (sc_domains cf) < length answers)%nat ->
  wp (search cf env name answers) h (fun r h' => is_Some r.2 /\ live h' = live h).
Proof.
  intros Henv Hname Hl Hnn Hto Hlen. eapply wp_mono; [by apply wp_search|].
  intros r h' [HP _]. pose proof (search_post_reports _ _ _ _ _ _ _ HP Hlen) as Hr. split; [done|].
  destruct Hr as [a Ha]. destruct HP as [(s & _ & H)|(_ & _ & ->)]; [|done]. rewrite Ha in H.
  destruct s as [st|[s|]]; destruct H as [_ ->]; [done|done|lia].
Qed.

Lemma ares_search_reports_witness :
  exists r h, search ex_conf ex_aliases [104] ex_answers (Heap 0 []) = Ret r h /\ is_Some r.2 /\ live h = 0.
Proof.
  destruct (wp_outcome _ _ _ (ares_search_reports ex_conf ex_aliases [104] ex_answers (Heap 0 [])
    ex_aliases_ok ltac:(repeat constructor; lia) ltac:(cbn; lia) ltac:(repeat constructor; cbn; lia)
    ltac:(vm_compute; discriminate) ltac:(cbn; lia))) as (r & h & E & H).
  exists r, h. split; [exact E|exact H].
Defined.

(** [single_domain] finds aliases: what it decides is a single name exactly
    as [single_spec] says, in particular the token after the host's name on the
    first line of the alias file that has one, whatever the case; it stays
    inside the lines it reads and releases the line buffer. *)
Theorem single_domain_correct cf env name h :
  env_ok env -> text name -> 0 <= live h ->
  wp (single_domain cf env name) h (fun r h' => live h' = live h + single_blocks r /\
    unless_oom (single_spec cf env name) (fun r => r = inl ARES_ENOMEM) h r h').
Proof. apply wp_single_domain. Qed.

(** The host [G] is an alias of [z]. *)
Lemma single_domain_correct_witness :
  exists h, single_domain ex_conf ex_aliases [71] (Heap 0 []) = Ret (inr (Some [122])) h /\ live h = 1 /\
    single_spec ex_conf ex_aliases [71] (inr (Some [122])).
Proof.
  destruct (wp_outcome _ _ _ (single_domain_correct ex_conf ex_aliases [71] (Heap 0 [])
    ex_aliases_ok ltac:(repeat constructor; lia) ltac:(cbn; lia))) as (r & h & E & Hl & HP).
  assert (Hv : match single_domain ex_conf ex_aliases [71] (Heap 0 []) with
    | Ret r _ => r | _ => inr None end = inr (Some [122])) by (vm_compute; reflexivity).
  rewrite E in Hv. subst r. exists h. split; [exact E|]. split; [exact Hl|].
  destruct HP as [[HP _]|[[=] _]]. exact HP.
Defined.
