(* ===== verification/QueryId.v ===== *)
(** * Query identifiers and [ares_query] (c-ares)

    Models src/Scylla-moon/seastar/c-ares/ares_query.c ([rc4],
    [ares__generate_new_id], [find_query_by_id], [generate_unique_id],
    [ares_query], [qcallback]) and [init_id_key] of ares_init.c, on top of the
    engine of Resolver.v.

    The machine is little-endian, as those Seastar runs on: an [unsigned short]
    whose bytes in memory are [a], [b] is [a + 256 b]. What [ares_query] adds
    to the channel, the next identifier, the key of the generator and the
    [struct qquery] objects, is the record [client]; a [qquery] is identified by
    its address and holds the application's argument. *)

From S2P Require Import Prelude DnsWire ParseList ParseHost CreateQuery Channel.
From S2P Require Import Resolver ResolverInv ResolverSend ResolverAnswer ResolverIO ResolverTheorems.
Open Scope Z_scope.

(** ** The generator *)

Record rc4_key := RC4 { rc4_state : list Z; rc4_x : Z; rc4_y : Z }.

Definition ARES_SWAP_BYTE (i j : nat) (s : list Z) : option (list Z) :=
  a ← s !! i; b ← s !! j; Some (<[j := a]> (<[i := b]> s)).

(** One round of the loop of [rc4]: the new key and the byte of the stream. *)
Definition rc4_round (key : rc4_key) : option (rc4_key * Z) :=
  let x := (rc4_x key + 1) mod 256 in
  sx ← rc4_state key !! Z.to_nat x;
  let y := (sx + rc4_y key) mod 256 in
  state ← ARES_SWAP_BYTE (Z.to_nat x) (Z.to_nat y) (rc4_state key);
  a ← state !! Z.to_nat x;
  b ← state !! Z.to_nat y;
  let xorIndex := (a + b) mod 256 in
  k ← state !! Z.to_nat xorIndex;
  Some (RC4 state x y, k).

Fixpoint rc4 (key : rc4_key) (buffer : list Z) : option (rc4_key * list Z) :=
  match buffer with
  | [] => Some (key, [])
  | c :: buffer' =>
      '(key, k) ← rc4_round key;
      '(key, out) ← rc4 key buffer';
      Some (key, Z.lxor c k :: out)
  end.

Definition ares__generate_new_id (key : rc4_key) : option (rc4_key * Z) :=
  '(key, r) ← rc4 key [0; 0];
  match r with [a; b] => Some (key, a + 256 * b) | _ => None end.

Definition ARES_ID_KEY_LEN : nat := 31.

(** The key schedule; [key_data] is the allocated block. *)
Fixpoint id_key_loop (n : nat) (counter index1 index2 : Z) (key_data state : list Z)
    : option (list Z) :=
  match n with
  | O => Some state
  | S n' =>
      kd ← key_data !! Z.to_nat index1;
      sc ← state !! Z.to_nat counter;
      let index2 := (kd + sc + index2) mod 256 in
      state ← ARES_SWAP_BYTE (Z.to_nat counter) (Z.to_nat index2) state;
      let index1 := (index1 + 1) mod Zlen key_data in
      id_key_loop n' (counter + 1) index1 index2 key_data state
  end.

(** [init_id_key]; [random] is what [randomize_key] writes. *)
Definition init_id_key (random : list Z) : M (status + rc4_key) :=
  ok ← c_malloc;
  if negb ok then mret (inl ARES_ENOMEM)
  else
    let key_data := replicate ARES_ID_KEY_LEN 0 in
    let state := (fun counter => Z.land counter 255) <$> seqZ 0 256 in
    (* randomize_key(key->state, key_data_len) *)
    let state := random ++ drop (length random) state in
    match id_key_loop 256 0 0 0 key_data state with
    | None => undefined
    | Some state => c_free ;; mret (inr (RC4 state 0 0))
    end.

(** ** Identifiers *)

(** [DNS_HEADER_SET_QID((unsigned char * )&qid, id)] *)
Definition swap16 (id : Z) : Z := id / 256 + 256 * (id mod 256).

Fixpoint find_by_id (l : list Z) (id : Z) : E (option Z) :=
  match l with
  | [] => mret None
  | q :: l' => r ← get_query q; if qid r =? id then mret (Some q) else find_by_id l' id
  end.

Definition find_query_by_id (id : Z) : E (option Z) :=
  t ← gets queries_by_qid;
  find_by_id (bucket t (Z.rem (swap16 id) ARES_QID_TABLE_SIZE)) (swap16 id).

(** [fuel] bounds the number of identifiers drawn. *)
Fixpoint generate_unique_id (fuel : nat) (key : rc4_key) : E (rc4_key * Z) :=
  match fuel with
  | O => efuel
  | S fuel' =>
      match ares__generate_new_id key with
      | None => eub
      | Some (key, id) =>
          found ← find_query_by_id id;
          match found with
          | Some _ => generate_unique_id fuel' key
          | None => mret (key, id)
          end
      end
  end.

(** ** Queries *)

Definition ARES_FLAG_NORECURSE : Z := 3.
Definition NOERROR : Z := 0.
Definition NXDOMAIN : Z := 3.

Record client := Client {
  next_id : Z;
  id_key : rc4_key;
  qqueries : gmap Z Z;     (* [struct qquery]: the argument of the application *)
  next_qquery : Z }.

Definition ares_query (fuel : nat) (cl : client) (name : list Z) (dnsclass type arg : Z)
    (now : timeval) : E client :=
  norecurse ← flag ARES_FLAG_NORECURSE;
  edns ← flag ARES_FLAG_EDNS;
  k ← gets cfg;
  r ← lift (ares_create_query name dnsclass type (next_id cl) (negb norecurse)
              (if edns : bool then ednspsz k else 0));
  match r with
  | inl st => fail_send arg st ;; mret cl
  | inr qbuf =>
      '(key, id) ← generate_unique_id fuel (id_key cl);
      ok ← lift c_malloc;
      if negb ok then
        lift c_free ;; fail_send arg ARES_ENOMEM ;;
        mret (Client id key (qqueries cl) (next_qquery cl))
      else
        let qquery := next_qquery cl in
        ares_send qbuf qquery now ;;
        lift c_free ;;
        mret (Client id key (<[qquery := arg]> (qqueries cl)) (qquery + 1))
  end.

(** The status [qcallback] passes on. *)
Definition convert_rcode (rcode ancount : Z) (st : status) : status :=
  if rcode =? NOERROR then (if 0 <? ancount then ARES_SUCCESS else ARES_ENODATA)
  else if rcode =? FORMERR then ARES_EFORMERR
  else if rcode =? SERVFAIL then ARES_ESERVFAIL
  else if rcode =? NXDOMAIN then ARES_ENOTFOUND
  else if rcode =? NOTIMP then ARES_ENOTIMP
  else if rcode =? REFUSED then ARES_EREFUSED
  else st.

(** [qcallback], called by the engine with the address of a [qquery]. *)
Definition qcallback (cl : client) (qquery : Z) (st : status) (timeouts : Z) (abuf : list Z)
    : E client :=
  match qqueries cl !! qquery with
  | None => eub
  | Some arg =>
      st ← (if decide (st = ARES_SUCCESS) then
              rcode ← lift (DNS_HEADER_RCODE abuf);
              ancount ← lift (DNS_HEADER_ANCOUNT abuf);
              mret (convert_rcode rcode ancount st)
            else mret st);
      emit (EvCallback None arg st timeouts abuf) ;;
      lift c_free ;;
      mret (Client (next_id cl) (id_key cl) (delete qquery (qqueries cl)) (next_qquery cl))
  end.

(** ** The generator stays well-formed *)

Definition bytes256 (s : list Z) : Prop := length s = 256%nat /\ Forall (fun v => 0 <= v < 256) s.

Record key_ok (key : rc4_key) : Prop := {
  ko_state : bytes256 (rc4_state key);
  ko_x : 0 <= rc4_x key < 256;
  ko_y : 0 <= rc4_y key < 256 }.

Lemma bytes256_at s i : bytes256 s -> 0 <= i < 256 -> exists v, s !! Z.to_nat i = Some v /\ 0 <= v < 256.
Proof.
  intros [Hl Hb] Hi. destruct (lookup_lt_is_Some_2 s (Z.to_nat i)) as [v Hv]; [lia|].
  exists v. split; [done|]. exact (Forall_lookup_1 _ _ _ _ Hb Hv).
Qed.

Lemma insert_Permutation {A} (l : list A) i x y : l !! i = Some y -> <[i := x]> l ≡ₚ x :: delete i l.
Proof.
  intros H. pose proof H as Hlt%lookup_lt_Some.
  rewrite (delete_Permutation (<[i := x]> l) i x) by (by apply list_lookup_insert_eq).
  rewrite !delete_take_drop, take_insert_ge, drop_insert_lt by lia. done.
Qed.

Lemma swap_Permutation {A} (l : list A) i j a b :
  l !! i = Some a -> l !! j = Some b -> <[j := a]> (<[i := b]> l) ≡ₚ l.
Proof.
  intros Hi Hj. destruct (decide (i = j)) as [->|Hne].
  { rewrite Hi in Hj. injection Hj as ->. by rewrite list_insert_insert_eq, list_insert_id. }
  assert (Hj' : <[i := b]> l !! j = Some b) by (by rewrite list_lookup_insert_ne).
  etransitivity; [apply (insert_Permutation _ j a b Hj')|].
  etransitivity; [|symmetry; apply (delete_Permutation l i a Hi)]. constructor.
  apply (Permutation_cons_inv (a := b)).
  etransitivity; [symmetry; apply (delete_Permutation _ j b Hj')|apply (insert_Permutation l i b a Hi)].
Qed.

Lemma swap_ok s i j :
  bytes256 s -> 0 <= i < 256 -> 0 <= j < 256 ->
  exists s', ARES_SWAP_BYTE (Z.to_nat i) (Z.to_nat j) s = Some s' /\ bytes256 s' /\ s' ≡ₚ s.
Proof.
  intros Hs Hi Hj. destruct (bytes256_at s i Hs Hi) as (a & Ha & Hab).
  destruct (bytes256_at s j Hs Hj) as (b & Hb & Hbb).
  unfold ARES_SWAP_BYTE. rewrite Ha, Hb. cbn. eexists. split; [done|].
  pose proof (swap_Permutation s _ _ a b Ha Hb) as Hp.
  split; [|done]. destruct Hs as [Hl HF]. split; [by rewrite !length_insert|]. by rewrite Hp.
Qed.

Lemma rc4_round_ok key :
  key_ok key -> exists key' k, rc4_round key = Some (key', k) /\ key_ok key' /\ 0 <= k < 256 /\
    rc4_state key' ≡ₚ rc4_state key.
Proof.
  intros [Hs Hx Hy]. unfold rc4_round. set (x := (rc4_x key + 1) mod 256).
  assert (Hxr : 0 <= x < 256) by (subst x; by apply Z.mod_pos_bound).
  destruct (bytes256_at _ x Hs Hxr) as (sx & -> & _). cbn [mbind option_bind].
  set (y := (sx + rc4_y key) mod 256). assert (Hyr : 0 <= y < 256) by (subst y; by apply Z.mod_pos_bound).
  destruct (swap_ok _ x y Hs Hxr Hyr) as (st & -> & Hst & Hp). cbn [mbind option_bind].
  destruct (bytes256_at _ x Hst Hxr) as (a & -> & _). destruct (bytes256_at _ y Hst Hyr) as (b & -> & _).
  cbn [mbind option_bind]. destruct (bytes256_at _ ((a + b) mod 256) Hst) as (k & -> & Hk); [by apply Z.mod_pos_bound|].
  cbn. eexists _, _. split_and!; try done; lia.
Qed.

Lemma rc4_ok buffer key :
  key_ok key -> exists key' out, rc4 key buffer = Some (key', out) /\ key_ok key' /\
    length out = length buffer /\ rc4_state key' ≡ₚ rc4_state key /\
    (Forall (fun v => v = 0) buffer -> Forall (fun v => 0 <= v < 256) out).
Proof.
  revert key; induction buffer as [|c buffer IH]; intros key Hk; cbn [rc4].
  { eexists _, _. by split_and!. }
  destruct (rc4_round_ok key Hk) as (key1 & k & -> & Hk1 & Hb & Hp1). cbn [mbind option_bind].
  destruct (IH key1 Hk1) as (key2 & out & -> & Hk2 & Hl & Hp2 & Hz). cbn.
  eexists _, _. split_and!; [done|done|cbn; by rewrite Hl|by rewrite Hp2|].
  intros [-> Hz']%Forall_cons. constructor; [|auto]. by rewrite Z.lxor_0_l.
Qed.

Lemma generate_new_id_ok key :
  key_ok key -> exists key' id, ares__generate_new_id key = Some (key', id) /\ key_ok key' /\
    0 <= id < 65536 /\ rc4_state key' ≡ₚ rc4_state key.
Proof.
  intros Hk. unfold ares__generate_new_id.
  destruct (rc4_ok [0; 0] key Hk) as (key' & out & -> & Hk' & Hl & Hp & Hz). cbn [mbind option_bind].
  destruct out as [|a [|b [|]]]; try done. specialize (Hz ltac:(by repeat constructor)).
  apply Forall_cons in Hz as [Ha [Hb _]%Forall_cons]. eexists _, _. split_and!; try done; lia.
Qed.

Lemma id_key_loop_ok n counter index1 index2 key_data state :
  bytes256 state -> Forall (fun v => 0 <= v < 256) key_data -> 0 < Zlen key_data ->
  0 <= counter -> counter + Z.of_nat n <= 256 -> 0 <= index1 < Zlen key_data ->
  exists state', id_key_loop n counter index1 index2 key_data state = Some state' /\
    bytes256 state' /\ state' ≡ₚ state.
Proof.
  revert counter index1 index2 state. induction n as [|n IH];
    intros counter index1 index2 state Hs Hkd Hlen Hc Hn Hi; cbn [id_key_loop]; [by exists state|].
  destruct (lookup_lt_is_Some_2 key_data (Z.to_nat index1)) as [kd ->]; [unfold Zlen in *; lia|].
  destruct (bytes256_at state counter Hs) as (sc & -> & _); [lia|]. cbn [mbind option_bind].
  destruct (swap_ok state counter ((kd + sc + index2) mod 256) Hs) as (st & -> & Hst & Hp);
    [lia|by apply Z.mod_pos_bound|].
  cbn [mbind option_bind].
  destruct (IH (counter + 1) ((index1 + 1) mod Zlen key_data) ((kd + sc + index2) mod 256) st)
    as (st' & E & H1 & H2); try done; try lia; [by apply Z.mod_pos_bound|].
  exists st'. split_and!; [done|done|by rewrite H2].
Qed.

(** The bytes [randomize_key] may write. *)
Definition random_ok (random : list Z) : Prop :=
  length random = ARES_ID_KEY_LEN /\ Forall (fun v => 0 <= v < 256) random.

Lemma identity_from_31 :
  drop ARES_ID_KEY_LEN ((fun counter => Z.land counter 255) <$> seqZ 0 256) = seqZ 31 225.
Proof. vm_compute. reflexivity. Qed.

(** The bytes of the generator after [init_id_key], up to their order: those
    [randomize_key] wrote and, from the 32nd on, those of the identity. *)
Definition id_key_bytes (random : list Z) : list Z := random ++ seqZ 31 225.

Lemma id_key_bytes_ok random : random_ok random -> bytes256 (id_key_bytes random).
Proof.
  intros [Hl Hr]. split; [unfold id_key_bytes; by rewrite length_app, Hl|].
  apply Forall_app. split; [done|]. apply Forall_forall. intros v Hv%elem_of_seqZ. lia.
Qed.

Lemma wp_init_id_key random h :
  random_ok random -> 0 <= live h ->
  wp (init_id_key random) h (fun r h' => live h' = live h /\
    match r with
    | inl st => st = ARES_ENOMEM /\ oracle h <> []
    | inr key => key_ok key /\ rc4_state key ≡ₚ id_key_bytes random /\ (oracle h = [] -> oracle h' = [])
    end).
Proof.
  intros Hr Hh. unfold init_id_key. wp_step. apply wp_malloc; intros o Ho; cbn [negb]; [|by wp_step].
  rewrite (proj1 Hr), identity_from_31. fold (id_key_bytes random).
  destruct (id_key_loop_ok 256 0 0 0 (replicate ARES_ID_KEY_LEN 0) _ (id_key_bytes_ok random Hr))
    as (st & -> & Hst & Hp); [repeat constructor; lia|reflexivity|lia|reflexivity|by unfold Zlen|].
  wp_step. apply wp_free; [cbn; lia|]. wp_step. cbn. split; [lia|]. split; [|by split].
  split; cbn; [done|lia|lia].
Qed.

(** ** Looking up an identifier *)

(** A query in flight carries the identifier [id]. *)
Definition in_flight (id : Z) (c : chan) : Prop := exists q r, queries c !! q = Some r /\ qid r = id.

Lemma ewp_find_by_id l id c (Q : option Z -> chan -> Prop) :
  (forall q, q ∈ l -> is_Some (queries c !! q)) ->
  (forall q r, queries c !! q = Some r -> qid r = id -> Q (Some q) c) ->
  ((forall q r, q ∈ l -> queries c !! q = Some r -> qid r <> id) -> Q None c) ->
  ewp (find_by_id l id) c Q.
Proof.
  intros Hl Hs Hn. induction l as [|q l IH]; cbn [find_by_id].
  { ewp_step. apply Hn. by intros q r ?%elem_of_nil. }
  destruct (Hl q) as [r Hr]; [left|]. do 2 ewp_step.
  destruct (Z.eqb_spec (qid r) id) as [E|E]; [ewp_step; by eapply Hs|].
  apply IH; [intros p Hp; apply Hl; by right|].
  intros H. apply Hn. intros p x [->|Hp]%elem_of_cons Hx; [congruence|eauto].
Qed.

(** [find_query_by_id] finds a query by the identifier with its bytes swapped. *)
Lemma ewp_find_query_by_id base id c :
  ready base c ->
  ewp (find_query_by_id id) c (fun r c' => c' = c /\
    (is_Some r -> in_flight (swap16 id) c) /\ (r = None -> ~ in_flight (swap16 id) c)).
Proof.
  intros HR. pose proof (c_qid _ _ _ _ (proj1 (proj1 HR 0%nat))) as Ht.
  unfold find_query_by_id. do 2 ewp_step.
  destruct (Ht (Z.rem (swap16 id) ARES_QID_TABLE_SIZE)) as (_ & Hl & Hin). apply ewp_find_by_id.
  - exact Hl.
  - intros q r Hq Hi. split_and!; [done| |done]. intros _. by exists q, r.
  - intros Hno. split_and!; [done|by intros []|]. intros _ (q & r & Hq & Hi).
    apply (Hno q r); [|done|done]. apply (Hin q r Hq); [done|]. unfold qid_key. by rewrite Hi.
Qed.

(** The [n]-th identifier the generator draws. *)
Fixpoint drawn (n : nat) (key : rc4_key) : option Z :=
  match ares__generate_new_id key with
  | Some (key, id) => match n with O => Some id | S n' => drawn n' key end
  | None => None
  end.

(** Some identifier of the first [fuel] is not in flight. *)
Definition can_draw (fuel : nat) (key : rc4_key) (c : chan) : Prop :=
  exists n id, (n < fuel)%nat /\ drawn n key = Some id /\ ~ in_flight (swap16 id) c.

Lemma ewp_generate_unique_id base fuel key c :
  ready base c -> key_ok key -> can_draw fuel key c ->
  ewp (generate_unique_id fuel key) c (fun r c' => c' = c /\ key_ok r.1 /\ 0 <= r.2 < 65536 /\
    ~ in_flight (swap16 r.2) c).
Proof.
  revert key. induction fuel as [|fuel IH]; intros key HR Hk (n & id & Hn & Hd & Hf); [lia|].
  cbn [generate_unique_id]. destruct (generate_new_id_ok key Hk) as (key1 & id1 & E & Hk1 & Hid1 & _).
  rewrite E. ewp_step. eapply ewp_mono; [by apply (ewp_find_query_by_id base)|].
  intros [q|] c' (-> & Hs & Hno).
  - apply IH; [done|done|]. destruct n as [|n].
    + cbn [drawn] in Hd. rewrite E in Hd. injection Hd as ->. destruct Hf. apply Hs. by eexists.
    + cbn [drawn] in Hd. rewrite E in Hd. exists n, id. split_and!; [lia|done|done].
  - ewp_step. split_and!; [done|done|cbn; lia..|]. by apply Hno.
Qed.

(** ** [ares_query] and its callback *)

(** A block of the client is allocated or freed. *)
Lemma ready_shift d base c c' :
  ready base c -> sframe d c c' -> servers c' = servers c -> 0 <= base + d -> ready (base + d) c'.
Proof.
  intros (HI & Hst & Hca) F Hsv Hd. destruct (HI 0%nat) as (Hc & Hsq & Hrv). destruct F.
  assert (Hn : nservers c' = nservers c) by (unfold nservers; by rewrite Hsv).
  apply (ready_intro _ 0%nat); [|congruence|congruence]. split_and!.
  - destruct Hc. constructor; rewrite ?f_cfg, ?Hn, ?f_last_server, ?f_last_timeout, ?f_flags, ?f_all,
      ?f_cancelled, ?f_queries, ?f_qid, ?f_timeout, ?f_stolen, ?f_next, ?f_ended, ?f_servers; try done.
    + split; [done|]. destruct c_mem as [_ Hm]. rewrite Hsv in *. lia.
    + destruct c_sends. constructor; intros; rewrite ?f_sends; auto.
  - intros i s Hi. rewrite Hsv in Hi. specialize (Hsq i s Hi). unfold sendqs_ok in *. by rewrite f_queries.
  - intros i s Hi. rewrite Hsv in Hi. by apply (Hrv i).
Qed.

Lemma ready_live base c : ready base c -> 0 <= base /\ base <= live (mem c).
Proof.
  intros HR. destruct (c_mem _ _ _ _ (proj1 (proj1 HR 0%nat))) as [Hb Hm].
  pose proof (blocks_nonneg (servers c)). pose proof (Zlen_nonneg (all_queries c ++ cancelled c)). lia.
Qed.

Lemma sframe_alloc h c : sframe (live h - live (mem c)) c (set_mem h c).
Proof. constructor; cbn; try done. lia. Qed.

Lemma ready_alloc base h c :
  ready base c -> 0 <= base + (live h - live (mem c)) -> ready (base + (live h - live (mem c))) (set_mem h c).
Proof. intros HR Hb. eapply ready_shift; [done|apply sframe_alloc|done|done]. Qed.

Lemma ready_emit base e c :
  ready base c -> ended_of e = None -> (forall q, sent_of q e = 0) -> ready base (set_trace (e :: trace c) c).
Proof.
  intros HR He Hs. destruct (quiet_emit e c He Hs) as [F E]. rewrite <- (Z.add_0_r base).
  eapply ready_shift; [done|done|done|]. destruct (ready_live base c HR). lia.
Qed.

Lemma query_bytes_length ls dnsclass type id rd :
  Zlen (wire ls) + 1 <= MAXCDNAME -> Zlen (query_bytes ls dnsclass type id rd 0) <= 32767.
Proof.
  intros H. unfold MAXCDNAME in H. unfold query_bytes.
  rewrite !Zlen_app, query_header_length. unfold HFIXEDSZ, Zlen in *. cbn. lia.
Qed.

(** What [ares_query] leaves to be called back: the application directly, with
    nothing kept, or a [qquery] for the engine to call. *)
Definition query_post (base : Z) (cl : client) (arg : Z) (c : chan) (cl' : client) (c' : chan) : Prop :=
  key_ok (id_key cl') /\
  ((exists st, ready base c' /\ qqueries cl' = qqueries cl /\
      trace c' = EvCallback None arg st 0 [] :: trace c) \/
   (ready (base + 1) c' /\ qqueries cl' = <[next_qquery cl := arg]> (qqueries cl) /\
      0 <= next_id cl' < 65536 /\ ~ in_flight (swap16 (next_id cl')) c)).

Lemma ewp_fail base cl cl' arg st h c :
  ready base c -> live h = live (mem c) -> key_ok (id_key cl') -> qqueries cl' = qqueries cl ->
  ewp (fail_send arg st ;; mret cl') (set_mem h c) (query_post base cl arg c).
Proof.
  intros HR Hl Hk Hq. unfold fail_send. do 3 ewp_step. split; [done|]. left. exists st. split_and!; [|done|done].
  apply ready_emit; [|done|done]. rewrite <- (Z.add_0_r base).
  destruct (ready_live base c HR).
  replace 0 with (live h - live (mem c)) by lia. apply ready_alloc; [done|lia].
Qed.

Lemma ewp_ares_query base fuel cl name dnsclass type arg now c :
  ready base c -> now_ok now c -> key_ok (id_key cl) -> can_draw fuel (id_key cl) c ->
  ewp (ares_query fuel cl name dnsclass type arg now) c (query_post base cl arg c).
Proof.
  intros HR Hnow Hk Hd. unfold ares_query, flag. repeat ewp_step.
  destruct (ready_live base c HR) as [Hb Hl].
  rewrite (c_edns _ _ _ _ (proj1 (proj1 HR 0%nat))).
  eapply wp_mono; [by apply wp_ares_create_query; lia|]. intros [st|qbuf] h1 Hpost.
  { apply ewp_fail; [done| |done|done]. destruct st; try done; by destruct Hpost. }
  destruct Hpost as (Hl1 & _ & ls & _ & Hw & ->). set (qbuf := query_bytes _ _ _ _ _ _).
  pose proof (ready_alloc base h1 c HR) as HR1. rewrite Hl1 in HR1.
  replace (live (mem c) + 1 - live (mem c)) with 1 in HR1 by lia. specialize (HR1 ltac:(lia)).
  ewp_step. eapply ewp_mono; [apply (ewp_generate_unique_id (base + 1)); [exact HR1|done|exact Hd]|].
  intros [key id] c' (-> & Hk1 & Hid & Hfl). cbn [fst snd] in *.
  do 2 ewp_step. apply wp_malloc; intros o _; cbn [negb].
  - set (h2 := Heap (live (mem (set_mem h1 c)) + 1) o).
    pose proof (ready_alloc (base + 1) h2 (set_mem h1 c) HR1) as HR2. cbn [live h2 mem set_mem] in HR2.
    replace (live h1 + 1 - live h1) with 1 in HR2 by lia. specialize (HR2 ltac:(lia)).
    ewp_step. eapply ewp_mono; [apply (ewp_ares_send (base + 1 + 1)); [exact HR2|by destruct Hnow|by apply query_bytes_length]|].
    intros _ c3 [HR3 _]. destruct (ready_live _ _ HR3). do 2 ewp_step. apply wp_free; [lia|].
    ewp_step. split; [done|]. right. split_and!; [|done|cbn; lia..|done].
    replace (base + 1) with (base + 1 + 1 + (live (Heap (live (mem c3) - 1) (oracle (mem c3))) - live (mem c3)))
      by (cbn; lia). apply ready_alloc; [done|cbn; lia].
  - do 2 ewp_step. apply wp_free; [cbn; lia|].
    refine (ewp_fail base cl (Client id key _ _) arg _ (Heap (live h1 - 1) o) c HR _ Hk1 eq_refl). cbn. lia.
Qed.

(** The status the application is given for an answer. *)
Definition final_status (st : status) (abuf : list Z) (st' : status) : Prop :=
  if decide (st = ARES_SUCCESS)
  then exists b ancount, byte_at abuf 3 = Some b /\ u16_at abuf 6 ancount /\
         st' = convert_rcode (Z.land b 15) ancount st
  else st' = st.

Lemma ewp_final_status st abuf c (Q : status -> chan -> Prop) :
  (st = ARES_SUCCESS -> HFIXEDSZ <= Zlen abuf) -> (forall st', final_status st abuf st' -> Q st' c) ->
  ewp (if decide (st = ARES_SUCCESS) then
         rcode ← lift (DNS_HEADER_RCODE abuf);
         ancount ← lift (DNS_HEADER_ANCOUNT abuf);
         mret (convert_rcode rcode ancount st)
       else mret st) c Q.
Proof.
  intros Hl HQ. unfold final_status in HQ. destruct (decide (st = ARES_SUCCESS)) as [E|E]; [|ewp_step; by apply HQ].
  specialize (Hl E). unfold HFIXEDSZ, DNS_HEADER_RCODE, DNS_HEADER_ANCOUNT in *.
  do 2 ewp_step. apply wp_bind, wp_get_byte; [lia|]. intros b Hb _. apply wp_ret.
  do 2 ewp_step. apply wp_u16; [lia..|]. intros an Han _. ewp_step.
  replace (set_mem _ _) with c by (by destruct c). apply HQ. eauto 10.
Qed.

Lemma ewp_qcallback base cl qquery arg st timeouts abuf c :
  ready (base + 1) c -> 0 <= base -> qqueries cl !! qquery = Some arg ->
  (st = ARES_SUCCESS -> HFIXEDSZ <= Zlen abuf) ->
  ewp (qcallback cl qquery st timeouts abuf) c (fun cl' c' =>
    ready base c' /\ (exists st', final_status st abuf st' /\
      trace c' = EvCallback None arg st' timeouts abuf :: trace c) /\
    cl' = Client (next_id cl) (id_key cl) (delete qquery (qqueries cl)) (next_qquery cl)).
Proof.
  intros HR Hb Hq Hl. unfold qcallback. rewrite Hq. ewp_step. apply ewp_final_status; [done|].
  intros st' Hst. do 4 ewp_step. set (c1 := set_trace _ c).
  assert (HR1 : ready (base + 1) c1) by (by apply ready_emit).
  destruct (ready_live _ _ HR1). apply wp_free; [lia|]. ewp_step. split_and!; [|by exists st'|done].
  set (h := Heap _ _). replace base with (base + 1 + (live h - live (mem c1))) at 1 by (cbn; lia).
  apply ready_alloc; [done|cbn; lia].
Qed.

(** ** What is proved *)

Lemma drawn_ok n key : key_ok key -> exists id, drawn n key = Some id /\ 0 <= id < 65536.
Proof.
  revert key. induction n as [|n IH]; intros key Hk; cbn [drawn];
    destruct (generate_new_id_ok key Hk) as (key' & id & -> & Hk' & Hid & _); [by exists id|by apply IH].
Qed.

(** C32. The generator of identifiers is well-formed: whatever bytes
    [randomize_key] writes, [init_id_key] releases its block and either reports
    [ARES_ENOMEM] or leaves 256 bytes, a rearrangement of the random bytes and
    of 31 to 255, from which every number of draws reads inside the state and
    gives a 16-bit identifier. *)
Theorem id_generator_well_formed random h :
  random_ok random -> 0 <= live h ->
  wp (init_id_key random) h (fun r h' => live h' = live h /\
    match r with
    | inl st => st = ARES_ENOMEM /\ oracle h <> []
    | inr key => rc4_state key ≡ₚ id_key_bytes random /\
        forall n, exists id, drawn n key = Some id /\ 0 <= id < 65536
    end).
Proof.
  intros Hr Hh. eapply wp_mono; [by apply wp_init_id_key|]. intros [st|key] h' (Hl & H); (split; [done|]).
  - done.
  - destruct H as (Hk & Hp & _). split; [done|]. intros n. by apply drawn_ok.
Qed.

(** [ares_query] is safe and accounts for every block. On a ready channel,
    if the generator draws an identifier that the search for running queries
    does not find within [fuel] draws, it returns; either it called the
    application back at once, and kept nothing, or it handed to [ares_send] a
    query whose callback argument is a new [qquery] that holds the
    application's argument, the only block it keeps. In that case the next
    identifier is one the search did not find. *)
Theorem ares_query_correct base fuel cl name dnsclass type arg now c :
  ready base c -> now_ok now c -> key_ok (id_key cl) -> can_draw fuel (id_key cl) c ->
  ewp (ares_query fuel cl name dnsclass type arg now) c (fun cl' c' => key_ok (id_key cl') /\
    ((exists st, ready base c' /\ qqueries cl' = qqueries cl /\
        trace c' = EvCallback None arg st 0 [] :: trace c) \/
     (ready (base + 1) c' /\ qqueries cl' = <[next_qquery cl := arg]> (qqueries cl) /\
        0 <= next_id cl' < 65536 /\ ~ in_flight (swap16 (next_id cl')) c))).
Proof. intros. by apply ewp_ares_query. Qed.

(** [qcallback] reports to the application once, with the status it was
    given or, for an answer, the one its response code and its number of
    answers stand for, and releases the [qquery]; the answer's header is read
    inside the message. *)
Theorem qcallback_reports base cl qquery arg st timeouts abuf c :
  ready (base + 1) c -> 0 <= base -> qqueries cl !! qquery = Some arg ->
  (st = ARES_SUCCESS -> HFIXEDSZ <= Zlen abuf) ->
  ewp (qcallback cl qquery st timeouts abuf) c (fun cl' c' =>
    ready base c' /\ (exists st', final_status st abuf st' /\
      trace c' = EvCallback None arg st' timeouts abuf :: trace c) /\
    cl' = Client (next_id cl) (id_key cl) (delete qquery (qqueries cl)) (next_qquery cl)).
Proof. intros. by apply ewp_qcallback. Qed.

(** *** Concrete generators and channels *)

Definition ex_key (random : list Z) : rc4_key :=
  match init_id_key random (Heap 0 []) with Ret (inr key) _ => key | _ => RC4 [] 0 0 end.

Lemma ex_random_ok b : 0 <= b < 256 -> random_ok (replicate ARES_ID_KEY_LEN b).
Proof. intros H. split; [done|]. by apply Forall_replicate. Qed.

Lemma ex_key_ok b : 0 <= b < 256 -> key_ok (ex_key (replicate ARES_ID_KEY_LEN b)).
Proof.
  intros H. unfold ex_key.
  destruct (wp_outcome _ _ _ (wp_init_id_key _ (Heap 0 []) (ex_random_ok b H) ltac:(cbn; lia)))
    as ([st|key] & h & -> & _ & Hk); [by destruct Hk as [_ []]|apply Hk].
Qed.

Lemma id_generator_well_formed_witness :
  exists key h, init_id_key (replicate ARES_ID_KEY_LEN 7) (Heap 0 []) = Ret (inr key) h /\
    drawn 3 key = Some 33677 /\ rc4_state key ≡ₚ id_key_bytes (replicate ARES_ID_KEY_LEN 7).
Proof.
  destruct (wp_outcome _ _ _ (id_generator_well_formed _ (Heap 0 [])
    (ex_random_ok 7 ltac:(lia)) ltac:(cbn; lia))) as (r & h & E & _ & H).
  destruct r as [st|key]; [by destruct H as [_ []]|]. exists key, h. split; [exact E|].
  split; [|exact (proj1 H)].
  assert (Hd : match init_id_key (replicate ARES_ID_KEY_LEN 7) (Heap 0 []) with
          | Ret (inr k) _ => drawn 3 k | _ => None end = Some 33677) by (vm_compute; reflexivity).
  rewrite E in Hd. exact Hd.
Defined.

Definition ex_client : client := Client 7 (ex_key (replicate ARES_ID_KEY_LEN 7)) ∅ 1.

Lemma ex_fresh zs : forall id, ~ in_flight id (ex_chan 0 zs []).
Proof. intros id (q & r & H & _). cbn in H. by rewrite lookup_empty in H. Qed.

Lemma ex_fresh_draw zs : can_draw 1 (id_key ex_client) (ex_chan 0 zs []).
Proof.
  exists 0%nat. destruct (drawn_ok 0 (id_key ex_client)) as (id & Hd & _); [apply ex_key_ok; lia|].
  exists id. split; [lia|]. split; [done|apply ex_fresh].
Qed.

(** A query for [a.b] on a fresh channel is in flight and has a [qquery]. *)
Lemma ares_query_correct_witness :
  exists cl c, ares_query 1 ex_client ex_name 1 1 42 (TV 100 5) (ex_chan 0 ex_ints []) = EOk cl c /\
    next_id cl = 28144 /\ qqueries cl = {[1 := 42]} /\ live (mem c) = 4 /\ key_ok (id_key cl).
Proof.
  destruct (ewp_returns _ _ _ (ares_query_correct 0 1 ex_client ex_name 1 1 42 (TV 100 5)
    (ex_chan 0 ex_ints [])
    (init_ready ex_config 0 [ex_addr 1; ex_addr 2] (TV 100 0) (Heap 0 []) ex_ints [] ex_config_ok
      eq_refl ltac:(cbn; lia) ltac:(cbn; lia))
    ltac:(split; vm_compute; intuition discriminate) (ex_key_ok 7 ltac:(lia)) (ex_fresh_draw _)))
    as (cl & c & E & Hk & _); [by_computation|].
  exists cl, c. split; [exact E|].
  assert (Hv : match ares_query 1 ex_client ex_name 1 1 42 (TV 100 5) (ex_chan 0 ex_ints []) with
    | EOk cl c => (next_id cl, qqueries cl, live (mem c)) | _ => (0, ∅, 0) end = (28144, {[1 := 42]}, 4))
    by by_computation.
  rewrite E in Hv. injection Hv as H1 H2 H3. split_and!; [exact H1|exact H2|exact H3|exact Hk].
Defined.

(** An answer that says the name does not exist, to a [qquery] held by a channel
    that is otherwise idle. *)
Definition ex_nxdomain : list Z := [0; 7; 129; 131; 0; 1; 0; 0; 0; 0; 0; 0].

Lemma qcallback_reports_witness :
  exists cl c, qcallback (Client 7 (ex_key []) {[1 := 42]} 2) 1 ARES_SUCCESS 3 ex_nxdomain
      (set_mem (Heap 1 []) (ex_chan 0 [] [])) = EOk cl c /\
    trace c = [EvCallback None 42 ARES_ENOTFOUND 3 ex_nxdomain] /\ live (mem c) = 0 /\ ready 0 c.
Proof.
  assert (HR : ready (0 + 1) (set_mem (Heap 1 []) (ex_chan 0 [] []))).
  { exact (init_ready ex_config 0 [ex_addr 1; ex_addr 2] (TV 100 0) (Heap 1 []) [] [] ex_config_ok
      eq_refl ltac:(cbn; lia) ltac:(cbn; lia)). }
  destruct (ewp_returns _ _ _ (qcallback_reports 0 (Client 7 (ex_key []) {[1 := 42]} 2) 1 42
    ARES_SUCCESS 3 ex_nxdomain _ HR ltac:(lia) (lookup_singleton_eq 1 42) ltac:(vm_compute; discriminate)))
    as (cl & c & E & HR' & _); [by_computation|].
  exists cl, c. split; [exact E|].
  assert (Hv : match qcallback (Client 7 (ex_key []) {[1 := 42]} 2) 1 ARES_SUCCESS 3 ex_nxdomain
      (set_mem (Heap 1 []) (ex_chan 0 [] [])) with
    | EOk cl c => (trace c, live (mem c)) | _ => ([], 1) end
    = ([EvCallback None 42 ARES_ENOTFOUND 3 ex_nxdomain], 0)) by by_computation.
  rewrite E in Hv. injection Hv as H1 H2. split_and!; [exact H1|exact H2|exact HR'].
Defined.

(** *** Two flaws of the identifiers *)

(** A query in flight with identifier 28144, the first one the generator
    draws. *)
Definition ex_running : chan :=
  ex_state 0 ex_ints [] [OpSend (109 :: 240 :: drop 2 ex_query) 1 (TV 100 5)].

(** The search for a running query does not keep identifiers apart.
    [find_query_by_id] stores the identifier in network order into a host
    variable and compares that with the host order of [q->qid], so that on a
    little-endian machine [generate_unique_id] returns an identifier that a
    running query has. *)
Theorem generate_unique_id_collides :
  ready 0 ex_running /\ in_flight 28144 ex_running /\
  exists key, generate_unique_id 1 (id_key ex_client) ex_running = EOk (key, 28144) ex_running.
Proof.
  split_and!.
  - apply ex_ready; [reflexivity| |by_computation]. cbn. unfold Zlen. cbn. repeat split; lia.
  - assert (H : qid <$> queries ex_running !! 1 = Some 28144) by by_computation.
    destruct (queries ex_running !! 1) as [r|] eqn:E; [|done]. injection H as H. by exists 1, r.
  - eexists. vm_compute. reflexivity.
Qed.

(** The generator is seeded with fewer different bytes than a permutation has:
    [init_id_key] lets [randomize_key] overwrite the state instead of the key,
    which stays zero. When the random bytes are equal, thirty values never
    occur in the state again. *)
Theorem id_key_not_a_permutation :
  forall v, 1 <= v < 31 -> v ∉ rc4_state (ex_key (replicate ARES_ID_KEY_LEN 0)).
Proof.
  intros v Hv. assert (H : forallb (fun x => (x =? 0) || (31 <=? x))
    (rc4_state (ex_key (replicate ARES_ID_KEY_LEN 0))) = true) by by_computation.
  intros Hin. apply list_elem_of_In in Hin. rewrite forallb_forall in H. apply H in Hin. lia.
Qed.
