(* ===== verification/AddrSort.v ===== *)
(** * The sort list (c-ares)

    Models [get_address_index], [get6_address_index], [sort_addresses] and
    [sort6_addresses] of src/Scylla-moon/seastar/c-ares/ares_gethostbyname.c and
    [struct apattern] of ares_private.h. The two sorts are the same insertion
    sort, here parameterised by the index function, on the addresses that
    [h_addr_list] points to, each a list of bytes in network order. *)

From S2P Require Import Prelude DnsWire ParseHost InetAddr InetAddr6 ReadLine Search.
Open Scope Z_scope.

Definition addr_size (f : family) : Z := match f with AF_INET => 4 | AF_INET6 => 16 end.

(** The member of the union [mask] that was written. *)
Inductive pattern_mask := PATTERN_MASK (addr : list Z) | PATTERN_CIDR (bits : Z).

Record apattern := Apattern { ap_addr : list Z; ap_mask : pattern_mask; ap_family : family }.

#[export] Instance pattern_mask_eq_dec : EqDecision pattern_mask.
Proof. solve_decision. Defined.

#[export] Instance apattern_eq_dec : EqDecision apattern.
Proof. solve_decision. Defined.

(** [mask.bits], which is read whatever member was written; the machine is
    little-endian. *)
Definition mask_bits (p : apattern) : M Z :=
  match ap_mask p with
  | PATTERN_CIDR bits => mret bits
  | PATTERN_MASK m => b0 ← get_byte m 0; b1 ← get_byte m 1; mret (b0 + 256 * b1)
  end.

(** [(addr->s_addr & mask.addr4.s_addr) == addrV4.s_addr], or the comparison of
    the first bits *)
Definition pattern_matches (p : apattern) (addr : list Z) : M bool :=
  match ap_mask p with
  | PATTERN_MASK m => mret (bool_decide (zip_with Z.land addr m = ap_addr p))
  | PATTERN_CIDR bits => x ← ares__bitncmp addr (ap_addr p) bits; mret (x =? 0)
  end.

Fixpoint address_index (i : Z) (addr : list Z) (sortlist : list apattern) : M Z :=
  match sortlist with
  | [] => mret i
  | p :: l =>
      if negb (bool_decide (ap_family p = AF_INET)) then address_index (i + 1) addr l
      else b ← pattern_matches p addr; if (b : bool) then mret i else address_index (i + 1) addr l
  end.

Definition get_address_index (addr : list Z) (sortlist : list apattern) : M Z := address_index 0 addr sortlist.

Fixpoint address6_index (i : Z) (addr : list Z) (sortlist : list apattern) : M Z :=
  match sortlist with
  | [] => mret i
  | p :: l =>
      if negb (bool_decide (ap_family p = AF_INET6)) then address6_index (i + 1) addr l
      else bits ← mask_bits p; x ← ares__bitncmp addr (ap_addr p) bits;
           if x =? 0 then mret i else address6_index (i + 1) addr l
  end.

Definition get6_address_index (addr : list Z) (sortlist : list apattern) : M Z := address6_index 0 addr sortlist.

(** [h_addr_list[i]] read and overwritten *)
Definition load (l : list (list Z)) (i : nat) : M (list Z) :=
  match l !! i with Some a => mret a | None => undefined end.

Definition store (l : list (list Z)) (i : nat) (a : list Z) : M (list (list Z)) :=
  if (i <? length l)%nat then mret (<[i := a]> l) else undefined.

Section sort.
Variable index : list Z -> M Z.

(** The loop on [i2]; [k] is [i2 + 1]. *)
Fixpoint move_back (k : nat) (a1 : list Z) (ind1 : Z) (l : list (list Z)) : M (list (list Z)) :=
  match k with
  | O => store l 0 a1
  | S i2 =>
      a2 ← load l i2;
      ind2 ← index a2;
      if ind2 <=? ind1 then store l (S i2) a1
      else l ← store l (S i2) a2; move_back i2 a1 ind1 l
  end.

(** The loop on [i1], until the null pointer [n] places on. *)
Fixpoint sort_loop (n i1 : nat) (l : list (list Z)) : M (list (list Z)) :=
  match n with
  | O => mret l
  | S n' =>
      a1 ← load l i1;
      ind1 ← index a1;
      l ← move_back i1 a1 ind1 l;
      sort_loop n' (S i1) l
  end.

Definition insertion_sort (l : list (list Z)) : M (list (list Z)) := sort_loop (length l) 0 l.
End sort.

Definition set_addr_list (l : list (list Z)) (host : hostent) : hostent :=
  Hostent (h_name host) (h_aliases host) (h_addrtype host) (h_length host) l.

Definition sort_addresses (host : hostent) (sortlist : list apattern) : M hostent :=
  l ← insertion_sort (fun a => get_address_index a sortlist) (h_addr_list host);
  mret (set_addr_list l host).

Definition sort6_addresses (host : hostent) (sortlist : list apattern) : M hostent :=
  l ← insertion_sort (fun a => get6_address_index a sortlist) (h_addr_list host);
  mret (set_addr_list l host).

(** ** The sort list of the configuration: ares_init.c *)

Definition ch_semi : Z := 59.

(** [memcpy] into a buffer of [cap] bytes and the final NUL *)
Definition copy_to (cap : Z) (src : list Z) : M (list Z) :=
  if Zlen src <? cap then mret src else undefined.

(** The characters before the first that satisfies [stop], and the rest. *)
Fixpoint span (stop : Z -> bool) (l : list Z) : list Z * list Z :=
  match l with
  | c :: l' => if stop c then ([], l) else let '(a, b) := span stop l' in (c :: a, b)
  | [] => ([], [])
  end.

Definition ends_item (c : Z) : bool := (c =? ch_semi) || ISSPACE c.

(** The mask of the class of an address in network order *)
Definition natural_mask (addr : list Z) : list Z :=
  let b := hd 0 addr in
  if b <? 128 then [255; 0; 0; 0] else if b <? 192 then [255; 255; 0; 0] else [255; 255; 255; 0].

Section config.
(** The library's [inet_addr]: the address, or [None] for [INADDR_NONE]. *)
Variable inet_addr : list Z -> option (list Z).

Definition broadcast : list Z := [50; 53; 53; 46; 50; 53; 53; 46; 50; 53; 53; 46; 50; 53; 53].

Definition ip_addr (ipbuf : list Z) (len : Z) : option (list Z) :=
  if 15 <? len then None
  else match inet_addr ipbuf with
       | Some a => Some a
       | None => if bool_decide (ipbuf = broadcast) then Some [255; 255; 255; 255] else None
       end.

(** [sortlist_alloc]: the block grows from a null pointer, the empty list. *)
Definition sortlist_alloc (sortlist : list apattern) (pat : apattern) : M (option (list apattern)) :=
  ok ← (match sortlist with [] => c_malloc | _ => c_realloc end);
  mret (if (ok : bool) then Some (sortlist ++ [pat]) else None).

(** [ares_inet_net_pton(...) > 0]: the bits and the bytes written *)
Definition net_pton (f : family) (src : list Z) : M (option (Z * list Z)) :=
  r ← ares_inet_net_pton (Some f) src (addr_size f);
  mret (match r with
        | inr (bits, bytes) => if 0 <? bits then Some (bits, bytes) else None
        | inl _ => None
        end).

(** The pattern an item stands for: the address text, and after a slash the
    prefix length or mask. *)
Definition item_pattern (ip : list Z) (slash : option (list Z)) : M (option apattern) :=
  ipbuf ← copy_to 16 ip;
  ipbufpfx ← (match slash with Some m => copy_to 32 (ip ++ 47 :: m) | None => mret [] end);
  r ← net_pton AF_INET6 (match slash with Some _ => ipbufpfx | None => ipbuf end);
  match r with
  | Some (bits, bytes) => mret (Some (Apattern bytes (PATTERN_CIDR (uwrap 16 bits)) AF_INET6))
  | None =>
      r ← (match slash with Some _ => net_pton AF_INET ipbufpfx | None => mret None end);
      match r with
      | Some (bits, bytes) => mret (Some (Apattern bytes (PATTERN_CIDR (uwrap 16 bits)) AF_INET))
      | None =>
          let str := default ip slash in
          match ip_addr ipbuf (Zlen str) with
          | None => mret None
          | Some addr =>
              match slash with
              | None => mret (Some (Apattern addr (PATTERN_MASK (natural_mask addr)) AF_INET))
              | Some m =>
                  ipbuf ← copy_to 16 m;
                  mret (Some (Apattern addr
                    (PATTERN_MASK (default (natural_mask addr) (ip_addr ipbuf (Zlen m)))) AF_INET))
              end
          end
      end
  end.

Fixpoint config_sortlist (fuel : nat) (sortlist : list apattern) (str : list Z)
    : M (status * list apattern) :=
  match fuel with
  | O => no_fuel
  | S fuel' =>
      match str with
      | [] => mret (ARES_SUCCESS, sortlist)
      | c :: _ =>
          if c =? ch_semi then mret (ARES_SUCCESS, sortlist)
          else
            let '(ip, q) := span (fun c => (c =? 47) || ends_item c) str in
            let '(slash, q) :=
              match q with
              | c :: str2 => if c =? 47 then let '(m, q) := span ends_item str2 in (Some m, q) else (None, q)
              | [] => (None, q)
              end in
            pat ← item_pattern ip slash;
            match pat with
            | Some pat =>
                r ← sortlist_alloc sortlist pat;
                match r with
                | None =>
                    (match sortlist with [] => mret () | _ => c_free end) ;; mret (ARES_ENOMEM, [])
                | Some sortlist => config_sortlist fuel' sortlist (skip_spaces q)
                end
            | None =>
                let '(_, q) := span ends_item q in
                config_sortlist fuel' sortlist (skip_spaces q)
            end
      end
  end.

(** [ares_set_sortlist] on a channel whose sort list is [old] *)
Definition ares_set_sortlist (old : list apattern) (sortstr : list Z) : M (status * list apattern) :=
  '(st, sortlist) ← config_sortlist (S (length sortstr)) [] sortstr;
  if bool_decide (st = ARES_SUCCESS) && negb (bool_decide (sortlist = [])) then
    (match old with [] => mret () | _ => c_free end) ;; mret (st, sortlist)
  else mret (st, old).
End config.

(** ** Specification *)

(** The address falls under the pattern. *)
Definition under (addr : list Z) (p : apattern) : Prop :=
  match ap_mask p with
  | PATTERN_MASK m => zip_with Z.land addr m = ap_addr p
  | PATTERN_CIDR bits => prefix addr bits = prefix (ap_addr p) bits
  end.

#[export] Instance under_dec addr p : Decision (under addr p).
Proof. unfold under. destruct (ap_mask p); apply _. Defined.

(** The place of the first pattern of the family that the address falls
    under, or the length of the list. *)
Definition rank (f : family) (sortlist : list apattern) (addr : list Z) : Z :=
  match list_find (fun p => ap_family p = f /\ under addr p) sortlist with
  | Some (i, _) => Z.of_nat i
  | None => Zlen sortlist
  end.

(** [l'] is [l] sorted by [key], equal keys in their order. *)
Definition stable_sort {A} (key : A -> Z) (l l' : list A) : Prop :=
  StronglySorted (fun a b => key a <= key b) l' /\ l' ≡ₚ l /\
  forall v, filter (fun a => key a = v) l' = filter (fun a => key a = v) l.

(** A pattern whose prefix length is within its address; an IPv6 one has a
    prefix length. *)
Definition pattern_ok (p : apattern) : Prop :=
  match ap_mask p with
  | PATTERN_MASK m => ap_family p = AF_INET
  | PATTERN_CIDR bits => 0 <= bits <= 8 * addr_size (ap_family p) /\ bits <= 8 * Zlen (ap_addr p)
  end.

(** ** Proofs about the sort *)

Lemma wp_load l i a h (Q : list Z -> heap -> Prop) : l !! i = Some a -> Q a h -> wp (load l i) h Q.
Proof. unfold load. by intros ->. Qed.

Lemma wp_store p x rest a h (Q : list (list Z) -> heap -> Prop) :
  Q (p ++ a :: rest) h -> wp (store (p ++ x :: rest) (length p) a) h Q.
Proof.
  intros HQ. unfold store. rewrite length_app. cbn [length].
  destruct (Nat.ltb_spec (length p) (length p + S (length rest))); [|lia]. wp_step.
  rewrite insert_app_r_alt, Nat.sub_diag by lia. done.
Qed.

Section sorted.
Context (index : list Z -> M Z) (key : list Z -> Z) (ok : list Z -> Prop).
Hypothesis index_key : forall a h, ok a -> wp (index a) h (fun v h' => h' = h /\ v = key a).

(** [move_back] puts the address after the last of [p] whose key is not larger. *)
Lemma wp_move_back p x rest a1 h :
  Forall ok p ->
  wp (move_back index (length p) a1 (key a1) (p ++ x :: rest)) h (fun l h' => h' = h /\
    exists p1 p2, p = p1 ++ p2 /\ l = p1 ++ a1 :: p2 ++ rest /\
      Forall (fun b => key a1 < key b) p2 /\ match last p1 with Some b => key b <= key a1 | None => True end).
Proof.
  intros Hok. revert x rest. induction p as [|a2 p IH] using rev_ind; intros x rest.
  { cbn [length move_back]. apply (wp_store [] x rest). split; [done|]. by exists [], []. }
  apply Forall_app in Hok as [Hp Ha2]. apply Forall_cons in Ha2 as [Ha2 _].
  rewrite length_app, Nat.add_1_r. cbn [move_back].
  wp_step. eapply wp_load; [rewrite <- app_assoc; apply list_lookup_middle; done|].
  wp_step. eapply wp_mono; [by apply index_key|]. intros v h' [-> ->].
  assert (Hst : forall a (Q : list (list Z) -> heap -> Prop), Q (p ++ a2 :: a :: rest) h ->
    wp (store ((p ++ [a2]) ++ x :: rest) (S (length p)) a) h Q).
  { intros a Q HQ. replace (S (length p)) with (length (p ++ [a2])) by (rewrite length_app; cbn; lia).
    apply wp_store. by rewrite <- app_assoc. }
  destruct (Z.leb_spec (key a2) (key a1)).
  - apply Hst. split; [done|]. exists (p ++ [a2]), []. rewrite last_snoc. split_and!; [by rewrite app_nil_r| |constructor|done].
    by rewrite <- app_assoc.
  - wp_step. apply Hst. eapply wp_mono; [by apply (IH Hp a2 (a2 :: rest))|].
    intros l h' (-> & p1 & p2 & -> & -> & Hgt & Hle). split; [done|]. exists p1, (p2 ++ [a2]).
    split_and!; [by rewrite app_assoc|by rewrite <- app_assoc| |done]. apply Forall_app. by split; [|repeat constructor].
Qed.

(** One step of an insertion sort. *)
Lemma sorted_insert p1 p2 a1 :
  StronglySorted (fun a b => key a <= key b) (p1 ++ p2) -> Forall (fun b => key a1 < key b) p2 ->
  match last p1 with Some b => key b <= key a1 | None => True end ->
  stable_sort key ((p1 ++ p2) ++ [a1]) (p1 ++ a1 :: p2).
Proof.
  intros Hs Hgt Hle. apply StronglySorted_app in Hs as (H12 & H1 & H2). split_and!.
  - apply StronglySorted_app_2; [|done|].
    + assert (Hall : forall b, b ∈ p1 -> key b <= key a1).
      { intros b Hb. destruct p1 as [|c p1 _] using rev_ind; [by apply elem_of_nil in Hb|].
        rewrite last_snoc in Hle. apply elem_of_app in Hb as [Hb|Hb]; [|apply list_elem_of_singleton in Hb as ->; done].
        apply StronglySorted_app in H1 as (H1 & _). specialize (H1 b c Hb ltac:(by apply list_elem_of_singleton)). lia. }
      intros b c Hb [->|Hc]%elem_of_cons; [by apply Hall|]. by apply H12.
    + constructor; [done|]. eapply Forall_impl; [exact Hgt|]. cbn. lia.
  - rewrite <- app_assoc. f_equiv. apply Permutation_cons_append.
  - intros v. rewrite <- app_assoc, !filter_app, !filter_cons, filter_nil. f_equal. case_decide as Ev.
    + replace (filter (fun a => key a = v) p2) with (@nil (list Z)); [done|]. symmetry.
      clear Hle H12 H2. induction Hgt as [|b p2 Hb Hgt IH]; [done|]. rewrite filter_cons_False by lia. done.
    + by rewrite app_nil_r.
Qed.

(** The loop, when the first [i1] addresses are sorted. *)
Lemma wp_sort_loop n p rest p' h :
  n = length rest -> Forall ok (p ++ rest) -> stable_sort key p p' ->
  wp (sort_loop index n (length p) (p' ++ rest)) h (fun l h' => h' = h /\ stable_sort key (p ++ rest) l).
Proof.
  revert n p p'. induction rest as [|a1 rest IH]; intros n p p' -> Hok Hs; cbn [length sort_loop].
  { wp_step. rewrite !app_nil_r. done. }
  pose proof Hs as (Hsort & Hperm & Hst).
  apply Forall_app in Hok as [Hp [Ha Hr]%Forall_cons].
  assert (Hlen : length p = length p') by (by rewrite Hperm).
  wp_step. eapply wp_load; [rewrite Hlen; by apply list_lookup_middle|].
  wp_step. eapply wp_mono; [by apply index_key|]. intros v h' [-> ->].
  wp_step. rewrite Hlen. eapply wp_mono; [apply wp_move_back; by rewrite Hperm|].
  intros l h' (-> & p1 & p2 & -> & -> & Hgt & Hle).
  pose proof (sorted_insert p1 p2 a1 Hsort Hgt Hle) as (Hs1 & Hs2 & Hs3).
  replace (S (length (p1 ++ p2))) with (length (p ++ [a1])) by (rewrite length_app, Hlen; cbn; lia).
  replace (p1 ++ a1 :: p2 ++ rest) with ((p1 ++ a1 :: p2) ++ rest) by (by rewrite <- app_assoc).
  replace (p ++ a1 :: rest) with ((p ++ [a1]) ++ rest) by (by rewrite <- app_assoc).
  apply IH; [done| |].
  - rewrite <- app_assoc. apply Forall_app. split; [done|]. by constructor.
  - split_and!; [done|by rewrite Hs2, Hperm|]. intros v. rewrite Hs3. by rewrite !filter_app, <- Hst, filter_app.
Qed.

Lemma wp_insertion_sort l h :
  Forall ok l -> wp (insertion_sort index l) h (fun l' h' => h' = h /\ stable_sort key l l').
Proof.
  intros Hok. apply (wp_sort_loop (length l) [] l [] h); [done|done|]. split_and!; [constructor|done|done].
Qed.
End sorted.

(** ** Proofs about the index *)

Lemma rank_cons f p l addr :
  rank f (p :: l) addr = if decide (ap_family p = f /\ under addr p) then 0 else rank f l addr + 1.
Proof.
  unfold rank. cbn [list_find]. case_decide; [done|].
  destruct (list_find _ l) as [[i q]|]; cbn; [lia|]. unfold Zlen. cbn [length]. lia.
Qed.

Lemma wp_bitncmp_zero l r n h (Q : bool -> heap -> Prop) :
  0 <= n <= 8 * Zlen l -> n <= 8 * Zlen r -> Q (bool_decide (prefix l n = prefix r n)) h ->
  wp (x ← ares__bitncmp l r n; mret (x =? 0)) h Q.
Proof.
  intros Hl Hr HQ. wp_step. eapply wp_mono; [by apply wp_bitncmp|]. intros x h' [-> Hx]. wp_step.
  replace (x =? 0) with (bool_decide (prefix l n = prefix r n)); [done|].
  case_bool_decide; symmetry; [apply Z.eqb_eq|apply Z.eqb_neq]; lia.
Qed.

Lemma wp_pattern_matches p addr h (Q : bool -> heap -> Prop) :
  pattern_ok p -> Zlen addr = addr_size (ap_family p) -> Q (bool_decide (under addr p)) h ->
  wp (pattern_matches p addr) h Q.
Proof.
  intros Hp Ha HQ. unfold pattern_matches, pattern_ok in *. destruct p as [pa [m|bits] f]; unfold under in HQ;
    cbn [ap_addr ap_mask ap_family] in *.
  - wp_step. exact HQ.
  - apply wp_bitncmp_zero; [lia|lia|exact HQ].
Qed.

Lemma wp_address_index addr l i h :
  Forall pattern_ok l -> Zlen addr = 4 ->
  wp (address_index i addr l) h (fun v h' => h' = h /\ v = i + rank AF_INET l addr).
Proof.
  intros Hl Ha. revert i. induction Hl as [|p l Hp Hl IH]; intros i; cbn [address_index].
  { wp_step. split; [done|]. unfold rank. cbn. unfold Zlen. cbn. lia. }
  assert (Hgo : ~ (ap_family p = AF_INET /\ under addr p) ->
    wp (address_index (i + 1) addr l) h (fun v h' => h' = h /\ v = i + rank AF_INET (p :: l) addr)).
  { intros Hn. eapply wp_mono; [apply IH|]. intros v h' [-> ->]. split; [done|].
    rewrite rank_cons, decide_False by done. lia. }
  case_bool_decide as Ef; cbn [negb]; [|apply Hgo; by intros [? _]].
  wp_step. apply wp_pattern_matches; [done|by rewrite Ef|]. case_bool_decide as Eu.
  - wp_step. split; [done|]. rewrite rank_cons, decide_True by done. lia.
  - apply Hgo. by intros [_ ?].
Qed.

Lemma wp_address6_index addr l i h :
  Forall pattern_ok l -> Zlen addr = 16 ->
  wp (address6_index i addr l) h (fun v h' => h' = h /\ v = i + rank AF_INET6 l addr).
Proof.
  intros Hl Ha. revert i. induction Hl as [|p l Hp Hl IH]; intros i; cbn [address6_index].
  { wp_step. split; [done|]. unfold rank. cbn. unfold Zlen. cbn. lia. }
  assert (Hgo : ~ (ap_family p = AF_INET6 /\ under addr p) ->
    wp (address6_index (i + 1) addr l) h (fun v h' => h' = h /\ v = i + rank AF_INET6 (p :: l) addr)).
  { intros Hn. eapply wp_mono; [apply IH|]. intros v h' [-> ->]. split; [done|].
    rewrite rank_cons, decide_False by done. lia. }
  case_bool_decide as Ef; cbn [negb]; [|apply Hgo; by intros [? _]].
  unfold pattern_ok in Hp. unfold mask_bits. destruct p as [pa [m|bits] f]; cbn [ap_addr ap_mask ap_family] in *;
    [congruence|]. subst f. cbn [addr_size] in *. wp_step. wp_step. wp_step.
  eapply wp_mono; [apply wp_bitncmp; lia|]. intros x h' [-> Hx]. destruct (Z.eqb_spec x 0) as [->|Hx0].
  - wp_step. split; [done|]. rewrite rank_cons, decide_True; [lia|]. split; [done|]. unfold under. cbn. lia.
  - apply Hgo. intros [_ Hu]. unfold under in Hu. cbn in Hu. lia.
Qed.

(** ** Proofs about the configuration *)

(** Every item has at most fifteen characters. *)
Definition short_items (str : list Z) : Prop :=
  forall a b c, str = a ++ b ++ c -> Forall (fun c => ends_item c = false) b -> (length b <= 15)%nat.

Lemma span_spec stop l :
  let '(a, b) := span stop l in l = a ++ b /\ Forall (fun c => stop c = false) a /\
    match b with c :: _ => stop c = true | [] => True end.
Proof.
  induction l as [|c l IH]; cbn [span]; [done|]. destruct (stop c) eqn:E; [done|].
  destruct (span stop l) as [a b]. destruct IH as (-> & Ha & Hb). split_and!; [done|by constructor|done].
Qed.

Lemma skip_spaces_suffix l : exists sp, l = sp ++ skip_spaces l.
Proof. destruct (skip_spaces_spec l) as (sp & E & _). by exists sp. Qed.

(** Code that neither allocates nor releases does the same on every heap. *)
Definition heap_free {A} (m : M A) : Prop := forall h h',
  match m h with
  | Ret a h1 => h1 = h /\ m h' = Ret a h'
  | UB => m h' = UB
  | OutOfFuel => m h' = OutOfFuel
  end.

Lemma hf_ret {A} (a : A) : heap_free (mret a : M A).
Proof. by intros h h'. Qed.

Lemma hf_undefined {A} : heap_free (@undefined A).
Proof. by intros h h'. Qed.

Lemma hf_bind {A B} (m : M A) (k : A -> M B) :
  heap_free m -> (forall a, heap_free (k a)) -> heap_free (m ≫= k).
Proof.
  intros Hm Hk h h'. specialize (Hm h h'). unfold mbind, M_bind.
  destruct (m h) as [a h1| |]; [|by rewrite Hm..]. destruct Hm as [-> ->]. exact (Hk a h h').
Qed.

Create HintDb heap_free.
#[local] Hint Resolve hf_ret hf_undefined : heap_free.

Ltac heap_free_step :=
  first [done | solve [auto with heap_free] | apply hf_bind; [|intros ?] | progress cbv zeta | case_match].
Ltac solve_heap_free := repeat heap_free_step.

Lemma hf_put_char cap q c : heap_free (put_char cap q c).
Proof. unfold put_char. solve_heap_free. Qed.

Lemma hf_write_tmp tmp i b : heap_free (write_tmp tmp i b).
Proof. unfold write_tmp. solve_heap_free. Qed.

Lemma hf_read_tmp tmp i : heap_free (read_tmp tmp i).
Proof. unfold read_tmp. solve_heap_free. Qed.

#[local] Hint Resolve hf_put_char hf_write_tmp hf_read_tmp : heap_free.

Lemma hf_write_all tmp i bs : heap_free (write_all tmp i bs).
Proof. revert tmp i. induction bs as [|b bs IH]; intros tmp i; cbn [write_all]; solve_heap_free. Qed.

Lemma hf_getv4_loop src dst n val : heap_free (getv4_loop src dst n val).
Proof. revert dst n val. induction src as [|c src IH]; intros dst n val; cbn [getv4_loop]; solve_heap_free. Qed.

#[local] Hint Resolve hf_write_all hf_getv4_loop : heap_free.

Lemma hf_v6_flush s : heap_free (v6_flush s).
Proof. unfold v6_flush. solve_heap_free. Qed.

Lemma hf_v6_shift k i n endp colonp tmp : heap_free (v6_shift k i n endp colonp tmp).
Proof. revert i tmp. induction k as [|k IH]; intros i tmp; cbn [v6_shift]; solve_heap_free. Qed.

#[local] Hint Resolve hf_v6_flush hf_v6_shift : heap_free.

Lemma hf_v6_loop src s : heap_free (v6_loop src s).
Proof. revert s. induction src as [|c src IH]; intros s; cbn [v6_loop]; unfold getv4; solve_heap_free. Qed.

Lemma hf_v6_finish s size : heap_free (v6_finish s size).
Proof. unfold v6_finish. solve_heap_free. Qed.

#[local] Hint Resolve hf_v6_loop hf_v6_finish : heap_free.

Lemma hf_item_pattern inet_addr ip : heap_free (item_pattern inet_addr ip None).
Proof.
  unfold item_pattern, copy_to, net_pton, ares_inet_net_pton, inet_net_pton_ipv6. solve_heap_free.
Qed.

(** The pattern that an item without a slash gives. *)
Definition item_value (inet_addr : list Z -> option (list Z)) (ip : list Z) : option apattern :=
  match item_pattern inet_addr ip None (Heap 0 []) with Ret r _ => r | _ => None end.

(** The items of a sort list: the words up to a semicolon. *)
Fixpoint sort_items (fuel : nat) (str : list Z) : list (list Z) :=
  match fuel, str with
  | S fuel', c :: _ =>
      if c =? ch_semi then []
      else let '(ip, q) := span ends_item str in ip :: sort_items fuel' (skip_spaces q)
  | _, _ => []
  end.

(** The patterns of a sort list, in its order; other items are skipped. *)
Definition sort_patterns (inet_addr : list Z -> option (list Z)) (str : list Z) : list apattern :=
  omap (item_value inet_addr) (sort_items (S (length str)) str).

(** An item without a slash gives no pattern or a good one. *)
Lemma wp_item_pattern inet_addr ip h :
  no_slash ip -> (length ip <= 15)%nat ->
  wp (item_pattern inet_addr ip None) h (fun r h' => h' = h /\ r = item_value inet_addr ip /\
    match r with Some p => pattern_ok p | None => True end).
Proof.
  intros Hs Hl.
  assert (Hwp : wp (item_pattern inet_addr ip None) h
    (fun r h' => h' = h /\ match r with Some p => pattern_ok p | None => True end)).
  { unfold item_pattern, copy_to. destruct (Z.ltb_spec (Zlen ip) 16); [|unfold Zlen in *; lia].
    do 4 wp_step. unfold net_pton, ares_inet_net_pton. do 2 wp_step.
    eapply wp_mono; [by apply wp_pton6_safe|]. intros r h' [-> Hr]. wp_step.
    assert (Hv4 : wp (match ip_addr inet_addr ip (Zlen (default ip None)) with
      | None => mret None
      | Some addr => mret (Some (Apattern addr (PATTERN_MASK (natural_mask addr)) AF_INET)) end) h
      (fun r h' => h' = h /\ match r with Some p => pattern_ok p | None => True end)).
    { destruct (ip_addr _ _ _); wp_step; done. }
    destruct r as [e|[bits bytes]]; [wp_step; wp_step; exact Hv4|].
    destruct Hr as [(-> & Hb & _)|(-> & ->)]; cbn [Z.ltb Z.compare].
    - wp_step. split; [done|]. unfold pattern_ok. cbn [ap_mask ap_family ap_addr]. change (uwrap 16 128) with 128.
      unfold Zlen. rewrite Hb. cbn. lia.
    - do 2 wp_step. exact Hv4. }
  pose proof (hf_item_pattern inet_addr ip h (Heap 0 [])) as Hf. unfold item_value, wp in *.
  destruct (item_pattern inet_addr ip None h) as [a h1| |]; [|done..].
  destruct Hf as [_ ->]. by destruct Hwp.
Qed.

(** The text left after an item is a shorter end of the text. *)
Lemma item_progress c l :
  c <> ch_slash -> (c =? ch_semi) = false ->
  let '(ip, q) := span (fun c => (c =? 47) || ends_item c) (c :: l) in
  forall q', q' = q \/ q' = (span ends_item q).2 ->
    (length (skip_spaces q') < length (c :: l))%nat /\ exists a, c :: l = a ++ skip_spaces q'.
Proof.
  intros Hs Hc. pose proof (span_spec (fun c => (c =? 47) || ends_item c) (c :: l)) as H.
  destruct (span _ (c :: l)) as [ip q] eqn:Es. destruct H as (E & Hip & Hq). intros q' Hq'.
  assert (Hsuf : exists a, q = a ++ q').
  { destruct Hq' as [->| ->]; [by exists []|]. pose proof (span_spec ends_item q) as H.
    destruct (span ends_item q) as [x y]. destruct H as (-> & _). by exists x. }
  destruct Hsuf as [a Ea]. destruct (skip_spaces_suffix q') as [sp Esp].
  split; [|exists (ip ++ a ++ sp); rewrite E, Ea, Esp at 1; by rewrite <- !app_assoc].
  destruct ip as [|x ip].
  - cbn in E. subst q. destruct (Z.eqb_spec c 47); [done|]. unfold ends_item in Hq. rewrite Hc in Hq. cbn in Hq.
    assert (q' = c :: l) as ->.
    { destruct Hq' as [->| ->]; [done|]. cbn [span]. unfold ends_item. by rewrite Hc, Hq. }
    cbn [skip_spaces]. rewrite Hq. destruct (skip_spaces_suffix l) as [sp' E']. apply (f_equal length) in E'.
    rewrite length_app in E'. cbn [length]. lia.
  - apply (f_equal length) in E, Ea, Esp. rewrite length_app in E, Ea, Esp. cbn [length] in *. lia.
Qed.

Definition sl_blocks (l : list apattern) : Z := match l with [] => 0 | _ => 1 end.

Definition sortlist_post (k : Z) (spec : list apattern) (h : heap) (r : status * list apattern) (h' : heap) : Prop :=
  Forall pattern_ok r.2 /\ live h' = k + sl_blocks r.2 /\
  unless_oom (fun r => r = (ARES_SUCCESS, spec)) (fun r => r = (ARES_ENOMEM, [])) h r h'.

Lemma span_no_slash l :
  no_slash l -> span (fun c => (c =? 47) || ends_item c) l = span ends_item l.
Proof.
  induction 1 as [|c l Hc Hl IH]; [done|]. cbn [span]. rewrite IH. change ch_slash with 47 in Hc.
  by destruct (Z.eqb_spec c 47).
Qed.

Lemma sort_items_fuel f1 f2 str :
  no_slash str -> (length str < f1)%nat -> (length str < f2)%nat -> sort_items f1 str = sort_items f2 str.
Proof.
  revert f2 str. induction f1 as [|f1 IH]; intros [|f2] str Hs H1 H2; [done|lia|lia|].
  destruct str as [|c str]; [done|]. cbn [sort_items]. destruct (c =? ch_semi) eqn:Ec; [done|].
  apply Forall_cons in Hs as Hc. pose proof (item_progress c str (proj1 Hc) Ec) as Hp.
  rewrite span_no_slash in Hp by done. destruct (span ends_item (c :: str)) as [ip q].
  destruct (Hp q (or_introl eq_refl)) as [Hlt [a Ea]]. f_equal. apply IH; [|cbn in *; lia..].
  rewrite Ea in Hs. by apply Forall_app in Hs as [_ ?].
Qed.

Lemma short_items_suffix a l : short_items (a ++ l) -> short_items l.
Proof. intros H x b c ->. apply (H (a ++ x) b c). by rewrite app_assoc. Qed.

Lemma wp_sortlist_alloc l p h :
  0 <= live h ->
  wp (sortlist_alloc l p) h (fun r h' => match r with
    | Some l' => l' = l ++ [p] /\ live h' = live h - sl_blocks l + 1 /\ (oracle h = [] -> oracle h' = [])
    | None => live h' = live h /\ oracle h <> [] end).
Proof.
  intros Hl. unfold sortlist_alloc. wp_step. destruct l as [|q l]; wp_step; wp_step; cbn; split_and!; try done; lia.
Qed.

Lemma wp_config_sortlist inet_addr fuel l str h :
  (length str < fuel)%nat -> no_slash str -> short_items str -> Forall pattern_ok l ->
  sl_blocks l <= live h -> 0 <= live h ->
  wp (config_sortlist inet_addr fuel l str) h
    (sortlist_post (live h - sl_blocks l) (l ++ omap (item_value inet_addr) (sort_items fuel str)) h).
Proof.
  revert l str h. induction fuel as [|fuel IH]; intros l str h Hf Hs Hi Hl Hb Hb0; [lia|].
  assert (Hdone : sortlist_post (live h - sl_blocks l) (l ++ []) h (ARES_SUCCESS, l) h)
    by (rewrite app_nil_r; split_and!; cbn; [done|lia|by left]).
  cbn [config_sortlist sort_items]. destruct str as [|c str]; [by wp_step|].
  destruct (c =? ch_semi) eqn:Ec; [by wp_step|].
  apply Forall_cons in Hs as Hs'. pose proof (item_progress c str (proj1 Hs') Ec) as Hp. clear Hs'.
  rewrite span_no_slash in * by done. pose proof (span_spec ends_item (c :: str)) as Hsp.
  destruct (span ends_item (c :: str)) as [ip q]. destruct Hsp as (E & Hip & Hq).
  assert (Hslash : no_slash ip /\ no_slash q) by (by rewrite E in Hs; apply Forall_app in Hs).
  assert (Hq47 : match q with
     | c :: str2 => if c =? 47 then let '(m, q) := span ends_item str2 in (Some m, q) else (None, q)
     | [] => (@None (list Z), q) end = (None, q)).
  { destruct q as [|x q]; [done|]. destruct Hslash as [_ [Hx _]%Forall_cons].
    change ch_slash with 47 in Hx. by destruct (Z.eqb_spec x 47). }
  rewrite Hq47. assert (Hlen : (length ip <= 15)%nat) by apply (Hi [] ip q E Hip).
  assert (Hnext : forall l' h', Forall pattern_ok l' ->
    live h' - sl_blocks l' = live h - sl_blocks l -> 0 <= live h - sl_blocks l -> (oracle h = [] -> oracle h' = []) ->
    wp (config_sortlist inet_addr fuel l' (skip_spaces q)) h'
      (sortlist_post (live h - sl_blocks l) (l' ++ omap (item_value inet_addr) (sort_items fuel (skip_spaces q))) h)).
  { intros l' h' Hl' Hlive Hge Ho. destruct (Hp q (or_introl eq_refl)) as [Hlt [a Ea]].
    eapply wp_mono; [apply IH|]; try done; try lia.
    - rewrite Ea in Hs. by apply Forall_app in Hs as [_ ?].
    - rewrite Ea in Hi. by apply short_items_suffix in Hi.
    - destruct l'; cbn in *; lia.
    - intros r h2 (H1 & H2 & H3). split_and!; [done|lia|]. destruct H3 as [[? ?]|[? ?]]; [left|right]; by auto. }
  assert (Hge : 0 <= live h - sl_blocks l) by lia.
  wp_step. eapply wp_mono; [apply wp_item_pattern; [apply Hslash|done]|]. intros r h1 (-> & Er & Hok).
  cbn [omap list_omap]. rewrite <- Er. destruct r as [p|].
  - wp_step. eapply wp_mono; [by apply wp_sortlist_alloc|]. intros [l'|] h2.
    + intros (-> & Hl2 & Ho).
      specialize (Hnext (l ++ [p]) h2). rewrite <- app_assoc in Hnext.
      apply Hnext; [apply Forall_app; by split; [|repeat constructor]| |done|done].
      destruct l; cbn in *; lia.
    + intros [Hl2 Ho]. destruct l as [|p0 l]; wp_step; [wp_step|apply wp_free; [cbn in *; lia|]]; wp_step;
        split_and!; cbn in *; try done; try lia; by right.
  - destruct (span ends_item q) as [x q2] eqn:Eq2.
    assert (q2 = q) as ->; [|by apply Hnext].
    destruct q as [|y q]; [by injection Eq2|]. cbn [span] in Eq2. rewrite Hq in Eq2. by injection Eq2.
Qed.

(** ** What is proved *)

Lemma wp_sort_addresses host sortlist h :
  Forall pattern_ok sortlist ->
  (Forall (fun a => Zlen a = 4) (h_addr_list host) ->
   wp (sort_addresses host sortlist) h (fun host' h' => h' = h /\
     host' = set_addr_list (h_addr_list host') host /\
     stable_sort (rank AF_INET sortlist) (h_addr_list host) (h_addr_list host'))) /\
  (Forall (fun a => Zlen a = 16) (h_addr_list host) ->
   wp (sort6_addresses host sortlist) h (fun host' h' => h' = h /\
     host' = set_addr_list (h_addr_list host') host /\
     stable_sort (rank AF_INET6 sortlist) (h_addr_list host) (h_addr_list host'))).
Proof.
  intros Hp. split; intros Ha; unfold sort_addresses, sort6_addresses; wp_step.
  - eapply wp_mono; [apply (wp_insertion_sort _ (rank AF_INET sortlist) (fun a => Zlen a = 4)); [|done]|].
    + intros a h0 H4. exact (wp_address_index a sortlist 0 h0 Hp H4).
    + intros l h' [-> Hl]. wp_step. done.
  - eapply wp_mono; [apply (wp_insertion_sort _ (rank AF_INET6 sortlist) (fun a => Zlen a = 16)); [|done]|].
    + intros a h0 H16. exact (wp_address6_index a sortlist 0 h0 Hp H16).
    + intros l h' [-> Hl]. wp_step. done.
Qed.

(** The sort list sorts. On addresses of their family and patterns with a
    prefix length inside the address, [sort_addresses] and [sort6_addresses]
    stay inside the address list and leave a stable sort of it: ordered by the
    first pattern of the family an address falls under, addresses that fall
    under the same one in their order. Nothing else of the host entry
    changes. *)
Theorem sort_addresses_stable host sortlist h :
  Forall pattern_ok sortlist ->
  (Forall (fun a => Zlen a = 4) (h_addr_list host) ->
   wp (sort_addresses host sortlist) h (fun host' h' => h' = h /\
     host' = set_addr_list (h_addr_list host') host /\
     stable_sort (rank AF_INET sortlist) (h_addr_list host) (h_addr_list host'))) /\
  (Forall (fun a => Zlen a = 16) (h_addr_list host) ->
   wp (sort6_addresses host sortlist) h (fun host' h' => h' = h /\
     host' = set_addr_list (h_addr_list host') host /\
     stable_sort (rank AF_INET6 sortlist) (h_addr_list host) (h_addr_list host'))).
Proof. apply wp_sort_addresses. Qed.

(** Two addresses under [10.0.0.0/8] come before the one that is not, in their
    order. *)
Definition ex_host : hostent := Hostent [97] [] AF_INET 4 [[1; 1; 1; 1]; [10; 0; 0; 2]; [10; 0; 0; 1]].
Definition ex_sortlist : list apattern := [Apattern [10; 0; 0; 0] (PATTERN_CIDR 8) AF_INET].

Lemma sort_addresses_stable_witness :
  exists host, sort_addresses ex_host ex_sortlist (Heap 0 []) = Ret host (Heap 0 []) /\
    h_addr_list host = [[10; 0; 0; 2]; [10; 0; 0; 1]; [1; 1; 1; 1]] /\
    stable_sort (rank AF_INET ex_sortlist) (h_addr_list ex_host) (h_addr_list host).
Proof.
  destruct (sort_addresses_stable ex_host ex_sortlist (Heap 0 [])) as [H _].
  { repeat constructor; cbn; unfold Zlen; cbn; lia. }
  destruct (wp_outcome _ _ _ (H ltac:(repeat constructor))) as (host & h & E & -> & _ & Hs).
  exists host. split; [exact E|]. split; [|exact Hs].
  vm_compute in E. injection E as <-. reflexivity.
Defined.

(** A sort list of short items without slashes is safe to set: whatever
    [inet_addr] makes of the texts, [ares_set_sortlist] returns, within its two
    buffers, with patterns that the sort can use, or keeps the old list; the
    list that goes is released, and out of memory is reported. *)
Theorem ares_set_sortlist_safe inet_addr old sortstr h :
  no_slash sortstr -> short_items sortstr -> Forall pattern_ok old -> sl_blocks old <= live h -> 0 <= live h ->
  wp (ares_set_sortlist inet_addr old sortstr) h (fun r h' => Forall pattern_ok r.2 /\
    live h' = live h - sl_blocks old + sl_blocks r.2 /\
    (r.1 = ARES_SUCCESS \/ r = (ARES_ENOMEM, old) /\ oracle h <> [])).
Proof.
  intros Hs Hi Ho Hb Hl. unfold ares_set_sortlist. wp_step.
  eapply wp_mono; [apply wp_config_sortlist; try done; lia|]. intros [st l] h1 (Hok & Hl1 & HP). cbn [fst snd] in *.
  destruct HP as [[[= -> _] Ho1]|[[= -> ->] Ho1]]; cbn [fst snd] in *.
  - rewrite bool_decide_true by done. cbn [andb]. case_bool_decide as El; cbn [negb].
    + wp_step. subst l. cbn in *. split_and!; [done|lia|by left].
    + destruct old as [|p old]; wp_step; [wp_step|apply wp_free; [cbn in *; destruct l; cbn in *; [done|lia]|]];
        wp_step; cbn in *; split_and!; try done; try lia; by left.
  - rewrite bool_decide_false by done. cbn [andb]. wp_step. cbn in *. split_and!; [done|lia|by right].
Qed.

(** ["10.0.0.1 11.0.0.1"] with an [inet_addr] that knows the first text. *)
Definition ex_inet_addr (s : list Z) : option (list Z) :=
  if bool_decide (s = [49; 48; 46; 48; 46; 48; 46; 49]) then Some [10; 0; 0; 1] else None.

Definition ex_sortstr : list Z := [49; 48; 46; 48; 46; 48; 46; 49; 32; 49; 49].

Lemma ex_sortstr_short : short_items ex_sortstr.
Proof. intros a b c E _. apply (f_equal length) in E. rewrite !length_app in E. cbn in E. lia. Qed.

Lemma ares_set_sortlist_safe_witness :
  exists r h, ares_set_sortlist ex_inet_addr [] ex_sortstr (Heap 0 []) = Ret r h /\
    r = (ARES_SUCCESS, [Apattern [10; 0; 0; 1] (PATTERN_MASK [255; 0; 0; 0]) AF_INET]) /\
    live h = 1 /\ Forall pattern_ok r.2.
Proof.
  destruct (wp_outcome _ _ _ (ares_set_sortlist_safe ex_inet_addr [] ex_sortstr (Heap 0 [])
    ltac:(repeat constructor; unfold ch_slash; lia) ex_sortstr_short ltac:(constructor) ltac:(cbn; lia) ltac:(cbn; lia)))
    as (r & h & E & Hok & _).
  exists r, h. split; [exact E|]. assert (Hr := E). vm_compute in Hr. injection Hr as <- <-.
  split_and!; [reflexivity|reflexivity|exact Hok].
Defined.

(** A longer item overflows the stack: an item that starts with sixteen
    characters that are not a slash, a semicolon or a space makes
    [config_sortlist] write beyond [ipbuf], whatever follows. *)
Theorem config_sortlist_overflow inet_addr item rest sortlist fuel h :
  length item = 16%nat -> Forall (fun c => (c =? 47) || ends_item c = false) item ->
  config_sortlist inet_addr (S fuel) sortlist (item ++ rest) h = UB.
Proof.
  intros Hl Hi. destruct item as [|c item]; [done|]. cbn [config_sortlist app].
  apply Forall_cons in Hi as Hc. destruct Hc as [Hc _].
  assert (Hsemi : (c =? ch_semi) = false) by (apply orb_false_iff in Hc as [_ [? _]%orb_false_iff]; done).
  rewrite Hsemi. rewrite app_comm_cons.
  assert (Hsp : exists more q, span (fun c => (c =? 47) || ends_item c) ((c :: item) ++ rest) = ((c :: item) ++ more, q)).
  { clear Hl Hsemi Hc. induction Hi as [|x l Hx Hi IH].
    { destruct (span (fun c => (c =? 47) || ends_item c) rest) as [m q] eqn:E. by exists m, q. }
    destruct IH as (m & q & E). exists m, q. cbn [app span]. by rewrite Hx, E. }
  destruct Hsp as (more & q & ->). destruct (match q with [] => _ | _ => _ end) as [slash q'].
  unfold item_pattern, copy_to. destruct (Z.ltb_spec (Zlen ((c :: item) ++ more)) 16) as [Hlt|]; [|done].
  unfold Zlen in Hlt. rewrite length_app in Hlt. lia.
Qed.

Lemma config_sortlist_overflow_witness :
  config_sortlist ex_inet_addr 1 [] (replicate 16 49 ++ []) (Heap 0 []) = UB.
Proof.
  apply (config_sortlist_overflow ex_inet_addr (replicate 16 49) [] [] 0); [reflexivity|].
  repeat constructor.
Defined.
