(* ===== verification/HostsFile.v ===== *)
(** * The hosts file (c-ares)

    Models [ares__get_hostent] of
    src/Scylla-moon/seastar/c-ares/ares__get_hostent.c and the two [file_lookup]
    of ares_gethostbyname.c and ares_gethostbyaddr.c. The conversions of address
    texts, the library's [inet_addr] and [inet_pton], are parameters: each gives
    the bytes of the address or nothing. The line, which the code cuts up in
    place, is a list; a pointer into it is the rest of the list from there. *)

From S2P Require Import Prelude DnsWire ParseHost InetAddr InetAddr6 ReadLine Search AddrSort.
Open Scope Z_scope.

(** The family asked for. *)
Inductive req_family := Family (f : family) | AF_UNSPEC | BadFamily.

#[export] Instance req_family_eq_dec : EqDecision req_family.
Proof. solve_decision. Defined.

Definition asks_for (r : req_family) (f : family) : bool :=
  match r with Family g => bool_decide (f = g) | AF_UNSPEC => true | BadFamily => false end.

(** ** The fields of a line *)

(** The trailing white space is cut off from the end. *)
Definition trim_end (l : list Z) : list Z := rev (skip_spaces (rev l)).

(** The loop that counts the aliases. *)
Fixpoint count_aliases (fuel : nat) (p : list Z) (naliases : nat) : nat :=
  match fuel, p with
  | S fuel', _ :: _ => count_aliases fuel' (skip_spaces (span ISSPACE p).2) (S naliases)
  | _, _ => naliases
  end.

(** [txtaddr], [txthost] and [txtalias] (empty for a null pointer) of a line that
    is not ignored. *)
Definition hosts_fields (line : list Z) : option (list Z * list Z * list Z) :=
  let p := trim_end (span (fun c => c =? 35) line).1 in
  match skip_spaces p with
  | [] => None
  | p =>
      let '(txtaddr, p) := span ISSPACE p in
      match p with
      | [] => None
      | _ :: p =>
          match skip_spaces p with
          | [] => None
          | p =>
              let '(txthost, p) := span ISSPACE p in
              Some (txtaddr, txthost, match p with [] => [] | _ :: q => skip_spaces q end)
          end
      end
  end.

Section files.
Variables (inet_addr inet_pton6 : list Z -> option (list Z)).

(** The address of the requested family. *)
Definition text_address (f : req_family) (txtaddr : list Z) : option (family * list Z) :=
  let v4 := if asks_for f AF_INET then inet_addr txtaddr else None in
  match v4 with
  | Some a => Some (AF_INET, a)
  | None => if asks_for f AF_INET6 then (fun a => (AF_INET6, a)) <$> inet_pton6 txtaddr else None
  end.

(** ** Building the entry

    The entry under construction: the fields that are not null. *)
Record partial := Partial {
  p_name : option (list Z); p_addrs : option (option (list Z)); p_aliases : option (list (list Z)) }.

(** The clean-up after a failed allocation. *)
Definition free_partial (p : partial) : M unit :=
  c_free_opt (p_name p) ;;
  (match p_aliases p with Some l => c_free_n (length l) ;; c_free | None => mret () end) ;;
  (match p_addrs p with Some a => c_free_opt a ;; c_free | None => mret () end) ;;
  c_free.

(** The loop that copies the aliases into an array for [naliases] of them and a
    null pointer. *)
Fixpoint copy_aliases (fuel : nat) (naliases : nat) (done : list (list Z)) (txtalias : list Z)
    : M (list (list Z) * bool) :=
  match fuel with
  | O => no_fuel
  | S fuel' =>
      match txtalias with
      | [] => mret (done, true)
      | _ =>
          let '(w, p) := span ISSPACE txtalias in
          assert_c (length done <? naliases)%nat ;;
          ok ← c_malloc;
          if negb ok then mret (done, false)
          else copy_aliases fuel' naliases (done ++ [w]) (skip_spaces p)
      end
  end.

(** The entry, or [inl] of what to clean up. *)
Definition build_hostent (f : family) (addr txthost txtalias : list Z) : M (option partial + hostent) :=
  let naliases := count_aliases (length txtalias) txtalias 0 in
  ok ← c_malloc;
  if negb ok then mret (inl None)
  else
    ok ← c_malloc;
    if negb ok then mret (inl (Some (Partial None None None)))
    else
      ok ← c_malloc;
      if negb ok then mret (inl (Some (Partial (Some txthost) None None)))
      else
        ok ← c_malloc;
        if negb ok then mret (inl (Some (Partial (Some txthost) (Some None) None)))
        else
          ok ← c_malloc;
          if negb ok then mret (inl (Some (Partial (Some txthost) (Some (Some addr)) None)))
          else
            '(aliases, ok) ← copy_aliases (S (length txtalias)) naliases [] txtalias;
            if negb ok then mret (inl (Some (Partial (Some txthost) (Some (Some addr)) (Some aliases))))
            else mret (inr (Hostent txthost aliases f (addr_size f) [addr])).

(** The loop of [ares__get_hostent] over the lines. *)
Fixpoint get_hostent_loop (fuel : nat) (f : req_family) (buf : option Z) (fp : stream)
    : M (status * option hostent * stream) :=
  match fuel with
  | O => no_fuel
  | S fuel' =>
      r ← ares__read_line buf fp;
      if negb (bool_decide (rr_status r = ARES_SUCCESS)) then
        c_free_opt (rr_buf r) ;; mret (rr_status r, None, rr_fp r)
      else
        match rr_line r with
        | None => undefined
        | Some line =>
            match hosts_fields line with
            | None => get_hostent_loop fuel' f (rr_buf r) (rr_fp r)
            | Some (txtaddr, txthost, txtalias) =>
                match text_address f txtaddr with
                | None => get_hostent_loop fuel' f (rr_buf r) (rr_fp r)
                | Some (g, addr) =>
                    b ← build_hostent g addr txthost txtalias;
                    c_free_opt (rr_buf r) ;;
                    match b with
                    | inr host => mret (ARES_SUCCESS, Some host, rr_fp r)
                    | inl p =>
                        (match p with Some p => free_partial p | None => mret () end) ;;
                        mret (ARES_ENOMEM, None, rr_fp r)
                    end
                end
            end
        end
  end.

Definition ares__get_hostent (fp : stream) (f : req_family) : M (status * option hostent * stream) :=
  match f with
  | BadFamily => mret (ARES_EBADFAMILY, None, fp)
  | _ => get_hostent_loop (S (length (st_data fp))) f None fp
  end.

(** ** Looking up an entry *)

(** [fopen] on the hosts file. *)
Inductive hosts_file := HostsFailed (errno : Z) | HostsOpened (fp : stream).

(** The loop of [file_lookup]; [wanted] is the test on the entry. *)
Fixpoint lookup_loop (fuel : nat) (wanted : hostent -> bool) (f : req_family) (fp : stream)
    : M (status * option hostent) :=
  match fuel with
  | O => no_fuel
  | S fuel' =>
      '(st, host, fp) ← ares__get_hostent fp f;
      match host with
      | Some host =>
          if wanted host then mret (st, Some host)
          else ares_free_hostent host ;; lookup_loop fuel' wanted f fp
      | None => mret (if bool_decide (st = ARES_EOF) then ARES_ENOTFOUND else st, None)
      end
  end.

Definition lookup_file (wanted : hostent -> bool) (f : req_family) (file : hosts_file)
    : M (status * option hostent) :=
  match file with
  | HostsFailed errno =>
      mret (if (errno =? ENOENT) || (errno =? ESRCH) then ARES_ENOTFOUND else ARES_EFILE, None)
  | HostsOpened fp => lookup_loop (S (length (st_data fp))) wanted f fp
  end.

(** [file_lookup] of ares_gethostbyname.c *)
Definition name_matches (name : list Z) (host : hostent) : bool :=
  (ares_strcasecmp (h_name host) name =? 0)
  || existsb (fun alias => ares_strcasecmp alias name =? 0) (h_aliases host).

Definition file_lookup_name (name : list Z) (f : req_family) (file : hosts_file)
    : M (status * option hostent) := lookup_file (name_matches name) f file.

(** [file_lookup] of ares_gethostbyaddr.c *)
Definition addr_matches (f : family) (addr : list Z) (host : hostent) : bool :=
  bool_decide (f = h_addrtype host) && bool_decide (head (h_addr_list host) = Some addr).

Definition file_lookup_addr (f : family) (addr : list Z) (file : hosts_file)
    : M (status * option hostent) := lookup_file (addr_matches f addr) (Family f) file.

End files.

(** ** Specification *)

(** The words of a text. *)
Fixpoint words_acc (cur : list Z) (l : list Z) : list (list Z) :=
  match l with
  | [] => match cur with [] => [] | _ => [rev cur] end
  | c :: l' =>
      if ISSPACE c then match cur with [] => words_acc [] l' | _ => rev cur :: words_acc [] l' end
      else words_acc (c :: cur) l'
  end.

Definition words (l : list Z) : list (list Z) := words_acc [] l.

(** The text before the comment. *)
Fixpoint uncommented (l : list Z) : list Z :=
  match l with c :: l' => if c =? 35 then [] else c :: uncommented l' | [] => [] end.

(** The entry a line stands for: its first word is an address of the requested
    family, the second the name, the others the aliases. *)
Definition line_entry inet_addr inet_pton6 (f : req_family) (line : list Z) : option hostent :=
  match words (uncommented line) with
  | addr :: name :: aliases =>
      '(g, a) ← text_address inet_addr inet_pton6 f addr;
      Some (Hostent name aliases g (addr_size g) [a])
  | _ => None
  end.

(** The entries of the file, in order. *)
Definition entries inet_addr inet_pton6 (f : req_family) (d : list Z) : list hostent :=
  omap (line_entry inet_addr inet_pton6 f) (lines d).

(** ** Proofs about words *)

Lemma span_fst_uncommented l : (span (fun c => c =? 35) l).1 = uncommented l.
Proof.
  induction l as [|c l IH]; cbn [span uncommented]; [done|]. destruct (c =? 35); [done|].
  destruct (span _ l) as [a b]. cbn in *. by rewrite IH.
Qed.

Lemma words_acc_span cur l :
  cur <> [] -> words_acc cur l = (rev cur ++ (span ISSPACE l).1) :: words (span ISSPACE l).2.
Proof.
  revert cur. induction l as [|c l IH]; intros cur Hc; cbn [words_acc span].
  - destruct cur; [done|]. cbn [fst snd]. by rewrite app_nil_r.
  - destruct (ISSPACE c) eqn:E.
    + destruct cur; [done|]. cbn [fst snd]. rewrite app_nil_r. unfold words. cbn [words_acc]. by rewrite E.
    + rewrite IH by done. destruct (span ISSPACE l) as [a b]. cbn [fst snd rev]. by rewrite <- app_assoc.
Qed.

Lemma words_skip l : words (skip_spaces l) = words l.
Proof.
  induction l as [|c l IH]; cbn [skip_spaces]; [done|]. destruct (ISSPACE c) eqn:E; [|done].
  rewrite IH. unfold words. cbn [words_acc]. by rewrite E.
Qed.

(** A text that starts with a word. *)
Lemma words_cons c l :
  ISSPACE c = false -> words (c :: l) = (span ISSPACE (c :: l)).1 :: words (span ISSPACE (c :: l)).2.
Proof.
  intros E. unfold words. cbn [words_acc span]. rewrite E, words_acc_span by done.
  destruct (span ISSPACE l) as [a b]. done.
Qed.

Lemma skip_spaces_head l : match skip_spaces l with c :: _ => ISSPACE c = false | [] => words l = [] end.
Proof.
  destruct (skip_spaces_spec l) as (sp & E & Hs & Hh). destruct (skip_spaces l) eqn:El; [|done].
  by rewrite <- words_skip, El.
Qed.

Lemma words_app_spaces l sp : Forall (fun c => ISSPACE c = true) sp -> words (l ++ sp) = words l.
Proof.
  intros Hs. unfold words. generalize (@nil Z). induction l as [|c l IH]; intros cur; cbn [app words_acc].
  - assert (Hn : words_acc [] sp = []) by (induction Hs as [|x sp Hx Hs IH]; cbn [words_acc]; [done|by rewrite Hx]).
    destruct Hs as [|x sp Hx Hs]; [done|]. cbn [words_acc] in *. rewrite Hx in *. destruct cur; [done|by rewrite Hn].
  - destruct (ISSPACE c); [|by rewrite IH]. by destruct cur; rewrite IH.
Qed.

Lemma words_trim l : words (trim_end l) = words l.
Proof.
  unfold trim_end. destruct (skip_spaces_spec (rev l)) as (sp & E & Hs & _).
  assert (El : l = rev (skip_spaces (rev l)) ++ rev sp) by (by rewrite <- rev_app_distr, <- E, rev_involutive).
  rewrite El at 2. symmetry. apply words_app_spaces. by rewrite <- Permutation_rev.
Qed.

(** The text is empty or starts with a word. *)
Definition starts (l : list Z) : Prop := match l with c :: _ => ISSPACE c = false | [] => True end.

Lemma starts_skip l : starts (skip_spaces l).
Proof. destruct (skip_spaces_spec l) as (_ & _ & _ & H). exact H. Qed.

(** The first word of a text and what follows it. *)
Lemma words_span c l w p :
  ISSPACE c = false -> span ISSPACE (c :: l) = (w, p) ->
  words (c :: l) = w :: words p /\ (length (skip_spaces p) < length (c :: l))%nat.
Proof.
  intros Ec E. rewrite (words_cons c l Ec), E. split; [done|].
  cbn [span] in E. rewrite Ec in E. pose proof (span_spec ISSPACE l) as Hl. destruct (span ISSPACE l) as [a b].
  injection E as <- <-. destruct Hl as (El & _). destruct (skip_spaces_suffix b) as [sp Eb].
  apply (f_equal length) in El, Eb. rewrite length_app in El, Eb. cbn [length]. lia.
Qed.

Lemma hosts_fields_spec line :
  match hosts_fields line with
  | Some (addr, name, t) => words (uncommented line) = addr :: name :: words t /\ starts t
  | None => match words (uncommented line) with _ :: _ :: _ => False | _ => True end
  end.
Proof.
  unfold hosts_fields. rewrite span_fst_uncommented, <- words_trim. generalize (trim_end (uncommented line)). intros l.
  rewrite <- words_skip. pose proof (starts_skip l) as Hs. destruct (skip_spaces l) as [|c l1]; [done|].
  destruct (span ISSPACE (c :: l1)) as [addr p] eqn:E. destruct (words_span _ _ _ _ Hs E) as [-> _].
  destruct p as [|c2 p]; [done|].
  assert (Hc2 : ISSPACE c2 = true) by (pose proof (span_spec ISSPACE (c :: l1)) as H; rewrite E in H; apply H).
  assert (Hp : words (c2 :: p) = words (skip_spaces p)) by (rewrite words_skip; unfold words; cbn [words_acc]; by rewrite Hc2).
  rewrite Hp. pose proof (starts_skip p) as Hs2. destruct (skip_spaces p) as [|c3 l3]; [done|].
  destruct (span ISSPACE (c3 :: l3)) as [name q] eqn:E3. destruct (words_span _ _ _ _ Hs2 E3) as [-> _].
  destruct q as [|c4 q]; [done|]. split; [|apply starts_skip]. do 2 f_equal. rewrite words_skip.
  assert (Hc4 : ISSPACE c4 = true) by (pose proof (span_spec ISSPACE (c3 :: l3)) as H; rewrite E3 in H; apply H).
  unfold words. cbn [words_acc]. by rewrite Hc4.
Qed.

Lemma count_aliases_words fuel t n :
  (length t <= fuel)%nat -> starts t -> count_aliases fuel t n = (n + length (words t))%nat.
Proof.
  revert t n. induction fuel as [|fuel IH]; intros t n Hf Hs; destruct t as [|c t];
    cbn [length count_aliases] in *; try (unfold words; cbn; lia).
  destruct (span ISSPACE (c :: t)) as [w p] eqn:E. destruct (words_span _ _ _ _ Hs E) as [-> Hlt].
  cbn [snd length] in *. rewrite IH, words_skip; [lia|lia|apply starts_skip].
Qed.

Lemma wp_copy_aliases fuel n got t h :
  (length t < fuel)%nat -> starts t -> n = (length got + length (words t))%nat ->
  wp (copy_aliases fuel n got t) h (fun r h' => live h' = live h + Zlen r.1 - Zlen got /\
    unless_oom (fun r => r = (got ++ words t, true)) (fun r => r.2 = false) h r h').
Proof.
  revert got t h. induction fuel as [|fuel IH]; intros got t h Hf Hs Hn; [lia|]. cbn [copy_aliases].
  destruct t as [|c t]; [wp_step; split; [cbn; lia|left; by rewrite app_nil_r]|].
  destruct (span ISSPACE (c :: t)) as [w p] eqn:E. destruct (words_span _ _ _ _ Hs E) as [Hw Hlt].
  rewrite Hw in *. cbn [length] in *. wp_step. apply wp_assert; [apply Nat.ltb_lt; lia|].
  wp_step. apply wp_malloc; intros o Ho; cbn [negb]; [|wp_step; split; [cbn; lia|by right]].
  eapply wp_mono; [apply (IH (got ++ [w])); [lia|apply starts_skip|rewrite words_skip, length_app; cbn; lia]|].
  intros [l ok] h' [Hl HP]. rewrite Zlen_app in Hl. cbn [live fst] in *. split; [change (Zlen [w]) with 1 in Hl; lia|].
  rewrite words_skip, <- app_assoc in HP. destruct HP as [[HP Ho']|[HP Ho']]; [left|right]; by auto.
Qed.

(** ** Proofs about entries *)

Definition partial_blocks (p : partial) : Z :=
  1 + blocks_opt (p_name p) +
  match p_aliases p with Some l => Zlen l + 1 | None => 0 end +
  match p_addrs p with Some a => blocks_opt a + 1 | None => 0 end.

Lemma wp_free_partial p h (Q : unit -> heap -> Prop) :
  partial_blocks p <= live h -> Q () (Heap (live h - partial_blocks p) (oracle h)) -> wp (free_partial p) h Q.
Proof.
  unfold free_partial, partial_blocks. destruct p as [n a l]. cbn [p_name p_addrs p_aliases]. intros Hl HQ.
  pose proof (blocks_opt_nonneg n). assert (Ha : 0 <= match a with Some a => blocks_opt a + 1 | None => 0 end)
    by (destruct a as [a|]; [pose proof (blocks_opt_nonneg a)|]; lia).
  assert (Hls : 0 <= match l with Some l => Zlen l + 1 | None => 0 end)
    by (destruct l as [l|]; [pose proof (Zlen_nonneg l)|]; lia).
  wp_step. apply wp_free_opt; [lia|]. wp_step.
  assert (Hend : forall h', live h' = live h - blocks_opt n - match l with Some l => Zlen l + 1 | None => 0 end ->
    oracle h' = oracle h ->
    wp ((match a with Some a => c_free_opt a ;; c_free | None => mret () end) ;; c_free) h' Q).
  { intros h' Hl' Ho'. wp_step. destruct a as [a|].
    - wp_step. apply wp_free_opt; [lia|]. wp_step. wp_step. rewrite Hl', Ho'.
      replace (_ - 1 - 1) with (live h - (1 + blocks_opt n + match l with Some l => Zlen l + 1 | None => 0 end
        + (blocks_opt a + 1))) by lia. exact HQ.
    - do 2 wp_step. rewrite Hl', Ho'.
      replace (_ - 1) with (live h - (1 + blocks_opt n + match l with Some l => Zlen l + 1 | None => 0 end + 0))
        by lia. exact HQ. }
  destruct l as [l|].
  - wp_step. apply wp_free_n; [cbn; unfold Zlen in *; lia|]. cbn [live oracle].
    apply wp_free; [cbn; unfold Zlen in *; lia|]. apply Hend; cbn; [unfold Zlen; lia|done].
  - wp_step. apply Hend; cbn; [lia|done].
Qed.

Lemma wp_free_hostent host h (Q : unit -> heap -> Prop) :
  hostent_blocks host <= live h -> Q () (Heap (live h - hostent_blocks host) (oracle h)) ->
  wp (ares_free_hostent host) h Q.
Proof.
  unfold hostent_blocks, ares_free_hostent. intros Hl HQ. pose proof (Zlen_nonneg (h_aliases host)).
  set (k := match h_addr_list host with [] => 0 | _ => 1 end) in *.
  assert (Hk : 0 <= k) by (unfold k; by destruct (h_addr_list host)). unfold Zlen in *.
  do 2 wp_step. wp_step. wp_step. wp_step. wp_step. wp_step.
  assert (Hend : forall h', live h' = live h - 2 - Z.of_nat (length (h_aliases host)) - k -> oracle h' = oracle h ->
    wp (c_free ;; c_free) h' Q).
  { intros h' Hl' Ho'. do 3 wp_step. rewrite Hl', Ho'.
    replace (_ - 1 - 1) with (live h - (4 + Z.of_nat (length (h_aliases host)) + k)) by lia. exact HQ. }
  subst k. destruct (h_addr_list host); wp_step; apply Hend; cbn; try done; lia.
Qed.

Definition build_post (f : family) (addr name t : list Z) (h : heap) (b : option partial + hostent) (h' : heap) : Prop :=
  match b with
  | inr host => host = Hostent name (words t) f (addr_size f) [addr] /\
      live h' = live h + hostent_blocks host /\ (oracle h = [] -> oracle h' = [])
  | inl None => live h' = live h /\ oracle h <> []
  | inl (Some p) => live h' = live h + partial_blocks p /\ oracle h <> []
  end.

Lemma wp_build_hostent f addr name t h :
  starts t -> wp (build_hostent f addr name t) h (build_post f addr name t h).
Proof.
  intros Hs. unfold build_hostent, build_post. rewrite count_aliases_words by done.
  wp_step. apply wp_malloc; intros o1 H1; cbn [negb]; [|by wp_step].
  wp_step. apply wp_malloc; intros o2 H2; cbn [negb oracle live] in *;
    [|wp_step; split; [unfold partial_blocks; cbn; lia|by auto 10]].
  wp_step. apply wp_malloc; intros o3 H3; cbn [negb oracle live] in *;
    [|wp_step; split; [unfold partial_blocks; cbn; lia|by auto 10]].
  wp_step. apply wp_malloc; intros o4 H4; cbn [negb oracle live] in *;
    [|wp_step; split; [unfold partial_blocks; cbn; lia|by auto 10]].
  wp_step. apply wp_malloc; intros o5 H5; cbn [negb oracle live] in *;
    [|wp_step; split; [unfold partial_blocks; cbn; lia|by auto 10]].
  wp_step. eapply wp_mono; [apply wp_copy_aliases; [lia|done|done]|].
  intros [l ok] h' [Hl HP]. cbn [fst live oracle] in *. rewrite Zlen_nil in Hl.
  destruct HP as [[HP Ho]|[Hok Ho]]; cbn [fst snd oracle app] in *.
  - injection HP as -> ->. cbn [negb]. wp_step. split_and!; [done|unfold hostent_blocks; cbn; lia|by auto 10].
  - subst ok. cbn [negb]. wp_step. split; [unfold partial_blocks; cbn; lia|by auto 10].
Qed.

Section lookup.
Context (inet_addr inet_pton6 : list Z -> option (list Z)).
Local Abbreviation line_entry := (line_entry inet_addr inet_pton6).
Local Abbreviation entries := (entries inet_addr inet_pton6).

Lemma entries_cons f d :
  d <> [] -> entries f d = match line_entry f (split_line d).1 with
    | Some e => e :: entries f (split_line d).2
    | None => entries f (split_line d).2
    end.
Proof. intros Hd. unfold HostsFile.entries. by rewrite lines_cons. Qed.

(** The fields of a line give its entry. *)
Lemma line_entry_fields f line :
  line_entry f line = match hosts_fields line with
    | Some (addr, name, t) =>
        match text_address inet_addr inet_pton6 f addr with
        | Some (g, a) => Some (Hostent name (words t) g (addr_size g) [a])
        | None => None
        end
    | None => None
    end.
Proof.
  unfold HostsFile.line_entry. pose proof (hosts_fields_spec line) as H.
  destruct (hosts_fields line) as [[[addr name] t]|].
  - destruct H as [-> _]. by destruct (text_address _ _ f addr) as [[g a]|].
  - by destruct (words (uncommented line)) as [|w [|w' l]].
Qed.

(** What [ares__get_hostent] returns from a file, [k] being the blocks left. *)
Definition hostent_post (f : req_family) (fp : stream) (k : Z) (h : heap)
    (r : status * option hostent * stream) (h' : heap) : Prop :=
  let '(st, host, fp') := r in
  match host with
  | Some e => st = ARES_SUCCESS /\ entries f (st_data fp) = e :: entries f (st_data fp') /\
      text_file fp' /\ st_fails fp' = st_fails fp /\ (length (st_data fp') < length (st_data fp))%nat /\
      live h' = k + hostent_blocks e /\ (oracle h = [] -> oracle h' = [])
  | None => live h' = k /\
      ((entries f (st_data fp) = [] /\ st = (if st_fails fp then ARES_EFILE else ARES_EOF) /\ (oracle h = [] -> oracle h' = [])) \/
       (st = ARES_ENOMEM /\ oracle h <> []))
  end.

Lemma wp_get_hostent_loop fuel f buf fp h :
  (length (st_data fp) < fuel)%nat -> text_file fp -> buf_opt_ok buf -> blocks_opt buf <= live h -> 0 <= live h ->
  wp (get_hostent_loop inet_addr inet_pton6 fuel f buf fp) h (hostent_post f fp (live h - blocks_opt buf) h).
Proof.
  revert buf fp h. induction fuel as [|fuel IH]; intros buf fp h Hfuel Hfp Hbuf Hl Hl0; [lia|].
  cbn [get_hostent_loop]. wp_step. eapply wp_mono; [by apply wp_ares__read_line|].
  intros [st line buf' fp'] h1 (Hl1 & HP). cbn [rr_status rr_line rr_buf rr_fp] in *.
  pose proof (blocks_opt_nonneg buf').
  destruct HP as [[(Hst & Hline & n & Hn & Hnb) Ho]|[[Hst Hn] Ho]]; cbn [rr_status rr_line rr_buf rr_fp] in *.
  2: { subst. rewrite bool_decide_false by done. cbn [negb c_free_opt]. do 3 wp_step.
       split; [cbn in Hl1; lia|]. by right. }
  subst st buf'. cbn [blocks_opt] in Hl1. destruct (decide (st_data fp = [])) as [Hnil|Hdata].
  { set (st := if st_fails fp then ARES_EFILE else ARES_EOF).
    replace (negb (bool_decide (st = ARES_SUCCESS))) with true by (subst st; by destruct (st_fails fp)).
    wp_step. apply wp_free; [lia|]. wp_step. split; [cbn; lia|]. left. by rewrite Hnil. }
  rewrite bool_decide_true by done. cbn [negb]. destruct (Hline Hdata) as [-> ->].
  pose proof (split_line_length _ Hdata) as Hlt. pose proof (text_file_rest fp Hfp Hdata) as Hfp'.
  pose proof (entries_cons f _ Hdata) as Hent. rewrite line_entry_fields in Hent.
  assert (Hnext : entries f (st_data fp) = entries f (split_line (st_data fp)).2 ->
    wp (get_hostent_loop inet_addr inet_pton6 fuel f (Some n) (Stream (split_line (st_data fp)).2 (st_fails fp))) h1
      (hostent_post f fp (live h - blocks_opt buf) h)).
  { intros Heq. eapply wp_mono; [apply IH|]; cbn [st_data blocks_opt buf_opt_ok]; try done; try lia.
    intros [[st host] fp2] h2. unfold hostent_post. cbn [st_data st_fails]. rewrite <- Heq. destruct host as [e|].
    - intros (H1 & H2 & H3 & H4 & H5 & H6 & H7). split_and!; try done; [lia|lia|by auto].
    - intros (H1 & H2). split; [lia|]. destruct H2 as [(? & ? & ?)|(? & ?)]; [left|right]; by auto. }
  pose proof (hosts_fields_spec (split_line (st_data fp)).1) as Hs.
  destruct (hosts_fields (split_line (st_data fp)).1) as [[[addr name] t]|]; [|by apply Hnext].
  destruct (text_address inet_addr inet_pton6 f addr) as [[g a]|]; [|by apply Hnext].
  wp_step. eapply wp_mono; [apply wp_build_hostent, Hs|]. intros b h2 Hb. unfold build_post in Hb.
  destruct b as [[p|]|host]; cbn [c_free_opt].
  - destruct Hb as [Hl2 Ho2]. pose proof (blocks_opt_nonneg buf).
    assert (0 < partial_blocks p) by (unfold partial_blocks; destruct p as [x [y|] [z|]]; cbn;
      pose proof (blocks_opt_nonneg x); try pose proof (blocks_opt_nonneg y); try pose proof (Zlen_nonneg z); lia).
    wp_step. apply wp_free; [lia|]. wp_step. apply wp_free_partial; [cbn; lia|]. wp_step. cbn. split; [lia|]. right. auto.
  - destruct Hb as [Hl2 Ho2]. wp_step. apply wp_free; [lia|]. do 3 wp_step. cbn. split; [lia|]. right. auto.
  - destruct Hb as (-> & Hl2 & Ho2). unfold hostent_blocks in *. cbn in Hl2. pose proof (Zlen_nonneg (words t)).
    wp_step. apply wp_free; [lia|]. wp_step. cbn. unfold hostent_blocks. cbn. split_and!; try done; [lia|by auto].
Qed.

Lemma wp_ares__get_hostent f fp h :
  f <> BadFamily -> text_file fp -> 0 <= live h ->
  wp (ares__get_hostent inet_addr inet_pton6 fp f) h (hostent_post f fp (live h) h).
Proof.
  intros Hf Hfp Hl. unfold ares__get_hostent.
  assert (H := wp_get_hostent_loop (S (length (st_data fp))) f None fp h ltac:(lia) Hfp I ltac:(cbn; lia) Hl).
  cbn [blocks_opt] in H. rewrite Z.sub_0_r in H. by destruct f.
Qed.

(** ** Looking up *)

Definition hosts_ok (file : hosts_file) : Prop :=
  match file with HostsOpened fp => text_file fp | HostsFailed _ => True end.

(** The entry found: the first of the file that is wanted. *)
Definition lookup_spec (wanted : hostent -> bool) (f : req_family) (file : hosts_file) : status * option hostent :=
  match file with
  | HostsFailed errno =>
      (if (errno =? ENOENT) || (errno =? ESRCH) then ARES_ENOTFOUND else ARES_EFILE, None)
  | HostsOpened fp =>
      match find wanted (entries f (st_data fp)) with
      | Some e => (ARES_SUCCESS, Some e)
      | None => (if st_fails fp then ARES_EFILE else ARES_ENOTFOUND, None)
      end
  end.

Definition host_blocks (host : option hostent) : Z :=
  match host with Some e => hostent_blocks e | None => 0 end.

Definition lookup_post (wanted : hostent -> bool) (f : req_family) (file : hosts_file) (h : heap)
    (r : status * option hostent) (h' : heap) : Prop :=
  live h' = live h + host_blocks r.2 /\
  unless_oom (fun r => r = lookup_spec wanted f file) (fun r => r = (ARES_ENOMEM, None)) h r h'.

Lemma wp_lookup_loop fuel wanted f fp h :
  (length (st_data fp) < fuel)%nat -> f <> BadFamily -> text_file fp -> 0 <= live h ->
  wp (lookup_loop inet_addr inet_pton6 fuel wanted f fp) h (lookup_post wanted f (HostsOpened fp) h).
Proof.
  revert fp h. induction fuel as [|fuel IH]; intros fp h Hfuel Hf Hfp Hl; [lia|]. cbn [lookup_loop].
  wp_step. eapply wp_mono; [by apply wp_ares__get_hostent|]. intros [[st host] fp'] h1 HP. unfold hostent_post in HP.
  unfold lookup_post. cbn [lookup_spec]. destruct host as [e|].
  - destruct HP as (-> & -> & Hfp' & Hfl & Hlt & Hl1 & Ho). cbn [find]. destruct (wanted e).
    + wp_step. split; [done|]. by left.
    + wp_step. apply wp_free_hostent; [lia|]. cbn [live oracle].
      eapply wp_mono; [apply IH; [lia|done|done|cbn; lia]|]. intros r h2 [Hl2 HP]. cbn [live] in Hl2.
      split; [lia|]. cbn [lookup_spec] in HP. rewrite Hfl in HP. destruct HP as [[? ?]|[? ?]]; [left|right]; by auto.
  - destruct HP as [Hl1 [(-> & -> & Ho)|(-> & Ho)]]; wp_step; (split; [cbn; lia|]).
    + left. split; [|done]. cbn. by destruct (st_fails fp).
    + by right.
Qed.

Lemma wp_lookup_file wanted f file h :
  f <> BadFamily -> hosts_ok file -> 0 <= live h ->
  wp (lookup_file inet_addr inet_pton6 wanted f file) h (lookup_post wanted f file h).
Proof.
  intros Hf Hok Hl. destruct file as [errno|fp]; [|by apply wp_lookup_loop; try lia].
  cbn [lookup_file]. wp_step. split; [cbn; lia|]. by left.
Qed.
End lookup.

(** ** What is proved *)

(** The host goes by the name, in any case. *)
Definition named (name : list Z) (e : hostent) : Prop :=
  exists w, w ∈ h_name e :: h_aliases e /\ lower <$> w = lower <$> name.

(** The host has the address. *)
Definition addressed (f : family) (addr : list Z) (e : hostent) : Prop :=
  h_addrtype e = f /\ h_addr_list e = [addr].

(** The result of looking up an entry with the property [P]: the first one of
    the file, or why there is none. *)
Definition first_entry inet_addr inet_pton6 (P : hostent -> Prop) (f : req_family) (file : hosts_file)
    (r : status * option hostent) : Prop :=
  match file with
  | HostsFailed errno => r = (if decide (errno = ENOENT \/ errno = ESRCH) then ARES_ENOTFOUND else ARES_EFILE, None)
  | HostsOpened fp =>
      let es := entries inet_addr inet_pton6 f (st_data fp) in
      (exists e l1 l2, r = (ARES_SUCCESS, Some e) /\ es = l1 ++ e :: l2 /\ P e /\ Forall (fun x => ~ P x) l1) \/
      (Forall (fun x => ~ P x) es /\ r = (if st_fails fp then ARES_EFILE else ARES_ENOTFOUND, None))
  end.

Lemma find_first {A} (w : A -> bool) (P : A -> Prop) l :
  Forall (fun x => w x = true <-> P x) l ->
  match find w l with
  | Some e => exists l1 l2, l = l1 ++ e :: l2 /\ P e /\ Forall (fun x => ~ P x) l1
  | None => Forall (fun x => ~ P x) l
  end.
Proof.
  induction 1 as [|x l Hx Hl IH]; cbn [find]; [constructor|]. destruct (w x) eqn:E.
  - exists [], l. split_and!; [done|by apply Hx|constructor].
  - assert (Hn : ~ P x) by (intros HP%Hx; congruence). destruct (find w l) as [e|].
    + destruct IH as (l1 & l2 & -> & HP & H1). exists (x :: l1), l2. split_and!; [done|done|by constructor].
    + by constructor.
Qed.

Lemma lookup_first_entry inet_addr inet_pton6 wanted (P : hostent -> Prop) f file r :
  (forall fp, file = HostsOpened fp ->
    Forall (fun e => wanted e = true <-> P e) (entries inet_addr inet_pton6 f (st_data fp))) ->
  r = lookup_spec inet_addr inet_pton6 wanted f file -> first_entry inet_addr inet_pton6 P f file r.
Proof.
  intros HP ->. destruct file as [errno|fp]; cbn [lookup_spec first_entry].
  - case_decide as E; destruct (Z.eqb_spec errno ENOENT), (Z.eqb_spec errno ESRCH); cbn; tauto.
  - pose proof (find_first wanted P _ (HP fp eq_refl)) as H. destruct (find wanted _) as [e|].
    + destruct H as (l1 & l2 & E & He & H1). left. by exists e, l1, l2.
    + by right.
Qed.

(** The words of a text file are texts. *)
Lemma words_text l : text l -> Forall text (words l).
Proof.
  unfold words. assert (Hg : forall cur, text cur -> text l -> Forall text (words_acc cur l)).
  { induction l as [|c l IH]; intros cur Hc Hl; cbn [words_acc].
    - destruct cur; [constructor|]. repeat constructor. by apply Forall_rev.
    - apply Forall_cons in Hl as [Hx Hl]. destruct (ISSPACE c); [|apply IH; [by constructor|done]].
      destruct cur; [by apply IH; [constructor|]|]. constructor; [by apply Forall_rev|].
      by apply IH; [constructor|]. }
  intros Hl. by apply Hg; [constructor|].
Qed.

Lemma uncommented_text l : text l -> text (uncommented l).
Proof. induction 1 as [|c l Hc Hl IH]; cbn [uncommented]; [constructor|]. destruct (c =? 35); by constructor. Qed.

Lemma lines_text d : text d -> Forall text (lines d).
Proof.
  unfold lines. generalize (length d). intros n. revert d. induction n as [|n IH]; intros [|c d] Hd; cbn [lines_fuel]; try constructor.
  - destruct (split_line_app (c :: d)) as [E|E]; [by rewrite E|]. rewrite E in Hd. by apply text_app in Hd as [? _].
  - apply IH. destruct (split_line_app (c :: d)) as [E|E]; [rewrite E; constructor|].
    rewrite E in Hd. apply text_app in Hd as [_ Hd]. by apply Forall_cons in Hd as [_ ?].
Qed.

Lemma entries_text inet_addr inet_pton6 f d :
  text d -> Forall (fun e => Forall text (h_name e :: h_aliases e) /\ exists a, h_addr_list e = [a])
    (entries inet_addr inet_pton6 f d).
Proof.
  intros Hd. apply Forall_forall. intros e He. unfold entries in He. apply list_elem_of_omap in He as (line & Hin & He).
  pose proof (proj1 (Forall_forall _ _) (lines_text d Hd) _ Hin) as Hl.
  pose proof (words_text _ (uncommented_text _ Hl)) as Hw. unfold line_entry in He.
  destruct (words (uncommented line)) as [|addr [|name aliases]]; try done.
  apply Forall_cons in Hw as [_ Hw]. destruct (text_address _ _ f addr) as [[g a]|]; [|done].
  injection He as <-. split; [done|by exists a].
Qed.

Lemma name_matches_named name e :
  text name -> Forall text (h_name e :: h_aliases e) -> name_matches name e = true <-> named name e.
Proof.
  intros Hn He. assert (Hcmp : forall w, text w -> ares_strcasecmp w name = 0 <-> lower <$> w = lower <$> name).
  { intros w Hw. assert (Hb : forall l, text l -> Forall is_byte l)
      by (intros l Hl; eapply Forall_impl; [exact Hl|]; unfold is_byte; cbn; lia).
    rewrite strcasecmp_zero by auto. by rewrite !c_str_text. }
  apply Forall_cons in He as [Hh Ha]. rewrite Forall_forall in Ha. unfold name_matches, named.
  rewrite orb_true_iff, Z.eqb_eq, existsb_exists, (Hcmp _ Hh). split.
  - intros [H|(w & Hw & E)]; [exists (h_name e); split; [left|done]|].
    apply list_elem_of_In in Hw. exists w. split; [by right|]. apply Hcmp; [by apply Ha|]. by apply Z.eqb_eq.
  - intros (w & [->|Hw]%elem_of_cons & E); [by left|right]. exists w. split; [by apply list_elem_of_In|].
    apply Z.eqb_eq, Hcmp; [by apply Ha|done].
Qed.

(** C31. Looking up the hosts file is correct, if it is text (no NUL, less than 2^28
    bytes, a read error only between lines). For a name
    and a family, or for an address, whatever [inet_addr] and [inet_pton] make of the address texts,
    [file_lookup] returns the first entry of the file that goes by the name in
    any case, as its name or an alias, or that has the address, where an entry
    is a line whose first word before the comment is an address of the family;
    without one it returns why. It cuts the lines up inside their buffer and
    the array of aliases, releases every entry it passes over, and the entry it
    returns is all it keeps. *)
Theorem file_lookup_correct inet_addr inet_pton6 file h :
  hosts_ok file -> 0 <= live h ->
  (forall name f, text name -> f <> BadFamily ->
   wp (file_lookup_name inet_addr inet_pton6 name f file) h (fun r h' =>
     live h' = live h + host_blocks r.2 /\
     unless_oom (first_entry inet_addr inet_pton6 (named name) f file) (fun r => r = (ARES_ENOMEM, None)) h r h')) /\
  (forall f addr,
   wp (file_lookup_addr inet_addr inet_pton6 f addr file) h (fun r h' =>
     live h' = live h + host_blocks r.2 /\
     unless_oom (first_entry inet_addr inet_pton6 (addressed f addr) (Family f) file) (fun r => r = (ARES_ENOMEM, None)) h r h')).
Proof.
  intros Hok Hl. split.
  - intros name f Hn Hf. eapply wp_mono; [by apply wp_lookup_file|]. intros r h' [Hl' HP]. split; [done|].
    destruct HP as [[HP Ho]|HP]; [left|by right]. split; [|done]. eapply lookup_first_entry; [|exact HP].
    intros fp ->. eapply Forall_impl; [apply (entries_text _ _ f _ (tf_text _ Hok))|].
    intros e [He _]. by apply name_matches_named.
  - intros f addr. eapply wp_mono; [by apply wp_lookup_file|]. intros r h' [Hl' HP]. split; [done|].
    destruct HP as [[HP Ho]|HP]; [left|by right]. split; [|done]. eapply lookup_first_entry; [|exact HP].
    intros fp ->. eapply Forall_impl; [apply (entries_text _ _ (Family f) _ (tf_text _ Hok))|].
    intros e [_ [a Ha]]. unfold addr_matches, addressed. rewrite Ha, andb_true_iff, !bool_decide_eq_true. cbn.
    split; [intros [-> [= ->]]; done|intros [-> [= ->]]; done].
Qed.

(** The file [" 1 b a # c"], a comment line, [""] and ["1 A"], with an
    [inet_addr] for the text ["1"]. *)
Definition ex_hosts : hosts_file :=
  HostsOpened (Stream ([32; 49; 32; 98; 9; 97; 32; 35; 32; 99; 10; 35; 49; 10; 10] ++ [49; 32; 65]) false).

Definition ex_addr_of (s : list Z) : option (list Z) := if bool_decide (s = [49]) then Some [0; 0; 0; 1] else None.

Lemma ex_hosts_ok : hosts_ok ex_hosts.
Proof. constructor; [repeat constructor; lia|reflexivity|done]. Qed.

Lemma file_lookup_correct_witness :
  exists r h, file_lookup_name ex_addr_of (fun _ => None) [65] AF_UNSPEC ex_hosts (Heap 0 []) = Ret r h /\
    r = (ARES_SUCCESS, Some (Hostent [98] [[97]] AF_INET 4 [[0; 0; 0; 1]])) /\ live h = 6 /\
    first_entry ex_addr_of (fun _ => None) (named [65]) AF_UNSPEC ex_hosts r.
Proof.
  destruct (file_lookup_correct ex_addr_of (fun _ => None) ex_hosts (Heap 0 []) ex_hosts_ok ltac:(cbn; lia)) as [H _].
  destruct (wp_outcome _ _ _ (H [65] AF_UNSPEC ltac:(repeat constructor; lia) ltac:(done)))
    as (r & h & E & _ & [[Hr _]|[_ []]]); [|done].
  exists r, h. split; [exact E|]. assert (Hv := E). vm_compute in Hv. injection Hv as <- <-.
  split_and!; [reflexivity|reflexivity|exact Hr].
Defined.
