(* ===== verification/GetHost.v ===== *)
(** * Host lookups (c-ares)

    Models src/Scylla-moon/seastar/c-ares/ares_gethostbyname.c ([fake_hostent],
    [ares_gethostbyname], [next_lookup], [host_callback], [end_hquery]) and
    ares_gethostbyaddr.c ([ares_gethostbyaddr], [next_lookup],
    [addr_callback], [end_aquery], [ptr_rr_name]).

    As in Search.v, a lookup is a machine whose steps return what they do to the
    outside: a search or a query that will be answered, or the application's
    callback, whose host entry is released after the call. The hosts file, the
    sort list and the lookups string of the channel are parameters. *)

From S2P Require Import Prelude DnsWire ParseList ParseHost InetAddr InetAddr6 ReadLine Search AddrSort HostsFile.
Open Scope Z_scope.

Definition ch_b : Z := 98.
Definition ch_f : Z := 102.

(** [struct host_query]; [sent_family] is [None] for -1. *)
Record host_query := HostQuery {
  hq_name : list Z; hq_sent_family : option family; hq_want_family : req_family;
  hq_remaining_lookups : list Z; hq_timeouts : Z }.

(** [struct addr_query] *)
Record addr_query := AddrQuery {
  aq_family : family; aq_addr : list Z; aq_remaining_lookups : list Z; aq_timeouts : Z }.

(** The application's callback *)
Record host_result := HostResult { hr_status : status; hr_timeouts : Z; hr_host : option hostent }.

(** A query for [name] and [type] that is answered to the state [q], or the
    callback. *)
Inductive heffect (Q : Type) :=
| HAsk (name : list Z) (type : Z) (q : Q)
| HDone (r : host_result).
Arguments HAsk {Q}.
Arguments HDone {Q}.

Definition free_host (host : option hostent) : M unit :=
  match host with Some host => ares_free_hostent host | None => mret () end.

Definition end_hquery (q : host_query) (st : status) (host : option hostent) : M (heffect host_query) :=
  free_host host ;; c_free ;; c_free ;; mret (HDone (HostResult st (hq_timeouts q) host)).

Definition end_aquery (q : addr_query) (st : status) (host : option hostent) : M (heffect addr_query) :=
  free_host host ;; c_free ;; mret (HDone (HostResult st (aq_timeouts q) host)).

Section lookups.
Variables (inet_addr inet_pton6 : list Z -> option (list Z)).
Variables (file : hosts_file) (lookups : list Z) (sortlist : list apattern).

(** ** By name *)

(** The loop of [next_lookup] from [p] on. *)
Fixpoint next_lookup_from (q : host_query) (status_code : status) (p : list Z) : M (heffect host_query) :=
  match p with
  | [] => end_hquery q status_code None
  | c :: p' =>
      if c =? ch_b then
        let f := if asks_for (hq_want_family q) AF_INET6 then AF_INET6 else AF_INET in
        let q := HostQuery (hq_name q) (Some f) (hq_want_family q) p' (hq_timeouts q) in
        mret (HAsk (hq_name q) (match f with AF_INET6 => T_AAAA | AF_INET => T_A end) q)
      else if c =? ch_f then
        '(st, host) ← file_lookup_name inet_addr inet_pton6 (hq_name q) (hq_want_family q) file;
        if bool_decide (st = ARES_SUCCESS) then end_hquery q st host
        else next_lookup_from q status_code p'
      else next_lookup_from q status_code p'
  end.

Definition next_lookup (q : host_query) (status_code : status) : M (heffect host_query) :=
  next_lookup_from q status_code (hq_remaining_lookups q).

Definition sorted_host (f : family) (host : option hostent) : M (option hostent) :=
  match host, sortlist with
  | Some host, _ :: _ =>
      host ← (match f with AF_INET => sort_addresses host sortlist | AF_INET6 => sort6_addresses host sortlist end);
      mret (Some host)
  | _, _ => mret host
  end.

(** Look up an A record instead. *)
Definition ask_a (q : host_query) : M (heffect host_query) :=
  mret (HAsk (hq_name q) T_A
    (HostQuery (hq_name q) (Some AF_INET) (hq_want_family q) (hq_remaining_lookups q) (hq_timeouts q))).

Definition unspec (q : host_query) : bool := match hq_want_family q with AF_UNSPEC => true | _ => false end.

Definition host_callback (q : host_query) (a : Search.answer) : M (heffect host_query) :=
  timeouts ← int_add (hq_timeouts q) (Search.an_timeouts a);
  let q := HostQuery (hq_name q) (hq_sent_family q) (hq_want_family q) (hq_remaining_lookups q) timeouts in
  let st := Search.an_status a in
  let abuf := Search.an_abuf a in
  if bool_decide (st = ARES_SUCCESS) then
    match hq_sent_family q with
    | Some AF_INET =>
        r ← ares_parse_a_reply abuf true false None;
        host ← sorted_host AF_INET (ar_host r);
        end_hquery q (ar_status r) host
    | Some AF_INET6 =>
        r ← ares_parse_aaaa_reply abuf true false None;
        let st := ar_status r in
        let host := ar_host r in
        let no_address := match host with Some host => bool_decide (h_addr_list host = []) | None => false end in
        if (bool_decide (st = ARES_ENODATA) || bool_decide (st = ARES_EBADRESP)
            || bool_decide (st = ARES_SUCCESS) && no_address) && unspec q then
          free_host host ;; ask_a q
        else
          host ← sorted_host AF_INET6 host;
          end_hquery q st host
    | None => end_hquery q st None
    end
  else if (bool_decide (st = ARES_ENODATA) || bool_decide (st = ARES_EBADRESP) || bool_decide (st = ARES_ETIMEOUT))
          && (bool_decide (hq_sent_family q = Some AF_INET6) && unspec q) then ask_a q
  else if bool_decide (st = ARES_EDESTRUCTION) then end_hquery q st None
  else next_lookup q st.

(** The scan of [fake_hostent]: whether all characters are digits and dots, and
    the number of dots up to there. *)
Fixpoint scan_dots (p : list Z) (numdots : Z) : bool * Z :=
  match p with
  | [] => (true, numdots)
  | c :: p' =>
      if negb ((48 <=? c) && (c <=? 57)) && negb (c =? ch_dot) then (false, numdots)
      else scan_dots p' (if c =? ch_dot then numdots + 1 else numdots)
  end.

(** The address the name itself is, if any. *)
Definition fake_address (name : list Z) (f : req_family) : option (family * list Z) :=
  let v4 :=
    match f with
    | Family _ => let '(valid, numdots) := scan_dots name 0 in
                  if negb (numdots =? 3) || negb valid then None else inet_addr name
    | _ => None
    end in
  match v4 with
  | Some a => Some (AF_INET, a)
  | None => match f with Family AF_INET6 => (fun a => (AF_INET6, a)) <$> inet_pton6 name | _ => None end
  end.

(** [fake_hostent]: the callback, or [None] for a return of 0. *)
Definition fake_hostent (name : list Z) (f : req_family) : M (option host_result) :=
  match fake_address name f with
  | None => mret None
  | Some (g, a) =>
      ok ← c_malloc;
      if negb ok then mret (Some (HostResult ARES_ENOMEM 0 None))
      else c_free ;; mret (Some (HostResult ARES_SUCCESS 0 (Some (Hostent name [] g (addr_size g) [a]))))
  end.

Definition gethostbyname_known (name : list Z) (f : req_family) : M (heffect host_query) :=
  r ← fake_hostent name f;
  match r with
  | Some r => mret (HDone r)
  | None =>
      ok ← c_malloc;
      if negb ok then mret (HDone (HostResult ARES_ENOMEM 0 None))
      else
        ok ← c_malloc;
        if negb ok then c_free ;; mret (HDone (HostResult ARES_ENOMEM 0 None))
        else next_lookup (HostQuery name None f lookups 0) ARES_ECONNREFUSED
  end.

Definition ares_gethostbyname (name : list Z) (f : req_family) : M (heffect host_query) :=
  if bool_decide (f = BadFamily) then mret (HDone (HostResult ARES_ENOTIMP 0 None))
  else gethostbyname_known name f.

(** [ares_gethostbyname_file]; [channel] says whether the channel is not null. *)
Definition ares_gethostbyname_file (channel : bool) (name : list Z) (f : req_family) : M (status * option hostent) :=
  if negb channel then mret (ARES_ENOTFOUND, None)
  else
    '(result, host) ← file_lookup_name inet_addr inet_pton6 name f file;
    mret (result, if bool_decide (result = ARES_SUCCESS) then host else None).

(** ** By address *)

Definition in_addr_arpa : list Z := [105; 110; 45; 97; 100; 100; 114; 46; 97; 114; 112; 97].
Definition ip6_arpa : list Z := [105; 112; 54; 46; 97; 114; 112; 97].

(** [ptr_rr_name], into a buffer of 128 characters *)
Definition ptr_rr_name (f : family) (addr : list Z) : M (list Z) :=
  let name :=
    match f with
    | AF_INET => concat ((fun b => sprintf_u b ++ [ch_dot]) <$> rev addr) ++ in_addr_arpa
    | AF_INET6 =>
        concat ((fun b => sprintf_x (Z.land b 15) ++ [ch_dot] ++ sprintf_x (Z.shiftr b 4) ++ [ch_dot]) <$> rev addr)
        ++ ip6_arpa
    end in
  copy_to 128 name.

Fixpoint next_addr_from (q : addr_query) (p : list Z) : M (heffect addr_query) :=
  match p with
  | [] => end_aquery q ARES_ENOTFOUND None
  | c :: p' =>
      if c =? ch_b then
        name ← ptr_rr_name (aq_family q) (aq_addr q);
        mret (HAsk name T_PTR (AddrQuery (aq_family q) (aq_addr q) p' (aq_timeouts q)))
      else if c =? ch_f then
        '(st, host) ← file_lookup_addr inet_addr inet_pton6 (aq_family q) (aq_addr q) file;
        if bool_decide (st = ARES_SUCCESS) then end_aquery q st host else next_addr_from q p'
      else next_addr_from q p'
  end.

Definition addr_callback (q : addr_query) (a : Search.answer) : M (heffect addr_query) :=
  timeouts ← int_add (aq_timeouts q) (Search.an_timeouts a);
  let q := AddrQuery (aq_family q) (aq_addr q) (aq_remaining_lookups q) timeouts in
  let st := Search.an_status a in
  if bool_decide (st = ARES_SUCCESS) then
    r ← ares_parse_ptr_reply (Search.an_abuf a) (aq_addr q) (aq_family q);
    match r with
    | inl st => end_aquery q st None
    | inr host => end_aquery q ARES_SUCCESS (Some host)
    end
  else if bool_decide (st = ARES_EDESTRUCTION) then end_aquery q st None
  else next_addr_from q (aq_remaining_lookups q).

Definition ares_gethostbyaddr (addr : list Z) (f : req_family) : M (heffect addr_query) :=
  match f with
  | Family f =>
      if negb (Zlen addr =? addr_size f) then mret (HDone (HostResult ARES_ENOTIMP 0 None))
      else
        ok ← c_malloc;
        if negb ok then mret (HDone (HostResult ARES_ENOMEM 0 None))
        else next_addr_from (AddrQuery f addr lookups 0) lookups
  | _ => mret (HDone (HostResult ARES_ENOTIMP 0 None))
  end.

(** ** Runs *)

(** A lookup, given the answers to its queries in turn: what it asked for, and
    what it reported, unless it still waits. *)
Fixpoint lookup_run {Q} (callback : Q -> Search.answer -> M (heffect Q)) (answers : list Search.answer)
    (e : heffect Q) : M (list (list Z * Z) * option host_result) :=
  match e with
  | HDone r => mret ([], Some r)
  | HAsk name type q =>
      match answers with
      | [] => mret ([(name, type)], None)
      | a :: answers' =>
          e ← callback q a;
          '(asked, r) ← lookup_run callback answers' e;
          mret ((name, type) :: asked, r)
      end
  end.

Definition gethostbyname (name : list Z) (f : req_family) (answers : list Search.answer)
    : M (list (list Z * Z) * option host_result) :=
  e ← ares_gethostbyname name f; lookup_run host_callback answers e.

Definition gethostbyaddr (addr : list Z) (f : req_family) (answers : list Search.answer)
    : M (list (list Z * Z) * option host_result) :=
  e ← ares_gethostbyaddr addr f; lookup_run addr_callback answers e.

End lookups.

(** ** Proofs: what an answer gives *)

(** The data of a record lies inside the message. *)
Lemma rrs_at_data abuf n p l :
  rrs_at abuf n p l -> Forall (fun r => 0 <= rr_data r /\ rr_data r + rr_len r <= Zlen abuf) l.
Proof.
  induction 1 as [|n p ls k tr t c ttl l rest Hn Ht Hc Httl Hl Hfit Hr IH]; [constructor|].
  destruct (name_at_range _ _ _ _ _ Hn). constructor; [|done]. cbn. unfold RRFIXEDSZ in *. lia.
Qed.

(** The addresses of a reply have the size asked for. *)
Lemma addr_reading_size abuf atype asize a :
  0 <= asize -> addr_reading abuf atype asize a -> Forall (fun x => Zlen x.1 = asize) (an_addrs a).
Proof.
  intros Hs (q & rrs & (n & p & _ & Hr) & Hst). apply rrs_at_data in Hr.
  assert (H0 : Forall (fun x : list Z * Z => Zlen x.1 = asize) (an_addrs (ParseHost.Answer q [] [] INT_MAX)))
    by constructor.
  remember (ParseHost.Answer q [] [] INT_MAX) as a0 eqn:E0. clear E0.
  induction Hst as [|r rrs a1 a2 a3 Hstep Hst IH]; [done|].
  apply Forall_cons in Hr as [[Hd Hfit] Hr]. apply IH; [done|]. unfold addr_step in Hstep.
  destruct (selects T_CNAME r); [by destruct Hstep as (d & k & _ & ->)|].
  destruct (selects atype r && (rr_len r =? asize) && _) eqn:E; [|by subst].
  subst a2. cbn [an_addrs]. apply Forall_app. split; [done|]. constructor; [|constructor]. cbn [fst].
  apply andb_true_iff in E as [[_ E]%andb_true_iff _]. apply Z.eqb_eq in E.
  unfold Zlen. rewrite slice_length; lia.
Qed.

(** ** Proofs: runs *)

(** An answer of a message that can be decoded. *)
Definition answer_ok (a : Search.answer) : Prop :=
  0 <= Search.an_timeouts a /\ Zlen (Search.an_abuf a) <= 32767.

(** A result has a host entry exactly when it is a success. *)
Definition result_ok (r : host_result) : Prop := hr_status r = ARES_SUCCESS <-> is_Some (hr_host r).

Lemma lookup_run_done {Q} (cb : Q -> Search.answer -> M (heffect Q)) answers r :
  lookup_run cb answers (HDone r) = mret ([], Some r).
Proof. by destruct answers. Qed.

(** A lookup that keeps [blocks] blocks while it waits, asks only for what
    [asks] allows, and in a state with [waits n t], where [t] are the time-outs
    so far, makes at most [n] more queries after the next answer. *)
Section run.
Context {Q : Type} (cb : Q -> Search.answer -> M (heffect Q)) (blocks : Z).
Context (asks : list Z * Z -> Prop) (waits : nat -> Z -> Q -> Prop).

Definition step_post (t : Z) (bound : nat) (h : heap) (e : heffect Q) (h' : heap) : Prop :=
  match e with
  | HDone r => live h' = live h - blocks /\ result_ok r /\ hr_timeouts r = t
  | HAsk n type q => live h' = live h /\ asks (n, type) /\ exists m, (m < bound)%nat /\ waits m t q
  end.

(** It asks for what is allowed, at most [bound] times; it reports once the
    answers suffice, with the time-outs of the answers it got. *)
Definition run_post (t : Z) (bound : nat) (answers : list Search.answer) (h : heap)
    (r : list (list Z * Z) * option host_result) (h' : heap) : Prop :=
  Forall asks r.1 /\ (length r.1 <= bound)%nat /\
  match r.2 with
  | None => live h' = live h /\ (length answers < bound)%nat
  | Some res => live h' = live h - blocks /\ result_ok res /\
      hr_timeouts res = t + total (take (length r.1) answers)
  end.

Lemma step_post_mono t b1 b2 h h1 e h' :
  (b1 <= b2)%nat -> live h1 = live h -> step_post t b1 h1 e h' -> step_post t b2 h e h'.
Proof.
  intros Hb Hl. unfold step_post. rewrite Hl. destruct e; [|done].
  intros (H1 & H2 & m & Hm & Hw). split; [done|]. split; [done|]. exists m. split; [lia|done].
Qed.

Lemma run_post_done t bound answers h r h' :
  live h' = live h - blocks -> result_ok r -> hr_timeouts r = t -> run_post t bound answers h ([], Some r) h'.
Proof.
  intros Hl Hr Ht. split; [apply Forall_nil_2|]. split; [cbn; lia|]. cbn. split; [done|]. split; [done|].
  rewrite take_0. cbn. lia.
Qed.

Hypothesis cb_step : forall m t q a h, waits m t q -> blocks <= live h -> answer_ok a ->
  0 <= t -> t + Search.an_timeouts a <= INT_MAX -> wp (cb q a) h (step_post (t + Search.an_timeouts a) m h).

Lemma wp_lookup_run answers e t bound h h0 :
  step_post t bound h0 e h -> blocks <= live h0 ->
  Forall answer_ok answers -> 0 <= t -> t + total answers <= INT_MAX ->
  wp (lookup_run cb answers e) h (run_post t bound answers h0).
Proof.
  revert e t bound h h0. induction answers as [|a answers IH]; intros e t bound h h0 He Hl Hans Ht Hmax.
  { destruct e as [n ty q|r]; cbn [lookup_run]; wp_step.
    - destruct He as (H1 & H2 & m & Hm & _). split; [by apply Forall_singleton|]. split; [cbn; lia|].
      cbn. split; [done|lia].
    - destruct He as (H1 & H2 & H3). by apply run_post_done. }
  destruct e as [n ty q|r].
  2: { rewrite lookup_run_done. wp_step. destruct He as (H1 & H2 & H3). by apply run_post_done. }
  destruct He as (H1 & H2 & m & Hm & Hw). cbn [lookup_run].
  apply Forall_cons in Hans as [Ha Hans]. pose proof Ha as [Ha0 _].
  assert (Htot : total (a :: answers) = Search.an_timeouts a + total answers) by done.
  assert (Hnn : 0 <= total answers).
  { clear -Hans. induction Hans as [|x l [Hx _] Hl IH]; cbn; [lia|]. unfold total in IH. lia. }
  wp_step. eapply wp_mono; [apply (cb_step m t); try done; lia|]. intros e h1 He.
  wp_step. eapply wp_mono; [apply (IH e _ _ _ _ He); try done; lia|]. intros [asked r] h2 HP. wp_step.
  unfold run_post in *. cbn [fst snd] in *. destruct HP as (HF & Hlen & HP).
  split; [by apply Forall_cons_2|]. split; [cbn; lia|]. destruct r as [res|].
  - destruct HP as (HP1 & HP2 & ->). split; [lia|]. split; [done|].
    change (length ((n, ty) :: asked)) with (S (length asked)).
    change (total (take (S (length asked)) (a :: answers)))
      with (Search.an_timeouts a + total (take (length asked) answers)). lia.
  - destruct HP as (HP1 & HP2). split; [lia|cbn; lia].
Qed.
End run.

(** ** Proofs: lookups by name *)

(** The addresses of an entry are sorted. *)
Definition sorted_of (f : family) (sortlist : list apattern) (host host' : option hostent) : Prop :=
  match host, host' with
  | Some x, Some y => exists l, y = set_addr_list l x /\ stable_sort (rank f sortlist) (h_addr_list x) l
  | None, None => True
  | _, _ => False
  end.

Lemma stable_sort_nil {A} (l : list A) key : (forall a, key a = 0) -> stable_sort key l l.
Proof.
  intros Hk. split_and!; [|done|done]. induction l as [|a l IH]; constructor; [done|].
  apply Forall_forall. intros b _. rewrite !Hk. lia.
Qed.

Lemma wp_sorted_host f sortlist host h :
  Forall pattern_ok sortlist ->
  match host with Some x => Forall (fun a => Zlen a = addr_size f) (h_addr_list x) | None => True end ->
  wp (sorted_host sortlist f host) h (fun host' h' => h' = h /\ sorted_of f sortlist host host').
Proof.
  intros Hp Ha. unfold sorted_host. destruct host as [x|]; [|by wp_step].
  destruct sortlist as [|p l] eqn:El.
  { wp_step. split; [done|]. exists (h_addr_list x). split; [by destruct x|]. by apply stable_sort_nil. }
  rewrite <- El in *. destruct (wp_sort_addresses x sortlist h Hp) as [H4 H6].
  wp_step. destruct f; (eapply wp_mono; [by apply H4 || apply H6|]; intros y h' (-> & -> & Hs); wp_step;
    split; [done|]; eexists; split; [done|exact Hs]).
Qed.

Lemma sorted_of_blocks f sortlist host host' :
  sorted_of f sortlist host host' -> host_blocks host' = host_blocks host /\ (is_Some host' <-> is_Some host).
Proof.
  destruct host as [x|], host' as [y|]; try done. intros (l & -> & _ & Hp & _).
  split; [|split; by eexists]. unfold host_blocks, hostent_blocks. cbn. f_equal.
  destruct l, (h_addr_list x); try done; apply Permutation_length in Hp; cbn in Hp; lia.
Qed.

Lemma lookup_post_status inet_addr inet_pton6 wanted f file h r h' :
  lookup_post inet_addr inet_pton6 wanted f file h r h' -> r.1 = ARES_SUCCESS <-> is_Some r.2.
Proof.
  assert (Hno : forall st, st <> ARES_SUCCESS -> st = ARES_SUCCESS <-> is_Some (@None hostent))
    by (intros st Hst; split; [done|by intros []]).
  intros [_ [[-> _]|[-> _]]]; [|by apply Hno].
  destruct file as [errno|fp]; cbn [lookup_spec]; [apply Hno; by destruct (_ || _)|].
  destruct (find wanted _); cbn; [split; [by eexists|done]|]. apply Hno. by destruct (st_fails fp).
Qed.

Lemma host_blocks_nonneg host : 0 <= host_blocks host.
Proof.
  destruct host as [x|]; cbn; [|lia]. unfold hostent_blocks. pose proof (Zlen_nonneg (h_aliases x)).
  destruct (h_addr_list x); lia.
Qed.

Lemma wp_free_host host h (Q : unit -> heap -> Prop) :
  host_blocks host <= live h -> Q () (Heap (live h - host_blocks host) (oracle h)) -> wp (free_host host) h Q.
Proof.
  intros Hl HQ. destruct host as [x|]; cbn [free_host host_blocks] in *; [by apply wp_free_hostent|].
  wp_step. destruct h. cbn in *. by rewrite Z.sub_0_r in HQ.
Qed.

Lemma wp_end_hquery q st host h (Q : heffect host_query -> heap -> Prop) :
  host_blocks host + 2 <= live h ->
  Q (HDone (HostResult st (hq_timeouts q) host)) (Heap (live h - host_blocks host - 2) (oracle h)) ->
  wp (end_hquery q st host) h Q.
Proof.
  intros Hl HQ. unfold end_hquery. wp_step. apply wp_free_host; [lia|]. do 5 wp_step. cbn.
  by replace (live h - host_blocks host - 1 - 1) with (live h - host_blocks host - 2) by lia.
Qed.

(** The queries that a lookup can still make: two for each DNS lookup that is
    left, and the one for an A record. *)
Definition count_b (p : list Z) : nat := length (filter (fun c => c = ch_b) p).

Definition budget (q : host_query) : nat :=
  2 * count_b (hq_remaining_lookups q) +
  if bool_decide (hq_sent_family q = Some AF_INET6) && unspec q then 1 else 0.

(** The queries and the waiting states of a lookup of [name]. *)
Definition name_asks (name : list Z) (x : list Z * Z) : Prop := x.1 = name /\ x.2 ∈ [T_A; T_AAAA].

Definition name_waits (name : list Z) (want : req_family) (n : nat) (t : Z) (q : host_query) : Prop :=
  hq_name q = name /\ hq_want_family q = want /\ is_Some (hq_sent_family q) /\ hq_timeouts q = t /\ (budget q <= n)%nat.

Definition name_step (name : list Z) (want : req_family) :=
  step_post 2 (name_asks name) (name_waits name want).

Section by_name.
Context (inet_addr inet_pton6 : list Z -> option (list Z)) (file : hosts_file) (sortlist : list apattern).
Context (Hfile : hosts_ok file) (Hsort : Forall pattern_ok sortlist).

Lemma wp_next_lookup_from q st p h :
  st <> ARES_SUCCESS -> hq_want_family q <> BadFamily -> text (hq_name q) -> 2 <= live h ->
  wp (next_lookup_from inet_addr inet_pton6 file q st p) h
    (name_step (hq_name q) (hq_want_family q) (hq_timeouts q) (2 * count_b p) h).
Proof.
  intros Hst Hwant Hname. revert h. induction p as [|c p IH]; intros h Hl; cbn [next_lookup_from].
  { apply wp_end_hquery; [cbn; lia|]. cbn. split_and!; [lia| |done]. split; [done|by intros []]. }
  unfold count_b. rewrite filter_cons. destruct (Z.eqb_spec c ch_b) as [->|Hb].
  { rewrite decide_True by done. wp_step. split; [done|]. split; [split; [done|]|].
    - cbn [snd]. destruct (asks_for _ AF_INET6); [right; left|left].
    - eexists. split; [|by split_and!].
      unfold budget, unspec. cbn [hq_remaining_lookups hq_sent_family hq_want_family length].
      fold (count_b p). destruct (_ && _); lia. }
  rewrite decide_False by done. fold (count_b p). destruct (c =? ch_f); [|by apply IH].
  wp_step. eapply wp_mono; [apply wp_lookup_file; [done|done|lia]|]. intros [st' host] h1 HP.
  pose proof (lookup_post_status _ _ _ _ _ _ _ _ HP) as Hok. destruct HP as [Hl1 _]. cbn [fst snd] in *.
  pose proof (host_blocks_nonneg host). case_bool_decide as Es.
  - apply wp_end_hquery; [lia|]. cbn. split_and!; [lia|done|done].
  - assert (host = None) as -> by (destruct host; [|done]; destruct Es; apply Hok; by eexists).
    cbn in Hl1. eapply wp_mono; [apply IH; lia|]. intros e h2. apply step_post_mono; [done|lia].
Qed.

(** What the parsers of addresses give: a status, and with success an entry
    whose addresses have the size of the family. *)
Lemma addr_post_host abuf atype f h r h' :
  addr_post abuf atype (addr_size f) f true false None h r h' ->
  live h' = live h + host_blocks (ar_host r) /\ (ar_status r = ARES_SUCCESS <-> is_Some (ar_host r)) /\
  match ar_host r with Some x => Forall (fun a => Zlen a = addr_size f) (h_addr_list x) | None => True end.
Proof.
  assert (Hno : forall st, st <> ARES_SUCCESS -> st = ARES_SUCCESS <-> is_Some (@None hostent))
    by (intros st Hst; split; [done|by intros []]).
  unfold addr_post. destruct (ar_status r); try done;
    try (intros (-> & -> & _); cbn; split_and!; [lia|by apply Hno|done]).
  intros (a & Ha & _ & -> & -> & _). split_and!; [done|split; [by eexists|done]|].
  cbn [addr_hostent h_addr_list]. apply Forall_fmap.
  apply addr_reading_size in Ha; [|by destruct f]. exact Ha.
Qed.

Lemma wp_ask_a q h bound :
  hq_sent_family q = Some AF_INET6 -> unspec q = true -> (budget q <= bound)%nat ->
  wp (ask_a q) h (name_step (hq_name q) (hq_want_family q) (hq_timeouts q) bound h).
Proof.
  intros Hs Hu Hb. unfold ask_a. wp_step. split; [done|]. split; [split; [done|left]|].
  assert (Hbq : budget q = (2 * count_b (hq_remaining_lookups q) + 1)%nat)
    by (unfold budget; by rewrite Hs, Hu, bool_decide_true).
  exists (2 * count_b (hq_remaining_lookups q))%nat. split; [lia|]. split_and!; try done.
  unfold budget. cbn [hq_remaining_lookups hq_sent_family]. rewrite bool_decide_false by done. cbn [andb]. lia.
Qed.

Lemma wp_host_callback q a h :
  hq_want_family q <> BadFamily -> text (hq_name q) -> is_Some (hq_sent_family q) -> 2 <= live h ->
  answer_ok a -> 0 <= hq_timeouts q -> hq_timeouts q + Search.an_timeouts a <= INT_MAX ->
  wp (host_callback inet_addr inet_pton6 file sortlist q a) h
    (name_step (hq_name q) (hq_want_family q) (hq_timeouts q + Search.an_timeouts a) (budget q) h).
Proof.
  intros Hwant Hname [f Hf] Hl [Hto Hlen] Ht Hmax. unfold host_callback. wp_step.
  apply wp_int_add; [unfold INT_MIN; lia|]. set (t := hq_timeouts q + Search.an_timeouts a).
  set (q' := HostQuery (hq_name q) (hq_sent_family q) (hq_want_family q) (hq_remaining_lookups q) t).
  assert (Hend : forall st host h1, host_blocks host + 2 <= live h1 -> live h1 - host_blocks host = live h ->
    (st = ARES_SUCCESS <-> is_Some host) ->
    wp (end_hquery q' st host) h1 (name_step (hq_name q) (hq_want_family q) t (budget q) h)).
  { intros st host h1 H1 H2 H3. apply wp_end_hquery; [done|]. cbn. split_and!; [lia|done|done]. }
  assert (Hask : forall h1, live h1 = live h -> hq_sent_family q = Some AF_INET6 -> unspec q = true ->
    wp (ask_a q') h1 (name_step (hq_name q) (hq_want_family q) t (budget q) h)).
  { intros h1 Hl1 H6 Hu. eapply wp_mono; [by apply (wp_ask_a q' h1 (budget q))|].
    intros e h2. by apply step_post_mono. }
  assert (Hparse : forall (g : family) r (h1 h2 : heap), live h1 = live h + host_blocks (ar_host r) ->
    (ar_status r = ARES_SUCCESS <-> is_Some (ar_host r)) ->
    match ar_host r with Some x => Forall (fun a => Zlen a = addr_size g) (h_addr_list x) | None => True end ->
    wp (host ← sorted_host sortlist g (ar_host r); end_hquery q' (ar_status r) host) h1
      (name_step (hq_name q) (hq_want_family q) t (budget q) h)).
  { intros g r h1 _ Hl1 Hr Ha. wp_step. eapply wp_mono; [by apply wp_sorted_host|]. intros host h3 [-> Hs].
    apply sorted_of_blocks in Hs as [Hb Hi]. pose proof (host_blocks_nonneg (ar_host r)).
    apply Hend; [lia|lia|by rewrite Hi]. }
  cbn zeta. case_bool_decide as Est.
  - cbn [hq_sent_family q']. rewrite Hf. destruct f.
    + wp_step. eapply wp_mono; [apply wp_parse_addr; try done; lia|]. intros r h1 Hr.
      apply (addr_post_host _ _ AF_INET) in Hr as (H1 & H2 & H3). by apply Hparse.
    + wp_step. eapply wp_mono; [apply wp_parse_addr; try done; lia|]. intros r h1 Hr.
      apply (addr_post_host _ _ AF_INET6) in Hr as (H1 & H2 & H3). pose proof (host_blocks_nonneg (ar_host r)).
      destruct (_ && unspec q') eqn:Eb; [|by apply Hparse].
      apply andb_true_iff in Eb as [_ Hu]. wp_step. apply wp_free_host; [lia|]. apply Hask; [cbn; lia|done|done].
  - destruct (_ && _) eqn:Eb.
    + apply andb_true_iff in Eb as [_ [E6 Hu]%andb_true_iff]. apply bool_decide_eq_true in E6. by apply Hask.
    + destruct (bool_decide (Search.an_status a = ARES_EDESTRUCTION)).
      * apply Hend; [cbn; lia|cbn; lia|]. split; [congruence|by intros []].
      * eapply wp_mono; [by apply wp_next_lookup_from|]. intros e h1. apply step_post_mono; [|done].
        unfold budget. cbn [hq_remaining_lookups q']. lia.
Qed.

Lemma host_callback_step name want m t q a h :
  want <> BadFamily -> text name -> name_waits name want m t q -> 2 <= live h -> answer_ok a ->
  0 <= t -> t + Search.an_timeouts a <= INT_MAX ->
  wp (host_callback inet_addr inet_pton6 file sortlist q a) h
    (step_post 2 (name_asks name) (name_waits name want) (t + Search.an_timeouts a) m h).
Proof.
  intros Hwant Hname (<- & <- & Hs & <- & Hb) Hl Ha Ht Hmax. eapply wp_mono; [by apply wp_host_callback|].
  intros e h'. by apply step_post_mono.
Qed.

(** What [fake_hostent] gives. *)
Lemma wp_fake_hostent name f h :
  0 <= live h ->
  wp (fake_hostent inet_addr inet_pton6 name f) h (fun r h' => live h' = live h /\
    match r with
    | Some res => result_ok res /\ hr_timeouts res = 0 /\
        unless_oom (fun r => exists g a, fake_address inet_addr inet_pton6 name f = Some (g, a) /\
            r = HostResult ARES_SUCCESS 0 (Some (Hostent name [] g (addr_size g) [a])))
          (fun r => r = HostResult ARES_ENOMEM 0 None) h res h'
    | None => fake_address inet_addr inet_pton6 name f = None /\ h' = h
    end).
Proof.
  intros Hl. unfold fake_hostent. destruct (fake_address _ _ name f) as [[g a]|]; [|by wp_step].
  wp_step. apply wp_malloc; intros o Ho; cbn [negb].
  - do 3 wp_step. split; [cbn; lia|]. split_and!; [split; [by eexists|done]|done|]. left. split; [by eauto|done].
  - wp_step. split; [done|]. split_and!; [split; [done|by intros []]|done|]. by right.
Qed.
End by_name.

(** ** What is proved of lookups by name *)

(** What a lookup by name leaves: see the theorem below. *)
Definition by_name_post (lookups name : list Z) (answers : list Search.answer) (h : heap)
    (r : list (list Z * Z) * option host_result) (h' : heap) : Prop :=
  Forall (fun x => x.1 = name /\ x.2 ∈ [T_A; T_AAAA]) r.1 /\ (length r.1 <= 2 * count_b lookups)%nat /\
  match r.2 with
  | None => live h' = live h + 2 /\ (length answers < 2 * count_b lookups)%nat
  | Some res => live h' = live h /\ result_ok res /\ hr_timeouts res = total (take (length r.1) answers)
  end.

Lemma no_host_ok st : st <> ARES_SUCCESS -> result_ok (HostResult st 0 None).
Proof. intros Hst. split; [done|by intros []]. Qed.

Lemma wp_by_name_done {Q} (cb : Q -> Search.answer -> M (heffect Q)) lookups name answers res h h' :
  live h' = live h -> result_ok res -> hr_timeouts res = 0 ->
  wp (lookup_run cb answers (HDone res)) h' (by_name_post lookups name answers h).
Proof.
  intros H1 H2 H3. rewrite lookup_run_done. wp_step. split; [apply Forall_nil_2|]. split; [cbn; lia|].
  cbn. split; [done|]. split; [done|]. by rewrite take_0.
Qed.

(** C29. A lookup by name is safe, ends and reports once. For any name, family and
    lookups string, a hosts file of text (no NUL, less than 2^28 bytes, a read error
    only between lines) or none, a sort list whose
    prefix lengths are within their addresses, and any answers of at most 32767
    bytes whose time-outs add up to an [int], [ares_gethostbyname] and the callbacks it is run with return without
    undefined behaviour; they ask for A and AAAA records of the name only, at
    most twice for each DNS lookup in the string, and with that many answers
    they have reported: a host entry exactly with success, the time-outs of
    all answers, and every block released. *)
Theorem gethostbyname_safe inet_addr inet_pton6 file lookups sortlist name f answers h :
  hosts_ok file -> Forall pattern_ok sortlist -> text name -> 0 <= live h ->
  Forall answer_ok answers -> total answers <= INT_MAX ->
  wp (gethostbyname inet_addr inet_pton6 file lookups sortlist name f answers) h (fun r h' =>
    Forall (fun x => x.1 = name /\ x.2 ∈ [T_A; T_AAAA]) r.1 /\ (length r.1 <= 2 * count_b lookups)%nat /\
    match r.2 with
    | None => live h' = live h + 2 /\ (length answers < 2 * count_b lookups)%nat
    | Some res => live h' = live h /\ result_ok res /\ hr_timeouts res = total (take (length r.1) answers)
    end).
Proof.
  intros Hfile Hsort Hname Hl Hans Hmax.
  change (wp (gethostbyname inet_addr inet_pton6 file lookups sortlist name f answers) h (by_name_post lookups name answers h)).
  unfold gethostbyname, ares_gethostbyname. wp_step.
  case_bool_decide as Hf; [wp_step; by apply wp_by_name_done; [|apply no_host_ok|]|].
  unfold gethostbyname_known. wp_step. eapply wp_mono; [by apply wp_fake_hostent|]. intros [res|] h1 (Hl1 & H1).
  { destruct H1 as (H1 & H2 & _). wp_step. by apply wp_by_name_done. }
  wp_step. apply wp_malloc; intros o1 _; cbn [negb]; [|wp_step; apply wp_by_name_done; [done|by apply no_host_ok|done]].
  wp_step. apply wp_malloc; intros o2 _; cbn [negb];
    [|do 3 wp_step; apply wp_by_name_done; [cbn; lia|by apply no_host_ok|done]].
  eapply wp_mono; [apply wp_next_lookup_from; try done; cbn; lia|]. cbn [hq_name hq_want_family hq_timeouts hq_remaining_lookups].
  intros e h2 He. eapply wp_mono.
  { eapply (wp_lookup_run _ 2 (name_asks name) (name_waits name f)); [|exact He|cbn; lia|done|lia|lia].
    intros. by apply host_callback_step. }
  intros r h3 (HF & Hlen & HP). split; [done|]. split; [done|]. cbn [live] in HP.
  destruct (r.2) as [res|]; [destruct HP as (? & ? & ->)|destruct HP]; (split; [lia|done]).
Qed.

(** From a fresh lookup with memory to spare to its first step. *)
Lemma wp_gethostbyname_start inet_addr inet_pton6 file lookups sortlist name f answers h
    (Q : list (list Z * Z) * option host_result -> heap -> Prop) :
  f <> BadFamily -> oracle h = [] -> 0 <= live h -> fake_address inet_addr inet_pton6 name f = None ->
  wp (e ← next_lookup_from inet_addr inet_pton6 file (HostQuery name None f lookups 0) ARES_ECONNREFUSED lookups;
      lookup_run (host_callback inet_addr inet_pton6 file sortlist) answers e) (Heap (live h + 2) []) Q ->
  wp (gethostbyname inet_addr inet_pton6 file lookups sortlist name f answers) h Q.
Proof.
  intros Hf Ho Hl Hfake HQ. apply wp_bind_iff in HQ. unfold gethostbyname, ares_gethostbyname, gethostbyname_known.
  rewrite bool_decide_false by done. wp_step. unfold fake_hostent. rewrite Hfake. do 3 wp_step.
  apply wp_malloc; [|done]. intros o1 Ho1. rewrite (Ho1 Ho). cbn [negb]. wp_step.
  apply wp_malloc; [|done]. intros o2 Ho2. rewrite (Ho2 eq_refl). cbn [negb live].
  replace (live h + 1 + 1) with (live h + 2) by lia. exact HQ.
Qed.

(** A lookup by name finds the host. With memory to spare and a name that is
    not an address itself: if the hosts file comes first and has an entry for
    the name, that entry is reported and no query is made; if DNS comes first
    and an IPv4 host is asked for, the first answer decides: the report carries
    the status and the entry that the reply stands for, its addresses in the
    order of the sort list. *)
Theorem gethostbyname_finds inet_addr inet_pton6 file rest sortlist name f answers h :
  hosts_ok file -> Forall pattern_ok sortlist -> text name -> oracle h = [] -> 0 <= live h ->
  f <> BadFamily -> fake_address inet_addr inet_pton6 name f = None ->
  (forall e, lookup_spec inet_addr inet_pton6 (name_matches name) f file = (ARES_SUCCESS, Some e) ->
    wp (gethostbyname inet_addr inet_pton6 file (ch_f :: rest) sortlist name f answers) h (fun r _ =>
      r = ([], Some (HostResult ARES_SUCCESS 0 (Some e))))) /\
  (forall a, f = Family AF_INET -> head answers = Some a -> Search.an_status a = ARES_SUCCESS ->
    0 <= Search.an_timeouts a <= INT_MAX -> Zlen (Search.an_abuf a) <= 32767 ->
    wp (gethostbyname inet_addr inet_pton6 file (ch_b :: rest) sortlist name f answers) h (fun r _ =>
      exists p res h1 h2, r = ([(name, T_A)], Some res) /\
        addr_post (Search.an_abuf a) T_A 4 AF_INET true false None h1 p h2 /\ oracle h1 = [] /\
        hr_status res = ar_status p /\ hr_timeouts res = Search.an_timeouts a /\
        sorted_of AF_INET sortlist (ar_host p) (hr_host res))).
Proof.
  intros Hfile Hsort Hname Ho Hl Hf Hfake. split.
  - intros e He. apply wp_gethostbyname_start; try done. cbn [next_lookup_from]. wp_step.
    change (ch_f =? ch_b) with false. rewrite Z.eqb_refl. cbv iota. cbn [hq_name hq_want_family]. wp_step.
    eapply wp_mono; [apply wp_lookup_file; [done|done|cbn; lia]|]. intros [st host] h1 [Hl1 [[HP _]|[_ []]]]; [|done].
    rewrite He in HP. injection HP as -> ->. rewrite bool_decide_true by done.
    pose proof (host_blocks_nonneg (Some e)). cbn [live snd] in Hl1.
    apply wp_end_hquery; [lia|]. rewrite lookup_run_done. by wp_step.
  - intros a -> Ha Hst Hto Hlen. destruct answers as [|a' answers]; [done|]. injection Ha as ->.
    apply wp_gethostbyname_start; try done. cbn [next_lookup_from]. rewrite Z.eqb_refl. cbv iota zeta.
    cbn [hq_want_family hq_name hq_timeouts asks_for]. rewrite bool_decide_false by done. do 2 wp_step.
    cbn [lookup_run]. wp_step. unfold host_callback. wp_step. apply wp_int_add; [cbn; unfold INT_MIN; lia|].
    cbn [hq_timeouts hq_sent_family hq_name hq_want_family hq_remaining_lookups]. cbv zeta.
    rewrite bool_decide_true by done. wp_step.
    eapply wp_mono; [apply wp_parse_addr; try done; cbn; lia|]. intros p h1 Hp. pose proof Hp as Hp'.
    apply (addr_post_host _ _ AF_INET) in Hp' as (H1 & H2 & H3). wp_step.
    eapply wp_mono; [by apply wp_sorted_host|]. intros host h2 [-> Hs].
    pose proof (sorted_of_blocks _ _ _ _ Hs) as [Hb _]. pose proof (host_blocks_nonneg host). cbn [live] in H1.
    apply wp_end_hquery; [lia|]. rewrite lookup_run_done. do 3 wp_step. do 4 eexists. split; [done|].
    split; [exact Hp|]. cbn. done.
Qed.

(** ** Lookups by address *)

Definition bytes (l : list Z) : Prop := Forall (fun b => 0 <= b < 256) l.

(** The reverse name fits. *)
Lemma concat_length (g : Z -> list Z) l k :
  Forall (fun b => Zlen (g b) <= k) l -> Zlen (concat (g <$> l)) <= k * Zlen l.
Proof.
  induction 1 as [|b l Hb Hl IH]; [unfold Zlen; cbn; lia|]. rewrite fmap_cons. cbn [concat].
  rewrite Zlen_app, Zlen_cons. nia.
Qed.

Lemma sprintf_x_nibble n : 0 <= n < 16 -> Zlen (sprintf_x n) = 1.
Proof. intros Hn. unfold sprintf_x. cbn [print_base]. destruct (Z.ltb_spec n 16); [done|lia]. Qed.

Lemma nibbles b : 0 <= b < 256 -> 0 <= Z.land b 15 < 16 /\ 0 <= Z.shiftr b 4 < 16.
Proof.
  intros Hb. change 15 with (Z.ones 4). rewrite Z.land_ones, Z.shiftr_div_pow2 by lia.
  split; [by apply Z.mod_pos_bound|]. split; [apply Z.div_pos; lia|apply Z.div_lt_upper_bound; lia].
Qed.

(** The name that is asked for the address. *)
Definition reverse_name (f : family) (addr : list Z) : list Z :=
  match f with
  | AF_INET => concat ((fun b => sprintf_u b ++ [ch_dot]) <$> rev addr) ++ in_addr_arpa
  | AF_INET6 =>
      concat ((fun b => sprintf_x (Z.land b 15) ++ [ch_dot] ++ sprintf_x (Z.shiftr b 4) ++ [ch_dot]) <$> rev addr)
      ++ ip6_arpa
  end.

Lemma wp_ptr_rr_name f addr h (Q : list Z -> heap -> Prop) :
  Zlen addr = addr_size f -> bytes addr -> Q (reverse_name f addr) h -> wp (ptr_rr_name f addr) h Q.
Proof.
  intros Hs Hb HQ. unfold ptr_rr_name, copy_to. change (match f with AF_INET => _ | AF_INET6 => _ end) with (reverse_name f addr).
  destruct (Z.ltb_spec (Zlen (reverse_name f addr)) 128) as [|Hge]; [by wp_step|].
  assert (Hr : Zlen (rev addr) = Zlen addr) by (unfold Zlen; by rewrite length_rev).
  apply Forall_rev in Hb. destruct f; cbn [reverse_name addr_size] in *; rewrite Zlen_app in Hge.
  - assert (H : Zlen (concat ((fun b => sprintf_u b ++ [ch_dot]) <$> rev addr)) <= 4 * Zlen (rev addr)).
    { apply concat_length. eapply Forall_impl; [exact Hb|]. intros b Hb'. cbn beta. rewrite Zlen_app.
      pose proof (sprintf_u_len b Hb'). change (Zlen [ch_dot]) with 1. lia. }
    change (Zlen in_addr_arpa) with 12 in Hge. lia.
  - assert (H : Zlen (concat ((fun b => sprintf_x (Z.land b 15) ++ [ch_dot] ++ sprintf_x (Z.shiftr b 4) ++ [ch_dot])
      <$> rev addr)) <= 4 * Zlen (rev addr)).
    { apply concat_length. eapply Forall_impl; [exact Hb|]. intros b Hb'. cbn beta. destruct (nibbles b Hb').
      rewrite !Zlen_app, !sprintf_x_nibble by done. change (Zlen [ch_dot]) with 1. lia. }
    change (Zlen ip6_arpa) with 8 in Hge. lia.
Qed.

Lemma wp_end_aquery q st host h (Q : heffect addr_query -> heap -> Prop) :
  host_blocks host + 1 <= live h ->
  Q (HDone (HostResult st (aq_timeouts q) host)) (Heap (live h - host_blocks host - 1) (oracle h)) ->
  wp (end_aquery q st host) h Q.
Proof. intros Hl HQ. unfold end_aquery. wp_step. apply wp_free_host; [lia|]. do 3 wp_step. exact HQ. Qed.

Section by_addr.
Context (inet_addr inet_pton6 : list Z -> option (list Z)) (file : hosts_file) (f : family) (addr : list Z).
Context (Hfile : hosts_ok file) (Hsize : Zlen addr = addr_size f) (Hbytes : bytes addr).

Definition addr_asks (x : list Z * Z) : Prop := x = (reverse_name f addr, T_PTR).

Definition addr_waits (n : nat) (t : Z) (q : addr_query) : Prop :=
  exists p, q = AddrQuery f addr p t /\ (count_b p <= n)%nat.

Local Abbreviation addr_step_post := (step_post 1 addr_asks addr_waits).

Lemma wp_next_addr_from t rem p h :
  1 <= live h ->
  wp (next_addr_from inet_addr inet_pton6 file (AddrQuery f addr rem t) p) h (addr_step_post t (count_b p) h).
Proof.
  revert h. induction p as [|c p IH]; intros h Hl; cbn [next_addr_from].
  { apply wp_end_aquery; [cbn; lia|]. cbn. split; [lia|]. split; [|done]. split; [done|by intros []]. }
  unfold count_b. rewrite filter_cons. destruct (Z.eqb_spec c ch_b) as [->|Hb].
  { rewrite decide_True by done. cbn [aq_family aq_addr aq_timeouts length]. wp_step.
    apply wp_ptr_rr_name; [done|done|]. wp_step. split; [done|]. split; [done|].
    exists (count_b p). split; [unfold count_b; lia|]. by exists p. }
  rewrite decide_False by done. fold (count_b p). destruct (c =? ch_f); [|by apply IH]. cbn [aq_family aq_addr].
  wp_step. eapply wp_mono; [apply wp_lookup_file; [done|done|lia]|]. intros [st' host] h1 HP.
  pose proof (lookup_post_status _ _ _ _ _ _ _ _ HP) as Hok. destruct HP as [Hl1 _]. cbn [fst snd] in *.
  pose proof (host_blocks_nonneg host). case_bool_decide as Es.
  - apply wp_end_aquery; [lia|]. cbn. split; [lia|]. split; [done|done].
  - assert (host = None) as -> by (destruct host; [|done]; destruct Es; apply Hok; by eexists).
    cbn in Hl1. eapply wp_mono; [apply IH; lia|]. intros e h2. apply step_post_mono; [done|lia].
Qed.

Lemma wp_addr_callback p t a h :
  1 <= live h -> answer_ok a -> 0 <= t -> t + Search.an_timeouts a <= INT_MAX ->
  wp (addr_callback inet_addr inet_pton6 file (AddrQuery f addr p t) a) h
    (addr_step_post (t + Search.an_timeouts a) (count_b p) h).
Proof.
  intros Hl [Hto Hlen] Ht Hmax. unfold addr_callback. wp_step. cbn [aq_timeouts].
  apply wp_int_add; [unfold INT_MIN; lia|]. cbn [aq_family aq_addr aq_remaining_lookups]. cbv zeta.
  assert (Hend : forall st host h1, host_blocks host + 1 <= live h1 -> live h1 - host_blocks host = live h ->
    (st = ARES_SUCCESS <-> is_Some host) ->
    wp (end_aquery (AddrQuery f addr p (t + Search.an_timeouts a)) st host) h1
      (addr_step_post (t + Search.an_timeouts a) (count_b p) h)).
  { intros st host h1 H1 H2 H3. apply wp_end_aquery; [done|]. cbn. split; [lia|]. split; [done|done]. }
  assert (Hno : forall st, st <> ARES_SUCCESS -> st = ARES_SUCCESS <-> is_Some (@None hostent))
    by (intros st Hst; split; [done|by intros []]).
  case_bool_decide as Est.
  - wp_step. eapply wp_mono; [apply wp_parse_ptr; [done|lia]|]. intros r h1 Hr. unfold host_post in Hr.
    destruct r as [st|host].
    + apply Hend; cbn; [destruct st; try done; lia|destruct st; try done; lia|apply Hno; by destruct st].
    + destruct Hr as [Hl1 _]. apply Hend; cbn; [lia|lia|split; [by eexists|done]].
  - destruct (bool_decide (Search.an_status a = ARES_EDESTRUCTION)); [apply Hend; cbn; [lia|lia|by apply Hno]|].
    by apply wp_next_addr_from.
Qed.

Lemma addr_callback_step m t q a h :
  addr_waits m t q -> 1 <= live h -> answer_ok a -> 0 <= t -> t + Search.an_timeouts a <= INT_MAX ->
  wp (addr_callback inet_addr inet_pton6 file q a) h (addr_step_post (t + Search.an_timeouts a) m h).
Proof.
  intros (p & -> & Hp) Hl Ha Ht Hmax. eapply wp_mono; [by apply wp_addr_callback|].
  intros e h'. by apply step_post_mono.
Qed.
End by_addr.

(** A lookup by address is safe, ends and reports once. For any address of
    its family, lookups string and hosts file, and whatever the answers are,
    [ares_gethostbyaddr] and the callbacks it is run with return without
    undefined behaviour; the reverse name fits its buffer and is all that is
    asked for, at most once for each DNS lookup in the string; with that many
    answers a report has been made, a host entry exactly with success, the
    time-outs of all answers, and every block released. *)
Theorem gethostbyaddr_safe inet_addr inet_pton6 file lookups f addr answers h :
  hosts_ok file -> bytes addr -> 0 <= live h -> Forall answer_ok answers -> total answers <= INT_MAX ->
  wp (gethostbyaddr inet_addr inet_pton6 file lookups addr (Family f) answers) h (fun r h' =>
    Forall (fun x => x = (reverse_name f addr, T_PTR)) r.1 /\ (length r.1 <= count_b lookups)%nat /\
    match r.2 with
    | None => live h' = live h + 1 /\ (length answers < count_b lookups)%nat
    | Some res => live h' = live h /\ result_ok res /\ hr_timeouts res = total (take (length r.1) answers)
    end).
Proof.
  intros Hfile Hb Hl Hans Hmax. unfold gethostbyaddr, ares_gethostbyaddr.
  assert (Hdone : forall st h', st <> ARES_SUCCESS -> live h' = live h ->
    wp (lookup_run (addr_callback inet_addr inet_pton6 file) answers (HDone (HostResult st 0 None))) h' (fun r h' =>
      Forall (fun x => x = (reverse_name f addr, T_PTR)) r.1 /\ (length r.1 <= count_b lookups)%nat /\
      match r.2 with
      | None => live h' = live h + 1 /\ (length answers < count_b lookups)%nat
      | Some res => live h' = live h /\ result_ok res /\ hr_timeouts res = total (take (length r.1) answers)
      end)).
  { intros st h' Hst Hl'. rewrite lookup_run_done. wp_step. split; [apply Forall_nil_2|]. split; [cbn; lia|].
    cbn. split; [done|]. split; [by apply no_host_ok|]. by rewrite take_0. }
  wp_step. destruct (Z.eqb_spec (Zlen addr) (addr_size f)) as [Hs|Hs]; cbn [negb]; [|wp_step; by apply Hdone].
  wp_step. apply wp_malloc; intros o _; cbn [negb]; [|wp_step; by apply Hdone].
  eapply wp_mono; [apply (wp_next_addr_from _ _ _ f addr Hfile Hs Hb); cbn; lia|]. intros e h2 He.
  eapply wp_mono.
  { eapply (wp_lookup_run _ 1 (addr_asks f addr) (addr_waits f addr)); [|exact He|cbn; lia|done|lia|lia].
    intros. by apply addr_callback_step. }
  intros r h3 (HF & Hlen & HP). split; [done|]. split; [done|]. cbn [live] in HP.
  destruct (r.2) as [res|]; [destruct HP as (? & ? & ->)|destruct HP]; (split; [lia|done]).
Qed.

(** *** Concrete lookups *)

Definition ex_answer_a : Search.answer := Search.Answer ARES_SUCCESS 1 ex_a.

Lemma ex_answer_ok : Forall answer_ok [ex_answer_a].
Proof. constructor; [|constructor]. split; vm_compute; discriminate. Qed.

(** The name [d] is not in the hosts file; DNS is asked next. *)
Lemma gethostbyname_safe_witness :
  exists r h, gethostbyname ex_addr_of (fun _ => None) ex_hosts [ch_f; ch_b] ex_sortlist [100] (Family AF_INET)
      [ex_answer_a] (Heap 0 []) = Ret r h /\
    r.1 = [([100], T_A)] /\ live h = 0 /\ is_Some r.2.
Proof.
  destruct (wp_outcome _ _ _ (gethostbyname_safe ex_addr_of (fun _ => None) ex_hosts [ch_f; ch_b] ex_sortlist [100]
    (Family AF_INET) [ex_answer_a] (Heap 0 []) ex_hosts_ok ltac:(repeat constructor; cbn; unfold Zlen; cbn; lia)
    ltac:(repeat constructor; lia) ltac:(cbn; lia) ex_answer_ok ltac:(vm_compute; discriminate)))
    as (r & h & E & H).
  exists r, h. split; [exact E|]. assert (Hv := E). vm_compute in Hv. injection Hv as <- <-.
  split; [reflexivity|]. split; [exact (proj1 (proj2 (proj2 H)))|]. by eexists.
Defined.

(** The name [a] is an alias in the hosts file; without it, DNS knows it. *)
Lemma gethostbyname_finds_witness :
  exists h1 h2,
    gethostbyname ex_addr_of (fun _ => None) ex_hosts [ch_f; ch_b] ex_sortlist [97] (Family AF_INET) [ex_answer_a]
      (Heap 0 []) = Ret ([], Some (HostResult ARES_SUCCESS 0 (Some (Hostent [98] [[97]] AF_INET 4 [[0; 0; 0; 1]])))) h1 /\
    gethostbyname ex_addr_of (fun _ => None) ex_hosts [ch_b; ch_b] ex_sortlist [97] (Family AF_INET) [ex_answer_a]
      (Heap 0 []) = Ret ([([97], T_A)], Some (HostResult ARES_SUCCESS 1 (Some (Hostent [98] [[97]] AF_INET 4 [[10; 0; 0; 1]])))) h2.
Proof.
  destruct (gethostbyname_finds ex_addr_of (fun _ => None) ex_hosts [ch_b] ex_sortlist [97] (Family AF_INET) [ex_answer_a]
    (Heap 0 []) ex_hosts_ok ltac:(repeat constructor; cbn; unfold Zlen; cbn; lia) ltac:(repeat constructor; lia) eq_refl
    ltac:(cbn; lia) ltac:(done) eq_refl) as [H1 H2].
  destruct (wp_outcome _ _ _ (H1 (Hostent [98] [[97]] AF_INET 4 [[0; 0; 0; 1]]) ltac:(vm_compute; reflexivity)))
    as (r1 & h1 & E1 & ->).
  destruct (wp_outcome _ _ _ (H2 ex_answer_a eq_refl eq_refl eq_refl ltac:(vm_compute; split; discriminate)
    ltac:(vm_compute; discriminate))) as (r2 & h2 & E2 & _).
  exists h1, h2. split; [exact E1|]. rewrite E2. f_equal. vm_compute in E2. injection E2 as <- _. reflexivity.
Defined.

(** The name of the address 10.0.0.1. *)
Definition ex_answer_ptr : Search.answer := Search.Answer ARES_SUCCESS 0 ex_ptr.

Lemma gethostbyaddr_safe_witness :
  exists r h, gethostbyaddr ex_addr_of (fun _ => None) ex_hosts [ch_f; ch_b] [10; 0; 0; 1] (Family AF_INET)
      [ex_answer_ptr] (Heap 0 []) = Ret r h /\
    r.2 = Some (HostResult ARES_SUCCESS 0 (Some (Hostent [104] [[104]] AF_INET 4 [[10; 0; 0; 1]]))) /\ live h = 0.
Proof.
  destruct (wp_outcome _ _ _ (gethostbyaddr_safe ex_addr_of (fun _ => None) ex_hosts [ch_f; ch_b] AF_INET [10; 0; 0; 1]
    [ex_answer_ptr] (Heap 0 []) ex_hosts_ok ltac:(repeat constructor; lia) ltac:(cbn; lia)
    ltac:(constructor; [split; vm_compute; discriminate|constructor]) ltac:(vm_compute; discriminate)))
    as (r & h & E & H).
  exists r, h. split; [exact E|]. assert (Hv := E). vm_compute in Hv. injection Hv as <- <-.
  split; [reflexivity|exact (proj1 (proj2 (proj2 H)))].
Defined.
