(* ===== verification/NameInfo.v ===== *)
(** * Names of socket addresses (c-ares: ares_getnameinfo.c)

    [ares_getnameinfo] turns a socket address into the name of its host, its
    service or both: from the address alone, or through [ares_gethostbyaddr], whose
    report [nameinfo_callback] takes over.

    Arrays on the stack are the characters written to them, and a write past their
    end is undefined. [getservbyport_r], [if_indextoname] and [gethostname] of the
    system are parameters: what they find, and for the last the bytes that the
    buffer holds after the call, whose result the code does not look at. The
    branches for systems without these functions are not modelled. *)

From S2P Require Import Prelude DnsWire ParseList ParseHost InetAddr InetAddr6 ReadLine Search AddrSort HostsFile GetHost.
Open Scope Z_scope.

(** ** Flags *)

Definition ARES_NI_NOFQDN : Z := 1.
Definition ARES_NI_NUMERICHOST : Z := 2.
Definition ARES_NI_NAMEREQD : Z := 4.
Definition ARES_NI_NUMERICSERV : Z := 8.
Definition ARES_NI_DGRAM : Z := 16.
Definition ARES_NI_UDP : Z := ARES_NI_DGRAM.
Definition ARES_NI_SCTP : Z := 32.
Definition ARES_NI_DCCP : Z := 64.
Definition ARES_NI_NUMERICSCOPE : Z := 128.
Definition ARES_NI_LOOKUPHOST : Z := 256.
Definition ARES_NI_LOOKUPSERVICE : Z := 512.

(** [flags & flag]. *)
Definition flag_set (flags flag : Z) : bool := negb (Z.land flags flag =? 0).

(** ** Data *)

Inductive proto := Tcp | Udp | Sctp | Dccp.

(** A socket address: [sin_port] in network byte order, the scope for IPv6. *)
Record sockaddr := SockAddr { sa_family : req_family; sin_port : Z; sin_addr : list Z; sin6_scope_id : Z }.
Definition sizeof_sockaddr (f : family) : Z := match f with AF_INET => 16 | AF_INET6 => 28 end.

Definition IF_NAMESIZE : Z := 16.
Definition IPBUFSIZ : Z := 46 + IF_NAMESIZE.

(** [struct nameinfo_query] without the callback. *)
Record nameinfo_query := NiQuery { ni_family : family; ni_addr : sockaddr; ni_flags : Z; ni_timeouts : Z }.

(** What the application is told. *)
Record name_result := NameResult { nr_status : status; nr_timeouts : Z; nr_node : option (list Z); nr_service : option (list Z) }.

(** A string written to an array of [cap] bytes after [pre]. *)
Definition write_string (cap : Z) (pre s : list Z) : M (list Z) := put_chars cap (rev pre) (s ++ [0]) ;; mret (pre ++ s).

Definition ntohs (port : Z) : Z := (port mod 256) * 256 + port / 256.

(** ** [ares_striendstr] *)

Definition TOLOWER (c : Z) : Z := if (65 <=? c) && (c <=? 90) then c + 32 else c.

Fixpoint same_tail (c1 c2 : list Z) : bool :=
  match c2 with
  | [] => true
  | b :: c2' => match c1 with a :: c1' => (TOLOWER a =? TOLOWER b) && same_tail c1' c2' | [] => false end
  end.

(** The number of characters of [s1] before the tail [s2]. *)
Definition ares_striendstr (s1 s2 : list Z) : option nat :=
  if bool_decide (length s1 < length s2)%nat then None
  else
    let n := (length s1 - length s2)%nat in
    if same_tail (drop n s1) s2 then Some n else None.

(** [strchr(s, '.')]. *)
Fixpoint from_dot (s : list Z) : option (list Z) :=
  match s with [] => None | c :: s' => if c =? ch_dot then Some s else from_dot s' end.

(** The string in an array, which must have an end. *)
Definition string_in (buf : list Z) : M (list Z) := if bool_decide (0 ∈ buf) then mret (c_str buf) else undefined.

Section nameinfo.
Variables (getservbyport_r : Z -> proto -> option (option (list Z))) (if_indextoname : Z -> option (list Z)) (hostname : list Z).

(** ** [lookup_service] *)

Definition service_proto (flags : Z) : proto :=
  if flag_set flags ARES_NI_UDP then Udp
  else if flag_set flags ARES_NI_SCTP then Sctp
  else if flag_set flags ARES_NI_DCCP then Dccp
  else Tcp.

Definition lookup_service (port flags buflen : Z) : M (option (list Z)) :=
  if negb (port =? 0) then
    let sep := if flag_set flags ARES_NI_NUMERICSERV then None else getservbyport_r port (service_proto flags) in
    name ← match sep with
           | Some (Some s_name) => mret s_name
           | _ => write_string 4096 [] (sprintf_u (ntohs port))
           end;
    if Zlen name <? buflen then name ← write_string buflen [] name; mret (Some name)
    else name ← write_string buflen [] []; mret (Some name)
  else write_string buflen [] [] ;; mret None.

(** ** [append_scopeid] *)

Definition IN6_IS_ADDR_LINKLOCAL (addr : list Z) : M bool :=
  b0 ← get_byte addr 0; b1 ← get_byte addr 1; mret ((b0 =? 254) && (Z.land b1 192 =? 128)).
Definition IN6_IS_ADDR_MC_LINKLOCAL (addr : list Z) : M bool :=
  b0 ← get_byte addr 0; b1 ← get_byte addr 1; mret ((b0 =? 255) && (Z.land b1 15 =? 2)).

(** [tmpbuf] has [IF_NAMESIZE + 2] bytes, the first of them a percent sign. *)
Definition append_scopeid (sa : sockaddr) (flags : Z) (buf : list Z) (buflen : Z) : M (list Z) :=
  is_ll ← IN6_IS_ADDR_LINKLOCAL (sin_addr sa);
  is_mcll ← IN6_IS_ADDR_MC_LINKLOCAL (sin_addr sa);
  let number := write_string (IF_NAMESIZE + 2) [37] (sprintf_u (sin6_scope_id sa)) in
  tmpbuf ← (if flag_set flags ARES_NI_NUMERICSCOPE || negb is_ll && negb is_mcll then number
            else match if_indextoname (sin6_scope_id sa) with
                 | None => number
                 | Some name => write_string (IF_NAMESIZE + 2) [37] name
                 end);
  if Zlen buf + Zlen tmpbuf <? buflen then write_string buflen buf tmpbuf else mret buf.

(** ** The report *)

(** The address as text in an array of [IPBUFSIZ] bytes; [initial] is what the array
    holds before. *)
Definition address_text (f : family) (sa : sockaddr) (flags : Z) (initial : M (list Z)) : M (list Z) :=
  r ← ares_inet_ntop (Some f) (sin_addr sa) IPBUFSIZ;
  ipbuf ← match r with inr t => mret t | inl _ => initial end;
  match f with AF_INET => mret ipbuf | AF_INET6 => append_scopeid sa flags ipbuf IPBUFSIZ end.

Definition wanted_service (flags port : Z) : M (option (list Z)) :=
  if flag_set flags ARES_NI_LOOKUPSERVICE then lookup_service port flags 33 else mret None.

(** The removal of the domain of this host. *)
Definition strip_domain (flags : Z) (name : list Z) : M (list Z) :=
  if flag_set flags ARES_NI_NOFQDN then
    buf ← string_in hostname;
    match from_dot buf with
    | Some domain => mret match ares_striendstr name domain with Some n => take n name | None => name end
    | None => mret name
    end
  else mret name.

Definition nameinfo_callback (niquery : nameinfo_query) (r : host_result) : M name_result :=
  let flags := ni_flags niquery in
  timeouts ← int_add (ni_timeouts niquery) (hr_timeouts r);
  if bool_decide (hr_status r = ARES_SUCCESS) then
    service ← wanted_service flags (sin_port (ni_addr niquery));
    host ← match hr_host r with Some host => mret host | None => undefined end;
    name ← strip_domain flags (c_str (h_name host));
    c_free ;; mret (NameResult ARES_SUCCESS timeouts (Some name) service)
  else if bool_decide (hr_status r = ARES_ENOTFOUND) && negb (flag_set flags ARES_NI_NAMEREQD) then
    ipbuf ← address_text (ni_family niquery) (ni_addr niquery) flags undefined;
    service ← wanted_service flags (sin_port (ni_addr niquery));
    c_free ;; mret (NameResult ARES_SUCCESS timeouts (Some ipbuf) service)
  else c_free ;; mret (NameResult (hr_status r) timeouts None None).

(** ** [ares_getnameinfo] *)

(** The family of an address whose length fits it. *)
Definition checked_family (sa : sockaddr) (salen : Z) : option family :=
  match sa_family sa with
  | Family AF_INET => if salen =? sizeof_sockaddr AF_INET then Some AF_INET else None
  | Family AF_INET6 => if salen =? sizeof_sockaddr AF_INET6 then Some AF_INET6 else None
  | _ => None
  end.

Definition effective_flags (flags : Z) : Z :=
  if negb (flag_set flags ARES_NI_LOOKUPSERVICE) && negb (flag_set flags ARES_NI_LOOKUPHOST)
  then Z.lor flags ARES_NI_LOOKUPHOST else flags.

Variables (inet_addr inet_pton6 : list Z -> option (list Z)) (file : hosts_file) (lookups : list Z).

(** What it asks for, and what it reports unless it still waits; the answers are
    those to the queries of the lookup. *)
Definition ares_getnameinfo (sa : sockaddr) (salen flags : Z) (answers : list Search.answer)
    : M (list (list Z * Z) * option name_result) :=
  let report st node service := mret ([], Some (NameResult st 0 node service)) in
  match checked_family sa salen with
  | None => report ARES_ENOTIMP None None
  | Some f =>
      let port := Z.land (sin_port sa) 65535 in
      let flags := effective_flags flags in
      if flag_set flags ARES_NI_LOOKUPSERVICE && negb (flag_set flags ARES_NI_LOOKUPHOST) then
        service ← lookup_service port flags 33; report ARES_SUCCESS None service
      else if negb (flag_set flags ARES_NI_LOOKUPHOST) then mret ([], None)
      else if flag_set flags ARES_NI_NUMERICHOST then
        if flag_set flags ARES_NI_NAMEREQD then report ARES_EBADFLAGS None None
        else
          ipbuf ← address_text f sa flags (mret []);
          service ← wanted_service flags port;
          report ARES_SUCCESS (Some ipbuf) service
      else
        ok ← c_malloc;
        if negb ok then report ARES_ENOMEM None None
        else
          r ← gethostbyaddr inet_addr inet_pton6 file lookups (sin_addr sa) (Family f) answers;
          match r.2 with
          | None => mret (r.1, None)
          | Some res => n ← nameinfo_callback (NiQuery f sa flags 0) res; mret (r.1, Some n)
          end
  end.
End nameinfo.

(** ** The end of a name *)

Lemma same_tail_spec c1 c2 : length c1 = length c2 -> same_tail c1 c2 = true <-> TOLOWER <$> c1 = TOLOWER <$> c2.
Proof.
  revert c1. induction c2 as [|b c2 IH]; intros [|a c1] Hl; simplify_eq/=; [done|]. rewrite andb_true_iff, Z.eqb_eq, IH by done.
  split; [intros [-> ->]; done|by intros [= -> ->]].
Qed.

Lemma striendstr_spec s1 s2 :
  match ares_striendstr s1 s2 with
  | Some n => exists tail, s1 = take n s1 ++ tail /\ TOLOWER <$> tail = TOLOWER <$> s2
  | None => forall pre tail, s1 = pre ++ tail -> TOLOWER <$> tail <> TOLOWER <$> s2
  end.
Proof.
  unfold ares_striendstr. case_bool_decide as Hlt.
  { intros pre tail -> E. apply (f_equal length) in E. rewrite !length_fmap in E. rewrite length_app in Hlt. lia. }
  set (n := (length s1 - length s2)%nat). pose proof (same_tail_spec (drop n s1) s2 ltac:(rewrite length_drop; lia)) as Hs.
  destruct (same_tail (drop n s1) s2).
  - exists (drop n s1). split; [by rewrite take_drop|]. by apply Hs.
  - intros pre tail E Ht. assert (tail = drop n s1) as ->; [|by apply Hs in Ht].
    rewrite E, drop_app_length'; [done|]. apply (f_equal length) in Ht. rewrite !length_fmap in Ht. unfold n. rewrite E, length_app. lia.
Qed.

(** ** What is reported *)

Section report.
Variables (getservbyport_r : Z -> proto -> option (option (list Z))) (if_indextoname : Z -> option (list Z)) (hostname : list Z).
(** An interface has a name of fewer than [IF_NAMESIZE] characters, and
    [gethostname] ends the name it stores. *)
Hypothesis Hifname : forall i name, if_indextoname i = Some name -> Zlen name < IF_NAMESIZE.
Hypothesis Hhostname : 0 ∈ hostname.

(** The name of the service, or the number of the port. *)
Definition service_text (port flags : Z) : option (list Z) :=
  if port =? 0 then None
  else
    let name := match (if flag_set flags ARES_NI_NUMERICSERV then None else getservbyport_r port (service_proto flags)) with
                | Some (Some name) => name
                | _ => sprintf_u (ntohs port)
                end in
    Some (if Zlen name <? 33 then name else []).
Definition service_wanted (port flags : Z) : option (list Z) :=
  if flag_set flags ARES_NI_LOOKUPSERVICE then service_text port flags else None.

Definition link_local (addr : list Z) : bool :=
  match byte_at addr 0, byte_at addr 1 with
  | Some b0, Some b1 => (b0 =? 254) && (Z.land b1 192 =? 128) || (b0 =? 255) && (Z.land b1 15 =? 2)
  | _, _ => false
  end.

Definition scope_suffix (sa : sockaddr) (flags : Z) : list Z :=
  37 :: (if flag_set flags ARES_NI_NUMERICSCOPE || negb (link_local (sin_addr sa)) then sprintf_u (sin6_scope_id sa)
         else default (sprintf_u (sin6_scope_id sa)) (if_indextoname (sin6_scope_id sa))).

(** The text of an address, with its scope. *)
Definition node_text (f : family) (sa : sockaddr) (flags : Z) (node : list Z) : Prop :=
  match f with
  | AF_INET => exists b0 b1 b2 b3, slice (sin_addr sa) 0 4 = [b0; b1; b2; b3] /\ node = dotted b0 b1 b2 b3
  | AF_INET6 => exists ws t, ws ≫= word_bytes = slice (sin_addr sa) 0 16 /\ text6 ws t /\ node = t ++ scope_suffix sa flags
  end.

(** The name of the host, without its domain when that is the domain of this host. *)
Definition host_text (flags : Z) (name node : list Z) : Prop :=
  if flag_set flags ARES_NI_NOFQDN then
    match from_dot (c_str hostname) with
    | None => node = name
    | Some domain => (exists tail, name = node ++ tail /\ TOLOWER <$> tail = TOLOWER <$> domain)
                     \/ (node = name /\ forall pre tail, name = pre ++ tail -> TOLOWER <$> tail <> TOLOWER <$> domain)
    end
  else node = name.

(** What the report of a lookup becomes. *)
Definition name_reported (f : family) (sa : sockaddr) (flags : Z) (r : host_result) (n : name_result) : Prop :=
  nr_timeouts n = hr_timeouts r /\
  match hr_host r with
  | Some host => nr_status n = ARES_SUCCESS /\ nr_service n = service_wanted (sin_port sa) flags
      /\ exists node, nr_node n = Some node /\ host_text flags (c_str (h_name host)) node
  | None =>
      if bool_decide (hr_status r = ARES_ENOTFOUND) && negb (flag_set flags ARES_NI_NAMEREQD)
      then nr_status n = ARES_SUCCESS /\ nr_service n = service_wanted (sin_port sa) flags
        /\ exists node, nr_node n = Some node /\ node_text f sa flags node
      else nr_status n = hr_status r /\ nr_node n = None /\ nr_service n = None
  end.

(** A well-formed address of its family. *)
Definition sockaddr_ok (f : family) (sa : sockaddr) : Prop :=
  Zlen (sin_addr sa) = addr_size f /\ bytes (sin_addr sa) /\ 0 <= sin_port sa < 2 ^ 16 /\ 0 <= sin6_scope_id sa < 2 ^ 32.

Lemma wp_write_string cap pre t h (Q : list Z -> heap -> Prop) :
  Zlen pre + Zlen t + 1 <= cap -> Q (pre ++ t) h -> wp (write_string cap pre t) h Q.
Proof.
  intros Hc HQ. unfold write_string. wp_step. apply wp_put_chars; [autorewrite with cares; lia|]. by wp_step.
Qed.

Lemma sprintf_u_short n : Zlen (sprintf_u n) <= 10.
Proof.
  unfold sprintf_u. assert (forall b fuel n, Zlen (print_base b fuel n) <= Z.of_nat fuel) as Hl; [|apply (Hl 10 10%nat)].
  clear. intros b fuel. induction fuel as [|fuel IH]; intros n; cbn [print_base]; [done|]. autorewrite with cares.
  specialize (IH (n / b)). destruct (n <? b); autorewrite with cares; lia.
Qed.

Lemma wp_lookup_service port flags h (Q : option (list Z) -> heap -> Prop) :
  Q (service_text port flags) h -> wp (lookup_service getservbyport_r port flags 33) h Q.
Proof.
  intros HQ. unfold lookup_service. unfold service_text in HQ. destruct (port =? 0); cbn [negb].
  { wp_step. apply wp_write_string; [autorewrite with cares; lia|]. by wp_step. }
  set (sep := if flag_set flags ARES_NI_NUMERICSERV then None else _) in *.
  set (name := match sep with Some (Some n) => n | _ => sprintf_u (ntohs port) end) in *.
  assert (wp (match sep with Some (Some s_name) => mret s_name | _ => write_string 4096 [] (sprintf_u (ntohs port)) end) h (fun x h' => x = name /\ h' = h)) as Hname.
  { unfold name. pose proof (sprintf_u_short (ntohs port)). destruct sep as [[n|]|]; [by wp_step| |]; apply wp_write_string; (done || (autorewrite with cares; lia)). }
  wp_step. eapply wp_mono; [exact Hname|]. intros x h' [-> ->]. pose proof (Zlen_nonneg name).
  destruct (Z.ltb_spec (Zlen name) 33); wp_step; (apply wp_write_string; [autorewrite with cares; lia|]); by wp_step.
Qed.

Lemma wp_wanted_service port flags h (Q : option (list Z) -> heap -> Prop) :
  Q (service_wanted port flags) h -> wp (wanted_service getservbyport_r flags port) h Q.
Proof. unfold wanted_service, service_wanted. destruct (flag_set flags ARES_NI_LOOKUPSERVICE); [apply wp_lookup_service|intros; by wp_step]. Qed.

Lemma scope_suffix_len sa flags : Zlen (scope_suffix sa flags) <= 16.
Proof.
  unfold scope_suffix. rewrite Zlen_cons. pose proof (sprintf_u_short (sin6_scope_id sa)). case_match; [lia|].
  destruct (if_indextoname (sin6_scope_id sa)) as [name|] eqn:E; simpl; [|lia]. apply Hifname in E. unfold IF_NAMESIZE in E. lia.
Qed.

Lemma wp_append_scopeid sa flags buf h (Q : list Z -> heap -> Prop) :
  Zlen (sin_addr sa) = 16 -> Zlen buf <= 45 -> Q (buf ++ scope_suffix sa flags) h ->
  wp (append_scopeid if_indextoname sa flags buf IPBUFSIZ) h Q.
Proof.
  intros Hl Hbuf HQ. pose proof (scope_suffix_len sa flags) as Hlen. unfold append_scopeid, IN6_IS_ADDR_LINKLOCAL, IN6_IS_ADDR_MC_LINKLOCAL.
  destruct (byte_at_in (sin_addr sa) 0 ltac:(lia)) as (b0 & E0 & _), (byte_at_in (sin_addr sa) 1 ltac:(lia)) as (b1 & E1 & _).
  unfold get_byte. rewrite E0, E1. repeat wp_step.
  eapply wp_mono with (P := fun t h' => t = scope_suffix sa flags /\ h' = h).
  - pose proof (sprintf_u_short (sin6_scope_id sa)). unfold scope_suffix, link_local. rewrite E0, E1, negb_orb.
    destruct (_ || _); [|destruct (if_indextoname (sin6_scope_id sa)) as [name|] eqn:E; [apply Hifname in E|]]; unfold IF_NAMESIZE in *;
      (apply wp_write_string; [autorewrite with cares; lia|done]).
  - intros t h' [-> ->]. unfold IPBUFSIZ, IF_NAMESIZE. rewrite (proj2 (Z.ltb_lt _ _)) by lia. apply wp_write_string; [lia|done].
Qed.

Lemma wp_address_text f sa flags initial h (Q : list Z -> heap -> Prop) :
  Zlen (sin_addr sa) = addr_size f -> (forall node, node_text f sa flags node -> Q node h) ->
  wp (address_text if_indextoname f sa flags initial) h Q.
Proof.
  intros Hl HQ. unfold address_text. destruct f; cbn [addr_size ares_inet_ntop] in *.
  - wp_step. apply wp_inet_ntop4; [lia|]. intros b0 b1 b2 b3 Hs R0 R1 R2 R3. pose proof (dotted_len b0 b1 b2 b3 R0 R1 R2 R3).
    rewrite (proj2 (Z.leb_gt IPBUFSIZ _)) by (unfold IPBUFSIZ, IF_NAMESIZE; lia). do 3 wp_step. apply HQ. by exists b0, b1, b2, b3.
  - wp_step. eapply wp_mono; [by apply wp_inet_ntop6|]. intros r h' (-> & ws & t & _ & _ & Hw & Ht & Hlen & ->).
    rewrite (proj2 (Z.ltb_ge IPBUFSIZ _)) by (unfold IPBUFSIZ, IF_NAMESIZE; lia). do 2 wp_step. apply wp_append_scopeid; [done|done|].
    apply HQ. by exists ws, t.
Qed.

Lemma wp_strip_domain flags name h (Q : list Z -> heap -> Prop) :
  (forall node, host_text flags name node -> Q node h) -> wp (strip_domain hostname flags name) h Q.
Proof.
  intros HQ. unfold strip_domain, host_text in *. destruct (flag_set flags ARES_NI_NOFQDN); [|wp_step; by apply HQ].
  unfold string_in. rewrite bool_decide_eq_true_2 by done. do 2 wp_step. destruct (from_dot (c_str hostname)) as [domain|]; wp_step; apply HQ; [|done].
  pose proof (striendstr_spec name domain) as Hs. destruct (ares_striendstr name domain) as [n|]; [|by right].
  destruct Hs as (tail & E & Ht). left. by exists tail.
Qed.

Lemma wp_nameinfo_callback f sa flags r h (Q : name_result -> heap -> Prop) :
  sockaddr_ok f sa -> result_ok r -> 0 <= hr_timeouts r <= INT_MAX -> 0 < live h ->
  (forall n, name_reported f sa flags r n -> Q n (Heap (live h - 1) (oracle h))) ->
  wp (nameinfo_callback getservbyport_r if_indextoname hostname (NiQuery f sa flags 0) r) h Q.
Proof.
  intros (Hl & _) Hr Ht Hh HQ. unfold nameinfo_callback. cbn [ni_timeouts ni_flags ni_addr ni_family].
  wp_step. wp_step; [unfold INT_MIN; lia|]. unfold result_ok in Hr. unfold name_reported in HQ. destruct (decide (hr_status r = ARES_SUCCESS)) as [Hst|Hst];
    [rewrite bool_decide_eq_true_2 by done|rewrite (bool_decide_eq_false_2 (hr_status r = ARES_SUCCESS)) by done].
  - destruct (proj1 Hr Hst) as [host Eh]. rewrite Eh in HQ |- *. wp_step. apply wp_wanted_service. do 2 wp_step. wp_step. apply wp_strip_domain.
    intros node Hn. do 3 wp_step. apply HQ. cbn. split; [lia|]. split; [done|]. split; [done|]. by exists node.
  - destruct (hr_host r) as [host|]; [by destruct Hst, Hr; eauto|]. destruct (_ && _).
    + wp_step. apply wp_address_text; [done|]. intros node Hn. wp_step. apply wp_wanted_service. do 3 wp_step. apply HQ. cbn.
      split; [lia|]. split; [done|]. split; [done|]. by exists node.
    + do 3 wp_step. apply HQ. cbn. split; [lia|done].
Qed.

Variables (inet_addr inet_pton6 : list Z -> option (list Z)) (file : hosts_file) (lookups : list Z).
Hypothesis Hfile : hosts_ok file.

(** What is asked for and reported, by the flags. *)
Definition nameinfo_spec (sa : sockaddr) (salen flags0 : Z) (answers : list Search.answer) (blocks : Z)
    (r : list (list Z * Z) * option name_result) (blocks' : Z) : Prop :=
  let flags := effective_flags flags0 in
  match checked_family sa salen with
  | None => r = ([], Some (NameResult ARES_ENOTIMP 0 None None)) /\ blocks' = blocks
  | Some f =>
      if negb (flag_set flags ARES_NI_LOOKUPHOST) then
        r = ([], Some (NameResult ARES_SUCCESS 0 None (service_text (sin_port sa) flags))) /\ blocks' = blocks
      else if flag_set flags ARES_NI_NUMERICHOST then
        blocks' = blocks /\
        if flag_set flags ARES_NI_NAMEREQD then r = ([], Some (NameResult ARES_EBADFLAGS 0 None None))
        else exists node, node_text f sa flags node /\ r = ([], Some (NameResult ARES_SUCCESS 0 (Some node) (service_wanted (sin_port sa) flags)))
      else
        Forall (fun x => x = (reverse_name f (sin_addr sa), T_PTR)) r.1 /\ (length r.1 <= count_b lookups)%nat
        /\ match r.2 with
           | None => blocks' = blocks + 2 /\ (length answers < count_b lookups)%nat
           | Some n => blocks' = blocks
               /\ exists res, result_ok res /\ hr_timeouts res = total (take (length r.1) answers) /\ name_reported f sa flags res n
           end
  end.

Lemma effective_host flags : flag_set (effective_flags flags) ARES_NI_LOOKUPSERVICE = false -> flag_set (effective_flags flags) ARES_NI_LOOKUPHOST = true.
Proof.
  unfold effective_flags. destruct (flag_set flags ARES_NI_LOOKUPSERVICE) eqn:E1, (flag_set flags ARES_NI_LOOKUPHOST) eqn:E2; cbn; try congruence.
  intros _. unfold flag_set. rewrite negb_true_iff, Z.eqb_neq. intros E. apply (f_equal (fun x => Z.testbit x 8)) in E.
  rewrite Z.land_spec, Z.lor_spec in E. by rewrite orb_true_r in E.
Qed.

Lemma port_masked port : 0 <= port < 2 ^ 16 -> Z.land port 65535 = port.
Proof. intros Hp. change 65535 with (Z.ones 16). rewrite Z.land_ones by lia. by apply Z.mod_small. Qed.

End report.

(** [gethostname] need not end a name that it cuts off, and stores nothing when it
    fails; its result is not looked at, and the search for the domain then reads
    past the buffer. *)
Theorem nameinfo_hostname_overread services interfaces hostname f sa flags host h :
  0 ∉ hostname -> flag_set flags ARES_NI_NOFQDN = true -> flag_set flags ARES_NI_LOOKUPSERVICE = false ->
  nameinfo_callback services interfaces hostname (NiQuery f sa flags 0) (HostResult ARES_SUCCESS 0 (Some host)) h = UB.
Proof.
  intros Hn Hf Hs. unfold nameinfo_callback, wanted_service, strip_domain, string_in. cbn [ni_flags]. rewrite Hs, Hf.
  rewrite (bool_decide_eq_false_2 _ Hn). reflexivity.
Qed.

(** *** A concrete lookup: the host and the service of port 80 at 10.0.0.1 *)

Definition http_text : list Z := [104; 116; 116; 112].
Definition ex_services (port : Z) (p : proto) : option (option (list Z)) := if port =? 20480 then Some (Some http_text) else None.
Definition ex_sockaddr : sockaddr := SockAddr (Family AF_INET) 20480 [10; 0; 0; 1] 0.
Definition ex_hostname : list Z := [97; 46; 98; 0].

