(* ===== verification/Config.v ===== *)
(** * Configuration of a channel (c-ares)

    Models the configuration code of
    src/Scylla-moon/seastar/c-ares/ares_init.c: the options of the application,
    the environment, /etc/resolv.conf and its neighbours, and the defaults, in
    the order [ares_init_options] applies them. A field that is -1 or a null
    pointer has not been set.

    An array is the list of the entries written so far, [[]] for a null pointer:
    the code never leaves an allocated array without an entry. [nservers],
    [ndomains] and [nsort] are separate from the arrays, as in the code. A C
    string is the list of its characters before the NUL; a pointer into a line
    is the rest of the line from there. The library's [inet_addr] and [inet_pton]
    are parameters, as are the environment, the files and the host name. *)

From S2P Require Import Prelude DnsWire ParseHost InetAddr InetAddr6 ReadLine Search AddrSort HostsFile.
From S2P Require Import Channel Resolver QueryId.
Open Scope Z_scope.

(** ** Data *)

(** [ARES_OPT_*]: the number of the bit. *)
Definition ARES_OPT_FLAGS : Z := 0.
Definition ARES_OPT_TIMEOUT : Z := 1.
Definition ARES_OPT_TRIES : Z := 2.
Definition ARES_OPT_NDOTS : Z := 3.
Definition ARES_OPT_UDP_PORT : Z := 4.
Definition ARES_OPT_TCP_PORT : Z := 5.
Definition ARES_OPT_SERVERS : Z := 6.
Definition ARES_OPT_DOMAINS : Z := 7.
Definition ARES_OPT_LOOKUPS : Z := 8.
Definition ARES_OPT_SOCK_STATE_CB : Z := 9.
Definition ARES_OPT_SORTLIST : Z := 10.
Definition ARES_OPT_SOCK_SNDBUF : Z := 11.
Definition ARES_OPT_SOCK_RCVBUF : Z := 12.
Definition ARES_OPT_TIMEOUTMS : Z := 13.
Definition ARES_OPT_ROTATE : Z := 14.
Definition ARES_OPT_EDNSPSZ : Z := 15.
Definition ARES_OPT_NOROTATE : Z := 16.
Definition ARES_FLAG_PRIMARY : Z := 1.

Definition DEFAULT_TIMEOUT : Z := 5000.
Definition DEFAULT_TRIES : Z := 4.
Definition EDNSPACKETSZ : Z := 1280.
Definition NAMESERVER_PORT : Z := 53.

(** [struct ares_options]. A domain is [None] where the array holds a null
    pointer; [o_sock_state_cb] is the callback with its data. *)
Record ares_options := Options {
  o_flags : Z; o_timeout : Z; o_tries : Z; o_ndots : Z; o_udp_port : Z; o_tcp_port : Z;
  o_sndbuf : Z; o_rcvbuf : Z;
  o_servers : list (list Z); o_nservers : Z;
  o_domains : list (option (list Z)); o_ndomains : Z;
  o_lookups : option (list Z); o_sock_state_cb : option Z;
  o_sortlist : list apattern; o_nsort : Z; o_ednspsz : Z }.

(** The configuration in [struct ares_channeldata]. *)
Record conf := Conf {
  k_flags : Z; k_timeout : Z; k_tries : Z; k_ndots : Z; k_rotate : Z;
  k_udp_port : Z; k_tcp_port : Z; k_sndbuf : Z; k_rcvbuf : Z; k_ednspsz : Z;
  k_sock_state_cb : option Z; k_optmask : Z;
  k_nservers : Z; k_servers : list ares_addr;
  k_ndomains : Z; k_domains : list (option (list Z));
  k_nsort : Z; k_sortlist : list apattern;
  k_lookups : option (list Z) }.

(** The scalar fields and the arrays are set by different code. *)
Definition set_scalars (fl ti tr nd ro up tp sb rb ed : Z) (cb : option Z) (c : conf) : conf :=
  Conf fl ti tr nd ro up tp sb rb ed cb (k_optmask c) (k_nservers c) (k_servers c)
    (k_ndomains c) (k_domains c) (k_nsort c) (k_sortlist c) (k_lookups c).
Definition set_k_servers (n : Z) (l : list ares_addr) (c : conf) : conf :=
  Conf (k_flags c) (k_timeout c) (k_tries c) (k_ndots c) (k_rotate c) (k_udp_port c) (k_tcp_port c)
    (k_sndbuf c) (k_rcvbuf c) (k_ednspsz c) (k_sock_state_cb c) (k_optmask c) n l
    (k_ndomains c) (k_domains c) (k_nsort c) (k_sortlist c) (k_lookups c).
Definition set_k_domains (n : Z) (l : list (option (list Z))) (c : conf) : conf :=
  Conf (k_flags c) (k_timeout c) (k_tries c) (k_ndots c) (k_rotate c) (k_udp_port c) (k_tcp_port c)
    (k_sndbuf c) (k_rcvbuf c) (k_ednspsz c) (k_sock_state_cb c) (k_optmask c) (k_nservers c) (k_servers c)
    n l (k_nsort c) (k_sortlist c) (k_lookups c).
Definition set_k_sortlist (n : Z) (l : list apattern) (c : conf) : conf :=
  Conf (k_flags c) (k_timeout c) (k_tries c) (k_ndots c) (k_rotate c) (k_udp_port c) (k_tcp_port c)
    (k_sndbuf c) (k_rcvbuf c) (k_ednspsz c) (k_sock_state_cb c) (k_optmask c) (k_nservers c) (k_servers c)
    (k_ndomains c) (k_domains c) n l (k_lookups c).
Definition set_k_lookups (l : option (list Z)) (c : conf) : conf :=
  Conf (k_flags c) (k_timeout c) (k_tries c) (k_ndots c) (k_rotate c) (k_udp_port c) (k_tcp_port c)
    (k_sndbuf c) (k_rcvbuf c) (k_ednspsz c) (k_sock_state_cb c) (k_optmask c) (k_nservers c) (k_servers c)
    (k_ndomains c) (k_domains c) (k_nsort c) (k_sortlist c) l.
Definition set_k_optmask (m : Z) (c : conf) : conf :=
  Conf (k_flags c) (k_timeout c) (k_tries c) (k_ndots c) (k_rotate c) (k_udp_port c) (k_tcp_port c)
    (k_sndbuf c) (k_rcvbuf c) (k_ednspsz c) (k_sock_state_cb c) m (k_nservers c) (k_servers c)
    (k_ndomains c) (k_domains c) (k_nsort c) (k_sortlist c) (k_lookups c).

(** The distinguished values [ares_init_options] starts from. *)
Definition unset_conf : conf :=
  Conf (-1) (-1) (-1) (-1) (-1) (-1) (-1) (-1) (-1) (-1) None 0 (-1) [] (-1) [] (-1) [] None.

(** [ARES_CONFIG_CHECK] *)
Definition config_check (c : conf) : bool :=
  bool_decide (is_Some (k_lookups c)) && (-1 <? k_nsort c) && (-1 <? k_nservers c)
  && (-1 <? k_ndomains c) && (-1 <? k_ndots c) && (-1 <? k_timeout c) && (-1 <? k_tries c).

(** [htons] and [ntohs] on a little-endian machine are both [swap16], here on an
    [unsigned short]. *)
Definition htons (x : Z) : Z := swap16 (uwrap 16 x).

Definition ares_strdup (s : option (list Z)) : M (option (list Z)) :=
  match s with
  | None => mret None
  | Some s => ok ← c_malloc; mret (if (ok : bool) then Some s else None)
  end.

(** The first [n] entries of an array. *)
Fixpoint read_array {A} (n : nat) (l : list A) : M (list A) :=
  match n, l with
  | O, _ => mret []
  | S n', x :: l' => xs ← read_array n' l'; mret (x :: xs)
  | S _, [] => undefined
  end.

(** [if (x == -1) x = v] *)
Definition if_unset (x v : Z) : Z := if x =? -1 then v else x.
Definition if_opt (mask bit : Z) (x v : Z) : Z := if Z.testbit mask bit then if_unset x v else x.

(** ** [init_by_options] *)

(** [(optmask & ARES_OPT_TIMEOUT) ... options->timeout * 1000] *)
Definition timeout_option (o : ares_options) (optmask timeout : Z) : M Z :=
  if Z.testbit optmask ARES_OPT_TIMEOUTMS && (timeout =? -1) then mret (o_timeout o)
  else if Z.testbit optmask ARES_OPT_TIMEOUT && (timeout =? -1) then
    let ms := o_timeout o * 1000 in
    assert_c ((INT_MIN <=? ms) && (ms <=? INT_MAX)) ;; mret ms
  else mret timeout.

Definition scalar_options (o : ares_options) (optmask : Z) (c : conf) : M conf :=
  timeout ← timeout_option o optmask (k_timeout c);
  mret (set_scalars
    (if_opt optmask ARES_OPT_FLAGS (k_flags c) (o_flags o))
    timeout
    (if_opt optmask ARES_OPT_TRIES (k_tries c) (o_tries o))
    (if_opt optmask ARES_OPT_NDOTS (k_ndots c) (o_ndots o))
    (if_opt optmask ARES_OPT_NOROTATE (if_opt optmask ARES_OPT_ROTATE (k_rotate c) 1) 0)
    (if_opt optmask ARES_OPT_UDP_PORT (k_udp_port c) (htons (o_udp_port o)))
    (if_opt optmask ARES_OPT_TCP_PORT (k_tcp_port c) (htons (o_tcp_port o)))
    (if_opt optmask ARES_OPT_SOCK_SNDBUF (k_sndbuf c) (o_sndbuf o))
    (if_opt optmask ARES_OPT_SOCK_RCVBUF (k_rcvbuf c) (o_rcvbuf o))
    (if_opt optmask ARES_OPT_EDNSPSZ (k_ednspsz c) (o_ednspsz o))
    (match k_sock_state_cb c with
     | None => if Z.testbit optmask ARES_OPT_SOCK_STATE_CB then o_sock_state_cb o else None
     | cb => cb
     end) c).

(** An IPv4 server on the default port *)
Definition v4_server (a : list Z) : ares_addr := AresAddr (Some AF_INET) a 0 0.

Definition servers_option (o : ares_options) (optmask : Z) (c : conf) : M (status * conf) :=
  if Z.testbit optmask ARES_OPT_SERVERS && (k_nservers c =? -1) then
    if 0 <? o_nservers o then
      ok ← c_malloc;
      if negb ok then mret (ARES_ENOMEM, c)
      else
        l ← read_array (Z.to_nat (o_nservers o)) (o_servers o);
        mret (ARES_SUCCESS, set_k_servers (o_nservers o) (v4_server <$> l) c)
    else mret (ARES_SUCCESS, set_k_servers (o_nservers o) (k_servers c) c)
  else mret (ARES_SUCCESS, c).

(** The loop that copies [n] domains; [dst] is the array so far. The flag tells
    whether every copy succeeded; a copy that failed is a null pointer. *)
Fixpoint dup_domains (n : nat) (src dst : list (option (list Z)))
    : M (bool * list (option (list Z))) :=
  match n with
  | O => mret (true, dst)
  | S n' =>
      match src with
      | [] => undefined
      | d :: src' =>
          s ← ares_strdup d;
          match s with
          | None => mret (false, dst ++ [None])
          | Some s => dup_domains n' src' (dst ++ [Some s])
          end
      end
  end.

Definition domains_option (o : ares_options) (optmask : Z) (c : conf) : M (status * conf) :=
  if Z.testbit optmask ARES_OPT_DOMAINS && (k_ndomains c =? -1) then
    if 0 <? o_ndomains o then
      ok ← c_malloc;
      if negb ok then mret (ARES_ENOMEM, c)
      else
        '(ok, l) ← dup_domains (Z.to_nat (o_ndomains o)) (o_domains o) [];
        if negb ok then mret (ARES_ENOMEM, set_k_domains (Zlen l - 1) l c)
        else mret (ARES_SUCCESS, set_k_domains (o_ndomains o) l c)
    else mret (ARES_SUCCESS, set_k_domains (o_ndomains o) (k_domains c) c)
  else mret (ARES_SUCCESS, c).

Definition lookups_option (o : ares_options) (optmask : Z) (c : conf) : M (status * conf) :=
  if Z.testbit optmask ARES_OPT_LOOKUPS && bool_decide (k_lookups c = None) then
    s ← ares_strdup (o_lookups o);
    mret (match s with Some _ => ARES_SUCCESS | None => ARES_ENOMEM end, set_k_lookups s c)
  else mret (ARES_SUCCESS, c).

Definition sortlist_option (o : ares_options) (optmask : Z) (c : conf) : M (status * conf) :=
  if Z.testbit optmask ARES_OPT_SORTLIST && (k_nsort c =? -1) then
    if 0 <? o_nsort o then
      ok ← c_malloc;
      if negb ok then mret (ARES_ENOMEM, c)
      else
        l ← read_array (Z.to_nat (o_nsort o)) (o_sortlist o);
        mret (ARES_SUCCESS, set_k_sortlist (o_nsort o) l c)
    else mret (ARES_SUCCESS, set_k_sortlist (o_nsort o) (k_sortlist c) c)
  else mret (ARES_SUCCESS, c).

(** [if (status != ARES_SUCCESS) return status;] *)
Definition and_then (m : M (status * conf)) (k : conf -> M (status * conf)) : M (status * conf) :=
  '(st, c) ← m; if bool_decide (st = ARES_SUCCESS) then k c else mret (st, c).

Definition init_by_options (o : ares_options) (optmask : Z) (c : conf) : M (status * conf) :=
  c ← scalar_options o optmask c;
  and_then (servers_option o optmask c) (fun c =>
  and_then (domains_option o optmask c) (fun c =>
  and_then (lookups_option o optmask c) (fun c =>
  and_then (sortlist_option o optmask c) (fun c =>
  mret (ARES_SUCCESS, set_k_optmask optmask c))))).

(** ** Search domains *)

(** [while ( *p && !ISSPACE( *p)) p++; while (ISSPACE( *p)) p++] *)
Definition next_word (p : list Z) : list Z := skip_spaces (span ISSPACE p).2.

(** The loop that counts the domains. *)
Fixpoint count_domains (fuel : nat) (p : list Z) (n : nat) : nat :=
  match fuel, p with
  | S fuel', _ :: _ => count_domains fuel' (next_word p) (S n)
  | _, _ => n
  end.

(** The loop that copies them into an array of [cap] pointers. *)
Fixpoint copy_domains (fuel : nat) (cap : nat) (p : list Z) (dst : list (option (list Z)))
    : M (bool * list (option (list Z))) :=
  match fuel with
  | O => no_fuel
  | S fuel' =>
      match p with
      | [] => mret (true, dst)
      | _ =>
          assert_c (length dst <? cap)%nat ;;
          ok ← c_malloc;
          if negb ok then mret (false, dst ++ [None])
          else copy_domains fuel' cap (next_word p) (dst ++ [Some (span ISSPACE p).1])
      end
  end.

(** The loop [ares_free(domains[n])], for [n] entries; [ares_free] of a null
    pointer does nothing. *)
Fixpoint free_domains (n : nat) (l : list (option (list Z))) : M unit :=
  match n with
  | O => mret ()
  | S n' => match l with [] => undefined | d :: l' => c_free_opt d ;; free_domains n' l' end
  end.

(** [ares_free] of an array *)
Definition free_array {A} (l : list A) : M unit := match l with [] => mret () | _ => c_free end.

Definition set_search (c : conf) (str : list Z) : M (status * conf) :=
  c ← (if k_ndomains c =? -1 then mret c
       else
         free_domains (Z.to_nat (k_ndomains c)) (k_domains c) ;;
         free_array (k_domains c) ;;
         mret (set_k_domains (-1) [] c));
  let n := count_domains (length str) str 0 in
  if (n =? 0)%nat then mret (ARES_SUCCESS, set_k_domains 0 (k_domains c) c)
  else
    ok ← c_malloc;
    if negb ok then mret (ARES_ENOMEM, set_k_domains (k_ndomains c) [] c)
    else
      '(ok, l) ← copy_domains (S (length str)) n str [];
      if negb ok then mret (ARES_ENOMEM, set_k_domains (Zlen l - 1) l c)
      else mret (ARES_SUCCESS, set_k_domains (Zlen l) l c).

(** [config_domain]: the string is cut at the first space. *)
Definition config_domain (c : conf) (str : list Z) : M (status * conf) :=
  set_search c (span ISSPACE str).1.

(** ** Options of the resolver *)

Definition LONG_MAX : Z := 9223372036854775807.
Definition LONG_MIN : Z := -9223372036854775808.

Definition is_digit (c : Z) : bool := (48 <=? c) && (c <=? 57).

(** The number that the leading digits of a text stand for. *)
Fixpoint digits_value (acc : Z) (p : list Z) : Z :=
  match p with
  | c :: p' => if is_digit c then digits_value (acc * 10 + (c - 48)) p' else acc
  | [] => acc
  end.

(** [strtol(p, NULL, 10)] *)
Definition strtol (p : list Z) : Z :=
  let v :=
    match skip_spaces p with
    | c :: p' =>
        if c =? 45 then - digits_value 0 p'
        else if c =? 43 then digits_value 0 p' else digits_value 0 (c :: p')
    | [] => 0
    end in
  Z.max LONG_MIN (Z.min LONG_MAX v).

(** [aresx_sltosi] *)
Definition aresx_sltosi (n : Z) : Z := Z.land n INT_MAX.

Definition str_ndots : list Z := [110; 100; 111; 116; 115; 58].
Definition str_retrans : list Z := [114; 101; 116; 114; 97; 110; 115; 58].
Definition str_retry : list Z := [114; 101; 116; 114; 121; 58].
Definition str_rotate : list Z := [114; 111; 116; 97; 116; 101].

(** [strncmp(p, opt, strlen(opt)) == 0] on C strings *)
Definition starts_with (opt p : list Z) : bool := bool_decide (take (length opt) p = opt).

(** [try_option], where [p] is the rest of the string and [q] points [wlen]
    characters further *)
Definition try_option (p : list Z) (wlen : nat) (opt : list Z) : option (list Z) :=
  if (length opt <=? wlen)%nat && starts_with opt p then Some (drop (length opt) p) else None.

Definition set_numbers (nd ti tr ro : Z) (c : conf) : conf :=
  set_scalars (k_flags c) ti tr nd ro (k_udp_port c) (k_tcp_port c) (k_sndbuf c) (k_rcvbuf c)
    (k_ednspsz c) (k_sock_state_cb c) c.

(** The body of the loop of [set_options] on the word at [p] *)
Definition option_word (c : conf) (p : list Z) : conf :=
  let wlen := length (span ISSPACE p).1 in
  let number opt x :=
    match try_option p wlen opt with
    | Some val => if_unset x (aresx_sltosi (strtol val))
    | None => x
    end in
  set_numbers (number str_ndots (k_ndots c)) (number str_retrans (k_timeout c))
    (number str_retry (k_tries c))
    (match try_option p wlen str_rotate with Some _ => if_unset (k_rotate c) 1 | None => k_rotate c end) c.

Fixpoint options_loop (fuel : nat) (c : conf) (p : list Z) : M conf :=
  match fuel with
  | O => no_fuel
  | S fuel' => match p with [] => mret c | _ => options_loop fuel' (option_word c p) (next_word p) end
  end.

(** [set_options], which always succeeds *)
Definition set_options (c : conf) (str : list Z) : M (status * conf) :=
  c ← options_loop (S (length str)) c str; mret (ARES_SUCCESS, c).

(** ** Order of lookups *)

Definition ch_b : Z := 98.
Definition ch_f : Z := 102.
Definition is_sep (c : Z) : bool := ISSPACE c || (c =? 44).

Fixpoint skip_seps (p : list Z) : list Z :=
  match p with c :: p' => if is_sep c then skip_seps p' else p | [] => [] end.

(** The loop of [config_lookup]; [l] is what was written to [lookups[3]]. *)
Fixpoint lookup_loop (fuel : nat) (bindch altbindch filech : Z) (p l : list Z) : M (list Z) :=
  match fuel with
  | O => no_fuel
  | S fuel' =>
      match p with
      | [] => assert_c (Zlen l <? 3) ;; mret l
      | c :: _ =>
          let binds := (c =? bindch) || (c =? altbindch) in
          l ← (if (binds || (c =? filech)) && (Zlen l <? 2)
               then assert_c (Zlen l <? 3) ;; mret (l ++ [if binds then ch_b else ch_f])
               else mret l);
          lookup_loop fuel' bindch altbindch filech (skip_seps (span is_sep p).2) l
      end
  end.

(** [config_lookup]; the words are given by their first letters, [altbindch] is
    [bindch] where the caller passes NULL. *)
Definition config_lookup (c : conf) (str : list Z) (bindch altbindch filech : Z) : M (status * conf) :=
  l ← lookup_loop (S (length str)) bindch altbindch filech str [];
  s ← ares_strdup (Some l);
  mret (match s with Some _ => ARES_SUCCESS | None => ARES_ENOMEM end, set_k_lookups s c).

(** ** Lines of configuration files *)

(** [try_config]: the line as the call leaves it, and the value. *)
Definition try_config (s opt : list Z) (scc : Z) : list Z * option (list Z) :=
  let s := (span (fun c => (c =? 35) || (negb (scc =? 0) && (c =? scc))) s).1 in
  let s := trim_end s in
  let value :=
    match skip_spaces s with
    | [] => None
    | p =>
        if (length opt =? 0)%nat then None
        else if negb (starts_with opt p) then None
        else
          match drop (length opt) p with
          | [] => None
          | (c :: _) as p =>
              let l := default 0 (last opt) in
              if negb (l =? 58) && negb (l =? 61) && negb (ISSPACE c) then None
              else match skip_spaces p with [] => None | p => Some p end
          end
    end in
  (s, value).

Section files.
Variables (inet_addr inet_pton4 inet_pton6 : list Z -> option (list Z)).

(** One address of [config_nameserver]. *)
Definition server_address (txtaddr : list Z) : option ares_addr :=
  match inet_pton4 txtaddr with
  | Some a => Some (AresAddr (Some AF_INET) a 0 0)
  | None =>
      match inet_pton6 txtaddr with
      | Some a => Some (AresAddr (Some AF_INET6) a 0 0)
      | None => None
      end
  end.

Fixpoint config_nameserver (fuel : nat) (servers : list ares_addr) (p : list Z)
    : M (status * list ares_addr) :=
  match fuel with
  | O => no_fuel
  | S fuel' =>
      match skip_seps p with
      | [] => mret (ARES_SUCCESS, servers)
      | (_ :: _) as p =>
          let '(txtaddr, q) := span is_sep p in
          servers ←
            match server_address txtaddr with
            | None => mret (inr servers)
            | Some a =>
                ok ← (match servers with [] => c_malloc | _ => c_realloc end);
                mret (if (ok : bool) then inr (servers ++ [a]) else inl servers)
            end;
          match servers, q with
          | inl servers, _ => mret (ARES_ENOMEM, servers)
          | inr servers, [] => mret (ARES_SUCCESS, servers)
          | inr servers, _ :: p => config_nameserver fuel' servers p
          end
      end
  end.

(** ** /etc/resolv.conf and its neighbours *)

Inductive fopened := Fopened (fp : stream) | FopenError (errno : Z).

Definition str_domain : list Z := [100; 111; 109; 97; 105; 110].
Definition str_lookup : list Z := [108; 111; 111; 107; 117; 112].
Definition str_search : list Z := [115; 101; 97; 114; 99; 104].
Definition str_nameserver : list Z := [110; 97; 109; 101; 115; 101; 114; 118; 101; 114].
Definition str_sortlist : list Z := [115; 111; 114; 116; 108; 105; 115; 116].
Definition str_options : list Z := [111; 112; 116; 105; 111; 110; 115].
Definition str_hosts_colon : list Z := [104; 111; 115; 116; 115; 58].
Definition str_order : list Z := [111; 114; 100; 101; 114].
Definition str_hosts_eq : list Z := [104; 111; 115; 116; 115; 61].

(** The channel and the local variables [servers] and [sortlist]. *)
Record rstate := RState { r_conf : conf; r_servers : list ares_addr; r_sortlist : list apattern }.

(** [(p = try_config(line, opt, ';')) && guard]: run [yes] on [p], or [no] on the
    line as the call leaves it. *)
Definition config_if (line opt : list Z) (guard : bool)
    (yes no : list Z -> M (status * rstate)) : M (status * rstate) :=
  let '(line, p) := try_config line opt ch_semi in
  match p with
  | Some p => if guard then yes p else no line
  | None => no line
  end.

Definition on_conf (st : rstate) (m : M (status * conf)) : M (status * rstate) :=
  '(s, c) ← m; mret (s, RState c (r_servers st) (r_sortlist st)).

(** The body of the loop over resolv.conf *)
Definition resolv_line (update_domains : bool) (line : list Z) (st : rstate) : M (status * rstate) :=
  let c := r_conf st in
  config_if line str_domain update_domains (fun p => on_conf st (config_domain c p)) (fun line =>
  config_if line str_lookup (bool_decide (k_lookups c = None))
    (fun p => on_conf st (config_lookup c p ch_b ch_b ch_f)) (fun line =>
  config_if line str_search update_domains (fun p => on_conf st (set_search c p)) (fun line =>
  config_if line str_nameserver (k_nservers c =? -1)
    (fun p =>
       '(s, l) ← config_nameserver (S (length p)) (r_servers st) p;
       mret (s, RState c l (r_sortlist st))) (fun line =>
  config_if line str_sortlist (k_nsort c =? -1)
    (fun p =>
       '(s, l) ← config_sortlist inet_addr (S (length p)) (r_sortlist st) p;
       mret (s, RState c (r_servers st) l)) (fun line =>
  config_if line str_options true (fun p => on_conf st (set_options c p)) (fun _ =>
  mret (ARES_SUCCESS, st))))))).

Fixpoint resolv_loop (fuel : nat) (update_domains : bool) (buf : option Z) (fp : stream) (st : rstate)
    : M (status * rstate * option Z) :=
  match fuel with
  | O => no_fuel
  | S fuel' =>
      r ← ares__read_line buf fp;
      if negb (bool_decide (rr_status r = ARES_SUCCESS)) then mret (rr_status r, st, rr_buf r)
      else
        match rr_line r with
        | None => undefined
        | Some line =>
            '(s, st) ← resolv_line update_domains line st;
            if negb (bool_decide (s = ARES_SUCCESS)) then mret (s, st, rr_buf r)
            else resolv_loop fuel' update_domains (rr_buf r) (rr_fp r) st
        end
  end.

(** The loop over a file that gives the order of lookups; errors of
    [config_lookup] are ignored. *)
Fixpoint lookup_file_loop (fuel : nat) (opt : list Z) (bindch altbindch filech : Z)
    (buf : option Z) (fp : stream) (c : conf) : M (status * conf * option Z) :=
  match fuel with
  | O => no_fuel
  | S fuel' =>
      r ← ares__read_line buf fp;
      if negb (bool_decide (rr_status r = ARES_SUCCESS)) then mret (rr_status r, c, rr_buf r)
      else
        match rr_line r with
        | None => undefined
        | Some line =>
            c ← match (try_config line opt 0).2 with
                | Some p =>
                    if bool_decide (k_lookups c = None)
                    then '(_, c) ← config_lookup c p bindch altbindch filech; mret c
                    else mret c
                | None => mret c
                end;
            lookup_file_loop fuel' opt bindch altbindch filech (rr_buf r) (rr_fp r) c
        end
  end.

(** One of the blocks [if ((status == ARES_EOF) && (!channel->lookups)) ...] *)
Definition lookup_file (f : fopened) (opt : list Z) (bindch altbindch filech : Z)
    (st : status) (c : conf) (buf : option Z) : M (status * conf * option Z) :=
  if bool_decide (st = ARES_EOF) && bool_decide (k_lookups c = None) then
    match f with
    | Fopened fp => lookup_file_loop (S (length (st_data fp))) opt bindch altbindch filech buf fp c
    | FopenError _ => mret (ARES_EOF, c, buf)
    end
  else mret (st, c, buf).

(** What a channel is configured from besides the options: the environment, the
    files, and [gethostname] on a buffer of a given size. *)
Inductive hostname_result := HostName (name : list Z) | TooLong | HostNameError.

Record system := System {
  localdomain : option (list Z); res_options : option (list Z);
  resolv_conf : fopened; nsswitch_conf : fopened; host_conf : fopened; svc_conf : fopened;
  gethostname : Z -> hostname_result }.

Definition init_by_resolv_conf (sys : system) (c : conf) : M (status * conf) :=
  if config_check c then mret (ARES_SUCCESS, c)
  else
    let update_domains := k_ndomains c =? -1 in
    '(st, r, buf) ←
      match resolv_conf sys with
      | Fopened fp => resolv_loop (S (length (st_data fp))) update_domains None fp (RState c [] [])
      | FopenError errno =>
          mret (if (errno =? ENOENT) || (errno =? ESRCH) then ARES_EOF else ARES_EFILE,
                RState c [] [], None)
      end;
    '(st, c, buf) ← lookup_file (nsswitch_conf sys) str_hosts_colon 100 114 ch_f st (r_conf r) buf;
    '(st, c, buf) ← lookup_file (host_conf sys) str_order ch_b ch_b 104 st c buf;
    '(st, c, buf) ← lookup_file (svc_conf sys) str_hosts_eq ch_b ch_b 108 st c buf;
    c_free_opt buf ;;
    if negb (bool_decide (st = ARES_EOF)) then
      free_array (r_servers r) ;; free_array (r_sortlist r) ;; mret (st, c)
    else
      let c := match r_servers r with [] => c | l => set_k_servers (Zlen l) l c end in
      let c := match r_sortlist r with [] => c | l => set_k_sortlist (Zlen l) l c end in
      mret (ARES_SUCCESS, c).

Definition init_by_environment (sys : system) (c : conf) : M (status * conf) :=
  and_then
    (match localdomain sys with
     | Some s => if k_ndomains c =? -1 then set_search c s else mret (ARES_SUCCESS, c)
     | None => mret (ARES_SUCCESS, c)
     end) (fun c =>
  match res_options sys with
  | Some s => set_options c s
  | None => mret (ARES_SUCCESS, c)
  end).

(** ** Defaults *)

Definition str_fb : list Z := [102; 98].
Definition loopback : list Z := [127; 0; 0; 1].

Definition default_scalars (c : conf) : conf :=
  set_scalars (if_unset (k_flags c) 0) (if_unset (k_timeout c) DEFAULT_TIMEOUT)
    (if_unset (k_tries c) DEFAULT_TRIES) (if_unset (k_ndots c) 1) (if_unset (k_rotate c) 0)
    (if_unset (k_udp_port c) (htons NAMESERVER_PORT)) (if_unset (k_tcp_port c) (htons NAMESERVER_PORT))
    (k_sndbuf c) (k_rcvbuf c) (if_unset (k_ednspsz c) EDNSPACKETSZ) (k_sock_state_cb c) c.

Definition default_servers (c : conf) : M (status * conf) :=
  if k_nservers c =? -1 then
    ok ← c_malloc;
    if negb ok then mret (ARES_ENOMEM, set_k_servers (k_nservers c) [] c)
    else mret (ARES_SUCCESS, set_k_servers 1 [v4_server loopback] c)
  else mret (ARES_SUCCESS, c).

(** The loop that calls [gethostname] on a buffer of [len] bytes and doubles it
    while the name is too long. *)
Fixpoint hostname_loop (fuel : nat) (gethostname : Z -> hostname_result) (len : Z)
    : M (status + list Z) :=
  match fuel with
  | O => no_fuel
  | S fuel' =>
      match gethostname len with
      | TooLong =>
          ok ← c_realloc;
          if negb ok then mret (inl ARES_ENOMEM) else hostname_loop fuel' gethostname (len * 2)
      | HostNameError => mret (inl ARES_EBADNAME)
      | HostName name => assert_c (Zlen name <? len) ;; mret (inr name)
      end
  end.

(** The block on [ndomains]; [None] for the hostname is a null pointer. *)
Definition default_domains (fuel : nat) (sys : system) (c : conf) : M (status * conf * option unit) :=
  if k_ndomains c =? -1 then
    let c := set_k_domains 0 (k_domains c) c in
    ok ← c_malloc;
    if negb ok then mret (ARES_ENOMEM, c, None)
    else
      r ← hostname_loop fuel (gethostname sys) 64;
      match r with
      | inl rc => mret (rc, c, Some ())
      | inr hostname =>
          match (span (fun x => x =? 46) hostname).2 with
          | [] => mret (ARES_SUCCESS, c, Some ())
          | _ :: domain =>
              ok ← c_malloc;
              if negb ok then mret (ARES_ENOMEM, set_k_domains 0 [] c, Some ())
              else
                s ← ares_strdup (Some domain);
                match s with
                | None => mret (ARES_ENOMEM, set_k_domains 0 [None] c, Some ())
                | Some s => mret (ARES_SUCCESS, set_k_domains 1 [Some s] c, Some ())
                end
          end
      end
  else mret (ARES_SUCCESS, c, None).

Definition default_lookups (c : conf) : M (status * conf) :=
  let c := if k_nsort c =? -1 then set_k_sortlist 0 [] c else c in
  match k_lookups c with
  | Some _ => mret (ARES_SUCCESS, c)
  | None =>
      s ← ares_strdup (Some str_fb);
      mret (match s with Some _ => ARES_SUCCESS | None => ARES_ENOMEM end, set_k_lookups s c)
  end.

(** The clean-up at the label [error] *)
Definition default_error (c : conf) : M conf :=
  free_array (k_servers c) ;;
  (match k_domains c with Some _ :: _ => c_free | _ => mret () end) ;;
  free_array (k_domains c) ;;
  c_free_opt (k_lookups c) ;;
  mret (set_k_lookups None (set_k_domains (k_ndomains c) [] (set_k_servers (k_nservers c) [] c))).

Definition init_by_defaults (fuel : nat) (sys : system) (c : conf) : M (status * conf) :=
  '(rc, c) ← default_servers (default_scalars c);
  '(rc, c, hostname) ←
    (if bool_decide (rc = ARES_SUCCESS) then default_domains fuel sys c else mret (rc, c, None));
  '(rc, c) ← (if bool_decide (rc = ARES_SUCCESS) then default_lookups c else mret (rc, c));
  c ← (if bool_decide (rc = ARES_SUCCESS) then mret c else default_error c);
  c_free_opt hostname ;;
  mret (rc, c).

(** ** [ares_init_options] *)

(** The clean-up at the label [done]: also what [ares_destroy] releases at its
    end. *)
Definition free_conf (c : conf) : M unit :=
  (match k_domains c with
   | [] => mret ()
   | _ => free_domains (Z.to_nat (k_ndomains c)) (k_domains c) ;; c_free
   end) ;;
  free_array (k_sortlist c) ;;
  c_free_opt (k_lookups c) ;;
  c_free.

(** [if ((channel->flags & ARES_FLAG_PRIMARY) && channel->nservers > 1) ...] *)
Definition trim_servers (c : conf) : conf :=
  if Z.testbit (k_flags c) ARES_FLAG_PRIMARY && (1 <? k_nservers c)
  then set_k_servers 1 (k_servers c) c else c.

(** A channel as [ares_init_options] leaves it: the configuration and the state
    of the identifier generator. *)
Record channel := Channel { ch_conf : conf; ch_id_key : rc4_key; ch_next_id : Z }.

(** [options] is a null pointer only with an empty mask. [random] is what
    [randomize_key] writes, [fuel] bounds the calls of [gethostname]. *)
Definition ares_init_options (fuel : nat) (sys : system) (random : list Z)
    (o : ares_options) (optmask : Z) : M (status + channel) :=
  ok ← c_malloc;
  if negb ok then mret (inl ARES_ENOMEM)
  else
    '(st, c) ← init_by_options o optmask unset_conf;
    '(st, c) ←
      (if negb (bool_decide (st = ARES_SUCCESS)) then mret (st, c)
       else
         '(_, c) ← and_then (init_by_environment sys c) (init_by_resolv_conf sys);
         init_by_defaults fuel sys c);
    r ← (if bool_decide (st = ARES_SUCCESS) then init_id_key random else mret (inl st));
    match r with
    | inl st => free_array (k_servers c) ;; free_conf c ;; mret (inl st)
    | inr key =>
        match ares__generate_new_id key with
        | None => undefined
        | Some (key, id) => mret (inr (Channel (trim_servers c) key id))
        end
    end.
End files.

(** The engine's view of a configuration, with the fields [ares_init_options]
    sets to zero or NULL. *)
Definition engine_config (c : conf) : config :=
  Config (k_timeout c) (k_tries c) (bool_decide (k_rotate c = 1)) (k_udp_port c) (k_tcp_port c)
    (k_sndbuf c) (k_rcvbuf c) (k_ednspsz c) (repeat 0 32) 0 (repeat 0 16) false false false.

(** The channel the engine starts from: [ares__init_servers_state] on the first
    [nservers] servers. *)
Definition engine_channel (c : conf) (now : timeval) (h : heap) (zs : list Z) (ps : list pkt) : chan :=
  init_channel (engine_config c) (k_flags c) (take (Z.to_nat (k_nservers c)) (k_servers c)) now h zs ps.
