(* ===== verification/ConfigInv.v ===== *)
(** * Safety of the configuration code (c-ares)

    The invariant of a configuration under construction ([conf_ok]), the blocks
    it owns ([conf_blocks]) and, for each routine of Config.v, what it does to
    both, together with the value it computes when the allocations succeed. *)

From S2P Require Import Prelude DnsWire ParseHost InetAddr InetAddr6 ReadLine Search AddrSort HostsFile.
From S2P Require Import Channel Resolver QueryId Config.
Open Scope Z_scope.

(** ** The invariant *)

Definition arr_blocks {A} (l : list A) : Z := match l with [] => 0 | _ => 1 end.

Fixpoint somes {A} (l : list (option A)) : Z :=
  match l with [] => 0 | d :: l' => blocks_opt d + somes l' end.

(** [n] domains are counted; what the array holds beyond them is null. *)
Definition domains_ok (n : Z) (l : list (option (list Z))) : Prop :=
  (n = -1 -> l = []) /\ (Z.to_nat n <= length l)%nat /\ Forall (fun d => d = None) (drop (Z.to_nat n) l).

Record conf_ok (c : conf) : Prop := {
  ko_servers : k_nservers c = -1 -> k_servers c = [];
  ko_nservers : (Z.to_nat (k_nservers c) <= length (k_servers c))%nat;
  ko_domains : domains_ok (k_ndomains c) (k_domains c);
  ko_nsort : k_nsort c = -1 -> k_sortlist c = [] }.

Definition conf_blocks (c : conf) : Z :=
  arr_blocks (k_servers c) + (arr_blocks (k_domains c) + somes (k_domains c))
  + arr_blocks (k_sortlist c) + blocks_opt (k_lookups c).

(** The result of a routine: the invariant, the blocks, and an allocator that
    does not fail stays so. *)
Record keeps (c : conf) (h : heap) (c' : conf) (h' : heap) : Prop := {
  kp_ok : conf_ok c';
  kp_live : live h' - conf_blocks c' = live h - conf_blocks c;
  kp_oracle : oracle h = [] -> oracle h' = [] }.

(** It succeeds when no allocation fails. *)
Definition succeeds (h : heap) (st : status) : Prop := oracle h = [] -> st = ARES_SUCCESS.

Lemma arr_blocks_range {A} (l : list A) : 0 <= arr_blocks l <= 1.
Proof. destruct l; cbn; lia. Qed.

Lemma somes_nonneg {A} (l : list (option A)) : 0 <= somes l.
Proof. induction l as [|d l IH]; cbn; [lia|]. pose proof (blocks_opt_nonneg d). lia. Qed.

Lemma somes_app {A} (l1 l2 : list (option A)) : somes (l1 ++ l2) = somes l1 + somes l2.
Proof. induction l1 as [|d l1 IH]; cbn; [lia|]. rewrite IH. lia. Qed.

Lemma somes_fmap {A} (l : list A) : somes (Some <$> l) = Zlen l.
Proof. induction l as [|x l IH]; [done|]. change (Some <$> x :: l) with (Some x :: (Some <$> l)).
  cbn [somes blocks_opt]. rewrite IH, Zlen_cons. lia. Qed.

Lemma arr_blocks_app {A} (l : list A) x : arr_blocks (l ++ [x]) = 1.
Proof. by destruct l. Qed.

Lemma keeps_refl c h : conf_ok c -> keeps c h c h.
Proof. by split. Qed.

Lemma keeps_trans c1 h1 c2 h2 c3 h3 : keeps c1 h1 c2 h2 -> keeps c2 h2 c3 h3 -> keeps c1 h1 c3 h3.
Proof. intros [? ? ?] [? ? ?]. split; [done|lia|tauto]. Qed.

Lemma conf_blocks_parts c :
  0 <= arr_blocks (k_servers c) /\ 0 <= arr_blocks (k_domains c) /\ 0 <= somes (k_domains c) /\
  0 <= arr_blocks (k_sortlist c) /\ 0 <= blocks_opt (k_lookups c).
Proof.
  pose proof (arr_blocks_range (k_servers c)). pose proof (arr_blocks_range (k_domains c)).
  pose proof (arr_blocks_range (k_sortlist c)). pose proof (somes_nonneg (k_domains c)).
  pose proof (blocks_opt_nonneg (k_lookups c)). lia.
Qed.

(** ** Arrays *)

Lemma wp_free_array {A} (l : list A) h (Q : unit -> heap -> Prop) :
  arr_blocks l <= live h -> Q () (Heap (live h - arr_blocks l) (oracle h)) -> wp (free_array l) h Q.
Proof.
  destruct l; cbn [arr_blocks free_array]; intros Hl HQ.
  - apply wp_ret. destruct h; cbn in *. by rewrite Z.sub_0_r in HQ.
  - by apply wp_free; [lia|].
Qed.

Lemma wp_free_domains n l h (Q : unit -> heap -> Prop) :
  (n <= length l)%nat -> Forall (fun d => d = None) (drop n l) -> somes l <= live h ->
  Q () (Heap (live h - somes l) (oracle h)) -> wp (free_domains n l) h Q.
Proof.
  revert l h. induction n as [|n IH]; intros l h Hn Hd Hl HQ; cbn [free_domains].
  - apply wp_ret. rewrite drop_0 in Hd. assert (E : somes l = 0).
    { clear -Hd. induction Hd as [|d l -> Hd IH]; [done|]. cbn. lia. }
    rewrite E, Z.sub_0_r in HQ. by destruct h.
  - destruct l as [|d l]; [cbn in Hn; lia|]. cbn [length drop somes] in *.
    pose proof (somes_nonneg l). pose proof (blocks_opt_nonneg d).
    apply wp_bind, wp_free_opt; [lia|]. apply IH; [lia|done|cbn; lia|]. cbn [live oracle].
    by replace (live h - blocks_opt d - somes l) with (live h - (blocks_opt d + somes l)) by lia.
Qed.

Lemma wp_read_array {A} n (l : list A) h (Q : list A -> heap -> Prop) :
  (n <= length l)%nat -> Q (take n l) h -> wp (read_array n l) h Q.
Proof.
  revert l Q. induction n as [|n IH]; intros l Q Hn HQ; cbn [read_array]; [by apply wp_ret|].
  destruct l as [|x l]; [cbn in Hn; lia|]. cbn in Hn, HQ. apply wp_bind, IH; [lia|]. by apply wp_ret.
Qed.

Lemma wp_strdup s h (Q : option (list Z) -> heap -> Prop) :
  (forall o, (oracle h = [] -> o = []) -> Q (Some s) (Heap (live h + 1) o)) ->
  (forall o, oracle h <> [] -> Q None (Heap (live h) o)) -> wp (ares_strdup (Some s)) h Q.
Proof. intros Ht Hf. unfold ares_strdup. wp_step. wp_step; apply wp_ret; auto. Qed.

(** ** Search domains *)

(** The domains of a search list: its words, after an empty one when the text
    starts with a space. *)
Definition search_list (str : list Z) : list (list Z) :=
  match str with
  | c :: _ => if ISSPACE c then [] :: words str else words str
  | [] => []
  end.

Lemma search_list_starts str : starts str -> search_list str = words str.
Proof. destruct str as [|c l]; [done|]. cbn. by intros ->. Qed.

Lemma search_list_cons c l :
  search_list (c :: l) = (span ISSPACE (c :: l)).1 :: search_list (next_word (c :: l)) /\
  (length (next_word (c :: l)) < length (c :: l))%nat.
Proof.
  rewrite (search_list_starts (next_word _)) by apply starts_skip. unfold search_list, next_word.
  rewrite words_skip. destruct (ISSPACE c) eqn:E.
  - cbn [span]. rewrite E. cbn [fst snd skip_spaces]. rewrite E. split; [done|].
    destruct (skip_spaces_suffix l) as [sp El]. apply (f_equal length) in El. rewrite length_app in El. cbn. lia.
  - destruct (span ISSPACE (c :: l)) as [w p] eqn:Es. by destruct (words_span _ _ _ _ E Es) as [-> ?].
Qed.

Lemma count_domains_spec fuel p n :
  (length p <= fuel)%nat -> count_domains fuel p n = (n + length (search_list p))%nat.
Proof.
  revert p n. induction fuel as [|fuel IH]; intros [|c l] n Hf; cbn [count_domains]; try (cbn in *; lia).
  destruct (search_list_cons c l) as [-> Hl]. rewrite IH by (cbn in *; lia). cbn. lia.
Qed.

Lemma wp_copy_domains fuel cap p dst h :
  (length p < fuel)%nat -> (length dst + length (search_list p) <= cap)%nat ->
  wp (copy_domains fuel cap p dst) h (fun '(ok, l) h' =>
    live h' = live h + somes l - somes dst /\ (oracle h = [] -> ok = true /\ oracle h' = []) /\
    (if ok : bool then l = dst ++ (Some <$> search_list p)
     else exists done, l = dst ++ (Some <$> done) ++ [None])).
Proof.
  revert p dst h. induction fuel as [|fuel IH]; intros p dst h Hf Hc; [lia|]. cbn [copy_domains].
  destruct p as [|c l]; [apply wp_ret; cbn; rewrite app_nil_r; split_and!; [lia|tauto|done]|].
  destruct (search_list_cons c l) as [E Hl]. rewrite E in *. cbn [length] in Hc.
  wp_step. apply wp_assert; [apply Nat.ltb_lt; lia|]. wp_step. wp_step; cbn [negb].
  - eapply wp_mono; [apply IH; [cbn in *; lia|rewrite length_app; cbn; lia]|].
    intros [ok l'] h' (Hlv & Ho & Hr). cbn [live oracle] in *. rewrite somes_app in Hlv. cbn in Hlv.
    split_and!; [lia|tauto|].
    destruct ok; [rewrite Hr, <- app_assoc; done|]. destruct Hr as [done ->].
    exists ((span ISSPACE (c :: l)).1 :: done). by rewrite <- app_assoc.
  - apply wp_ret. split_and!; [rewrite somes_app; cbn; lia|done|by exists []].
Qed.

(** The configuration after a search list was read. *)
Definition with_search (c : conf) (str : list Z) : conf :=
  set_k_domains (Zlen (search_list str)) (Some <$> search_list str) c.

Lemma conf_ok_domains c n l : conf_ok c -> domains_ok n l -> conf_ok (set_k_domains n l c).
Proof. intros [? ? ? ?] Hd. by split. Qed.

Lemma conf_blocks_domains c n l :
  conf_blocks (set_k_domains n l c) =
  conf_blocks c - (arr_blocks (k_domains c) + somes (k_domains c)) + (arr_blocks l + somes l).
Proof. unfold conf_blocks. cbn. lia. Qed.

Lemma domains_ok_nil n : n <= 0 -> domains_ok n [].
Proof. intros Hn. split_and!; [done|cbn; lia|by rewrite drop_nil]. Qed.

Lemma domains_ok_full l : domains_ok (Zlen l) (Some <$> l).
Proof.
  unfold domains_ok, Zlen. rewrite Nat2Z.id, length_fmap. split_and!; [lia|lia|].
  rewrite drop_ge; [done|]. by rewrite length_fmap.
Qed.

Lemma domains_ok_failed l : domains_ok (Zlen ((Some <$> l) ++ [None]) - 1) ((Some <$> l) ++ [None]).
Proof.
  unfold domains_ok. rewrite Zlen_app, Zlen_cons, Zlen_nil. unfold Zlen. rewrite length_fmap, length_app, length_fmap.
  replace (Z.to_nat _) with (length l) by lia. split_and!; [lia|lia|].
  rewrite drop_app_length' by (by rewrite length_fmap). by repeat constructor.
Qed.

Lemma wp_set_search c str h :
  conf_ok c -> conf_blocks c <= live h ->
  wp (set_search c str) h (fun '(st, c') h' => keeps c h c' h' /\ succeeds h st /\
    (st = ARES_SUCCESS -> c' = with_search c str) /\ (st <> ARES_SUCCESS -> st = ARES_ENOMEM) /\
    (exists n l, c' = set_k_domains n l c)).
Proof.
  intros Hk Hb. unfold set_search. pose proof (conf_blocks_parts c) as Hp.
  apply wp_bind.
  set (c1 := set_k_domains (-1) [] c).
  assert (Hc1 : conf_ok c1) by (apply conf_ok_domains; [done|by repeat constructor]).
  apply (wp_mono _ _ (fun c2 h2 => c2 = c1 /\ live h2 - conf_blocks c1 = live h - conf_blocks c /\ oracle h2 = oracle h)).
  { destruct (Z.eqb_spec (k_ndomains c) (-1)) as [E|E].
    - apply wp_ret. assert (E' : k_domains c = []) by (by apply Hk).
      assert (c = c1) as <- by (unfold c1; destruct c; cbn in *; by subst). done.
    - destruct (ko_domains _ Hk) as (_ & Hn & Hd). apply wp_bind, wp_free_domains; [done|done|unfold conf_blocks in Hb; lia|].
      apply wp_bind, wp_free_array; cbn [live oracle]; [unfold conf_blocks in Hb; lia|]. apply wp_ret.
      split_and!; [done|cbn; unfold c1; rewrite conf_blocks_domains; cbn; lia|done]. }
  intros _ h1 (-> & Hl & Ho). rewrite count_domains_spec by done. cbn [Nat.add].
  assert (Hkeep : forall n l h2, domains_ok n l -> live h2 = live h1 + (arr_blocks l + somes l) ->
    (oracle h1 = [] -> oracle h2 = []) -> keeps c h (set_k_domains n l c1) h2).
  { intros n l h2 Hd Hlv Hoo. split; [by apply conf_ok_domains|rewrite conf_blocks_domains; cbn; lia|rewrite <- Ho; tauto]. }
  destruct (search_list str) as [|d ds] eqn:Es; cbn [length Nat.eqb].
  { apply wp_ret. split_and!; [apply Hkeep; [by repeat constructor|cbn; lia|done]|done| |done|by eexists _, _].
    intros _. unfold with_search. by rewrite Es. }
  wp_step. wp_step; cbn [negb].
  - apply wp_bind. eapply wp_mono; [apply wp_copy_domains; [lia|rewrite Es; cbn; lia]|].
    intros [ok l] h2 (Hlv & Hok & Hr). cbn [live oracle somes] in *. rewrite Z.sub_0_r in Hlv.
    rewrite Ho in *. destruct ok; cbn [negb].
    + cbn [app] in Hr. subst l. apply wp_ret. unfold succeeds. split_and!; [|done| |done|by eexists _, _].
      * apply Hkeep; [|rewrite Es in *; cbn in *; lia|intros ?; apply Hok; eauto].
        unfold Zlen. rewrite length_fmap. apply domains_ok_full.
      * intros _. unfold with_search, Zlen. by rewrite length_fmap.
    + destruct Hr as [done ->]. cbn [app]. apply wp_ret. unfold succeeds. split_and!; [|..].
      * apply Hkeep; [apply domains_ok_failed|rewrite arr_blocks_app; cbn [app] in Hlv; lia|intros ?; apply Hok; eauto].
      * intros ?. exfalso. destruct Hok; auto; done.
      * done.
      * done.
      * by eexists _, _.
  - rewrite Ho in *. apply wp_ret. split_and!; [|by intros ?|done|done|by eexists _, _].
    apply Hkeep; [by repeat constructor|cbn; lia|done].
Qed.

(** ** Options of the resolver *)

(** The rests of a text from the beginning of each of its words. *)
Fixpoint word_starts (fuel : nat) (p : list Z) : list (list Z) :=
  match fuel, p with
  | S fuel', _ :: _ => p :: word_starts fuel' (next_word p)
  | _, _ => []
  end.

(** The text after the first word that starts with [opt]. *)
Definition option_value (opt str : list Z) : option (list Z) :=
  head (omap (fun p => try_option p (length (span ISSPACE p).1) opt) (word_starts (length str) str)).

Definition option_number (opt str : list Z) (x : Z) : Z :=
  match option_value opt str with
  | Some val => if_unset x (aresx_sltosi (strtol val))
  | None => x
  end.

(** The configuration after the options of [str]: what was not set takes the
    first value given. *)
Definition with_options (c : conf) (str : list Z) : conf :=
  set_numbers (option_number str_ndots str (k_ndots c)) (option_number str_retrans str (k_timeout c))
    (option_number str_retry str (k_tries c))
    (match option_value str_rotate str with Some _ => if_unset (k_rotate c) 1 | None => k_rotate c end) c.

Lemma aresx_sltosi_range n : 0 <= aresx_sltosi n <= INT_MAX.
Proof.
  unfold aresx_sltosi. replace INT_MAX with (Z.ones 31) by done. rewrite Z.land_ones by lia.
  pose proof (Z.mod_pos_bound n (2 ^ 31)). change (Z.ones 31) with (2 ^ 31 - 1). lia.
Qed.

Lemma next_word_length c l : (length (next_word (c :: l)) < length (c :: l))%nat.
Proof. apply search_list_cons. Qed.

Lemma word_starts_fuel f1 f2 p :
  (length p <= f1)%nat -> (length p <= f2)%nat -> word_starts f1 p = word_starts f2 p.
Proof.
  revert f2 p. induction f1 as [|f1 IH]; intros [|f2] [|c l] H1 H2; try (cbn in *; lia); try done.
  pose proof (next_word_length c l). cbn [word_starts]. f_equal. apply IH; cbn in *; lia.
Qed.

Lemma option_value_cons opt c l :
  option_value opt (c :: l) =
  match try_option (c :: l) (length (span ISSPACE (c :: l)).1) opt with
  | Some v => Some v
  | None => option_value opt (next_word (c :: l))
  end.
Proof.
  unfold option_value. pose proof (next_word_length c l).
  cbn [length word_starts omap list_omap]. destruct (try_option _ _ _); [done|].
  f_equal. f_equal. apply word_starts_fuel; cbn in *; lia.
Qed.

Lemma with_options_cons c x l :
  with_options c (x :: l) = with_options (option_word c (x :: l)) (next_word (x :: l)).
Proof.
  unfold with_options, option_number, option_word. rewrite !option_value_cons.
  set (p := x :: l). set (w := length (span ISSPACE p).1).
  assert (Hn : forall opt y,
    match match try_option p w opt with Some v => Some v | None => option_value opt (next_word p) end with
    | Some val => if_unset y (aresx_sltosi (strtol val)) | None => y end =
    match option_value opt (next_word p) with
    | Some val => if_unset (match try_option p w opt with
        | Some val => if_unset y (aresx_sltosi (strtol val)) | None => y end) (aresx_sltosi (strtol val))
    | None => match try_option p w opt with
        | Some val => if_unset y (aresx_sltosi (strtol val)) | None => y end
    end).
  { intros opt y. destruct (try_option p w opt) as [v|]; [|done]. pose proof (aresx_sltosi_range (strtol v)).
    destruct (option_value opt (next_word p)); [|done]. unfold if_unset at 2.
    destruct (Z.eqb_spec (if_unset y (aresx_sltosi (strtol v))) (-1)) as [E|]; [|done].
    unfold if_unset in E. destruct (Z.eqb_spec y (-1)); lia. }
  unfold set_numbers, set_scalars. destruct c. cbn -[option_value strtol aresx_sltosi]. rewrite !Hn. f_equal.
  destruct (try_option p w str_rotate); [|done].
  destruct (option_value str_rotate (next_word p)); [|done]. unfold if_unset. by repeat cdec_one.
Qed.

Lemma wp_set_options c str h (Q : status * conf -> heap -> Prop) :
  Q (ARES_SUCCESS, with_options c str) h -> wp (set_options c str) h Q.
Proof.
  intros HQ. unfold set_options. apply wp_bind.
  apply (wp_mono _ _ (fun c' h' => c' = with_options c str /\ h' = h)).
  { clear HQ. assert (H : (length str < S (length str))%nat) by lia. revert H. generalize (S (length str)).
    intros fuel. revert c str. induction fuel as [|fuel IH]; intros c str Hf; [lia|]. cbn [options_loop].
    destruct str as [|x l]; [apply wp_ret; by destruct c|]. pose proof (next_word_length x l).
    rewrite with_options_cons. apply IH. cbn in *. lia. }
  intros ? ? [-> ->]. by apply wp_ret.
Qed.

Lemma with_options_frame c str :
  conf_blocks (with_options c str) = conf_blocks c /\ (conf_ok c -> conf_ok (with_options c str)).
Proof. split; [done|]. intros [? ? ? ?]. by split. Qed.

(** ** Fields between spaces and commas *)

Fixpoint fields_acc (cur : list Z) (l : list Z) : list (list Z) :=
  match l with
  | [] => match cur with [] => [] | _ => [rev cur] end
  | c :: l' =>
      if is_sep c then match cur with [] => fields_acc [] l' | _ => rev cur :: fields_acc [] l' end
      else fields_acc (c :: cur) l'
  end.

Definition fields (l : list Z) : list (list Z) := fields_acc [] l.

Lemma fields_acc_span cur l :
  cur <> [] -> fields_acc cur l = (rev cur ++ (span is_sep l).1) :: fields (span is_sep l).2.
Proof.
  revert cur. induction l as [|c l IH]; intros cur Hc; cbn [fields_acc span].
  - destruct cur; [done|]. cbn [fst snd]. by rewrite app_nil_r.
  - destruct (is_sep c) eqn:E.
    + destruct cur; [done|]. cbn [fst snd]. rewrite app_nil_r. unfold fields. cbn [fields_acc]. by rewrite E.
    + rewrite IH by done. destruct (span is_sep l) as [a b]. cbn [fst snd rev]. by rewrite <- app_assoc.
Qed.

Lemma fields_cons c l :
  is_sep c = false -> fields (c :: l) = (span is_sep (c :: l)).1 :: fields (span is_sep (c :: l)).2.
Proof.
  intros E. unfold fields. cbn [fields_acc span]. rewrite E, fields_acc_span by done.
  destruct (span is_sep l) as [a b]. done.
Qed.

Lemma fields_skip l : fields (skip_seps l) = fields l.
Proof.
  induction l as [|c l IH]; cbn [skip_seps]; [done|]. destruct (is_sep c) eqn:E; [|done].
  rewrite IH. unfold fields. cbn [fields_acc]. by rewrite E.
Qed.

Lemma skip_seps_spec l :
  (length (skip_seps l) <= length l)%nat /\ match skip_seps l with c :: _ => is_sep c = false | [] => fields l = [] end.
Proof.
  split.
  - induction l as [|c l IH]; cbn [skip_seps]; [done|]. destruct (is_sep c); cbn; lia.
  - rewrite <- fields_skip. induction l as [|c l IH]; cbn [skip_seps]; [done|]. by destruct (is_sep c) eqn:E.
Qed.

(** The first field and what follows it. *)
Lemma fields_span c l w q :
  is_sep c = false -> span is_sep (c :: l) = (w, q) ->
  fields (c :: l) = w :: fields q /\ (length q < length (c :: l))%nat /\ head w = Some c.
Proof.
  intros Ec E. rewrite (fields_cons c l Ec), E. split; [done|].
  cbn [span] in E. rewrite Ec in E. pose proof (span_spec is_sep l) as Hl. destruct (span is_sep l) as [a b].
  injection E as <- <-. destruct Hl as (El & _). apply (f_equal length) in El. rewrite length_app in El. split; [cbn; lia|done].
Qed.

(** ** Order of lookups *)

Definition lookup_letter (bindch altbindch filech c : Z) : option Z :=
  if (c =? bindch) || (c =? altbindch) then Some ch_b else if c =? filech then Some ch_f else None.

(** The order a text gives: the first letters of its fields, of which two count. *)
Definition lookup_order (bindch altbindch filech : Z) (str : list Z) : list Z :=
  take 2 (omap (lookup_letter bindch altbindch filech) (omap head (fields str))).

Lemma wp_config_lookup_loop fuel bindch altbindch filech p l h (Q : list Z -> heap -> Prop) :
  is_sep bindch = false -> is_sep altbindch = false -> is_sep filech = false ->
  (length p < fuel)%nat -> (length l <= 2)%nat ->
  Q (take 2 (l ++ omap (lookup_letter bindch altbindch filech) (omap head (fields p)))) h ->
  wp (lookup_loop fuel bindch altbindch filech p l) h Q.
Proof.
  intros Hb Ha Hc. revert p l. induction fuel as [|fuel IH]; intros p l Hf Hl HQ; [lia|]. cbn [lookup_loop].
  assert (Hz : (Zlen l <? 3) = true) by (apply Z.ltb_lt; unfold Zlen; lia).
  destruct p as [|c p].
  { apply wp_bind, wp_assert; [done|]. apply wp_ret. cbn in HQ. rewrite app_nil_r, take_ge in HQ by done. done. }
  destruct (is_sep c) eqn:Es.
  - (* the text starts with a separator *)
    assert (Hn : (c =? bindch) || (c =? altbindch) || (c =? filech) = false).
    { destruct (Z.eqb_spec c bindch), (Z.eqb_spec c altbindch), (Z.eqb_spec c filech); try done; congruence. }
    rewrite Hn. cbn [andb]. wp_step. wp_step. cbn [span]. rewrite Es. cbn [snd skip_seps]. rewrite Es.
    destruct (skip_seps_spec p) as [Hsl _]. apply IH; [cbn in Hf; lia|done|]. rewrite fields_skip.
    replace (fields (c :: p)) with (fields p) in HQ; [done|]. unfold fields. cbn [fields_acc]. by rewrite Es.
  - destruct (span is_sep (c :: p)) as [w q] eqn:Ew. destruct (fields_span _ _ _ _ Es Ew) as (Ef & Hq & Hw).
    destruct (skip_seps_spec q) as [Hsl _]. rewrite Ef in HQ. cbn [omap list_omap] in HQ. rewrite Hw in HQ.
    cbn [omap list_omap] in HQ. unfold lookup_letter at 1 in HQ. cbn [snd].
    apply wp_bind. destruct ((c =? bindch) || (c =? altbindch)) eqn:Eb; cbn [orb andb] in *;
      [|destruct (c =? filech) eqn:Ec; cbn [andb] in *].
    1, 2: destruct (Z.ltb_spec (Zlen l) 2) as [Hl2|Hl2]; unfold Zlen in Hl2.
    1, 3: apply wp_bind, wp_assert; [exact Hz|]; apply wp_ret, IH; [cbn in *; lia|rewrite length_app; cbn; lia|];
      rewrite fields_skip, <- app_assoc; exact HQ.
    1, 2: apply wp_ret, IH; [cbn in *; lia|done|]; rewrite fields_skip;
      rewrite take_app_le in HQ by lia; by rewrite take_app_le by lia.
    apply wp_ret, IH; [cbn in *; lia|done|]. by rewrite fields_skip.
Qed.

Lemma conf_ok_lookups c l : conf_ok c -> conf_ok (set_k_lookups l c).
Proof. intros [? ? ? ?]. by split. Qed.

Lemma wp_config_lookup c str bindch altbindch filech h :
  is_sep bindch = false -> is_sep altbindch = false -> is_sep filech = false ->
  conf_ok c -> k_lookups c = None ->
  wp (config_lookup c str bindch altbindch filech) h (fun '(st, c') h' => keeps c h c' h' /\ succeeds h st /\
    (st = ARES_SUCCESS -> c' = set_k_lookups (Some (lookup_order bindch altbindch filech str)) c) /\
    (st <> ARES_SUCCESS -> st = ARES_ENOMEM /\ c' = c)).
Proof.
  intros H1 H2 H3 Hk Hn. unfold config_lookup. apply wp_bind, wp_config_lookup_loop; [done..|lia|cbn; lia|]. cbn [app].
  fold (lookup_order bindch altbindch filech str). wp_step.
  apply wp_strdup; intros o Ho; apply wp_ret; unfold succeeds; cbn [oracle live].
  - split_and!; [|done..]. split; [by apply conf_ok_lookups|unfold conf_blocks; cbn; rewrite Hn; cbn; lia|done].
  - assert (E : set_k_lookups None c = c) by (destruct c; cbn in *; by subst). rewrite E.
    split_and!; [|done..]. by split.
Qed.

(** ** Name servers *)

Section servers.
Context (inet_pton4 inet_pton6 : list Z -> option (list Z)).
Local Abbreviation server_address := (server_address inet_pton4 inet_pton6).

Lemma wp_config_nameserver fuel servers p h :
  (length p < fuel)%nat -> arr_blocks servers <= live h ->
  wp (config_nameserver inet_pton4 inet_pton6 fuel servers p) h (fun '(st, servers') h' =>
    live h' - arr_blocks servers' = live h - arr_blocks servers /\
    (oracle h = [] -> st = ARES_SUCCESS /\ oracle h' = []) /\ (st <> ARES_SUCCESS -> st = ARES_ENOMEM) /\
    (st = ARES_SUCCESS -> servers' = servers ++ omap server_address (fields p))).
Proof.
  revert servers p h. induction fuel as [|fuel IH]; intros servers p h Hf Hl; [lia|]. cbn [config_nameserver].
  destruct (skip_seps_spec p) as [Hsl Hhd]. rewrite <- (fields_skip p).
  destruct (skip_seps p) as [|c l].
  { apply wp_ret. cbn. rewrite app_nil_r. split_and!; [lia|done..]. }
  destruct (span is_sep (c :: l)) as [w q] eqn:Ew. destruct (fields_span _ _ _ _ Hhd Ew) as (Ef & Hq & _).
  rewrite Ef. cbn [omap list_omap].
  assert (Hrest : forall l1 h1, live h1 - arr_blocks l1 = live h - arr_blocks servers -> (oracle h = [] -> oracle h1 = []) ->
    wp (match q with [] => mret (ARES_SUCCESS, l1) | _ :: p => config_nameserver inet_pton4 inet_pton6 fuel l1 p end) h1
      (fun '(st, servers') h' => live h' - arr_blocks servers' = live h - arr_blocks servers /\
        (oracle h = [] -> st = ARES_SUCCESS /\ oracle h' = []) /\ (st <> ARES_SUCCESS -> st = ARES_ENOMEM) /\
        (st = ARES_SUCCESS -> servers' = l1 ++ omap server_address (fields q)))).
  { intros l1 h1 Hl1 Ho. destruct q as [|x q].
    - apply wp_ret. cbn. rewrite app_nil_r. split_and!; [lia|by auto|done..].
    - assert (Hx : fields (x :: q) = fields q).
      { pose proof (span_spec is_sep (c :: l)) as H. rewrite Ew in H. destruct H as (_ & _ & Hx).
        unfold fields. cbn [fields_acc]. by rewrite Hx. }
      rewrite Hx. eapply wp_mono; [apply IH; [cbn in *; lia|]|].
      { pose proof (arr_blocks_range servers). lia. }
      intros [st l2] h2 (? & ? & ? & ?). split_and!; [lia|by auto|done..]. }
  apply wp_bind. destruct (server_address w) as [a|].
  - apply wp_bind.
    assert (Hlen : forall (ok : bool) h1, live h1 = live h + (if ok then 1 - arr_blocks servers else 0) ->
      (if ok then oracle h = [] -> oracle h1 = [] else oracle h <> []) ->
      wp (mret (if ok then inr (servers ++ [a]) else inl servers)) h1 (fun s h' =>
        wp (match s, q with
            | inl servers, _ => mret (ARES_ENOMEM, servers)
            | inr servers, [] => mret (ARES_SUCCESS, servers)
            | inr servers, _ :: p => config_nameserver inet_pton4 inet_pton6 fuel servers p end) h'
        (fun '(st, servers') h' => live h' - arr_blocks servers' = live h - arr_blocks servers /\
        (oracle h = [] -> st = ARES_SUCCESS /\ oracle h' = []) /\ (st <> ARES_SUCCESS -> st = ARES_ENOMEM) /\
        (st = ARES_SUCCESS -> servers' = servers ++ a :: omap server_address (fields q))))).
    { intros [] h1 Hl1 Ho; apply wp_ret.
      - eapply wp_mono; [apply Hrest; [rewrite arr_blocks_app; lia|done]|].
        intros [st l2] h2. by rewrite <- app_assoc.
      - apply wp_ret. split_and!; [lia|tauto|done..]. }
    destruct servers as [|s servers]; [apply wp_malloc|apply wp_realloc]; intros o Ho.
    1, 3: apply (Hlen true); cbn; try done; lia.
    1, 2: apply (Hlen false); cbn; try done; lia.
  - apply wp_ret. apply Hrest; [lia|done].
Qed.
End servers.
