(* ===== verification/ConfigFile.v ===== *)
(** * Configuration files (c-ares)

    What the lines of /etc/resolv.conf, /etc/nsswitch.conf and their neighbours
    mean, as specifications on the lines of the files, and the proofs that
    [try_config], the loops over the files and [init_by_resolv_conf] of Config.v
    follow them. *)

From S2P Require Import Prelude DnsWire ParseHost InetAddr InetAddr6 ReadLine Search AddrSort HostsFile.
From S2P Require Import Channel Resolver QueryId Config ConfigInv.
Open Scope Z_scope.

(** ** Directives *)

Definition is_comment (scc c : Z) : bool := (c =? 35) || (negb (scc =? 0) && (c =? scc)).

Definition spaces (l : list Z) : Prop := Forall (fun c => ISSPACE c = true) l.

(** The text starts and ends with something that is not a space. *)
Definition trimmed (l : list Z) : Prop :=
  (exists c l', l = c :: l' /\ ISSPACE c = false) /\ (exists c l', l = l' ++ [c] /\ ISSPACE c = false).

(** The line gives the option [opt] the value [v]: before a comment, it is the
    name of the option, spaces and the value; the spaces may be missing after a
    name that ends with a colon or an equals sign. *)
Inductive directive (opt : list Z) (scc : Z) (line v : list Z) : Prop :=
| Directive (sp1 sp2 sp3 rest : list Z) :
    line = sp1 ++ opt ++ sp2 ++ v ++ sp3 ++ rest ->
    spaces sp1 -> spaces sp2 -> spaces sp3 -> trimmed v ->
    (sp2 = [] -> last opt = Some 58 \/ last opt = Some 61) ->
    Forall (fun c => is_comment scc c = false) (sp1 ++ opt ++ sp2 ++ v ++ sp3) ->
    match rest with c :: _ => is_comment scc c = true | [] => True end ->
    directive opt scc line v.

Definition stripped (scc : Z) (s : list Z) : list Z := trim_end (span (is_comment scc) s).1.

Lemma span_app stop a rest :
  Forall (fun c => stop c = false) a -> match rest with c :: _ => stop c = true | [] => True end ->
  span stop (a ++ rest) = (a, rest).
Proof.
  intros Ha Hr. induction Ha as [|c a Hc Ha IH]; cbn [app span].
  - destruct rest as [|c rest]; [done|]. cbn. by rewrite Hr.
  - by rewrite Hc, IH.
Qed.

Lemma trim_end_spec l :
  exists sp, l = trim_end l ++ sp /\ spaces sp /\
    (trim_end l = [] \/ exists c l', trim_end l = l' ++ [c] /\ ISSPACE c = false).
Proof.
  unfold trim_end. destruct (skip_spaces_spec (rev l)) as (sp & E & Hs & Hh). exists (rev sp).
  split_and!.
  - by rewrite <- rev_app_distr, <- E, rev_involutive.
  - unfold spaces. by rewrite <- Permutation_rev.
  - destruct (skip_spaces (rev l)) as [|c l']; [by left|right]. exists c, (rev l'). done.
Qed.

Lemma skip_blanks_app sp l : spaces sp -> starts l -> skip_spaces (sp ++ l) = l.
Proof.
  intros Hs Hl. induction Hs as [|c sp Hc Hs IH]; cbn [app skip_spaces].
  - destruct l as [|c l]; [done|]. cbn in *. by rewrite Hl.
  - by rewrite Hc.
Qed.

Lemma trim_end_app l c sp : ISSPACE c = false -> spaces sp -> trim_end (l ++ [c] ++ sp) = l ++ [c].
Proof.
  intros Hc Hs. unfold trim_end. rewrite !rev_app_distr. cbn [rev app]. rewrite <- app_assoc. cbn [app].
  rewrite skip_blanks_app; [cbn; by rewrite rev_involutive|unfold spaces; by rewrite <- Permutation_rev|done].
Qed.

Lemma Forall_not_comment_trim scc s :
  Forall (fun c => is_comment scc c = false) (stripped scc s).
Proof.
  unfold stripped. pose proof (span_spec (is_comment scc) s) as H. destruct (span (is_comment scc) s) as [a b].
  destruct H as (_ & Ha & _). cbn [fst]. destruct (trim_end_spec a) as (sp & E & _). rewrite E in Ha.
  by apply Forall_app in Ha as [? _].
Qed.

Lemma trim_end_idem l : trim_end (trim_end l) = trim_end l.
Proof.
  destruct (trim_end_spec l) as (_ & _ & _ & [->|(c & l' & -> & Hc)]); [done|].
  exact (trim_end_app l' c [] Hc (Forall_nil_2 _)).
Qed.

Lemma stripped_idem scc s : stripped scc (stripped scc s) = stripped scc s.
Proof.
  unfold stripped at 1. pose proof (Forall_not_comment_trim scc s) as H.
  rewrite <- (app_nil_r (stripped scc s)) at 1. rewrite span_app by done. cbn [fst]. apply trim_end_idem.
Qed.

(** The call only strips the line, and what it finds depends on the stripped
    line only. *)
Lemma try_config_stripped s opt scc :
  try_config s opt scc = (stripped scc s, (try_config (stripped scc s) opt scc).2).
Proof.
  unfold try_config. fold (is_comment scc). fold (stripped scc s).
  fold (stripped scc (stripped scc s)). by rewrite stripped_idem.
Qed.

Lemma starts_with_spec opt p : starts_with opt p = true <-> exists r, p = opt ++ r.
Proof.
  unfold starts_with. rewrite bool_decide_eq_true. split.
  - intros E. exists (drop (length opt) p). by rewrite <- E at 1; rewrite take_drop.
  - intros [r ->]. by rewrite take_app_length.
Qed.

(** [try_config] finds the value of the directive. *)
Lemma try_config_directive line opt scc v :
  opt <> [] -> starts opt -> (try_config line opt scc).2 = Some v -> directive opt scc line v.
Proof.
  intros Hne Hst. unfold try_config. cbn [snd]. fold (is_comment scc).
  pose proof (span_spec (is_comment scc) line) as Hsp. destruct (span (is_comment scc) line) as [a rest].
  destruct Hsp as (El & Ha & Hrest). cbn [fst]. destruct (trim_end_spec a) as (sp3 & Ea & Hs3 & Hend).
  destruct (skip_spaces_spec (trim_end a)) as (sp1 & E1 & Hs1 & _).
  destruct (skip_spaces (trim_end a)) as [|c0 p0]; [done|].
  destruct (Nat.eqb_spec (length opt) 0) as [E0|_]; [by apply nil_length_inv in E0|].
  destruct (starts_with opt (c0 :: p0)) eqn:Esw; [|done]. apply starts_with_spec in Esw as [r Er].
  rewrite Er, drop_app_length. cbn [negb]. destruct r as [|c r]; [done|].
  destruct (negb _ && _ && _) eqn:Eg; [done|].
  destruct (skip_spaces_spec (c :: r)) as (sp2 & E2 & Hs2 & Hh2).
  destruct (skip_spaces (c :: r)) as [|d w]; [done|]. intros [= <-].
  assert (Et : trim_end a = sp1 ++ opt ++ sp2 ++ d :: w) by congruence.
  assert (Hline : line = sp1 ++ opt ++ sp2 ++ (d :: w) ++ sp3 ++ rest)
    by (rewrite El, Ea, Et; by rewrite <- !app_assoc).
  apply (Directive _ _ _ _ sp1 sp2 sp3 rest); [done..| | | |done].
  - split; [by eexists _, _|]. destruct Hend as [Hend|(x & t' & Hend & Hx)].
    { rewrite Et in Hend. by destruct sp1, opt. }
    rewrite Et in Hend. destruct (exists_last (l := d :: w)) as (w' & y & Ey); [done|].
    rewrite Ey, !app_assoc in Hend. apply app_inj_tail in Hend as [_ ->]. by eexists _, _.
  - intros ->. cbn in E2. injection E2 as -> ->. rewrite Hh2 in Eg. rewrite andb_true_r in Eg.
    destruct (last opt) as [z|]; cbn [default] in Eg; [|done]. unfold id in Eg. revert Eg.
    destruct (Z.eqb_spec z 58) as [->|]; [by left|]. destruct (Z.eqb_spec z 61) as [->|]; [by right|]. done.
  - rewrite Ea, Et in Ha. by rewrite <- !app_assoc in Ha.
Qed.

Lemma directive_try_config line opt scc v :
  opt <> [] -> starts opt -> directive opt scc line v -> (try_config line opt scc).2 = Some v.
Proof.
  intros Hne Hst [sp1 sp2 sp3 rest -> Hs1 Hs2 Hs3 [(d & w & Ev & Hd) (x & t & Ev' & Hx)] Hsp Hc Hr].
  unfold try_config. cbn [snd]. fold (is_comment scc).
  replace (sp1 ++ opt ++ sp2 ++ v ++ sp3 ++ rest) with ((sp1 ++ opt ++ sp2 ++ v ++ sp3) ++ rest)
    by (by rewrite <- !app_assoc).
  rewrite span_app by done. cbn [fst].
  assert (Et : trim_end (sp1 ++ opt ++ sp2 ++ v ++ sp3) = sp1 ++ opt ++ sp2 ++ v).
  { rewrite Ev'. replace (sp1 ++ opt ++ sp2 ++ (t ++ [x]) ++ sp3) with ((sp1 ++ opt ++ sp2 ++ t) ++ [x] ++ sp3)
      by (by rewrite <- !app_assoc). rewrite trim_end_app by done. by rewrite <- !app_assoc. }
  rewrite Et. rewrite skip_blanks_app; [|done|by destruct opt].
  assert (Hsw : starts_with opt (opt ++ sp2 ++ v) = true) by (apply starts_with_spec; by eexists).
  assert (Hl : (length opt =? 0)%nat = false) by (by destruct opt).
  destruct (opt ++ sp2 ++ v) as [|z q] eqn:Eq; [by destruct opt|]. rewrite Hl, Hsw, <- Eq, drop_app_length. cbn [negb].
  assert (Hsk : skip_spaces (sp2 ++ v) = v) by (apply skip_blanks_app; [done|by subst v]).
  destruct (sp2 ++ v) as [|c r] eqn:E; [destruct sp2; by subst v|].
  destruct (negb _ && _ && _) eqn:Eg.
  - exfalso. destruct sp2 as [|c' sp2].
    + destruct (Hsp eq_refl) as [Hc2|Hc2]; rewrite Hc2 in Eg; done.
    + injection E as -> _. apply Forall_cons in Hs2 as [Hc' _]. rewrite Hc' in Eg. by rewrite andb_false_r in Eg.
  - rewrite Hsk. by subst v.
Qed.

(** ** A line of resolv.conf *)

Definition line_value (opt : list Z) (scc : Z) (line : list Z) : option (list Z) := (try_config line opt scc).2.

Lemma line_value_stripped opt scc line : line_value opt scc (stripped scc line) = line_value opt scc line.
Proof. unfold line_value. by rewrite (try_config_stripped line). Qed.

Lemma wp_config_if line opt guard yes no h (Q : status * rstate -> heap -> Prop) :
  (forall v, line_value opt ch_semi line = Some v -> guard = true -> wp (yes v) h Q) ->
  ((line_value opt ch_semi line <> None -> guard = false) -> wp (no (stripped ch_semi line)) h Q) ->
  wp (config_if line opt guard yes no) h Q.
Proof.
  intros Hy Hn. unfold config_if, line_value in *. rewrite (try_config_stripped line opt ch_semi) in *. cbn [snd] in *.
  destruct (try_config _ _ _).2 as [v|]; [|by apply Hn]. destruct guard; [by apply Hy|by apply Hn].
Qed.

(** No two of the names are the beginning of one line. *)
Lemma line_value_starts opt scc line v :
  line_value opt scc line = Some v -> starts_with opt (skip_spaces (stripped scc line)) = true.
Proof.
  unfold line_value, try_config. cbn [snd]. fold (is_comment scc). fold (stripped scc line).
  destruct (skip_spaces (stripped scc line)) as [|c p]; [done|]. destruct (length opt =? 0)%nat; [done|].
  by destruct (starts_with opt (c :: p)).
Qed.

Lemma line_value_exclusive o1 o2 scc line v :
  line_value o1 scc line = Some v -> starts_with o1 o2 = false -> starts_with o2 o1 = false ->
  line_value o2 scc line = None.
Proof.
  intros H1 H12 H21. destruct (line_value o2 scc line) as [v2|] eqn:H2; [exfalso|done].
  apply line_value_starts in H1, H2. revert H1 H2. generalize (skip_spaces (stripped scc line)). intros p.
  rewrite !starts_with_spec. intros [r1 ->] [r2 E].
  destruct (app_eq_inv _ _ _ _ E) as [[k [-> _]]|[k [-> _]]].
  - assert (H : starts_with o2 (o2 ++ k) = true) by (apply starts_with_spec; by eexists). congruence.
  - assert (H : starts_with o1 (o1 ++ k) = true) by (apply starts_with_spec; by eexists). congruence.
Qed.

(** The other names of the line that gives the value [H]. *)
Ltac not_other H o := try rewrite (line_value_exclusive _ o _ _ _ H eq_refl eq_refl).
Ltac no_other H :=
  not_other H str_domain; not_other H str_search; not_other H str_lookup;
  not_other H str_nameserver; not_other H str_options; not_other H str_sortlist.

Section resolv.
Context (inet_addr inet_pton4 inet_pton6 : list Z -> option (list Z)).
Local Abbreviation server_address := (server_address inet_pton4 inet_pton6).

(** What a line does to the configuration and to the servers found so far; the
    sort list is in [line_patterns]. *)
Definition spec_line (upd : bool) (line : list Z) (st : conf * list ares_addr) : conf * list ares_addr :=
  let '(c, srv) := st in
  let value opt := line_value opt ch_semi line in
  match value str_domain, value str_search, value str_lookup, value str_nameserver, value str_options with
  | Some v, _, _, _, _ => if upd then (with_search c (span ISSPACE v).1, srv) else st
  | _, Some v, _, _, _ => if upd then (with_search c v, srv) else st
  | _, _, Some v, _, _ =>
      if k_lookups c is None then (set_k_lookups (Some (lookup_order ch_b ch_b ch_f v)) c, srv) else st
  | _, _, _, Some v, _ => if k_nservers c =? -1 then (c, srv ++ omap server_address (fields v)) else st
  | _, _, _, _, Some v => (with_options c v, srv)
  | _, _, _, _, _ => st
  end.

(** The sort lists of the lines are such that the parser is safe on them. *)
Definition sort_line_ok (line : list Z) : Prop :=
  forall v, line_value str_sortlist ch_semi line = Some v -> no_slash v /\ short_items v.

(** The patterns that a line adds to the sort list. *)
Definition line_patterns (c : conf) (line : list Z) : list apattern :=
  if k_nsort c =? -1
  then from_option (sort_patterns inet_addr) [] (line_value str_sortlist ch_semi line) else [].

Record rstate_ok (st : rstate) : Prop := {
  rs_conf : conf_ok (r_conf st);
  rs_servers : r_servers st <> [] -> k_nservers (r_conf st) = -1;
  rs_sortlist : r_sortlist st <> [] -> k_nsort (r_conf st) = -1;
  rs_patterns : Forall pattern_ok (r_sortlist st) }.

Definition rblocks (st : rstate) : Z :=
  conf_blocks (r_conf st) + arr_blocks (r_servers st) + arr_blocks (r_sortlist st).

(** The fields of the configuration that the lines do not set. *)
Definition same_arrays (c c' : conf) : Prop :=
  k_nservers c' = k_nservers c /\ k_servers c' = k_servers c /\ k_nsort c' = k_nsort c /\ k_sortlist c' = k_sortlist c.

Definition line_post (upd : bool) (line : list Z) (st : rstate) (h : heap) (r : status * rstate) (h' : heap) : Prop :=
  let '(s, st') := r in
  rstate_ok st' /\ live h' - rblocks st' = live h - rblocks st /\
  (oracle h = [] -> s = ARES_SUCCESS /\ oracle h' = []) /\ (s <> ARES_SUCCESS -> s = ARES_ENOMEM) /\
  same_arrays (r_conf st) (r_conf st') /\
  (s = ARES_SUCCESS -> (r_conf st', r_servers st') = spec_line upd line (r_conf st, r_servers st) /\
     r_sortlist st' = r_sortlist st ++ line_patterns (r_conf st) line).

Lemma no_patterns c line : line_value str_sortlist ch_semi line = None -> line_patterns c line = [].
Proof. unfold line_patterns. intros ->. by destruct (k_nsort c =? -1). Qed.

(** A step that only changes the configuration. *)
Lemma wp_on_conf upd line st h m :
  rstate_ok st -> line_value str_sortlist ch_semi line = None ->
  wp m h (fun '(s, c') h' => keeps (r_conf st) h c' h' /\ succeeds h s /\ (s <> ARES_SUCCESS -> s = ARES_ENOMEM) /\
    same_arrays (r_conf st) c' /\
    (s = ARES_SUCCESS -> (c', r_servers st) = spec_line upd line (r_conf st, r_servers st))) ->
  wp (on_conf st m) h (line_post upd line st h).
Proof.
  intros [H1 H2 H3 H4] Hn Hm. unfold on_conf. apply wp_bind. eapply wp_mono; [exact Hm|].
  intros [s c'] h' ([Hk Hl Ho] & Hs & He & Ha & Hsp). apply wp_ret. unfold line_post, rblocks. cbn [r_conf r_servers r_sortlist].
  destruct Ha as (A1 & A2 & A3 & A4). rewrite (no_patterns _ _ Hn), app_nil_r.
  split_and!; [|lia|by auto|done|done|by auto].
  split; cbn; [done|rewrite A1; done|rewrite A3; done|done].
Qed.

(** The arrays that a step of the configuration leaves alone. *)
Lemma same_arrays_domains c n l : same_arrays c (set_k_domains n l c).
Proof. done. Qed.

Lemma wp_search_step upd line st h str :
  rstate_ok st -> rblocks st <= live h -> line_value str_sortlist ch_semi line = None ->
  (with_search (r_conf st) str, r_servers st) = spec_line upd line (r_conf st, r_servers st) ->
  wp (on_conf st (set_search (r_conf st) str)) h (line_post upd line st h).
Proof.
  intros Hst Hb Hn Hsp. pose proof (arr_blocks_range (r_servers st)). pose proof (arr_blocks_range (r_sortlist st)).
  apply wp_on_conf; [done|done|]. eapply wp_mono; [apply wp_set_search; [apply Hst|unfold rblocks in Hb; lia]|].
  intros [s c'] h' (Hk & Hs & He & Ho & n & l & ->). split_and!; [done..|].
  intros Hs1. by rewrite (He Hs1).
Qed.

Lemma wp_resolv_line upd line st h :
  rstate_ok st -> rblocks st <= live h -> sort_line_ok line ->
  wp (resolv_line inet_addr inet_pton4 inet_pton6 upd line st) h (line_post upd line st h).
Proof.
  intros Hst Hb Hsort. pose proof (conf_blocks_parts (r_conf st)). unfold resolv_line.
  pose proof (arr_blocks_range (r_servers st)). pose proof (arr_blocks_range (r_sortlist st)).
  assert (Hb0 : 0 <= conf_blocks (r_conf st)) by (unfold conf_blocks; lia).
  apply wp_config_if; rewrite ?line_value_stripped, ?stripped_idem.
  { intros v Hv ->. apply wp_search_step; [done..|by not_other Hv str_sortlist|]. unfold spec_line. by rewrite Hv. }
  intros N1. apply wp_config_if; rewrite ?line_value_stripped, ?stripped_idem.
  { intros v Hv Hg. apply bool_decide_eq_true in Hg. apply wp_on_conf; [done|by not_other Hv str_sortlist|].
    eapply wp_mono; [apply wp_config_lookup; [done..|apply Hst|done]|].
    intros [s c'] h' (Hk & Hs & He & Ho). split_and!; [done|done|intros ?; by apply Ho| |].
    - destruct (decide (s = ARES_SUCCESS)) as [E|E]; [by rewrite (He E)|by rewrite (proj2 (Ho E))].
    - intros E. rewrite (He E). unfold spec_line. rewrite Hv. no_other Hv. by rewrite Hg. }
  intros N2. apply wp_config_if; rewrite ?line_value_stripped, ?stripped_idem.
  { intros v Hv ->. apply wp_search_step; [done..|by not_other Hv str_sortlist|]. unfold spec_line. rewrite Hv. by no_other Hv. }
  intros N3. apply wp_config_if; rewrite ?line_value_stripped, ?stripped_idem.
  { intros v Hv Hg. apply wp_bind. eapply wp_mono; [apply wp_config_nameserver; [lia|unfold rblocks in Hb; lia]|].
    intros [s l] h' (Hl & Ho & He & Hs). apply wp_ret. unfold line_post, rblocks. cbn [r_conf r_servers r_sortlist].
    apply Z.eqb_eq in Hg as Hg'. destruct Hst as [S1 S2 S3 S4].
    split_and!; [by split|lia|done|done|done|]. intros E. rewrite (Hs E), no_patterns by (by not_other Hv str_sortlist).
    rewrite app_nil_r. split; [|done]. unfold spec_line. rewrite Hv. no_other Hv. by rewrite Hg. }
  intros N4. apply wp_config_if; rewrite ?line_value_stripped, ?stripped_idem.
  { intros v Hv Hg. destruct (Hsort v Hv) as [Hns Hsh]. apply wp_bind.
    eapply wp_mono; [apply wp_config_sortlist; [lia|done|done|apply Hst| |]|].
    { change (arr_blocks (r_sortlist st) <= live h). unfold rblocks in Hb. lia. }
    { unfold rblocks in Hb. lia. }
    intros [s l] h' (Hp & Hl & Ho). apply wp_ret. unfold line_post, rblocks. cbn [r_conf r_servers r_sortlist fst snd] in *.
    change (live h' = live h - arr_blocks (r_sortlist st) + arr_blocks l) in Hl.
    apply Z.eqb_eq in Hg. destruct Hst as [S1 S2 S3 S4].
    destruct Ho as [[E Ho]|[E Ho]]; injection E as -> ->;
      (split_and!; [by split|lia|by auto|done|done|done || idtac]).
    intros _. unfold line_patterns. rewrite Hg, Hv. split; [|done]. unfold spec_line. by no_other Hv. }
  intros N5. apply wp_config_if; rewrite ?line_value_stripped, ?stripped_idem.
  { intros v Hv _. apply wp_on_conf; [done|by not_other Hv str_sortlist|]. apply wp_set_options. destruct (with_options_frame (r_conf st) v) as [Hbl Hok].
    split_and!; [split; [apply Hok, Hst|rewrite Hbl; lia|done]|done..|]. intros _. unfold spec_line. rewrite Hv. by no_other Hv. }
  intros N6. apply wp_ret. unfold line_post. split_and!; [done|lia|done|done|done|]. intros _. split.
  2:{ unfold line_patterns. destruct (line_value str_sortlist ch_semi line); cbn;
        [rewrite N5 by done|destruct (k_nsort _ =? -1)]; by rewrite app_nil_r. }
  unfold spec_line.
  destruct (line_value str_domain ch_semi line); [by rewrite N1|].
  destruct (line_value str_search ch_semi line); [by rewrite N3|].
  destruct (line_value str_lookup ch_semi line).
  { specialize (N2 ltac:(done)). apply bool_decide_eq_false in N2. by destruct (k_lookups (r_conf st)). }
  destruct (line_value str_nameserver ch_semi line); [by rewrite N4|].
  destruct (line_value str_options ch_semi line); [by specialize (N6 ltac:(done))|done].
Qed.

(** ** The files *)

Definition spec_lines (upd : bool) (ls : list (list Z)) (st : conf * list ares_addr) : conf * list ares_addr :=
  foldl (fun st line => spec_line upd line st) st ls.

(** The sort list of a file: the patterns of its lines together. *)
Definition file_patterns (c : conf) (ls : list (list Z)) : list apattern := ls ≫= line_patterns c.

Lemma file_patterns_same c c' ls : k_nsort c' = k_nsort c -> file_patterns c' ls = file_patterns c ls.
Proof. intros E. unfold file_patterns, line_patterns. by rewrite E. Qed.

(** The status at the end of a file. *)
Definition file_status (fp : stream) : status := if st_fails fp then ARES_EFILE else ARES_EOF.

Definition loop_end (fp : stream) (h : heap) (s : status) (h' : heap) : Prop :=
  (s = file_status fp \/ (s = ARES_ENOMEM /\ oracle h <> [])) /\ (oracle h = [] -> oracle h' = []).

Lemma same_arrays_trans c1 c2 c3 : same_arrays c1 c2 -> same_arrays c2 c3 -> same_arrays c1 c3.
Proof. unfold same_arrays. intuition congruence. Qed.

Lemma file_status_rest d f : file_status (Stream d f) = file_status (Stream [] f).
Proof. done. Qed.

Lemma wp_resolv_loop fuel upd buf fp st h :
  (length (st_data fp) < fuel)%nat -> text_file fp -> buf_opt_ok buf -> rstate_ok st ->
  blocks_opt buf + rblocks st <= live h -> Forall sort_line_ok (lines (st_data fp)) ->
  wp (resolv_loop inet_addr inet_pton4 inet_pton6 fuel upd buf fp st) h (fun '(s, st', buf') h' =>
    rstate_ok st' /\ buf_opt_ok buf' /\
    live h' - rblocks st' - blocks_opt buf' = live h - rblocks st - blocks_opt buf /\
    loop_end fp h s h' /\ same_arrays (r_conf st) (r_conf st') /\
    (s = file_status fp ->
     (r_conf st', r_servers st') = spec_lines upd (lines (st_data fp)) (r_conf st, r_servers st) /\
     r_sortlist st' = r_sortlist st ++ file_patterns (r_conf st) (lines (st_data fp)))).
Proof.
  revert buf fp st h. induction fuel as [|fuel IH]; intros buf fp st h Hf Hfp Hbuf Hst Hl Hsort; [lia|].
  assert (Hrb : 0 <= rblocks st).
  { unfold rblocks, conf_blocks. pose proof (conf_blocks_parts (r_conf st)).
    pose proof (arr_blocks_range (r_servers st)). pose proof (arr_blocks_range (r_sortlist st)). lia. }
  pose proof (blocks_opt_nonneg buf). cbn [resolv_loop]. apply wp_bind.
  eapply wp_mono; [apply wp_ares__read_line; [done|done|lia|lia]|].
  intros [s line buf' fp'] h1 (Hl1 & HP). cbn [rr_status rr_line rr_buf rr_fp] in *.
  destruct HP as [[(Hs & Hline & n & Hn & Hnb) Ho]|[[Hs Hn] Ho]]; cbn [rr_status rr_line rr_buf rr_fp] in *; subst buf'.
  - destruct (decide (st_data fp = [])) as [Ed|Ed].
    + rewrite bool_decide_false by (destruct (st_fails fp); congruence). cbn [negb]. apply wp_ret.
      rewrite Ed. split_and!; [done|done|cbn in *; lia| |done|]; [split; [by left|done]|].
      intros _. split; [done|]. cbn. by rewrite app_nil_r.
    + subst s. rewrite bool_decide_true by done. cbn [negb]. destruct (Hline Ed) as [-> ->].
      rewrite (lines_cons _ Ed) in *. apply Forall_cons in Hsort as [Hs1 Hs2].
      apply wp_bind. eapply wp_mono; [apply wp_resolv_line; [done|cbn in *; lia|done]|].
      intros [s st2] h2 (H1 & H2 & H3 & H4 & H5 & H6).
      destruct (decide (s = ARES_SUCCESS)) as [E|E].
      * subst s. rewrite bool_decide_true by done. cbn [negb].
        eapply wp_mono; [apply IH|]; try done; [pose proof (split_line_length _ Ed); cbn; lia|by apply text_file_rest|cbn in *; lia|].
        intros [[s3 st3] buf3] h3 (K1 & K2 & K3 & K4 & K5 & K6). split_and!; [done|done|cbn in *; lia| |by eapply same_arrays_trans|].
        -- destruct K4 as [[->|[-> K]] K']; (split; [|intros ?; apply K'; apply H3; auto]); [by left|right].
           split; [done|]. intros E. apply K, H3, Ho, E.
        -- intros Es. destruct (K6 Es) as [-> ->]. destruct (H6 eq_refl) as [E6 ->]. split; [cbn [spec_lines foldl]; by rewrite E6|].
           rewrite <- app_assoc. destruct H5 as (_ & _ & H5 & _). by rewrite (file_patterns_same _ _ _ H5).
      * rewrite bool_decide_false by done. cbn [negb]. apply wp_ret.
        split_and!; [done|done|cbn in *; lia| |done|].
        -- split; [|intros ?; apply H3; auto]. right. split; [by apply H4|]. intros E'. apply E, H3, Ho, E'.
        -- intros ->. exfalso. specialize (H4 E). unfold file_status in H4. by destruct (st_fails fp).
  - subst s. rewrite bool_decide_false by done. cbn [negb]. apply wp_ret. split_and!; [done|done|cbn in *; lia| |done|].
    + split; [by right|done].
    + unfold file_status. by destruct (st_fails fp).
Qed.

(** The order of lookups in a file: its first line that gives one. *)
Definition spec_lookup (opt : list Z) (bindch altbindch filech : Z) (ls : list (list Z)) (c : conf) : conf :=
  match k_lookups c, head (omap (line_value opt 0) ls) with
  | None, Some v => set_k_lookups (Some (lookup_order bindch altbindch filech v)) c
  | _, _ => c
  end.

(** What a file of lookups does to the configuration [c], when the buffer [buf]
    becomes [buf']. *)
Definition lookup_post (spec : conf) (c : conf) (buf : option Z) (h : heap) (c' : conf) (buf' : option Z)
    (h' : heap) : Prop :=
  conf_ok c' /\ buf_opt_ok buf' /\
  live h' - conf_blocks c' - blocks_opt buf' = live h - conf_blocks c - blocks_opt buf /\
  (exists l, c' = set_k_lookups l c) /\ (oracle h = [] -> c' = spec).

Lemma lookup_self c : set_k_lookups (k_lookups c) c = c.
Proof. by destruct c. Qed.

Lemma spec_lookup_cons opt b a f line ls c :
  spec_lookup opt b a f (line :: ls) c =
  spec_lookup opt b a f ls (match line_value opt 0 line, k_lookups c with
    | Some v, None => set_k_lookups (Some (lookup_order b a f v)) c
    | _, _ => c end).
Proof.
  unfold spec_lookup. cbn [omap list_omap].
  destruct (line_value opt 0 line), (k_lookups c) eqn:E; cbn; try rewrite E; done.
Qed.

Lemma wp_lookup_file_loop fuel opt b a f buf fp c h :
  is_sep b = false -> is_sep a = false -> is_sep f = false ->
  (length (st_data fp) < fuel)%nat -> text_file fp -> buf_opt_ok buf -> conf_ok c ->
  blocks_opt buf + conf_blocks c <= live h ->
  wp (lookup_file_loop fuel opt b a f buf fp c) h (fun '(s, c', buf') h' =>
    lookup_post (spec_lookup opt b a f (lines (st_data fp)) c) c buf h c' buf' h' /\ loop_end fp h s h').
Proof.
  intros Hb Ha Hf'. revert buf fp c h. induction fuel as [|fuel IH]; intros buf fp c h Hf Hfp Hbuf Hc Hl; [lia|].
  assert (Hcb : 0 <= conf_blocks c) by (unfold conf_blocks; pose proof (conf_blocks_parts c); lia).
  pose proof (blocks_opt_nonneg buf). cbn [lookup_file_loop]. apply wp_bind.
  eapply wp_mono; [apply wp_ares__read_line; [done|done|lia|lia]|].
  intros [s line buf' fp'] h1 (Hl1 & HP). cbn [rr_status rr_line rr_buf rr_fp] in *.
  destruct HP as [[(Hs & Hline & n & Hn & Hnb) Ho]|[[Hs Hn] Ho]]; cbn [rr_status rr_line rr_buf rr_fp] in *; subst buf'.
  - destruct (decide (st_data fp = [])) as [Ed|Ed].
    + rewrite bool_decide_false by (destruct (st_fails fp); congruence). cbn [negb]. apply wp_ret. rewrite Ed.
      split; [|split; [by left|done]]. split_and!; [done|done|cbn in *; lia|exists (k_lookups c); by rewrite lookup_self|].
      intros _. unfold spec_lookup. by destruct (k_lookups c).
    + subst s. rewrite bool_decide_true by done. cbn [negb]. destruct (Hline Ed) as [-> ->].
      rewrite (lines_cons _ Ed), spec_lookup_cons. fold (line_value opt 0 (split_line (st_data fp)).1).
      set (line := (split_line (st_data fp)).1). apply wp_bind.
      apply (wp_mono _ _ (fun c2 h2 => conf_ok c2 /\ live h2 - conf_blocks c2 = live h1 - conf_blocks c /\
        (exists l, c2 = set_k_lookups l c) /\ (oracle h = [] -> oracle h2 = [] /\
          c2 = match line_value opt 0 line, k_lookups c with
            | Some v, None => set_k_lookups (Some (lookup_order b a f v)) c | _, _ => c end))).
      { assert (Hsame : wp (mret c : M conf) h1 (fun c2 h2 => conf_ok c2 /\ live h2 - conf_blocks c2 = live h1 - conf_blocks c /\
          (exists l, c2 = set_k_lookups l c) /\ (oracle h = [] -> oracle h2 = [] /\ c2 = c))).
        { apply wp_ret. split_and!; [done|done|exists (k_lookups c); by rewrite lookup_self|by auto]. }
        destruct (line_value opt 0 line) as [v|]; [|exact Hsame].
        destruct (k_lookups c) as [l|] eqn:El; [rewrite bool_decide_false by done; exact Hsame|].
        rewrite bool_decide_true by done. apply wp_bind. eapply wp_mono; [by apply wp_config_lookup|].
        intros [s c2] h2 ([K1 K2 K3] & Hs & He & Hne). apply wp_ret. split_and!; [done|lia| |].
        - destruct (decide (s = ARES_SUCCESS)) as [E|E]; [rewrite (He E); by eexists|].
          rewrite (proj2 (Hne E)). exists (k_lookups c). by rewrite lookup_self.
        - intros E. split; [by apply K3, Ho|]. apply He, Hs, Ho, E. }
      intros c2 h2 (K1 & K2 & (l2 & E2) & K3).
      eapply wp_mono; [apply IH|]; try done; [pose proof (split_line_length _ Ed); cbn; lia|by apply text_file_rest|cbn in *; lia|].
      intros [[s3 c3] buf3] h3 ((L1 & L2 & L3 & (l3 & E3) & L4) & L5 & L6). split.
      * split_and!; [done|done|cbn in *; lia|exists l3; by rewrite E3, E2|].
        intros E. destruct (K3 E) as [E' Ec]. rewrite <- Ec. by apply L4.
      * split; [|intros E; by apply L6, K3]. destruct L5 as [->|[-> L5]]; [by left|right]. split; [done|].
        intros E. apply L5, K3, E.
  - subst s. rewrite bool_decide_false by done. cbn [negb]. apply wp_ret.
    split; [|split; [by right|done]]. split_and!; [done|done|cbn in *; lia|exists (k_lookups c); by rewrite lookup_self|done].
Qed.

(** What opening a file gives: a text, or nothing. *)
Definition file_ok (f : fopened) : Prop := match f with Fopened fp => text_file fp | FopenError _ => True end.

Definition file_lines (f : fopened) : list (list Z) :=
  match f with Fopened fp => lines (st_data fp) | FopenError _ => [] end.

(** No read fails. *)
Definition readable (f : fopened) : Prop := match f with Fopened fp => st_fails fp = false | FopenError _ => True end.

Lemma wp_config_file file opt b a f st buf c h :
  is_sep b = false -> is_sep a = false -> is_sep f = false ->
  file_ok file -> buf_opt_ok buf -> conf_ok c -> blocks_opt buf + conf_blocks c <= live h ->
  wp (lookup_file file opt b a f st c buf) h (fun '(s, c', buf') h' =>
    lookup_post (if decide (st = ARES_EOF) then spec_lookup opt b a f (file_lines file) c else c) c buf h c' buf' h' /\
    (oracle h = [] -> oracle h' = [] /\ (readable file -> s = st)) /\ (s = ARES_SUCCESS -> st = ARES_SUCCESS) /\
    (st <> ARES_EOF -> s = st) /\ (oracle h = [] -> s = ARES_EOF \/ s = ARES_EFILE \/ s = st)).
Proof.
  intros Hb Ha Hf Hfile Hbuf Hc Hl. unfold lookup_file.
  assert (Hsame : forall spec, (oracle h = [] -> c = spec) -> lookup_post spec c buf h c buf h).
  { intros spec Hs. split_and!; [done|done|lia|exists (k_lookups c); by rewrite lookup_self|done]. }
  destruct (decide (st = ARES_EOF)) as [->|Hst].
  2:{ rewrite bool_decide_false by done. cbn [andb]. apply wp_ret. split_and!; [by apply Hsame|done|done|done|by auto]. }
  rewrite (bool_decide_true (ARES_EOF = ARES_EOF)) by done. cbn [andb]. case_bool_decide as El.
  2:{ apply wp_ret. split_and!; [|done|done|done|by auto]. apply Hsame. intros _. unfold spec_lookup. by destruct (k_lookups c). }
  destruct file as [fp|errno]; cbn [file_ok file_lines readable] in *.
  - eapply wp_mono; [apply wp_lookup_file_loop; [done..|lia|done|done|done|done]|].
    intros [[s c'] buf'] h' (Hp & Hs & Ho). unfold file_status in Hs. split_and!; [done| | |done|].
    + intros E. split; [by apply Ho|]. intros Hr. destruct Hs as [->|[_ ?]]; [by rewrite Hr|done].
    + intros ->. destruct Hs as [Hs|[Hs _]]; [by destruct (st_fails fp)|done].
    + intros E. destruct Hs as [->|[_ ?]]; [destruct (st_fails fp); auto|done].
  - apply wp_ret. split_and!; [|done|done|done|by auto]. apply Hsame. intros _. unfold spec_lookup. by destruct (k_lookups c).
Qed.

(** ** [init_by_resolv_conf] *)

Record system_ok (sys : system) : Prop := {
  so_resolv : file_ok (resolv_conf sys);
  so_nsswitch : file_ok (nsswitch_conf sys);
  so_host : file_ok (host_conf sys);
  so_svc : file_ok (svc_conf sys);
  so_sort : Forall sort_line_ok (file_lines (resolv_conf sys)) }.

(** Every file can be read, or is missing. *)
Record system_readable (sys : system) : Prop := {
  sr_resolv : readable (resolv_conf sys);
  sr_missing : match resolv_conf sys with FopenError e => e = ENOENT \/ e = ESRCH | Fopened _ => True end;
  sr_nsswitch : readable (nsswitch_conf sys);
  sr_host : readable (host_conf sys);
  sr_svc : readable (svc_conf sys) }.

(** The lookups that the neighbours of resolv.conf add. *)
Definition spec_lookups (sys : system) (c : conf) : conf :=
  let c := spec_lookup str_hosts_colon 100 114 ch_f (file_lines (nsswitch_conf sys)) c in
  let c := spec_lookup str_order ch_b ch_b 104 (file_lines (host_conf sys)) c in
  spec_lookup str_hosts_eq ch_b ch_b 108 (file_lines (svc_conf sys)) c.

(** The configuration after the files, up to the sort list. *)
Definition spec_resolv (sys : system) (c : conf) : conf :=
  if config_check c then c
  else
    let '(c1, srv) := spec_lines (k_ndomains c =? -1) (file_lines (resolv_conf sys)) (c, []) in
    let c2 := spec_lookups sys c1 in
    match srv with [] => c2 | _ => set_k_servers (Zlen srv) srv c2 end.

(** The sort list after the files: theirs, if none was set and they give one. *)
Definition spec_sort (c : conf) (ls : list (list Z)) : Z * list apattern :=
  match file_patterns c ls with [] => (k_nsort c, k_sortlist c) | l => (Zlen l, l) end.

Lemma sortlist_self c : set_k_sortlist (k_nsort c) (k_sortlist c) c = c.
Proof. by destruct c. Qed.

Lemma spec_lookups_frame sys c : exists l, spec_lookups sys c = set_k_lookups l c.
Proof.
  assert (H : forall opt b a f ls c, exists l, spec_lookup opt b a f ls c = set_k_lookups l c).
  { intros opt b a f ls c0. unfold spec_lookup. destruct (k_lookups c0) as [l|] eqn:E.
    - exists (Some l). by rewrite <- E, lookup_self.
    - destruct (head _); [by eexists|]. exists None. by rewrite <- E, lookup_self. }
  unfold spec_lookups. edestruct H as [l1 ->]. edestruct H as [l2 ->]. edestruct H as [l3 ->]. by exists l1.
Qed.

Lemma wp_resolv_file sys c h :
  conf_ok c -> Forall pattern_ok (k_sortlist c) -> conf_blocks c <= live h -> system_ok sys ->
  wp (match resolv_conf sys with
      | Fopened fp => resolv_loop inet_addr inet_pton4 inet_pton6 (S (length (st_data fp))) (k_ndomains c =? -1) None fp (RState c [] [])
      | FopenError errno => mret (if (errno =? ENOENT) || (errno =? ESRCH) then ARES_EOF else ARES_EFILE, RState c [] [], None)
      end) h (fun '(s, st', buf') h' =>
    rstate_ok st' /\ buf_opt_ok buf' /\ live h' - rblocks st' - blocks_opt buf' = live h - conf_blocks c /\
    same_arrays c (r_conf st') /\ s <> ARES_SUCCESS /\ (oracle h = [] -> oracle h' = []) /\
    (oracle h = [] -> system_readable sys -> s = ARES_EOF /\
      (r_conf st', r_servers st') = spec_lines (k_ndomains c =? -1) (file_lines (resolv_conf sys)) (c, []) /\
      r_sortlist st' = file_patterns c (file_lines (resolv_conf sys)))).
Proof.
  intros Hc Hp Hl Hs.
  assert (Hst : rstate_ok (RState c [] [])) by (by split).
  assert (Hrb : rblocks (RState c [] []) = conf_blocks c) by (unfold rblocks; cbn; lia).
  pose proof (so_resolv _ Hs) as Hr. pose proof (so_sort _ Hs) as Hsort.
  destruct (resolv_conf sys) as [fp|errno] eqn:Ef; cbn [file_lines file_ok] in *.
  - eapply wp_mono; [apply wp_resolv_loop; [lia|done|done|done|rewrite Hrb; cbn; lia|done]|].
    intros [[s st'] buf'] h' (H1 & H2 & H3 & [H4 H4'] & H5 & H6). cbn [blocks_opt] in *. rewrite Hrb in H3.
    split_and!; [done|done|lia|done| |done|].
    + intros ->. destruct H4 as [H4|[H4 _]]; [|done]. unfold file_status in H4. by destruct (st_fails fp).
    + intros E [R _ _ _ _]. rewrite Ef in R. cbn in R.
      assert (s = file_status fp) as Es by (destruct H4 as [?|[_ ?]]; done).
      split; [rewrite Es; unfold file_status; by rewrite R|by apply H6].
  - apply wp_ret. rewrite Hrb. split_and!; [done|done|cbn; lia|done|by destruct (_ || _)|done|].
    intros _ [_ R _ _ _]. rewrite Ef in R. split; [|done]. by destruct R as [-> | ->].
Qed.

(** The end of the routine fills in the arrays that were found. *)
Lemma fill_servers c l :
  conf_ok c -> (l <> [] -> k_nservers c = -1) ->
  let c' := match l with [] => c | _ => set_k_servers (Zlen l) l c end in
  conf_ok c' /\ conf_blocks c' = conf_blocks c + arr_blocks l.
Proof.
  intros Hc Hn. destruct l as [|a l]; [split; [done|cbn; lia]|]. specialize (Hn ltac:(done)).
  pose proof (ko_servers _ Hc Hn) as E. destruct Hc as [? ? ? ?]. cbn zeta.
  split; [|unfold conf_blocks; cbn; rewrite E; cbn; lia].
  split; cbn [set_k_servers k_nservers k_servers k_ndomains k_domains k_nsort k_sortlist]; try done; unfold Zlen; cbn [length]; lia.
Qed.

Lemma fill_sortlist c l :
  conf_ok c -> (l <> [] -> k_nsort c = -1) -> Forall pattern_ok (k_sortlist c) -> Forall pattern_ok l ->
  let c' := match l with [] => c | _ => set_k_sortlist (Zlen l) l c end in
  conf_ok c' /\ conf_blocks c' = conf_blocks c + arr_blocks l /\ Forall pattern_ok (k_sortlist c').
Proof.
  intros Hc Hn Hp Hpl. destruct l as [|a l]; cbn zeta.
  { split_and!; [done|cbn; lia|done]. }
  specialize (Hn ltac:(done)). pose proof (ko_nsort _ Hc Hn) as E. destruct Hc as [? ? ? ?].
  split_and!; [|unfold conf_blocks; cbn; rewrite E; cbn; lia|done].
  split; cbn [set_k_sortlist k_nservers k_servers k_ndomains k_domains k_nsort k_sortlist]; try done; unfold Zlen; cbn [length]; lia.
Qed.

Lemma wp_init_by_resolv_conf sys c h :
  conf_ok c -> Forall pattern_ok (k_sortlist c) -> conf_blocks c <= live h -> system_ok sys ->
  wp (init_by_resolv_conf inet_addr inet_pton4 inet_pton6 sys c) h (fun '(st, c') h' =>
    keeps c h c' h' /\ Forall pattern_ok (k_sortlist c') /\
    (oracle h = [] -> system_readable sys -> st = ARES_SUCCESS /\
      let '(n, l) := spec_sort c (if config_check c then [] else file_lines (resolv_conf sys)) in
      c' = set_k_sortlist n l (spec_resolv sys c))).
Proof.
  intros Hc Hp Hl Hs. unfold init_by_resolv_conf, spec_resolv. destruct (config_check c).
  { apply wp_ret. split_and!; [by split|done|]. intros _ _. split; [done|]. cbn. by rewrite sortlist_self. }
  apply wp_bind. eapply wp_mono; [by apply wp_resolv_file|].
  intros [[s1 r] buf1] h1 (R1 & R2 & R3 & R4 & R5 & R6 & R7).
  pose proof (arr_blocks_range (r_servers r)). pose proof (arr_blocks_range (r_sortlist r)).
  pose proof (blocks_opt_nonneg buf1).
  assert (Hcb : 0 <= conf_blocks (r_conf r)) by (unfold conf_blocks; pose proof (conf_blocks_parts (r_conf r)); lia).
  unfold rblocks in R3.
  apply wp_bind. eapply wp_mono; [apply wp_config_file; [done..|apply Hs|done|apply R1|lia]|].
  intros [[s2 c2] buf2] h2 ((A1 & A2 & A3 & (l2 & A4) & A5) & A6 & A7 & A8 & _).
  apply wp_bind. eapply wp_mono; [apply wp_config_file; [done..|apply Hs|done|done|lia]|].
  intros [[s3 c3] buf3] h3 ((B1 & B2 & B3 & (l3 & B4) & B5) & B6 & B7 & B8 & _).
  apply wp_bind. eapply wp_mono; [apply wp_config_file; [done..|apply Hs|done|done|lia]|].
  intros [[s4 c4] buf4] h4 ((C1 & C2 & C3 & (l4 & C4) & C5) & C6 & C7 & C8 & _).
  assert (Hcb4 : 0 <= conf_blocks c4) by (unfold conf_blocks; pose proof (conf_blocks_parts c4); lia).
  apply wp_bind, wp_free_opt; [lia|].
  assert (Harr : same_arrays c c4) by (subst c4 c3 c2; done).
  assert (Hora : oracle h = [] -> oracle h4 = []) by (intros E; apply C6, B6, A6, R6, E).
  assert (Hok : oracle h = [] -> system_readable sys -> s4 = ARES_EOF /\ c4 = spec_lookups sys (r_conf r)).
  { intros E Hr. destruct (R7 E Hr) as [-> _]. destruct (A6 (R6 E)) as [E2 A6']. rewrite (A6' (sr_nsswitch _ Hr)) in *.
    destruct (B6 E2) as [E3 B6']. rewrite (B6' (sr_host _ Hr)) in *. destruct (C6 E3) as [_ C6']. rewrite (C6' (sr_svc _ Hr)) in *.
    split; [done|]. rewrite (C5 E3), (B5 E2), (A5 (R6 E)). by rewrite !decide_True by done. }
  destruct (decide (s4 = ARES_EOF)) as [E4|E4].
  2:{ rewrite bool_decide_false by done. cbn [negb].
    apply wp_bind, wp_free_array; cbn [live oracle]; [lia|]. apply wp_bind, wp_free_array; cbn [live oracle]; [lia|].
    apply wp_ret. split_and!; [split; [done|cbn; lia|done]|destruct Harr as (_ & _ & _ & ->); done|].
    intros E Hr. by destruct (Hok E Hr). }
  rewrite bool_decide_true by done. cbn [negb]. apply wp_ret. destruct Harr as (U1 & U2 & U3 & U4).
  destruct R1 as [S1 S2 S3 S4]. destruct R4 as (T1 & T2 & T3 & T4).
  destruct (fill_servers c4 (r_servers r) C1) as [K1 K2]; [by rewrite U1, <- T1|].
  set (c5 := match r_servers r with [] => c4 | _ => set_k_servers (Zlen (r_servers r)) (r_servers r) c4 end) in *.
  assert (K3 : k_nsort c5 = k_nsort c /\ k_sortlist c5 = k_sortlist c).
  { unfold c5. by destruct (r_servers r). }
  destruct (fill_sortlist c5 (r_sortlist r) K1) as (L1 & L2 & L3); [rewrite (proj1 K3), <- T3; done|by rewrite (proj2 K3)|done|].
  set (c6 := match r_sortlist r with [] => c5 | _ => set_k_sortlist (Zlen (r_sortlist r)) (r_sortlist r) c5 end) in *.
  replace (match r_sortlist r with [] => _ | p :: l => _ end) with c6 by (unfold c6, c5; destruct (r_servers r), (r_sortlist r); done).
  split_and!; [split; [done|cbn; lia|done]|done|]. intros E Hr. destruct (Hok E Hr) as [_ Ec]. destruct (R7 E Hr) as (_ & Es & Eso).
  split; [done|]. unfold spec_sort. rewrite <- Es, <- Eso, <- Ec. fold c5. destruct K3 as [K3 K4]. unfold c6.
  destruct (r_sortlist r); [|done]. rewrite <- K3, <- K4. symmetry. apply sortlist_self.
Qed.
End resolv.
