(* ===== verification/ConfigInit.v ===== *)
(** * Initialising a channel (c-ares)

    What each of the four sources of [ares_init_options] gives, that the routine
    combines them in their order of precedence, that it is safe and accounts for
    its blocks, and that the channel it makes can be handed to the engine of
    Resolver.v. *)

From S2P Require Import Prelude DnsWire ParseHost InetAddr InetAddr6 ReadLine Search AddrSort HostsFile.
From S2P Require Import Channel Resolver ResolverInv ResolverIO QueryId Config ConfigInv ConfigFile.
Open Scope Z_scope.

(** ** The options of the application *)

(** The arrays have as many entries as their counts say, the strings are there,
    and a time-out in seconds fits an [int] in milliseconds. *)
Record options_ok (o : ares_options) (optmask : Z) : Prop := {
  oo_servers : (Z.to_nat (o_nservers o) <= length (o_servers o))%nat;
  oo_domains : (Z.to_nat (o_ndomains o) <= length (o_domains o))%nat;
  oo_strings : Forall is_Some (o_domains o);
  oo_lookups : Z.testbit optmask ARES_OPT_LOOKUPS = true -> is_Some (o_lookups o);
  oo_nsort : (Z.to_nat (o_nsort o) <= length (o_sortlist o))%nat;
  oo_sort : Forall pattern_ok (o_sortlist o);
  oo_timeout : Z.testbit optmask ARES_OPT_TIMEOUTMS = false -> Z.testbit optmask ARES_OPT_TIMEOUT = true ->
    INT_MIN <= o_timeout o * 1000 <= INT_MAX }.

(** What the options set; -1 is what they leave open. *)
Definition options_conf (o : ares_options) (optmask : Z) : conf :=
  let given bit v := if Z.testbit optmask bit then v else -1 in
  let array {A} bit n (l : list A) := if Z.testbit optmask bit then take (Z.to_nat n) l else [] in
  Conf (given ARES_OPT_FLAGS (o_flags o))
    (if Z.testbit optmask ARES_OPT_TIMEOUTMS then o_timeout o else given ARES_OPT_TIMEOUT (o_timeout o * 1000))
    (given ARES_OPT_TRIES (o_tries o)) (given ARES_OPT_NDOTS (o_ndots o))
    (if Z.testbit optmask ARES_OPT_ROTATE then 1 else given ARES_OPT_NOROTATE 0)
    (given ARES_OPT_UDP_PORT (htons (o_udp_port o))) (given ARES_OPT_TCP_PORT (htons (o_tcp_port o)))
    (given ARES_OPT_SOCK_SNDBUF (o_sndbuf o)) (given ARES_OPT_SOCK_RCVBUF (o_rcvbuf o))
    (given ARES_OPT_EDNSPSZ (o_ednspsz o))
    (if Z.testbit optmask ARES_OPT_SOCK_STATE_CB then o_sock_state_cb o else None) optmask
    (given ARES_OPT_SERVERS (o_nservers o)) (v4_server <$> array ARES_OPT_SERVERS (o_nservers o) (o_servers o))
    (given ARES_OPT_DOMAINS (o_ndomains o)) (array ARES_OPT_DOMAINS (o_ndomains o) (o_domains o))
    (given ARES_OPT_SORTLIST (o_nsort o)) (array ARES_OPT_SORTLIST (o_nsort o) (o_sortlist o))
    (if Z.testbit optmask ARES_OPT_LOOKUPS then o_lookups o else None).

(** The state between two blocks of [init_by_options]: [c] with the blocks [k]
    more than at the start. *)
Definition opt_post (c0 : conf) (h0 : heap) (spec : conf) (r : status * conf) (h : heap) : Prop :=
  keeps c0 h0 r.2 h /\ (oracle h0 = [] -> r.1 = ARES_SUCCESS) /\ (r.1 = ARES_SUCCESS -> r.2 = spec) /\
  (r.1 <> ARES_SUCCESS -> r.1 = ARES_ENOMEM) /\ Forall pattern_ok (k_sortlist r.2).

Lemma wp_and_then c h c1 spec m k :
  wp m h (opt_post c h c1) ->
  (forall h1, keeps c h c1 h1 -> Forall pattern_ok (k_sortlist c1) -> wp (k c1) h1 (opt_post c1 h1 spec)) ->
  wp (and_then m k) h (opt_post c h spec).
Proof.
  intros Hm Hk. unfold and_then. apply wp_bind. eapply wp_mono; [exact Hm|].
  intros [st c'] h1 (H1 & H2 & H3 & H4 & H5). cbn [fst snd] in *.
  destruct (decide (st = ARES_SUCCESS)) as [E|E].
  - rewrite bool_decide_true by done. rewrite (H3 E) in *. eapply wp_mono; [by apply Hk|].
    intros [st2 c2] h2 (K1 & K2 & K3 & K4 & K5). cbn [fst snd] in *. split_and!; cbn; try done.
    + by eapply keeps_trans.
    + intros Eo. apply K2, H1, Eo.
  - rewrite bool_decide_false by done. apply wp_ret. split_and!; cbn; done.
Qed.

(** A block that leaves the configuration as it is. *)
Lemma opt_post_same c h : conf_ok c -> Forall pattern_ok (k_sortlist c) -> opt_post c h c (ARES_SUCCESS, c) h.
Proof. intros Hc Hp. split_and!; cbn; try done; by apply keeps_refl. Qed.

Lemma dup_domains_spec n src dst h :
  (n <= length src)%nat -> Forall is_Some src ->
  wp (dup_domains n src dst) h (fun '(ok, l) h' =>
    live h' = live h + somes l - somes dst /\ (oracle h = [] -> ok = true /\ oracle h' = []) /\
    (if ok : bool then l = dst ++ take n src else exists done, l = dst ++ (Some <$> done) ++ [None])).
Proof.
  revert src dst h. induction n as [|n IH]; intros src dst h Hn Hs; cbn [dup_domains].
  { apply wp_ret. rewrite app_nil_r. split_and!; [lia|done|done]. }
  destruct src as [|d src]; [cbn in Hn; lia|]. apply Forall_cons in Hs as [[s ->] Hs]. cbn [length] in Hn.
  apply wp_bind, wp_strdup; intros o Ho.
  - eapply wp_mono; [apply IH; [lia|done]|]. intros [ok l] h' (Hl & Hok & Hr). cbn [live oracle] in *.
    rewrite somes_app in Hl. cbn in Hl. split_and!; [lia|by auto|]. destruct ok.
    + by rewrite Hr, <- app_assoc.
    + destruct Hr as [done ->]. exists (s :: done). by rewrite <- app_assoc.
  - apply wp_ret. cbn [live oracle]. split_and!; [rewrite somes_app; cbn; lia|done|by exists []].
Qed.

#[local] Arguments Z.testbit : simpl never.

Section init.
Context (inet_addr inet_pton4 inet_pton6 : list Z -> option (list Z)).
Context (o : ares_options) (optmask : Z).

Context (Ho : options_ok o optmask).

(** What each block of [init_by_options] does to a configuration in which the
    field is not set. *)
Definition with_scalars : conf :=
  set_k_optmask 0 (set_k_lookups None (set_k_sortlist (-1) [] (set_k_domains (-1) [] (set_k_servers (-1) [] (options_conf o optmask))))).
Definition with_servers (c : conf) : conf :=
  if Z.testbit optmask ARES_OPT_SERVERS
  then set_k_servers (o_nservers o) (v4_server <$> take (Z.to_nat (o_nservers o)) (o_servers o)) c else c.
Definition with_domains (c : conf) : conf :=
  if Z.testbit optmask ARES_OPT_DOMAINS
  then set_k_domains (o_ndomains o) (take (Z.to_nat (o_ndomains o)) (o_domains o)) c else c.
Definition with_lookups (c : conf) : conf :=
  if Z.testbit optmask ARES_OPT_LOOKUPS then set_k_lookups (o_lookups o) c else c.
Definition with_sortlist (c : conf) : conf :=
  if Z.testbit optmask ARES_OPT_SORTLIST
  then set_k_sortlist (o_nsort o) (take (Z.to_nat (o_nsort o)) (o_sortlist o)) c else c.

Lemma wp_scalar_options h (Q : conf -> heap -> Prop) :
  Q with_scalars h -> wp (scalar_options o optmask unset_conf) h Q.
Proof.
  intros HQ. unfold scalar_options, timeout_option. apply wp_bind.
  apply (wp_mono _ _ (fun t h' => t = k_timeout with_scalars /\ h' = h)).
  { unfold with_scalars, options_conf.
    cbn [k_timeout unset_conf set_k_optmask set_k_lookups set_k_sortlist set_k_domains set_k_servers].
    destruct (Z.testbit optmask ARES_OPT_TIMEOUTMS) eqn:E1; cbn [andb]; [by apply wp_ret|].
    destruct (Z.testbit optmask ARES_OPT_TIMEOUT) eqn:E2; cbn [andb]; [|by apply wp_ret].
    apply wp_bind, wp_assert; [|by apply wp_ret]. pose proof (oo_timeout _ _ Ho E1 E2).
    apply andb_true_iff; split; apply Z.leb_le; lia. }
  intros ? ? [-> ->]. apply wp_ret. unfold set_scalars, if_opt, if_unset. cbn.
  replace (if Z.testbit optmask ARES_OPT_NOROTATE then if (if Z.testbit optmask ARES_OPT_ROTATE then 1 else -1) =? -1 then 0
    else (if Z.testbit optmask ARES_OPT_ROTATE then 1 else -1) else (if Z.testbit optmask ARES_OPT_ROTATE then 1 else -1))
    with (if Z.testbit optmask ARES_OPT_ROTATE then 1 else if Z.testbit optmask ARES_OPT_NOROTATE then 0 else -1); [exact HQ|].
  by destruct (Z.testbit optmask ARES_OPT_ROTATE), (Z.testbit optmask ARES_OPT_NOROTATE).
Qed.

Lemma take_pos_cons {A} n (l : list A) :
  0 < n -> (Z.to_nat n <= length l)%nat -> arr_blocks (take (Z.to_nat n) l) = 1.
Proof. intros Hn Hl. destruct (Z.to_nat n) eqn:E; [lia|]. by destruct l; [cbn in Hl; lia|]. Qed.

Lemma take_nonpos {A} n (l : list A) : n <= 0 -> take (Z.to_nat n) l = [].
Proof. intros Hn. by replace (Z.to_nat n) with 0%nat by lia. Qed.

Lemma wp_servers_option c h :
  conf_ok c -> Forall pattern_ok (k_sortlist c) -> k_nservers c = -1 ->
  wp (servers_option o optmask c) h (opt_post c h (with_servers c)).
Proof.
  intros Hc Hp En. unfold servers_option, with_servers. rewrite En. change (-1 =? -1) with true. rewrite andb_true_r.
  pose proof (ko_servers _ Hc En) as Es. pose proof (oo_servers _ _ Ho) as Hlen.
  destruct (Z.testbit _ _); [|apply wp_ret; by apply opt_post_same].
  assert (Hok : conf_ok (set_k_servers (o_nservers o) (v4_server <$> take (Z.to_nat (o_nservers o)) (o_servers o)) c)).
  { destruct Hc. split; cbn; try done; [by intros ->|rewrite length_fmap, length_take; lia]. }
  destruct (Z.ltb_spec 0 (o_nservers o)) as [Hn|Hn].
  - apply wp_bind, wp_malloc; intros oo Hoo; cbn [negb].
    + apply wp_bind, wp_read_array; [done|]. apply wp_ret. split_and!; cbn [fst snd]; try done.
      split; cbn [live oracle]; [done| |done]. unfold conf_blocks. cbn. rewrite Es.
      pose proof (take_pos_cons _ (o_servers o) Hn Hlen). destruct (take _ _); cbn in *; lia.
    + apply wp_ret. split_and!; cbn [fst snd]; try done.
  - apply wp_ret. rewrite (take_nonpos _ (o_servers o)) in * by lia. rewrite Es in *.
    split_and!; cbn [fst snd fmap list_fmap] in *; try done. split; [done|unfold conf_blocks; cbn; rewrite Es; cbn; lia|done].
Qed.

Lemma wp_domains_option c h :
  conf_ok c -> Forall pattern_ok (k_sortlist c) -> k_ndomains c = -1 ->
  wp (domains_option o optmask c) h (opt_post c h (with_domains c)).
Proof.
  intros Hc Hp En. unfold domains_option, with_domains. rewrite En. change (-1 =? -1) with true. rewrite andb_true_r.
  destruct (ko_domains _ Hc) as (Es & _ & _). specialize (Es En). pose proof (oo_domains _ _ Ho) as Hlen.
  destruct (Z.testbit _ _); [|apply wp_ret; by apply opt_post_same].
  destruct (Z.ltb_spec 0 (o_ndomains o)) as [Hn|Hn].
  - apply wp_bind, wp_malloc; intros oo Hoo; cbn [negb]; [|apply wp_ret; split_and!; cbn [fst snd]; try done].
    apply wp_bind. eapply wp_mono; [apply dup_domains_spec; [done|apply Ho]|].
    intros [ok l] h1 (Hl & Hok & Hr). cbn [live oracle app somes] in *. destruct ok; cbn [negb]; apply wp_ret; cbn [fst snd].
    + subst l. split_and!; cbn [fst snd]; try done. split; [|rewrite conf_blocks_domains, Es, (take_pos_cons _ _ Hn Hlen); cbn; lia|by intros E0; apply Hok; auto].
      apply conf_ok_domains; [done|]. split_and!; [lia|rewrite length_take; lia|rewrite drop_ge; [done|rewrite length_take; lia]].
    + destruct Hr as [dn ->]. split_and!; cbn [fst snd]; try done; [|intros E0; by destruct (Hok (Hoo E0))].
      split; [apply conf_ok_domains, domains_ok_failed; done|rewrite conf_blocks_domains, Es, arr_blocks_app; cbn in *; lia|by intros E0; apply Hok; auto].
  - apply wp_ret. rewrite (take_nonpos _ (o_domains o)) by lia. rewrite Es. split_and!; cbn [fst snd]; try done.
    split; [apply conf_ok_domains; [done|]; split_and!; [done|cbn; lia|by rewrite drop_nil]|
      rewrite conf_blocks_domains, Es; cbn; lia|done].
Qed.

Lemma wp_lookups_option c h :
  conf_ok c -> Forall pattern_ok (k_sortlist c) -> k_lookups c = None ->
  wp (lookups_option o optmask c) h (opt_post c h (with_lookups c)).
Proof.
  intros Hc Hp En. unfold lookups_option, with_lookups. rewrite bool_decide_true, andb_true_r by done.
  destruct (Z.testbit optmask ARES_OPT_LOOKUPS) eqn:Eb; [|apply wp_ret; by apply opt_post_same].
  destruct (oo_lookups _ _ Ho Eb) as [s ->].
  apply wp_bind, wp_strdup; intros oo Hoo; apply wp_ret; split_and!; cbn [fst snd]; try done;
    (split; [by apply conf_ok_lookups|unfold conf_blocks; cbn; rewrite En; cbn; lia|done]).
Qed.

Lemma wp_sortlist_option c h :
  conf_ok c -> Forall pattern_ok (k_sortlist c) -> k_nsort c = -1 ->
  wp (sortlist_option o optmask c) h (opt_post c h (with_sortlist c)).
Proof.
  intros Hc Hp En. unfold sortlist_option, with_sortlist. rewrite En. change (-1 =? -1) with true. rewrite andb_true_r.
  pose proof (ko_nsort _ Hc En) as Es. pose proof (oo_nsort _ _ Ho) as Hlen.
  destruct (Z.testbit _ _); [|apply wp_ret; by apply opt_post_same].
  assert (Hok : conf_ok (set_k_sortlist (o_nsort o) (take (Z.to_nat (o_nsort o)) (o_sortlist o)) c)).
  { destruct Hc. split; cbn; try done. by intros ->. }
  assert (Hps : Forall pattern_ok (take (Z.to_nat (o_nsort o)) (o_sortlist o))) by apply Forall_take, Ho.
  destruct (Z.ltb_spec 0 (o_nsort o)) as [Hn|Hn].
  - apply wp_bind, wp_malloc; intros oo Hoo; cbn [negb].
    + apply wp_bind, wp_read_array; [done|]. apply wp_ret. split_and!; cbn [fst snd]; try done.
      split; cbn [live oracle]; [done| |done]. unfold conf_blocks. cbn. rewrite Es, (take_pos_cons _ _ Hn Hlen). cbn. lia.
    + apply wp_ret. split_and!; cbn [fst snd]; try done.
  - apply wp_ret. rewrite (take_nonpos _ (o_sortlist o)) in * by lia. rewrite Es in *.
    split_and!; cbn [fst snd] in *; try done. split; [done|unfold conf_blocks; cbn; rewrite Es; cbn; lia|done].
Qed.

Lemma options_conf_blocks :
  set_k_optmask optmask (with_sortlist (with_lookups (with_domains (with_servers with_scalars)))) = options_conf o optmask.
Proof.
  unfold with_sortlist, with_lookups, with_domains, with_servers, with_scalars, options_conf.
  destruct (Z.testbit optmask ARES_OPT_SORTLIST), (Z.testbit optmask ARES_OPT_LOOKUPS),
    (Z.testbit optmask ARES_OPT_DOMAINS), (Z.testbit optmask ARES_OPT_SERVERS); reflexivity.
Qed.

Lemma wp_init_by_options h :
  wp (init_by_options o optmask unset_conf) h (opt_post unset_conf h (options_conf o optmask)).
Proof.
  unfold init_by_options. apply wp_bind, wp_scalar_options.
  assert (K1 : conf_ok with_scalars) by (repeat split; cbn; lia || done).
  apply (wp_mono _ _ (opt_post with_scalars h (options_conf o optmask))); [|].
  2:{ intros r h' ([H1 H2 H3] & Hr). split; [|done]. by split. }
  eapply wp_and_then; [apply wp_servers_option; [done|by apply Forall_nil_2|done]|]. intros h1 [K2 _ _] P2.
  eapply wp_and_then; [apply wp_domains_option; [done|done|]|].
  { unfold with_servers. by destruct (Z.testbit _ _). }
  intros h2 [K3 _ _] P3. eapply wp_and_then; [apply wp_lookups_option; [done|done|]|].
  { unfold with_domains, with_servers. by destruct (Z.testbit _ _), (Z.testbit _ _). }
  intros h3 [K4 _ _] P4. eapply wp_and_then; [apply wp_sortlist_option; [done|done|]|].
  { unfold with_lookups, with_domains, with_servers. by destruct (Z.testbit _ _), (Z.testbit _ _), (Z.testbit _ _). }
  intros h4 [K5 _ _] P5. apply wp_ret. rewrite <- options_conf_blocks.
  split_and!; cbn [fst snd]; try done. split; [by destruct K5|done|done].
Qed.

(** ** The environment *)

Definition spec_env (sys : system) (c : conf) : conf :=
  let c := match localdomain sys with
           | Some s => if k_ndomains c =? -1 then with_search c s else c
           | None => c
           end in
  match res_options sys with Some s => with_options c s | None => c end.

Lemma wp_init_by_environment sys c h :
  conf_ok c -> conf_blocks c <= live h -> Forall pattern_ok (k_sortlist c) ->
  wp (init_by_environment sys c) h (opt_post c h (spec_env sys c)).
Proof.
  intros Hc Hl Hp. unfold init_by_environment. eapply wp_and_then.
  - instantiate (1 := match localdomain sys with
      | Some s => if k_ndomains c =? -1 then with_search c s else c | None => c end).
    destruct (localdomain sys) as [s|]; [|apply wp_ret; by apply opt_post_same].
    destruct (k_ndomains c =? -1); [|apply wp_ret; by apply opt_post_same].
    eapply wp_mono; [by apply wp_set_search|]. intros [st c'] h' (K1 & K2 & K3 & K4 & n & l & ->).
    split_and!; cbn [fst snd]; done.
  - intros h1 [K1 _ _] P1. unfold spec_env. cbv zeta. set (c' := match localdomain sys with Some _ => _ | None => _ end) in *.
    destruct (res_options sys) as [s|]; [|apply wp_ret; by apply opt_post_same].
    apply wp_set_options. destruct (with_options_frame c' s) as [Hb Hk].
    split_and!; cbn [fst snd]; try done. split; [by apply Hk|rewrite Hb; lia|done].
Qed.

(** ** Defaults *)

(** [gethostname] says when the name does not fit, and some buffer that the loop
    reaches is large enough. *)
Record hostname_ok (fuel : nat) (g : Z -> hostname_result) : Prop := {
  hk_fits : forall len name, g len = HostName name -> Zlen name < len;
  hk_ends : exists k, (k < fuel)%nat /\ g (64 * 2 ^ Z.of_nat k) <> TooLong }.

(** The host name, with a buffer of at least [len] bytes. *)
Fixpoint find_hostname (fuel : nat) (g : Z -> hostname_result) (len : Z) : option (list Z) :=
  match fuel with
  | O => None
  | S fuel' =>
      match g len with
      | TooLong => find_hostname fuel' g (len * 2)
      | HostName name => Some name
      | HostNameError => None
      end
  end.

(** What follows the first dot. *)
Definition after_dot (name : list Z) : option (list Z) :=
  match (span (fun x => x =? 46) name).2 with [] => None | _ :: d => Some d end.

Definition host_domain (fuel : nat) (sys : system) : list (list Z) :=
  option_list (find_hostname fuel (gethostname sys) 64 ≫= after_dot).

Lemma wp_hostname_loop fuel g len h :
  (forall len name, g len = HostName name -> Zlen name < len) ->
  (exists k, (k < fuel)%nat /\ g (len * 2 ^ Z.of_nat k) <> TooLong) ->
  wp (hostname_loop fuel g len) h (fun r h' => live h' = live h /\ (oracle h = [] -> oracle h' = []) /\
    match r with
    | inl st => (st = ARES_ENOMEM /\ oracle h <> []) \/ (st = ARES_EBADNAME /\ find_hostname fuel g len = None)
    | inr name => find_hostname fuel g len = Some name
    end).
Proof.
  intros Hfit. revert len h. induction fuel as [|fuel IH]; intros len h (k & Hk & Hg); [lia|].
  cbn [hostname_loop find_hostname]. destruct (g len) as [name| |] eqn:E.
  - apply wp_bind, wp_assert; [by apply Z.ltb_lt, Hfit|]. by apply wp_ret.
  - apply wp_bind, wp_realloc; intros oo Hoo; cbn [negb].
    + eapply wp_mono; [apply IH|].
      { destruct k as [|k]; [by rewrite Z.mul_1_r in Hg|]. exists k. split; [lia|].
        by rewrite Nat2Z.inj_succ, Z.pow_succ_r, Z.mul_assoc in Hg by lia. }
      intros r h' (H1 & H2 & H3). cbn [live oracle] in *. split_and!; [done|by auto|].
      destruct r as [st|name]; [|done]. destruct H3 as [[-> H3]|H3]; [left; by auto|by right].
    + apply wp_ret. split_and!; [done|done|by left].
  - apply wp_ret. split_and!; [done|done|by right].
Qed.

(** The configuration after the defaults. *)
Definition spec_defaults (fuel : nat) (sys : system) (c : conf) : conf :=
  let c := default_scalars c in
  let c := if k_nservers c =? -1 then set_k_servers 1 [v4_server loopback] c else c in
  let c := if k_ndomains c =? -1
           then set_k_domains (Zlen (host_domain fuel sys)) (Some <$> host_domain fuel sys) c else c in
  let c := if k_nsort c =? -1 then set_k_sortlist 0 [] c else c in
  match k_lookups c with None => set_k_lookups (Some str_fb) c | Some _ => c end.

(** The state after a block of the defaults, [n] blocks being held for the host
    name. *)
Record default_post (c : conf) (h : heap) (spec : conf) (st : status) (c' : conf) (n : Z) (h' : heap) : Prop := {
  dp_ok : conf_ok c';
  dp_live : live h' - n - conf_blocks c' = live h - conf_blocks c;
  dp_oracle : oracle h = [] -> oracle h' = [];
  dp_tail : somes (tail (k_domains c')) = somes (tail (k_domains c));
  dp_sort : k_sortlist c' = k_sortlist c;
  dp_done : st = ARES_SUCCESS -> c' = spec }.

Lemma wp_default_servers c h :
  conf_ok c -> wp (default_servers c) h (fun '(st, c') h' =>
    default_post c h (if k_nservers c =? -1 then set_k_servers 1 [v4_server loopback] c else c) st c' 0 h' /\
    (st <> ARES_SUCCESS -> st = ARES_ENOMEM /\ oracle h <> []) /\ k_ndomains c' = k_ndomains c).
Proof.
  intros Hc. unfold default_servers. destruct (Z.eqb_spec (k_nservers c) (-1)) as [E|E].
  2:{ apply wp_ret. split_and!; [|done|done]. by split; try lia. }
  pose proof (ko_servers _ Hc E) as Es. destruct Hc as [? ? ? ?].
  apply wp_bind, wp_malloc; intros oo Hoo; cbn [negb]; apply wp_ret; (split_and!; [|done|done]);
    (split; cbn [live oracle]; [by split; cbn; lia || done|unfold conf_blocks; cbn; rewrite Es; cbn; lia|done..]).
Qed.

Lemma wp_default_domains fuel sys c h :
  conf_ok c -> hostname_ok fuel (gethostname sys) ->
  wp (default_domains fuel sys c) h (fun '(st, c', hn) h' =>
    default_post c h (if k_ndomains c =? -1
      then set_k_domains (Zlen (host_domain fuel sys)) (Some <$> host_domain fuel sys) c else c) st c' (blocks_opt hn) h' /\
    (st <> ARES_SUCCESS -> (st = ARES_ENOMEM /\ oracle h <> []) \/
       (st = ARES_EBADNAME /\ k_ndomains c = -1 /\ find_hostname fuel (gethostname sys) 64 = None))).
Proof.
  intros Hc [Hfit Hend]. unfold default_domains. destruct (Z.eqb_spec (k_ndomains c) (-1)) as [E|E].
  2:{ apply wp_ret. split; [|done]. by split; cbn; try lia. }
  destruct (ko_domains _ Hc) as (Es & _ & _). specialize (Es E).
  (* every way out leaves a list of at most one domain *)
  assert (Hout : forall st n l hn h', domains_ok n l -> somes (tail l) = 0 ->
    live h' = live h + blocks_opt hn + arr_blocks l + somes l -> (oracle h = [] -> oracle h' = []) ->
    (st = ARES_SUCCESS -> n = Zlen (host_domain fuel sys) /\ l = Some <$> host_domain fuel sys) ->
    default_post c h (set_k_domains (Zlen (host_domain fuel sys)) (Some <$> host_domain fuel sys) c) st
      (set_k_domains n l (set_k_domains 0 (k_domains c) c)) (blocks_opt (hn : option unit)) h').
  { intros st n l hn h' Hd Ht Hl Hor Hs. split; [| |done| |done|].
    - apply conf_ok_domains; [|done]. apply conf_ok_domains; [done|]. rewrite Es. by apply domains_ok_nil.
    - rewrite !conf_blocks_domains. cbn. rewrite Es. cbn. lia.
    - cbn. by rewrite Es, Ht.
    - intros Hst. by destruct (Hs Hst) as [-> ->]. }
  assert (Hout0 : forall st hn h', live h' = live h + blocks_opt hn -> (oracle h = [] -> oracle h' = []) ->
    (st = ARES_SUCCESS -> host_domain fuel sys = []) ->
    default_post c h (set_k_domains (Zlen (host_domain fuel sys)) (Some <$> host_domain fuel sys) c) st
      (set_k_domains 0 (k_domains c) c) (blocks_opt (hn : option unit)) h').
  { intros st hn h' Hl Hor Hs. rewrite Es. apply (Hout st 0 []); [by apply domains_ok_nil|done|cbn; lia|done|].
    intros Hst. by rewrite (Hs Hst). }
  apply wp_bind, wp_malloc; intros oo Hoo; cbn [negb].
  2:{ apply wp_ret. split; [apply (Hout0 _ None); [cbn; lia|done|done]|intros _; by left]. }
  apply wp_bind. eapply wp_mono; [by apply wp_hostname_loop|]. intros r h1 (Hl1 & Ho1 & Hr). cbn [live oracle] in *.
  unfold host_domain in *. destruct r as [st|name].
  { apply wp_ret. destruct Hr as [[-> Hr]|[-> Hr]]; (split; [apply (Hout0 _ (Some ())); [cbn; lia|cbn [oracle] in *; tauto|done]|intros _]).
    - left. split; [done|]. tauto.
    - right. done. }
  rewrite Hr in *. cbn [mbind option_bind] in *. unfold after_dot in *.
  destruct (span (fun x => x =? 46) name).2 as [|x d].
  { apply wp_ret. split; [apply (Hout0 _ (Some ())); [cbn; lia|cbn [oracle] in *; tauto|done]|done]. }
  cbn [option_list] in *. apply wp_bind, wp_malloc; intros o2 Ho2; cbn [negb].
  2:{ apply wp_ret. split; [apply (Hout _ 0 [] (Some ())); [by apply domains_ok_nil|done|cbn; lia|cbn [oracle] in *; tauto|done]|].
      intros _. left. split; [done|]. tauto. }
  apply wp_bind, wp_strdup; cbn [live oracle]; intros o3 Ho3; apply wp_ret.
  - split; [|done]. apply (Hout _ 1 [Some d] (Some ())); [by split_and!; [lia|cbn; lia|constructor]|done|cbn; lia|cbn [oracle] in *; tauto|done].
  - split; [apply (Hout _ 0 [None] (Some ())); [by split_and!; [lia|cbn; lia|repeat constructor]|done|cbn; lia|cbn [oracle] in *; tauto|done]|].
    intros _. left. split; [done|]. tauto.
Qed.

Lemma wp_default_lookups c h :
  conf_ok c -> Forall pattern_ok (k_sortlist c) ->
  wp (default_lookups c) h (fun '(st, c') h' =>
    default_post c h (let c := if k_nsort c =? -1 then set_k_sortlist 0 [] c else c in
      match k_lookups c with None => set_k_lookups (Some str_fb) c | Some _ => c end) st c' 0 h' /\
    (st <> ARES_SUCCESS -> st = ARES_ENOMEM /\ oracle h <> [])).
Proof.
  intros Hc Hp. unfold default_lookups. cbv zeta.
  set (c1 := if k_nsort c =? -1 then set_k_sortlist 0 [] c else c).
  assert (H1 : conf_ok c1 /\ conf_blocks c1 = conf_blocks c /\ k_domains c1 = k_domains c /\
    k_sortlist c1 = k_sortlist c /\ k_lookups c1 = k_lookups c).
  { unfold c1. destruct (Z.eqb_spec (k_nsort c) (-1)) as [E|E]; [|done]. pose proof (ko_nsort _ Hc E) as Es.
    destruct Hc as [? ? ? ?]. split_and!; [by split|unfold conf_blocks; cbn; by rewrite Es|done|by rewrite Es|done]. }
  destruct H1 as (H1 & H2 & H3 & H4 & H5).
  destruct (k_lookups c1) as [l|] eqn:El.
  { apply wp_ret. split; [|done]. split; [done|lia|done|by rewrite H3|done|done]. }
  apply wp_bind, wp_strdup; intros oo Hoo; apply wp_ret; (split; [|done]);
    (split; cbn [live oracle]; [by apply conf_ok_lookups|rewrite <- H2; unfold conf_blocks; cbn; rewrite El; cbn; lia|
      done|cbn; by rewrite H3|done|done]).
Qed.

(** What the defaults return: the configuration, or nothing but the sort list,
    having lost every domain but the first. *)
Lemma wp_init_by_defaults fuel sys c h :
  conf_ok c -> conf_blocks c <= live h -> Forall pattern_ok (k_sortlist c) -> hostname_ok fuel (gethostname sys) ->
  wp (init_by_defaults fuel sys c) h (fun '(st, c') h' =>
    (oracle h = [] -> oracle h' = []) /\ Forall pattern_ok (k_sortlist c') /\
    (st = ARES_SUCCESS -> keeps c h c' h' /\ c' = spec_defaults fuel sys c) /\
    (st <> ARES_SUCCESS ->
       k_servers c' = [] /\ k_domains c' = [] /\ k_lookups c' = None /\
       live h' - arr_blocks (k_sortlist c') = live h - conf_blocks c + somes (tail (k_domains c)) /\
       ((st = ARES_ENOMEM /\ oracle h <> []) \/
        (st = ARES_EBADNAME /\ k_ndomains c = -1 /\ find_hostname fuel (gethostname sys) 64 = None)))).
Proof.
  intros Hc Hl Hp Hh. unfold init_by_defaults, spec_defaults. cbv zeta.
  set (c0 := default_scalars c). assert (K0 : conf_ok c0) by (destruct Hc; by split).
  assert (Hb0 : conf_blocks c0 = conf_blocks c) by done.
  apply wp_bind. eapply wp_mono; [by apply wp_default_servers|]. intros [st1 c1] h1 (D1 & F1 & N1).
  set (s1 := if k_nservers c0 =? -1 then _ else _) in *. apply wp_bind.
  eapply (wp_mono _ _ (fun '(st2, c2, hn) h2 => default_post c0 h
    (if k_ndomains s1 =? -1 then set_k_domains (Zlen (host_domain fuel sys)) (Some <$> host_domain fuel sys) s1 else s1)
    st2 c2 (blocks_opt hn) h2 /\ (st2 <> ARES_SUCCESS -> (st2 = ARES_ENOMEM /\ oracle h <> []) \/
      (st2 = ARES_EBADNAME /\ k_ndomains c = -1 /\ find_hostname fuel (gethostname sys) 64 = None)))).
  { destruct D1 as [A1 A2 A3 A4 A5 A6]. destruct (decide (st1 = ARES_SUCCESS)) as [E|E].
    - rewrite bool_decide_true by done. specialize (A6 E). subst c1. eapply wp_mono; [by apply wp_default_domains|].
      intros [[st2 c2] hn] h2 ([B1 B2 B3 B4 B5 B6] & F2). split.
      + split; [done|lia|by auto|congruence|congruence|done].
      + intros E2. destruct (F2 E2) as [[-> ?]|(-> & ? & ?)]; [left; by auto|right; split_and!; [done| |done]].
        change (k_ndomains c) with (k_ndomains c0). congruence.
    - rewrite bool_decide_false by done. apply wp_ret. split; [by split|]. intros _. left. by apply F1. }
  intros [[st2 c2] hn] h2 ([B1 B2 B3 B4 B5 B6] & F2).
  set (s2 := if k_ndomains s1 =? -1 then _ else _) in *. apply wp_bind.
  assert (Hp2 : Forall pattern_ok (k_sortlist c2)) by (rewrite B5; exact Hp).
  eapply (wp_mono _ _ (fun '(st3, c3) h3 => default_post c0 h
    (match k_lookups (if k_nsort s2 =? -1 then set_k_sortlist 0 [] s2 else s2) with
     | None => set_k_lookups (Some str_fb) (if k_nsort s2 =? -1 then set_k_sortlist 0 [] s2 else s2)
     | Some _ => if k_nsort s2 =? -1 then set_k_sortlist 0 [] s2 else s2 end) st3 c3 (blocks_opt hn) h3 /\
    (st3 <> ARES_SUCCESS -> (st3 = ARES_ENOMEM /\ oracle h <> []) \/
      (st3 = ARES_EBADNAME /\ k_ndomains c = -1 /\ find_hostname fuel (gethostname sys) 64 = None)))).
  { destruct (decide (st2 = ARES_SUCCESS)) as [E|E].
    - rewrite bool_decide_true by done. specialize (B6 E). subst c2. eapply wp_mono; [by apply wp_default_lookups|].
      intros [st3 c3] h3 ([C1 C2 C3 C4 C5 C6] & F3). split; [split; [done|lia|by auto|congruence|congruence|done]|].
      intros E3. destruct (F3 E3) as [-> ?]. left. by auto.
    - rewrite bool_decide_false by done. apply wp_ret. split; [by split|done]. }
  intros [st3 c3] h3 ([C1 C2 C3 C4 C5 C6] & F3).
  pose proof (blocks_opt_nonneg hn). pose proof (conf_blocks_parts c3) as Hparts.
  assert (Hp3 : Forall pattern_ok (k_sortlist c3)) by (rewrite C5; exact Hp).
  destruct (decide (st3 = ARES_SUCCESS)) as [E|E].
  { rewrite bool_decide_true by done. do 2 wp_step. apply wp_bind, wp_free_opt; [unfold conf_blocks in *; lia|]. apply wp_ret.
    cbn [live oracle]. split_and!; [done|done| |done]. intros _. split; [|by apply C6]. split; [done|cbn; lia|done]. }
  rewrite bool_decide_false by done. rewrite Hb0 in C2. change (k_domains c0) with (k_domains c) in C4.
  clear D1 B2 Hb0. set (B := conf_blocks c) in *. clearbody B. unfold default_error, conf_blocks in *.
  assert (Hd : somes (k_domains c3) = somes (tail (k_domains c3)) + (match k_domains c3 with Some _ :: _ => 1 | _ => 0 end))
    by (destruct (k_domains c3) as [|[] ?]; cbn; lia).
  pose proof (somes_nonneg (tail (k_domains c3))).
  apply wp_bind, wp_bind, wp_free_array; [lia|].
  apply wp_bind. apply (wp_mono _ _ (fun _ h' => oracle h' = oracle h3 /\ live h' = live h3 - arr_blocks (k_servers c3) -
    (match k_domains c3 with Some _ :: _ => 1 | _ => 0 end))).
  { destruct (k_domains c3) as [|[] ?]; [apply wp_ret; cbn; split; [done|lia]|apply wp_free; cbn [live oracle arr_blocks] in *; [lia|by split]|
      apply wp_ret; cbn; split; [done|lia]]. }
  intros _ h4 [Ho4 Hl4]. apply wp_bind, wp_free_array; [lia|]. apply wp_bind, wp_free_opt; cbn [live]; [lia|].
  apply wp_ret, wp_bind, wp_free_opt; cbn [live]; [lia|]. apply wp_ret. cbn [oracle live]. rewrite Ho4.
  split_and!; [done|done|done|]. intros _. cbn. split_and!; [done|done|done|lia|by apply F3].
Qed.

(** ** [ares_init_options] *)

Local Abbreviation ares_init_options := (ares_init_options inet_addr inet_pton4 inet_pton6).
Local Abbreviation spec_resolv := (spec_resolv inet_pton4 inet_pton6).

(** What the options, the environment and the files give. *)
Definition sources_conf (sys : system) : conf :=
  let c := spec_env sys (options_conf o optmask) in
  let '(n, l) := spec_sort inet_addr c (if config_check c then [] else file_lines (resolv_conf sys)) in
  set_k_sortlist n l (spec_resolv sys c).

(** The configuration the four sources give. *)
Definition final_conf (fuel : nat) (sys : system) : conf := trim_servers (spec_defaults fuel sys (sources_conf sys)).

Definition init_post (fuel : nat) (sys : system) (h : heap) (r : status + channel) (h' : heap) : Prop :=
  match r with
  | inl st => st <> ARES_SUCCESS /\ live h <= live h' /\ (st <> ARES_ENOMEM -> live h' = live h) /\
      (oracle h = [] -> st = ARES_EBADNAME /\ find_hostname fuel (gethostname sys) 64 = None)
  | inr ch => live h' = live h + 1 + conf_blocks (ch_conf ch) /\ conf_ok (ch_conf ch) /\
      Forall pattern_ok (k_sortlist (ch_conf ch)) /\ key_ok (ch_id_key ch) /\ 0 <= ch_next_id ch < 65536 /\
      (exists c, ch_conf ch = trim_servers (spec_defaults fuel sys c)) /\
      (oracle h = [] -> system_readable sys -> ch_conf ch = final_conf fuel sys)
  end.

Lemma conf_ok_trim c : conf_ok c -> conf_ok (trim_servers c) /\ conf_blocks (trim_servers c) = conf_blocks c.
Proof.
  intros [H1 H2 H3 H4]. unfold trim_servers. destruct (Z.testbit _ _); [|done]. cbn [andb].
  destruct (Z.ltb_spec 1 (k_nservers c)); [|done]. split; [|done]. split; cbn; [lia|lia|done|done].
Qed.

(** Whatever happened before, an error of the defaults or of the generator ends
    with the blocks of the configuration released. *)
Lemma wp_free_conf c h (Q : unit -> heap -> Prop) :
  domains_ok (k_ndomains c) (k_domains c) \/ k_domains c = [] ->
  conf_blocks c - arr_blocks (k_servers c) + 1 <= live h ->
  Q () (Heap (live h - (conf_blocks c - arr_blocks (k_servers c) + 1)) (oracle h)) -> wp (free_conf c) h Q.
Proof.
  intros Hd Hl HQ. unfold free_conf, conf_blocks in *. pose proof (conf_blocks_parts c) as Hp.
  apply wp_bind. apply (wp_mono _ _ (fun _ h' => oracle h' = oracle h /\
    live h' = live h - (arr_blocks (k_domains c) + somes (k_domains c)))).
  { destruct (k_domains c) as [|d l] eqn:E; [apply wp_ret; cbn; split; [done|lia]|].
    destruct Hd as [(_ & H1 & H2)|]; [|done]. rewrite <- E in *.
    apply wp_bind, wp_free_domains; [done|done|lia|]. apply wp_free; cbn [live oracle]; rewrite E in *; cbn [arr_blocks] in *; [lia|].
    split; [done|lia]. }
  intros _ h1 [Eo Hl1]. apply wp_bind, wp_free_array; [lia|]. apply wp_bind, wp_free_opt; cbn [live]; [lia|].
  apply wp_free; cbn [live oracle]; [lia|]. rewrite Eo.
  match goal with |- Q _ (Heap ?x _) => match type of HQ with Q _ (Heap ?y _) => replace x with y by lia end end. done.
Qed.

(** The state in front of the identifier generator: the blocks [h] had, the
    channel and the configuration. *)
Definition sources_post (fuel : nat) (sys : system) (h : heap) (r : status * conf) (h2 : heap) : Prop :=
  let '(st, c) := r in
  Forall pattern_ok (k_sortlist c) /\
  (st = ARES_SUCCESS -> conf_ok c /\ live h2 = live h + 1 + conf_blocks c /\ (exists c', c = spec_defaults fuel sys c') /\
    (oracle h = [] -> oracle h2 = [] /\ (system_readable sys -> c = spec_defaults fuel sys (sources_conf sys)))) /\
  (st <> ARES_SUCCESS -> (domains_ok (k_ndomains c) (k_domains c) \/ k_domains c = []) /\
    live h + 1 + conf_blocks c <= live h2 /\ (st <> ARES_ENOMEM -> live h2 = live h + 1 + conf_blocks c) /\
    (oracle h = [] -> st = ARES_EBADNAME /\ find_hostname fuel (gethostname sys) 64 = None)).

(** The environment and the files, whose errors are ignored. *)
Lemma wp_env_and_files sys c1 h0 h :
  conf_ok c1 -> Forall pattern_ok (k_sortlist c1) -> live h = live h0 + 1 + conf_blocks c1 -> 0 <= live h0 ->
  system_ok sys -> (oracle h0 = [] -> oracle h = []) ->
  wp (and_then (init_by_environment sys c1) (init_by_resolv_conf inet_addr inet_pton4 inet_pton6 sys)) h (fun '(_, c) h2 =>
    conf_ok c /\ Forall pattern_ok (k_sortlist c) /\ live h2 = live h0 + 1 + conf_blocks c /\
    (oracle h0 = [] -> oracle h2 = [] /\ (system_readable sys ->
       let c' := spec_env sys c1 in
       let '(n, l) := spec_sort inet_addr c' (if config_check c' then [] else file_lines (resolv_conf sys)) in
       c = set_k_sortlist n l (spec_resolv sys c')))).
Proof.
  intros K1 P1 L1 Hl Hs Hoo. pose proof (conf_blocks_parts c1).
  unfold and_then. apply wp_bind. eapply wp_mono; [apply wp_init_by_environment; [done|lia|done]|].
  intros [st2 c2] h2 ([K2 L2 O2] & S2 & E2 & M2 & P2). cbn [fst snd] in *. pose proof (conf_blocks_parts c2).
  destruct (decide (st2 = ARES_SUCCESS)) as [Es2|Es2].
  - rewrite bool_decide_true by done. eapply wp_mono; [apply wp_init_by_resolv_conf; [done|done|lia|done]|].
    intros [st3 c3] h3 ([K3 L3 O3] & P3 & F3). split_and!; [done|done|lia|]. intros Eo.
    assert (oracle h2 = []) as Eo2 by auto. split; [auto|]. intros Hrd.
    specialize (E2 Es2). subst c2. by apply F3.
  - rewrite bool_decide_false by done. apply wp_ret. split_and!; [done|done|lia|]. intros Eo.
    destruct Es2. by apply S2, Hoo.
Qed.

Lemma wp_init_sources fuel sys h h1 :
  0 <= live h -> live h1 = live h + 1 -> (oracle h = [] -> oracle h1 = []) ->
  system_ok sys -> hostname_ok fuel (gethostname sys) ->
  wp ('(st, c) ← init_by_options o optmask unset_conf;
      (if negb (bool_decide (st = ARES_SUCCESS)) then mret (st, c)
       else '(_, c) ← and_then (init_by_environment sys c) (init_by_resolv_conf inet_addr inet_pton4 inet_pton6 sys);
            init_by_defaults fuel sys c)) h1 (sources_post fuel sys h).
Proof.
  intros Hl Hl1 Hoo Hs Hh. apply wp_bind. eapply wp_mono; [apply wp_init_by_options|].
  intros [st1 c1] h2 ([K1 L1 O1] & S1 & E1 & M1 & P1). cbn [fst snd] in *. pose proof (conf_blocks_parts c1).
  change (conf_blocks unset_conf) with 0 in L1. destruct (decide (st1 = ARES_SUCCESS)) as [Es|Es].
  2:{ rewrite bool_decide_false by done. cbn [negb]. apply wp_ret. split_and!; [done|done|]. intros _.
      split_and!; [left; apply K1|lia|lia|]. intros Eo. destruct Es. by apply S1, Hoo. }
  rewrite bool_decide_true by done. cbn [negb]. specialize (E1 Es). rewrite E1 in *. clear c1 E1.
  apply wp_bind. eapply wp_mono; [apply (wp_env_and_files _ _ h); [done|done|lia|done|done|auto]|].
  intros [st2 c2] h3 (K2 & P2 & L2 & F2). pose proof (conf_blocks_parts c2).
  eapply wp_mono; [apply wp_init_by_defaults; [done|lia|done|done]|].
  intros [st3 c3] h4 (O3 & P3 & D3 & N3). split_and!; [done| |].
  - intros E. destruct (D3 E) as [[K3 L3 _] ->]. split_and!; [done|lia|by eexists|].
    intros Eo. destruct (F2 Eo) as [Eo2 Hu]. split; [by apply O3|]. intros Hrd.
    specialize (Hu Hrd). unfold sources_conf. cbv zeta in Hu |- *.
    destruct (spec_sort _ _ _) as [n l]. by rewrite Hu.
  - intros E. destruct (N3 E) as (Z1 & Z2 & Z3 & Z4 & Z5). pose proof (somes_nonneg (tail (k_domains c2))).
    unfold conf_blocks. rewrite Z1, Z2, Z3. cbn [arr_blocks somes blocks_opt]. split_and!; [by right|lia| |].
    + intros Em. destruct Z5 as [[? _]|(_ & Z5 & _)]; [done|]. destruct (ko_domains _ K2) as (Ed & _).
      rewrite (Ed Z5) in Z4. cbn in Z4. lia.
    + intros Eo. destruct Z5 as [[_ Z5]|(Z5 & _ & Z6)]; [destruct Z5; by apply F2|done].
Qed.

Lemma wp_ares_init_options fuel sys random h :
  0 <= live h -> system_ok sys -> hostname_ok fuel (gethostname sys) -> random_ok random ->
  wp (ares_init_options fuel sys random o optmask) h (init_post fuel sys h).
Proof.
  intros Hl Hs Hh Hr. unfold Config.ares_init_options.
  apply wp_bind, wp_malloc; intros oo Hoo; cbn [negb].
  2:{ apply wp_ret. cbn. split_and!; [done|lia|done|done]. }
  pose proof (wp_init_sources fuel sys h (Heap (live h + 1) oo) Hl eq_refl Hoo Hs Hh) as Hsrc.
  apply wp_bind_iff in Hsrc. apply wp_bind. eapply wp_mono; [exact Hsrc|]. clear Hsrc. intros [st1 c1] h1 Hsrc.
  apply wp_bind. eapply wp_mono; [exact Hsrc|]. clear Hsrc.
  intros [st c] h2 (P2 & D2 & N2). pose proof (conf_blocks_parts c) as Hparts.
  assert (Hfail : forall st' h3, st' <> ARES_SUCCESS -> (domains_ok (k_ndomains c) (k_domains c) \/ k_domains c = []) ->
    live h + 1 + conf_blocks c <= live h3 -> (st' <> ARES_ENOMEM -> live h3 = live h + 1 + conf_blocks c) ->
    (oracle h = [] -> st' = ARES_EBADNAME /\ find_hostname fuel (gethostname sys) 64 = None) ->
    wp (free_array (k_servers c) ;; free_conf c ;; mret (inl st')) h3 (init_post fuel sys h)).
  { intros st' h3 Hst Hd Hle Heq Hor. unfold conf_blocks in *. apply wp_bind, wp_free_array; [lia|].
    apply wp_bind, wp_free_conf; cbn [live oracle]; unfold conf_blocks; [done|lia|]. apply wp_ret. cbn.
    split_and!; [done|lia| |done]. intros Em. specialize (Heq Em). lia. }
  apply wp_bind. destruct (decide (st = ARES_SUCCESS)) as [Es|Es].
  - rewrite bool_decide_true by done. destruct (D2 Es) as (K2 & L2 & Hx & F2).
    eapply wp_mono; [apply wp_init_id_key; [done|unfold conf_blocks in *; lia]|]. intros [st'|key] h3 (L3 & H3).
    + destruct H3 as [-> H3]. apply Hfail; [done|left; apply K2|lia|done|]. intros Eo. destruct H3. by apply F2.
    + destruct H3 as [Hk _]. destruct (generate_new_id_ok key Hk) as (key' & id & -> & Hk' & Hid & _).
      apply wp_ret. destruct (conf_ok_trim c K2) as [K4 B4]. cbn [init_post ch_conf ch_id_key ch_next_id].
      split_and!; [rewrite B4; lia|done| |done|lia|lia| |].
      * unfold trim_servers. by destruct (_ && _).
      * destruct Hx as [c' ->]. by exists c'.
      * intros Eo Hrd. destruct (F2 Eo) as [_ Hf]. by rewrite (Hf Hrd).
  - rewrite bool_decide_false by done. apply wp_ret. destruct (N2 Es) as (Hd & Hle & Heq & Hor). by apply Hfail.
Qed.
End init.
