(* ===== verification/ConfigTheorems.v ===== *)
(** * What is proved of the configuration (c-ares)

    The fields of a channel that [ares_init_options] makes, source by source, the
    theorems about the routine with concrete systems that show their hypotheses
    can hold, and that the channel can be handed to the engine. *)

From S2P Require Import Prelude DnsWire ParseHost InetAddr InetAddr6 ReadLine Search AddrSort HostsFile.
From S2P Require Import Channel Resolver ResolverInv ResolverSend ResolverAnswer ResolverIO ResolverTheorems.
From S2P Require Import QueryId Config ConfigInv ConfigFile ConfigInit.
Open Scope Z_scope.

#[local] Arguments Z.testbit : simpl never.

(** ** The value of each source *)

(** The first value that is set. *)
Fixpoint first_set (l : list Z) : Z :=
  match l with [] => -1 | x :: l' => if x =? -1 then first_set l' else x end.

(** The number that texts of options give, -1 if none does. *)
Definition first_number (opt : list Z) (strs : list (list Z)) : Z :=
  match head (omap (option_value opt) strs) with Some v => aresx_sltosi (strtol v) | None => -1 end.

Definition first_rotate (strs : list (list Z)) : Z :=
  match head (omap (option_value str_rotate) strs) with Some _ => 1 | None => -1 end.

(** The domains a line gives. *)
Definition line_search (line : list Z) : option (list (list Z)) :=
  match line_value str_domain ch_semi line with
  | Some v => Some (search_list (span ISSPACE v).1)
  | None => search_list <$> line_value str_search ch_semi line
  end.

Lemma if_unset_first x y l : if_unset x (first_set (y :: l)) = first_set (x :: y :: l).
Proof. reflexivity. Qed.

Lemma option_number_first opt c_x str :
  option_number opt str c_x = if_unset c_x (first_number opt [str]).
Proof.
  unfold option_number, first_number. cbn [omap list_omap]. destruct (option_value opt str); [done|].
  cbn. unfold if_unset. by destruct (Z.eqb_spec c_x (-1)).
Qed.

Lemma first_number_cons opt str strs :
  first_number opt (str :: strs) = if_unset (first_number opt [str]) (first_number opt strs).
Proof.
  unfold first_number. cbn [omap list_omap]. destruct (option_value opt str) as [v|]; cbn [head]; [|done].
  unfold if_unset. pose proof (aresx_sltosi_range (strtol v)). destruct (Z.eqb_spec (aresx_sltosi (strtol v)) (-1)); [lia|done].
Qed.

Lemma if_unset_assoc x y z : if_unset (if_unset x y) z = if_unset x (if_unset y z).
Proof. unfold if_unset. destruct (Z.eqb_spec x (-1)) as [|Hx]; [done|]. by destruct (Z.eqb_spec x (-1)). Qed.

(** The numbers of a configuration. *)
Inductive number := Ndots | Timeout | Tries.

Definition number_of (k : number) (c : conf) : Z :=
  match k with Ndots => k_ndots c | Timeout => k_timeout c | Tries => k_tries c end.

Definition number_opt (k : number) : list Z :=
  match k with Ndots => str_ndots | Timeout => str_retrans | Tries => str_retry end.

Lemma with_options_number k c str :
  number_of k (with_options c str) = if_unset (number_of k c) (first_number (number_opt k) [str]).
Proof. rewrite <- option_number_first. by destruct k. Qed.

Lemma with_options_rotate c str : k_rotate (with_options c str) = if_unset (k_rotate c) (first_rotate [str]).
Proof.
  unfold with_options, first_rotate. cbn. destruct (option_value str_rotate str); [done|]. cbn.
  unfold if_unset. by destruct (Z.eqb_spec (k_rotate c) (-1)).
Qed.

Lemma if_unset_none x : if_unset x (-1) = x.
Proof. unfold if_unset. by destruct (Z.eqb_spec x (-1)). Qed.

Section lines.
Context (inet_pton4 inet_pton6 : list Z -> option (list Z)).
Local Abbreviation spec_line := (spec_line inet_pton4 inet_pton6).
Local Abbreviation spec_lines := (spec_lines inet_pton4 inet_pton6).
Local Abbreviation server_address := (server_address inet_pton4 inet_pton6).

(** The numbers that only the options and the defaults set. *)
Inductive fixed := Flags | UdpPort | TcpPort | SndBuf | RcvBuf | EdnsPsz.

Definition fixed_of (k : fixed) (c : conf) : Z :=
  match k with
  | Flags => k_flags c | UdpPort => k_udp_port c | TcpPort => k_tcp_port c
  | SndBuf => k_sndbuf c | RcvBuf => k_rcvbuf c | EdnsPsz => k_ednspsz c
  end.

Definition same_fixed (c c' : conf) : Prop :=
  (forall k, fixed_of k c' = fixed_of k c) /\ k_sock_state_cb c' = k_sock_state_cb c.

(** The servers that lines name. *)
Definition file_servers (ls : list (list Z)) : list ares_addr :=
  omap server_address (concat (fields <$> omap (line_value str_nameserver ch_semi) ls)).

(** One line, field by field: the cases exclude each other. *)
Lemma spec_line_fields upd line c srv :
  let '(c', srv') := spec_line upd line (c, srv) in
  (forall k, number_of k c' = if_unset (number_of k c) (first_number (number_opt k) (option_list (line_value str_options ch_semi line)))) /\
  k_rotate c' = if_unset (k_rotate c) (first_rotate (option_list (line_value str_options ch_semi line))) /\
  (k_ndomains c', k_domains c') = match line_search line with
    | Some ds => if upd then (Zlen ds, Some <$> ds) else (k_ndomains c, k_domains c)
    | None => (k_ndomains c, k_domains c) end /\
  k_lookups c' = match k_lookups c with Some l => Some l | None => lookup_order ch_b ch_b ch_f <$> line_value str_lookup ch_semi line end /\
  srv' = srv ++ (if k_nservers c =? -1 then file_servers [line] else []) /\ same_arrays c c' /\ same_fixed c c'.
Proof.
  unfold ConfigFile.spec_line, line_search, file_servers. cbn [omap list_omap].
  assert (Hnone : forall k, number_of k c = if_unset (number_of k c) (first_number (number_opt k) (option_list None)))
    by (intros k; cbn; by rewrite if_unset_none).
  assert (Hrot : k_rotate c = if_unset (k_rotate c) (first_rotate (option_list None))) by (cbn; by rewrite if_unset_none).
  assert (Hsrv : forall b : bool, srv = srv ++ (if b then [] else [])) by (intros []; by rewrite app_nil_r).
  assert (Hlook : k_lookups c = match k_lookups c with Some l => Some l | None => None end) by (by destruct (k_lookups c)).
  destruct (line_value str_domain ch_semi line) as [v|] eqn:H1.
  { no_other H1. not_other H1 str_options. cbn [option_list fmap option_fmap option_map]. destruct upd;
      (split_and!; [done|done|done|exact Hlook|apply Hsrv|done|by split; [intros []|]]). }
  destruct (line_value str_search ch_semi line) as [v|] eqn:H2.
  { no_other H2. cbn [option_list fmap option_fmap option_map]. destruct upd;
      (split_and!; [done|done|done|exact Hlook|apply Hsrv|done|by split; [intros []|]]). }
  destruct (line_value str_lookup ch_semi line) as [v|] eqn:H3.
  { no_other H3. cbn [option_list fmap option_fmap option_map]. destruct (k_lookups c) as [l|] eqn:El;
      (split_and!; [done|done|done|done|apply Hsrv|done|by split; [intros []|]]). }
  destruct (line_value str_nameserver ch_semi line) as [v|] eqn:H4.
  { no_other H4. cbn [option_list fmap option_fmap option_map concat].
    destruct (k_nservers c =? -1); (split_and!; [done|done|done|exact Hlook|cbn; by rewrite ?app_nil_r|done|by split; [intros []|]]). }
  destruct (line_value str_options ch_semi line) as [v|] eqn:H5; cbn [option_list].
  - split_and!; [intros k; apply with_options_number|apply with_options_rotate|done|exact Hlook|apply Hsrv|done|by split; [intros []|]].
  - split_and!; [done|done|done|exact Hlook|apply Hsrv|done|by split; [intros []|]].
Qed.

Lemma file_servers_cons line ls : file_servers (line :: ls) = file_servers [line] ++ file_servers ls.
Proof.
  unfold file_servers. cbn [omap list_omap].
  destruct (line_value str_nameserver ch_semi line); [|done]. cbn. by rewrite app_nil_r, omap_app.
Qed.

Lemma omap_cons_app {A B} (f : A -> option B) x l : omap f (x :: l) = option_list (f x) ++ omap f l.
Proof. cbn. by destruct (f x). Qed.

Lemma first_number_app opt s1 s2 :
  first_number opt (s1 ++ s2) = if_unset (first_number opt s1) (first_number opt s2).
Proof.
  induction s1 as [|s s1 IH]; cbn [app]; [done|]. rewrite (first_number_cons opt s (s1 ++ s2)), (first_number_cons opt s s1), IH.
  by rewrite if_unset_assoc.
Qed.

Lemma first_rotate_app s1 s2 : first_rotate (s1 ++ s2) = if_unset (first_rotate s1) (first_rotate s2).
Proof.
  unfold first_rotate. rewrite omap_app. by destruct (omap (option_value str_rotate) s1).
Qed.

(** The lines of resolv.conf, field by field. *)
Lemma spec_lines_fields upd ls c srv :
  let '(c', srv') := spec_lines upd ls (c, srv) in
  (forall k, number_of k c' = if_unset (number_of k c) (first_number (number_opt k) (omap (line_value str_options ch_semi) ls))) /\
  k_rotate c' = if_unset (k_rotate c) (first_rotate (omap (line_value str_options ch_semi) ls)) /\
  (k_ndomains c', k_domains c') = match last (omap line_search ls) with
    | Some ds => if upd then (Zlen ds, Some <$> ds) else (k_ndomains c, k_domains c)
    | None => (k_ndomains c, k_domains c) end /\
  k_lookups c' = match k_lookups c with Some l => Some l
    | None => lookup_order ch_b ch_b ch_f <$> head (omap (line_value str_lookup ch_semi) ls) end /\
  srv' = srv ++ (if k_nservers c =? -1 then file_servers ls else []) /\ same_arrays c c' /\ same_fixed c c'.
Proof.
  revert c srv. induction ls as [|line ls IH]; intros c srv; unfold ConfigFile.spec_lines; cbn [foldl].
  { cbn. rewrite if_unset_none. split_and!; [intros k; cbn; by rewrite if_unset_none|done|done|by destruct (k_lookups c)|
      by destruct (k_nservers c =? -1); rewrite app_nil_r|done..]. }
  pose proof (spec_line_fields upd line c srv) as H1. destruct (spec_line upd line (c, srv)) as [c1 srv1].
  specialize (IH c1 srv1). unfold ConfigFile.spec_lines in IH. destruct (foldl _ _ ls) as [c2 srv2].
  destruct H1 as (A1 & A2 & A3 & A4 & A5 & A6 & A7). destruct IH as (B1 & B2 & B3 & B4 & B5 & B6 & B7).
  rewrite !omap_cons_app. split_and!.
  - intros k. by rewrite B1, A1, first_number_app, if_unset_assoc.
  - by rewrite B2, A2, first_rotate_app, if_unset_assoc.
  - rewrite B3, last_app, A3. destruct (last (omap line_search ls)), (line_search line); cbn; by destruct upd.
  - rewrite B4, A4. destruct (k_lookups c); [done|]. by destruct (line_value str_lookup ch_semi line).
  - rewrite B5, A5, (file_servers_cons line ls), <- app_assoc. destruct A6 as (-> & _). by destruct (k_nservers c =? -1).
  - by eapply same_arrays_trans.
  - destruct A7 as [A7 A8], B7 as [B7 B8]. split; [intros k; by rewrite B7, A7|congruence].
Qed.
End lines.

(** ** Precedence *)

Section precedence.
Context (inet_addr inet_pton4 inet_pton6 : list Z -> option (list Z)).
Context (o : ares_options) (optmask : Z) (sys : system) (fuel : nat).
Local Abbreviation given := (options_conf o optmask).

(** The lines of resolv.conf that count: none when the options and the
    environment have set what the files could. *)
Definition files_read : bool := negb (config_check (spec_env sys given)).

Definition conf_lines : list (list Z) := if files_read then file_lines (resolv_conf sys) else [].

Definition env_options : list (list Z) := option_list (res_options sys).
Definition file_options : list (list Z) := omap (line_value str_options ch_semi) conf_lines.

Definition default_number (k : number) : Z :=
  match k with Ndots => 1 | Timeout => DEFAULT_TIMEOUT | Tries => DEFAULT_TRIES end.

(** The servers: the first source that has any. *)
Definition chosen_servers : list ares_addr :=
  if k_nservers given =? -1
  then match file_servers inet_pton4 inet_pton6 conf_lines with [] => [v4_server loopback] | l => l end
  else k_servers given.

Definition chosen_domains : list (option (list Z)) :=
  if k_ndomains given =? -1 then
    Some <$> match localdomain sys, last (omap line_search conf_lines) with
             | Some s, _ => search_list s
             | None, Some ds => ds
             | None, None => host_domain fuel sys
             end
  else k_domains given.

(** The orders of lookups that the files give, in the order they are read. *)
Definition file_lookups : list (list Z) :=
  if files_read then
    (lookup_order ch_b ch_b ch_f <$> take 1 (omap (line_value str_lookup ch_semi) conf_lines)) ++
    (lookup_order 100 114 ch_f <$> take 1 (omap (line_value str_hosts_colon 0) (file_lines (nsswitch_conf sys)))) ++
    (lookup_order ch_b ch_b 104 <$> take 1 (omap (line_value str_order 0) (file_lines (host_conf sys)))) ++
    (lookup_order ch_b ch_b 108 <$> take 1 (omap (line_value str_hosts_eq 0) (file_lines (svc_conf sys))))
  else [].

Definition chosen_lookups : option (list Z) :=
  match k_lookups given with Some l => Some l | None => Some (hd str_fb file_lookups) end.

(** The sort list: the one of the options, or the patterns of the lines. *)
Definition chosen_sort : Z * list apattern :=
  if k_nsort given =? -1
  then let l := file_patterns inet_addr given conf_lines in (Zlen l, l)
  else (k_nsort given, k_sortlist given).

Definition default_fixed (k : fixed) : Z :=
  match k with
  | Flags => 0 | UdpPort | TcpPort => htons NAMESERVER_PORT
  | SndBuf | RcvBuf => -1 | EdnsPsz => EDNSPACKETSZ
  end.

Record by_precedence (c : conf) : Prop := {
  bp_numbers k : number_of k c = first_set
    [number_of k given; first_number (number_opt k) env_options; first_number (number_opt k) file_options; default_number k];
  bp_rotate : k_rotate c = first_set [k_rotate given; first_rotate env_options; first_rotate file_options; 0];
  bp_fixed k : fixed_of k c = first_set [fixed_of k given; default_fixed k];
  bp_servers : k_servers c = chosen_servers;
  bp_domains : k_domains c = chosen_domains;
  bp_lookups : k_lookups c = chosen_lookups;
  bp_sortlist : (k_nsort c, k_sortlist c) = chosen_sort;
  bp_sock_state_cb : k_sock_state_cb c = k_sock_state_cb given }.

Lemma spec_env_fields :
  let c := spec_env sys given in
  (forall k, number_of k c = if_unset (number_of k given) (first_number (number_opt k) env_options)) /\
  k_rotate c = if_unset (k_rotate given) (first_rotate env_options) /\
  (k_ndomains c, k_domains c) = (match localdomain sys with
    | Some s => if k_ndomains given =? -1 then (Zlen (search_list s), Some <$> search_list s) else (k_ndomains given, k_domains given)
    | None => (k_ndomains given, k_domains given) end) /\
  k_lookups c = k_lookups given /\ same_arrays given c /\ same_fixed given c.
Proof.
  unfold spec_env, env_options. cbv zeta. generalize given. intros g.
  set (c1 := match localdomain sys with Some _ => _ | None => _ end).
  assert (H1 : (forall k, number_of k c1 = number_of k g) /\ k_rotate c1 = k_rotate g /\ k_lookups c1 = k_lookups g /\
    same_arrays g c1 /\ same_fixed g c1 /\
    (k_ndomains c1, k_domains c1) = (match localdomain sys with
      | Some s => if k_ndomains g =? -1 then (Zlen (search_list s), Some <$> search_list s) else (k_ndomains g, k_domains g)
      | None => (k_ndomains g, k_domains g) end)).
  { unfold c1. destruct (localdomain sys) as [s|]; [destruct (k_ndomains g =? -1)|];
      (split_and!; [by intros []|done|done|done|by split; [intros []|]|done]). }
  destruct H1 as (A1 & A2 & A3 & A4 & A5 & A8). destruct (res_options sys) as [s|]; cbn [option_list].
  - split_and!; [intros k; by rewrite with_options_number, A1|by rewrite with_options_rotate, A2|done|done|done|
      destruct A5 as [A5 A6]; split; [intros k; rewrite <- A5; by destruct k|done]].
  - cbn. rewrite if_unset_none. split_and!; [intros k; cbn; by rewrite if_unset_none, A1|done..].
Qed.

(** What the lookups of the neighbours of resolv.conf give. *)
Lemma spec_lookup_first opt b a f ls c :
  k_lookups (spec_lookup opt b a f ls c) =
  match k_lookups c with Some l => Some l | None => head (lookup_order b a f <$> take 1 (omap (line_value opt 0) ls)) end.
Proof.
  unfold spec_lookup. destruct (k_lookups c) eqn:E; [done|]. by destruct (omap (line_value opt 0) ls); cbn.
Qed.

(** The files, field by field. *)
Lemma spec_resolv_fields :
  let ce := spec_env sys given in
  let c := spec_resolv inet_pton4 inet_pton6 sys ce in
  (forall k, number_of k c = if_unset (number_of k ce) (first_number (number_opt k) file_options)) /\
  k_rotate c = if_unset (k_rotate ce) (first_rotate file_options) /\
  (k_ndomains c, k_domains c) = match last (omap line_search conf_lines) with
    | Some ds => if k_ndomains ce =? -1 then (Zlen ds, Some <$> ds) else (k_ndomains ce, k_domains ce)
    | None => (k_ndomains ce, k_domains ce) end /\
  k_lookups c = match k_lookups ce with Some l => Some l | None => head file_lookups end /\
  (k_nservers c, k_servers c) = match (if k_nservers ce =? -1 then file_servers inet_pton4 inet_pton6 conf_lines else []) with
    | [] => (k_nservers ce, k_servers ce) | srv => (Zlen srv, srv) end /\
  same_fixed ce c.
Proof.
  cbv zeta. set (ce := spec_env sys given).
  unfold spec_resolv, file_options, file_lookups, conf_lines, files_read. fold ce. destruct (config_check ce); cbn [negb].
  { cbn. split_and!; [intros k; cbn; by rewrite if_unset_none|by rewrite if_unset_none|done|
      by destruct (k_lookups ce)|by destruct (k_nservers ce =? -1)|done..]. }
  pose proof (spec_lines_fields inet_pton4 inet_pton6 (k_ndomains ce =? -1) (file_lines (resolv_conf sys)) ce []) as H.
  destruct (spec_lines _ _ _ _ _) as [c1 srv]. destruct H as (B1 & B2 & B3 & B4 & B5 & B6 & B7 & B8). cbn [app] in B5.
  assert (Hl : k_lookups (spec_lookups sys c1) = match k_lookups ce with Some l => Some l | None => head
    ((lookup_order ch_b ch_b ch_f <$> take 1 (omap (line_value str_lookup ch_semi) (file_lines (resolv_conf sys)))) ++
     (lookup_order 100 114 ch_f <$> take 1 (omap (line_value str_hosts_colon 0) (file_lines (nsswitch_conf sys)))) ++
     (lookup_order ch_b ch_b 104 <$> take 1 (omap (line_value str_order 0) (file_lines (host_conf sys)))) ++
     (lookup_order ch_b ch_b 108 <$> take 1 (omap (line_value str_hosts_eq 0) (file_lines (svc_conf sys))))) end).
  { unfold spec_lookups. rewrite !spec_lookup_first, B4. destruct (k_lookups ce); [done|].
    destruct (omap (line_value str_lookup ch_semi) _); [|done]. cbn.
    destruct (omap (line_value str_hosts_colon 0) _); [|done]. cbn.
    by destruct (omap (line_value str_order 0) _). }
  destruct (spec_lookups_frame sys c1) as [l1 El]. rewrite El in *. destruct B6 as (N1 & N2 & _). rewrite <- B5, <- N1, <- N2.
  destruct srv; split_and!; try done; intros k; first [rewrite <- (B1 k)|rewrite <- (B7 k)]; by destruct k.
Qed.

Lemma spec_defaults_fields c :
  let c' := trim_servers (spec_defaults fuel sys c) in
  (forall k, number_of k c' = if_unset (number_of k c) (default_number k)) /\ k_rotate c' = if_unset (k_rotate c) 0 /\
  (forall k, fixed_of k c' = if_unset (fixed_of k c) (default_fixed k)) /\ k_sock_state_cb c' = k_sock_state_cb c /\
  (k_nsort c', k_sortlist c') = (if k_nsort c =? -1 then (0, []) else (k_nsort c, k_sortlist c)) /\
  k_servers c' = (if k_nservers c =? -1 then [v4_server loopback] else k_servers c) /\
  k_domains c' = (if k_ndomains c =? -1 then Some <$> host_domain fuel sys else k_domains c) /\
  k_lookups c' = match k_lookups c with Some l => Some l | None => Some str_fb end /\ config_check c' = config_check (spec_defaults fuel sys c).
Proof.
  cbv zeta. set (c1 := spec_defaults fuel sys c).
  assert (H : (forall k, number_of k c1 = if_unset (number_of k c) (default_number k)) /\ k_rotate c1 = if_unset (k_rotate c) 0 /\
    (forall k, fixed_of k c1 = if_unset (fixed_of k c) (default_fixed k)) /\ k_sock_state_cb c1 = k_sock_state_cb c /\
    (k_nsort c1, k_sortlist c1) = (if k_nsort c =? -1 then (0, []) else (k_nsort c, k_sortlist c)) /\
    k_servers c1 = (if k_nservers c =? -1 then [v4_server loopback] else k_servers c) /\
    k_domains c1 = (if k_ndomains c =? -1 then Some <$> host_domain fuel sys else k_domains c) /\
    k_lookups c1 = match k_lookups c with Some l => Some l | None => Some str_fb end).
  { unfold c1, spec_defaults, default_scalars. cbv zeta. destruct c; cbn.
    destruct (k_nservers =? -1); cbn; destruct (k_ndomains =? -1); cbn; destruct (k_nsort =? -1); cbn;
      destruct k_lookups; cbn; (split_and!; [by intros []|done| |done..]); intros []; cbn; by rewrite ?if_unset_none. }
  unfold trim_servers. destruct (Z.testbit _ _ && _) eqn:E; [|by split_and!; apply H || done].
  destruct H as (H1 & H2 & H3 & H). split_and!; [intros k; rewrite <- H1; by destruct k|done|intros k; rewrite <- H3; by destruct k|apply H..|].
  apply andb_true_iff in E as [_ E]. unfold config_check. cbn. do 4 f_equal.
  by destruct (Z.ltb_spec (-1) (k_nservers c1)); [|apply Z.ltb_lt in E; lia].
Qed.

(** The fields are those of the sources. *)
Lemma final_conf_fields : by_precedence (final_conf inet_addr inet_pton4 inet_pton6 o optmask fuel sys).
Proof.
  destruct spec_env_fields as (A1 & A2 & A3 & A4 & A5 & A6 & A7).
  destruct spec_resolv_fields as (B1 & B2 & B3 & B4 & B5 & B6 & B7).
  unfold final_conf, sources_conf. set (ce := spec_env sys given) in *.
  set (cf := spec_resolv inet_pton4 inet_pton6 sys ce) in *. cbv zeta.
  destruct A5 as (N1 & N2 & N3 & N4).
  assert (Hsort : spec_sort inet_addr ce (if config_check ce then [] else file_lines (resolv_conf sys))
    = if k_nsort given =? -1
      then match file_patterns inet_addr given conf_lines with [] => (-1, k_sortlist given) | l => (Zlen l, l) end
      else (k_nsort given, k_sortlist given)).
  { unfold spec_sort. rewrite (file_patterns_same _ given ce _ N3), N3, N4.
    unfold conf_lines, files_read. fold ce.
    replace (if negb (config_check ce) then file_lines (resolv_conf sys) else [])
      with (if config_check ce then [] else file_lines (resolv_conf sys)) by (by destruct (config_check ce)).
    set (ls := if config_check ce then _ else _).
    destruct (Z.eqb_spec (k_nsort given) (-1)) as [E|E]; [by rewrite E|].
    assert (file_patterns inet_addr given ls = []) as ->; [|done].
    unfold file_patterns, line_patterns. destruct (Z.eqb_spec (k_nsort given) (-1)); [done|].
    clear. by induction ls. }
  destruct (spec_sort _ _ _) as [n l].
  destruct (spec_defaults_fields (set_k_sortlist n l cf)) as (C1 & C2 & C3 & C4 & C5 & C6 & C7 & C8 & _).
  assert (Hnum : forall k, number_of k (set_k_sortlist n l cf) = number_of k cf) by (by intros []).
  assert (Hfix : forall k, fixed_of k (set_k_sortlist n l cf) = fixed_of k cf) by (by intros []).
  cbn [set_k_sortlist k_rotate k_sock_state_cb k_nsort k_sortlist k_nservers k_servers k_ndomains k_domains k_lookups] in *.
  assert (F4 : forall x y z w, if_unset (if_unset (if_unset x y) z) w = first_set [x; y; z; w]).
  { intros. rewrite !if_unset_assoc. unfold if_unset. cbn. destruct (Z.eqb_spec w (-1)) as [->|]; done. }
  assert (F2 : forall x y, if_unset x y = first_set [x; y]).
  { intros. unfold if_unset. cbn. destruct (Z.eqb_spec y (-1)) as [->|]; done. }
  split.
  - intros k. by rewrite C1, Hnum, B1, A1, F4.
  - by rewrite C2, B2, A2, F4.
  - intros k. by rewrite C3, Hfix, B6, A6, F2.
  - rewrite C6. unfold chosen_servers. rewrite N1 in B5. destruct (k_nservers given =? -1) eqn:En.
    + destruct (file_servers _ _ conf_lines) as [|a srv]; apply pair_eq in B5 as [-> ->]; [by rewrite En|].
      destruct (Z.eqb_spec (Zlen (a :: srv)) (-1)) as [E|]; [unfold Zlen in E; lia|done].
    + apply pair_eq in B5 as [-> ->]. by rewrite En.
  - rewrite C7. unfold chosen_domains.
    assert (Hz : forall ds : list (list Z), (Zlen ds =? -1) = false) by (intros ds; apply Z.eqb_neq; unfold Zlen; lia).
    destruct (localdomain sys) as [s|]; [destruct (k_ndomains given =? -1) eqn:En|]; apply pair_eq in A3 as [Ea Eb]; rewrite Ea, Eb in *.
    + rewrite Hz in B3. destruct (last (omap line_search conf_lines)); apply pair_eq in B3 as [-> ->]; by rewrite Hz.
    + rewrite En in B3. destruct (last (omap line_search conf_lines)); apply pair_eq in B3 as [-> ->]; by rewrite En.
    + destruct (k_ndomains given =? -1) eqn:En; destruct (last (omap line_search conf_lines)); apply pair_eq in B3 as [-> ->]; by rewrite ?Hz, ?En.
  - rewrite C8, B4, A4. unfold chosen_lookups. destruct (k_lookups given); [done|]. by destruct file_lookups.
  - rewrite C5. unfold chosen_sort. cbv zeta. destruct (k_nsort given =? -1) eqn:En; [|by apply pair_eq in Hsort as [-> ->]; rewrite En].
    destruct (file_patterns _ _ _) as [|p ps]; apply pair_eq in Hsort as [-> ->]; [done|].
    destruct (Z.eqb_spec (Zlen (p :: ps)) (-1)) as [E|]; [unfold Zlen in E; lia|done].
  - by rewrite C4, B7, A7.
Qed.
End precedence.

(** ** What is proved *)

Section theorems.
Context (inet_addr inet_pton4 inet_pton6 : list Z -> option (list Z)).
Context (o : ares_options) (optmask : Z) (sys : system) (fuel : nat) (random : list Z).
Local Abbreviation init := (ares_init_options inet_addr inet_pton4 inet_pton6 fuel sys random o optmask).

(** C26. [ares_init_options] is safe on a system it can cope with: the arrays of
    the options are as long as their counts say and hold no null strings and only
    patterns with prefix lengths within their addresses, and a time-out in seconds
    fits an [int] in milliseconds ([options_ok]); the four files are text (no NUL,
    less than 2^28 bytes, a read error only between lines), and the items of a
    "sortlist" line have at most fifteen characters and no slash ([system_ok]); [gethostname] respects its buffer and says when it
    is too small ([hostname_ok]). Then, whatever else they and the environment
    hold, and whichever allocations and reads fail, it returns: with a channel
    whose arrays are as long as their counts say and which owns exactly the blocks
    that are in use, an identifier generator in a good state and a complete
    configuration; or with an error. An error other than lack of memory leaves no
    block behind. *)
Theorem ares_init_options_safe h :
  options_ok o optmask -> system_ok sys -> hostname_ok fuel (gethostname sys) -> random_ok random -> 0 <= live h ->
  wp init h (fun r h' => match r with
    | inr ch => live h' = live h + 1 + conf_blocks (ch_conf ch) /\ conf_ok (ch_conf ch) /\
        Forall pattern_ok (k_sortlist (ch_conf ch)) /\ key_ok (ch_id_key ch) /\ 0 <= ch_next_id ch < 65536
    | inl st => st <> ARES_SUCCESS /\ live h <= live h' /\ (st <> ARES_ENOMEM -> live h' = live h) /\
        (oracle h = [] -> st = ARES_EBADNAME)
    end).
Proof.
  intros Ho Hs Hh Hr Hl. eapply wp_mono; [by apply wp_ares_init_options|].
  intros [st|ch] h'; cbn; [|tauto]. intros (? & ? & ? & H). split_and!; [done..|]. intros E. by apply H.
Qed.

(** C27. The sources have the precedence that the routine promises. When no
    allocation and no read fails, the host has a name, and the conditions of the
    previous property hold of options, files and host name, [ares_init_options] makes a channel in
    which each of these comes from the first source that sets it. The time-out,
    the number of tries, the dots and the rotation: the options, RES_OPTIONS, the
    first value in the "options" lines of /etc/resolv.conf, the default. The
    flags, the ports, the socket buffer sizes and the EDNS packet size: the
    options or the default. The servers and the sort list: the options, all the
    lines of resolv.conf together, the default. The search domains: the options,
    LOCALDOMAIN, the last "domain" or "search" line, the domain of the host name.
    The order of lookups: the options, then the first line of resolv.conf,
    nsswitch.conf, host.conf and svc.conf, in this order, the default. The files
    are not read at all when the options and the environment have set everything
    they could set but the rotation ([files_read]). *)
Theorem ares_init_precedence h :
  options_ok o optmask -> system_ok sys -> hostname_ok fuel (gethostname sys) -> random_ok random -> 0 <= live h ->
  oracle h = [] -> system_readable sys -> find_hostname fuel (gethostname sys) 64 <> None ->
  wp init h (fun r _ => exists ch, r = inr ch /\ by_precedence inet_addr inet_pton4 inet_pton6 o optmask sys fuel (ch_conf ch)).
Proof.
  intros Ho Hs Hh Hr Hl Hor Hrd Hn. eapply wp_mono; [by apply wp_ares_init_options|]. intros [st|ch] h'; cbn.
  - intros (_ & _ & _ & H). by destruct (H Hor).
  - intros (_ & _ & _ & _ & _ & _ & H). exists ch. split; [done|].
    rewrite (H Hor Hrd). apply final_conf_fields.
Qed.

(** The channel can be handed to the engine. If the three numbers that
    the sources give keep the longest time-out within an [int] and the flags ask
    for no EDNS, then every run of the engine on the servers of the channel that
    [ares_init_options] made is safe, as for a channel made by hand. *)
Theorem ares_init_runs h :
  options_ok o optmask -> system_ok sys -> hostname_ok fuel (gethostname sys) -> random_ok random -> 0 <= live h ->
  wp init h (fun r h' => forall ch now zs ps ops, r = inr ch ->
    let c := ch_conf ch in
    1 <= k_nservers c -> 1 <= k_tries c <= 31 -> 2 <= k_timeout c -> k_timeout c * 2 ^ (k_tries c - 1) * 16 <= INT_MAX ->
    Z.testbit (k_flags c) ARES_FLAG_EDNS = false -> 1 <= tv_sec now -> ops_ok (k_flags c) (tv_sec now) ops ->
    ewp (run ops) (engine_channel c now h' zs ps) (fun _ c' => ready (live h') c')).
Proof.
  intros Ho Hs Hh Hr Hl. eapply wp_mono; [by apply wp_ares_init_options|].
  intros r h' Hp ch now zs ps ops -> c Hn Ht1 Ht2 Ht3 Hf Hnow Hops. subst c.
  destruct Hp as (Hlv & [_ Hlen _ _] & _). pose proof (conf_blocks_parts (ch_conf ch)). unfold conf_blocks in Hlv.
  assert (HR : ready (live h') (engine_channel (ch_conf ch) now h' zs ps)).
  { apply init_ready; [|done|done|lia]. split; cbn; [rewrite length_take; lia|done|done|done]. }
  eapply ewp_mono; [apply (ewp_run (live h') _ (tv_sec now)); [done|done|done]|]. intros ? c' H'. apply H'.
Qed.
End theorems.

(** ** A system *)

(** "10.0.0.1" and nothing else is an address. *)
Definition ex_pton4 (s : list Z) : option (list Z) := if decide (s = [49; 48; 46; 48; 46; 48; 46; 49]) then Some [10; 0; 0; 1] else None.
Definition ex_pton6 (s : list Z) : option (list Z) := None.

(** "; a comment", "nameserver 10.0.0.1", "search a.b c", "options ndots:2 retry:3",
    "sortlist 10.0.0.1" *)
Definition ex_resolv : list Z := [59; 32; 97; 32; 99; 111; 109; 109; 101; 110; 116; 10; 110; 97; 109; 101; 115; 101; 114; 118; 101; 114; 32; 49; 48; 46; 48; 46; 48; 46; 49; 10; 115; 101; 97; 114; 99; 104; 32; 97; 46; 98; 32; 99; 10; 111; 112; 116; 105; 111; 110; 115; 32; 110; 100; 111; 116; 115; 58; 50; 32; 114; 101; 116; 114; 121; 58; 51; 10; 115; 111; 114; 116; 108; 105; 115; 116; 32; 49; 48; 46; 48; 46; 48; 46; 49; 10].

(** "hosts: files dns" *)
Definition ex_nsswitch : list Z := [104; 111; 115; 116; 115; 58; 32; 102; 105; 108; 101; 115; 32; 100; 110; 115; 10].

(** The environment sets RES_OPTIONS to "retry:2"; the host is called "h.d". *)
Definition ex_sys : system :=
  System None (Some [114; 101; 116; 114; 121; 58; 50]) (Fopened (Stream ex_resolv false)) (Fopened (Stream ex_nsswitch false))
    (FopenError ENOENT) (FopenError ENOENT)
    (fun len => if len <=? 4 then TooLong else HostName [104; 46; 100]).

Definition ex_options : ares_options := Options 0 0 0 0 0 0 0 0 [] 0 [] 0 None None [] 0 0.
Definition ex_random : list Z := replicate ARES_ID_KEY_LEN 7.

Lemma ex_options_ok : options_ok ex_options 0.
Proof. split; cbn; try lia; try done; by constructor. Qed.

Lemma ex_text l : forallb (fun c => (0 <? c) && (c <? 256)) l = true -> Zlen l < 2 ^ 28 -> text_file (Stream l false).
Proof.
  intros Ht Hl. split; cbn; [|done|done]. apply Forall_forall. intros c Hc.
  rewrite forallb_forall in Ht. specialize (Ht c (proj1 (list_elem_of_In _ _) Hc)).
  apply andb_true_iff in Ht as [H1%Z.ltb_lt H2%Z.ltb_lt]. done.
Qed.

Lemma ex_system_ok : system_ok ex_sys.
Proof.
  split; [by apply ex_text; vm_compute|by apply ex_text; vm_compute|done|done|].
  set (ls := file_lines _). vm_compute in ls. subst ls. repeat (apply Forall_cons; split; [intros v Hv; vm_compute in Hv; first [discriminate|injection Hv as <-]|]).
  { split; [repeat constructor; unfold ch_slash; lia|]. intros a b c E _. apply (f_equal length) in E.
    rewrite !length_app in E. cbn in E. lia. }
  by constructor.
Qed.

Lemma ex_readable : system_readable ex_sys.
Proof. by split. Qed.

Lemma ex_hostname_ok : hostname_ok 1 (gethostname ex_sys).
Proof.
  split.
  - cbn. intros len name. destruct (Z.leb_spec len 4); [done|]. intros [= <-]. unfold Zlen. cbn. lia.
  - exists 0%nat. cbn. split; [lia|done].
Qed.

Lemma ex_init_random_ok : random_ok ex_random.
Proof. split; [done|]. by apply Forall_replicate. Qed.

Lemma ares_init_options_safe_witness :
  exists ch h', ares_init_options ex_pton4 ex_pton4 ex_pton6 1 ex_sys ex_random ex_options 0 (Heap 0 []) = Ret (inr ch) h' /\
    live h' = 7 /\ conf_ok (ch_conf ch).
Proof.
  destruct (wp_outcome _ _ _ (ares_init_options_safe ex_pton4 ex_pton4 ex_pton6 ex_options 0 ex_sys 1 ex_random (Heap 0 [])
    ex_options_ok ex_system_ok ex_hostname_ok ex_init_random_ok ltac:(cbn; lia))) as (r & h' & E & H).
  destruct r as [st|ch]; [exfalso; apply (f_equal (fun x => match x with Ret (inr _) _ => true | _ => false end)) in E;
    vm_compute in E; discriminate|].
  exists ch, h'. split; [exact E|]. destruct H as (H1 & H2 & _). split; [|exact H2].
  apply (f_equal (fun x => match x with Ret _ h => live h | _ => 0 end)) in E. rewrite <- E. vm_compute. reflexivity.
Defined.

(** ndots is set by the file, the number of tries by the environment, the server
    and the search list by the file, like the sort list, the order of lookups by
    nsswitch.conf and the EDNS packet size by nobody. *)
Lemma ares_init_precedence_witness :
  exists ch h', ares_init_options ex_pton4 ex_pton4 ex_pton6 1 ex_sys ex_random ex_options 0 (Heap 0 []) = Ret (inr ch) h' /\
    by_precedence ex_pton4 ex_pton4 ex_pton6 ex_options 0 ex_sys 1 (ch_conf ch) /\
    k_ndots (ch_conf ch) = 2 /\ k_tries (ch_conf ch) = 2 /\ k_timeout (ch_conf ch) = 5000 /\
    k_servers (ch_conf ch) = [v4_server [10; 0; 0; 1]] /\ k_domains (ch_conf ch) = [Some [97; 46; 98]; Some [99]] /\
    k_lookups (ch_conf ch) = Some [ch_f; ch_b] /\ k_ednspsz (ch_conf ch) = EDNSPACKETSZ /\
    (k_nsort (ch_conf ch), k_sortlist (ch_conf ch))
      = (1, [Apattern [10; 0; 0; 1] (PATTERN_MASK [255; 0; 0; 0]) AF_INET]).
Proof.
  destruct (wp_outcome _ _ _ (ares_init_precedence ex_pton4 ex_pton4 ex_pton6 ex_options 0 ex_sys 1 ex_random (Heap 0 [])
    ex_options_ok ex_system_ok ex_hostname_ok ex_init_random_ok ltac:(cbn; lia) eq_refl ex_readable ltac:(vm_compute; discriminate)))
    as (r & h' & E & ch & -> & H).
  exists ch, h'. split; [exact E|]. split; [exact H|]. destruct H as [H1 _ H3 H6 H7 H8 H9 _].
  rewrite H6, H7, H8, H9. change (k_ednspsz (ch_conf ch)) with (fixed_of EdnsPsz (ch_conf ch)). rewrite H3. change (k_ndots (ch_conf ch)) with (number_of Ndots (ch_conf ch)).
  change (k_tries (ch_conf ch)) with (number_of Tries (ch_conf ch)).
  change (k_timeout (ch_conf ch)) with (number_of Timeout (ch_conf ch)). rewrite !H1. repeat split; vm_compute; reflexivity.
Defined.

(** The channel of this system takes two queries, retries them and ends them. *)
Lemma ares_init_runs_witness :
  exists ch h', ares_init_options ex_pton4 ex_pton4 ex_pton6 1 ex_sys ex_random ex_options 0 (Heap 0 []) = Ret (inr ch) h' /\
    ewp (run ex_ops) (engine_channel (ch_conf ch) (TV 100 0) h' ex_ints ex_pkts) (fun _ c => ready (live h') c).
Proof.
  destruct (wp_outcome _ _ _ (ares_init_runs ex_pton4 ex_pton4 ex_pton6 ex_options 0 ex_sys 1 ex_random (Heap 0 [])
    ex_options_ok ex_system_ok ex_hostname_ok ex_init_random_ok ltac:(cbn; lia))) as (r & h' & E & H).
  destruct r as [st|ch]; [exfalso; apply (f_equal (fun x => match x with Ret (inr _) _ => true | _ => false end)) in E;
    vm_compute in E; discriminate|].
  exists ch, h'. split; [exact E|]. apply (f_equal (fun x => match x with Ret (inr ch) _ => let c := ch_conf ch in
    (k_nservers c, k_tries c, k_timeout c, k_flags c) | _ => (0, 0, 0, 0) end)) in E.
  replace (_ : Z * Z * Z * Z) with (1, 2, 5000, 0) in E by (vm_compute; reflexivity).
  injection E as E1 E2 E3 E4. apply (H ch (TV 100 0) ex_ints ex_pkts ex_ops eq_refl); rewrite <- ?E1, <- ?E2, <- ?E3, <- ?E4;
    [lia|lia|lia|vm_compute; discriminate|reflexivity|cbn; lia|exact ex_ops_ok].
Defined.

(** ** What goes wrong *)

(** The clean-up of [init_by_defaults] releases only the first search
    domain. When the options, the environment or the files gave the servers and
    [n] domains, but no order of lookups, and the allocation of the default order
    fails, the [n - 1] other domains are lost: [ares_init_options] finds a null
    [domains] and cannot release them either. *)
Theorem init_by_defaults_leaks fuel sys c h ds o :
  conf_ok c -> k_nservers c <> -1 -> k_domains c = Some <$> ds -> ds <> [] -> k_ndomains c = Zlen ds -> k_lookups c = None ->
  oracle h = false :: o -> conf_blocks c + 1 <= live h ->
  wp ('(st, c') ← init_by_defaults fuel sys c; free_array (k_servers c') ;; free_conf c' ;; mret st) h (fun st h' =>
    st = ARES_ENOMEM /\ live h' = live h - conf_blocks c - 1 + (Zlen ds - 1)).
Proof.
  intros [_ _ _ Hsort] Hn Hd Hds Hnd Hlk Hor Hl. pose proof (conf_blocks_parts c). destruct ds as [|d ds]; [done|].
  assert (Hdz : k_ndomains c <> -1) by (rewrite Hnd; unfold Zlen; lia).
  set (c1 := default_scalars c). set (c2 := if k_nsort c1 =? -1 then set_k_sortlist 0 [] c1 else c1).
  assert (Hsl : k_sortlist c2 = k_sortlist c).
  { unfold c2. cbn. destruct (Z.eqb_spec (k_nsort c) (-1)) as [E|]; [|done]. cbn. by rewrite Hsort. }
  assert (Hc2 : k_servers c2 = k_servers c /\ k_domains c2 = Some <$> d :: ds /\ k_lookups c2 = None).
  { unfold c2. by destruct (k_nsort c1 =? -1). }
  destruct Hc2 as (Hsv & Hdm & Hlk2). unfold conf_blocks in *. rewrite Hd, Hlk, somes_fmap in *. cbn [arr_blocks fmap list_fmap] in *.
  assert (HZ : Zlen (d :: ds) = 1 + Zlen ds) by (unfold Zlen; cbn; lia). assert (0 <= Zlen ds) by (unfold Zlen; lia).
  apply wp_bind. unfold init_by_defaults, default_servers, default_domains. fold c1.
  change (k_nservers c1) with (k_nservers c). rewrite (proj2 (Z.eqb_neq _ _) Hn). apply wp_bind, wp_ret.
  rewrite bool_decide_true by done. change (k_ndomains c1) with (k_ndomains c). rewrite (proj2 (Z.eqb_neq _ _) Hdz).
  apply wp_bind, wp_ret. rewrite bool_decide_true by done. apply wp_bind. unfold default_lookups. fold c2. rewrite Hlk2.
  unfold ares_strdup. apply wp_bind, wp_bind. unfold wp at 1, c_malloc. rewrite Hor. cbn [negb]. apply wp_ret, wp_ret.
  rewrite bool_decide_false by done. apply wp_bind. unfold default_error. change (k_servers (set_k_lookups None c2)) with (k_servers c2).
  change (k_domains (set_k_lookups None c2)) with (k_domains c2). rewrite Hsv, Hdm. cbn [fmap list_fmap].
  apply wp_bind, wp_free_array; [cbn [live]; lia|]. apply wp_bind, wp_free; [cbn [live]; lia|].
  apply wp_bind, wp_free; [cbn [live]; lia|]. apply wp_bind, wp_ret, wp_ret, wp_bind, wp_ret, wp_ret.
  cbn [k_servers set_k_lookups set_k_domains set_k_servers free_array]. apply wp_bind, wp_ret. unfold free_conf.
  cbn [k_domains k_sortlist k_lookups set_k_lookups set_k_domains set_k_servers]. rewrite Hsl.
  apply wp_bind, wp_bind, wp_ret, wp_bind, wp_free_array; [cbn [live]; lia|]. apply wp_bind, wp_ret, wp_free; [cbn [live]; lia|].
  apply wp_ret. split; [done|]. cbn [live blocks_opt]. lia.
Qed.

(** The servers and two domains are given, the order of lookups is not. *)
Definition ex_two_domains : conf :=
  set_k_domains 2 [Some [97]; Some [98]] (set_k_servers 1 [v4_server loopback] unset_conf).

Lemma init_by_defaults_leaks_witness :
  exists st h', ('(st, c') ← init_by_defaults 1 ex_sys ex_two_domains; free_array (k_servers c') ;; free_conf c' ;; mret st)
    (Heap 5 [false]) = Ret st h' /\ st = ARES_ENOMEM /\ live h' = 1.
Proof.
  apply wp_outcome.
  apply (init_by_defaults_leaks 1 ex_sys ex_two_domains (Heap 5 [false]) [[97]; [98]] []);
    [|discriminate|reflexivity|discriminate|reflexivity|reflexivity|reflexivity|vm_compute; discriminate].
  split; [discriminate|cbn; lia|apply (domains_ok_full [[97]; [98]])|reflexivity].
Defined.

(** "options retrans:2000000000" *)
Definition ex_retrans : list Z := [111; 112; 116; 105; 111; 110; 115; 32; 114; 101; 116; 114; 97; 110; 115; 58; 50; 48; 48; 48; 48; 48; 48; 48; 48; 48; 10].

Definition ex_retrans_sys : system :=
  System None None (Fopened (Stream ex_retrans false)) (FopenError ENOENT) (FopenError ENOENT) (FopenError ENOENT)
    (fun _ => HostName [104]).

(** A time-out read from a file is not bounded: with a line
    "options retrans:2000000000" in resolv.conf [ares_init_options] makes a
    channel, and the first query that is sent on it multiplies the time-out beyond
    the range of an [int]. *)
Theorem ares_init_timeout_overflow :
  match ares_init_options ex_pton4 ex_pton4 ex_pton6 1 ex_retrans_sys ex_random ex_options 0 (Heap 0 []) with
  | Ret (inr ch) h => k_timeout (ch_conf ch) = 2000000000 /\
      undefined_behaviour (run [OpSend ex_query 1 (TV 100 5)] (engine_channel (ch_conf ch) (TV 100 0) h ex_ints [])) = true
  | _ => False
  end.
Proof. vm_compute. split; reflexivity. Qed.
