(* ===== verification/Servers.v ===== *)
(** * The servers of a channel (c-ares: ares_options.c)

    [ares_get_servers] and [ares_get_servers_ports] copy the servers of a channel
    into a list of nodes, [ares_set_servers] and [ares_set_servers_ports] replace
    them by those of a list, [ares_set_servers_csv] and
    [ares_set_servers_ports_csv] by those a text names. The text is scanned in
    place: pointers are indices into the buffer, which the code also writes to.

    The conversions of a text to an address, [ares_inet_pton] with the two
    families, are parameters, as in Config.v. *)

From S2P Require Import Prelude DnsWire ParseList ParseHost InetAddr ReadLine Search AddrSort HostsFile.
From S2P Require Import Channel Resolver QueryId Config ConfigInv.
Open Scope Z_scope.

(** ** Nodes *)

(** The numbers of the address families. *)
Definition family_num (f : option family) : Z :=
  match f with Some AF_INET => 2 | Some AF_INET6 => 10 | None => 0 end.

Definition num_family (z : Z) : option family :=
  if z =? 2 then Some AF_INET else if z =? 10 then Some AF_INET6 else None.

(** The bytes that [memcpy] moves for a family. *)
Definition family_bytes (f : Z) (bs : list Z) : list Z := if f =? 2 then take 4 bs else take 16 bs.

Definition server_node (a : ares_addr) (_ : ares_addr_node) : ares_addr_node :=
  let f := family_num (a_family a) in AddrNode f (family_bytes f (a_bytes a)).

Definition server_port_node (a : ares_addr) (_ : ares_addr_port_node) : ares_addr_port_node :=
  let f := family_num (a_family a) in
  AddrPortNode f (family_bytes f (a_bytes a)) (htons (a_udp_port a)) (htons (a_tcp_port a)).

Definition node_server (n : ares_addr_node) : ares_addr :=
  AresAddr (num_family (an_family n)) (family_bytes (an_family n) (an_addr n)) 0 0.

Definition port_node_server (n : ares_addr_port_node) : ares_addr :=
  AresAddr (num_family (apn_family n)) (family_bytes (apn_family n) (apn_addr n))
    (htons (apn_udp_port n)) (htons (apn_tcp_port n)).

(** ** Reading the servers *)

(** The loop over the servers: a node is allocated, linked and filled. *)
Fixpoint get_nodes {A} `{ares_data A} (fill : ares_addr -> A -> A) (n : nat) (servers : list ares_addr) (acc : list A)
    : M (status * list A) :=
  match n with
  | O => mret (ARES_SUCCESS, acc)
  | S n' =>
      r ← ares_malloc_data;
      match r, servers with
      | None, _ => mret (ARES_ENOMEM, acc)
      | Some _, [] => undefined
      | Some node, a :: servers' => get_nodes fill n' servers' (acc ++ [fill a node])
      end
  end.

Definition get_servers {A} `{ares_data A} (fill : ares_addr -> A -> A) (c : conf) : M (status * list A) :=
  '(st, l) ← get_nodes fill (Z.to_nat (k_nservers c)) (k_servers c) [];
  if bool_decide (st = ARES_SUCCESS) then mret (st, l) else ares_free_data l ;; mret (st, []).

Definition ares_get_servers : conf -> M (status * list ares_addr_node) := get_servers server_node.
Definition ares_get_servers_ports : conf -> M (status * list ares_addr_port_node) := get_servers server_port_node.

(** ** Replacing the servers *)

(** [ares__destroy_servers_state] on a channel whose sockets are closed. *)
Definition destroy_servers (c : conf) : M conf :=
  free_array (k_servers c) ;; mret (set_k_servers (-1) [] c).

(** What follows it in [ares_set_servers] and [ares_set_servers_ports]. *)
Definition new_servers (servers : list ares_addr) (c : conf) : M (status * conf) :=
  match servers with
  | [] => mret (ARES_SUCCESS, c)
  | _ =>
      ok ← c_malloc;
      mret (if (ok : bool) then (ARES_SUCCESS, set_k_servers (Zlen servers) servers c) else (ARES_ENOMEM, c))
  end.

Definition ares_set_servers (servers : list ares_addr_node) (c : conf) : M (status * conf) :=
  c ← destroy_servers c; new_servers (node_server <$> servers) c.

Definition ares_set_servers_ports (servers : list ares_addr_port_node) (c : conf) : M (status * conf) :=
  c ← destroy_servers c; new_servers (port_node_server <$> servers) c.

(** The same on a channel of the engine, with its sockets and its queries. *)
Definition channel_set_servers (servers : list ares_addr) : E status :=
  old ← gets Channel.servers;
  ares__destroy_servers_state ;;
  lift (free_array old) ;;
  modify (set_servers []) ;;
  match servers with
  | [] => mret ARES_SUCCESS
  | _ =>
      ok ← lift c_malloc;
      if negb ok then mret ARES_ENOMEM
      else
        g ← gets tcp_connection_generation;
        modify (fun c => set_tcp_connection_generation (g + Zlen servers)
          (set_servers (ares__init_servers_state g servers) c)) ;;
        mret ARES_SUCCESS
  end.

(** ** A text of servers *)

Definition ch_comma : Z := 44.
Definition ch_colon : Z := 58.
Definition ch_open : Z := 91.
Definition ch_close : Z := 93.

(** The C string at [i]. *)
Definition c_string (buf : list Z) (i : Z) : list Z :=
  (span (fun c => c =? 0) (drop (Z.to_nat i) buf)).1.

(** [while (pp > start_host) ...]: from the end of an entry back to the colon
    before the port; [pp = p = ptr] when there is none. *)
Fixpoint port_loop (fuel : nat) (buf : list Z) (ptr start_host cc pp p : Z) : M (Z * Z) :=
  if pp <=? start_host then mret (pp, p)
  else
    match fuel with
    | O => no_fuel
    | S fuel' =>
        c ← get_byte buf pp;
        d ← get_byte buf p;
        if (c =? ch_close) && (d =? ch_colon) then mret (pp, p)
        else if (c =? ch_colon) && (cc =? 1) then mret (pp, p)
        else if negb (is_digit c || (c =? ch_colon)) then mret (ptr, ptr)
        else port_loop fuel' buf ptr start_host cc (pp - 1) (p - 1)
    end.

(** The port of the entry that ends at [ptr], and the buffer with the host
    terminated. *)
Definition entry_port (buf : list Z) (ptr start_host cc : Z) : M (Z * list Z) :=
  if 0 <? cc then
    '(pp, p) ← port_loop (length buf) buf ptr start_host cc (ptr - 1) ptr;
    if negb (pp =? start_host) && (pp + 1 <? ptr) then
      c ← get_byte buf pp;
      let p := if c =? ch_close then p + 1 else p in
      mret (to_int32 (strtol (c_string buf p)), <[Z.to_nat pp := 0]> buf)
    else mret (0, buf)
  else mret (0, buf).

Section csv.
Variables (inet_pton4 inet_pton6 : list Z -> option (list Z)).

(** [ares_inet_pton] with the one family, then with the other. *)
Definition resolve_host (host : list Z) : option (Z * list Z) :=
  match inet_pton4 host with
  | Some a => Some (2, a)
  | None => match inet_pton6 host with Some a => Some (10, a) | None => None end
  end.

(** [for (ptr = csv; *ptr; ptr++)] *)
Fixpoint csv_loop (fuel : nat) (use_port : bool) (buf : list Z) (start_host ptr cc : Z)
    (servers : list ares_addr_port_node) : M (status * list ares_addr_port_node) :=
  match fuel with
  | O => no_fuel
  | S fuel' =>
      c ← get_byte buf ptr;
      if c =? 0 then mret (ARES_SUCCESS, servers)
      else if c =? ch_colon then csv_loop fuel' use_port buf start_host (ptr + 1) (cc + 1) servers
      else if c =? ch_open then csv_loop fuel' use_port buf (ptr + 1) (ptr + 1) cc servers
      else if c =? ch_comma then
        let buf := <[Z.to_nat ptr := 0]> buf in
        '(port, buf) ← entry_port buf ptr start_host cc;
        match resolve_host (c_string buf start_host) with
        | None => mret (ARES_EBADSTR, servers)
        | Some (family, addr) =>
            ok ← c_malloc;
            if negb ok then mret (ARES_ENOMEM, servers)
            else
              let port := if use_port then port else 0 in
              csv_loop fuel' use_port buf (ptr + 1) (ptr + 1) 0
                (servers ++ [AddrPortNode family (family_bytes family addr) port port])
        end
      else csv_loop fuel' use_port buf start_host (ptr + 1) cc servers
  end.

(** [while (servers) ...] *)
Fixpoint free_nodes {A} (l : list A) : M unit :=
  match l with [] => mret () | _ :: l' => c_free ;; free_nodes l' end.

(** The buffer: the text, a comma unless it ends in one, and a null byte; one
    byte is left over when no comma is added. *)
Definition csv_buffer (csv : list Z) : list Z :=
  match last csv with
  | Some c => if c =? ch_comma then csv ++ [0; 0] else csv ++ [ch_comma; 0]
  | None => csv
  end.

Definition set_servers_csv (csv : list Z) (use_port : bool) (c : conf) : M (status * conf) :=
  c ← destroy_servers c;
  if Zlen csv =? 0 then mret (ARES_SUCCESS, c)
  else
    ok ← c_malloc;
    if negb ok then mret (ARES_ENOMEM, c)
    else
      let buf := csv_buffer csv in
      '(rv, servers) ← csv_loop (S (length buf)) use_port buf 0 0 0 [];
      '(rv, c) ← (if bool_decide (rv = ARES_SUCCESS) then ares_set_servers_ports servers c else mret (rv, c));
      c_free ;; free_nodes servers ;; mret (rv, c).

Definition ares_set_servers_csv (csv : list Z) : conf -> M (status * conf) := set_servers_csv csv false.
Definition ares_set_servers_ports_csv (csv : list Z) : conf -> M (status * conf) := set_servers_csv csv true.
End csv.

(** ** What a text means *)

(** The entries between the commas; a comma at the end adds none. *)
Fixpoint entries (csv : list Z) : list (list Z) :=
  match csv with
  | [] => []
  | c :: csv' =>
      if c =? ch_comma then [] :: entries csv'
      else match entries csv' with [] => [[c]] | e :: es => (c :: e) :: es end
  end.

(** The host starts after the last opening bracket. *)
Fixpoint last_open (host e : list Z) : list Z :=
  match e with [] => host | c :: e' => last_open (if c =? ch_open then e' else host) e' end.

Fixpoint colons (e : list Z) : Z :=
  match e with [] => 0 | c :: e' => (if c =? ch_colon then 1 else 0) + colons e' end.

(** From the end of a host: the host before a port, reversed, and the port. *)
Fixpoint find_port (cc : Z) (r after : list Z) : option (list Z * list Z) :=
  match r with
  | [] => None
  | c :: r' =>
      if (c =? ch_close) && bool_decide (head after = Some ch_colon) then Some (r', tail after)
      else if (c =? ch_colon) && (cc =? 1) then match after with [] => None | _ => Some (r', after) end
      else if is_digit c || (c =? ch_colon) then find_port cc r' (c :: after)
      else None
  end.

Definition split_host (cc : Z) (host : list Z) : list Z * Z :=
  match (if 0 <? cc then host else []) with
  | [] => (host, 0)
  | a :: t =>
      match find_port cc (rev t) [] with
      | Some (r, port) => (a :: rev r, to_int32 (strtol port))
      | None => (host, 0)
      end
  end.

(** The host and the port of an entry. *)
Definition split_entry (e : list Z) : list Z * Z := split_host (colons e) (last_open e e).

Section csv_spec.
Context (inet_pton4 inet_pton6 : list Z -> option (list Z)).

Definition entry_node (use_port : bool) (e : list Z) : option ares_addr_port_node :=
  let '(host, port) := split_entry e in
  match resolve_host inet_pton4 inet_pton6 host with
  | Some (f, a) =>
      let port := if use_port then port else 0 in Some (AddrPortNode f (family_bytes f a) port port)
  | None => None
  end.

Fixpoint csv_nodes (use_port : bool) (es : list (list Z)) (acc : list ares_addr_port_node)
    : status * list ares_addr_port_node :=
  match es with
  | [] => (ARES_SUCCESS, acc)
  | e :: es' =>
      match entry_node use_port e with
      | None => (ARES_EBADSTR, acc)
      | Some n => csv_nodes use_port es' (acc ++ [n])
      end
  end.
End csv_spec.

(** ** The scan follows it *)

Definition text_ok (s : list Z) : Prop := Forall (fun c => 0 < c < 256) s.

Definition plain (s : list Z) : Prop := text_ok s /\ ch_comma ∉ s.

Lemma byte_at_mid (pre : list Z) c post i :
  i = Zlen pre -> 0 <= c < 256 -> byte_at (pre ++ c :: post) i = Some c.
Proof.
  intros -> Hc. unfold byte_at, Zlen. destruct (Z.leb_spec 0 (Z.of_nat (length pre))); [|lia].
  rewrite Nat2Z.id, list_lookup_middle by done. cbn. by rewrite Z.mod_small.
Qed.

Lemma insert_app (pre : list Z) c d post i :
  i = Zlen pre -> <[Z.to_nat i := d]> (pre ++ c :: post) = pre ++ d :: post.
Proof. intros ->. unfold Zlen. rewrite Nat2Z.id. by rewrite <- (Nat.add_0_r (length pre)), insert_app_r. Qed.

Lemma c_string_app (pre s post : list Z) i :
  i = Zlen pre -> text_ok s -> c_string (pre ++ s ++ 0 :: post) i = s.
Proof.
  intros -> Hs. unfold c_string, Zlen. rewrite Nat2Z.id, drop_app_length.
  induction Hs as [|c s Hc Hs IH]; cbn [span app]; [done|]. destruct (Z.eqb_spec c 0); [lia|].
  destruct (span _ (s ++ _)). cbn in *. by rewrite IH.
Qed.

(** The scan for the port, on the host [a :: rev r ++ after] that ends at [ptr]. *)
Lemma port_loop_find fuel cc pre a r after post h :
  text_ok (a :: rev r ++ after) -> (length r <= fuel)%nat ->
  let buf := pre ++ a :: rev r ++ after ++ 0 :: post in
  let ptr := Zlen pre + 1 + Zlen r + Zlen after in
  wp (port_loop fuel buf ptr (Zlen pre) cc (Zlen pre + Zlen r) (Zlen pre + Zlen r + 1)) h (fun '(pp, p) h' => h' = h /\
    match find_port cc r after with
    | None => pp = Zlen pre \/ ptr <= pp + 1
    | Some (r', port) => exists c q, rev r ++ after = rev r' ++ c :: q /\ pp = Zlen pre + 1 + Zlen r' /\ p = pp + 1 /\ q <> [] /\
        (if c =? ch_close then exists d, q = d :: port else q = port)
    end).
Proof.
  cbv zeta. intros Ht Hf. revert fuel after Ht Hf. induction r as [|c r IH]; intros fuel after Ht Hf.
  - change (Zlen (@nil Z)) with 0. rewrite !Z.add_0_r.
    destruct fuel; cbn [port_loop]; rewrite (proj2 (Z.leb_le (Zlen pre) (Zlen pre))) by lia; apply wp_ret; cbn; auto.
  - pose proof (Zlen_nonneg r). pose proof (Zlen_nonneg after). rewrite Zlen_cons. cbn [rev] in *. rewrite <- !app_assoc in *. cbn [app] in *.
    assert (Hca : 0 < c < 256 /\ text_ok after).
    { pose proof Ht as Hx. apply Forall_cons in Hx as [_ Hx]. apply Forall_app in Hx as [_ Hx]. by apply Forall_cons in Hx as [? ?]. }
    destruct Hca as (Hc & Ha). destruct fuel as [|fuel]; [cbn in Hf; lia|]. cbn [port_loop find_port].
    destruct (Z.leb_spec (Zlen pre + (1 + Zlen r)) (Zlen pre)); [lia|].
    set (buf := pre ++ a :: rev r ++ c :: after ++ 0 :: post).
    assert (Hb : byte_at buf (Zlen pre + (1 + Zlen r)) = Some c).
    { unfold buf. change (pre ++ a :: rev r ++ c :: after ++ 0 :: post) with (pre ++ (a :: rev r) ++ c :: after ++ 0 :: post).
      rewrite app_assoc. apply byte_at_mid; [|lia]. rewrite Zlen_app, Zlen_cons. unfold Zlen. rewrite length_rev. lia. }
    assert (Hd : byte_at buf (Zlen pre + (1 + Zlen r) + 1) = Some (default 0 (head after))).
    { assert (E : exists d t, after ++ 0 :: post = d :: t /\ d = default 0 (head after) /\ 0 <= d < 256).
      { destruct after as [|d t]; cbn; [by exists 0, post|]. exists d, (t ++ 0 :: post). split; [done|split; [done|]].
        apply Forall_cons in Ha as [? _]. lia. }
      destruct E as (d & t & E & <- & Hr).
      unfold buf. rewrite E. replace (pre ++ a :: rev r ++ c :: d :: t) with ((pre ++ a :: rev r ++ [c]) ++ d :: t)
        by (by rewrite <- app_assoc; cbn; rewrite <- app_assoc).
      apply byte_at_mid; [|done]. rewrite Zlen_app, Zlen_cons, Zlen_app. unfold Zlen. rewrite length_rev. cbn. lia. }
    apply wp_bind, (wp_get_byte_Some _ _ _ _ _ Hb), wp_bind, (wp_get_byte_Some _ _ _ _ _ Hd).
    assert (Hh : (default 0 (head after) =? ch_colon) = bool_decide (head after = Some ch_colon)).
    { destruct after as [|d t]; [done|]. cbn. destruct (Z.eqb_spec d ch_colon) as [->|Hne].
      - by rewrite bool_decide_true.
      - rewrite bool_decide_false; [done|congruence]. }
    assert (Hgo : wp (port_loop fuel buf (Zlen pre + 1 + (1 + Zlen r) + Zlen after) (Zlen pre) cc (Zlen pre + (1 + Zlen r) - 1)
      (Zlen pre + (1 + Zlen r) + 1 - 1)) h (fun '(pp, p) h' => h' = h /\
      match find_port cc r (c :: after) with
      | None => pp = Zlen pre \/ Zlen pre + 1 + (1 + Zlen r) + Zlen after <= pp + 1
      | Some (r', port) => exists c0 q, rev r ++ c :: after = rev r' ++ c0 :: q /\ pp = Zlen pre + 1 + Zlen r' /\ p = pp + 1 /\ q <> [] /\
          (if c0 =? ch_close then exists d, q = d :: port else q = port)
      end)).
    { specialize (IH fuel (c :: after) Ht ltac:(cbn in Hf; lia)). rewrite Zlen_cons in IH.
      replace (Zlen pre + (1 + Zlen r) - 1) with (Zlen pre + Zlen r) by lia.
      replace (Zlen pre + (1 + Zlen r) + 1 - 1) with (Zlen pre + Zlen r + 1) by lia.
      replace (Zlen pre + 1 + (1 + Zlen r) + Zlen after) with (Zlen pre + 1 + Zlen r + (1 + Zlen after)) by lia. exact IH. }
    rewrite Hh. destruct (Z.eqb_spec c ch_close) as [Ec|Ec]; [destruct (bool_decide_reflect (head after = Some ch_colon)) as [Ed|Ed]|];
      cbn [andb].
    + apply wp_ret. split; [done|]. destruct after as [|d t]; [done|]. exists c, (d :: t). rewrite Ec. cbn.
      split_and!; [done|lia|lia|done|by exists d].
    + destruct (Z.eqb_spec c ch_colon); [subst; discriminate|]. rewrite Ec. cbn [is_digit ch_close Z.leb Z.compare andb orb negb Z.eqb].
      apply wp_ret. split; [done|]. right. lia.
    + destruct (Z.eqb_spec c ch_colon) as [El|El]; [destruct (Z.eqb_spec cc 1)|]; cbn [andb].
      * apply wp_ret. split; [done|]. destruct after as [|d t]; [right; unfold Zlen; cbn; lia|]. exists c, (d :: t).
        destruct (Z.eqb_spec c ch_close); [done|]. split_and!; [done|lia|lia|done|done].
      * rewrite orb_true_r. cbn [negb]. exact Hgo.
      * destruct (is_digit c); cbn [orb negb]; [exact Hgo|]. apply wp_ret. split; [done|]. right. lia.
Qed.

Lemma text_ok_app s1 s2 : text_ok (s1 ++ s2) <-> text_ok s1 /\ text_ok s2.
Proof. apply Forall_app. Qed.

(** The port of an entry: the host is left as a C string of its own. *)
Lemma wp_entry_port pre host post cc h :
  text_ok host ->
  wp (entry_port (pre ++ host ++ 0 :: post) (Zlen pre + Zlen host) (Zlen pre) cc) h (fun '(port, buf) h' => h' = h /\
    exists host', (c_string buf (Zlen pre), port) = split_host cc host /\ buf = pre ++ host' ++ 0 :: post /\ length host' = length host).
Proof.
  intros Ht. unfold entry_port, split_host. destruct (0 <? cc) eqn:Ecc.
  2: { apply wp_ret. split; [done|]. exists host. rewrite c_string_app by done. by split_and!. }
  destruct host as [|a t].
  { assert (Hl : forall f, port_loop f (pre ++ 0 :: post) (Zlen pre) (Zlen pre) cc (Zlen pre - 1) (Zlen pre) = mret (Zlen pre - 1, Zlen pre)).
    { intros [|f]; cbn [port_loop]; by rewrite (proj2 (Z.leb_le (Zlen pre - 1) (Zlen pre))) by lia. }
    change (Zlen (@nil Z)) with 0. rewrite Z.add_0_r. cbn [app]. apply wp_bind. rewrite Hl. apply wp_ret. cbn.
    destruct (Z.ltb_spec (Zlen pre - 1 + 1) (Zlen pre)); [lia|]. rewrite andb_false_r. apply wp_ret. split; [done|]. exists [].
    rewrite (c_string_app pre [] post) by (done || constructor). by split_and!. }
  apply wp_bind. rewrite Zlen_cons.
  pose proof (port_loop_find (length (pre ++ (a :: t) ++ 0 :: post)) cc pre a (rev t) [] post h) as Hp.
  rewrite rev_involutive, app_nil_r in Hp. change (Zlen (@nil Z)) with 0 in Hp.
  assert (Hz : Zlen (rev t) = Zlen t) by (unfold Zlen; by rewrite length_rev). rewrite Hz in Hp.
  replace (Zlen pre + (1 + Zlen t) - 1) with (Zlen pre + Zlen t) by lia.
  replace (Zlen pre + (1 + Zlen t)) with (Zlen pre + Zlen t + 1) by lia.
  replace (Zlen pre + 1 + Zlen t + 0) with (Zlen pre + Zlen t + 1) in Hp by lia.
  cbn [app] in *. eapply wp_mono; [apply Hp; [done|rewrite length_rev, length_app; cbn; rewrite length_app; lia]|].
  intros [pp p] h' [-> H]. destruct (find_port cc (rev t) []) as [[r port]|].
  - destruct H as (c & q & Et & Epp & Ep & Hq & Hport). subst pp p.
    assert (Hlen : Zlen t = Zlen r + 1 + Zlen q).
    { rewrite Et, Zlen_app, Zlen_cons. unfold Zlen. rewrite length_rev. lia. }
    assert (0 < Zlen q) by (destruct q; [done|rewrite Zlen_cons; pose proof (Zlen_nonneg q); lia]). pose proof (Zlen_nonneg r).
    destruct (Z.eqb_spec (Zlen pre + 1 + Zlen r) (Zlen pre)); [lia|].
    destruct (Z.ltb_spec (Zlen pre + 1 + Zlen r + 1) (Zlen pre + Zlen t + 1)); [|lia]. cbn [andb negb]. subst t.
    apply Forall_cons in Ht as [Hta Htt]. apply text_ok_app in Htt as [Htr Htq]. apply Forall_cons in Htq as [Htc Htq].
    replace (pre ++ a :: (rev r ++ c :: q) ++ 0 :: post) with ((pre ++ a :: rev r) ++ c :: q ++ 0 :: post)
      by (rewrite <- !app_assoc; cbn; by rewrite <- ?app_assoc).
    assert (Hpos : Zlen pre + 1 + Zlen r = Zlen (pre ++ a :: rev r)) by (rewrite Zlen_app, Zlen_cons; unfold Zlen; rewrite length_rev; lia).
    rewrite Hpos. apply wp_bind. eapply wp_get_byte_Some; [apply byte_at_mid; [done|lia]|]. apply wp_ret. split; [done|].
    exists (a :: rev r ++ 0 :: q). rewrite insert_app by done. split_and!.
    + f_equal.
      * replace ((pre ++ a :: rev r) ++ 0 :: q ++ 0 :: post) with (pre ++ (a :: rev r) ++ 0 :: q ++ 0 :: post) by (by rewrite <- app_assoc).
        apply c_string_app; [done|]. by constructor.
      * do 2 f_equal. destruct (c =? ch_close).
        -- destruct Hport as [d ->]. replace ((pre ++ a :: rev r) ++ c :: (d :: port) ++ 0 :: post)
             with ((pre ++ (a :: rev r) ++ [c; d]) ++ port ++ 0 :: post) by (by rewrite <- !app_assoc).
           apply c_string_app; [rewrite !Zlen_app; change (Zlen [c; d]) with 2; lia|]. by apply Forall_cons in Htq as [_ ?].
        -- subst q. replace ((pre ++ a :: rev r) ++ c :: port ++ 0 :: post)
             with ((pre ++ (a :: rev r) ++ [c]) ++ port ++ 0 :: post) by (by rewrite <- !app_assoc).
           apply c_string_app; [rewrite !Zlen_app; change (Zlen [c]) with 1; lia|done].
    + rewrite <- !app_assoc. cbn. by rewrite <- app_assoc.
    + cbn. by rewrite !length_app.
  - assert (E : negb (pp =? Zlen pre) && (pp + 1 <? Zlen pre + Zlen t + 1) = false).
    { destruct H as [->|H]; [by rewrite Z.eqb_refl|]. destruct (Z.ltb_spec (pp + 1) (Zlen pre + Zlen t + 1)); [lia|]. by rewrite andb_false_r. }
    rewrite E. apply wp_ret. split; [done|]. exists (a :: t). change (pre ++ a :: t ++ 0 :: post) with (pre ++ (a :: t) ++ 0 :: post).
    rewrite c_string_app by done. by split_and!.
Qed.

Lemma last_open_text host e : text_ok host -> text_ok e -> text_ok (last_open host e).
Proof.
  revert host. induction e as [|c e IH]; intros host Hh He; cbn [last_open]; [done|].
  apply Forall_cons in He as [_ He]. apply IH; [|done]. by destruct (c =? ch_open).
Qed.

(** The buffer holds the entries. *)
Lemma entries_plain csv : text_ok csv -> Forall plain (entries csv).
Proof.
  induction 1 as [|c csv Hc Hcsv IH]; cbn [entries]; [constructor|].
  assert (Hnil : plain []) by (split; [constructor|apply not_elem_of_nil]). destruct (Z.eqb_spec c ch_comma); [by constructor|].
  assert (Hp : forall e, plain e -> plain (c :: e)) by (intros e [? ?]; split; [by constructor|by apply not_elem_of_cons]).
  destruct (entries csv) as [|e es]; [by apply Forall_singleton, Hp|]. apply Forall_cons in IH as [? ?]. constructor; [by apply Hp|done].
Qed.

Lemma csv_buffer_entries csv :
  csv <> [] -> exists post, csv_buffer csv = concat ((fun e => e ++ [ch_comma]) <$> entries csv) ++ 0 :: post.
Proof.
  intros Hne. enough (H : concat ((fun e => e ++ [ch_comma]) <$> entries csv) =
    match last csv with Some c => if c =? ch_comma then csv else csv ++ [ch_comma] | None => csv end).
  { unfold csv_buffer. rewrite H. destruct (last csv) as [c|] eqn:E; [|by apply last_None in E].
    destruct (c =? ch_comma); [by exists [0]|]. exists []. by rewrite <- app_assoc. }
  clear Hne. induction csv as [|c csv IH]; cbn [entries]; [done|].
  rewrite last_cons. destruct (Z.eqb_spec c ch_comma) as [->|Hc].
  - cbn [fmap list_fmap concat app]. rewrite IH. destruct (last csv) as [d|] eqn:E; [by destruct (d =? ch_comma)|].
    apply last_None in E as ->. done.
  - destruct (entries csv) as [|e es] eqn:Ee.
    + destruct csv as [|d csv]; [|cbn in Ee; destruct (d =? ch_comma), (entries csv); discriminate].
      cbn. by destruct (Z.eqb_spec c ch_comma).
    + cbn [fmap list_fmap concat app] in *. rewrite IH. destruct (last csv) as [d|] eqn:E; [by destruct (d =? ch_comma)|].
      apply last_None in E as ->. destruct e; discriminate.
Qed.

Section scan.
Context (inet_pton4 inet_pton6 : list Z -> option (list Z)).
Local Abbreviation csv_loop := (csv_loop inet_pton4 inet_pton6).
Local Abbreviation csv_nodes := (csv_nodes inet_pton4 inet_pton6).

Lemma plain_cons c s : plain (c :: s) -> 0 < c < 256 /\ c <> ch_comma /\ plain s.
Proof.
  intros [H1 H2]. apply Forall_cons in H1 as [? ?]. apply not_elem_of_cons in H2 as [? ?]. done.
Qed.

(** Up to the comma the loop moves the start of the host and counts colons. *)
Lemma csv_skip fuel up e pre host post cc acc h (Q : status * list ares_addr_port_node -> heap -> Prop) :
  plain e ->
  (forall pre' host', pre ++ host ++ e = pre' ++ host' -> host' = last_open (host ++ e) e ->
    wp (csv_loop fuel up (pre' ++ host' ++ ch_comma :: post) (Zlen pre') (Zlen pre' + Zlen host') (cc + colons e) acc) h Q) ->
  wp (csv_loop (length e + fuel) up (pre ++ host ++ e ++ ch_comma :: post) (Zlen pre) (Zlen pre + Zlen host) cc acc) h Q.
Proof.
  revert pre host cc. induction e as [|c e IH]; intros pre host cc He HQ.
  { cbn in *. specialize (HQ pre host). rewrite !app_nil_r, Z.add_0_r in HQ. by apply HQ. }
  apply plain_cons in He as (Hc & Hcc & He). cbn [length Nat.add Servers.csv_loop].
  apply wp_bind. eapply (wp_get_byte_Some _ _ c).
  { change ((c :: e) ++ ch_comma :: post) with (c :: e ++ ch_comma :: post). rewrite app_assoc. apply byte_at_mid; [by rewrite Zlen_app|lia]. }
  destruct (Z.eqb_spec c 0); [lia|]. cbn [last_open colons] in HQ.
  assert (Hmove : forall pre1 host1 cc1, pre1 ++ host1 = pre ++ host ++ [c] ->
    cc1 = cc + (if c =? ch_colon then 1 else 0) -> host1 = (if c =? ch_open then [] else host ++ [c]) ->
    wp (csv_loop (length e + fuel) up (pre ++ host ++ (c :: e) ++ ch_comma :: post) (Zlen pre1) (Zlen pre + Zlen host + 1) cc1 acc) h Q).
  { intros pre1 host1 cc1 E -> E1.
    replace (pre ++ host ++ (c :: e) ++ ch_comma :: post) with (pre1 ++ host1 ++ e ++ ch_comma :: post)
      by (rewrite app_assoc, E, <- !app_assoc; done).
    replace (Zlen pre + Zlen host + 1) with (Zlen pre1 + Zlen host1).
    2: { rewrite <- Zlen_app, E, !Zlen_app. change (Zlen [c]) with 1. lia. }
    apply IH; [done|]. intros pre' host' Eh El. rewrite <- Z.add_assoc. apply HQ.
    - by rewrite <- Eh, (app_assoc pre1), E, <- !app_assoc.
    - rewrite El. rewrite E1. destruct (c =? ch_open); [done|]. by rewrite <- app_assoc. }
  destruct (Z.eqb_spec c ch_colon) as [E1|E1]; [|destruct (Z.eqb_spec c ch_open) as [E2|E2]; [|destruct (Z.eqb_spec c ch_comma); [done|]]].
  - apply (Hmove pre (host ++ [c])); [done|lia|]. destruct (Z.eqb_spec c ch_open); [subst; discriminate|done].
  - replace (Zlen pre + Zlen host + 1) with (Zlen (pre ++ host ++ [c])) at 1.
    2: { rewrite !Zlen_app. change (Zlen [c]) with 1. lia. }
    apply (Hmove _ []); [by rewrite app_nil_r|lia|done].
  - apply (Hmove pre (host ++ [c])); [done|lia|done].
Qed.

(** At the comma the entry is turned into a server. *)
Lemma csv_comma fuel up pre host post cc acc h (Q : status * list ares_addr_port_node -> heap -> Prop) :
  text_ok host ->
  (match resolve_host inet_pton4 inet_pton6 (split_host cc host).1 with
   | None => Q (ARES_EBADSTR, acc) h
   | Some (f, a) =>
       let port := if up : bool then (split_host cc host).2 else 0 in
       (forall o, oracle h <> [] -> Q (ARES_ENOMEM, acc) (Heap (live h) o)) /\
       (forall o pre', (oracle h = [] -> o = []) ->
          wp (csv_loop fuel up (pre' ++ post) (Zlen pre') (Zlen pre') 0 (acc ++ [AddrPortNode f (family_bytes f a) port port]))
            (Heap (live h + 1) o) Q)
   end) ->
  wp (csv_loop (S fuel) up (pre ++ host ++ ch_comma :: post) (Zlen pre) (Zlen pre + Zlen host) cc acc) h Q.
Proof.
  intros Ht HQ. cbn [Servers.csv_loop]. apply wp_bind.
  eapply (wp_get_byte_Some _ _ ch_comma); [rewrite app_assoc; apply byte_at_mid; [by rewrite Zlen_app|done]|]. cbn [Z.eqb ch_comma ch_colon ch_open Pos.eqb].
  rewrite app_assoc, insert_app, <- app_assoc by (by rewrite Zlen_app). apply wp_bind. eapply wp_mono; [by apply wp_entry_port|].
  intros [port buf] h' (-> & host' & E & -> & Hlen). rewrite <- E in HQ. cbn [fst snd] in HQ.
  destruct (resolve_host _ _ _) as [[f a]|]; [|by apply wp_ret]. destruct HQ as [HF HT].
  apply wp_bind, wp_malloc; [|intros o Ho; apply wp_ret; by apply HF]. intros o Ho. cbn [negb].
  replace (Zlen pre + Zlen host + 1) with (Zlen (pre ++ host' ++ [0])).
  2: { rewrite !Zlen_app. change (Zlen [0]) with 1. unfold Zlen. lia. }
  replace (pre ++ host' ++ 0 :: post) with ((pre ++ host' ++ [0]) ++ post) by (by rewrite <- !app_assoc).
  by apply HT.
Qed.

(** The whole scan, on a buffer that holds entries with their commas. *)
Lemma wp_csv_loop es fuel up pre post acc h :
  Forall plain es -> (length (concat ((fun e => e ++ [ch_comma]) <$> es)) < fuel)%nat -> 0 <= live h ->
  wp (csv_loop fuel up (pre ++ concat ((fun e => e ++ [ch_comma]) <$> es) ++ 0 :: post) (Zlen pre) (Zlen pre) 0 acc) h
    (fun '(st, l) h' => live h' - Zlen l = live h - Zlen acc /\ Zlen acc <= Zlen l /\
      (st = ARES_ENOMEM /\ oracle h <> [] \/ (st, l) = csv_nodes up es acc) /\ (oracle h = [] -> oracle h' = [])).
Proof.
  intros Hes. revert fuel pre acc h. induction Hes as [|e es He Hes IH]; intros fuel pre acc h Hf Hl; cbn [fmap list_fmap concat app] in *.
  - destruct fuel as [|fuel]; [cbn in Hf; lia|]. cbn [Servers.csv_loop]. apply wp_bind.
    eapply (wp_get_byte_Some _ _ 0); [by apply byte_at_mid|]. apply wp_ret. split_and!; [lia|lia|by right|done].
  - rewrite !length_app in Hf. cbn in Hf. replace fuel with (length e + S (fuel - length e - 1))%nat by lia.
    rewrite <- !app_assoc. cbn [app]. rewrite <- (Z.add_0_r (Zlen pre)) at 2.
    change (e ++ ch_comma :: ?p) with ([] ++ e ++ ch_comma :: p).
    set (rest := concat _ ++ 0 :: post) in *.
    change (wp (csv_loop (length e + S (fuel - length e - 1)) up (pre ++ [] ++ e ++ ch_comma :: rest) (Zlen pre) (Zlen pre + Zlen (@nil Z)) 0 acc) h
      (fun '(st, l) h' => live h' - Zlen l = live h - Zlen acc /\ Zlen acc <= Zlen l /\
      (st = ARES_ENOMEM /\ oracle h <> [] \/ (st, l) = csv_nodes up (e :: es) acc) /\ (oracle h = [] -> oracle h' = []))).
    apply csv_skip; [done|]. cbn [app]. intros pre' host' Eh El. apply csv_comma.
    { rewrite El. apply last_open_text; apply He. }
    cbn [Servers.csv_nodes]. unfold entry_node, split_entry. cbn [app] in El. rewrite <- El, Z.add_0_l.
    destruct (split_host (colons e) host') as [host port]. cbn [fst snd].
    destruct (resolve_host _ _ host) as [[f a]|]; [|split_and!; [lia|lia|by right|done]]. split.
    + intros o Ho. split_and!; [cbn; lia|lia|by left|done].
    + intros o pre2 Ho. unfold rest. eapply wp_mono; [apply IH; [lia|cbn; lia]|]. intros [st l] h'. cbn [live oracle].
      rewrite Zlen_app. change (Zlen [_]) with 1. intros (H1 & H2 & H3 & H4). split_and!; [lia|lia| |auto].
      destruct H3 as [[? H3]|H3]; [left|by right]. split; [done|]. intros E. by apply H3, Ho.
Qed.
End scan.

(** ** Reading and replacing the servers *)

Lemma wp_destroy_servers c h :
  arr_blocks (k_servers c) <= live h ->
  wp (destroy_servers c) h (fun c' h' => c' = set_k_servers (-1) [] c /\ h' = Heap (live h - arr_blocks (k_servers c)) (oracle h)).
Proof. intros Hl. unfold destroy_servers. apply wp_bind, wp_free_array; [done|]. by apply wp_ret. Qed.

(** The outcome of replacing the servers of [c] by [l]: the channel has them all,
    or none when the allocation fails. *)
Definition servers_replaced (l : list ares_addr) (c : conf) (h : heap) (st : status) (c' : conf) (h' : heap) : Prop :=
  live h' - arr_blocks (k_servers c') = live h - arr_blocks (k_servers c) /\ (oracle h = [] -> st = ARES_SUCCESS /\ oracle h' = []) /\
  ((st = ARES_SUCCESS /\ l <> [] /\ c' = set_k_servers (Zlen l) l c) \/
   ((st = ARES_SUCCESS /\ l = [] \/ st = ARES_ENOMEM) /\ c' = set_k_servers (-1) [] c)).

Lemma wp_replace l c h :
  arr_blocks (k_servers c) <= live h ->
  wp (c ← destroy_servers c; new_servers l c) h (fun '(st, c') h' => servers_replaced l c h st c' h').
Proof.
  intros Hl. apply wp_bind. eapply wp_mono; [by apply wp_destroy_servers|]. intros c1 h1 [-> ->]. unfold new_servers.
  destruct l as [|a l].
  { apply wp_ret. split_and!; cbn; [lia|done|]. right. auto. }
  apply wp_bind, wp_malloc; intros o Ho; apply wp_ret; (split_and!; cbn in *; [lia| |]).
  - intros E. by rewrite Ho.
  - by left.
  - done.
  - right. auto.
Qed.

Lemma wp_get_nodes {A} `{ares_data A} (fill : ares_addr -> A -> A) n servers acc h :
  (forall a x, node_blocks (fill a x) = 1) -> (n <= length servers)%nat -> 0 <= live h ->
  wp (get_nodes fill n servers acc) h (fun '(st, l) h' =>
    live h' - list_blocks l = live h - list_blocks acc /\ list_blocks acc <= list_blocks l /\
    (oracle h = [] -> st = ARES_SUCCESS /\ oracle h' = []) /\
    (st = ARES_SUCCESS /\ l = acc ++ ((fun a => fill a data_zero) <$> take n servers) \/ st = ARES_ENOMEM)).
Proof.
  intros Hb. revert servers acc h. induction n as [|n IH]; intros servers acc h Hn Hl; cbn [get_nodes].
  { apply wp_ret. rewrite take_0. cbn. rewrite app_nil_r. split_and!; [lia|lia|done|by left]. }
  apply wp_bind, wp_malloc_data; intros o Ho.
  2: { apply wp_ret. cbn. split_and!; [lia|lia|done|by right]. }
  destruct servers as [|a servers]; [cbn in Hn; lia|]. eapply wp_mono; [apply IH; [cbn in Hn; lia|cbn; lia]|].
  intros [st l] h'. cbn [live oracle]. rewrite list_blocks_snoc, Hb. intros (H1 & H2 & H3 & H4). split_and!; [lia|lia|auto|].
  destruct H4 as [[-> ->]|H4]; [left|by right]. split; [done|]. by rewrite <- app_assoc.
Qed.

Lemma wp_get_servers {A} `{ares_data A} (fill : ares_addr -> A -> A) c h :
  (forall a x, node_blocks (fill a x) = 1) -> (Z.to_nat (k_nservers c) <= length (k_servers c))%nat -> 0 <= live h ->
  wp (get_servers fill c) h (fun '(st, l) h' => live h' = live h + list_blocks l /\
    (oracle h = [] -> st = ARES_SUCCESS /\ oracle h' = []) /\
    (st = ARES_SUCCESS /\ l = (fun a => fill a data_zero) <$> take (Z.to_nat (k_nservers c)) (k_servers c) \/ st = ARES_ENOMEM /\ l = [])).
Proof.
  intros Hb Hn Hl. unfold get_servers. apply wp_bind. eapply wp_mono; [by apply wp_get_nodes|]. intros [st l] h1 (H1 & H2 & H3 & H4).
  change (list_blocks (@nil A)) with 0 in H1, H2. pose proof (list_blocks_nonneg l). destruct H4 as [[-> ->]| ->].
  - rewrite bool_decide_true by done. apply wp_ret. cbn [app] in *. split_and!; [lia|done|by left].
  - rewrite bool_decide_false by done. apply wp_bind, wp_free_data; [lia|]. apply wp_ret. change (list_blocks (@nil A)) with 0. split_and!; [cbn; lia|done|by right].
Qed.

Lemma server_node_blocks a x : node_blocks (server_node a x) = 1.
Proof. done. Qed.

Lemma server_port_node_blocks a x : node_blocks (server_port_node a x) = 1.
Proof. done. Qed.

(** A server as the configuration makes them: a known family, an address of its
    size and two ports. *)
Definition server_ok (a : ares_addr) : Prop :=
  0 <= a_udp_port a < 65536 /\ 0 <= a_tcp_port a < 65536 /\
  match a_family a with
  | Some AF_INET => Zlen (a_bytes a) = 4
  | Some AF_INET6 => Zlen (a_bytes a) = 16
  | None => False
  end.

Lemma htons_involutive x : 0 <= x < 65536 -> htons (htons x) = x.
Proof.
  intros Hx. unfold htons, swap16, uwrap. change (2 ^ 16) with 65536. rewrite (Z.mod_small x) by lia.
  pose proof (Z.div_mod x 256). pose proof (Z.mod_pos_bound x 256).
  assert (0 <= x / 256 < 256) by (split; [apply Z.div_pos; lia|apply Z.div_lt_upper_bound; lia]).
  rewrite (Z.mod_small (_ + _)) by lia. rewrite (Z.mul_comm 256 (x mod 256)), Z.div_add, Z.mod_add, (Z.div_small (x / 256)), (Z.mod_small (x / 256)); lia.
Qed.

Lemma port_node_roundtrip a x : server_ok a -> port_node_server (server_port_node a x) = a.
Proof.
  intros (Hu & Ht & Hf). unfold port_node_server, server_port_node. cbn. rewrite !htons_involutive by done.
  destruct a as [[[]|] bs u t]; cbn in *; [..|done]; unfold family_bytes; cbn; by rewrite !take_ge by (unfold Zlen in *; rewrite ?length_take; lia).
Qed.

Lemma wp_free_nodes {A} (l : list A) h (Q : unit -> heap -> Prop) :
  Zlen l <= live h -> Q () (Heap (live h - Zlen l) (oracle h)) -> wp (free_nodes l) h Q.
Proof.
  revert h. induction l as [|x l IH]; intros h Hl HQ; cbn [free_nodes].
  - apply wp_ret. change (Zlen (@nil A)) with 0 in HQ. rewrite Z.sub_0_r in HQ. by destruct h.
  - rewrite Zlen_cons in *. pose proof (Zlen_nonneg l). apply wp_bind, wp_free; [lia|]. apply IH; cbn; [lia|].
    by replace (live h - 1 - Zlen l) with (live h - (1 + Zlen l)) by lia.
Qed.

(** ** What is proved *)

(** Reading the servers of a channel and giving them to another one
    makes the second channel have the same servers, with their ports; the nodes of
    the list are the only blocks that are left, and an allocation that fails is
    reported and leaves nothing behind. *)
Theorem servers_roundtrip c c2 h :
  conf_ok c -> Forall server_ok (take (Z.to_nat (k_nservers c)) (k_servers c)) -> 0 < k_nservers c ->
  arr_blocks (k_servers c2) <= live h ->
  wp ('(st, l) ← ares_get_servers_ports c;
      if bool_decide (st = ARES_SUCCESS)
      then '(st, c') ← ares_set_servers_ports l c2; ares_free_data l ;; mret (st, c')
      else mret (st, c2)) h
    (fun '(st, c') h' => live h' - arr_blocks (k_servers c') = live h - arr_blocks (k_servers c2) /\
      (oracle h = [] -> st = ARES_SUCCESS) /\
      (st = ARES_SUCCESS /\ c' = set_k_servers (k_nservers c) (take (Z.to_nat (k_nservers c)) (k_servers c)) c2 \/ st = ARES_ENOMEM)).
Proof.
  intros Hc Hok Hn Hl. pose proof (arr_blocks_range (k_servers c2)).
  apply wp_bind. eapply wp_mono; [apply wp_get_servers; [apply server_port_node_blocks|apply Hc|lia]|].
  intros [st l] h1 (H1 & H2 & H3). destruct H3 as [[-> El]|[-> ->]].
  2: { rewrite bool_decide_false by done. apply wp_ret. change (list_blocks _) with 0 in H1. split_and!; [lia|by intros E; destruct (H2 E)|by right]. }
  rewrite bool_decide_true by done. pose proof (list_blocks_nonneg l).
  assert (Es : port_node_server <$> l = take (Z.to_nat (k_nservers c)) (k_servers c)).
  { rewrite El, <- list_fmap_compose. transitivity (id <$> take (Z.to_nat (k_nservers c)) (k_servers c)); [|by rewrite list_fmap_id].
    apply list_fmap_ext. intros i a Ha. cbn. apply port_node_roundtrip. rewrite Forall_lookup in Hok. by eapply Hok. }
  assert (Hlen : length (take (Z.to_nat (k_nservers c)) (k_servers c)) = Z.to_nat (k_nservers c)).
  { rewrite length_take. pose proof (ko_nservers _ Hc). lia. }
  apply wp_bind. eapply wp_mono; [apply wp_replace; lia|]. rewrite Es.
  intros [st c'] h2 (G1 & G2 & G3). pose proof (arr_blocks_range (k_servers c')).
  apply wp_bind, wp_free_data; [lia|]. apply wp_ret. cbn [live].
  split_and!; [lia|intros E; apply G2, H2, E|]. destruct G3 as [(-> & _ & ->)|[[[-> E]| ->] _]].
  - left. unfold Zlen. rewrite Hlen, Z2Nat.id by lia. done.
  - rewrite E in Hlen. cbn in Hlen. lia.
  - by right.
Qed.

(** The whole of [set_servers_csv]: the servers are those of the entries. *)
Lemma wp_set_servers_csv inet_pton4 inet_pton6 csv up c h :
  text_ok csv -> arr_blocks (k_servers c) <= live h ->
  wp (set_servers_csv inet_pton4 inet_pton6 csv up c) h (fun '(st, c') h' =>
    live h' - arr_blocks (k_servers c') = live h - arr_blocks (k_servers c) /\
    let '(st0, l) := csv_nodes inet_pton4 inet_pton6 up (entries csv) [] in
    (st = ARES_ENOMEM /\ oracle h <> [] \/ st = st0) /\
    (st = ARES_SUCCESS -> (k_nservers c', k_servers c') = match l with [] => (-1, []) | _ => (Zlen l, port_node_server <$> l) end) /\
    (st <> ARES_SUCCESS -> k_nservers c' = -1 /\ k_servers c' = [])).
Proof.
  intros Ht Hl. unfold set_servers_csv. apply wp_bind. eapply wp_mono; [by apply wp_destroy_servers|]. intros c1 h1 [-> ->].
  pose proof (arr_blocks_range (k_servers c)). destruct (Z.eqb_spec (Zlen csv) 0) as [E0|E0].
  { destruct csv; [|unfold Zlen in E0; cbn in E0; lia]. apply wp_ret. cbn. split_and!; [lia|by right|done|done]. }
  apply wp_bind, wp_malloc; intros o Ho.
  2: { apply wp_ret. cbn in *. split; [lia|]. destruct (csv_nodes _ _ _ _ _). split_and!; [by left|done|done]. }
  cbn [negb]. destruct (csv_buffer_entries csv) as [post Eb]; [by destruct csv|]. rewrite Eb. apply wp_bind.
  eapply wp_mono; [apply (wp_csv_loop _ _ _ _ _ []); [by apply entries_plain|rewrite length_app; cbn; lia|cbn; lia]|].
  intros [rv l] h2. cbn [live oracle]. change (Zlen (@nil ares_addr_port_node)) with 0. intros (H1 & H2 & H3 & H4).
  apply wp_bind. destruct (csv_nodes inet_pton4 inet_pton6 up (entries csv) []) as [st0 l0] eqn:Ec.
  destruct H3 as [[-> H3]|[= -> ->]].
  { rewrite bool_decide_false by done. apply wp_ret. apply wp_bind, wp_free; [lia|]. apply wp_bind, wp_free_nodes; cbn [live]; [lia|].
    apply wp_ret. cbn. split_and!; [lia|left; split; [done|]|done|done]. intros E. by apply H3, Ho. }
  destruct (decide (st0 = ARES_SUCCESS)) as [->|Hst].
  2: { rewrite bool_decide_false by done. apply wp_ret. apply wp_bind, wp_free; [lia|]. apply wp_bind, wp_free_nodes; cbn [live]; [lia|].
    apply wp_ret. cbn. split_and!; [lia|by right|done|done]. }
  rewrite bool_decide_true by done. eapply wp_mono; [apply wp_replace; cbn; lia|].
  intros [st c'] h3 (G1 & G2 & G3). cbn in G1. pose proof (arr_blocks_range (k_servers c')).
  apply wp_bind, wp_free; [lia|]. apply wp_bind, wp_free_nodes; cbn [live]; [lia|]. apply wp_ret. cbn [live].
  split; [lia|]. destruct G3 as [(-> & Hne & ->)|[[[-> E]| ->] ->]].
  - split_and!; [by right| |done]. intros _. cbn. destruct l0; [done|]. unfold Zlen. by rewrite length_fmap.
  - split_and!; [by right| |done]. intros _. by destruct l0.
  - split_and!; [left; split; [done|]|done|done]. intros E. assert (Ex : oracle h2 = []) by (by apply H4, Ho). by destruct (G2 Ex).
Qed.

(** C28. [ares_set_servers_csv] and [ares_set_servers_ports_csv] scan a text in
    place as the list of its entries. For every text the scan stays within the
    buffer and ends, and every block but the new array is released. Without a
    failing allocation the channel has exactly the servers that the entries name,
    in their order; if one of them names none, the result is ARES_EBADSTR. In
    every case but success the channel has lost the servers it had. *)
Theorem set_servers_csv_correct inet_pton4 inet_pton6 csv up c h :
  text_ok csv -> arr_blocks (k_servers c) <= live h ->
  wp (set_servers_csv inet_pton4 inet_pton6 csv up c) h (fun '(st, c') h' =>
    live h' - arr_blocks (k_servers c') = live h - arr_blocks (k_servers c) /\
    let '(st0, l) := csv_nodes inet_pton4 inet_pton6 up (entries csv) [] in
    (st = ARES_ENOMEM /\ oracle h <> [] \/ st = st0) /\
    (st = ARES_SUCCESS -> (k_nservers c', k_servers c') = match l with [] => (-1, []) | _ => (Zlen l, port_node_server <$> l) end) /\
    (st <> ARES_SUCCESS -> k_nservers c' = -1 /\ k_servers c' = [])).
Proof. apply wp_set_servers_csv. Qed.

(** ** Printing and parsing *)

(** The decimal digits of a number, before [acc]. *)
Fixpoint decimal (fuel : nat) (n : Z) (acc : list Z) : list Z :=
  match fuel with
  | O => acc
  | S fuel' => if n <? 10 then (48 + n) :: acc else decimal fuel' (n / 10) ((48 + n mod 10) :: acc)
  end.

Lemma is_digit_of d : 0 <= d < 10 -> is_digit (48 + d) = true.
Proof. intros H. unfold is_digit. apply andb_true_iff. split; apply Z.leb_le; lia. Qed.

Lemma decimal_value fuel n acc : 0 <= n < 10 ^ Z.of_nat fuel -> (0 < fuel)%nat -> digits_value 0 (decimal fuel n acc) = digits_value n acc.
Proof.
  revert n acc. induction fuel as [|fuel IH]; intros n acc Hn Hf; [lia|]. cbn [decimal].
  destruct (Z.ltb_spec n 10).
  - cbn [digits_value]. rewrite is_digit_of by lia. f_equal. lia.
  - pose proof (Z.mod_pos_bound n 10). pose proof (Z.div_mod n 10). rewrite Nat2Z.inj_succ, Z.pow_succ_r in Hn by lia.
    rewrite IH.
    + cbn [digits_value]. rewrite is_digit_of by lia. f_equal. lia.
    + split; [apply Z.div_pos; lia|apply Z.div_lt_upper_bound; lia].
    + destruct fuel; [cbn in Hn; lia|lia].
Qed.

Lemma decimal_digits fuel n acc : 0 <= n -> Forall (fun c => is_digit c = true) acc -> Forall (fun c => is_digit c = true) (decimal fuel n acc).
Proof.
  revert n acc. induction fuel as [|fuel IH]; intros n acc Hn Ha; cbn [decimal]; [done|]. destruct (Z.ltb_spec n 10).
  - constructor; [|done]. apply is_digit_of. lia.
  - apply IH; [apply Z.div_pos; lia|]. constructor; [|done]. apply is_digit_of, Z.mod_pos_bound. lia.
Qed.

Definition print_port (port : Z) : list Z := decimal 5 port [].

Lemma print_port_ne port : print_port port <> [].
Proof.
  unfold print_port. cbn [decimal]. repeat (destruct (_ <? 10); [done|]). done.
Qed.

Lemma strtol_print port : 0 <= port < 65536 -> to_int32 (strtol (print_port port)) = port.
Proof.
  intros Hp. assert (E : strtol (print_port port) = port).
  { pose proof (decimal_value 5 port [] ltac:(cbn; lia) ltac:(lia)) as Hv. pose proof (decimal_digits 5 port [] ltac:(lia) ltac:(constructor)) as Hd.
    pose proof (print_port_ne port) as Hne. unfold print_port, strtol in *. destruct (decimal 5 port []) as [|c p]; [done|].
    apply Forall_cons in Hd as [Hc _]. unfold is_digit in Hc. apply andb_true_iff in Hc as [H1%Z.leb_le H2%Z.leb_le].
    assert (Hs : skip_spaces (c :: p) = c :: p).
    { cbn [skip_spaces]. unfold ISSPACE. destruct (Z.eqb_spec c 32); [lia|]. destruct (Z.leb_spec c 13); [lia|]. by rewrite andb_false_r. }
    rewrite Hs. destruct (Z.eqb_spec c 45); [lia|]. destruct (Z.eqb_spec c 43); [lia|]. rewrite Hv. cbn. unfold LONG_MAX, LONG_MIN. lia. }
  rewrite E. unfold to_int32. rewrite Z.mod_small; lia.
Qed.

Lemma digit_class c : is_digit c = true -> 48 <= c <= 57.
Proof. unfold is_digit. intros [H1%Z.leb_le H2%Z.leb_le]%andb_true_iff. lia. Qed.

Lemma colons_app e1 e2 : colons (e1 ++ e2) = colons e1 + colons e2.
Proof. induction e1 as [|c e1 IH]; cbn [app colons]; [done|]. rewrite IH. lia. Qed.

Lemma colons_none e : ch_colon ∉ e -> colons e = 0.
Proof.
  induction e as [|c e IH]; [done|]. intros [Hc He]%not_elem_of_cons. cbn [colons].
  rewrite IH by done. by destruct (Z.eqb_spec c ch_colon).
Qed.

Lemma last_open_none host e : ch_open ∉ e -> last_open host e = host.
Proof.
  revert host. induction e as [|c e IH]; [done|]. intros host [Hc He]%not_elem_of_cons. cbn [last_open].
  rewrite IH by done. by destruct (Z.eqb_spec c ch_open).
Qed.

Definition digits (s : list Z) : Prop := Forall (fun c => is_digit c = true) s.

Lemma digits_not_in s c : digits s -> ~ 48 <= c <= 57 -> c ∉ s.
Proof. intros Hs Hc Hin. unfold digits in Hs. rewrite Forall_forall in Hs. by apply Hc, digit_class, Hs. Qed.

(** Digits are stepped over. *)
Lemma find_port_digits cc r d after :
  digits d -> find_port cc (d ++ r) after = find_port cc r (rev d ++ after).
Proof.
  intros Hd. revert after. induction Hd as [|c d Hc Hd IH]; intros after; [done|]. cbn [app find_port rev].
  pose proof (digit_class _ Hc). destruct (Z.eqb_spec c ch_close); [unfold ch_close in *; lia|].
  destruct (Z.eqb_spec c ch_colon); [unfold ch_colon in *; lia|]. rewrite Hc. cbn [andb orb]. by rewrite IH, <- app_assoc.
Qed.

Lemma digits_rev s : digits s -> digits (rev s).
Proof. intros H. unfold digits in *. rewrite Forall_forall in *. intros c Hc. apply H. by rewrite <- elem_of_rev. Qed.

(** Without a bracket and with several colons, or with none, there is no port. *)
Lemma find_port_none cc r after : ch_close ∉ r -> cc <> 1 -> find_port cc r after = None.
Proof.
  intros Hr Hcc. revert after. induction r as [|c r IH]; intros after; [done|]. apply not_elem_of_cons in Hr as [Hc Hr].
  cbn [find_port]. destruct (Z.eqb_spec c ch_close); [done|]. destruct (Z.eqb_spec cc 1); [done|]. rewrite andb_false_r. cbn [andb].
  destruct (is_digit c || (c =? ch_colon)); [by apply IH|done].
Qed.

Section print.
Context (inet_pton4 inet_pton6 : list Z -> option (list Z)).

(** A server written as a text. *)
Record endpoint := Endpoint { e_family : family; e_text : list Z; e_bytes : list Z; e_port : Z }.

Definition host_text (s : list Z) : Prop := plain s /\ (ch_open ∉ s) /\ (ch_close ∉ s).

Definition endpoint_ok (e : endpoint) : Prop :=
  host_text (e_text e) /\ 0 <= e_port e < 65536 /\
  match e_family e with
  | AF_INET => (ch_colon ∉ e_text e) /\ e_text e <> [] /\ Zlen (e_bytes e) = 4 /\ inet_pton4 (e_text e) = Some (e_bytes e)
  | AF_INET6 => 2 <= colons (e_text e) /\ Zlen (e_bytes e) = 16 /\ inet_pton4 (e_text e) = None /\
      inet_pton6 (e_text e) = Some (e_bytes e)
  end.

Definition endpoint_server (e : endpoint) : ares_addr :=
  AresAddr (Some (e_family e)) (e_bytes e) (htons (e_port e)) (htons (e_port e)).

(** host, host:port or [host]:port *)
Definition print_endpoint (e : endpoint) : list Z :=
  if e_port e =? 0 then e_text e
  else match e_family e with
       | AF_INET => e_text e ++ ch_colon :: print_port (e_port e)
       | AF_INET6 => ch_open :: e_text e ++ ch_close :: ch_colon :: print_port (e_port e)
       end.

Fixpoint print_csv (es : list endpoint) : list Z :=
  match es with
  | [] => []
  | [e] => print_endpoint e
  | e :: es' => print_endpoint e ++ ch_comma :: print_csv es'
  end.

Lemma print_port_digits port : 0 <= port -> digits (print_port port).
Proof. intros H. apply decimal_digits; [done|constructor]. Qed.

Lemma split_print e : endpoint_ok e -> split_entry (print_endpoint e) = (e_text e, e_port e).
Proof.
  intros ((_ & Ho & Hc) & Hp & Hf). unfold split_entry, print_endpoint. pose proof (print_port_digits (e_port e) ltac:(lia)) as Hd.
  assert (Hd1 : ch_open ∉ print_port (e_port e)) by (apply digits_not_in; [done|unfold ch_open; lia]).
  assert (Hd2 : colons (print_port (e_port e)) = 0) by (apply colons_none, digits_not_in; [done|unfold ch_colon; lia]).
  destruct (Z.eqb_spec (e_port e) 0) as [E|E].
  { rewrite last_open_none by done. rewrite E. unfold split_host. destruct (e_family e).
    - destruct Hf as (Hn & _). rewrite colons_none by done. done.
    - destruct Hf as (Hn & _). destruct (Z.ltb_spec 0 (colons (e_text e))); [|lia]. destruct (e_text e) as [|a t]; [done|].
      rewrite find_port_none; [done| |lia]. apply not_elem_of_cons in Hc as [_ Hc]. by rewrite elem_of_rev. }
  destruct (e_family e).
  - destruct Hf as (Hn & Hne & _). rewrite colons_app, (colons_none (e_text e)) by done. cbn [colons]. rewrite Hd2.
    change (ch_colon =? ch_colon) with true. cbn iota. change (0 + (1 + 0)) with 1.
    rewrite last_open_none by (rewrite elem_of_app, elem_of_cons; intros [?|[?|?]]; [done|discriminate|done]).
    unfold split_host. change (0 <? 1) with true. cbn iota. destruct (e_text e) as [|a t]; [done|]. cbn [app].
    rewrite rev_app_distr. cbn [rev]. rewrite <- app_assoc, find_port_digits by (by apply digits_rev). rewrite rev_involutive, app_nil_r.
    cbn [app find_port]. change (ch_colon =? ch_close) with false. change ((ch_colon =? ch_colon) && (1 =? 1)) with true. cbn [andb].
    pose proof (print_port_ne (e_port e)). pose proof (strtol_print (e_port e) Hp). destruct (print_port (e_port e)); [done|].
    rewrite rev_involutive. by f_equal.
  - destruct Hf as (Hn & _). cbn [colons last_open]. change (ch_open =? ch_colon) with false. change (ch_open =? ch_open) with true. cbn iota.
    rewrite colons_app. cbn [colons]. rewrite Hd2. change (ch_close =? ch_colon) with false. change (ch_colon =? ch_colon) with true. cbn iota.
    rewrite last_open_none by (rewrite elem_of_app, !elem_of_cons; intros [?|[?|[?|?]]]; [done|discriminate|discriminate|done]).
    unfold split_host. set (cc := 0 + _). assert (Hcc : 2 < cc) by (unfold cc; lia). clearbody cc.
    destruct (Z.ltb_spec 0 cc); [|lia]. destruct (e_text e) as [|a t]; [cbn in Hn; lia|]. cbn [app].
    rewrite rev_app_distr. cbn [rev]. rewrite <- !app_assoc, find_port_digits by (by apply digits_rev). rewrite rev_involutive, app_nil_r.
    cbn [app find_port]. change (ch_colon =? ch_close) with false. change (ch_colon =? ch_colon) with true. destruct (Z.eqb_spec cc 1); [lia|].
    cbn [andb]. rewrite orb_true_r. cbn [andb]. change (ch_close =? ch_close) with true. cbn [andb head bool_decide].
    rewrite bool_decide_true by done. cbn [tail]. rewrite rev_involutive, strtol_print by done. done.
Qed.

Lemma print_plain e : endpoint_ok e -> plain (print_endpoint e) /\ print_endpoint e <> [].
Proof.
  intros (([Ht Hcm] & _) & Hp & Hf). unfold print_endpoint. pose proof (print_port_digits (e_port e) ltac:(lia)) as Hd.
  assert (Hpp : plain (print_port (e_port e))).
  { split; [|apply digits_not_in; [done|unfold ch_comma; lia]]. eapply Forall_impl; [exact Hd|]. intros c Hc%digit_class. lia. }
  destruct Hpp as [Hpt Hpc]. assert (Hc1 : 0 < ch_colon < 256 /\ 0 < ch_close < 256 /\ 0 < ch_open < 256) by done.
  destruct (e_port e =? 0); [|destruct (e_family e)].
  - split; [done|]. destruct (e_family e); [apply Hf|]. intros E. rewrite E in Hf. cbn in Hf. lia.
  - split; [split|by destruct (e_text e)].
    + apply text_ok_app. split; [done|]. by constructor.
    + rewrite elem_of_app, elem_of_cons. intros [?|[?|?]]; [done|discriminate|done].
  - split; [split|done].
    + constructor; [done|]. apply text_ok_app. split; [done|]. by constructor; [|constructor].
    + rewrite !elem_of_cons, elem_of_app, !elem_of_cons. intros [?|[?|[?|[?|?]]]]; [discriminate|done|discriminate|discriminate|done].
Qed.

Lemma entries_snoc e s : ch_comma ∉ e -> entries (e ++ ch_comma :: s) = e :: entries s.
Proof.
  induction e as [|c e IH]; [done|]. intros [Hc He]%not_elem_of_cons. cbn [app entries]. rewrite IH by done.
  by destruct (Z.eqb_spec c ch_comma).
Qed.

Lemma entries_one e : ch_comma ∉ e -> e <> [] -> entries e = [e].
Proof.
  induction e as [|c e IH]; [done|]. intros [Hc He]%not_elem_of_cons _. cbn [entries].
  destruct (Z.eqb_spec c ch_comma); [done|]. destruct e as [|d e]; [done|]. by rewrite IH.
Qed.

Lemma entries_print es : Forall endpoint_ok es -> entries (print_csv es) = print_endpoint <$> es.
Proof.
  induction 1 as [|e es He Hes IH]; [done|]. destruct (print_plain e He) as [[_ Hc] Hne].
  destruct es as [|e' es]; [cbn; by apply entries_one|].
  change (print_csv (e :: e' :: es)) with (print_endpoint e ++ ch_comma :: print_csv (e' :: es)).
  rewrite entries_snoc by done. by rewrite IH.
Qed.

Lemma print_csv_text es : Forall endpoint_ok es -> text_ok (print_csv es).
Proof.
  induction 1 as [|e es He Hes IH]; [constructor|]. destruct (print_plain e He) as [[Ht _] _].
  destruct es as [|e' es]; [done|]. apply text_ok_app. split; [done|]. by constructor.
Qed.

Lemma csv_nodes_print es acc :
  Forall endpoint_ok es -> csv_nodes inet_pton4 inet_pton6 true (print_endpoint <$> es) acc =
    (ARES_SUCCESS, acc ++ ((fun e => AddrPortNode (family_num (Some (e_family e))) (e_bytes e) (e_port e) (e_port e)) <$> es)).
Proof.
  intros Hes. revert acc. induction Hes as [|e es He Hes IH]; intros acc; [cbn; by rewrite app_nil_r|].
  cbn [fmap list_fmap csv_nodes]. unfold entry_node. rewrite split_print by done. destruct He as (_ & _ & Hf). unfold resolve_host.
  destruct (e_family e) eqn:Ef; [destruct Hf as (_ & _ & Hl & ->)|destruct Hf as (_ & Hl & -> & ->)];
    rewrite IH, <- app_assoc; cbn; rewrite ?Ef; unfold family_bytes; cbn; by rewrite take_ge by (unfold Zlen in Hl; lia).
Qed.

(** Parsing a printed list of servers gives the list back: for addresses
    of both families, with and without a port, the text "host", "host:port" or
    "[host]:port" of each, separated by commas, makes the channel have exactly
    these servers, addresses and ports, in the same order. *)
Theorem servers_csv_roundtrip es c h :
  Forall endpoint_ok es -> es <> [] -> arr_blocks (k_servers c) <= live h -> oracle h = [] ->
  wp (ares_set_servers_ports_csv inet_pton4 inet_pton6 (print_csv es) c) h (fun '(st, c') _ =>
    st = ARES_SUCCESS /\ k_nservers c' = Zlen es /\ k_servers c' = endpoint_server <$> es).
Proof.
  intros Hes Hne Hl Ho. eapply wp_mono; [apply wp_set_servers_csv; [by apply print_csv_text|done]|].
  intros [st c'] h'. rewrite entries_print, csv_nodes_print by done. cbn [app]. intros (_ & [[_ H]| ->] & H2 & _); [done|].
  split; [done|]. specialize (H2 eq_refl). destruct es as [|e es]; [done|]. cbn [fmap list_fmap] in H2.
  apply pair_eq in H2 as [-> ->]. unfold Zlen. cbn [length]. rewrite length_fmap. split; [done|].
  change (port_node_server <$> ?x :: ?l) with (port_node_server x :: (port_node_server <$> l)).
  rewrite <- list_fmap_compose. 
  assert (E : forall e, endpoint_ok e -> port_node_server (AddrPortNode (family_num (Some (e_family e))) (e_bytes e) (e_port e) (e_port e)) = endpoint_server e).
  { intros e0 (_ & _ & Hf). unfold port_node_server, endpoint_server. cbn. destruct (e_family e0); cbn; unfold family_bytes; cbn;
      rewrite take_ge; try done; unfold Zlen in Hf; lia. }
  apply Forall_cons in Hes as [He Hes]. rewrite (E e He). change (endpoint_server <$> e :: es) with (endpoint_server e :: (endpoint_server <$> es)).
  f_equal. apply list_fmap_ext. intros i x Hx. cbn. apply E. rewrite Forall_lookup in Hes. by eapply Hes.
Qed.
End print.

(** ** Concrete servers *)

(** "10.0.0.1" is an IPv4 address, "::1" an IPv6 address. *)
Definition ex_text4 : list Z := [49; 48; 46; 48; 46; 48; 46; 49].
Definition ex_text6 : list Z := [58; 58; 49].
Definition ex_inet4 (s : list Z) : option (list Z) := if decide (s = ex_text4) then Some [10; 0; 0; 1] else None.
Definition ex_inet6 (s : list Z) : option (list Z) := if decide (s = ex_text6) then Some (replicate 15 0 ++ [1]) else None.

(** "10.0.0.1,[::1]:5353" *)
Definition ex_endpoints : list endpoint :=
  [Endpoint AF_INET ex_text4 [10; 0; 0; 1] 0; Endpoint AF_INET6 ex_text6 (replicate 15 0 ++ [1]) 5353].

Lemma ex_endpoints_ok : Forall (endpoint_ok ex_inet4 ex_inet6) ex_endpoints.
Proof.
  assert (Hp : forall s, forallb (fun c => (0 <? c) && (c <? 256) && negb (c =? ch_comma) && negb (c =? ch_open) && negb (c =? ch_close)) s = true ->
    host_text s).
  { intros s Hs. rewrite forallb_forall in Hs. unfold host_text, plain, text_ok. rewrite Forall_forall.
    assert (H : forall c, c ∈ s -> (0 < c < 256) /\ c <> ch_comma /\ c <> ch_open /\ c <> ch_close).
    { intros c Hc%list_elem_of_In. specialize (Hs c Hc). repeat rewrite andb_true_iff in Hs. rewrite !negb_true_iff in Hs.
      destruct Hs as ((((?%Z.ltb_lt & ?%Z.ltb_lt) & ?%Z.eqb_neq) & ?%Z.eqb_neq) & ?%Z.eqb_neq). done. }
    split_and!; [intros c Hc; by apply H|intros Hc; by apply H in Hc as (_ & ? & _)|intros Hc; by apply H in Hc as (_ & _ & ? & _)|
      intros Hc; by apply H in Hc as (_ & _ & _ & ?)]. }
  repeat constructor; cbn; try lia; try (apply Hp; reflexivity); try done.
  by rewrite list_elem_of_In; cbn; intuition discriminate.
Qed.

Lemma servers_csv_roundtrip_witness :
  exists st c' h', ares_set_servers_ports_csv ex_inet4 ex_inet6 (print_csv ex_endpoints) unset_conf (Heap 0 []) = Ret (st, c') h' /\
    st = ARES_SUCCESS /\ k_nservers c' = 2 /\ k_servers c' = endpoint_server <$> ex_endpoints.
Proof.
  destruct (wp_outcome _ _ _ (servers_csv_roundtrip ex_inet4 ex_inet6 ex_endpoints unset_conf (Heap 0 [])
    ex_endpoints_ok ltac:(discriminate) ltac:(cbn; lia) eq_refl)) as ([st c'] & h' & E & H1 & H2 & H3).
  exists st, c', h'. split; [exact E|]. split; [exact H1|]. split; [exact H2|exact H3].
Defined.

(** "10.0.0.1,a": the second entry is no address, and the channel is left without
    servers. *)
Definition ex_bad_csv : list Z := ex_text4 ++ [44; 97].
Definition ex_servers : conf := set_k_servers 2 [AresAddr (Some AF_INET) [10; 0; 0; 2] 0 0; AresAddr (Some AF_INET6) (replicate 16 1) 0 (htons 5353)] unset_conf.

Lemma set_servers_csv_correct_witness :
  exists st c' h', set_servers_csv ex_inet4 ex_inet6 ex_bad_csv false ex_servers (Heap 1 []) = Ret (st, c') h' /\
    st = ARES_EBADSTR /\ k_nservers c' = -1 /\ live h' = 0.
Proof.
  destruct (wp_outcome _ _ _ (set_servers_csv_correct ex_inet4 ex_inet6 ex_bad_csv false ex_servers (Heap 1 [])
    ltac:(by repeat constructor) ltac:(cbn; lia))) as ([st c'] & h' & E & H1 & H2).
  exists st, c', h'. split; [exact E|]. destruct (csv_nodes _ _ _ _ _) as [st0 l] eqn:Ec. vm_compute in Ec. injection Ec as <- <-.
  destruct H2 as ([[_ H2]|H2] & _ & H3); [by destruct H2|]. destruct (H3 ltac:(rewrite H2; discriminate)) as [H4 H5].
  rewrite H5 in H1. split; [exact H2|]. split; [exact H4|]. cbn in H1. lia.
Defined.

Lemma ex_servers_conf : conf_ok ex_servers.
Proof. split; [done|cbn; lia|by apply domains_ok_nil|done]. Qed.

Lemma ex_servers_ok : Forall server_ok (take (Z.to_nat (k_nservers ex_servers)) (k_servers ex_servers)).
Proof. repeat (apply Forall_cons; split; [done|]). by apply Forall_nil. Qed.

Lemma servers_roundtrip_witness :
  exists st c' h', ('(st, l) ← ares_get_servers_ports ex_servers;
      if bool_decide (st = ARES_SUCCESS)
      then '(st, c') ← ares_set_servers_ports l unset_conf; ares_free_data l ;; mret (st, c')
      else mret (st, unset_conf)) (Heap 0 []) = Ret (st, c') h' /\ k_servers c' = k_servers ex_servers /\ live h' = 1.
Proof.
  destruct (wp_outcome _ _ _ (servers_roundtrip ex_servers unset_conf (Heap 0 [])
    ex_servers_conf ex_servers_ok ltac:(cbn; lia) ltac:(cbn; lia)))
    as ([st c'] & h' & E & H1 & H2 & H3).
  exists st, c', h'. split; [exact E|]. destruct H3 as [[_ ->]|H3]; [|rewrite H2 in H3; [discriminate|reflexivity]].
  split; [reflexivity|]. change (live h' - 1 = 0 - 0) in H1. lia.
Defined.

(** A port is reduced modulo 2^16 without an error: "10.0.0.1:65589" is port 53. *)
Example csv_port_truncated :
  match ares_set_servers_ports_csv ex_inet4 ex_inet6 (ex_text4 ++ [58; 54; 53; 53; 56; 57]) unset_conf (Heap 0 []) with
  | Ret (st, c) _ => st = ARES_SUCCESS /\ k_servers c = [AresAddr (Some AF_INET) [10; 0; 0; 1] (htons 53) (htons 53)]
  | _ => False
  end.
Proof. vm_compute. split; reflexivity. Qed.
