(* ===== verification/ServersTheorems.v ===== *)
(** * Replacing the servers of a channel in use (c-ares)

    What [ares_set_servers] does to the engine: on a channel without queries the
    invariant of the engine holds again; with queries in flight, or with a rotation
    that points past the new servers, it does not. With the concrete channels and
    texts on which the theorems of Servers.v are evaluated. *)

From S2P Require Import Prelude DnsWire ParseList ParseHost InetAddr ReadLine Search AddrSort HostsFile.
From S2P Require Import Channel Resolver ResolverInv ResolverSend ResolverAnswer ResolverIO ResolverTheorems.
From S2P Require Import QueryId Config ConfigInv Servers.
Open Scope Z_scope.

(** ** Code that releases blocks but allocates none *)

Definition no_alloc {A} (m : E A) : Prop := forall c a c', m c = EOk a c' -> oracle (mem c') = oracle (mem c).

Definition no_alloc_M {A} (m : M A) : Prop := forall h a h', m h = Ret a h' -> oracle h' = oracle h.

Create HintDb no_alloc discriminated.

Lemma no_alloc_ret {A} (a : A) : no_alloc (mret a : E A).
Proof. by intros c x c' [= _ <-]. Qed.

Lemma no_alloc_bind {A B} (m : E A) (k : A -> E B) : no_alloc m -> (forall a, no_alloc (k a)) -> no_alloc (m ≫= k).
Proof.
  intros Hm Hk c b c'. unfold mbind, E_bind. destruct (m c) as [a c1| |] eqn:E; [|done..]. intros Hb.
  rewrite (Hk a _ _ _ Hb). by eapply Hm.
Qed.

Lemma no_alloc_gets {A} (f : chan -> A) : no_alloc (gets f).
Proof. by intros c x c' [= _ <-]. Qed.

Lemma no_alloc_modify f : (forall c, mem (f c) = mem c) -> no_alloc (modify f).
Proof. intros Hf c x c' [= _ <-]. by rewrite Hf. Qed.

Lemma no_alloc_emit e : no_alloc (emit e).
Proof. by apply no_alloc_modify. Qed.

Lemma no_alloc_eassert b : no_alloc (eassert b).
Proof. destruct b; [apply no_alloc_ret|done]. Qed.

Lemma no_alloc_get_server i : no_alloc (get_server i).
Proof. intros c x c'. unfold get_server. destruct (_ !! i); [|done]. by intros [= _ <-]. Qed.

Lemma no_alloc_upd_server i f : no_alloc (upd_server i f).
Proof. intros c x c'. unfold upd_server. destruct (_ !! i); [|done]. intros H. by inversion H. Qed.

Lemma no_alloc_lift {A} (m : M A) : no_alloc_M m -> no_alloc (lift m).
Proof.
  intros Hm c a c'. unfold lift. destruct (m (mem c)) as [x h| |] eqn:E; [|done..]. intros [= _ <-]. cbn. by eapply Hm.
Qed.

Lemma no_alloc_M_bind {A B} (m : M A) (k : A -> M B) : no_alloc_M m -> (forall a, no_alloc_M (k a)) -> no_alloc_M (m ≫= k).
Proof.
  intros Hm Hk h b h'. unfold mbind, M_bind. destruct (m h) as [a h1| |] eqn:E; [|done..]. intros Hb.
  rewrite (Hk a _ _ _ Hb). by eapply Hm.
Qed.

Lemma no_alloc_free : no_alloc_M c_free.
Proof. intros h a h'. unfold c_free. destruct (_ <=? _); [done|]. by intros [= _ <-]. Qed.

Lemma no_alloc_free_opt {A} (p : option A) : no_alloc_M (c_free_opt p).
Proof. destruct p; [apply no_alloc_free|]. by intros h a h' [= _ <-]. Qed.

Lemma no_alloc_free_sendq l : no_alloc_M (free_sendq l).
Proof.
  induction l as [|sr l IH]; [by intros h a h' [= _ <-]|]. cbn [free_sendq].
  apply no_alloc_M_bind; [apply no_alloc_free_opt|intros _]. by apply no_alloc_M_bind; [apply no_alloc_free|].
Qed.

#[local] Hint Resolve no_alloc_ret no_alloc_bind no_alloc_gets no_alloc_emit no_alloc_eassert no_alloc_get_server
  no_alloc_upd_server no_alloc_lift no_alloc_free no_alloc_free_opt no_alloc_free_sendq : no_alloc.

Lemma no_alloc_close i : no_alloc (ares__close_sockets i).
Proof.
  unfold ares__close_sockets, ares__socket_close, next_generation.
  repeat (apply no_alloc_bind; [|intros ?]); try (by auto with no_alloc); case_match;
    repeat (apply no_alloc_bind; [|intros ?]); auto with no_alloc; by apply no_alloc_modify.
Qed.

Lemma no_alloc_loop {L} (body : nat -> L -> E (bool * L)) n i l :
  (forall i l, no_alloc (body i l)) -> no_alloc (loop_servers body n i l).
Proof.
  intros Hb. revert i l. induction n as [|n IH]; intros i l; cbn [loop_servers]; [apply no_alloc_ret|].
  apply no_alloc_bind; [done|]. intros [[] l']; [apply IH|apply no_alloc_ret].
Qed.

Lemma no_alloc_destroy_servers : no_alloc ares__destroy_servers_state.
Proof.
  unfold ares__destroy_servers_state, for_servers. apply no_alloc_bind; [apply no_alloc_gets|intros n]. apply no_alloc_loop. intros i l.
  apply no_alloc_bind; [apply no_alloc_close|intros _]. apply no_alloc_bind; [apply no_alloc_get_server|intros s].
  apply no_alloc_bind; [apply no_alloc_eassert|intros _]. apply no_alloc_ret.
Qed.

Lemma ewp_no_alloc {A} (m : E A) c (Q : A -> chan -> Prop) :
  no_alloc m -> ewp m c Q -> ewp m c (fun a c' => Q a c' /\ oracle (mem c') = oracle (mem c)).
Proof. intros Hm. unfold ewp. destruct (m c) as [a c'| |] eqn:E; [|done..]. intros HQ. split; [done|]. by eapply Hm. Qed.

(** ** Replacing the servers *)

(** New servers, no queries: the invariant holds. *)
Lemma fresh_servers_ready base c addrs g g' h :
  core base 0 None c -> all_queries c = [] -> cancelled c = [] -> stolen c = [] -> addrs <> [] ->
  (last_server c < length addrs)%nat -> live h = base ->
  (forall q, sends (trace c) q <= Z.of_nat (length addrs) * tries (cfg c) + 1) ->
  ready base (set_tcp_connection_generation g' (set_servers (ares__init_servers_state g addrs) (set_mem h c))).
Proof.
  intros Hc Ha Hca Hst Hne Hls Hl Hs. pose proof (core_idle _ _ _ _ Hc Ha Hca) as Hno. destruct Hc.
  set (c' := set_tcp_connection_generation _ _). assert (Hns : nservers c' = length addrs) by apply init_servers_length.
  apply (ready_intro _ 0%nat); [|done..]. split_and!.
  - constructor; rewrite ?Hns; try done.
    + destruct c_config. split; [|done..]. destruct addrs; [done|cbn; lia].
    + split; [done|apply c_last].
    + intros q r Hq. cbn in Hq. by rewrite Hno in Hq.
    + intros q r Hq. cbn in Hq. by rewrite Hno in Hq.
    + assert (Hnil : forall i ql, (queries_to_server <$> servers c') !! i = Some ql -> ql = []).
      { intros i ql. rewrite list_lookup_fmap. cbn. destruct (_ !! i) as [s|] eqn:E; [|done].
        intros [= <-]. by apply init_servers_spec in E as (? & _). }
      constructor.
      * intros i ql ->%Hnil. constructor.
      * by intros i ql q ->%Hnil ?%not_elem_of_nil.
      * intros i ql q r _. cbn. by rewrite Hno.
      * cbn. rewrite Hst. constructor.
      * cbn. rewrite Hst. by intros q ?%not_elem_of_nil.
    + split; [apply c_mem|]. cbn. rewrite Ha, Hca, blocks_closed; [unfold Zlen; cbn; lia|].
      intros i s E. apply init_servers_spec in E. tauto.
    + destruct c_sends. constructor; cbn; [done|done|]. intros q r. by rewrite Hno.
  - intros i s E. apply init_servers_spec in E as (_ & -> & _). constructor.
  - intros i s E. by apply init_servers_spec in E as (_ & _ & _ & ?).
Qed.

(** [ares_set_servers] on a channel without queries: the sockets and
    buffers of the old servers are released, and either the channel has the new
    servers and satisfies the invariant of the engine again, or the allocation has
    failed and it has no server, with one block less in use. *)
Theorem set_servers_idle base c addrs :
  ready base c -> all_queries c = [] -> addrs <> [] -> 1 <= base ->
  (last_server c < length addrs)%nat -> (nservers c <= length addrs)%nat ->
  ewp (channel_set_servers addrs) c (fun st c' =>
    (st = ARES_SUCCESS /\ ready base c' /\ s_addr <$> servers c' = addrs) \/
    (st = ARES_ENOMEM /\ oracle (mem c) <> [] /\ servers c' = [] /\ live (mem c') = base - 1)).
Proof.
  intros (HI & Hst & Hca) Ha Hne Hb Hls Hn. destruct (HI 0%nat) as (Hc & _ & _). unfold channel_set_servers.
  pose proof (core_idle _ _ _ _ Hc Ha Hca) as Hno. do 2 ewp_step. ewp_step.
  eapply ewp_mono; [by apply ewp_no_alloc, ewp_destroy_servers; [apply no_alloc_destroy_servers|..]|]. intros _ c1 [(Hc1 & F & Hcl) Ho1].
  assert (Hm : live (mem c1) = base).
  { destruct (c_mem _ _ _ _ Hc1) as [_ Hm]. rewrite (f_all _ _ _ F), (f_cancelled _ _ _ F), Ha, Hca, blocks_closed in Hm by done.
    cbn in Hm. unfold Zlen in Hm. cbn in Hm. lia. }
  assert (Harr : arr_blocks (servers c) = 1).
  { pose proof (co_servers _ _ (c_config _ _ _ _ Hc)) as H. unfold nservers in H. by destruct (servers c); [cbn in H; lia|]. }
  apply ewp_bind, ewp_lift, wp_free_array; [lia|]. rewrite Harr, Hm.
  ewp_step. apply ewp_modify. destruct addrs as [|a addrs]; [done|]. apply ewp_bind, ewp_lift, wp_malloc; intros o Ho; cbn [negb].
  - do 2 ewp_step. ewp_step. apply ewp_modify. ewp_step. left. cbn [oracle live mem set_mem set_servers] in *. split_and!; [done| |].
    + cbn [tcp_connection_generation set_mem set_servers].
      apply (fresh_servers_ready base c1 (a :: addrs) _ _ (Heap (base - 1 + 1) o)); cbn [live];
        [done|by rewrite (f_all _ _ _ F)|by rewrite (f_cancelled _ _ _ F)|by rewrite (f_stolen _ _ _ F)|done|by rewrite (f_last_server _ _ _ F)|lia|].
      intros q. rewrite (f_sends _ _ _ F), (f_cfg _ _ _ F). destruct (c_sends _ _ _ _ Hc) as [_ Hall _]. etransitivity; [apply Hall|].
      pose proof (co_tries _ _ (c_config _ _ _ _ Hc)). nia.
    + cbn. set (g := tcp_connection_generation c1). generalize g. clear. revert a. induction addrs as [|b addrs IH]; intros a g; [done|].
      cbn in *. f_equal. apply (IH b).
  - ewp_step. right. cbn [oracle live mem set_mem set_servers servers] in *. rewrite Ho1 in Ho. by split_and!.
Qed.

Definition ex_idle : chan := init_channel ex_config 0 [ex_addr 1; ex_addr 2] (TV 100 0) (Heap 1 []) [] [].

Lemma set_servers_idle_witness :
  exists st c, channel_set_servers [ex_addr 3; ex_addr 4; ex_addr 5] ex_idle = EOk st c /\ ready 1 c /\
    s_addr <$> servers c = [ex_addr 3; ex_addr 4; ex_addr 5].
Proof.
  destruct (ewp_returns _ _ _ (set_servers_idle 1 ex_idle [ex_addr 3; ex_addr 4; ex_addr 5]
    ltac:(apply (init_ready _ _ [_; _] _ (Heap 1 [])); [exact ex_config_ok|reflexivity|cbn; lia|cbn; lia])
    eq_refl ltac:(discriminate) ltac:(lia) ltac:(cbn; lia) ltac:(cbn; lia))) as (st & c & E & H); [by_computation|].
  exists st, c. split; [exact E|]. destruct H as [(_ & H1 & H2)|(_ & H & _)]; [split; [exact H1|exact H2]|]. by destruct H.
Defined.

(** ** What goes wrong *)

(** The servers must not be replaced while queries are in flight: with
    two queries sent, [ares_set_servers] runs into the assertion that no query
    belongs to a server that is released. *)
Theorem set_servers_pending :
  all_queries ex_flight <> [] /\ undefined_behaviour (channel_set_servers [ex_addr 3] ex_flight) = true.
Proof. split; vm_compute; [discriminate|reflexivity]. Qed.

(** A channel that rotates over two servers. *)
Definition ex_rotating : chan :=
  init_channel (Config 5000 4 true 53 53 0 0 1280 [] 0 (replicate 16 0) false false false) 0
    [ex_addr 1; ex_addr 2] (TV 100 0) (Heap 1 []) ex_ints ex_pkts.

(** [ares_set_servers] keeps [last_server]. On a channel that rotates
    over two servers and has sent and answered one query, the servers are replaced
    by a single one; the next query is sent to the second server, which does not
    exist: the access to the array is out of bounds. *)
Theorem set_servers_rotation_out_of_bounds :
  match run [OpSend ex_query 1 (TV 100 5); OpProcessFd 5 (-1) (TV 101 0)] ex_rotating with
  | EOk _ c => all_queries c = [] /\ last_server c = 1%nat /\
      match channel_set_servers [ex_addr 3] c with
      | EOk st c' => st = ARES_SUCCESS /\ nservers c' = 1%nat /\
          undefined_behaviour (run [OpSend ex_query 2 (TV 102 0)] c') = true
      | _ => False
      end
  | _ => False
  end.
Proof. vm_compute. repeat split; reflexivity. Qed.
