(* ===== verification/Dup.v ===== *)
(** * Saving options and duplicating a channel (c-ares: ares_init.c, ares_destroy.c)

    [ares_save_options] writes the configuration of a channel back into a
    structure of options, [ares_destroy_options] releases it, and [ares_dup] makes
    a channel from the saved options, then copies by hand what they do not hold:
    the socket callbacks, the local addresses and the servers with ports or IPv6
    addresses. *)

From S2P Require Import Prelude DnsWire ParseList ParseHost InetAddr InetAddr6 ReadLine Search AddrSort HostsFile.
From S2P Require Import Channel Resolver QueryId Config ConfigInv ConfigFile ConfigInit Servers.
Open Scope Z_scope.

#[local] Arguments Z.testbit : simpl never.

(** ** The rest of a channel *)

(** The callbacks with their data, and the local addresses. *)
Record sock_conf := SockConf {
  sc_create_cb : option Z; sc_config_cb : option Z; sc_funcs : option Z;
  sc_dev_name : list Z; sc_ip4 : Z; sc_ip6 : list Z }.

Definition DEV_NAME_SIZE : nat := 32.

(** [strncpy] of a C string into 32 bytes. *)
Definition strncpy_dev (s : list Z) : list Z :=
  take DEV_NAME_SIZE (c_string s 0 ++ replicate DEV_NAME_SIZE 0).

(** What [ares_init_options] sets. *)
Definition no_sock_conf : sock_conf := SockConf None None None (replicate DEV_NAME_SIZE 0) 0 (replicate 16 0).

Definition ares_set_local_ip4 (ip : Z) (s : sock_conf) : sock_conf :=
  SockConf (sc_create_cb s) (sc_config_cb s) (sc_funcs s) (sc_dev_name s) ip (sc_ip6 s).
Definition ares_set_local_ip6 (ip : list Z) (s : sock_conf) : sock_conf :=
  SockConf (sc_create_cb s) (sc_config_cb s) (sc_funcs s) (sc_dev_name s) (sc_ip4 s) (take 16 ip).
Definition ares_set_local_dev (name : list Z) (s : sock_conf) : sock_conf :=
  SockConf (sc_create_cb s) (sc_config_cb s) (sc_funcs s) (<[31%nat := 0]> (strncpy_dev name)) (sc_ip4 s) (sc_ip6 s).
Definition ares_set_socket_callback (cb : option Z) (s : sock_conf) : sock_conf :=
  SockConf cb (sc_config_cb s) (sc_funcs s) (sc_dev_name s) (sc_ip4 s) (sc_ip6 s).
Definition ares_set_socket_configure_callback (cb : option Z) (s : sock_conf) : sock_conf :=
  SockConf (sc_create_cb s) cb (sc_funcs s) (sc_dev_name s) (sc_ip4 s) (sc_ip6 s).
Definition ares_set_socket_functions (funcs : option Z) (s : sock_conf) : sock_conf :=
  SockConf (sc_create_cb s) (sc_config_cb s) funcs (sc_dev_name s) (sc_ip4 s) (sc_ip6 s).

(** A channel without queries and open sockets. *)
Record full_channel := FullChannel { fc_channel : channel; fc_sock : sock_conf }.

(** ** [ares_save_options] *)

Definition zero_options : ares_options := Options 0 0 0 0 0 0 0 0 [] 0 [] 0 None None [] 0 0.

Definition save_mask (rotate : Z) : Z :=
  2 ^ ARES_OPT_FLAGS + 2 ^ ARES_OPT_TRIES + 2 ^ ARES_OPT_NDOTS + 2 ^ ARES_OPT_UDP_PORT + 2 ^ ARES_OPT_TCP_PORT +
  2 ^ ARES_OPT_SOCK_STATE_CB + 2 ^ ARES_OPT_SERVERS + 2 ^ ARES_OPT_DOMAINS + 2 ^ ARES_OPT_LOOKUPS +
  2 ^ ARES_OPT_SORTLIST + 2 ^ ARES_OPT_TIMEOUTMS + 2 ^ (if rotate =? 0 then ARES_OPT_NOROTATE else ARES_OPT_ROTATE).

Definition save_scalars (c : conf) : ares_options :=
  Options (k_flags c) (k_timeout c) (k_tries c) (k_ndots c) (htons (aresx_sitous (k_udp_port c)))
    (htons (aresx_sitous (k_tcp_port c))) 0 0 [] 0 [] 0 None (k_sock_state_cb c) [] 0 0.

Definition set_o_servers (l : list (list Z)) (n : Z) (o : ares_options) : ares_options :=
  Options (o_flags o) (o_timeout o) (o_tries o) (o_ndots o) (o_udp_port o) (o_tcp_port o) (o_sndbuf o) (o_rcvbuf o)
    l n (o_domains o) (o_ndomains o) (o_lookups o) (o_sock_state_cb o) (o_sortlist o) (o_nsort o) (o_ednspsz o).
Definition set_o_domains (l : list (option (list Z))) (n : Z) (o : ares_options) : ares_options :=
  Options (o_flags o) (o_timeout o) (o_tries o) (o_ndots o) (o_udp_port o) (o_tcp_port o) (o_sndbuf o) (o_rcvbuf o)
    (o_servers o) (o_nservers o) l n (o_lookups o) (o_sock_state_cb o) (o_sortlist o) (o_nsort o) (o_ednspsz o).
Definition set_o_lookups (l : option (list Z)) (o : ares_options) : ares_options :=
  Options (o_flags o) (o_timeout o) (o_tries o) (o_ndots o) (o_udp_port o) (o_tcp_port o) (o_sndbuf o) (o_rcvbuf o)
    (o_servers o) (o_nservers o) (o_domains o) (o_ndomains o) l (o_sock_state_cb o) (o_sortlist o) (o_nsort o) (o_ednspsz o).
Definition set_o_sortlist (l : list apattern) (n : Z) (o : ares_options) : ares_options :=
  Options (o_flags o) (o_timeout o) (o_tries o) (o_ndots o) (o_udp_port o) (o_tcp_port o) (o_sndbuf o) (o_rcvbuf o)
    (o_servers o) (o_nservers o) (o_domains o) (o_ndomains o) (o_lookups o) (o_sock_state_cb o) l n (o_ednspsz o).

(** An IPv4 server on the default port. *)
Definition is_default (a : ares_addr) : bool :=
  bool_decide (a_family a = Some AF_INET) && (a_udp_port a =? 0) && (a_tcp_port a =? 0).

Definition save_servers (c : conf) (o : ares_options) : M (status * ares_options) :=
  l ← read_array (Z.to_nat (k_nservers c)) (k_servers c);
  match (fun a => take 4 (a_bytes a)) <$> List.filter is_default l with
  | [] => mret (ARES_SUCCESS, set_o_servers [] 0 o)
  | v4 =>
      ok ← c_malloc;
      mret (if (ok : bool) then (ARES_SUCCESS, set_o_servers v4 (Zlen v4) o) else (ARES_ENOMEM, o))
  end.

Definition save_domains (c : conf) (o : ares_options) : M (status * ares_options) :=
  if k_ndomains c =? 0 then mret (ARES_SUCCESS, set_o_domains (o_domains o) (k_ndomains c) o)
  else
    ok ← c_malloc;
    if negb ok then mret (ARES_ENOMEM, o)
    else
      '(ok, l) ← dup_domains (Z.to_nat (k_ndomains c)) (k_domains c) [];
      mret (if (ok : bool) then (ARES_SUCCESS, set_o_domains l (k_ndomains c) o)
            else (ARES_ENOMEM, set_o_domains l (Zlen l - 1) o)).

Definition save_lookups (c : conf) (o : ares_options) : M (status * ares_options) :=
  match k_lookups c with
  | None => mret (ARES_SUCCESS, o)
  | Some s =>
      s ← ares_strdup (Some s);
      mret (match s with Some _ => ARES_SUCCESS | None => ARES_ENOMEM end, set_o_lookups s o)
  end.

Definition save_sortlist (c : conf) (o : ares_options) : M (status * ares_options) :=
  if k_nsort c =? 0 then mret (ARES_SUCCESS, set_o_sortlist (o_sortlist o) (k_nsort c) o)
  else
    ok ← c_malloc;
    if negb ok then mret (ARES_ENOMEM, o)
    else
      l ← read_array (Z.to_nat (k_nsort c)) (k_sortlist c);
      mret (ARES_SUCCESS, set_o_sortlist l (k_nsort c) o).

Definition save_then (m : M (status * ares_options)) (k : ares_options -> M (status * ares_options)) : M (status * ares_options) :=
  '(st, o) ← m; if bool_decide (st = ARES_SUCCESS) then k o else mret (st, o).

(** The status and the options; the mask is set when the configuration is
    complete. *)
Definition ares_save_options (c : conf) : M (status * ares_options * option Z) :=
  if negb (config_check c) then mret (ARES_ENODATA, zero_options, None)
  else
    '(st, o) ← save_then (save_servers c (save_scalars c)) (fun o =>
               save_then (save_domains c o) (fun o =>
               save_then (save_lookups c o) (save_sortlist c)));
    mret (st, o, Some (save_mask (k_rotate c))).

Definition ares_destroy_options (o : ares_options) : M unit :=
  free_array (o_servers o) ;;
  free_domains (Z.to_nat (o_ndomains o)) (o_domains o) ;;
  free_array (o_domains o) ;;
  free_array (o_sortlist o) ;;
  c_free_opt (o_lookups o).

(** [ares_destroy] of a channel without queries and open sockets. *)
Definition destroy_channel (c : conf) : M unit := free_array (k_servers c) ;; free_conf c.

(** ** [ares_dup] *)

Section dup.
Variables (inet_addr inet_pton4 inet_pton6 : list Z -> option (list Z)).
Variables (fuel : nat) (sys : system) (random : list Z).

Definition ares_dup (src : full_channel) : M (status + full_channel) :=
  let c := ch_conf (fc_channel src) in
  '(rc, opts, optmask) ← ares_save_options c;
  match bool_decide (rc = ARES_SUCCESS), optmask with
  | true, Some optmask =>
      r ← ares_init_options inet_addr inet_pton4 inet_pton6 fuel sys random opts optmask;
      ares_destroy_options opts ;;
      match r with
      | inl rc => mret (inl rc)
      | inr dest =>
          let s := fc_sock src in
          let sock := SockConf (sc_create_cb s) (sc_config_cb s) (sc_funcs s) (strncpy_dev (sc_dev_name s)) (sc_ip4 s) (sc_ip6 s) in
          servers ← read_array (Z.to_nat (k_nservers c)) (k_servers c);
          if existsb (fun a => negb (is_default a)) servers then
            '(rc, l) ← ares_get_servers_ports c;
            if negb (bool_decide (rc = ARES_SUCCESS)) then destroy_channel (ch_conf dest) ;; mret (inl rc)
            else
              '(rc, c') ← ares_set_servers_ports l (ch_conf dest);
              ares_free_data l ;;
              if negb (bool_decide (rc = ARES_SUCCESS)) then destroy_channel c' ;; mret (inl rc)
              else mret (inr (FullChannel (Channel c' (ch_id_key dest) (ch_next_id dest)) sock))
          else mret (inr (FullChannel dest sock))
      end
  | _, _ => ares_destroy_options opts ;; mret (inl rc)
  end.
End dup.

(** ** The options that are saved *)

Definition options_blocks (o : ares_options) : Z :=
  arr_blocks (o_servers o) + (arr_blocks (o_domains o) + somes (o_domains o)) + arr_blocks (o_sortlist o) + blocks_opt (o_lookups o).

(** Options that can be released: what the array holds beyond the domains is
    null. *)
Definition releasable (o : ares_options) : Prop :=
  (Z.to_nat (o_ndomains o) <= length (o_domains o))%nat /\ Forall (fun d => d = None) (drop (Z.to_nat (o_ndomains o)) (o_domains o)).

Lemma wp_destroy_options o h (Q : unit -> heap -> Prop) :
  releasable o -> options_blocks o <= live h -> Q () (Heap (live h - options_blocks o) (oracle h)) -> wp (ares_destroy_options o) h Q.
Proof.
  intros [Hn Hd] Hl HQ. unfold ares_destroy_options, options_blocks in *.
  pose proof (arr_blocks_range (o_servers o)). pose proof (arr_blocks_range (o_domains o)). pose proof (somes_nonneg (o_domains o)).
  pose proof (arr_blocks_range (o_sortlist o)). pose proof (blocks_opt_nonneg (o_lookups o)).
  apply wp_bind, wp_free_array; [lia|]. apply wp_bind, wp_free_domains; cbn [live]; [done|done|lia|].
  apply wp_bind, wp_free_array; cbn [live]; [lia|]. apply wp_bind, wp_free_array; cbn [live]; [lia|].
  apply wp_free_opt; cbn [live oracle]; [lia|].
  match goal with |- Q _ (Heap ?x _) => match type of HQ with Q _ (Heap ?y _) => replace x with y by lia end end. done.
Qed.

(** A channel that [ares_init_options] and the setters can have made. *)
Record complete (c : conf) (ds : list (list Z)) : Prop := {
  cp_ok : conf_ok c;
  cp_check : config_check c = true;
  cp_flags : k_flags c <> -1;
  cp_rotate : k_rotate c = 0 \/ k_rotate c = 1;
  cp_udp : 0 <= k_udp_port c < 65536;
  cp_tcp : 0 <= k_tcp_port c < 65536;
  cp_ndomains : k_ndomains c = Zlen ds;
  cp_domains : k_domains c = Some <$> ds;
  cp_nsort : k_nsort c = Zlen (k_sortlist c);
  cp_sort : Forall pattern_ok (k_sortlist c);
  cp_servers : Forall server_ok (take (Z.to_nat (k_nservers c)) (k_servers c));
  cp_trim : trim_servers c = c }.

Definition live_servers (c : conf) : list ares_addr := take (Z.to_nat (k_nservers c)) (k_servers c).

Definition saved_servers (c : conf) : list (list Z) := (fun a => take 4 (a_bytes a)) <$> List.filter is_default (live_servers c).

Definition saved_options (c : conf) : ares_options :=
  Options (k_flags c) (k_timeout c) (k_tries c) (k_ndots c) (htons (aresx_sitous (k_udp_port c)))
    (htons (aresx_sitous (k_tcp_port c))) 0 0 (saved_servers c) (Zlen (saved_servers c)) (k_domains c) (k_ndomains c)
    (k_lookups c) (k_sock_state_cb c) (k_sortlist c) (k_nsort c) 0.

(** One step of the saving: its blocks belong to the options. *)
Definition save_post (h0 h : heap) (spec : ares_options) (r : status * ares_options) (h' : heap) : Prop :=
  releasable r.2 /\ live h' = live h0 + options_blocks r.2 /\ (oracle h = [] -> r.1 = ARES_SUCCESS /\ oracle h' = []) /\
  (r.1 = ARES_SUCCESS /\ r.2 = spec \/ r.1 = ARES_ENOMEM).

Lemma wp_save_then h0 h m k o1 spec :
  wp m h (save_post h0 h o1) ->
  (forall h1, live h1 = live h0 + options_blocks o1 -> releasable o1 -> wp (k o1) h1 (save_post h0 h1 spec)) ->
  wp (save_then m k) h (save_post h0 h spec).
Proof.
  intros Hm Hk. apply wp_bind. eapply wp_mono; [exact Hm|]. intros [st o] h1 (H1 & H2 & H3 & H4). cbn [fst snd] in *.
  destruct H4 as [[-> ->]| ->].
  - rewrite bool_decide_true by done. eapply wp_mono; [by apply Hk|]. intros [st2 o2] h2 (G1 & G2 & G3 & G4). split_and!; [done..| |done].
    intros E. by apply G3, H3.
  - rewrite bool_decide_false by done. apply wp_ret. split_and!; [done..|by right].
Qed.

Section save.
Context (c : conf) (ds : list (list Z)) (Hc : complete c ds).

Lemma wp_save_servers h o :
  releasable o -> o_servers o = [] -> 0 <= live h ->
  wp (save_servers c o) h (fun r h' => save_post (Heap (live h - options_blocks o) []) h (set_o_servers (saved_servers c) (Zlen (saved_servers c)) o) r h').
Proof.
  intros Hr Ho Hl. unfold save_servers. apply wp_bind, wp_read_array; [apply (cp_ok _ _ Hc)|].
  fold (live_servers c) (saved_servers c). destruct (saved_servers c) as [|a l].
  - apply wp_ret. split_and!; cbn [fst snd]; [done|unfold options_blocks; cbn; rewrite Ho; cbn; lia|done|by left].
  - apply wp_bind, wp_malloc; intros oo Hoo; apply wp_ret; (split_and!; cbn [fst snd]; [done|unfold options_blocks; cbn in *; rewrite ?Ho; cbn; lia| |]);
      [by intros E0; split; auto|by left|done|by right].
Qed.
Lemma wp_save_domains h0 h o :
  releasable o -> o_domains o = [] -> live h = live h0 + options_blocks o -> 0 <= live h0 ->
  wp (save_domains c o) h (save_post h0 h (set_o_domains (k_domains c) (k_ndomains c) o)).
Proof.
  intros Hr Ho Hl Hl0. unfold save_domains. destruct Hc. rewrite cp_ndomains0, cp_domains0. destruct (Z.eqb_spec (Zlen ds) 0) as [E|E].
  { destruct ds as [|d0 ds0]; [|rewrite Zlen_cons in E; pose proof (Zlen_nonneg ds0); lia]. apply wp_ret.
    split_and!; cbn [fst snd]; [split; cbn; rewrite Ho; [lia|by rewrite drop_nil]|unfold options_blocks in *; cbn; lia|done|].
    left. cbn. by rewrite Ho. }
  apply wp_bind, wp_malloc; intros oo Hoo; cbn [negb].
  2: { apply wp_ret. split_and!; cbn [fst snd]; [done|done|done|by right]. }
  apply wp_bind. eapply wp_mono; [apply dup_domains_spec|].
  { rewrite length_fmap. unfold Zlen. lia. }
  { apply Forall_fmap, Forall_true. intros x. cbn. by eexists. }
  assert (Htake : take (Z.to_nat (Zlen ds)) (Some <$> ds) = Some <$> ds) by (apply take_ge; rewrite length_fmap; unfold Zlen; lia).
  assert (Harr : arr_blocks (Some <$> ds) = 1) by (destruct ds; done).
  intros [ok l] h1 (H1 & H2 & H3). rewrite Htake in H3. cbn [app somes live oracle] in *. apply wp_ret. destruct ok.
  - subst l. split_and!; cbn [fst snd]; [|unfold options_blocks in *; cbn; rewrite Ho in *; cbn in Hl; lia|intros E0; split; [done|apply H2; auto]|by left].
    split; cbn; [rewrite length_fmap; unfold Zlen; lia|]. rewrite drop_ge; [constructor|rewrite length_fmap; unfold Zlen; lia].
  - destruct H3 as [dn ->]. split_and!; cbn [fst snd].
    + destruct (domains_ok_failed dn) as (_ & D1 & D2). split; cbn; done.
    + unfold options_blocks in *. cbn. rewrite arr_blocks_app. rewrite Ho in Hl. cbn in Hl. lia.
    + intros E0. destruct H2; [auto|done].
    + by right.
Qed.

Lemma wp_save_lookups h0 h o :
  releasable o -> o_lookups o = None -> live h = live h0 + options_blocks o ->
  wp (save_lookups c o) h (save_post h0 h (set_o_lookups (k_lookups c) o)).
Proof.
  intros Hr Ho Hl. unfold save_lookups. unfold options_blocks in Hl. rewrite Ho in Hl. cbn in Hl. destruct (k_lookups c) as [s|].
  - apply wp_bind, wp_strdup; intros oo Hoo; apply wp_ret; (split_and!; cbn [fst snd]; [done|unfold options_blocks; cbn; lia| |]);
      [by intros E0; split; auto|by left|done|by right].
  - apply wp_ret. split_and!; cbn [fst snd]; [done|unfold options_blocks; rewrite Ho; cbn; lia|done|]. left. split; [done|]. by destruct o; cbn in *; subst.
Qed.

Lemma wp_save_sortlist h0 h o :
  releasable o -> o_sortlist o = [] -> live h = live h0 + options_blocks o ->
  wp (save_sortlist c o) h (save_post h0 h (set_o_sortlist (k_sortlist c) (k_nsort c) o)).
Proof.
  intros Hr Ho Hl. unfold save_sortlist. unfold options_blocks in Hl. rewrite Ho in Hl. cbn in Hl. destruct Hc.
  rewrite cp_nsort0. destruct (Z.eqb_spec (Zlen (k_sortlist c)) 0) as [E|E].
  { apply wp_ret. assert (k_sortlist c = []) as -> by (destruct (k_sortlist c) as [|p0 l0]; [done|rewrite Zlen_cons in E; pose proof (Zlen_nonneg l0); lia]).
    split_and!; cbn [fst snd]; [done|unfold options_blocks; cbn; rewrite Ho; cbn; lia|done|]. left. by rewrite Ho. }
  apply wp_bind, wp_malloc; intros oo Hoo; cbn [negb].
  - apply wp_bind, wp_read_array; [unfold Zlen; lia|]. rewrite take_ge by (unfold Zlen; lia). apply wp_ret.
    assert (arr_blocks (k_sortlist c) = 1) by (by destruct (k_sortlist c)).
    split_and!; cbn [fst snd]; [done|unfold options_blocks; cbn; lia|by intros E0; split; auto|by left].
  - apply wp_ret. split_and!; cbn [fst snd]; [done|unfold options_blocks; rewrite Ho; cbn; lia|done|by right].
Qed.

Lemma wp_save_options h :
  0 <= live h ->
  wp (ares_save_options c) h (fun '(st, o, m) h' => m = Some (save_mask (k_rotate c)) /\
    save_post h h (saved_options c) (st, o) h').
Proof.
  intros Hl. unfold ares_save_options. rewrite (cp_check _ _ Hc). cbn [negb]. apply wp_bind.
  apply (wp_mono _ _ (save_post h h (saved_options c))); [|intros [st o] h' H; by apply wp_ret].
  assert (R0 : releasable (save_scalars c)) by (split; cbn; [lia|constructor]).
  eapply wp_save_then.
  { eapply wp_mono; [by apply wp_save_servers|]. intros r h' (H1 & H2 & H3 & H4). cbn in H2.
    split_and!; [done|unfold options_blocks at 1 in H2; cbn in H2; lia|done|exact H4]. }
  intros h1 L1 R1. eapply wp_save_then; [by apply wp_save_domains|].
  intros h2 L2 R2. eapply wp_save_then; [by apply wp_save_lookups|].
  intros h3 L3 R3. by apply wp_save_sortlist.
Qed.
End save.

(** ** Initialisation from complete options *)

(** The host name is not asked for when the domains are known. *)
Lemma init_by_defaults_known fuel sys fuel' sys' c h :
  k_ndomains c <> -1 -> init_by_defaults fuel sys c h = init_by_defaults fuel' sys' c h.
Proof.
  intros Hn. unfold init_by_defaults, default_servers.
  assert (E : forall c', k_ndomains c' = k_ndomains c -> default_domains fuel sys c' = default_domains fuel' sys' c').
  { intros c' E. unfold default_domains. by rewrite E, (proj2 (Z.eqb_neq _ _) Hn). }
  unfold mbind, M_bind. change (k_nservers (default_scalars c)) with (k_nservers c).
  destruct (k_nservers c =? -1); cbn; [|by rewrite E].
  destruct (c_malloc h) as [[] h1| |]; cbn; [by rewrite E|done|done|done].
Qed.

Lemma wp_ext {A} (m m' : M A) h : m h = m' h -> forall Q, wp m' h Q -> wp m h Q.
Proof. unfold wp. by intros ->. Qed.

Definition plain_system : system :=
  System None None (FopenError ENOENT) (FopenError ENOENT) (FopenError ENOENT) (FopenError ENOENT)
    (fun len => if len <=? 0 then TooLong else HostName []).

Lemma plain_hostname : hostname_ok 1 (gethostname plain_system).
Proof.
  split.
  - cbn. intros len name. destruct (Z.leb_spec len 0); [done|]. intros [= <-]. unfold Zlen. cbn. lia.
  - exists 0%nat. cbn. split; [lia|done].
Qed.

(** The environment changes nothing that is set. *)
Lemma spec_env_set sys c :
  k_ndomains c <> -1 -> k_ndots c <> -1 -> k_timeout c <> -1 -> k_tries c <> -1 -> k_rotate c <> -1 -> spec_env sys c = c.
Proof.
  intros H1 H2 H3 H4 H5. unfold spec_env. apply Z.eqb_neq in H1. rewrite H1.
  assert (E : forall x y, x <> -1 -> if_unset x y = x) by (intros x y Hx; unfold if_unset; by rewrite (proj2 (Z.eqb_neq _ _) Hx)).
  destruct (localdomain sys), (res_options sys) as [s|]; try done; unfold with_options, option_number;
    destruct (option_value str_ndots s), (option_value str_retrans s), (option_value str_retry s), (option_value str_rotate s);
    rewrite ?E by done; by destruct c.
Qed.

Section complete.
Context (inet_addr inet_pton4 inet_pton6 : list Z -> option (list Z)) (o : ares_options) (optmask : Z) (Ho : options_ok o optmask).

(** When the options set everything, neither files nor the host name are read and
    the channel is the one they describe. *)
Lemma wp_init_complete fuel sys random h :
  0 <= live h -> random_ok random -> oracle h = [] ->
  let c := options_conf o optmask in
  config_check c = true -> k_rotate c <> -1 -> spec_defaults 1 plain_system c = default_scalars c ->
  wp (ares_init_options inet_addr inet_pton4 inet_pton6 fuel sys random o optmask) h (fun r h' => oracle h' = [] /\
    exists ch, r = inr ch /\ ch_conf ch = trim_servers (default_scalars c) /\ live h' = live h + 1 + conf_blocks (ch_conf ch)).
Proof.
  intros Hl Hr Eo c Hck Hrot Hdef. subst c. set (c := options_conf o optmask) in *.
  assert (Hset : k_ndomains c <> -1 /\ k_ndots c <> -1 /\ k_timeout c <> -1 /\ k_tries c <> -1).
  { unfold config_check in Hck. repeat rewrite andb_true_iff in Hck.
    destruct Hck as ((((((_ & _) & _) & ?%Z.ltb_lt) & ?%Z.ltb_lt) & ?%Z.ltb_lt) & ?%Z.ltb_lt). lia. }
  destruct Hset as (Hnd & Hdots & Htim & Htri). pose proof (spec_env_set sys c Hnd Hdots Htim Htri Hrot) as Henv.
  unfold ares_init_options. apply wp_bind, wp_malloc; intros oo Hoo; [|done]. specialize (Hoo Eo). subst oo. cbn [negb].
  apply wp_bind. eapply wp_mono; [by apply wp_init_by_options|].
  intros [st1 c1] h1 ([K1 L1 O1] & S1 & E1 & M1 & P1). cbn [fst snd live oracle] in *.
  assert (st1 = ARES_SUCCESS) as -> by auto. rewrite (E1 eq_refl) in *. fold c in K1, L1, P1 |- *. clear E1 M1 c1.
  change (conf_blocks unset_conf) with 0 in L1. assert (Hcb : 0 <= conf_blocks c) by (pose proof (conf_blocks_parts c); unfold conf_blocks; lia). specialize (O1 eq_refl).
  rewrite bool_decide_true by done. cbn [negb]. apply wp_bind, wp_bind. unfold and_then. apply wp_bind.
  eapply wp_mono; [by apply wp_init_by_environment; [|lia|]|].
  intros [st2 c2] h2 ([K2 L2 O2] & S2 & E2 & _ & P2). cbn [fst snd] in *. assert (st2 = ARES_SUCCESS) as -> by auto.
  specialize (E2 eq_refl). rewrite Henv in E2. subst c2. specialize (O2 O1). rewrite bool_decide_true by done.
  unfold init_by_resolv_conf. rewrite Hck. apply wp_ret.
  apply (wp_ext _ _ _ (init_by_defaults_known fuel sys 1 plain_system c h2 Hnd)).
  apply (wp_mono _ _ (fun '(st3, c3) h3 => st3 = ARES_SUCCESS /\ c3 = default_scalars c /\ oracle h3 = [] /\ keeps c h2 c3 h3)).
  { eapply wp_mono; [apply (wp_init_by_defaults inet_addr inet_pton4 inet_pton6); [done|lia|done|apply plain_hostname]|].
    intros [st3 c3] h3 (O3 & P3 & D3 & N3). destruct (decide (st3 = ARES_SUCCESS)) as [E3|E3].
    - destruct (D3 E3) as [D4 D5]. split_and!; [done|congruence|auto|done].
    - destruct (N3 E3) as (_ & _ & _ & _ & [[_ N4]|(_ & N4 & _)]); [by destruct N4|done]. }
  intros [st3 c3] h3 (-> & -> & O3 & [K3 L3 _]). rewrite bool_decide_true by done. apply wp_bind.
  change (conf_blocks (default_scalars c)) with (conf_blocks c) in L3. eapply wp_mono; [apply wp_init_id_key; [done|lia]|]. intros [st'|key] h4 (L4 & H4).
  { by destruct H4 as [_ H4]. }
  destruct H4 as (Hk & _ & O4). destruct (generate_new_id_ok key Hk) as (key' & id & -> & _). apply wp_ret.
  split; [auto|]. eexists. split; [done|]. cbn [ch_conf]. split; [done|]. destruct (conf_ok_trim _ K3) as [_ ->].
  change (conf_blocks (default_scalars c)) with (conf_blocks c). lia.
Qed.
End complete.

(** ** What is proved *)

(** The configuration of a duplicate: that of the channel, but for the sizes of
    the socket buffers and of EDNS packets. *)
Definition dup_conf (c : conf) : conf :=
  Conf (k_flags c) (k_timeout c) (k_tries c) (k_ndots c) (k_rotate c) (k_udp_port c) (k_tcp_port c) (-1) (-1) EDNSPACKETSZ
    (k_sock_state_cb c) (save_mask (k_rotate c)) (k_nservers c) (live_servers c) (k_ndomains c) (k_domains c)
    (k_nsort c) (k_sortlist c) (k_lookups c).

(** What the saved options set. *)
Definition saved_conf (c : conf) : conf :=
  Conf (k_flags c) (k_timeout c) (k_tries c) (k_ndots c) (k_rotate c) (k_udp_port c) (k_tcp_port c) (-1) (-1) (-1)
    (k_sock_state_cb c) (save_mask (k_rotate c)) (Zlen (saved_servers c)) (v4_server <$> saved_servers c) (k_ndomains c) (k_domains c)
    (k_nsort c) (k_sortlist c) (k_lookups c).

Ltac eval_testbits :=
  repeat match goal with |- context [Z.testbit ?m ?b] =>
    let v := eval vm_compute in (Z.testbit m b) in change (Z.testbit m b) with v end.

Lemma htons_sitous p : 0 <= p < 65536 -> htons (htons (aresx_sitous p)) = p.
Proof.
  intros Hp. unfold aresx_sitous. change 65535 with (Z.ones 16). rewrite Z.land_ones, Z.mod_small by lia.
  by apply htons_involutive.
Qed.

Section dup_spec.
Context (c : conf) (ds : list (list Z)) (Hc : complete c ds).

Lemma take_all {A} (l : list A) n : n = Zlen l -> take (Z.to_nat n) l = l.
Proof. intros ->. apply take_ge. unfold Zlen. lia. Qed.

Lemma saved_options_conf : options_conf (saved_options c) (save_mask (k_rotate c)) = saved_conf c.
Proof.
  destruct Hc. unfold options_conf, saved_conf, saved_options. cbn [o_flags o_timeout o_tries o_ndots o_udp_port o_tcp_port o_sndbuf o_rcvbuf
    o_servers o_nservers o_domains o_ndomains o_lookups o_sock_state_cb o_sortlist o_nsort o_ednspsz].
  rewrite !htons_sitous by done. rewrite !take_all by (done || rewrite cp_domains0; unfold Zlen in *; by rewrite length_fmap).
  destruct cp_rotate0 as [-> | ->]; eval_testbits; done.
Qed.

Lemma saved_options_ok : options_ok (saved_options c) (save_mask (k_rotate c)).
Proof.
  destruct Hc. split; cbn.
  - unfold Zlen. lia.
  - rewrite cp_domains0, cp_ndomains0, length_fmap. unfold Zlen. lia.
  - rewrite cp_domains0. apply Forall_fmap, Forall_true. intros x. cbn. by eexists.
  - intros _. unfold config_check in cp_check0. repeat rewrite andb_true_iff in cp_check0.
    destruct cp_check0 as ((((((H%bool_decide_eq_true & _) & _) & _) & _) & _) & _). done.
  - rewrite cp_nsort0. unfold Zlen. lia.
  - done.
  - destruct cp_rotate0 as [-> | ->]; eval_testbits; done.
Qed.

Lemma saved_conf_complete :
  config_check (saved_conf c) = true /\ k_rotate (saved_conf c) <> -1 /\
  spec_defaults 1 plain_system (saved_conf c) = default_scalars (saved_conf c) /\
  default_scalars (saved_conf c) = set_k_servers (Zlen (saved_servers c)) (v4_server <$> saved_servers c) (dup_conf c).
Proof.
  destruct Hc. pose proof (Zlen_nonneg (saved_servers c)). unfold config_check in cp_check0. repeat rewrite andb_true_iff in cp_check0.
  destruct cp_check0 as ((((((H0%bool_decide_eq_true & H1%Z.ltb_lt) & H2%Z.ltb_lt) & H3%Z.ltb_lt) & H4%Z.ltb_lt) & H5%Z.ltb_lt) & H6%Z.ltb_lt).
  assert (Hu : forall x y, x <> -1 -> if_unset x y = x) by (intros x y Hx; unfold if_unset; by rewrite (proj2 (Z.eqb_neq _ _) Hx)).
  assert (Hd : default_scalars (saved_conf c) = set_k_servers (Zlen (saved_servers c)) (v4_server <$> saved_servers c) (dup_conf c)).
  { unfold default_scalars, saved_conf, dup_conf, set_scalars, set_k_servers. cbn. rewrite !Hu by lia. done. }
  split_and!; [| |unfold spec_defaults; rewrite Hd|done].
  - unfold config_check. cbn. rewrite bool_decide_true by done. cbn [andb]. repeat (apply andb_true_iff; split); try apply Z.ltb_lt; lia || done.
  - cbn. lia.
  - cbn. rewrite (proj2 (Z.eqb_neq (Zlen _) (-1))) by lia. cbn. rewrite (proj2 (Z.eqb_neq (k_ndomains c) (-1))) by lia. cbn.
    rewrite (proj2 (Z.eqb_neq (k_nsort c) (-1))) by lia. cbn. by destruct H0 as [x ->].
Qed.

Lemma live_length : length (live_servers c) = Z.to_nat (k_nservers c).
Proof. unfold live_servers. rewrite length_take. pose proof (ko_nservers _ (cp_ok _ _ Hc)). lia. Qed.

Lemma nservers_pos : 0 <= k_nservers c.
Proof.
  pose proof (cp_check _ _ Hc) as H. unfold config_check in H. repeat rewrite andb_true_iff in H.
  destruct H as ((((((_ & _) & H%Z.ltb_lt) & _) & _) & _) & _). lia.
Qed.

Lemma live_Zlen : Zlen (live_servers c) = k_nservers c.
Proof. pose proof nservers_pos. unfold Zlen. rewrite live_length. lia. Qed.

(** Servers that are all on the default ports are saved as they are. *)
Lemma saved_servers_default :
  existsb (fun a => negb (is_default a)) (live_servers c) = false -> v4_server <$> saved_servers c = live_servers c.
Proof.
  pose proof (cp_servers _ _ Hc) as Hs. fold (live_servers c) in Hs. unfold saved_servers. induction Hs as [|a l Ha Hs IH]; [done|].
  cbn [existsb List.filter]. rewrite orb_false_iff, negb_false_iff. intros [Hd Hr]. rewrite Hd. cbn. f_equal; [|by apply IH].
  unfold is_default in Hd. repeat rewrite andb_true_iff in Hd. destruct Hd as ((Hf%bool_decide_eq_true & Hu%Z.eqb_eq) & Ht%Z.eqb_eq).
  destruct Ha as (_ & _ & Ha). rewrite Hf in Ha. destruct a as [f bs u t]. cbn in *. subst. unfold v4_server.
  by rewrite take_ge by (unfold Zlen in Ha; lia).
Qed.

Lemma saved_servers_length : Zlen (saved_servers c) <= k_nservers c.
Proof.
  rewrite <- live_Zlen. unfold saved_servers, Zlen. rewrite length_fmap. apply inj_le. apply List.filter_length_le.
Qed.

(** The trimming leaves a duplicate alone. *)
Lemma trim_saved :
  trim_servers (default_scalars (saved_conf c)) = default_scalars (saved_conf c).
Proof.
  destruct saved_conf_complete as (_ & _ & _ & ->). pose proof (cp_trim _ _ Hc) as Ht. pose proof saved_servers_length as Hle.
  unfold trim_servers in *. cbn. destruct (Z.testbit (k_flags c) ARES_FLAG_PRIMARY); [|done]. cbn [andb] in *.
  destruct (Z.ltb_spec 1 (k_nservers c)).
  - apply (f_equal k_nservers) in Ht. cbn in Ht. lia.
  - destruct (Z.ltb_spec 1 (Zlen (saved_servers c))); [lia|done].
Qed.
End dup_spec.

(** The name of the local device, once it went through [strncpy], is copied as it
    is. *)
Definition sock_ok (s : sock_conf) : Prop := strncpy_dev (sc_dev_name s) = sc_dev_name s.

Lemma set_local_dev_ok name s : text_ok name -> sock_ok (ares_set_local_dev name s).
Proof.
  intros Ht. unfold sock_ok, ares_set_local_dev, strncpy_dev, DEV_NAME_SIZE. cbn [sc_dev_name].
  assert (Hc : c_string name 0 = name).
  { unfold c_string. change (Z.to_nat 0) with 0%nat. rewrite drop_0. induction Ht as [|x l Hx Hl IH]; [done|]. cbn [span].
    destruct (Z.eqb_spec x 0); [lia|]. destruct (span (fun c => c =? 0) l). cbn in *. by rewrite IH. }
  rewrite Hc. set (t := take 31 name).
  assert (E : <[31%nat := 0]> (take 32 (name ++ replicate 32 0)) = t ++ replicate (32 - length t) 0).
  { apply list_eq_same_length with 32%nat; [|rewrite length_insert, length_take, length_app, length_replicate; lia|].
    - unfold t. rewrite length_app, length_replicate, length_take. lia.
    - intros i x y Hi Hx Hy. destruct (decide (i = 31%nat)) as [->|Hne].
      + rewrite list_lookup_insert_eq in Hx by (rewrite length_take, length_app, length_replicate; lia). injection Hx as <-.
        rewrite lookup_app_r in Hy by (unfold t; rewrite length_take; lia). by apply lookup_replicate in Hy as [-> _].
      + rewrite list_lookup_insert_ne, lookup_take_lt in Hx by lia. destruct (decide (i < length name)%nat) as [Hl|Hl].
        * rewrite lookup_app_l in Hx, Hy by (unfold t; rewrite ?length_take; lia). unfold t in Hy. rewrite lookup_take_lt in Hy by lia. congruence.
        * rewrite lookup_app_r in Hx, Hy by (unfold t; rewrite ?length_take; lia).
          apply lookup_replicate in Hx as [-> _]. by apply lookup_replicate in Hy as [-> _]. }
  rewrite E. assert (Hlen : (length t <= 31)%nat) by (unfold t; rewrite length_take; lia).
  destruct (32 - length t)%nat as [|k] eqn:Ek; [lia|].
  change (replicate (S k) 0) with (0 :: replicate k 0). rewrite (c_string_app [] t (replicate k 0)) by (done || by apply Forall_take).
  rewrite take_app_ge by lia. f_equal. rewrite Ek. change (0 :: replicate k 0) with (replicate (S k) 0). rewrite take_replicate. f_equal. lia.
Qed.

Section dup_theorems.
Context (inet_addr inet_pton4 inet_pton6 : list Z -> option (list Z)) (fuel : nat) (sys : system) (random : list Z).
Local Abbreviation ares_dup := (ares_dup inet_addr inet_pton4 inet_pton6 fuel sys random).

(** [ares_dup] duplicates a channel. When no allocation fails, the new
    channel has the flags, the numbers, the ports, the callbacks, the local
    addresses, the search domains, the sort list, the order of lookups and all the
    servers of the old one, with their ports and IPv6 addresses, whatever the
    environment and the files say; it owns exactly the new blocks. What is not
    copied are the sizes of the socket buffers and of EDNS packets: they are the
    defaults, whatever the old channel had. *)
Theorem ares_dup_correct src ds h :
  complete (ch_conf (fc_channel src)) ds -> sock_ok (fc_sock src) -> random_ok random -> 0 <= live h -> oracle h = [] ->
  wp (ares_dup src) h (fun r h' => exists dest, r = inr dest /\ ch_conf (fc_channel dest) = dup_conf (ch_conf (fc_channel src)) /\
    fc_sock dest = fc_sock src /\ live h' = live h + 1 + conf_blocks (ch_conf (fc_channel dest))).
Proof.
  intros Hc Hs Hr Hl Eo. unfold Dup.ares_dup. set (c := ch_conf (fc_channel src)) in *.
  assert (Hsock : SockConf (sc_create_cb (fc_sock src)) (sc_config_cb (fc_sock src)) (sc_funcs (fc_sock src))
    (strncpy_dev (sc_dev_name (fc_sock src))) (sc_ip4 (fc_sock src)) (sc_ip6 (fc_sock src)) = fc_sock src).
  { unfold sock_ok in Hs. rewrite Hs. by destruct (fc_sock src). }
  apply wp_bind. eapply wp_mono; [by eapply wp_save_options|]. intros [[rc o] m] h1 (-> & H1 & H2 & H3 & H4). cbn [fst snd] in *.
  destruct (H3 Eo) as [-> Eo1]. destruct H4 as [[_ ->]|]; [|done]. rewrite bool_decide_true by done.
  assert (0 <= options_blocks (saved_options c)).
  { unfold options_blocks. pose proof (arr_blocks_range (o_servers (saved_options c))). pose proof (arr_blocks_range (o_domains (saved_options c))).
    pose proof (somes_nonneg (o_domains (saved_options c))). pose proof (arr_blocks_range (o_sortlist (saved_options c))).
    pose proof (blocks_opt_nonneg (o_lookups (saved_options c))). lia. }
  destruct (saved_conf_complete c ds Hc) as (S1 & S2 & S3 & S4). pose proof (saved_options_conf c ds Hc) as So.
  apply wp_bind. eapply wp_mono; [apply wp_init_complete; [by eapply saved_options_ok|lia|done|done|by rewrite So..]|].
  rewrite So. rewrite (trim_saved c ds Hc), S4. intros r h2 (Eo2 & ch & -> & Ech & L2).
  apply wp_bind, wp_destroy_options; [done|rewrite L2; pose proof (conf_blocks_parts (ch_conf ch)); unfold conf_blocks; lia|].
  apply wp_bind, wp_read_array; [apply (cp_ok _ _ Hc)|]. fold (live_servers c). rewrite Hsock.
  destruct (existsb _ (live_servers c)) eqn:Ex.
  - assert (Hpos : live_servers c <> []) by (by intros E; rewrite E in Ex).
    apply wp_bind. eapply wp_mono; [apply wp_get_servers; [apply server_port_node_blocks|apply (cp_ok _ _ Hc)|]|].
    { cbn [live]. pose proof (conf_blocks_parts (ch_conf ch)). unfold conf_blocks in L2. lia. }
    intros [st l] h3 (L3 & O3 & G3). cbn [oracle live] in *. destruct (O3 Eo2) as [-> Eo3].
    destruct G3 as [[_ El]|[? _]]; [|done]. fold (live_servers c) in El. rewrite bool_decide_true by done. cbn [negb].
    pose proof (list_blocks_nonneg l). pose proof (conf_blocks_parts (ch_conf ch)).
    assert (Es : port_node_server <$> l = live_servers c).
    { rewrite El, <- list_fmap_compose. transitivity (id <$> live_servers c); [|by rewrite list_fmap_id].
      apply list_fmap_ext. intros i a Ha. cbn. apply port_node_roundtrip. pose proof (cp_servers _ _ Hc) as Hok.
      fold (live_servers c) in Hok. rewrite Forall_lookup in Hok. by eapply Hok. }
    apply wp_bind. eapply wp_mono; [apply wp_replace; unfold conf_blocks in L2; lia|]. rewrite Es.
    intros [st c'] h4 (G1 & G2 & G4). destruct (G2 Eo3) as [-> _]. pose proof (arr_blocks_range (k_servers c')).
    apply wp_bind, wp_free_data; [unfold conf_blocks in L2; lia|]. rewrite bool_decide_true by done. cbn [negb]. apply wp_ret.
    destruct G4 as [(_ & _ & ->)|[[[_ E]|E] _]]; [|done|done].
    eexists. split; [done|]. cbn [fc_channel fc_sock ch_conf]. split_and!; [|done|].
    + rewrite Ech, (live_Zlen c ds Hc). done.
    + cbn [live]. unfold conf_blocks in L2 |- *. cbn in G1 |- *. lia.
  - apply wp_ret. eexists. split; [done|]. cbn [fc_channel fc_sock]. split_and!; [|done|cbn [live]; lia].
    rewrite Ech, (saved_servers_default c ds Hc Ex).
    assert (E : Zlen (saved_servers c) = k_nservers c).
    { rewrite <- (live_Zlen c ds Hc), <- (saved_servers_default c ds Hc Ex). unfold Zlen. by rewrite length_fmap. }
    rewrite E. done.
Qed.
End dup_theorems.

(** ** A channel to duplicate *)

(** An IPv6 server and an IPv4 server with a port, two domains, and a size of EDNS
    packets of its own. *)
Definition ex_src_conf : conf :=
  Conf 0 5000 4 1 1 (htons 53) (htons 53) 8192 8192 4096 None 0
    2 [AresAddr (Some AF_INET6) (replicate 16 1) 0 0; AresAddr (Some AF_INET) [10; 0; 0; 1] (htons 5353) (htons 5353)]
    2 [Some [97]; Some [98; 99]] 1 [Apattern [10; 0; 0; 0] (PATTERN_CIDR 8) AF_INET] (Some [102; 98]).

Definition ex_src : full_channel :=
  FullChannel (Channel ex_src_conf (RC4 (replicate 256 0) 0 0) 7) (ares_set_local_dev [101; 116; 104; 48] (ares_set_local_ip4 1 no_sock_conf)).

Lemma ex_src_complete : complete ex_src_conf [[97]; [98; 99]].
Proof.
  assert (Hd : domains_ok 2 [Some [97]; Some [98; 99]]) by apply (domains_ok_full [[97]; [98; 99]]).
  constructor; [by constructor; [| |exact Hd|]|reflexivity|discriminate|by right|done|done|reflexivity|reflexivity|reflexivity| | |reflexivity].
  - apply Forall_singleton. by vm_compute.
  - repeat (apply Forall_cons; split; [done|]). by apply Forall_nil.
Qed.

Lemma ares_dup_correct_witness :
  exists dest h', ares_dup ex_inet4 ex_inet4 ex_inet6 1 plain_system (replicate ARES_ID_KEY_LEN 7) ex_src (Heap 0 []) = Ret (inr dest) h' /\
    k_servers (ch_conf (fc_channel dest)) = k_servers ex_src_conf /\ k_ednspsz (ch_conf (fc_channel dest)) = EDNSPACKETSZ /\
    fc_sock dest = fc_sock ex_src.
Proof.
  destruct (wp_outcome _ _ _ (ares_dup_correct ex_inet4 ex_inet4 ex_inet6 1 plain_system (replicate ARES_ID_KEY_LEN 7) ex_src [[97]; [98; 99]] (Heap 0 [])
    ex_src_complete ltac:(vm_compute; reflexivity) ltac:(split; [reflexivity|by apply Forall_replicate]) ltac:(cbn; lia) eq_refl))
    as (r & h' & E & dest & -> & H1 & H2 & _).
  exists dest, h'. split; [exact E|]. rewrite H1. split; [reflexivity|]. split; [reflexivity|exact H2].
Defined.
