(* ===== verification/Fds.v ===== *)
(** * The descriptors to wait for (c-ares: ares_fds.c, ares_getsock.c)

    [ares_fds] puts the sockets of a channel into the two sets that [select]
    takes; [ares_getsock] puts them into an array, with a bit map that says which
    to wait for how. They are two views of the same thing, and are proved to agree
    where both can express it. *)

From S2P Require Import Prelude DnsWire ParseHost Channel Resolver ResolverInv ResolverSend ResolverIO ResolverTheorems.
Open Scope Z_scope.

(** ** [ares_fds] *)

Definition FD_SETSIZE : Z := 1024.

(** [FD_SET]: outside of the set it writes beyond its memory. *)
Definition FD_SET (fd : Z) (s : gset Z) : M (gset Z) :=
  assert_c ((0 <=? fd) && (fd <? FD_SETSIZE)) ;; mret ({[ fd ]} ∪ s).

Record fd_result := FdResult { nfds : Z; read_fds : gset Z; write_fds : gset Z }.

Definition raise_nfds (fd nfds : Z) : Z := if nfds <=? fd then fd + 1 else nfds.

Definition queued (s : server_state) : bool := match sendq s with [] => false | _ => true end.

(** The body of the loop for one server. *)
Definition fds_server (active_queries : bool) (server : server_state) (r : fd_result) : M fd_result :=
  r ← (if active_queries && negb (udp_socket server =? ARES_SOCKET_BAD) then
         rd ← FD_SET (udp_socket server) (read_fds r);
         mret (FdResult (raise_nfds (udp_socket server) (nfds r)) rd (write_fds r))
       else mret r);
  if negb (tcp_socket server =? ARES_SOCKET_BAD) then
    rd ← FD_SET (tcp_socket server) (read_fds r);
    wr ← (if queued server then FD_SET (tcp_socket server) (write_fds r) else mret (write_fds r));
    mret (FdResult (raise_nfds (tcp_socket server) (nfds r)) rd wr)
  else mret r.

Fixpoint fds_loop (active_queries : bool) (servers : list server_state) (r : fd_result) : M fd_result :=
  match servers with
  | [] => mret r
  | server :: servers' => r ← fds_server active_queries server r; fds_loop active_queries servers' r
  end.

(** [!ares__is_list_empty(&(channel->all_queries))] *)
Definition active_queries (c : chan) : bool := match all_queries c with [] => false | _ => true end.

Definition ares_fds (c : chan) (read_fds write_fds : gset Z) : M fd_result :=
  fds_loop (active_queries c) (servers c) (FdResult 0 read_fds write_fds).

(** ** [ares_getsock] *)

Definition ARES_GETSOCK_MAXNUM : Z := 16.

(** [1 << n] of an [int]: undefined when the result is not one. *)
Definition int_bit (n : Z) : M Z := assert_c ((0 <=? n) && (n <? 31)) ;; mret (Z.shiftl 1 n).

(** The macros on a word whose bits are all set. *)
Definition ARES_GETSOCK_READABLE (bits num : Z) : M Z := b ← int_bit num; mret (Z.land bits b).
Definition ARES_GETSOCK_WRITABLE (bits num : Z) : M Z := b ← int_bit (num + ARES_GETSOCK_MAXNUM); mret (Z.land bits b).

Definition setbits : Z := 4294967295.

(** [socks] is what is stored so far, its length the index. [None] is the
    [break]. *)
Definition full (numsocks : Z) (socks : list Z) : bool :=
  (numsocks <=? Zlen socks) || (ARES_GETSOCK_MAXNUM <=? Zlen socks).

Fixpoint getsock_loop (active_queries : bool) (numsocks : Z) (servers : list server_state) (socks : list Z) (bitmap : Z)
    : M (Z * list Z) :=
  match servers with
  | [] => mret (bitmap, socks)
  | server :: servers' =>
      if active_queries && negb (udp_socket server =? ARES_SOCKET_BAD) && full numsocks socks then mret (bitmap, socks)
      else
        '(bitmap, socks) ←
          (if active_queries && negb (udp_socket server =? ARES_SOCKET_BAD) then
             b ← ARES_GETSOCK_READABLE setbits (Zlen socks);
             mret (Z.lor bitmap b, socks ++ [udp_socket server])
           else mret (bitmap, socks));
        if negb (tcp_socket server =? ARES_SOCKET_BAD) then
          if full numsocks socks then mret (bitmap, socks)
          else
            b ← ARES_GETSOCK_READABLE setbits (Zlen socks);
            let bitmap := Z.lor bitmap b in
            bitmap ← (if queued server && active_queries
                      then b ← ARES_GETSOCK_WRITABLE setbits (Zlen socks); mret (Z.lor bitmap b)
                      else mret bitmap);
            getsock_loop active_queries numsocks servers' (socks ++ [tcp_socket server]) bitmap
        else getsock_loop active_queries numsocks servers' socks bitmap
  end.

Definition ares_getsock (c : chan) (numsocks : Z) : M (Z * list Z) :=
  getsock_loop (active_queries c) numsocks (servers c) [] 0.

(** ** The sockets to wait for *)

Definition server_interest (act : bool) (writable : server_state -> bool) (s : server_state) : list (Z * bool) :=
  (if act && negb (udp_socket s =? ARES_SOCKET_BAD) then [(udp_socket s, false)] else []) ++
  (if negb (tcp_socket s =? ARES_SOCKET_BAD) then [(tcp_socket s, writable s)] else []).

(** The sockets in the order of the servers, each with whether to wait until it can
    be written: always for reading. *)
Definition interest (act : bool) (writable : server_state -> bool) (l : list server_state) : list (Z * bool) :=
  concat (server_interest act writable <$> l).

Definition readers (l : list (Z * bool)) : gset Z := list_to_set l.*1.
Definition writers (l : list (Z * bool)) : gset Z := list_to_set (List.filter snd l).*1.
Definition above (l : list (Z * bool)) (n : Z) : Z := foldl (fun n p => raise_nfds p.1 n) n l.

Definition in_set (p : Z * bool) : Prop := 0 <= p.1 < FD_SETSIZE.

Lemma wp_FD_SET fd s h (Q : gset Z -> heap -> Prop) : 0 <= fd < FD_SETSIZE -> Q ({[ fd ]} ∪ s) h -> wp (FD_SET fd s) h Q.
Proof.
  intros Hf HQ. unfold FD_SET. apply wp_bind, wp_assert; [apply andb_true_iff; split; [apply Z.leb_le|apply Z.ltb_lt]; lia|]. by apply wp_ret.
Qed.

Lemma wp_fds_server act s r h :
  Forall in_set (server_interest act queued s) ->
  wp (fds_server act s r) h (fun r' h' => h' = h /\
    r' = FdResult (above (server_interest act queued s) (nfds r)) (readers (server_interest act queued s) ∪ read_fds r)
           (writers (server_interest act queued s) ∪ write_fds r)).
Proof.
  intros Hs. unfold fds_server. unfold server_interest in *. apply Forall_app in Hs as [Hu Ht]. apply wp_bind.
  apply (wp_mono _ _ (fun r1 h1 => h1 = h /\ nfds r1 = above (if act && negb (udp_socket s =? ARES_SOCKET_BAD) then [(udp_socket s, false)] else []) (nfds r) /\
    read_fds r1 = (if act && negb (udp_socket s =? ARES_SOCKET_BAD) then {[ udp_socket s ]} else ∅) ∪ read_fds r /\ write_fds r1 = write_fds r)).
  { destruct (act && _).
    - apply Forall_cons in Hu as [Hu _]. by apply wp_bind, wp_FD_SET; [|apply wp_ret].
    - apply wp_ret. split_and!; [done..|by rewrite (left_id_L ∅ (∪))|done]. }
  intros r1 h1 (-> & E1 & E2 & E3). unfold readers, writers, above in *. rewrite !fmap_app, List.filter_app, !fmap_app, foldl_app, <- E1.
  assert (Hr : (list_to_set (if act && negb (udp_socket s =? ARES_SOCKET_BAD) then [(udp_socket s, false)] else []).*1 : gset Z) =
    if act && negb (udp_socket s =? ARES_SOCKET_BAD) then {[ udp_socket s ]} else ∅) by (destruct (act && _); cbn; set_solver).
  assert (Hw : (List.filter snd (if act && negb (udp_socket s =? ARES_SOCKET_BAD) then [(udp_socket s, false)] else [])) = [])
    by (by destruct (act && _)).
  rewrite !list_to_set_app_L, Hr, Hw. destruct (negb (tcp_socket s =? ARES_SOCKET_BAD)).
  - apply Forall_cons in Ht as [Ht _]. apply wp_bind, wp_FD_SET; [done|]. destruct (queued s).
    + apply wp_bind, wp_FD_SET; [done|]. apply wp_ret. split; [done|]. cbn. rewrite E2, E3. f_equal; set_solver.
    + apply wp_bind, wp_ret. apply wp_ret. split; [done|]. cbn. rewrite E2, E3. f_equal; set_solver.
  - apply wp_ret. split; [done|]. destruct r1. cbn in *. subst. f_equal; set_solver.
Qed.

Lemma wp_fds_loop act l r h :
  Forall in_set (interest act queued l) ->
  wp (fds_loop act l r) h (fun r' h' => h' = h /\
    r' = FdResult (above (interest act queued l) (nfds r)) (readers (interest act queued l) ∪ read_fds r)
           (writers (interest act queued l) ∪ write_fds r)).
Proof.
  revert r. induction l as [|s l IH]; intros r Hl; cbn [fds_loop].
  { apply wp_ret. split; [done|]. destruct r. cbn. f_equal; set_solver. }
  unfold interest in *. cbn [fmap list_fmap concat] in *. apply Forall_app in Hl as [Hs Hl]. apply wp_bind.
  eapply wp_mono; [by apply wp_fds_server|]. intros r1 h1 [-> ->]. eapply wp_mono; [by apply IH|]. intros r2 h2 [-> ->]. split; [done|].
  cbn [nfds read_fds write_fds]. unfold above, readers, writers. rewrite foldl_app, fmap_app, List.filter_app, fmap_app, !list_to_set_app_L.
  f_equal; set_solver.
Qed.

(** ** The bit map *)

(** Bit [i] of each socket, and bit [i + 16] of those to write to. *)
Fixpoint bits_from (i : Z) (l : list (Z * bool)) : Z :=
  match l with
  | [] => 0
  | (_, w) :: l' => Z.lor (Z.lor (Z.shiftl 1 i) (if w : bool then Z.shiftl 1 (i + 16) else 0)) (bits_from (i + 1) l')
  end.

Lemma bits_from_app i l1 l2 : bits_from i (l1 ++ l2) = Z.lor (bits_from i l1) (bits_from (i + Zlen l1) l2).
Proof.
  revert i. induction l1 as [|[fd w] l1 IH]; intros i; cbn [app bits_from].
  - change (Zlen (@nil (Z * bool))) with 0. by rewrite Z.add_0_r.
  - rewrite IH, Z.lor_assoc. do 2 f_equal. unfold Zlen. cbn [length]. lia.
Qed.

Lemma testbit_shift n i : 0 <= n -> 0 <= i -> Z.testbit (Z.shiftl 1 n) i = (i =? n).
Proof. intros Hn Hi. rewrite Z.shiftl_1_l, Z.pow2_bits_eqb by lia. apply Z.eqb_sym. Qed.

(** Reading the map: a socket at index [k] is set for reading, and for writing if
    it is one to write to. *)
Lemma bits_from_testbit i l k :
  0 <= i -> 0 <= k -> i + Zlen l <= 16 -> k < 16 ->
  Z.testbit (bits_from i l) k = (i <=? k) && (k <? i + Zlen l) /\
  Z.testbit (bits_from i l) (k + 16) = (i <=? k) && match l !! Z.to_nat (k - i) with Some (_, w) => w | None => false end.
Proof.
  revert i. induction l as [|[fd w] l IH]; intros i Hi Hk Hl Hk16; cbn [bits_from].
  { rewrite !Z.bits_0. change (Zlen (@nil (Z * bool))) with 0. rewrite lookup_nil, andb_false_r.
    destruct (Z.leb_spec i k), (Z.ltb_spec k (i + 0)); cbn; split; done || lia. }
  assert (Hlen : Zlen ((fd, w) :: l) = 1 + Zlen l) by (unfold Zlen; cbn; lia). assert (0 <= Zlen l) by (unfold Zlen; lia).
  rewrite Hlen in *. destruct (IH (i + 1)) as [H1 H2]; [lia..|]. rewrite !Z.lor_spec, H1, H2, !testbit_shift by lia.
  assert (Hw : forall j, 0 <= j -> Z.testbit (if w then Z.shiftl 1 (i + 16) else 0) j = w && (j =? i + 16)).
  { intros j Hj. destruct w; [by apply testbit_shift; lia|by rewrite Z.bits_0]. }
  rewrite !Hw by lia. destruct (Z.eqb_spec k (i + 16)); [lia|]. rewrite andb_false_r, orb_false_r. destruct (Z.eqb_spec (k + 16) i); [lia|].
  replace (k + 16 =? i + 16) with (k =? i) by (destruct (Z.eqb_spec k i), (Z.eqb_spec (k + 16) (i + 16)); done || lia).
  destruct (Z.eqb_spec k i) as [->|Hne].
  - rewrite Z.sub_diag. cbn [orb Z.to_nat lookup list_lookup]. rewrite Z.leb_refl. destruct (Z.ltb_spec i (i + (1 + Zlen l))); [|lia].
    destruct (Z.leb_spec (i + 1) i); [lia|]. cbn. rewrite andb_true_r, orb_false_r. done.
  - rewrite andb_false_r. cbn [orb]. destruct (Z.leb_spec i k) as [Hle|Hle].
    + destruct (Z.leb_spec (i + 1) k); [|lia]. cbn [andb]. split.
      * destruct (Z.ltb_spec k (i + 1 + Zlen l)), (Z.ltb_spec k (i + (1 + Zlen l))); done || lia.
      * replace (Z.to_nat (k - i)) with (S (Z.to_nat (k - (i + 1)))) by lia. done.
    + destruct (Z.leb_spec (i + 1) k); [lia|]. done.
Qed.

(** ** The array of sockets *)

Definition writable_now (act : bool) (s : server_state) : bool := queued s && act.

Lemma wp_readable i h (Q : Z -> heap -> Prop) :
  0 <= i < 16 -> Q (Z.shiftl 1 i) h -> wp (ARES_GETSOCK_READABLE setbits i) h Q.
Proof.
  intros Hi HQ. apply wp_bind, wp_bind, wp_assert; [apply andb_true_iff; split; [apply Z.leb_le|apply Z.ltb_lt]; lia|]. apply wp_ret, wp_ret.
  replace (Z.land setbits (Z.shiftl 1 i)) with (Z.shiftl 1 i); [done|]. change setbits with (Z.ones 32). rewrite Z.land_comm, Z.land_ones by lia.
  rewrite Z.mod_small; [done|]. rewrite Z.shiftl_1_l. split; [lia|]. apply Z.pow_lt_mono_r; lia.
Qed.

Lemma wp_writable i h (Q : Z -> heap -> Prop) :
  0 <= i < 15 -> Q (Z.shiftl 1 (i + 16)) h -> wp (ARES_GETSOCK_WRITABLE setbits i) h Q.
Proof.
  intros Hi HQ. unfold ARES_GETSOCK_WRITABLE, ARES_GETSOCK_MAXNUM.
  apply wp_bind, wp_bind, wp_assert; [apply andb_true_iff; split; [apply Z.leb_le|apply Z.ltb_lt]; lia|]. apply wp_ret, wp_ret.
  replace (Z.land setbits (Z.shiftl 1 (i + 16))) with (Z.shiftl 1 (i + 16)); [done|].
  change setbits with (Z.ones 32). rewrite Z.land_comm, Z.land_ones by lia.
  rewrite Z.mod_small; [done|]. rewrite Z.shiftl_1_l. split; [lia|]. apply Z.pow_lt_mono_r; lia.
Qed.

(** The array holds as many sockets as fit; the index 15 must not be one to
    write to. *)
Definition capacity (numsocks : Z) : nat := Z.to_nat (Z.min numsocks ARES_GETSOCK_MAXNUM).

Definition last_bit_free (numsocks : Z) (l : list (Z * bool)) : Prop :=
  16 <= numsocks -> forall fd, l !! 15%nat <> Some (fd, true).

Lemma full_capacity numsocks (d : list (Z * bool)) :
  0 <= numsocks -> full numsocks d.*1 = bool_decide (capacity numsocks <= length d)%nat.
Proof.
  intros Hn. unfold full, capacity, ARES_GETSOCK_MAXNUM, Zlen. rewrite length_fmap.
  destruct (Z.leb_spec numsocks (Z.of_nat (length d))), (Z.leb_spec 16 (Z.of_nat (length d))); cbn; symmetry;
    (apply bool_decide_eq_true || apply bool_decide_eq_false); lia.
Qed.

Lemma wp_getsock_loop act numsocks l d h :
  0 <= numsocks -> (length d <= capacity numsocks)%nat -> last_bit_free numsocks (d ++ interest act (writable_now act) l) ->
  wp (getsock_loop act numsocks l d.*1 (bits_from 0 d)) h (fun '(bitmap, socks) h' => h' = h /\
    let r := take (capacity numsocks) (d ++ interest act (writable_now act) l) in socks = r.*1 /\ bitmap = bits_from 0 r).
Proof.
  intros Hn. revert d. induction l as [|s l IH]; intros d Hd Hb; cbn [getsock_loop].
  { apply wp_ret. unfold interest. cbn. rewrite app_nil_r, take_ge by done. done. }
  unfold interest in *. cbn [fmap list_fmap concat] in *. set (rest := concat (server_interest act (writable_now act) <$> l)) in *. clearbody rest.
  unfold server_interest in *. rewrite <- app_assoc in *.
  assert (Hfull : forall d' r : list (Z * bool), length d' = capacity numsocks -> take (capacity numsocks) (d' ++ r) = d').
  { intros d' r E. by rewrite <- E, take_app_length. }
  assert (Hone : forall (d' : list (Z * bool)) (fd : Z), (length d' < capacity numsocks)%nat -> 0 <= Zlen d'.*1 < 16 /\ (length (d' ++ [(fd, false)]) <= capacity numsocks)%nat).
  { intros d' fd H. unfold Zlen, capacity, ARES_GETSOCK_MAXNUM in *. rewrite length_fmap, length_app. cbn. lia. }
  assert (Hz : forall d' : list (Z * bool), Zlen d'.*1 = Zlen d') by (intros d'; unfold Zlen; by rewrite length_fmap).
  (* the TCP socket *)
  assert (Htcp : forall d', (length d' <= capacity numsocks)%nat ->
    last_bit_free numsocks (d' ++ (if negb (tcp_socket s =? ARES_SOCKET_BAD) then [(tcp_socket s, writable_now act s)] else []) ++ rest) ->
    wp (if negb (tcp_socket s =? ARES_SOCKET_BAD) then
          if full numsocks d'.*1 then mret (bits_from 0 d', d'.*1)
          else b ← ARES_GETSOCK_READABLE setbits (Zlen d'.*1); let bitmap := Z.lor (bits_from 0 d') b in
            bitmap ← (if queued s && act then b ← ARES_GETSOCK_WRITABLE setbits (Zlen d'.*1); mret (Z.lor bitmap b) else mret bitmap);
            getsock_loop act numsocks l (d'.*1 ++ [tcp_socket s]) bitmap
        else getsock_loop act numsocks l d'.*1 (bits_from 0 d')) h (fun '(bitmap, socks) h' => h' = h /\
      let r := take (capacity numsocks) (d' ++ (if negb (tcp_socket s =? ARES_SOCKET_BAD) then [(tcp_socket s, writable_now act s)] else []) ++ rest) in
      socks = r.*1 /\ bitmap = bits_from 0 r)).
  { intros d' Hd' Hb'. destruct (negb (tcp_socket s =? ARES_SOCKET_BAD)); [|by apply IH]. rewrite full_capacity by done.
    destruct (bool_decide_reflect (capacity numsocks <= length d')%nat) as [Hf|Hf].
    { apply wp_ret. rewrite Hfull by lia. done. }
    destruct (Hone d' (tcp_socket s)) as [Hi Hl]; [lia|]. apply wp_bind, wp_readable; [done|]. cbv zeta.
    assert (Hgo : forall b, b = bits_from 0 (d' ++ [(tcp_socket s, writable_now act s)]) ->
      wp (getsock_loop act numsocks l (d'.*1 ++ [tcp_socket s]) b) h (fun '(bitmap, socks) h' => h' = h /\
        let r := take (capacity numsocks) (d' ++ [(tcp_socket s, writable_now act s)] ++ rest) in socks = r.*1 /\ bitmap = bits_from 0 r)).
    { intros b ->. replace (d'.*1 ++ [tcp_socket s]) with ((d' ++ [(tcp_socket s, writable_now act s)]).*1) by (by rewrite fmap_app).
      rewrite app_assoc in *. apply IH; [|done]. rewrite length_app in *. cbn in *. lia. }
    rewrite bits_from_app in Hgo. cbn [bits_from] in Hgo. rewrite Z.add_0_l, <- Hz in Hgo. unfold writable_now in *.
    destruct (queued s && act) eqn:Eq.
    - apply wp_bind, wp_bind, wp_writable.
      { destruct (decide (Zlen d'.*1 = 15)) as [E15|]; [|lia]. exfalso. apply (Hb') with (tcp_socket s).
        - unfold capacity, ARES_GETSOCK_MAXNUM, Zlen in *. rewrite length_fmap in *. lia.
        - unfold Zlen in E15. rewrite length_fmap in E15. rewrite lookup_app_r by lia. replace (15 - length d')%nat with 0%nat by lia. done. }
      apply wp_ret, Hgo. by rewrite Z.lor_0_r, Z.lor_assoc.
    - apply wp_bind, wp_ret, Hgo. by rewrite !Z.lor_0_r. }
  (* the UDP socket *)
  destruct (act && negb (udp_socket s =? ARES_SOCKET_BAD)); cbn [andb].
  - rewrite full_capacity by done. destruct (bool_decide_reflect (capacity numsocks <= length d)%nat) as [Hf|Hf].
    { apply wp_ret. rewrite Hfull by lia. done. }
    destruct (Hone d (udp_socket s)) as [Hi Hl]; [lia|]. apply wp_bind, wp_bind, wp_readable; [done|]. apply wp_ret.
    specialize (Htcp (d ++ [(udp_socket s, false)])). rewrite bits_from_app, fmap_app in Htcp. cbn [bits_from fmap list_fmap fst] in Htcp.
    rewrite Z.add_0_l, !Z.lor_0_r, <- app_assoc, <- Hz in Htcp. by apply Htcp.
  - apply wp_bind, wp_ret. by apply Htcp.
Qed.

(** ** What is proved *)

Lemma interest_ext act f g l : (forall s, s ∈ l -> f s = g s) -> interest act f l = interest act g l.
Proof.
  intros H. unfold interest. f_equal. apply list_fmap_ext. intros i s Hs. unfold server_interest. rewrite H; [done|].
  by eapply list_elem_of_lookup_2.
Qed.

Lemma above_bound l n fd w : (fd, w) ∈ l -> fd < above l n.
Proof.
  assert (Hm : forall l n, n <= above l n).
  { intros l0. induction l0 as [|[x b] l0 IH]; intros n0; cbn; [lia|]. etransitivity; [|apply IH]. unfold raise_nfds. cbn. destruct (Z.leb_spec n0 x); lia. }
  revert n. induction l as [|[x b] l IH]; intros n; [by intros ?%not_elem_of_nil|]. intros [[= <- <-]|H]%elem_of_cons; [|by apply IH].
  cbn. apply Z.lt_le_trans with (raise_nfds fd n); [|apply Hm]. unfold raise_nfds. destruct (Z.leb_spec n fd); lia.
Qed.

Lemma writers_index l fd :
  (Zlen l <= 16) -> fd ∈ writers l <-> exists i : nat, l.*1 !! i = Some fd /\ Z.testbit (bits_from 0 l) (Z.of_nat i + 16) = true.
Proof.
  intros Hl. unfold writers. rewrite elem_of_list_to_set, list_elem_of_fmap. split.
  - intros ([x w] & -> & H). apply list_elem_of_In, filter_In in H as [Hin Hw]. cbn in Hw. subst w.
    apply list_elem_of_In, list_elem_of_lookup in Hin as [i Hi]. pose proof (lookup_lt_Some _ _ _ Hi). exists i.
    rewrite list_lookup_fmap, Hi. split; [done|]. unfold Zlen in Hl. destruct (bits_from_testbit 0 l (Z.of_nat i)) as [_ ->]; [lia|lia|unfold Zlen; lia|lia|].
    rewrite Z.sub_0_r, Nat2Z.id, Hi. destruct (Z.leb_spec 0 (Z.of_nat i)); [done|lia].
  - intros (i & Hi & Hb). rewrite list_lookup_fmap in Hi. destruct (l !! i) as [[x w]|] eqn:E; [|done]. injection Hi as <-.
    pose proof (lookup_lt_Some _ _ _ E). unfold Zlen in Hl.
    destruct (bits_from_testbit 0 l (Z.of_nat i)) as [_ Hb2]; [lia|lia|unfold Zlen; lia|lia|]. rewrite Hb2, Z.sub_0_r, Nat2Z.id, E in Hb.
    apply andb_true_iff in Hb as [_ ->]. exists (x, true). split; [done|]. apply list_elem_of_In, filter_In. split; [|done].
    apply list_elem_of_In. by eapply list_elem_of_lookup_2.
Qed.

(** [ares_fds] and [ares_getsock] agree. On a channel with at most 16
    sockets of interest, all of which a [select] set can hold, whose array has room
    for them, and which has active queries or empty send queues, both return, the
    sockets of the array are exactly the set to read from, bit [i] of the map is
    set for each of them, and bit [i + 16] exactly for the members of the set to
    write to. Every descriptor is below the returned bound. *)
Theorem fds_getsock_agree c numsocks h :
  let l := interest (active_queries c) (writable_now (active_queries c)) (servers c) in
  Forall in_set l -> Zlen l <= numsocks -> Zlen l <= ARES_GETSOCK_MAXNUM -> last_bit_free numsocks l ->
  active_queries c = true \/ (forall s, s ∈ servers c -> queued s = false) ->
  wp (r ← ares_fds c ∅ ∅; g ← ares_getsock c numsocks; mret (r, g)) h (fun '(r, (bitmap, socks)) h' => h' = h /\
    read_fds r = list_to_set socks /\
    (forall fd, fd ∈ write_fds r <-> exists i : nat, socks !! i = Some fd /\ Z.testbit bitmap (Z.of_nat i + 16) = true) /\
    (forall i, 0 <= i < 16 -> Z.testbit bitmap i = (i <? Zlen socks)) /\
    (forall fd, fd ∈ read_fds r -> fd < nfds r)).
Proof.
  intros l Hs Hn Hm Hb Hq.
  assert (El : interest (active_queries c) queued (servers c) = l).
  { apply interest_ext. intros s Hin. unfold writable_now. destruct Hq as [->|Hq]; [by rewrite andb_true_r|by rewrite Hq]. }
  unfold ARES_GETSOCK_MAXNUM in Hm. pose proof (wp_fds_loop (active_queries c) (servers c) (FdResult 0 ∅ ∅) h) as Hf. rewrite El in Hf.
  apply wp_bind. eapply wp_mono; [by apply Hf|]. intros r h1 [-> ->]. apply wp_bind.
  eapply wp_mono; [apply (wp_getsock_loop _ numsocks (servers c) []); [unfold Zlen in Hn; lia|cbn; lia|done]|].
  intros [bitmap socks] h2 (-> & -> & ->). apply wp_ret. cbn [app]. fold l.
  rewrite (take_ge l) by (unfold capacity, ARES_GETSOCK_MAXNUM, Zlen in *; lia). cbn [nfds read_fds write_fds].
  rewrite !(right_id_L ∅ (∪)). split_and!; [done|done| | |].
  - intros fd. by apply writers_index.
  - intros i Hi. destruct (bits_from_testbit 0 l i) as [-> _]; [lia..|]. destruct (Z.leb_spec 0 i); [|lia]. cbn [andb].
    unfold Zlen. by rewrite length_fmap.
  - intros fd Hin. unfold readers in Hin. apply elem_of_list_to_set, list_elem_of_fmap in Hin as ([x w] & -> & Hin). by eapply above_bound.
Qed.

(** ** Concrete channels *)

Definition ex_server (tcp : Z) (q : list send_request) : server_state :=
  ServerState (ex_addr 1) (-1) tcp [0; 0] 0 0 None 0 q 1 [] false.
Definition ex_request : send_request := SendRequest PNull 0 None None.

Definition ex_fds (tcps : list Z) (q : list send_request) (all : list Z) : chan :=
  set_all_queries all (set_servers ((fun t => ex_server t q) <$> tcps) (ex_chan 0 [] [])).

Lemma fds_getsock_agree_witness :
  exists r bitmap socks, (r ← ares_fds (ex_fds [7; 9] [ex_request] [1]) ∅ ∅; g ← ares_getsock (ex_fds [7; 9] [ex_request] [1]) 4; mret (r, g))
      (Heap 0 []) = Ret (r, (bitmap, socks)) (Heap 0 []) /\
    socks = [7; 9] /\ bitmap = 3 + 3 * 2 ^ 16 /\ read_fds r = {[ 7; 9 ]}.
Proof.
  destruct (wp_outcome _ _ _ (fds_getsock_agree (ex_fds [7; 9] [ex_request] [1]) 4 (Heap 0 [])
    ltac:(by repeat constructor) ltac:(by vm_compute) ltac:(by vm_compute) ltac:(intros H; lia) (or_introl eq_refl)))
    as ([r [bitmap socks]] & h' & E & -> & H1 & _).
  exists r, bitmap, socks. split; [exact E|].
  assert (F : (bitmap, socks) = (3 + 3 * 2 ^ 16, [7; 9])).
  { apply (f_equal (fun x => match x with Ret (_, g) _ => g | _ => (0, []) end)) in E. rewrite <- E. vm_compute. reflexivity. }
  injection F as -> ->. split; [reflexivity|]. split; [reflexivity|]. rewrite H1. cbn. set_solver.
Defined.

(** ** What goes wrong *)

(** With sixteen connections whose requests are queued, [ares_getsock]
    shifts 1 by 31 places, which an [int] cannot hold; with a descriptor of 1024 or
    more, which [select] does not support but a process can have, [ares_fds] writes
    beyond its sets. With the last request only partly written and no query left,
    [ares_fds] asks for the descriptor to be written to and [ares_getsock] does
    not. *)
Theorem fds_getsock_limits :
  ares_getsock (ex_fds (seqZ 5 16) [ex_request] [1]) 16 (Heap 0 []) = UB /\
  (exists r, ares_getsock (ex_fds (seqZ 5 15) [ex_request] [1]) 16 (Heap 0 []) = Ret r (Heap 0 [])) /\
  ares_fds (ex_fds [1024] [] [1]) ∅ ∅ (Heap 0 []) = UB /\
  (exists r, ares_fds (ex_fds [7] [ex_request] []) ∅ ∅ (Heap 0 []) = Ret r (Heap 0 []) /\ write_fds r = {[ 7 ]}) /\
  ares_getsock (ex_fds [7] [ex_request] []) 16 (Heap 0 []) = Ret (1, [7]) (Heap 0 []).
Proof.
  split_and!; [vm_compute; reflexivity|eexists; vm_compute; reflexivity|vm_compute; reflexivity| |vm_compute; reflexivity].
  eexists. split; [vm_compute; reflexivity|]. vm_compute. reflexivity.
Qed.
