(* ===== verification/Mergeable.v ===== *)
(** * Mergeable objects (reversibly_mergeable.hh, tombstone.hh, row_marker, row_tombstone)

    The contents of a partition are built from objects that are merged:
    tombstones, row markers, cells, rows. reversibly_mergeable.hh states what the
    merge of each of them promises: [apply_reversibly] merges an object into
    another one, [revert] undoes it, and an exception in between is as if the
    merge had been undone. The contract is the class [ReversiblyMergeable] below;
    this file discharges it for tombstones, row tombstones and row markers, and
    the files Counters, Row, RangeTombstones and MutationPartition for the rest.

    It also holds the order on which the merges rest: three-way comparisons and
    the greater of two objects. *)

From S2P Require Import Prelude.
Open Scope Z_scope.

(** Case analysis on the comparisons of the goal, the inner ones first. *)
Ltac no_if t := lazymatch t with context [if _ then _ else _] => fail | _ => idtac end.
Ltac zcases :=
  repeat (match goal with
  | |- context [?a <? ?b] => no_if a; no_if b; destruct (Z.ltb_spec a b)
  | |- context [?a =? ?b] => no_if a; no_if b; destruct (Z.eqb_spec a b)
  end; simpl; try (exfalso; lia)).

(** ** Three-way comparisons *)

Definition cmpZ (a b : Z) : Z := if a =? b then 0 else if a <? b then -1 else 1.

(** The second comparison decides where the first one does not. *)
Definition lex {A} (c d : A -> A -> Z) (x y : A) : Z := if c x y =? 0 then d x y else c x y.

(** A three-way comparison that is a total preorder on the objects with [P]. *)
Class TriOrder {A} (P : A -> Prop) (c : A -> A -> Z) : Prop := {
  tri_opp x y : P x -> P y -> c y x = - c x y;
  tri_trans x y z : P x -> P y -> P z -> c x y <= 0 -> c y z <= 0 -> c x z <= 0;
  tri_range x y : P x -> P y -> -1 <= c x y <= 1 }.

Section tri.
Context {A : Type} {P : A -> Prop} {c : A -> A -> Z} `{!TriOrder P c}.

Lemma tri_refl x : P x -> c x x = 0.
Proof. intros H. pose proof (tri_opp (c := c) x x H H). lia. Qed.

Lemma tri_flip x y : P x -> P y -> (c x y < 0 <-> 0 < c y x) /\ (c x y = 0 <-> c y x = 0).
Proof. intros Hx Hy. rewrite (tri_opp (c := c) x y Hx Hy). lia. Qed.

Lemma tri_lt_trans x y z : P x -> P y -> P z -> c x y <= 0 -> c y z < 0 -> c x z < 0.
Proof.
  intros Hx Hy Hz H1 H2. destruct (Z_lt_le_dec (c x z) 0) as [?|Hge]; [done|].
  pose proof (tri_opp (c := c) x z Hx Hz) as E. pose proof (tri_opp (c := c) y z Hy Hz).
  pose proof (tri_trans (c := c) z x y Hz Hx Hy). lia.
Qed.

Lemma tri_lt_trans' x y z : P x -> P y -> P z -> c x y < 0 -> c y z <= 0 -> c x z < 0.
Proof.
  intros Hx Hy Hz H1 H2. destruct (Z_lt_le_dec (c x z) 0) as [?|Hge]; [done|].
  pose proof (tri_opp (c := c) x z Hx Hz) as E. pose proof (tri_opp (c := c) x y Hx Hy).
  pose proof (tri_trans (c := c) y z x Hy Hz Hx). lia.
Qed.

Lemma tri_eq_l x y z : P x -> P y -> P z -> c x y = 0 -> c x z = c y z.
Proof.
  intros Hx Hy Hz H.
  pose proof (tri_opp (c := c) x y Hx Hy). pose proof (tri_opp (c := c) x z Hx Hz). pose proof (tri_opp (c := c) y z Hy Hz).
  pose proof (tri_range (c := c) x z Hx Hz). pose proof (tri_range (c := c) y z Hy Hz).
  pose proof (tri_trans (c := c) x y z Hx Hy Hz). pose proof (tri_trans (c := c) y x z Hy Hx Hz).
  pose proof (tri_trans (c := c) z x y Hz Hx Hy). pose proof (tri_trans (c := c) z y x Hz Hy Hx). lia.
Qed.

Lemma tri_eq_r x y z : P x -> P y -> P z -> c y z = 0 -> c x y = c x z.
Proof.
  intros Hx Hy Hz H. pose proof (tri_eq_l y z x Hy Hz Hx H).
  pose proof (tri_opp (c := c) x y Hx Hy). pose proof (tri_opp (c := c) x z Hx Hz). lia.
Qed.

(** The merge that a comparison induces: the right one replaces a smaller left one. *)
Definition greater (x y : A) : A := if c x y <? 0 then y else x.

Lemma greater_ok x y : P x -> P y -> P (greater x y).
Proof. unfold greater. by case_match. Qed.

Lemma greater_comm x y : P x -> P y -> c (greater x y) (greater y x) = 0.
Proof.
  intros Hx Hy. unfold greater. pose proof (tri_opp (c := c) x y Hx Hy).
  destruct (Z.ltb_spec (c x y) 0), (Z.ltb_spec (c y x) 0); try (by apply tri_refl); lia.
Qed.

Lemma greater_assoc x y z :
  P x -> P y -> P z -> greater (greater x y) z = greater x (greater y z).
Proof.
  intros Hx Hy Hz. unfold greater.
  pose proof (tri_lt_trans' x y z Hx Hy Hz).
  pose proof (tri_opp (c := c) x y Hx Hy). pose proof (tri_opp (c := c) y z Hy Hz).
  pose proof (tri_trans (c := c) z y x Hz Hy Hx). pose proof (tri_opp (c := c) x z Hx Hz).
  pose proof (tri_lt_trans x y z Hx Hy Hz).
  destruct (Z.ltb_spec (c x y) 0) as [E1|E1], (Z.ltb_spec (c y z) 0) as [E2|E2];
    rewrite ?(proj2 (Z.ltb_lt _ _) E1), ?(proj2 (Z.ltb_ge _ _) E1), ?(proj2 (Z.ltb_lt _ _) E2), ?(proj2 (Z.ltb_ge _ _) E2);
    try done; destruct (Z.ltb_spec (c x z) 0); try done; lia.
Qed.

Lemma greater_idemp x : P x -> greater x x = x.
Proof. intros H. unfold greater. by case_match. Qed.

Lemma greater_absorb x y : P x -> P y -> greater x (greater x y) = greater x y.
Proof.
  intros Hx Hy. unfold greater. destruct (Z.ltb_spec (c x y) 0) as [Hlt|Hge].
  - by rewrite (proj2 (Z.ltb_lt _ _) Hlt).
  - by rewrite tri_refl.
Qed.
End tri.
Arguments greater {A} c x y.

Lemma cmpZ_spec a b :
  (a < b /\ cmpZ a b = -1) \/ (a = b /\ cmpZ a b = 0) \/ (b < a /\ cmpZ a b = 1).
Proof. unfold cmpZ. destruct (Z.eqb_spec a b), (Z.ltb_spec a b); lia. Qed.

#[export] Instance cmpZ_by {A} (P : A -> Prop) (f : A -> Z) : TriOrder P (fun x y => cmpZ (f x) (f y)).
Proof.
  split.
  - intros x y _ _. destruct (cmpZ_spec (f x) (f y)), (cmpZ_spec (f y) (f x)); lia.
  - intros x y z _ _ _. destruct (cmpZ_spec (f x) (f y)), (cmpZ_spec (f y) (f z)), (cmpZ_spec (f x) (f z)); lia.
  - intros x y _ _. destruct (cmpZ_spec (f x) (f y)); lia.
Qed.

(** Lexicographic comparison; the second order is needed where the first ties. *)
Lemma lex_tri {A} (P : A -> Prop) (c d : A -> A -> Z) `{!TriOrder P c}
    (Hopp : forall x y, P x -> P y -> c x y = 0 -> d y x = - d x y)
    (Htrans : forall x y z, P x -> P y -> P z -> c x y = 0 -> c y z = 0 -> d x y <= 0 -> d y z <= 0 -> d x z <= 0)
    (Hrange : forall x y, P x -> P y -> c x y = 0 -> -1 <= d x y <= 1) :
  TriOrder P (lex c d).
Proof.
  unfold lex. split.
  - intros x y Hx Hy. pose proof (tri_opp (c := c) x y Hx Hy).
    destruct (Z.eqb_spec (c x y) 0), (Z.eqb_spec (c y x) 0); try lia. by apply Hopp.
  - intros x y z Hx Hy Hz.
    destruct (Z.eqb_spec (c x y) 0) as [E1|E1], (Z.eqb_spec (c y z) 0) as [E2|E2].
    + rewrite (tri_eq_l x y z Hx Hy Hz E1), E2. simpl. eauto.
    + rewrite (tri_eq_l x y z Hx Hy Hz E1). destruct (Z.eqb_spec (c y z) 0); lia.
    + rewrite <- (tri_eq_r x y z Hx Hy Hz E2). destruct (Z.eqb_spec (c x y) 0); lia.
    + intros H1 H2. pose proof (tri_lt_trans (c := c) x y z Hx Hy Hz ltac:(lia) ltac:(lia)).
      destruct (Z.eqb_spec (c x z) 0); lia.
  - intros x y Hx Hy. pose proof (tri_range (c := c) x y Hx Hy).
    destruct (Z.eqb_spec (c x y) 0); [by apply Hrange|lia].
Qed.

#[export] Instance lex_tri_total {A} (P : A -> Prop) (c d : A -> A -> Z) `{!TriOrder P c, !TriOrder P d} :
  TriOrder P (lex c d).
Proof. apply lex_tri; eauto using tri_opp, tri_trans, tri_range. Qed.

(** ** The contract *)

(** What [apply_reversibly] does: it merges and leaves both objects, it throws
    and leaves both objects, or it runs into an assertion. *)
Inductive merge_outcome (A : Type) :=
| Merged (dst src : A)
| Threw (dst src : A)
| Stuck.
Arguments Merged {A} dst src.
Arguments Threw {A} dst src.
Arguments Stuck {A}.

(** [F] says which allocations fail, [no_fault] is the run in which none does.
    [same] is equality of the objects as their users see them, [like] the
    equality of the merged data. *)
Class ReversiblyMergeable (F A : Type) := {
  no_fault : F;
  mergeable : A -> A -> Prop;
  same : A -> A -> Prop;
  like : A -> A -> Prop;
  apply_reversibly : F -> A -> A -> merge_outcome A;
  revert : A -> A -> option (A * A);

  same_like x y : same x y -> like x y;
  (** without a fault there is no exception *)
  rm_total x y : mergeable x y -> exists x' y', apply_reversibly no_fault x y = Merged x' y';
  (** the promises: [restored] after [revert] and after an exception *)
  rm_law f x y (restored := fun x'' y'' =>
      same x'' x /\ mergeable x'' y'' /\
      exists x' y' x3 y3, apply_reversibly no_fault x y = Merged x' y'
        /\ apply_reversibly no_fault x'' y'' = Merged x3 y3 /\ like x3 x') :
    mergeable x y ->
    match apply_reversibly f x y with
    | Merged x' y' =>
        (exists x0 y0, apply_reversibly no_fault x y = Merged x0 y0 /\ like x' x0)
        /\ exists x'' y'', revert x' y' = Some (x'', y'') /\ restored x'' y''
    | Threw x'' y'' => restored x'' y''
    | Stuck => False
    end }.

(** ** Tombstones *)

Definition missing_timestamp : Z := - 2 ^ 63.

Record tombstone := Tombstone { tomb_timestamp : Z; tomb_deletion_time : Z }.

#[export] Instance tombstone_eq_dec : EqDecision tombstone.
Proof. solve_decision. Defined.

Definition no_tombstone : tombstone := Tombstone missing_timestamp 0.

(** [operator bool]. *)
Definition has_tombstone (t : tombstone) : bool := negb (tomb_timestamp t =? missing_timestamp).

Definition tomb_compare (t u : tombstone) : Z :=
  if tomb_timestamp t <? tomb_timestamp u then -1
  else if tomb_timestamp u <? tomb_timestamp t then 1
  else if tomb_deletion_time t <? tomb_deletion_time u then -1
  else if tomb_deletion_time u <? tomb_deletion_time t then 1
  else 0.

Definition tomb_apply (t u : tombstone) : tombstone := if tomb_compare t u <? 0 then u else t.

(** [tombstone::apply_reversibly] and [revert]: the two tombstones after it. *)
Definition tomb_apply_reversibly (t u : tombstone) : tombstone * tombstone :=
  let '(t, u) := (u, t) in (tomb_apply t u, u).
Definition tomb_revert (t u : tombstone) : tombstone * tombstone := (u, t).

Lemma tri_ext {A} (P : A -> Prop) (c d : A -> A -> Z) `{!TriOrder P d} :
  (forall x y, P x -> P y -> c x y = d x y) -> TriOrder P c.
Proof.
  intros E. split; intros *.
  - intros Hx Hy. rewrite !E by done. by apply tri_opp.
  - intros Hx Hy Hz. rewrite !E by done. by apply tri_trans.
  - intros Hx Hy. rewrite !E by done. by apply tri_range.
Qed.

Lemma tomb_compare_lex t u :
  tomb_compare t u = lex (fun x y => cmpZ (tomb_timestamp x) (tomb_timestamp y))
                         (fun x y => cmpZ (tomb_deletion_time x) (tomb_deletion_time y)) t u.
Proof.
  unfold tomb_compare, lex, cmpZ.
  zcases; lia.
Qed.

#[export] Instance tomb_compare_tri : TriOrder (fun _ => True) tomb_compare.
Proof. refine (tri_ext _ _ _ (fun x y _ _ => tomb_compare_lex x y)). Qed.

(** Tombstones that compare equal are equal. *)
Lemma tomb_compare_eq t u : tomb_compare t u = 0 <-> t = u.
Proof.
  destruct t as [a b], u as [a' b']. unfold tomb_compare. simpl.
  destruct (Z.ltb_spec a a'), (Z.ltb_spec a' a), (Z.ltb_spec b b'), (Z.ltb_spec b' b);
    split; intros E; simplify_eq; try lia. f_equal; lia.
Qed.

Lemma tomb_apply_greater t u : tomb_apply t u = greater tomb_compare t u.
Proof. done. Qed.

Lemma tomb_apply_comm t u : tomb_apply t u = tomb_apply u t.
Proof. apply tomb_compare_eq, (greater_comm (c := tomb_compare)); done. Qed.

Lemma tomb_apply_assoc t u v : tomb_apply (tomb_apply t u) v = tomb_apply t (tomb_apply u v).
Proof. by apply (greater_assoc (P := fun _ => True)). Qed.

Lemma tomb_apply_idemp t : tomb_apply t t = t.
Proof. by apply (greater_idemp (P := fun _ => True)). Qed.

Lemma tomb_apply_absorb t u : tomb_apply t (tomb_apply t u) = tomb_apply t u.
Proof. by rewrite <- tomb_apply_assoc, tomb_apply_idemp. Qed.

(** ** Row markers *)

Record row_marker := Marker { m_timestamp : Z; m_ttl : Z; m_expiry : Z }.

#[export] Instance row_marker_eq_dec : EqDecision row_marker.
Proof. solve_decision. Defined.

Definition no_marker : row_marker := Marker missing_timestamp 0 0.

Definition m_is_missing (m : row_marker) : bool := m_timestamp m =? missing_timestamp.
Definition m_is_live (m : row_marker) : bool := negb (m_is_missing m) && negb (m_ttl m =? -1).
Definition m_is_expiring (m : row_marker) : bool := negb (m_ttl m =? 0).
Definition m_deletion_time (m : row_marker) : Z := if m_ttl m =? -1 then m_expiry m else m_expiry m - m_ttl m.

Definition compare_row_marker_for_merge (left right : row_marker) : Z :=
  if negb (m_timestamp left =? m_timestamp right) then if m_timestamp right <? m_timestamp left then 1 else -1
  else if negb (Bool.eqb (m_is_live left) (m_is_live right)) then if m_is_live left then -1 else 1
  else if m_is_live left then
    if negb (Bool.eqb (m_is_expiring left) (m_is_expiring right)) then if m_is_expiring left then 1 else -1
    else if m_is_expiring left && negb (m_expiry left =? m_expiry right) then
      if m_expiry left <? m_expiry right then -1 else 1
    else 0
  else if negb (m_deletion_time left =? m_deletion_time right) then
    if uwrap 32 (m_deletion_time left) <? uwrap 32 (m_deletion_time right) then -1 else 1
  else 0.

Definition m_apply (m r : row_marker) : row_marker := if compare_row_marker_for_merge m r <? 0 then r else m.

(** [row_marker::apply_reversibly] and [revert]. *)
Definition m_apply_reversibly (m r : row_marker) : row_marker * row_marker :=
  if compare_row_marker_for_merge m r <? 0 then (r, m) else (m, m).
Definition m_revert (m r : row_marker) : row_marker * row_marker := (r, m).

(** The deletion time is a 32-bit number of seconds. *)
Definition marker_ok (m : row_marker) : Prop := - 2 ^ 31 <= m_deletion_time m < 2 ^ 31.

Lemma uwrap32_inj a b : - 2 ^ 31 <= a < 2 ^ 31 -> - 2 ^ 31 <= b < 2 ^ 31 -> uwrap 32 a = uwrap 32 b -> a = b.
Proof. unfold uwrap. intros Ha Hb E. Z.div_mod_to_equations. lia. Qed.

Definition b2z (b : bool) : Z := if b then 1 else 0.

Lemma marker_compare_lex x y :
  marker_ok x -> marker_ok y ->
  compare_row_marker_for_merge x y =
    lex (fun x y => cmpZ (m_timestamp x) (m_timestamp y))
      (lex (fun x y => cmpZ (b2z (negb (m_is_live x))) (b2z (negb (m_is_live y))))
        (lex (fun x y => cmpZ (b2z (m_is_live x && m_is_expiring x)) (b2z (m_is_live y && m_is_expiring y)))
           (fun x y => cmpZ
              (if m_is_live x then if m_is_expiring x then m_expiry x else 0 else uwrap 32 (m_deletion_time x))
              (if m_is_live y then if m_is_expiring y then m_expiry y else 0 else uwrap 32 (m_deletion_time y))))) x y.
Proof.
  intros Hx Hy. pose proof (uwrap32_inj _ _ Hx Hy) as Hinj.
  assert (m_deletion_time x = m_deletion_time y -> uwrap 32 (m_deletion_time x) = uwrap 32 (m_deletion_time y)) by (by intros ->).
  unfold compare_row_marker_for_merge, lex, cmpZ.
  generalize dependent (uwrap 32 (m_deletion_time x)). generalize dependent (uwrap 32 (m_deletion_time y)). intros u v Hinj Heq.
  destruct (m_is_live x), (m_is_live y), (m_is_expiring x), (m_is_expiring y); simpl;
  zcases; simpl; lia.
Qed.

#[export] Instance marker_compare_tri : TriOrder marker_ok compare_row_marker_for_merge.
Proof. refine (tri_ext _ _ _ marker_compare_lex). Qed.

Lemma m_apply_greater m r : m_apply m r = greater compare_row_marker_for_merge m r.
Proof. done. Qed.

Lemma m_apply_ok m r : marker_ok m -> marker_ok r -> marker_ok (m_apply m r).
Proof. apply (greater_ok (P := marker_ok)). Qed.

Lemma m_apply_absorb m r : marker_ok m -> marker_ok r -> m_apply m (m_apply m r) = m_apply m r.
Proof. apply (greater_absorb (P := marker_ok)). Qed.

Lemma m_apply_assoc a b c :
  marker_ok a -> marker_ok b -> marker_ok c -> m_apply (m_apply a b) c = m_apply a (m_apply b c).
Proof. apply (greater_assoc (P := marker_ok)). Qed.

(** Of two markers the one with the later timestamp stays. *)
Lemma m_apply_timestamp m r : m_timestamp (m_apply m r) = Z.max (m_timestamp m) (m_timestamp r).
Proof.
  unfold m_apply, compare_row_marker_for_merge.
  destruct (Z.eqb_spec (m_timestamp m) (m_timestamp r)); simpl;
    [case_match; lia|destruct (Z.ltb_spec (m_timestamp r) (m_timestamp m)); simpl; lia].
Qed.

(** ** Row tombstones *)

(** A regular tombstone, and one that a later row marker shadows. *)
Record row_tombstone := RowTombstone { regular : tombstone; shadowable : tombstone }.

#[export] Instance row_tombstone_eq_dec : EqDecision row_tombstone.
Proof. solve_decision. Defined.

Definition no_row_tombstone : row_tombstone := RowTombstone no_tombstone no_tombstone.

Definition is_shadowed_by (t : tombstone) (m : row_marker) : bool := m_is_live m && (tomb_timestamp t <? m_timestamp m).

(** [row_tombstone::maybe_shadow]. *)
Definition maybe_shadow (r : row_tombstone) (m : row_marker) : row_tombstone :=
  if is_shadowed_by (shadowable r) m then RowTombstone (regular r) (regular r) else r.

(** [row_tombstone::apply] of a regular tombstone, of a shadowable one and of both. *)
Definition rt_apply_regular (r : row_tombstone) (t : tombstone) : row_tombstone :=
  RowTombstone (tomb_apply (regular r) t) (tomb_apply (shadowable r) t).
Definition rt_apply_shadowable (r : row_tombstone) (t : tombstone) (m : row_marker) : row_tombstone :=
  maybe_shadow (RowTombstone (regular r) (tomb_apply (shadowable r) t)) m.
Definition rt_apply (r t : row_tombstone) (m : row_marker) : row_tombstone :=
  maybe_shadow (RowTombstone (tomb_apply (regular r) (regular t)) (tomb_apply (shadowable r) (shadowable t))) m.

(** [row_tombstone::apply_reversibly] and [revert]. *)
Definition rt_apply_reversibly (r t : row_tombstone) (m : row_marker) : row_tombstone * row_tombstone :=
  let '(r, t) := (t, r) in (rt_apply r t m, t).
Definition rt_revert (r t : row_tombstone) : row_tombstone * row_tombstone := (t, r).

(** The shadowable tombstone is never older than the regular one. *)
Definition tomb_le (t u : tombstone) : Prop := tomb_compare t u <= 0.
Definition row_tombstone_ok (r : row_tombstone) : Prop := tomb_le (regular r) (shadowable r).

Lemma tomb_le_refl t : tomb_le t t.
Proof. unfold tomb_le. by rewrite (tri_refl (P := fun _ => True)). Qed.

Lemma tomb_le_trans t u v : tomb_le t u -> tomb_le u v -> tomb_le t v.
Proof. by apply (tri_trans (P := fun _ => True)). Qed.

Lemma tomb_le_antisym t u : tomb_le t u -> tomb_le u t -> t = u.
Proof.
  unfold tomb_le. pose proof (tri_opp (c := tomb_compare) t u I I). intros. apply tomb_compare_eq. lia.
Qed.

Lemma tomb_le_timestamp t u : tomb_le t u -> tomb_timestamp t <= tomb_timestamp u.
Proof. unfold tomb_le, tomb_compare. zcases; lia. Qed.

Lemma tomb_le_total t u : tomb_le t u \/ tomb_le u t.
Proof. unfold tomb_le. pose proof (tri_opp (c := tomb_compare) t u I I). lia. Qed.

Lemma tomb_apply_r t u : tomb_le t u -> tomb_apply t u = u.
Proof.
  unfold tomb_le, tomb_apply. intros H. destruct (Z.ltb_spec (tomb_compare t u) 0); [done|].
  apply tomb_compare_eq. lia.
Qed.

Lemma tomb_apply_l t u : tomb_le u t -> tomb_apply t u = t.
Proof. intros H. rewrite tomb_apply_comm. by apply tomb_apply_r. Qed.

Lemma tomb_apply_ge t u : tomb_le t (tomb_apply t u) /\ tomb_le u (tomb_apply t u).
Proof.
  destruct (tomb_le_total t u) as [H|H].
  - rewrite tomb_apply_r by done. eauto using tomb_le_refl.
  - rewrite tomb_apply_l by done. eauto using tomb_le_refl.
Qed.

Lemma tomb_apply_lub t u v : tomb_le t v -> tomb_le u v -> tomb_le (tomb_apply t u) v.
Proof. unfold tomb_apply. by case_match. Qed.

Lemma tomb_apply_mono t u t' u' : tomb_le t t' -> tomb_le u u' -> tomb_le (tomb_apply t u) (tomb_apply t' u').
Proof.
  intros H1 H2. destruct (tomb_apply_ge t' u'). apply tomb_apply_lub; eapply tomb_le_trans; eauto.
Qed.

Lemma tomb_apply_le t u v : tomb_le (tomb_apply t u) v <-> tomb_le t v /\ tomb_le u v.
Proof.
  split; [|by intros [? ?]; apply tomb_apply_lub].
  intros H. destruct (tomb_apply_ge t u). split; eapply tomb_le_trans; eauto.
Qed.

Lemma tomb_le_apply t u v : tomb_le v t -> tomb_le v (tomb_apply t u).
Proof. intros H. destruct (tomb_apply_ge t u). by eapply tomb_le_trans. Qed.

Create HintDb tombs.
#[export] Hint Resolve tomb_le_refl tomb_apply_lub tomb_apply_mono tomb_le_apply : tombs.

Lemma maybe_shadow_ok r m : row_tombstone_ok r -> row_tombstone_ok (maybe_shadow r m).
Proof. unfold maybe_shadow, row_tombstone_ok. case_match; simpl; eauto with tombs. Qed.

Lemma rt_apply_ok r t m : row_tombstone_ok r -> row_tombstone_ok t -> row_tombstone_ok (rt_apply r t m).
Proof. intros. apply maybe_shadow_ok. by apply tomb_apply_mono. Qed.

Lemma rt_apply_comm r t m : rt_apply r t m = rt_apply t r m.
Proof. unfold rt_apply. by rewrite (tomb_apply_comm (regular r)), (tomb_apply_comm (shadowable r)). Qed.

(** The newer of two. *)
Lemma later_marker m r : m_timestamp m < m_timestamp r -> m_apply m r = r.
Proof.
  intros Hlt. unfold m_apply, compare_row_marker_for_merge. rewrite (proj2 (Z.eqb_neq _ _)) by lia. simpl.
  by rewrite (proj2 (Z.ltb_ge (m_timestamp r) (m_timestamp m))) by lia.
Qed.

Lemma earlier_marker m r : m_timestamp r < m_timestamp m -> m_apply m r = m.
Proof.
  intros Hlt. unfold m_apply, compare_row_marker_for_merge. rewrite (proj2 (Z.eqb_neq _ _)) by lia. simpl.
  by rewrite (proj2 (Z.ltb_lt (m_timestamp r) (m_timestamp m)) Hlt).
Qed.

Lemma later_tombstone t u : tomb_timestamp t < tomb_timestamp u -> tomb_apply t u = u.
Proof. intros Hlt. apply tomb_apply_r. unfold tomb_le, tomb_compare. by rewrite (proj2 (Z.ltb_lt _ _) Hlt). Qed.

(** ** Markers and tombstones together *)

(** A live marker with a later timestamp shadows the tombstone. *)
Definition shadowed (t : tombstone) (m : row_marker) : bool := tomb_timestamp t <? m_timestamp m.

(** A marker that no deletion has turned into a dead one, with a timestamp of 64 bits. *)
Definition never_dead (m : row_marker) : Prop := m_ttl m <> -1 /\ missing_timestamp <= m_timestamp m.

Lemma m_apply_never_dead m r : never_dead m -> never_dead r -> never_dead (m_apply m r).
Proof. unfold m_apply. by case_match. Qed.

Lemma never_dead_shadow t m : never_dead m -> missing_timestamp <= tomb_timestamp t -> is_shadowed_by t m = shadowed t m.
Proof.
  intros [Hd Hm] Ht. unfold is_shadowed_by, shadowed, m_is_live, m_is_missing. rewrite (proj2 (Z.eqb_neq _ _) Hd).
  destruct (Z.eqb_spec (m_timestamp m) missing_timestamp); simpl; [|done]. symmetry. apply Z.ltb_ge. lia.
Qed.

(** The shadowable part of three row tombstones, whichever pair is merged first. *)
Lemma shadow_twice r s t u m n :
  tomb_le r s -> tomb_le r t -> m_timestamp n <= m_timestamp m ->
  let q := tomb_apply (if shadowed s n then r else s) u in
  (if shadowed q m then t else q) = (if shadowed (tomb_apply s u) m then t else tomb_apply s u).
Proof.
  intros Hrs Hrt Hn q. subst q. destruct (shadowed s n) eqn:Es; [|done]. apply Z.ltb_lt in Es.
  pose proof (tomb_le_timestamp r s Hrs).
  destruct (tomb_le_total s u) as [Hsu|Hus].
  - rewrite (tomb_apply_r s u), (tomb_apply_r r u) by eauto using tomb_le_trans. done.
  - rewrite (tomb_apply_l s u) by done. assert (shadowed s m = true) as -> by (apply Z.ltb_lt; lia).
    pose proof (tomb_le_timestamp u s Hus).
    assert (tomb_timestamp (tomb_apply r u) <= tomb_timestamp s) by (apply tomb_le_timestamp; eauto with tombs).
    assert (shadowed (tomb_apply r u) m = true) as ->; [apply Z.ltb_lt; lia|done].
Qed.

(** A row tombstone whose parts are in order and have timestamps of 64 bits. *)
Definition row_tombstone_valid (r : row_tombstone) : Prop :=
  row_tombstone_ok r /\ missing_timestamp <= tomb_timestamp (regular r).

Lemma valid_shadowable r : row_tombstone_valid r -> missing_timestamp <= tomb_timestamp (shadowable r).
Proof. intros [Hok Hm]. apply tomb_le_timestamp in Hok. lia. Qed.

Lemma tomb_apply_timestamp t u : tomb_timestamp t <= tomb_timestamp (tomb_apply t u).
Proof. apply tomb_le_timestamp, tomb_apply_ge. Qed.

Lemma rt_apply_valid r t m : row_tombstone_valid r -> row_tombstone_valid t -> row_tombstone_valid (rt_apply r t m).
Proof.
  intros [Hr Hrm] [Ht _]. split; [by apply rt_apply_ok|]. unfold rt_apply, maybe_shadow. simpl.
  pose proof (tomb_apply_timestamp (regular r) (regular t)). case_match; simpl; lia.
Qed.

(** A merge under a marker that is not dead. *)
Lemma rt_apply_alive r t m : never_dead m -> row_tombstone_valid r ->
  let R := tomb_apply (regular r) (regular t) in let S := tomb_apply (shadowable r) (shadowable t) in
  rt_apply r t m = RowTombstone R (if shadowed S m then R else S).
Proof.
  intros Hm Hr. unfold rt_apply, maybe_shadow. simpl. rewrite never_dead_shadow; [by case_match|done|].
  pose proof (valid_shadowable r Hr). pose proof (tomb_apply_timestamp (shadowable r) (shadowable t)). lia.
Qed.

Lemma rt_apply_twice a b c n m : never_dead n -> never_dead m -> m_timestamp n <= m_timestamp m ->
  row_tombstone_valid a -> row_tombstone_valid b -> row_tombstone_valid c ->
  let R := tomb_apply (tomb_apply (regular a) (regular b)) (regular c) in
  let S := tomb_apply (tomb_apply (shadowable a) (shadowable b)) (shadowable c) in
  rt_apply (rt_apply a b n) c m = RowTombstone R (if shadowed S m then R else S).
Proof.
  intros Hn Hm Hle Ha Hb Hc R S. rewrite rt_apply_alive by auto using rt_apply_valid. rewrite (rt_apply_alive a b n) by done.
  simpl. f_equal. apply (shadow_twice _ _ _ _ m n); [|apply tomb_apply_ge|done]. destruct Ha, Hb. by apply tomb_apply_mono.
Qed.

(** Deletions of a row and its markers may be grouped in any way. *)
Lemma rt_apply_assoc a b c ma mb mc :
  never_dead ma -> never_dead mb -> never_dead mc ->
  row_tombstone_valid a -> row_tombstone_valid b -> row_tombstone_valid c ->
  let m := m_apply (m_apply ma mb) mc in
  rt_apply (rt_apply a b (m_apply ma mb)) c m = rt_apply a (rt_apply b c (m_apply mb mc)) m.
Proof.
  intros Hma Hmb Hmc Ha Hb Hc m. subst m. rewrite (rt_apply_comm a (rt_apply b c _)).
  rewrite !rt_apply_twice by (auto using m_apply_never_dead || (rewrite !m_apply_timestamp; lia)).
  by rewrite (tomb_apply_comm (tomb_apply (regular b) _)), (tomb_apply_comm (tomb_apply (shadowable b) _)), !tomb_apply_assoc.
Qed.

(** Merging once more what the merge already holds changes nothing. *)
Lemma rt_apply_absorb r t m :
  row_tombstone_ok r -> row_tombstone_ok t -> rt_apply r (rt_apply r t m) m = rt_apply r t m.
Proof.
  intros Hr Ht. unfold rt_apply at 2 3. unfold maybe_shadow. simpl.
  destruct (is_shadowed_by (tomb_apply (shadowable r) (shadowable t)) m) eqn:E.
  - unfold rt_apply, maybe_shadow. simpl. rewrite tomb_apply_absorb.
    assert (is_shadowed_by (tomb_apply (shadowable r) (tomb_apply (regular r) (regular t))) m = true) as ->; [|done].
    unfold is_shadowed_by in *. apply andb_true_iff in E as [-> E]. apply Z.ltb_lt in E. simpl. apply Z.ltb_lt.
    eapply Z.le_lt_trans; [|exact E]. apply tomb_le_timestamp.
    apply tomb_apply_lub; [apply tomb_apply_ge|by apply tomb_apply_mono].
  - unfold rt_apply, maybe_shadow. simpl. by rewrite !tomb_apply_absorb, E.
Qed.
