(* ===== verification/RangeTombstones.v ===== *)
(** * Range tombstones (range_tombstone_list.cc, clustering_bounds_comparator.hh)

    A partition keeps the deletions of ranges of rows as a list of range
    tombstones, ordered and without overlap. [insert_from] merges a range into the
    list: it splits, shortens, joins and removes ranges such that each row is
    covered by the newest deletion of it. Every edit of the list is recorded in a
    reverter, which undoes the edits, newest first, when an exception is thrown.

    The comparison of the components of a clustering key belongs to their types
    and is a parameter. The list is a zipper in the loop: [prevs] holds the ranges
    before the iterator, nearest first, and [nexts] those from it on. *)

From S2P Require Import Prelude Mergeable.
Open Scope Z_scope.

(** ** Bounds *)

Inductive bound_kind := excl_end | incl_start | incl_end | excl_start.

#[export] Instance bound_kind_eq_dec : EqDecision bound_kind.
Proof. solve_decision. Defined.

Definition invert_kind (k : bound_kind) : bound_kind :=
  match k with excl_start => incl_end | incl_start => excl_end | excl_end => incl_start | incl_end => excl_start end.

Definition weight (k : bound_kind) : Z :=
  match k with excl_end => -2 | incl_start => -1 | incl_end => 1 | excl_start => 2 end.

Definition is_start (k : bound_kind) : bool := match k with incl_start | excl_start => true | _ => false end.

Section model.
Context {component : Type}.
Abbreviation prefix := (list component).

Record bound_view := Bound { bprefix : prefix; kind : bound_kind }.

(** A position: a prefix with the weight of a bound, or 0 for a key. *)
Abbreviation pos := (prefix * Z)%type.
Definition at_bound (b : bound_view) : pos := (bprefix b, weight (kind b)).
Definition at_key (k : prefix) : pos := (k, 0).
Definition invert (b : bound_view) : bound_view := Bound (bprefix b) (invert_kind (kind b)).

Section compare.
(** [::tri_compare] of the type of the [i]-th component. *)
Variable tri_compare : nat -> component -> component -> Z.

Fixpoint prefix_equality_tri_compare (i : nat) (p q : prefix) : Z :=
  match p, q with
  | x :: p', y :: q' =>
      let c := tri_compare i x y in if negb (c =? 0) then c else prefix_equality_tri_compare (S i) p' q'
  | _, _ => 0
  end.

(** [bound_view::tri_compare]. *)
Definition bound_tri_compare (a b : pos) : Z :=
  let '(p1, w1) := a in let '(p2, w2) := b in
  let res := prefix_equality_tri_compare 0 p1 p2 in
  if negb (res =? 0) then res
  else
    let d1 := length p1 in let d2 := length p2 in
    if bool_decide (d1 = d2) then w1 - w2
    else if bool_decide (d1 < d2)%nat then w1 - b2z (w1 <=? 0) else - (w2 - b2z (w2 <=? 0)).

Definition bound_less (a b : pos) : bool := bound_tri_compare a b <? 0.

(** [prefix.equal(s, other)]. *)
Definition prefix_equal (p q : prefix) : bool :=
  bool_decide (length p = length q) && (prefix_equality_tri_compare 0 p q =? 0).
End compare.

(** ** The list *)

Record range_tombstone := RT { start_bound : bound_view; end_bound : bound_view; tomb : tombstone }.

(** What undoes an edit: the inserted range, the erased one, or the old and the
    new contents of the updated one. The insertion and the update keep a
    reference to the range in the list: it is found again by its contents. *)
Inductive undo_op :=
| InsertUndo (new_rt : range_tombstone)
| EraseUndo (rt : range_tombstone)
| UpdateUndo (old_rt new_rt : range_tombstone).

(** The number of edits that succeed before an allocation fails; [None]: all do. *)
Abbreviation budget := (option nat).
Definition spend (b : budget) : option budget :=
  match b with None => Some None | Some (S n) => Some (Some n) | Some O => None end.

(** The list and the undo log, newest first, at the end and at an exception. *)
Inductive edited :=
| Edited (l : list range_tombstone) (ops : list undo_op) (b : budget)
| Failed (l : list range_tombstone) (ops : list undo_op).

Section list_ops.
Variable less : pos -> pos -> bool.
Variable prefix_eq : prefix -> prefix -> bool.

Definition bless (a b : bound_view) : bool := less (at_bound a) (at_bound b).

Definition adjacent (a other : bound_view) : bool :=
  bool_decide (invert_kind (kind other) = kind a) && prefix_eq (bprefix a) (bprefix other).

Definition tomb_eq (t u : tombstone) : bool := tomb_compare t u =? 0.

(** [reverter::insert], [erase] and [update] at the head of [nexts], with what
    follows; nothing has changed when the allocation for the log fails. *)
Definition rev_insert (rt : range_tombstone) (prevs nexts : list range_tombstone) (ops : list undo_op) (b : budget)
    (k : list undo_op -> budget -> edited) : edited :=
  match spend b with None => Failed (rev_append prevs nexts) ops | Some b => k (InsertUndo rt :: ops) b end.
Definition rev_erase (rt : range_tombstone) (prevs nexts : list range_tombstone) (ops : list undo_op) (b : budget)
    (k : list undo_op -> budget -> edited) : edited :=
  match spend b with None => Failed (rev_append prevs (rt :: nexts)) ops | Some b => k (EraseUndo rt :: ops) b end.
Definition rev_update (rt new_rt : range_tombstone) (prevs nexts : list range_tombstone) (ops : list undo_op) (b : budget)
    (k : list undo_op -> budget -> edited) : edited :=
  match spend b with None => Failed (rev_append prevs (rt :: nexts)) ops | Some b => k (UpdateUndo rt new_rt :: ops) b end.

(** The loop of [insert_from]. *)
Fixpoint insert_loop (nexts prevs : list range_tombstone) (start endb : bound_view) (t : tombstone)
    (ops : list undo_op) (b : budget) : edited :=
  match nexts with
  | [] =>
      let rt := RT start endb t in
      rev_insert rt prevs [] ops b (fun ops b => Edited (rev_append prevs [rt]) ops b)
  | it :: nexts' =>
      if bless endb start then Edited (rev_append prevs nexts) ops b
      else if bless endb (start_bound it) then
        if tomb_eq (tomb it) t && adjacent endb (start_bound it) then
          let rt := RT start (end_bound it) t in
          rev_update it rt prevs nexts' ops b (fun ops b => Edited (rev_append prevs (rt :: nexts')) ops b)
        else
          let rt := RT start endb t in
          rev_insert rt prevs nexts ops b (fun ops b => Edited (rev_append prevs (rt :: nexts)) ops b)
      else
        let c := tomb_compare t (tomb it) in
        if c =? 0 then
          let start' := if bless (start_bound it) start then start_bound it else start in
          let endb' := if bless endb (end_bound it) then end_bound it else endb in
          rev_erase it prevs nexts' ops b (fun ops b => insert_loop nexts' prevs start' endb' t ops b)
        else if 0 <? c then
          let rest prevs it ops b :=
            if bless endb (end_bound it) then
              let it' := RT (invert endb) (end_bound it) (tomb it) in
              rev_update it it' prevs nexts' ops b (fun ops b =>
              let rt := RT start endb t in
              rev_insert rt prevs (it' :: nexts') ops b (fun ops b =>
              Edited (rev_append prevs (rt :: it' :: nexts')) ops b))
            else rev_erase it prevs nexts' ops b (fun ops b => insert_loop nexts' prevs start endb t ops b) in
          if bless (start_bound it) start && negb (bless (invert start) (start_bound it)) then
            let it' := RT start (end_bound it) (tomb it) in
            rev_update it it' prevs nexts' ops b (fun ops b =>
            let rt := RT (start_bound it) (invert start) (tomb it) in
            rev_insert rt prevs (it' :: nexts') ops b (fun ops b => rest (rt :: prevs) it' ops b))
          else rest prevs it ops b
        else
          let rest prevs ops b :=
            if bless (end_bound it) endb then insert_loop nexts' (it :: prevs) (invert (end_bound it)) endb t ops b
            else Edited (rev_append prevs nexts) ops b in
          if bless start (start_bound it) then
            if bless (start_bound it) endb then
              if negb (bless (invert (start_bound it)) start) then
                let rt := RT start (invert (start_bound it)) t in
                rev_insert rt prevs nexts ops b (fun ops b => rest (rt :: prevs) ops b)
              else rest prevs ops b
            else
              let rt := RT start endb t in
              rev_insert rt prevs nexts ops b (fun ops b => Edited (rev_append prevs (rt :: nexts)) ops b)
          else rest prevs ops b
  end.

Definition insert_from (prevs nexts : list range_tombstone) (start endb : bound_view) (t : tombstone)
    (ops : list undo_op) (b : budget) : edited :=
  match prevs with
  | prev :: prevs' =>
      if tomb_eq (tomb prev) t && adjacent (end_bound prev) start then
        rev_erase prev prevs' nexts ops b (fun ops b => insert_loop nexts prevs' (start_bound prev) endb t ops b)
      else insert_loop nexts prevs start endb t ops b
  | [] => insert_loop nexts prevs start endb t ops b
  end.

(** [upper_bound] by the end bound. *)
Fixpoint upper_bound (start : pos) (prevs nexts : list range_tombstone) : list range_tombstone * list range_tombstone :=
  match nexts with
  | it :: nexts' =>
      if less start (at_bound (end_bound it)) then (prevs, nexts) else upper_bound start (it :: prevs) nexts'
  | [] => (prevs, [])
  end.

(** [apply_reversibly] of one range. *)
Definition apply_range (l : list range_tombstone) (rt : range_tombstone) (ops : list undo_op) (b : budget) : edited :=
  match last l with
  | None => rev_insert rt [] [] ops b (fun ops b => Edited [rt] ops b)
  | Some lst =>
      let '(prevs, nexts) :=
        if bless (start_bound rt) (end_bound lst) then upper_bound (at_bound (start_bound rt)) [] l
        else (reverse l, []) in
      insert_from prevs nexts (start_bound rt) (end_bound rt) (tomb rt) ops b
  end.

(** [apply_reversibly] of a list: its ranges one after the other. *)
Fixpoint apply_ranges (l rts : list range_tombstone) (ops : list undo_op) (b : budget) : edited :=
  match rts with
  | [] => Edited l ops b
  | rt :: rts' =>
      match apply_range l rt ops b with
      | Edited l ops b => apply_ranges l rts' ops b
      | Failed l ops => Failed l ops
      end
  end.

(** [range_tombstone_list::find] and the undo of an edit; [None]: the assertion fails. *)
Definition bound_equal (a b : bound_view) : bool := bool_decide (kind a = kind b) && prefix_eq (bprefix a) (bprefix b).
Definition rt_equal (a b : range_tombstone) : bool :=
  tomb_eq (tomb a) (tomb b) && bound_equal (start_bound a) (start_bound b) && bound_equal (end_bound a) (end_bound b).

Fixpoint replace_found (rt : range_tombstone) (new : list range_tombstone) (l : list range_tombstone) : option (list range_tombstone) :=
  match l with
  | [] => None
  | it :: l' =>
      if bless (end_bound it) (end_bound rt) then cons it <$> replace_found rt new l'
      else if negb (bless (end_bound rt) (end_bound it)) && rt_equal it rt then Some (new ++ l') else None
  end.

(** Insertion into the set, ordered by the start bound; it does nothing when the
    set already has such a range. *)
Fixpoint set_insert (rt : range_tombstone) (l : list range_tombstone) : list range_tombstone :=
  match l with
  | [] => [rt]
  | it :: l' =>
      if bless (start_bound it) (start_bound rt) then it :: set_insert rt l'
      else if bless (start_bound rt) (start_bound it) then rt :: l else l
  end.

Definition undo (l : list range_tombstone) (op : undo_op) : option (list range_tombstone) :=
  match op with
  | InsertUndo rt => replace_found rt [] l
  | EraseUndo rt => Some (set_insert rt l)
  | UpdateUndo old new => replace_found new [old] l
  end.

(** [reverter::revert]: the log, newest first. *)
Fixpoint undo_all (ops : list undo_op) (l : list range_tombstone) : option (list range_tombstone) :=
  match ops with
  | [] => Some l
  | op :: ops' => l' ← undo l op; undo_all ops' l'
  end.

(** The deletion that covers a key. *)
Fixpoint search_tombstone_covering (l : list range_tombstone) (k : pos) : tombstone :=
  match l with
  | [] => no_tombstone
  | it :: l' =>
      if less k (at_bound (end_bound it)) then
        if less k (at_bound (start_bound it)) then no_tombstone else tomb it
      else search_tombstone_covering l' k
  end.
End list_ops.
End model.
Arguments bound_view : clear implicits.
Arguments range_tombstone : clear implicits.
Arguments undo_op : clear implicits.
Arguments edited : clear implicits.
