(* ===== verification/RangeTombstonesInv.v ===== *)
(** * Range tombstones: the merge keeps the list ordered and covers what it should

    The lemmas of this file are about bounds with a rank: an integer that orders
    them as the comparison does, even for an end bound and odd for a start bound,
    such that the end bound and the start bound that meet are next to each other.
    RangeTombstonesTheorems gives a rank to the bounds of any two lists. *)

From S2P Require Import Prelude Mergeable RangeTombstones.
Open Scope Z_scope.

Section ranked.
Context {component : Type}.
Abbreviation prefix := (list component).
Abbreviation bound := (bound_view component).
Abbreviation range := (range_tombstone component).
Variable less : prefix * Z -> prefix * Z -> bool.
Variable prefix_eq : prefix -> prefix -> bool.
Variable rho : bound -> Z.

Definition rk (b : bound) : Z := 2 * rho b + b2z (is_start (kind b)).

Hypothesis rho_invert : forall b, rho (invert b) = rho b.
Hypothesis less_rk : forall a b, less (at_bound a) (at_bound b) = (rk a <? rk b).
Hypothesis prefix_eq_refl : forall p, prefix_eq p p = true.
Hypothesis adjacent_rho : forall a b, adjacent prefix_eq a b = true -> rho a = rho b.

(** ** Ordered lists *)

Definition rt_ok (it : range) : Prop :=
  rk (start_bound it) < rk (end_bound it) /\ is_start (kind (start_bound it)) = true
  /\ is_start (kind (end_bound it)) = false.
Definition before (a b : range) : Prop := rk (end_bound a) < rk (start_bound b).
Definition wf (l : list range) : Prop := Forall rt_ok l /\ StronglySorted before l.
(** The list of a zipper. *)
Definition wfz (prevs nexts : list range) : Prop := wf (rev_append prevs nexts).

Lemma wfz_cons prevs x nexts :
  wfz prevs (x :: nexts) <->
  wfz prevs nexts /\ rt_ok x /\ (forall p, p ∈ prevs -> before p x) /\ (forall y, y ∈ nexts -> before x y).
Proof.
  unfold wfz, wf. rewrite !rev_append_rev, !Forall_app, Forall_cons, !StronglySorted_app.
  rewrite StronglySorted_cons, !Forall_forall. setoid_rewrite elem_of_cons. setoid_rewrite elem_of_rev.
  split.
  - intros ((? & ? & ?) & Hx & ? & ? & ?). split_and!; try done; intros; eauto.
  - intros (((? & ?) & Hx & ? & ?) & ? & ? & ?). split_and!; try done. intros x1 x2 ? [->|?]; eauto.
Qed.

Lemma wfz_shift prevs x nexts : wfz (x :: prevs) nexts <-> wfz prevs (x :: nexts).
Proof. done. Qed.

Lemma wfz_ok prevs nexts : wfz prevs nexts -> forall x, x ∈ prevs \/ x ∈ nexts -> rt_ok x.
Proof.
  intros [H _] x Hx. rewrite Forall_forall in H. apply H. rewrite rev_append_rev, elem_of_app, elem_of_rev. done.
Qed.

(** ** Coverage *)

(** [k] is the rank of a key, which no bound has. *)
Definition covered (s e k : Z) : Prop := s < k < e.

(** The deletions that cover [k] are at most [u]. *)
Definition dominated (l : list range) (k : Z) (u : tombstone) : Prop :=
  forall it, it ∈ l -> covered (rk (start_bound it)) (rk (end_bound it)) k -> tomb_le (tomb it) u.

Lemma dominated_cons it l k u :
  dominated (it :: l) k u <->
  (covered (rk (start_bound it)) (rk (end_bound it)) k -> tomb_le (tomb it) u) /\ dominated l k u.
Proof. unfold dominated. setoid_rewrite elem_of_cons. naive_solver. Qed.

Lemma dominated_rev_append prevs nexts k u :
  dominated (rev_append prevs nexts) k u <-> dominated prevs k u /\ dominated nexts k u.
Proof.
  unfold dominated. rewrite rev_append_rev. setoid_rewrite elem_of_app. setoid_rewrite elem_of_rev. naive_solver.
Qed.

(** ** The undo log *)

(** [steps l0 ops0 l ops]: edits that lead from [l0] to [l] and the log they add. *)
Inductive steps (l0 : list range) (ops0 : list (undo_op component)) : list range -> list (undo_op component) -> Prop :=
| steps_refl : wf l0 -> steps l0 ops0 l0 ops0
| steps_insert prevs nexts rt ops :
    steps l0 ops0 (rev_append prevs nexts) ops -> wfz prevs (rt :: nexts) ->
    steps l0 ops0 (rev_append prevs (rt :: nexts)) (InsertUndo rt :: ops)
| steps_erase prevs nexts rt ops :
    steps l0 ops0 (rev_append prevs (rt :: nexts)) ops ->
    steps l0 ops0 (rev_append prevs nexts) (EraseUndo rt :: ops)
| steps_update prevs nexts old new ops :
    steps l0 ops0 (rev_append prevs (old :: nexts)) ops -> wfz prevs (new :: nexts) ->
    steps l0 ops0 (rev_append prevs (new :: nexts)) (UpdateUndo old new :: ops).

Lemma steps_wf l0 ops0 l ops : steps l0 ops0 l ops -> wf l0 /\ wf l.
Proof.
  induction 1 as [|????? []|????? [? H]|?????? []]; try done. split; [done|]. by apply wfz_cons in H as [? _].
Qed.

Lemma steps_trans l0 ops0 l1 ops1 l2 ops2 :
  steps l0 ops0 l1 ops1 -> steps l1 ops1 l2 ops2 -> steps l0 ops0 l2 ops2.
Proof. intros H1. induction 1; eauto using steps. Qed.

Lemma bound_equal_refl b : bound_equal prefix_eq b b = true.
Proof. unfold bound_equal. by rewrite bool_decide_eq_true_2, prefix_eq_refl. Qed.

Lemma tomb_eq_refl t : tomb_eq t t = true.
Proof. unfold tomb_eq. by rewrite (proj2 (tomb_compare_eq t t) eq_refl). Qed.

Lemma replace_found_spec prevs nexts rt new :
  wfz prevs (rt :: nexts) ->
  replace_found less prefix_eq rt new (rev_append prevs (rt :: nexts)) = Some (rev_append prevs (new ++ nexts)).
Proof.
  intros H. assert (forall p, p ∈ rev prevs -> rk (end_bound p) < rk (end_bound rt)) as Hp.
  { intros p Hp. apply wfz_cons in H as (_ & (? & _) & Hb & _). rewrite elem_of_rev in Hp. specialize (Hb p Hp).
    unfold before in Hb. lia. }
  rewrite !rev_append_rev. clear H. induction (rev prevs) as [|p l IH]; simpl.
  - unfold bless, rt_equal. rewrite !less_rk, Z.ltb_irrefl, tomb_eq_refl, !bound_equal_refl. done.
  - unfold bless at 1. rewrite less_rk. specialize (Hp p) as Hpp.
    rewrite (proj2 (Z.ltb_lt _ _) (Hpp ltac:(apply elem_of_cons; by left))).
    rewrite IH; [done|]. intros p' ?. apply Hp, elem_of_cons. by right.
Qed.

Lemma set_insert_spec prevs nexts rt :
  wfz prevs (rt :: nexts) ->
  set_insert less rt (rev_append prevs nexts) = rev_append prevs (rt :: nexts).
Proof.
  intros H. assert (forall p, p ∈ rev prevs -> rk (start_bound p) < rk (start_bound rt)) as Hp.
  { intros p Hp. pose proof (wfz_ok _ _ H p) as Hok. apply wfz_cons in H as (_ & (? & _) & Hb & _).
    rewrite elem_of_rev in Hp. specialize (Hb p Hp). destruct (Hok (or_introl Hp)). unfold before in Hb. lia. }
  assert (match nexts with y :: _ => rk (start_bound rt) < rk (start_bound y) | [] => True end) as Hn.
  { destruct nexts as [|y nexts]; [done|]. apply wfz_cons in H as (_ & (? & _) & _ & Hb).
    specialize (Hb y ltac:(apply elem_of_cons; by left)). unfold before in Hb. lia. }
  rewrite !rev_append_rev. clear H. induction (rev prevs) as [|p l IH]; simpl.
  - destruct nexts as [|y nexts]; [done|]. simpl. unfold bless. rewrite !less_rk.
    rewrite (proj2 (Z.ltb_lt _ _) Hn). destruct (Z.ltb_spec (rk (start_bound y)) (rk (start_bound rt))); [lia|done].
  - unfold bless at 1. rewrite less_rk.
    rewrite (proj2 (Z.ltb_lt _ _) (Hp p ltac:(apply elem_of_cons; by left))).
    rewrite IH; [done|]. intros p' ?. apply Hp, elem_of_cons. by right.
Qed.

(** Undoing the log restores the list the edits started from. *)
Lemma steps_undo l0 ops0 l ops :
  steps l0 ops0 l ops -> undo_all less prefix_eq ops l = undo_all less prefix_eq ops0 l0.
Proof.
  intros H. induction H as [|prevs nexts rt ops H IH Hwf|prevs nexts rt ops H IH|prevs nexts old new ops H IH Hwf]; simpl.
  - done.
  - rewrite replace_found_spec by done. simpl. done.
  - rewrite set_insert_spec; [done|]. by apply steps_wf in H as [_ H].
  - rewrite replace_found_spec by done. simpl. done.
Qed.

(** ** The merge of one range *)

(** The rank of a key differs from that of any bound. *)
Definition key_rank (k : Z) : Prop := forall b, k <> rk b.

(** What a run of edits does: it ends with the coverage [C], or it throws; the
    log leads back to where it started. *)
Definition post (l0 : list range) (ops0 : list (undo_op component)) (b : option nat) (e : edited component)
    (C : Z -> tombstone -> Prop) : Prop :=
  match e with
  | Edited l ops b' =>
      steps l0 ops0 l ops /\ (b = None -> b' = None) /\ forall k u, key_rank k -> (dominated l k u <-> C k u)
  | Failed l ops => b <> None /\ steps l0 ops0 l ops
  end.

Lemma spend_spec b b' : spend b = Some b' -> b = None -> b' = None.
Proof. destruct b as [[|n]|]; naive_solver. Qed.

Lemma spend_fail b : spend b = None -> b <> None.
Proof. destruct b as [[|n]|]; naive_solver. Qed.

Lemma post_weaken l0 ops0 b b' e C C' :
  post l0 ops0 b' e C' -> (b = None -> b' = None) ->
  (forall k u, key_rank k -> (C' k u <-> C k u)) -> post l0 ops0 b e C.
Proof.
  intros H Hb HC. destruct e as [l ops b''|l ops]; simpl in *.
  - destruct H as (H1 & H2 & H3). split_and!; [done|eauto|]. intros k u Hk. rewrite H3 by done. by apply HC.
  - destruct H as [H1 H2]. split; [|done]. intros ->. by apply H1, Hb.
Qed.

Section post.
Context (l0 : list range) (ops0 : list (undo_op component)).

Lemma post_done prevs nexts ops (b : option nat) (C : Z -> tombstone -> Prop) :
  steps l0 ops0 (rev_append prevs nexts) ops ->
  (forall k u, key_rank k -> (dominated (rev_append prevs nexts) k u <-> C k u)) ->
  post l0 ops0 b (Edited (rev_append prevs nexts) ops b) C.
Proof. intros H HC. split_and!; done. Qed.

Lemma post_insert rt prevs nexts ops b k C :
  steps l0 ops0 (rev_append prevs nexts) ops -> wfz prevs (rt :: nexts) ->
  (forall b', steps l0 ops0 (rev_append prevs (rt :: nexts)) (InsertUndo rt :: ops) ->
              post l0 ops0 b' (k (InsertUndo rt :: ops) b') C) ->
  post l0 ops0 b (rev_insert rt prevs nexts ops b k) C.
Proof.
  intros H Hwf Hk. unfold rev_insert. destruct (spend b) as [b'|] eqn:E.
  - eapply post_weaken; [apply Hk; by apply steps_insert|eauto using spend_spec|done].
  - split; [by apply spend_fail|done].
Qed.

Lemma post_erase rt prevs nexts ops b k C :
  steps l0 ops0 (rev_append prevs (rt :: nexts)) ops ->
  (forall b', steps l0 ops0 (rev_append prevs nexts) (EraseUndo rt :: ops) ->
              post l0 ops0 b' (k (EraseUndo rt :: ops) b') C) ->
  post l0 ops0 b (rev_erase rt prevs nexts ops b k) C.
Proof.
  intros H Hk. unfold rev_erase. destruct (spend b) as [b'|] eqn:E.
  - eapply post_weaken; [apply Hk; by apply steps_erase|eauto using spend_spec|done].
  - split; [by apply spend_fail|done].
Qed.

Lemma post_update rt new prevs nexts ops b k C :
  steps l0 ops0 (rev_append prevs (rt :: nexts)) ops -> wfz prevs (new :: nexts) ->
  (forall b', steps l0 ops0 (rev_append prevs (new :: nexts)) (UpdateUndo rt new :: ops) ->
              post l0 ops0 b' (k (UpdateUndo rt new :: ops) b') C) ->
  post l0 ops0 b (rev_update rt new prevs nexts ops b k) C.
Proof.
  intros H Hwf Hk. unfold rev_update. destruct (spend b) as [b'|] eqn:E.
  - eapply post_weaken; [apply Hk; by apply steps_update|eauto using spend_spec|done].
  - split; [by apply spend_fail|done].
Qed.
End post.

(** The ranks of the bounds at hand. *)
Lemma rk_invert (b : bound) : rk (invert b) = rk b + (if is_start (kind b) then -1 else 1).
Proof. unfold rk. rewrite rho_invert. destruct b as [p []]; simpl; lia. Qed.

Lemma rk_start (b : bound) : is_start (kind b) = true -> rk b = 2 * rho b + 1.
Proof. unfold rk. by intros ->. Qed.

Lemma rk_end (b : bound) : is_start (kind b) = false -> rk b = 2 * rho b.
Proof. unfold rk. intros ->. simpl. lia. Qed.

Lemma is_start_invert (b : bound) : is_start (kind (invert b)) = negb (is_start (kind b)).
Proof. by destruct b as [p []]. Qed.


Lemma is_start_invert_kind k : is_start (invert_kind k) = negb (is_start k).
Proof. by destruct k. Qed.

(** Decides coverage claims: [k] is on one side of each bound. *)
Ltac dom bounds :=
  let k := fresh "k" in let u := fresh "u" in let Hk := fresh "Hk" in
  intros k u Hk; rewrite ?dominated_rev_append, ?dominated_cons; simpl; unfold covered; rewrite ?rk_invert;
  repeat match goal with H : is_start (kind ?b) = _ |- context [is_start (kind ?b)] => rewrite H end;
  let rec each bs := lazymatch bs with
    | cons ?b ?bs' =>
        pose proof (Hk b);
        let H := fresh in pose proof (Hk (invert b)) as H; rewrite rk_invert in H;
        match goal with E : is_start (kind b) = _ |- _ => rewrite E in H end;
        destruct (Z_lt_le_dec k (rk b)); each bs'
    | nil => idtac
    end in
  each bounds;
  split; intros; destruct_and?;
  repeat match goal with
  | H : _ < k < _ -> _ |- _ => first [specialize (H ltac:(lia)) | clear H]
  end;
  split_and?; intros; try done; try (exfalso; lia); eauto using tomb_le_trans.

Section loop_step.
Context (l0 : list range) (ops0 ops : list (undo_op component)) (t : tombstone) (it : range) (nexts prevs : list range)
  (start endb : bound).
Hypothesis Hst : steps l0 ops0 (rev_append prevs (it :: nexts)) ops.
Hypothesis Hs : is_start (kind start) = true.
Hypothesis He : is_start (kind endb) = false.
Hypothesis Hlt : rk start < rk endb.
Hypothesis Hprev : forall p, p ∈ prevs -> rk (end_bound p) < rk start.
Hypothesis Hsi : rk start < rk (end_bound it).
Hypothesis IH : forall prevs (start endb : bound) ops b,
  steps l0 ops0 (rev_append prevs nexts) ops ->
  is_start (kind start) = true -> is_start (kind endb) = false -> rk start < rk endb ->
  (forall p, p ∈ prevs -> rk (end_bound p) < rk start) ->
  (forall y, y ∈ nexts -> rk start < rk (end_bound y)) ->
  post l0 ops0 b (insert_loop less prefix_eq nexts prevs start endb t ops b)
    (fun k u => dominated (rev_append prevs nexts) k u /\ (covered (rk start) (rk endb) k -> tomb_le t u)).

Abbreviation goal b e := (post l0 ops0 b e
  (fun k u => dominated (rev_append prevs (it :: nexts)) k u /\ (covered (rk start) (rk endb) k -> tomb_le t u))).


Lemma zip_facts :
  wfz prevs (it :: nexts) /\ wfz prevs nexts /\ rt_ok it
  /\ (forall p, p ∈ prevs -> before p it) /\ (forall y, y ∈ nexts -> rk (end_bound it) < rk (start_bound y) < rk (end_bound y))
  /\ rk start = 2 * rho start + 1 /\ rk endb = 2 * rho endb
  /\ rk (start_bound it) = 2 * rho (start_bound it) + 1 /\ rk (end_bound it) = 2 * rho (end_bound it).
Proof.
  pose proof (steps_wf _ _ _ _ Hst) as [_ Hwf]. pose proof (proj1 (wfz_cons _ _ _) Hwf) as (Hwf' & Hok & Hb & Ha).
  pose proof Hok as (? & ? & ?). split; [done|]. split; [done|]. split_and!; eauto using rk_start, rk_end.
  intros y Hy. split; [by apply Ha|]. destruct (wfz_ok _ _ Hwf' y (or_intror Hy)). done.
Qed.

Ltac zip := destruct zip_facts as (Hall & Hwf & Hok & Hb & Ha & ? & ? & ? & ?); pose proof Hok as (? & ? & ?).

(** Order claims about a zipper. *)
Ltac wfz_tac :=
  repeat (rewrite wfz_shift); repeat (rewrite wfz_cons); unfold rt_ok, before; rewrite ?is_start_invert; simpl;
  rewrite ?rk_invert, ?is_start_invert_kind; simpl;
  repeat match goal with H : is_start (kind ?b) = _ |- context [is_start (kind ?b)] => rewrite H; simpl end;
  repeat first [assumption | lia | reflexivity | split];
  repeat match goal with
  | |- forall _, _ ∈ _ -> _ => intros ? ?
  | H : _ ∈ _ :: _ |- _ => apply elem_of_cons in H as [->|H]; simpl
  end;
  repeat match goal with
  | F : forall z, z ∈ ?l -> @?P z, H : ?y ∈ ?l |- _ =>
      let T := eval unfold before in (P y) in
      lazymatch goal with _ : T |- _ => fail | _ => assert T by exact (F y H) end
  end; rewrite ?rk_invert;
  repeat match goal with H : is_start (kind ?b) = _ |- context [is_start (kind ?b)] => rewrite H; simpl end; try lia.

(** The new range lies before the current one. *)
Lemma step_disjoint b :
  rk endb < rk (start_bound it) ->
  goal b (if tomb_eq (tomb it) t && adjacent prefix_eq endb (start_bound it) then
            let rt := RT start (end_bound it) t in
            rev_update it rt prevs nexts ops b (fun ops b => Edited (rev_append prevs (rt :: nexts)) ops b)
          else
            let rt := RT start endb t in
            rev_insert rt prevs (it :: nexts) ops b (fun ops b => Edited (rev_append prevs (rt :: it :: nexts)) ops b)).
Proof.
  intros E1. zip.
  destruct (tomb_eq (tomb it) t && adjacent prefix_eq endb (start_bound it)) eqn:Ea; simpl.
  - apply andb_true_iff in Ea as [Et Ea]. apply Z.eqb_eq, tomb_compare_eq in Et. apply adjacent_rho in Ea.
    apply post_update; [done|wfz_tac|].
    intros b' Hst'. apply post_done; [done|]. rewrite <- Et. dom [start; endb; start_bound it; end_bound it].
  - apply post_insert; [done|wfz_tac|].
    intros b' Hst'. apply post_done; [done|]. dom [start; endb; start_bound it; end_bound it].
Qed.

(** Same deletion: the two ranges are joined. *)
Lemma step_equal b :
  rk (start_bound it) < rk endb -> t = tomb it ->
  goal b (let start' := if bless less (start_bound it) start then start_bound it else start in
          let endb' := if bless less endb (end_bound it) then end_bound it else endb in
          rev_erase it prevs nexts ops b (fun ops b => insert_loop less prefix_eq nexts prevs start' endb' t ops b)).
Proof.
  intros E1 Et. zip. cbv zeta. apply post_erase; [done|]. intros b' Hst'. unfold bless. rewrite !less_rk.
  eapply post_weaken; [apply IH; [done|..]|done|].
  - by case_match.
  - by case_match.
  - destruct (Z.ltb_spec (rk (start_bound it)) (rk start)), (Z.ltb_spec (rk endb) (rk (end_bound it))); lia.
  - intros p Hp. case_match; [by apply Hb|by apply Hprev].
  - intros y Hy. specialize (Ha y Hy). case_match; lia.
  - rewrite Et. destruct (Z.ltb_spec (rk (start_bound it)) (rk start)), (Z.ltb_spec (rk endb) (rk (end_bound it)));
      dom [start; endb; start_bound it; end_bound it].
Qed.


(** The new deletion is newer: what remains of the current range is what the new
    one does not cover. *)
Definition newer_rest (prevs : list range) (it : range) (ops : list (undo_op component)) (b : option nat) : edited component :=
  if bless less endb (end_bound it) then
    let it' := RT (invert endb) (end_bound it) (tomb it) in
    rev_update it it' prevs nexts ops b (fun ops b =>
    let rt := RT start endb t in
    rev_insert rt prevs (it' :: nexts) ops b (fun ops b =>
    Edited (rev_append prevs (rt :: it' :: nexts)) ops b))
  else rev_erase it prevs nexts ops b (fun ops b => insert_loop less prefix_eq nexts prevs start endb t ops b).

Lemma newer_rest_spec prevs' it' ops' b :
  steps l0 ops0 (rev_append prevs' (it' :: nexts)) ops' ->
  rk start <= rk (start_bound it') -> rk (start_bound it') < rk endb ->
  (forall p, p ∈ prevs' -> rk (end_bound p) < rk start) -> tomb_le (tomb it') t ->
  post l0 ops0 b (newer_rest prevs' it' ops' b)
    (fun k u => dominated (rev_append prevs' (it' :: nexts)) k u /\ (covered (rk start) (rk endb) k -> tomb_le t u)).
Proof.
  intros Hst' H1 H2 Hp' Ht. unfold newer_rest, bless. rewrite less_rk.
  pose proof (steps_wf _ _ _ _ Hst') as [_ Hall']. pose proof (proj1 (wfz_cons _ _ _) Hall') as (Hwf' & Hok' & Hb' & Ha').
  pose proof Hok' as (? & Hs' & He'). pose proof (rk_start _ Hs). pose proof (rk_end _ He).
  pose proof (rk_start _ Hs'). pose proof (rk_end _ He').
  destruct (Z.ltb_spec (rk endb) (rk (end_bound it'))).
  - apply post_update; [done|wfz_tac|]. intros b1 Hst1. apply post_insert; [done|wfz_tac|].
    intros b2 Hst2. apply post_done; [done|]. dom [start; endb; start_bound it'; end_bound it'].
  - apply post_erase; [done|]. intros b1 Hst1. eapply post_weaken; [apply IH; try done|done|].
    + intros y Hy. specialize (Ha' y Hy). destruct (wfz_ok _ _ Hwf' y (or_intror Hy)). unfold before in Ha'. lia.
    + dom [start; endb; start_bound it'; end_bound it'].
Qed.

Lemma step_newer b :
  rk (start_bound it) < rk endb -> tomb_le (tomb it) t ->
  goal b (if bless less (start_bound it) start && negb (bless less (invert start) (start_bound it)) then
            let it' := RT start (end_bound it) (tomb it) in
            rev_update it it' prevs nexts ops b (fun ops b =>
            let rt := RT (start_bound it) (invert start) (tomb it) in
            rev_insert rt prevs (it' :: nexts) ops b (fun ops b => newer_rest (rt :: prevs) it' ops b))
          else newer_rest prevs it ops b).
Proof.
  intros E1 Et. zip. unfold bless. rewrite !less_rk, rk_invert, Hs.
  destruct (Z.ltb_spec (rk (start_bound it)) (rk start)); simpl.
  - destruct (Z.ltb_spec (rk start + -1) (rk (start_bound it))); [lia|]. simpl.
    apply post_update; [done|wfz_tac|]. intros b1 Hst1. apply post_insert; [done|wfz_tac|].
    intros b2 Hst2. eapply post_weaken; [apply newer_rest_spec; simpl; try done; try lia|done|].
    + intros p [->|Hp]%elem_of_cons; [simpl; rewrite rk_invert, Hs; lia|by apply Hprev].
    + dom [start; endb; start_bound it; end_bound it].
  - apply newer_rest_spec; done.
Qed.

(** The new deletion is older: it covers what the current range leaves. *)
Definition older_rest (prevs : list range) (ops : list (undo_op component)) (b : option nat) : edited component :=
  if bless less (end_bound it) endb then insert_loop less prefix_eq nexts (it :: prevs) (invert (end_bound it)) endb t ops b
  else Edited (rev_append prevs (it :: nexts)) ops b.

Lemma older_rest_spec prevs' s ops' b :
  steps l0 ops0 (rev_append prevs' (it :: nexts)) ops' ->
  rk (start_bound it) <= s -> s < rk (end_bound it) -> tomb_le t (tomb it) ->
  post l0 ops0 b (older_rest prevs' ops' b)
    (fun k u => dominated (rev_append prevs' (it :: nexts)) k u /\ (covered s (rk endb) k -> tomb_le t u)).
Proof.
  intros Hst' H1 H2 Ht. zip. unfold older_rest, bless. rewrite less_rk.
  pose proof (steps_wf _ _ _ _ Hst') as [_ Hall']. pose proof (proj1 (wfz_cons _ _ _) Hall') as (Hwf' & Hok' & Hb' & Ha').
  assert (is_start (kind (end_bound it)) = false) as Hei by done.
  destruct (Z.ltb_spec (rk (end_bound it)) (rk endb)).
  - eapply post_weaken; [apply IH; try done|done|].
    + rewrite is_start_invert. by rewrite Hei.
    + rewrite rk_invert, Hei. lia.
    + rewrite rk_invert, Hei. intros p [->|Hp]%elem_of_cons; [lia|]. specialize (Hb' p Hp). unfold before in Hb'. lia.
    + rewrite rk_invert, Hei. intros y Hy. specialize (Ha y Hy). lia.
    + rewrite rk_invert, Hei. change (rev_append (it :: prevs') nexts) with (rev_append prevs' (it :: nexts)).
      dom [endb; start_bound it; end_bound it].
  - apply post_done; [done|]. dom [endb; start_bound it; end_bound it].
Qed.

Lemma step_older b :
  rk (start_bound it) <= rk endb -> tomb_le t (tomb it) ->
  goal b (if bless less start (start_bound it) then
            if bless less (start_bound it) endb then
              if negb (bless less (invert (start_bound it)) start) then
                let rt := RT start (invert (start_bound it)) t in
                rev_insert rt prevs (it :: nexts) ops b (fun ops b => older_rest (rt :: prevs) ops b)
              else older_rest prevs ops b
            else
              let rt := RT start endb t in
              rev_insert rt prevs (it :: nexts) ops b (fun ops b => Edited (rev_append prevs (rt :: it :: nexts)) ops b)
          else older_rest prevs ops b).
Proof.
  intros E1 Et. zip. unfold bless. rewrite !less_rk.
  assert (is_start (kind (start_bound it)) = true) as Hsi' by done.
  destruct (Z.ltb_spec (rk start) (rk (start_bound it))).
  - destruct (Z.ltb_spec (rk (start_bound it)) (rk endb)); [|lia]. rewrite rk_invert, Hsi'.
    destruct (Z.ltb_spec (rk (start_bound it) + -1) (rk start)); [lia|]. simpl.
    apply post_insert; [done|wfz_tac|]. intros b1 Hst1.
    eapply post_weaken; [apply (older_rest_spec _ (rk (start_bound it))); try done; lia|done|].
    dom [start; endb; start_bound it; end_bound it].
  - eapply post_weaken; [apply (older_rest_spec _ (rk start)); try done; lia|done|]. done.
Qed.
End loop_step.

Lemma insert_loop_spec l0 ops0 t nexts : forall prevs (start endb : bound) ops b,
  steps l0 ops0 (rev_append prevs nexts) ops ->
  is_start (kind start) = true -> is_start (kind endb) = false -> rk start < rk endb ->
  (forall p, p ∈ prevs -> rk (end_bound p) < rk start) ->
  (forall y, y ∈ nexts -> rk start < rk (end_bound y)) ->
  post l0 ops0 b (insert_loop less prefix_eq nexts prevs start endb t ops b)
    (fun k u => dominated (rev_append prevs nexts) k u /\ (covered (rk start) (rk endb) k -> tomb_le t u)).
Proof.
  induction nexts as [|it nexts IH]; intros prevs start endb ops b Hst Hs He Hlt Hprev Hnext.
  - simpl. apply post_insert; [done| |].
    + apply wfz_cons. split; [by apply steps_wf in Hst as [_ ?]|]. split; [done|]. split; [done|]. by intros ? ?%elem_of_nil.
    + intros b' Hst'. apply post_done; [done|]. intros k u Hk. rewrite !dominated_rev_append, !dominated_cons. simpl. tauto.
  - assert (rk start < rk (end_bound it)) as Hsi by (apply Hnext, elem_of_cons; by left). pose proof (rk_end _ He).
    assert (is_start (kind (start_bound it)) = true) as Hsi'.
    { apply steps_wf in Hst as [_ Hw]. by destruct (proj1 (wfz_cons _ _ _) Hw) as (_ & (_ & ? & _) & _). }
    pose proof (rk_start _ Hsi'). cbn [insert_loop]. unfold bless at 1 2. rewrite !less_rk.
    destruct (Z.ltb_spec (rk endb) (rk start)) as [?|_]; [lia|].
    destruct (Z.ltb_spec (rk endb) (rk (start_bound it))) as [E1|E1]; [by eapply step_disjoint|].
    pose proof (tri_opp (c := tomb_compare) t (tomb it) I I). cbv zeta.
    destruct (Z.eqb_spec (tomb_compare t (tomb it)) 0) as [Et|Et].
    { eapply step_equal; eauto; [lia|by apply tomb_compare_eq]. }
    destruct (Z.ltb_spec 0 (tomb_compare t (tomb it))) as [Ec|Ec].
    + eapply step_newer; eauto; unfold tomb_le; lia.
    + eapply step_older; eauto; unfold tomb_le; lia.
Qed.

Lemma insert_from_spec l0 ops0 t prevs nexts (start endb : bound) ops b :
  steps l0 ops0 (rev_append prevs nexts) ops ->
  is_start (kind start) = true -> is_start (kind endb) = false -> rk start < rk endb ->
  (forall p, p ∈ prevs -> rk (end_bound p) < rk start) ->
  (forall y, y ∈ nexts -> rk start < rk (end_bound y)) ->
  post l0 ops0 b (insert_from less prefix_eq prevs nexts start endb t ops b)
    (fun k u => dominated (rev_append prevs nexts) k u /\ (covered (rk start) (rk endb) k -> tomb_le t u)).
Proof.
  intros Hst Hs He Hlt Hprev Hnext. destruct prevs as [|prev prevs]; cbn [insert_from]; [by apply insert_loop_spec|].
  destruct (tomb_eq (tomb prev) t && adjacent prefix_eq (end_bound prev) start) eqn:E; [|by apply insert_loop_spec].
  apply andb_true_iff in E as [Et Ea]. apply Z.eqb_eq, tomb_compare_eq in Et. apply adjacent_rho in Ea.
  pose proof (steps_wf _ _ _ _ Hst) as [_ Hw]. apply (wfz_cons prevs prev nexts) in Hw as (Hw & (? & Hsp & Hep) & Hb & Ha).
  pose proof (Hprev prev ltac:(apply elem_of_cons; by left)). pose proof (rk_start _ Hs). pose proof (rk_end _ Hep).
  change (rev_append (prev :: prevs) nexts) with (rev_append prevs (prev :: nexts)) in *.
  apply post_erase; [done|]. intros b' Hst'. eapply post_weaken; [apply insert_loop_spec; try done|done|].
  - lia.
  - intros y Hy. specialize (Hnext y Hy). lia.
  - rewrite <- Et. dom [start; endb; start_bound prev; end_bound prev].
Qed.

Lemma upper_bound_spec (s : bound) nexts : forall prevs,
  wfz prevs nexts -> is_start (kind s) = true ->
  (forall p, p ∈ prevs -> rk (end_bound p) < rk s) ->
  let '(p', n') := upper_bound less (at_bound s) prevs nexts in
  rev_append p' n' = rev_append prevs nexts
  /\ (forall p, p ∈ p' -> rk (end_bound p) < rk s) /\ (forall y, y ∈ n' -> rk s < rk (end_bound y)).
Proof.
  induction nexts as [|it nexts IH]; intros prevs Hw Hs Hp; simpl.
  - split_and!; [done|done|]. by intros ? ?%elem_of_nil.
  - pose proof (proj1 (wfz_cons _ _ _) Hw) as (Hw' & (? & _ & Hei) & _ & Ha).
    pose proof (rk_start _ Hs). pose proof (rk_end _ Hei). rewrite less_rk.
    destruct (Z.ltb_spec (rk s) (rk (end_bound it))).
    + split_and!; [done|done|]. intros y [->|Hy]%elem_of_cons; [done|].
      specialize (Ha y Hy). destruct (wfz_ok _ _ Hw' y (or_intror Hy)). unfold before in Ha. lia.
    + apply (IH (it :: prevs)); [done|done|]. intros p [->|?]%elem_of_cons; [lia|eauto].
Qed.

(** [apply_reversibly] of one range. *)
Lemma apply_range_spec l0 ops0 l rt ops b :
  steps l0 ops0 l ops -> rt_ok rt ->
  post l0 ops0 b (apply_range less prefix_eq l rt ops b)
    (fun k u => dominated l k u /\ (covered (rk (start_bound rt)) (rk (end_bound rt)) k -> tomb_le (tomb rt) u)).
Proof.
  intros Hst Hrt. pose proof Hrt as (Hlt & Hs & He). pose proof (steps_wf _ _ _ _ Hst) as [_ Hw].
  unfold apply_range. destruct (last l) as [lst|] eqn:El.
  - apply last_Some in El as [l' ->].
    assert (rt_ok lst) as (_ & _ & Hel) by (destruct Hw as [Hw _]; apply Forall_app in Hw as [_ Hw]; by inversion Hw).
    pose proof (rk_start _ Hs). pose proof (rk_end _ Hel).
    unfold bless. rewrite less_rk. destruct (Z.ltb_spec (rk (start_bound rt)) (rk (end_bound lst))).
    + pose proof (upper_bound_spec (start_bound rt) (l' ++ [lst]) [] Hw Hs ltac:(by intros ? ?%elem_of_nil)) as H'.
      destruct (upper_bound less (at_bound (start_bound rt)) [] (l' ++ [lst])) as [p' n'].
      destruct H' as (E & Hp & Hn). simpl in E. rewrite <- E in *. by apply insert_from_spec.
    + assert (rev_append (reverse (l' ++ [lst])) [] = l' ++ [lst]) as E by (apply reverse_involutive).
      eapply post_weaken; [apply insert_from_spec; try done; [by rewrite E| |by intros ? ?%elem_of_nil]|done|by rewrite E].
      intros p Hp. rewrite elem_of_reverse in Hp. apply elem_of_app in Hp as [Hp|Hp%list_elem_of_singleton]; [|subst; lia].
      destruct Hw as [Hok Hs']. rewrite Forall_app, Forall_forall in Hok. destruct Hok as [Hok Hl].
      apply StronglySorted_app in Hs' as (Hb & _ & _). specialize (Hb p lst Hp ltac:(apply elem_of_cons; by left)).
      inversion Hl as [|?? [? _] _]. subst. unfold before in Hb. lia.
  - apply last_None in El as ->. apply (post_insert _ _ rt [] []); [done| |].
    + apply (wfz_cons [] rt []). split; [done|]. split; [done|]. split; by intros ? ?%elem_of_nil.
    + intros b' Hst'. apply (post_done _ _ [] [rt]); [done|]. intros k u Hk. cbn [rev_append]. rewrite !dominated_cons. tauto.
Qed.

(** [apply_reversibly] of a list. *)
Lemma apply_ranges_spec l0 ops0 rts : forall l ops b,
  steps l0 ops0 l ops -> Forall rt_ok rts ->
  post l0 ops0 b (apply_ranges less prefix_eq l rts ops b) (fun k u => dominated l k u /\ dominated rts k u).
Proof.
  induction rts as [|rt rts IH]; intros l ops b Hst Hrts; simpl.
  - split_and!; [done|done|]. intros k u Hk. split; [|by intros [? _]]. intros ?. split; [done|]. by intros ? ?%elem_of_nil.
  - apply Forall_cons in Hrts as [Hrt Hrts]. pose proof (apply_range_spec l0 ops0 l rt ops b Hst Hrt) as H.
    destruct (apply_range less prefix_eq l rt ops b) as [l1 ops1 b1|l1 ops1]; simpl in H; [|done].
    destruct H as (Hst1 & Hb & HC). eapply post_weaken; [by apply IH|done|].
    intros k u Hk. cbv beta. rewrite (HC k u Hk), dominated_cons. tauto.
Qed.

(** ** Looking up a key *)

Lemma wf_cons it l : wf (it :: l) <-> rt_ok it /\ (forall y, y ∈ l -> before it y) /\ wf l.
Proof. unfold wf. rewrite Forall_cons, StronglySorted_cons, !Forall_forall. tauto. Qed.

(** The deletion found is the one that covers the key: the least bound of all that do. *)
Lemma search_spec l key k u :
  (forall b, less key (at_bound b) = (k <? rk b)) -> key_rank k -> wf l -> tomb_le no_tombstone u ->
  (tomb_le (search_tombstone_covering less l key) u <-> dominated l k u).
Proof.
  intros Hless Hk Hw Hu. induction l as [|it l IH]; simpl.
  - split; [|done]. by intros _ ? ?%elem_of_nil.
  - apply wf_cons in Hw as ((Hlt & _) & Hb & Hw). rewrite dominated_cons, !Hless. unfold covered.
    pose proof (Hk (start_bound it)). pose proof (Hk (end_bound it)).
    assert (k < rk (end_bound it) -> dominated l k u) as Hd.
    { intros ? y Hy [? _]. specialize (Hb y Hy). unfold before in Hb. lia. }
    destruct (Z.ltb_spec k (rk (end_bound it))); [destruct (Z.ltb_spec k (rk (start_bound it)))|].
    + split; [|done]. intros _. split; [lia|eauto].
    + split; [intros; split; eauto|]. intros [Hc _]. apply Hc. lia.
    + rewrite IH by done. split; [|by intros [_ ?]]. intros ?. split; [lia|done].
Qed.
End ranked.

Lemma search_valid {component} (less : list component * Z -> list component * Z -> bool) l key :
  Forall (fun it => tomb_le no_tombstone (tomb it)) l ->
  tomb_le no_tombstone (search_tombstone_covering less l key).
Proof.
  induction 1; simpl; [apply tomb_le_refl|]. repeat case_match; eauto with tombs.
Qed.

(** Equality of two deletions from their upper bounds. *)
Lemma tomb_ext t v :
  tomb_le no_tombstone t -> tomb_le no_tombstone v ->
  (forall u, tomb_le no_tombstone u -> (tomb_le t u <-> tomb_le v u)) -> t = v.
Proof.
  intros Ht Hv H. apply tomb_le_antisym; apply H; eauto with tombs.
Qed.
