(* ===== verification/RangeTombstonesTheorems.v ===== *)
(** * Range tombstones: theorems

    The comparison of bounds is a total order; the bounds of two lists and a key
    have ranks that order them as it does, so the lemmas of RangeTombstonesInv
    apply to the list as the code keeps it. *)

From S2P Require Import Prelude Mergeable RangeTombstones RangeTombstonesInv.
Open Scope Z_scope.


(** ** Comparisons that agree

    The operations compare only bounds with the prefixes they were given. *)

Section agree.
Context {component : Type}.
Abbreviation prefix := (list component).
Abbreviation bound := (bound_view component).
Abbreviation range := (range_tombstone component).
Variables (less less' : prefix * Z -> prefix * Z -> bool) (prefix_eq : prefix -> prefix -> bool).
Variables (inL : prefix -> Prop) (inT : tombstone -> Prop).
Definition bin (b : bound) : Prop := inL (bprefix b).
Hypothesis Hag : forall a b, bin a -> bin b -> less (at_bound a) (at_bound b) = less' (at_bound a) (at_bound b).

Definition rt_in (rt : range) : Prop := bin (start_bound rt) /\ bin (end_bound rt) /\ inT (tomb rt).
Definition op_in (op : undo_op component) : Prop :=
  match op with
  | InsertUndo rt | EraseUndo rt => rt_in rt
  | UpdateUndo old new => rt_in old /\ rt_in new
  end.
Definition edited_in (e : edited component) : Prop :=
  match e with Edited l ops _ | Failed l ops => Forall rt_in l /\ Forall op_in ops end.

Lemma Forall_rev_append {A} (P : A -> Prop) l k : Forall P l -> Forall P k -> Forall P (rev_append l k).
Proof. intros H. revert k. induction H; simpl; auto. Qed.

Lemma bin_invert (b : bound) : bin (invert b) <-> bin b.
Proof. done. Qed.

Ltac in_tac := unfold rt_in, op_in in *; simpl in *; repeat match goal with
  | |- _ /\ _ => split
  | |- Forall _ (rev_append _ _) => apply Forall_rev_append
  | |- Forall _ (_ :: _) => apply Forall_cons; split
  | |- bin (if ?c then _ else _) => destruct c
  | H : _ /\ _ |- _ => destruct H
  end; try done.

Lemma insert_loop_agree t nexts : forall prevs start endb ops b,
  Forall rt_in prevs -> Forall rt_in nexts -> bin start -> bin endb -> inT t -> Forall op_in ops ->
  insert_loop less prefix_eq nexts prevs start endb t ops b = insert_loop less' prefix_eq nexts prevs start endb t ops b
  /\ edited_in (insert_loop less prefix_eq nexts prevs start endb t ops b).
Proof.
  induction nexts as [|it nexts IH]; intros prevs start endb ops b Hp Hn Hs He Ht Ho; simpl.
  - unfold rev_insert. destruct (spend b); in_tac.
  - apply Forall_cons in Hn as [(Hi1 & Hi2 & Hi3) Hn]. unfold bless, rev_insert, rev_erase, rev_update; simpl.
    rewrite !Hag by (try done).
    repeat (case_match; try (in_tac; fail); try (apply IH; in_tac; fail)).
Qed.

Lemma insert_from_agree t prevs nexts start endb ops b :
  Forall rt_in prevs -> Forall rt_in nexts -> bin start -> bin endb -> inT t -> Forall op_in ops ->
  insert_from less prefix_eq prevs nexts start endb t ops b = insert_from less' prefix_eq prevs nexts start endb t ops b
  /\ edited_in (insert_from less prefix_eq prevs nexts start endb t ops b).
Proof.
  intros Hp Hn Hs He Ht Ho. destruct prevs as [|prev prevs]; simpl; [by apply insert_loop_agree|].
  case_match; [|by apply insert_loop_agree]. apply Forall_cons in Hp as [? Hp]. unfold rev_erase.
  destruct (spend b); [apply insert_loop_agree; in_tac|in_tac].
Qed.

Lemma upper_bound_agree (s : bound) nexts : forall prevs, bin s -> Forall rt_in prevs -> Forall rt_in nexts ->
  upper_bound less (at_bound s) prevs nexts = upper_bound less' (at_bound s) prevs nexts
  /\ Forall rt_in (upper_bound less (at_bound s) prevs nexts).1 /\ Forall rt_in (upper_bound less (at_bound s) prevs nexts).2.
Proof.
  induction nexts as [|it nexts IH]; intros prevs Hs Hp Hn; simpl; [done|].
  pose proof (proj1 (Forall_cons _ _ _) Hn) as [(? & ? & ?) ?]. rewrite Hag by done.
  case_match; [done|]. apply IH; in_tac.
Qed.

Lemma apply_range_agree l rt ops b :
  Forall rt_in l -> rt_in rt -> Forall op_in ops ->
  apply_range less prefix_eq l rt ops b = apply_range less' prefix_eq l rt ops b
  /\ edited_in (apply_range less prefix_eq l rt ops b).
Proof.
  intros Hl Hrt Ho. pose proof Hrt as (Hs & He & Ht). unfold apply_range. destruct (last l) as [lst|] eqn:El.
  - assert (rt_in lst) as (_ & Hle & _).
    { apply last_Some in El as [l' ->]. apply Forall_app in Hl as [_ Hl]. by inversion Hl. }
    unfold bless. rewrite Hag by done. destruct (less' (at_bound (start_bound rt)) (at_bound (end_bound lst))).
    + destruct (upper_bound_agree (start_bound rt) l [] Hs (Forall_nil_2 _) Hl) as (<- & H1 & H2).
      destruct (upper_bound less (at_bound (start_bound rt)) [] l). by apply insert_from_agree.
    + apply insert_from_agree; try done. by apply Forall_reverse.
  - unfold rev_insert. destruct (spend b); in_tac.
Qed.

Lemma apply_ranges_agree rts : forall l ops b,
  Forall rt_in l -> Forall rt_in rts -> Forall op_in ops ->
  apply_ranges less prefix_eq l rts ops b = apply_ranges less' prefix_eq l rts ops b
  /\ edited_in (apply_ranges less prefix_eq l rts ops b).
Proof.
  induction rts as [|rt rts IH]; intros l ops b Hl Hr Ho; simpl; [done|].
  apply Forall_cons in Hr as [Hrt Hr]. destruct (apply_range_agree l rt ops b Hl Hrt Ho) as [<- Hin].
  destruct (apply_range less prefix_eq l rt ops b); [|done]. destruct Hin. by apply IH.
Qed.

Lemma replace_found_agree rt new l : rt_in rt -> Forall rt_in new -> Forall rt_in l ->
  replace_found less prefix_eq rt new l = replace_found less' prefix_eq rt new l
  /\ forall l', replace_found less prefix_eq rt new l = Some l' -> Forall rt_in l'.
Proof.
  intros Hrt Hnew Hl. pose proof Hrt as (? & ? & ?). induction Hl as [|it l (? & ? & ?) Hl [IH1 IH2]]; simpl; [done|].
  unfold bless in *. rewrite !Hag by done. rewrite <- IH1. case_match.
  - split; [done|]. intros l' (l'' & E & ->)%fmap_Some. apply Forall_cons. split; [done|by apply IH2].
  - split; [done|]. intros l'. case_match; [|done]. intros [= <-]. by apply Forall_app.
Qed.

Lemma set_insert_agree rt l : rt_in rt -> Forall rt_in l ->
  set_insert less rt l = set_insert less' rt l /\ Forall rt_in (set_insert less rt l).
Proof.
  intros Hrt Hl. pose proof Hrt as (? & ? & ?). induction Hl as [|it l (? & ? & ?) Hl [IH1 IH2]]; simpl; [in_tac|].
  unfold bless in *. rewrite !Hag by done. rewrite <- IH1. repeat case_match; in_tac.
Qed.

Lemma undo_all_agree ops : forall l, Forall op_in ops -> Forall rt_in l ->
  undo_all less prefix_eq ops l = undo_all less' prefix_eq ops l.
Proof.
  induction ops as [|op ops IH]; intros l Ho Hl; simpl; [done|]. apply Forall_cons in Ho as [Hop Ho].
  assert (undo less prefix_eq l op = undo less' prefix_eq l op
          /\ forall l', undo less prefix_eq l op = Some l' -> Forall rt_in l') as [<- Hin].
  { destruct op as [rt|rt|old new]; simpl in *.
    - by apply replace_found_agree.
    - destruct (set_insert_agree rt l Hop Hl) as [<- ?]. split; [done|]. by intros l' [= <-].
    - destruct Hop. apply replace_found_agree; [done|by apply Forall_singleton|done]. }
  destruct (undo less prefix_eq l op) as [l'|] eqn:E; simpl; [|done]. apply IH; eauto.
Qed.

Lemma search_agree l key : Forall rt_in l ->
  (forall b, bin b -> less key (at_bound b) = less' key (at_bound b)) ->
  search_tombstone_covering less l key = search_tombstone_covering less' l key.
Proof.
  intros Hl Hk. induction Hl as [|it l (? & ? & ?) Hl IH]; simpl; [done|]. by rewrite !Hk, IH by done.
Qed.
End agree.

Section order.
Context {component : Type}.
Abbreviation prefix := (list component).
Abbreviation pos := (prefix * Z)%type.
Variable tri_compare : nat -> component -> component -> Z.
(** The comparison of each component type orders its values. *)
Hypothesis Htri : forall i, TriOrder (fun _ => True) (fun x y => Z.sgn (tri_compare i x y)).

(** ** The order of positions *)

Fixpoint pcmp (i : nat) (p1 : prefix) (w1 : Z) (p2 : prefix) (w2 : Z) : Z :=
  match p1, p2 with
  | x :: p1', y :: p2' =>
      let c := Z.sgn (tri_compare i x y) in if c =? 0 then pcmp (S i) p1' w1 p2' w2 else c
  | [], [] => Z.sgn (w1 - w2)
  | [], _ :: _ => if w1 <=? 0 then -1 else 1
  | _ :: _, [] => if w2 <=? 0 then 1 else -1
  end.

Definition cmp (a b : pos) : Z := pcmp 0 a.1 a.2 b.1 b.2.

Lemma pcmp_opp p1 : forall i w1 p2 w2, pcmp i p2 w2 p1 w1 = - pcmp i p1 w1 p2 w2.
Proof.
  induction p1 as [|x p1 IH]; intros i w1 [|y p2] w2; simpl.
  - lia.
  - case_match; lia.
  - case_match; lia.
  - pose proof (tri_opp (c := fun x y => Z.sgn (tri_compare i x y)) x y I I) as E. cbv beta in E.
    destruct (Z.eqb_spec (Z.sgn (tri_compare i x y)) 0), (Z.eqb_spec (Z.sgn (tri_compare i y x)) 0); try lia. apply IH.
Qed.

Lemma pcmp_range p1 : forall i w1 p2 w2, -1 <= pcmp i p1 w1 p2 w2 <= 1.
Proof.
  induction p1 as [|x p1 IH]; intros i w1 [|y p2] w2; simpl; try (case_match; lia); [lia|].
  case_match; [apply IH|lia].
Qed.

Lemma pcmp_trans p1 : forall i w1 p2 w2 p3 w3,
  pcmp i p1 w1 p2 w2 <= 0 -> pcmp i p2 w2 p3 w3 <= 0 -> pcmp i p1 w1 p3 w3 <= 0.
Proof.
  induction p1 as [|x p1 IH]; intros i w1 [|y p2] w2 [|z p3] w3; simpl;
    try (repeat match goal with |- context [?w <=? 0] => destruct (Z.leb_spec w 0) end; lia).
  pose proof (tri_eq_l (P := fun _ => True) (c := fun x y => Z.sgn (tri_compare i x y)) x y z I I I) as E1. cbv beta in E1.
  pose proof (tri_eq_r (P := fun _ => True) (c := fun x y => Z.sgn (tri_compare i x y)) x y z I I I) as E2. cbv beta in E2.
  pose proof (tri_lt_trans (P := fun _ => True) (c := fun x y => Z.sgn (tri_compare i x y)) x y z I I I) as E3. cbv beta in E3.
  destruct (Z.eqb_spec (Z.sgn (tri_compare i x y)) 0), (Z.eqb_spec (Z.sgn (tri_compare i y z)) 0),
    (Z.eqb_spec (Z.sgn (tri_compare i x z)) 0); try lia; try apply IH.
Qed.

#[local] Instance cmp_tri : TriOrder (fun _ => True) cmp.
Proof.
  split; unfold cmp; intros; [apply pcmp_opp|by eapply pcmp_trans|apply pcmp_range].
Qed.

Lemma bound_tri_compare_cmp i p1 w1 p2 w2 :
  Z.sgn (let res := prefix_equality_tri_compare tri_compare i p1 p2 in
         if negb (res =? 0) then res
         else if bool_decide (length p1 = length p2) then w1 - w2
         else if bool_decide (length p1 < length p2)%nat then w1 - b2z (w1 <=? 0) else - (w2 - b2z (w2 <=? 0)))
  = pcmp i p1 w1 p2 w2.
Proof.
  revert i p2. induction p1 as [|x p1 IH]; intros i [|y p2]; simpl.
  - done.
  - unfold b2z. destruct (Z.leb_spec w1 0); lia.
  - unfold b2z. destruct (Z.leb_spec w2 0); lia.
  - destruct (Z.eqb_spec (tri_compare i x y) 0) as [E|E]; simpl.
    + rewrite E. simpl. rewrite <- IH. cbv zeta. f_equal. case_match; [done|].
      rewrite (bool_decide_ext (S (length p1) = S (length p2)) (length p1 = length p2)) by lia.
      by rewrite (bool_decide_ext (S (length p1) < S (length p2))%nat (length p1 < length p2)%nat) by lia.
    + destruct (Z.eqb_spec (tri_compare i x y) 0); [done|]. simpl.
      destruct (Z.eqb_spec (Z.sgn (tri_compare i x y)) 0); [lia|done].
Qed.

Lemma bound_less_cmp a b : bound_less tri_compare a b = (cmp a b <? 0).
Proof.
  destruct a as [p1 w1], b as [p2 w2]. unfold bound_less, cmp. simpl.
  rewrite <- bound_tri_compare_cmp. apply eq_true_iff_eq. rewrite !Z.ltb_lt. cbv zeta. lia.
Qed.

(** Positions whose weights have the same sign compare by the weights where the prefixes tie. *)
Lemma pcmp_sgn p1 : forall i w1 p2 w2,
  pcmp i p1 w1 p2 w2 =
    if pcmp i p1 (Z.sgn w1) p2 (Z.sgn w2) =? 0 then Z.sgn (w1 - w2) else pcmp i p1 (Z.sgn w1) p2 (Z.sgn w2).
Proof.
  induction p1 as [|x p1 IH]; intros i w1 [|y p2] w2; simpl.
  - case_match; lia.
  - destruct (Z.leb_spec w1 0), (Z.leb_spec (Z.sgn w1) 0); simpl; lia.
  - destruct (Z.leb_spec w2 0), (Z.leb_spec (Z.sgn w2) 0); simpl; lia.
  - destruct (Z.eqb_spec (Z.sgn (tri_compare i x y)) 0) as [E|E]; [apply IH|].
    destruct (Z.eqb_spec (Z.sgn (tri_compare i x y)) 0); [done|done].
Qed.

(** Ties have the same weight sign. *)
Lemma pcmp_zero_weight p1 : forall i w1 p2 w2, pcmp i p1 w1 p2 w2 = 0 -> w1 = w2.
Proof.
  induction p1 as [|x p1 IH]; intros i w1 [|y p2] w2; simpl; try (case_match; lia); [lia|].
  destruct (Z.eqb_spec (Z.sgn (tri_compare i x y)) 0); [eauto|lia].
Qed.

Lemma prefix_equal_cmp p q w : prefix_equal tri_compare p q = true -> cmp (p, w) (q, w) = 0.
Proof.
  intros [El%bool_decide_eq_true E%Z.eqb_eq]%andb_true_iff. unfold cmp. simpl.
  rewrite <- bound_tri_compare_cmp, E. simpl. rewrite bool_decide_eq_true_2 by done. lia.
Qed.

Lemma prefix_equal_refl p : prefix_equal tri_compare p p = true.
Proof.
  unfold prefix_equal. rewrite bool_decide_eq_true_2 by done. simpl.
  generalize 0%nat. induction p as [|x p IH]; intros i; [done|]. simpl.
  pose proof (tri_refl (P := fun _ => True) (c := fun x y => Z.sgn (tri_compare i x y)) x I) as E. cbv beta in E.
  destruct (Z.eqb_spec (tri_compare i x x) 0) as [_|?]; [apply IH|lia].
Qed.

(** ** Ranks *)

Section rank.
(** The prefixes at hand. *)
Variable L : list prefix.

Definition positions : list pos := L ≫= fun p => [(p, -1); (p, 0); (p, 1)].

(** The number of positions before [x]. *)
Definition count (x : pos) : nat := length (filter (fun y => cmp y x < 0) positions).

Lemma filter_length_le {A} (P Q : A -> Prop) `{!forall x, Decision (P x), !forall x, Decision (Q x)} (l : list A) :
  (forall x, P x -> Q x) -> (length (filter P l) <= length (filter Q l))%nat.
Proof.
  intros HPQ. induction l as [|x l IH]; [done|]. rewrite !filter_cons.
  destruct (decide (P x)), (decide (Q x)); simpl; try lia. naive_solver.
Qed.

Lemma filter_length_lt {A} (P Q : A -> Prop) `{!forall x, Decision (P x), !forall x, Decision (Q x)} (l : list A) x :
  (forall x, P x -> Q x) -> x ∈ l -> Q x -> ~ P x -> (length (filter P l) < length (filter Q l))%nat.
Proof.
  intros HPQ Hx HQ HP. induction l as [|y l IH]; [by apply elem_of_nil in Hx|]. rewrite !filter_cons.
  pose proof (filter_length_le P Q l HPQ).
  apply elem_of_cons in Hx as [<-|Hx].
  - destruct (decide (P x)), (decide (Q x)); simpl; try done; lia.
  - specialize (IH Hx). destruct (decide (P y)), (decide (Q y)); simpl; try lia. naive_solver.
Qed.

Lemma count_lt x y : x ∈ positions -> cmp x y < 0 -> (count x < count y)%nat.
Proof.
  intros Hx Hxy. apply (filter_length_lt _ _ _ x); [|done|done|].
  - intros z Hz. apply (tri_lt_trans (P := fun _ => True) (c := cmp) z x y); [done..|lia|done].
  - rewrite (tri_refl (P := fun _ => True)) by done. lia.
Qed.

Lemma count_eq x y : cmp x y = 0 -> count x = count y.
Proof.
  intros E. pose proof (tri_opp (c := cmp) x y I I).
  apply Nat.le_antisymm; apply filter_length_le; intros z Hz.
  - apply (tri_lt_trans' (P := fun _ => True) (c := cmp) z x y); [done..|lia].
  - apply (tri_lt_trans' (P := fun _ => True) (c := cmp) z y x); [done..|lia].
Qed.

Definition rho (b : bound_view component) : Z := 2 * Z.of_nat (count (bprefix b, Z.sgn (weight (kind b)))).

(** The rank of a position: keys lie strictly between bounds. *)
Definition rank (x : pos) : Z :=
  4 * Z.of_nat (count (x.1, Z.sgn x.2)) + (if x.2 =? 0 then 2 else if (x.2 =? -1) || (x.2 =? 2) then 1 else 0).

Lemma rank_bound b : rank (at_bound b) = rk rho b.
Proof. destruct b as [p []]; unfold rank, rk, rho; simpl; lia. Qed.

Lemma rank_key k b : rank (at_key k) <> rk rho b.
Proof. unfold rank, rk, rho, b2z, at_key. simpl. case_match; lia. Qed.

Definition in_prefixes (b : bound_view component) : Prop := bprefix b ∈ L.

Lemma in_positions p w : p ∈ L -> (p, Z.sgn w) ∈ positions.
Proof.
  intros H. unfold positions. apply list_elem_of_bind. exists p. split; [|done].
  destruct (Z.sgn_spec w) as [[? ->]|[[<- ?]|[? ->]]]; rewrite !elem_of_cons; simpl; naive_solver.
Qed.

(** The comparison of positions with prefixes at hand is that of their ranks. *)
Lemma less_rank p1 w1 p2 w2 :
  p1 ∈ L -> p2 ∈ L -> w1 ∈ [-2; -1; 0; 1; 2] -> w2 ∈ [-2; -1; 0; 1; 2] ->
  bound_less tri_compare (p1, w1) (p2, w2) = (rank (p1, w1) <? rank (p2, w2)).
Proof.
  intros H1 H2 Hw1 Hw2. rewrite bound_less_cmp. unfold cmp. simpl. rewrite pcmp_sgn.
  pose proof (count_lt (p1, Z.sgn w1) (p2, Z.sgn w2) (in_positions _ _ H1)) as C1.
  pose proof (count_lt (p2, Z.sgn w2) (p1, Z.sgn w1) (in_positions _ _ H2)) as C2.
  pose proof (count_eq (p1, Z.sgn w1) (p2, Z.sgn w2)) as C3.
  pose proof (tri_opp (c := cmp) (p1, Z.sgn w1) (p2, Z.sgn w2) I I) as Ho.
  pose proof (pcmp_zero_weight p1 0 (Z.sgn w1) p2 (Z.sgn w2)) as Hz.
  unfold rank, cmp in *. simpl in *. generalize dependent (count (p1, Z.sgn w1)). generalize dependent (count (p2, Z.sgn w2)).
  intros c2 c1 C1 C2 C3. apply eq_true_iff_eq. rewrite !Z.ltb_lt.
  destruct (Z.eqb_spec (pcmp 0 p1 (Z.sgn w1) p2 (Z.sgn w2)) 0) as [E|E].
  - specialize (Hz E). specialize (C3 E). subst c2. clear C1 C2.
    rewrite !elem_of_cons, elem_of_nil in Hw1, Hw2. naive_solver lia.
  - assert (0 <= (if w1 =? 0 then 2 else if (w1 =? -1) || (w1 =? 2) then 1 else 0) <= 2) by (repeat case_match; lia).
    assert (0 <= (if w2 =? 0 then 2 else if (w2 =? -1) || (w2 =? 2) then 1 else 0) <= 2) by (repeat case_match; lia).
    lia.
Qed.
End rank.

(** ** Lists as the code compares them *)

Abbreviation range := (range_tombstone component).
Abbreviation less := (bound_less tri_compare).
Abbreviation peq := (prefix_equal tri_compare).

Definition range_ok (rt : range) : Prop :=
  less (at_bound (start_bound rt)) (at_bound (end_bound rt)) = true
  /\ is_start (kind (start_bound rt)) = true /\ is_start (kind (end_bound rt)) = false
  /\ tomb_le no_tombstone (tomb rt).

(** The invariant of range_tombstone_list.hh: ordered, non-overlapping. *)
Definition list_ok (l : list range) : Prop :=
  Forall range_ok l
  /\ StronglySorted (fun a b => less (at_bound (end_bound a)) (at_bound (start_bound b)) = true) l.

Section ranked.
Variable L : list prefix.
Abbreviation less' := (fun x y => rank L x <? rank L y).

Lemma weight_in k : weight k ∈ [-2; -1; 0; 1; 2].
Proof. destruct k; rewrite !elem_of_cons; simpl; tauto. Qed.

Lemma less_agree (a b : bound_view component) : bprefix a ∈ L -> bprefix b ∈ L ->
  less (at_bound a) (at_bound b) = less' (at_bound a) (at_bound b).
Proof. intros. apply less_rank; try done; apply weight_in. Qed.

Lemma less_rk a b : less' (at_bound a) (at_bound b) = (rk (rho L) a <? rk (rho L) b).
Proof. cbv beta. by rewrite !rank_bound. Qed.

Lemma rho_invert b : rho L (invert b) = rho L b.
Proof. by destruct b as [p []]. Qed.

Lemma adjacent_rho a b : adjacent peq a b = true -> rho L a = rho L b.
Proof.
  intros [Hk%bool_decide_eq_true Hp]%andb_true_iff. unfold rho. rewrite <- Hk.
  rewrite (count_eq L (bprefix a, _) (bprefix b, Z.sgn (weight (invert_kind (kind b))))) by by apply prefix_equal_cmp.
  by destruct (kind b).
Qed.

Abbreviation inL := (rt_in (component := component) (fun p => p ∈ L) (tomb_le no_tombstone)).

Lemma list_ok_wf l : Forall inL l ->
  (list_ok l <-> wf (rho L) l).
Proof.
  intros Hin. unfold list_ok, wf.
  assert (forall a b, bin (fun p => p ∈ L) a -> bin (fun p => p ∈ L) b ->
      less (at_bound a) (at_bound b) = true <-> rk (rho L) a < rk (rho L) b) as Hlt.
  { intros a b Ha Hb. rewrite less_agree, less_rk by done. apply Z.ltb_lt. }
  assert (Forall range_ok l <-> Forall (rt_ok (rho L)) l) as ->.
  { rewrite !Forall_forall. apply forall_proper. intros rt.
    assert (rt ∈ l -> range_ok rt <-> rt_ok (rho L) rt); [|tauto].
    intros Hrt. rewrite Forall_forall in Hin. destruct (Hin rt Hrt) as (? & ? & ?). unfold range_ok, rt_ok.
    rewrite Hlt by done. tauto. }
  assert (StronglySorted (fun a b => less (at_bound (end_bound a)) (at_bound (start_bound b)) = true) l
          <-> StronglySorted (before (rho L)) l) as ->; [|done].
  induction Hin as [|rt l (? & ? & ?) Hin IH]; [split; constructor|].
  rewrite !StronglySorted_cons, IH, !Forall_forall.
  assert ((forall x, x ∈ l -> less (at_bound (end_bound rt)) (at_bound (start_bound x)) = true)
          <-> (forall x, x ∈ l -> before (rho L) rt x)) as ->; [|done].
  apply forall_proper. intros x. rewrite Forall_forall in Hin. unfold before.
  assert (x ∈ l -> less (at_bound (end_bound rt)) (at_bound (start_bound x)) = true
          <-> rk (rho L) (end_bound rt) < rk (rho L) (start_bound x)); [|tauto].
  intros Hx. destruct (Hin x Hx) as (? & ? & ?). by apply Hlt.
Qed.

Lemma search_dominated l key u :
  key ∈ L -> Forall inL l -> list_ok l -> tomb_le no_tombstone u ->
  (tomb_le (search_tombstone_covering less l (at_key key)) u <-> dominated (rho L) l (rank L (at_key key)) u).
Proof.
  intros Hkey Hin Hok Hu. rewrite (search_agree less less' (fun p => p ∈ L) (tomb_le no_tombstone)); [|done|].
  - apply search_spec; [|intros b; apply rank_key|by apply list_ok_wf in Hok|done].
    intros b. cbv beta. by rewrite rank_bound.
  - intros b Hb. apply less_rank; [done|done| |apply weight_in]. rewrite !elem_of_cons; simpl; tauto.
Qed.
End ranked.

Lemma list_ok_valid l : list_ok l -> Forall (fun rt : range => tomb_le no_tombstone (tomb rt)) l.
Proof. intros [H _]. eapply Forall_impl; [exact H|]. by intros rt (_ & _ & _ & ?). Qed.

(** What a run of the merge does to one key. *)
Lemma merge_key l rts f key :
  list_ok l -> list_ok rts ->
  match apply_ranges less peq l rts [] f with
  | Edited l' ops f' =>
      list_ok l' /\ (f = None -> f' = None) /\ undo_all less peq ops l' = Some l
      /\ search_tombstone_covering less l' (at_key key) =
         tomb_apply (search_tombstone_covering less l (at_key key)) (search_tombstone_covering less rts (at_key key))
  | Failed l' ops => f <> None /\ undo_all less peq ops l' = Some l
  end.
Proof.
  intros Hl Hr.
  set (L := key :: ((l ++ rts) ≫= fun rt => [bprefix (start_bound rt); bprefix (end_bound rt)])).
  set (less' := fun x y => rank L x <? rank L y).
  pose proof (list_ok_valid l Hl) as Hvl. pose proof (list_ok_valid rts Hr) as Hvr.
  assert (Forall (rt_in (fun p => p ∈ L) (tomb_le no_tombstone)) (l ++ rts)) as [Hil Hir]%Forall_app.
  { apply Forall_forall. intros rt Hrt. pose proof (proj2 (Forall_app _ _ _) (conj Hvl Hvr)) as Hv.
    rewrite Forall_forall in Hv. split_and!; [..|by apply Hv]; unfold bin, L; apply elem_of_cons; right;
      apply list_elem_of_bind; exists rt; (split; [|done]); rewrite !elem_of_cons; tauto. }
  pose proof (proj1 (list_ok_wf L l Hil) Hl) as Hwl. pose proof (proj1 (list_ok_wf L rts Hir) Hr) as [Hrok _].
  destruct (apply_ranges_agree less less' peq _ _ (less_agree L) rts l [] f Hil Hir (Forall_nil_2 _)) as [E Hin].
  pose proof (apply_ranges_spec less' peq (rho L) (rho_invert L) (less_rk L) (adjacent_rho L) l [] rts l [] f
    (steps_refl _ _ _ Hwl) Hrok) as Hpost.
  assert (forall l' ops, Forall (rt_in (fun p => p ∈ L) (tomb_le no_tombstone)) l' -> Forall (op_in (fun p => p ∈ L) (tomb_le no_tombstone)) ops ->
    steps (rho L) l [] l' ops -> undo_all less peq ops l' = Some l) as Hundo.
  { intros l' ops Hil' Hops Hst. rewrite (undo_all_agree less less' peq _ _ (less_agree L)) by done.
    by rewrite (steps_undo less' peq (rho L) (less_rk L) prefix_equal_refl _ _ _ _ Hst). }
  rewrite <- E in Hpost. destruct (apply_ranges less peq l rts [] f) as [l' ops f'|l' ops]; destruct Hin as [Hil' Hops].
  - destruct Hpost as (Hst & Hf & HC). pose proof (steps_wf _ _ _ _ _ Hst) as [_ Hwl'].
    assert (list_ok l') as Hl' by by apply (list_ok_wf L).
    split_and!; eauto.
    apply tomb_ext; eauto using search_valid, list_ok_valid with tombs.
    intros u Hu. assert (key ∈ L) as Hkey by (apply elem_of_cons; by left).
    rewrite tomb_apply_le, !(search_dominated L) by done. apply HC. intros b. apply rank_key.
  - destruct Hpost. eauto.
Qed.

(** C17. Merging a list of range tombstones into another one, where any
    allocation may fail: the result is again ordered and without overlap, and it
    covers each key with the newer of the deletions that covered it in the two
    lists; undoing the log restores the list exactly, after a complete merge and
    after one that an exception cut short; without a failing allocation there is
    no exception. *)
Theorem range_tombstones_merge l rts f :
  list_ok l -> list_ok rts ->
  match apply_ranges less peq l rts [] f with
  | Edited l' ops f' =>
      list_ok l' /\ undo_all less peq ops l' = Some l
      /\ forall key, search_tombstone_covering less l' (at_key key) =
           tomb_apply (search_tombstone_covering less l (at_key key)) (search_tombstone_covering less rts (at_key key))
  | Failed l' ops => f <> None /\ undo_all less peq ops l' = Some l
  end.
Proof.
  intros Hl Hr. pose proof (merge_key l rts f) as H.
  destruct (apply_ranges less peq l rts [] f) as [l' ops f'|l' ops].
  - destruct (H [] Hl Hr) as (? & _ & ? & _). split_and!; try done. intros key. by destruct (H key Hl Hr) as (_ & _ & _ & ?).
  - by destruct (H [] Hl Hr).
Qed.
End order.

(** Integers as components, in their order. *)
Definition Z_compare (_ : nat) (x y : Z) : Z := cmpZ x y.

Lemma Z_compare_order i : TriOrder (fun _ => True) (fun x y => Z.sgn (Z_compare i x y)).
Proof.
  apply (tri_ext _ _ (fun x y => cmpZ (id x) (id y))). intros x y _ _.
  unfold Z_compare, id. destruct (cmpZ_spec x y) as [[_ ->]|[[_ ->]|[_ ->]]]; done.
Qed.

(** [1, 5] deleted at time 10 and (7, 9) at time 30. *)
Definition example_list : list (range_tombstone Z) :=
  [RT (Bound [1] incl_start) (Bound [5] incl_end) (Tombstone 10 0);
   RT (Bound [7] excl_start) (Bound [9] excl_end) (Tombstone 30 0)].

(** [3, 8] at time 20. *)
Definition example_ranges : list (range_tombstone Z) := [RT (Bound [3] incl_start) (Bound [8] incl_end) (Tombstone 20 0)].

Example example_merge :
  apply_ranges (bound_less Z_compare) (prefix_equal Z_compare) example_list example_ranges [] None =
  Edited
    [RT (Bound [1] incl_start) (Bound [3] excl_end) (Tombstone 10 0);
     RT (Bound [3] incl_start) (Bound [7] incl_end) (Tombstone 20 0);
     RT (Bound [7] excl_start) (Bound [9] excl_end) (Tombstone 30 0)]
    [InsertUndo (RT (Bound [3] incl_start) (Bound [7] incl_end) (Tombstone 20 0));
     EraseUndo (RT (Bound [3] incl_start) (Bound [5] incl_end) (Tombstone 10 0));
     InsertUndo (RT (Bound [1] incl_start) (Bound [3] excl_end) (Tombstone 10 0));
     UpdateUndo (RT (Bound [1] incl_start) (Bound [5] incl_end) (Tombstone 10 0))
       (RT (Bound [3] incl_start) (Bound [5] incl_end) (Tombstone 10 0))] None.
Proof. reflexivity. Qed.

Lemma range_tombstones_merge_witness :
  search_tombstone_covering (bound_less Z_compare)
    match apply_ranges (bound_less Z_compare) (prefix_equal Z_compare) example_list example_ranges [] None with
    | Edited l _ _ | Failed l _ => l
    end (at_key [4]) = Tombstone 20 0.
Proof.
  pose proof (range_tombstones_merge Z_compare Z_compare_order example_list example_ranges None) as H.
  rewrite example_merge in H |- *. destruct H as (_ & _ & H).
  - split; [repeat constructor; vm_compute; (reflexivity || discriminate)|repeat constructor].
  - split; [repeat constructor; vm_compute; (reflexivity || discriminate)|repeat constructor].
  - rewrite H. reflexivity.
Defined.
