(* ===== verification/Cell.v ===== *)
(** * Cells and collections (atomic_cell.hh, database.cc, combine.hh, types.cc)

    The order in which two atomic cells are merged, and the merge of two
    collections, each a tombstone and a sequence of cells sorted by key. *)

From S2P Require Import Prelude Mergeable.
Open Scope Z_scope.

(** ** Atomic cells *)

(** [Live] with its timestamp, value and, if it expires, when and after how long;
    [Dead] with its timestamp and the time of deletion. *)
Inductive atomic_cell :=
| Live (timestamp : Z) (value : list Z) (expires : option (Z * Z))
| Dead (timestamp : Z) (deletion_time : Z).

#[export] Instance atomic_cell_eq_dec : EqDecision atomic_cell.
Proof. solve_decision. Defined.

Definition timestamp (c : atomic_cell) : Z := match c with Live t _ _ | Dead t _ => t end.
Definition is_live (c : atomic_cell) : bool := match c with Live _ _ _ => true | Dead _ _ => false end.
Definition is_live_and_has_ttl (c : atomic_cell) : bool := match c with Live _ _ (Some _) => true | _ => false end.
Definition cell_value (c : atomic_cell) : list Z := match c with Live _ v _ => v | Dead _ _ => [] end.
Definition expiry (c : atomic_cell) : Z := match c with Live _ _ (Some (e, _)) => e | _ => 0 end.
Definition deletion_time (c : atomic_cell) : Z := match c with Dead _ d => d | _ => 0 end.

(** [compare_unsigned]: the sign of [memcmp], then of the lengths. *)
Fixpoint compare_unsigned (l r : list Z) : Z :=
  match l, r with
  | [], [] => 0
  | [], _ :: _ => -1
  | _ :: _, [] => 1
  | x :: l', y :: r' => if x <? y then -1 else if y <? x then 1 else compare_unsigned l' r'
  end.

Definition compare_atomic_cell_for_merge (left right : atomic_cell) : Z :=
  if negb (timestamp left =? timestamp right) then if timestamp right <? timestamp left then 1 else -1
  else if negb (Bool.eqb (is_live left) (is_live right)) then if is_live left then -1 else 1
  else if is_live left then
    let c := compare_unsigned (cell_value left) (cell_value right) in
    if negb (c =? 0) then c
    else if negb (Bool.eqb (is_live_and_has_ttl left) (is_live_and_has_ttl right)) then
      if is_live_and_has_ttl left then 1 else -1
    else if is_live_and_has_ttl left && negb (expiry left =? expiry right) then
      if expiry left <? expiry right then -1 else 1
    else 0
  else if negb (deletion_time left =? deletion_time right) then
    if uwrap 32 (deletion_time left) <? uwrap 32 (deletion_time right) then -1 else 1
  else 0.

(** Times are 32-bit numbers of seconds. *)
Definition cell_ok (c : atomic_cell) : Prop := - 2 ^ 31 <= deletion_time c < 2 ^ 31.

#[export] Instance compare_unsigned_tri : TriOrder (fun _ => True) compare_unsigned.
Proof.
  split.
  - intros x y _ _. revert y. induction x as [|a x IH]; intros [|b y]; simpl; try lia.
    destruct (Z.ltb_spec a b), (Z.ltb_spec b a); try lia. apply IH.
  - intros x y z _ _ _. revert y z. induction x as [|a x IH]; intros [|b y] [|c z]; simpl; try lia.
    destruct (Z.ltb_spec a b), (Z.ltb_spec b c), (Z.ltb_spec a c), (Z.ltb_spec b a), (Z.ltb_spec c b), (Z.ltb_spec c a);
      try lia. apply IH.
  - intros x y _ _. revert y. induction x as [|a x IH]; intros [|b y]; simpl; try lia. repeat case_match; (lia || apply IH).
Qed.

#[export] Instance compare_value_tri (P : atomic_cell -> Prop) :
  TriOrder P (fun x y => compare_unsigned (cell_value x) (cell_value y)).
Proof.
  split; intros; [by apply tri_opp|by eapply (tri_trans (P := fun _ => True))|by apply (tri_range (P := fun _ => True))].
Qed.

Lemma cell_compare_lex x y :
  cell_ok x -> cell_ok y ->
  compare_atomic_cell_for_merge x y =
    lex (fun x y => cmpZ (timestamp x) (timestamp y))
      (lex (fun x y => cmpZ (b2z (negb (is_live x))) (b2z (negb (is_live y))))
        (lex (fun x y => compare_unsigned (cell_value x) (cell_value y))
          (lex (fun x y => cmpZ (b2z (is_live_and_has_ttl x)) (b2z (is_live_and_has_ttl y)))
            (fun x y => cmpZ (if is_live x then expiry x else uwrap 32 (deletion_time x))
                             (if is_live y then expiry y else uwrap 32 (deletion_time y)))))) x y.
Proof.
  unfold cell_ok. intros Hx Hy. pose proof (uwrap32_inj _ _ Hx Hy) as Hinj.
  assert (deletion_time x = deletion_time y -> uwrap 32 (deletion_time x) = uwrap 32 (deletion_time y)) by (by intros ->).
  unfold compare_atomic_cell_for_merge, lex, cmpZ.
  generalize dependent (uwrap 32 (deletion_time x)). generalize dependent (uwrap 32 (deletion_time y)). intros u v Hinj Heq.
  destruct x as [t1 v1 [[e1 l1]|]|t1 d1], y as [t2 v2 [[e2 l2]|]|t2 d2]; simpl in *; zcases; lia.
Qed.

#[export] Instance cell_compare_tri : TriOrder cell_ok compare_atomic_cell_for_merge.
Proof. refine (tri_ext _ _ _ cell_compare_lex). Qed.

(** ** Merging two sorted sequences *)

(** [combine]. *)
Fixpoint combine {A} (less : A -> A -> bool) (merge : A -> A -> A) (l1 : list A) : list A -> list A :=
  fix go (l2 : list A) : list A :=
    match l1, l2 with
    | e1 :: l1', e2 :: l2' =>
        if less e1 e2 then e1 :: combine less merge l1' l2
        else if less e2 e1 then e2 :: go l2'
        else merge e1 e2 :: combine less merge l1' l2'
    | [], _ => l2
    | _, [] => l1
    end.

Lemma combine_nil_r {A} less (merge : A -> A -> A) l : combine less merge l [] = l.
Proof. by destruct l. Qed.

Lemma combine_nil_l {A} less (merge : A -> A -> A) l : combine less merge [] l = l.
Proof. by destruct l. Qed.

Section combine.
Context {A K : Type} `{!EqDecision K} (key : A -> K) (lt : K -> K -> bool) (merge : A -> A -> A).
Abbreviation less := (fun x y => lt (key x) (key y)).
Hypothesis lt_irrefl : forall k, lt k k = false.
Hypothesis lt_trans : forall a b c, lt a b = true -> lt b c = true -> lt a c = true.
Hypothesis lt_total : forall a b, lt a b = false -> lt b a = false -> a = b.
Hypothesis merge_key : forall x y, key x = key y -> key (merge x y) = key x.

Definition ksorted : list A -> Prop := StronglySorted (fun x y => lt (key x) (key y) = true).

(** The element with a key. *)
Fixpoint get (k : K) (l : list A) : option A :=
  match l with [] => None | e :: l' => if decide (key e = k) then Some e else get k l' end.

Lemma get_below k l : (forall y, y ∈ l -> lt k (key y) = true) -> get k l = None.
Proof.
  intros H. induction l as [|e l IH]; [done|]. simpl. rewrite decide_False.
  - apply IH. intros y Hy. apply H, elem_of_cons. by right.
  - intros <-. specialize (H e ltac:(apply elem_of_cons; by left)). by rewrite lt_irrefl in H.
Qed.

Lemma ksorted_cons e l : ksorted (e :: l) <-> (forall y, y ∈ l -> lt (key e) (key y) = true) /\ ksorted l.
Proof. unfold ksorted. by rewrite StronglySorted_cons, Forall_forall. Qed.

Lemma get_elem k l e : get k l = Some e -> e ∈ l /\ key e = k.
Proof.
  induction l as [|x l IH]; [done|]. simpl. rewrite elem_of_cons. case_decide; [|naive_solver]. by intros [= <-]; auto.
Qed.

(** Sorted sequences with the same elements under each key are equal. *)
Lemma ksorted_ext l l' : ksorted l -> ksorted l' -> (forall k, get k l = get k l') -> l = l'.
Proof.
  revert l'. induction l as [|e l IH]; intros [|e' l'] Hl Hl' H.
  - done.
  - specialize (H (key e')). simpl in H. by rewrite decide_True in H.
  - specialize (H (key e)). simpl in H. by rewrite decide_True in H.
  - apply ksorted_cons in Hl as [He Hl]. apply ksorted_cons in Hl' as [He' Hl'].
    assert (key e = key e') as Ek.
    { pose proof (H (key e)) as H1. pose proof (H (key e')) as H2. simpl in H1, H2.
      rewrite (decide_True (P := key e = key e)) in H1 by done. rewrite (decide_True (P := key e' = key e')) in H2 by done.
      destruct (decide (key e = key e')) as [|n]; [done|]. rewrite decide_False in H1 by congruence.
      symmetry in H1. apply get_elem in H1 as [H1 _]. apply get_elem in H2 as [H2 _].
      specialize (He _ H2). specialize (He' _ H1). pose proof (lt_trans _ _ _ He He') as Hc. by rewrite lt_irrefl in Hc. }
    assert (e = e') as ->.
    { specialize (H (key e)). simpl in H. rewrite !decide_True in H by done. by injection H. }
    f_equal. apply IH; try done. intros k. specialize (H k). simpl in H. destruct (decide (key e' = k)) as [<-|]; [|done].
    rewrite !get_below; done.
Qed.

Lemma combine_elem x l1 l2 : x ∈ combine less merge l1 l2 ->
  exists y, (y ∈ l1 \/ y ∈ l2) /\ key x = key y.
Proof.
  revert l2. induction l1 as [|e1 l1 IH1]; intros l2; [rewrite combine_nil_l; eauto|].
  induction l2 as [|e2 l2 IH2]; [rewrite combine_nil_r; eauto|].
  cbn [combine]. destruct (lt (key e1) (key e2)) eqn:E1; [|destruct (lt (key e2) (key e1)) eqn:E2].
  - rewrite elem_of_cons. setoid_rewrite elem_of_cons. intros [->|Hx]; [eauto|].
    destruct (IH1 _ Hx) as (y & [Hy|Hy] & Ey); [eauto|]. apply elem_of_cons in Hy as [->|]; eauto.
  - rewrite elem_of_cons. setoid_rewrite elem_of_cons. intros [->|Hx]; [eauto|].
    destruct (IH2 Hx) as (y & [Hy|Hy] & Ey); [|eauto]. apply elem_of_cons in Hy as [->|]; eauto.
  - rewrite elem_of_cons. setoid_rewrite elem_of_cons. intros [->|Hx].
    + exists e1. split; [eauto|]. apply merge_key. eauto.
    + destruct (IH1 _ Hx) as (y & [Hy|Hy] & Ey); eauto.
Qed.

Lemma combine_sorted l1 l2 : ksorted l1 -> ksorted l2 -> ksorted (combine less merge l1 l2).
Proof.
  revert l2. induction l1 as [|e1 l1 IH1]; intros l2 H1 H2; [by rewrite combine_nil_l|].
  induction l2 as [|e2 l2 IH2]; [done|]. pose proof (proj1 (ksorted_cons _ _) H1) as [Hb1 Hs1].
  pose proof (proj1 (ksorted_cons _ _) H2) as [Hb2 Hs2].
  cbn [combine]. destruct (lt (key e1) (key e2)) eqn:E1; [|destruct (lt (key e2) (key e1)) eqn:E2];
    apply ksorted_cons; (split; [intros y Hy|eauto]).
  - apply combine_elem in Hy as (z & Hz & ->). destruct Hz as [Hz|Hz]; [eauto|].
    apply elem_of_cons in Hz as [->|Hz]; [done|]. eapply lt_trans; eauto.
  - apply (combine_elem y (e1 :: l1) l2) in Hy as (z & Hz & ->). destruct Hz as [Hz|Hz]; [|eauto].
    apply elem_of_cons in Hz as [->|Hz]; [done|]. eapply lt_trans; eauto.
  - assert (key e1 = key e2) as E by eauto. rewrite merge_key by done.
    apply combine_elem in Hy as (z & [Hz|Hz] & ->); [eauto|]. rewrite E. eauto.
Qed.

Definition merge_opt (x y : option A) : option A :=
  match x, y with Some x, Some y => Some (merge x y) | Some x, None => Some x | None, y => y end.

Lemma combine_get k l1 l2 : ksorted l1 -> ksorted l2 ->
  get k (combine less merge l1 l2) = merge_opt (get k l1) (get k l2).
Proof.
  revert l2. induction l1 as [|e1 l1 IH1]; intros l2 H1 H2; [by rewrite combine_nil_l|].
  induction l2 as [|e2 l2 IH2]; [rewrite combine_nil_r; by destruct (get k (e1 :: l1))|].
  pose proof (proj1 (ksorted_cons _ _) H1) as [Hb1 Hs1]. pose proof (proj1 (ksorted_cons _ _) H2) as [Hb2 Hs2].
  cbn [combine]. destruct (lt (key e1) (key e2)) eqn:E1; [|destruct (lt (key e2) (key e1)) eqn:E2].
  - cbn [get]. destruct (decide (key e1 = k)) as [<-|Hne]; [|by apply IH1].
    rewrite decide_False by (intros E; by rewrite E, lt_irrefl in E1). rewrite get_below; [done|].
    intros y Hy. eapply lt_trans; eauto.
  - change (get k (e2 :: combine less merge (e1 :: l1) l2) = merge_opt (get k (e1 :: l1)) (get k (e2 :: l2))).
    cbn [get]. destruct (decide (key e2 = k)) as [<-|Hne]; [|by apply IH2].
    rewrite decide_False by (intros E; by rewrite E, lt_irrefl in E2). rewrite get_below; [done|].
    intros y Hy. eapply lt_trans; eauto.
  - assert (key e1 = key e2) as E by eauto. cbn [get]. rewrite merge_key by done. rewrite <- E.
    destruct (decide (key e1 = k)); [done|by apply IH1].
Qed.

(** Laws of the merge of two elements are laws of the merge of two sequences. *)
Lemma combine_absorb l1 l2 :
  (forall x y, x ∈ l1 -> y ∈ l2 -> key x = key y -> merge x (merge x y) = merge x y) ->
  (forall x, x ∈ l1 -> merge x x = x) ->
  ksorted l1 -> ksorted l2 -> combine less merge l1 (combine less merge l1 l2) = combine less merge l1 l2.
Proof.
  intros Ha Hi H1 H2. pose proof (combine_sorted l1 l2 H1 H2). apply ksorted_ext; [by apply combine_sorted|done|].
  intros k. rewrite !combine_get by done. destruct (get k l1) as [x|] eqn:Ex, (get k l2) as [y|] eqn:Ey; simpl; try done.
  - apply get_elem in Ex as [Ex Kx]. apply get_elem in Ey as [Ey Ky]. rewrite Ha; [done..|congruence].
  - apply get_elem in Ex as [Ex _]. by rewrite Hi.
Qed.

Lemma combine_idemp l : (forall x, x ∈ l -> merge x x = x) -> ksorted l -> combine less merge l l = l.
Proof.
  intros Hi H. apply ksorted_ext; [by apply combine_sorted|done|]. intros k. rewrite combine_get by done.
  destruct (get k l) as [x|] eqn:E; [|done]. apply get_elem in E as [E _]. simpl. by rewrite Hi.
Qed.

Lemma combine_comm l1 l2 :
  (forall x y, x ∈ l1 -> y ∈ l2 -> key x = key y -> merge x y = merge y x) ->
  ksorted l1 -> ksorted l2 -> combine less merge l1 l2 = combine less merge l2 l1.
Proof.
  intros Hc H1 H2. apply ksorted_ext; [by apply combine_sorted..|].
  intros k. rewrite !combine_get by done. destruct (get k l1) as [x|] eqn:Ex, (get k l2) as [y|] eqn:Ey; simpl; try done.
  apply get_elem in Ex as [Ex Kx]. apply get_elem in Ey as [Ey Ky]. rewrite Hc; [done..|congruence].
Qed.

Lemma combine_assoc l1 l2 l3 :
  (forall x y z, x ∈ l1 -> y ∈ l2 -> z ∈ l3 -> key x = key y -> key y = key z ->
     merge (merge x y) z = merge x (merge y z)) ->
  ksorted l1 -> ksorted l2 -> ksorted l3 ->
  combine less merge (combine less merge l1 l2) l3 = combine less merge l1 (combine less merge l2 l3).
Proof.
  intros Ha H1 H2 H3.
  assert (ksorted (combine less merge l1 l2)) by by apply combine_sorted.
  assert (ksorted (combine less merge l2 l3)) by by apply combine_sorted.
  apply ksorted_ext; [by apply combine_sorted..|].
  intros k. rewrite !combine_get by done.
  destruct (get k l1) as [x|] eqn:Ex, (get k l2) as [y|] eqn:Ey, (get k l3) as [z|] eqn:Ez; simpl; try done.
  apply get_elem in Ex as [Ex Kx]. apply get_elem in Ey as [Ey Ky]. apply get_elem in Ez as [Ez Kz].
  rewrite Ha; [done..|congruence|congruence].
Qed.
End combine.

(** ** Collections *)

Abbreviation bytes := (list Z).

Record collection := Coll { coll_tomb : tombstone; coll_cells : list (bytes * atomic_cell) }.

#[export] Instance collection_eq_dec : EqDecision collection.
Proof. solve_decision. Defined.

(** [cell_killed]: here the tombstone wins if the timestamps are equal. *)
Definition cell_killed (t : tombstone) (e : bytes * atomic_cell) : bool := negb (tomb_timestamp t <? timestamp e.2).

(** [std::remove_if] with [cell_killed]. *)
Definition survivors (t : tombstone) (l : list (bytes * atomic_cell)) : list (bytes * atomic_cell) :=
  filter (fun e => cell_killed t e = false) l.

Definition merge_elements (e1 e2 : bytes * atomic_cell) : bytes * atomic_cell :=
  (e1.1, if 0 <? compare_atomic_cell_for_merge e1.2 e2.2 then e1.2 else e2.2).

(** [collection_type_impl::merge], with the comparison [less] of the keys. *)
Definition collection_merge (less : bytes -> bytes -> bool) (a b : collection) : collection :=
  Coll (tomb_apply (coll_tomb a) (coll_tomb b))
    (combine (fun e1 e2 => less e1.1 e2.1) merge_elements
       (survivors (coll_tomb b) (coll_cells a)) (survivors (coll_tomb a) (coll_cells b))).

Section collection.
Variable less : bytes -> bytes -> bool.
Hypothesis less_irrefl : forall k, less k k = false.
Hypothesis less_trans : forall a b c, less a b = true -> less b c = true -> less a c = true.
Hypothesis less_total : forall a b, less a b = false -> less b a = false -> a = b.
Abbreviation csorted := (ksorted (A := bytes * atomic_cell) fst less).
Abbreviation getc := (get (A := bytes * atomic_cell) (K := bytes) fst).

(** Sorted cells, none of them deleted by the collection's own tombstone. *)
Definition collection_ok (c : collection) : Prop :=
  csorted (coll_cells c) /\ forall e, e ∈ coll_cells c -> cell_ok e.2 /\ cell_killed (coll_tomb c) e = false.

Lemma merge_elements_key x y : x.1 = y.1 -> (merge_elements x y).1 = x.1.
Proof. done. Qed.

Lemma survivors_sorted t l : csorted l -> csorted (survivors t l).
Proof.
  unfold survivors. induction l as [|e l IH]; [done|]. rewrite ksorted_cons. intros [He Hl].
  rewrite filter_cons. case_decide; [|by apply IH]. apply ksorted_cons. split; [|by apply IH].
  intros y [_ Hy]%list_elem_of_filter. eauto.
Qed.

(** What of an element a tombstone leaves. *)
Definition kill (t : tombstone) (o : option (bytes * atomic_cell)) : option (bytes * atomic_cell) :=
  e ← o; if cell_killed t e then None else Some e.

Lemma survivors_get t l k : csorted l -> getc k (survivors t l) = kill t (getc k l).
Proof.
  unfold survivors. induction l as [|e l IH]; [done|]. rewrite ksorted_cons. intros [He Hl].
  rewrite filter_cons. destruct (cell_killed t e) eqn:Ek.
  - rewrite decide_False by done. rewrite IH by done. simpl. destruct (decide (e.1 = k)) as [<-|]; [|done].
    simpl. rewrite Ek. rewrite (get_below fst less); [done..|]. intros y Hy. eauto.
  - rewrite decide_True by done. simpl. rewrite IH by done. case_decide; [|done]. simpl. by rewrite Ek.
Qed.

Lemma survivors_elem t l e : e ∈ survivors t l <-> e ∈ l /\ cell_killed t e = false.
Proof. unfold survivors. rewrite list_elem_of_filter. tauto. Qed.

(** The cell that is kept has the later timestamp. *)
Lemma merge_elements_timestamp x y : timestamp (merge_elements x y).2 = Z.max (timestamp x.2) (timestamp y.2).
Proof.
  unfold merge_elements, compare_atomic_cell_for_merge. simpl.
  destruct (Z.eqb_spec (timestamp x.2) (timestamp y.2)) as [E|E]; simpl; [case_match; lia|].
  destruct (Z.ltb_spec (timestamp y.2) (timestamp x.2)); simpl; lia.
Qed.

(** Elements under one key. *)
Definition keyed (k : bytes) (o : option (bytes * atomic_cell)) : Prop := forall e, o = Some e -> e.1 = k /\ cell_ok e.2.

Lemma merge_elements_later x y :
  x.1 = y.1 -> (timestamp y.2 < timestamp x.2 -> merge_elements x y = x) /\ (timestamp x.2 < timestamp y.2 -> merge_elements x y = y).
Proof.
  destruct x as [k x], y as [k' y]. simpl. intros <-. unfold merge_elements, compare_atomic_cell_for_merge. simpl.
  split; intros H; (destruct (Z.eqb_spec (timestamp x) (timestamp y)); [lia|]); simpl;
    (destruct (Z.ltb_spec (timestamp y) (timestamp x)); [|]); simpl; try done; lia.
Qed.

Lemma kill_merge k t x y : keyed k x -> keyed k y ->
  kill t (merge_opt merge_elements x y) = merge_opt merge_elements (kill t x) (kill t y).
Proof.
  intros Hx Hy. destruct x as [x|], y as [y|]; try done; [|simpl; by destruct (cell_killed t x)].
  destruct (Hx x eq_refl) as [Kx _]. destruct (Hy y eq_refl) as [Ky _].
  destruct (merge_elements_later x y ltac:(congruence)) as [H1 H2].
  simpl. pose proof (merge_elements_timestamp x y) as Ht. unfold cell_killed. rewrite Ht.
  destruct (Z.ltb_spec (tomb_timestamp t) (timestamp x.2)), (Z.ltb_spec (tomb_timestamp t) (timestamp y.2)); simpl;
    destruct (Z.ltb_spec (tomb_timestamp t) (timestamp x.2 `max` timestamp y.2)); simpl; try lia; try done.
  - by rewrite H1 by lia.
  - by rewrite H2 by lia.
Qed.

Lemma kill_kill t u o : kill t (kill u o) = kill (tomb_apply t u) o.
Proof.
  destruct o as [e|]; [|done]. simpl. unfold cell_killed.
  assert (tomb_timestamp (tomb_apply t u) = Z.max (tomb_timestamp t) (tomb_timestamp u)) as ->.
  { unfold tomb_apply, tomb_compare. zcases; simpl; lia. }
  destruct (Z.ltb_spec (tomb_timestamp u) (timestamp e.2)); simpl; unfold cell_killed;
    destruct (Z.ltb_spec (tomb_timestamp t) (timestamp e.2)); simpl;
    destruct (Z.ltb_spec (tomb_timestamp t `max` tomb_timestamp u) (timestamp e.2)); simpl; try lia; done.
Qed.

Lemma kill_comm t u o : kill t (kill u o) = kill u (kill t o).
Proof. by rewrite !kill_kill, tomb_apply_comm. Qed.

Lemma kill_idemp t o : kill t (kill t o) = kill t o.
Proof. by rewrite kill_kill, tomb_apply_idemp. Qed.

Lemma get_keyed c k : collection_ok c -> keyed k (getc k (coll_cells c)).
Proof. intros [_ H] e [He <-]%get_elem. split; [done|]. by apply H. Qed.

Lemma kill_keyed k t o : keyed k o -> keyed k (kill t o).
Proof. intros H e He. apply H. destruct o as [e'|]; [|done]. simpl in He. by case_match. Qed.

Lemma merge_elements_greater x y :
  x.1 = y.1 -> cell_ok x.2 -> cell_ok y.2 ->
  merge_elements x y = (x.1, greater compare_atomic_cell_for_merge y.2 x.2).
Proof.
  intros E Hx Hy. unfold merge_elements, greater. f_equal.
  pose proof (tri_opp (c := compare_atomic_cell_for_merge) x.2 y.2 Hx Hy) as Ho.
  destruct (Z.ltb_spec 0 (compare_atomic_cell_for_merge x.2 y.2)), (Z.ltb_spec (compare_atomic_cell_for_merge y.2 x.2) 0); done || lia.
Qed.

Lemma merge_elements_ok x y : cell_ok x.2 -> cell_ok y.2 -> cell_ok (merge_elements x y).2.
Proof. unfold merge_elements. simpl. by case_match. Qed.

Lemma merge_elements_assoc k x y z : keyed k x -> keyed k y -> keyed k z ->
  merge_opt merge_elements (merge_opt merge_elements x y) z = merge_opt merge_elements x (merge_opt merge_elements y z).
Proof.
  intros Hx Hy Hz. destruct x as [x|], y as [y|], z as [z|]; try done. simpl. f_equal.
  destruct (Hx x eq_refl) as [Kx Ox], (Hy y eq_refl) as [Ky Oy], (Hz z eq_refl) as [Kz Oz].
  rewrite (merge_elements_greater x (merge_elements y z)) by first [done | by apply merge_elements_ok | simpl; congruence].
  rewrite (merge_elements_greater (merge_elements x y) z) by first [done | by apply merge_elements_ok | simpl; congruence].
  rewrite (merge_elements_greater x y), (merge_elements_greater y z) by (done || congruence). simpl. f_equal.
  symmetry. by apply (greater_assoc (P := cell_ok)).
Qed.

(** The cell of a key after a merge. *)
Lemma collection_merge_get a b k : collection_ok a -> collection_ok b ->
  getc k (coll_cells (collection_merge less a b)) =
    merge_opt merge_elements (kill (coll_tomb b) (getc k (coll_cells a))) (kill (coll_tomb a) (getc k (coll_cells b))).
Proof.
  intros [Ha _] [Hb _]. unfold collection_merge. simpl.
  rewrite (combine_get fst less merge_elements less_irrefl less_trans less_total merge_elements_key)
    by by apply survivors_sorted. by rewrite !survivors_get.
Qed.

Lemma own_kill c k : collection_ok c -> kill (coll_tomb c) (getc k (coll_cells c)) = getc k (coll_cells c).
Proof.
  intros [_ H]. destruct (getc k (coll_cells c)) as [e|] eqn:E; [|done]. apply get_elem in E as [E _].
  simpl. by destruct (H e E) as [_ ->].
Qed.

Lemma merge_opt_ok k x y : keyed k x -> keyed k y -> keyed k (merge_opt merge_elements x y).
Proof.
  intros Hx Hy e. destruct x as [x|], y as [y|]; simpl; intros [= <-]; [|by apply Hx..|by apply Hy].
  destruct (Hx x eq_refl), (Hy y eq_refl). split; [done|by apply merge_elements_ok].
Qed.

Lemma get_in l e : csorted l -> e ∈ l -> getc e.1 l = Some e.
Proof.
  induction l as [|x l IH]; [by intros _ ?%elem_of_nil|]. rewrite ksorted_cons, elem_of_cons. intros [Hx Hl] [->|He]; simpl.
  - by rewrite decide_True.
  - rewrite decide_False; [by apply IH|]. intros E. specialize (Hx e He). by rewrite E, less_irrefl in Hx.
Qed.

Lemma collection_merge_ok a b : collection_ok a -> collection_ok b -> collection_ok (collection_merge less a b).
Proof.
  intros Ha Hb. assert (csorted (coll_cells (collection_merge less a b))) as Hs.
  { apply (combine_sorted fst less merge_elements less_trans less_total merge_elements_key);
      by apply survivors_sorted; apply Ha || apply Hb. }
  split; [done|]. intros e He. pose proof (get_in _ _ Hs He) as Hg. rewrite collection_merge_get in Hg by done.
  assert (keyed e.1 (Some e)) as Hk.
  { rewrite <- Hg. apply merge_opt_ok; apply kill_keyed; by apply get_keyed. }
  split; [by apply Hk|].
  assert (kill (coll_tomb (collection_merge less a b)) (Some e) = Some e) as Hkill.
  { simpl coll_tomb. rewrite <- kill_kill, <- Hg. rewrite !(kill_merge e.1) by (repeat apply kill_keyed; by apply get_keyed).
    f_equal.
    - by rewrite kill_idemp, kill_comm, own_kill.
    - by rewrite (kill_comm (coll_tomb a) (coll_tomb b)), kill_idemp, kill_comm, own_kill. }
  simpl in Hkill. by case_match.
Qed.

Lemma collection_ext a b : collection_ok a -> collection_ok b -> coll_tomb a = coll_tomb b ->
  (forall k, getc k (coll_cells a) = getc k (coll_cells b)) -> a = b.
Proof.
  destruct a as [t a], b as [u b]. intros [Ha _] [Hb _] E H. simpl in *. f_equal; [done|].
  by apply (ksorted_ext fst less less_irrefl less_trans).
Qed.

(** Merging a collection that already holds the other one changes nothing. *)
Lemma collection_merge_absorb a b : collection_ok a -> collection_ok b ->
  collection_merge less a (collection_merge less a b) = collection_merge less a b.
Proof.
  intros Ha Hb. pose proof (collection_merge_ok a b Ha Hb) as Hab. apply collection_ext; [by apply collection_merge_ok|done| |].
  { simpl. apply tomb_apply_absorb. }
  intros k. rewrite !collection_merge_get by done. simpl coll_tomb.
  rewrite (kill_merge k) by (repeat apply kill_keyed; by apply get_keyed).
  rewrite <- kill_kill, (kill_comm (coll_tomb a) (coll_tomb b)), own_kill, kill_idemp by done.
  pose proof (get_keyed a k Ha) as Ka. pose proof (get_keyed b k Hb) as Kb.
  apply (kill_keyed k (coll_tomb b)) in Ka. apply (kill_keyed k (coll_tomb a)) in Kb.
  rewrite <- (merge_elements_assoc k) by done. f_equal.
  destruct (kill (coll_tomb b) (getc k (coll_cells a))) as [e|] eqn:E; [|done]. simpl. f_equal.
  destruct (Ka e eq_refl). rewrite merge_elements_greater by done. rewrite (greater_idemp (P := cell_ok)) by done.
  by destruct e.
Qed.

Lemma collection_merge_assoc a b c : collection_ok a -> collection_ok b -> collection_ok c ->
  collection_merge less (collection_merge less a b) c = collection_merge less a (collection_merge less b c).
Proof.
  intros Ha Hb Hc. pose proof (collection_merge_ok a b Ha Hb) as Hab. pose proof (collection_merge_ok b c Hb Hc) as Hbc.
  apply collection_ext; [by apply collection_merge_ok..| |].
  { simpl. apply tomb_apply_assoc. }
  intros k. rewrite !collection_merge_get by done. simpl coll_tomb.
  rewrite !(kill_merge k) by (repeat apply kill_keyed; by apply get_keyed).
  rewrite <- !kill_kill, (merge_elements_assoc k) by (repeat apply kill_keyed; by apply get_keyed).
  rewrite (kill_comm (coll_tomb c) (coll_tomb b)), (kill_comm (coll_tomb c) (coll_tomb a)). done.
Qed.
End collection.
