(* ===== verification/Counters.v ===== *)
(** * Counter cells (counters.cc, counters.hh, combine.hh)

    A counter is the sum of shards, one per replica, sorted by the id of the
    replica; a replica that changes its shard increments its logical clock, and a
    merge keeps for each id the shard with the greater clock. When the shards of
    the merged cell are all present in the other one, the merge works in place and
    leaves in the source what undoes it; when it finds out half way that a shard
    is missing, it rolls back and builds a new cell.

    Ids are UUIDs, which compare as unsigned 128-bit numbers: an id is that number.
    The iterators of the two cells are zippers, the shards before the iterator
    nearest first. *)

From S2P Require Import Prelude Mergeable Cell.
Open Scope Z_scope.

(** ** Shards *)

Record counter_shard := Shard { shard_id : Z; shard_value : Z; logical_clock : Z }.

#[export] Instance counter_shard_eq_dec : EqDecision counter_shard.
Proof. solve_decision. Defined.

(** [set_value_and_clock]. *)
Definition set_value_and_clock (s other : counter_shard) : counter_shard :=
  Shard (shard_id s) (shard_value other) (logical_clock other).

Definition shard_less (x y : counter_shard) : bool := shard_id x <? shard_id y.
Definition newer_shard (x y : counter_shard) : counter_shard := if logical_clock x <? logical_clock y then y else x.
Definition combine_shards : list counter_shard -> list counter_shard -> list counter_shard := combine shard_less newer_shard.

(** ** The merge in place *)

(** [while (dst_it != end && dst_it->id() < id) ++dst_it]. *)
Fixpoint skip_to (id : Z) (dl dr : list counter_shard) : list counter_shard * list counter_shard :=
  match dr with
  | d :: dr' => if shard_id d <? id then skip_to id (d :: dl) dr' else (dl, dr)
  | [] => (dl, [])
  end.

(** [while (dst_it->id() != id) --dst_it]; [None]: the iterator leaves the cell. *)
Fixpoint back_to (id : Z) (dl dr : list counter_shard) : option (list counter_shard * list counter_shard) :=
  match dr with
  | [] => None
  | d :: _ =>
      if shard_id d =? id then Some (dl, dr)
      else match dl with d' :: dl' => back_to id dl' (d' :: dr) | [] => None end
  end.

(** The rollback: the processed source shards, latest first, exchange their value
    and clock with the shard of the same id again. *)
Fixpoint roll_back (sl : list counter_shard) (dl dr sr : list counter_shard) : option (list counter_shard * list counter_shard) :=
  match sl with
  | [] => Some (rev_append dl dr, sr)
  | s :: sl' =>
      '(dl, dr) ← back_to (shard_id s) dl dr;
      match dr with
      | d :: dr' => roll_back sl' dl (set_value_and_clock d s :: dr') (set_value_and_clock s d :: sr)
      | [] => None
      end
  end.

(** The loop of [apply_in_place]: whether all shards were found, and the shards
    of the two cells. *)
Fixpoint apply_shards (dl dr sl sr : list counter_shard) : option (bool * list counter_shard * list counter_shard) :=
  match sr with
  | [] => Some (true, rev_append dl dr, rev sl)
  | s :: sr' =>
      let '(dl, dr) := skip_to (shard_id s) dl dr in
      let fall_back dl dr := '(d, s) ← roll_back sl dl dr sr; Some (false, d, s) in
      match dr with
      | [] => match dl with d :: dl' => fall_back dl' [d] | [] => None end
      | d :: dr' =>
          if negb (shard_id d =? shard_id s) then fall_back dl dr
          else if logical_clock d <? logical_clock s then
            apply_shards dl (set_value_and_clock d s :: dr') (set_value_and_clock s d :: sl) sr'
          else apply_shards dl dr (set_value_and_clock s d :: sl) sr'
      end
  end.

(** The loop of [revert_in_place_apply]; [None]: its assertion fails. *)
Fixpoint revert_shards (dl dr sl sr : list counter_shard) : option (list counter_shard * list counter_shard) :=
  match sr with
  | [] => Some (rev_append dl dr, rev sl)
  | s :: sr' =>
      let '(dl, dr) := skip_to (shard_id s) dl dr in
      match dr with
      | d :: dr' =>
          if shard_id d =? shard_id s then
            revert_shards dl (set_value_and_clock d s :: dr') (set_value_and_clock s d :: sl) sr'
          else None
      | [] => None
      end
  end.

(** Shards sorted by id, without duplicates. *)
Definition sorted : list counter_shard -> Prop := StronglySorted (fun x y => shard_id x < shard_id y).

Example in_place_example :
  apply_shards [] [Shard 1 10 1; Shard 2 20 5; Shard 3 30 2] [] [Shard 1 11 2; Shard 2 19 4] =
  Some (true, [Shard 1 11 2; Shard 2 20 5; Shard 3 30 2], [Shard 1 10 1; Shard 2 20 5]).
Proof. reflexivity. Qed.

Example roll_back_example :
  apply_shards [] [Shard 1 10 1; Shard 2 20 5; Shard 4 40 2] [] [Shard 1 11 2; Shard 2 19 4; Shard 3 9 9] =
  Some (false, [Shard 1 10 1; Shard 2 20 5; Shard 4 40 2], [Shard 1 11 2; Shard 2 20 5; Shard 3 9 9]).
Proof. reflexivity. Qed.

(** ** Lemmas *)

(** Elements below all of the other sequence come first. *)
Lemma combine_below {A} less (merge : A -> A -> A) mid l1 x l2 :
  (forall m, m ∈ mid -> less m x = true) ->
  combine less merge (mid ++ l1) (x :: l2) = mid ++ combine less merge l1 (x :: l2).
Proof.
  intros H. induction mid as [|m mid IH]; [done|]. simpl. rewrite H by (apply elem_of_cons; by left).
  f_equal. apply IH. intros y Hy. apply H, elem_of_cons. by right.
Qed.

Lemma sorted_cons s l : sorted (s :: l) <-> (forall y, y ∈ l -> shard_id s < shard_id y) /\ sorted l.
Proof. unfold sorted. by rewrite StronglySorted_cons, Forall_forall. Qed.

Lemma sorted_app l k :
  sorted (l ++ k) <-> (forall x y, x ∈ l -> y ∈ k -> shard_id x < shard_id y) /\ sorted l /\ sorted k.
Proof. apply StronglySorted_app. Qed.

Lemma skip_to_spec id dr : forall dl,
  exists mid dr', skip_to id dl dr = (rev_append mid dl, dr') /\ dr = mid ++ dr'
  /\ (forall m, m ∈ mid -> shard_id m < id) /\ match dr' with d :: _ => id <= shard_id d | [] => True end.
Proof.
  induction dr as [|d dr IH]; intros dl; simpl.
  - exists [], []. split_and!; try done. by intros ? ?%elem_of_nil.
  - destruct (Z.ltb_spec (shard_id d) id).
    + destruct (IH (d :: dl)) as (mid & dr' & -> & -> & Hm & Hd). exists (d :: mid), dr'. split_and!; try done.
      intros m [->|?]%elem_of_cons; eauto.
    + exists [], (d :: dr). split_and!; try done. by intros ? ?%elem_of_nil.
Qed.

Lemma skip_to_app id mid dl dr :
  (forall m, m ∈ mid -> shard_id m < id) -> match dr with d :: _ => id <= shard_id d | [] => True end ->
  skip_to id dl (mid ++ dr) = (rev_append mid dl, dr).
Proof.
  intros Hm Hd. revert dl. induction mid as [|m mid IH]; intros dl; simpl.
  - destruct dr as [|d dr]; [done|]. simpl. destruct (Z.ltb_spec (shard_id d) id); [lia|done].
  - rewrite (proj2 (Z.ltb_lt _ _)) by (apply Hm, elem_of_cons; by left). apply IH.
    intros y Hy. apply Hm, elem_of_cons. by right.
Qed.

(** A shard below the remaining source shards can be passed at once. *)
Lemma apply_shards_skip d dl dr sl sr :
  (forall s, s ∈ sr -> shard_id d < shard_id s) -> apply_shards dl (d :: dr) sl sr = apply_shards (d :: dl) dr sl sr.
Proof.
  intros H. destruct sr as [|s sr]; [done|]. simpl.
  rewrite (proj2 (Z.ltb_lt _ _)) by (apply H, elem_of_cons; by left). done.
Qed.

Lemma revert_shards_skip d dl dr sl sr :
  (forall s, s ∈ sr -> shard_id d < shard_id s) -> revert_shards dl (d :: dr) sl sr = revert_shards (d :: dl) dr sl sr.
Proof.
  intros H. destruct sr as [|s sr]; [done|]. simpl.
  rewrite (proj2 (Z.ltb_lt _ _)) by (apply H, elem_of_cons; by left). done.
Qed.

(** The rollback from where the loop stopped. *)
Definition roll_back_from (sl dl dr sr : list counter_shard) : option (list counter_shard * list counter_shard) :=
  match dr with
  | [] => match dl with d :: dl' => roll_back sl dl' [d] sr | [] => None end
  | _ => roll_back sl dl dr sr
  end.

Lemma roll_back_shift sl d dl dr sr :
  match dr, sl with e :: _, s :: _ => shard_id e <> shard_id s | _, _ => True end ->
  roll_back_from sl (d :: dl) dr sr = roll_back_from sl dl (d :: dr) sr.
Proof.
  destruct dr as [|e dr], sl as [|s sl]; try done. intros H. simpl.
  destruct (Z.eqb_spec (shard_id e) (shard_id s)); [done|]. done.
Qed.

Lemma roll_back_shifts sl mid dl dr sr :
  sorted (mid ++ dr) -> (forall s d, s ∈ sl -> d ∈ mid ++ dr -> shard_id s < shard_id d) ->
  roll_back_from sl (rev_append mid dl) dr sr = roll_back_from sl dl (mid ++ dr) sr.
Proof.
  revert dl. induction mid as [|m mid IH]; intros dl Hs Hsl; [done|]. simpl in *.
  apply sorted_cons in Hs as [Hm Hs].
  rewrite (IH (m :: dl)); [|done|].
  - apply roll_back_shift. destruct (mid ++ dr) as [|e l] eqn:E; [done|]. destruct sl as [|s sl]; [done|].
    pose proof (Hsl s e). rewrite !elem_of_cons in H. specialize (H (or_introl eq_refl) (or_intror (or_introl eq_refl))). lia.
  - intros s d Hs' Hd. apply Hsl; [done|]. apply elem_of_cons. by right.
Qed.

Lemma set_value_and_clock_same s d : shard_id s = shard_id d -> set_value_and_clock s d = d.
Proof. destruct s, d. simpl. by intros ->. Qed.

Lemma newer_shard_idem d s : newer_shard d (newer_shard d s) = newer_shard d s.
Proof.
  unfold newer_shard. destruct (Z.ltb_spec (logical_clock d) (logical_clock s)) as [H|H].
  - by rewrite (proj2 (Z.ltb_lt _ _) H).
  - by rewrite Z.ltb_irrefl.
Qed.

Lemma newer_shard_id d s : shard_id d = shard_id s -> shard_id (newer_shard d s) = shard_id s.
Proof. unfold newer_shard. by case_match. Qed.

Lemma combine_match mid d dr s l :
  (forall m, m ∈ mid -> shard_id m < shard_id s) -> shard_id d = shard_id s ->
  combine_shards (mid ++ d :: dr) (s :: l) = mid ++ newer_shard d s :: combine_shards dr l.
Proof.
  intros Hm Hd. unfold combine_shards. rewrite combine_below.
  - simpl. unfold shard_less. rewrite Hd, Z.ltb_irrefl. done.
  - intros m Hmid. unfold shard_less. apply Z.ltb_lt. eauto.
Qed.

Lemma back_to_here id d dl dr : shard_id d = id -> back_to id dl (d :: dr) = Some (dl, d :: dr).
Proof. intros <-. by destruct dl; simpl; rewrite Z.eqb_refl. Qed.

Lemma rev_append_twice {A} (l k m : list A) : rev_append (rev_append l k) m = rev_append k (l ++ m).
Proof. revert k. induction l as [|x l IH]; intros k; [done|]. apply (IH (x :: k)). Qed.

(** What the loop leaves: [S2] are the source shards once the merge is undone. *)
Definition undone (dr sr S2 : list counter_shard) : Prop :=
  combine_shards dr S2 = combine_shards dr sr /\ map shard_id S2 = map shard_id sr.

Lemma undone_match mid d dr s sr S2 :
  (forall m, m ∈ mid -> shard_id m < shard_id s) -> shard_id d = shard_id s ->
  undone dr sr S2 -> undone (mid ++ d :: dr) (s :: sr) (newer_shard d s :: S2).
Proof.
  intros Hm Hd [H1 H2]. pose proof (newer_shard_id d s Hd) as Hid. split; simpl.
  - rewrite !combine_match by (rewrite ?Hid; done). by rewrite newer_shard_idem, H1.
  - by rewrite Hid, H2.
Qed.

Lemma map_id_bound (S2 sr : list counter_shard) k :
  map shard_id S2 = map shard_id sr -> (forall s, s ∈ sr -> k < shard_id s) -> forall s, s ∈ S2 -> k < shard_id s.
Proof.
  revert sr. induction S2 as [|x S2 IH]; intros [|y sr] E H s Hs; try done; [by apply elem_of_nil in Hs|].
  simpl in E. injection E as E1 E2. apply elem_of_cons in Hs as [->|Hs].
  - rewrite E1. apply H, elem_of_cons. by left.
  - eapply IH; eauto. intros s' Hs'. apply H, elem_of_cons. by right.
Qed.

(** Rolling back and reverting one pair of matching shards. *)
Lemma roll_back_match sl d s dl dr sx :
  shard_id d = shard_id s -> (forall y, y ∈ dr -> shard_id d < shard_id y) ->
  roll_back_from (d :: sl) (newer_shard d s :: dl) dr sx = roll_back_from sl dl (d :: dr) (newer_shard d s :: sx).
Proof.
  intros Hid Hd. rewrite roll_back_shift.
  2:{ destruct dr as [|e dr]; [done|]. specialize (Hd e ltac:(apply elem_of_cons; by left)). lia. }
  pose proof (newer_shard_id d s Hid) as Hn. cbn [roll_back_from roll_back].
  rewrite back_to_here by congruence. simpl mbind.
  by rewrite (set_value_and_clock_same (newer_shard d s) d), (set_value_and_clock_same d (newer_shard d s)) by congruence.
Qed.

Lemma revert_shards_match mid d s DL dr SL S1 :
  shard_id d = shard_id s -> (forall m, m ∈ mid -> shard_id m < shard_id s) -> (forall y, y ∈ S1 -> shard_id d < shard_id y) ->
  revert_shards DL (mid ++ newer_shard d s :: dr) SL (d :: S1) =
  revert_shards (d :: rev_append mid DL) dr (newer_shard d s :: SL) S1.
Proof.
  intros Hid Hmid HS. pose proof (newer_shard_id d s Hid) as Hn. cbn [revert_shards].
  rewrite Hid, skip_to_app by (done || lia). rewrite Hn, Z.eqb_refl.
  rewrite (set_value_and_clock_same (newer_shard d s) d), (set_value_and_clock_same d (newer_shard d s)) by congruence.
  by rewrite revert_shards_skip.
Qed.

Lemma apply_shards_spec sr : forall dl dr sl ol S0,
  sorted dr -> sorted sr -> dl <> [] \/ dr <> [] ->
  (forall s d, s ∈ sl -> d ∈ dr -> shard_id s < shard_id d) ->
  (forall sx, roll_back_from sl dl dr sx = Some (rev_append ol dr, S0 ++ sx)) ->
  exists found D S S2, apply_shards dl dr sl sr = Some (found, D, S) /\ undone dr sr S2 /\
    if found then
      D = rev_append dl (combine_shards dr sr) /\ exists S1, S = rev_append sl S1 /\ map shard_id S1 = map shard_id sr
        /\ forall DL SL, revert_shards DL (combine_shards dr sr) SL S1 = Some (rev_append DL dr, rev_append SL S2)
    else D = rev_append ol dr /\ S = S0 ++ S2.
Proof.
  induction sr as [|s sr IH]; intros dl dr sl ol S0 Hdr Hsr Hne Hsl Hrb.
  - exists true, (rev_append dl dr), (rev sl), []. split_and!; try done.
    + unfold combine_shards. by rewrite combine_nil_r.
    + exists []. split_and!; [apply rev_alt|done|]. intros DL SL. unfold combine_shards. rewrite combine_nil_r.
      simpl. by rewrite rev_alt.
  - apply sorted_cons in Hsr as [Hs Hsr].
    destruct (skip_to_spec (shard_id s) dr dl) as (mid & dr' & Esk & -> & Hmid & Hhd).
    cbn [apply_shards]. rewrite Esk.
    assert (forall sx, roll_back_from sl (rev_append mid dl) dr' sx = Some (rev_append ol (mid ++ dr'), S0 ++ sx)) as Hrb'.
    { intros sx. rewrite roll_back_shifts by done. apply Hrb. }
    assert (match dr' with
            | [] => match rev_append mid dl with d :: dl' => roll_back sl dl' [d] (s :: sr) | [] => None end
            | _ => roll_back sl (rev_append mid dl) dr' (s :: sr)
            end = Some (rev_append ol (mid ++ dr'), S0 ++ s :: sr)) as Hfall by apply (Hrb' (s :: sr)).
    destruct dr' as [|d dr'].
    + destruct (rev_append mid dl) as [|d dl'] eqn:E.
      { exfalso. rewrite rev_append_rev in E. apply app_eq_nil in E as [E1 ->].
        destruct mid; [|done]. by destruct Hne. }
      rewrite Hfall. simpl. eexists false, _, _, (s :: sr). by split_and!.
    + destruct (Z.eqb_spec (shard_id d) (shard_id s)) as [Hid|Hid]; simpl negb; cbv iota.
      2:{ rewrite Hfall. simpl. eexists false, _, _, (s :: sr). by split_and!. }
      apply sorted_app in Hdr as (Hmd & _ & Hdr). apply sorted_cons in Hdr as [Hd Hdr].
      rewrite (set_value_and_clock_same d s), (set_value_and_clock_same s d) by done.
      assert ((if logical_clock d <? logical_clock s then apply_shards (rev_append mid dl) (s :: dr') (d :: sl) sr
               else apply_shards (rev_append mid dl) (d :: dr') (d :: sl) sr)
              = apply_shards (newer_shard d s :: rev_append mid dl) dr' (d :: sl) sr) as ->.
      { unfold newer_shard. case_match; apply apply_shards_skip; intros s' Hs'; specialize (Hs s' Hs'); lia. }
      destruct (IH (newer_shard d s :: rev_append mid dl) dr' (d :: sl) (d :: rev_append mid ol) (S0 ++ [newer_shard d s]))
        as (found & D & S & S2 & E & Hun & Hres); [done|done|by left| | |].
      { intros s' d' [->|Hs']%elem_of_cons Hd'; [eauto|]. apply Hsl; [done|]. rewrite elem_of_app, elem_of_cons. tauto. }
      { intros sx. rewrite roll_back_match by done. rewrite Hrb', <- app_assoc. cbn [rev_append]. by rewrite rev_append_twice. }
      exists found, D, S, (newer_shard d s :: S2). split_and!; [done|by apply undone_match|].
      destruct found.
      * destruct Hres as (-> & S1 & -> & Hids & Hrev). rewrite combine_match by done. split.
        { cbn [rev_append]. by rewrite rev_append_twice. }
        exists (d :: S1). split_and!; [done|by simpl; rewrite Hids, Hid|]. intros DL SL.
        rewrite revert_shards_match, Hrev; [cbn [rev_append]; by rewrite rev_append_twice|done|done|].
        intros s' Hs'. eapply map_id_bound in Hids; [exact Hids| |exact Hs']. intros s'' Hs''. rewrite Hid. eauto.
      * destruct Hres as [-> ->]. split; [cbn [rev_append]; by rewrite rev_append_twice|by rewrite <- app_assoc].
Qed.

(** ** Counter cells *)

(** A live cell with its shards, a counter update on its way to the leader, a
    deleted counter, or a live cell with an 8-byte integer. *)
Inductive counter_cell :=
| CShards (timestamp : Z) (shards : list counter_shard)
| CUpdate (timestamp : Z) (delta : Z)
| CDead (timestamp : Z) (deletion_time : Z)
| CLong (timestamp : Z) (value : Z).

Definition cc_is_live (c : counter_cell) : bool := match c with CDead _ _ => false | _ => true end.
Definition is_counter_update (c : counter_cell) : bool := match c with CUpdate _ _ => true | _ => false end.

(** A cell in memory: the revert flags, whether its bytes are in one fragment, and
    the number of the most recent version. *)
Record counter_object := CObj {
  cc : counter_cell; cc_revert : bool; in_place_revert : bool; contiguous : bool; cc_version : Z }.

Definition to_int64 (x : Z) : Z := (x + 2 ^ 63) mod 2 ^ 64 - 2 ^ 63.

Section cells.
(** Whether the allocator puts a cell of [n] shards, or a counter update, in one fragment. *)
Variable one_fragment : nat -> bool.

(** A cell from [build], [make_live_counter_update] or [make_live]. *)
Definition make_shards (t : Z) (l : list counter_shard) : counter_object :=
  CObj (CShards t l) false false (one_fragment (length l)) 0.
Definition make_update (t v : Z) : counter_object := CObj (CUpdate t v) false false (one_fragment 0) 0.
Definition make_long (t v : Z) : counter_object := CObj (CLong t v) false false (one_fragment 0) 0.

(** [apply_in_place] on two live cells with shards. *)
Definition apply_in_place (t1 : Z) (d : list counter_shard) (f1 : counter_object)
    (t2 : Z) (s : list counter_shard) (f2 : counter_object) : option (bool * counter_object * counter_object) :=
  '(found, d, s) ← apply_shards [] d [] s;
  if (found : bool) then
    Some (true, CObj (CShards (Z.max t1 t2) d) (cc_revert f1) (in_place_revert f1) (contiguous f1) (cc_version f1),
                CObj (CShards t1 s) (cc_revert f2) true (contiguous f2) (cc_version f2))
  else
    Some (false, CObj (CShards t1 d) (cc_revert f1) (in_place_revert f1) (contiguous f1) (cc_version f1),
                 CObj (CShards t2 s) (cc_revert f2) (in_place_revert f2) (contiguous f2) (cc_version f2)).

(** How [counter_cell_view::apply_reversibly] ends: whether it modified the
    destination, or an exception because a new cell could not be allocated. *)
Inductive counter_result :=
| CApplied (did_apply : bool) (dst src : counter_object)
| CThrew (dst src : counter_object)
| CAborted.

(** The slow path: a new cell replaces the destination, which moves to the source. *)
Definition apply_slow (oom : bool) (t1 : Z) (d : list counter_shard) (dst : counter_object)
    (t2 : Z) (s : list counter_shard) (src : counter_object) : counter_result :=
  let src := CObj (cc src) (cc_revert src) false (contiguous src) (cc_version src) in
  if oom then CThrew dst src
  else CApplied true (make_shards (Z.max t1 t2) (combine_shards d s)) dst.

Definition counter_apply_reversibly (oom : bool) (dst src : counter_object) : counter_result :=
  match cc dst, cc src with
  | CDead t1 d1, CDead t2 d2 => if compare_atomic_cell_for_merge (Dead t1 d1) (Dead t2 d2) <? 0 then CApplied true src dst else CApplied false dst src
  | CDead _ _, _ => CApplied false dst src
  | _, CDead _ _ => CApplied true src dst
  | CUpdate t1 v1, CUpdate t2 v2 =>
      if oom then CThrew dst src else CApplied true (make_update (Z.max t1 t2) (to_int64 (v2 + v1))) src
  | CShards t1 d, CShards t2 s =>
      if bool_decide (length s <= length d)%nat && contiguous dst && contiguous src then
        match apply_in_place t1 d dst t2 s src with
        | Some (true, dst, src) => CApplied true dst src
        | Some (false, dst, src) =>
            match cc dst, cc src with
            | CShards t1 d, CShards t2 s => apply_slow oom t1 d dst t2 s src
            | _, _ => CAborted
            end
        | None => CAborted
        end
      else apply_slow oom t1 d dst t2 s src
  | _, _ => CAborted
  end.

(** [counter_cell_view::revert_apply]. *)
Definition counter_revert_apply (dst src : counter_object) : option (counter_object * counter_object) :=
  match cc dst with
  | CUpdate t1 v1 =>
      match cc src with CUpdate _ v2 => Some (make_long t1 (to_int64 (v1 - v2)), src) | _ => None end
  | _ =>
      if in_place_revert src then
        if contiguous dst && contiguous src then
          match cc dst, cc src with
          | CShards t1 d, CShards t2 s =>
              '(d, s) ← revert_shards [] d [] s;
              Some (CObj (CShards t2 d) (cc_revert dst) (in_place_revert dst) (contiguous dst) (cc_version dst),
                    CObj (CShards t1 s) (cc_revert src) false (contiguous src) (cc_version src))
          | _, _ => None
          end
        else None
      else Some (src, dst)
  end.
End cells.

(** ** The contract of counter cells *)

Lemma sorted_ksorted l : sorted l <-> ksorted shard_id Z.ltb l.
Proof.
  unfold sorted, ksorted. split; (induction 1 as [|x l _ IH Hx]; constructor; [done|]);
    (eapply Forall_impl; [exact Hx|]); intros y; simpl; by rewrite Z.ltb_lt.
Qed.

(** The side conditions of [combine] for shards in the order of their ids. *)
Ltac shard_order := solve
  [ intros ?; apply Z.ltb_irrefl
  | intros ? ? ?; rewrite !Z.ltb_lt; lia
  | intros ? ?; rewrite !Z.ltb_ge; lia
  | intros ? ? ?; unfold newer_shard; by case_match ].

Lemma combine_shards_sorted l1 l2 : sorted l1 -> sorted l2 -> sorted (combine_shards l1 l2).
Proof.
  rewrite !sorted_ksorted. apply (combine_sorted shard_id Z.ltb newer_shard); shard_order.
Qed.

Lemma combine_shards_absorb l1 l2 : sorted l1 -> sorted l2 -> combine_shards l1 (combine_shards l1 l2) = combine_shards l1 l2.
Proof.
  rewrite !sorted_ksorted. apply (combine_absorb shard_id Z.ltb newer_shard); try shard_order.
  - intros x y _ _ _. apply newer_shard_idem.
  - intros x _. unfold newer_shard. by case_match.
Qed.

(** The merge of two counters, as a function of their contents. *)
Definition counter_merge (a b : counter_cell) : counter_cell :=
  match a, b with
  | CDead t1 d1, CDead t2 d2 => if compare_atomic_cell_for_merge (Dead t1 d1) (Dead t2 d2) <? 0 then b else a
  | CDead _ _, _ => a
  | _, CDead _ _ => b
  | CShards t1 d, CShards t2 s => CShards (Z.max t1 t2) (combine_shards d s)
  | CUpdate t1 v1, CUpdate t2 v2 => CUpdate (Z.max t1 t2) (to_int64 (v2 + v1))
  | _, _ => a
  end.

(** A counter as a replica stores it: sorted shards or deleted. *)
Definition counter_cell_ok (c : counter_cell) : Prop :=
  match c with CShards _ l => sorted l | CDead _ d => - 2 ^ 31 <= d < 2 ^ 31 | _ => False end.

Definition counter_ok (o : counter_object) : Prop :=
  counter_cell_ok (cc o) /\ cc_revert o = false /\ in_place_revert o = false.

Lemma counter_merge_ok a b : counter_cell_ok a -> counter_cell_ok b -> counter_cell_ok (counter_merge a b).
Proof.
  destruct a, b; simpl; try done; intros; repeat case_match; try done. by apply combine_shards_sorted.
Qed.

Lemma counter_merge_absorb a b : counter_cell_ok a -> counter_cell_ok b ->
  counter_merge a (counter_merge a b) = counter_merge a b.
Proof.
  destruct a as [t1 d|t1 v|t1 d|], b as [t2 s|t2 v'|t2 d'|]; simpl; try done; intros Ha Hb.
  - rewrite combine_shards_absorb by done. f_equal. lia.
  - by rewrite (tri_refl (P := cell_ok)).
  - destruct (Z.ltb_spec (compare_atomic_cell_for_merge (Dead t1 d) (Dead t2 d')) 0) as [E|E]; simpl.
    + by rewrite (proj2 (Z.ltb_lt _ _) E).
    + by rewrite (tri_refl (P := cell_ok)).
Qed.

Section law.
Variable one_fragment : nat -> bool.

(** The merge in place does what the reference merge does, and its undo restores the destination. *)
Lemma apply_in_place_spec t1 d dst t2 s src :
  sorted d -> sorted s -> (length s <= length d)%nat ->
  exists found d' s' s2, apply_shards [] d [] s = Some (found, d', s') /\ undone d s s2
    /\ apply_in_place t1 d dst t2 s src =
         (if (found : bool) then
            Some (true, CObj (CShards (Z.max t1 t2) d') (cc_revert dst) (in_place_revert dst) (contiguous dst) (cc_version dst),
                        CObj (CShards t1 s') (cc_revert src) true (contiguous src) (cc_version src))
          else Some (false, CObj (CShards t1 d') (cc_revert dst) (in_place_revert dst) (contiguous dst) (cc_version dst),
                            CObj (CShards t2 s') (cc_revert src) (in_place_revert src) (contiguous src) (cc_version src)))
    /\ if found then d' = combine_shards d s /\ revert_shards [] d' [] s' = Some (d, s2) else d' = d /\ s' = s2.
Proof.
  intros Hd Hs Hlen. unfold apply_in_place. destruct d as [|x d].
  - destruct s; [|simpl in Hlen; lia]. exists true, [], [], []. by split_and!.
  - destruct (apply_shards_spec s [] (x :: d) [] [] []) as (found & d' & s' & s2 & E & Hun & Hres);
      [done|done|by right|by intros ? ? ?%elem_of_nil|done|].
    exists found, d', s', s2. rewrite E. simpl. split_and!; [done|done|by destruct found|].
    destruct found; [|done]. destruct Hres as (-> & S1 & -> & _ & Hrev). split; [done|]. apply Hrev.
Qed.

(** What [counter_cell_view] promises. *)
Definition counter_promise (oom : bool) (dst src : counter_object) (r : counter_result) : Prop :=
  match r with
  | CApplied true d s =>
      cc d = counter_merge (cc dst) (cc src) /\ counter_ok d /\ cc_revert s = false /\
      exists s'', counter_revert_apply one_fragment d s = Some (dst, s'') /\ counter_ok s''
        /\ counter_merge (cc dst) (cc s'') = counter_merge (cc dst) (cc src)
  | CApplied false d s => d = dst /\ s = src /\ counter_merge (cc dst) (cc src) = cc dst
  | CThrew d s =>
      oom = true /\ d = dst /\ counter_ok s /\ counter_merge (cc dst) (cc s) = counter_merge (cc dst) (cc src)
  | CAborted => False
  end.

Lemma sorted_map l l' : map shard_id l = map shard_id l' -> sorted l' -> sorted l.
Proof.
  revert l'. induction l as [|x l IH]; intros [|y l'] E Hs; try done.
  simpl in E. injection E as E1 E2. apply sorted_cons in Hs as [Hy Hs]. apply sorted_cons. split; [|by eapply IH].
  rewrite E1. by eapply map_id_bound.
Qed.

Lemma apply_slow_promise oom t1 d dst t2 s src t2' s' src' :
  cc dst = CShards t1 d -> cc src = CShards t2 s -> counter_ok dst -> counter_ok src ->
  cc src' = CShards t2' s' -> t2' = t2 -> cc_revert src' = false -> sorted s' -> combine_shards d s' = combine_shards d s ->
  counter_promise oom dst src (apply_slow one_fragment oom t1 d dst t2' s' src').
Proof.
  intros Ed Es (Hd & Rd & Id) (Hs & Rs & Is) Es' -> Rs' Hs' E. rewrite Ed, Es in *. unfold apply_slow. destruct oom; simpl.
  - split; [done|]. split; [done|]. unfold counter_ok. simpl. rewrite Ed, Es, Es'. simpl. by rewrite E.
  - rewrite Ed, Es. simpl. rewrite E. assert (sorted (combine_shards d s)) by by apply combine_shards_sorted.
    split_and!; try done. unfold counter_revert_apply. simpl. rewrite Id. eexists. split; [done|].
    split; [by split_and!|]. simpl. rewrite combine_shards_absorb by done. f_equal. lia.
Qed.

Lemma swap_promise oom dst src t d :
  counter_ok dst -> counter_ok src -> cc src = CDead t d -> counter_merge (cc dst) (cc src) = cc src ->
  counter_promise oom dst src (CApplied true src dst).
Proof.
  intros Hd Hs E Em. pose proof Hd as (_ & ? & Hi). split_and!; try done; try apply Hs.
  exists src. split; [|done]. unfold counter_revert_apply. by rewrite E, Hi.
Qed.

Lemma counter_law oom dst src :
  counter_ok dst -> counter_ok src -> counter_promise oom dst src (counter_apply_reversibly one_fragment oom dst src).
Proof.
  intros Hd Hs. pose proof Hd as (Od & Rd & Id). pose proof Hs as (Os & Rs & Is). unfold counter_apply_reversibly.
  destruct (cc dst) as [t1 d|t1 v|t1 d|] eqn:Ed, (cc src) as [t2 s|t2 v'|t2 d'|] eqn:Es; try done; simpl in Od, Os.
  - destruct (bool_decide (length s <= length d)%nat && contiguous dst && contiguous src) eqn:Ec;
      [|by eapply apply_slow_promise].
    apply andb_true_iff in Ec as [[Hlen%bool_decide_eq_true Cd]%andb_true_iff Cs].
    destruct (apply_in_place_spec t1 d dst t2 s src Od Os Hlen) as (found & d' & s' & s2 & _ & [U1 U2] & -> & Hres).
    pose proof (sorted_map _ _ U2 Os) as Hs2.
    assert (CObj (CShards t1 d) (cc_revert dst) (in_place_revert dst) (contiguous dst) (cc_version dst) = dst) as Eta
      by (destruct dst; simpl in *; by subst).
    destruct found.
    + destruct Hres as [-> Hrev]. simpl. rewrite Ed, Es. simpl.
      assert (sorted (combine_shards d s)) by by apply combine_shards_sorted. split_and!; try done.
      unfold counter_revert_apply. simpl. rewrite Cd, Cs. simpl. rewrite Hrev. simpl. eexists. split; [rewrite Cd in Eta; by rewrite Eta|].
      split; [by split_and!|]. simpl. rewrite U1. f_equal. lia.
    + destruct Hres as [-> ->]. simpl. rewrite Eta. by eapply apply_slow_promise.
  - by eapply swap_promise; rewrite ?Ed, ?Es.
  - simpl. by rewrite Ed, Es.
  - destruct (Z.ltb_spec (compare_atomic_cell_for_merge (Dead t1 d) (Dead t2 d')) 0) as [E|E].
    + eapply swap_promise; rewrite ?Ed, ?Es; try done. simpl. by rewrite (proj2 (Z.ltb_lt _ _) E).
    + simpl. rewrite Ed, Es. simpl. by rewrite (proj2 (Z.ltb_ge _ _) E).
Qed.
End law.

(** ** Theorems *)

(** Shards of one replica with the same clock have the same value. *)
Definition consistent (a b : counter_cell) : Prop :=
  match a, b with
  | CShards _ l, CShards _ k =>
      forall x y, x ∈ l -> y ∈ k -> shard_id x = shard_id y -> logical_clock x = logical_clock y -> x = y
  | _, _ => True
  end.

Lemma dead_compare_eq t1 d1 t2 d2 :
  - 2 ^ 31 <= d1 < 2 ^ 31 -> - 2 ^ 31 <= d2 < 2 ^ 31 ->
  compare_atomic_cell_for_merge (Dead t1 d1) (Dead t2 d2) = 0 -> t1 = t2 /\ d1 = d2.
Proof.
  intros H1 H2. unfold compare_atomic_cell_for_merge. simpl. zcases; try lia.
Qed.

Lemma newer_shard_comm x y :
  (logical_clock x = logical_clock y -> x = y) -> newer_shard x y = newer_shard y x.
Proof.
  intros H. unfold newer_shard.
  destruct (Z.ltb_spec (logical_clock x) (logical_clock y)), (Z.ltb_spec (logical_clock y) (logical_clock x)); try done; try lia.
  apply H. lia.
Qed.

Lemma newer_shard_assoc x y z : newer_shard (newer_shard x y) z = newer_shard x (newer_shard y z).
Proof.
  unfold newer_shard.
  destruct (Z.ltb_spec (logical_clock x) (logical_clock y)) as [H1|H1], (Z.ltb_spec (logical_clock y) (logical_clock z)) as [H2|H2];
    rewrite ?(proj2 (Z.ltb_lt _ _) H1), ?(proj2 (Z.ltb_ge _ _) H1), ?(proj2 (Z.ltb_lt _ _) H2), ?(proj2 (Z.ltb_ge _ _) H2);
    try done; destruct (Z.ltb_spec (logical_clock x) (logical_clock z)); try done; lia.
Qed.

Lemma combine_shards_assoc l1 l2 l3 : sorted l1 -> sorted l2 -> sorted l3 ->
  combine_shards (combine_shards l1 l2) l3 = combine_shards l1 (combine_shards l2 l3).
Proof.
  rewrite !sorted_ksorted. apply (combine_assoc shard_id Z.ltb newer_shard); try shard_order.
  - intros x y z _ _ _ _ _. apply newer_shard_assoc.
Qed.

Lemma combine_shards_comm l1 l2 : sorted l1 -> sorted l2 ->
  (forall x y, x ∈ l1 -> y ∈ l2 -> shard_id x = shard_id y -> logical_clock x = logical_clock y -> x = y) ->
  combine_shards l1 l2 = combine_shards l2 l1.
Proof.
  rewrite !sorted_ksorted. intros H1 H2 Hc. apply (combine_comm shard_id Z.ltb newer_shard); try shard_order; try done.
  - intros x y Hx Hy E. apply newer_shard_comm. eauto.
Qed.

Lemma combine_shards_idemp l : sorted l -> combine_shards l l = l.
Proof.
  rewrite sorted_ksorted. apply (combine_idemp shard_id Z.ltb newer_shard); try shard_order.
  - intros x _. unfold newer_shard. by case_match.
Qed.

(** Deleted counters merge as deleted cells do. *)
Lemma dead_merge t1 d1 t2 d2 t3 d3 :
  greater compare_atomic_cell_for_merge (Dead t1 d1) (Dead t2 d2) = Dead t3 d3 ->
  counter_merge (CDead t1 d1) (CDead t2 d2) = CDead t3 d3.
Proof. unfold greater. simpl. case_match; congruence. Qed.

Lemma greater_dead t1 d1 t2 d2 : exists t d,
  greater compare_atomic_cell_for_merge (Dead t1 d1) (Dead t2 d2) = Dead t d.
Proof. unfold greater. case_match; eauto. Qed.

Lemma dead_merge_assoc t1 d1 t2 d2 t3 d3 :
  cell_ok (Dead t1 d1) -> cell_ok (Dead t2 d2) -> cell_ok (Dead t3 d3) ->
  counter_merge (counter_merge (CDead t1 d1) (CDead t2 d2)) (CDead t3 d3) =
  counter_merge (CDead t1 d1) (counter_merge (CDead t2 d2) (CDead t3 d3)).
Proof.
  intros H1 H2 H3. pose proof (greater_assoc (P := cell_ok) _ _ _ H1 H2 H3) as E.
  destruct (greater_dead t1 d1 t2 d2) as (t & d & E12). destruct (greater_dead t2 d2 t3 d3) as (t' & d' & E23).
  rewrite (dead_merge _ _ _ _ _ _ E12), (dead_merge _ _ _ _ _ _ E23). rewrite E12, E23 in E.
  destruct (greater_dead t d t3 d3) as (u & w & Eu). rewrite (dead_merge _ _ _ _ _ _ Eu). symmetry.
  apply dead_merge. congruence.
Qed.

Lemma counter_merge_assoc a b c :
  counter_cell_ok a -> counter_cell_ok b -> counter_cell_ok c ->
  counter_merge (counter_merge a b) c = counter_merge a (counter_merge b c).
Proof.
  intros Ha Hb Hc.
  destruct a as [t1 l1|t1 v1|t1 d1|], b as [t2 l2|t2 v2|t2 d2|], c as [t3 l3|t3 v3|t3 d3|]; try done;
    try (simpl; by case_match); [|by apply dead_merge_assoc].
  simpl. rewrite combine_shards_assoc by done. f_equal. lia.
Qed.

Lemma counter_merge_idemp a : counter_cell_ok a -> counter_merge a a = a.
Proof.
  destruct a as [t l|t v|t d|]; simpl; try done; intros Ha; [|by rewrite (tri_refl (P := cell_ok))].
  rewrite combine_shards_idemp by done. f_equal. lia.
Qed.

Lemma counter_merge_comm a b : counter_cell_ok a -> counter_cell_ok b -> consistent a b -> counter_merge a b = counter_merge b a.
Proof.
  intros Ha Hb Hcons. destruct a as [t1 l1|t1 v1|t1 d1|], b as [t2 l2|t2 v2|t2 d2|]; try done.
  - simpl. rewrite combine_shards_comm by done. f_equal. lia.
  - simpl. pose proof (tri_opp (P := cell_ok) (Dead t1 d1) (Dead t2 d2) Ha Hb) as E.
    destruct (Z.ltb_spec (compare_atomic_cell_for_merge (Dead t1 d1) (Dead t2 d2)) 0),
      (Z.ltb_spec (compare_atomic_cell_for_merge (Dead t2 d2) (Dead t1 d1)) 0); try done; try lia.
    destruct (dead_compare_eq t1 d1 t2 d2 Ha Hb) as [-> ->]; [lia|done].
Qed.

Lemma counter_merge_live a b : counter_cell_ok a -> counter_cell_ok b ->
  cc_is_live (counter_merge a b) = cc_is_live a && cc_is_live b.
Proof. destruct a, b; simpl; try done; intros; by repeat case_match. Qed.

Section converge.
(** The allocator, and the fragmentation of the destination and the source. *)
Variables (one_fragment : nat -> bool) (p q : bool).

(** The contents that [counter_cell_view::apply_reversibly] leaves in the destination. *)
Definition counter_applied (a b : counter_cell) : option counter_cell :=
  match counter_apply_reversibly one_fragment false (CObj a false false p 0) (CObj b false false q 0) with
  | CApplied _ d _ => Some (cc d)
  | CThrew _ _ | CAborted => None
  end.

Lemma counter_applied_merge a b : counter_cell_ok a -> counter_cell_ok b -> counter_applied a b = Some (counter_merge a b).
Proof.
  intros Ha Hb. unfold counter_applied.
  pose proof (counter_law one_fragment false (CObj a false false p 0) (CObj b false false q 0)) as H.
  destruct (counter_apply_reversibly _ _ _ _) as [[] d s|d s|];
    (specialize (H ltac:(by split_and!) ltac:(by split_and!)); simpl in H).
  - by destruct H as [-> _].
  - destruct H as (-> & _ & ->). done.
  - by destruct H.
  - done.
Qed.

(** C19. Replicas of a counter converge, whichever path the merge takes, in place
    or through a new cell: it succeeds, merging a counter with itself changes
    nothing, three counters give the same in either grouping, two give the same in
    either order as long as shards of one replica with the same clock agree, and
    the result is live exactly when both counters are. *)
Theorem counter_merge_converges a b c :
  counter_cell_ok a -> counter_cell_ok b -> counter_cell_ok c ->
  counter_applied a a = Some a
  /\ (exists r, (ab ← counter_applied a b; counter_applied ab c) = Some r
                /\ (bc ← counter_applied b c; counter_applied a bc) = Some r)
  /\ (consistent a b -> counter_applied a b = counter_applied b a)
  /\ cc_is_live <$> counter_applied a b = Some (cc_is_live a && cc_is_live b).
Proof.
  intros Ha Hb Hc. pose proof (counter_merge_ok a b Ha Hb). pose proof (counter_merge_ok b c Hb Hc).
  rewrite !(counter_applied_merge _ _) by done. simpl. rewrite !counter_applied_merge by done. split_and!.
  - by rewrite counter_merge_idemp.
  - eexists. split; [done|]. by rewrite counter_merge_assoc.
  - intros E. by rewrite counter_merge_comm.
  - by rewrite counter_merge_live.
Qed.
End converge.

Definition example_a : counter_cell := CShards 5 [Shard 1 10 2; Shard 3 7 1].
Definition example_b : counter_cell := CShards 6 [Shard 1 12 3; Shard 2 1 1].

Lemma counter_merge_converges_witness :
  counter_applied (fun _ => true) true true example_a example_b = Some (CShards 6 [Shard 1 12 3; Shard 2 1 1; Shard 3 7 1])
  /\ counter_applied (fun _ => true) true true example_a example_b = counter_applied (fun _ => true) true true example_b example_a.
Proof.
  split; [reflexivity|].
  assert (counter_cell_ok example_a /\ counter_cell_ok example_b) as [Ha Hb]
    by (split; apply sorted_ksorted; repeat constructor).
  apply (counter_merge_converges (fun _ => true) true true example_a example_b example_a Ha Hb Ha).
  intros x y Hx Hy. repeat (apply elem_of_cons in Hx as [->|Hx]; [|try by apply elem_of_nil in Hx]);
    repeat (apply elem_of_cons in Hy as [->|Hy]; [|try by apply elem_of_nil in Hy]); simpl; lia.
Defined.

(** [revert_apply] does not undo the merge of two counter updates: the
    destination becomes a live cell with an 8-byte value that is no counter update
    any more, under the greater of the two timestamps; merging an update into it
    again fails an assertion. *)
Theorem counter_update_not_reverted one_fragment t1 v1 t2 v2 f1 f2 :
  exists d s, counter_apply_reversibly one_fragment false (CObj (CUpdate t1 v1) false false f1 0) (CObj (CUpdate t2 v2) false false f2 0)
    = CApplied true d s
  /\ exists s'', counter_revert_apply one_fragment d s =
       Some (make_long one_fragment (Z.max t1 t2) (to_int64 (to_int64 (v2 + v1) - v2)), s'')
  /\ counter_apply_reversibly one_fragment false
       (make_long one_fragment (Z.max t1 t2) (to_int64 (to_int64 (v2 + v1) - v2))) s'' = CAborted.
Proof. eexists _, _. split; [done|]. eexists. by split. Qed.
