(* ===== verification/Keyed.v ===== *)
(** * Merging containers key by key

    [row::for_each_cell] with its rollback and [apply_reversibly_intrusive_set]
    share a scheme: they merge the elements of the source container one by one
    into the destination, and when one of them throws they revert those already
    merged. The scheme, over what happens to one element, and its proof. *)

From S2P Require Import Prelude Mergeable.
Open Scope Z_scope.

(** What the merge of one element does to the destination and to the element. *)
Inductive step_outcome (C E : Type) :=
| StepMerged (dst : C) (e : E)
| StepThrew (dst : C) (e : E)
| StepStuck.
Arguments StepMerged {C E} dst e.
Arguments StepThrew {C E} dst e.
Arguments StepStuck {C E}.

(** What the whole merge does to the two containers. *)
Section scheme.
Context {C K E : Type}.
Variables (find : C -> K -> option E) (put : K -> E -> C -> C).
Variables (step : K -> C -> E -> step_outcome C E) (undo : K -> C -> E -> option (C * E)).
(** The order in which the visited keys, latest first, are reverted. *)
Variable order : list K -> list K.

(** Reverts the elements of the given keys; [None]: an assertion fails. *)
Fixpoint revert_keys (keys : list K) (dst src : C) : option (C * C) :=
  match keys with
  | [] => Some (dst, src)
  | k :: keys' =>
      e ← find src k;
      '(dst, e) ← undo k dst e;
      revert_keys keys' dst (put k e src)
  end.

Fixpoint apply_keys (keys visited : list K) (dst src : C) : merge_outcome C :=
  match keys with
  | [] => Merged dst src
  | k :: keys' =>
      match find src k with
      | None => Stuck
      | Some e =>
          match step k dst e with
          | StepMerged dst e => apply_keys keys' (k :: visited) dst (put k e src)
          | StepThrew dst e =>
              match revert_keys (order visited) dst (put k e src) with
              | Some (dst, src) => Threw dst src
              | None => Stuck
              end
          | StepStuck => Stuck
          end
      end
  end.
End scheme.

Section laws.
Context {C K E : Type} `{!EqDecision K}.
Variables (find : C -> K -> option E) (put : K -> E -> C -> C).
Variables (undo : K -> C -> E -> option (C * E)) (order : list K -> list K).
(** Well-formed containers and elements at rest; [is_merge k old e d]: [d] is the
    merge of [e] into what the destination holds; [alike k old e' e]: the two
    elements merge to the same there. *)
Variables (ok : C -> Prop) (good : K -> E -> Prop).
Variables (is_merge : K -> option E -> E -> E -> Prop) (alike : K -> option E -> E -> E -> Prop).
Hypothesis alike_refl : forall k old e, alike k old e e.
(** Equality of elements as their users see them. *)
Variable same_element : option E -> option E -> Prop.
Hypothesis same_element_refl : forall o, same_element o o.

(** [r'] is [r] with the element of [k] replaced. *)
Definition updates (r : C) (k : K) (o : option E) (r' : C) : Prop :=
  ok r' /\ forall i, find r' i = if decide (i = k) then o else find r i.

(** [r'] is [r] with the element of [k] put back to [o]. *)
Definition puts_back (r : C) (k : K) (o : option E) (r' : C) : Prop :=
  ok r' /\ same_element (find r' k) o /\ forall i, i <> k -> find r' i = find r i.

Lemma updates_puts_back r k o r' : updates r k o r' -> puts_back r k o r'.
Proof.
  intros [Hok Hf]. split; [done|]. split.
  - rewrite Hf. destruct (decide (k = k)); [apply same_element_refl|done].
  - intros i Hi. rewrite Hf. by destruct (decide (i = k)).
Qed.

(** From any container that holds [d] the element [e] reverts to [old]. *)
Definition reverts (k : K) (old : option E) (d e e0 : E) : Prop :=
  forall r, ok r -> find r k = Some d -> exists r' e'',
    undo k r e = Some (r', e'') /\ puts_back r k old r' /\ good k e'' /\ alike k old e'' e0.

(** The promise of one step. *)
Definition step_law (faulty : Prop) (k : K) (r : C) (e : E) (s : step_outcome C E) : Prop :=
  let old := find r k in
  match s with
  | StepMerged r' e' => exists d, updates r k (Some d) r' /\ is_merge k old e d /\ good k d /\ reverts k old d e' e
  | StepThrew r' e' =>
      faulty /\ puts_back r k old r' /\ good k e' /\ alike k old e' e
  | StepStuck => False
  end.

(** A source whose elements were replaced under their keys. *)
Variable same_shape : C -> C -> Prop.
Hypothesis shape_refl : forall r, same_shape r r.
Hypothesis shape_trans : forall r1 r2 r3, same_shape r1 r2 -> same_shape r2 r3 -> same_shape r1 r3.
Hypothesis put_find : forall k e r i e0, find r k = Some e0 -> find (put k e r) i = if decide (i = k) then Some e else find r i.
Hypothesis put_shape : forall k e r e0, find r k = Some e0 -> same_shape r (put k e r).
Hypothesis find_shape : forall r r' i, same_shape r r' -> is_Some (find r' i) <-> is_Some (find r i).
Hypothesis order_perm : forall l, order l ≡ₚ l.

Section loop.
Variables (dst0 src0 : C).
Hypothesis src_good : forall k e, find src0 k = Some e -> good k e.

(** The element of [k] has been merged, and can be reverted. *)
Definition ready (dst src : C) (k : K) : Prop :=
  exists d e e0, find dst k = Some d /\ find src k = Some e /\ find src0 k = Some e0
    /\ is_merge k (find dst0 k) e0 d /\ good k d /\ reverts k (find dst0 k) d e e0.

(** The source element after the revert. *)
Definition put_back (src : C) (k : K) : Prop :=
  exists e e0, find src k = Some e /\ find src0 k = Some e0 /\ good k e
    /\ alike k (find dst0 k) e e0.

(** The two containers once the merge is undone. *)
Definition restores (dst src : C) : Prop :=
  ok dst /\ (forall k, same_element (find dst k) (find dst0 k)) /\ same_shape src0 src
  /\ forall k e, find src k = Some e -> put_back src k.

Lemma ready_ext dst src dst' src' k :
  find dst' k = find dst k -> find src' k = find src k -> ready dst src k -> ready dst' src' k.
Proof. unfold ready. by intros -> ->. Qed.

Lemma revert_keys_spec keys : forall dst src,
  NoDup keys -> ok dst -> (forall k, k ∈ keys -> ready dst src k) ->
  exists dst' src', revert_keys find put undo keys dst src = Some (dst', src') /\ ok dst' /\ same_shape src src'
    /\ forall k, if decide (k ∈ keys) then same_element (find dst' k) (find dst0 k) /\ put_back src' k
                 else find dst' k = find dst k /\ find src' k = find src k.
Proof.
  induction keys as [|k keys IH]; intros dst src Hnd Hok Hready; simpl.
  - exists dst, src. split; [done|]. split; [done|]. split; [apply shape_refl|]. intros k.
    destruct (decide (k ∈ [])) as [?%elem_of_nil|]; done.
  - apply NoDup_cons in Hnd as [Hk Hnd].
    destruct (Hready k ltac:(apply elem_of_cons; by left)) as (d & e & e0 & Ed & Ee & Ee0 & _ & _ & Hrev).
    destruct (Hrev dst Hok Ed) as (r3 & e'' & E' & (Hok3 & Hs3 & Hf3) & Hg & Hm). rewrite Ee. simpl. rewrite E'. simpl.
    destruct (IH r3 (put k e'' src)) as (dst' & src' & E2 & Hok' & Hsh & Hcells); [done|done| |].
    { intros i Hi. apply (ready_ext dst src); [| |apply Hready, elem_of_cons; by right].
      - apply Hf3. by intros ->.
      - rewrite (put_find _ _ _ _ _ Ee). destruct (decide (i = k)); [by subst|done]. }
    exists dst', src'. split; [done|]. split; [done|]. split.
    { eapply shape_trans; [|exact Hsh]. by eapply put_shape. }
    intros i. specialize (Hcells i). destruct (decide (i ∈ keys)) as [Hi|Hi].
    + destruct (decide (i ∈ k :: keys)) as [|[]]; [done|]. apply elem_of_cons. by right.
    + rewrite (put_find _ _ _ _ _ Ee) in Hcells. destruct (decide (i = k)) as [->|Hne].
      * destruct (decide (k ∈ k :: keys)) as [_|[]]; [|apply elem_of_cons; by left].
        destruct Hcells as [-> Hc]. split; [done|]. by exists e'', e0.
      * rewrite Hf3 in Hcells by done. destruct (decide (i ∈ k :: keys)) as [[?|?]%elem_of_cons|_]; done.
Qed.

(** After the revert of all visited elements the containers are restored. *)
Lemma revert_visited visited dst src :
  ok dst -> same_shape src0 src -> NoDup visited ->
  (forall k, if decide (k ∈ visited) then ready dst src k
     else same_element (find dst k) (find dst0 k) /\ forall e, find src k = Some e -> put_back src k) ->
  exists dst' src', revert_keys find put undo visited dst src = Some (dst', src') /\ restores dst' src'.
Proof.
  intros Hok Hsh Hnd Hst. destruct (revert_keys_spec visited dst src) as (dst' & src' & E' & Hok' & Hsh' & Hc); [done|done| |].
  { intros k Hk. specialize (Hst k). by destruct (decide (k ∈ visited)). }
  exists dst', src'. split; [done|]. split; [done|].
  assert (forall k, same_element (find dst' k) (find dst0 k) /\ forall e, find src' k = Some e -> put_back src' k) as Hall.
  { intros k. specialize (Hc k). specialize (Hst k). destruct (decide (k ∈ visited)); [by destruct Hc|].
    destruct Hc as [-> Ec], Hst as [Ed Es]. split; [done|]. intros e Ee. rewrite Ec in Ee.
    destruct (Es e Ee) as (e1 & e0 & E1 & Hrest). exists e1, e0. by rewrite Ec. }
  split; [intros k; apply Hall|]. split; [by eapply shape_trans|]. intros k e. apply Hall.
Qed.

(** What the loop has done so far. *)
Definition loop_state (visited : list K) (dst src : C) : Prop :=
  ok dst /\ same_shape src0 src /\ NoDup visited /\
  forall k, if decide (k ∈ visited) then ready dst src k
            else find dst k = find dst0 k /\ find src k = find src0 k.

Lemma loop_state_perm visited visited' dst src :
  visited ≡ₚ visited' -> loop_state visited dst src -> loop_state visited' dst src.
Proof.
  intros Hp (? & ? & Hnd & Hst). split; [done|]. split; [done|]. split; [by rewrite <- Hp|]. intros k. specialize (Hst k).
  destruct (decide (k ∈ visited)) as [H1|H1], (decide (k ∈ visited')) as [H2|H2]; try done; rewrite Hp in H1; done.
Qed.

Lemma loop_state_revert visited dst src :
  loop_state visited dst src ->
  exists dst' src', revert_keys find put undo visited dst src = Some (dst', src') /\ restores dst' src'.
Proof.
  intros (Hok & Hsh & Hnd & Hst). apply revert_visited; try done. intros k. specialize (Hst k).
  destruct (decide (k ∈ visited)); [done|]. destruct Hst as [-> Es]. split; [apply same_element_refl|]. intros e Ee. exists e, e.
  rewrite Es in Ee. rewrite Es. split; [done|]. split; [done|]. split; [by apply src_good|apply alike_refl].
Qed.

(** The state after one more element. *)
Lemma loop_step visited dst src k e0 dst' e' d :
  loop_state visited dst src -> k ∉ visited -> find src0 k = Some e0 -> find dst k = find dst0 k ->
  updates dst k (Some d) dst' -> is_merge k (find dst0 k) e0 d -> good k d -> reverts k (find dst0 k) d e' e0 ->
  loop_state (k :: visited) dst' (put k e' src).
Proof.
  intros (Hok & Hsh & Hnd & Hst) Hk E0 Ed [Hok' Hf] Em Hg Hrev.
  assert (exists es, find src k = Some es) as [es Es].
  { apply (find_shape _ _ k Hsh). by eexists. }
  split; [done|]. split; [eapply shape_trans; [done|by eapply put_shape]|]. split; [by constructor|].
  intros i. specialize (Hst i). pose proof (put_find k e' src i es Es) as Hp. specialize (Hf i).
  destruct (decide (i = k)) as [->|Hne].
  - destruct (decide (k ∈ k :: visited)) as [_|[]]; [|apply elem_of_cons; by left]. exists d, e', e0. by split_and!.
  - destruct (decide (i ∈ k :: visited)) as [[?|Hi]%elem_of_cons|Hi]; [done| |].
    + destruct (decide (i ∈ visited)); [|done]. by eapply ready_ext; [..|exact Hst].
    + rewrite elem_of_cons in Hi. destruct (decide (i ∈ visited)); [tauto|]. by rewrite Hf, Hp.
Qed.

Section apply.
Variables (step : K -> C -> E -> step_outcome C E) (faulty : K -> Prop).
(** One step on a destination whose element of [k] is as at the start. *)
Hypothesis step_ok : forall k dst e, ok dst -> find dst k = find dst0 k -> good k e -> step_law (faulty k) k dst e (step k dst e).

(** After an exception the elements merged before are reverted. *)
Lemma throw_restores visited dst src k e0 dst' e' :
  loop_state visited dst src -> k ∉ visited -> find src0 k = Some e0 ->
  puts_back dst k (find dst0 k) dst' -> good k e' -> alike k (find dst0 k) e' e0 ->
  exists dst2 src2, revert_keys find put undo (order visited) dst' (put k e' src) = Some (dst2, src2) /\ restores dst2 src2.
Proof.
  intros (Hok & Hsh & Hnd & Hst) Hk E0 (Hok' & Hsame & Hfind) Hg Hm. pose proof (Hst k) as Hsk.
  destruct (decide (k ∈ visited)); [done|]. destruct Hsk as [_ Es]. rewrite E0 in Es.
  apply revert_visited; [done|eapply shape_trans; [done|by eapply put_shape]|by rewrite order_perm|].
  intros i. specialize (Hst i). pose proof (put_find k e' src i e0 Es) as Hp.
  destruct (decide (i ∈ order visited)) as [Hi|Hi]; rewrite order_perm in Hi.
  - destruct (decide (i ∈ visited)); [|done]. eapply ready_ext; [..|exact Hst]; [apply Hfind; by intros ->|].
    rewrite Hp. destruct (decide (i = k)); [by subst|done].
  - destruct (decide (i ∈ visited)); [done|]. destruct Hst as [Ed' Es2]. unfold put_back. rewrite Hp.
    destruct (decide (i = k)) as [->|Hne]; [split; [done|]; intros _ _; by exists e', e0|].
    rewrite Hfind, Ed' by done. split; [apply same_element_refl|]. intros e Ee. exists e, e. rewrite Es2 in Ee. rewrite Es2.
    split; [done|]. split; [done|]. split; [by apply src_good|apply alike_refl].
Qed.

Lemma apply_keys_spec keys : forall visited dst src,
  NoDup (keys ++ visited) -> (forall k, k ∈ keys -> is_Some (find src0 k)) ->
  loop_state visited dst src ->
  match apply_keys find put step undo order keys visited dst src with
  | Merged dst' src' => loop_state (reverse keys ++ visited) dst' src'
  | Threw dst' src' => (exists k, faulty k) /\ restores dst' src'
  | Stuck => False
  end.
Proof.
  induction keys as [|k keys IH]; intros visited dst src Hnd Hkeys Hst; [done|].
  pose proof Hst as (Hok & Hsh & Hnv & Hcells). pose proof (Hcells k) as Hk.
  simpl in Hnd. apply NoDup_cons in Hnd as [Hni Hnd]. rewrite elem_of_app in Hni.
  destruct (decide (k ∈ visited)) as [?|Hnv']; [tauto|]. destruct Hk as [Ed Es].
  destruct (Hkeys k ltac:(apply elem_of_cons; by left)) as [e0 E0]. simpl. rewrite Es, E0.
  pose proof (step_ok k dst e0 Hok Ed (src_good k e0 E0)) as Hlaw. unfold step_law in Hlaw. rewrite Ed in Hlaw.
  destruct (step k dst e0) as [dst' e'|dst' e'|]; [| |done].
  - destruct Hlaw as (d & Hup & Hm & Hg & Hrev).
    assert (loop_state (k :: visited) dst' (put k e' src)) as Hst' by by eapply loop_step.
    rewrite reverse_cons, <- app_assoc. simpl. apply IH; [|intros i Hi; apply Hkeys, elem_of_cons; by right|done].
    rewrite <- Permutation_middle. apply NoDup_cons. by rewrite elem_of_app.
  - destruct Hlaw as (Hf & Hput & Hg & Hm).
    destruct (throw_restores visited dst src k e0 dst' e') as (dst2 & src2 & -> & Hres); eauto.
Qed.

(** The whole merge, from the start. *)
Lemma apply_keys_all keys dst :
  NoDup keys -> (forall k, k ∈ keys <-> is_Some (find src0 k)) ->
  ok dst -> (forall k, find dst k = find dst0 k) ->
  match apply_keys find put step undo order keys [] dst src0 with
  | Merged dst' src' =>
      ok dst' /\ same_shape src0 src'
      /\ (forall k, match find src0 k with
                    | Some e0 => exists d, find dst' k = Some d /\ is_merge k (find dst0 k) e0 d /\ good k d
                    | None => find dst' k = find dst0 k
                    end)
      /\ forall keys', keys' ≡ₚ keys ->
           exists dst'' src'', revert_keys find put undo keys' dst' src' = Some (dst'', src'') /\ restores dst'' src''
  | Threw dst' src' => (exists k, faulty k) /\ restores dst' src'
  | Stuck => False
  end.
Proof.
  intros Hnd Hkeys Hok Hf. assert (loop_state [] dst src0) as Hst.
  { split; [done|]. split; [apply shape_refl|]. split; [constructor|]. intros k. destruct (decide (k ∈ [])) as [?%elem_of_nil|]; done. }
  pose proof (apply_keys_spec keys [] dst src0 ltac:(by rewrite app_nil_r) (fun k => proj1 (Hkeys k)) Hst) as H.
  destruct (apply_keys find put step undo order keys [] dst src0) as [dst' src'|dst' src'|]; [|done|done].
  rewrite app_nil_r in H. apply (loop_state_perm _ keys) in H; [|apply reverse_Permutation].
  pose proof H as (Hok' & Hsh & _ & Hcells). split; [done|]. split; [done|]. split.
  - intros k. specialize (Hcells k). destruct (decide (k ∈ keys)) as [Hk|Hk].
    + destruct Hcells as (d & e & e0 & Ed & _ & -> & Hv & Hg & _). by exists d.
    + destruct (find src0 k) eqn:E0; [|by destruct Hcells]. destruct Hk. apply Hkeys. by rewrite E0.
  - intros keys' Hp. apply loop_state_revert. by eapply loop_state_perm.
Qed.
End apply.
End loop.
End laws.
