(* ===== verification/Row.v ===== *)
(** * Rows of a mutation partition (mutation_partition.cc, atomic_cell_or_collection.hh)

    A row maps the ids of its columns to cells. It has two representations: a
    vector with a set of the ids that are present, for ids below 32, and a tree.
    [row::apply_reversibly] merges a row into another one such that an exception
    in the middle, or a later [row::revert], restores it. PORT adds to a cell the
    number of the most recent version of the partition, which the merge sets when
    the new cell wins.

    An allocation that fails throws; [fault] says which one, per cell. The
    comparison of the keys of a collection belongs to its type and is a parameter,
    as are the fragmentation of a counter cell and the size [internal_count] of
    the vector inside a row. *)

From stdpp Require Import gmap.
From S2P Require Import Prelude Mergeable Keyed Cell Counters.
Open Scope Z_scope.

(** ** Cell objects *)

Inductive content :=
| Atomic (c : atomic_cell)
| Counter (c : counter_cell)
| Collection (c : collection).

(** [atomic_cell_or_collection]: the data, [None] when it is empty, with the flags
    of the cell; the number of the most recent version. *)
Record cell_obj := Cell {
  data : option content; revert_set : bool; in_place_set : bool; one_piece : bool; most_recent_version : Z }.

Definition empty_cell : cell_obj := Cell None false false true 0.

(** [std::move] from an object: its data go, the number stays. *)
Definition moved (c : cell_obj) : cell_obj := Cell None false false true (most_recent_version c).

Definition set_revert (b : bool) (c : cell_obj) : cell_obj :=
  Cell (data c) b (in_place_set c) (one_piece c) (most_recent_version c).
Definition set_version (v : Z) (c : cell_obj) : cell_obj :=
  Cell (data c) (revert_set c) (in_place_set c) (one_piece c) v.

Definition as_counter (c : cell_obj) : option counter_object :=
  match data c with
  | Some (Counter k) => Some (CObj k (revert_set c) (in_place_set c) (one_piece c) (most_recent_version c))
  | _ => None
  end.
Definition of_counter (k : counter_object) : cell_obj :=
  Cell (Some (Counter (cc k))) (cc_revert k) (in_place_revert k) (contiguous k) (cc_version k).

(** ** Merging cells *)

Inductive column_type := AtomicColumn | CounterColumn | CollectionColumn (less : bytes -> bytes -> bool).

Section merge.
Variable one_fragment : nat -> bool.

(** [apply_reversibly]; [oom]: the allocation of the merged cell fails. *)
Definition apply_cells (def : column_type) (oom : bool) (dst src : cell_obj) (version : Z) : merge_outcome cell_obj :=
  match def with
  | CounterColumn =>
      match as_counter dst, as_counter src with
      | Some d, Some s =>
          match counter_apply_reversibly one_fragment oom d s with
          | CApplied did_apply d s => Merged (of_counter d) (set_revert did_apply (of_counter s))
          | CThrew d s => Threw (of_counter d) (of_counter s)
          | CAborted => Stuck
          end
      | _, _ => Stuck
      end
  | AtomicColumn =>
      match data dst, data src with
      | Some (Atomic d), Some (Atomic s) =>
          if compare_atomic_cell_for_merge d s <? 0 then Merged (set_version version src) (set_revert true dst)
          else Merged dst (set_revert false src)
      | _, _ => Stuck
      end
  | CollectionColumn less =>
      match data dst, data src with
      | Some (Collection d), Some (Collection s) =>
          if oom then Threw dst src
          else Merged (Cell (Some (Collection (collection_merge less d s))) false false true 0) dst
      | _, _ => Stuck
      end
  end.

(** [revert]; [None]: an assertion of the counters fails. *)
Definition revert_cells (def : column_type) (dst src : cell_obj) : option (cell_obj * cell_obj) :=
  match def with
  | CollectionColumn _ => Some (src, dst)
  | AtomicColumn => if revert_set src then Some (set_revert false src, dst) else Some (dst, src)
  | CounterColumn =>
      if revert_set src then
        match as_counter dst, as_counter (set_revert false src) with
        | Some d, Some s => '(d, s) ← counter_revert_apply one_fragment d s; Some (of_counter d, of_counter s)
        | _, _ => None
        end
      else Some (dst, src)
  end.

(** ** Rows *)

Definition max_vector_size : nat := 32.

Inductive storage :=
| Vec (present : gset nat) (v : list cell_obj)
| Tree (m : gmap nat cell_obj).

Record row := Row { store : storage; row_size : Z }.

Definition empty_row : row := Row (Vec ∅ []) 0.

Definition find_cell (r : row) (id : nat) : option cell_obj :=
  match store r with
  | Vec present v => if bool_decide (id < length v)%nat && bool_decide (id ∈ present) then v !! id else None
  | Tree m => m !! id
  end.

(** [vector_to_set]: the present cells move to a tree. *)
Definition vector_to_set (present : gset nat) (v : list cell_obj) : gmap nat cell_obj :=
  filter (fun p => p.1 ∈ present) (map_seq 0 v : gmap nat cell_obj).

(** Which allocation fails while a cell is merged. *)
Inductive fault := NoFault | FailResize | FailEmplace | FailToSet | FailEntry | FailMerge.

#[export] Instance fault_eq_dec : EqDecision fault.
Proof. solve_decision. Defined.

(** What the merge of a cell does: the row and the cell after it. *)
Abbreviation cell_step := (step_outcome row cell_obj).

(** [resize(id)] on a vector that is not longer. *)
Definition resize (id : nat) (v : list cell_obj) : list cell_obj := v ++ replicate (id - length v) empty_cell.

Definition after_merge (o : merge_outcome cell_obj) (put : cell_obj -> row) : cell_step :=
  match o with
  | Merged d s => StepMerged (put d) s
  | Threw d s => StepThrew (put d) s
  | Stuck => StepStuck
  end.

(** The merge of a cell into a tree, which does not pass the version on. *)
Definition apply_tree (f : fault) (def : column_type) (id : nat) (m : gmap nat cell_obj) (n : Z) (value : cell_obj) : cell_step :=
  match m !! id with
  | None =>
      if bool_decide (f = FailEntry) then StepThrew (Row (Tree m) n) value
      else StepMerged (Row (Tree (<[id := value]> m)) (n + 1)) empty_cell
  | Some c => after_merge (apply_cells def (bool_decide (f = FailMerge)) c value 0) (fun d => Row (Tree (<[id := d]> m)) n)
  end.

(** [row::apply_reversibly] of one cell. *)
Definition apply_cell (f : fault) (def : column_type) (id : nat) (r : row) (value : cell_obj) (version : Z) : cell_step :=
  match store r with
  | Vec present v =>
      if bool_decide (id < max_vector_size)%nat then
        match v !! id with
        | None =>
            if bool_decide (f = FailResize) then StepThrew r value
            else if bool_decide (f = FailEmplace) then StepThrew (Row (Vec present (resize id v)) (row_size r)) value
            else StepMerged (Row (Vec ({[id]} ∪ present) (resize id v ++ [value])) (row_size r + 1)) (moved value)
        | Some c =>
            match data c with
            | None => StepMerged (Row (Vec ({[id]} ∪ present) (<[id := value]> v)) (row_size r + 1)) (moved value)
            | Some _ =>
                after_merge (apply_cells def (bool_decide (f = FailMerge)) c value version)
                  (fun d => Row (Vec present (<[id := d]> v)) (row_size r))
            end
        end
      else if bool_decide (f = FailToSet) then StepThrew r value
      else apply_tree f def id (vector_to_set present v) (row_size r) value
  | Tree m => apply_tree f def id m (row_size r) value
  end.

(** [row::revert] of one cell; [None] if the row has no such cell. *)
Definition revert_cell (def : column_type) (id : nat) (r : row) (src : cell_obj) : option (row * cell_obj) :=
  match store r with
  | Vec present v =>
      dst ← v !! id;
      match data src with
      | None => Some (Row (Vec (present ∖ {[id]}) (<[id := src]> v)) (row_size r - 1), dst)
      | Some _ =>
          '(dst, src) ← revert_cells def dst src;
          Some (Row (Vec present (<[id := dst]> v)) (row_size r), src)
      end
  | Tree m =>
      dst ← m !! id;
      match data src with
      | None => Some (Row (Tree (delete id m)) (row_size r - 1), dst)
      | Some _ =>
          '(dst, src) ← revert_cells def dst src;
          Some (Row (Tree (<[id := dst]> m)) (row_size r), src)
      end
  end.

(** ** Whole rows *)

Variable internal_count : nat.

(** The ids of a row, in the order of [for_each_cell]. *)
Definition row_ids (r : row) : list nat :=
  match store r with
  | Vec present v => filter (fun i => i ∈ present) (seq 0 (length v))
  | Tree m => merge_sort le (elements (dom m))
  end.

(** The cell that [for_each_cell] passes by reference is written back. *)
Definition put_cell (id : nat) (c : cell_obj) (r : row) : row :=
  match store r with
  | Vec present v => Row (Vec present (<[id := c]> v)) (row_size r)
  | Tree m => Row (Tree (<[id := c]> m)) (row_size r)
  end.

(** [row::reserve]; [None]: the conversion to a tree fails. *)
Definition reserve (oom : bool) (last_column : nat) (r : row) : option row :=
  match store r with
  | Vec present v =>
      if bool_decide (internal_count <= last_column)%nat then
        if oom then None
        else if bool_decide (max_vector_size <= last_column)%nat then Some (Row (Tree (vector_to_set present v)) (row_size r))
        else Some r
      else Some r
  | Tree _ => Some r
  end.

(** The greatest id that [other] may have. *)
Definition last_id (r : row) : nat :=
  match store r with
  | Vec _ v => length v - 1
  | Tree _ => default O (last (row_ids r))
  end.

Record row_fault := RowFault { fail_reserve : bool; fail_cell : nat -> fault }.

Section whole.
Variable defs : nat -> column_type.

(** [for_each_cell] with its rollback, which goes back from the latest cell. *)
Definition apply_each (f : nat -> fault) (version : Z) : list nat -> row -> row -> merge_outcome row :=
  fun ids => apply_keys find_cell put_cell
    (fun id dst c => apply_cell (f id) (defs id) id dst c version)
    (fun id dst c => revert_cell (defs id) id dst c) (fun visited => visited) ids [].

(** [row::apply_reversibly] and [row::revert] of a row. *)
Definition row_apply_reversibly (version : Z) (f : row_fault) (dst src : row) : merge_outcome row :=
  if row_size src =? 0 then Merged dst src
  else
    match reserve (fail_reserve f) (last_id src) dst with
    | None => Threw dst src
    | Some dst => apply_each (fail_cell f) version (row_ids src) dst src
    end.

Definition row_revert (dst src : row) : option (row * row) :=
  revert_keys find_cell put_cell (fun id dst c => revert_cell (defs id) id dst c) (row_ids src) dst src.
End whole.
End merge.
