(* ===== verification/RowInv.v ===== *)
(** * Rows: the merge cell by cell, and the contract of rows *)

From stdpp Require Import gmap.
From S2P Require Import Prelude Mergeable Keyed Cell Counters Row.
Open Scope Z_scope.

(** ** Cells *)

(** The keys of a collection are strictly and totally ordered. *)
Definition def_ok (def : column_type) : Prop :=
  match def with
  | CollectionColumn less =>
      (forall k, less k k = false) /\ (forall a b c, less a b = true -> less b c = true -> less a c = true)
      /\ (forall a b, less a b = false -> less b a = false -> a = b)
  | _ => True
  end.

Definition content_ok (def : column_type) (c : content) : Prop :=
  match def, c with
  | AtomicColumn, Atomic a => cell_ok a
  | CounterColumn, Counter k => counter_cell_ok k
  | CollectionColumn less, Collection k => collection_ok less k
  | _, _ => False
  end.

(** A cell at rest: its contents fit the column and its revert flags are clear. *)
Definition cell_good (def : column_type) (c : cell_obj) : Prop :=
  (exists x, data c = Some x /\ content_ok def x) /\ revert_set c = false /\ in_place_set c = false.

(** The merged contents, as a function. *)
Definition content_merge (def : column_type) (a b : content) : content :=
  match def, a, b with
  | AtomicColumn, Atomic x, Atomic y => Atomic (greater compare_atomic_cell_for_merge x y)
  | CounterColumn, Counter x, Counter y => Counter (counter_merge x y)
  | CollectionColumn less, Collection x, Collection y => Collection (collection_merge less x y)
  | _, _, _ => a
  end.

Definition data_merge (def : column_type) (a b : option content) : option content :=
  match a, b with Some x, Some y => Some (content_merge def x y) | None, _ => b | _, None => a end.

Lemma content_merge_absorb def a b : def_ok def -> content_ok def a -> content_ok def b ->
  content_merge def a (content_merge def a b) = content_merge def a b.
Proof.
  destruct def as [| |less], a, b; simpl; try done; intros Hdef Ha Hb; f_equal.
  - by apply (greater_absorb (P := cell_ok)).
  - by apply counter_merge_absorb.
  - destruct Hdef as (? & ? & ?). by apply collection_merge_absorb.
Qed.

Lemma content_merge_ok def a b : def_ok def -> content_ok def a -> content_ok def b -> content_ok def (content_merge def a b).
Proof.
  destruct def as [| |less], a, b; simpl; try done; intros Hdef Ha Hb.
  - by apply (greater_ok (P := cell_ok)).
  - by apply counter_merge_ok.
  - destruct Hdef as (? & ? & ?). by apply collection_merge_ok.
Qed.

Lemma content_merge_assoc def a b c : def_ok def -> content_ok def a -> content_ok def b -> content_ok def c ->
  content_merge def (content_merge def a b) c = content_merge def a (content_merge def b c).
Proof.
  destruct def as [| |less], a, b, c; simpl; try done; intros Hdef Ha Hb Hc; f_equal.
  - by apply (greater_assoc (P := cell_ok)).
  - by apply counter_merge_assoc.
  - destruct Hdef as (? & ? & ?). by apply collection_merge_assoc.
Qed.

Lemma data_merge_assoc def a b c : def_ok def ->
  from_option (content_ok def) True a -> from_option (content_ok def) True b -> from_option (content_ok def) True c ->
  data_merge def (data_merge def a b) c = data_merge def a (data_merge def b c).
Proof. destruct a, b, c; simpl; try done. intros. f_equal. by apply content_merge_assoc. Qed.

Section cells.
Variable one_fragment : nat -> bool.

(** What the merge of two cells promises. *)
Definition cells_promise (def : column_type) (oom : bool) (d c : cell_obj) (o : merge_outcome cell_obj) : Prop :=
  match o with
  | Merged d' c' =>
      data d' = data_merge def (data d) (data c) /\ cell_good def d' /\ data c' <> None /\
      exists c'', revert_cells one_fragment def d' c' = Some (d, c'') /\ cell_good def c''
        /\ data_merge def (data d) (data c'') = data_merge def (data d) (data c)
  | Threw d' c' =>
      oom = true /\ d' = d /\ cell_good def c' /\ data_merge def (data d) (data c') = data_merge def (data d) (data c)
  | Stuck => False
  end.

Lemma set_revert_false c : revert_set c = false -> set_revert false c = c.
Proof. destruct c. simpl. by intros ->. Qed.

Lemma atomic_promise oom d c version :
  cell_good AtomicColumn d -> cell_good AtomicColumn c ->
  cells_promise AtomicColumn oom d c (apply_cells one_fragment AtomicColumn oom d c version).
Proof.
  intros Hd Hc. pose proof Hd as ((x & Ex & Hx) & Rd & Id). pose proof Hc as ((y & Ey & Hy) & Rc & Ic).
  destruct x as [x| |], y as [y| |]; try done. unfold apply_cells. rewrite Ex, Ey. simpl in Hx, Hy.
  assert (data_merge AtomicColumn (data d) (data c) =
    Some (Atomic (greater compare_atomic_cell_for_merge x y))) as Em by by rewrite Ex, Ey.
  destruct (Z.ltb_spec (compare_atomic_cell_for_merge x y) 0) as [E|E]; simpl; rewrite Em; unfold greater.
  - rewrite (proj2 (Z.ltb_lt _ _) E). split; [done|]. split; [split; [by exists (Atomic y)|done]|].
    split; [by rewrite Ex|]. exists (set_version version c). split.
    { f_equal. f_equal. by destruct d; simpl in *; subst. }
    split; [split; [by exists (Atomic y)|done]|]. simpl. rewrite Ex, Ey. simpl. unfold greater. by rewrite (proj2 (Z.ltb_lt _ _) E).
  - rewrite (proj2 (Z.ltb_ge _ _) E). split; [done|]. split; [done|]. split; [by rewrite Ey|].
    rewrite set_revert_false by done. exists c. split; [done|]. split; [done|]. rewrite Em. unfold greater.
    by rewrite (proj2 (Z.ltb_ge _ _) E).
Qed.

Lemma collection_promise less oom d c version :
  def_ok (CollectionColumn less) -> cell_good (CollectionColumn less) d -> cell_good (CollectionColumn less) c ->
  cells_promise (CollectionColumn less) oom d c (apply_cells one_fragment (CollectionColumn less) oom d c version).
Proof.
  intros Hdef Hd Hc. pose proof Hd as ((x & Ex & Hx) & Rd & Id). pose proof Hc as ((y & Ey & Hy) & Rc & Ic).
  destruct x as [| |x], y as [| |y]; try done. unfold apply_cells. rewrite Ex, Ey.
  pose proof (content_merge_ok (CollectionColumn less) (Collection x) (Collection y) Hdef Hx Hy) as Hm.
  pose proof (content_merge_absorb (CollectionColumn less) (Collection x) (Collection y) Hdef Hx Hy) as Ha.
  destruct oom; simpl; [by split_and!|]. rewrite Ex, Ey. simpl in *.
  split; [done|]. split; [split; [by eexists|done]|]. split; [done|]. eexists. split; [done|].
  split; [split; [by eexists|done]|]. simpl. by rewrite Ha.
Qed.

Lemma as_counter_good c : cell_good CounterColumn c ->
  exists k, as_counter c = Some k /\ counter_ok k /\ of_counter k = c /\ data c = Some (Counter (cc k)).
Proof.
  intros ((x & Ex & Hx) & R & I). destruct x as [|k|]; try done. unfold as_counter. rewrite Ex. eexists. split; [done|].
  unfold counter_ok, of_counter. simpl. split; [done|]. split; [|done]. destruct c. simpl in *. by subst.
Qed.

Lemma of_counter_good k : counter_ok k -> cell_good CounterColumn (of_counter k).
Proof. intros (H & ? & ?). split; [by eexists|done]. Qed.

Lemma counter_promise_cells oom d c version :
  cell_good CounterColumn d -> cell_good CounterColumn c ->
  cells_promise CounterColumn oom d c (apply_cells one_fragment CounterColumn oom d c version).
Proof.
  intros Hd Hc. destruct (as_counter_good d Hd) as (kd & Ed & Okd & Odd & Dd).
  destruct (as_counter_good c Hc) as (kc & Ec & Okc & Occ & Dc). simpl. rewrite Ed, Ec.
  pose proof (counter_law one_fragment oom kd kc Okd Okc) as H.
  destruct (counter_apply_reversibly one_fragment oom kd kc) as [did k k'|k k'|]; simpl in H; [destruct did| |done].
  - destruct H as (Em & Ok & Rk & k'' & Hrev & Ok'' & Ea). simpl. rewrite Dd, Dc. simpl.
    split; [by rewrite Em|]. split; [by apply of_counter_good|]. split; [done|].
    exists (of_counter k''). unfold as_counter. simpl.
    assert (CObj (cc k) (cc_revert k) (in_place_revert k) (contiguous k) (cc_version k) = k) as -> by by destruct k.
    assert (CObj (cc k') false (in_place_revert k') (contiguous k') (cc_version k') = k') as -> by (destruct k'; simpl in *; by subst).
    rewrite Hrev. simpl. rewrite Odd. split; [done|]. split; [by apply of_counter_good|]. by rewrite Ea.
  - destruct H as (-> & -> & Em). simpl. rewrite Dd, Dc, Odd, Occ. simpl. rewrite Em. split; [done|]. split; [done|].
    pose proof Hc as (_ & Rc & _). rewrite set_revert_false by done. split; [done|].
    exists c. rewrite Dc. split; [done|]. split; [done|]. simpl. by rewrite Em.
  - destruct H as (-> & -> & Ok' & Ea). simpl. rewrite Dd, Dc, Odd. simpl. rewrite Ea.
    split; [done|]. split; [done|]. split; [by apply of_counter_good|done].
Qed.

Lemma cells_law def oom d c version :
  def_ok def -> cell_good def d -> cell_good def c ->
  cells_promise def oom d c (apply_cells one_fragment def oom d c version).
Proof.
  destruct def; [intros _; apply atomic_promise|intros _; apply counter_promise_cells|apply collection_promise].
Qed.
End cells.

(** ** Rows *)

(** The ids that are present are those of the cells that are not empty. *)
Definition row_ok (r : row) : Prop :=
  match store r with
  | Vec present v =>
      (length v <= max_vector_size)%nat /\ (forall i, i ∈ present <-> exists c, v !! i = Some c /\ data c <> None)
      /\ row_size r = Z.of_nat (size present)
  | Tree m => (forall i c, m !! i = Some c -> data c <> None) /\ row_size r = Z.of_nat (size m)
  end.

(** A row with one cell replaced. *)
Abbreviation updated := (updates find_cell row_ok).

Lemma find_vec present v n i : row_ok (Row (Vec present v) n) ->
  find_cell (Row (Vec present v) n) i = (c ← v !! i; if decide (i ∈ present) then Some c else None).
Proof.
  intros (_ & _ & _). unfold find_cell. simpl. destruct (v !! i) as [c|] eqn:E; simpl.
  - apply lookup_lt_Some in E. rewrite bool_decide_eq_true_2 by done. simpl.
    destruct (decide (i ∈ present)); [rewrite bool_decide_eq_true_2|rewrite bool_decide_eq_false_2]; done.
  - apply lookup_ge_None in E. by rewrite bool_decide_eq_false_2 by lia.
Qed.

Lemma find_nonempty r i c : row_ok r -> find_cell r i = Some c -> data c <> None.
Proof.
  destruct r as [[present v|m] n]; intros H.
  - rewrite find_vec by done. destruct H as (_ & H & _). simpl in H. intros (c' & E & Hc)%bind_Some.
    case_decide as Hp; [|done]. injection Hc as <-. apply H in Hp as (c'' & E' & ?). congruence.
  - destruct H as [H _]. apply H.
Qed.

(** Replacing a cell that is present. *)
Lemma vec_replace present v n id c d : row_ok (Row (Vec present v) n) -> v !! id = Some c -> data c <> None -> data d <> None ->
  updated (Row (Vec present v) n) id (Some d) (Row (Vec present (<[id := d]> v)) n).
Proof.
  intros (Hl & H & Hs) E Hc Hd. simpl in *. pose proof (lookup_lt_Some _ _ _ E) as Hlt.
  assert (row_ok (Row (Vec present (<[id := d]> v)) n)) as Hok.
  { split_and!; simpl; [by rewrite length_insert| |done]. intros i. rewrite H. destruct (decide (i = id)) as [->|].
    - rewrite E, list_lookup_insert_eq by done. naive_solver.
    - by rewrite list_lookup_insert_ne. }
  split; [done|]. intros i. rewrite !find_vec; [|done..]. destruct (decide (i = id)); [subst|by rewrite list_lookup_insert_ne].
  rewrite list_lookup_insert_eq by done. simpl. rewrite decide_True; [done|]. apply H. eauto.
Qed.

Lemma tree_replace m n id c d : row_ok (Row (Tree m) n) -> m !! id = Some c -> data d <> None ->
  updated (Row (Tree m) n) id (Some d) (Row (Tree (<[id := d]> m)) n).
Proof.
  intros [H Hs] E Hd. simpl in *. split.
  - split; simpl; [|by rewrite map_size_insert_Some by eauto].
    intros i c' [[<- <-]|[_ ?]]%lookup_insert_Some; eauto.
  - intros i. simpl. unfold find_cell. simpl. case_decide; [subst; apply lookup_insert_eq|by rewrite lookup_insert_ne].
Qed.

(** Adding a cell. *)
Lemma vec_add present v v' n id c : row_ok (Row (Vec present v) n) -> id ∉ present ->
  (length v' <= max_vector_size)%nat -> v' !! id = Some c -> data c <> None ->
  (forall i, i <> id -> v' !! i = v !! i \/ (v !! i = None /\ exists e, v' !! i = Some e /\ data e = None)) ->
  updated (Row (Vec present v) n) id (Some c) (Row (Vec ({[id]} ∪ present) v') (n + 1)).
Proof.
  intros (Hl & H & Hs) Hid Hl' E Hc Hv. simpl in *.
  assert (row_ok (Row (Vec ({[id]} ∪ present) v') (n + 1))) as Hok.
  { split_and!; simpl; [done| |].
    - intros i. rewrite elem_of_union, elem_of_singleton, H. destruct (decide (i = id)) as [->|Hne]; [naive_solver|].
      destruct (Hv i Hne) as [->|(-> & e & -> & ?)]; naive_solver.
    - rewrite size_union by set_solver. rewrite size_singleton. lia. }
  split; [done|]. intros i. rewrite !find_vec; [|done..]. destruct (decide (i = id)) as [->|Hi].
  - rewrite E. simpl. rewrite decide_True; [done|set_solver].
  - destruct (Hv i Hi) as [->|(Ev & e & -> & He)]; simpl.
    + destruct (v !! i); [|done]. simpl. destruct (decide (i ∈ {[id]} ∪ present)), (decide (i ∈ present)); try done; set_solver.
    + rewrite Ev, decide_False; [done|]. intros [?%elem_of_singleton|Hp]%elem_of_union; [done|].
      apply H in Hp as (c' & Ec & _). congruence.
Qed.

Lemma tree_add m n id c : row_ok (Row (Tree m) n) -> m !! id = None -> data c <> None ->
  updated (Row (Tree m) n) id (Some c) (Row (Tree (<[id := c]> m)) (n + 1)).
Proof.
  intros [H Hs] E Hc. simpl in *. split.
  - split; simpl; [|rewrite map_size_insert_None by done; lia].
    intros i c' [[<- <-]|[_ ?]]%lookup_insert_Some; eauto.
  - intros i. unfold find_cell. simpl. destruct (decide (i = id)); [subst; apply lookup_insert_eq|by rewrite lookup_insert_ne].
Qed.

(** Removing a cell. *)
Lemma vec_remove present v n id c e : row_ok (Row (Vec present v) n) -> v !! id = Some c -> data c <> None -> data e = None ->
  updated (Row (Vec present v) n) id None (Row (Vec (present ∖ {[id]}) (<[id := e]> v)) (n - 1)).
Proof.
  intros (Hl & H & Hs) E Hc He. simpl in *. pose proof (lookup_lt_Some _ _ _ E) as Hlt.
  assert (id ∈ present) as Hid by (apply H; eauto).
  assert (row_ok (Row (Vec (present ∖ {[id]}) (<[id := e]> v)) (n - 1))) as Hok.
  { split_and!; simpl; [by rewrite length_insert| |].
    - intros i. rewrite elem_of_difference, elem_of_singleton, H. destruct (decide (i = id)) as [->|].
      + rewrite list_lookup_insert_eq by done. naive_solver.
      + rewrite list_lookup_insert_ne by done. naive_solver.
    - rewrite size_difference by set_solver. rewrite size_singleton.
      assert (size present <> 0%nat); [|lia]. apply size_non_empty_iff. set_solver. }
  split; [done|]. intros i. rewrite !find_vec; [|done..]. destruct (decide (i = id)) as [->|].
  - rewrite list_lookup_insert_eq by done. simpl. rewrite decide_False; [done|set_solver].
  - rewrite list_lookup_insert_ne by done. destruct (v !! i); [|done]. simpl.
    destruct (decide (i ∈ present ∖ {[id]})), (decide (i ∈ present)); try done; set_solver.
Qed.

Lemma tree_remove m n id c : row_ok (Row (Tree m) n) -> m !! id = Some c ->
  updated (Row (Tree m) n) id None (Row (Tree (delete id m)) (n - 1)).
Proof.
  intros [H Hs] E. simpl in *. split.
  - split; simpl; [|rewrite map_size_delete_Some by eauto].
    + intros i c' [_ ?]%lookup_delete_Some; eauto.
    + assert (size m <> 0%nat); [|lia]. rewrite map_size_ne_0_lookup. eauto.
  - intros i. unfold find_cell. simpl. destruct (decide (i = id)); [subst; apply lookup_delete_eq|by rewrite lookup_delete_ne].
Qed.

(** The conversion to a tree keeps the cells. *)
Lemma vector_to_set_ok present v n : row_ok (Row (Vec present v) n) ->
  row_ok (Row (Tree (vector_to_set present v)) n)
  /\ forall i, find_cell (Row (Tree (vector_to_set present v)) n) i = find_cell (Row (Vec present v) n) i.
Proof.
  intros Hok. pose proof Hok as (Hl & H & Hs). simpl in *.
  assert (forall i, vector_to_set present v !! i = (c ← v !! i; if decide (i ∈ present) then Some c else None)) as Hget.
  { intros i. unfold vector_to_set. rewrite map_lookup_filter, lookup_map_seq_0. destruct (v !! i); [|done]. simpl.
    unfold guard. simpl. by case_decide. }
  split; [|intros i; rewrite find_vec by done; apply Hget].
  split; simpl.
  - intros i c. rewrite Hget. intros (c' & E & Hc)%bind_Some. case_decide as Hp; [|done]. injection Hc as <-.
    apply H in Hp as (c'' & E' & ?). congruence.
  - rewrite Hs. f_equal. rewrite <- size_dom. f_equal. apply set_eq. intros i. rewrite elem_of_dom, Hget. split.
    + intros Hp. pose proof Hp as (c & E & _)%H. exists c. rewrite E. simpl. by rewrite decide_True.
    + intros (c & (c' & E & Hc)%bind_Some). by case_decide.
Qed.

Lemma find_vec_lookup present v n id d : row_ok (Row (Vec present v) n) ->
  find_cell (Row (Vec present v) n) id = Some d -> v !! id = Some d /\ data d <> None /\ id ∈ present.
Proof.
  intros Hok E. pose proof (find_nonempty _ _ _ Hok E). rewrite find_vec in E by done.
  apply bind_Some in E as (c & E & Hc). case_decide; [|done]. by injection Hc as <-.
Qed.

Section step.
Variable one_fragment : nat -> bool.

Lemma revert_cell_remove def id r d c : row_ok r -> find_cell r id = Some d -> data c = None ->
  exists r', revert_cell one_fragment def id r c = Some (r', d) /\ updated r id None r'.
Proof.
  intros Hok E Ec. destruct r as [[present v|m] n]; unfold revert_cell; simpl.
  - apply find_vec_lookup in E as (E & Hd & _); [|done]. rewrite E. simpl. rewrite Ec. eexists. split; [done|].
    by eapply vec_remove.
  - unfold find_cell in E. simpl in E. rewrite E. simpl. rewrite Ec. eexists. split; [done|]. by eapply tree_remove.
Qed.

Lemma revert_cell_back def id r d' c d c'' : row_ok r -> find_cell r id = Some d' -> data c <> None ->
  revert_cells one_fragment def d' c = Some (d, c'') -> data d <> None ->
  exists r', revert_cell one_fragment def id r c = Some (r', c'') /\ updated r id (Some d) r'.
Proof.
  intros Hok E Hc Hrev Hd. destruct r as [[present v|m] n]; unfold revert_cell; simpl.
  - apply find_vec_lookup in E as (E & Hd' & _); [|done]. rewrite E. simpl. destruct (data c); [|done]. rewrite Hrev. simpl.
    eexists. split; [done|]. by eapply vec_replace.
  - unfold find_cell in E. simpl in E. rewrite E. simpl. destruct (data c); [|done]. rewrite Hrev. simpl.
    eexists. split; [done|]. by eapply tree_replace.
Qed.

(** The data to which a cell merges. *)
Definition merged_data (def : column_type) (old : option cell_obj) (c : cell_obj) : option content :=
  data_merge def (old ≫= data) (data c).

(** The cell of the merge: where the row had none it is the cell that came. *)
Definition merge_of (def : column_type) (old : option cell_obj) (c d : cell_obj) : Prop :=
  data d = merged_data def old c /\ (old = None -> d = c).

(** What the merge of one cell promises. *)
Abbreviation step_promise f def id r c s :=
  (step_law find_cell (fun id dst c => revert_cell one_fragment def id dst c) row_ok (fun _ => cell_good def)
     (fun _ => merge_of def) (fun _ old e e' => merged_data def old e = merged_data def old e') eq (f <> NoFault) id r c s).

Lemma step_add f def id r c r' c' : cell_good def c -> find_cell r id = None -> data c' = None ->
  updated r id (Some c) r' -> step_promise f def id r c (StepMerged r' c').
Proof.
  intros Hc E Ec' Hup. unfold step_law, merge_of, merged_data. rewrite E. simpl. exists c. split; [done|]. split; [done|]. split; [done|].
  intros r2 Hok2 E2. destruct (revert_cell_remove def id r2 c c' Hok2 E2 Ec') as (r3 & Hrev & Hup3). exists r3, c.
  split; [done|]. split; [by apply updates_puts_back|done].
Qed.

Lemma step_merge f def id r d c version put : row_ok r ->
  def_ok def -> find_cell r id = Some d -> cell_good def d -> cell_good def c ->
  (forall x, data x <> None -> updated r id (Some x) (put x)) ->
  step_promise f def id r c (after_merge (apply_cells one_fragment def (bool_decide (f = FailMerge)) d c version) put).
Proof.
  intros Hok Hdef E Hd Hc Hput. unfold step_law, merge_of, merged_data. rewrite E. simpl.
  pose proof (cells_law one_fragment def (bool_decide (f = FailMerge)) d c version Hdef Hd Hc) as H.
  assert (data d <> None) as Hdn by (destruct Hd as ((x & -> & _) & _); done).
  destruct (apply_cells one_fragment def (bool_decide (f = FailMerge)) d c version) as [d' c'|d' c'|]; simpl in *; [| |done].
  - destruct H as (Em & Hg & Hc' & c'' & Hrev & Hg'' & Ea). exists d'. split.
    { apply Hput. destruct Hg as ((x & -> & _) & _). done. }
    split; [by split|]. split; [done|]. intros r2 Hok2 E2.
    destruct (revert_cell_back def id r2 d' c' d c'' Hok2 E2 Hc' Hrev Hdn) as (r3 & Hr & Hup). exists r3, c''.
    split; [done|]. split; [by apply updates_puts_back|done].
  - destruct H as (Hf & -> & Hg & Ea). apply bool_decide_eq_true in Hf. split; [by rewrite Hf|]. split; [|done].
    apply updates_puts_back; [done|]. by apply Hput.
Qed.

Lemma updated_ext r r0 id o r' : (forall i, find_cell r i = find_cell r0 i) -> updated r id o r' -> updated r0 id o r'.
Proof. intros H [? Hf]. split; [done|]. intros i. rewrite Hf. by case_decide. Qed.

Lemma step_promise_ext f def id r r0 c s :
  (forall i, find_cell r i = find_cell r0 i) -> step_promise f def id r c s -> step_promise f def id r0 c s.
Proof.
  intros H. unfold step_law, merge_of, merged_data. rewrite (H id). destruct s as [r' c'|r' c'|]; [| |done].
  - intros (d' & Hup & Hrest). exists d'. split; [by eapply updated_ext|done].
  - intros (H1 & (Hok & Hs & Hf) & H3). split; [done|]. split; [|done]. split; [done|]. split; [done|].
    intros i Hi. by rewrite Hf.
Qed.

Lemma apply_tree_law f def id m n c : row_ok (Row (Tree m) n) -> def_ok def -> cell_good def c ->
  (forall d, m !! id = Some d -> cell_good def d) ->
  step_promise f def id (Row (Tree m) n) c (apply_tree one_fragment f def id m n c).
Proof.
  intros Hok Hdef Hc Hd. unfold apply_tree. destruct (m !! id) as [d|] eqn:E.
  - apply step_merge; try done; [by apply Hd|]. intros x Hx. by eapply tree_replace.
  - destruct (bool_decide (f = FailEntry)) eqn:Ef; simpl.
    + apply bool_decide_eq_true in Ef as ->. unfold step_law, merge_of, merged_data. done.
    + apply step_add; try done. apply tree_add; try done. by destruct Hc as ((x & -> & _) & _).
Qed.

Lemma resize_lookup id v i : (length v <= id)%nat ->
  resize id v !! i = if decide (i < length v)%nat then v !! i else if decide (i < id)%nat then Some empty_cell else None.
Proof.
  intros H. unfold resize. destruct (decide (i < length v)%nat); [by rewrite lookup_app_l|].
  rewrite lookup_app_r by lia. destruct (decide (i < id)%nat).
  - apply lookup_replicate_2. lia.
  - apply lookup_ge_None. rewrite length_replicate. lia.
Qed.

Lemma length_resize id v : (length v <= id)%nat -> length (resize id v) = id.
Proof. intros H. unfold resize. rewrite length_app, length_replicate. lia. Qed.

Lemma resize_ok present v n id : row_ok (Row (Vec present v) n) -> (length v <= id < max_vector_size)%nat ->
  row_ok (Row (Vec present (resize id v)) n)
  /\ forall i, find_cell (Row (Vec present (resize id v)) n) i = find_cell (Row (Vec present v) n) i.
Proof.
  intros Hok Hid. pose proof Hok as (Hl & H & Hs). simpl in *.
  assert (forall i, resize id v !! i = v !! i \/ (v !! i = None /\ resize id v !! i = Some empty_cell)) as Hget.
  { intros i. rewrite resize_lookup by lia. destruct (decide (i < length v)%nat); [by left|].
    rewrite (lookup_ge_None_2 v i) by lia. destruct (decide (i < id)%nat); [by right|by left]. }
  assert (row_ok (Row (Vec present (resize id v)) n)) as Hok'.
  { split_and!; simpl; [rewrite length_resize; lia| |done]. intros i. rewrite H.
    destruct (Hget i) as [->|[-> ->]]; [done|]. naive_solver. }
  split; [done|]. intros i. rewrite !find_vec by done. destruct (Hget i) as [->|[E ->]]; [done|]. rewrite E. simpl.
  rewrite decide_False; [done|]. intros (c & Ec & _)%H. congruence.
Qed.

Lemma append_updated present v n id c : row_ok (Row (Vec present v) n) -> (length v <= id < max_vector_size)%nat ->
  data c <> None ->
  updated (Row (Vec present v) n) id (Some c) (Row (Vec ({[id]} ∪ present) (resize id v ++ [c])) (n + 1)).
Proof.
  intros Hok Hid Hc. pose proof Hok as (Hl & H & Hs). simpl in *. apply vec_add; try done.
  - intros (c' & E & _)%H. apply lookup_lt_Some in E. lia.
  - rewrite length_app, length_resize by lia. simpl. lia.
  - rewrite lookup_app_r by (rewrite length_resize; lia). rewrite length_resize by lia. by rewrite Nat.sub_diag.
  - intros i Hi. destruct (decide (i < id)%nat).
    + rewrite lookup_app_l by (rewrite length_resize; lia). rewrite resize_lookup by lia.
      destruct (decide (i < length v)%nat); [by left|]. right. split; [apply lookup_ge_None; lia|].
      exists empty_cell. by rewrite decide_True.
    + left. rewrite !lookup_ge_None_2; [done|lia|]. rewrite length_app, length_resize by lia. simpl. lia.
Qed.

Lemma apply_cell_law f def id r c version : row_ok r -> def_ok def -> cell_good def c ->
  (forall d, find_cell r id = Some d -> cell_good def d) ->
  step_promise f def id r c (apply_cell one_fragment f def id r c version).
Proof.
  intros Hok Hdef Hc Hd. assert (data c <> None) as Hcn by (by destruct Hc as ((x & -> & _) & _)).
  destruct r as [[present v|m] n]; unfold apply_cell; simpl; [|by apply apply_tree_law].
  pose proof Hok as (Hl & H & Hs). simpl in *.
  destruct (decide (id < max_vector_size)%nat) as [Hid|Hid];
    [rewrite bool_decide_eq_true_2 by done|rewrite bool_decide_eq_false_2 by done].
  - destruct (v !! id) as [c0|] eqn:E; [destruct (data c0) as [x|] eqn:Ex|].
    + apply step_merge; try done.
      * rewrite find_vec by done. rewrite E. simpl. rewrite decide_True; [done|]. apply H. exists c0. by rewrite Ex.
      * apply Hd. rewrite find_vec by done. rewrite E. simpl. rewrite decide_True; [done|]. apply H. exists c0. by rewrite Ex.
      * intros y Hy. eapply vec_replace; try done. by rewrite Ex.
    + assert (id ∉ present) as Hp by (intros (c' & E' & ?)%H; congruence). apply step_add; try done.
      * rewrite find_vec by done. rewrite E. simpl. by rewrite decide_False.
      * apply vec_add; try done; [by rewrite length_insert| |].
        -- apply list_lookup_insert_eq. by eapply lookup_lt_Some.
        -- intros i Hi. left. by apply list_lookup_insert_ne.
    + apply lookup_ge_None in E. case_bool_decide as Ef; [subst f; unfold step_law; done|].
      case_bool_decide as Ef'; [subst f|].
      * destruct (resize_ok present v n id Hok ltac:(lia)). unfold step_law, merge_of, merged_data. done.
      * apply step_add; try done; [|apply append_updated; [done|lia|done]].
        rewrite find_vec by done. by rewrite lookup_ge_None_2.
  - case_bool_decide as Ef; [subst f; unfold step_law; done|].
    destruct (vector_to_set_ok present v n Hok) as [Hok' Hfind]. apply (step_promise_ext _ _ _ _ _ _ _ Hfind).
    apply apply_tree_law; try done. intros d E. apply Hd. rewrite <- Hfind. done.
Qed.
End step.

(** ** Whole rows *)

Lemma put_find id c r i c0 : find_cell r id = Some c0 ->
  find_cell (put_cell id c r) i = if decide (i = id) then Some c else find_cell r i.
Proof.
  destruct r as [[present v|m] n]; unfold put_cell, find_cell; simpl.
  - rewrite length_insert. intros E. destruct (bool_decide (id < length v)%nat && bool_decide (id ∈ present)) eqn:Eb; [|done].
    destruct (decide (i = id)) as [->|]; [|by rewrite list_lookup_insert_ne]. rewrite Eb.
    apply andb_true_iff in Eb as [?%bool_decide_eq_true _]. by rewrite list_lookup_insert_eq.
  - intros _. destruct (decide (i = id)) as [->|]; [apply lookup_insert_eq|by rewrite lookup_insert_ne].
Qed.

(** Rows of the same shape: the same ids, and the same cells outside them. *)
Definition same_shape (r r' : row) : Prop :=
  row_size r' = row_size r /\
  match store r, store r' with
  | Vec present v, Vec present' v' =>
      present' = present /\ length v' = length v /\ forall i, i ∉ present -> v' !! i = v !! i
  | Tree m, Tree m' => dom m' = dom m
  | _, _ => False
  end.

Lemma same_shape_refl r : same_shape r r.
Proof. destruct r as [[|] n]; by split_and!. Qed.

Lemma same_shape_trans r1 r2 r3 : same_shape r1 r2 -> same_shape r2 r3 -> same_shape r1 r3.
Proof.
  destruct r1 as [[p1 v1|m1] n1], r2 as [[p2 v2|m2] n2], r3 as [[p3 v3|m3] n3]; unfold same_shape; simpl; try tauto.
  - intros (-> & -> & H1 & H2) (-> & -> & H3 & H4). split_and!; try done; [congruence|].
    intros i Hi. by rewrite H4, H2.
  - intros [-> ->] [-> ->]. done.
Qed.

Lemma put_shape id c r c0 : find_cell r id = Some c0 -> same_shape r (put_cell id c r).
Proof.
  destruct r as [[present v|m] n]; unfold put_cell, find_cell, same_shape; simpl; intros E; split; try done.
  - split; [done|]. split; [apply length_insert|]. intros i Hi. apply list_lookup_insert_ne. intros ->.
    rewrite (bool_decide_eq_false_2 (i ∈ present)) in E by done. by rewrite andb_false_r in E.
  - rewrite dom_insert_L. apply elem_of_dom_2 in E. set_solver.
Qed.

Lemma shape_ids r r' : same_shape r r' -> row_ids r' = row_ids r.
Proof.
  destruct r as [[p1 v1|m1] n1], r' as [[p2 v2|m2] n2]; unfold same_shape, row_ids; simpl; try tauto.
  - by intros (_ & -> & -> & _).
  - by intros [_ ->].
Qed.

Lemma find_shape r r' i : same_shape r r' -> is_Some (find_cell r' i) <-> is_Some (find_cell r i).
Proof.
  destruct r as [[p1 v1|m1] n1], r' as [[p2 v2|m2] n2]; unfold same_shape, find_cell; simpl; try tauto.
  - intros (_ & -> & Hl & _). rewrite Hl. destruct (bool_decide (i < length v1)%nat) eqn:E; simpl; [|done].
    apply bool_decide_eq_true in E. case_bool_decide; [|done].
    split; intros _; apply lookup_lt_is_Some_2; lia.
  - intros [_ H]. by rewrite <- !elem_of_dom, H.
Qed.

Lemma shape_ok r r' : row_ok r -> same_shape r r' -> (forall i c, find_cell r' i = Some c -> data c <> None) -> row_ok r'.
Proof.
  destruct r as [[p1 v1|m1] n1], r' as [[p2 v2|m2] n2]; unfold same_shape, row_ok; simpl; try tauto.
  - intros (Hl & H & Hs) (-> & -> & Hl2 & Hv) Hne. split_and!; [lia| |done]. intros i. destruct (decide (i ∈ p1)) as [Hi|Hi].
    + split; [|done]. intros _. pose proof Hi as (c & E & _)%H. apply lookup_lt_Some in E.
      destruct (lookup_lt_is_Some_2 v2 i ltac:(lia)) as [c' E']. exists c'. split; [done|]. apply (Hne i).
      unfold find_cell. simpl. rewrite !bool_decide_eq_true_2 by (done || lia). done.
    + rewrite (Hv i Hi). apply H.
  - intros [H Hs] [-> Hd] Hne. split; [done|]. rewrite Hs. by rewrite <- !(size_dom (D := gset nat)), Hd.
Qed.

Lemma row_ids_elem r i : i ∈ row_ids r <-> is_Some (find_cell r i).
Proof.
  destruct r as [[p v|m] n]; unfold row_ids, find_cell; simpl.
  - rewrite list_elem_of_filter, elem_of_seq. split.
    + intros [Hp Hi]. rewrite !bool_decide_eq_true_2 by (done || lia). simpl. apply lookup_lt_is_Some_2. lia.
    + intros [c E]. destruct (bool_decide (i < length v)%nat) eqn:E1, (bool_decide (i ∈ p)) eqn:E2; try done.
      apply bool_decide_eq_true in E1, E2. split; [done|lia].
  - rewrite merge_sort_Permutation, elem_of_elements. apply elem_of_dom.
Qed.

Lemma row_ids_NoDup r : NoDup (row_ids r).
Proof.
  destruct r as [[p v|m] n]; unfold row_ids; simpl.
  - apply NoDup_filter, NoDup_seq.
  - rewrite merge_sort_Permutation. apply NoDup_elements.
Qed.

Lemma row_empty_ids r : row_ok r -> row_size r = 0 -> row_ids r = [].
Proof.
  intros Hok Hs. destruct (row_ids r) as [|i l] eqn:E; [done|].
  assert (i ∈ row_ids r) as [c Hc]%row_ids_elem by (rewrite E; apply elem_of_cons; by left).
  destruct r as [[p v|m] n]; destruct Hok as [? Hok]; simpl in *.
  - apply find_vec_lookup in Hc as (_ & _ & Hp); [|done]. destruct Hok as [_ Hn].
    assert (size p = 0%nat) as Hz%size_empty_inv by lia. set_solver.
  - assert (size m = 0%nat) as Hz%map_size_empty_inv by lia. subst m. unfold find_cell in Hc. simpl in Hc. by rewrite lookup_empty in Hc.
Qed.
