(* ===== verification/RowTheorems.v ===== *)
(** * Rows: theorems

    [row::apply_reversibly] is the merge cell by cell, and it keeps the contract
    of reversibly_mergeable.hh under any failing allocation. *)

From stdpp Require Import gmap.
From S2P Require Import Prelude Mergeable Keyed Cell Counters Row RowInv.
Open Scope Z_scope.

Section rows.
Variables (one_fragment : nat -> bool) (internal_count : nat) (defs : nat -> column_type) (version : Z).
Hypothesis Hdefs : forall id, def_ok (defs id).

(** The data of a cell of a row. *)
Definition cell_data (r : row) (id : nat) : option content := find_cell r id ≫= data.

(** A row at rest. *)
Definition row_good (r : row) : Prop := row_ok r /\ forall id c, find_cell r id = Some c -> cell_good (defs id) c.

(** The two rows once the merge is undone. *)
Definition row_restored (dst src dst'' src'' : row) : Prop :=
  row_ok dst'' /\ (forall id, find_cell dst'' id = find_cell dst id) /\ row_good src''
  /\ forall id, data_merge (defs id) (cell_data dst id) (cell_data src'' id) = data_merge (defs id) (cell_data dst id) (cell_data src id).

(** The row part of a restored pair. *)
Lemma restores_row dst src dst' src' : row_good src ->
  restores find_cell row_ok (fun id => cell_good (defs id))
    (fun id old e e' => merged_data (defs id) old e = merged_data (defs id) old e') eq same_shape dst src dst' src' ->
  row_restored dst src dst' src'.
Proof.
  intros Hsrc (Hok & Hf & Hsh & Hp). split; [done|]. split; [done|]. split; [split|].
  - eapply shape_ok; [apply Hsrc|done|]. intros id c Ec.
    destruct (Hp id c Ec) as (c1 & _ & E1 & _ & ((x & Ex & _) & _) & _). congruence.
  - intros id c Ec. destruct (Hp id c Ec) as (c1 & _ & E1 & _ & Hg & _). congruence.
  - intros id. unfold cell_data at 2 4. destruct (find_cell src' id) as [c|] eqn:Ec.
    + destruct (Hp id c Ec) as (c1 & c0 & E1 & E0 & _ & Hm). rewrite E0. rewrite E1 in Ec. by injection Ec as <-.
    + destruct (find_cell src id) eqn:E0; [|done]. exfalso.
      destruct (proj2 (find_shape src src' id Hsh)) as [? ?]; [by rewrite E0|congruence].
Qed.

(** The fault that never happens. *)
Definition no_row_fault : row_fault := RowFault false (fun _ => NoFault).

Lemma reserve_ok oom k r : row_ok r ->
  match reserve internal_count oom k r with
  | Some r' => row_ok r' /\ forall i, find_cell r' i = find_cell r i
  | None => oom = true
  end.
Proof.
  destruct r as [[p v|m] n]; unfold reserve; simpl; [|done]. intros Hok. repeat case_match; simplify_eq; try done. by apply vector_to_set_ok.
Qed.

(** The whole merge. *)
Lemma row_apply_spec f dst src : row_good dst -> row_good src ->
  match row_apply_reversibly one_fragment internal_count defs version f dst src with
  | Merged dst' src' =>
      row_good dst'
      /\ (forall id, cell_data dst' id = data_merge (defs id) (cell_data dst id) (cell_data src id))
      /\ (forall id, find_cell dst id = None -> find_cell dst' id = find_cell src id)
      /\ exists dst'' src'', row_revert one_fragment defs dst' src' = Some (dst'', src'') /\ row_restored dst src dst'' src''
  | Threw dst' src' => f <> no_row_fault /\ row_restored dst src dst' src'
  | Stuck => False
  end.
Proof.
  intros Hdst Hsrc. unfold row_apply_reversibly. destruct (Z.eqb_spec (row_size src) 0) as [Hz|Hz].
  - pose proof (row_empty_ids src (proj1 Hsrc) Hz) as Hids. split; [done|].
    assert (forall id, cell_data src id = None) as Hnone.
    { intros id. unfold cell_data. destruct (find_cell src id) eqn:E; [|done].
      assert (id ∈ row_ids src) as Hin by (apply row_ids_elem; eauto). rewrite Hids in Hin. by apply elem_of_nil in Hin. }
    split.
    { intros id. rewrite Hnone. unfold data_merge. by case_match. }
    split.
    { intros id E. rewrite E. specialize (Hnone id). unfold cell_data in Hnone. destruct (find_cell src id) as [c|] eqn:Ec; [|done].
      destruct (proj2 Hsrc id c Ec) as ((x & Ex & _) & _). simpl in Hnone. congruence. }
    exists dst, src. unfold row_revert. rewrite Hids. split; [done|]. split; [apply Hdst|]. by split_and!.
  - pose proof (reserve_ok (fail_reserve f) (last_id src) dst (proj1 Hdst)) as Hr.
    destruct (reserve internal_count (fail_reserve f) (last_id src) dst) as [dst1|].
    2:{ split; [intros ->; done|]. split; [apply Hdst|]. by split_and!. }
    destruct Hr as [Hok1 Hf1].
    pose proof (apply_keys_all find_cell put_cell (fun id dst c => revert_cell one_fragment (defs id) id dst c)
      (fun visited => visited) row_ok (fun id => cell_good (defs id))
      (fun id => merge_of (defs id)) (fun id old e e' => merged_data (defs id) old e = merged_data (defs id) old e')
      (fun _ _ _ => eq_refl) eq (fun _ => eq_refl) same_shape
      same_shape_refl same_shape_trans put_find put_shape find_shape (fun l => Permutation_refl l) dst src (proj2 Hsrc)
      (fun id dst c => apply_cell one_fragment (fail_cell f id) (defs id) id dst c version) (fun id => fail_cell f id <> NoFault))
      as Hall.
    specialize (Hall ltac:(intros id r c Hok E Hc; apply apply_cell_law; [done..|rewrite E; apply Hdst])).
    specialize (Hall (row_ids src) dst1 (row_ids_NoDup src) (row_ids_elem src) Hok1 Hf1).
    unfold apply_each. destruct (apply_keys _ _ _ _ _ _ _ _ _) as [dst' src'|dst' src'|]; [| |done].
    + destruct Hall as (Hok' & Hsh & Hcells & Hrev). split; [split; [done|]|split; [|split]].
      * intros id d Ed. specialize (Hcells id). destruct (find_cell src id); [|apply Hdst; congruence].
        destruct Hcells as (d' & E' & _ & Hg). congruence.
      * intros id. specialize (Hcells id). unfold cell_data. destruct (find_cell src id) as [c0|].
        -- destruct Hcells as (d & -> & [Hv _] & _). exact Hv.
        -- rewrite Hcells. simpl. by destruct (find_cell dst id ≫= data).
      * intros id E. specialize (Hcells id). destruct (find_cell src id) as [c0|]; [|by rewrite Hcells].
        destruct Hcells as (d & -> & [_ Hv] & _). by rewrite (Hv E).
      * destruct (Hrev (row_ids src')) as (dst'' & src'' & E & Hr); [by rewrite (shape_ids _ _ Hsh)|].
        exists dst'', src''. split; [done|]. by apply restores_row.
    + destruct Hall as [[id Hid] Hr]. split; [by intros ->|]. by apply restores_row.
Qed.

Lemma row_apply_total dst src : row_good dst -> row_good src ->
  exists dst' src', row_apply_reversibly one_fragment internal_count defs version no_row_fault dst src = Merged dst' src'
    /\ forall id, cell_data dst' id = data_merge (defs id) (cell_data dst id) (cell_data src id).
Proof.
  intros Hd Hs. pose proof (row_apply_spec no_row_fault dst src Hd Hs) as H.
  destruct (row_apply_reversibly one_fragment internal_count defs version no_row_fault dst src) as [d s|d s|];
    [|by destruct H|done]. destruct H as (_ & ? & _). eauto.
Qed.

(** Rows keep the contract of reversibly_mergeable.hh. *)
#[export, refine] Instance row_mergeable : ReversiblyMergeable row_fault row := {|
  no_fault := no_row_fault;
  mergeable x y := row_good x /\ row_good y;
  same x y := forall id, find_cell x id = find_cell y id;
  like x y := forall id, cell_data x id = cell_data y id;
  apply_reversibly := row_apply_reversibly one_fragment internal_count defs version;
  revert := row_revert one_fragment defs |}.
Proof.
  - intros x y H id. unfold cell_data. by rewrite H.
  - intros x y [Hx Hy]. destruct (row_apply_total x y Hx Hy) as (d & s & E & _). eauto.
  - intros f x y restored [Hx Hy].
    assert (forall x'' y'', row_restored x y x'' y'' -> restored x'' y'') as Hres.
    { intros x'' y'' (Hok & Hf & Hy'' & Hm).
      assert (row_good x'') as Hx'' by (split; [done|]; intros id c; rewrite Hf; apply Hx).
      destruct (row_apply_total x y Hx Hy) as (d & s & E & Hd). destruct (row_apply_total x'' y'' Hx'' Hy'') as (d' & s' & E' & Hd').
      split; [done|]. split; [done|]. exists d, s, d', s'. split; [done|]. split; [done|]. intros id.
      rewrite Hd, Hd'. unfold cell_data at 1. rewrite Hf. apply Hm. }
    pose proof (row_apply_spec f x y Hx Hy) as H. destruct (row_apply_total x y Hx Hy) as (d & s & E & Hd).
    destruct (row_apply_reversibly one_fragment internal_count defs version f x y) as [x' y'|x' y'|]; [| |done].
    + destruct H as (_ & Hc & _ & x'' & y'' & Hrev & Hr). split; [|eauto]. exists d, s. split; [done|]. intros id. by rewrite Hc, Hd.
    + destruct H as [_ H]. eauto.
Defined.

(** C18. The contract of reversibly_mergeable.hh, for rows at rest whose counter
    cells are shards or deleted ones, the cells a replica stores: the deltas of
    counter updates are left out ([counter_cell_ok]), since counters.cc:203 does
    not restore them ([counter_update_not_reverted]).
    [row::apply_reversibly], whichever of its allocations fails: it ends with
    each column merged by the rule of its type (the newer of two atomic cells, the
    shards of two counters, the elements of two collections), a column the row did
    not have getting the very cell of the source, and [row::revert] then restores the row and leaves a source that merges to the same; or it throws
    and both rows are restored in that sense; no assertion of the counters fails. *)
Theorem row_merge_contract f dst src :
  row_good dst -> row_good src ->
  match row_apply_reversibly one_fragment internal_count defs version f dst src with
  | Merged dst' src' =>
      row_good dst'
      /\ (forall id, cell_data dst' id = data_merge (defs id) (cell_data dst id) (cell_data src id))
      /\ (forall id, find_cell dst id = None -> find_cell dst' id = find_cell src id)
      /\ exists dst'' src'', row_revert one_fragment defs dst' src' = Some (dst'', src'') /\ row_restored dst src dst'' src''
  | Threw dst' src' => f <> no_row_fault /\ row_restored dst src dst' src'
  | Stuck => False
  end.
Proof. apply row_apply_spec. Qed.
End rows.

(** Two columns, an atomic one and a counter. *)
Definition example_defs (id : nat) : column_type := if bool_decide (id = 1)%nat then CounterColumn else AtomicColumn.

Definition example_dst : row :=
  Row (Vec {[0%nat; 1%nat]} [Cell (Some (Atomic (Live 5 [1] None))) false false true 3;
                   Cell (Some (Counter (CShards 5 [Shard 1 10 2]))) false false true 3]) 2.
Definition example_src : row :=
  Row (Vec {[0%nat; 1%nat]} [Cell (Some (Atomic (Live 6 [2] None))) false false true 0;
                   Cell (Some (Counter (CShards 6 [Shard 2 1 1]))) false false true 0]) 2.

(** The merge of the counter needs a new cell, whose allocation fails. *)
Definition example_fault : row_fault := RowFault false (fun id => if bool_decide (id = 1)%nat then FailMerge else NoFault).

Lemma example_defs_ok id : def_ok (example_defs id).
Proof. unfold example_defs. by case_match. Qed.

Lemma example_rows_good : row_good example_defs example_dst /\ row_good example_defs example_src.
Proof.
  split; (split; [split; [simpl; unfold max_vector_size; lia|split; [|reflexivity]]|]).
  all: try (intros [|[|i]] c; simpl; [| |unfold find_cell; simpl; by rewrite andb_false_l || done];
    unfold find_cell; simpl; intros [= <-]; (split; [|done]); eexists; (split; [reflexivity|]); vm_compute; repeat constructor; done).
  all: intros [|[|i]]; simpl; split; [intros _; eexists; split; [reflexivity|done]|set_solver|
    intros _; eexists; split; [reflexivity|done]|set_solver|set_solver|intros (c & E & _); done].
Qed.

Lemma row_merge_contract_witness :
  match row_apply_reversibly (fun _ => true) 4 example_defs 9 example_fault example_dst example_src with
  | Threw dst _ => find_cell dst 0 = Some (Cell (Some (Atomic (Live 5 [1] None))) false false true 3)
  | _ => False
  end.
Proof.
  destruct example_rows_good as [Hd Hs].
  pose proof (row_merge_contract (fun _ => true) 4 example_defs 9 example_defs_ok example_fault example_dst example_src Hd Hs) as H.
  assert (match row_apply_reversibly (fun _ => true) 4 example_defs 9 example_fault example_dst example_src with
          | Threw _ _ => true | _ => false end = true) as E by (vm_compute; reflexivity).
  destruct (row_apply_reversibly (fun _ => true) 4 example_defs 9 example_fault example_dst example_src) as [d s|d s|]; try done.
  destruct H as [_ (_ & Hf & _)]. rewrite (Hf 0%nat). reflexivity.
Defined.

(** The version number that a merged cell carries depends on how the row
    is stored: when a newer cell replaces an older one, the cell in a vector gets
    the number of the most recent version, the cell in a tree gets 0, whatever the
    number is; a cell that is new in the row keeps the number it came with. *)
Theorem cell_version_by_storage one_fragment id version a b n present v m d c :
  compare_atomic_cell_for_merge a b < 0 -> data d = Some (Atomic a) -> data c = Some (Atomic b) ->
  (v !! id = Some d -> (id < max_vector_size)%nat -> id ∈ present -> exists r' c',
     apply_cell one_fragment NoFault AtomicColumn id (Row (Vec present v) n) c version = StepMerged r' c'
     /\ most_recent_version <$> find_cell r' id = Some version)
  /\ (m !! id = Some d -> exists r' c',
     apply_cell one_fragment NoFault AtomicColumn id (Row (Tree m) n) c version = StepMerged r' c'
     /\ most_recent_version <$> find_cell r' id = Some 0)
  /\ (m !! id = None -> exists r' c',
     apply_cell one_fragment NoFault AtomicColumn id (Row (Tree m) n) c version = StepMerged r' c'
     /\ find_cell r' id = Some c).
Proof.
  intros Hlt Ed Ec. split_and!.
  - intros E Hid Hp. unfold apply_cell. simpl. rewrite bool_decide_eq_true_2 by done. rewrite E, Ed. unfold apply_cells. rewrite ?Ed, ?Ec.
    rewrite (proj2 (Z.ltb_lt _ _) Hlt). simpl. eexists _, _. split; [done|]. unfold find_cell. simpl.
    pose proof (lookup_lt_Some _ _ _ E). rewrite length_insert, !bool_decide_eq_true_2 by done. simpl.
    by rewrite list_lookup_insert_eq.
  - intros E. unfold apply_cell. simpl. unfold apply_tree. rewrite E. unfold apply_cells. rewrite ?Ed, ?Ec.
    rewrite (proj2 (Z.ltb_lt _ _) Hlt). simpl. eexists _, _. split; [done|]. unfold find_cell. simpl. by rewrite lookup_insert_eq.
  - intros E. unfold apply_cell. simpl. unfold apply_tree. rewrite E. simpl. eexists _, _. split; [done|].
    unfold find_cell. simpl. by rewrite lookup_insert_eq.
Qed.

Lemma cell_version_by_storage_witness :
  exists r' c', apply_cell (fun _ => true) NoFault AtomicColumn 40
    (Row (Tree {[40%nat := Cell (Some (Atomic (Live 5 [1] None))) false false true 3]}) 1)
    (Cell (Some (Atomic (Live 6 [2] None))) false false true 0) 9 = StepMerged r' c'
  /\ most_recent_version <$> find_cell r' 40 = Some 0.
Proof.
  apply (cell_version_by_storage (fun _ => true) 40 9 (Live 5 [1] None) (Live 6 [2] None) 1 ∅ []
    {[40%nat := Cell (Some (Atomic (Live 5 [1] None))) false false true 3]}
    (Cell (Some (Atomic (Live 5 [1] None))) false false true 3)); reflexivity.
Defined.

(** Two live cells that differ only in how long they live compare equal, so
    the merge keeps the one that is already there: the result depends on the order. *)
Theorem cell_merge_ttl_order t v e l1 l2 :
  l1 <> l2 ->
  compare_atomic_cell_for_merge (Live t v (Some (e, l1))) (Live t v (Some (e, l2))) = 0
  /\ content_merge AtomicColumn (Atomic (Live t v (Some (e, l1)))) (Atomic (Live t v (Some (e, l2)))) <>
     content_merge AtomicColumn (Atomic (Live t v (Some (e, l2)))) (Atomic (Live t v (Some (e, l1)))).
Proof.
  assert (forall l l', compare_atomic_cell_for_merge (Live t v (Some (e, l))) (Live t v (Some (e, l'))) = 0) as E.
  { intros l l'. unfold compare_atomic_cell_for_merge. simpl. rewrite Z.eqb_refl. simpl.
    rewrite (tri_refl (P := fun _ => True)) by done. by rewrite !Z.eqb_refl. }
  intros Hne. split; [apply E|]. simpl. unfold greater. rewrite !E. simpl. congruence.
Qed.

Lemma cell_merge_ttl_order_witness :
  content_merge AtomicColumn (Atomic (Live 1 [7] (Some (100, 50)))) (Atomic (Live 1 [7] (Some (100, 60)))) <>
  content_merge AtomicColumn (Atomic (Live 1 [7] (Some (100, 60)))) (Atomic (Live 1 [7] (Some (100, 50)))).
Proof. apply (cell_merge_ttl_order 1 [7] 100 50 60). discriminate. Defined.
