(* ===== verification/MutationPartition.v ===== *)
(** * Mutation partitions (mutation_partition.cc, mutation_partition.hh)

    A partition has a tombstone, a static row, clustered rows by position and
    range tombstones. [mutation_partition::apply] merges a partition into another
    one: it merges the range tombstones, the static row and the rows reversibly,
    so that an exception in any of them undoes those before it, and then the
    tombstone, which cannot throw.

    The rows are a finite map from positions; the loops visit them in the order of
    the comparison of positions, which belongs to the schema and is a parameter. *)

From stdpp Require Import gmap.
From S2P Require Import Prelude Mergeable Keyed Cell Counters Row RangeTombstones.
Open Scope Z_scope.

(** ** Rows with their marker and tombstone *)

Record deletable_row := DRow { deleted_at : row_tombstone; marker : row_marker; cells : row }.

(** What the schema and the allocator give. *)
Record env := Env {
  one_fragment : nat -> bool; internal_count : nat;
  regular_columns : nat -> column_type; static_columns : nat -> column_type }.

Section rows.
Variables (s : env) (version : Z).

(** [deletable_row::apply_reversibly] and [revert]. *)
Definition dr_apply_reversibly (f : row_fault) (dst src : deletable_row) : merge_outcome deletable_row :=
  match row_apply_reversibly (one_fragment s) (internal_count s) (regular_columns s) version f (cells dst) (cells src) with
  | Merged c c' =>
      let '(m, m') := m_apply_reversibly (marker dst) (marker src) in
      let '(t, t') := rt_apply_reversibly (deleted_at dst) (deleted_at src) m in
      Merged (DRow t m c) (DRow t' m' c')
  | Threw c c' => Threw (DRow (deleted_at dst) (marker dst) c) (DRow (deleted_at src) (marker src) c')
  | Stuck => Stuck
  end.

Definition dr_revert (dst src : deletable_row) : option (deletable_row * deletable_row) :=
  '(c, c') ← row_revert (one_fragment s) (regular_columns s) (cells dst) (cells src);
  let '(t, t') := rt_revert (deleted_at dst) (deleted_at src) in
  let '(m, m') := m_revert (marker dst) (marker src) in
  Some (DRow t m c, DRow t' m' c').

(** ** The set of rows *)

(** [rows_entry] without its key; [erased] stands, during the merge, for an entry
    that the destination did not have. *)
Record rows_entry := Entry { entry_row : deletable_row; continuous_flag : bool; dummy : bool; erased : bool }.

Definition with_row (e : rows_entry) (r : deletable_row) : rows_entry := Entry r (continuous_flag e) (dummy e) (erased e).

Definition empty_deletable_row : deletable_row := DRow no_row_tombstone no_marker empty_row.
Definition erased_entry : rows_entry := Entry empty_deletable_row true false true.

Context {K : Type} `{Countable K}.
Variable key_less : K -> K -> bool.
Abbreviation rows := (gmap K rows_entry).

Definition key_le (a b : K) : Prop := key_less b a = false.
#[local] Instance key_le_dec a b : Decision (key_le a b).
Proof. unfold key_le. apply _. Defined.

(** The rows in the order of their positions. *)
Definition rows_in_order (m : rows) : list K := merge_sort key_le (elements (dom m)).

(** Which allocation fails at an entry: that of the erased entry, or one of its row. *)
Record entry_fault := EntryFault { fail_erased : bool; fail_row : row_fault }.

(** The body of the loop of [apply_reversibly_intrusive_set]. *)
Definition apply_entry (f : entry_fault) (k : K) (dst : rows) (e : rows_entry) : step_outcome rows rows_entry :=
  match dst !! k with
  | None => if fail_erased f then StepThrew dst e else StepMerged (<[k := e]> dst) erased_entry
  | Some d =>
      match dr_apply_reversibly (fail_row f) (entry_row d) (entry_row e) with
      | Merged r r' => StepMerged (<[k := with_row d r]> dst) (with_row e r')
      | Threw r r' => StepThrew (<[k := with_row d r]> dst) (with_row e r')
      | Stuck => StepStuck
      end
  end.

(** The body of the loop of [revert_intrusive_set_range]; [None]: its assertion fails. *)
Definition revert_entry (k : K) (dst : rows) (e : rows_entry) : option (rows * rows_entry) :=
  d ← dst !! k;
  if erased e then Some (delete k dst, d)
  else '(r, r') ← dr_revert (entry_row d) (entry_row e); Some (<[k := with_row d r]> dst, with_row e r').

Definition find_entry (m : rows) (k : K) : option rows_entry := m !! k.
Definition put_entry (k : K) (e : rows_entry) (m : rows) : rows := <[k := e]> m.

(** [apply_reversibly_intrusive_set], which reverts from the first entry on, and
    [revert_intrusive_set]. *)
Definition rows_apply_reversibly (f : K -> entry_fault) (dst src : rows) : merge_outcome rows :=
  apply_keys find_entry put_entry (fun k => apply_entry (f k) k) revert_entry reverse (rows_in_order src) [] dst src.
Definition rows_revert (dst src : rows) : option (rows * rows) :=
  revert_keys find_entry put_entry revert_entry (rows_in_order src) dst src.
End rows.

(** ** Partitions *)

Section partition.
Context {K component : Type} `{Countable K}.
Abbreviation prefix := (list component).

Record mutation_partition := Partition {
  partition_tombstone : tombstone; static_row : row; clustered_rows : gmap K rows_entry;
  row_tombstones : list (range_tombstone component) }.

Record partition_fault := PartitionFault {
  fail_ranges : option nat; fail_static : row_fault; fail_rows : K -> entry_fault }.

Variables (s : env) (key_less : K -> K -> bool) (less : prefix * Z -> prefix * Z -> bool) (prefix_eq : prefix -> prefix -> bool).

(** How [mutation_partition::apply] ends: with both partitions after it. *)
Definition partition_apply (version : Z) (f : partition_fault) (dst p : mutation_partition) : merge_outcome mutation_partition :=
  let undo_ranges ops l (k : list (range_tombstone component) -> merge_outcome mutation_partition) :=
    match undo_all less prefix_eq ops l with Some l => k l | None => Stuck end in
  match apply_ranges less prefix_eq (row_tombstones dst) (row_tombstones p) [] (fail_ranges f) with
  | Failed l ops =>
      undo_ranges ops l (fun l => Threw (Partition (partition_tombstone dst) (static_row dst) (clustered_rows dst) l) p)
  | Edited l ops _ =>
      match row_apply_reversibly (one_fragment s) (internal_count s) (static_columns s) 0 (fail_static f) (static_row dst) (static_row p) with
      | Stuck => Stuck
      | Threw sr sr' =>
          undo_ranges ops l (fun l =>
          Threw (Partition (partition_tombstone dst) sr (clustered_rows dst) l)
                (Partition (partition_tombstone p) sr' (clustered_rows p) (row_tombstones p)))
      | Merged sr sr' =>
          match rows_apply_reversibly s version key_less (fail_rows f) (clustered_rows dst) (clustered_rows p) with
          | Stuck => Stuck
          | Threw cr cr' =>
              match row_revert (one_fragment s) (static_columns s) sr sr' with
              | None => Stuck
              | Some (sr, sr') =>
                  undo_ranges ops l (fun l =>
                  Threw (Partition (partition_tombstone dst) sr cr l)
                        (Partition (partition_tombstone p) sr' cr' (row_tombstones p)))
              end
          | Merged cr cr' =>
              Merged (Partition (tomb_apply (partition_tombstone dst) (partition_tombstone p)) sr cr l)
                     (Partition (partition_tombstone p) sr' cr' (row_tombstones p))
          end
      end
  end.
End partition.
Arguments mutation_partition : clear implicits.
Arguments mutation_partition K component {_ _}.
Arguments partition_fault : clear implicits.
