(* ===== verification/MutationPartitionTheorems.v ===== *)
(** * Mutation partitions: theorems

    Rows with their markers and tombstones, the set of rows and whole partitions
    keep the contract of reversibly_mergeable.hh; [mutation_partition::apply] has
    the strong exception guarantee. *)

From stdpp Require Import gmap.
From S2P Require Import Prelude Mergeable Keyed Cell Counters Row RowInv RowTheorems.
From S2P Require Import RangeTombstones RangeTombstonesInv RangeTombstonesTheorems MutationPartition.
Open Scope Z_scope.

Section rows.
Variables (s : env) (version : Z).
Hypothesis regular_ok : forall id, def_ok (regular_columns s id).
Abbreviation defs := (regular_columns s).

(** ** Rows with their marker and tombstone *)

Definition dr_good (d : deletable_row) : Prop :=
  row_good defs (cells d) /\ marker_ok (marker d) /\ row_tombstone_ok (deleted_at d).

(** [r] is the merge of [e] into [d]. *)
Definition dr_is_merge (d e r : deletable_row) : Prop :=
  (forall id, cell_data (cells r) id = data_merge (defs id) (cell_data (cells d) id) (cell_data (cells e) id))
  /\ marker r = m_apply (marker d) (marker e) /\ deleted_at r = rt_apply (deleted_at d) (deleted_at e) (marker r).

(** [e'] and [e] merge to the same into [d]. *)
Definition dr_alike (d e' e : deletable_row) : Prop :=
  (forall id, data_merge (defs id) (cell_data (cells d) id) (cell_data (cells e') id) =
              data_merge (defs id) (cell_data (cells d) id) (cell_data (cells e) id))
  /\ m_apply (marker d) (marker e') = m_apply (marker d) (marker e)
  /\ rt_apply (deleted_at d) (deleted_at e') (m_apply (marker d) (marker e')) =
     rt_apply (deleted_at d) (deleted_at e) (m_apply (marker d) (marker e)).

Definition dr_same (a b : deletable_row) : Prop :=
  (forall id, find_cell (cells a) id = find_cell (cells b) id) /\ marker a = marker b /\ deleted_at a = deleted_at b.

Definition dr_restored (d e d'' e'' : deletable_row) : Prop :=
  dr_good d'' /\ dr_same d'' d /\ dr_good e'' /\ dr_alike d e'' e.

Lemma m_apply_reversibly_spec m r :
  m_apply_reversibly m r = (m_apply m r, m).
Proof. unfold m_apply_reversibly, m_apply. by case_match. Qed.

Lemma dr_spec f dst src : dr_good dst -> dr_good src ->
  match dr_apply_reversibly s version f dst src with
  | Merged d e =>
      dr_good d /\ dr_is_merge dst src d
      /\ exists d'' e'', dr_revert s d e = Some (d'', e'') /\ dr_restored dst src d'' e''
  | Threw d e => f <> no_row_fault /\ dr_restored dst src d e
  | Stuck => False
  end.
Proof.
  intros (Hcd & Hmd & Htd) (Hcs & Hms & Hts). unfold dr_apply_reversibly.
  pose proof (row_apply_spec (one_fragment s) (internal_count s) defs version regular_ok f (cells dst) (cells src) Hcd Hcs) as H.
  destruct (row_apply_reversibly (one_fragment s) (internal_count s) defs version f (cells dst) (cells src)) as [c c'|c c'|]; [| |done].
  - destruct H as (Hg & Hc & _ & c2 & c2' & Hrev & Hok2 & Hf2 & Hg2 & Hm2). rewrite m_apply_reversibly_spec. simpl.
    pose proof (m_apply_ok _ _ Hmd Hms). rewrite rt_apply_comm.
    assert (row_tombstone_ok (rt_apply (deleted_at dst) (deleted_at src) (m_apply (marker dst) (marker src))))
      by by apply rt_apply_ok.
    split; [by split_and!|]. split; [by split_and!|]. unfold dr_revert. simpl. rewrite Hrev. simpl.
    eexists _, _. split; [done|].
    assert (row_good defs c2) by (split; [done|]; intros id x; rewrite Hf2; apply Hcd).
    split; [by split_and!|]. split; [by split_and!|]. split; [by split_and!|]. split; [done|]. simpl.
    rewrite m_apply_absorb by done. split; [done|]. by apply rt_apply_absorb.
  - destruct H as (Hf & Hok2 & Hf2 & Hg2 & Hm2). split; [done|].
    assert (row_good defs c) by (split; [done|]; intros id x; rewrite Hf2; apply Hcd).
    split; [by split_and!|]. split; [by split_and!|]. split; [by split_and!|]. by split_and!.
Qed.

(** ** The set of rows *)

Context {K : Type} `{Countable K}.
Variable key_less : K -> K -> bool.
Abbreviation rows := (gmap K rows_entry).

Definition entry_good (e : rows_entry) : Prop := erased e = false /\ dr_good (entry_row e).

Definition entry_is_merge (old : option rows_entry) (e d : rows_entry) : Prop :=
  match old with
  | None => dr_same (entry_row d) (entry_row e) /\ d = with_row e (entry_row d)
  | Some o => dr_is_merge (entry_row o) (entry_row e) (entry_row d) /\ d = with_row o (entry_row d)
  end.

Definition entry_alike (old : option rows_entry) (e' e : rows_entry) : Prop :=
  match old with
  | None => dr_same (entry_row e') (entry_row e) /\ e' = with_row e (entry_row e')
  | Some o => dr_alike (entry_row o) (entry_row e') (entry_row e)
  end.

Definition entry_same (a b : option rows_entry) : Prop :=
  match a, b with
  | None, None => True
  | Some x, Some y => dr_same (entry_row x) (entry_row y) /\ x = with_row y (entry_row x)
  | _, _ => False
  end.

Lemma dr_same_refl a : dr_same a a.
Proof. by split_and!. Qed.

Lemma entry_same_refl o : entry_same o o.
Proof. destruct o as [e|]; [|done]. split; [apply dr_same_refl|by destruct e]. Qed.

Lemma entry_alike_refl old e : entry_alike old e e.
Proof. destruct old as [o|]; [by split_and!|]. split; [apply dr_same_refl|by destruct e]. Qed.

Definition rows_shape (m m' : rows) : Prop := dom m' = dom m.

Definition rows_good (m : rows) : Prop := forall k e, m !! k = Some e -> entry_good e.

Lemma insert_good m k e : rows_good m -> entry_good e -> rows_good (<[k := e]> m).
Proof. intros Hm He i x [[_ <-]|[_ E]]%lookup_insert_Some; [done|by eapply Hm]. Qed.

Lemma delete_good m k : rows_good m -> rows_good (delete k m).
Proof. intros Hm i x [_ E]%lookup_delete_Some. by eapply Hm. Qed.

Lemma insert_updates m k e : rows_good m -> entry_good e -> updates find_entry rows_good m k (Some e) (<[k := e]> m).
Proof.
  intros Hm He. split; [by apply insert_good|]. intros i. unfold find_entry.
  destruct (decide (i = k)) as [->|]; [apply lookup_insert_eq|by rewrite lookup_insert_ne].
Qed.

(** A row that is put back. *)
Lemma insert_puts_back m k d d' : rows_good m -> entry_good d' -> entry_same (Some d') (Some d) ->
  puts_back find_entry rows_good entry_same m k (Some d) (<[k := d']> m).
Proof.
  intros Hm Hg Hs. split; [by apply insert_good|]. unfold find_entry. rewrite lookup_insert_eq. split; [done|].
  intros i Hi. by rewrite lookup_insert_ne.
Qed.

Definition no_entry_fault : entry_fault := EntryFault false no_row_fault.

Abbreviation entry_law f k dst e o :=
  (step_law find_entry (revert_entry s) rows_good (fun _ : K => entry_good)
     (fun _ => entry_is_merge) (fun _ => entry_alike) entry_same (f <> no_entry_fault) k dst e o).

(** The promise of one entry. *)
Lemma apply_entry_law f k dst e :
  rows_good dst -> entry_good e -> entry_law f k dst e (apply_entry s version f k dst e).
Proof.
  intros Hok He. unfold apply_entry, step_law, find_entry. destruct (dst !! k) as [d|] eqn:E.
  - destruct (Hok k d E) as [Her Hdg]. destruct He as [Her' Heg].
    pose proof (dr_spec (fail_row f) (entry_row d) (entry_row e) Hdg Heg) as Hspec.
    destruct (dr_apply_reversibly s version (fail_row f) (entry_row d) (entry_row e)) as [r r'|r r'|]; [| |done].
    + destruct Hspec as (Hg & Hm & d2 & e2 & Hrev & Hg2 & Hs2 & Hge & Ha). exists (with_row d r).
      split; [by apply insert_updates|]. split; [by split|]. split; [by split|].
      intros m Hgm Em. unfold revert_entry. unfold find_entry in Em. rewrite Em. simpl. rewrite Her', Hrev. simpl.
      eexists _, _. split; [done|]. split; [|split; [by split|done]]. by apply insert_puts_back.
    + destruct Hspec as (Hf & Hg2 & Hs2 & Hge & Ha). split; [by intros ->|]. split; [|split; [by split|done]].
      by apply insert_puts_back.
  - destruct (fail_erased f) eqn:Ef.
    + split; [intros ->; done|]. split; [|by split; [|apply entry_alike_refl]]. split; [done|]. unfold find_entry. by rewrite E.
    + exists e. split; [by apply insert_updates|]. split; [split; [apply dr_same_refl|by destruct e]|]. split; [done|].
      intros m Hgm Em. unfold revert_entry. unfold find_entry in Em. rewrite Em. simpl. eexists _, _. split; [done|].
      split; [|split; [done|apply (entry_alike_refl None)]]. split; [by apply delete_good|]. split.
      * unfold find_entry. by rewrite lookup_delete_eq.
      * intros i Hi. unfold find_entry. by rewrite lookup_delete_ne.
Qed.

(** The row of key [k] after the merge. *)
Definition rows_merged_at (dst src r : rows) (k : K) : Prop :=
  match src !! k with
  | Some e => exists d, r !! k = Some d /\ entry_is_merge (dst !! k) e d
  | None => entry_same (r !! k) (dst !! k)
  end.

(** The two sets of rows once the merge is undone. *)
Definition rows_restored (dst src dst'' src'' : rows) : Prop :=
  rows_good dst'' /\ (forall k, entry_same (dst'' !! k) (dst !! k)) /\ rows_good src'' /\ dom src'' = dom src
  /\ forall k e'' e, src'' !! k = Some e'' -> src !! k = Some e -> entry_alike (dst !! k) e'' e.

Lemma restores_rows dst src dst'' src'' :
  restores find_entry rows_good (fun _ : K => entry_good) (fun _ => entry_alike) entry_same rows_shape dst src dst'' src'' ->
  rows_restored dst src dst'' src''.
Proof.
  intros (Hok & Hs & Hsh & Hp). split; [done|]. split; [done|]. split; [|split; [done|]].
  - intros k e Ee. destruct (Hp k e Ee) as (e1 & e0 & E1 & _ & Hg & _). unfold find_entry in *. congruence.
  - intros k e'' e E'' E. destruct (Hp k e'' E'') as (e1 & e0 & E1 & E0 & _ & Ha). unfold find_entry in *. congruence.
Qed.

Lemma rows_in_order_spec (m : rows) :
  NoDup (rows_in_order key_less m) /\ forall k, k ∈ rows_in_order key_less m <-> is_Some (m !! k).
Proof.
  unfold rows_in_order. split; [rewrite merge_sort_Permutation; apply NoDup_elements|].
  intros k. by rewrite merge_sort_Permutation, elem_of_elements, elem_of_dom.
Qed.

(** The whole set of rows. *)
Lemma rows_spec f dst src : rows_good dst -> rows_good src ->
  match rows_apply_reversibly s version key_less f dst src with
  | Merged dst' src' =>
      rows_good dst' /\ (forall k, rows_merged_at dst src dst' k)
      /\ exists dst'' src'', rows_revert s key_less dst' src' = Some (dst'', src'') /\ rows_restored dst src dst'' src''
  | Threw dst' src' => (exists k, f k <> no_entry_fault) /\ rows_restored dst src dst' src'
  | Stuck => False
  end.
Proof.
  intros Hdst Hsrc. destruct (rows_in_order_spec src) as [Hnd Hin].
  pose proof (apply_keys_all find_entry put_entry (revert_entry s) reverse rows_good (fun _ => entry_good)
    (fun _ => entry_is_merge) (fun _ => entry_alike) (fun _ => entry_alike_refl) entry_same entry_same_refl rows_shape
    (fun _ => eq_refl) ltac:(unfold rows_shape; congruence)
    ltac:(intros k e m i e0 _; unfold find_entry, put_entry; destruct (decide (i = k)) as [->|]; [apply lookup_insert_eq|by rewrite lookup_insert_ne])
    ltac:(intros k e m e0 E; unfold rows_shape, put_entry; apply dom_insert_lookup_L; by exists e0)
    ltac:(intros m m' i E; unfold find_entry; rewrite <- !elem_of_dom; by rewrite E)
    (fun l => reverse_Permutation l) dst src Hsrc (fun k => apply_entry s version (f k) k) (fun k => f k <> no_entry_fault)
    ltac:(intros k d e Hd _ He; by apply apply_entry_law)
    (rows_in_order key_less src) dst Hnd Hin Hdst (fun _ => eq_refl)) as Hall.
  unfold rows_apply_reversibly. destruct (apply_keys _ _ _ _ _ _ _ _ _) as [dst' src'|dst' src'|]; [| |done].
  - destruct Hall as (Hok' & Hsh & Hm & Hrev). split; [done|]. split.
    + intros k. specialize (Hm k). unfold rows_merged_at. unfold find_entry in Hm. destruct (src !! k).
      * destruct Hm as (d & ? & ? & _). eauto.
      * rewrite Hm. apply entry_same_refl.
    + destruct (Hrev (rows_in_order key_less src')) as (d'' & s'' & E & Hr).
      { unfold rows_in_order. by rewrite Hsh. }
      exists d'', s''. split; [done|]. by apply restores_rows.
  - destruct Hall as [Hf Hr]. split; [done|]. by apply restores_rows.
Qed.

(** ** A restored pair merges to the same *)

#[local] Instance dr_same_equivalence : Equivalence dr_same.
Proof.
  split; [exact dr_same_refl| |].
  - intros a b (Hc & Hm & Hd). split; [intros id; by rewrite Hc|done].
  - intros a b c (Hc & Hm & Hd) (Hc' & Hm' & Hd'). split; [intros id; by rewrite Hc, Hc'|]. split; congruence.
Qed.

#[local] Instance entry_same_equivalence : Equivalence entry_same.
Proof.
  split; [exact entry_same_refl| |].
  - intros [a|] [b|]; try done. intros [Hs ->]. split; [by symmetry|by destruct b].
  - intros [a|] [b|] [c|]; try done. intros [Hs ->] [Hs' ->]. split; [by etrans|done].
Qed.

#[local] Instance dr_is_merge_proper : Proper (dr_same ==> eq ==> eq ==> iff) dr_is_merge.
Proof.
  intros a b (Hc & Hm & Hd) e ? <- r ? <-. unfold dr_is_merge. rewrite Hm, Hd.
  assert (forall id, cell_data (cells a) id = cell_data (cells b) id) as Hcd by (intros id; unfold cell_data; by rewrite Hc).
  by setoid_rewrite Hcd.
Qed.

Lemma dr_alike_merge o e'' e r : dr_alike o e'' e -> dr_is_merge o e'' r <-> dr_is_merge o e r.
Proof.
  intros (Hc & Hm & Hd). unfold dr_is_merge. setoid_rewrite Hc. rewrite Hm. apply and_iff_compat_l.
  split; intros [Hr ->]; (split; [done|]); rewrite Hr; congruence.
Qed.

Lemma with_row_flags a b x : a = with_row b (entry_row a) -> with_row a x = with_row b x.
Proof. by intros ->. Qed.

Lemma entry_merge_restored o'' o e'' e d :
  entry_same o'' o -> entry_alike o e'' e -> entry_is_merge o'' e'' d <-> entry_is_merge o e d.
Proof.
  destruct o'' as [o''|], o as [o|]; try done; simpl.
  - intros [Hs Ho] Ha. rewrite (with_row_flags _ _ _ Ho). rewrite Hs. by rewrite (dr_alike_merge _ _ _ _ Ha).
  - intros _ [Hs He]. rewrite (with_row_flags _ _ _ He). by rewrite Hs.
Qed.

Lemma rows_merge_restored dst src dst'' src'' r k :
  rows_restored dst src dst'' src'' -> rows_merged_at dst'' src'' r k <-> rows_merged_at dst src r k.
Proof.
  intros (_ & Hs & _ & Hdom & Ha). unfold rows_merged_at. specialize (Hs k). specialize (Ha k).
  assert (is_Some (src'' !! k) <-> is_Some (src !! k)) as Hiff by by rewrite <- !elem_of_dom, Hdom.
  destruct (src'' !! k) as [e''|], (src !! k) as [e|].
  - by setoid_rewrite (entry_merge_restored _ _ _ _ _ Hs (Ha _ _ eq_refl eq_refl)).
  - destruct (proj1 Hiff); eauto. done.
  - destruct (proj2 Hiff); eauto. done.
  - by rewrite Hs.
Qed.
End rows.

(** ** Partitions *)

Section partition.
Context {K component : Type} `{Countable K}.
Variables (s : env) (key_less : K -> K -> bool) (tri_compare : nat -> component -> component -> Z).
Hypothesis regular_ok : forall id, def_ok (regular_columns s id).
Hypothesis static_ok : forall id, def_ok (static_columns s id).
Hypothesis Htri : forall i, TriOrder (fun _ => True) (fun x y => Z.sgn (tri_compare i x y)).
Abbreviation partition := (mutation_partition K component).
Abbreviation less := (bound_less tri_compare).
Abbreviation peq := (prefix_equal tri_compare).

Definition partition_good (p : partition) : Prop :=
  tomb_le no_tombstone (partition_tombstone p) /\ row_good (static_columns s) (static_row p)
  /\ rows_good s (clustered_rows p) /\ list_ok tri_compare (row_tombstones p).

(** [r] is the merge of [p] into [dst]. *)
Definition partition_is_merge (dst p r : partition) : Prop :=
  partition_tombstone r = tomb_apply (partition_tombstone dst) (partition_tombstone p)
  /\ (forall id, cell_data (static_row r) id =
        data_merge (static_columns s id) (cell_data (static_row dst) id) (cell_data (static_row p) id))
  /\ (forall k, rows_merged_at s (clustered_rows dst) (clustered_rows p) (clustered_rows r) k)
  /\ forall key, search_tombstone_covering less (row_tombstones r) (at_key key) =
       tomb_apply (search_tombstone_covering less (row_tombstones dst) (at_key key))
                  (search_tombstone_covering less (row_tombstones p) (at_key key)).

(** The same cells, rows and tombstones; the storage of the rows may differ. *)
Definition partition_same (a b : partition) : Prop :=
  partition_tombstone a = partition_tombstone b
  /\ (forall id, find_cell (static_row a) id = find_cell (static_row b) id)
  /\ (forall k, entry_same (clustered_rows a !! k) (clustered_rows b !! k)) /\ row_tombstones a = row_tombstones b.

Definition partition_restored (dst p dst'' p'' : partition) : Prop :=
  partition_good dst'' /\ partition_same dst'' dst /\ partition_good p''
  /\ forall r, partition_is_merge dst'' p'' r <-> partition_is_merge dst p r.

Definition no_partition_fault : partition_fault K := PartitionFault None no_row_fault (fun _ => no_entry_fault).

(** Restored parts make a restored partition. *)
Lemma restore_partition dst p sr sr' cr cr' :
  partition_good dst -> partition_good p ->
  row_restored (static_columns s) (static_row dst) (static_row p) sr sr' ->
  rows_restored s (clustered_rows dst) (clustered_rows p) cr cr' ->
  partition_restored dst p (Partition (partition_tombstone dst) sr cr (row_tombstones dst))
    (Partition (partition_tombstone p) sr' cr' (row_tombstones p)).
Proof.
  intros (Ht & [_ Hc] & _ & Hl) (Ht' & _ & _ & Hl') (Hok & Hf & Hg' & Hd) Hrows.
  pose proof Hrows as (Hgr & Hs & Hgr' & _). split; [|split; [by split_and!|split; [by split_and!|]]].
  - split; [done|]. split; [split; [done|]|done]. intros id c. simpl. rewrite Hf. apply Hc.
  - intros r. unfold partition_is_merge. simpl.
    assert (forall id, cell_data sr id = cell_data (static_row dst) id) as Hcd by (intros id; unfold cell_data; by rewrite Hf).
    setoid_rewrite Hcd. setoid_rewrite Hd. by setoid_rewrite (rows_merge_restored s _ _ _ _ _ _ Hrows).
Qed.

Lemma rows_unchanged (dst src : gmap K rows_entry) : rows_good s dst -> rows_good s src -> rows_restored s dst src dst src.
Proof.
  intros Hd Hs. split; [done|]. split; [intros k; apply entry_same_refl|]. split; [done|]. split; [done|].
  intros k e'' e E'' E. rewrite E in E''. injection E'' as <-. apply entry_alike_refl.
Qed.

Lemma row_unchanged defs dst src : row_good defs dst -> row_good defs src -> row_restored defs dst src dst src.
Proof. intros [Hok _] Hs. by split_and!. Qed.

(** The ranges part of the merge, for all keys at once. *)
Lemma ranges_spec l rts f :
  list_ok tri_compare l -> list_ok tri_compare rts ->
  match apply_ranges less peq l rts [] f with
  | Edited l' ops f' =>
      list_ok tri_compare l' /\ undo_all less peq ops l' = Some l
      /\ forall key, search_tombstone_covering less l' (at_key key) =
           tomb_apply (search_tombstone_covering less l (at_key key)) (search_tombstone_covering less rts (at_key key))
  | Failed l' ops => f <> None /\ undo_all less peq ops l' = Some l
  end.
Proof.
  intros Hl Hr. pose proof (fun key => merge_key tri_compare Htri l rts f key Hl Hr) as Hk.
  destruct (apply_ranges less peq l rts [] f) as [l' ops f'|l' ops]; [|by destruct (Hk [])].
  destruct (Hk []) as (? & _ & ? & _). split; [done|]. split; [done|]. intros key. by destruct (Hk key) as (_ & _ & _ & ?).
Qed.

Lemma partition_apply_spec version f dst p :
  partition_good dst -> partition_good p ->
  match partition_apply s key_less less peq version f dst p with
  | Merged r _ => partition_good r /\ partition_is_merge dst p r
  | Threw dst' p' => f <> no_partition_fault /\ partition_restored dst p dst' p'
  | Stuck => False
  end.
Proof.
  intros Hgd Hgp. pose proof Hgd as (Ht & Hsr & Hcr & Hl). pose proof Hgp as (Ht' & Hsr' & Hcr' & Hl').
  unfold partition_apply. pose proof (ranges_spec _ _ (fail_ranges f) Hl Hl') as Hranges.
  destruct (apply_ranges _ _ _ _ _ _) as [l ops f'|l ops].
  2:{ destruct Hranges as [Hf ->]. split; [by intros ->|]. destruct p. apply restore_partition; auto using row_unchanged, rows_unchanged. }
  destruct Hranges as (Hlr & Hundo & Hkeys).
  pose proof (row_apply_spec (one_fragment s) (internal_count s) (static_columns s) 0 static_ok (fail_static f) _ _ Hsr Hsr') as Hst.
  destruct (row_apply_reversibly _ _ _ _ _ _ _) as [sr sr'|sr sr'|]; [| |done].
  2:{ destruct Hst as [Hf Hres]. rewrite Hundo. split; [by intros ->|]. apply restore_partition; auto using rows_unchanged. }
  destruct Hst as (Hgs & Hcs & _ & sr2 & sr2' & Hrev & Hres).
  pose proof (rows_spec s version regular_ok key_less (fail_rows f) _ _ Hcr Hcr') as Hrows.
  destruct (rows_apply_reversibly _ _ _ _ _ _) as [cr cr'|cr cr'|]; [| |done].
  - destruct Hrows as (Hgr & Hm & _). split; [|by split_and!]. split; [by apply tomb_le_apply|]. by split_and!.
  - destruct Hrows as [[k Hf] Hrr]. rewrite Hrev, Hundo. split; [by intros ->|]. by apply restore_partition.
Qed.

(** C11. [mutation_partition::apply] has the strong exception guarantee, for
    partitions at rest whose counter cells are shards or deleted ones (the cells a
    replica stores; [counter_cell_ok] leaves out the deltas of counter updates,
    which counters.cc:203 does not restore). When it ends, the destination is the merge: the newer partition tombstone, each static
    cell and each clustered row (cells, marker, tombstone) merged by its rule, rows
    of either side kept, and over each key the newer of the covering range
    deletions. When any allocation on the way fails, in the range tombstones, the
    static row, a clustered row or the entry that stands for a missing row, the
    destination has the cells, rows and tombstones it had and the source still
    merges to the same. No assertion on the way fails. *)
Theorem partition_apply_strong version f dst p :
  partition_good dst -> partition_good p ->
  match partition_apply s key_less less peq version f dst p with
  | Merged r _ => partition_good r /\ partition_is_merge dst p r
  | Threw dst' p' => f <> no_partition_fault /\ partition_restored dst p dst' p'
  | Stuck => False
  end.
Proof. apply partition_apply_spec. Qed.
End partition.

(** A partition with one row and two range tombstones, a mutation that has another
    row in front of that one and a range tombstone, and a failing allocation in the
    second row: the first row, already moved, goes back. *)
Definition example_env : env := Env (fun _ => true) 4 example_defs (fun _ => AtomicColumn).
Definition example_row (c : row) : rows_entry := Entry (DRow no_row_tombstone (Marker 5 0 0) c) true false false.
Definition example_partition : mutation_partition Z Z :=
  Partition no_tombstone empty_row {[2 := example_row example_dst]} example_list.
Definition example_mutation : mutation_partition Z Z :=
  Partition (Tombstone 3 0) empty_row {[1 := example_row example_src; 2 := example_row example_src]} example_ranges.
Definition example_row_fault : partition_fault Z :=
  PartitionFault None no_row_fault (fun k => EntryFault false (if k =? 2 then example_fault else no_row_fault)).

Lemma empty_row_good defs : row_good defs empty_row.
Proof.
  split.
  - split; [simpl; unfold max_vector_size; lia|]. split; [|reflexivity]. intros id. simpl. set_solver.
  - intros id c. unfold find_cell. simpl. by rewrite andb_false_l || done.
Qed.

Lemma example_entries_good :
  entry_good example_env (example_row example_dst) /\ entry_good example_env (example_row example_src).
Proof.
  destruct example_rows_good as [Hd Hs].
  split; (split; [done|]); (split; [done|]); split; vm_compute; (done || (split; [discriminate|reflexivity])).
Qed.

Lemma example_partitions_good :
  partition_good example_env Z_compare example_partition /\ partition_good example_env Z_compare example_mutation.
Proof.
  destruct example_entries_good as [Hd Hs].
  split; (split; [vm_compute; discriminate|]); (split; [apply empty_row_good|]); split.
  1,3: intros k e; simpl; rewrite ?lookup_insert_Some, ?lookup_singleton_Some; naive_solver.
  all: split; [repeat constructor; vm_compute; (reflexivity || discriminate)|repeat constructor].
Qed.

Lemma partition_apply_strong_witness :
  match partition_apply example_env Z.ltb (bound_less Z_compare) (prefix_equal Z_compare) 9 example_row_fault
          example_partition example_mutation with
  | Threw dst p => clustered_rows dst !! 1 = None /\ row_tombstones dst = example_list
  | _ => False
  end.
Proof.
  destruct example_partitions_good as [Hd Hp].
  pose proof (partition_apply_strong example_env Z.ltb Z_compare example_defs_ok (fun _ => I) Z_compare_order
    9 example_row_fault example_partition example_mutation Hd Hp) as Hspec.
  assert (match partition_apply example_env Z.ltb (bound_less Z_compare) (prefix_equal Z_compare) 9 example_row_fault
          example_partition example_mutation with Threw _ _ => true | _ => false end = true) as E by (vm_compute; reflexivity).
  destruct (partition_apply _ _ _ _ _ _ _ _) as [d p|d p|]; try done.
  destruct Hspec as (_ & _ & (_ & _ & Hs & ->) & _). split; [|done]. specialize (Hs 1).
  destruct (clustered_rows d !! 1); [|done]. destruct Hs.
Defined.
