(* ===== verification/MutationPartitionAssoc.v ===== *)
(** * Mutation partitions: addition

    The comment above [mutation_partition] calls its addition associative: mutations
    may be grouped in any way before they reach the partition, as memtable and cache
    merges do. It is, as long as no row marker is dead; with a dead marker the
    shadowable tombstone of a row depends on the grouping. *)

From stdpp Require Import gmap.
From S2P Require Import Prelude Mergeable Keyed Cell Counters Row RowInv RowTheorems.
From S2P Require Import RangeTombstones RangeTombstonesInv RangeTombstonesTheorems MutationPartition MutationPartitionTheorems.
Open Scope Z_scope.

(** ** Rows with their marker and tombstone *)

(** The same contents; versions and flags of the cells may differ. *)
Definition dr_like (a b : deletable_row) : Prop :=
  (forall id, cell_data (cells a) id = cell_data (cells b) id) /\ marker a = marker b /\ deleted_at a = deleted_at b.

#[export] Instance dr_like_equivalence : Equivalence dr_like.
Proof.
  split; [by intros a; split_and!| |].
  - intros a b (Hc & Hm & Hd). split; [intros id; by rewrite Hc|done].
  - intros a b c (Hc & Hm & Hd) (Hc' & Hm' & Hd'). split; [intros id; by rewrite Hc, Hc'|]. split; congruence.
Qed.

(** A row without dead markers, with timestamps of 64 bits. *)
Definition dr_alive (d : deletable_row) : Prop := never_dead (marker d) /\ row_tombstone_valid (deleted_at d).

Section rows.
Variable s : env.
Hypothesis regular_ok : forall id, def_ok (regular_columns s id).
Abbreviation is_merge := (dr_is_merge s).

Lemma dr_merge_functional d e r d' e' r' :
  is_merge d e r -> is_merge d' e' r' -> dr_like d d' -> dr_like e e' -> dr_like r r'.
Proof.
  intros (Hc & Hm & Ht) (Hc' & Hm' & Ht') (Ec & Em & Et) (Ec' & Em' & Et').
  assert (marker r = marker r') as E by (rewrite Hm, Hm'; congruence).
  split; [intros id; by rewrite Hc, Hc', Ec, Ec'|]. split; [done|]. rewrite Ht, Ht'. congruence.
Qed.

Lemma cell_data_ok d id : dr_good s d -> from_option (content_ok (regular_columns s id)) True (cell_data (cells d) id).
Proof.
  intros ([_ Hc] & _). unfold cell_data. destruct (find_cell (cells d) id) as [c|] eqn:E; [|done].
  destruct (Hc id c E) as [(x & Ex & Hx) _]. simpl. by rewrite Ex.
Qed.

Lemma dr_merge_assoc a b c ab abc bc abc' :
  dr_good s a -> dr_good s b -> dr_good s c -> dr_alive a -> dr_alive b -> dr_alive c ->
  is_merge a b ab -> is_merge ab c abc -> is_merge b c bc -> is_merge a bc abc' -> dr_like abc abc'.
Proof.
  intros Ha Hb Hc [Na Va] [Nb Vb] [Nc Vc] (C1 & M1 & T1) (C2 & M2 & T2) (C3 & M3 & T3) (C4 & M4 & T4).
  pose proof Ha as (_ & Ma & _). pose proof Hb as (_ & Mb & _). pose proof Hc as (_ & Mc & _).
  assert (marker abc = marker abc') as E by (rewrite M2, M1, M4, M3; by apply m_apply_assoc).
  split; [|split; [done|]].
  - intros id. rewrite C2, C1, C4, C3. apply data_merge_assoc; auto using cell_data_ok.
  - rewrite T4, <- E, T2, M2, T1, T3, M1, M3. by apply rt_apply_assoc.
Qed.

(** ** Entries, absent or not *)

Definition entry_like (a b : option rows_entry) : Prop :=
  match a, b with
  | None, None => True
  | Some x, Some y => dr_like (entry_row x) (entry_row y) /\ x = with_row y (entry_row x)
  | _, _ => False
  end.

#[export] Instance entry_like_equivalence : Equivalence entry_like.
Proof.
  split.
  - intros [a|]; [|done]. split; [done|by destruct a].
  - intros [a|] [b|]; try done. intros [Hs ->]. split; [by symmetry|by destruct b].
  - intros [a|] [b|] [c|]; try done. intros [Hs ->] [Hs' ->]. split; [by etrans|done].
Qed.

Lemma same_like a b : dr_same a b -> dr_like a b.
Proof. intros (Hf & ? & ?). split; [|done]. intros id. unfold cell_data. by rewrite Hf. Qed.

Lemma entry_same_like a b : entry_same a b -> entry_like a b.
Proof. destruct a, b; try done. intros [Hs E]. split; [by apply same_like|done]. Qed.

(** The merge of an entry that may be absent into one that may be. *)
Definition merged_at (o e r : option rows_entry) : Prop :=
  match e with
  | Some e => exists d, r = Some d /\ entry_is_merge s o e d
  | None => entry_same r o
  end.

Lemma merged_none_r o r : merged_at o None r -> entry_like r o.
Proof. apply entry_same_like. Qed.

Lemma merged_none_l e r : merged_at None e r -> entry_like r e.
Proof.
  destruct e as [e|]; [|apply entry_same_like]. intros (d & -> & Hs & E). split; [by apply same_like|done].
Qed.

Lemma merged_both o e r : merged_at (Some o) (Some e) r ->
  exists d, r = Some d /\ is_merge (entry_row o) (entry_row e) (entry_row d) /\ d = with_row o (entry_row d).
Proof. by intros (d & -> & Hm & E); exists d. Qed.

Lemma merged_functional o e r o' e' r' :
  merged_at o e r -> merged_at o' e' r' -> entry_like o o' -> entry_like e e' -> entry_like r r'.
Proof.
  intros Hm Hm' Ho He. destruct o as [o|], o' as [o'|]; try done; last first.
  { rewrite (merged_none_l _ _ Hm), (merged_none_l _ _ Hm'). done. }
  destruct e as [e|], e' as [e'|]; try done; last first.
  { rewrite (merged_none_r _ _ Hm), (merged_none_r _ _ Hm'). done. }
  destruct (merged_both _ _ _ Hm) as (d & -> & Hd & E). destruct (merged_both _ _ _ Hm') as (d' & -> & Hd' & E').
  destruct Ho as [Ho Eo], He as [He _]. split; [by eapply dr_merge_functional|].
  rewrite E. rewrite (with_row_flags _ _ _ Eo). rewrite E' at 1. by destruct o'.
Qed.

Definition entry_alive (o : option rows_entry) : Prop :=
  from_option (fun e => entry_good s e /\ dr_alive (entry_row e)) True o.

Lemma merged_assoc a b c ab abc bc abc' :
  entry_alive a -> entry_alive b -> entry_alive c ->
  merged_at a b ab -> merged_at ab c abc -> merged_at b c bc -> merged_at a bc abc' -> entry_like abc abc'.
Proof.
  intros Ha Hb Hc M1 M2 M3 M4. destruct a as [a|].
  2:{ rewrite (merged_none_l _ _ M4). eapply merged_functional; [exact M2|exact M3| |done]. by apply merged_none_l. }
  destruct b as [b|].
  2:{ eapply merged_functional; [exact M2|exact M4|by apply merged_none_r|]. symmetry. by apply merged_none_l. }
  destruct c as [c|].
  2:{ rewrite (merged_none_r _ _ M2). eapply merged_functional; [exact M1|exact M4|done|]. symmetry. by apply merged_none_r. }
  destruct (merged_both _ _ _ M1) as (d1 & -> & D1 & E1). destruct (merged_both _ _ _ M2) as (d2 & -> & D2 & E2).
  destruct (merged_both _ _ _ M3) as (d3 & -> & D3 & E3). destruct (merged_both _ _ _ M4) as (d4 & -> & D4 & E4).
  destruct Ha as [[_ Ga] La], Hb as [[_ Gb] Lb], Hc as [[_ Gc] Lc].
  split; [by eapply dr_merge_assoc; [exact Ga|exact Gb|exact Gc|..]|].
  rewrite E2, (with_row_flags _ _ _ E1). rewrite E4 at 1. done.
Qed.
End rows.

(** ** Partitions *)

Section partition.
Context {K component : Type} `{Countable K}.
Variables (s : env) (key_less : K -> K -> bool) (tri_compare : nat -> component -> component -> Z).
Hypothesis regular_ok : forall id, def_ok (regular_columns s id).
Hypothesis static_ok : forall id, def_ok (static_columns s id).
Hypothesis Htri : forall i, TriOrder (fun _ => True) (fun x y => Z.sgn (tri_compare i x y)).
Abbreviation partition := (mutation_partition K component).
Abbreviation less := (bound_less tri_compare).
Abbreviation peq := (prefix_equal tri_compare).
Abbreviation apply := (partition_apply s key_less less peq).

(** The same writes: over each key the same deletion, in each row the same cells. *)
Definition partition_like (x y : partition) : Prop :=
  partition_tombstone x = partition_tombstone y
  /\ (forall id, cell_data (static_row x) id = cell_data (static_row y) id)
  /\ (forall k, entry_like (clustered_rows x !! k) (clustered_rows y !! k))
  /\ forall key, search_tombstone_covering less (row_tombstones x) (at_key key) =
       search_tombstone_covering less (row_tombstones y) (at_key key).

(** A well-formed partition without dead row markers. *)
Definition partition_alive (p : partition) : Prop :=
  partition_good s tri_compare p
  /\ forall k e, clustered_rows p !! k = Some e -> dr_alive (entry_row e).

Lemma alive_entry p k : partition_alive p -> entry_alive s (clustered_rows p !! k).
Proof.
  intros [(_ & _ & Hg & _) Ha]. destruct (clustered_rows p !! k) as [e|] eqn:E; [|done]. split; [by eapply Hg|by eapply Ha].
Qed.

Lemma static_data_ok p id : partition_alive p ->
  from_option (content_ok (static_columns s id)) True (cell_data (static_row p) id).
Proof.
  intros [(_ & [_ Hc] & _) _]. unfold cell_data. destruct (find_cell (static_row p) id) as [c|] eqn:E; [|done].
  destruct (Hc id c E) as [(x & Ex & Hx) _]. simpl. by rewrite Ex.
Qed.

Lemma apply_is_merge v f a b r b' :
  partition_good s tri_compare a -> partition_good s tri_compare b -> apply v f a b = Merged r b' ->
  partition_good s tri_compare r /\ partition_is_merge s tri_compare a b r.
Proof.
  intros Ha Hb E. pose proof (partition_apply_spec s key_less tri_compare regular_ok static_ok Htri v f a b Ha Hb) as Hspec.
  by rewrite E in Hspec.
Qed.

(** C16. Addition of partitions is associative, as the comment above
    [mutation_partition] says, when no row has a dead marker: merging [b] into [a]
    and then [c], or [c] into [b] and that into [a], gives the same tombstones,
    markers and cells. *)
Theorem partition_addition_associative a b c ab abc bc abc' v1 f1 b1 v2 f2 c2 v3 f3 c3 v4 f4 bc4 :
  partition_alive a -> partition_alive b -> partition_alive c ->
  apply v1 f1 a b = Merged ab b1 -> apply v2 f2 ab c = Merged abc c2 ->
  apply v3 f3 b c = Merged bc c3 -> apply v4 f4 a bc = Merged abc' bc4 ->
  partition_like abc abc'.
Proof.
  intros Ha Hb Hc E1 E2 E3 E4. pose proof Ha as [Ga _]. pose proof Hb as [Gb _]. pose proof Hc as [Gc _].
  destruct (apply_is_merge _ _ _ _ _ _ Ga Gb E1) as (Gab & T1 & S1 & R1 & K1).
  destruct (apply_is_merge _ _ _ _ _ _ Gab Gc E2) as (_ & T2 & S2 & R2 & K2).
  destruct (apply_is_merge _ _ _ _ _ _ Gb Gc E3) as (Gbc & T3 & S3 & R3 & K3).
  destruct (apply_is_merge _ _ _ _ _ _ Ga Gbc E4) as (_ & T4 & S4 & R4 & K4).
  split; [rewrite T2, T1, T4, T3; apply tomb_apply_assoc|]. split; [|split].
  - intros id. rewrite S2, S1, S4, S3. apply data_merge_assoc; auto using static_data_ok.
  - intros k. eapply (merged_assoc s regular_ok); [..|apply (R1 k)|apply (R2 k)|apply (R3 k)|apply (R4 k)]; by apply alive_entry.
  - intros key. rewrite K2, K1, K4, K3. apply tomb_apply_assoc.
Qed.
End partition.

(** The partition a merge leaves. *)
Definition merge_result (o : merge_outcome (mutation_partition Z Z)) : mutation_partition Z Z :=
  match o with Merged r _ | Threw r _ => r | Stuck => example_partition end.
Definition merge_source (o : merge_outcome (mutation_partition Z Z)) : mutation_partition Z Z :=
  match o with Merged _ r | Threw _ r => r | Stuck => example_partition end.

(** A deletion of the second row. *)
Definition example_deletion : mutation_partition Z Z :=
  Partition no_tombstone empty_row
    {[2 := Entry (DRow (RowTombstone no_tombstone (Tombstone 4 0)) no_marker empty_row) true false false]} [].

Abbreviation example_apply := (partition_apply example_env Z.ltb (bound_less Z_compare) (prefix_equal Z_compare) 9 no_partition_fault).

Lemma example_alive :
  partition_alive example_env Z_compare example_partition /\ partition_alive example_env Z_compare example_mutation
  /\ partition_alive example_env Z_compare example_deletion.
Proof.
  destruct example_partitions_good as [Ha Hb].
  assert (dr_alive (entry_row (example_row example_dst)) /\ dr_alive (entry_row (example_row example_src))) as [Hd Hs]
    by (split; split; split; vm_compute; discriminate).
  split; [|split].
  - split; [done|]. intros k e. simpl. rewrite lookup_singleton_Some. naive_solver.
  - split; [done|]. intros k e. simpl. rewrite lookup_insert_Some, lookup_singleton_Some. naive_solver.
  - split.
    + split; [vm_compute; discriminate|]. split; [apply empty_row_good|]. split; [|by split; constructor].
      intros k e. simpl. rewrite lookup_singleton_Some. intros [_ <-]. split; [done|]. split; [apply empty_row_good|].
      split; vm_compute; [split; [discriminate|reflexivity]|discriminate].
    + intros k e. simpl. rewrite lookup_singleton_Some. intros [_ <-]. split; split; vm_compute; discriminate.
Qed.

Lemma partition_addition_associative_witness :
  partition_like Z_compare
    (merge_result (example_apply (merge_result (example_apply example_partition example_mutation)) example_deletion))
    (merge_result (example_apply example_partition (merge_result (example_apply example_mutation example_deletion)))).
Proof.
  destruct example_alive as (Ha & Hb & Hc).
  apply (partition_addition_associative example_env Z.ltb Z_compare example_defs_ok (fun _ => I) Z_compare_order
    example_partition example_mutation example_deletion
    (merge_result (example_apply example_partition example_mutation)) _
    (merge_result (example_apply example_mutation example_deletion)) _
    9 no_partition_fault (merge_source (example_apply example_partition example_mutation))
    9 no_partition_fault
    (merge_source (example_apply (merge_result (example_apply example_partition example_mutation)) example_deletion))
    9 no_partition_fault (merge_source (example_apply example_mutation example_deletion))
    9 no_partition_fault
    (merge_source (example_apply example_partition (merge_result (example_apply example_mutation example_deletion)))));
    [done..|vm_compute; reflexivity|vm_compute; reflexivity|vm_compute; reflexivity|vm_compute; reflexivity].
Defined.

(** ** Dead markers *)

(** The row after a merge without faults. *)
Definition added (s : env) (version : Z) (a b : deletable_row) : deletable_row :=
  match dr_apply_reversibly s version no_row_fault a b with Merged r _ | Threw r _ => r | Stuck => a end.

Lemma added_empty s version a t m :
  added s version a (DRow t m empty_row) =
  DRow (rt_apply (deleted_at a) t (m_apply (marker a) m)) (m_apply (marker a) m) (cells a).
Proof.
  unfold added, dr_apply_reversibly, row_apply_reversibly. simpl. rewrite m_apply_reversibly_spec. simpl. by rewrite rt_apply_comm.
Qed.

(** With a dead marker the grouping matters. A row inserted at [u], a
    shadowable deletion of an earlier [t] and a dead marker of a later [w]: when the
    first two are merged first the insert shadows the deletion for good; when the
    last two are merged first the dead marker takes the place of the insert, which
    then shadows nothing, and the deletion stays. *)
Theorem dead_marker_grouping s version t u w dt dw :
  missing_timestamp < t < u -> u < w ->
  let a := DRow no_row_tombstone (Marker u 0 0) empty_row in
  let b := DRow (RowTombstone no_tombstone (Tombstone t dt)) no_marker empty_row in
  let c := DRow no_row_tombstone (Marker w (-1) dw) empty_row in
  deleted_at (added s version (added s version a b) c) = no_row_tombstone
  /\ deleted_at (added s version a (added s version b c)) = RowTombstone no_tombstone (Tombstone t dt).
Proof.
  intros Ht Hw a b c. subst a b c. rewrite !added_empty. simpl.
  rewrite (earlier_marker (Marker u 0 0) no_marker), (later_marker no_marker (Marker w (-1) dw)) by (simpl; lia).
  rewrite !(later_marker (Marker u 0 0) (Marker w (-1) dw)) by (simpl; lia).
  assert (forall x, maybe_shadow x (Marker w (-1) dw) = x) as Hdead.
  { intros x. unfold maybe_shadow, is_shadowed_by, m_is_live. by rewrite andb_false_r. }
  unfold rt_apply. simpl. rewrite !tomb_apply_idemp, !Hdead. simpl.
  rewrite !(later_tombstone no_tombstone (Tombstone t dt)) by (simpl; lia). rewrite (tomb_apply_l (Tombstone t dt) no_tombstone).
  2:{ rewrite <- (later_tombstone no_tombstone (Tombstone t dt)) by (simpl; lia). apply tomb_apply_ge. }
  unfold maybe_shadow, is_shadowed_by, m_is_live, m_is_missing. simpl.
  rewrite (proj2 (Z.eqb_neq u missing_timestamp)), (proj2 (Z.ltb_lt t u)) by lia. simpl.
  by rewrite !tomb_apply_idemp, (later_tombstone no_tombstone (Tombstone t dt)) by (simpl; lia).
Qed.

Lemma dead_marker_grouping_witness :
  let a := DRow no_row_tombstone (Marker 10 0 0) empty_row in
  let b := DRow (RowTombstone no_tombstone (Tombstone 5 0)) no_marker empty_row in
  let c := DRow no_row_tombstone (Marker 20 (-1) 0) empty_row in
  deleted_at (added example_env 0 (added example_env 0 a b) c) <> deleted_at (added example_env 0 a (added example_env 0 b c)).
Proof.
  intros a b c. destruct (dead_marker_grouping example_env 0 5 10 20 0 0) as [E1 E2]; [unfold missing_timestamp; lia|lia|].
  subst a b c. rewrite E1, E2. discriminate.
Defined.
