(* ===== verification/PartitionWrite.v ===== *)
(** * A write as a partition (partition_builder.hh, partition_version.cc)

    [partition_entry::apply] turns the frozen contents of a write into a
    [mutation_partition] of its own: [partition_builder] fills a partition with the
    tombstones, rows and cells of the view, [mutation_partition::apply] merges it
    into a new empty partition, and the cell of column 0 of the row with the empty
    key is given the number of the version. PartitionVersion.v works on an
    abstraction of this partition; here the abstraction is shown to be right. *)

From stdpp Require Import gmap.
From S2P Require Import Prelude Mergeable Keyed Cell Counters Row RowInv RowTheorems.
From S2P Require Import RangeTombstones RangeTombstonesInv RangeTombstonesTheorems MutationPartition MutationPartitionTheorems.
From S2P Require PartitionVersion.
Open Scope Z_scope.

(** ** Building rows *)

(** [resize(id)]: also cuts off. *)
Definition resize_to (id : nat) (v : list cell_obj) : list cell_obj := take id v ++ replicate (id - length v) empty_cell.

(** The insertion at the end of the tree of an id it may have already. *)
Definition append_tree (id : nat) (c : cell_obj) (m : gmap nat cell_obj) (n : Z) : row :=
  match m !! id with
  | None => Row (Tree (<[id := c]> m)) (n + 1)
  | Some _ => Row (Tree m) (n + 1)
  end.

Definition append_cell (id : nat) (value : cell_obj) (r : row) : row :=
  match store r with
  | Vec present v =>
      if bool_decide (id < max_vector_size)%nat
      then Row (Vec ({[id]} ∪ present) (resize_to id v ++ [value])) (row_size r + 1)
      else append_tree id value (vector_to_set present v) (row_size r)
  | Tree m => append_tree id value m (row_size r)
  end.

Section build.
(** Whether the bytes of a cell are one fragment. *)
Variable piece : content -> bool.

Definition fresh_cell (c : content) : cell_obj := Cell (Some c) false false (piece c) 0.

Definition append_cells (l : list (nat * content)) (r : row) : row :=
  fold_left (fun r '(id, c) => append_cell id (fresh_cell c) r) l r.

Context {K component : Type} `{Countable K}.
Abbreviation prefix := (list component).

(** What a frozen row and a frozen partition hold. *)
Record frozen_row := FRow {
  fr_key : K; fr_deleted_at : row_tombstone; fr_marker : row_marker; fr_cells : list (nat * content) }.
Record partition_view := View {
  view_tombstone : tombstone; view_static : list (nat * content);
  view_ranges : list (range_tombstone component); view_rows : list frozen_row }.

(** A row as [clustered_row] makes it. *)
Definition new_entry : rows_entry := Entry empty_deletable_row true false false.

(** [accept_row] and the [accept_row_cell]s that follow. *)
Definition accept_row (m : gmap K rows_entry) (fr : frozen_row) : gmap K rows_entry :=
  let e := default new_entry (m !! fr_key fr) in
  let r := entry_row e in
  let mk := m_apply (marker r) (fr_marker fr) in
  let d := rt_apply (maybe_shadow (deleted_at r) mk) (fr_deleted_at fr) mk in
  <[fr_key fr := with_row e (DRow d mk (append_cells (fr_cells fr) (cells r)))]> m.

Variables (s : env) (key_less : K -> K -> bool) (tri_compare : nat -> component -> component -> Z).
Abbreviation less := (bound_less tri_compare).
Abbreviation peq := (prefix_equal tri_compare).

(** [accept_row_tombstone]: the ranges are merged without an undo log. *)
Definition build_ranges (rts : list (range_tombstone component)) : list (range_tombstone component) :=
  match apply_ranges less peq [] rts [] None with Edited l _ _ | Failed l _ => l end.

(** [accept] with a [partition_builder]. *)
Definition build_partition (view : partition_view) : mutation_partition K component :=
  Partition (tomb_apply no_tombstone (view_tombstone view)) (append_cells (view_static view) empty_row)
    (fold_left accept_row (view_rows view) ∅) (build_ranges (view_ranges view)).

Definition empty_partition : mutation_partition K component := Partition no_tombstone empty_row ∅ [].

(** [mp.apply(s, mpv, mp_schema, version)] on a new partition, for a write whose
    schema is that of the table: the branch that first upgrades a write of another
    schema is not modelled. *)
Definition apply_view (version : Z) (f : partition_fault K) (view : partition_view) : merge_outcome (mutation_partition K component) :=
  partition_apply s key_less less peq version f empty_partition (build_partition view).

(** [mp.clustered_row(s, make_empty()).cells().find_cell(0)->most_recent_version = v];
    [None]: a null pointer is dereferenced. *)
Definition stamp_partition (empty_key : K) (v : Z) (mp : mutation_partition K component) : option (mutation_partition K component) :=
  let e := default new_entry (clustered_rows mp !! empty_key) in
  c ← find_cell (cells (entry_row e)) 0;
  let r := DRow (deleted_at (entry_row e)) (marker (entry_row e)) (put_cell 0 (set_version v c) (cells (entry_row e))) in
  Some (Partition (partition_tombstone mp) (static_row mp) (<[empty_key := with_row e r]> (clustered_rows mp)) (row_tombstones mp)).
End build.
Arguments frozen_row : clear implicits.
Arguments partition_view : clear implicits.

(** ** Cells in the order of their columns *)

Definition ids_sorted (l : list (nat * content)) : Prop := StronglySorted (fun x y => (x.1 < y.1)%nat) l.

Definition is_tree (r : row) : Prop := match store r with Vec _ _ => False | Tree _ => True end.

(** A row whose cells have ids below [b]. *)
Definition row_below (b : nat) (r : row) : Prop :=
  row_ok r /\ (forall i, is_Some (find_cell r i) -> (i < b)%nat)
  /\ match store r with Vec _ v => (length v <= b)%nat | Tree _ => True end.

Lemma append_cell_below b id c r : row_below b r -> (b <= id)%nat -> data c <> None ->
  row_below (S id) (append_cell id c r) /\ forall i, find_cell (append_cell id c r) i = if decide (i = id) then Some c else find_cell r i.
Proof.
  intros (Hok & Hb & Hlen) Hid Hc.
  assert (find_cell r id = None) as Hnone.
  { destruct (find_cell r id) eqn:E; [|done]. specialize (Hb id ltac:(by rewrite E)). lia. }
  assert (forall r', updates find_cell row_ok r id (Some c) r' ->
            match store r' with Vec _ v => (length v <= S id)%nat | Tree _ => True end ->
            row_below (S id) r' /\ forall i, find_cell r' i = if decide (i = id) then Some c else find_cell r i) as Hup.
  { intros r' [Hok' Hf] Hv. split; [|done]. split; [done|]. split; [|done].
    intros i. rewrite Hf. destruct (decide (i = id)); [lia|]. intros Hi%Hb. lia. }
  assert (forall m n, row_ok (Row (Tree m) n) -> (forall i, find_cell (Row (Tree m) n) i = find_cell r i) ->
            updates find_cell row_ok r id (Some c) (append_tree id c m n) /\ is_tree (append_tree id c m n)) as Htree.
  { intros m n Hm Hf. specialize (Hf id) as Hi. unfold find_cell in Hi at 1. simpl in Hi. rewrite Hnone in Hi.
    unfold append_tree. rewrite Hi. split; [|done].
    destruct (tree_add m n id c Hm Hi Hc) as [Hok' Hf']. split; [done|]. intros i. by rewrite Hf', Hf. }
  destruct r as [[present v|m] n]; unfold append_cell; simpl in *.
  - case_bool_decide as Hlt.
    + unfold resize_to. rewrite take_ge by lia. change (v ++ replicate (id - length v) empty_cell) with (resize id v).
      apply Hup; [by apply append_updated; [| lia|]|]. simpl. rewrite length_app, length_resize by lia. simpl. lia.
    + destruct (vector_to_set_ok present v n Hok) as [Hm Hf]. destruct (Htree _ _ Hm Hf) as [Hu Ht].
      apply Hup; [done|]. unfold is_tree in Ht. by destruct (store (append_tree _ _ _ _)).
  - destruct (Htree m n Hok (fun _ => eq_refl)) as [Hu Ht]. apply Hup; [done|]. unfold is_tree in Ht. by destruct (store (append_tree _ _ _ _)).
Qed.

Abbreviation cells_map l := (list_to_map (M := gmap nat content) l).

Lemma append_cells_below piece l : forall b r,
  row_below b r -> ids_sorted l -> (forall p, p ∈ l -> (b <= p.1)%nat) ->
  row_ok (append_cells piece l r) /\ forall i, find_cell (append_cells piece l r) i =
    match cells_map l !! i with Some c => Some (fresh_cell piece c) | None => find_cell r i end.
Proof.
  induction l as [|[id c] l IH]; intros b r Hr Hs Hb.
  - split; [apply Hr|]. intros i. simpl. by rewrite lookup_empty.
  - apply StronglySorted_inv in Hs as [Hs Hid]. rewrite Forall_forall in Hid.
    destruct (append_cell_below b id (fresh_cell piece c) r Hr (Hb (id, c) ltac:(apply elem_of_cons; by left)) ltac:(done)) as [Hr' Hf].
    destruct (IH (S id) _ Hr' Hs) as [Hok Hf'].
    { intros p Hp. specialize (Hid p Hp). simpl in Hid. lia. }
    split; [done|]. intros i. simpl. rewrite Hf'. destruct (decide (i = id)) as [->|Hi].
    + rewrite lookup_insert_eq. destruct (cells_map l !! id) as [c'|] eqn:E.
      * apply elem_of_list_to_map_2 in E. specialize (Hid _ E). simpl in Hid. lia.
      * rewrite Hf. by destruct (decide (id = id)).
    + rewrite lookup_insert_ne by done. rewrite Hf. by destruct (decide (i = id)).
Qed.

Lemma empty_row_below : row_below 0 empty_row.
Proof.
  split; [apply (empty_row_good (fun _ => AtomicColumn))|]. split; [|simpl; lia].
  intros i [c E]. unfold find_cell in E. simpl in E. by rewrite andb_false_l in E || done.
Qed.

(** The cells of a frozen row fit their columns and come in order. *)
Definition cells_ok (defs : nat -> column_type) (l : list (nat * content)) : Prop :=
  ids_sorted l /\ forall id c, (id, c) ∈ l -> content_ok (defs id) c.

Lemma append_cells_spec piece defs l : cells_ok defs l ->
  row_good defs (append_cells piece l empty_row)
  /\ forall i, find_cell (append_cells piece l empty_row) i = fresh_cell piece <$> cells_map l !! i.
Proof.
  intros [Hs Hc]. destruct (append_cells_below piece l 0 empty_row empty_row_below Hs) as [Hok Hf]; [intros; lia|].
  assert (forall i, find_cell (append_cells piece l empty_row) i = fresh_cell piece <$> cells_map l !! i) as Hf'.
  { intros i. rewrite Hf. by destruct (cells_map l !! i). }
  split; [split; [done|]|done]. intros id c. rewrite Hf'. intros (x & E & ->)%fmap_Some.
  apply elem_of_list_to_map_2 in E. split; [|done]. exists x. eauto.
Qed.

(** ** What the version list sees *)

Section refine.
Variable piece : content -> bool.
Context {K component : Type} `{Countable K}.
Variables (s : env) (key_less : K -> K -> bool) (tri_compare : nat -> component -> component -> Z) (empty_key : K).
Hypothesis regular_ok : forall id, def_ok (regular_columns s id).
Hypothesis static_ok : forall id, def_ok (static_columns s id).
Hypothesis Htri : forall i, TriOrder (fun _ => True) (fun x y => Z.sgn (tri_compare i x y)).
Abbreviation partition := (mutation_partition K component).
Abbreviation view := (partition_view K component).
Abbreviation less := (bound_less tri_compare).

(** A frozen marker is missing or has a timestamp, and a frozen partition is one
    that was serialised from a well-formed one. *)
Definition frozen_row_ok (fr : frozen_row K) : Prop :=
  cells_ok (regular_columns s) (fr_cells fr) /\ marker_ok (fr_marker fr)
  /\ (fr_marker fr = no_marker \/ missing_timestamp < m_timestamp (fr_marker fr))
  /\ row_tombstone_ok (fr_deleted_at fr) /\ tomb_le no_tombstone (regular (fr_deleted_at fr)).
Definition view_ok (w : view) : Prop :=
  tomb_le no_tombstone (view_tombstone w) /\ cells_ok (static_columns s) (view_static w)
  /\ list_ok tri_compare (view_ranges w) /\ NoDup (fr_key <$> view_rows w) /\ Forall frozen_row_ok (view_rows w).

Definition rows_map (l : list (frozen_row K)) : gmap K (frozen_row K) := list_to_map ((fun fr => (fr_key fr, fr)) <$> l).

(** The entry that the builder makes of a frozen row. *)
Definition built (fr : frozen_row K) : rows_entry :=
  Entry (DRow (maybe_shadow (fr_deleted_at fr) (fr_marker fr)) (fr_marker fr) (append_cells piece (fr_cells fr) empty_row)) true false false.

Lemma accept_row_new m fr : frozen_row_ok fr -> m !! fr_key fr = None -> accept_row piece m fr = <[fr_key fr := built fr]> m.
Proof.
  intros (_ & _ & Hm & Hok & Hr) E. unfold accept_row, built. rewrite E. simpl.
  assert (m_apply no_marker (fr_marker fr) = fr_marker fr) as ->.
  { destruct Hm as [->|Hlt]; [reflexivity|]. by apply later_marker. }
  assert (maybe_shadow no_row_tombstone (fr_marker fr) = no_row_tombstone) as -> by (unfold maybe_shadow; by case_match).
  assert (rt_apply no_row_tombstone (fr_deleted_at fr) (fr_marker fr) = maybe_shadow (fr_deleted_at fr) (fr_marker fr)) as ->; [|done].
  unfold rt_apply. simpl. rewrite !tomb_apply_r; [by destruct (fr_deleted_at fr)|by eapply tomb_le_trans|done].
Qed.

Lemma build_rows_spec rows : forall m,
  NoDup (fr_key <$> rows) -> Forall frozen_row_ok rows -> (forall fr, fr ∈ rows -> m !! fr_key fr = None) ->
  forall k, fold_left (accept_row piece) rows m !! k = match rows_map rows !! k with Some fr => Some (built fr) | None => m !! k end.
Proof.
  induction rows as [|fr rows IH]; intros m Hnd Hok Hm k; [unfold rows_map; simpl; by rewrite lookup_empty|].
  simpl in Hnd. apply NoDup_cons in Hnd as [Hni Hnd]. apply Forall_cons in Hok as [Hfr Hok]. simpl.
  rewrite accept_row_new by (done || apply Hm, elem_of_cons; by left).
  assert (forall fr', fr' ∈ rows -> fr_key fr' <> fr_key fr) as Hne.
  { intros fr' Hin E. apply Hni. rewrite <- E. by apply list_elem_of_fmap_2. }
  rewrite IH; [|done|done|].
  2:{ intros fr' Hin. rewrite lookup_insert_ne by (intros E; by eapply Hne). apply Hm, elem_of_cons. by right. }
  unfold rows_map. simpl. destruct (decide (k = fr_key fr)) as [->|Hk].
  - rewrite !lookup_insert_eq, not_elem_of_list_to_map_1; [done|].
    rewrite <- list_fmap_compose. intros (fr' & E & Hin)%list_elem_of_fmap. simpl in E. by eapply Hne.
  - by rewrite !lookup_insert_ne by done.
Qed.

Lemma built_good fr : frozen_row_ok fr -> entry_good s (built fr).
Proof.
  intros (Hc & Hm & _ & Hd & _). split; [done|]. split; [|split; [done|by apply maybe_shadow_ok]].
  by apply append_cells_spec.
Qed.

Lemma build_good w : view_ok w -> partition_good s tri_compare (build_partition piece tri_compare w).
Proof.
  intros (Ht & Hst & Hl & Hnd & Hrows). split; [apply tomb_le_apply, tomb_le_refl|]. split; [by apply append_cells_spec|]. split.
  - intros k e. simpl. rewrite build_rows_spec by (done || (intros; apply lookup_empty)).
    destruct (rows_map (view_rows w) !! k) as [fr|] eqn:E; [|by rewrite lookup_empty]. intros [= <-].
    apply built_good. unfold rows_map in E. apply elem_of_list_to_map_2, list_elem_of_fmap in E as (fr' & [= -> ->] & Hin).
    by eapply Forall_forall.
  - pose proof (ranges_spec tri_compare Htri [] (view_ranges w) None ltac:(by split; constructor) Hl) as Hr.
    simpl. unfold build_ranges. destruct (apply_ranges _ _ _ _ _ _); [by destruct Hr|]. by destruct Hr.
Qed.

Lemma empty_partition_good : partition_good s tri_compare (empty_partition : partition).
Proof.
  split; [apply tomb_le_refl|]. split; [apply empty_row_good|]. split; [|by split; constructor].
  intros k e. simpl. by rewrite lookup_empty.
Qed.

(** ** The abstraction *)

Abbreviation abstract := (@PartitionVersion.mutation_partition view).

Definition view_cell0 (w : view) : option content := fr ← rows_map (view_rows w) !! empty_key; cells_map (fr_cells fr) !! 0%nat.

(** What PartitionVersion.v keeps of a frozen write. *)
Definition abstract_view (w : view) : @PartitionVersion.mutation_partition_view view :=
  PartitionVersion.MPV w (bool_decide (is_Some (view_cell0 w))).

(** The version number that a cell of the partition carries. *)
Definition stamp_of (a : abstract) (k : K) (id : nat) : Z :=
  if bool_decide (k = empty_key /\ id = 0%nat) then default 0 (PartitionVersion.mp_cell0 a) else 0.

(** The partition holds exactly the tombstones, markers and cells of the write, and
    its cells, those of the static row too, carry version 0, save for column 0 of the row with the empty key. *)
Definition represents (mp : partition) (a : abstract) : Prop :=
  let w := PartitionVersion.mp_data a in
  partition_tombstone mp = view_tombstone w
  /\ (forall id, find_cell (static_row mp) id = fresh_cell piece <$> cells_map (view_static w) !! id)
  /\ (forall k, match rows_map (view_rows w) !! k with
       | Some fr => exists e, clustered_rows mp !! k = Some e /\ e = with_row new_entry (entry_row e)
           /\ marker (entry_row e) = fr_marker fr /\ deleted_at (entry_row e) = maybe_shadow (fr_deleted_at fr) (fr_marker fr)
           /\ forall id, find_cell (cells (entry_row e)) id =
                (fun c => set_version (stamp_of a k id) (fresh_cell piece c)) <$> cells_map (fr_cells fr) !! id
       | None => clustered_rows mp !! k = None
       end)
  /\ (forall key, search_tombstone_covering less (row_tombstones mp) (at_key key) =
                  search_tombstone_covering less (view_ranges w) (at_key key))
  /\ (is_Some (PartitionVersion.mp_cell0 a) <-> is_Some (view_cell0 w)).

Lemma search_empty key : search_tombstone_covering less [] (at_key key) = no_tombstone.
Proof. done. Qed.

Lemma covering_valid l key : list_ok tri_compare l ->
  tomb_apply no_tombstone (search_tombstone_covering less l (at_key key)) = search_tombstone_covering less l (at_key key).
Proof. intros Hl. apply tomb_apply_r. apply search_valid. by eapply list_ok_valid. Qed.

Lemma stamp_of_new w k id : stamp_of (PartitionVersion.mp_apply_to_empty (abstract_view w)) k id = 0.
Proof. unfold stamp_of. simpl. by repeat case_match. Qed.

(** The cells of the static row are moved into the new partition. *)
Lemma apply_static_moved w version f mp p' id : view_ok w ->
  apply_view piece s key_less tri_compare version f w = Merged mp p' ->
  find_cell (static_row mp) id = find_cell (append_cells piece (view_static w) empty_row) id.
Proof.
  intros Hw. unfold apply_view, partition_apply. simpl. destruct empty_partition_good as (_ & He & _), (build_good w Hw) as (_ & Hb & _).
  pose proof (row_apply_spec (one_fragment s) (internal_count s) (static_columns s) 0 static_ok (fail_static f) _ _ He Hb) as Hrow. simpl in Hrow.
  repeat case_match; intros; simplify_eq/=. destruct Hrow as (_ & _ & Hmoved & _). by apply Hmoved.
Qed.

Lemma apply_represents w version f mp p' : view_ok w ->
  apply_view piece s key_less tri_compare version f w = Merged mp p' ->
  represents mp (PartitionVersion.mp_apply_to_empty (abstract_view w)).
Proof.
  intros Hw E. pose proof Hw as (Ht & Hst & Hl & Hnd & Hrows).
  pose proof (partition_apply_spec s key_less tri_compare regular_ok static_ok Htri version f _ _ empty_partition_good (build_good w Hw)) as Hspec.
  unfold apply_view in E. rewrite E in Hspec. destruct Hspec as (_ & T & S & R & C). split; [|split; [|split; [|split]]]; simpl.
  - rewrite T. simpl. rewrite (tomb_apply_r no_tombstone (view_tombstone w)) by done. by apply tomb_apply_r.
  - intros id. destruct (append_cells_spec piece _ _ Hst) as [_ Hf]. rewrite <- Hf. by eapply apply_static_moved.
  - intros k. specialize (R k). unfold rows_merged_at in R. simpl in R.
    rewrite build_rows_spec in R by (done || (intros; apply lookup_empty)). rewrite lookup_empty in R.
    destruct (rows_map (view_rows w) !! k) as [fr|] eqn:Ek; [|by destruct (clustered_rows mp !! k)].
    destruct R as (d & Ed & (Hf & Hm & Hd) & Efl). exists d. split; [done|]. split; [exact Efl|]. split; [done|]. split; [done|].
    intros id. rewrite Hf. simpl. unfold rows_map in Ek. apply elem_of_list_to_map_2, list_elem_of_fmap in Ek as (fr' & [= -> ->] & Hin).
    rewrite Forall_forall in Hrows. destruct (append_cells_spec piece (regular_columns s) (fr_cells fr')) as [_ Hf']; [by apply Hrows|].
    rewrite Hf', stamp_of_new. by destruct (cells_map (fr_cells fr') !! id).
  - intros key. rewrite C. simpl row_tombstones.
    pose proof (ranges_spec tri_compare Htri [] (view_ranges w) None ltac:(by split; constructor) Hl) as Hr.
    unfold build_ranges. destruct (apply_ranges _ _ _ _ _ _); [|by destruct Hr]. destruct Hr as (_ & _ & ->).
    rewrite search_empty, !covering_valid by done. done.
  - case_bool_decide as Hc; simpl; [split; [done|eauto]|]. split; [by intros [? ?]|done].
Qed.

(** The stamp of the abstraction is that of the partition. *)
Lemma stamp_represents mp a v : represents mp a ->
  match stamp_partition empty_key v mp, PartitionVersion.stamp_cell0 a v with
  | Some mp', Some a' => represents mp' a'
  | None, None => True
  | _, _ => False
  end.
Proof.
  intros (T & S & R & C & Hc0). unfold stamp_partition, PartitionVersion.stamp_cell0. unfold view_cell0 in Hc0. pose proof (R empty_key) as R0.
  destruct (rows_map (view_rows (PartitionVersion.mp_data a)) !! empty_key) as [fr|] eqn:Ek; simpl in Hc0.
  2:{ rewrite R0. simpl. unfold find_cell. simpl. destruct (PartitionVersion.mp_cell0 a); [|done].
      destruct (proj1 Hc0) as [? ?]; [by eexists|done]. }
  destruct R0 as (e & Ee & Efl & Hm & Hd & Hf). rewrite Ee. simpl. rewrite (Hf 0%nat).
  destruct (cells_map (fr_cells fr) !! 0%nat) as [c|] eqn:E0; simpl.
  2:{ destruct (PartitionVersion.mp_cell0 a); [|done]. destruct (proj1 Hc0) as [? ?]; [by eexists|done]. }
  destruct (PartitionVersion.mp_cell0 a) as [x|] eqn:Ea; [|by destruct (proj2 Hc0)].
  split; [done|]. split; [done|]. split; [|split; [done|]].
  - intros k. specialize (R k). simpl in *. destruct (decide (k = empty_key)) as [->|Hk].
    + rewrite Ek, lookup_insert_eq. eexists. split; [done|]. split; [by rewrite Efl|]. split; [done|]. split; [done|].
      pose proof (Hf 0%nat) as H0. rewrite E0 in H0. intros id. simpl. rewrite (put_find 0 _ _ id _ H0), Hf. unfold stamp_of. simpl. rewrite Ea.
      destruct (decide (id = 0%nat)) as [->|Hid]; [by rewrite E0, !bool_decide_eq_true_2|].
      by rewrite !bool_decide_eq_false_2 by tauto.
    + rewrite lookup_insert_ne by done. destruct (rows_map (view_rows (PartitionVersion.mp_data a)) !! k) as [fr'|]; [|done].
      destruct R as (e' & E' & ? & ? & ? & Hf'). exists e'. split_and!; try done. intros id. rewrite Hf'. unfold stamp_of. simpl.
      by rewrite !bool_decide_eq_false_2 by tauto.
  - simpl. unfold view_cell0. rewrite Ek. simpl. rewrite E0. split; by eexists.
Qed.

(** C12. The partition that [partition_entry::apply] makes of a write of the table's
    schema is the one the model of the version list assumes. Whatever version number it passes down, the
    merge into the new empty partition ends, unless an allocation fails, with
    exactly the tombstones, markers and cells of the write, and every cell carries
    version 0: moved cells are not stamped. The assignment that follows stamps
    column 0 of the row with the empty key, or dereferences a null pointer, exactly
    when the model says so, and no other cell. *)
Theorem port_write_contents w version f v : view_ok w ->
  match apply_view piece s key_less tri_compare version f w with
  | Merged mp _ =>
      let a := PartitionVersion.mp_apply_to_empty (abstract_view w) in
      represents mp a
      /\ match stamp_partition empty_key v mp, PartitionVersion.stamp_cell0 a v with
         | Some mp', Some a' => represents mp' a'
         | None, None => True
         | _, _ => False
         end
  | Threw _ _ => f <> no_partition_fault
  | Stuck => False
  end.
Proof.
  intros Hw. destruct (apply_view piece s key_less tri_compare version f w) as [mp p'|mp p'|] eqn:E.
  - pose proof (apply_represents w version f mp p' Hw E) as Hr. split; [done|]. by apply stamp_represents.
  - pose proof (partition_apply_spec s key_less tri_compare regular_ok static_ok Htri version f _ _ empty_partition_good (build_good w Hw)) as Hspec.
    unfold apply_view in E. rewrite E in Hspec. apply Hspec.
  - pose proof (partition_apply_spec s key_less tri_compare regular_ok static_ok Htri version f _ _ empty_partition_good (build_good w Hw)) as Hspec.
    unfold apply_view in E. by rewrite E in Hspec.
Qed.
End refine.

(** A write of columns 0 and 1 of the row with the empty key, here [0]. *)
Definition example_view : partition_view Z Z :=
  View no_tombstone [] []
    [FRow 0 no_row_tombstone (Marker 7 0 0) [(0%nat, Atomic (Live 7 [1] None)); (1%nat, Counter (CShards 7 [Shard 1 2 3]))]].

Lemma example_view_ok : view_ok example_env Z_compare example_view.
Proof.
  split; [vm_compute; discriminate|]. split; [split; [constructor|intros ? ? []%elem_of_nil]|].
  split; [by split; constructor|]. split; [apply NoDup_singleton|]. apply Forall_singleton.
  split; [split|].
  - repeat constructor.
  - intros id c. simpl. rewrite !elem_of_cons. intros [[= -> ->]|[[= -> ->]|[]%elem_of_nil]]; [vm_compute; split; [discriminate|reflexivity]|].
    apply sorted_ksorted. repeat constructor.
  - split; [vm_compute; split; [discriminate|reflexivity]|]. split; [right; reflexivity|]. split; vm_compute; discriminate.
Qed.

Lemma port_write_contents_witness :
  match apply_view (fun _ => true) example_env Z.ltb Z_compare 9 no_partition_fault example_view with
  | Merged mp _ => option_map (fun e => find_cell (cells (entry_row e)) 1) (clustered_rows mp !! 0) =
                   Some (Some (Cell (Some (Counter (CShards 7 [Shard 1 2 3]))) false false true 0))
  | _ => False
  end.
Proof.
  pose proof (port_write_contents (fun _ => true) example_env Z.ltb Z_compare 0 example_defs_ok (fun _ => I) Z_compare_order
    example_view 9 no_partition_fault 9 example_view_ok) as Hspec.
  assert (match apply_view (fun _ => true) example_env Z.ltb Z_compare 9 no_partition_fault example_view with
          | Merged _ _ => true | _ => false end = true) as E by (vm_compute; reflexivity).
  destruct (apply_view _ _ _ _ _ _ _) as [mp p'|mp p'|]; [|done|done].
  destruct Hspec as [(_ & _ & Hr & _) _]. specialize (Hr 0).
  assert (rows_map (view_rows example_view) !! 0 = Some (FRow 0 no_row_tombstone (Marker 7 0 0)
    [(0%nat, Atomic (Live 7 [1] None)); (1%nat, Counter (CShards 7 [Shard 1 2 3]))])) as Ev by reflexivity.
  simpl in Hr. unfold example_view in Ev. simpl in Ev. rewrite Ev in Hr. destruct Hr as (e & -> & _ & _ & _ & Hf).
  simpl. rewrite Hf. reflexivity.
Defined.
