(* ===== verification/Compaction.v ===== *)
(** * Compaction of cells and rows (mutation_partition.cc, mutation_partition.hh, types.cc)

    Before a row is sent to a client or written to a new file it is compacted:
    what a tombstone covers is removed, what has expired becomes dead, and what is
    dead for long enough is purged. [row::compact_and_expire] does it for a row and
    [collection_type_impl::mutation::compact_and_expire] for a collection.

    The specification is what a reader sees of a cell, [visible]. *)

From stdpp Require Import gmap.
From S2P Require Import Prelude Mergeable Keyed Cell Counters Row RowInv RowTheorems.
Open Scope Z_scope.

(** ** Cells *)

(** [is_covered_by]: a tombstone of any age covers a counter. *)
Definition is_covered_by (ts : Z) (t : tombstone) (is_counter : bool) : bool :=
  (ts <=? tomb_timestamp t) || is_counter && has_tombstone t.

(** [deletion_time] of a cell that is dead or has expired. *)
Definition cell_deletion_time (c : atomic_cell) : Z :=
  match c with Dead _ d => d | Live _ _ (Some (e, l)) => e - l | Live _ _ None => 0 end.

(** A counter cell as [atomic_cell_view] sees it. *)
Definition counter_view (c : counter_cell) : atomic_cell :=
  match c with CDead t d => Dead t d | CShards t _ | CUpdate t _ | CLong t _ => Live t [] None end.

(** What becomes of a cell. *)
Inductive verdict := Erase | MakeDead | KeepDead | KeepLive.

Section compact.
Variables (now : Z) (can_gc : tombstone -> bool) (gc_before : Z).

Definition has_expired (c : atomic_cell) : bool := is_live_and_has_ttl c && (expiry c <=? now).

(** [can_erase_cell]. *)
Definition can_erase_cell (c : atomic_cell) : bool :=
  (cell_deletion_time c <? gc_before) && can_gc (Tombstone (timestamp c) (cell_deletion_time c)).

Definition compact_atomic (is_counter : bool) (t : row_tombstone) (c : atomic_cell) : verdict :=
  if is_covered_by (timestamp c) (regular t) is_counter then Erase
  else if has_expired c then if can_erase_cell c then Erase else MakeDead
  else if negb (is_live c) then if can_erase_cell c then Erase else KeepDead
  else if is_covered_by (timestamp c) (shadowable t) is_counter then Erase
  else KeepLive.

(** The cell that [make_dead] makes of an expired one. *)
Definition dead_of (c : atomic_cell) : atomic_cell := Dead (timestamp c) (cell_deletion_time c).

Definition after_verdict (v : verdict) (c : atomic_cell) : option atomic_cell :=
  match v with Erase => None | MakeDead => Some (dead_of c) | KeepDead | KeepLive => Some c end.

Definition is_keep_live (v : verdict) : bool := match v with KeepLive => true | _ => false end.

(** [mutation::compact_and_expire] of a collection: the loop over its cells, and
    the whole. *)
Fixpoint compact_elements (t : row_tombstone) (l : list (bytes * atomic_cell)) : list (bytes * atomic_cell) * bool :=
  match l with
  | [] => ([], false)
  | (k, c) :: l' =>
      let '(survivors, any_live) := compact_elements t l' in
      let v := compact_atomic false t c in
      (match after_verdict v c with Some c' => (k, c') :: survivors | None => survivors end, is_keep_live v || any_live)
  end.

Definition compact_collection (base : row_tombstone) (c : collection) : collection * bool :=
  let tomb := tomb_apply (coll_tomb c) (regular base) in
  let '(survivors, any_live) := compact_elements (RowTombstone tomb (shadowable base)) (coll_cells c) in
  let tomb := if (tomb_deletion_time tomb <? gc_before) && can_gc tomb then no_tombstone else tomb in
  (Coll tomb survivors, any_live).

(** ** Rows *)

(** The function that [row::compact_and_expire] gives to [remove_if]: the cell, or
    [None] to erase it, and whether something in it is live. *)
Definition compact_cell (t : row_tombstone) (c : cell_obj) : option cell_obj * bool :=
  match data c with
  | Some (Atomic a) =>
      let v := compact_atomic false t a in
      (match v with
       | Erase => None
       | MakeDead => Some (Cell (Some (Atomic (dead_of a))) false false true 0)
       | KeepDead | KeepLive => Some c
       end, is_keep_live v)
  | Some (Counter k) =>
      let v := compact_atomic true t (counter_view k) in
      (match v with
       | Erase => None
       | MakeDead => Some (Cell (Some (Counter (CDead (timestamp (counter_view k)) (cell_deletion_time (counter_view k))))) false false true 0)
       | KeepDead | KeepLive => Some c
       end, is_keep_live v)
  | Some (Collection k) =>
      let '(m, live) := compact_collection t k in
      (if bool_decide (coll_cells m = []) && (tomb_compare (coll_tomb m) (shadowable t) <=? 0) then None
       else Some (Cell (Some (Collection m)) false false true 0), live)
  | None => (Some c, false)
  end.

(** What [remove_if] does with the cell that it erases. *)
Definition erase_cell (id : nat) (r : row) : row :=
  match store r with
  | Vec present v => Row (Vec (present ∖ {[id]}) (<[id := empty_cell]> v)) (row_size r - 1)
  | Tree m => Row (Tree (delete id m)) (row_size r - 1)
  end.

(** [remove_if], from the cell with the least id on. *)
Definition remove_step (t : row_tombstone) (acc : row * bool) (id : nat) : row * bool :=
  let '(r, any_live) := acc in
  match find_cell r id with
  | None => acc
  | Some c =>
      let '(o, live) := compact_cell t c in
      (match o with Some c' => put_cell id c' r | None => erase_cell id r end, any_live || live)
  end.

Definition compact_and_expire (t : row_tombstone) (r : row) : row * bool :=
  fold_left (remove_step t) (row_ids r) (r, false).

(** ** What a reader sees *)

(** A live cell that has not expired and that the tombstone does not cover. *)
Definition alive (is_counter : bool) (u : tombstone) (c : atomic_cell) : bool :=
  is_live c && negb (has_expired c) && negb (is_covered_by (timestamp c) u is_counter).

Inductive seen :=
| SeenCell (c : atomic_cell)
| SeenCounter (c : counter_cell)
| SeenElements (l : list (bytes * atomic_cell)).

Definition visible_elements (u : tombstone) (c : collection) : list (bytes * atomic_cell) :=
  filter (fun e => alive false u e.2 && negb (is_covered_by (timestamp e.2) (coll_tomb c) false) = true) (coll_cells c).

Definition visible (u : tombstone) (c : content) : option seen :=
  match c with
  | Atomic a => if alive false u a then Some (SeenCell a) else None
  | Counter k => if alive true u (counter_view k) then Some (SeenCounter k) else None
  | Collection k => match visible_elements u k with [] => None | l => Some (SeenElements l) end
  end.
Definition visible_data (u : tombstone) (o : option content) : option seen := x ← o; visible u x.
End compact.

(** ** Cells: what compaction keeps *)

Section cells.
Variables (now : Z) (can_gc : tombstone -> bool) (gc_before : Z).
Abbreviation alive := (alive now).
Abbreviation has_expired := (has_expired now).
Abbreviation compact_atomic := (compact_atomic now can_gc gc_before).
Abbreviation can_erase := (can_erase_cell can_gc gc_before).

(** The time at which an expired cell died fits 32 bits. *)
Definition times_ok (c : atomic_cell) : Prop := - 2 ^ 31 <= cell_deletion_time c < 2 ^ 31.

(** A tombstone that covers no more than another one. *)
Definition weaker (u t : tombstone) : Prop := missing_timestamp <= tomb_timestamp u <= tomb_timestamp t.

Lemma weaker_covered u t ts ic : weaker u t -> is_covered_by ts u ic = true -> is_covered_by ts t ic = true.
Proof.
  unfold weaker, is_covered_by, has_tombstone. intros H.
  destruct (Z.leb_spec ts (tomb_timestamp u)), (Z.leb_spec ts (tomb_timestamp t)); simpl; try done; try lia.
  destruct ic; simpl; [|done]. destruct (Z.eqb_spec (tomb_timestamp u) missing_timestamp), (Z.eqb_spec (tomb_timestamp t) missing_timestamp); simpl; done || lia.
Qed.

Lemma weaker_alive u t c ic : weaker u t -> alive ic t c = true -> alive ic u c = true.
Proof.
  unfold Compaction.alive. intros H. destruct (is_live c), (has_expired c); simpl; try done.
  destruct (is_covered_by (timestamp c) u ic) eqn:E; [|done]. by rewrite (weaker_covered _ _ _ _ H E).
Qed.

Lemma dead_not_alive ic u c : is_live c = false -> alive ic u c = false.
Proof. unfold Compaction.alive. by intros ->. Qed.

Lemma expired_not_alive ic u c : has_expired c = true -> alive ic u c = false.
Proof. unfold Compaction.alive. intros ->. by rewrite andb_false_r. Qed.

Lemma covered_not_alive ic u c : is_covered_by (timestamp c) u ic = true -> alive ic u c = false.
Proof. unfold Compaction.alive. intros ->. by rewrite andb_false_r. Qed.

(** What each verdict says of the cell. *)
Lemma verdict_spec ic t c : weaker (regular t) (shadowable t) ->
  match compact_atomic ic t c with
  | KeepLive => alive ic (shadowable t) c = true
  | Erase => alive ic (shadowable t) c = false
      /\ (is_covered_by (timestamp c) (shadowable t) ic = true \/ can_erase c = true /\ (has_expired c = true \/ is_live c = false))
  | MakeDead => has_expired c = true /\ can_erase c = false /\ is_covered_by (timestamp c) (regular t) ic = false
  | KeepDead => is_live c = false /\ can_erase c = false /\ is_covered_by (timestamp c) (regular t) ic = false
  end.
Proof.
  intros Hw. unfold Compaction.compact_atomic. destruct (is_covered_by (timestamp c) (regular t) ic) eqn:Er.
  { pose proof (weaker_covered _ _ _ _ Hw Er). split; [by apply covered_not_alive|by left]. }
  destruct (has_expired c) eqn:Ee.
  { destruct (can_erase c); [|done]. split; [by apply expired_not_alive|]. auto. }
  destruct (is_live c) eqn:El; simpl.
  - destruct (is_covered_by (timestamp c) (shadowable t) ic) eqn:Es; [by split; [apply covered_not_alive|left]|].
    unfold Compaction.alive. by rewrite El, Ee, Es.
  - destruct (can_erase c); [|done]. split; [by apply dead_not_alive|]. auto.
Qed.

(** What of an optional cell a reader sees. *)
Definition see (u : tombstone) (o : option atomic_cell) : option atomic_cell :=
  c ← o; if alive false u c then Some c else None.

Definition compacted (t : row_tombstone) (c : atomic_cell) : option atomic_cell := after_verdict (compact_atomic false t c) c.

Lemma see_compacted t u c : weaker (regular t) (shadowable t) -> weaker u (shadowable t) ->
  see u (compacted t c) = see (shadowable t) (Some c).
Proof.
  intros Ht Hu. pose proof (verdict_spec false t c Ht) as Hv. unfold compacted, see.
  destruct (compact_atomic false t c); simpl.
  - destruct Hv as [-> _]. done.
  - destruct Hv as [He _]. by rewrite (expired_not_alive _ _ _ He).
  - destruct Hv as [He _]. by rewrite !dead_not_alive.
  - rewrite Hv. by rewrite (weaker_alive _ _ _ _ Hu Hv).
Qed.

Lemma compacted_live t c : weaker (regular t) (shadowable t) ->
  is_keep_live (compact_atomic false t c) = alive false (shadowable t) c.
Proof.
  intros Ht. pose proof (verdict_spec false t c Ht) as Hv. destruct (compact_atomic false t c); simpl.
  - by destruct Hv as [-> _].
  - destruct Hv as [He _]. by rewrite expired_not_alive.
  - destruct Hv as [He _]. by rewrite dead_not_alive.
  - done.
Qed.

(** What is left of a cell: it is visible, or it is dead and cannot be purged. *)
Definition kept (t : row_tombstone) (c : atomic_cell) : Prop :=
  alive false (shadowable t) c = true
  \/ is_live c = false /\ can_erase c = false /\ tomb_timestamp (regular t) < timestamp c.

Lemma compacted_kept t c c' : weaker (regular t) (shadowable t) -> compacted t c = Some c' ->
  kept t c' /\ timestamp c' = timestamp c /\ tomb_timestamp (regular t) < timestamp c.
Proof.
  intros Ht. pose proof (verdict_spec false t c Ht) as Hv. unfold compacted, kept.
  assert (is_covered_by (timestamp c) (regular t) false = false -> tomb_timestamp (regular t) < timestamp c) as Hc.
  { unfold is_covered_by. destruct (Z.leb_spec (timestamp c) (tomb_timestamp (regular t))); [done|lia]. }
  destruct (compact_atomic false t c); simpl; intros [= <-]; simpl.
  - destruct Hv as (He & Hg & Hr). split; [|auto]. right. auto.
  - destruct Hv as (He & Hg & Hr). split; [|auto]. right. auto.
  - split; [by left|]. split; [done|]. destruct Ht. unfold Compaction.alive, is_covered_by in Hv.
    destruct (Z.leb_spec (timestamp c) (tomb_timestamp (shadowable t))); [by rewrite andb_false_r in Hv|lia].
Qed.

Lemma compacted_ok t c c' : times_ok c -> cell_ok c -> compacted t c = Some c' -> cell_ok c'.
Proof. unfold compacted. destruct (compact_atomic false t c); simpl; intros Ht Hc [= <-]; done. Qed.
End cells.

(** ** Merging compacted cells *)

(** A merge of cells in which the later timestamp wins. *)
Class LaterWins (pick : atomic_cell -> atomic_cell -> atomic_cell) : Prop := {
  pick_left x y : timestamp y < timestamp x -> pick x y = x;
  pick_right x y : timestamp x < timestamp y -> pick x y = y;
  pick_either x y : pick x y = x \/ pick x y = y }.

#[export] Instance greater_later : LaterWins (greater compare_atomic_cell_for_merge).
Proof.
  split; intros x y; unfold greater; [intros H..|by case_match; auto]; unfold compare_atomic_cell_for_merge;
    (destruct (Z.eqb_spec (timestamp x) (timestamp y)); [lia|]); simpl;
    destruct (Z.ltb_spec (timestamp y) (timestamp x)); simpl; done || lia.
Qed.

Definition pick_element (x y : atomic_cell) : atomic_cell := if 0 <? compare_atomic_cell_for_merge x y then x else y.

#[export] Instance element_later : LaterWins pick_element.
Proof.
  split; intros x y; unfold pick_element; [intros H..|by case_match; auto]; unfold compare_atomic_cell_for_merge;
    (destruct (Z.eqb_spec (timestamp x) (timestamp y)); [lia|]); simpl;
    destruct (Z.ltb_spec (timestamp y) (timestamp x)); simpl; done || lia.
Qed.

Section pick.
Variables (now : Z) (can_gc : tombstone -> bool) (gc_before : Z) (pick : atomic_cell -> atomic_cell -> atomic_cell).
Context `{!LaterWins pick}.
Abbreviation alive := (alive now).
Abbreviation see := (see now).
Abbreviation compacted := (compacted now can_gc gc_before).

(** What is written after the compaction, or kept elsewhere, is newer than what may
    be purged, and does not revive a cell that has expired. *)
Definition undisturbed (u : tombstone) (x y : atomic_cell) : Prop :=
  (can_gc (Tombstone (timestamp x) (cell_deletion_time x)) = true -> timestamp x < timestamp y)
  /\ (has_expired now x = true -> timestamp y = timestamp x -> alive false u y = false).

Lemma covered_later u ts ts' : ts' <= ts -> is_covered_by ts u false = true -> is_covered_by ts' u false = true.
Proof. unfold is_covered_by. rewrite !andb_false_l, !orb_false_r, !Z.leb_le. lia. Qed.

Lemma pick_not_alive u x y : alive false u x = false -> alive false u y = false -> alive false u (pick x y) = false.
Proof. intros Hx Hy. by destruct (pick_either x y) as [->| ->]. Qed.

Lemma pick_covered u x y : is_covered_by (timestamp x) u false = true -> see u (Some (pick x y)) = see u (Some y).
Proof.
  intros Hx. destruct (Z_lt_le_dec (timestamp x) (timestamp y)) as [Hlt|Hge]; [by rewrite pick_right|].
  simpl. pose proof (covered_later u _ _ Hge Hx) as Hy. by rewrite pick_not_alive, (covered_not_alive now false u y Hy) by (by apply covered_not_alive).
Qed.

Lemma pick_dead u x y : has_expired now x = true -> (timestamp y = timestamp x -> alive false u y = false) ->
  see u (Some (pick (dead_of x) y)) = see u (Some (pick x y)).
Proof.
  intros He Hy. destruct (Z.lt_trichotomy (timestamp x) (timestamp y)) as [Hlt|[Heq|Hgt]].
  - by rewrite !pick_right by done.
  - symmetry in Heq. specialize (Hy Heq). simpl.
    rewrite !pick_not_alive; [done|by apply expired_not_alive|done|by apply dead_not_alive|done].
  - rewrite !pick_left by done. simpl. by rewrite expired_not_alive.
Qed.

(** The compaction of [x] cannot be seen after a merge with [y]. *)
Lemma compact_pick t u x y : weaker (regular t) (shadowable t) -> weaker (shadowable t) u ->
  (forall c, y = Some c -> undisturbed u x c) ->
  see u (merge_opt pick (compacted t x) y) = see u (merge_opt pick (Some x) y).
Proof.
  intros Ht Hu Hy. pose proof (verdict_spec now can_gc gc_before false t x Ht) as Hv. unfold Compaction.compacted.
  assert (forall c, alive false (shadowable t) c = false -> alive false u c = false) as Hna.
  { intros c. unfold Compaction.alive. destruct (is_live c), (has_expired now c); simpl; try done.
    destruct (is_covered_by (timestamp c) (shadowable t) false) eqn:E; [|done]. intros _. by rewrite (weaker_covered _ _ _ _ Hu E). }
  destruct (Compaction.compact_atomic now can_gc gc_before false t x); [| |done..].
  - destruct Hv as [Hx Hv]. simpl. destruct y as [c|]; [|by simpl; rewrite Hna].
    destruct (Hy c eq_refl) as [Hg _]. destruct Hv as [Hc|[Hc _]].
    + symmetry. apply pick_covered. by eapply weaker_covered.
    + unfold can_erase_cell in Hc. apply andb_true_iff in Hc as [_ Hc]. simpl. by rewrite pick_right by auto.
  - destruct Hv as (He & _ & _). simpl. destruct y as [c|]; [|by simpl; rewrite (expired_not_alive now false u x He)].
    destruct (Hy c eq_refl) as [_ Ht']. apply pick_dead; auto.
Qed.
End pick.

(** ** Collections *)

Lemma tomb_apply_max t u : tomb_timestamp (tomb_apply t u) = Z.max (tomb_timestamp t) (tomb_timestamp u).
Proof. unfold tomb_apply, tomb_compare. zcases; simpl; lia. Qed.

Lemma covered_apply ts t u :
  is_covered_by ts (tomb_apply t u) false = is_covered_by ts t false || is_covered_by ts u false.
Proof.
  unfold is_covered_by. rewrite !andb_false_l, !orb_false_r, tomb_apply_max.
  destruct (Z.leb_spec ts (tomb_timestamp t)), (Z.leb_spec ts (tomb_timestamp u)), (Z.leb_spec ts (tomb_timestamp t `max` tomb_timestamp u)); done || lia.
Qed.

Lemma killed_covered t e : cell_killed t e = is_covered_by (timestamp e.2) t false.
Proof. unfold cell_killed, is_covered_by. rewrite andb_false_l, orb_false_r, Z.leb_antisym. done. Qed.

Lemma weaker_left t u : missing_timestamp <= tomb_timestamp t -> weaker t (tomb_apply t u).
Proof. unfold weaker. rewrite tomb_apply_max. lia. Qed.

Lemma weaker_right t u : missing_timestamp <= tomb_timestamp u -> weaker u (tomb_apply t u).
Proof. unfold weaker. rewrite tomb_apply_max. lia. Qed.

Lemma weaker_trans t u v : weaker t u -> weaker u v -> weaker t v.
Proof. unfold weaker. lia. Qed.

Lemma no_tombstone_weaker t : missing_timestamp <= tomb_timestamp t -> weaker no_tombstone t.
Proof. unfold weaker. simpl. lia. Qed.

Section collections.
Variables (now : Z) (can_gc : tombstone -> bool) (gc_before : Z) (less : bytes -> bytes -> bool).
Hypothesis Hless : def_ok (CollectionColumn less).
Abbreviation csorted := (ksorted (A := bytes * atomic_cell) fst less).
Abbreviation getc := (get (A := bytes * atomic_cell) (K := bytes) fst).
Abbreviation alive := (alive now).
Abbreviation see := (see now).
Abbreviation compacted := (compacted now can_gc gc_before).
Abbreviation compact_elements := (compact_elements now can_gc gc_before).
Abbreviation compact_collection := (compact_collection now can_gc gc_before).
Abbreviation visible_elements := (visible_elements now).

Lemma filter_sorted (P : bytes * atomic_cell -> Prop) `{!forall e, Decision (P e)} l : csorted l -> csorted (filter P l).
Proof.
  induction l as [|e l IH]; [done|]. rewrite ksorted_cons. intros [He Hl]. rewrite filter_cons. case_decide; [|by apply IH].
  apply ksorted_cons. split; [|by apply IH]. intros y [_ Hy]%list_elem_of_filter. eauto.
Qed.

Lemma filter_get (P : bytes * atomic_cell -> Prop) `{!forall e, Decision (P e)} l k : csorted l ->
  getc k (filter P l) = (e ← getc k l; if decide (P e) then Some e else None).
Proof.
  destruct Hless as (irr & _ & _). induction l as [|e l IH]; [done|]. rewrite ksorted_cons. intros [He Hl].
  rewrite filter_cons. destruct (decide (P e)) as [Hp|Hp].
  - simpl. rewrite IH by done. case_decide; [|done]. simpl. by destruct (decide (P e)).
  - rewrite IH by done. simpl. destruct (decide (e.1 = k)) as [<-|]; [|done]. simpl.
    rewrite (get_below fst less); [|done..]. simpl. by destruct (decide (P e)).
Qed.

(** What a reader sees of the element of a key. *)
Definition see_element (u : tombstone) (o : option (bytes * atomic_cell)) : option (bytes * atomic_cell) :=
  e ← o; if alive false u e.2 then Some e else None.

Lemma alive_apply u v c : alive false (tomb_apply u v) c = alive false u c && negb (is_covered_by (timestamp c) v false).
Proof. unfold Compaction.alive. rewrite covered_apply, negb_orb. by rewrite andb_assoc. Qed.

Lemma visible_get u c k : csorted (coll_cells c) ->
  getc k (visible_elements u c) = see_element (tomb_apply u (coll_tomb c)) (getc k (coll_cells c)).
Proof.
  intros Hs. unfold Compaction.visible_elements. rewrite filter_get by done. unfold see_element.
  destruct (getc k (coll_cells c)) as [e|]; [|done]. simpl. rewrite alive_apply.
  by destruct (alive false u e.2 && negb (is_covered_by (timestamp e.2) (coll_tomb c) false)).
Qed.

Lemma visible_ext u v c d : csorted (coll_cells c) -> csorted (coll_cells d) ->
  (forall k, see_element (tomb_apply u (coll_tomb c)) (getc k (coll_cells c)) = see_element (tomb_apply v (coll_tomb d)) (getc k (coll_cells d))) ->
  visible_elements u c = visible_elements v d.
Proof.
  destruct Hless as (irr & tr & tot). intros Hc Hd E. apply (ksorted_ext fst less irr tr); [by apply filter_sorted..|].
  intros k. by rewrite !visible_get by done.
Qed.

Lemma see_kill u t o : tomb_timestamp t <= tomb_timestamp u -> see_element u (kill t o) = see_element u o.
Proof.
  intros Hle. destruct o as [e|]; [|done]. simpl. rewrite killed_covered.
  destruct (is_covered_by (timestamp e.2) t false) eqn:E; [|done]. rewrite covered_not_alive; [done|].
  unfold is_covered_by in *. rewrite andb_false_l, orb_false_r, Z.leb_le in *. lia.
Qed.

(** What a reader sees of a merged collection. *)
Lemma visible_merge a b k U : collection_ok less a -> collection_ok less b ->
  tomb_timestamp (coll_tomb a) <= tomb_timestamp U -> tomb_timestamp (coll_tomb b) <= tomb_timestamp U ->
  see_element U (getc k (coll_cells (collection_merge less a b))) =
  see_element U (merge_opt merge_elements (getc k (coll_cells a)) (getc k (coll_cells b))).
Proof.
  destruct Hless as (irr & tr & tot). intros Ha Hb Hta Htb. rewrite collection_merge_get by done.
  pose proof (get_keyed less a k Ha) as Ka. pose proof (get_keyed less b k Hb) as Kb.
  rewrite <- (own_kill less a k Ha) at 1. rewrite <- (own_kill less b k Hb) at 1.
  rewrite (kill_comm (coll_tomb b)), <- (kill_merge k) by (by apply kill_keyed).
  rewrite see_kill by done. rewrite <- (kill_merge k) by done. by apply see_kill.
Qed.

(** The compacted cells, key by key. *)
Lemma compact_elements_get t l k : csorted l ->
  getc k (compact_elements t l).1 = (e ← getc k l; c ← compacted t e.2; Some (e.1, c)).
Proof.
  destruct Hless as (irr & _ & _). induction l as [|[k' c] l IH]; [done|]. rewrite ksorted_cons. intros [He Hl]. simpl.
  specialize (IH Hl). destruct (compact_elements t l) as [l' live] eqn:El. simpl in *.
  destruct (decide (k' = k)) as [->|Hne]; simpl; unfold Compaction.compacted.
  - destruct (after_verdict _ c) as [c'|]; simpl; [by rewrite decide_True|].
    rewrite IH. rewrite (get_below fst less); done.
  - destruct (after_verdict _ c) as [c'|]; simpl; [by rewrite decide_False|]. done.
Qed.

Lemma compact_elements_elem t l e : e ∈ (compact_elements t l).1 -> exists c, (e.1, c) ∈ l /\ compacted t c = Some e.2.
Proof.
  induction l as [|[k c] l IH]; simpl; [by intros ?%elem_of_nil|]. destruct (compact_elements t l) as [l' live]. simpl in *.
  unfold Compaction.compacted. destruct (after_verdict _ c) as [c'|] eqn:Ev; simpl.
  - rewrite elem_of_cons. intros [->|He]; [exists c; split; [apply elem_of_cons; by left|done]|].
    destruct (IH He) as (x & Hx & E). exists x. split; [apply elem_of_cons; by right|done].
  - intros He. destruct (IH He) as (x & Hx & E). exists x. split; [apply elem_of_cons; by right|done].
Qed.

Lemma compact_elements_sorted t l : csorted l -> csorted (compact_elements t l).1.
Proof.
  induction l as [|[k c] l IH]; [done|]. rewrite ksorted_cons. intros [He Hl]. specialize (IH Hl). simpl.
  pose proof (compact_elements_elem t l) as Hin. destruct (compact_elements t l) as [l' live]. simpl in *.
  destruct (after_verdict _ c) as [c'|]; simpl; [|done]. apply ksorted_cons. split; [|done].
  intros y Hy. destruct (Hin y Hy) as (x & Hx & _). specialize (He _ Hx). done.
Qed.

Lemma compact_elements_live t l : weaker (regular t) (shadowable t) ->
  (compact_elements t l).2 = existsb (fun e => alive false (shadowable t) e.2) l.
Proof.
  intros Ht. induction l as [|[k c] l IH]; [done|]. simpl. destruct (compact_elements t l). simpl in *.
  by rewrite IH, compacted_live.
Qed.

(** In a collection the tombstone of the collection joins the regular one. *)
Lemma compacted_join r s c : compacted (RowTombstone r s) c = compacted (RowTombstone r (tomb_apply r s)) c.
Proof.
  unfold Compaction.compacted, Compaction.compact_atomic. simpl. rewrite covered_apply.
  by destruct (is_covered_by (timestamp c) r false).
Qed.

Lemma compact_elements_join r s l : compact_elements (RowTombstone r s) l = compact_elements (RowTombstone r (tomb_apply r s)) l.
Proof.
  induction l as [|[k c] l IH]; [done|]. simpl. rewrite IH. destruct (compact_elements _ l).
  unfold Compaction.compact_atomic. simpl. rewrite covered_apply. by destruct (is_covered_by (timestamp c) r false).
Qed.

(** ** The compaction of a collection *)

Definition collection_valid (c : collection) : Prop :=
  missing_timestamp <= tomb_timestamp (coll_tomb c) /\ forall e, e ∈ coll_cells c -> times_ok e.2.

(** The tombstones that act on the elements. *)
Definition element_tombstone (t : row_tombstone) (c : collection) : row_tombstone :=
  let r := tomb_apply (coll_tomb c) (regular t) in RowTombstone r (tomb_apply r (shadowable t)).

(** The tombstone that the collection has after it. *)
Definition tomb_left (t : row_tombstone) (c : collection) : tombstone :=
  let tomb := tomb_apply (coll_tomb c) (regular t) in
  if (tomb_deletion_time tomb <? gc_before) && can_gc tomb then no_tombstone else tomb.

Lemma compact_collection_eq t c :
  compact_collection t c =
    (Coll (tomb_left t c) (compact_elements (element_tombstone t c) (coll_cells c)).1, (compact_elements (element_tombstone t c) (coll_cells c)).2).
Proof.
  unfold Compaction.compact_collection, tomb_left, element_tombstone. rewrite compact_elements_join. by destruct (compact_elements _ _).
Qed.

Lemma alive_same u v c : tomb_timestamp u = tomb_timestamp v -> alive false u c = alive false v c.
Proof. unfold Compaction.alive, is_covered_by. by intros ->. Qed.

Lemma see_element_same u v o : tomb_timestamp u = tomb_timestamp v -> see_element u o = see_element v o.
Proof. intros E. destruct o as [e|]; [|done]. simpl. by rewrite (alive_same u v). Qed.

Section compaction.
Variables (t : row_tombstone) (c : collection).
Hypothesis Ht : weaker (regular t) (shadowable t).
Hypothesis Hc : collection_ok less c.
Hypothesis Hv : collection_valid c.
Abbreviation c' := (compact_collection t c).1.

Lemma element_weaker : weaker (regular (element_tombstone t c)) (shadowable (element_tombstone t c)).
Proof. destruct Hv, Ht. apply weaker_left. rewrite tomb_apply_max. lia. Qed.

Lemma element_timestamp :
  tomb_timestamp (shadowable (element_tombstone t c)) = tomb_timestamp (tomb_apply (shadowable t) (coll_tomb c)).
Proof. destruct Ht. simpl. rewrite !tomb_apply_max. lia. Qed.

Lemma tomb_left_le : missing_timestamp <= tomb_timestamp (tomb_left t c) <= tomb_timestamp (regular (element_tombstone t c)).
Proof. destruct Hv, Ht. unfold tomb_left. case_match; simpl; rewrite ?tomb_apply_max; lia. Qed.

Lemma compact_collection_get k :
  getc k (coll_cells c') = (e ← getc k (coll_cells c); x ← compacted (element_tombstone t c) e.2; Some (e.1, x)).
Proof. rewrite compact_collection_eq. simpl. apply compact_elements_get, Hc. Qed.

Lemma compact_collection_ok : collection_ok less c'.
Proof.
  rewrite compact_collection_eq. split; simpl; [apply compact_elements_sorted, Hc|].
  intros e He. apply compact_elements_elem in He as (x & Hx & E). destruct Hc as [_ Hok]. destruct (Hok _ Hx) as [Hx1 Hx2].
  destruct (compacted_kept now can_gc gc_before _ _ _ element_weaker E) as (_ & Ets & Hlt).
  split; [eapply compacted_ok; [apply Hv|..]; eauto|]. rewrite killed_covered, Ets.
  unfold is_covered_by. rewrite andb_false_l, orb_false_r. apply Z.leb_gt. pose proof tomb_left_le. lia.
Qed.

Lemma compact_collection_visible u : weaker u (shadowable t) -> visible_elements u c' = visible_elements (shadowable t) c.
Proof.
  intros Hu. apply visible_ext; [apply compact_collection_ok|apply Hc|]. intros k. rewrite compact_collection_get.
  destruct (getc k (coll_cells c)) as [e|]; [|done]. simpl.
  assert (weaker (tomb_apply u (coll_tomb c')) (shadowable (element_tombstone t c))) as Hw.
  { pose proof tomb_left_le as [H1 H2]. pose proof element_weaker as [_ H3]. destruct Hu as [Hu1 Hu2].
    rewrite compact_collection_eq. unfold weaker. simpl in *. rewrite !tomb_apply_max in *. lia. }
  pose proof (see_compacted now can_gc gc_before _ _ e.2 element_weaker Hw) as Hs. unfold Compaction.see in Hs. simpl in Hs.
  rewrite <- (alive_same _ _ e.2 element_timestamp).
  destruct (compacted (element_tombstone t c) e.2) as [x|]; simpl in *; [|by destruct (alive false _ e.2)].
  destruct (alive false (tomb_apply u _) x), (alive false _ e.2); simplify_eq; try done. by destruct e.
Qed.

Lemma compact_collection_live : (compact_collection t c).2 = true <-> visible_elements (shadowable t) c <> [].
Proof.
  rewrite compact_collection_eq. simpl. rewrite compact_elements_live by apply element_weaker. rewrite existsb_exists.
  setoid_rewrite <- list_elem_of_In. unfold Compaction.visible_elements. split.
  - intros (e & He & Ha) E. apply (elem_of_nil e). rewrite <- E. apply list_elem_of_filter. split; [|done].
    rewrite (alive_same _ _ e.2 element_timestamp), alive_apply in Ha. done.
  - intros E. destruct (filter _ _) as [|e l] eqn:Ef; [done|]. assert (e ∈ e :: l) as He by (apply elem_of_cons; by left).
    rewrite <- Ef in He. apply list_elem_of_filter in He as [Ha He]. exists e. split; [done|].
    by rewrite (alive_same _ _ e.2 element_timestamp), alive_apply.
Qed.

Lemma compact_collection_kept e : e ∈ coll_cells c' -> kept now can_gc gc_before (element_tombstone t c) e.2.
Proof.
  rewrite compact_collection_eq. intros (x & Hx & E)%compact_elements_elem.
  by destruct (compacted_kept now can_gc gc_before _ _ _ element_weaker E).
Qed.

(** Elements under one key, as cells. *)
Lemma merge_cells k x y :
  merge_opt merge_elements (pair k <$> x) (pair k <$> y) = pair k <$> merge_opt pick_element x y.
Proof. destruct x, y; done. Qed.

Lemma see_cells u k o : see_element u (pair k <$> o) = pair k <$> see u o.
Proof. destruct o as [x|]; [|done]. simpl. by destruct (alive false u x). Qed.

Lemma get_cells d k : getc k (coll_cells d) = pair k <$> (snd <$> getc k (coll_cells d)).
Proof. destruct (getc k (coll_cells d)) as [e|] eqn:E; [|done]. apply get_elem in E as [_ <-]. simpl. by destruct e. Qed.

(** Nothing of [b] is older than what was purged, or revives an expired element. *)
Definition elements_undisturbed (b : collection) : Prop :=
  (forall u e, can_gc u = true -> e ∈ coll_cells b -> tomb_timestamp u < timestamp e.2)
  /\ forall x y k, (k, x) ∈ coll_cells c -> (k, y) ∈ coll_cells b -> has_expired now x = true -> timestamp y = timestamp x ->
       alive false (shadowable t) y = false.

Lemma alive_stronger u v x : tomb_timestamp u <= tomb_timestamp v -> alive false u x = false -> alive false v x = false.
Proof.
  unfold Compaction.alive, is_covered_by. rewrite !andb_false_l, !orb_false_r. intros H. destruct (is_live x), (has_expired now x); simpl; try done.
  destruct (Z.leb_spec (timestamp x) (tomb_timestamp u)), (Z.leb_spec (timestamp x) (tomb_timestamp v)); done || lia.
Qed.

(** The elements of a key after the merge, seen through any tombstone at least as
    strong as those that act on the elements. *)
Lemma compact_merge_key b k U : collection_ok less b -> elements_undisturbed b ->
  tomb_timestamp (shadowable (element_tombstone t c)) <= tomb_timestamp U ->
  see_element U (merge_opt merge_elements (getc k (coll_cells c')) (getc k (coll_cells b))) =
  see_element U (merge_opt merge_elements (getc k (coll_cells c)) (getc k (coll_cells b))).
Proof.
  intros Hb [Hu1 Hu2] HU. rewrite compact_collection_get, (get_cells c k), (get_cells b k).
  assert (forall o, (e ← pair k <$> o; x ← compacted (element_tombstone t c) e.2; Some (e.1, x)) =
                    pair k <$> (x ← o; compacted (element_tombstone t c) x)) as ->.
  { intros [x|]; [|done]. simpl. by destruct (compacted _ x). }
  rewrite !merge_cells, !see_cells. f_equal. destruct (getc k (coll_cells c)) as [[k1 x]|] eqn:Ex; [|done]. simpl.
  apply get_elem in Ex as [Ex Ek]. simpl in Ek. subst k1.
  apply (compact_pick now can_gc gc_before pick_element); [apply element_weaker| |].
  { split; [|done]. pose proof element_weaker as [H1 H2]. lia. }
  intros y Ey. destruct (getc k (coll_cells b)) as [[k2 y']|] eqn:Eb; [|done]. simpl in Ey. injection Ey as ->.
  apply get_elem in Eb as [Eb Ek]. simpl in Ek. subst k2. split.
  - intros Hg. by apply (Hu1 _ (k, y) Hg).
  - intros He Hts. eapply alive_stronger; [exact HU|]. eapply alive_stronger; [|by eapply Hu2].
    rewrite element_timestamp, tomb_apply_max. lia.
Qed.

(** The compaction of a collection cannot be seen after a merge. *)
Lemma compact_collection_merge b : collection_ok less b -> collection_valid b -> elements_undisturbed b ->
  visible_elements (shadowable t) (collection_merge less c' b) = visible_elements (shadowable t) (collection_merge less c b).
Proof.
  destruct Hless as (irr & tr & tot). intros Hb [Hvb _] Hun. pose proof compact_collection_ok as Hc'.
  pose proof (collection_merge_ok less irr tr tot _ _ Hc' Hb) as [H1 _]. pose proof (collection_merge_ok less irr tr tot _ _ Hc Hb) as [H2 _].
  apply visible_ext; [done..|]. intros k. simpl coll_tomb.
  set (U := tomb_apply (shadowable t) (tomb_apply (coll_tomb c) (coll_tomb b))).
  set (U' := tomb_apply (shadowable t) (tomb_apply (coll_tomb c') (coll_tomb b))).
  rewrite !visible_merge by (done || (unfold U, U'; rewrite !tomb_apply_max; lia)).
  rewrite <- compact_merge_key by (done || (unfold U; rewrite element_timestamp, !tomb_apply_max; lia)).
  pose proof tomb_left_le as Hleft. pose proof (compact_collection_eq t c) as Eq.
  assert (coll_tomb c' = tomb_left t c) as Et by (by rewrite Eq).
  unfold tomb_left in *. destruct ((_ <? gc_before) && can_gc _) eqn:Eg.
  2:{ apply see_element_same. unfold U, U'. rewrite Et. destruct Ht. rewrite !tomb_apply_max. lia. }
  apply andb_true_iff in Eg as [_ Eg]. pose proof (fun e => proj1 Hun _ e Eg) as Hnew.
  destruct (merge_opt merge_elements (getc k (coll_cells c')) (getc k (coll_cells b))) as [e|] eqn:Em; [|done]. simpl.
  assert (tomb_timestamp (tomb_apply (coll_tomb c) (regular t)) < timestamp e.2) as Hlt.
  { assert (forall x, getc k (coll_cells c') = Some x -> tomb_timestamp (tomb_apply (coll_tomb c) (regular t)) < timestamp x.2) as Hx.
    { intros x Ex. rewrite compact_collection_get in Ex. destruct (getc k (coll_cells c)) as [e0|]; [|done]. simpl in Ex.
      destruct (compacted _ e0.2) as [z|] eqn:Ez; [|done]. injection Ex as <-.
      destruct (compacted_kept now can_gc gc_before _ _ _ element_weaker Ez) as (_ & E0 & ?). simpl. by rewrite E0. }
    assert (forall y, getc k (coll_cells b) = Some y -> tomb_timestamp (tomb_apply (coll_tomb c) (regular t)) < timestamp y.2) as Hy.
    { intros y [Hy _]%get_elem. eauto. }
    destruct (getc k (coll_cells c')) as [x|], (getc k (coll_cells b)) as [y|]; simpl in Em; try injection Em as <-; [|by auto..|done].
    change ((merge_elements x y).1, (merge_elements x y).2) with (merge_elements x y). rewrite merge_elements_timestamp. specialize (Hx x eq_refl). lia. }
  assert (alive false U' e.2 = alive false U e.2) as ->; [|done]. unfold Compaction.alive, is_covered_by. f_equal. f_equal.
  rewrite !andb_false_l, !orb_false_r. unfold U, U'. rewrite Et. simpl. rewrite !tomb_apply_max in *. simpl.
  destruct Hv, Ht. destruct (Z.leb_spec (timestamp e.2) (Z.max (tomb_timestamp (shadowable t)) (Z.max missing_timestamp (tomb_timestamp (coll_tomb b))))),
    (Z.leb_spec (timestamp e.2) (Z.max (tomb_timestamp (shadowable t)) (Z.max (tomb_timestamp (coll_tomb c)) (tomb_timestamp (coll_tomb b))))); done || lia.
Qed.
End compaction.
End collections.
