(* ===== verification/CompactionTheorems.v ===== *)
(** * Compaction of rows: theorems

    What a reader sees of a row is the same before and after
    [row::compact_and_expire], the flag it returns is exact, only what has to be
    kept is left, and merging other data later gives what it would have given
    without the compaction. *)

From stdpp Require Import gmap.
From S2P Require Import Prelude Mergeable Keyed Cell Counters Row RowInv RowTheorems PartitionWrite Compaction.
Open Scope Z_scope.

Lemma put_updates id c d r : row_ok r -> find_cell r id = Some c -> data d <> None ->
  updates find_cell row_ok r id (Some d) (put_cell id d r).
Proof.
  intros Hok E Hd. pose proof (find_nonempty r id c Hok E) as Hc. destruct r as [[present v|m] n].
  - rewrite find_vec in E by done. apply bind_Some in E as (c' & Ev & E). case_decide; simplify_eq. by eapply vec_replace.
  - by eapply tree_replace.
Qed.

Lemma erase_updates id c r : row_ok r -> find_cell r id = Some c -> updates find_cell row_ok r id None (erase_cell id r).
Proof.
  intros Hok E. pose proof (find_nonempty r id c Hok E) as Hc. destruct r as [[present v|m] n].
  - rewrite find_vec in E by done. apply bind_Some in E as (c' & Ev & E). case_decide; simplify_eq. by eapply vec_remove.
  - by eapply tree_remove.
Qed.

Section rows.
Variables (now : Z) (can_gc : tombstone -> bool) (gc_before : Z) (defs : nat -> column_type) (t : row_tombstone).
Hypothesis Hdefs : forall id, def_ok (defs id).
Hypothesis Ht : weaker (regular t) (shadowable t).
Abbreviation visible_data := (visible_data now).
Abbreviation alive := (alive now).
Abbreviation compact_cell := (compact_cell now can_gc gc_before t).
Abbreviation compact := (compact_and_expire now can_gc gc_before t).
Abbreviation T := (shadowable t).

(** Timestamps and times that the clocks of the system can give. *)
Definition content_valid (c : content) : Prop :=
  match c with
  | Atomic a => times_ok a
  | Counter k => missing_timestamp < timestamp (counter_view k)
  | Collection k => collection_valid k
  end.

(** What compaction may leave: what is visible, what is dead and may not be purged
    yet, and the tombstone of a collection that the row does not have already. *)
Definition kept_cell (is_counter : bool) (a : atomic_cell) : Prop :=
  alive is_counter T a = true \/ is_live a = false /\ can_erase_cell can_gc gc_before a = false.
Definition kept_content (c : content) : Prop :=
  match c with
  | Atomic a => kept_cell false a
  | Counter k => kept_cell true (counter_view k)
  | Collection k => (forall e, e ∈ coll_cells k -> kept_cell false e.2) /\ (tomb_le (coll_tomb k) T -> coll_cells k <> [])
  end.

Definition cell_compacted (def : column_type) (c : cell_obj) (o : option cell_obj) (live : bool) : Prop :=
  (forall c', o = Some c' -> cell_good def c' /\ forall x, data c' = Some x -> kept_content x)
  /\ (forall u, weaker u T -> visible_data u (x ← o; data x) = visible_data T (data c))
  /\ (live = true <-> is_Some (visible_data T (data c))).

Lemma atomic_compacted c a : cell_good AtomicColumn c -> data c = Some (Atomic a) -> times_ok a ->
  cell_compacted AtomicColumn c (compact_cell c).1 (compact_cell c).2.
Proof.
  intros Hc E Ha. destruct Hc as ((x & Ex & Hok) & Hr & Hi). rewrite E in Ex. injection Ex as <-. simpl in Hok.
  unfold Compaction.compact_cell. rewrite E. simpl. unfold cell_compacted. rewrite E. simpl.
  rewrite (compacted_live now can_gc gc_before t a Ht). split; [|split].
  - pose proof (compacted_kept now can_gc gc_before t a) as Hk. unfold compacted in Hk.
    destruct (compact_atomic now can_gc gc_before false t a); simpl; intros c' [= <-].
    + split; [split; [eexists; split; [done|exact Ha]|done]|]. intros x [= <-]. destruct (Hk _ Ht eq_refl) as ([?|(? & ? & _)] & _); [by left|by right].
    + split; [split; [eauto|done]|]. rewrite E. intros x [= <-]. destruct (Hk _ Ht eq_refl) as ([?|(? & ? & _)] & _); [by left|by right].
    + split; [split; [eauto|done]|]. rewrite E. intros x [= <-]. destruct (Hk _ Ht eq_refl) as ([?|(? & ? & _)] & _); [by left|by right].
  - intros u Hu. pose proof (see_compacted now can_gc gc_before t u a Ht Hu) as Hs. unfold see, compacted in Hs. simpl in Hs.
    destruct (compact_atomic now can_gc gc_before false t a); simpl in *; rewrite ?E; simpl;
      repeat case_match; simplify_eq; done.
  - by case_match; split.
Qed.

Lemma counter_compacted c k : cell_good CounterColumn c -> data c = Some (Counter k) ->
  missing_timestamp < timestamp (counter_view k) ->
  cell_compacted CounterColumn c (compact_cell c).1 (compact_cell c).2.
Proof.
  intros Hc E Hk. unfold Compaction.compact_cell. rewrite E. simpl. unfold cell_compacted. rewrite E. simpl.
  pose proof (verdict_spec now can_gc gc_before true t (counter_view k) Ht) as Hv.
  assert (has_expired now (counter_view k) = false) as He by (by destruct k).
  destruct (compact_atomic now can_gc gc_before true t (counter_view k)); simpl.
  - destruct Hv as [Ha _]. rewrite Ha. split; [done|]. split; [done|]. split; [done|by intros [? ?]].
  - destruct Hv as [Hv _]. by rewrite He in Hv.
  - destruct Hv as (Hd & Hg & _). rewrite (dead_not_alive now true T) by done. split; [|split; [|by split; [|intros [? ?]]]].
    + intros c' [= <-]. split; [done|]. rewrite E. intros x [= <-]. right. done.
    + intros u _. rewrite E. simpl. by rewrite dead_not_alive.
  - rewrite Hv. split; [|split; [|by split; eauto]].
    + intros c' [= <-]. split; [done|]. rewrite E. intros x [= <-]. by left.
    + intros u Hu. rewrite E. simpl. by rewrite (weaker_alive now u T _ _ Hu Hv).
Qed.

Lemma visible_collection u k : visible_data u (Some (Collection k)) = None <-> visible_elements now u k = [].
Proof. unfold visible_data, visible. simpl. by destruct (visible_elements now u k). Qed.

Lemma collection_compacted less c k : def_ok (CollectionColumn less) -> cell_good (CollectionColumn less) c ->
  data c = Some (Collection k) -> collection_valid k ->
  cell_compacted (CollectionColumn less) c (compact_cell c).1 (compact_cell c).2.
Proof.
  intros Hless ((x & Ex & Hok) & _) E Hk. rewrite E in Ex. injection Ex as <-. simpl in Hok.
  pose proof (compact_collection_ok now can_gc gc_before less t k Ht Hok Hk) as Hok'.
  pose proof (compact_collection_visible now can_gc gc_before less Hless t k Ht Hok Hk) as Hvis.
  pose proof (compact_collection_live now can_gc gc_before t k Ht Hk) as Hlive.
  pose proof (compact_collection_kept now can_gc gc_before t k Ht Hk) as Hkept.
  unfold Compaction.compact_cell. rewrite E. destruct (compact_collection now can_gc gc_before t k) as [m live] eqn:Em. simpl in *.
  unfold cell_compacted. rewrite E. split; [|split].
  - destruct (bool_decide (coll_cells m = []) && (tomb_compare (coll_tomb m) T <=? 0)) eqn:Er; [done|]. intros c' [= <-].
    split; [split; [eexists; split; [done|exact Hok']|done]|]. intros x [= <-]. split.
    + intros e He. destruct (Hkept e He) as [Ha|(? & ? & _)]; [|by right]. left.
      rewrite (alive_same _ _ _ _ (element_timestamp t k Ht)), alive_apply in Ha. by apply andb_true_iff in Ha as [? _].
    + intros Hle Hnil. rewrite (bool_decide_eq_true_2 _ Hnil) in Er. simpl in Er. unfold tomb_le in Hle. lia.
  - intros u Hu. destruct (bool_decide (coll_cells m = []) && (tomb_compare (coll_tomb m) T <=? 0)) eqn:Er; simpl.
    + apply andb_true_iff in Er as [Er%bool_decide_eq_true_1 _]. symmetry. apply visible_collection.
      rewrite <- (Hvis u Hu). unfold visible_elements. by rewrite Er.
    + unfold visible. by rewrite (Hvis u Hu).
  - rewrite Hlive. unfold visible_data, visible. simpl. by destruct (visible_elements now T k); split.
Qed.

Lemma compact_cell_spec def c : def_ok def -> cell_good def c -> (forall x, data c = Some x -> content_valid x) ->
  cell_compacted def c (compact_cell c).1 (compact_cell c).2.
Proof.
  intros Hdef Hc Hv. pose proof Hc as ((x & E & Hok) & _). specialize (Hv x E).
  destruct def as [| |less], x; simpl in Hok; try done.
  - by eapply atomic_compacted.
  - by eapply counter_compacted.
  - by eapply collection_compacted.
Qed.

(** ** Rows *)

Lemma compact_fold ids : forall r live, NoDup ids -> row_ok r ->
  (forall id, id ∈ ids -> is_Some (find_cell r id)) ->
  (forall id c, id ∈ ids -> find_cell r id = Some c -> cell_good (defs id) c /\ forall x, data c = Some x -> content_valid x) ->
  let '(r', live') := fold_left (remove_step now can_gc gc_before t) ids (r, live) in
  row_ok r'
  /\ (forall id, find_cell r' id = if decide (id ∈ ids) then c ← find_cell r id; (compact_cell c).1 else find_cell r id)
  /\ (live' = true <-> live = true \/ exists id, id ∈ ids /\ is_Some (visible_data T (cell_data r id))).
Proof.
  induction ids as [|id ids IH]; intros r live Hnd Hok Hf Hg; simpl.
  { split; [done|]. split; [done|split; [by left|]].
    intros [?|(id & []%elem_of_nil & _)]. done. }
  apply NoDup_cons in Hnd as [Hid Hnd]. destruct (Hf id ltac:(apply elem_of_cons; by left)) as [c Ec]. rewrite Ec.
  destruct (Hg id c ltac:(apply elem_of_cons; by left) Ec) as [Hc Hv].
  pose proof (compact_cell_spec (defs id) c (Hdefs id) Hc Hv) as (H1 & H2 & H3).
  destruct (compact_cell c) as [o l] eqn:Eo. simpl in *.
  set (r1 := match o with Some c' => put_cell id c' r | None => erase_cell id r end).
  assert (updates find_cell row_ok r id o r1) as [Hok1 Hf1].
  { unfold r1. destruct o as [c'|]; [|by eapply erase_updates]. eapply put_updates; [done..|].
    destruct (H1 c' eq_refl) as [((x & -> & _) & _) _]. done. }
  assert (forall i, i ∈ ids -> find_cell r1 i = find_cell r i) as Hrest.
  { intros i Hi. rewrite Hf1. destruct (decide (i = id)); [by subst|done]. }
  specialize (IH r1 (live || l) Hnd Hok1). destruct (fold_left _ ids _) as [r' live'] eqn:Efold.
  destruct IH as (Hok' & Hf' & Hl').
  { intros i Hi. rewrite Hrest by done. apply Hf, elem_of_cons. by right. }
  { intros i c0 Hi. rewrite Hrest by done. apply Hg, elem_of_cons. by right. }
  split; [done|]. split.
  - intros i. rewrite Hf', Hf1. destruct (decide (i = id)) as [->|Hne].
    + destruct (decide (id ∈ ids)); [done|]. destruct (decide (id ∈ id :: ids)) as [_|Hn]; [rewrite Ec; simpl; by rewrite Eo|].
      destruct Hn. apply elem_of_cons. by left.
    + destruct (decide (i ∈ ids)) as [Hi|Hi], (decide (i ∈ id :: ids)) as [Hi'|Hi']; try done; rewrite elem_of_cons in Hi'; [tauto|by destruct Hi'].
  - rewrite Hl', orb_true_iff, H3. setoid_rewrite elem_of_cons. split.
    + intros [[?|?]|(i & Hi & Hs)]; [by left|right; exists id; split; [by left|]; unfold cell_data; by rewrite Ec|].
      right. exists i. split; [by right|]. unfold cell_data in *. by rewrite <- Hrest.
    + intros [?|(i & [->|Hi] & Hs)]; [by left; left|left; right; unfold cell_data in Hs; by rewrite Ec in Hs|].
      right. exists i. split; [done|]. unfold cell_data in *. by rewrite Hrest.
Qed.

(** A row at rest with valid times. *)
Definition row_valid (r : row) : Prop := row_good defs r /\ forall id x, cell_data r id = Some x -> content_valid x.

Lemma compact_row_spec r : row_valid r ->
  let '(r', live) := compact r in
  row_good defs r'
  /\ (forall id, find_cell r' id = c ← find_cell r id; (compact_cell c).1)
  /\ (forall u id, weaker u T -> visible_data u (cell_data r' id) = visible_data T (cell_data r id))
  /\ (forall id x, cell_data r' id = Some x -> kept_content x)
  /\ (live = true <-> exists id, is_Some (visible_data T (cell_data r id))).
Proof.
  intros [[Hok Hgood] Hval].
  assert (forall id c, find_cell r id = Some c -> cell_good (defs id) c /\ forall x, data c = Some x -> content_valid x) as Hg.
  { intros id c E. split; [by apply Hgood|]. intros x Ex. apply (Hval id). unfold cell_data. by rewrite E. }
  pose proof (compact_fold (row_ids r) r false (row_ids_NoDup r) Hok (fun id => proj1 (row_ids_elem r id)) (fun id c _ => Hg id c)) as Hf.
  unfold compact_and_expire. destruct (fold_left _ _ _) as [r' live]. destruct Hf as (Hok' & Hf & Hl).
  assert (forall id, find_cell r' id = c ← find_cell r id; (compact_cell c).1) as Hf'.
  { intros id. rewrite Hf. case_decide as Hi; [done|]. rewrite row_ids_elem in Hi. destruct (find_cell r id); [|done]. by destruct Hi. }
  assert (forall id c, find_cell r id = Some c -> cell_compacted (defs id) c (compact_cell c).1 (compact_cell c).2) as Hc.
  { intros id c E. destruct (Hg id c E). by apply compact_cell_spec. }
  split; [split; [done|]|split; [done|split; [|split]]].
  - intros id c'. rewrite Hf'. intros (c & E & Ec)%bind_Some. by apply (Hc id c E).
  - intros u id Hu. unfold cell_data. rewrite Hf'. destruct (find_cell r id) as [c|] eqn:E; [|done]. simpl.
    destruct (Hc id c E) as (_ & H2 & _). apply (H2 u Hu).
  - intros id x. unfold cell_data. rewrite Hf'. intros (c' & (c & E & Ec)%bind_Some & Ex)%bind_Some.
    destruct (Hc id c E) as (H1 & _). by apply (H1 c' Ec).
  - rewrite Hl. split.
    + intros [?|(id & _ & Hs)]; [done|by exists id].
    + intros (id & Hs). right. exists id. split; [|done]. apply row_ids_elem. unfold cell_data in Hs.
      destruct (find_cell r id); [by eexists|by destruct Hs].
Qed.

(** ** Compaction and merging *)

(** Data that are merged later do not touch what compaction took away: they are
    newer than what may be purged, and they hold no live cell that has the
    timestamp of an expired one. A deleted counter is deleted for good, so that it
    must not have been purged. *)
Definition content_undisturbed (x y : content) : Prop :=
  match x, y with
  | Atomic a, Atomic b => undisturbed now can_gc T a b
  | Counter a, Counter _ => cc_is_live a = true \/ can_erase_cell can_gc gc_before (counter_view a) = false
  | Collection a, Collection b => elements_undisturbed now can_gc t a b
  | _, _ => True
  end.

Lemma visible_atomic u a : visible_data u (Some (Atomic a)) = SeenCell <$> see now u (Some a).
Proof. simpl. by case_match. Qed.

Lemma atomic_merge_invisible c a b : data c = Some (Atomic a) -> undisturbed now can_gc T a b ->
  visible_data T (data_merge AtomicColumn (x ← (compact_cell c).1; data x) (Some (Atomic b))) =
  visible_data T (Some (Atomic (greater compare_atomic_cell_for_merge a b))).
Proof.
  intros E Hu. assert (weaker T T) as HT by (destruct Ht; split; lia).
  pose proof (compact_pick now can_gc gc_before (greater compare_atomic_cell_for_merge) t T a (Some b) Ht HT ltac:(by intros ? [= <-])) as Hp.
  rewrite visible_atomic. simpl merge_opt in Hp at 2. rewrite <- Hp. unfold Compaction.compact_cell, compacted. rewrite E.
  destruct (compact_atomic now can_gc gc_before false t a); cbn -[greater]; rewrite ?E; cbn -[greater]; by case_match.
Qed.

Lemma counter_merge_invisible c a b : data c = Some (Counter a) ->
  content_ok CounterColumn (Counter a) -> content_ok CounterColumn (Counter b) ->
  missing_timestamp < timestamp (counter_view a) -> missing_timestamp < timestamp (counter_view b) ->
  (cc_is_live a = true \/ can_erase_cell can_gc gc_before (counter_view a) = false) ->
  visible_data T (data_merge CounterColumn (x ← (compact_cell c).1; data x) (Some (Counter b))) =
  visible_data T (Some (Counter (counter_merge a b))).
Proof.
  intros E Ha Hb Hta Htb Hg. unfold Compaction.compact_cell. rewrite E. simpl in Ha, Hb.
  assert (has_tombstone T = true -> forall k, visible_data T (Some (Counter k)) = None) as Hcov.
  { intros Hh k. unfold visible_data, visible. simpl. unfold Compaction.alive, is_covered_by. rewrite Hh. simpl. by rewrite orb_true_r, andb_false_r. }
  destruct (has_tombstone T) eqn:Eh.
  - destruct (compact_atomic now can_gc gc_before true t (counter_view a)); cbn -[visible_data]; rewrite ?E; cbn -[visible_data]; by rewrite !Hcov.
  - assert (tomb_timestamp T = missing_timestamp) as ET by (unfold has_tombstone in Eh; destruct (Z.eqb_spec (tomb_timestamp T) missing_timestamp); done).
    destruct Ht as [Hr1 Hr2]. assert (tomb_timestamp (regular t) = missing_timestamp) as ER by lia. simpl in *.
    assert (has_tombstone (regular t) = false) as Eh' by (unfold has_tombstone; by rewrite ER).
    unfold compact_atomic, is_covered_by. rewrite ET, ER, Eh, Eh'. rewrite (proj2 (Z.leb_gt _ _) Hta). simpl.
    destruct a as [t1 l1|t1 v1|t1 d1|t1 v1]; simpl in *; try done; [by rewrite E|].
    destruct Hg as [?|Hg]; [done|]. rewrite Hg. simpl. by rewrite E.
Qed.

Lemma empty_merge_visible less tm y : def_ok (CollectionColumn less) -> collection_ok less y ->
  tomb_timestamp tm <= tomb_timestamp T ->
  visible_elements now T (collection_merge less (Coll tm []) y) = visible_elements now T y.
Proof.
  intros Hless Hy Hle. pose proof Hless as (irr & tr & tot).
  assert (collection_ok less (Coll tm [])) as He by (split; [constructor|by intros ? ?%elem_of_nil]).
  pose proof (collection_merge_ok less irr tr tot _ _ He Hy) as [Hs _].
  apply (visible_ext now less Hless); [done|apply Hy|]. intros k. simpl coll_tomb.
  rewrite visible_merge by (done || (rewrite !tomb_apply_max; simpl; lia)). simpl.
  apply see_element_same. rewrite !tomb_apply_max. lia.
Qed.

Lemma collection_merge_invisible less c a b : def_ok (CollectionColumn less) -> data c = Some (Collection a) ->
  collection_ok less a -> collection_ok less b -> collection_valid a -> collection_valid b ->
  elements_undisturbed now can_gc t a b ->
  visible_data T (data_merge (CollectionColumn less) (x ← (compact_cell c).1; data x) (Some (Collection b))) =
  visible_data T (Some (Collection (collection_merge less a b))).
Proof.
  intros Hless E Ha Hb Hva Hvb Hu.
  pose proof (compact_collection_merge now can_gc gc_before less Hless t a Ht Ha Hva b Hb Hvb Hu) as Hm.
  unfold Compaction.compact_cell. rewrite E. destruct (compact_collection now can_gc gc_before t a) as [m live]. simpl in Hm.
  assert (visible_data T (Some (Collection (collection_merge less a b))) = visible_data T (Some (Collection (collection_merge less m b)))) as ->
    by (simpl; by rewrite Hm). cbn [fst].
  destruct (bool_decide (coll_cells m = []) && (tomb_compare (coll_tomb m) T <=? 0)) eqn:Er; [|done].
  apply andb_true_iff in Er as [Er%bool_decide_eq_true_1 Hle%Z.leb_le]. destruct m as [tm l]. simpl in *. subst l.
  rewrite empty_merge_visible; [done..|]. by apply tomb_le_timestamp.
Qed.

Lemma content_merge_invisible def c x y : def_ok def -> data c = Some x -> content_ok def x -> content_ok def y ->
  content_valid x -> content_valid y -> content_undisturbed x y ->
  visible_data T (data_merge def (z ← (compact_cell c).1; data z) (Some y)) = visible_data T (data_merge def (Some x) (Some y)).
Proof.
  intros Hdef E Hx Hy Hvx Hvy Hu. destruct def as [| |less], x, y; simpl in Hx, Hy, Hvx, Hvy, Hu; try done.
  - by apply atomic_merge_invisible.
  - by apply counter_merge_invisible.
  - by apply collection_merge_invisible.
Qed.

(** C15. No data come back: when a row is compacted and other data are merged into
    it later, a reader sees what it would have seen without the compaction. Three
    conditions ask for this, column by column ([content_undisturbed]): the later
    data are newer than every tombstone that may be purged, which is what [can_gc]
    of a compaction of files asks of the other files; they hold no live cell with
    the timestamp of an expired one; and no deleted counter was purged for which
    they have a value. Where one of them fails deleted data can come back. *)
Theorem compaction_no_resurrection one_fragment internal_count version a b :
  row_valid a -> row_valid b ->
  (forall id x y, cell_data a id = Some x -> cell_data b id = Some y -> content_undisturbed x y) ->
  exists d s d' s',
    row_apply_reversibly one_fragment internal_count defs version no_row_fault a b = Merged d s
    /\ row_apply_reversibly one_fragment internal_count defs version no_row_fault (compact a).1 b = Merged d' s'
    /\ forall id, visible_data T (cell_data d' id) = visible_data T (cell_data d id).
Proof.
  intros Ha [Hb Hvb] Hu. pose proof (compact_row_spec a Ha) as Hc. destruct (compact a) as [a' live]. destruct Hc as (Ha' & Hf & Hvis & _).
  destruct Ha as [Ha Hva].
  destruct (row_apply_total one_fragment internal_count defs version Hdefs a b Ha Hb) as (d & s & E & Hd).
  destruct (row_apply_total one_fragment internal_count defs version Hdefs a' b Ha' Hb) as (d' & s' & E' & Hd').
  exists d, s, d', s'. split; [done|]. split; [done|]. intros id. rewrite Hd, Hd'.
  assert (weaker T T) as HT by (destruct Ht; split; lia).
  destruct (cell_data b id) as [y|] eqn:Ey.
  2:{ specialize (Hvis T id HT). unfold data_merge. by destruct (cell_data a' id), (cell_data a id). }
  destruct (cell_data a id) as [x|] eqn:Ex.
  2:{ unfold cell_data. rewrite Hf. unfold cell_data in Ex. destruct (find_cell a id) as [c|] eqn:Ec; [|done]. simpl in Ex.
      by destruct (find_nonempty a id c (proj1 Ha) Ec). }
  assert (exists c, find_cell a id = Some c /\ data c = Some x) as (c & Ec & Edc) by (by apply bind_Some in Ex).
  assert (cell_data a' id = z ← (compact_cell c).1; data z) as -> by (unfold cell_data; by rewrite Hf, Ec).
  destruct (proj2 Ha id c Ec) as ((x0 & E0 & Hx) & _). rewrite Edc in E0. injection E0 as <-.
  assert (content_ok (defs id) y) as Hy.
  { apply bind_Some in Ey as (e & Ee & Ey). destruct (proj2 Hb id e Ee) as ((y0 & E0 & Hy) & _). rewrite Ey in E0. by injection E0 as <-. }
  apply content_merge_invisible; eauto.
Qed.
End rows.

(** A row that has expired at time 100, and a newer write of the same column. *)
Definition atomic_row (c : atomic_cell) : row := append_cells (fun _ => true) [(0%nat, Atomic c)] empty_row.
Definition expired_row : row := atomic_row (Live 7 [1] (Some (90, 30))).
Definition newer_row : row := atomic_row (Live 9 [2] None).

Lemma atomic_row_good c : cell_ok c ->
  row_good (fun _ => AtomicColumn) (atomic_row c) /\ forall id x, cell_data (atomic_row c) id = Some x -> x = Atomic c.
Proof.
  intros Hc. destruct (append_cells_spec (fun _ => true) (fun _ => AtomicColumn) [(0%nat, Atomic c)]) as [Hg Hf].
  { split; [repeat constructor|]. intros id x. rewrite elem_of_cons. by intros [[= -> ->]|[]%elem_of_nil]. }
  split; [done|]. intros id x. unfold cell_data, atomic_row. rewrite Hf. intros (o & (y & E & ->)%fmap_Some & [= <-])%bind_Some.
  by apply elem_of_list_to_map_2, list_elem_of_singleton in E as [= _ ->].
Qed.

Lemma atomic_row_valid c : cell_ok c -> times_ok c -> row_valid (fun _ => AtomicColumn) (atomic_row c).
Proof. intros Hc Ht. destruct (atomic_row_good c Hc) as [Hg Hd]. split; [done|]. by intros id x ->%Hd. Qed.

Lemma compaction_no_resurrection_witness :
  exists d' s',
    row_apply_reversibly (fun _ => true) 4 (fun _ => AtomicColumn) 0 no_row_fault
      (compact_and_expire 100 (fun u => tomb_timestamp u <? 8) 80 no_row_tombstone expired_row).1 newer_row = Merged d' s'
    /\ visible_data 100 no_tombstone (cell_data d' 0) = Some (SeenCell (Live 9 [2] None)).
Proof.
  destruct (compaction_no_resurrection 100 (fun u => tomb_timestamp u <? 8) 80 (fun _ => AtomicColumn) no_row_tombstone
    (fun _ => I) ltac:(split; vm_compute; discriminate) (fun _ => true) 4 0 expired_row newer_row) as (d & s & d' & s' & E & E' & Hv).
  - apply atomic_row_valid; vm_compute; split; (discriminate || reflexivity).
  - apply atomic_row_valid; vm_compute; split; (discriminate || reflexivity).
  - intros id x y Hx Hy. apply atomic_row_good in Hx as ->, Hy as ->; [|vm_compute; split; (discriminate || reflexivity)..].
    split; [done|]. intros _ H. discriminate H.
  - exists d', s'. split; [done|]. simpl in Hv. rewrite Hv. vm_compute in E. injection E as <- _. reflexivity.
Defined.
