(* ===== verification/Compactor.v ===== *)
(** * The compactor of a stream of partitions (mutation_compactor.hh, range_tombstone.cc)

    A read of a table is a stream of partitions, and a partition a stream of
    fragments: its tombstone, its static row, then rows and range tombstones in
    the order of their positions. [compact_mutation] consumes the stream, compacts
    every row under the tombstones that cover it, counts the live rows against the
    limits of the query, and hands what is left to the next consumer. It keeps the
    range tombstones that may still cover rows in a [range_tombstone_accumulator].

    The next consumer is any function of what it was given so far that says whether
    it wants to stop. *)

From stdpp Require Import gmap.
From S2P Require Import Prelude Mergeable Keyed Cell Counters Row RowInv RowTheorems RangeTombstones MutationPartition Compaction CompactionTheorems.
Open Scope Z_scope.

(** ** Markers and rows *)

Section rows.
Variables (now : Z) (can_gc : tombstone -> bool) (gc_before : Z).

(** [row_marker::compact_and_expire]. *)
Definition marker_compact (tomb : tombstone) (m : row_marker) : row_marker * bool :=
  if m_is_missing m then (m, false)
  else if m_timestamp m <=? tomb_timestamp tomb then (Marker missing_timestamp (m_ttl m) (m_expiry m), false)
  else
    let m := if (0 <? m_ttl m) && (m_expiry m <? now) then Marker (m_timestamp m) (-1) (m_expiry m - m_ttl m) else m in
    let m := if (m_ttl m =? -1) && (m_expiry m <? gc_before) && can_gc (Tombstone (m_timestamp m) (m_expiry m))
             then Marker missing_timestamp (m_ttl m) (m_expiry m) else m in
    (m, negb (m_is_missing m) && negb (m_ttl m =? -1)).

(** [can_purge_tombstone]. *)
Definition can_purge_tombstone (t : tombstone) : bool := (tomb_deletion_time t <? gc_before) && can_gc t.
Definition can_purge_row_tombstone (t : row_tombstone) : bool :=
  (Z.max (tomb_deletion_time (regular t)) (tomb_deletion_time (shadowable t)) <? gc_before) && can_gc (shadowable t).

(** What [consume(clustering_row)] does to the row, the tombstone it passes on, and
    whether the row is live. *)
Definition compact_clustering_row (current : tombstone) (d : deletable_row) : deletable_row * row_tombstone * bool :=
  let t := deleted_at d in
  let kept := if (tomb_compare (shadowable t) current <=? 0) || can_purge_row_tombstone t then no_row_tombstone else t in
  let t := rt_apply_regular t current in
  let '(m, marker_live) := marker_compact (shadowable t) (marker d) in
  let '(c, cells_live) := compact_and_expire now can_gc gc_before t (cells d) in
  (DRow kept m c, t, marker_live || cells_live).

(** [deletable_row::empty]. *)
Definition dr_empty (d : deletable_row) : bool :=
  negb (has_tombstone (shadowable (deleted_at d))) && m_is_missing (marker d) && (row_size (cells d) =? 0).
End rows.

Section stream.
Context {component : Type}.
Abbreviation prefix := (list component).
Abbreviation pos := (prefix * Z)%type.
Abbreviation range := (range_tombstone component).
Variable less : pos -> pos -> bool.

(** ** [range_tombstone_accumulator] *)

Record accumulator := Acc { acc_partition : tombstone; acc_ranges : list range; acc_current : tombstone }.

Section accumulator.
Variable reversed : bool.

Definition update_current_tombstone (a : accumulator) : accumulator :=
  Acc (acc_partition a) (acc_ranges a) (fold_left (fun t rt => tomb_apply t (tomb rt)) (acc_ranges a) (acc_partition a)).

(** The range ends before the position. *)
Definition passed (p : pos) (rt : range) : bool :=
  if reversed then less p (at_bound (start_bound rt)) else less (at_bound (end_bound rt)) p.

Fixpoint pop_passed (p : pos) (l : list range) : list range :=
  match l with [] => [] | rt :: l' => if passed p rt then pop_passed p l' else l end.

Definition drop_unneeded_tombstones (p : pos) (a : accumulator) : accumulator :=
  update_current_tombstone (Acc (acc_partition a) (pop_passed p (acc_ranges a)) (acc_current a)).

Definition set_partition_tombstone (t : tombstone) (a : accumulator) : accumulator :=
  update_current_tombstone (Acc t (acc_ranges a) (acc_current a)).

Definition tombstone_for_row (key : prefix) (a : accumulator) : accumulator * tombstone :=
  let a := drop_unneeded_tombstones (at_key key) a in (a, acc_current a).

(** Where the range begins and ends in the direction of the stream. *)
Definition first_bound (rt : range) : bound_view component := if reversed then end_bound rt else start_bound rt.
Definition last_bound (rt : range) : bound_view component := if reversed then start_bound rt else end_bound rt.

(** The comparison by the last bound, and the insertion at [upper_bound]. *)
Definition ends_before (rt1 rt2 : range) : bool :=
  if reversed then less (at_bound (start_bound rt2)) (at_bound (start_bound rt1))
  else less (at_bound (end_bound rt1)) (at_bound (end_bound rt2)).

Fixpoint insert_range (rt : range) (l : list range) : list range :=
  match l with [] => [rt] | x :: l' => if ends_before rt x then rt :: l else x :: insert_range rt l' end.

Definition acc_apply (rt : range) (a : accumulator) : accumulator :=
  let a := drop_unneeded_tombstones (at_bound (first_bound rt)) a in
  Acc (acc_partition a) (insert_range rt (acc_ranges a)) (tomb_apply (acc_current a) (tomb rt)).

Definition acc_clear : accumulator := Acc no_tombstone [] no_tombstone.
End accumulator.

(** ** [compact_mutation] *)

Inductive fragment :=
| StaticRow (r : row)
| ClusteringRow (key : prefix) (d : deletable_row)
| RangeTombstone (rt : range).

(** What the next consumer is given. *)
Inductive output :=
| OutPartition (dk : Z)
| OutTombstone (t : tombstone)
| OutStatic (r : row) (t : tombstone) (is_live : bool)
| OutRow (key : prefix) (d : deletable_row) (t : row_tombstone) (is_live : bool)
| OutRange (rt : range)
| OutEnd.

(** The parameters of the query or the compaction. For the key of a partition,
    [get_max_purgeable] is the time up to which its tombstones may go, and
    [slice_selects] whether the slice has row ranges other than a full one
    ([has_ck_selector] of query.cc). *)
Record settings := Settings {
  only_live : bool; sstable_compaction : bool; reverse_order : bool; query_time : Z; gc_time : Z;
  get_max_purgeable : Z -> Z; partition_row_limit : Z; slice_selects : Z -> bool;
  columns : env; stops : list output -> bool }.

(** The state; [current_key] is [_dk], which is set with [has_ck_selector] when a
    partition begins. [_max_purgeable] only remembers what [get_max_purgeable] said
    for [_dk]. *)
Record compactor := Compactor {
  row_limit : Z; partition_limit : Z; range_tombstones : accumulator; static_row_live : bool;
  rows_in_current_partition : Z; current_partition_limit : Z; empty_partition_flag : bool;
  current_key : Z; has_ck_selector : bool; outputs : list output }.

Definition compactor_new (row_limit partition_limit : Z) : compactor :=
  Compactor row_limit partition_limit acc_clear false 0 0 false 0 false [].

Section consume.
Variable s : settings.

(** [can_gc]. *)
Definition compactor_can_gc (dk : Z) (t : tombstone) : bool :=
  if negb (sstable_compaction s) then true
  else if negb (has_tombstone t) then false
  else tomb_timestamp t <? get_max_purgeable s dk.

Abbreviation can_purge c := (can_purge_tombstone (compactor_can_gc (current_key c)) (gc_time s)).

Definition emit (o : output) (c : compactor) : compactor :=
  Compactor (row_limit c) (partition_limit c) (range_tombstones c) (static_row_live c)
    (rows_in_current_partition c) (current_partition_limit c) (empty_partition_flag c) (current_key c) (has_ck_selector c) (outputs c ++ [o]).
Definition set_acc (a : accumulator) (c : compactor) : compactor :=
  Compactor (row_limit c) (partition_limit c) a (static_row_live c)
    (rows_in_current_partition c) (current_partition_limit c) (empty_partition_flag c) (current_key c) (has_ck_selector c) (outputs c).
Definition set_rows (n : Z) (c : compactor) : compactor :=
  Compactor (row_limit c) (partition_limit c) (range_tombstones c) (static_row_live c)
    n (current_partition_limit c) (empty_partition_flag c) (current_key c) (has_ck_selector c) (outputs c).
Definition set_static_live (b : bool) (c : compactor) : compactor :=
  Compactor (row_limit c) (partition_limit c) (range_tombstones c) b
    (rows_in_current_partition c) (current_partition_limit c) (empty_partition_flag c) (current_key c) (has_ck_selector c) (outputs c).
Definition set_not_empty (c : compactor) : compactor :=
  Compactor (row_limit c) (partition_limit c) (range_tombstones c) (static_row_live c)
    (rows_in_current_partition c) (current_partition_limit c) false (current_key c) (has_ck_selector c) (outputs c).

(** [_consumer.consume]: the fragment is passed on, and the consumer answers. *)
Definition pass_on (o : output) (c : compactor) : compactor * bool := let c := emit o c in (c, stops s (outputs c)).

Definition partition_is_not_empty (c : compactor) : compactor :=
  if empty_partition_flag c then
    let c := emit (OutPartition (current_key c)) (set_not_empty c) in
    let pt := acc_partition (range_tombstones c) in
    if has_tombstone pt && negb (can_purge c pt) then emit (OutTombstone pt) c else c
  else c.

Definition consume_new_partition (dk : Z) (c : compactor) : compactor :=
  Compactor (row_limit c) (partition_limit c) acc_clear false 0 (Z.min (row_limit c) (partition_row_limit s)) true
    dk (slice_selects s dk) (outputs c).

Definition consume_tombstone (t : tombstone) (c : compactor) : compactor :=
  let c := set_acc (set_partition_tombstone t (range_tombstones c)) c in
  if negb (only_live s) && negb (can_purge c t) then partition_is_not_empty c else c.

(** [++_rows_in_current_partition == _current_partition_limit]. *)
Definition count_row (c : compactor) : compactor * bool :=
  let n := uwrap 32 (rows_in_current_partition c + 1) in (set_rows n c, n =? current_partition_limit c).

Definition consume_static_row (r : row) (c : compactor) : compactor * bool :=
  let current := acc_partition (range_tombstones c) in
  let '(r, is_live) := compact_and_expire (query_time s) (compactor_can_gc (current_key c)) (gc_time s) (RowTombstone current current) r in
  let c := set_static_live is_live c in
  if is_live || negb (only_live s) && negb (row_size r =? 0) then
    pass_on (OutStatic r current is_live) (partition_is_not_empty c)
  else (c, false).

Definition consume_clustering_row (key : prefix) (d : deletable_row) (c : compactor) : compactor * bool :=
  let '(a, current) := tombstone_for_row (reverse_order s) key (range_tombstones c) in
  let c := set_acc a c in
  let '(d, t, is_live) := compact_clustering_row (query_time s) (compactor_can_gc (current_key c)) (gc_time s) current d in
  if only_live s && is_live then
    let '(c, stop) := pass_on (OutRow key d t true) (partition_is_not_empty c) in
    let '(c, full) := count_row c in
    (c, full || stop)
  else if negb (only_live s) then
    let '(c, stop) := if negb (dr_empty d) then pass_on (OutRow key d t is_live) (partition_is_not_empty c) else (c, false) in
    if negb (sstable_compaction s) && is_live then
      let '(c, full) := count_row c in (c, full || stop)
    else (c, stop)
  else (c, false).

Definition consume_range_tombstone (rt : range) (c : compactor) : compactor * bool :=
  let c := set_acc (acc_apply (reverse_order s) rt (range_tombstones c)) c in
  if negb (can_purge c (tomb rt)) && (0 <? tomb_compare (tomb rt) (acc_partition (range_tombstones c))) then
    pass_on (OutRange rt) (partition_is_not_empty c)
  else (c, false).

Definition consume_end_of_partition (c : compactor) : compactor * bool :=
  if negb (empty_partition_flag c) then
    let c := if (rows_in_current_partition c =? 0) && static_row_live c && negb (has_ck_selector c)
             then set_rows (uwrap 32 (rows_in_current_partition c + 1)) c else c in
    let n := rows_in_current_partition c in
    let c := Compactor (uwrap 32 (row_limit c - n)) (uwrap 32 (partition_limit c - b2z (0 <? n))) (range_tombstones c) (static_row_live c)
               n (current_partition_limit c) (empty_partition_flag c) (current_key c) (has_ck_selector c) (outputs c) in
    let '(c, stop) := pass_on OutEnd c in
    if negb (sstable_compaction s) then
      (c, negb (negb (row_limit c =? 0) && negb (partition_limit c =? 0) && negb stop))
    else (c, false)
  else (c, false).

Definition consume_fragment (f : fragment) (c : compactor) : compactor * bool :=
  match f with
  | StaticRow r => consume_static_row r c
  | ClusteringRow key d => consume_clustering_row key d c
  | RangeTombstone rt => consume_range_tombstone rt c
  end.

(** ** The reader's [consume] *)

(** The fragments of a partition, until the consumer stops. *)
Fixpoint consume_fragments (l : list fragment) (c : compactor) : compactor :=
  match l with
  | [] => c
  | f :: l' => let '(c, stop) := consume_fragment f c in if stop then c else consume_fragments l' c
  end.

(** A partition: its start, its fragments and its end, which [handle_result]
    brings forward when the consumer stops. *)
Definition consume_partition (dk : Z) (t : tombstone) (l : list fragment) (c : compactor) : compactor * bool :=
  let c := consume_new_partition dk c in
  let c := if has_tombstone t then consume_tombstone t c else c in
  consume_end_of_partition (consume_fragments l c).

Fixpoint consume_partitions (ps : list (Z * tombstone * list fragment)) (c : compactor) : compactor :=
  match ps with
  | [] => c
  | (dk, t, l) :: ps' => let '(c, stop) := consume_partition dk t l c in if stop then c else consume_partitions ps' c
  end.
End consume.
End stream.
Arguments fragment : clear implicits.
Arguments output : clear implicits.
Arguments settings : clear implicits.
Arguments compactor : clear implicits.
Arguments accumulator : clear implicits.
