(* ===== verification/CompactorTheorems.v ===== *)
(** * The compactor: theorems

    A query over a stream of partitions returns the rows in which something is
    visible, in order, up to its limits, and of each row what is visible. *)

From stdpp Require Import gmap.
From S2P Require Import Prelude Mergeable Keyed Cell Counters Row RowInv RowTheorems RangeTombstones RangeTombstonesTheorems.
From S2P Require Import MutationPartition Compaction CompactionTheorems Compactor.
Open Scope Z_scope.

(** ** Rows *)

Section rows.
Variables (now : Z) (can_gc : tombstone -> bool) (gc_before : Z).

(** A live marker that has not expired and that the tombstone does not cover. *)
Definition marker_visible (u : tombstone) (m : row_marker) : bool :=
  m_is_live m && negb ((0 <? m_ttl m) && (m_expiry m <? now)) && (tomb_timestamp u <? m_timestamp m).

Lemma marker_compact_spec u t m : weaker u t ->
  let '(m', live) := marker_compact now can_gc gc_before t m in
  live = marker_visible t m /\ if marker_visible t m then m' = m else marker_visible u m' = false.
Proof.
  intros [_ Hu]. unfold marker_compact, marker_visible, m_is_live, m_is_missing. destruct m as [ts ttl exp]. simpl.
  destruct (Z.eqb_spec ts missing_timestamp) as [->|Hm]; simpl; [done|].
  destruct (Z.leb_spec ts (tomb_timestamp t)) as [Hle|Hgt]; simpl.
  { rewrite (proj2 (Z.ltb_ge (tomb_timestamp t) ts) Hle), andb_false_r. done. }
  rewrite (proj2 (Z.ltb_lt _ _) Hgt), andb_true_r.
  destruct (Z.ltb_spec 0 ttl) as [H0|H0], (Z.ltb_spec exp now) as [He|He]; simpl;
    destruct (Z.eqb_spec ttl (-1)) as [E|E]; try lia; simpl;
    repeat (case_match; simpl); rewrite ?andb_false_r; try done;
    rewrite (proj2 (Z.eqb_neq _ _) Hm); simpl; [rewrite (proj2 (Z.eqb_neq _ _) E)|subst ttl|rewrite (proj2 (Z.eqb_neq _ _) E)|subst ttl|rewrite (proj2 (Z.eqb_neq _ _) E)]; done.
Qed.

(** The tombstone that acts on a row. *)
Definition acting (cov : tombstone) (d : deletable_row) : row_tombstone := rt_apply_regular (deleted_at d) cov.

(** Something of the row is visible. *)
Definition row_shown (cov : tombstone) (d : deletable_row) : bool :=
  let T := shadowable (acting cov d) in
  marker_visible T (marker d)
  || existsb (fun id => bool_decide (is_Some (visible_data now T (cell_data (cells d) id)))) (row_ids (cells d)).

Definition tombstone_valid (t : tombstone) : Prop := missing_timestamp <= tomb_timestamp t.

Variable defs : nat -> column_type.
Hypothesis Hdefs : forall id, def_ok (defs id).

Definition dr_valid (d : deletable_row) : Prop :=
  weaker (regular (deleted_at d)) (shadowable (deleted_at d)) /\ row_valid defs (cells d).

(** A visible cell, and contents whose live cells are visible. *)
Definition cell_visible (T : tombstone) (x : option content) : bool :=
  match x with
  | Some (Atomic a) => alive now false T a
  | Some (Counter k) => alive now true T (counter_view k)
  | _ => false
  end.
Definition shows_only (T : tombstone) (x : content) : Prop :=
  match x with
  | Atomic a => is_live a = true -> alive now false T a = true
  | Counter k => is_live (counter_view k) = true -> alive now true T (counter_view k) = true
  | Collection k => forall e, e ∈ coll_cells k -> is_live e.2 = true -> alive now false T e.2 = true
  end.

(** What of a row is left: all that is visible, visible cells as they were, and
    nothing that is live without being visible. *)
Definition dr_compacted (cov : tombstone) (d d' : deletable_row) : Prop :=
  let T := shadowable (acting cov d) in
  row_good defs (cells d')
  /\ (forall id c, find_cell (cells d) id = Some c -> cell_visible T (data c) = true -> find_cell (cells d') id = Some c)
  /\ (forall id x, cell_data (cells d') id = Some x -> shows_only T x)
  /\ forall u, weaker u T ->
    (if marker_visible T (marker d) then marker d' = marker d else marker_visible u (marker d') = false)
    /\ forall id, visible_data now u (cell_data (cells d') id) = visible_data now T (cell_data (cells d) id).

Lemma visible_untouched t c : weaker (regular t) (shadowable t) -> cell_visible (shadowable t) (data c) = true ->
  (compact_cell now can_gc gc_before t c).1 = Some c.
Proof.
  intros Ht. unfold compact_cell. destruct (data c) as [[a|k|k]|] eqn:E; simpl; try done; intros Ha.
  - pose proof (verdict_spec now can_gc gc_before false t a Ht) as Hv.
    destruct (compact_atomic now can_gc gc_before false t a); try done.
    + destruct Hv as [Hv _]. congruence.
    + destruct Hv as [Hv _]. by rewrite (expired_not_alive now false _ a Hv) in Ha.
  - pose proof (verdict_spec now can_gc gc_before true t (counter_view k) Ht) as Hv.
    destruct (compact_atomic now can_gc gc_before true t (counter_view k)); try done.
    + destruct Hv as [Hv _]. congruence.
    + destruct Hv as [Hv _]. by rewrite (expired_not_alive now true _ _ Hv) in Ha.
Qed.

Lemma kept_shows_only t x : kept_content now can_gc gc_before t x -> shows_only (shadowable t) x.
Proof.
  destruct x as [a|k|k]; simpl.
  - by intros [?|[-> _]].
  - by intros [?|[-> _]].
  - intros [Hk _] e He. destruct (Hk e He) as [?|[-> _]]; done.
Qed.

Lemma acting_weaker cov d : dr_valid d -> tombstone_valid cov -> weaker (regular (acting cov d)) (shadowable (acting cov d)).
Proof. intros [[H1 H2] _] Hc. unfold weaker. simpl. rewrite !tomb_apply_max. lia. Qed.

Lemma compact_clustering_row_spec cov d : dr_valid d -> tombstone_valid cov ->
  exists d', compact_clustering_row now can_gc gc_before cov d = (d', acting cov d, row_shown cov d) /\ dr_compacted cov d d'.
Proof.
  intros Hd Hcov. pose proof (acting_weaker cov d Hd Hcov) as HT. destruct Hd as [_ Hv].
  unfold compact_clustering_row. fold (acting cov d). set (T := shadowable (acting cov d)).
  pose proof (marker_compact_spec T T (marker d) ltac:(destruct HT; split; unfold T; lia)) as Hm.
  pose proof (fun u Hu => marker_compact_spec u T (marker d) Hu) as Hmu.
  destruct (marker_compact now can_gc gc_before T (marker d)) as [m ml]. destruct Hm as [-> _].
  pose proof (compact_row_spec now can_gc gc_before defs (acting cov d) Hdefs HT (cells d) Hv) as Hc.
  destruct (compact_and_expire now can_gc gc_before (acting cov d) (cells d)) as [c cl]. destruct Hc as (Hgood & Hfind & Hvis & Hkept & Hl).
  eexists. split.
  - f_equal. unfold row_shown. fold T. f_equal. apply eq_true_iff_eq. rewrite Hl, existsb_exists.
    setoid_rewrite <- list_elem_of_In. setoid_rewrite bool_decide_eq_true. split.
    + intros (id & Hs). exists id. split; [|done]. apply row_ids_elem. unfold cell_data in Hs.
      destruct (find_cell (cells d) id); [by eexists|by destruct Hs].
    + intros (id & _ & Hs). by exists id.
  - split; [done|]. split; [|split].
    + intros id x Ex Hx. simpl. rewrite Hfind, Ex. simpl. by apply visible_untouched.
    + intros id x Ex. eapply kept_shows_only, Hkept, Ex.
    + intros u Hu. fold T in Hu |- *. simpl. split; [by destruct (Hmu u Hu) as [_ ?]|]. intros id. by apply Hvis.
Qed.
End rows.

(** ** The accumulator *)

Lemma filter_forall {A} (P : A -> Prop) `{!forall x, Decision (P x)} l : Forall P l -> filter P l = l.
Proof. induction 1; [done|]. rewrite filter_cons, decide_True by done. by f_equal. Qed.

Lemma filter_out_all {A} (P : A -> Prop) `{!forall x, Decision (P x)} l : (forall x, x ∈ l -> ~ P x) -> filter P l = [].
Proof.
  induction l as [|x l IH]; intros HP; [done|]. rewrite filter_cons, decide_False by (apply HP, elem_of_cons; by left).
  apply IH. intros y Hy. apply HP, elem_of_cons. by right.
Qed.

Section stream.
Context {component : Type}.
Abbreviation prefix := (list component).
Abbreviation pos := (prefix * Z)%type.
Abbreviation range := (range_tombstone component).
Variable less : pos -> pos -> bool.

Lemma filter_same {A} (P Q : A -> Prop) `{!forall x, Decision (P x), !forall x, Decision (Q x)} (l : list A) :
  (forall x, x ∈ l -> P x <-> Q x) -> filter P l = filter Q l.
Proof.
  induction l as [|x l IH]; intros HPQ; [done|]. rewrite !filter_cons.
  rewrite IH by (intros y Hy; apply HPQ, elem_of_cons; by right).
  assert (P x <-> Q x) as Hx by (apply HPQ, elem_of_cons; by left). destruct (decide (P x)), (decide (Q x)); tauto || done.
Qed.

(** A strict weak order in which no key ties with a bound. *)
Class PositionOrder : Prop := {
  less_irrefl p : less p p = false;
  less_cotrans p q r : less p r = true -> less p q = true \/ less q r = true;
  less_asym p q : less p q = true -> less q p = false;
  less_bound k b : less (at_key k) (at_bound b) = true \/ less (at_bound b) (at_key k) = true }.
Context {Horder : PositionOrder}.

Section direction.
Variable reversed : bool.
Abbreviation first_bound := (first_bound reversed).
Abbreviation last_bound := (last_bound reversed).
Abbreviation passed := (passed less reversed).
Abbreviation ends_before := (ends_before less reversed).

(** The order in the direction of the stream. *)
Definition before (p q : pos) : bool := if reversed then less q p else less p q.

Lemma before_irrefl p : before p p = false.
Proof. unfold before. destruct reversed; apply less_irrefl. Qed.
Lemma before_asym p q : before p q = true -> before q p = false.
Proof. unfold before. destruct reversed; apply less_asym. Qed.
Lemma before_cotrans p q r : before p r = true -> before p q = true \/ before q r = true.
Proof. unfold before. destruct reversed; intros Hpr; destruct (less_cotrans _ q _ Hpr); auto. Qed.
Lemma before_bound k b : before (at_key k) (at_bound b) = true \/ before (at_bound b) (at_key k) = true.
Proof. unfold before. destruct (less_bound k b), reversed; auto. Qed.

Lemma before_trans p q r : before p q = true -> before q r = true -> before p r = true.
Proof.
  intros H1 H2. destruct (before_cotrans p r q H1) as [?|H3]; [done|]. apply before_asym in H3. congruence.
Qed.

(** Not before: the order of a sequence. *)
Lemma not_before_trans p q r : before q p = false -> before r q = false -> before r p = false.
Proof.
  intros H1 H2. destruct (before r p) eqn:E; [|done]. destruct (before_cotrans r q p E); congruence.
Qed.

Lemma passed_before p rt : passed p rt = before (at_bound (last_bound rt)) p.
Proof. unfold Compactor.passed, before, Compactor.last_bound. by destruct reversed. Qed.
Lemma ends_before_before a b : ends_before a b = before (at_bound (last_bound a)) (at_bound (last_bound b)).
Proof. unfold Compactor.ends_before, before, Compactor.last_bound. by destruct reversed. Qed.

(** The range covers the key. *)
Definition covers (k : prefix) (rt : range) : bool :=
  negb (less (at_key k) (at_bound (start_bound rt))) && negb (less (at_bound (end_bound rt)) (at_key k)).

Lemma covers_direction k rt :
  covers k rt = negb (before (at_key k) (at_bound (first_bound rt))) && negb (before (at_bound (last_bound rt)) (at_key k)).
Proof. unfold covers, before, Compactor.first_bound, Compactor.last_bound. destruct reversed; [apply andb_comm|done]. Qed.

(** The newest deletion of a key: that of the partition and of the ranges. *)
Definition covering (pt : tombstone) (rs : list range) (k : prefix) : tombstone :=
  fold_left (fun t rt => tomb_apply t (tomb rt)) (filter (fun rt => covers k rt = true) rs) pt.

(** The ranges that the accumulator holds, in the order of their ends. *)
Definition ends_sorted (l : list range) : Prop := StronglySorted (fun x y => ends_before y x = false) l.

Lemma pop_passed_spec p l : ends_sorted l -> pop_passed less reversed p l = filter (fun rt => passed p rt = false) l.
Proof.
  induction l as [|x l IH]; [done|]. intros Hs. apply StronglySorted_inv in Hs as [Hs Hx]. simpl. rewrite filter_cons.
  destruct (passed p x) eqn:E; [by rewrite decide_False by done; auto|]. rewrite decide_True by done. f_equal.
  symmetry. apply filter_forall. eapply Forall_impl; [exact Hx|]. simpl. intros y Hy. rewrite passed_before in *.
  rewrite ends_before_before in Hy. by eapply not_before_trans.
Qed.

Lemma insert_range_perm rt l : insert_range less reversed rt l ≡ₚ rt :: l.
Proof.
  induction l as [|x l IH]; [done|]. simpl. case_match; [done|]. rewrite IH. by rewrite Permutation_swap.
Qed.

Lemma insert_range_sorted rt l : ends_sorted l -> ends_sorted (insert_range less reversed rt l).
Proof.
  induction l as [|x l IH]; intros Hs; [by repeat constructor|]. pose proof Hs as Hs'. apply StronglySorted_inv in Hs as [Hs Hx]. simpl.
  destruct (ends_before rt x) eqn:E.
  - constructor; [done|]. rewrite ends_before_before in E. constructor; [rewrite ends_before_before; by apply before_asym|].
    eapply Forall_impl; [exact Hx|]. simpl. intros y Hy. rewrite ends_before_before in *.
    destruct (before _ (at_bound (last_bound rt))) eqn:E'; [|done]. by rewrite (before_trans _ _ _ E' E) in Hy.
  - constructor; [by apply IH|]. rewrite insert_range_perm. by constructor.
Qed.

Lemma filter_sorted_ends (P : range -> Prop) `{!forall x, Decision (P x)} l : ends_sorted l -> ends_sorted (filter P l).
Proof.
  induction l as [|x l IH]; [done|]. intros [Hs Hx]%StronglySorted_inv. rewrite filter_cons. case_decide; [|by apply IH].
  constructor; [by apply IH|]. rewrite Forall_forall in *. intros y [_ Hy]%list_elem_of_filter. auto.
Qed.

Abbreviation fold_tombs := (fold_left (fun t (rt : range) => tomb_apply t (tomb rt))).

Lemma fold_tombs_perm l k t : l ≡ₚ k -> fold_tombs l t = fold_tombs k t.
Proof.
  intros Hp. revert t. induction Hp as [| | |l1 l2 l3 _ IH1 _ IH2]; intros u; simpl; auto; [|by rewrite IH1, IH2].
  by rewrite !tomb_apply_assoc, (tomb_apply_comm (tomb x)).
Qed.

Lemma fold_tombs_apply l t u : fold_tombs l (tomb_apply t u) = tomb_apply (fold_tombs l t) u.
Proof.
  revert t. induction l as [|x l IH]; intros t; simpl; [done|]. by rewrite <- IH, tomb_apply_assoc, (tomb_apply_comm u), <- tomb_apply_assoc.
Qed.

(** The accumulator at position [p] after the ranges [seen]. *)
Definition acc_inv (pt : tombstone) (seen : list range) (p : pos) (a : accumulator component) : Prop :=
  acc_partition a = pt /\ ends_sorted (acc_ranges a)
  /\ acc_ranges a ≡ₚ filter (fun rt => passed p rt = false) seen.

Lemma acc_advance pt seen p q a : acc_inv pt seen p a -> before q p = false ->
  acc_inv pt seen q (drop_unneeded_tombstones less reversed q a)
  /\ acc_current (drop_unneeded_tombstones less reversed q a) = fold_tombs (filter (fun rt => passed q rt = false) seen) pt.
Proof.
  intros (Hpt & Hs & Hp) Hq.
  assert (pop_passed less reversed q (acc_ranges a) ≡ₚ filter (fun rt => passed q rt = false) seen) as Hperm.
  { rewrite pop_passed_spec by done. rewrite Hp. rewrite list_filter_filter_l; [done|]. intros x Hx. rewrite passed_before in *.
    by eapply not_before_trans. }
  split; [split; [done|split; [|done]]|].
  - simpl. rewrite pop_passed_spec by done. by apply filter_sorted_ends.
  - simpl. rewrite Hpt. by apply fold_tombs_perm.
Qed.
End direction.

(** ** Queries *)

(** A query for live rows whose consumer takes all it is given. *)
Variable s : settings component.
Hypothesis Honly : only_live s = true.
Hypothesis Hquery : sstable_compaction s = false.
Hypothesis Hstops : forall l, stops s l = false.
Hypothesis Hprl : 0 < partition_row_limit s < 2 ^ 32.
Hypothesis Hdefs : forall id, def_ok (regular_columns (columns s) id).
Abbreviation now := (query_time s).
Abbreviation reversed := (reverse_order s).
Abbreviation fragment := (fragment component).
Abbreviation compactor := (compactor component).

Definition is_row (o : output component) : bool := match o with OutRow _ _ _ _ => true | _ => false end.

(** The rows among the outputs. *)
Definition row_outputs (l : list (output component)) : list (output component) := filter (fun o => is_row o = true) l.

Lemma row_outputs_app l k : row_outputs (l ++ k) = row_outputs l ++ row_outputs k.
Proof. apply filter_app. Qed.

(** The counters that only rows and partitions change. *)
Definition same_limits (c c' : compactor) : Prop :=
  row_limit c' = row_limit c /\ partition_limit c' = partition_limit c /\ static_row_live c' = static_row_live c
  /\ current_partition_limit c' = current_partition_limit c.

(** Steps that emit no row. *)
Definition quiet (c c' : compactor) : Prop :=
  same_limits c c' /\ rows_in_current_partition c' = rows_in_current_partition c /\ row_outputs (outputs c') = row_outputs (outputs c)
  /\ (empty_partition_flag c = false -> empty_partition_flag c' = false).

Lemma quiet_refl c : quiet c c.
Proof. by repeat split. Qed.

Lemma quiet_steps c1 c2 c3 : quiet c1 c2 -> quiet c2 c3 -> quiet c1 c3.
Proof. intros ((? & ? & ? & ?) & ? & ? & ?) ((? & ? & ? & ?) & ? & ? & ?). repeat split; try congruence; auto. Qed.

Lemma set_acc_quiet a c : quiet c (set_acc a c).
Proof. by repeat split. Qed.

Lemma emit_quiet o c : is_row o = false -> quiet c (emit o c).
Proof.
  intros E. repeat split; try done. simpl. rewrite row_outputs_app. unfold row_outputs at 2. rewrite filter_cons.
  rewrite decide_False by (by rewrite E). by rewrite app_nil_r.
Qed.

Lemma not_empty_quiet c : quiet c (partition_is_not_empty s c) /\ range_tombstones (partition_is_not_empty s c) = range_tombstones c
  /\ empty_partition_flag (partition_is_not_empty s c) = false.
Proof.
  unfold partition_is_not_empty. destruct (empty_partition_flag c) eqn:E; [|by split; [apply quiet_refl|]].
  assert (quiet c (emit (OutPartition (current_key c)) (set_not_empty c))) as Hq.
  { eapply quiet_steps; [|by apply emit_quiet]. by repeat split. }
  case_match; [|done]. split; [|done]. eapply quiet_steps; [exact Hq|]. by apply emit_quiet.
Qed.

(** Consuming fragments does not change the partition. *)
Lemma not_empty_selector c : has_ck_selector (partition_is_not_empty s c) = has_ck_selector c.
Proof. unfold partition_is_not_empty. by repeat case_match. Qed.

Lemma consume_fragment_selector f c : has_ck_selector (consume_fragment less s f c).1 = has_ck_selector c.
Proof.
  destruct f as [r|k d|rt]; unfold consume_fragment, consume_static_row, consume_clustering_row, consume_range_tombstone, pass_on, count_row;
    repeat case_match; simplify_eq/=; by rewrite ?not_empty_selector.
Qed.

Lemma consume_fragments_selector l c : has_ck_selector (consume_fragments less s l c) = has_ck_selector c.
Proof.
  revert c. induction l as [|f l IH]; intros c; [done|]. simpl. pose proof (consume_fragment_selector f c) as E.
  destruct (consume_fragment less s f c) as [c' [|]]; simpl in E; [done|]. by rewrite IH.
Qed.

Lemma consume_range_quiet rt c :
  exists c', consume_range_tombstone less s rt c = (c', false) /\ quiet c c'
    /\ range_tombstones c' = acc_apply less reversed rt (range_tombstones c).
Proof.
  unfold consume_range_tombstone. case_match.
  - unfold pass_on. rewrite Hstops. eexists. split; [done|].
    destruct (not_empty_quiet (set_acc (acc_apply less reversed rt (range_tombstones c)) c)) as (Hq & Ha & _). split; [|by simpl; rewrite Ha].
    eapply quiet_steps; [eapply quiet_steps; [apply set_acc_quiet|exact Hq]|]. by apply emit_quiet.
  - eexists. split; [done|]. split; [apply set_acc_quiet|done].
Qed.

Lemma always_gc dk : compactor_can_gc s dk = fun _ => true.
Proof. unfold compactor_can_gc. by rewrite Hquery. Qed.

(** What a row of the answer shows of the row of the table. *)
Definition shows (o : output component) (r : prefix * tombstone * deletable_row) : Prop :=
  let '(k, cov, d) := r in exists d', o = OutRow k d' (acting cov d) true /\ dr_compacted now (regular_columns (columns s)) cov d d'.

Lemma consume_row_spec key d c :
  let '(a, cov) := tombstone_for_row less reversed key (range_tombstones c) in
  dr_valid (regular_columns (columns s)) d -> tombstone_valid cov ->
  0 <= rows_in_current_partition c < 2 ^ 32 - 1 ->
  exists c' stop, consume_clustering_row less s key d c = (c', stop) /\ range_tombstones c' = a
    /\ if row_shown now cov d then
        same_limits c c' /\ rows_in_current_partition c' = rows_in_current_partition c + 1
        /\ stop = (rows_in_current_partition c + 1 =? current_partition_limit c) /\ empty_partition_flag c' = false
        /\ exists o, row_outputs (outputs c') = row_outputs (outputs c) ++ [o] /\ shows o (key, cov, d)
      else stop = false /\ quiet c c'.
Proof.
  unfold consume_clustering_row. destruct (tombstone_for_row less reversed key (range_tombstones c)) as [a cov]. intros Hd Hcov Hn.
  rewrite always_gc. destruct (compact_clustering_row_spec now (fun _ => true) (gc_time s) _ Hdefs cov d Hd Hcov) as (d' & -> & Hc).
  rewrite Honly. simpl. destruct (row_shown now cov d); simpl.
  - rewrite Hstops, orb_false_r. destruct (not_empty_quiet (set_acc a c)) as ((( Q1 & Q2 & Q3 & Q4) & Q5 & Q6 & _) & Ha & Hf). eexists _, _. split; [done|]. simpl in *.
    unfold uwrap. rewrite Q5, Z.mod_small by lia. rewrite Ha. split; [done|]. split; [by repeat split|]. split; [done|]. split; [by rewrite Q4|]. split; [done|].
    eexists. rewrite row_outputs_app, Q6. split; [done|]. exists d'. done.
  - eexists _, _. split; [done|]. split; [done|]. split; [done|]. apply set_acc_quiet.
Qed.

(** ** A partition *)

Definition frag_pos (f : fragment) : pos :=
  match f with
  | StaticRow _ => at_key []
  | ClusteringRow k _ => at_key k
  | RangeTombstone rt => at_bound (first_bound reversed rt)
  end.

(** Rows and range tombstones in the order of the stream. *)
Definition ordered (l : list fragment) : Prop :=
  Forall (fun f => match f with StaticRow _ => False | _ => True end) l
  /\ StronglySorted (fun f g => before reversed (frag_pos g) (frag_pos f) = false) l.

Definition fragment_valid (f : fragment) : Prop :=
  match f with
  | StaticRow r => row_valid (static_columns (columns s)) r
  | ClusteringRow _ d => dr_valid (regular_columns (columns s)) d
  | RangeTombstone rt => tombstone_valid (tomb rt)
      /\ before reversed (at_bound (last_bound reversed rt)) (at_bound (first_bound reversed rt)) = false
  end.

Definition ranges_of (l : list fragment) : list range := omap (fun f => match f with RangeTombstone rt => Some rt | _ => None end) l.

(** The rows in which something is visible, with the deletions that cover them. *)
Fixpoint visible_rows (pt : tombstone) (rs : list range) (l : list fragment) : list (prefix * tombstone * deletable_row) :=
  match l with
  | ClusteringRow k d :: l' =>
      if row_shown now (covering pt rs k) d then (k, covering pt rs k, d) :: visible_rows pt rs l' else visible_rows pt rs l'
  | _ :: l' => visible_rows pt rs l'
  | [] => []
  end.

Lemma ranges_of_elem rt l : rt ∈ ranges_of l <-> RangeTombstone rt ∈ l.
Proof.
  unfold ranges_of. rewrite list_elem_of_omap. split.
  - intros (f & Hf & E). destruct f; by simplify_eq.
  - intros Hf. by exists (RangeTombstone rt).
Qed.

(** At a row, the ranges that have not been passed are those that cover its key. *)
Lemma covering_now pt seen p k l : before reversed (at_key k) p = false ->
  (forall rt, rt ∈ seen -> before reversed p (at_bound (first_bound reversed rt)) = false) ->
  (forall f, f ∈ l -> before reversed (frag_pos f) (at_key k) = false) ->
  fold_left (fun t rt => tomb_apply t (tomb rt)) (filter (fun rt => passed less reversed (at_key k) rt = false) seen) pt
    = covering pt (seen ++ ranges_of l) k.
Proof.
  intros Hk Hseen Hl. unfold covering. rewrite filter_app. f_equal.
  assert (filter (fun rt => covers k rt = true) (ranges_of l) = []) as ->.
  { apply filter_out_all. intros rt Hrt%ranges_of_elem. specialize (Hl _ Hrt). simpl in Hl. rewrite (covers_direction reversed).
    destruct (before_bound reversed k (first_bound reversed rt)) as [->|]; [done|congruence]. }
  rewrite app_nil_r. apply filter_same. intros rt Hrt. rewrite (covers_direction reversed), passed_before.
  rewrite (not_before_trans reversed _ _ _ (Hseen rt Hrt) Hk). simpl. by rewrite negb_true_iff.
Qed.

Lemma covering_tombstone_valid pt rs k : tombstone_valid pt -> Forall (fun rt => tombstone_valid (tomb rt)) rs -> tombstone_valid (covering pt rs k).
Proof.
  unfold covering. intros Hpt Hrs. assert (Forall (fun rt => tombstone_valid (tomb rt)) (filter (fun rt => covers k rt = true) rs)) as Hf.
  { rewrite Forall_forall in *. intros rt [_ Hrt]%list_elem_of_filter. auto. }
  revert pt Hpt. induction Hf as [|rt l Hrt _ IH]; intros pt Hpt; simpl; [done|]. apply IH.
  unfold tombstone_valid in *. rewrite tomb_apply_max. lia.
Qed.

Lemma acc_apply_inv pt seen p rt a : acc_inv reversed pt seen p a ->
  before reversed (at_bound (first_bound reversed rt)) p = false ->
  before reversed (at_bound (last_bound reversed rt)) (at_bound (first_bound reversed rt)) = false ->
  acc_inv reversed pt (seen ++ [rt]) (at_bound (first_bound reversed rt)) (acc_apply less reversed rt a).
Proof.
  intros Ha Hp Hok. destruct (acc_advance reversed pt seen p _ a Ha Hp) as [(H1 & H2 & H3) _]. split; [done|]. split.
  - by apply insert_range_sorted.
  - simpl. rewrite insert_range_perm, filter_app, filter_cons, decide_True by (by rewrite passed_before).
    simpl in H3. rewrite H3. by rewrite Permutation_app_comm.
Qed.

(** What a run of steps adds to the answer. *)
Definition answers (c c' : compactor) (want : list (prefix * tombstone * deletable_row)) : Prop :=
  same_limits c c' /\ exists os, row_outputs (outputs c') = row_outputs (outputs c) ++ os
    /\ Forall2 shows os want /\ rows_in_current_partition c' = rows_in_current_partition c + Zlen os
    /\ (os <> [] \/ empty_partition_flag c = false -> empty_partition_flag c' = false).

Lemma answers_none c c' : quiet c c' -> answers c c' [].
Proof.
  intros (Hs & Hn & Ho & Hf). split; [done|]. exists []. rewrite app_nil_r. split; [done|]. split; [done|]. unfold Zlen. simpl.
  split; [lia|]. intros [?|?]; [done|auto].
Qed.

Lemma same_limits_trans c1 c2 c3 : same_limits c1 c2 -> same_limits c2 c3 -> same_limits c1 c3.
Proof. intros (? & ? & ? & ?) (? & ? & ? & ?). repeat split; congruence. Qed.

Lemma quiet_answers c1 c2 c3 want : quiet c1 c2 -> answers c2 c3 want -> answers c1 c3 want.
Proof.
  intros (Hs & Hn & Ho & Hf) (Hs' & os & Ho' & Hw & Hn' & Hf'). split; [by eapply same_limits_trans|]. exists os.
  rewrite Ho', Ho. split; [done|]. split; [done|]. split; [lia|]. intros [?|?]; auto.
Qed.

Lemma row_answers c1 c2 c3 r o want : same_limits c1 c2 -> rows_in_current_partition c2 = rows_in_current_partition c1 + 1 ->
  empty_partition_flag c2 = false -> row_outputs (outputs c2) = row_outputs (outputs c1) ++ [o] -> shows o r ->
  answers c2 c3 want -> answers c1 c3 (r :: want).
Proof.
  intros Hs Hn Hf Ho Hr (Hs' & os & Ho' & Hw & Hn' & Hf'). split; [by eapply same_limits_trans|]. exists (o :: os).
  rewrite Ho', Ho, <- app_assoc. split; [done|]. split; [by constructor|]. unfold Zlen in *. simpl. split; [lia|]. auto.
Qed.

Lemma consume_fragments_spec pt rs l : forall seen p c,
  ordered l -> Forall fragment_valid l -> (forall f, f ∈ l -> before reversed (frag_pos f) p = false) ->
  acc_inv reversed pt seen p (range_tombstones c) -> rs = seen ++ ranges_of l ->
  (forall rt, rt ∈ seen -> before reversed p (at_bound (first_bound reversed rt)) = false) ->
  tombstone_valid pt -> Forall (fun rt => tombstone_valid (tomb rt)) rs ->
  0 <= rows_in_current_partition c < current_partition_limit c -> current_partition_limit c < 2 ^ 32 ->
  answers c (consume_fragments less s l c)
    (take (Z.to_nat (current_partition_limit c - rows_in_current_partition c)) (visible_rows pt rs l)).
Proof.
  induction l as [|f l IH]; intros seen p c [Hns Hord] Hval Hp Hacc Hrs Hseen Hpt Hvrs Hn Hlim.
  { simpl. rewrite take_nil. apply answers_none, quiet_refl. }
  apply Forall_cons in Hns as [Hf Hns]. apply StronglySorted_inv in Hord as [Hord Hafter]. rewrite Forall_forall in Hafter.
  apply Forall_cons in Hval as [Hvf Hval]. assert (before reversed (frag_pos f) p = false) as Hpf by (apply Hp, elem_of_cons; by left).
  destruct f as [r|k d|rt]; [done| |].
  - assert (covering pt rs k = (tombstone_for_row less reversed k (range_tombstones c)).2) as Hcov.
    { simpl. destruct (acc_advance reversed pt seen p _ _ Hacc Hpf) as [_ Hc]. simpl in Hc. rewrite Hc, Hrs. symmetry.
      change (ranges_of (ClusteringRow k d :: l)) with (ranges_of l). by apply (covering_now pt seen p). }
    assert (acc_inv reversed pt seen (at_key k) (tombstone_for_row less reversed k (range_tombstones c)).1) as Hacc'.
    { by destruct (acc_advance reversed pt seen p _ _ Hacc Hpf) as [? _]. }
    pose proof (consume_row_spec k d c) as Hrow. simpl. destruct (tombstone_for_row less reversed k (range_tombstones c)) as [a cov]. simpl in Hcov, Hacc'.
    subst cov. destruct (Hrow Hvf (covering_tombstone_valid _ _ _ Hpt Hvrs) ltac:(lia)) as (c' & stop & -> & Ha & Hres). clear Hrow.
    assert (forall c2, range_tombstones c2 = a -> 0 <= rows_in_current_partition c2 < current_partition_limit c2 -> current_partition_limit c2 < 2 ^ 32 ->
      answers c2 (consume_fragments less s l c2) (take (Z.to_nat (current_partition_limit c2 - rows_in_current_partition c2)) (visible_rows pt rs l))) as IH'.
    { intros c2 Ha2 Hn2 Hl2. apply (IH seen (at_key k)); try done; [by rewrite Ha2|].
      intros rt Hrt. by eapply not_before_trans; [apply (Hseen rt Hrt)|]. }
    destruct (row_shown now (covering pt rs k) d).
    + destruct Hres as (Hs & Hn' & -> & Hf' & o & Ho & Hsh). pose proof Hs as (_ & _ & _ & Hlim').
      replace (Z.to_nat (current_partition_limit c - rows_in_current_partition c))
        with (S (Z.to_nat (current_partition_limit c' - rows_in_current_partition c'))) by lia. simpl.
      destruct (Z.eqb_spec (rows_in_current_partition c + 1) (current_partition_limit c)) as [E|E].
      * eapply row_answers; [done..|]. replace (Z.to_nat _) with 0%nat by lia. apply answers_none, quiet_refl.
      * eapply row_answers; [done..|]. apply IH'; [done|lia|lia].
    + destruct Hres as [-> Hq]. pose proof Hq as ((_ & _ & _ & Hlim') & Hn' & _). eapply quiet_answers; [exact Hq|].
      rewrite <- Hlim', <- Hn'. apply IH'; [done|lia|lia].
  - simpl. destruct (consume_range_quiet rt c) as (c' & -> & Hq & Ha). pose proof Hq as ((_ & _ & _ & Hlim') & Hn' & _).
    destruct Hvf as [Hvt Hproper]. eapply quiet_answers; [exact Hq|]. rewrite <- Hlim', <- Hn'.
    apply (IH (seen ++ [rt]) (at_bound (first_bound reversed rt))); try done; [by rewrite Ha; eapply acc_apply_inv|by rewrite Hrs, <- app_assoc| |lia|lia].
    intros rt' [Hrt'|Hrt']%elem_of_app.
    + by eapply not_before_trans; [apply (Hseen rt' Hrt')|].
    + apply list_elem_of_singleton in Hrt' as ->. apply before_irrefl.
Qed.

(** ** A partition and its limits *)

Hypothesis Hstatic : forall id, def_ok (static_columns (columns s) id).

Definition body (l : list fragment) : list fragment := match l with StaticRow _ :: l' => l' | _ => l end.

(** Something of the static row is visible. *)
Definition static_shown (pt : tombstone) (l : list fragment) : bool :=
  match l with
  | StaticRow r :: _ => existsb (fun id => bool_decide (is_Some (visible_data now pt (cell_data r id)))) (row_ids r)
  | _ => false
  end.

Definition partition_deletion (t : tombstone) : tombstone := if has_tombstone t then t else no_tombstone.

(** The rows of a partition that fit the limits, and what they count for: a live
    static row counts as a row when there is none and no clustering key was asked for. *)
Definition wanted_rows (limit : Z) (t : tombstone) (l : list fragment) : list (prefix * tombstone * deletable_row) :=
  take (Z.to_nat (Z.min limit (partition_row_limit s))) (visible_rows (partition_deletion t) (ranges_of l) (body l)).
Definition rows_counted (limit : Z) (dk : Z) (t : tombstone) (l : list fragment) : Z :=
  if bool_decide (wanted_rows limit t l = []) && static_shown (partition_deletion t) l && negb (slice_selects s dk) then 1
  else Zlen (wanted_rows limit t l).

Definition partition_ok (p : Z * tombstone * list fragment) : Prop :=
  tombstone_valid p.1.2 /\ ordered (body p.2) /\ Forall fragment_valid p.2.

Lemma consume_static_spec r c : row_valid (static_columns (columns s)) r -> tombstone_valid (acc_partition (range_tombstones c)) ->
  exists c', consume_static_row s r c = (c', false)
    /\ row_limit c' = row_limit c /\ partition_limit c' = partition_limit c /\ current_partition_limit c' = current_partition_limit c
    /\ rows_in_current_partition c' = rows_in_current_partition c /\ range_tombstones c' = range_tombstones c
    /\ row_outputs (outputs c') = row_outputs (outputs c)
    /\ static_row_live c' = static_shown (acc_partition (range_tombstones c)) [StaticRow r]
    /\ (static_row_live c' = true -> empty_partition_flag c' = false).
Proof.
  intros Hr Hpt. unfold consume_static_row. set (pt := acc_partition (range_tombstones c)). rewrite always_gc, Honly.
  pose proof (compact_row_spec now (fun _ => true) (gc_time s) (static_columns (columns s)) (RowTombstone pt pt) Hstatic
    ltac:(unfold weaker, pt; simpl; unfold tombstone_valid in Hpt; lia) r Hr) as Hc.
  destruct (compact_and_expire _ _ _ _ r) as [r' live]. destruct Hc as (_ & _ & _ & _ & Hl). simpl in Hl.
  assert (live = static_shown pt [StaticRow r]) as ->.
  { apply eq_true_iff_eq. rewrite Hl. simpl. rewrite existsb_exists. setoid_rewrite <- list_elem_of_In. setoid_rewrite bool_decide_eq_true. split.
    - intros (id & Hs). exists id. split; [|done]. apply row_ids_elem. unfold cell_data in Hs.
      destruct (find_cell r id); [by eexists|by destruct Hs].
    - intros (id & _ & Hs). by exists id. }
  rewrite andb_false_l, orb_false_r. destruct (static_shown pt [StaticRow r]) eqn:E.
  - unfold pass_on. rewrite Hstops. eexists. split; [done|].
    destruct (not_empty_quiet (set_static_live true c)) as (((Q1 & Q2 & Q3 & Q4) & Q5 & Q6 & _) & Ha & Hf).
    pose proof (emit_quiet (OutStatic r' pt true) (partition_is_not_empty s (set_static_live true c)) eq_refl) as (_ & _ & Ho & _).
    simpl in *. repeat split; try done. by rewrite Ho, Q6.
  - eexists. by repeat split.
Qed.

(** The fragments of a partition. *)
Lemma consume_body_spec t l c : tombstone_valid t -> ordered (body l) -> Forall fragment_valid l ->
  acc_inv reversed (partition_deletion t) [] (at_key []) (range_tombstones c) ->
  rows_in_current_partition c = 0 -> static_row_live c = false -> empty_partition_flag c = true ->
  current_partition_limit c = Z.min (row_limit c) (partition_row_limit s) -> 0 < row_limit c < 2 ^ 32 ->
  exists os, let c' := consume_fragments less s l c in
    row_limit c' = row_limit c /\ partition_limit c' = partition_limit c
    /\ static_row_live c' = static_shown (partition_deletion t) l
    /\ row_outputs (outputs c') = row_outputs (outputs c) ++ os /\ Forall2 shows os (wanted_rows (row_limit c) t l)
    /\ rows_in_current_partition c' = Zlen os
    /\ (os <> [] \/ static_row_live c' = true -> empty_partition_flag c' = false).
Proof.
  intros Ht Hord Hval Hacc Hn Hs He Hl Hlim.
  assert (tombstone_valid (partition_deletion t)) as Hpt by (unfold partition_deletion; case_match; [done|unfold tombstone_valid; simpl; lia]).
  assert (forall c2 l2, l2 = body l -> ranges_of l = ranges_of l2 -> Forall fragment_valid l2 -> range_tombstones c2 = range_tombstones c ->
    rows_in_current_partition c2 = 0 -> current_partition_limit c2 = current_partition_limit c ->
    answers c2 (consume_fragments less s l2 c2) (wanted_rows (row_limit c) t l)) as Hbody.
  { intros c2 l2 El2 Hr Hv2 Ha2 Hn2 Hl2. subst l2. destruct Hacc as (Hp & Hse & Hpe).
    apply Permutation_nil_r in Hpe. unfold wanted_rows. rewrite Hr.
    destruct (body l) as [|f l2'] eqn:Eb; [simpl; rewrite take_nil; apply answers_none, quiet_refl|].
    pose proof Hord as [_ Hsort]. apply StronglySorted_inv in Hsort as [_ Hafter]. rewrite Forall_forall in Hafter.
    replace (Z.min (row_limit c) (partition_row_limit s)) with (current_partition_limit c2 - rows_in_current_partition c2) by lia.
    apply (consume_fragments_spec _ _ _ [] (frag_pos f)); try done; [| | | |lia|lia].
    - intros g [->|Hg]%elem_of_cons; [apply before_irrefl|auto].
    - rewrite Ha2. split; [done|]. split; [done|]. by rewrite Hpe.
    - by intros rt ?%elem_of_nil.
    - rewrite Forall_forall. intros rt Hrt%ranges_of_elem. rewrite Forall_forall in Hv2. by destruct (Hv2 _ Hrt). }
  destruct l as [|[r|k d|rt] l].
  2:{ apply Forall_cons in Hval as [Hr Hval]. destruct Hacc as (Hp & _ & _).
      destruct (consume_static_spec r c Hr ltac:(by rewrite Hp)) as (c2 & E & R1 & R2 & R3 & R4 & R5 & R6 & R7 & R8).
      simpl. rewrite E. destruct (Hbody c2 l eq_refl eq_refl Hval R5 ltac:(lia) R3) as ((A1 & A2 & A3 & A4) & os & B1 & B2 & B3 & B4).
      exists os. rewrite A1, A2, A3, R1, R2, R7, Hp. split; [done|]. split; [done|]. split; [done|]. split; [by rewrite B1, R6|]. split; [done|].
      split; [lia|]. intros [?|Hst]; apply B4; [by left|]. right. apply R8. by rewrite R7, Hp. }
  all: destruct (Hbody c _ eq_refl eq_refl Hval eq_refl Hn eq_refl) as ((A1 & A2 & A3 & A4) & os & B1 & B2 & B3 & B4);
    cbn [body] in A1, A2, A3, A4, B1, B2, B3, B4; exists os; cbv zeta; rewrite A1, A2, A3, Hs; (split; [done|]); (split; [done|]); (split; [done|]); (split; [done|]); (split; [done|]);
    (split; [lia|]); intros [?|?]; [apply B4; by left|done].
Qed.

Lemma consume_partition_spec dk t l c : partition_ok (dk, t, l) ->
  0 < row_limit c < 2 ^ 32 -> 0 < partition_limit c < 2 ^ 32 ->
  let n := rows_counted (row_limit c) dk t l in
  exists c' os, consume_partition less s dk t l c = (c', (row_limit c - n =? 0) || (partition_limit c - b2z (0 <? n) =? 0))
    /\ row_limit c' = row_limit c - n /\ partition_limit c' = partition_limit c - b2z (0 <? n)
    /\ 0 <= n <= row_limit c
    /\ row_outputs (outputs c') = row_outputs (outputs c) ++ os /\ Forall2 shows os (wanted_rows (row_limit c) t l).
Proof.
  intros (Ht & Hord & Hval) Hrl Hpl n. unfold consume_partition.
  set (c1 := if has_tombstone t then consume_tombstone s t (consume_new_partition s dk c) else consume_new_partition s dk c).
  assert (c1 = set_acc (Acc (partition_deletion t) [] (partition_deletion t)) (consume_new_partition s dk c)) as E1.
  { unfold c1, partition_deletion. destruct (has_tombstone t); [|done]. unfold consume_tombstone. by rewrite Honly. }
  destruct (consume_body_spec t l c1 Ht Hord Hval) as (os & A1 & A2 & A3 & A4 & A5 & A6 & A7).
  { rewrite E1. split; [done|]. split; [constructor|done]. }
  1-5: by rewrite E1.
  assert (row_limit c1 = row_limit c) as R1 by (by rewrite E1). assert (partition_limit c1 = partition_limit c) as R2 by (by rewrite E1).
  assert (outputs c1 = outputs c) as R3 by (by rewrite E1). rewrite R1, R2, R3 in *. set (c2 := consume_fragments less s l c1) in *.
  pose proof (Forall2_length _ _ _ A5) as Hlen.
  assert (Zlen os <= row_limit c) as Hle.
  { unfold Zlen. rewrite Hlen. unfold wanted_rows. rewrite length_take. lia. }
  assert (has_ck_selector c2 = slice_selects s dk) as Hsel
    by (unfold c2; rewrite consume_fragments_selector, E1; done).
  assert (n = if (Zlen os =? 0) && static_row_live c2 && negb (has_ck_selector c2) then 1 else Zlen os) as En.
  { unfold n, rows_counted. rewrite A3, Hsel. unfold Zlen. rewrite Hlen.
    by destruct (wanted_rows (row_limit c) t l). }
  assert (0 <= Zlen os) by (unfold Zlen; lia). assert (0 <= n <= row_limit c) as Hn by (rewrite En; case_match; lia).
  unfold consume_end_of_partition. destruct (empty_partition_flag c2) eqn:Ef; simpl.
  - assert (os = []) as -> by (destruct os; [done|]; discriminate A7; by left).
    assert (n = 0) as E0. { rewrite En. destruct (static_row_live c2); [|by rewrite andb_false_r]. discriminate A7. by right. }
    exists c2, []. rewrite E0, A1, A2. simpl. rewrite !Z.sub_0_r.
    rewrite (proj2 (Z.eqb_neq (row_limit c) 0)), (proj2 (Z.eqb_neq (partition_limit c) 0)) by lia.
    split; [done|]. split; [done|]. split; [done|]. split; [lia|]. split; [by rewrite A4|done].
  - set (c3 := if (rows_in_current_partition c2 =? 0) && static_row_live c2 && negb (has_ck_selector c2)
               then set_rows (uwrap 32 (rows_in_current_partition c2 + 1)) c2 else c2).
    assert (rows_in_current_partition c3 = n) as E3.
    { rewrite En. unfold c3. rewrite A6. destruct (_ && negb (has_ck_selector c2)) eqn:Ec; [|done]. simpl.
      rewrite !andb_true_iff, Z.eqb_eq in Ec. destruct Ec as [[-> _] _]. done. }
    assert (row_limit c3 = row_limit c /\ partition_limit c3 = partition_limit c /\ outputs c3 = outputs c2) as (L1 & L2 & L3)
      by (unfold c3; destruct ((rows_in_current_partition c2 =? 0) && _ && _); (split; [exact A1|split; [exact A2|done]])).
    rewrite Hquery. simpl. rewrite Hstops, E3, L1, L2, L3. unfold uwrap.
    rewrite (Z.mod_small (row_limit c - n)) by lia.
    rewrite (Z.mod_small (partition_limit c - b2z (0 <? n))) by (unfold b2z; destruct (0 <? n); lia).
    eexists _, os. split; [f_equal; by destruct (row_limit c - n =? 0), (partition_limit c - b2z (0 <? n) =? 0)|]. simpl.
    split; [done|]. split; [done|]. split; [done|]. split; [|done]. rewrite row_outputs_app, A4. by rewrite app_nil_r.
Qed.

(** ** A query *)

(** The rows of a query over partitions. *)
Fixpoint query_rows (limit plimit : Z) (ps : list (Z * tombstone * list fragment)) : list (prefix * tombstone * deletable_row) :=
  match ps with
  | [] => []
  | (dk, t, l) :: ps' =>
      let n := rows_counted limit dk t l in
      wanted_rows limit t l
      ++ (if (limit - n =? 0) || (plimit - b2z (0 <? n) =? 0) then [] else query_rows (limit - n) (plimit - b2z (0 <? n)) ps')
  end.

Lemma consume_partitions_spec ps : forall c, Forall partition_ok ps ->
  0 < row_limit c < 2 ^ 32 -> 0 < partition_limit c < 2 ^ 32 ->
  exists os, row_outputs (outputs (consume_partitions less s ps c)) = row_outputs (outputs c) ++ os
    /\ Forall2 shows os (query_rows (row_limit c) (partition_limit c) ps).
Proof.
  induction ps as [|[[dk t] l] ps IH]; intros c Hps Hrl Hpl; [exists []; by rewrite app_nil_r|].
  apply Forall_cons in Hps as [Hp Hps]. destruct (consume_partition_spec dk t l c Hp Hrl Hpl) as (c' & os & E & R1 & R2 & Hn & Ho & Hw).
  simpl. rewrite E. destruct (_ || _) eqn:Es.
  - exists os. by rewrite app_nil_r.
  - apply orb_false_iff in Es as [E1%Z.eqb_neq E2%Z.eqb_neq].
    assert (0 <= b2z (0 <? rows_counted (row_limit c) dk t l) <= 1) by (unfold b2z; case_match; lia).
    destruct (IH c' Hps ltac:(lia) ltac:(lia)) as (os' & Ho' & Hw'). exists (os ++ os'). rewrite Ho', Ho, app_assoc. split; [done|].
    apply Forall2_app; [done|]. by rewrite <- R1, <- R2.
Qed.

(** C14. A query for live rows answers with what is visible. Over a stream of
    partitions in order, forwards or backwards, [compact_mutation] as data queries
    use it ([emit_only_live_rows::yes], not for sstables, the next consumer never
    asks to stop) passes on exactly the rows in which the marker or a cell is
    visible under the deletions that cover the row (of the row, of the ranges and
    of the partition), in order, up to the limits on rows, on rows of a partition
    and on partitions, where a live static row counts when it stands alone in a
    partition of which the slice selects no rows; and of each row exactly what is
    visible. *)
Theorem query_answers_visible ps limit plimit :
  Forall partition_ok ps -> 0 < limit < 2 ^ 32 -> 0 < plimit < 2 ^ 32 ->
  Forall2 shows
    (row_outputs (outputs (consume_partitions less s ps (compactor_new limit plimit))))
    (query_rows limit plimit ps).
Proof.
  intros Hps Hl Hp. destruct (consume_partitions_spec ps (compactor_new limit plimit) Hps Hl Hp) as (os & -> & Hw).
  exact Hw.
Qed.
End stream.

(** The order of bounds is such an order. *)
#[export] Instance bound_less_order {component} (tri_compare : nat -> component -> component -> Z)
    (Htri : forall i, TriOrder (fun _ => True) (fun x y => Z.sgn (tri_compare i x y))) : PositionOrder (bound_less tri_compare).
Proof.
  pose proof (cmp_tri tri_compare Htri) as Hcmp.
  assert (forall p q, bound_less tri_compare p q = true <-> cmp tri_compare p q < 0) as E.
  { intros p q. by rewrite bound_less_cmp, Z.ltb_lt. }
  split.
  - intros p. apply not_true_iff_false. rewrite E, (tri_refl (c := cmp tri_compare)) by done. lia.
  - intros p q r. rewrite !E. intros Hpr. destruct (Z_lt_le_dec (cmp tri_compare p q) 0) as [|H1]; [by left|].
    destruct (Z_lt_le_dec (cmp tri_compare q r) 0) as [|H2]; [by right|].
    pose proof (tri_opp (c := cmp tri_compare) p q I I). pose proof (tri_opp (c := cmp tri_compare) q r I I). pose proof (tri_opp (c := cmp tri_compare) p r I I).
    pose proof (tri_trans (c := cmp tri_compare) r q p I I I). lia.
  - intros p q. rewrite E. intros Hpq. apply not_true_iff_false. rewrite E. pose proof (tri_opp (c := cmp tri_compare) p q I I). lia.
  - intros k b. rewrite !E. pose proof (tri_opp (c := cmp tri_compare) (at_key k) (at_bound b) I I).
    destruct (Z.eq_dec (cmp tri_compare (at_key k) (at_bound b)) 0) as [E0|]; [|lia].
    unfold cmp in E0. simpl in E0. apply pcmp_zero_weight in E0. by destruct (kind b).
Qed.

(** A partition with a deletion of [1, 5] at time 10 and the rows 3 and 6, written at
    time 7. *)
Definition written_row (v : Z) : deletable_row := DRow no_row_tombstone no_marker (atomic_row (Live 7 [v] None)).
Definition example_stream : list (Z * tombstone * list (fragment Z)) :=
  [(1, no_tombstone,
    [RangeTombstone (RT (Bound [1] incl_start) (Bound [5] incl_end) (Tombstone 10 0));
     ClusteringRow [3] (written_row 1); ClusteringRow [6] (written_row 2); ClusteringRow [7] (written_row 3)])].
Definition atomic_env : env := Env (fun _ => true) 4 (fun _ => AtomicColumn) (fun _ => AtomicColumn).
Definition example_settings : settings Z := Settings true false false 100 50 (fun _ => 0) 10 (fun _ => false) atomic_env (fun _ => false).

Lemma written_row_valid v : dr_valid (fun _ => AtomicColumn) (written_row v).
Proof.
  split; [split; vm_compute; discriminate|]. apply atomic_row_valid; vm_compute; split; (discriminate || reflexivity).
Qed.

Lemma example_stream_ok : Forall (partition_ok (bound_less Z_compare) example_settings) example_stream.
Proof.
  apply Forall_singleton. split; [vm_compute; discriminate|]. split.
  - split; [repeat constructor|]. repeat (constructor; [|repeat constructor]). constructor.
  - apply Forall_cons. split; [split; vm_compute; (discriminate || reflexivity)|].
    apply Forall_cons. split; [apply written_row_valid|]. apply Forall_cons. split; [apply written_row_valid|].
    apply Forall_singleton. apply written_row_valid.
Qed.

Lemma query_answers_visible_witness :
  exists d, row_outputs (outputs (consume_partitions (bound_less Z_compare) example_settings example_stream (compactor_new 1 9)))
              = [OutRow [6] d no_row_tombstone true]
    /\ visible_data 100 no_tombstone (cell_data (cells d) 0) = Some (SeenCell (Live 7 [2] None)).
Proof.
  pose proof (@query_answers_visible Z (bound_less Z_compare) (bound_less_order Z_compare Z_compare_order) example_settings
    eq_refl eq_refl (fun _ => eq_refl) ltac:(vm_compute; split; reflexivity) (fun _ => I) (fun _ => I) example_stream 1 9) as Hq.
  assert (query_rows (bound_less Z_compare) example_settings 1 9 example_stream = [([6], no_tombstone, written_row 2)]) as Er by (vm_compute; reflexivity).
  rewrite Er in Hq. specialize (Hq example_stream_ok ltac:(lia) ltac:(lia)).
  destruct (row_outputs _) as [|o os]; [by inversion Hq|]. apply Forall2_cons in Hq as [(d & -> & Hd) ->%Forall2_nil_inv_r].
  exists d. split; [reflexivity|]. destruct Hd as (_ & _ & _ & Hd). destruct (Hd no_tombstone) as [_ Hc]; [split; vm_compute; discriminate|]. rewrite Hc. vm_compute. reflexivity.
Defined.
