(* ===== verification/PortReader.v ===== *)
(** * Reading a snapshot (partition_snapshot_reader.hh, partition_version.cc, mutation_partition.cc)

    A read of a partition goes through [partition_snapshot_flat_reader], which makes
    a stream of fragments from a snapshot of the version list, through
    [compact_mutation] (Compactor.v), and into [mutation_querier], which writes the
    cells of the answer, with the version of each atomic cell.

    PORT changed the reader: rows and range tombstones are taken from the version of
    the snapshot alone, while the partition tombstone and the static row are
    still those of all versions from it on. *)

From stdpp Require Import gmap.
From S2P Require Import Prelude Mergeable Keyed Cell Counters Row RowInv RowTheorems RangeTombstones.
From S2P Require Import MutationPartition Compaction Compactor.
Open Scope Z_scope.

(** ** Snapshots *)

Section snapshot.
Context {component : Type} `{Countable component}.
Abbreviation prefix := (list component).
Abbreviation pos := (prefix * Z)%type.
Abbreviation range := (range_tombstone component).
Abbreviation partition := (mutation_partition prefix component).
Abbreviation fragment := (fragment component).
Variables (s : env) (less : pos -> pos -> bool) (prefix_eq : prefix -> prefix -> bool).

(** The versions of a snapshot, newest first: its own and the older ones. *)
Abbreviation snapshot := (list partition).

(** [squashed]. *)
Definition squashed {R} (map : partition -> R) (reduce : R -> R -> R) (v : partition) (older : list partition) : R :=
  fold_left (fun r mp => reduce r (map mp)) older (map v).

Definition snapshot_tombstone (v : partition) (older : list partition) : tombstone :=
  squashed partition_tombstone tomb_apply v older.

(** [row::apply] of a row that stays as it is: its cells are copied and merged one
    by one. [None]: an assertion of a counter fails. *)
Definition apply_copy (kind : nat -> column_type) (dst src : row) : option row :=
  if row_size src =? 0 then Some dst
  else
    r ← reserve (internal_count s) false (last_id src) dst;
    fold_left (fun (acc : option row) id =>
      r ← acc; c ← find_cell src id;
      match apply_cell (one_fragment s) NoFault (kind id) id r c 0 with StepMerged r _ => Some r | _ => None end) (row_ids src) (Some r).

Definition snapshot_static_row (v : partition) (older : list partition) : option row :=
  squashed (fun mp => Some (static_row mp)) (fun a b => a ← a; b ← b; apply_copy (static_columns s) a b) v older.

(** ** The reader *)

(** A range of clustering keys as its bounds. *)
Abbreviation ck_range := (bound_view component * bound_view component)%type.
Definition full_range : ck_range := (Bound [] incl_start, Bound [] incl_end).

Fixpoint drop_while {A} (f : A -> bool) (l : list A) : list A :=
  match l with [] => [] | x :: l' => if f x then drop_while f l' else l end.
Fixpoint take_while {A} (f : A -> bool) (l : list A) : list A :=
  match l with [] => [] | x :: l' => if f x then x :: take_while f l' else [] end.

(** [range_tombstone_list::slice]. *)
Definition slice_ranges (l : list range) (r : ck_range) : list range :=
  drop_while (fun rt => less (at_bound (end_bound rt)) (at_bound r.1))
    (take_while (fun rt => negb (less (at_bound r.2) (at_bound (start_bound rt)))) l).

(** The rows of a partition in order, and those of a range after a position. *)
Definition key_less (a b : prefix) : bool := less (at_key a) (at_key b).
Definition ordered_rows (mp : partition) : list (prefix * rows_entry) :=
  omap (fun k => pair k <$> clustered_rows mp !! k) (rows_in_order key_less (clustered_rows mp)).
Definition rows_of_range (mp : partition) (r : ck_range) (last_row : option prefix) : list (prefix * rows_entry) :=
  let from :=
    match last_row with
    | Some k => drop_while (fun x => negb (key_less k x.1)) (ordered_rows mp)
    | None => drop_while (fun x => less (at_key x.1) (at_bound r.1)) (ordered_rows mp)
    end in
  take_while (fun x => less (at_key x.1) (at_bound r.2)) from.

(** The reader: the ranges from the current one on, the position of the last row,
    the row that waits for range tombstones before it, the range tombstones, and
    the rows that are left of the version of the snapshot. *)
Record reader := Reader {
  ck_ranges : list ck_range; last_entry : option prefix; next_row : option (prefix * deletable_row);
  range_stream : list range; clustering_rows : list (prefix * rows_entry); no_more_rows_in_current_range : bool }.

(** [range_tombstone_stream::apply] and [get_next] up to a position. *)
Definition stream_apply (l : list range) (st : list range) : list range :=
  match apply_ranges less prefix_eq st l [] None with Edited l _ _ | Failed l _ => l end.
Definition get_next_range (p : pos) (st : list range) : option (range * list range) :=
  match st with
  | rt :: st' => if less (at_bound (start_bound rt)) p then Some (rt, st') else None
  | [] => None
  end.

(** [refresh_state]. *)
Definition refresh_state (v : partition) (r : ck_range) (rd : reader) : reader :=
  let st := match last_entry rd with
            | None => stream_apply (slice_ranges (row_tombstones v) r) (range_stream rd)
            | Some _ => range_stream rd
            end in
  Reader (ck_ranges rd) (last_entry rd) (next_row rd) st (rows_of_range v r (last_entry rd)) (no_more_rows_in_current_range rd).

(** The loop of [lsa_partition_reader::next_row]; with one version no two rows of
    the heap have the same position. *)
Fixpoint pop_row (l : list (prefix * rows_entry)) : option (prefix * deletable_row) * list (prefix * rows_entry) :=
  match l with
  | [] => (None, [])
  | (k, e) :: l' => if dummy e then pop_row l' else (Some (k, entry_row e), l')
  end.

(** [next_row]; [changed]: the change mark of the snapshot is not the last one. *)
Definition lsa_next_row (v : partition) (changed : bool) (r : ck_range) (rd : reader) : reader :=
  let rd := if changed || bool_decide (last_entry rd = None) then refresh_state v r rd else rd in
  let '(row, rest) := pop_row (clustering_rows rd) in
  Reader (ck_ranges rd) (last_entry rd) row (range_stream rd) rest (no_more_rows_in_current_range rd).

Definition take_range (rt : range) (st : list range) (rd : reader) : reader :=
  Reader (ck_ranges rd) (last_entry rd) (next_row rd) st (clustering_rows rd) (no_more_rows_in_current_range rd).

Definition read_next (v : partition) (changed : bool) (r : ck_range) (rd : reader) : option fragment * reader :=
  let rd := if bool_decide (next_row rd = None) && negb (no_more_rows_in_current_range rd) then lsa_next_row v changed r rd else rd in
  match next_row rd with
  | Some (k, d) =>
      match get_next_range (at_key k) (range_stream rd) with
      | Some (rt, st) => (Some (RangeTombstone rt), take_range rt st rd)
      | None =>
          (Some (ClusteringRow k d),
           Reader (ck_ranges rd) (Some k) None (range_stream rd) (clustering_rows rd) (no_more_rows_in_current_range rd))
      end
  | None =>
      let rd := Reader (ck_ranges rd) (last_entry rd) None (range_stream rd) (clustering_rows rd) true in
      match get_next_range (at_bound r.2) (range_stream rd) with
      | Some (rt, st) => (Some (RangeTombstone rt), take_range rt st rd)
      | None => (None, rd)
      end
  end.

(** [do_fill_buffer] until the end of the stream: a full buffer only pauses it.
    [marks] says for each step whether the change mark changed. [None]: the steps
    do not suffice. *)
Fixpoint fill (steps : nat) (v : partition) (marks : nat -> bool) (rd : reader) : option (list fragment) :=
  match ck_ranges rd with
  | [] => Some []
  | r :: rs =>
      match steps with
      | O => None
      | S steps' =>
          match read_next v (marks steps') r rd with
          | (Some f, rd) => fs ← fill steps' v marks rd; Some (f :: fs)
          | (None, rd) => fill steps' v marks (Reader rs None (next_row rd) (range_stream rd) (clustering_rows rd) false)
          end
      end
  end.

(** [partition_snapshot_flat_reader]: the tombstone of the partition start, and the
    fragments. *)
Definition flat_reader (steps : nat) (ranges : list ck_range) (v : partition) (older : list partition) (marks : nat -> bool)
    : option (tombstone * list fragment) :=
  sr ← snapshot_static_row v older;
  fs ← fill steps v marks (Reader ranges None None [] [] false);
  Some (snapshot_tombstone v older, (if row_size sr =? 0 then [] else [StaticRow sr]) ++ fs).

(** ** The answer *)

(** A cell of the answer: an atomic cell with its version, a counter, or a
    collection. *)
Inductive qr_cell := QCell (c : atomic_cell) (version : Z) | QCounter (c : counter_cell) | QCollection (c : collection).

(** [collection_type_impl::is_any_live] without a tombstone and at the least time. *)
Definition is_any_live (c : collection) : bool :=
  existsb (fun e => is_live e.2 && negb (is_covered_by (timestamp e.2) (coll_tomb c) false)
                    && negb (has_expired (- 2 ^ 31) e.2)) (coll_cells c).

(** [get_compacted_row_slice]: the cells of the columns asked for, [None] for a
    column that is skipped. *)
Definition result_cell (c : cell_obj) : option qr_cell :=
  match data c with
  | Some (Atomic a) => if is_live a then Some (QCell a (most_recent_version c)) else None
  | Some (Counter k) => if is_live (counter_view k) then Some (QCounter k) else None
  | Some (Collection k) => if is_any_live k then Some (QCollection k) else None
  | None => None
  end.
Definition get_compacted_row_slice (cs : list nat) (r : row) : list (option qr_cell) :=
  (fun id => c ← find_cell r id; result_cell c) <$> cs.

(** The clustered rows that [mutation_querier] writes. *)
Definition answer_rows (cs : list nat) (os : list (output component)) : list (prefix * list (option qr_cell)) :=
  omap (fun o => match o with OutRow k d _ _ => Some (k, get_compacted_row_slice cs (cells d)) | _ => None end) os.

(** [data_query] of the partition [dk], in the order of its rows. *)
Definition data_query (st : settings component) (dk row_limit partition_limit : Z) (steps : nat) (ranges : list ck_range) (cs : list nat)
    (v : partition) (older : list partition) (marks : nat -> bool) : option (list (prefix * list (option qr_cell))) :=
  if (row_limit =? 0) || (partition_row_limit st =? 0) || (partition_limit =? 0) then Some []
  else
    '(t, fs) ← flat_reader steps ranges v older marks;
    Some (answer_rows cs (outputs (consume_partitions less st [(dk, t, fs)] (compactor_new row_limit partition_limit)))).
End snapshot.
Arguments reader : clear implicits.
