(* ===== verification/PortReaderTheorems.v ===== *)
(** * Reading a snapshot: the stream of the reader

    For any sequence of change marks, the reader ends with the rows of its range and
    the range tombstones of the version of the snapshot, in order. *)

From stdpp Require Import gmap.
From S2P Require Import Prelude Mergeable Keyed Cell Counters Row RowInv RowTheorems RangeTombstones RangeTombstonesInv RangeTombstonesTheorems.
From S2P Require Import MutationPartition MutationPartitionTheorems Compaction CompactionTheorems Compactor CompactorTheorems PortReader.
Open Scope Z_scope.

(** ** Prefixes and suffixes of a sorted list *)

Lemma take_while_app {A} (f : A -> bool) l k : (forall x, x ∈ l -> f x = true) -> take_while f (l ++ k) = l ++ take_while f k.
Proof.
  induction l as [|x l IH]; intros Hf; [done|]. simpl. rewrite Hf by (apply elem_of_cons; by left).
  rewrite IH; [done|]. intros y Hy. apply Hf, elem_of_cons. by right.
Qed.

Lemma drop_while_app {A} (f : A -> bool) l k : (forall x, x ∈ l -> f x = true) -> drop_while f (l ++ k) = drop_while f k.
Proof.
  induction l as [|x l IH]; intros Hf; [done|]. simpl. rewrite Hf by (apply elem_of_cons; by left).
  apply IH. intros y Hy. apply Hf, elem_of_cons. by right.
Qed.

Lemma take_while_all {A} (f : A -> bool) l : (forall x, x ∈ l -> f x = true) -> take_while f l = l.
Proof. intros Hf. rewrite <- (app_nil_r l) at 1. rewrite take_while_app by done. simpl. apply app_nil_r. Qed.

Lemma drop_while_none {A} (f : A -> bool) l : (forall x, x ∈ l -> f x = false) -> drop_while f l = l.
Proof. destruct l as [|x l]; intros Hf; [done|]. simpl. by rewrite Hf by (apply elem_of_cons; by left). Qed.

Lemma take_while_split {A} (f : A -> bool) l : exists k, l = take_while f l ++ k /\ drop_while f l = k.
Proof.
  induction l as [|x l (k & E & E')]; [by exists []|]. simpl. destruct (f x); [|by exists (x :: l)].
  exists k. split; [|done]. simpl. by f_equal.
Qed.

Lemma take_drop_while {A} (f : A -> bool) l : take_while f l ++ drop_while f l = l.
Proof. destruct (take_while_split f l) as (k & E & ->). done. Qed.

Lemma take_while_elem {A} (f : A -> bool) l x : x ∈ take_while f l -> f x = true /\ x ∈ l.
Proof.
  induction l as [|y l IH]; simpl; [by intros ?%elem_of_nil|]. destruct (f y) eqn:E; [|by intros ?%elem_of_nil].
  rewrite !elem_of_cons. intros [->|[? ?]%IH]; auto.
Qed.

Lemma drop_while_elem {A} (f : A -> bool) l x : x ∈ drop_while f l -> x ∈ l.
Proof. intros Hx. rewrite <- (take_drop_while f l). apply elem_of_app. by right. Qed.

Section reader.
Context {component : Type} `{Countable component}.
Abbreviation prefix := (list component).
Abbreviation pos := (prefix * Z)%type.
Abbreviation range := (range_tombstone component).
Abbreviation partition := (mutation_partition prefix component).
Abbreviation fragment := (fragment component).
Variables (less : pos -> pos -> bool) (prefix_eq : prefix -> prefix -> bool).
Context {Horder : PositionOrder less}.
Abbreviation key_less := (key_less less).
Abbreviation rows_of_range := (rows_of_range less).

(** Rows in strictly ascending order. *)
Definition rows_sorted (l : list (prefix * rows_entry)) : Prop := StronglySorted (fun x y => key_less x.1 y.1 = true) l.

Lemma less_trans p q r : less p q = true -> less q r = true -> less p r = true.
Proof. intros H1 H2. destruct (less_cotrans less p r q H1) as [?|H3]; [done|]. apply (less_asym less) in H3. congruence. Qed.

(** What follows a row in a range is the range after it. *)
Lemma rows_after v r o pre k e post : rows_sorted (ordered_rows less v) ->
  rows_of_range v r o = pre ++ (k, e) :: post -> post = rows_of_range v r (Some k).
Proof.
  intros Hs E. unfold PortReader.rows_of_range in E |- *. set (all := ordered_rows less v) in *.
  set (g := match o with Some k' => _ | None => _ end) in E.
  assert (exists pre', all = pre' ++ g) as (pre' & Eall).
  { unfold g. destruct o; eexists; symmetry; apply take_drop_while. }
  set (E2 := fun x : prefix * rows_entry => less (at_key x.1) (at_bound r.2)) in *.
  destruct (take_while_split E2 g) as (rest & Eg & _). rewrite E, <- app_assoc in Eg. simpl in Eg.
  assert (take_while E2 (post ++ rest) = post) as Epost.
  { assert (take_while E2 g = take_while E2 ((pre ++ [(k, e)]) ++ post ++ rest)) as E3 by (rewrite Eg, <- app_assoc; done).
    rewrite E, take_while_app in E3.
    - rewrite <- app_assoc in E3. apply app_inv_head in E3. simpl in E3. by injection E3 as <-.
    - intros x Hx. assert (x ∈ take_while E2 g) as Hin. { rewrite E. rewrite elem_of_app, elem_of_cons. apply elem_of_app in Hx as [?|?%list_elem_of_singleton]; auto. }
      by apply take_while_elem in Hin as [? _]. }
  rewrite Eg, app_assoc in Eall. unfold rows_sorted in Hs. rewrite Eall in Hs |- *.
  apply StronglySorted_app in Hs as (Hpre & _ & Hpost). apply StronglySorted_inv in Hpost as [_ Hpost]. rewrite Forall_forall in Hpost. simpl in Hpost.
  rewrite drop_while_app.
  - simpl. unfold PortReader.key_less at 1. rewrite (less_irrefl less). simpl. rewrite drop_while_none; [by rewrite Epost|].
    intros x Hx. by rewrite Hpost.
  - intros x Hx. specialize (Hpre x (k, e) Hx ltac:(apply elem_of_cons; by left)). simpl in Hpre.
    unfold PortReader.key_less in *. by rewrite (less_asym less).
Qed.

(** ** The stream of a range *)

Section one_range.
Variables (v : partition) (r : bound_view component * bound_view component) (marks : nat -> bool).
Hypothesis Hsorted : rows_sorted (ordered_rows less v).
Abbreviation rows_after_key k := (rows_of_range v r (Some k)).
Abbreviation starts_before p := (fun rt : range => less (at_bound (start_bound rt)) p).

(** Rows and range tombstones by their positions. *)
Fixpoint weave (l : list (prefix * rows_entry)) (rs : list range) : list fragment :=
  match l with
  | [] => RangeTombstone <$> take_while (starts_before (at_bound r.2)) rs
  | (k, e) :: l' =>
      if dummy e then weave l' rs
      else (RangeTombstone <$> take_while (starts_before (at_key k)) rs)
           ++ ClusteringRow k (entry_row e) :: weave l' (drop_while (starts_before (at_key k)) rs)
  end.

Lemma pop_row_spec l :
  match pop_row l with
  | (Some (k, d), l') => exists pre e, l = pre ++ (k, e) :: l' /\ d = entry_row e
      /\ forall rs, weave l rs = (RangeTombstone <$> take_while (starts_before (at_key k)) rs)
                                  ++ ClusteringRow k d :: weave l' (drop_while (starts_before (at_key k)) rs)
  | (None, _) => forall rs, weave l rs = weave [] rs
  end.
Proof.
  induction l as [|[k e] l IH]; [done|]. simpl. destruct (dummy e) eqn:E; [|by exists [], e].
  destruct (pop_row l) as [[[k' d']|] l']; [|done]. destruct IH as (pre & e' & -> & Hd & Hw). by exists ((k, e) :: pre), e'.
Qed.

Lemma get_next_range_spec p rs :
  match get_next_range less p rs with
  | Some (rt, rs') => rs = rt :: rs' /\ starts_before p rt = true
  | None => take_while (starts_before p) rs = [] /\ drop_while (starts_before p) rs = rs
  end.
Proof. destruct rs as [|rt rs]; simpl; [done|]. by destruct (less (at_bound (start_bound rt)) p) eqn:E. Qed.

Abbreviation fill := (fill less prefix_eq).

(** The rows are used up. *)
Lemma fill_ranges steps rs o l : (length rs < steps)%nat ->
  fill steps v marks (Reader [r] o None rs l true) = Some (RangeTombstone <$> take_while (starts_before (at_bound r.2)) rs).
Proof.
  revert rs. induction steps as [|steps IH]; intros rs Hst; [lia|]. simpl. unfold read_next. simpl.
  pose proof (get_next_range_spec (at_bound r.2) rs) as Hg.
  destruct (get_next_range less (at_bound r.2) rs) as [[rt rs']|].
  - destruct Hg as [-> Hlt]. unfold take_range. simpl in *. rewrite IH by lia. simpl. by rewrite Hlt.
  - destruct Hg as [-> _]. by destruct steps.
Qed.

(** A row waits for the range tombstones before it. *)
Lemma fill_row k d l : l = rows_after_key k ->
  (forall steps rs, (length l + length rs < steps)%nat ->
     fill steps v marks (Reader [r] (Some k) None rs l false) = Some (weave l rs)) ->
  forall steps rs o, (S (length l + length rs) < steps)%nat ->
  fill steps v marks (Reader [r] o (Some (k, d)) rs l false) =
    Some ((RangeTombstone <$> take_while (starts_before (at_key k)) rs) ++ ClusteringRow k d :: weave l (drop_while (starts_before (at_key k)) rs)).
Proof.
  intros Hl Hrest steps. induction steps as [|steps IH]; intros rs o Hst; [lia|]. simpl. unfold read_next. simpl.
  pose proof (get_next_range_spec (at_key k) rs) as Hg. destruct (get_next_range less (at_key k) rs) as [[rt rs']|].
  - destruct Hg as [-> Hlt]. unfold take_range. simpl in *. rewrite IH by lia. simpl. by rewrite Hlt.
  - destruct Hg as [-> ->]. simpl. by rewrite Hrest by lia.
Qed.

(** The next row is fetched; a changed mark makes no difference. *)
Lemma read_next_pop changed k rs l : l = rows_after_key k ->
  read_next less prefix_eq v changed r (Reader [r] (Some k) None rs l false) =
    match pop_row l with
    | (Some kd, l') => read_next less prefix_eq v changed r (Reader [r] (Some k) (Some kd) rs l' false)
    | (None, l') => read_next less prefix_eq v changed r (Reader [r] (Some k) None rs l' true)
    end.
Proof.
  intros Hl. unfold read_next at 1. simpl. unfold lsa_next_row, refresh_state. simpl.
  rewrite <- Hl. destruct changed; simpl; by destruct (pop_row l) as [[[k' d']|] l'].
Qed.

Lemma fill_pop steps k rs l : l = rows_after_key k ->
  fill steps v marks (Reader [r] (Some k) None rs l false) =
    match pop_row l with
    | (Some kd, l') => fill steps v marks (Reader [r] (Some k) (Some kd) rs l' false)
    | (None, l') => fill steps v marks (Reader [r] (Some k) None rs l' true)
    end.
Proof.
  intros Hl. destruct steps as [|steps]; [by destruct (pop_row l) as [[[k' d']|] l']|]. simpl.
  rewrite read_next_pop by done. by destruct (pop_row l) as [[[k' d']|] l'].
Qed.

(** The reader between two rows. *)
Lemma fill_rows n : forall l k steps rs, (length l <= n)%nat -> l = rows_after_key k -> (length l + length rs < steps)%nat ->
  fill steps v marks (Reader [r] (Some k) None rs l false) = Some (weave l rs).
Proof.
  induction n as [|n IH]; intros l k steps rs Hn Hl Hst; rewrite fill_pop by done;
    pose proof (pop_row_spec l) as Hp; destruct (pop_row l) as [[[k' d']|] l'].
  - destruct Hp as (pre & e & -> & _). rewrite length_app in Hn. simpl in Hn. lia.
  - rewrite fill_ranges by lia. by rewrite Hp.
  - destruct Hp as (pre & e & El & _ & ->). pose proof (rows_after v r (Some k) pre k' e l' Hsorted ltac:(by rewrite <- Hl)) as Hl'.
    assert (length l = length pre + S (length l'))%nat as Hlen by (by rewrite El, length_app).
    apply fill_row; [done| |lia]. intros steps' rs' Hst'. apply IH; [lia|done|done].
  - rewrite fill_ranges by lia. by rewrite Hp.
Qed.

(** The whole range: its first step collects the range tombstones. *)
Definition range_rows : list (prefix * rows_entry) := rows_of_range v r None.
Definition range_ranges : list range := stream_apply less prefix_eq (slice_ranges less (row_tombstones v) r) [].

Lemma fill_range steps : (length range_rows + length range_ranges < steps)%nat ->
  fill steps v marks (Reader [r] None None [] [] false) = Some (weave range_rows range_ranges).
Proof.
  intros Hst.
  assert (fill steps v marks (Reader [r] None None [] [] false) =
    match pop_row range_rows with
    | (Some kd, l') => fill steps v marks (Reader [r] None (Some kd) range_ranges l' false)
    | (None, l') => fill steps v marks (Reader [r] None None range_ranges l' true)
    end) as ->.
  { destruct steps as [|steps]; [lia|]. simpl. unfold read_next at 1. simpl. unfold lsa_next_row, refresh_state. simpl.
    rewrite orb_true_r. simpl. fold range_rows range_ranges. by destruct (pop_row range_rows) as [[[k' d']|] l']. }
  pose proof (pop_row_spec range_rows) as Hp. destruct (pop_row range_rows) as [[[k' d']|] l'].
  - destruct Hp as (pre & e & El & _ & ->). pose proof (rows_after v r None pre k' e l' Hsorted El) as Hl'.
    assert (length range_rows = length pre + S (length l'))%nat as Hlen by (by rewrite El, length_app).
    apply fill_row; [done| |lia]. intros steps' rs' Hst'. eapply fill_rows; [reflexivity|done|done].
  - rewrite fill_ranges by lia. by rewrite Hp.
Qed.

(** ** The order of the stream *)

Definition starts_sorted (rs : list range) : Prop :=
  StronglySorted (fun a b => less (at_bound (start_bound b)) (at_bound (start_bound a)) = false) rs.

Lemma weave_elem l rs f : f ∈ weave l rs ->
  (exists k e, f = ClusteringRow k (entry_row e) /\ (k, e) ∈ l /\ dummy e = false) \/ exists rt, f = RangeTombstone rt /\ rt ∈ rs.
Proof.
  revert rs. induction l as [|[k e] l IH]; intros rs; simpl.
  - intros (rt & -> & [_ Hrt]%take_while_elem)%list_elem_of_fmap. right. eauto.
  - destruct (dummy e) eqn:Ed.
    + intros [(k' & e' & ? & ? & ?)|?]%IH; [left|by right]. exists k', e'. rewrite elem_of_cons. auto.
    + rewrite elem_of_app, elem_of_cons. intros [(rt & -> & [_ Hrt]%take_while_elem)%list_elem_of_fmap|[->|Hf]]; [right; eauto| |].
      * left. exists k, e. rewrite elem_of_cons. auto.
      * apply IH in Hf as [(k' & e' & ? & ? & ?)|(rt & -> & Hrt)]; [left; exists k', e'; rewrite elem_of_cons; auto|].
        right. exists rt. split; [done|]. by eapply drop_while_elem.
Qed.

Lemma drop_while_starts p rs rt : starts_sorted rs -> rt ∈ drop_while (starts_before p) rs -> less (at_bound (start_bound rt)) p = false.
Proof.
  induction rs as [|x rs IH]; [by intros _ ?%elem_of_nil|]. intros [Hs Hx]%StronglySorted_inv. simpl.
  destruct (less (at_bound (start_bound x)) p) eqn:E; [by apply IH|]. rewrite elem_of_cons. intros [->|Hrt]; [done|].
  rewrite Forall_forall in Hx. specialize (Hx rt Hrt). destruct (less (at_bound (start_bound rt)) p) eqn:E'; [|done].
  destruct (less_cotrans less _ (at_bound (start_bound x)) _ E'); congruence.
Qed.

Lemma drop_while_sorted p rs : starts_sorted rs -> starts_sorted (drop_while (starts_before p) rs).
Proof.
  induction rs as [|x rs IH]; [done|]. intros Hs. simpl. case_match; [|done]. apply IH. by apply StronglySorted_inv in Hs as [? _].
Qed.

Lemma take_while_sorted p rs : starts_sorted rs -> starts_sorted (take_while (starts_before p) rs).
Proof.
  induction rs as [|x rs IH]; [done|]. intros [Hs Hx]%StronglySorted_inv. simpl. case_match; [|constructor].
  constructor; [by apply IH|]. rewrite Forall_forall in *. intros y [_ Hy]%take_while_elem. auto.
Qed.

Variable st : settings component.
Hypothesis Hforward : reverse_order st = false.

Lemma before_forward p q : before less (reverse_order st) p q = less p q.
Proof. unfold before. by rewrite Hforward. Qed.

Lemma ranges_ordered rs : starts_sorted rs ->
  StronglySorted (fun f g : fragment => before less (reverse_order st) (frag_pos st g) (frag_pos st f) = false) (RangeTombstone <$> rs).
Proof.
  induction 1 as [|x rs _ IH Hx]; [constructor|]. rewrite fmap_cons. constructor; [done|]. apply Forall_fmap. eapply Forall_impl; [exact Hx|].
  intros y Hy. simpl. rewrite before_forward. unfold first_bound. rewrite Hforward. done.
Qed.

Lemma weave_ordered l rs : rows_sorted l -> starts_sorted rs -> ordered less st (weave l rs).
Proof.
  intros Hl Hrs. split.
  { apply Forall_forall. intros f [(k & e & -> & _)|(rt & -> & _)]%weave_elem; done. }
  revert rs Hrs. induction Hl as [|[k e] l Hl IH Hk]; intros rs Hrs; simpl; [by apply ranges_ordered, take_while_sorted|].
  destruct (dummy e); [by apply IH|]. rewrite Forall_forall in Hk.
  apply StronglySorted_app. split; [|split; [by apply ranges_ordered, take_while_sorted|]].
  - intros f g (rt & -> & [Hlt Hrt]%take_while_elem)%list_elem_of_fmap. rewrite before_forward. simpl. unfold first_bound. rewrite Hforward.
    rewrite elem_of_cons. intros [->|Hg]; [simpl; by apply (less_asym less)|].
    assert (less (frag_pos st g) (at_key k) = false) as Hgk.
    { apply weave_elem in Hg as [(k' & e' & -> & Hin & _)|(rt' & -> & Hin)]; simpl.
      - specialize (Hk _ Hin). simpl in Hk. by apply (less_asym less).
      - unfold first_bound. rewrite Hforward. by eapply drop_while_starts. }
    destruct (less (frag_pos st g) (at_bound (start_bound rt))) eqn:E; [|done]. by rewrite (less_trans _ _ _ E Hlt) in Hgk.
  - constructor; [by apply IH, drop_while_sorted|]. apply Forall_forall. intros g Hg. rewrite before_forward. simpl.
    apply weave_elem in Hg as [(k' & e' & -> & Hin & _)|(rt' & -> & Hin)]; simpl.
    + specialize (Hk _ Hin). simpl in Hk. by apply (less_asym less).
    + unfold first_bound. rewrite Hforward. by eapply drop_while_starts.
Qed.

Lemma ranges_of_app (l k : list fragment) : ranges_of (l ++ k) = ranges_of l ++ ranges_of k.
Proof. apply omap_app. Qed.

Lemma ranges_of_weave l rs : (forall rt, rt ∈ rs -> less (at_bound (start_bound rt)) (at_bound r.2) = true) -> ranges_of (weave l rs) = rs.
Proof.
  assert (forall rs, ranges_of (RangeTombstone <$> rs : list fragment) = rs) as Hfm.
  { clear. intros rs. induction rs as [|x rs IH]; [done|]. rewrite fmap_cons. unfold ranges_of in *. cbn [omap list_omap]. by f_equal. }
  revert rs. induction l as [|[k e] l IH]; intros rs Hrs; simpl; [by rewrite take_while_all by done|].
  destruct (dummy e); [by apply IH|]. rewrite ranges_of_app, Hfm.
  change (ranges_of (ClusteringRow k (entry_row e) :: weave l (drop_while (starts_before (at_key k)) rs)))
    with (ranges_of (weave l (drop_while (starts_before (at_key k)) rs))). rewrite IH; [apply take_drop_while|].
  intros rt Hrt. by eapply Hrs, drop_while_elem.
Qed.

(** The rows that are not dummies. *)
Definition real_rows (l : list (prefix * rows_entry)) : list (prefix * deletable_row) :=
  omap (fun x : prefix * rows_entry => if dummy x.2 then None else Some (x.1, entry_row x.2)) l.

(** Those in which something is visible. *)
Definition shown_rows (cov : prefix -> tombstone) (l : list (prefix * deletable_row)) : list (prefix * tombstone * deletable_row) :=
  omap (fun x : prefix * deletable_row => if row_shown (query_time st) (cov x.1) x.2 then Some (x.1, cov x.1, x.2) else None) l.

Lemma visible_rows_app pt R l k : visible_rows less st pt R (l ++ k) = visible_rows less st pt R l ++ visible_rows less st pt R k.
Proof. induction l as [|[|k' d|] l IH]; simpl; [done|done| |done]. rewrite IH. by case_match. Qed.

Lemma visible_rows_weave pt R l rs : visible_rows less st pt R (weave l rs) = shown_rows (covering less pt R) (real_rows l).
Proof.
  assert (forall rs, visible_rows less st pt R (RangeTombstone <$> rs) = []) as Hfm.
  { intros rs'. by induction rs' as [|x rs' IH]. }
  revert rs. induction l as [|[k e] l IH]; intros rs; simpl; [apply Hfm|]. destruct (dummy e); [apply IH|].
  rewrite visible_rows_app, Hfm. simpl. rewrite IH. by case_match.
Qed.
End one_range.
End reader.

(** ** The static row of a snapshot *)

Section static.
Context {component : Type} `{Countable component}.
Abbreviation partition := (mutation_partition (list component) component).
Variable s : env.

Lemma content_merge_valid def x y : def_ok def -> content_ok def x -> content_ok def y -> content_valid x -> content_valid y -> content_valid (content_merge def x y).
Proof.
  intros Hdef. destruct def as [| |less], x as [x|x|x], y as [y|y|y]; simpl; try done; intros Hx Hy Vx Vy.
  - by destruct (pick_either (pick := greater compare_atomic_cell_for_merge) x y) as [->| ->].
  - destruct x, y; simpl in *; try done; try (case_match; simpl; done). lia.
  - destruct Vx as [Tx Vx], Vy as [Ty Vy]. split; [simpl; rewrite tomb_apply_max; lia|]. simpl. intros e He.
    destruct Hdef as (irr & tr & tot).
    assert (csorted : ksorted fst less (combine (fun e1 e2 : bytes * atomic_cell => less e1.1 e2.1) merge_elements
      (survivors (coll_tomb y) (coll_cells x)) (survivors (coll_tomb x) (coll_cells y)))).
    { apply (collection_merge_ok less irr tr tot x y Hx Hy). }
    pose proof (get_in less irr _ e csorted He) as Hg.
    rewrite (combine_get fst less merge_elements irr tr tot merge_elements_key) in Hg
      by (apply survivors_sorted; first [apply Hx|apply Hy]).
    assert (forall t l x, get fst e.1 (survivors t l) = Some x -> x ∈ l) as Hin.
    { intros t l z [Hz _]%get_elem. by apply survivors_elem in Hz as [? _]. }
    destruct (get fst e.1 (survivors (coll_tomb y) (coll_cells x))) as [a|] eqn:Ea,
      (get fst e.1 (survivors (coll_tomb x) (coll_cells y))) as [b|] eqn:Eb; simpl in Hg; try (injection Hg as <-); try done; eauto.
    unfold merge_elements. simpl. case_match; eauto.
Qed.

Section copy.
Variable kind : nat -> column_type.
Hypothesis Hkind : forall id, def_ok (kind id).

Lemma apply_copy_spec dst src : row_good kind dst -> row_good kind src ->
  exists r, apply_copy s kind dst src = Some r /\ row_good kind r
    /\ forall id, cell_data r id = data_merge (kind id) (cell_data dst id) (cell_data src id).
Proof.
  intros Hd Hs. unfold apply_copy. destruct (Z.eqb_spec (row_size src) 0) as [Hz|_].
  { exists dst. split; [done|]. split; [done|]. intros id. assert (cell_data src id = None) as ->.
    { unfold cell_data. destruct (find_cell src id) eqn:E; [|done].
      assert (id ∈ row_ids src) as Hin by (apply row_ids_elem; eauto). rewrite (row_empty_ids src (proj1 Hs) Hz) in Hin. by apply elem_of_nil in Hin. }
    unfold data_merge. by case_match. }
  pose proof (reserve_ok (internal_count s) false (last_id src) dst (proj1 Hd)) as Hr.
  destruct (reserve (internal_count s) false (last_id src) dst) as [r0|]; [|done]. destruct Hr as [Hok0 Hf0]. simpl.
  assert (row_good kind r0) as Hg0 by (split; [done|]; intros id c; rewrite Hf0; apply Hd).
  assert (forall ids r, NoDup ids -> row_good kind r -> (forall id, id ∈ ids -> is_Some (find_cell src id)) ->
    exists r', fold_left (fun (acc : option row) id => r ← acc; c ← find_cell src id;
        match apply_cell (one_fragment s) NoFault (kind id) id r c 0 with StepMerged r _ => Some r | _ => None end) ids (Some r) = Some r'
      /\ row_good kind r'
      /\ forall id, cell_data r' id = if decide (id ∈ ids) then data_merge (kind id) (cell_data r id) (cell_data src id) else cell_data r id) as Hloop.
  { induction ids as [|id ids IH]; intros r Hnd Hg Hin.
    - exists r. split; [done|]. split; [done|]. intros id. destruct (decide (id ∈ [])) as [[]%elem_of_nil|]; done.
    - apply NoDup_cons in Hnd as [Hid Hnd]. destruct (Hin id ltac:(apply elem_of_cons; by left)) as [c Ec].
      pose proof (apply_cell_law (one_fragment s) NoFault (kind id) id r c 0 (proj1 Hg) (Hkind id) (proj2 Hs id c Ec) (fun d => proj2 Hg id d)) as Hlaw.
      cbn [fold_left]. simpl. rewrite Ec. simpl.
      destruct (apply_cell (one_fragment s) NoFault (kind id) id r c 0) as [r1 c1|r1 c1|]; [|by destruct Hlaw as [[] _]|done].
      destruct Hlaw as (d & [Hok1 Hf1] & [Hm _] & Hgd & _).
      assert (row_good kind r1) as Hg1.
      { split; [done|]. intros i x. rewrite Hf1. destruct (decide (i = id)) as [->|]; [by intros [= <-]|apply Hg]. }
      destruct (IH r1 Hnd Hg1) as (r' & E & Hg' & Hc'); [intros i Hi; apply Hin, elem_of_cons; by right|].
      exists r'. split; [done|]. split; [done|]. intros i. rewrite Hc'. unfold cell_data at 1 3 5 6. rewrite Hf1.
      destruct (decide (i ∈ id :: ids)) as [Hi|Hi]; rewrite elem_of_cons in Hi.
      + destruct (decide (i = id)) as [->|Hne]; [|destruct (decide (i ∈ ids)); [done|tauto]].
        destruct (decide (id ∈ ids)); [done|]. simpl. rewrite Hm. unfold merged_data, cell_data. by rewrite Ec.
      + destruct (decide (i = id)); [tauto|]. destruct (decide (i ∈ ids)); [tauto|done]. }
  destruct (Hloop (row_ids src) r0 (row_ids_NoDup src) Hg0 (fun id => proj1 (row_ids_elem src id))) as (r & E & Hg & Hc).
  exists r. split; [exact E|]. split; [done|]. intros id. rewrite Hc.
  assert (cell_data r0 id = cell_data dst id) as -> by (unfold cell_data; by rewrite Hf0).
  destruct (decide (id ∈ row_ids src)) as [|Hn]; [done|]. rewrite row_ids_elem in Hn.
  assert (cell_data src id = None) as -> by (unfold cell_data; destruct (find_cell src id); [by destruct Hn|done]).
  unfold data_merge. by destruct (cell_data dst id).
Qed.

Lemma apply_copy_valid dst src : row_valid kind dst -> row_valid kind src -> exists r, apply_copy s kind dst src = Some r /\ row_valid kind r.
Proof.
  intros [Hd Vd] [Hs Vs]. destruct (apply_copy_spec dst src Hd Hs) as (r & E & Hg & Hc). exists r. split; [done|]. split; [done|].
  assert (forall r id x, row_good kind r -> cell_data r id = Some x -> content_ok (kind id) x) as Hok.
  { intros r' id x [_ Hg'] (c & Ec & Ex)%bind_Some. destruct (Hg' id c Ec) as ((y & Ey & Hy) & _). rewrite Ex in Ey. by injection Ey as <-. }
  intros id x. rewrite Hc. destruct (cell_data dst id) as [a|] eqn:Ea, (cell_data src id) as [b|] eqn:Eb; simpl; intros [= <-]; eauto.
  eapply content_merge_valid; eauto.
Qed.
End copy.

Lemma snapshot_static_valid (v : partition) older :
  (forall id, def_ok (static_columns s id)) -> Forall (fun mp : partition => row_valid (static_columns s) (static_row mp)) (v :: older) ->
  exists r, snapshot_static_row s v older = Some r /\ row_valid (static_columns s) r.
Proof.
  intros Hk [Hv Ho]%Forall_cons. unfold snapshot_static_row, squashed.
  assert (forall o, (exists r, o = Some r /\ row_valid (static_columns s) r) ->
    exists r, fold_left (fun r mp => a ← r; b ← Some (static_row mp); apply_copy s (static_columns s) a b) older o = Some r /\ row_valid (static_columns s) r) as Hl.
  { induction Ho as [|mp older Hmp Ho IH]; intros o (r & -> & Hr); [by exists r|]. simpl. apply IH.
    by apply apply_copy_valid. }
  apply Hl. by exists (static_row v).
Qed.
End static.

(** ** A query of the whole partition *)

Section query.
Context {component : Type} `{Countable component}.
Abbreviation prefix := (list component).
Abbreviation range := (range_tombstone component).
Abbreviation partition := (mutation_partition prefix component).
Variables (s : env) (tri_compare : nat -> component -> component -> Z).
Hypothesis Htri : forall i, TriOrder (fun _ => True) (fun x y => Z.sgn (tri_compare i x y)).
(** Components that compare equal are equal. *)
Hypothesis Htri_eq : forall i x y, tri_compare i x y = 0 -> x = y.
Abbreviation less := (bound_less tri_compare).
Abbreviation peq := (prefix_equal tri_compare).

#[local] Instance order_here : PositionOrder less := bound_less_order tri_compare Htri.

Lemma pcmp_key_eq p : forall i q, pcmp tri_compare i p 0 q 0 = 0 -> p = q.
Proof.
  induction p as [|x p IH]; intros i [|y q]; simpl; try done.
  destruct (Z.eqb_spec (Z.sgn (tri_compare i x y)) 0) as [E|E]; [|done].
  intros Hq. f_equal; [apply (Htri_eq i); lia|by eapply IH].
Qed.

Lemma key_less_total a b : key_less less a b = false -> key_less less b a = false -> a = b.
Proof.
  unfold key_less. rewrite !bound_less_cmp, !Z.ltb_ge. pose proof (cmp_tri tri_compare Htri) as Hcmp.
  pose proof (tri_opp (c := cmp tri_compare) (at_key a) (at_key b) I I) as Ho. intros H1 H2.
  apply (pcmp_key_eq a 0). change (cmp tri_compare (at_key a) (at_key b) = 0). lia.
Qed.

Lemma ordered_rows_sorted (v : partition) : rows_sorted less (ordered_rows less v).
Proof.
  unfold ordered_rows, rows_sorted. destruct (rows_in_order_spec (key_less less) (clustered_rows v)) as [Hnd _].
  assert (StronglySorted (key_le (key_less less)) (rows_in_order (key_less less) (clustered_rows v))) as Hs.
  { apply StronglySorted_merge_sort.
    - intros a b c Hab Hbc. unfold key_le, key_less in *. destruct (less (at_key c) (at_key a)) eqn:E; [|done].
      destruct (less_cotrans less _ (at_key b) _ E); congruence.
    - intros a b. unfold key_le, key_less. destruct (less (at_key b) (at_key a)) eqn:E; [right; by apply (less_asym less)|by left]. }
  induction Hs as [|k l _ IH Hk]; [constructor|]. apply NoDup_cons in Hnd as [Hni Hnd]. simpl.
  destruct (clustered_rows v !! k) as [e|]; simpl; [|by apply IH]. constructor; [by apply IH|].
  apply Forall_forall. intros [k' e'] (k0 & Hk0 & E)%list_elem_of_omap. simpl. destruct (clustered_rows v !! k0); simplify_eq/=.
  rewrite Forall_forall in Hk. specialize (Hk k' Hk0). unfold key_le in Hk. destruct (key_less less k k') eqn:E; [done|].
  by rewrite (key_less_total k k' E Hk) in Hni.
Qed.

Lemma ordered_rows_elem (v : partition) k e : (k, e) ∈ ordered_rows less v <-> clustered_rows v !! k = Some e.
Proof.
  unfold ordered_rows. rewrite list_elem_of_omap. destruct (rows_in_order_spec (key_less less) (clustered_rows v)) as [_ Hin]. split.
  - intros (k0 & _ & E). destruct (clustered_rows v !! k0) eqn:E0; simplify_eq/=. done.
  - intros E. exists k. split; [apply Hin; eauto|]. by rewrite E.
Qed.

(** The bounds of the full range. *)
Lemma key_in_full k : less (at_key k) (at_bound (full_range (component := component)).1) = false
  /\ less (at_key k) (at_bound (full_range (component := component)).2) = true.
Proof. rewrite !bound_less_cmp. unfold cmp. simpl. by destruct k. Qed.

Lemma range_in_full (rt : range) : range_ok tri_compare rt ->
  less (at_bound (end_bound rt)) (at_bound (full_range (component := component)).1) = false
  /\ less (at_bound (start_bound rt)) (at_bound (full_range (component := component)).2) = true
  /\ less (at_bound (full_range (component := component)).2) (at_bound (start_bound rt)) = false.
Proof.
  intros (Hlt & Hs & He & _). rewrite bound_less_cmp in Hlt. rewrite !bound_less_cmp. unfold cmp in *. simpl in *.
  destruct (start_bound rt) as [p ks], (end_bound rt) as [q ke]. simpl in *.
  destruct ks, ke, p, q; simpl in *; try done; repeat case_match; done || lia.
Qed.

Lemma covering_search pt (R : list range) k : tomb_le no_tombstone pt -> list_ok tri_compare R ->
  covering less pt R k = tomb_apply pt (search_tombstone_covering less R (at_key k)).
Proof.
  intros Hpt [Hok Hs]. induction Hs as [|it R _ IH Hit]; [simpl; by rewrite tomb_apply_l|].
  apply Forall_cons in Hok as [(Hlt & _) Hok]. unfold covering in *. rewrite filter_cons. simpl.
  destruct (less (at_key k) (at_bound (end_bound it))) eqn:Ee.
  - assert (filter (fun rt => covers less k rt = true) R = []) as Hnil.
    { apply filter_out_all. intros rt Hrt. rewrite Forall_forall in Hit. specialize (Hit rt Hrt). unfold covers.
      by rewrite (less_trans less _ _ _ Ee Hit). }
    rewrite Hnil. unfold covers. destruct (less (at_key k) (at_bound (start_bound it))) eqn:Es; simpl.
    + by rewrite tomb_apply_l.
    + by rewrite (less_asym less _ _ Ee).
  - destruct (less_bound less k (end_bound it)) as [?|Hp]; [congruence|]. unfold covers. rewrite Hp, andb_false_r. simpl. by apply IH.
Qed.

Variable st : settings component.
Hypothesis Honly : only_live st = true.
Hypothesis Hquery : sstable_compaction st = false.
Hypothesis Hstops : forall l, stops st l = false.
Hypothesis Hforward : reverse_order st = false.
Hypothesis Hprl : 0 < partition_row_limit st < 2 ^ 32.
Hypothesis Hnow : - 2 ^ 31 <= query_time st.
Hypothesis Hcolumns : columns st = s.
Hypothesis Hregular : forall id, def_ok (regular_columns s id).
Hypothesis Hstatic : forall id, def_ok (static_columns s id).
Abbreviation now := (query_time st).

(** A version that can be read. *)
Definition readable (v : partition) : Prop :=
  tomb_le no_tombstone (partition_tombstone v) /\ row_valid (static_columns s) (static_row v)
  /\ (forall k e, clustered_rows v !! k = Some e -> dr_valid (regular_columns s) (entry_row e))
  /\ list_ok tri_compare (row_tombstones v).

(** The deletions that act on a row of the snapshot. *)
Definition snapshot_deletion (v : partition) (older : list partition) (k : prefix) : tombstone :=
  tomb_apply (partition_deletion (snapshot_tombstone v older)) (search_tombstone_covering less (row_tombstones v) (at_key k)).

(** What a column of the answer has to be. *)
Definition answered (T : tombstone) (version : Z) (o : option content) (q : option qr_cell) : Prop :=
  match o with
  | None => q = None
  | Some (Atomic a) => q = if alive now false T a then Some (QCell a version) else None
  | Some (Counter k) => q = if alive now true T (counter_view k) then Some (QCounter k) else None
  | Some (Collection k) =>
      match visible_elements now T k with
      | [] => q = None
      | l => exists m, q = Some (QCollection m) /\ visible_elements now no_tombstone m = l
      end
  end.

(** The version of the cell of a column. *)
Definition version_at (r : row) (id : nat) : Z := from_option most_recent_version 0 (find_cell r id).

Definition row_answered (cs : list nat) (a : prefix * list (option qr_cell)) (r : prefix * tombstone * deletable_row) : Prop :=
  let '(k, cov, d) := r in
  a.1 = k /\ Forall2 (fun id q => answered (shadowable (acting cov d)) (version_at (cells d) id) (cell_data (cells d) id) q) cs a.2.

Lemma any_live_visible T m : shows_only now T (Collection m) -> weaker no_tombstone T ->
  is_any_live m = true <-> visible_elements now no_tombstone m <> [].
Proof.
  intros Hs Hw. unfold is_any_live. rewrite existsb_exists. setoid_rewrite <- list_elem_of_In. unfold visible_elements. split.
  - intros (e & He & Ha) E. rewrite !andb_true_iff in Ha. destruct Ha as [[Hl Hc] _]. apply (elem_of_nil e). rewrite <- E.
    apply list_elem_of_filter. split; [|done]. rewrite (weaker_alive now no_tombstone T e.2 false Hw (Hs e He Hl)). done.
  - intros E. destruct (filter _ _) as [|e l] eqn:Ef; [done|]. assert (e ∈ e :: l) as He by (apply elem_of_cons; by left).
    rewrite <- Ef in He. apply list_elem_of_filter in He as [Ha He]. exists e. split; [done|].
    apply andb_true_iff in Ha as [Ha Hc]. unfold alive in Ha. rewrite !andb_true_iff in Ha. destruct Ha as [[Hl Hx] _]. rewrite !andb_true_iff. split; [done|].
    unfold has_expired in *. destruct (is_live_and_has_ttl e.2); simpl in *; [|done]. rewrite !negb_true_iff, !Z.leb_gt in *. lia.
Qed.

Lemma cell_answered cov d d' id : dr_valid (regular_columns s) d -> tombstone_valid cov ->
  dr_compacted now (regular_columns s) cov d d' ->
  answered (shadowable (acting cov d)) (version_at (cells d) id) (cell_data (cells d) id) (c ← find_cell (cells d') id; result_cell c).
Proof.
  intros Hd Hcov (Hg' & Hun & Hshow & Hvis). set (T := shadowable (acting cov d)) in *.
  assert (weaker no_tombstone T) as Hw.
  { destruct (acting_weaker _ cov d Hd Hcov) as [? ?]. split; [simpl; lia|]. simpl tomb_timestamp at 1. unfold T. lia. }
  destruct (Hvis no_tombstone Hw) as [_ Hv]. specialize (Hv id). unfold cell_data in Hv.
  destruct Hd as [_ [[Hok Hg] _]]. unfold answered, version_at, cell_data.
  assert (forall c', find_cell (cells d') id = Some c' -> exists x', data c' = Some x' /\ content_ok (regular_columns s id) x' /\ shows_only now T x') as Hc'.
  { intros c' E. destruct (proj2 Hg' id c' E) as ((x' & Ex & Hx) & _). exists x'. split; [done|]. split; [done|].
    apply (Hshow id). unfold cell_data. by rewrite E. }
  destruct (find_cell (cells d) id) as [c|] eqn:Ec.
  - destruct (Hg id c Ec) as ((x & Ex & Hx) & _). simpl. rewrite Ex. simpl in Hv. rewrite Ex in Hv. specialize (Hun id c Ec). rewrite Ex in Hun.
    destruct (regular_columns s id) as [| |cl], x as [a|k|k]; simpl in Hx; try done.
    + simpl in Hun. destruct (alive now false T a) eqn:Ea; [rewrite (Hun eq_refl); simpl; unfold result_cell; rewrite Ex;
        unfold alive in Ea; by destruct (is_live a)|].
      destruct (find_cell (cells d') id) as [c'|] eqn:E'; [|done]. destruct (Hc' c' eq_refl) as (x' & Ex' & Hx' & Hs'). simpl in *.
      destruct x' as [a'|?|?]; try done. unfold result_cell. rewrite Ex' in Hv |- *. simpl in *. rewrite Ea in Hv.
      destruct (is_live a') eqn:El; [|done]. by rewrite (weaker_alive now no_tombstone T _ _ Hw (Hs' eq_refl)) in Hv.
    + simpl in Hun. destruct (alive now true T (counter_view k)) eqn:Ea; [rewrite (Hun eq_refl); simpl; unfold result_cell; rewrite Ex;
        unfold alive in Ea; by destruct (is_live (counter_view k))|].
      destruct (find_cell (cells d') id) as [c'|] eqn:E'; [|done]. destruct (Hc' c' eq_refl) as (x' & Ex' & Hx' & Hs'). simpl in *.
      destruct x' as [?|a'|?]; try done. unfold result_cell. rewrite Ex' in Hv |- *. simpl in *. rewrite Ea in Hv.
      destruct (is_live (counter_view a')) eqn:El; [|done]. by rewrite (weaker_alive now no_tombstone T _ _ Hw (Hs' eq_refl)) in Hv.
    + unfold visible_data, visible in Hv. simpl in Hv.
      destruct (find_cell (cells d') id) as [c'|] eqn:E'; simpl in *; [|by destruct (visible_elements now T k)].
      destruct (Hc' c' eq_refl) as (x' & Ex' & Hx' & Hs'). destruct x' as [?|?|m]; try done. unfold result_cell. rewrite Ex' in Hv |- *. simpl in Hv.
      pose proof (any_live_visible T m Hs' Hw) as Ha.
      destruct (visible_elements now no_tombstone m) as [|e l] eqn:Em, (visible_elements now T k) as [|e2 l2]; try done.
      * destruct (is_any_live m); [by destruct (proj1 Ha eq_refl)|done].
      * rewrite (proj2 Ha) by done. exists m. split; [done|]. rewrite Em. by injection Hv as -> ->.
  - simpl in Hv. destruct (find_cell (cells d') id) as [c'|] eqn:E'; [|done]. destruct (Hc' c' eq_refl) as (x' & Ex' & Hx' & Hs').
    simpl in *. unfold result_cell. rewrite Ex' in Hv |- *. simpl in Hv. destruct x' as [a|k|m]; simpl in *.
    + destruct (is_live a) eqn:El; [|done]. by rewrite (weaker_alive now no_tombstone T _ _ Hw (Hs' eq_refl)) in Hv.
    + destruct (is_live (counter_view k)) eqn:El; [|done]. by rewrite (weaker_alive now no_tombstone T _ _ Hw (Hs' eq_refl)) in Hv.
    + pose proof (any_live_visible T m Hs' Hw) as Ha. destruct (visible_elements now no_tombstone m); [|done].
      destruct (is_any_live m); [by destruct (proj1 Ha eq_refl)|done].
Qed.

(** ** The whole partition *)

Lemma slice_full (l : list range) : Forall (range_ok tri_compare) l -> slice_ranges less l full_range = l.
Proof.
  intros Hl. rewrite Forall_forall in Hl. unfold slice_ranges. rewrite take_while_all.
  - apply drop_while_none. intros rt Hrt. by destruct (range_in_full rt (Hl rt Hrt)) as (-> & _).
  - intros rt Hrt. by destruct (range_in_full rt (Hl rt Hrt)) as (_ & _ & ->).
Qed.

Lemma rows_full (v : partition) : rows_of_range less v full_range None = ordered_rows less v.
Proof.
  unfold rows_of_range. rewrite drop_while_none by (intros x _; apply key_in_full). apply take_while_all. intros x _. apply key_in_full.
Qed.

Lemma search_ge_none (l : list range) k : list_ok tri_compare l -> tomb_le no_tombstone (search_tombstone_covering less l k).
Proof.
  intros Hl%list_ok_valid. induction Hl as [|rt l Hrt _ IH]; [apply tomb_le_refl|]. simpl. by repeat case_match; [apply tomb_le_refl|..].
Qed.

Lemma stream_full (l : list range) : list_ok tri_compare l ->
  list_ok tri_compare (stream_apply less peq l [])
  /\ forall k, search_tombstone_covering less (stream_apply less peq l []) (at_key k) = search_tombstone_covering less l (at_key k).
Proof.
  intros Hl. unfold stream_apply.
  pose proof (ranges_spec tri_compare Htri [] l None ltac:(split; constructor) Hl) as Hr.
  destruct (apply_ranges less peq [] l [] None) as [l' ops f|l' ops]; [|by destruct Hr]. destruct Hr as (Hl' & _ & Hs).
  split; [done|]. intros k. rewrite Hs. simpl. by apply tomb_apply_r, search_ge_none.
Qed.

Lemma list_ok_starts (l : list range) : list_ok tri_compare l -> starts_sorted less l.
Proof.
  intros [Hok Hs]. induction Hs as [|x l _ IH Hx]; [constructor|]. apply Forall_cons in Hok as [(Hlt & _) Hok]. constructor; [by apply IH|].
  eapply Forall_impl; [exact Hx|]. simpl. intros y Hy. by apply (less_asym less), (less_trans less _ _ _ Hlt).
Qed.

Lemma shown_rows_ext cov cov' l : (forall k, cov k = cov' k) -> shown_rows st cov l = shown_rows st cov' l.
Proof. intros Hc. unfold shown_rows. induction l as [|x l IH]; [done|]. cbn. cbn in IH. by rewrite Hc, IH. Qed.

Lemma snapshot_tombstone_valid (v : partition) older : tomb_le no_tombstone (partition_tombstone v) -> tombstone_valid (snapshot_tombstone v older).
Proof.
  intros Hpt%tomb_le_timestamp. unfold snapshot_tombstone, squashed, tombstone_valid. simpl in Hpt. revert Hpt. generalize (partition_tombstone v).
  induction older as [|mp older IH]; intros t Ht; simpl; [lia|]. apply IH. rewrite tomb_apply_max. lia.
Qed.

Lemma answer_row_outputs cs (os : list (output component)) : answer_rows cs os = answer_rows cs (row_outputs os).
Proof. induction os as [|o os IH]; [done|]. unfold row_outputs. rewrite filter_cons. destruct o; simpl; (exact IH || by f_equal). Qed.

Lemma rows_answered cs os want :
  Forall2 (shows st) os want ->
  Forall (fun r : prefix * tombstone * deletable_row => dr_valid (regular_columns s) r.2 /\ tombstone_valid r.1.2) want ->
  Forall2 (row_answered cs) (answer_rows cs os) want.
Proof.
  induction 1 as [|o [[k cov] d] os want (d' & -> & Hd) _ IH]; intros Hv; [constructor|].
  apply Forall_cons in Hv as [[Hvd Hcov] Hv]. cbn [answer_rows omap list_omap]. constructor; [|by apply IH].
  split; [done|]. simpl in *. rewrite Hcolumns in Hd. unfold get_compacted_row_slice. apply Forall2_fmap_r. apply Forall_Forall2_diag, Forall_forall.
  intros id _. by eapply cell_answered.
Qed.

(** The stream of a version is one that the compactor takes. *)
Lemma stream_ok (v : partition) sr dk t : readable v -> tombstone_valid t -> row_valid (static_columns s) sr ->
  partition_ok less st (dk, t, (if row_size sr =? 0 then [] else [StaticRow sr])
    ++ weave less full_range (ordered_rows less v) (stream_apply less peq (row_tombstones v) [])).
Proof.
  intros (_ & _ & Hrows & Hranges) Ht Hsr. destruct (stream_full _ Hranges) as [Hl _].
  set (fs := weave _ _ _ _). assert (ordered less st fs) as Hord by (apply weave_ordered; first [exact order_here|done|apply ordered_rows_sorted|by apply list_ok_starts]).
  assert (body fs = fs) as Hbody by (destruct Hord as [Hn _]; destruct fs as [|[?|?|?] fs]; [done| |done|done]; by apply Forall_cons in Hn as [[] _]).
  split; [done|]. split; [destruct (row_size sr =? 0); simpl; rewrite ?Hbody; exact Hord|]. apply Forall_app. split.
  - destruct (row_size sr =? 0); [constructor|]. apply Forall_singleton. simpl. by rewrite Hcolumns.
  - apply Forall_forall. intros f [(k & e & -> & He & _)|(rt & -> & Hrt)]%weave_elem; simpl.
    + rewrite Hcolumns. apply ordered_rows_elem in He. by eapply Hrows.
    + destruct Hl as [Hok _]. rewrite Forall_forall in Hok. destruct (Hok rt Hrt) as (Hlt & _ & _ & Hv). split.
      * apply tomb_le_timestamp in Hv. exact Hv.
      * unfold before, last_bound, first_bound. rewrite Hforward. by apply (less_asym less).
Qed.

Lemma snapshot_deletion_valid v older k : readable v -> tombstone_valid (snapshot_deletion v older k).
Proof.
  intros (Hpt & _ & _ & Hr). unfold snapshot_deletion, tombstone_valid. rewrite tomb_apply_max.
  pose proof (tomb_le_timestamp _ _ (search_ge_none (row_tombstones v) (at_key k) Hr)) as Hs. simpl in Hs. lia.
Qed.

Lemma partition_deletion_valid t : tombstone_valid t -> tomb_le no_tombstone (partition_deletion t).
Proof.
  unfold tombstone_valid, partition_deletion, has_tombstone. destruct (Z.eqb_spec (tomb_timestamp t) missing_timestamp); simpl; [intros _; apply tomb_le_refl|].
  intros Ht. unfold tomb_le, tomb_compare. simpl. rewrite (proj2 (Z.ltb_lt _ _)) by lia. lia.
Qed.

(** The rows that an answer is made of. *)
Definition snapshot_rows (v : partition) (older : list partition) : list (prefix * tombstone * deletable_row) :=
  shown_rows st (snapshot_deletion v older) (real_rows (ordered_rows less v)).

Lemma snapshot_rows_valid (v : partition) older : readable v ->
  Forall (fun r : prefix * tombstone * deletable_row => dr_valid (regular_columns s) r.2 /\ tombstone_valid r.1.2) (snapshot_rows v older).
Proof.
  intros Hv. apply Forall_forall. intros [[k cov] d] ([k' d'] & Hin & E)%list_elem_of_omap. simpl in E. case_match; [|done]. injection E as -> <- ->. simpl.
  split; [|by apply snapshot_deletion_valid]. apply list_elem_of_omap in Hin as ([k2 e] & He & E2). apply ordered_rows_elem in He. simpl in E2.
  destruct (dummy e); [done|]. injection E2 as -> <-. destruct Hv as (_ & _ & Hrows & _). by eapply Hrows.
Qed.

Lemma stream_wanted (v : partition) older sr limit : readable v ->
  wanted_rows less st limit (snapshot_tombstone v older)
    ((if row_size sr =? 0 then [] else [StaticRow sr]) ++ weave less full_range (ordered_rows less v) (stream_apply less peq (row_tombstones v) []))
  = take (Z.to_nat (Z.min limit (partition_row_limit st))) (snapshot_rows v older).
Proof.
  intros (Hpt & _ & _ & Hranges). destruct (stream_full _ Hranges) as [HR Hsearch]. set (R := stream_apply _ _ _ _) in *.
  set (fs := weave _ _ _ _). unfold wanted_rows. f_equal.
  assert (ranges_of ((if row_size sr =? 0 then [] else [StaticRow sr]) ++ fs) = R) as ->.
  { rewrite ranges_of_app. replace (ranges_of (if row_size sr =? 0 then [] else [StaticRow sr])) with (@nil range) by (by case_match).
    apply ranges_of_weave. intros rt Hrt. destruct HR as [Hok _]. rewrite Forall_forall in Hok. by destruct (range_in_full rt (Hok rt Hrt)) as (_ & ? & _). }
  assert (visible_rows less st (partition_deletion (snapshot_tombstone v older)) R (body ((if row_size sr =? 0 then [] else [StaticRow sr]) ++ fs))
    = visible_rows less st (partition_deletion (snapshot_tombstone v older)) R fs) as ->.
  { case_match; [|done]. simpl. by destruct fs as [|[]]. }
  unfold fs. rewrite visible_rows_weave. apply shown_rows_ext. intros k. rewrite covering_search; [by rewrite Hsearch| |done].
  by apply partition_deletion_valid, snapshot_tombstone_valid.
Qed.

Lemma data_query_spec (v : partition) older marks cs dk limit plimit :
  readable v -> Forall (fun mp : partition => row_valid (static_columns s) (static_row mp)) older -> 0 < limit < 2 ^ 32 -> 0 < plimit < 2 ^ 32 ->
  exists n, forall steps, (n <= steps)%nat -> exists ans,
    data_query s less peq st dk limit plimit steps [full_range] cs v older marks = Some ans
    /\ Forall2 (row_answered cs) ans (take (Z.to_nat (Z.min limit (partition_row_limit st))) (snapshot_rows v older)).
Proof.
  intros Hv Hold Hlim Hpl. pose proof Hv as (Hpt & Hst & Hrows & Hranges). destruct (stream_full _ Hranges) as [HR Hsearch].
  destruct (snapshot_static_valid s v older Hstatic ltac:(by constructor)) as (sr & Esr & Hsr).
  set (R := stream_apply less peq (row_tombstones v) []) in *. set (t := snapshot_tombstone v older).
  exists (S (length (ordered_rows less v) + length R)). intros steps Hn. unfold data_query, flat_reader.
  rewrite !(proj2 (Z.eqb_neq _ _)) by lia. cbn [orb]. rewrite Esr. cbn [option_bind mbind].
  rewrite (fill_range less peq v full_range marks (ordered_rows_sorted v)); unfold range_rows, range_ranges;
    rewrite rows_full, (slice_full _ (proj1 Hranges)); fold R; [|lia]. eexists. split; [reflexivity|].
  pose proof (snapshot_tombstone_valid v older Hpt : tombstone_valid t) as Ht.
  pose proof (stream_ok v sr dk t Hv Ht Hsr) as Hok. fold R in Hok. set (l := _ ++ weave _ _ _ _) in *.
  pose proof (query_answers_visible less st Honly Hquery Hstops Hprl ltac:(by rewrite Hcolumns) ltac:(by rewrite Hcolumns) [(dk, t, l)] limit plimit
    ltac:(by apply Forall_singleton) Hlim Hpl) as Hq. cbn [query_rows] in Hq.
  replace (wanted_rows less st limit t l ++ _) with (wanted_rows less st limit t l) in Hq by (by case_match; rewrite app_nil_r).
  rewrite (stream_wanted v older sr limit Hv : wanted_rows less st limit t l = _) in Hq. rewrite answer_row_outputs. by apply rows_answered, Forall_take, snapshot_rows_valid.
Qed.
End query.
