(* ===== verification/PortRead.v ===== *)
(** * A PORT read from end to end

    The version list decides which version a read sees (PartitionVersion.v), a
    version is the partition of one write (PartitionWrite.v), and the reader, the
    compactor and the querier make the answer of it (PortReader.v, Compactor.v).
    Together: what a client is told, in terms of what was written. *)

From stdpp Require Import gmap sorting.
From S2P Require Import Prelude Mergeable Keyed Cell Counters Row RowInv RowTheorems RangeTombstones RangeTombstonesInv RangeTombstonesTheorems.
From S2P Require Import MutationPartition MutationPartitionTheorems PartitionWrite Compaction CompactionTheorems Compactor CompactorTheorems.
From S2P Require Import PortReader PortReaderTheorems.
From S2P Require PartitionVersion.
Open Scope Z_scope.

Abbreviation cells_map l := (list_to_map (M := gmap nat content) l).

Section read.
Variable piece : content -> bool.
Context {component : Type} `{Countable component}.
Abbreviation prefix := (list component).
Abbreviation partition := (mutation_partition prefix component).
Abbreviation view := (partition_view prefix component).
Abbreviation abstract := (@PartitionVersion.mutation_partition view).
Variables (s : env) (tri_compare : nat -> component -> component -> Z).
Hypothesis Htri : forall i, TriOrder (fun _ => True) (fun x y => Z.sgn (tri_compare i x y)).
Hypothesis Htri_eq : forall i x y, tri_compare i x y = 0 -> x = y.
Hypothesis Hregular : forall id, def_ok (regular_columns s id).
Hypothesis Hstatic : forall id, def_ok (static_columns s id).
Abbreviation less := (bound_less tri_compare).
Abbreviation peq := (prefix_equal tri_compare).

(** ** Versions *)

(** The timestamps and times of a write are in range, and its rows are in order. *)
Definition contents_valid (l : list (nat * content)) : Prop := forall p, p ∈ l -> content_valid p.2.
Definition view_valid (w : view) : Prop :=
  view_ok s tri_compare w /\ contents_valid (view_static w) /\ Forall (fun fr => contents_valid (fr_cells fr)) (view_rows w)
  /\ StronglySorted (fun a b => key_less less a b = true) (fr_key <$> view_rows w).

(** A version of the list and what the version list knows of it. *)
Definition version_of (mp : partition) (a : abstract) : Prop :=
  partition_good s tri_compare mp /\ represents piece tri_compare [] mp a /\ view_valid (PartitionVersion.mp_data a).

Lemma stamp_good (v : Z) (mp mp' : partition) : partition_good s tri_compare mp -> stamp_partition [] v mp = Some mp' -> partition_good s tri_compare mp'.
Proof.
  intros (Ht & Hs & Hr & Hl) (c & Ec & [= <-])%bind_Some. split; [done|]. split; [done|]. split; [|done]. simpl.
  apply insert_good; [done|]. set (e := default new_entry (clustered_rows mp !! [])) in *.
  assert (entry_good s e) as (He & Hg & Hm & Hd).
  { unfold e. destruct (clustered_rows mp !! []) eqn:E; [by eapply Hr|]. split; [done|]. split; [apply empty_row_good|].
    split; vm_compute; [split; discriminate || done|discriminate]. }
  split; [done|]. split; [|done]. simpl. destruct Hg as [Hok Hcells]. pose proof (Hcells _ _ Ec) as ((x & Ex & Hx) & Hrs).
  destruct (put_updates 0 c (set_version v c) _ Hok Ec) as [Hok' Hf]; [by simpl; rewrite Ex|]. split; [done|].
  intros id d. rewrite Hf. case_decide as Hid; [|apply Hcells]. intros [= <-]. subst id. split; [by exists x|done].
Qed.

(** A write makes a version. *)
Lemma write_version_of w version f mp p' : view_valid w ->
  apply_view piece s (key_less less) tri_compare version f w = Merged mp p' ->
  version_of mp (PartitionVersion.mp_apply_to_empty (abstract_view [] w))
  /\ forall (v : Z) mp' a', stamp_partition [] v mp = Some mp' ->
       PartitionVersion.stamp_cell0 (PartitionVersion.mp_apply_to_empty (abstract_view [] w)) v = Some a' -> version_of mp' a'.
Proof.
  intros Hw E. pose proof Hw as (Hok & _).
  pose proof (apply_represents piece s (key_less less) tri_compare [] Hregular Hstatic Htri w version f mp p' Hok E) as Hrep.
  assert (partition_good s tri_compare mp) as Hgood.
  { pose proof (partition_apply_spec s (key_less less) tri_compare Hregular Hstatic Htri version f _ _
      (empty_partition_good s tri_compare) (build_good piece s tri_compare Htri w Hok)) as Hspec.
    unfold apply_view in E. rewrite E in Hspec. by destruct Hspec. }
  split; [done|]. intros v mp' a' E1 E2. split; [by eapply stamp_good|]. split.
  - pose proof (stamp_represents piece (key_less less) tri_compare [] mp _ v Hrep) as Hs. by rewrite E1, E2 in Hs.
  - unfold PartitionVersion.stamp_cell0 in E2. by repeat case_match; simplify_eq/=.
Qed.

(** ** What a version shows *)

Variable st : settings component.
Abbreviation now := (query_time st).

(** The deletions over a key: the tombstones of the partition in the version and in
    all older ones, and the ranges of the version. *)
Definition version_deletion (a : abstract) (older : list abstract) (k : prefix) : tombstone :=
  tomb_apply
    (partition_deletion (fold_left (fun t b => tomb_apply t (view_tombstone (PartitionVersion.mp_data b))) older (view_tombstone (PartitionVersion.mp_data a))))
    (search_tombstone_covering less (view_ranges (PartitionVersion.mp_data a)) (at_key k)).

(** What acts on a written row, and whether anything of it is visible. *)
Definition row_deletion (cov : tombstone) (fr : frozen_row prefix) : tombstone :=
  shadowable (rt_apply_regular (maybe_shadow (fr_deleted_at fr) (fr_marker fr)) cov).
Definition written_shown (T : tombstone) (fr : frozen_row prefix) : bool :=
  marker_visible now T (fr_marker fr) || existsb (fun p => bool_decide (is_Some (visible_data now T (Some p.2)))) (fr_cells fr).

(** The rows of the version in which something is visible. *)
Definition version_rows (a : abstract) (older : list abstract) : list (tombstone * frozen_row prefix) :=
  omap (fun fr => let T := row_deletion (version_deletion a older (fr_key fr)) fr in if written_shown T fr then Some (T, fr) else None)
    (view_rows (PartitionVersion.mp_data a)).

(** A row of the answer has the key of the written row and its visible cells, each
    with the version that the write gave it. *)
Definition row_read (a : abstract) (cs : list nat) (x : prefix * list (option qr_cell)) (r : tombstone * frozen_row prefix) : Prop :=
  x.1 = fr_key r.2
  /\ Forall2 (fun id q => answered st r.1 (stamp_of [] a (fr_key r.2) id) (cells_map (fr_cells r.2) !! id) q) cs x.2.

(** ** From a version to its answer *)

Lemma rows_map_elem (l : list (frozen_row prefix)) k fr : NoDup (fr_key <$> l) -> rows_map l !! k = Some fr <-> fr ∈ l /\ fr_key fr = k.
Proof.
  intros Hnd. unfold rows_map. rewrite <- elem_of_list_to_map by (by rewrite <- list_fmap_compose). rewrite list_elem_of_fmap. split.
  - by intros (fr' & [= -> ->] & ?).
  - intros [? <-]. by exists fr.
Qed.

(** The row that a version holds for a written row. *)
Definition row_of (a : abstract) (fr : frozen_row prefix) (d : deletable_row) : Prop :=
  marker d = fr_marker fr /\ deleted_at d = maybe_shadow (fr_deleted_at fr) (fr_marker fr)
  /\ forall id, find_cell (cells d) id = (fun c => set_version (stamp_of [] a (fr_key fr) id) (fresh_cell piece c)) <$> cells_map (fr_cells fr) !! id.

Lemma version_row mp a k e : version_of mp a -> clustered_rows mp !! k = Some e ->
  exists fr, fr ∈ view_rows (PartitionVersion.mp_data a) /\ fr_key fr = k /\ dummy e = false /\ row_of a fr (entry_row e).
Proof.
  intros (_ & (_ & _ & R & _) & ((_ & _ & _ & Hnd & _) & _)) E. specialize (R k).
  destruct (rows_map _ !! k) as [fr|] eqn:Ek; [|congruence]. apply rows_map_elem in Ek as [Hin Ekey]; [|done]. exists fr. split; [done|]. split; [done|].
  destruct R as (e' & E' & Efl & Hm & Hd & Hf). rewrite E in E'. injection E' as <-. subst k. split; [by rewrite Efl|]. done.
Qed.

Lemma row_of_data a fr d id : row_of a fr d -> cell_data (cells d) id = cells_map (fr_cells fr) !! id.
Proof. intros (_ & _ & Hf). unfold cell_data. rewrite Hf. by destruct (cells_map (fr_cells fr) !! id). Qed.

Lemma version_readable mp a : version_of mp a -> readable s tri_compare mp.
Proof.
  intros Hv. pose proof Hv as ((Ht & Hs & Hr & Hl) & (_ & S & _) & (Hok & Hvs & Hvr & _)). split; [done|]. split; [|split; [|done]].
  - split; [done|]. intros id x. unfold cell_data. rewrite S.
    destruct (cells_map _ !! id) as [y|] eqn:E; simpl; [intros [= <-]|done]. apply elem_of_list_to_map_2 in E. exact (Hvs _ E).
  - intros k e E. destruct (version_row mp a k e Hv E) as (fr & Hin & _ & _ & Hrow). pose proof Hrow as (_ & Hd & _). split.
    + rewrite Hd. destruct Hok as (_ & _ & _ & _ & Hrows). rewrite Forall_forall in Hrows. destruct (Hrows fr Hin) as (_ & _ & _ & Hto & Htr).
      apply tomb_le_timestamp in Htr, Hto. unfold maybe_shadow. case_match; unfold weaker; simpl in *; lia.
    + split; [by destruct (Hr k e E) as (_ & ? & _)|]. intros id x. rewrite (row_of_data a fr _ id Hrow). intros E2%elem_of_list_to_map_2.
      rewrite Forall_forall in Hvr. exact (Hvr fr Hin _ E2).
Qed.

(** The rows of a version are those of its write, in order. *)
Lemma version_keys mp a : version_of mp a -> fst <$> ordered_rows less mp = fr_key <$> view_rows (PartitionVersion.mp_data a).
Proof.
  intros Hv. pose proof Hv as (_ & (_ & _ & R & _) & ((_ & _ & _ & Hnd & _) & _ & _ & Hs)).
  pose proof (ordered_rows_sorted tri_compare Htri Htri_eq mp) as Hso. unfold rows_sorted in Hso.
  assert (StronglySorted (fun a b => key_less less a b = true) (fst <$> ordered_rows less mp)) as Hso'.
  { clear -Hso. induction Hso as [|x l _ IH Hx]; [constructor|]. rewrite fmap_cons. constructor; [done|]. by apply Forall_fmap. }
  assert (forall k, key_less less k k = false) as Hirr by (intros k; apply (@less_irrefl _ less (bound_less_order tri_compare Htri))).
  apply (StronglySorted_unique_strong (fun a b => key_less less a b = true)); [|done|done|].
  - intros x y _ _ H1 H2. unfold key_less in H1, H2. by rewrite (@less_asym _ less (bound_less_order tri_compare Htri) _ _ H1) in H2.
  - apply NoDup_Permutation; [|done|].
    + clear -Hso' Hirr. induction Hso' as [|x l _ IH Hx]; constructor; [|done]. intros Hin. rewrite Forall_forall in Hx. specialize (Hx x Hin). simpl in Hx. by rewrite Hirr in Hx.
    + intros k. rewrite !list_elem_of_fmap. split.
      * intros ([k' e] & -> & He%(ordered_rows_elem tri_compare)). destruct (version_row mp a k' e Hv He) as (fr & Hin & <- & _). by exists fr.
      * intros (fr & -> & Hin). specialize (R (fr_key fr)). rewrite (proj2 (rows_map_elem _ _ fr Hnd)) in R by done.
        destruct R as (e & Ee & _). exists (fr_key fr, e). split; [done|]. by apply (ordered_rows_elem tri_compare).
Qed.

Lemma version_real_rows mp a : version_of mp a ->
  Forall2 (fun x fr => x.1 = fr_key fr /\ row_of a fr x.2) (real_rows (ordered_rows less mp)) (view_rows (PartitionVersion.mp_data a)).
Proof.
  intros Hv. pose proof Hv as (_ & _ & ((_ & _ & _ & Hnd & _) & _)). set (w := PartitionVersion.mp_data a) in *.
  assert (forall l frs, fst <$> l = fr_key <$> frs -> (forall x, x ∈ l -> clustered_rows mp !! x.1 = Some x.2) -> (forall fr, fr ∈ frs -> fr ∈ view_rows w) ->
    Forall2 (fun x fr => x.1 = fr_key fr /\ row_of a fr x.2) (real_rows l) frs) as Hgen.
  { induction l as [|[k e] l IH]; intros [|fr frs] E Hl Hf; simplify_eq/=; [constructor|].
    destruct (version_row mp a (fr_key fr) e Hv (Hl (fr_key fr, e) ltac:(apply elem_of_cons; by left))) as (fr' & Hin & Ek & Hd & Hrow).
    assert (fr' = fr) as ->.
    { pose proof (proj2 (rows_map_elem (view_rows w) (fr_key fr) fr' Hnd) (conj Hin Ek)) as E1.
      pose proof (proj2 (rows_map_elem (view_rows w) (fr_key fr) fr Hnd) (conj (Hf fr ltac:(apply elem_of_cons; by left)) eq_refl)) as E2. congruence. }
    cbn. rewrite Hd. constructor; [done|]. apply IH; [done| |]; intros x Hx; [apply Hl|apply Hf]; apply elem_of_cons; by right. }
  apply Hgen; [by apply version_keys| |done]. intros [k e] Hx. by apply (ordered_rows_elem tri_compare).
Qed.

Lemma version_deletion_of mp a older aolder k : version_of mp a -> Forall2 version_of older aolder ->
  snapshot_deletion tri_compare mp older k = version_deletion a aolder k.
Proof.
  intros (_ & (T & _ & _ & C & _) & _) Hold. unfold snapshot_deletion, version_deletion. rewrite C. do 2 f_equal.
  unfold snapshot_tombstone, squashed. rewrite T. generalize (view_tombstone (PartitionVersion.mp_data a)).
  induction Hold as [|mp' a' older aolder (_ & (T' & _) & _) _ IH]; intros t; simpl; [done|]. by rewrite T', IH.
Qed.

Lemma written_shown_of a fr d cov : ids_sorted (fr_cells fr) -> row_of a fr d ->
  row_shown now cov d = written_shown (row_deletion cov fr) fr.
Proof.
  intros Hs Hrow. pose proof Hrow as (Hm & Hd & Hf). unfold row_shown, written_shown, row_deletion, acting. rewrite Hm, Hd. f_equal.
  set (T := shadowable _). apply eq_true_iff_eq. rewrite !existsb_exists. setoid_rewrite <- list_elem_of_In. setoid_rewrite bool_decide_eq_true.
  assert (NoDup (fr_cells fr).*1) as Hnd.
  { clear -Hs. induction Hs as [|x l _ IH Hx]; constructor; [|done]. intros (y & E & Hy)%list_elem_of_fmap. rewrite Forall_forall in Hx. specialize (Hx y Hy). lia. }
  split.
  - intros (id & _ & Hv). rewrite (row_of_data a fr d id Hrow) in Hv. destruct (cells_map (fr_cells fr) !! id) as [c|] eqn:E; [|by destruct Hv].
    apply elem_of_list_to_map_2 in E. by exists (id, c).
  - intros ([id c] & Hin & Hv). apply elem_of_list_to_map_1 in Hin; [|done]. exists id. rewrite (row_of_data a fr d id Hrow), Hin. split; [|done].
    apply row_ids_elem. rewrite Hf, Hin. by eexists.
Qed.

Lemma row_answered_read a cs x cov d fr : row_of a fr d ->
  row_answered st cs x (fr_key fr, cov, d) -> row_read a cs x (row_deletion cov fr, fr).
Proof.
  intros Hrow [E Hx]. pose proof Hrow as (_ & Hd & Hf). split; [done|]. simpl. eapply Forall2_impl; [exact Hx|]. simpl. intros id q.
  unfold acting, row_deletion. rewrite Hd, (row_of_data a fr d id Hrow). unfold version_at. rewrite Hf. by destruct (cells_map (fr_cells fr) !! id).
Qed.

(** The rows of the snapshot are those of the version. *)
Lemma version_snapshot_rows mp a older aolder : version_of mp a -> Forall2 version_of older aolder ->
  Forall2 (fun r x => exists cov d, r = (fr_key x.2, cov, d) /\ row_of a x.2 d /\ x.1 = row_deletion cov x.2)
    (snapshot_rows tri_compare st mp older) (version_rows a aolder).
Proof.
  intros Hv Hold. pose proof Hv as (_ & _ & ((_ & _ & _ & _ & Hok) & _)). unfold snapshot_rows, version_rows, shown_rows.
  pose proof (version_real_rows mp a Hv) as Hrows. revert Hok. induction Hrows as [|[k d] fr l frs [Ek Hrow] _ IH]; intros Hok; [constructor|].
  apply Forall_cons in Hok as [(Hc & _) Hok]. simpl in Ek, Hrow. subst k. cbn. rewrite (version_deletion_of mp a older aolder _ Hv Hold).
  rewrite (written_shown_of a fr d _ (proj1 Hc) Hrow). destruct (written_shown _ fr); [|by apply IH].
  constructor; [|by apply IH]. eexists _, d. done.
Qed.

Hypothesis Honly : only_live st = true.
Hypothesis Hquery : sstable_compaction st = false.
Hypothesis Hstops : forall l, stops st l = false.
Hypothesis Hforward : reverse_order st = false.
Hypothesis Hprl : 0 < partition_row_limit st < 2 ^ 32.
Hypothesis Hnow : - 2 ^ 31 <= query_time st.
Hypothesis Hcolumns : columns st = s.

Lemma version_query mp a older aolder marks cs dk limit plimit : version_of mp a -> Forall2 version_of older aolder -> 0 < limit < 2 ^ 32 -> 0 < plimit < 2 ^ 32 ->
  exists n, forall steps, (n <= steps)%nat -> exists ans,
    data_query s less peq st dk limit plimit steps [full_range] cs mp older marks = Some ans
    /\ Forall2 (row_read a cs) ans (take (Z.to_nat (Z.min limit (partition_row_limit st))) (version_rows a aolder)).
Proof.
  intros Hv Hold Hlim Hpl.
  assert (Forall (fun mp : partition => row_valid (static_columns s) (static_row mp)) older) as Hst.
  { clear -Hold. induction Hold as [|mp' a' older aolder H1 _ IH]; constructor; [|done]. by destruct (version_readable mp' a' H1) as (_ & ? & _). }
  destruct (data_query_spec s tri_compare Htri Htri_eq st Honly Hquery Hstops Hforward Hprl Hnow Hcolumns Hregular Hstatic
    mp older marks cs dk limit plimit (version_readable mp a Hv) Hst Hlim Hpl) as (n & Hn).
  exists n. intros steps Hsteps. destruct (Hn steps Hsteps) as (ans & E & Hans). exists ans. split; [done|].
  pose proof (version_snapshot_rows mp a older aolder Hv Hold) as Hrows. apply (Forall2_take _ _ _ (Z.to_nat (Z.min limit (partition_row_limit st)))) in Hrows.
  eapply Forall2_trans; [|exact Hans|exact Hrows]. intros x r [T fr] Hx (cov & d & -> & Hrow & Hy). simpl in *. subst T.
  by apply (row_answered_read a cs x cov d fr).
Qed.

(** C13. A PORT read tells the client what was written. A read of version [t],
    for the live rows of a whole partition in forward order, of an entry whose
    versions are the partitions of their writes, ends with the rows of the version that [partition_entry::read] chose, and of no other: those in
    which a marker or a cell is visible under the row's own deletion, the ranges of
    that version and the newest partition tombstone of that version and all older
    ones, in the order of their keys, up to the limits. Each column asked for
    has its cell when it is visible, an atomic cell with the version number that
    the write was promoted to in column 0 of the row with the empty key and 0
    elsewhere, and a column that this version did not write has none. This holds
    however often the snapshot changes under the reader. *)
Theorem port_read_answer e t e' pv mps marks cs dk limit plimit :
  Forall2 version_of mps (PartitionVersion.pv_partition <$> PartitionVersion.versions e) ->
  PartitionVersion.read t e = Some (e', pv) -> 0 < limit < 2 ^ 32 -> 0 < plimit < 2 ^ 32 ->
  let i := PartitionVersion.read_position t (PartitionVersion.versions e) in
  let a := PartitionVersion.pv_partition pv in
  let aolder := PartitionVersion.pv_partition <$> drop (S i) (PartitionVersion.versions e) in
  exists mp, mps !! i = Some mp
    /\ exists n, forall steps, (n <= steps)%nat -> exists ans,
      data_query s less peq st dk limit plimit steps [full_range] cs mp (drop (S i) mps) marks = Some ans
      /\ Forall2 (row_read a cs) ans (take (Z.to_nat (Z.min limit (partition_row_limit st))) (version_rows a aolder)).
Proof.
  intros Hmps (pv' & E & [= _ <-])%bind_Some Hlim Hpl i a aolder. fold i in E.
  assert ((PartitionVersion.pv_partition <$> PartitionVersion.versions e) !! i = Some a) as Ea by (rewrite list_lookup_fmap, E; done).
  destruct (Forall2_lookup_r _ _ _ _ _ Hmps Ea) as (mp & Emp & Hv). exists mp. split; [done|]. apply version_query; [done| |done|done].
  unfold aolder. rewrite fmap_drop. by apply Forall2_drop.
Qed.
End read.

(** ** Two writes *)

(** A write of both columns of the row with the empty key, and one of the first
    column alone. *)
Definition both_columns : partition_view (list Z) Z :=
  View no_tombstone [] [] [FRow [] no_row_tombstone (Marker 7 0 0) [(0%nat, Atomic (Live 7 [1] None)); (1%nat, Atomic (Live 7 [2] None))]].
Definition first_column : partition_view (list Z) Z :=
  View no_tombstone [] [] [FRow [] no_row_tombstone (Marker 8 0 0) [(0%nat, Atomic (Live 8 [3] None))]].

(** The partition of a write at version [v]. *)
Definition written_partition (v : Z) (w : partition_view (list Z) Z) : option (mutation_partition (list Z) Z) :=
  match apply_view (fun _ => true) atomic_env (key_less (bound_less Z_compare)) Z_compare v no_partition_fault w with
  | Merged mp _ => stamp_partition [] v mp
  | _ => None
  end.

(** The entry after the writes at versions 5 and 7, and its partitions. *)
Definition two_writes : option (@PartitionVersion.partition_entry (partition_view (list Z) Z)) :=
  PartitionVersion.run
    [PartitionVersion.OWrite true (abstract_view [] both_columns) 5; PartitionVersion.OWrite true (abstract_view [] first_column) 7]
    (PartitionVersion.partition_entry_new (PartitionVersion.mp_apply_to_empty (abstract_view [] (View no_tombstone [] [] [])))).
Definition two_partitions : option (list (mutation_partition (list Z) Z)) :=
  a ← written_partition 5 both_columns; b ← written_partition 7 first_column; Some [b; a; empty_partition].

Definition example_read (steps : nat) (i : nat) (mps : list (mutation_partition (list Z) Z)) : option (list (list Z * list (option qr_cell))) :=
  mp ← mps !! i;
  data_query atomic_env (bound_less Z_compare) (prefix_equal Z_compare) example_settings 1 10 1 steps [full_range] [0%nat; 1%nat] mp (drop (S i) mps) (fun _ => true).

Lemma one_row_valid ts l : missing_timestamp < ts -> marker_ok (Marker ts 0 0) -> ids_sorted l ->
  Forall (fun p => content_ok AtomicColumn p.2 /\ content_valid p.2) l ->
  view_valid atomic_env Z_compare (View no_tombstone [] [] [FRow [] no_row_tombstone (Marker ts 0 0) l]).
Proof.
  intros Hts Hm Hs Hl. rewrite Forall_forall in Hl. split; [|split; [|split]].
  - split; [apply tomb_le_refl|]. split; [split; [constructor|by intros ? ? ?%elem_of_nil]|]. split; [by split; constructor|].
    split; [apply NoDup_singleton|]. apply Forall_singleton. split; [split; [done|]; intros id c Hc; by destruct (Hl _ Hc)|].
    split; [done|]. split; [by right|]. split; apply tomb_le_refl.
  - by intros ? ?%elem_of_nil.
  - apply Forall_singleton. intros p Hp. by destruct (Hl p Hp).
  - simpl. repeat constructor.
Qed.

Lemma two_views_valid : view_valid atomic_env Z_compare both_columns /\ view_valid atomic_env Z_compare first_column.
Proof.
  split; (apply one_row_valid; [vm_compute; reflexivity|vm_compute; split; discriminate || reflexivity|repeat constructor|]);
    repeat constructor; simpl; unfold times_ok; vm_compute; (discriminate || reflexivity).
Qed.

Abbreviation example_version := (version_of (fun _ => true) atomic_env Z_compare).

Lemma written_version v w mp : view_valid atomic_env Z_compare w -> is_Some (view_cell0 [] w) -> written_partition v w = Some mp ->
  example_version mp (PartitionVersion.MP w (Some v)).
Proof.
  intros Hw Hc E. unfold written_partition in E. destruct (apply_view _ _ _ _ _ _ _) as [mp0 p'|?|] eqn:Ea; [|done|done].
  destruct (write_version_of (fun _ => true) atomic_env Z_compare Z_compare_order (fun _ => I) (fun _ => I) w v _ mp0 p' Hw Ea) as [_ Hs].
  apply (Hs v mp); [done|]. unfold PartitionVersion.stamp_cell0. simpl. by rewrite bool_decide_eq_true_2.
Qed.

Lemma no_write_version : example_version empty_partition (PartitionVersion.MP (View no_tombstone [] [] []) None).
Proof.
  split; [apply empty_partition_good|]. split.
  - split; [done|]. split; [by intros id|]. split; [by intros k|]. split; [done|]. split; by intros [? ?].
  - split; [|split; [by intros ? ?%elem_of_nil|split; constructor]].
    split; [apply tomb_le_refl|]. split; [split; [constructor|by intros ? ? ?%elem_of_nil]|]. split; [by split; constructor|]. split; constructor.
Qed.

(** The entry that the writes leave. *)
Definition two_versions : @PartitionVersion.partition_entry (partition_view (list Z) Z) :=
  PartitionVersion.PE
    [PartitionVersion.PV 2 (PartitionVersion.MP first_column (Some 7)) 7 false;
     PartitionVersion.PV 1 (PartitionVersion.MP both_columns (Some 5)) 5 false;
     PartitionVersion.PV 0 (PartitionVersion.MP (View no_tombstone [] [] []) None) 0 false] 0 7 2 None 3.

Lemma two_writes_versions : two_writes = Some two_versions.
Proof. reflexivity. Qed.

Lemma two_partitions_versions : exists mps, two_partitions = Some mps
  /\ Forall2 example_version mps (PartitionVersion.pv_partition <$> PartitionVersion.versions two_versions).
Proof.
  assert (is_Some two_partitions) as [mps E] by (vm_compute; by eexists). exists mps. split; [done|].
  unfold two_partitions in E. apply bind_Some in E as (a & Ea & (b & Eb & [= <-])%bind_Some). destruct two_views_valid as [V1 V2].
  constructor; [apply written_version; [done|by eexists|done]|]. constructor; [apply written_version; [done|by eexists|done]|].
  constructor; [apply no_write_version|constructor].
Qed.

Lemma Z_compare_eq (i : nat) (x y : Z) : Z_compare i x y = 0 -> x = y.
Proof. unfold Z_compare, cmpZ. repeat case_match; lia. Qed.

(** The read of version 9 finds the second write, at version 7. *)
Lemma port_read_answer_witness : exists mps n, two_partitions = Some mps
  /\ forall steps, (n <= steps)%nat -> example_read steps 0 mps = Some [([], [Some (QCell (Live 8 [3] None) 7); None])].
Proof.
  destruct two_partitions_versions as (mps & E & Hv). exists mps.
  destruct (port_read_answer (fun _ => true) atomic_env Z_compare Z_compare_order Z_compare_eq (fun _ => I) (fun _ => I) example_settings
    eq_refl eq_refl (fun _ => eq_refl) eq_refl ltac:(vm_compute; split; reflexivity) ltac:(vm_compute; discriminate) eq_refl
    two_versions 9 _ _ mps (fun _ => true) [0%nat; 1%nat] 1 10 1 Hv eq_refl ltac:(lia) ltac:(lia)) as (mp & Emp & n & Hn).
  exists n. split; [done|]. intros steps Hs. destruct (Hn steps Hs) as (ans & Eans & Hans). clear Hn.
  unfold example_read. rewrite (Emp : mps !! 0%nat = Some mp). cbn [mbind option_bind]. rewrite (Eans : data_query _ _ _ _ _ _ _ _ _ _ mp (drop 1 mps) _ = _). f_equal.
  match type of Hans with Forall2 _ _ ?l =>
    change l with [(no_tombstone, FRow ([] : list Z) no_row_tombstone (Marker 8 0 0) [(0%nat, Atomic (Live 8 [3] None))])] in Hans end.
  apply Forall2_cons_inv_r in Hans as ([k qs] & l & [Hk Hqs] & ->%Forall2_nil_inv_r & ->). simpl in Hk, Hqs. subst k.
  apply Forall2_cons_inv_l in Hqs as (q0 & l & H0 & Hqs & ->). apply Forall2_cons_inv_l in Hqs as (q1 & l' & H1 & ->%Forall2_nil_inv_l & ->).
  by rewrite (H0 : q0 = Some (QCell (Live 8 [3] None) 7)), (H1 : q1 = None).
Defined.

(** A write of some columns hides the others. After a write of two columns
    at version 5 and one of the first column alone at version 7, a read of
    the newest version has no value for the second column, since the reader takes its
    rows from one version; the merge of the two writes, which is what the same
    writes are without versions, has both. *)
Theorem port_partial_write_hides :
  match two_partitions with
  | Some (b :: a :: older) =>
      example_read 9 0 (b :: a :: older) = Some [([], [Some (QCell (Live 8 [3] None) 7); None])]
      /\ match partition_apply atomic_env (key_less (bound_less Z_compare)) (bound_less Z_compare) (prefix_equal Z_compare) 0 no_partition_fault a b with
         | Merged m _ => example_read 9 0 [m] = Some [([], [Some (QCell (Live 8 [3] None) 0); Some (QCell (Live 7 [2] None) 0)])]
         | _ => False
         end
  | _ => False
  end.
Proof. vm_compute. split; reflexivity. Qed.

(** ** Collection of a version *)

(** A write that deletes the partition at time 10 and writes column 0 at time 11,
    and one of column 0 at time [ts]. *)
Definition delete_and_write : partition_view (list Z) Z :=
  View (Tombstone 10 0) [] [] [FRow [] no_row_tombstone no_marker [(0%nat, Atomic (Live 11 [1] None))]].
Definition write_at (ts : Z) : partition_view (list Z) Z :=
  View no_tombstone [] [] [FRow [] no_row_tombstone no_marker [(0%nat, Atomic (Live ts [2] None))]].

(** The partitions of an entry all of whose writes are stamped, and a read of it. *)
Definition entry_partitions (e : @PartitionVersion.partition_entry (partition_view (list Z) Z)) : option (list (mutation_partition (list Z) Z)) :=
  mapM (fun pv => match PartitionVersion.mp_cell0 (PartitionVersion.pv_partition pv) with
                  | Some v => written_partition v (PartitionVersion.mp_data (PartitionVersion.pv_partition pv))
                  | None => Some empty_partition
                  end) (PartitionVersion.versions e).
Definition read_answer (t : Z) (e : @PartitionVersion.partition_entry (partition_view (list Z) Z)) : option (list (list Z * list (option qr_cell))) :=
  mps ← entry_partitions e; example_read 9 (PartitionVersion.read_position t (PartitionVersion.versions e)) mps.

Definition write_op (w : partition_view (list Z) Z) (v : Z) := PartitionVersion.OWrite true (abstract_view [] w) v.
Definition before_collection : option (@PartitionVersion.partition_entry (partition_view (list Z) Z)) :=
  PartitionVersion.run
    ([write_op delete_and_write 1; write_op (write_at 7) 2; PartitionVersion.ORead 2] ++ ((fun v => write_op (write_at 7) (Z.of_nat v)) <$> seq 3 98))
    (PartitionVersion.partition_entry_new (PartitionVersion.mp_apply_to_empty (abstract_view [] (View no_tombstone [] [] [])))).

(** C40. Collecting an old version brings back what it deleted. A partition is
    deleted at version 1, and a column written at version 2 with an older timestamp
    stays deleted: a read of version 2 finds nothing. One write more makes
    [apply] collect version 1 with its tombstone, and the read of version 2,
    whose snapshot has been open all along, finds the column. *)
Theorem port_collection_resurrects :
  match before_collection with
  | Some e => read_answer 2 e = Some []
      /\ match PartitionVersion.exec (write_op (write_at 7) 101) e with
         | Some e' => read_answer 2 e' = Some [([], [Some (QCell (Live 7 [2] None) 2); None])]
         | None => False
         end
  | None => False
  end.
Proof. vm_compute. split; reflexivity. Qed.
